(* ===== verification/_CoqProject ===== *)
-Q . S2P
Prelude.v
Serialized.v
Keccak.v
Util.v
Rlp.v
Address.v
Stack.v
Bytecode.v
Monad.v
GlobalState.v
Processor.v
EvmArith.v
EvmMemory.v
EvmSafety.v
EvmRun.v
Cipher.v
KvHandle.v
EthState.v
EthTx.v
ExecTx.v
SipHash.v
MapSerial.v
RbMap.v
ChampMap.v
UntypedMap.v
Store.v
KvSerial.v
Encryptor.v
Tx.v
Replication.v
Snapshot.v
Signature.v
Json.v
Abi.v
Policy.v
CloakTx.v
Generator.v
RingBuffer.v
RingFifo.v
Raft.v
RaftNet.v
RaftSafety.v
RaftLeader.v
RaftElection.v
HostLedger.v
HostFile.v
HostRefine.v
HostCommit.v
HostRestart.v
HostService.v
