(* ===== verification/Prelude.v ===== *)
(** * BridgeX TEE runtime: a verification library

    BridgeX runs Ethereum contracts inside a trusted execution environment: a
    CCF application (src/tee) receives signed transactions, executes them with
    the eEVM interpreter over a world state kept in CCF's key-value store, with
    contract storage encrypted or mirrored from a chain according to the
    contract's privacy level, and hands the changed keys over to the chain.
    Transactions of several parties are collected under a privacy policy and
    carried out between the chain and the enclave.  The store is replicated:
    every transaction becomes a ledger entry that backups apply, with
    signatures and snapshots.  This library models these paths, from the bytes
    of a transaction to the bytes in the ledger, and proves them correct or
    states where they are not.

    ** Parts, files and how they fit together

    Foundations:
    - Prelude.v (this file): results of C++ code ([result]: a value, an
      exception, undefined behaviour), machine integers as bounded [Z] with
      their wrap-around ([wrap8], [wrap64], [wrap256]; [u8], [u64], [u256]),
      byte lists read and written at 64-bit positions, big-endian numbers
      ([be_val], [be_bytes]), the case-analysis tactics and the hint database
      [mach].
    - Monad.v: the state and exception monad the stateful code is written in,
      and its Hoare triples.
    - Serialized.v: CCF/src/ds/serialized.h, the byte serialiser that the
      encrypted states, the ledger entries and the snapshots share.
    - Keccak.v: eEVM/3rdparty/internal/keccak/hash.c and the hashing constructor
      of eEVM/src/keccak256.cpp.
    - Util.v: hexadecimal, big-endian and decimal conversions of
      eEVM/include/eEVM/util.h, eEVM/src/util.cpp and intx.hpp.
    - Rlp.v: eEVM/include/eEVM/rlp.h.  The templates are functions of the static
      types, which are values of [Rlp.ty].
    - Address.v: checksummed addresses and the addresses of new contracts.

    Interpreter:
    - Stack.v: eEVM/src/stack.cpp.
    - Bytecode.v: opcode.h, class Program of processor.cpp, the disassembler.
    - GlobalState.v: the interface of accounts and storage as the class
      [GlobalState], with the class [GlobalStateLaws] of what the processor
      relies on, and the implementation SimpleGlobalState.
    - Processor.v: eEVM/src/processor.cpp, one definition per member function.
      [pstate] is the whole state of a run: the world state, the stack of
      contexts, the log, the accounts to destroy and the result.
    - EvmArith.v, EvmMemory.v, EvmSafety.v, EvmRun.v: theorems about the
      processor (arithmetic; memory; the invariant of the run loop; whole runs).

    World state and transactions:
    - Cipher.v: the two formats of encrypted state, src/ethereum/encryptor.h and
      src/state.  AES-GCM is the class [Gcm] with the laws [GcmLaws].
    - EthState.v: src/ethereum/account_proxy.h, state.h and transaction_sync.h:
      the second implementation of [GlobalState], on the store's tables (finite
      maps, which is what KvHandle.v proves a handle to be).
    - EthTx.v: include/ethereum_transaction.h and src/transaction: encoding,
      signing and sender recovery.  The curve is the class [Secp256k1] with the
      laws [Secp256k1Laws].
    - ExecTx.v: src/ethereum/execute_transaction.h, which joins the parts: it
      takes a call, runs the processor on a [GlobalState] and counts the nonce.

    Multi-party transactions:
    - Json.v: JSON values and the accessors of nlohmann that the code uses.
    - Abi.v: src/abi, the contract ABI coder: types from JSON, coders, encoding
      and decoding.
    - Policy.v: src/queue/types.h and nljsontypes.h, privacy policies.
    - CloakTx.v: src/queue/workertransaction.h: the record of a transaction, the
      proposal, and the states that travel between the chain and the enclave.
      [Utils] of app/utils.h, which is not part of the sources, is the class
      [Agent] with [AgentLaws].
    - Generator.v: src/transaction/generator.h and the endpoints that call it,
      with the account of the enclave of src/ethereum/tee_manager.h and the
      heartbeat of src/web3client/web3_operation.h.  A request
      is a step from tables to tables ([Generator.handle], [Generator.steps]).

    Key-value store:
    - KvHandle.v: CCF/src/kv/untyped_map_handle.cpp, the handle by which a
      transaction reads and writes one map of the store.
    - MapSerial.v, RbMap.v, SipHash.v, ChampMap.v: the two persistent maps that
      can hold a table (CCF/src/ds/rb_map.h, champ_map.h with its hash) and
      their snapshot format (map_serializers.h); both are instances of the
      class [MapSerial.KvState] of what a table needs.
    - UntypedMap.v: CCF/src/kv/untyped_map.h: the versions of a table, opening,
      validating and committing change sets, rollback and compaction.
    - Store.v: CCF/src/kv/store.h and apply_changes.h: the tables with their
      versions, atomic commits over several tables, the replication queue.
    - KvSerial.v: raw_serialise.h and generic_serialise_wrapper.h: ledger
      entries with their public and private domains.
    - Encryptor.v: kv/encryptor.h, node/encryptor.h and ledger_secrets.h: the
      encryption of the private domain, its IVs and its secrets; the instance of
      the interface that KvSerial.v is written against.
    - Tx.v: committable_tx.h and tx.cpp: transactions over several tables.
    - Replication.v: deserialise.h and [Store::deserialize]: backups.
    - Snapshot.v: snapshot.h and the snapshots of a store.
    - Signature.v: the part of node/history.h that emits signatures.

    Consensus:
    - Raft.v: CCF/src/consensus/aft/raft.h with its state (impl/state.h) and
      messages, the ledger proxy and the configuration hook.  [Raft.Node] is a
      replica; every member function is an operation on it.  The store is the
      class [Raft.AftStore].
    - RaftNet.v: replicas that exchange messages ([RaftNet.Net]), the entries
      that the host affixes to them, and a store with which runs are evaluated.
    - RaftSafety.v, RaftLeader.v, RaftElection.v: theorems about one replica,
      about what a leader sends and commits, and about elections.

    Enclave and host:
    - RingBuffer.v, RingFifo.v: CCF/src/ds/ring_buffer.h, the lock-free buffer
      between the enclave and the host.  The reader and the writers are programs
      of atomic actions on the shared memory ([RingBuffer.prog]), interleaved in
      any order ([RingBuffer.step]); the second file holds the program logic and
      the invariant.
    - HostLedger.v: CCF/src/host/ledger.h, the ledger of the host.  A disk is
      inodes and directories ([HostLedger.FS]), a chunk is
      [HostLedger.LedgerFile], and [HostLedger.Ledger] has the list of chunks;
      [HostLedger.handle] is the dispatch of messages, [HostLedger.recover] the
      constructor.  The order of a directory listing is a parameter.
    - HostFile.v, HostRefine.v, HostCommit.v, HostRestart.v, HostService.v: what a
      chunk file holds; the relation between the disk and a list of entries; that
      the operations keep it; the constructor; the theorems.

    ** What the theorems show

    Interpreter: over every world state that keeps its laws the loop stays
    within 1024 contexts and 32 MiB of memory, never executes the inside of an
    immediate, and can meet undefined behaviour only at named instructions
    ([run_invariant]); compiled expressions return their value
    ([run_program_eval]); SDIV meets its meaning except on stated operands
    ([sdiv_spec]); what the code does at STATICCALL and at the first instruction
    ([staticcall_two_contexts], [first_instruction_twice]).

    Encodings: round trips of RLP ([decode_encode]), of signed transactions
    ([sign_eth_tx_roundtrip], [sign_transaction_digest]), of ledger entries
    ([entry_roundtrip], [reader_overreads]), of contract storage at every
    privacy level ([eth_store_load]); the ABI coder writes the format of the
    contract ABI specification and reads it back, with the types for which it
    does not ([encode_is_abi], [abi_roundtrip], [abi_decode_gaps]).  The hash is
    the sponge over Keccak-f[1600] ([keccak256_sponge],
    [sha3_permutation_keccak_f]).

    Store: a handle refines a finite map ([kv_handle_refines]) and so do the two
    persistent maps ([champ_refines], [rb_put_refines]); validated transactions
    on one and on several tables are serialisable, and what is not validated
    ([occ_serialisable], [tx_serialisable], [write_skew], [solo_progress]);
    commits over several tables are atomic and keep the invariant of the store
    ([apply_changes_atomic], [store_invariant], [store_rollback_restores]), as
    long as no snapshot is installed; transactions are handed to the consensus
    in the order of their versions, and not beyond a batch that is refused
    ([replicated_in_order]), signatures too ([signature_emitted]); a backup that
    applies the entry of a transaction has the tables of the primary
    ([backup_follows_primary], [entry_rejected]); a snapshot restores the tables
    ([snapshot_restores]); an IV is not used twice ([iv_unique]) and what one
    node encrypts another decrypts, each with its own cached secret
    ([node_encryptor_ok]).  The hash of the maps is SipHash ([siphash_spec]).

    Multi-party transactions: the nonces of the transactions that the enclave
    signs for the chain, on requests and on heartbeats: consecutive while all
    commits succeed, used again after one that does not
    ([nonces_in_sequence]); what a request can change of a transaction ([workflow_step]); policies stay
    registered ([policies_stay]) and are read back from the tables
    ([policy_json_roundtrip]); encrypted states are decrypted to what they were
    by a later transaction ([states_roundtrip]) and have the announced length ([return_len_exact]); the
    walk over the states need not end ([visit_states_loops]); the pending keys
    that a heartbeat hands over ([sync_states_spec]).

    Consensus: whatever messages, timeouts and entries a replica gets, what it
    has committed stays, and its ledger ends where its log ends
    ([raft_committed_stays]); with a fixed configuration no view has two leaders,
    over a network that loses, repeats and reorders ([election_safety]); a leader
    sends its log without gaps, in messages of one view ([append_entries_cover],
    [highest_possible_match]), and commits, on an answer of its view, what a
    majority has by its own account ([commit_has_quorum]), which is not always
    what they hold:
    replicas can commit different entries ([committed_logs_diverge]).

    Ledger on disk: for the messages that [HostService.admissible] describes, to
    append, truncate, commit and open, the chunk files hold the list of entries, and a request for
    a range is answered from the list ([host_ledger_refines]); a host that is
    started again finds all the entries, also when its last write was cut short
    ([host_ledger_restarts]); a limit on the size of a reply can leave it empty
    ([capped_range_gives_nothing]).

    Ring buffer: whatever the interleaving of one reader and any number of
    writers, the messages read are the messages written, in the order in which
    their space was reserved, each once and whole ([ring_fifo]); a reader that
    runs alone takes out every finished message ([ring_drains]); no action
    leaves the memory of the buffer ([ring_in_bounds]).

    Theorems named after a defect state it positively, as what the code does.

    ** Fuel and bounds

    The run loop takes fuel and returns [None] when it is used up.
    [run_program_eval] gives fuel that is enough for compiled expressions, and
    [EvmRun.run_mono] shows that more fuel never changes an outcome; EVM
    programs in general need not terminate (gas is not charged by the code).
    The walk over a list of states takes fuel, since it need not end; the length
    of a well-formed list is enough ([states_roundtrip]).  The replication loop
    ends after one turn per pending transaction ([replicated_in_order] gives
    fuel).  Other recursions use a measure that is a bound of the data: the
    length of the input for scanning loops, 256 turns for loops over the bits or
    digits of a 256-bit number.  Statements about RLP assume encodings below
    4 GiB, where the C++ decoder has its own limit, and vectors are shorter than
    2^63 bytes.  The loops of the consensus take one unit of fuel per index,
    configuration or byte; logs and payloads are shorter than 2^62 and views do
    not reach 2^64 - 1.  The ring buffer is studied while fewer than 2^62 bytes have
    passed through it, before its counters can wrap; the retry loops of a writer
    take fuel, one unit per attempt.  In the ledger on disk indices are below
    2^62 and chunks below 4 GiB, as their 32-bit positions need; a loop that
    reads a range takes a unit of fuel per entry and the halving of a range 65.
    A write reaches the disk at once: the buffers of stdio and failures of the
    file system are not modelled, a write that was cut short is.

    ** Not modelled

    The BFT variant of the consensus and its resharing (which cannot be
    constructed), the channels between nodes, the Merkle tree of the history and
    the verification of signatures (parameters), block headers,
    the JSON-RPC layers and the parsing of JSON text, logging and traces, the
    enclave and host processes, web3 input and output apart from the heartbeat,
    the endpoint cloak_prepare (its function is not in the sources), the dispatcher, the
    fragments and the non-blocking writer on top of the ring buffer, key
    exchange, HTTP and JavaScript.  Exception messages are not modelled, only
    their classes.  Locks are not modelled: an operation that holds a lock is
    one step.  Code outside the sources enters through the interfaces above, the
    environment of a run ([Processor.Env]: clock, uninitialised bytes, lifetime
    of a captured reference), [EthState.Host] (random IVs, answers of the host
    to state exports) and [Generator.External] ([execute_mpt], parsers, service
    address, IVs). *)
From stdpp Require Import base list gmap strings numbers tactics.
From Stdlib Require Import ZArith Lia.
From Stdlib Require Export ZifyBool.

Global Open Scope Z_scope.

(** Case analysis on the tests of executable definitions. *)
Ltac zcase :=
  match goal with
  | |- context [Z.leb ?a ?b] => destruct (Z.leb_spec a b)
  | |- context [Z.ltb ?a ?b] => destruct (Z.ltb_spec a b)
  | |- context [Z.eqb ?a ?b] => destruct (Z.eqb_spec a b)
  end.
Ltac zcase_in H :=
  match type of H with
  | context [Z.leb ?a ?b] => destruct (Z.leb_spec a b)
  | context [Z.ltb ?a ?b] => destruct (Z.ltb_spec a b)
  | context [Z.eqb ?a ?b] => destruct (Z.eqb_spec a b)
  end.

(** ** Exceptions and results

    The C++ code signals failure by throwing.  [evm_exn] is
    [eevm::Exception::Type]; [cxx_exn] adds the other exception classes the
    sources throw.  Messages are not modelled.  [Undef] stands for undefined
    behaviour (an out-of-bounds read through a raw pointer or iterator). *)
Inductive evm_exn :=
  | outOfBounds | outOfGas | outOfFunds | overflow | illegalInstruction
  | notImplemented | revert_ | staticModeViolation.

Inductive cxx_exn :=
  | EvmException (t : evm_exn)
  | UnexpectedState
  | LogicError | OverflowError | LengthError | OutOfRange | InvalidArgument
  | RuntimeError | DecodeError | ABIException | EthException
  | TransactionException | CcfError | JsonError | BadOptionalAccess
  | KvSerialiserException | CompactedVersionConflict.

Inductive result (A : Type) :=
  | Ok (a : A)
  | Throw (e : cxx_exn)
  | Undef.
Arguments Ok {A} _.
Arguments Throw {A} _.
Arguments Undef {A}.

#[global] Instance evm_exn_eq_dec : EqDecision evm_exn.
Proof. solve_decision. Defined.
#[global] Instance cxx_exn_eq_dec : EqDecision cxx_exn.
Proof. solve_decision. Defined.
#[global] Instance result_eq_dec {A} `{EqDecision A} : EqDecision (result A).
Proof. solve_decision. Defined.

#[global] Instance result_ret : MRet result := fun A a => Ok a.
#[global] Instance result_bind : MBind result := fun A B f m =>
  match m with Ok a => f a | Throw e => Throw e | Undef => Undef end.
#[global] Instance result_fmap : FMap result := fun A B f m =>
  match m with Ok a => Ok (f a) | Throw e => Throw e | Undef => Undef end.

Definition is_ok {A} (r : result A) : bool :=
  match r with Ok _ => true | _ => false end.

(** [if (c) throw e;] *)
Definition guard_exn (c : bool) (e : cxx_exn) : result unit :=
  if c then Throw e else Ok tt.

Lemma bind_ok {A B} (m : result A) (f : A -> result B) b :
  m ≫= f = Ok b -> exists a, m = Ok a /\ f a = Ok b.
Proof. destruct m; cbn; try discriminate; eauto. Qed.

(** Map a fallible function over a list, left to right. *)
Fixpoint result_mapM {A B} (f : A -> result B) (l : list A) : result (list B) :=
  match l with
  | [] => Ok []
  | a :: l => b ← f a; bs ← result_mapM f l; Ok (b :: bs)
  end.

Lemma result_mapM_ok {A B} (f : A -> result B) l l' :
  result_mapM f l = Ok l' <-> Forall2 (fun a b => f a = Ok b) l l'.
Proof.
  revert l'; induction l as [|a l IH]; intros l'; cbn.
  - split; [intros [= <-]; constructor | by inversion 1].
  - destruct (f a) as [b| |] eqn:Ea; cbn.
    + destruct (result_mapM f l) as [bs| |] eqn:El; cbn.
      * split.
        -- intros [= <-]. constructor; [done|]. by apply IH.
        -- inversion 1; subst. apply IH in H4. congruence.
      * split; [done|]. inversion 1; subst. apply IH in H4. congruence.
      * split; [done|]. inversion 1; subst. apply IH in H4. congruence.
    + split; [done|]. inversion 1; subst. congruence.
    + split; [done|]. inversion 1; subst. congruence.
Qed.

Lemma result_mapM_total {A B} (f : A -> result B) l : (forall a, a ∈ l -> exists b, f a = Ok b) -> exists l', result_mapM f l = Ok l'.
Proof.
  induction l as [|a l IH]; intros H; [by eexists|]. destruct (H a ltac:(left)) as [b Hb], IH as [l' Hl']; [intros x Hx; apply H; by right|].
  exists (b :: l'). cbn. rewrite Hb. cbn. by rewrite Hl'.
Qed.

(** ** Machine integers

    A w-bit unsigned integer is a [Z] in [0, 2^w); every C++ operation that can
    leave the range is followed by its wrap-around. *)
Definition M8 : Z := 2 ^ 8.
Definition M16 : Z := 2 ^ 16.
Definition M64 : Z := 2 ^ 64.
Definition M128 : Z := 2 ^ 128.
Definition M160 : Z := 2 ^ 160.
Definition M256 : Z := 2 ^ 256.
Definition wrap8 (x : Z) : Z := x mod M8.
Definition wrap16 (x : Z) : Z := x mod M16.
Definition wrap64 (x : Z) : Z := x mod M64.
Definition wrap256 (x : Z) : Z := x mod M256.

Definition u8 (x : Z) : Prop := 0 <= x < M8.
Definition u64 (x : Z) : Prop := 0 <= x < M64.
Definition u256 (x : Z) : Prop := 0 <= x < M256.
Definition bytes_ok (l : list Z) : Prop := Forall u8 l.

#[global] Instance u8_dec x : Decision (u8 x).
Proof. unfold u8. apply _. Defined.
#[global] Instance u64_dec x : Decision (u64 x).
Proof. unfold u64. apply _. Defined.
#[global] Instance u256_dec x : Decision (u256 x).
Proof. unfold u256. apply _. Defined.
#[global] Instance bytes_ok_dec l : Decision (bytes_ok l).
Proof. unfold bytes_ok. apply _. Defined.

Lemma M8_val : M8 = 256. Proof. reflexivity. Qed.
Lemma M64_val : M64 = 18446744073709551616. Proof. reflexivity. Qed.
Lemma M64_lt_M256 : M64 < M256. Proof. reflexivity. Qed.
Lemma M8_lt_M256 : M8 < M256. Proof. reflexivity. Qed.
Lemma M256_pos : 0 < M256. Proof. reflexivity. Qed.
Lemma M64_pos : 0 < M64. Proof. reflexivity. Qed.
Lemma M8_pos : 0 < M8. Proof. reflexivity. Qed.

Create HintDb mach.

Lemma wrap64_u64 x : u64 (wrap64 x).
Proof. apply Z.mod_pos_bound, M64_pos. Qed.
Lemma wrap256_u256 x : u256 (wrap256 x).
Proof. apply Z.mod_pos_bound, M256_pos. Qed.
Lemma wrap8_u8 x : u8 (wrap8 x).
Proof. apply Z.mod_pos_bound, M8_pos. Qed.
Lemma wrap256_small x : u256 x -> wrap256 x = x.
Proof. apply Z.mod_small. Qed.
Lemma wrap64_small x : u64 x -> wrap64 x = x.
Proof. apply Z.mod_small. Qed.
Lemma u64_u256 x : u64 x -> u256 x.
Proof. unfold u64, u256. pose proof M64_lt_M256. lia. Qed.
Lemma u8_u256 x : u8 x -> u256 x.
Proof. unfold u8, u256. pose proof M8_lt_M256. lia. Qed.
Lemma u64_0 : u64 0. Proof. split; [lia | reflexivity]. Qed.
Lemma u256_0 : u256 0. Proof. split; [lia | reflexivity]. Qed.
Lemma u256_1 : u256 1. Proof. split; [lia | reflexivity]. Qed.
Lemma u256_le x y : u256 y -> 0 <= x <= y -> u256 x.
Proof. unfold u256. lia. Qed.
Lemma u256_div x y : u256 x -> 0 < y -> u256 (x / y).
Proof.
  intros Hx Hy. apply (u256_le _ x Hx). split.
  - apply Z.div_pos; [apply Hx | done].
  - destruct Hx. apply Z.div_le_upper_bound; [done|]. nia.
Qed.
Lemma u256_mod x y : u256 y -> 0 < y -> u256 (x mod y).
Proof.
  intros Hy Hp. apply (u256_le _ y Hy). pose proof (Z.mod_pos_bound x y Hp). lia.
Qed.
#[export] Hint Resolve wrap64_u64 wrap256_u256 wrap8_u8 u64_u256 u8_u256 u256_0 u256_1 : mach.

(** Bitwise operations stay in range. *)
Lemma pow2_bound_testbit x n : 0 <= n ->
  (0 <= x < 2 ^ n <-> 0 <= x /\ forall i, n <= i -> Z.testbit x i = false).
Proof.
  intros Hn. split.
  - intros [H0 Hlt]. split; [done|]. intros i Hi.
    destruct (Z.eq_dec x 0) as [->|Hx]; [apply Z.bits_0|].
    apply Z.bits_above_log2; [done|].
    apply Z.log2_lt_pow2 in Hlt; lia.
  - intros [H0 Hb]. split; [done|].
    destruct (Z.lt_ge_cases x (2 ^ n)) as [|Hge]; [done|exfalso].
    assert (0 < 2 ^ n) by (apply Z.pow_pos_nonneg; lia).
    assert (Hl : n <= Z.log2 x) by (apply Z.log2_le_pow2; lia).
    specialize (Hb _ Hl). rewrite Z.bit_log2 in Hb; [done|lia].
Qed.

Lemma land_bound x y n : 0 <= n -> 0 <= x < 2 ^ n -> 0 <= y -> 0 <= Z.land x y < 2 ^ n.
Proof.
  intros Hn Hx Hy. apply pow2_bound_testbit in Hx as [Hx0 Hx]; [|done].
  apply pow2_bound_testbit; [done|]. split; [apply Z.land_nonneg; lia|].
  intros i Hi. by rewrite Z.land_spec, Hx.
Qed.
Lemma lor_bound x y n : 0 <= n -> 0 <= x < 2 ^ n -> 0 <= y < 2 ^ n -> 0 <= Z.lor x y < 2 ^ n.
Proof.
  intros Hn Hx Hy. apply pow2_bound_testbit in Hx as [Hx0 Hx]; [|done].
  apply pow2_bound_testbit in Hy as [Hy0 Hy]; [|done].
  apply pow2_bound_testbit; [done|]. split; [apply Z.lor_nonneg; lia|].
  intros i Hi. by rewrite Z.lor_spec, Hx, Hy.
Qed.
Lemma lxor_bound x y n : 0 <= n -> 0 <= x < 2 ^ n -> 0 <= y < 2 ^ n -> 0 <= Z.lxor x y < 2 ^ n.
Proof.
  intros Hn Hx Hy. apply pow2_bound_testbit in Hx as [Hx0 Hx]; [|done].
  apply pow2_bound_testbit in Hy as [Hy0 Hy]; [|done].
  apply pow2_bound_testbit; [done|]. split; [apply Z.lxor_nonneg; lia|].
  intros i Hi. by rewrite Z.lxor_spec, Hx, Hy.
Qed.
Lemma u64_lxor x y : u64 x -> u64 y -> u64 (Z.lxor x y).
Proof. apply (lxor_bound x y 64). lia. Qed.

(** Filling the low bits of a shifted number is addition. *)
Lemma lor_low x d k : 0 <= k -> 0 <= d < 2 ^ k -> Z.lor (x * 2 ^ k) d = x * 2 ^ k + d.
Proof.
  intros Hk Hd. rewrite <- (Z.add_lor_land (x * 2 ^ k) d).
  enough (Z.land (x * 2 ^ k) d = 0) by lia.
  apply Z.bits_inj'. intros i Hi. rewrite Z.land_spec, Z.bits_0.
  rewrite <- Z.shiftl_mul_pow2, Z.shiftl_spec by lia.
  destruct (Z.lt_ge_cases i k).
  - rewrite (Z.testbit_neg_r x) by lia. done.
  - apply (pow2_bound_testbit d k) in Hd as [_ Hd]; [|lia]. rewrite Hd by lia. apply andb_false_r.
Qed.

(** ** Byte vectors *)
Abbreviation zlen l := (Z.of_nat (length l)).

(** [vec.size() - n] bytes from index [n]: [std::vector(v.begin() + n, v.end())]. *)
Definition zdrop {A} (n : Z) (l : list A) : list A := drop (Z.to_nat n) l.
Definition ztake {A} (n : Z) (l : list A) : list A := take (Z.to_nat n) l.
(** Bytes [off, off+n). *)
Definition zslice {A} (off n : Z) (l : list A) : list A := ztake n (zdrop off l).
(** [vec[i]] *)
Definition znth (i : Z) (l : list Z) : Z := nth (Z.to_nat i) l 0.
(** [vec.resize(n)]: new elements are 0. *)
Definition zresize (n : Z) (l : list Z) : list Z := resize (Z.to_nat n) 0 l.
(** Overwrite from index [off] (std::copy / memcpy into an existing buffer). *)
Definition zwrite (off : Z) (src dst : list Z) : list Z := list_inserts (Z.to_nat off) src dst.
Definition zeros (n : Z) : list Z := replicate (Z.to_nat n) 0.

Lemma bytes_ok_app l k : bytes_ok (l ++ k) <-> bytes_ok l /\ bytes_ok k.
Proof. apply Forall_app. Qed.
Lemma bytes_ok_nil : bytes_ok []. Proof. constructor. Qed.
Lemma bytes_ok_take n l : bytes_ok l -> bytes_ok (take n l).
Proof. apply Forall_take. Qed.
Lemma bytes_ok_drop n l : bytes_ok l -> bytes_ok (drop n l).
Proof. apply Forall_drop. Qed.
Lemma bytes_ok_zeros n : bytes_ok (replicate n 0).
Proof. apply Forall_replicate. split; [lia | reflexivity]. Qed.
Lemma bytes_ok_resize n l : bytes_ok l -> bytes_ok (resize n 0 l).
Proof. intros. apply Forall_resize; [split; [lia | reflexivity] | done]. Qed.
Lemma Forall_list_inserts {A} (P : A -> Prop) (k : list A) : forall i l,
  Forall P k -> Forall P l -> Forall P (list_inserts i k l).
Proof.
  induction k as [|x k IH]; intros i l Hk Hl; cbn; [done|].
  inversion Hk; subst. apply Forall_insert; [|done]. by apply IH.
Qed.
Lemma bytes_ok_inserts i k l : bytes_ok k -> bytes_ok l -> bytes_ok (list_inserts i k l).
Proof. apply Forall_list_inserts. Qed.
#[export] Hint Resolve bytes_ok_nil bytes_ok_take bytes_ok_drop bytes_ok_zeros
  bytes_ok_resize bytes_ok_inserts : mach.

Lemma foldl_ext_in {A B} (f g : A -> B -> A) l :
  (forall a b, In b l -> f a b = g a b) -> forall a, foldl f a l = foldl g a l.
Proof.
  induction l as [|b l IH]; intros H a; cbn; [done|]. rewrite H by (by left).
  apply IH. intros; apply H. by right.
Qed.

(** In range, overwriting keeps the two ends of the buffer. *)
Lemma list_inserts_spec {A} (k : list A) : forall i l, (i + length k <= length l)%nat ->
  list_inserts i k l = take i l ++ k ++ drop (i + length k) l.
Proof.
  induction k as [|x k IH]; intros i l Hl; cbn [list_inserts length] in *.
  - by rewrite Nat.add_0_r, app_nil_l, take_drop.
  - rewrite IH by lia.
    destruct (lookup_lt_is_Some_2 l i ltac:(lia)) as [y Hy].
    rewrite (take_S_r l i y Hy), <- app_assoc, insert_app_r_alt by (rewrite length_take; lia).
    rewrite length_take, Nat.min_l, Nat.sub_diag by lia. cbn.
    by rewrite Nat.add_succ_r.
Qed.

Lemma length_list_inserts {A} (k : list A) : forall i l, length (list_inserts i k l) = length l.
Proof. induction k as [|x k IH]; intros i l; cbn; [done|]. by rewrite length_insert, IH. Qed.

Lemma take_list_inserts {A} (k l : list A) i : (i + length k <= length l)%nat ->
  take (i + length k) (list_inserts i k l) = take i l ++ k.
Proof.
  intros Hl. rewrite list_inserts_spec, app_assoc by done.
  rewrite take_app_length' by (rewrite length_app, length_take; lia). done.
Qed.

Lemma bytes_ok_nth l i : bytes_ok l -> u8 (nth i l 0).
Proof.
  intros H. revert i; induction H as [|b l Hb Hl IH]; intros [|i]; cbn; auto.
  all: split; [lia | reflexivity].
Qed.

(** Reading back what the buffer operations wrote. *)
Lemma znth_app i l k : 0 <= i -> znth i (l ++ k) = if i <? zlen l then znth i l else znth (i - zlen l) k.
Proof.
  intros Hi. unfold znth. destruct (Z.ltb_spec i (zlen l)).
  - rewrite app_nth1 by lia. done.
  - rewrite app_nth2 by lia. f_equal. lia.
Qed.
Lemma znth_replicate i n x : 0 <= i < Z.of_nat n -> znth i (replicate n x) = x.
Proof. intros H. unfold znth. rewrite nth_lookup, lookup_replicate_2 by lia. done. Qed.
Lemma znth_over i l : zlen l <= i -> znth i l = 0.
Proof. intros H. unfold znth. apply nth_overflow. lia. Qed.
Lemma znth_zeros i n : znth i (replicate n 0) = 0.
Proof.
  unfold znth. destruct (Nat.lt_ge_cases (Z.to_nat i) n).
  - rewrite nth_lookup, lookup_replicate_2 by done. done.
  - apply nth_overflow. rewrite length_replicate. lia.
Qed.
Lemma zlen_zeros n : 0 <= n -> zlen (zeros n) = n.
Proof. intros H. unfold zeros. rewrite length_replicate. lia. Qed.
Lemma zlen_zresize n l : 0 <= n -> zlen (zresize n l) = n.
Proof. intros. unfold zresize. rewrite length_resize. lia. Qed.
Lemma znth_zresize i n l : 0 <= i -> zlen l <= n -> znth i (zresize n l) = znth i l.
Proof.
  intros Hi Hn. unfold zresize. rewrite resize_ge by lia. rewrite znth_app by done. zcase; [done|].
  rewrite znth_zeros, znth_over; [done | lia].
Qed.
Lemma zlen_zwrite off k l : zlen (zwrite off k l) = zlen l.
Proof. unfold zwrite. by rewrite length_list_inserts. Qed.
Lemma znth_zwrite i off k l : 0 <= i -> 0 <= off -> off + zlen k <= zlen l ->
  znth i (zwrite off k l) = if (off <=? i) && (i <? off + zlen k) then znth (i - off) k else znth i l.
Proof.
  intros Hi Ho Hl. unfold zwrite. rewrite list_inserts_spec by lia.
  rewrite znth_app, length_take by done. rewrite Nat.min_l, Z2Nat.id by lia.
  destruct (Z.leb_spec off i), (Z.ltb_spec i off); cbn [andb]; try lia.
  - rewrite znth_app by lia. destruct (Z.ltb_spec i (off + zlen k)).
    + destruct (Z.ltb_spec (i - off) (zlen k)); [done | lia].
    + destruct (Z.ltb_spec (i - off) (zlen k)); [lia|]. unfold znth. rewrite nth_skipn. f_equal. lia.
  - unfold znth. by rewrite nth_firstn, (proj2 (Nat.ltb_lt _ _)) by lia.
Qed.
Lemma zlen_zslice off n (l : list Z) : 0 <= off -> 0 <= n -> off + n <= zlen l -> zlen (zslice off n l) = n.
Proof. intros. unfold zslice, ztake, zdrop. rewrite length_take, length_drop. lia. Qed.
Lemma znth_zslice i off n l : 0 <= off -> 0 <= i < n -> znth i (zslice off n l) = znth (off + i) l.
Proof.
  intros Ho Hi. unfold zslice, ztake, zdrop, znth.
  rewrite nth_firstn, (proj2 (Nat.ltb_lt _ _)), nth_skipn by lia. f_equal. lia.
Qed.
Lemma znth_ext l k : zlen l = zlen k -> (forall i, 0 <= i < zlen l -> znth i l = znth i k) -> l = k.
Proof.
  intros Hl H. apply (nth_ext l k 0 0); [lia|]. intros n Hn. specialize (H (Z.of_nat n)).
  unfold znth in H. rewrite Nat2Z.id in H. apply H. lia.
Qed.

(** ** Big-endian numbers *)
Definition be_val (l : list Z) : Z := foldl (fun a b => a * 256 + b) 0 l.

Fixpoint be_bytes (n : nat) (v : Z) : list Z :=
  match n with
  | O => []
  | S n => (v / 256 ^ Z.of_nat n) mod 256 :: be_bytes n v
  end.

Lemma foldl_be_acc l a : foldl (fun a b => a * 256 + b) a l = a * 256 ^ zlen l + be_val l.
Proof.
  unfold be_val. revert a. induction l as [|b l IH]; intros a; cbn [foldl length].
  - rewrite Z.pow_0_r. lia.
  - rewrite IH, (IH (0 * 256 + b)), Nat2Z.inj_succ, Z.pow_succ_r by lia. lia.
Qed.

Lemma be_val_cons b l : be_val (b :: l) = b * 256 ^ zlen l + be_val l.
Proof. unfold be_val at 1. cbn [foldl]. rewrite foldl_be_acc. lia. Qed.

Lemma be_val_nil : be_val [] = 0. Proof. reflexivity. Qed.

Lemma be_val_app l k : be_val (l ++ k) = be_val l * 256 ^ zlen k + be_val k.
Proof. unfold be_val at 1. rewrite foldl_app. apply foldl_be_acc. Qed.

Lemma be_val_bound l : bytes_ok l -> 0 <= be_val l < 256 ^ zlen l.
Proof.
  induction 1 as [|b l [Hb0 Hb1] Hl IH]; [cbn; lia|].
  rewrite be_val_cons. cbn [length]. rewrite Nat2Z.inj_succ, Z.pow_succ_r by lia.
  unfold M8 in Hb1. change (2 ^ 8) with 256 in Hb1. nia.
Qed.

Lemma be_val_zeros n : be_val (replicate n 0) = 0.
Proof. induction n; cbn [replicate]; [done|]. rewrite be_val_cons. lia. Qed.

Lemma length_be_bytes n v : length (be_bytes n v) = n.
Proof. induction n; cbn; congruence. Qed.

Lemma be_bytes_ok n v : bytes_ok (be_bytes n v).
Proof.
  induction n as [|n IH]; [constructor|]. constructor; [|exact IH].
  apply (Z.mod_pos_bound _ 256). reflexivity.
Qed.

Lemma be_val_be_bytes n v : be_val (be_bytes n v) = v mod 256 ^ Z.of_nat n.
Proof.
  induction n as [|n IH]; cbn [be_bytes].
  - rewrite Z.pow_0_r, Z.mod_1_r. done.
  - rewrite be_val_cons, length_be_bytes, IH, Nat2Z.inj_succ, Z.pow_succ_r by lia.
    assert (0 < 256 ^ Z.of_nat n) by (apply Z.pow_pos_nonneg; lia).
    rewrite (Z.mul_comm 256), Z.rem_mul_r by lia. ring.
Qed.

Lemma be_bytes_be_val l : bytes_ok l -> be_bytes (length l) (be_val l) = l.
Proof.
  assert (Hgen : forall l v, bytes_ok l -> 0 <= v ->
    be_bytes (length l) (v * 256 ^ zlen l + be_val l) = l).
  { clear l. induction l as [|b l IH]; intros v Hok Hv; [done|].
    inversion Hok as [|? ? Hb Hl]; subst. destruct Hb as [Hb0 Hb1].
    unfold M8 in Hb1. change (2 ^ 8) with 256 in Hb1.
    cbn [length be_bytes]. rewrite be_val_cons, Nat2Z.inj_succ, Z.pow_succ_r by lia.
    pose proof (be_val_bound l Hl) as Hbd.
    replace (v * (256 * 256 ^ zlen l) + (b * 256 ^ zlen l + be_val l))
      with ((v * 256 + b) * 256 ^ zlen l + be_val l) by ring.
    f_equal; [|apply IH; [done|nia]].
    rewrite Z.div_add_l, (Z.div_small (be_val l)) by lia.
    rewrite Z.add_0_r, Z.add_comm, Z.mod_add, Z.mod_small; lia. }
  intros Hok. specialize (Hgen l 0 Hok ltac:(lia)). by rewrite Z.mul_0_l, Z.add_0_l in Hgen.
Qed.

Lemma be_val_inj l k : bytes_ok l -> bytes_ok k -> length l = length k ->
  be_val l = be_val k -> l = k.
Proof.
  intros Hl Hk Hlen Heq.
  rewrite <- (be_bytes_be_val l Hl), <- (be_bytes_be_val k Hk). by rewrite Hlen, Heq.
Qed.

(** Without leading zeros the bytes are determined by the number. *)
Lemma be_val_lower b l : bytes_ok (b :: l) -> b <> 0 -> 256 ^ zlen l <= be_val (b :: l).
Proof.
  inversion 1 as [|? ? [Hb0 Hb1] Hl]; subst. intros Hb. rewrite be_val_cons.
  pose proof (be_val_bound l Hl). assert (0 < 256 ^ zlen l) by (apply Z.pow_pos_nonneg; lia). nia.
Qed.

Lemma be_val_canonical_le l k : bytes_ok l -> bytes_ok k -> head l <> Some 0 ->
  be_val l = be_val k -> (length l <= length k)%nat.
Proof.
  intros Hl Hk Hh He. destruct l as [|b l]; [cbn; lia|].
  pose proof (be_val_lower b l Hl ltac:(intros ->; done)) as Hlo.
  pose proof (be_val_bound k Hk) as Hhi. rewrite He in Hlo.
  assert (Hlt : 256 ^ zlen l < 256 ^ zlen k) by lia.
  apply Z.pow_lt_mono_r_iff in Hlt; [|lia|lia]. cbn. lia.
Qed.

Lemma be_val_canonical_inj l k : bytes_ok l -> bytes_ok k -> head l <> Some 0 -> head k <> Some 0 ->
  be_val l = be_val k -> l = k.
Proof.
  intros Hl Hk Hhl Hhk He. apply be_val_inj; try done.
  pose proof (be_val_canonical_le l k Hl Hk Hhl He).
  pose proof (be_val_canonical_le k l Hk Hl Hhk (eq_sym He)). lia.
Qed.

#[export] Hint Resolve be_bytes_ok : mach.
