(* ===== verification/Serialized.v ===== *)
(** * CCF's byte serialiser

    Model of CCF/src/ds/serialized.h: bounded reads and writes through a data
    pointer and the number of bytes left.  Integers are copied as they lie in
    memory, little-endian on the machines the enclave runs on.  Every function
    throws [std::logic_error] when the space is too small, except that
    [read<std::string>] trusts its length prefix. *)
From S2P Require Import Prelude.
From stdpp Require Import list.
Local Open Scope Z_scope.

(** ** Little-endian numbers *)
Definition le_bytes (n : nat) (v : Z) : list Z := reverse (be_bytes n v).
Definition le_val (l : list Z) : Z := be_val (reverse l).

Module Serialized.

(** ** Writing *)

(** The buffer, the position of the data pointer in it, and [size]. *)
Record writer := mkWriter { buf : list Z; pos : Z; space : Z }.

(** [write(data, size, block, block_size)].  A [size] that is larger than what
    is left of the buffer lets memcpy leave the buffer. *)
Definition write (block : list Z) (w : writer) : result writer :=
  if space w <? zlen block then Throw LogicError
  else if zlen (buf w) <? pos w + zlen block then Undef
  else Ok (mkWriter (zwrite (pos w) block (buf w)) (pos w + zlen block) (space w - zlen block)).

(** [write<T>(data, size, v)] for an unsigned T of [n] bytes. *)
Definition write_uint (n : nat) (v : Z) (w : writer) : result writer := write (le_bytes n v) w.

Definition write_string (s : list Z) (w : writer) : result writer :=
  if space w <? 8 + zlen s then Throw LogicError
  else w ← write_uint 8 (zlen s) w; write s w.

(** The length is narrowed to 16 bits. *)
Definition write_lps (s : list Z) (w : writer) : result writer :=
  w ← write_uint 2 (wrap16 (zlen s)) w; write s w.

Definition new_writer (n : Z) : writer := mkWriter (zeros n) 0 n.

(** ** Reading *)

(** [read(data, size, block_size)]: the block and what is left. *)
Definition read (block_size : Z) (data : list Z) : result (list Z * list Z) :=
  if zlen data <? block_size then Throw LogicError
  else Ok (ztake block_size data, zdrop block_size data).

(** [peek<T>] and [read<T>]. *)
Definition peek_uint (n : nat) (data : list Z) : result Z :=
  if zlen data <? Z.of_nat n then Throw LogicError else Ok (le_val (take n data)).
Definition read_uint (n : nat) (data : list Z) : result (Z * list Z) :=
  '(b, data) ← read (Z.of_nat n) data; Ok (le_val b, data).

Definition skip (n : Z) (data : list Z) : result (list Z) :=
  if zlen data <? n then Throw LogicError else Ok (zdrop n data).

(** [read<std::string>]: nothing compares the length with [size]. *)
Definition read_string (data : list Z) : result (list Z * list Z) :=
  '(len, data) ← read_uint 8 data;
  if zlen data <? len then Undef else Ok (ztake len data, zdrop len data).

(** ** Lemmas *)

Lemma length_le_bytes n v : length (le_bytes n v) = n.
Proof. unfold le_bytes. by rewrite length_reverse, length_be_bytes. Qed.
Lemma le_bytes_ok n v : bytes_ok (le_bytes n v).
Proof. apply Forall_reverse, be_bytes_ok. Qed.
Lemma le_val_le_bytes n v : le_val (le_bytes n v) = v mod 256 ^ Z.of_nat n.
Proof. unfold le_val, le_bytes. rewrite reverse_involutive. apply be_val_be_bytes. Qed.
Lemma le_bytes_le_val l : bytes_ok l -> le_bytes (length l) (le_val l) = l.
Proof.
  intros Hl. unfold le_bytes, le_val. rewrite <- (length_reverse l), be_bytes_be_val.
  - apply reverse_involutive.
  - by apply Forall_reverse.
Qed.
Lemma le_val_bound l : bytes_ok l -> 0 <= le_val l < 256 ^ zlen l.
Proof. intros Hl. unfold le_val. rewrite <- (length_reverse l). by apply be_val_bound, Forall_reverse. Qed.
Lemma le_val_u64 v : u64 v -> le_val (le_bytes 8 v) = v.
Proof. intros Hv. rewrite le_val_le_bytes. change (256 ^ Z.of_nat 8) with M64. by apply Z.mod_small. Qed.

(** Writing block after block fills the buffer from the left. *)
Definition written (done : list Z) (n : nat) (w : writer) : Prop :=
  buf w = done ++ replicate n 0 /\ pos w = zlen done /\ space w = Z.of_nat n.

Lemma write_ok done n w block : written done n w -> (length block <= n)%nat ->
  exists w', write block w = Ok w' /\ written (done ++ block) (n - length block) w'.
Proof.
  intros (Hb & Hp & Hs) Hl. unfold write. rewrite Hs, Hb, Hp, length_app, length_replicate.
  destruct (Z.ltb_spec (Z.of_nat n) (zlen block)); [lia|].
  destruct (Z.ltb_spec (Z.of_nat (length done + n)) (zlen done + zlen block)); [lia|].
  eexists. split; [reflexivity|]. split; [|split]; cbn [buf pos space].
  - unfold zwrite. rewrite Nat2Z.id, list_inserts_spec by (rewrite length_app, length_replicate; lia).
    rewrite take_app_length, <- app_assoc. do 2 f_equal. rewrite drop_app_ge by lia.
    replace (length done + length block - length done)%nat with (length block) by lia. by rewrite drop_replicate.
  - rewrite length_app. lia.
  - lia.
Qed.

Lemma write_over done n w block : written done n w -> (n < length block)%nat -> write block w = Throw LogicError.
Proof. intros (_ & _ & Hs) Hl. unfold write. rewrite Hs. destruct (Z.ltb_spec (Z.of_nat n) (zlen block)); [done|lia]. Qed.

Lemma new_writer_written n : written [] n (new_writer (Z.of_nat n)).
Proof. unfold written, new_writer, zeros. cbn. by rewrite Nat2Z.id. Qed.

Lemma read_app l k : read (zlen l) (l ++ k) = Ok (l, k).
Proof.
  unfold read, ztake, zdrop. rewrite length_app, Nat2Z.id, take_app_length, drop_app_length.
  destruct (Z.ltb_spec (Z.of_nat (length l + length k)) (zlen l)); [lia | done].
Qed.

Lemma read_shape n data : match read n data with
  | Ok (b, _) => 0 <= n -> zlen b = n | Throw _ => True | Undef => False end.
Proof.
  unfold read. destruct (Z.ltb_spec (zlen data) n); [done|]. intros Hn. unfold ztake. rewrite length_take. lia.
Qed.

Lemma read_uint_app n v rest : read_uint n (le_bytes n v ++ rest) = Ok (v mod 256 ^ Z.of_nat n, rest).
Proof.
  unfold read_uint. rewrite <- (length_le_bytes n v) at 1. rewrite read_app. cbn [mbind result_bind].
  by rewrite le_val_le_bytes.
Qed.

Lemma read_u64_app v rest : u64 v -> read_uint 8 (le_bytes 8 v ++ rest) = Ok (v, rest).
Proof. intros Hv. rewrite read_uint_app. change (256 ^ Z.of_nat 8) with M64. by rewrite Z.mod_small. Qed.

Lemma skip_app l k : skip (zlen l) (l ++ k) = Ok k.
Proof.
  unfold skip, zdrop. rewrite length_app, Nat2Z.id, drop_app_length.
  destruct (Z.ltb_spec (Z.of_nat (length l + length k)) (zlen l)); [lia | done].
Qed.

#[export] Hint Resolve le_bytes_ok : mach.

(** A string is read back from behind its length. *)
Lemma write_string_written s done n w : written done n w -> (8 + length s <= n)%nat ->
  exists w', write_string s w = Ok w' /\ written (done ++ le_bytes 8 (zlen s) ++ s) (n - (8 + length s)) w'.
Proof.
  intros Hw Hn. unfold write_string. pose proof Hw as (_ & _ & Hs). rewrite Hs.
  destruct (Z.ltb_spec (Z.of_nat n) (8 + zlen s)); [lia|]. unfold write_uint.
  destruct (write_ok _ _ _ (le_bytes 8 (zlen s)) Hw) as (w1 & -> & W1); [rewrite length_le_bytes; lia|].
  cbn [mbind result_bind]. rewrite length_le_bytes in W1.
  destruct (write_ok _ _ _ s W1) as (w2 & -> & W2); [lia|].
  exists w2. split; [done|]. rewrite <- app_assoc in W2.
  by replace (n - (8 + length s))%nat with (n - 8 - length s)%nat by lia.
Qed.

Lemma read_string_app s rest : zlen s < M64 -> read_string (le_bytes 8 (zlen s) ++ s ++ rest) = Ok (s, rest).
Proof.
  intros Hs. unfold read_string. rewrite read_u64_app by (split; lia). cbn [mbind result_bind].
  rewrite length_app. destruct (Z.ltb_spec (Z.of_nat (length s + length rest)) (zlen s)); [lia|].
  unfold ztake, zdrop. by rewrite Nat2Z.id, take_app_length, drop_app_length.
Qed.

End Serialized.
