(* ===== verification/Keccak.v ===== *)
(** * Keccak-256

    Model of eEVM/3rdparty/internal/keccak/hash.c and of the [Keccak256] class
    of eEVM (include/eEVM/keccak256.h, src/keccak256.cpp): the permutation, the
    streaming context with its 16-bit [size], and the sponge it implements.
    Lanes are [Z] below 2^64, the message buffer is its list of bytes. *)
From S2P Require Import Prelude.
From stdpp Require Import list sets.
Local Open Scope Z_scope.

Module Keccak.

(** ** hash.c *)

(** BLOCK_SIZE = (1600 - 256 * 2) / 8 *)
Definition BLOCK_SIZE : Z := (1600 - 256 * 2) / 8.

Definition ROTL64 (q n : Z) : Z :=
  Z.lxor (wrap64 (Z.shiftl q n)) (Z.shiftr q (64 - n)).

Definition constants : list Z :=
  [1; 26; 94; 112; 31; 33; 121; 85; 14; 12; 53; 38; 63; 79; 93; 83; 82; 72; 22; 102; 121; 88; 33; 116;
   1; 6; 9; 22; 14; 20; 2; 12; 13; 19; 23; 15; 4; 24; 21; 8; 16; 5; 3; 18; 17; 11; 7; 10;
   1; 62; 28; 27; 36; 44; 6; 55; 20; 3; 10; 43; 25; 39; 41; 45; 15; 21; 8; 18; 2; 61; 56; 14].

Definition TYPE_ROUND_INFO : Z := 0.
Definition TYPE_PI_TRANSFORM : Z := 24.
Definition TYPE_RHO_TRANSFORM : Z := 48.

Definition getConstant (type index : Z) : Z := znth (type + index) constants.

Definition get_round_constant (round : Z) : Z :=
  let roundInfo := getConstant TYPE_ROUND_INFO round in
  foldl (fun result '(bit, pos) =>
           if Z.land roundInfo (Z.shiftl 1 bit) =? 0 then result
           else Z.lor result (Z.shiftl 1 pos))
    0 [(6, 63); (5, 31); (4, 15); (3, 7); (2, 3); (1, 1); (0, 0)].

(** Lane [i] of a state, and [A\[i\] ^= x]. *)
Definition lane (A : list Z) (i : nat) : Z := nth i A 0.
Definition xor_lane (A : list Z) (i : nat) (x : Z) : list Z := <[i := Z.lxor (lane A i) x]> A.
(** [~x] on 64 bits. *)
Definition not64 (x : Z) : Z := Z.lxor x (M64 - 1).

Definition keccak_theta (A : list Z) : list Z :=
  let C := map (fun i => foldl (fun c j => Z.lxor c (lane A (i + j))) (lane A i) [5; 10; 15; 20]%nat)
             (seq 0 5) in
  let D := map (fun i => Z.lxor (ROTL64 (lane C ((i + 1) mod 5)) 1) (lane C ((i + 4) mod 5)))
             (seq 0 5) in
  foldl (fun A i => foldl (fun A j => xor_lane A (i + j) (lane D i)) A [0; 5; 10; 15; 20]%nat)
    A (seq 0 5).

Definition keccak_pi (A : list Z) : list Z :=
  let A1 := lane A 1 in
  let A' := foldl (fun A i =>
    <[Z.to_nat (getConstant TYPE_PI_TRANSFORM (Z.of_nat i - 1)) :=
        lane A (Z.to_nat (getConstant TYPE_PI_TRANSFORM (Z.of_nat i)))]> A) A (seq 1 23) in
  <[10%nat := A1]> A'.

Definition keccak_chi (A : list Z) : list Z :=
  foldl (fun A i =>
    let A0 := lane A (0 + i) in
    let A1 := lane A (1 + i) in
    let A := xor_lane A (0 + i) (Z.land (not64 A1) (lane A (2 + i))) in
    let A := xor_lane A (1 + i) (Z.land (not64 (lane A (2 + i))) (lane A (3 + i))) in
    let A := xor_lane A (2 + i) (Z.land (not64 (lane A (3 + i))) (lane A (4 + i))) in
    let A := xor_lane A (3 + i) (Z.land (not64 (lane A (4 + i))) A0) in
    xor_lane A (4 + i) (Z.land (not64 A0) A1))
    A [0; 5; 10; 15; 20]%nat.

Definition keccak_rho (A : list Z) : list Z :=
  foldl (fun A i =>
    <[i := ROTL64 (lane A i) (getConstant TYPE_RHO_TRANSFORM (Z.of_nat i - 1))]> A) A (seq 1 24).

Definition sha3_permutation (state : list Z) : list Z :=
  foldl (fun st round =>
    xor_lane (keccak_chi (keccak_pi (keccak_rho (keccak_theta st)))) 0
      (get_round_constant (Z.of_nat round)))
    state (seq 0 24).

(** Little-endian 64-bit word [i] of a byte buffer. *)
Definition le_word (buf : list Z) (i : nat) : Z := be_val (rev (take 8 (drop (8 * i) buf))).

Definition sha3_process_block (hash : list Z) (block : list Z) : list Z :=
  sha3_permutation (foldl (fun h i => xor_lane h i (le_word block i)) hash (seq 0 17)).

Record SHA3_CTX := mkCtx { hash : list Z; message : list Z; rest : Z }.

Definition keccak_init : SHA3_CTX :=
  {| hash := replicate 25 0; message := replicate 192 0; rest := 0 |}.

(** The [while (size >= BLOCK_SIZE)] loop of [keccak_update]; [size] is the
    length of [msg].  [aligned] is the value of [IS_ALIGNED_64(msg)], constant
    over the loop because BLOCK_SIZE is a multiple of 8.  Each turn removes
    BLOCK_SIZE bytes, so [length msg] turns are enough. *)
Fixpoint update_blocks (fuel : nat) (aligned : bool) (ctx : SHA3_CTX) (msg : list Z)
  : SHA3_CTX * list Z :=
  match fuel with
  | O => (ctx, msg)
  | S fuel =>
      if zlen msg <? BLOCK_SIZE then (ctx, msg)
      else
        let block := ztake BLOCK_SIZE msg in
        let message' := if aligned then message ctx else zwrite 0 block (message ctx) in
        update_blocks fuel aligned
          {| hash := sha3_process_block (hash ctx) block; message := message'; rest := rest ctx |}
          (zdrop BLOCK_SIZE msg)
  end.

(** [keccak_update(ctx, msg, size)] with [size : uint16_t]: only the first
    [size mod 2^16] bytes of the caller's buffer are read. *)
Definition keccak_update (aligned : bool) (ctx : SHA3_CTX) (data : list Z) (size : Z) : SHA3_CTX :=
  let size := wrap16 size in
  let msg := ztake size data in
  let idx := rest ctx in
  let ctx := {| hash := hash ctx; message := message ctx; rest := (idx + size) mod BLOCK_SIZE |} in
  let finish ctx msg :=
    let '(ctx, msg) := update_blocks (length msg) aligned ctx msg in
    match msg with
    | [] => ctx
    | _ => {| hash := hash ctx; message := zwrite 0 msg (message ctx); rest := rest ctx |}
    end in
  if idx =? 0 then finish ctx msg
  else
    let left := BLOCK_SIZE - idx in
    let message' := zwrite idx (ztake (if size <? left then size else left) msg) (message ctx) in
    let ctx := {| hash := hash ctx; message := message'; rest := rest ctx |} in
    if size <? left then ctx
    else
      finish {| hash := sha3_process_block (hash ctx) message'; message := message'; rest := rest ctx |}
        (zdrop left msg).

(** The 32 output bytes: [memcpy(result, ctx->hash, digest_length)]. *)
Definition digest_bytes (h : list Z) : list Z :=
  flat_map (fun i => rev (be_bytes 8 (lane h i))) (seq 0 4).

Definition keccak_final (ctx : SHA3_CTX) : list Z :=
  let m := zwrite (rest ctx) (zeros (BLOCK_SIZE - rest ctx)) (message ctx) in
  let m := <[Z.to_nat (rest ctx) := Z.lor (znth (rest ctx) m) 0x01]> m in
  let m := <[Z.to_nat (BLOCK_SIZE - 1) := Z.lor (znth (BLOCK_SIZE - 1) m) 0x80]> m in
  digest_bytes (sha3_process_block (hash ctx) m).

(** [Keccak256(data, size)]: init, one update, final. *)
Definition keccak256_aligned (aligned : bool) (data : list Z) : list Z :=
  keccak_final (keccak_update aligned keccak_init data (zlen data)).
Definition keccak256 (data : list Z) : list Z := keccak256_aligned true data.

(** ** Specification: the sponge with pad10*1

    [sponge m] pads the whole message to a multiple of the rate, absorbs it
    block by block into the all-zero state and squeezes 32 bytes. *)
Definition rate : nat := 136.

Fixpoint absorb (n : nat) (h m : list Z) : list Z :=
  match n with
  | O => h
  | S n => absorb n (sha3_process_block h (take rate m)) (drop rate m)
  end.

Definition padding (len : nat) : list Z :=
  let k := (rate - len mod rate)%nat in
  if decide (k = 1%nat) then [0x81] else 0x01 :: replicate (k - 2) 0 ++ [0x80].

Definition sponge (m : list Z) : list Z :=
  let p := m ++ padding (length m) in
  digest_bytes (absorb (length p / rate) (replicate 25 0) p).

(** The permutation as FIPS 202 defines it (section 3.2): lane (x, y) of the
    state is entry x + 5 * y of the list, indices are taken modulo 5. *)
Definition at_ (A : list Z) (x y : nat) : Z := nth (x mod 5 + 5 * (y mod 5)) A 0.
Definition tabulate5 (f : nat -> nat -> Z) : list Z :=
  flat_map (fun y => map (fun x => f x y) (seq 0 5)) (seq 0 5).

(** Rotation of a 64-bit lane by [n]: the top [n] bits come in at the bottom. *)
Definition rotl_spec (q n : Z) : Z := (q * 2 ^ n) mod 2 ^ 64 + q / 2 ^ (64 - n).

Definition theta_spec (A : list Z) : list Z :=
  let C x := foldl (fun c y => Z.lxor c (at_ A x y)) (at_ A x 0) (seq 1 4) in
  tabulate5 (fun x y => Z.lxor (at_ A x y) (Z.lxor (C (x + 4)%nat) (rotl_spec (C (x + 1)%nat) 1))).

(** The walk of rho: (x, y) starts at (1, 0), moves to (y, 2x + 3y), and the
    lane met at step [t] is rotated by (t+1)(t+2)/2. *)
Fixpoint rho_offset (n : nat) (t x y x0 y0 : nat) : Z :=
  match n with
  | O => 0
  | S n => if (x =? x0)%nat && (y =? y0)%nat then Z.of_nat (((t + 1) * (t + 2) / 2) mod 64)
           else rho_offset n (t + 1) y ((2 * x + 3 * y) mod 5) x0 y0
  end.
Definition rho_spec (A : list Z) : list Z :=
  tabulate5 (fun x y =>
    if (x =? 0)%nat && (y =? 0)%nat then at_ A x y
    else rotl_spec (at_ A x y) (rho_offset 24 0 1 0 x y)).
Definition pi_spec (A : list Z) : list Z := tabulate5 (fun x y => at_ A (x + 3 * y) x).
Definition chi_spec (A : list Z) : list Z :=
  tabulate5 (fun x y => Z.lxor (at_ A x y) (Z.land (not64 (at_ A (x + 1) y)) (at_ A (x + 2) y))).

(** Round constants: bit 2^j - 1 of RC(ir) is rc(j + 7 ir), rc the output of the
    8-bit shift register with feedback polynomial x^8 + x^6 + x^5 + x^4 + 1. *)
Definition lfsr_step (R : Z) : Z :=
  let R := 2 * R in if Z.testbit R 8 then Z.lxor (R mod 256) 0x71 else R.
Definition rc (t : nat) : bool := Z.testbit (Nat.iter t lfsr_step 1) 0.
Definition RC (ir : nat) : Z :=
  foldl (fun r j => if rc (j + 7 * ir) then Z.setbit r (2 ^ Z.of_nat j - 1) else r) 0 (seq 0 7).

Definition keccak_f (A : list Z) : list Z :=
  foldl (fun A ir => let A := chi_spec (pi_spec (rho_spec (theta_spec A))) in
                     <[0%nat := Z.lxor (nth 0 A 0) (RC ir)]> A)
    A (seq 0 24).

(** [represents ctx m]: [ctx] has absorbed the message [m] so far. *)
Definition represents (ctx : SHA3_CTX) (m : list Z) : Prop :=
  hash ctx = absorb (length m / rate) (replicate 25 0) m /\
  rest ctx = Z.of_nat (length m mod rate) /\
  length (message ctx) = 192%nat /\
  take (length m mod rate) (message ctx) = drop (rate * (length m / rate)) m.

(** ** Lemmas *)
Lemma ROTL64_correct q n : u64 q -> 0 < n < 64 -> ROTL64 q n = rotl_spec q n.
Proof.
  intros Hq Hn. unfold ROTL64, rotl_spec, wrap64, M64.
  rewrite Z.shiftl_mul_pow2, Z.shiftr_div_pow2 by lia. symmetry. apply Z.add_nocarry_lxor.
  apply Z.bits_inj'. intros i Hi. rewrite Z.land_spec, Z.bits_0.
  rewrite <- Z.shiftl_mul_pow2, <- Z.shiftr_div_pow2 by lia.
  rewrite Z.shiftr_spec by lia.
  apply (pow2_bound_testbit q 64) in Hq as [_ Hq]; [|lia].
  destruct (Z.lt_ge_cases i n).
  - destruct (Z.lt_ge_cases i 64); [|lia].
    rewrite Z.mod_pow2_bits_low, Z.shiftl_spec, (Z.testbit_neg_r q) by lia. done.
  - rewrite (Hq (i + (64 - n))) by lia. apply andb_false_r.
Qed.

Lemma u64_land x y : u64 x -> u64 y -> u64 (Z.land x y).
Proof. intros Hx [Hy _]. by apply (land_bound x y 64). Qed.
Lemma u64_not64 x : u64 x -> u64 (not64 x).
Proof. intros. apply u64_lxor; [done | split; [discriminate | reflexivity]]. Qed.
Lemma u64_ROTL64 q n : u64 q -> 0 < n < 64 -> u64 (ROTL64 q n).
Proof.
  intros [Hq0 Hq] Hn. apply u64_lxor; [apply wrap64_u64|].
  rewrite Z.shiftr_div_pow2 by lia. split; [apply Z.div_pos; lia|].
  apply Z.div_lt_upper_bound; [lia|]. nia.
Qed.
Lemma u64_at_ A x y : Forall u64 A -> u64 (at_ A x y).
Proof.
  intros H. unfold at_. generalize (x mod 5 + 5 * (y mod 5))%nat.
  induction H as [|b l Hb Hl IH]; intros [|i]; cbn; auto using u64_0.
Qed.
#[local] Hint Resolve u64_lxor u64_land u64_0 u64_not64 u64_ROTL64 u64_at_ : mach.

Lemma tabulate5_ext f g : (forall x y, (x < 5)%nat -> (y < 5)%nat -> f x y = g x y) ->
  tabulate5 f = tabulate5 g.
Proof.
  intros H. unfold tabulate5. rewrite !flat_map_concat_map. apply (f_equal (@concat Z)).
  apply map_ext_in. intros y Hy. apply map_ext_in. intros x Hx.
  apply in_seq in Hx, Hy. apply H; lia.
Qed.
Lemma Forall_tabulate5 (P : Z -> Prop) f :
  (forall x y, (x < 5)%nat -> (y < 5)%nat -> P (f x y)) -> Forall P (tabulate5 f).
Proof.
  intros H. apply List.Forall_forall. intros z. unfold tabulate5. rewrite in_flat_map.
  intros (y & Hy & Hz). apply in_map_iff in Hz as (x & <- & Hx).
  apply in_seq in Hx, Hy. apply H; lia.
Qed.
Lemma length_tabulate5 f : length (tabulate5 f) = 25%nat.
Proof. reflexivity. Qed.

(** The steps of hash.c, lane by lane. *)
Ltac lanes A H :=
  do 25 (destruct A as [|? A]; [discriminate H|]); destruct A; [|discriminate H].
Abbreviation column A x :=
  (foldl (fun c y => Z.lxor c (at_ A x y)) (at_ A x 0) (seq 1 4)).

Lemma theta_lanes A : length A = 25%nat -> keccak_theta A =
  tabulate5 (fun x y => Z.lxor (at_ A x y)
    (Z.lxor (ROTL64 (column A (x + 1)%nat) 1) (column A (x + 4)%nat))).
Proof. intros H. lanes A H. reflexivity. Qed.
Lemma rho_lanes A : length A = 25%nat -> keccak_rho A =
  tabulate5 (fun x y => if (x =? 0)%nat && (y =? 0)%nat then at_ A x y
                        else ROTL64 (at_ A x y) (rho_offset 24 0 1 0 x y)).
Proof. intros H. lanes A H. reflexivity. Qed.
Lemma pi_correct A : length A = 25%nat -> keccak_pi A = pi_spec A.
Proof. intros H. lanes A H. reflexivity. Qed.
Lemma chi_correct A : length A = 25%nat -> keccak_chi A = chi_spec A.
Proof. intros H. lanes A H. reflexivity. Qed.
Lemma round_constant_correct ir : (ir < 24)%nat ->
  get_round_constant (Z.of_nat ir) = RC ir /\ u64 (RC ir).
Proof.
  intros H. do 24 (destruct ir as [|ir]; [vm_compute; split; [reflexivity|split; congruence]|]). lia.
Qed.
Lemma rho_offset_range x y : (x < 5)%nat -> (y < 5)%nat -> (x =? 0)%nat && (y =? 0)%nat = false ->
  0 < rho_offset 24 0 1 0 x y < 64.
Proof.
  intros Hx Hy. do 5 (destruct x as [|x]; [do 5 (destruct y as [|y]; [vm_compute; intuition congruence|]); lia|]). lia.
Qed.
Lemma u64_column A x : Forall u64 A -> u64 (column A x).
Proof. intros H. cbn [foldl seq]. auto 10 with mach. Qed.

Lemma theta_correct A : length A = 25%nat -> Forall u64 A ->
  keccak_theta A = theta_spec A /\ Forall u64 (keccak_theta A).
Proof.
  intros H HA. rewrite theta_lanes by done. split.
  - apply tabulate5_ext. intros x y _ _. rewrite Z.lxor_comm. rewrite (Z.lxor_comm (ROTL64 _ _)), Z.lxor_comm.
    rewrite ROTL64_correct; [done | by apply u64_column | lia].
  - apply Forall_tabulate5. intros x y _ _.
    apply u64_lxor; [auto with mach|]. apply u64_lxor; [|by apply u64_column].
    apply u64_ROTL64; [by apply u64_column | lia].
Qed.
Lemma rho_correct A : length A = 25%nat -> Forall u64 A ->
  keccak_rho A = rho_spec A /\ Forall u64 (keccak_rho A).
Proof.
  intros H HA. rewrite rho_lanes by done. split.
  - apply tabulate5_ext. intros x y Hx Hy. destruct (_ && _) eqn:E; [done|].
    apply ROTL64_correct; [auto with mach | by apply rho_offset_range].
  - apply Forall_tabulate5. intros x y Hx Hy. destruct (_ && _) eqn:E; [auto with mach|].
    apply u64_ROTL64; [auto with mach | by apply rho_offset_range].
Qed.

(** One round of [sha3_permutation] is one round of the standard's. *)
Lemma round_correct A ir : length A = 25%nat -> Forall u64 A -> (ir < 24)%nat ->
  let A' := chi_spec (pi_spec (rho_spec (theta_spec A))) in
  xor_lane (keccak_chi (keccak_pi (keccak_rho (keccak_theta A)))) 0 (get_round_constant (Z.of_nat ir)) =
  <[0%nat := Z.lxor (nth 0 A' 0) (RC ir)]> A' /\
  length (<[0%nat := Z.lxor (nth 0 A' 0) (RC ir)]> A') = 25%nat /\
  Forall u64 (<[0%nat := Z.lxor (nth 0 A' 0) (RC ir)]> A').
Proof.
  intros H HA Hir A'. destruct (theta_correct A H HA) as [Ht Ut].
  destruct (rho_correct (theta_spec A)) as [Hr Ur]; [done | congruence |].
  destruct (round_constant_correct ir Hir) as [-> Urc].
  rewrite Ht, Hr, pi_correct, chi_correct by done. fold A'.
  rewrite Hr in Ur.
  assert (Up : Forall u64 (pi_spec (rho_spec (theta_spec A)))).
  { apply Forall_tabulate5. auto with mach. }
  assert (U' : Forall u64 A') by (apply Forall_tabulate5; auto 10 with mach).
  split; [done|]. rewrite length_insert. split; [done|].
  apply Forall_insert; [done|]. apply u64_lxor; [|done].
  apply (u64_at_ A' 0 0 U').
Qed.

Lemma permutation_correct A : length A = 25%nat -> Forall u64 A ->
  sha3_permutation A = keccak_f A /\ length (keccak_f A) = 25%nat /\ Forall u64 (keccak_f A).
Proof.
  unfold sha3_permutation, keccak_f.
  assert (Hall : Forall (fun i => i < 24)%nat (seq 0 24)).
  { apply List.Forall_forall. intros i Hi. apply in_seq in Hi. lia. }
  revert A Hall. generalize (seq 0 24).
  intros l; induction l as [|i l IH]; intros A Hall H HA; cbn [foldl]; [done|].
  inversion Hall; subst. destruct (round_correct A i H HA) as (He & Hl & Hu); [done|].
  rewrite He. by apply IH.
Qed.

Lemma BLOCK_SIZE_rate : BLOCK_SIZE = Z.of_nat rate. Proof. reflexivity. Qed.

#[local] Opaque sha3_permutation.

Lemma process_block_take h b : sha3_process_block h (take rate b) = sha3_process_block h b.
Proof.
  unfold sha3_process_block. apply (f_equal sha3_permutation).
  apply foldl_ext_in. intros a i Hi. apply in_seq in Hi.
  assert (He : take 8 (drop (8 * i) (take rate b)) = take 8 (drop (8 * i) b)).
  { rewrite skipn_firstn_comm, take_take. f_equal. unfold rate. lia. }
  unfold le_word. by rewrite He.
Qed.

#[local] Opaque sha3_permutation sha3_process_block.

Lemma absorb_app n h m k : (n * rate <= length m)%nat -> absorb n h (m ++ k) = absorb n h m.
Proof.
  revert h m; induction n as [|n IH]; intros h m Hl; cbn [absorb]; [done|].
  rewrite take_app_le, drop_app_le by lia. apply IH. rewrite length_drop. lia.
Qed.

Lemma absorb_add a b h m : absorb (a + b) h m = absorb b (absorb a h m) (drop (rate * a) m).
Proof.
  revert h m; induction a as [|a IH]; intros h m; cbn [absorb Nat.add].
  - by rewrite Nat.mul_0_r.
  - rewrite IH, drop_drop. do 2 f_equal. lia.
Qed.

Lemma update_blocks_spec al fuel ctx msg : (length msg <= fuel)%nat -> length (message ctx) = 192%nat ->
  let '(ctx', msg') := update_blocks fuel al ctx msg in
  hash ctx' = absorb (length msg / rate) (hash ctx) msg /\
  msg' = drop (rate * (length msg / rate)) msg /\
  rest ctx' = rest ctx /\ length (message ctx') = 192%nat.
Proof.
  revert ctx msg; induction fuel as [|fuel IH]; intros ctx msg Hf Hm; cbn [update_blocks].
  - destruct msg; [done | cbn in Hf; lia].
  - rewrite BLOCK_SIZE_rate. zcase.
    + rewrite Nat.div_small by (unfold rate in *; lia). rewrite Nat.mul_0_r. done.
    + set (ctx1 := mkCtx _ _ _). unfold zdrop. rewrite Nat2Z.id.
      assert (Hlen : (rate <= length msg)%nat) by lia.
      assert (Hdiv : (length msg / rate = S (length (drop rate msg) / rate))%nat).
      { rewrite length_drop.
        replace (length msg) with (length msg - rate + 1 * rate)%nat at 1 by lia.
        rewrite Nat.div_add by (unfold rate; lia). lia. }
      assert (H192 : length (message ctx1) = 192%nat).
      { cbn. destruct al; [done|]. unfold zwrite. by rewrite length_list_inserts. }
      specialize (IH ctx1 (drop rate msg) ltac:(rewrite length_drop; unfold rate in *; lia) H192).
      destruct (update_blocks _ _ _ _) as [ctx' msg'].
      destruct IH as (H1 & H2 & H3 & H4).
      rewrite Hdiv. cbn [absorb]. split; [exact H1|]. split; [|done].
      rewrite H2, drop_drop. f_equal. lia.
Qed.

(** One call of [keccak_update] on [size < 2^16] bytes extends the absorbed
    message, whatever the alignment of the caller's buffer. *)
Lemma init_represents : represents keccak_init [].
Proof. done. Qed.

Lemma mod_div_eq m : (length m = rate * (length (m : list Z) / rate) + length m mod rate)%nat.
Proof. apply Nat.div_mod_eq. Qed.

Lemma absorb_blocks_app m k : absorb (length m / rate) (replicate 25 0) (m ++ k) =
  absorb (length m / rate) (replicate 25 0) m.
Proof. apply absorb_app. pose proof (mod_div_eq m). lia. Qed.

(** After absorbing whole blocks, the leftovers go to the front of the buffer. *)
Lemma finish_represents al ctx msg m : length (message ctx) = 192%nat ->
  (length m mod rate = 0)%nat -> hash ctx = absorb (length m / rate) (replicate 25 0) m ->
  rest ctx = Z.of_nat ((length m + length msg) mod rate) ->
  represents (let '(ctx, msg) := update_blocks (length msg) al ctx msg in
              match msg with
              | [] => ctx
              | _ => {| hash := hash ctx; message := zwrite 0 msg (message ctx); rest := rest ctx |}
              end) (m ++ msg).
Proof.
  intros H192 Hmod Hh Hr.
  pose proof (update_blocks_spec al (length msg) ctx msg (le_n _) H192) as Hu.
  destruct (update_blocks _ _ _ _) as [ctx' msg']. destruct Hu as (H1 & H2 & H3 & H4).
  pose proof (mod_div_eq m) as Hdm. pose proof (mod_div_eq msg) as Hdmsg.
  assert (Hrate : (rate <> 0)%nat) by (unfold rate; lia).
  assert (Hdiv : ((length m + length msg) / rate = length m / rate + length msg / rate)%nat).
  { rewrite Hdm at 1. rewrite Hmod, Nat.add_0_r, (Nat.mul_comm rate), Nat.div_add_l by done. done. }
  assert (Hmd : ((length m + length msg) mod rate = length msg mod rate)%nat).
  { rewrite Hdm at 1. rewrite Hmod, Nat.add_0_r, (Nat.mul_comm rate), Nat.add_comm, Nat.Div0.mod_add. done. }
  assert (Hlm : length msg' = (length msg mod rate)%nat) by (rewrite H2, length_drop; lia).
  assert (Hlt : (length msg mod rate < rate)%nat) by (by apply Nat.mod_upper_bound).
  unfold represents. rewrite length_app, Hdiv, Hmd.
  assert (Habs : absorb (length m / rate + length msg / rate) (replicate 25 0) (m ++ msg) =
                 absorb (length msg / rate) (hash ctx) msg).
  { rewrite absorb_add, absorb_blocks_app, <- Hh. f_equal.
    rewrite drop_app_ge by lia.
    replace (rate * (length m / rate) - length m)%nat with 0%nat by lia. done. }
  assert (Hdrop : drop (rate * (length m / rate + length msg / rate)) (m ++ msg) = msg').
  { rewrite H2, drop_app_ge by lia. f_equal. lia. }
  rewrite Habs, Hdrop.
  destruct msg' as [|b bs] eqn:Eb.
  - cbn [length] in Hlm. rewrite <- Hlm. rewrite H1, H3, Hr, Hmd, <- Hlm. done.
  - cbn [hash message rest]. rewrite H1, H3, Hr, Hmd. split; [done|]. split; [done|].
    unfold zwrite. rewrite length_list_inserts. split; [done|].
    rewrite <- Hlm. apply (take_list_inserts (b :: bs) (message ctx') 0). unfold rate in *. lia.
Qed.

(** A buffer that is not filled up to a block only grows its tail. *)
Lemma partial_represents ctx m msg : represents ctx m ->
  (length m mod rate + length msg < rate)%nat ->
  represents {| hash := hash ctx; message := zwrite (rest ctx) msg (message ctx);
                rest := (rest ctx + zlen msg) mod BLOCK_SIZE |} (m ++ msg).
Proof.
  intros (Hh & Hr & H192 & Ht) Hlt. pose proof (mod_div_eq m) as Hdm.
  assert (Hrate : (rate <> 0)%nat) by (unfold rate; lia).
  assert (Hdiv : ((length m + length msg) / rate = length m / rate)%nat).
  { symmetry. apply (Nat.div_unique _ _ _ (length m mod rate + length msg)); lia. }
  assert (Hmd : ((length m + length msg) mod rate = length m mod rate + length msg)%nat).
  { symmetry. apply (Nat.mod_unique _ _ (length m / rate)); lia. }
  unfold represents. cbn [hash rest message]. rewrite length_app, Hdiv, Hmd, absorb_blocks_app.
  split; [done|]. split.
  { rewrite Hr, BLOCK_SIZE_rate, <- Nat2Z.inj_add, Z.mod_small; [done|]. lia. }
  unfold zwrite. rewrite length_list_inserts. split; [done|].
  rewrite Hr, Nat2Z.id, take_list_inserts by (unfold rate in *; lia).
  rewrite Ht, drop_app_le by lia. done.
Qed.

Lemma wrap16_size (l : list Z) : zlen l < M16 -> wrap16 (zlen l) = zlen l.
Proof. intros. apply Z.mod_small. lia. Qed.

Lemma ztake_all {A} (l : list A) : ztake (zlen l) l = l.
Proof. unfold ztake. by rewrite Nat2Z.id, firstn_all. Qed.

(** Completing the buffered block absorbs it. *)
Lemma complete_block ctx m msg : represents ctx m -> (0 < length m mod rate)%nat ->
  (rate <= length m mod rate + length msg)%nat ->
  let l := (rate - length m mod rate)%nat in
  sha3_process_block (hash ctx) (zwrite (rest ctx) (take l msg) (message ctx)) =
  absorb (length (m ++ take l msg) / rate) (replicate 25 0) (m ++ take l msg) /\
  (length (m ++ take l msg) mod rate = 0)%nat.
Proof.
  intros (Hh & Hr & H192 & Ht) Hpos Hge l. pose proof (mod_div_eq m) as Hdm.
  assert (Hl : length (take l msg) = l) by (rewrite length_take; lia).
  assert (Hlen : length (m ++ take l msg) = ((length m / rate + 1) * rate)%nat).
  { rewrite length_app, Hl. subst l. pose proof (Nat.mod_upper_bound (length m) rate). unfold rate in *. lia. }
  rewrite Hlen, Nat.div_mul, Nat.Div0.mod_mul by (unfold rate; lia). split; [|done].
  rewrite absorb_add, absorb_blocks_app, <- Hh. cbn [absorb].
  rewrite drop_app_le, <- Ht by lia.
  rewrite <- process_block_take. apply (f_equal (sha3_process_block _)).
  unfold zwrite. rewrite Hr, Nat2Z.id.
  assert (Hu : (length m mod rate < rate)%nat) by (apply Nat.mod_upper_bound; unfold rate; lia).
  assert (He : rate = (length m mod rate + length (take l msg))%nat) by lia.
  rewrite He at 1. rewrite take_list_inserts by (unfold rate in *; lia).
  rewrite (take_ge (_ ++ _)); [done|]. rewrite length_app, length_take, Hl. lia.
Qed.

Lemma update_represents al ctx m msg : represents ctx m -> zlen msg < M16 ->
  represents (keccak_update al ctx msg (zlen msg)) (m ++ msg).
Proof.
  intros Hrep H16. pose proof Hrep as (Hh & Hr & H192 & Ht).
  assert (Hrate : (rate <> 0)%nat) by (unfold rate; lia).
  unfold keccak_update. rewrite wrap16_size, ztake_all by done.
  destruct (Z.eqb_spec (rest ctx) 0).
  - apply finish_represents; cbn [hash rest message]; try done; [lia|].
    rewrite Hr, BLOCK_SIZE_rate, <- Nat2Z.inj_add, <- Nat2Z.inj_mod.
    f_equal. symmetry. rewrite (Nat.add_comm (length m)), <- Nat.Div0.add_mod_idemp_r.
    f_equal. lia.
  - cbn [hash rest message]. rewrite BLOCK_SIZE_rate.
    destruct (Z.ltb_spec (zlen msg) (Z.of_nat rate - rest ctx)).
    + rewrite ztake_all. rewrite <- BLOCK_SIZE_rate. apply partial_represents; [done|].
      unfold rate in *. lia.
    + assert (Hl : Z.to_nat (Z.of_nat rate - rest ctx) = (rate - length m mod rate)%nat) by lia.
      unfold ztake, zdrop. rewrite Hl.
      pose proof (Nat.mod_upper_bound (length m) rate Hrate) as Hu.
      destruct (complete_block ctx m msg Hrep) as [Hc Hm0]; [lia | lia |].
      set (l := (rate - length m mod rate)%nat) in *.
      replace (m ++ msg) with ((m ++ take l msg) ++ drop l msg)
        by (by rewrite <- app_assoc, take_drop).
      apply finish_represents; cbn [hash rest message]; try done.
      { unfold zwrite. by rewrite length_list_inserts. }
      rewrite Hr, <- Nat2Z.inj_add, <- Nat2Z.inj_mod. f_equal.
      rewrite length_app, length_take, length_drop.
      replace (length m + l `min` length msg + (length msg - l))%nat with (length m + length msg)%nat by lia.
      by rewrite Nat.Div0.add_mod_idemp_l.
Qed.

Lemma length_padding n : length (padding n) = (rate - n mod rate)%nat.
Proof.
  pose proof (Nat.mod_upper_bound n rate). unfold padding.
  destruct (decide _) as [->|]; [done|].
  cbn [length]. rewrite length_app, length_replicate. cbn [length]. unfold rate in *. lia.
Qed.

(** The buffer [keccak_final] hands to the permutation: tail, then padding. *)
Lemma final_block ctx m : represents ctx m ->
  take rate (<[Z.to_nat (BLOCK_SIZE - 1) :=
      Z.lor (znth (BLOCK_SIZE - 1)
        (<[Z.to_nat (rest ctx) := Z.lor (znth (rest ctx)
             (zwrite (rest ctx) (zeros (BLOCK_SIZE - rest ctx)) (message ctx))) 0x01]>
           (zwrite (rest ctx) (zeros (BLOCK_SIZE - rest ctx)) (message ctx)))) 0x80]>
    (<[Z.to_nat (rest ctx) := Z.lor (znth (rest ctx)
             (zwrite (rest ctx) (zeros (BLOCK_SIZE - rest ctx)) (message ctx))) 0x01]>
           (zwrite (rest ctx) (zeros (BLOCK_SIZE - rest ctx)) (message ctx))))
  = drop (rate * (length m / rate)) m ++ padding (length m).
Proof.
  intros (Hh & Hr & H192 & Ht).
  assert (Hu : (length m mod rate < rate)%nat) by (apply Nat.mod_upper_bound; unfold rate; lia).
  rewrite <- Ht, Hr. set (r := (length m mod rate)%nat) in *.
  assert (Hlr : length (take r (message ctx)) = r) by (rewrite length_take; unfold rate in *; lia).
  unfold zwrite, zeros, znth. rewrite BLOCK_SIZE_rate, Nat2Z.id.
  replace (Z.to_nat (Z.of_nat rate - Z.of_nat r)) with (rate - r)%nat by lia.
  replace (Z.to_nat (Z.of_nat rate - 1)) with (rate - 1)%nat by (unfold rate; lia).
  rewrite list_inserts_spec by (rewrite length_replicate; unfold rate in *; lia).
  rewrite length_replicate. replace (r + (rate - r))%nat with rate by lia.
  set (t := take r (message ctx)) in *. set (e := drop rate (message ctx)).
  assert (Hn : forall k x, nth r (t ++ x :: k) 0 = x).
  { intros. rewrite app_nth2, Hlr, Nat.sub_diag by lia. done. }
  assert (Hi : forall k x y, <[r := y]> (t ++ x :: k) = t ++ y :: k).
  { intros. rewrite insert_app_r_alt, Hlr, Nat.sub_diag by lia. done. }
  unfold padding. fold r. destruct (decide _) as [Hk|Hk].
  - rewrite Hk. cbn [replicate app]. rewrite Hn, Hi.
    replace (rate - 1)%nat with r by lia. rewrite Hn, Hi.
    rewrite cons_middle, app_assoc, take_app_length'; [done|]. rewrite length_app. cbn [length]. lia.
  - assert (Hk2 : (rate - r = S (S (rate - r - 2)))%nat) by lia.
    rewrite Hk2. cbn [replicate app]. rewrite Hn, Hi. change (Z.lor 0 1) with 1.
    set (k := (rate - r - 2)%nat) in *.
    replace (S (S k) - 2)%nat with k by lia.
    replace (t ++ 1 :: 0 :: replicate k 0 ++ e) with ((t ++ 1 :: replicate k 0) ++ 0 :: e)
      by (rewrite app_comm_cons, replicate_cons_app, <- !app_assoc; done).
    assert (Hlt' : length (t ++ 1 :: replicate k 0) = (rate - 1)%nat).
    { rewrite length_app. cbn [length]. rewrite length_replicate. lia. }
    rewrite app_nth2, insert_app_r_alt, Hlt', Nat.sub_diag by lia. cbn [nth insert list_insert].
    rewrite cons_middle, app_assoc, take_app_length'.
    + rewrite <- app_assoc. done.
    + rewrite length_app, Hlt'. cbn [length]. unfold rate. lia.
Qed.

Lemma final_represents ctx m : represents ctx m -> keccak_final ctx = sponge m.
Proof.
  intros Hrep. pose proof Hrep as (Hh & _). unfold keccak_final, sponge.
  rewrite <- process_block_take, (final_block ctx m Hrep), Hh.
  pose proof (mod_div_eq m) as Hdm.
  assert (Hu : (length m mod rate < rate)%nat) by (apply Nat.mod_upper_bound; unfold rate; lia).
  assert (Hlen : length (m ++ padding (length m)) = ((length m / rate + 1) * rate)%nat).
  { rewrite length_app, length_padding. lia. }
  rewrite Hlen, Nat.div_mul by (unfold rate; lia).
  rewrite absorb_add, absorb_blocks_app. cbn [absorb].
  rewrite drop_app_le, process_block_take by lia. done.
Qed.

(** One [keccak_update] only sees the first [size mod 2^16] bytes. *)
Lemma update_wrap al ctx data :
  let m := ztake (wrap16 (zlen data)) data in
  keccak_update al ctx data (zlen data) = keccak_update al ctx m (zlen m).
Proof.
  intros m.
  assert (Hw : 0 <= wrap16 (zlen data) <= zlen data).
  { unfold wrap16. split; [apply Z.mod_pos_bound; reflexivity|].
    apply Z.mod_le; [lia | reflexivity]. }
  assert (Hm : zlen m = wrap16 (zlen data)) by (subst m; unfold ztake; rewrite length_take; lia).
  assert (Hww : wrap16 (wrap16 (zlen data)) = wrap16 (zlen data)) by by apply Zmod_mod.
  unfold keccak_update. rewrite Hm, Hww. fold m. rewrite <- Hm, ztake_all. done.
Qed.

(** ** Properties *)

(** C28. [sha3_permutation] of hash.c is the Keccak-f[1600] permutation of FIPS
    202 on every state of 25 64-bit lanes, and keeps such states. *)
Theorem sha3_permutation_keccak_f A : length A = 25%nat -> Forall u64 A ->
  sha3_permutation A = keccak_f A /\ length (sha3_permutation A) = 25%nat /\
  Forall u64 (sha3_permutation A).
Proof. intros H HA. destruct (permutation_correct A H HA) as (-> & ?). done. Qed.

Lemma sha3_permutation_keccak_f_witness :
  sha3_permutation (replicate 25 7) = keccak_f (replicate 25 7).
Proof.
  apply sha3_permutation_keccak_f; [reflexivity|].
  apply Forall_replicate. split; [discriminate | reflexivity].
Defined.

(** C27. The digest [Keccak256] computes is the Keccak sponge of the message,
    for every message shorter than 64 KiB, whatever the buffer's alignment. *)
Theorem keccak256_sponge al data : zlen data < M16 ->
  keccak256_aligned al data = sponge data.
Proof.
  intros H. apply final_represents.
  apply (update_represents al keccak_init [] data init_represents H).
Qed.

Lemma keccak256_sponge_witness :
  keccak256_aligned false [97; 98; 99] = sponge [97; 98; 99] /\
  sponge [97; 98; 99] = be_bytes 32 0x4e03657aea45a94fc7d47ba826c8d667c0d1e6e33a64a036ec44f58fa12d6c45.
Proof. split; [apply keccak256_sponge; reflexivity | vm_compute; reflexivity]. Defined.

(** Streaming: any sequence of [keccak_update] calls on chunks below 64 KiB
    followed by [keccak_final] digests the concatenation of the chunks. *)
Theorem keccak_stream_sponge (chunks : list (bool * list Z)) :
  Forall (fun c => zlen (snd c) < M16) chunks ->
  keccak_final (foldl (fun ctx c => keccak_update (fst c) ctx (snd c) (zlen (snd c))) keccak_init chunks)
  = sponge (concat (map snd chunks)).
Proof.
  intros H. apply final_represents. change (concat (map snd chunks)) with ([] ++ concat (map snd chunks)).
  pose proof init_represents as Hr. revert Hr. generalize keccak_init (@nil Z).
  induction H as [|[al c] cs Hc Hcs IH]; intros ctx m Hr; cbn [foldl map concat].
  - by rewrite app_nil_r.
  - rewrite app_assoc. apply IH. by apply update_represents.
Qed.

Lemma keccak_stream_sponge_witness :
  let chunks := [(true, zeros 130); (false, [1; 2; 3; 4; 5; 6; 7; 8; 9]); (true, [5])] in
  keccak_final (foldl (fun ctx c => keccak_update (fst c) ctx (snd c) (zlen (snd c))) keccak_init chunks)
  = sponge (concat (map snd chunks)).
Proof. intros chunks. apply (keccak_stream_sponge chunks). repeat constructor. Defined.

(** The 16-bit [size] parameter truncates: the digest of a buffer is the
    sponge of its first [len mod 65536] bytes only. *)
Theorem keccak256_truncates al data :
  keccak256_aligned al data = sponge (ztake (zlen data mod 65536) data).
Proof.
  unfold keccak256_aligned. rewrite update_wrap. apply final_represents.
  apply (update_represents al keccak_init [] _ init_represents).
  unfold ztake. rewrite length_take. pose proof (Z.mod_pos_bound (zlen data) M16 eq_refl).
  unfold wrap16. lia.
Qed.

End Keccak.
