(* ===== verification/Util.v ===== *)
(** * Strings, hexadecimal and endianness helpers

    Models of eEVM's include/eEVM/util.h and src/util.cpp (the parts that do not
    need RLP) and of the string conversions of intx.hpp they call.  A
    [std::string] is the list of its bytes; 256-bit numbers are [Z]. *)
From S2P Require Import Prelude.
From stdpp Require Import list sets strings.
Local Open Scope Z_scope.

Module Util.

(** Bytes of a literal. *)
Definition str (s : string) : list Z :=
  map (fun c => Z.of_nat (Ascii.nat_of_ascii c)) (String.list_ascii_of_string s).

(** ** C library pieces *)

(** [s.c_str()] read as a C string: up to the first NUL. *)
Fixpoint c_str (s : list Z) : list Z :=
  match s with
  | [] => []
  | c :: s => if c =? 0 then [] else c :: c_str s
  end.

Definition isspace (c : Z) : bool := (c =? 32) || ((9 <=? c) && (c <=? 13)).

Definition hex_val (c : Z) : option Z :=
  if (48 <=? c) && (c <=? 57) then Some (c - 48)
  else if (97 <=? c) && (c <=? 102) then Some (c - 87)
  else if (65 <=? c) && (c <=? 70) then Some (c - 55)
  else None.

Fixpoint drop_spaces (s : list Z) : list Z :=
  match s with
  | c :: r => if isspace c then drop_spaces r else s
  | [] => []
  end.

(** The longest prefix of hex digits, as a number. *)
Fixpoint hex_prefix (acc : Z) (s : list Z) : Z :=
  match s with
  | c :: r => match hex_val c with Some d => hex_prefix (acc * 16 + d) r | None => acc end
  | [] => acc
  end.

Definition tolower (c : Z) : Z := if (65 <=? c) && (c <=? 90) then c + 32 else c.
Definition toupper (c : Z) : Z := if (97 <=? c) && (c <=? 122) then c - 32 else c.

(** [strtoull(s.c_str(), nullptr, 16)] (and [strtoul], same width here): white
    space, sign, optional 0x, digits; saturates at ULLONG_MAX. *)
Definition strtoull16 (s : list Z) : Z :=
  let s := drop_spaces (c_str s) in
  let '(neg, s) := match s with
                   | 45 :: r => (true, r)
                   | 43 :: r => (false, r)
                   | _ => (false, s)
                   end in
  let s := match s with
           | 48 :: x :: d :: r =>
               if ((x =? 120) || (x =? 88)) && bool_decide (is_Some (hex_val d)) then d :: r else s
           | _ => s
           end in
  let v := hex_prefix 0 s in
  if M64 <=? v then M64 - 1 else if (neg : bool) then wrap64 (- v) else v.

(** ** util.cpp *)

Definition strip (s : list Z) : list Z :=
  match s with
  | _ :: 120 :: r => r
  | _ => s
  end.

Definition to_uint64 (s : list Z) : Z := strtoull16 s.

Definition to_bytes (_s : list Z) : list Z :=
  let s := strip _s in
  let byte_len := ((length s + 1) / 2)%nat in
  let n := if (length s mod 2 =? 0)%nat then 0%nat else 1%nat in
  (if (length s mod 2 =? 0)%nat then [] else [wrap8 (strtoull16 (take 1 s))]) ++
  map (fun i => wrap8 (strtoull16 (take 2 (drop (n + 2 * (i - n)) s)))) (seq n (byte_len - n)).

(** ** intx: digits and numbers *)

Definition digit_char (d : Z) : Z := if d <? 10 then 48 + d else 97 + d - 10.

(** The [while (x != 0)] loop of [intx::to_string]; digits come out least
    significant first and are then reversed. *)
Fixpoint to_string_loop (fuel : nat) (base x : Z) : list Z :=
  match fuel with
  | O => []
  | S fuel => if x =? 0 then [] else digit_char (x mod base) :: to_string_loop fuel base (x / base)
  end.

(** A 256-bit number has at most 256 digits, whatever the base. *)
Definition digits (x base : Z) : list Z :=
  if x =? 0 then str "0" else rev (to_string_loop 256 base x).

Definition to_string (x base : Z) : result (list Z) :=
  if (base <? 2) || (36 <? base) then Throw InvalidArgument else Ok (digits x base).

(** [intx::hex]: base 16, which [to_string] accepts. *)
Definition hex (x : Z) : list Z := digits x 16.

Definition from_dec_digit (c : Z) : result Z :=
  if (c <? 48) || (57 <? c) then Throw InvalidArgument else Ok (c - 48).

Definition from_hex_digit (c : Z) : result Z :=
  if (97 <=? c) && (c <=? 102) then Ok (c - 87)
  else if (65 <=? c) && (c <=? 70) then Ok (c - 55)
  else from_dec_digit c.

Fixpoint from_string_hex (num_digits x : Z) (s : list Z) : result Z :=
  match s with
  | [] => Ok x
  | c :: s =>
      if 64 <? num_digits + 1 then Throw OutOfRange
      else d ← from_hex_digit c; from_string_hex (num_digits + 1) (Z.lor (wrap256 (Z.shiftl x 4)) d) s
  end.

(** digits10 of a 256-bit number is 77. *)
Fixpoint from_string_dec (num_digits x : Z) (s : list Z) : result Z :=
  match s with
  | [] => Ok x
  | c :: s =>
      if 77 <? num_digits then Throw OutOfRange
      else d ← from_dec_digit c;
           let x := wrap256 (x * 10 + d) in
           if x <? d then Throw OutOfRange else from_string_dec (num_digits + 1) x s
  end.

(** [intx::from_string<uint256>] *)
Definition from_string (s : list Z) : result Z :=
  match c_str s with
  | 48 :: 120 :: s => from_string_hex 0 0 s
  | s => from_string_dec 0 0 s
  end.

(** ** util.h *)

(** [from_big_endian(begin, size)], [data] the bytes readable from [begin]. *)
Definition from_big_endian (data : list Z) (size : Z) : result Z :=
  if 32 <? size then Throw LogicError
  else if size <=? zlen data then Ok (be_val (ztake size data)) else Undef.

Definition to_big_endian (v : Z) : list Z := be_bytes 32 v.

Definition hex2 (b : Z) : list Z := [digit_char (b / 16); digit_char (b mod 16)].

(** The overloads of [to_hex_string]. *)
Definition to_hex_string (bytes : list Z) : list Z := str "0x" ++ flat_map hex2 bytes.
Definition to_hex_string_u64 (v : Z) : list Z := str "0x" ++ hex v.
Definition to_hex_string_u256 (v : Z) : list Z := str "0x" ++ hex v.

Definition to_hex_string_fixed (v min_hex_chars : Z) : list Z :=
  let h := hex v in
  str "0x" ++ replicate (Z.to_nat (min_hex_chars - zlen h)) 48 ++ h.

Definition address_to_hex_string (v : Z) : list Z := to_hex_string_fixed v 40.

Definition to_lower_hex_string (v : Z) : list Z := map tolower (to_hex_string_u256 v).

Definition to_uint256 (s : list Z) : result Z := from_string s.

(** [parse_revert]: the reason of Error(string).  The iterators [begin() + 36]
    and [begin() + 32 + offset] and the 32-byte read are unchecked: leaving the
    vector is undefined behaviour. *)
Definition parse_revert (bin : list Z) : result (list Z) :=
  match bin with
  | [] => Ok []
  | _ =>
      if zlen bin <? 36 then Undef
      else
        let src := zdrop 36 bin in
        if zlen src <? 32 then Undef
        else
          let offset := wrap64 (be_val (ztake 32 src)) in
          if zlen src <? 32 + offset then Undef
          else Ok (zslice 32 offset src)
  end.

(** ** Specification helpers *)

(** The number a string of hex digits denotes. *)
Definition hexnum (x : Z) (s : list Z) : Z :=
  foldl (fun a c => a * 16 + default 0 (hex_val c)) x s.
Definition is_hex (c : Z) : Prop := is_Some (hex_val c).

(** ** Lemmas *)

Lemma from_hex_digit_val c d : hex_val c = Some d -> from_hex_digit c = Ok d /\ 0 <= d < 16 /\ c <> 0.
Proof.
  unfold hex_val, from_hex_digit, from_dec_digit. intros H.
  repeat zcase_in H; cbn in H; simplify_eq; repeat zcase; cbn; try lia; split; try done; lia.
Qed.

Lemma from_string_hex_ok s : forall n x, Forall is_hex s -> 0 <= n -> n + zlen s <= 64 ->
  0 <= x < 16 ^ n -> from_string_hex n x s = Ok (hexnum x s).
Proof.
  induction s as [|c s IH]; intros n x Hs Hn Hl Hx; cbn [from_string_hex hexnum foldl]; [done|].
  inversion Hs as [|? ? [d Hd] Hs']; subst. destruct (from_hex_digit_val c d Hd) as (Hf & Hr & _).
  cbn [length] in Hl. zcase; [lia|]. rewrite Hf, Hd. cbn.
  rewrite Z.shiftl_mul_pow2 by lia.
  assert (16 ^ (n + 1) = 16 ^ n * 16) by (rewrite Z.pow_add_r by lia; lia).
  rewrite wrap256_small, (lor_low x d 4) by
    (try done; unfold u256, M256; change (2 ^ 256) with (16 ^ 64);
     change (2 ^ 4) with 16; pose proof (Z.pow_le_mono_r 16 (n + 1) 64); lia).
  change (2 ^ 4) with 16.
  apply IH; [done | lia | lia |]. lia.
Qed.

Lemma c_str_hex s : Forall is_hex s -> c_str s = s.
Proof.
  induction 1 as [|c s [d Hd] Hs IH]; cbn; [done|].
  destruct (from_hex_digit_val c d Hd) as (_ & _ & Hc). zcase; [done|]. by rewrite IH.
Qed.

Lemma from_string_0x s : Forall is_hex s -> zlen s <= 64 -> from_string (str "0x" ++ s) = Ok (hexnum 0 s).
Proof.
  intros Hs Hl. unfold from_string. cbn. rewrite c_str_hex by done.
  apply from_string_hex_ok; [done | lia | lia | cbn; lia].
Qed.

Lemma hexnum_app x s t : hexnum x (s ++ t) = hexnum (hexnum x s) t.
Proof. apply foldl_app. Qed.

Lemma digit_char_val d : 0 <= d < 16 -> hex_val (digit_char d) = Some d.
Proof.
  intros H. unfold digit_char, hex_val.
  zcase; repeat zcase; cbn; try lia; f_equal; lia.
Qed.

Lemma to_string_loop_hex fuel : forall x, 0 <= x < 16 ^ Z.of_nat fuel ->
  let l := rev (to_string_loop fuel 16 x) in
  Forall is_hex l /\ hexnum 0 l = x /\ (forall n, x < 16 ^ Z.of_nat n -> (length l <= n)%nat).
Proof.
  induction fuel as [|fuel IH]; intros x Hx; cbn [to_string_loop].
  - cbn in *. split; [constructor|]. split; [lia|]. intros; lia.
  - zcase; [subst; cbn; split; [constructor|]; split; [done | intros; lia]|].
    rewrite Nat2Z.inj_succ, Z.pow_succ_r in Hx by lia.
    destruct (IH (x / 16)) as (H1 & H2 & H3).
    { split; [apply Z.div_pos; lia | apply Z.div_lt_upper_bound; lia]. }
    pose proof (Z.mod_pos_bound x 16 eq_refl) as Hm.
    cbn [rev]. split; [|split].
    + apply Forall_app. split; [done|]. constructor; [|constructor].
      eexists. by apply digit_char_val.
    + rewrite hexnum_app, H2. cbn. rewrite digit_char_val by done. cbn.
      pose proof (Z.div_mod x 16). lia.
    + intros [|k] Hk; [cbn in Hk; lia|]. rewrite length_app. cbn [length].
      rewrite Nat2Z.inj_succ, Z.pow_succ_r in Hk by lia.
      enough (length (rev (to_string_loop fuel 16 (x / 16))) <= k)%nat by lia.
      apply H3, Z.div_lt_upper_bound; lia.
Qed.

Lemma hex_spec x : u256 x -> Forall is_hex (hex x) /\ hexnum 0 (hex x) = x /\ (length (hex x) <= 64)%nat.
Proof.
  intros Hx. unfold hex, digits. zcase.
  - subst. vm_compute. split; [|split]; [|done|lia]. repeat constructor. by exists 0.
  - destruct (to_string_loop_hex 256 x) as (H1 & H2 & H3).
    { destruct Hx as [? Hx]. split; [done|]. etransitivity; [exact Hx | reflexivity]. }
    split; [done|]. split; [done|]. apply H3. exact (proj2 Hx).
Qed.

Lemma hexnum_zeros n s : hexnum 0 (replicate n 48 ++ s) = hexnum 0 s.
Proof. rewrite hexnum_app. f_equal. induction n; [done | exact IHn]. Qed.

Lemma is_hex_zeros n : Forall is_hex (replicate n 48).
Proof. apply Forall_replicate. by exists 0. Qed.

Lemma hex_fixed_spec v n : u256 v -> n <= 64 ->
  let l := replicate (Z.to_nat (n - zlen (hex v))) 48 ++ hex v in
  Forall is_hex l /\ hexnum 0 l = v /\ zlen l <= 64.
Proof.
  intros Hv Hn l. destruct (hex_spec v Hv) as (H1 & H2 & H3). subst l.
  rewrite hexnum_zeros, length_app, length_replicate. split; [|split; [done | lia]].
  apply Forall_app. split; [apply is_hex_zeros | done].
Qed.

Lemma strtoull16_hex2 b : u8 b -> strtoull16 (hex2 b) = b.
Proof.
  intros Hb.
  assert (H : forallb (fun n => strtoull16 (hex2 (Z.of_nat n)) =? Z.of_nat n) (seq 0 256) = true)
    by (vm_compute; reflexivity).
  rewrite forallb_forall in H. specialize (H (Z.to_nat b)).
  destruct Hb as [Hb0 Hb1]. unfold M8 in Hb1. change (2 ^ 8) with 256 in Hb1.
  rewrite Z2Nat.id in H by done. apply Z.eqb_eq, H, in_seq. lia.
Qed.

Lemma length_flat_hex2 l : length (flat_map hex2 l) = (2 * length l)%nat.
Proof. induction l as [|b l IH]; cbn [flat_map]; [done|]. rewrite length_app, IH. cbn. lia. Qed.

Lemma flat_hex2_chunk l : forall i b, l !! i = Some b -> take 2 (drop (2 * i) (flat_map hex2 l)) = hex2 b.
Proof.
  induction l as [|c l IH]; intros [|i] b Hi; try discriminate Hi.
  - by injection Hi as ->.
  - replace (2 * S i)%nat with (2 + 2 * i)%nat by lia. apply (IH i b Hi).
Qed.

Lemma to_bytes_hex l : bytes_ok l -> to_bytes (to_hex_string l) = l.
Proof.
  intros Hl. unfold to_bytes. change (strip _) with (flat_map hex2 l). cbv zeta.
  rewrite length_flat_hex2.
  rewrite (Nat.mul_comm 2), Nat.Div0.mod_mul, Nat.eqb_refl, Nat.div_add_l by lia.
  cbn [Nat.div Nat.divmod fst]. rewrite Nat.add_0_r, Nat.sub_0_r. cbn [app].
  apply list_eq. intros i. rewrite list_lookup_fmap.
  destruct (l !! i) as [b|] eqn:Hi.
  - rewrite lookup_seq_lt by (by eapply lookup_lt_Some). cbn.
    rewrite Nat.sub_0_r, Nat.add_0_r.
    replace (i + i)%nat with (2 * i)%nat by lia.
    rewrite (flat_hex2_chunk l i b Hi), strtoull16_hex2 by (eapply Forall_lookup_1; eauto).
    f_equal. apply Z.mod_small. eapply Forall_lookup_1 in Hl; eauto.
  - rewrite lookup_seq_ge by (by apply lookup_ge_None). done.
Qed.

Lemma to_bytes_ok s : bytes_ok (to_bytes s).
Proof.
  assert (H : forall x, u8 (wrap8 x)) by (intros; apply Z.mod_pos_bound; done).
  unfold to_bytes. apply Forall_app. split.
  - destruct (_ =? _)%nat; repeat constructor; apply H.
  - apply List.Forall_forall. intros b Hb. apply in_map_iff in Hb as (i & <- & _). apply H.
Qed.

(** ** Properties *)

(** Byte strings survive the trip through hexadecimal: [to_bytes] undoes
    [to_hex_string] on every byte vector. *)
Theorem to_bytes_to_hex_string l : bytes_ok l -> to_bytes (to_hex_string l) = l.
Proof. apply to_bytes_hex. Qed.

Lemma to_bytes_to_hex_string_witness : to_bytes (to_hex_string [0; 171; 255]) = [0; 171; 255].
Proof. apply to_bytes_to_hex_string. apply (bool_decide_unpack _). vm_compute. exact I. Defined.

(** Every 256-bit number survives the trip through its hexadecimal string,
    padded or not: [to_uint256] undoes [to_hex_string_fixed] up to 64 digits. *)
Theorem to_uint256_to_hex_string_fixed v n : u256 v -> n <= 64 ->
  to_uint256 (to_hex_string_fixed v n) = Ok v.
Proof.
  intros Hv Hn. destruct (hex_fixed_spec v n Hv Hn) as (H1 & H2 & H3).
  unfold to_uint256, to_hex_string_fixed. by rewrite from_string_0x, H2.
Qed.

Lemma to_uint256_to_hex_string_fixed_witness :
  to_uint256 (to_hex_string_fixed 0xabc 40) = Ok 0xabc.
Proof. apply to_uint256_to_hex_string_fixed; [split; [lia | reflexivity] | lia]. Defined.

(** [intx::from_string] does not detect decimal overflow: a 78-digit
    literal above the range is accepted modulo 2^256 (here 2^256 + 10). *)
Theorem from_string_dec_wraps :
  from_string (str "115792089237316195423570985008687907853269984665640564039457584007913129639946")
  = Ok 10.
Proof. vm_compute. reflexivity. Qed.

End Util.
