(* ===== verification/Rlp.v ===== *)
(** * Recursive Length Prefix encoding

    Model of eEVM's include/eEVM/rlp.h.  The C++ templates are driven by the
    static types of their arguments; here those types are the values of [ty],
    and the templates are functions by recursion on them.

    A decoder's pair of references (const uint8_t*& data, size_t& size) is a
    [cursor]: the bytes readable from [data] on, and the 64-bit count [size].
    Reading past the readable bytes is [Undef]. *)
From S2P Require Import Prelude Util.
From stdpp Require Import list sets.
Local Open Scope Z_scope.

Module Rlp.
Import Util.

(** ** Types and values *)

(** The argument types rlp.h has overloads or specialisations for. *)
Inductive ty :=
  | TByteString                     (* std::vector<uint8_t> *)
  | TString                         (* std::string *)
  | TByteArray (n : nat)            (* std::array<uint8_t, n> *)
  | TUnsigned (w : nat)             (* unsigned integral type of w <= 8 bytes *)
  | TUint256
  | TVector (t : ty)                (* std::vector<T> *)
  | TArray (t : ty) (n : nat)       (* std::array<T, n> *)
  | TTuple (ts : list ty).          (* std::tuple<Ts...> *)

Inductive val :=
  | VBytes (l : list Z)
  | VNum (n : Z)
  | VSeq (l : list val)             (* vector or array *)
  | VTuple (l : list val).

(** ** Encoding *)

(** [to_byte_string(uint64_t)]: one turn per byte, most significant first. *)
Definition to_byte_string_u64 (n : Z) : list Z :=
  snd (foldl (fun '(started, bs) byte_index =>
    let offset := (7 - Z.of_nat byte_index) * 8 in
    let mask := Z.shiftl 0xff offset in
    let current_byte := Z.shiftr (Z.land mask n) offset in
    if (started : bool) || negb (current_byte =? 0) then (true, bs ++ [current_byte])
    else (started, bs)) (false, []) (seq 0 8)).

(** Word [i] of a 256-bit number, [intx::clz] and the counts built on it. *)
Definition word (n : Z) (i : nat) : Z := (n / 2 ^ (64 * Z.of_nat i)) mod M64.
Definition clz64 (x : Z) : Z := if x =? 0 then 64 else 63 - Z.log2 x.
Definition count_significant_words (n : Z) : Z :=
  if negb (word n 3 =? 0) then 4
  else if negb (word n 2 =? 0) then 3
  else if negb (word n 1 =? 0) then 2
  else if negb (word n 0 =? 0) then 1 else 0.
Definition count_significant_bytes_u64 (x : Z) : Z := (64 - clz64 x + 7) / 8.
Definition count_significant_bytes (n : Z) : Z :=
  let w := count_significant_words n in
  if w =? 0 then 0 else count_significant_bytes_u64 (word n (Z.to_nat (w - 1))) + (w - 1) * 8.

Definition to_byte_string_u256 (n : Z) : list Z :=
  if n =? 0 then []
  else let n_bytes := count_significant_bytes n in zdrop (32 - n_bytes) (be_bytes 32 n).

(** The length prefix is written through uint8_t elements. *)
Definition prefix_multiple_length (total_length : Z) (bs : list Z) : list Z :=
  if total_length <=? 55 then wrap8 (0xc0 + total_length) :: bs
  else
    let total_length_as_bytes := to_byte_string_u64 total_length in
    (wrap8 (0xf7 + zlen total_length_as_bytes) :: total_length_as_bytes) ++ bs.

(** [encode_single] after [to_byte_string]. *)
Definition encode_single (bytes : list Z) : list Z :=
  let length := zlen bytes in
  if (length =? 1) && (znth 0 bytes <=? 0x7f) then bytes
  else if length <=? 55 then wrap8 (0x80 + length) :: bytes
  else
    let length_as_bytes := to_byte_string_u64 length in
    (wrap8 (0xb7 + zlen length_as_bytes) :: length_as_bytes) ++ bytes.

(** [encode] of one argument and [to_byte_string] of a non-tuple argument.  A
    number stored in a [TUint256] argument takes the 256-bit overload. *)
Fixpoint encode1 (t : ty) (v : val) : list Z :=
  match t with
  | TTuple ts =>
      match v with
      | VTuple vs =>
          let flattened := (fix go ts vs :=
             match ts, vs with
             | t :: ts, v :: vs => encode1 t v ++ go ts vs
             | _, _ => []
             end) ts vs in
          prefix_multiple_length (zlen flattened) flattened
      | _ => []
      end
  | TVector t | TArray t _ =>
      match v with
      | VSeq vs =>
          let combined := flat_map (encode1 t) vs in
          encode_single (prefix_multiple_length (zlen combined) combined)
      | _ => []
      end
  | TUint256 => match v with VNum n => encode_single (to_byte_string_u256 n) | _ => [] end
  | TUnsigned _ => match v with VNum n => encode_single (to_byte_string_u64 n) | _ => [] end
  | TByteString | TString | TByteArray _ => match v with VBytes l => encode_single l | _ => [] end
  end.

Fixpoint encode_items (ts : list ty) (vs : list val) : list Z :=
  match ts, vs with
  | t :: ts, v :: vs => encode1 t v ++ encode_items ts vs
  | _, _ => []
  end.

Definition is_tuple (t : ty) : bool := match t with TTuple _ => true | _ => false end.

(** [encode(ts...)]: one argument is encoded by itself, any other number of
    arguments as a list. *)
Definition encode (ts : list ty) (vs : list val) : list Z :=
  match ts, vs with
  | [t], [v] => encode1 t v
  | _, _ => let flattened := encode_items ts vs in prefix_multiple_length (zlen flattened) flattened
  end.

(** ** Decoding *)

Inductive Arity := Single | Multiple.

Record cursor := Cur { data : list Z; size : Z }.

(** [*data++] [n] times. *)
Definition read_bytes (n : Z) (d : list Z) : result (list Z * list Z) :=
  if n <=? zlen d then Ok (ztake n d, zdrop n d) else Undef.

(** [from_bytes<size_t>] *)
Definition from_bytes_size_t (c : cursor) : result (Z * cursor) :=
  if 8 <? size c then Throw DecodeError
  else
    '(bs, rest) ← read_bytes (size c) (data c);
    Ok (foldl (fun r b => Z.lor (wrap64 (Z.shiftl r 8)) b) 0 bs, Cur rest 0).

Definition decode_length (c : cursor) : result (Arity * Z * cursor) :=
  if size c =? 0 then Throw DecodeError
  else
    match data c with
    | [] => Undef
    | b :: rest =>
        if b <=? 0x7f then Ok (Single, 1, c)
        else
          let size := size c - 1 in
          if b <=? 0xb7 then Ok (Single, b - 0x80, Cur rest size)
          else if b <=? 0xbf then
            let length_of_length := b - 0xb7 in
            if size <? length_of_length then Throw DecodeError
            else '(content_length, c') ← from_bytes_size_t (Cur rest length_of_length);
                 Ok (Single, content_length, Cur (data c') (size - length_of_length))
          else if b <=? 0xf7 then Ok (Multiple, b - 0xc0, Cur rest size)
          else
            let length_of_length := b - 0xf7 in
            if size <? length_of_length then Throw DecodeError
            else '(content_length, c') ← from_bytes_size_t (Cur rest length_of_length);
                 Ok (Multiple, content_length, Cur (data c') (size - length_of_length))
    end.

(** [from_bytes<ByteString>] and [from_bytes<std::string>]: the result buffer is
    allocated first; the 32-bit loop counter never reaches a [size] of 2^32 or
    more, so such a loop runs off the input. *)
Definition from_bytes_string (c : cursor) : result (val * cursor) :=
  if M64 / 2 <=? size c then Throw LengthError
  else if 2 ^ 32 <=? size c then Undef
  else '(bs, rest) ← read_bytes (size c) (data c); Ok (VBytes bs, Cur rest 0).

Definition from_bytes_array8 (n : nat) (c : cursor) : result (val * cursor) :=
  if negb (size c =? Z.of_nat n) then Throw DecodeError
  else '(bs, rest) ← read_bytes (size c) (data c); Ok (VBytes bs, Cur rest 0).

Definition from_bytes_u256 (c : cursor) : result (val * cursor) :=
  if size c =? 0 then Ok (VNum 0, c)
  else n ← from_big_endian (data c) (size c); Ok (VNum n, Cur (zdrop (size c) (data c)) 0).

(** The [while (contained_length > 0)] loop of [from_bytes<std::vector<T>>].
    Every turn that returns has consumed a byte (types with zero-length arrays
    apart), so the readable bytes bound the number of turns. *)
Fixpoint decode_while (decode_t : cursor -> result (val * cursor)) (fuel : nat) (c : cursor)
  : result (list val * cursor) :=
  if size c =? 0 then Ok ([], c)
  else match fuel with
       | O => Undef
       | S fuel => '(v, c) ← decode_t c; '(vs, c) ← decode_while decode_t fuel c; Ok (v :: vs, c)
       end.

Fixpoint decode_times (decode_t : cursor -> result (val * cursor)) (n : nat) (c : cursor)
  : result (list val * cursor) :=
  match n with
  | O => Ok ([], c)
  | S n => '(v, c) ← decode_t c; '(vs, c) ← decode_times decode_t n c; Ok (v :: vs, c)
  end.

(** [decode_impl<T>] for one type: [size -= contained_length] is the 64-bit
    subtraction of the code, unchecked. *)
Fixpoint decode1 (t : ty) (c : cursor) : result (val * cursor) :=
  '(arity, contained_length, c) ← decode_length c;
  let size' := wrap64 (size c - contained_length) in
  let inner := Cur (data c) contained_length in
  let single (r : result (val * cursor)) : result (val * cursor) :=
    match arity with
    | Multiple => Throw DecodeError
    | Single => '(v, c') ← r; Ok (v, Cur (data c') size')
    end in
  match t with
  | TByteString | TString => single (from_bytes_string inner)
  | TByteArray n => single (from_bytes_array8 n inner)
  | TUnsigned w =>
      single ('(n, c') ← from_bytes_size_t inner; Ok (VNum (n mod 256 ^ Z.of_nat w), c'))
  | TUint256 => single (from_bytes_u256 inner)
  | TVector t =>
      single ('(_, contained, c') ← decode_length inner;
              '(vs, c') ← decode_while (decode1 t) (length (data c')) (Cur (data c') contained);
              Ok (VSeq vs, Cur (data c') 0))
  | TArray t n =>
      single ('(_, _, c') ← decode_length inner;
              '(vs, c') ← decode_times (decode1 t) n c';
              Ok (VSeq vs, Cur (data c') 0))
  | TTuple ts =>
      match arity with
      | Single => Throw DecodeError
      | Multiple =>
          '(vs, c') ← (fix decode_tuple ts c :=
             match ts with
             | [] => Ok ([], c)
             | t :: ts => '(v, c) ← decode1 t c; '(vs, c) ← decode_tuple ts c; Ok (v :: vs, c)
             end) ts inner;
          Ok (VTuple vs, Cur (data c') size')
      end
  end.

(** [decode_tuple]: the entries one after the other. *)
Fixpoint decode_tuple (ts : list ty) (c : cursor) : result (list val * cursor) :=
  match ts with
  | [] => Ok ([], c)
  | t :: ts => '(v, c) ← decode1 t c; '(vs, c) ← decode_tuple ts c; Ok (v :: vs, c)
  end.

(** [decode_item<T>]: a tuple type goes straight to its entries. *)
Definition decode_item (t : ty) (c : cursor) : result (val * cursor) :=
  match t with
  | TTuple ts => '(vs, c) ← decode_tuple ts c; Ok (VTuple vs, c)
  | _ => decode1 t c
  end.

Fixpoint decode_multiple (ts : list ty) (c : cursor) : result (list val * cursor) :=
  match ts with
  | [] => Ok ([], c)
  | t :: ts => '(v, c) ← decode_item t c; '(vs, c) ← decode_multiple ts c; Ok (v :: vs, c)
  end.

(** [decode_impl<Ts...>] *)
Definition decode_impl (ts : list ty) (c : cursor) : result (list val * cursor) :=
  match ts with
  | [t] => '(v, c) ← decode1 t c; Ok ([v], c)
  | [] =>
      '(arity, contained_length, c) ← decode_length c;
      match arity with
      | Single => Throw DecodeError
      | Multiple => if contained_length =? 0 then Ok ([], c) else Throw DecodeError
      end
  | _ =>
      '(arity, contained_length, c) ← decode_length c;
      match arity with
      | Single => Throw DecodeError
      | Multiple =>
          '(vs, c') ← decode_multiple ts (Cur (data c) contained_length);
          Ok (vs, Cur (data c') (wrap64 (size c - contained_length)))
      end
  end.

(** [decode<Ts...>(bytes)] and [decode_single<T>(bytes)] *)
Definition decode (ts : list ty) (bytes : list Z) : result (list val) :=
  '(vs, c) ← decode_impl ts (Cur bytes (zlen bytes));
  if size c =? 0 then Ok vs else Throw DecodeError.

Definition decode_single (t : ty) (bytes : list Z) : result val :=
  vs ← decode [t] bytes;
  match vs with [v] => Ok v | _ => Undef end.

(** One turn of [to_byte_string_u64], with arithmetic for the mask and shift. *)
Definition u64_step (n : Z) (st : bool * list Z) (byte_index : nat) : bool * list Z :=
  let '(started, bs) := st in
  let b := (n / 256 ^ (7 - Z.of_nat byte_index)) mod 256 in
  if started || negb (b =? 0) then (true, bs ++ [b]) else (started, bs).

(** ** Well-typed values *)
Fixpoint has_type (t : ty) (v : val) : Prop :=
  match t, v with
  | TByteString, VBytes l | TString, VBytes l => bytes_ok l
  | TByteArray n, VBytes l => bytes_ok l /\ length l = n
  | TUnsigned w, VNum n => (w <= 8)%nat /\ 0 <= n < 256 ^ Z.of_nat w
  | TUint256, VNum n => u256 n
  | TVector t, VSeq vs => Forall (has_type t) vs
  | TArray t n, VSeq vs => Forall (has_type t) vs /\ length vs = n
  | TTuple ts, VTuple vs =>
      (fix go ts vs := match ts, vs with
                       | [], [] => True
                       | t :: ts, v :: vs => has_type t v /\ go ts vs
                       | _, _ => False
                       end) ts vs
  | _, _ => False
  end.

Fixpoint has_types (ts : list ty) (vs : list val) : Prop :=
  match ts, vs with
  | [], [] => True
  | t :: ts, v :: vs => has_type t v /\ has_types ts vs
  | _, _ => False
  end.

(** Decoding one item of type [t] undoes encoding it, anywhere in a buffer. *)
Definition item_ok (t : ty) : Prop := forall v rest S,
  has_type t v -> zlen (encode1 t v) < 2 ^ 32 -> zlen (encode1 t v) <= S < M64 ->
  decode1 t (Cur (encode1 t v ++ rest) S) = Ok (v, Cur rest (S - zlen (encode1 t v))).

(** Induction over types, through the lists inside tuples. *)
Section ty_ind.
Variable P : ty -> Prop.
Hypothesis H_bytes : P TByteString.
Hypothesis H_string : P TString.
Hypothesis H_array8 : forall n, P (TByteArray n).
Hypothesis H_unsigned : forall w, P (TUnsigned w).
Hypothesis H_uint256 : P TUint256.
Hypothesis H_vector : forall t, P t -> P (TVector t).
Hypothesis H_array : forall t n, P t -> P (TArray t n).
Hypothesis H_tuple : forall ts, Forall P ts -> P (TTuple ts).
Fixpoint ty_nested_ind (t : ty) : P t :=
  match t with
  | TByteString => H_bytes
  | TString => H_string
  | TByteArray n => H_array8 n
  | TUnsigned w => H_unsigned w
  | TUint256 => H_uint256
  | TVector t => H_vector t (ty_nested_ind t)
  | TArray t n => H_array t n (ty_nested_ind t)
  | TTuple ts => H_tuple ts ((fix go ts : Forall P ts :=
      match ts with
      | [] => Forall_nil_2 P
      | t :: ts => Forall_cons_2 P t ts (ty_nested_ind t) (go ts)
      end) ts)
  end.
End ty_ind.

(** ** Lemmas: numbers as byte strings *)

Lemma land_ff_byte n o : 0 <= o -> Z.shiftr (Z.land (Z.shiftl 0xff o) n) o = (n / 2 ^ o) mod 256.
Proof.
  intros Ho. rewrite Z.shiftr_land, Z.shiftr_shiftl_l, Z.sub_diag by lia.
  change (Z.shiftl 255 0) with (Z.ones 8).
  rewrite Z.land_comm, Z.land_ones by lia. by rewrite Z.shiftr_div_pow2.
Qed.

Lemma u64_step_invariant n m : forall i started bs, (i + m = 8)%nat -> 0 <= n ->
  be_val bs = n / 256 ^ (8 - Z.of_nat i) -> bytes_ok bs -> (length bs <= i)%nat ->
  (started = false -> bs = []) -> (started = true -> head bs <> Some 0 /\ bs <> []) ->
  let r := snd (foldl (u64_step n) (started, bs) (seq i m)) in
  be_val r = n /\ bytes_ok r /\ (length r <= 8)%nat /\ head r <> Some 0.
Proof.
  induction m as [|m IH]; intros i started bs Him Hn Hv Hok Hlen Hs1 Hs2; cbn [seq foldl].
  - replace (8 - Z.of_nat i) with 0 in Hv by lia. rewrite Z.pow_0_r, Z.div_1_r in Hv.
    cbn. split; [done|]. split; [done|]. split; [lia|].
    destruct started; [by apply Hs2 | by rewrite Hs1].
  - set (b := (n / 256 ^ (7 - Z.of_nat i)) mod 256).
    change (u64_step n (started, bs) i) with
      (if started || negb (b =? 0) then (true, bs ++ [b]) else (started, bs)).
    assert (Hb : u8 b) by apply (Z.mod_pos_bound _ 256 eq_refl).
    assert (Hpow : 256 ^ (8 - Z.of_nat i) = 256 ^ (7 - Z.of_nat i) * 256).
    { replace (8 - Z.of_nat i) with (Z.succ (7 - Z.of_nat i)) by lia. rewrite Z.pow_succ_r by lia. lia. }
    assert (Hp : 0 < 256 ^ (7 - Z.of_nat i)) by (apply Z.pow_pos_nonneg; lia).
    rewrite Hpow, <- Z.div_div in Hv by lia.
    pose proof (Z.div_mod (n / 256 ^ (7 - Z.of_nat i)) 256 ltac:(lia)) as Hdm. fold b in Hdm.
    assert (Hi : 8 - Z.of_nat (S i) = 7 - Z.of_nat i) by lia.
    destruct (started || negb (b =? 0)) eqn:E; apply IH; try done; try lia.
    + rewrite Hi, be_val_app, Hv. cbn [length]. change (be_val [b]) with (0 * 256 + b).
      change (Z.of_nat 1) with 1. lia.
    + apply bytes_ok_app. split; [done|]. by constructor.
    + rewrite length_app. cbn. lia.
    + intros _. split; [|by destruct bs]. destruct started.
      * destruct (Hs2 eq_refl) as [Hh Hne]. by destruct bs.
      * rewrite (Hs1 eq_refl). cbn. intros [= H0]. by rewrite H0 in E.
    + rewrite Hi. destruct started; [done|]. rewrite (Hs1 eq_refl) in Hv |- *.
      apply negb_false_iff, Z.eqb_eq in E. rewrite be_val_nil in *. lia.
Qed.

Lemma to_byte_string_u64_spec n : u64 n ->
  let r := to_byte_string_u64 n in
  be_val r = n /\ bytes_ok r /\ (length r <= 8)%nat /\ head r <> Some 0.
Proof.
  intros [Hn0 Hn1]. unfold to_byte_string_u64.
  rewrite (foldl_ext_in _ (u64_step n)).
  - apply u64_step_invariant; try done; try lia; [|constructor].
    cbn. rewrite Z.div_small; [done|]. split; [done|]. exact Hn1.
  - intros [st bs] i Hi. apply in_seq in Hi. unfold u64_step.
    rewrite land_ff_byte by lia. rewrite (Z.mul_comm _ 8), Z.pow_mul_r by lia. done.
Qed.

Lemma drop_be_bytes k m n : drop k (be_bytes (k + m) n) = be_bytes m n.
Proof. induction k as [|k IH]; cbn; [done | exact IH]. Qed.

Lemma count_significant_bytes_u64_spec x : 0 < x < M64 ->
  1 <= count_significant_bytes_u64 x <= 8 /\
  256 ^ (count_significant_bytes_u64 x - 1) <= x < 256 ^ count_significant_bytes_u64 x.
Proof.
  intros [Hx Hx64]. unfold count_significant_bytes_u64, clz64. zcase; [lia|].
  pose proof (Z.log2_spec x Hx) as [Hl1 Hl2]. pose proof (Z.log2_nonneg x) as Hl0.
  assert (Hlt : Z.log2 x < 64) by (apply Z.log2_lt_pow2; [lia | exact Hx64]).
  replace (64 - (63 - Z.log2 x) + 7) with (Z.log2 x + 1 * 8) by lia.
  rewrite Z.div_add by lia. pose proof (Z.div_mod (Z.log2 x) 8 ltac:(lia)) as Hdm.
  pose proof (Z.mod_pos_bound (Z.log2 x) 8 eq_refl) as Hmb.
  set (q := Z.log2 x / 8) in *. split; [lia|].
  change 256 with (2 ^ 8). rewrite <- !Z.pow_mul_r by lia. split.
  - etransitivity; [|exact Hl1]. apply Z.pow_le_mono_r; lia.
  - eapply Z.lt_le_trans; [exact Hl2|]. apply Z.pow_le_mono_r; lia.
Qed.

(** The top non-zero word of a number is its quotient by the words below. *)
Lemma top_word n i : u256 n -> (i < 4)%nat -> n < 2 ^ (64 * Z.of_nat (S i)) -> 0 < word n i ->
  word n i = n / 2 ^ (64 * Z.of_nat i) /\ word n i < M64.
Proof.
  intros [Hn0 _] Hi Hn Hw. unfold word in *.
  pose proof (Z.mod_pos_bound (n / 2 ^ (64 * Z.of_nat i)) M64 eq_refl). split; [|lia].
  apply Z.mod_small. split; [apply Z.div_pos; lia|].
  apply Z.div_lt_upper_bound; [lia|]. unfold M64. rewrite <- Z.pow_add_r by lia.
  by replace (64 * Z.of_nat i + 64) with (64 * Z.of_nat (S i)) by lia.
Qed.

Lemma word_zero n i : u256 n -> n < 2 ^ (64 * Z.of_nat (S i)) -> word n i = 0 ->
  n < 2 ^ (64 * Z.of_nat i).
Proof.
  intros [Hn0 _] Hn Hw. unfold word in Hw.
  assert (Hq : n / 2 ^ (64 * Z.of_nat i) < M64).
  { apply Z.div_lt_upper_bound; [lia|]. unfold M64. rewrite <- Z.pow_add_r by lia.
    by replace (64 * Z.of_nat i + 64) with (64 * Z.of_nat (S i)) by lia. }
  rewrite Z.mod_small in Hw by (split; [apply Z.div_pos; lia | done]).
  apply Z.div_small_iff in Hw; [|lia]. lia.
Qed.

Lemma count_significant_bytes_word n i : u256 n -> (i < 4)%nat ->
  n < 2 ^ (64 * Z.of_nat (S i)) -> word n i <> 0 ->
  let k := count_significant_bytes_u64 (word n i) + Z.of_nat i * 8 in
  1 <= k <= 32 /\ 256 ^ (k - 1) <= n < 256 ^ k.
Proof.
  intros Hn Hi Hlt Hw k.
  assert (Hpos : 0 < word n i).
  { pose proof (Z.mod_pos_bound (n / 2 ^ (64 * Z.of_nat i)) M64 eq_refl). unfold word in *. lia. }
  destruct (top_word n i Hn Hi Hlt Hpos) as [Hq Hq64].
  destruct (count_significant_bytes_u64_spec (word n i) (conj Hpos Hq64)) as [Hc1 [Hc2 Hc3]].
  subst k. remember (count_significant_bytes_u64 (word n i)) as c eqn:Ec. rewrite Hq in Hc2, Hc3.
  assert (Hpw : 2 ^ (64 * Z.of_nat i) = 256 ^ (Z.of_nat i * 8)).
  { change 256 with (2 ^ 8). rewrite <- Z.pow_mul_r by lia. f_equal. lia. }
  rewrite Hpw in *. split; [lia|].
  assert (Hp : 0 < 256 ^ (Z.of_nat i * 8)) by (apply Z.pow_pos_nonneg; lia).
  replace (c + Z.of_nat i * 8 - 1) with (c - 1 + Z.of_nat i * 8) by lia.
  rewrite !Z.pow_add_r by lia.
  pose proof (Z.div_mod n (256 ^ (Z.of_nat i * 8)) ltac:(lia)) as Hdm.
  pose proof (Z.mod_pos_bound n (256 ^ (Z.of_nat i * 8)) Hp) as Hmb.
  revert Hc2 Hc3 Hdm Hmb Hp. generalize (256 ^ (Z.of_nat i * 8)) (256 ^ (c - 1)) (256 ^ c).
  intros P a b. generalize (n / P) (n mod P). clear. intros q r Ha Hb -> Hr HP.
  split; [|assert (P * (q + 1) <= b * P) by nia]; nia.
Qed.

Lemma count_significant_bytes_spec n : u256 n -> 0 < n ->
  let k := count_significant_bytes n in 1 <= k <= 32 /\ 256 ^ (k - 1) <= n < 256 ^ k.
Proof.
  intros Hn Hpos. unfold count_significant_bytes, count_significant_words.
  assert (H4 : n < 2 ^ (64 * Z.of_nat 4)) by exact (proj2 Hn).
  destruct (Z.eqb_spec (word n 3) 0) as [E3|E3]; cbn [negb];
    [|by apply (count_significant_bytes_word n 3); [|lia| |]].
  pose proof (word_zero n 3 Hn H4 E3) as H3.
  destruct (Z.eqb_spec (word n 2) 0) as [E2|E2]; cbn [negb];
    [|by apply (count_significant_bytes_word n 2); [|lia| |]].
  pose proof (word_zero n 2 Hn H3 E2) as H2.
  destruct (Z.eqb_spec (word n 1) 0) as [E1|E1]; cbn [negb];
    [|by apply (count_significant_bytes_word n 1); [|lia| |]].
  pose proof (word_zero n 1 Hn H2 E1) as H1.
  destruct (Z.eqb_spec (word n 0) 0) as [E0|E0]; cbn [negb];
    [|by apply (count_significant_bytes_word n 0); [|lia| |]].
  pose proof (word_zero n 0 Hn H1 E0) as H0. cbn in H0. lia.
Qed.

Lemma to_byte_string_u256_spec n : u256 n ->
  let r := to_byte_string_u256 n in
  be_val r = n /\ bytes_ok r /\ (length r <= 32)%nat.
Proof.
  intros Hn. unfold to_byte_string_u256. zcase; [subst; cbn; split; [done|]; split; [constructor|lia]|].
  assert (Hpos : 0 < n) by (destruct Hn; lia).
  destruct (count_significant_bytes_spec n Hn Hpos) as [Hk [_ Hb]].
  set (k := count_significant_bytes n) in *. unfold zdrop.
  replace 32%nat with (Z.to_nat (32 - k) + Z.to_nat k)%nat at 1 2 3 by lia.
  rewrite drop_be_bytes, be_val_be_bytes, length_be_bytes, Z2Nat.id, Z.mod_small by lia.
  split; [done|]. split; [apply be_bytes_ok | lia].
Qed.

Lemma to_byte_string_u256_head n : u256 n -> head (to_byte_string_u256 n) <> Some 0.
Proof.
  intros Hn. unfold to_byte_string_u256. zcase; [done|].
  assert (Hpos : 0 < n) by (destruct Hn; lia).
  destruct (count_significant_bytes_spec n Hn Hpos) as [Hk [Hlo Hhi]].
  set (k := count_significant_bytes n) in *. unfold zdrop.
  replace 32%nat with (Z.to_nat (32 - k) + Z.to_nat k)%nat at 1 by lia. rewrite drop_be_bytes.
  assert (Hs : exists j, Z.to_nat k = S j /\ Z.of_nat j = k - 1) by (exists (Z.to_nat (k - 1)); lia).
  destruct Hs as (j & -> & Hj). cbn [be_bytes head]. rewrite Hj. intros [= H0].
  assert (Hp : 0 < 256 ^ (k - 1)) by (apply Z.pow_pos_nonneg; lia).
  assert (Hq : 1 <= n / 256 ^ (k - 1) < 256).
  { split; [apply Z.div_le_lower_bound; lia|]. apply Z.div_lt_upper_bound; [done|].
    replace k with (k - 1 + 1) in Hhi at 1 by lia. rewrite Z.pow_add_r in Hhi by lia. lia. }
  rewrite Z.mod_small in H0; lia.
Qed.

(** ** Lemmas: headers *)

(** Equality of decoder results, the counts by [lia]. *)
Ltac cursor_eq :=
  repeat match goal with
  | |- Ok _ = Ok _ => apply f_equal
  | |- (_, _) = (_, _) => apply f_equal2
  | |- Cur _ _ = Cur _ _ => apply f_equal2
  | |- @eq Z _ _ => cbn [length]; rewrite ?length_app; lia
  | |- _ => reflexivity
  end.

Lemma read_bytes_app b rest : read_bytes (zlen b) (b ++ rest) = Ok (b, rest).
Proof.
  unfold read_bytes. rewrite length_app. zcase; [|lia]. unfold ztake, zdrop.
  by rewrite Nat2Z.id, take_app_length, drop_app_length.
Qed.

Lemma foldl_size_t bs : forall r k, bytes_ok bs -> 0 <= k -> k + zlen bs <= 8 -> 0 <= r < 256 ^ k ->
  foldl (fun r b => Z.lor (wrap64 (Z.shiftl r 8)) b) r bs = foldl (fun a b => a * 256 + b) r bs.
Proof.
  induction bs as [|b bs IH]; intros r k Hok Hk Hl Hr; cbn [foldl]; [done|].
  inversion Hok as [|? ? Hb Hok']; subst. cbn [length] in Hl.
  assert (Hp : 256 ^ (k + 1) = 256 ^ k * 256) by (rewrite Z.pow_add_r by lia; lia).
  assert (256 ^ (k + 1) <= M64).
  { unfold M64. change (2 ^ 64) with (256 ^ 8). apply Z.pow_le_mono_r; lia. }
  destruct Hb as [Hb0 Hb1].
  rewrite Z.shiftl_mul_pow2, wrap64_small, (lor_low r b 8) by
    (try done; unfold u64; change (2 ^ 8) with 256; lia).
  change (2 ^ 8) with 256. unfold M8 in Hb1. change (2 ^ 8) with 256 in Hb1.
  apply (IH _ (k + 1)); try done; lia.
Qed.

Lemma from_bytes_size_t_ok bs rest : bytes_ok bs -> (length bs <= 8)%nat ->
  from_bytes_size_t (Cur (bs ++ rest) (zlen bs)) = Ok (be_val bs, Cur rest 0).
Proof.
  intros Hok Hl. unfold from_bytes_size_t. cbn [data size]. zcase; [lia|].
  rewrite read_bytes_app. cbn [mbind result_bind].
  rewrite (foldl_size_t bs 0 0) by (try done; cbn; lia). done.
Qed.

Lemma length_as_bytes n : 0 < n -> u64 n ->
  let r := to_byte_string_u64 n in 1 <= zlen r <= 8 /\ bytes_ok r /\ be_val r = n.
Proof.
  intros Hp Hn. destruct (to_byte_string_u64_spec n Hn) as (Hv & Hok & Hl & _).
  cbv zeta. split; [|done]. split; [|lia].
  destruct (to_byte_string_u64 n); [cbn in Hv; lia | cbn [length]; lia].
Qed.

Lemma wrap8_small x : 0 <= x < 256 -> wrap8 x = x.
Proof. apply Z.mod_small. Qed.

Lemma decode_length_single b rest S : u64 (zlen b) -> zlen (encode_single b) <= S ->
  decode_length (Cur (encode_single b ++ rest) S) =
  Ok (Single, zlen b, Cur (b ++ rest) (S - (zlen (encode_single b) - zlen b))).
Proof.
  intros H64. unfold encode_single.
  destruct ((zlen b =? 1) && (znth 0 b <=? 0x7f)) eqn:E1; [|destruct (Z.leb_spec (zlen b) 55)].
  - apply andb_true_iff in E1 as [E1 E2]. apply Z.eqb_eq in E1. apply Z.leb_le in E2.
    destruct b as [|c [|d b]]; try (cbn [length] in E1; lia). intros HS. cbn [length] in HS.
    unfold decode_length. cbn [data size app length] in *. change (c <= 127) in E2.
    repeat (zcase; try lia). cursor_eq.
  - intros HS. cbn [length] in HS. rewrite wrap8_small in * by lia.
    unfold decode_length. cbn [data size app]. repeat (zcase; try lia).
    cursor_eq.
  - destruct (length_as_bytes (zlen b)) as (Hl & Hlok & Hlv); [lia | done |].
    set (r := to_byte_string_u64 (zlen b)) in *. rewrite wrap8_small by lia.
    cbn [app length]. rewrite length_app. intros HS.
    unfold decode_length. cbn [data size]. repeat (zcase; try lia).
    replace (183 + zlen r - 183) with (zlen r) by lia. rewrite <- app_assoc.
    rewrite from_bytes_size_t_ok by (try done; lia). cbn [mbind result_bind data].
    rewrite Hlv. cursor_eq.
Qed.

Lemma decode_length_multiple b rest S : u64 (zlen b) ->
  zlen (prefix_multiple_length (zlen b) b) <= S ->
  decode_length (Cur (prefix_multiple_length (zlen b) b ++ rest) S) =
  Ok (Multiple, zlen b, Cur (b ++ rest) (S - (zlen (prefix_multiple_length (zlen b) b) - zlen b))).
Proof.
  intros H64. unfold prefix_multiple_length. destruct (Z.leb_spec (zlen b) 55).
  - intros HS. cbn [length] in HS. rewrite wrap8_small in * by lia.
    unfold decode_length. cbn [data size app]. repeat (zcase; try lia).
    cursor_eq.
  - destruct (length_as_bytes (zlen b)) as (Hl & Hlok & Hlv); [lia | done |].
    set (r := to_byte_string_u64 (zlen b)) in *. rewrite wrap8_small by lia.
    cbn [app length]. rewrite length_app. intros HS.
    unfold decode_length. cbn [data size]. repeat (zcase; try lia).
    replace (247 + zlen r - 247) with (zlen r) by lia. rewrite <- app_assoc.
    rewrite from_bytes_size_t_ok by (try done; lia). cbn [mbind result_bind data].
    rewrite Hlv. cursor_eq.
Qed.

(** Lengths: a header never shrinks its payload and is never empty. *)
Lemma encode_single_length b : zlen b <= zlen (encode_single b) /\ 0 < zlen (encode_single b).
Proof.
  unfold encode_single. destruct (_ && _) eqn:E.
  - apply andb_true_iff in E as [E _]. apply Z.eqb_eq in E. lia.
  - zcase; cbn [length app]; [lia|]. rewrite length_app. lia.
Qed.
Lemma prefix_length b :
  zlen b <= zlen (prefix_multiple_length (zlen b) b) /\ 0 < zlen (prefix_multiple_length (zlen b) b).
Proof. unfold prefix_multiple_length. zcase; cbn [length app]; [lia|]. rewrite length_app. lia. Qed.

(** ** Lemmas: round trips *)

Lemma from_bytes_string_ok b rest : zlen b < 2 ^ 32 ->
  from_bytes_string (Cur (b ++ rest) (zlen b)) = Ok (VBytes b, Cur rest 0).
Proof.
  intros Hb. unfold from_bytes_string. cbn [data size].
  change (M64 / 2) with (2 ^ 63). destruct (Z.leb_spec (2 ^ 63) (zlen b)); [lia|].
  destruct (Z.leb_spec (2 ^ 32) (zlen b)); [lia|]. by rewrite read_bytes_app.
Qed.

Lemma from_bytes_array8_ok b rest :
  from_bytes_array8 (length b) (Cur (b ++ rest) (zlen b)) = Ok (VBytes b, Cur rest 0).
Proof.
  unfold from_bytes_array8. cbn [data size]. rewrite Z.eqb_refl. cbn [negb]. by rewrite read_bytes_app.
Qed.

Lemma from_big_endian_app b rest : (length b <= 32)%nat ->
  from_big_endian (b ++ rest) (zlen b) = Ok (be_val b).
Proof.
  intros Hb. unfold from_big_endian. rewrite length_app.
  zcase; [|lia]. zcase; [lia|]. unfold ztake. by rewrite Nat2Z.id, take_app_length.
Qed.

Lemma from_bytes_u256_ok b rest : (length b <= 32)%nat ->
  from_bytes_u256 (Cur (b ++ rest) (zlen b)) = Ok (VNum (be_val b), Cur rest 0).
Proof.
  intros Hb. unfold from_bytes_u256. cbn [data size]. zcase.
  - destruct b; [done | cbn [length] in *; lia].
  - rewrite from_big_endian_app by done. cbn. unfold zdrop. by rewrite Nat2Z.id, drop_app_length.
Qed.

Lemma encode1_nonempty t v : has_type t v -> 0 < zlen (encode1 t v).
Proof.
  destruct t, v; cbn [has_type encode1]; try done; intros _;
    first [apply encode_single_length | apply prefix_length].
Qed.

Lemma decode_while_ok t vs : item_ok t -> Forall (has_type t) vs ->
  forall fuel rest, (length vs <= fuel)%nat -> zlen (flat_map (encode1 t) vs) < 2 ^ 32 ->
  decode_while (decode1 t) fuel (Cur (flat_map (encode1 t) vs ++ rest) (zlen (flat_map (encode1 t) vs)))
  = Ok (vs, Cur rest 0).
Proof.
  intros Ht. induction 1 as [|v vs Hv Hvs IH]; intros fuel rest Hf Hl; cbn [flat_map].
  - destruct fuel; done.
  - cbn [flat_map] in Hl. rewrite length_app in Hl. pose proof (encode1_nonempty t v Hv) as Hne.
    destruct fuel as [|fuel]; [cbn in Hf; lia|]. cbn [decode_while size].
    rewrite length_app. zcase; [lia|]. rewrite <- app_assoc, Ht by (try done; unfold M64; lia).
    cbn [mbind result_bind].
    replace (Z.of_nat (length (encode1 t v) + length (flat_map (encode1 t) vs)) - zlen (encode1 t v))
      with (zlen (flat_map (encode1 t) vs)) by lia.
    rewrite IH by (cbn [length] in Hf; lia). done.
Qed.

Lemma decode_times_ok t vs : item_ok t -> Forall (has_type t) vs ->
  forall rest S, zlen (flat_map (encode1 t) vs) < 2 ^ 32 -> zlen (flat_map (encode1 t) vs) <= S < M64 ->
  decode_times (decode1 t) (length vs) (Cur (flat_map (encode1 t) vs ++ rest) S)
  = Ok (vs, Cur rest (S - zlen (flat_map (encode1 t) vs))).
Proof.
  intros Ht. induction 1 as [|v vs Hv Hvs IH]; intros rest S Hl HS; cbn [flat_map length decode_times].
  - cursor_eq.
  - cbn [flat_map] in Hl, HS. rewrite length_app in Hl, HS.
    rewrite <- app_assoc, Ht by (try done; lia). cbn [mbind result_bind].
    rewrite IH by lia. cbn [mbind result_bind]. cursor_eq.
Qed.

Lemma has_type_tuple ts vs : has_type (TTuple ts) (VTuple vs) <-> has_types ts vs.
Proof. cbn. revert vs; induction ts as [|t ts IH]; intros [|v vs]; cbn; done || by rewrite IH. Qed.

Lemma encode1_tuple ts vs : encode1 (TTuple ts) (VTuple vs) =
  prefix_multiple_length (zlen (encode_items ts vs)) (encode_items ts vs).
Proof. reflexivity. Qed.

Lemma decode1_tuple ts c : decode1 (TTuple ts) c =
  ('(arity, contained_length, c) ← decode_length c;
   match arity with
   | Single => Throw DecodeError
   | Multiple =>
       '(vs, c') ← decode_tuple ts (Cur (data c) contained_length);
       Ok (VTuple vs, Cur (data c') (wrap64 (size c - contained_length)))
   end).
Proof. reflexivity. Qed.

Lemma decode_tuple_ok ts : Forall item_ok ts -> forall vs rest S, has_types ts vs ->
  zlen (encode_items ts vs) < 2 ^ 32 -> zlen (encode_items ts vs) <= S < M64 ->
  decode_tuple ts (Cur (encode_items ts vs ++ rest) S) = Ok (vs, Cur rest (S - zlen (encode_items ts vs))).
Proof.
  induction 1 as [|t ts Ht Hts IH]; intros [|v vs] rest S Hty Hl HS; cbn in Hty; try done;
    cbn [encode_items decode_tuple].
  - cbn. cursor_eq.
  - destruct Hty as [Hv Hvs]. cbn [encode_items] in Hl, HS. rewrite length_app in Hl, HS.
    rewrite <- app_assoc, Ht by (try done; lia). cbn [mbind result_bind].
    rewrite IH by (done || lia). cbn [mbind result_bind]. cursor_eq.
Qed.

Lemma wrap64_sub S a b : 0 <= b -> a <= S < M64 -> b <= a ->
  wrap64 (S - (a - b) - b) = S - a.
Proof. intros. replace (S - (a - b) - b) with (S - a) by lia. apply wrap64_small. unfold u64. lia. Qed.

(** Leaf types: one header, then the payload. *)
Ltac decode_leaf b :=
  let HL := fresh in
  pose proof (encode_single_length b) as HL;
  rewrite (decode_length_single b) by (unfold u64, M64 in *; lia);
  cbn [mbind result_bind data size]; rewrite wrap64_sub by lia.

Lemma decode1_ok t : item_ok t.
Proof.
  induction t as [ | |n|w| |t IH|t n IH|ts IH] using ty_nested_ind; intros v rest S Hv Hl HS;
    destruct v as [l|n'|vs|vs]; cbn [has_type] in Hv; try done.
  - cbn [encode1 decode1] in *. decode_leaf l. rewrite from_bytes_string_ok by lia. done.
  - cbn [encode1 decode1] in *. decode_leaf l. rewrite from_bytes_string_ok by lia. done.
  - destruct Hv as [Hok <-]. cbn [encode1 decode1] in *. decode_leaf l.
    rewrite from_bytes_array8_ok. done.
  - destruct Hv as [Hw Hn]. cbn [encode1 decode1] in *.
    assert (H64 : u64 n').
    { split; [lia|]. apply (Z.lt_le_trans _ _ _ (proj2 Hn)). unfold M64. change (2 ^ 64) with (256 ^ 8).
      apply Z.pow_le_mono_r; lia. }
    destruct (to_byte_string_u64_spec n' H64) as (Hbv & Hok & Hlen & _).
    decode_leaf (to_byte_string_u64 n'). rewrite from_bytes_size_t_ok by done.
    cbn [mbind result_bind data]. by rewrite Hbv, Z.mod_small.
  - cbn [encode1 decode1] in *. destruct (to_byte_string_u256_spec n' Hv) as (Hbv & Hok & Hlen).
    decode_leaf (to_byte_string_u256 n'). rewrite from_bytes_u256_ok, Hbv by done. done.
  - cbn [encode1 decode1] in *. set (cs := flat_map (encode1 t) vs) in *.
    set (p := prefix_multiple_length (zlen cs) cs) in *. pose proof (prefix_length cs) as Hp. fold p in Hp.
    decode_leaf p. rewrite (decode_length_multiple cs) by (fold p; unfold u64, M64 in *; lia).
    cbn [mbind result_bind data size].
    pose proof (decode_while_ok t vs IH Hv (length (cs ++ rest)) rest) as Hw. fold cs in Hw.
    rewrite Hw; [done | | lia]. clear -Hv. subst cs.
    rewrite length_app. induction Hv as [|v vs Hv Hvs IHv]; [cbn; lia|].
    cbn [flat_map length]. rewrite length_app. pose proof (encode1_nonempty t v Hv). lia.
  - destruct Hv as [Hv <-]. cbn [encode1 decode1] in *. set (cs := flat_map (encode1 t) vs) in *.
    set (p := prefix_multiple_length (zlen cs) cs) in *. pose proof (prefix_length cs) as Hp. fold p in Hp.
    decode_leaf p. rewrite (decode_length_multiple cs) by (fold p; unfold u64, M64 in *; lia).
    cbn [mbind result_bind data size]. fold p.
    pose proof (decode_times_ok t vs IH Hv rest (zlen p - (zlen p - zlen cs))) as Hw. fold cs in Hw.
    rewrite Hw by lia. done.
  - apply has_type_tuple in Hv. rewrite encode1_tuple, decode1_tuple in *.
    set (cs := encode_items ts vs) in *. pose proof (prefix_length cs) as Hp.
    rewrite (decode_length_multiple cs) by (unfold u64, M64 in *; lia).
    cbn [mbind result_bind data size]. rewrite wrap64_sub by lia.
    pose proof (decode_tuple_ok ts IH vs rest (zlen cs) Hv) as Hw. fold cs in Hw.
    rewrite Hw by (unfold M64 in *; lia). done.
Qed.

Lemma decode_multiple_flat ts : Forall (fun t => is_tuple t = false) ts ->
  forall c, decode_multiple ts c = decode_tuple ts c.
Proof.
  induction 1 as [|t ts Ht Hts IH]; intros c; cbn; [done|].
  replace (decode_item t c) with (decode1 t c) by (by destruct t).
  destruct (decode1 t c) as [[v c']| |]; cbn; [|done|done]. by rewrite IH.
Qed.

Lemma all_items_ok ts : Forall item_ok ts.
Proof. induction ts; constructor; [apply decode1_ok | done]. Qed.

Lemma decode_impl_flat ts vs : Forall (fun t => is_tuple t = false) ts -> has_types ts vs ->
  length ts <> 1%nat -> zlen (encode ts vs) < 2 ^ 32 ->
  decode_impl ts (Cur (encode ts vs) (zlen (encode ts vs))) = Ok (vs, Cur [] 0).
Proof.
  intros Hflat Hty Hlen. set (cs := encode_items ts vs).
  assert (He : encode ts vs = prefix_multiple_length (zlen cs) cs)
    by (destruct ts as [|t [|t' ts]], vs as [|v [|v' vs]]; cbn in Hty, Hlen; done || lia || tauto).
  rewrite He. intros Hl. pose proof (prefix_length cs) as Hp.
  set (p := prefix_multiple_length (zlen cs) cs) in *.
  assert (Hd : decode_length (Cur p (zlen p)) = Ok (Multiple, zlen cs, Cur cs (zlen p - (zlen p - zlen cs)))).
  { pose proof (decode_length_multiple cs [] (zlen p)) as Hd. rewrite !app_nil_r in Hd.
    apply Hd; fold p; unfold u64, M64 in *; lia. }
  destruct ts as [|t [|t' ts]]; [|done|].
  - destruct vs; [|done]. unfold decode_impl. rewrite Hd. cbn [mbind result_bind].
    subst cs. cbn. cursor_eq.
  - unfold decode_impl. rewrite Hd. cbn [mbind result_bind data size].
    rewrite decode_multiple_flat by done.
    pose proof (decode_tuple_ok _ (all_items_ok (t :: t' :: ts)) vs [] (zlen cs) Hty) as Hw. fold cs in Hw.
    rewrite app_nil_r in Hw. rewrite Hw by (unfold M64 in *; lia).
    cbn [mbind result_bind data]. rewrite wrap64_sub by (unfold M64 in *; lia). cursor_eq.
Qed.

(** [decode] undoes [encode] on flat argument lists. *)
Lemma decode_encode_flat ts vs : has_types ts vs ->
  length ts = 1%nat \/ Forall (fun t => is_tuple t = false) ts ->
  zlen (encode ts vs) < 2 ^ 32 -> decode ts (encode ts vs) = Ok vs.
Proof.
  intros Hty Hts Hl. destruct (decide (length ts = 1%nat)) as [E|E].
  - destruct ts as [|t [|]], vs as [|v [|]]; cbn in Hty, E; try (done || tauto).
    unfold decode, decode_impl. cbn [encode] in *.
    pose proof (decode1_ok t v [] (zlen (encode1 t v)) (proj1 Hty) Hl) as Hd.
    rewrite app_nil_r in Hd. rewrite Hd by (unfold M64; lia). cbn. by rewrite Z.sub_diag.
  - destruct Hts as [|Hts]; [done|]. unfold decode.
    by rewrite (decode_impl_flat ts vs Hts Hty E Hl).
Qed.

(** ** Properties *)

(** C26. RLP round trip: decoding, with the same types, what [encode] wrote
    returns the encoded values, for every well-typed argument list whose
    encoding is below 4 GiB: a single argument of any type (nested tuples,
    vectors and arrays included) or several non-tuple arguments. *)
Theorem decode_encode ts vs : has_types ts vs ->
  length ts = 1%nat \/ Forall (fun t => is_tuple t = false) ts ->
  zlen (encode ts vs) < 2 ^ 32 -> decode ts (encode ts vs) = Ok vs.
Proof. apply decode_encode_flat. Qed.

Lemma decode_encode_witness :
  let ts := [TUint256; TByteString; TVector (TTuple [TUnsigned 8; TString])] in
  let vs := [VNum (2 ^ 255); VBytes [1; 2]; VSeq [VTuple [VNum 300; VBytes []]; VTuple [VNum 0; VBytes [200]]]] in
  decode ts (encode ts vs) = Ok vs.
Proof.
  intros ts vs. apply decode_encode; [|right; repeat constructor|vm_compute; reflexivity].
  subst ts vs. cbn [has_types has_type]. unfold u256, bytes_ok.
  repeat split; repeat constructor; vm_compute; congruence.
Defined.

(** Integers are encoded canonically: big-endian with no leading zero byte
    (zero is the empty string), by both integer overloads. *)
Theorem integer_encoding_canonical n : u256 n ->
  (be_val (to_byte_string_u256 n) = n /\ head (to_byte_string_u256 n) <> Some 0) /\
  (n < M64 -> be_val (to_byte_string_u64 n) = n /\ head (to_byte_string_u64 n) <> Some 0 /\
              to_byte_string_u64 n = to_byte_string_u256 n).
Proof.
  intros Hn. destruct (to_byte_string_u256_spec n Hn) as (Hv & Hok & _).
  pose proof (to_byte_string_u256_head n Hn) as Hh. split; [done|]. intros H64.
  destruct (to_byte_string_u64_spec n) as (Hv' & Hok' & _ & Hh'); [split; [apply Hn | done]|].
  split; [done|]. split; [done|]. apply be_val_canonical_inj; congruence.
Qed.

Lemma integer_encoding_canonical_witness :
  head (to_byte_string_u256 (2 ^ 70)) <> Some 0 /\ to_byte_string_u64 1024 = [4; 0].
Proof.
  split.
  - apply (integer_encoding_canonical (2 ^ 70)). split; [lia | reflexivity].
  - rewrite (proj2 (proj2 (proj2 (integer_encoding_canonical 1024 ltac:(split; [lia | reflexivity]))
                                  ltac:(reflexivity)))).
    vm_compute. reflexivity.
Defined.

(** A tuple among several top-level types does not round-trip: [decode_item]
    skips no list header for it, so [decode] rejects what [encode] produced. *)
Theorem decode_nested_tuple_fails :
  let ts := [TUint256; TTuple [TUint256; TUint256]] in
  let vs := [VNum 1; VTuple [VNum 2; VNum 3]] in
  encode ts vs = [0xc4; 1; 0xc2; 2; 3] /\ decode ts (encode ts vs) = Throw DecodeError.
Proof. vm_compute. done. Qed.

(** Trailing bytes inside a list are not noticed, although [decode] promises
    that the entire input has been consumed. *)
Theorem decode_ignores_trailing :
  decode [TUint256; TUint256] [0xc3; 1; 2; 3] = Ok [VNum 1; VNum 2].
Proof. vm_compute. done. Qed.

(** The payload length of a header is not compared with the bytes that
    remain: a byte string whose header announces more bytes than the buffer
    has is read past the end of the buffer. *)
Theorem decode_overreads b n rest : 0x80 < b <= 0xb7 -> n = b - 0x80 -> zlen rest < n ->
  decode_single TByteString (b :: rest) = Undef.
Proof.
  intros Hb -> Hl. unfold decode_single, decode, decode_impl.
  assert (Hd : decode1 TByteString (Cur (b :: rest) (zlen (b :: rest))) = Undef).
  { cbn [decode1]. unfold decode_length. cbn [data size]. cbn [length].
    repeat (zcase; try lia). cbn [mbind result_bind data size].
    unfold from_bytes_string. cbn [size data]. change (M64 / 2) with (2 ^ 63).
    destruct (Z.leb_spec (2 ^ 63) (b - 128)); [lia|].
    destruct (Z.leb_spec (2 ^ 32) (b - 128)); [lia|]. unfold read_bytes. zcase; [lia|]. done. }
  by rewrite Hd.
Qed.

Lemma decode_overreads_witness : decode_single TByteString [0x85; 1] = Undef.
Proof. apply (decode_overreads 0x85 5 [1]); [lia | reflexivity | reflexivity]. Defined.

End Rlp.
