(* ===== verification/Address.v ===== *)
(** * Hash-derived data: digests as strings, checksum addresses, new addresses

    Models of class Keccak256 of eEVM (include/eEVM/keccak256.h,
    src/keccak256.cpp: constructors and string forms) and of the functions of
    util.h / util.cpp that hash: [to_checksum_address], [is_checksum_address],
    [generate_address], [generate_address_for_create2], [to_uint256]. *)
From S2P Require Import Prelude Keccak Util Rlp.
From stdpp Require Import list strings.
Local Open Scope Z_scope.

Module Address.
Import Keccak Util.

(** ** Keccak256 *)

Definition from_skip (s : list Z) (skip : Z) : list Z :=
  let skip := Z.min skip (zlen s) in keccak256 (zdrop skip s).

Definition hex_str (hash : list Z) : list Z := to_hex_string hash.

(** [from_hex(str)]: two characters per byte; [substr] throws past the end. *)
Definition from_hex (s : list Z) : result (list Z) :=
  let s := strip s in
  match s with
  | [] => Ok (zeros 32)
  | _ => result_mapM (fun i => if zlen s <? 2 * i then Throw OutOfRange
                               else Ok (wrap8 (strtoull16 (zslice (2 * i) 2 s))))
           (map Z.of_nat (seq 0 32))
  end.

(** [from_hex(bytes)]: std::copy into the 32-byte array, unchecked. *)
Definition from_hex_bytes (data : list Z) : result (list Z) :=
  if 32 <? zlen data then Undef else Ok (zwrite 0 data (zeros 32)).

(** [operator==]: byte by byte. *)
Fixpoint hash_eqb (l r : list Z) : bool :=
  match l, r with
  | [], [] => true
  | x :: l, y :: r => (x =? y) && hash_eqb l r
  | _, _ => false
  end.

(** ** util.h *)

(** [to_uint256(data, size, needHash)] *)
Definition to_uint256_bytes (data : list Z) (needHash : bool) : result Z :=
  if needHash then from_big_endian (keccak256 data) 32 else from_big_endian data (zlen data).

(** The case of the hex digit [c] at position [i] after the prefix. *)
Definition checksum_char (h : list Z) (i : nat) (c : Z) : Z :=
  if (97 <=? c) && (c <=? 102) then
    if negb (Z.land (nth (i / 2) h 0) (if (i mod 2 =? 0)%nat then 0x80 else 0x08) =? 0)
    then toupper c else tolower c
  else c.

Definition to_checksum_address (a : Z) : list Z :=
  let s := address_to_hex_string a in
  let h := from_skip s 2 in
  take 2 s ++ imap (checksum_char h) (drop 2 s).

Definition is_checksum_address (s : list Z) : result bool :=
  a ← to_uint256 s; Ok (bool_decide (to_checksum_address a = s)).

(** ** util.cpp *)

(** The sender is encoded as a number, not as a 20-byte string. *)
Definition generate_address_preimage (sender nonce : Z) : list Z :=
  Rlp.encode [Rlp.TUint256; Rlp.TUnsigned 8] [Rlp.VNum sender; Rlp.VNum nonce].

Definition generate_address (sender nonce : Z) : result Z :=
  from_big_endian (zdrop 12 (keccak256 (generate_address_preimage sender nonce))) 20.

(** [junk1] and [junk2] are the 224 bytes of the two 256-byte local arrays that
    [to_big_endian] leaves uninitialised; all 256 are hashed. *)
Definition generate_address_for_create2 (junk1 junk2 : list Z) (sender salt : Z) (init_code : list Z)
  : result Z :=
  let data := [0xff] ++ (to_big_endian sender ++ junk1) ++ (to_big_endian salt ++ junk2)
                ++ keccak256 init_code in
  from_big_endian (zdrop 12 (keccak256 data)) 20.

(** ** Lemmas *)

Lemma length_digest_bytes h : length (digest_bytes h) = 32%nat.
Proof. reflexivity. Qed.

Lemma digest_bytes_ok h : bytes_ok (digest_bytes h).
Proof.
  apply List.Forall_forall. intros b Hb. unfold digest_bytes in Hb.
  apply in_flat_map in Hb as (i & _ & Hb). apply in_rev in Hb.
  revert b Hb. apply List.Forall_forall, be_bytes_ok.
Qed.

Lemma length_keccak256 m : length (keccak256 m) = 32%nat.
Proof. apply length_digest_bytes. Qed.
Lemma keccak256_ok m : bytes_ok (keccak256 m).
Proof. apply digest_bytes_ok. Qed.

#[local] Opaque keccak256.

Lemma low20_ok m : exists a, from_big_endian (zdrop 12 (keccak256 m)) 20 = Ok a /\ 0 <= a < M160.
Proof.
  exists (be_val (drop 12 (keccak256 m))).
  assert (Hl : length (drop 12 (keccak256 m)) = 20%nat) by (rewrite length_drop, length_keccak256; lia).
  unfold from_big_endian, zdrop. change (Z.to_nat 12) with 12%nat. rewrite Hl. cbn [Z.ltb Z.leb Z.compare].
  split.
  - unfold ztake. rewrite take_ge; [done|]. rewrite Hl. reflexivity.
  - pose proof (be_val_bound (drop 12 (keccak256 m))) as Hb. rewrite Hl in Hb. apply Hb.
    apply bytes_ok_drop, keccak256_ok.
Qed.

Lemma generate_address_ok sender nonce :
  exists a, generate_address sender nonce = Ok a /\ 0 <= a < M160.
Proof. apply low20_ok. Qed.
Lemma create2_ok j1 j2 sender salt c :
  exists a, generate_address_for_create2 j1 j2 sender salt c = Ok a /\ 0 <= a < M160.
Proof. apply low20_ok. Qed.
Lemma M160_u256 a : 0 <= a < M160 -> u256 a.
Proof. unfold u256, M160, M256. lia. Qed.

Lemma to_uint256_hash_ok m : exists v, to_uint256_bytes m true = Ok v /\ u256 v.
Proof.
  unfold to_uint256_bytes, from_big_endian. rewrite length_keccak256. cbn [Z.ltb Z.leb Z.compare].
  eexists. split; [done|]. unfold ztake.
  rewrite take_ge by (rewrite length_keccak256; done).
  pose proof (be_val_bound (keccak256 m) (keccak256_ok m)) as Hb. rewrite length_keccak256 in Hb. exact Hb.
Qed.

Lemma checksum_char_hex h i c : is_hex c ->
  hex_val (checksum_char h i c) = hex_val c.
Proof.
  intros _. unfold checksum_char. destruct ((97 <=? c) && (c <=? 102)) eqn:E; [|done].
  assert (Hc : hex_val c = Some (c - 87)) by (unfold hex_val; repeat (zcase; try lia); done).
  assert (Hu : toupper c = c - 32) by (unfold toupper; destruct ((97 <=? c) && (c <=? 122)) eqn:F; lia).
  assert (Hl : tolower c = c) by (unfold tolower; destruct ((65 <=? c) && (c <=? 90)) eqn:F; lia).
  rewrite Hc. destruct (negb _); [rewrite Hu | by rewrite Hl]. unfold hex_val.
  destruct ((48 <=? c - 32) && (c - 32 <=? 57)) eqn:F1; [lia|].
  destruct ((97 <=? c - 32) && (c - 32 <=? 102)) eqn:F2; [lia|].
  destruct ((65 <=? c - 32) && (c - 32 <=? 70)) eqn:F3; [f_equal; lia | lia].
Qed.

Lemma checksum_chars s : Forall is_hex s -> forall f x,
  (forall i c, is_hex c -> hex_val (f i c) = hex_val c) ->
  Forall is_hex (imap f s) /\ hexnum x (imap f s) = hexnum x s.
Proof.
  induction 1 as [|c s Hc Hs IH]; intros f x Hf; cbn; [split; [constructor | done]|].
  destruct (IH (f ∘ S) (x * 16 + default 0 (hex_val (f 0%nat c)))) as [H1 H2]; [intros; by apply Hf|].
  split.
  - constructor; [|done]. unfold is_hex. by rewrite Hf.
  - unfold hexnum in *. cbn. rewrite H2, Hf by done. done.
Qed.

Lemma be_bytes_20 n : 0 <= n < M160 -> be_val (be_bytes 20 n) = n.
Proof. intros Hn. rewrite be_val_be_bytes. apply Z.mod_small. exact Hn. Qed.

(** A number below 256^k has at most k significant bytes. *)
Lemma u256_short n k : (k <= 32)%nat -> 0 <= n < 256 ^ Z.of_nat k ->
  (length (Rlp.to_byte_string_u256 n) <= k)%nat.
Proof.
  intros Hk Hn.
  assert (Hu : u256 n).
  { split; [lia|]. apply (Z.lt_le_trans _ _ _ (proj2 Hn)). unfold M256. change (2 ^ 256) with (256 ^ 32).
    apply Z.pow_le_mono_r; lia. }
  destruct (Rlp.to_byte_string_u256_spec n Hu) as (Hv & Hok & _).
  rewrite <- (length_be_bytes k n). apply be_val_canonical_le; [done | apply be_bytes_ok | |].
  - by apply Rlp.to_byte_string_u256_head.
  - rewrite Hv, be_val_be_bytes, Z.mod_small; done.
Qed.

Lemma encode_single_short b : (length b <= 55)%nat ->
  (length (Rlp.encode_single b) <= 1 + length b)%nat.
Proof. intros Hb. unfold Rlp.encode_single. destruct (_ && _); [lia|]. zcase; [cbn; lia | lia]. Qed.
Lemma encode_single_20 n : length (Rlp.encode_single (be_bytes 20 n)) = 21%nat.
Proof. unfold Rlp.encode_single. rewrite length_be_bytes. cbn. by rewrite ?length_be_bytes. Qed.
Lemma prefix_short b : (length b <= 55)%nat ->
  length (Rlp.prefix_multiple_length (zlen b) b) = (1 + length b)%nat.
Proof. intros Hb. unfold Rlp.prefix_multiple_length. zcase; [done | lia]. Qed.

(** ** Properties *)

(** Checksummed addresses read back: parsing the mixed-case form of an
    address returns it, so [is_checksum_address] accepts every string
    [to_checksum_address] produces. *)
Theorem checksum_address_roundtrip a : u256 a ->
  to_uint256 (to_checksum_address a) = Ok a /\ is_checksum_address (to_checksum_address a) = Ok true.
Proof.
  intros Ha.
  assert (H : to_uint256 (to_checksum_address a) = Ok a).
  { destruct (hex_fixed_spec a 40 Ha ltac:(lia)) as (H1 & H2 & H3).
    unfold to_checksum_address. generalize (from_skip (address_to_hex_string a) 2). intros h.
    unfold address_to_hex_string, to_hex_string_fixed. set (s := replicate _ _ ++ _) in *.
    change (drop 2 (str "0x" ++ s)) with s. change (take 2 (str "0x" ++ s)) with (str "0x").
    destruct (checksum_chars s H1 (checksum_char h) 0 (checksum_char_hex h)) as [H4 H5].
    unfold to_uint256. rewrite from_string_0x; [by rewrite H5, H2 | done |].
    by rewrite length_imap. }
  split; [done|]. unfold is_checksum_address. rewrite H. cbn. by rewrite bool_decide_eq_true_2.
Qed.

Lemma checksum_address_roundtrip_witness :
  is_checksum_address (to_checksum_address 0x5aaeb6053f3e94c9b9a09f33669435e7ef1beaed) = Ok true /\
  to_checksum_address 0x5aaeb6053f3e94c9b9a09f33669435e7ef1beaed
    = str "0x5aAeb6053F3E94C9b9A09f33669435E7Ef1BeAed".
Proof.
  split; [apply checksum_address_roundtrip; split; [lia | reflexivity] | vm_compute; reflexivity].
Defined.

(** A digest survives its hexadecimal form: [from_hex] undoes [hex_str]. *)
Theorem from_hex_hex_str h : bytes_ok h -> length h = 32%nat -> from_hex (hex_str h) = Ok h.
Proof.
  intros Hok Hl. unfold from_hex. change (strip (hex_str h)) with (flat_map hex2 h).
  pose proof (length_flat_hex2 h) as Hlen. rewrite Hl in Hlen.
  destruct (flat_map hex2 h) as [|c l] eqn:E; [discriminate Hlen|]. rewrite <- E in *. clear E c l.
  apply result_mapM_ok. apply Forall2_same_length_lookup. rewrite length_map, length_seq, Hl.
  split; [done|]. intros i x y Hi Hy.
  rewrite list_lookup_fmap in Hi. apply fmap_Some in Hi as (n & Hi & ->).
  apply lookup_seq in Hi as [-> Hi]. rewrite Nat.add_0_l. zcase; [lia|].
  unfold zslice, ztake, zdrop. change (Z.to_nat 2) with 2%nat.
  replace (Z.to_nat (2 * Z.of_nat i)) with (2 * i)%nat by lia.
  assert (Hu : u8 y) by (eapply Forall_lookup_1; eauto).
  rewrite (flat_hex2_chunk h i y Hy), strtoull16_hex2 by done. f_equal. by apply Z.mod_small.
Qed.

Lemma from_hex_hex_str_witness : from_hex (hex_str (be_bytes 32 0xc0ffee)) = Ok (be_bytes 32 0xc0ffee).
Proof. apply from_hex_hex_str; [apply be_bytes_ok | reflexivity]. Defined.

(** New contract addresses: [generate_address] always yields a 160-bit
    address; the hashed bytes are RLP([20-byte sender, nonce]) exactly when the
    sender's first byte is not zero, and a shorter list otherwise. *)
Theorem generate_address_encoding sender nonce : 0 <= sender < M160 -> u64 nonce ->
  (exists a, generate_address sender nonce = Ok a /\ 0 <= a < M160) /\
  (generate_address_preimage sender nonce =
     Rlp.encode [Rlp.TByteArray 20; Rlp.TUnsigned 8] [Rlp.VBytes (be_bytes 20 sender); Rlp.VNum nonce]
   <-> 2 ^ 152 <= sender).
Proof.
  intros Hs Hn. split; [apply generate_address_ok|].
  assert (Hu : u256 sender) by (by apply M160_u256).
  destruct (Rlp.to_byte_string_u256_spec sender Hu) as (Hv & Hok & _).
  pose proof (be_bytes_20 sender Hs) as Hb. split.
  - intros He. apply (f_equal length) in He. unfold generate_address_preimage, Rlp.encode in He.
    cbn [Rlp.encode_items Rlp.encode1] in He. rewrite !app_nil_r in He.
    destruct (Z.lt_ge_cases sender (2 ^ 152)) as [Hlt|]; [|done]. exfalso.
    pose proof (u256_short sender 19 ltac:(lia) (conj (proj1 Hs) Hlt)) as Hl19.
    pose proof (encode_single_short (Rlp.to_byte_string_u256 sender) ltac:(lia)) as L1.
    pose proof (encode_single_short (Rlp.to_byte_string_u64 nonce)) as L2.
    destruct (Rlp.to_byte_string_u64_spec nonce Hn) as (_ & _ & Hn8 & _). specialize (L2 ltac:(lia)).
    rewrite !prefix_short in He by (rewrite length_app, ?(encode_single_20 sender); lia).
    rewrite !length_app, encode_single_20 in He. lia.
  - intros Hge. unfold generate_address_preimage, Rlp.encode. cbn [Rlp.encode_items Rlp.encode1].
    replace (Rlp.to_byte_string_u256 sender) with (be_bytes 20 sender); [done|].
    apply be_val_canonical_inj; [apply be_bytes_ok | done | | by apply Rlp.to_byte_string_u256_head |].
    + cbn [be_bytes head]. intros [= H0]. change (256 ^ Z.of_nat 19) with (2 ^ 152) in H0.
      rewrite Z.mod_small in H0.
      * assert (1 <= sender / 2 ^ 152) by (apply Z.div_le_lower_bound; lia). lia.
      * split; [apply Z.div_pos; lia|]. apply Z.div_lt_upper_bound; [lia|]. apply Hs.
    + by rewrite Hb, Hv.
Qed.

Lemma generate_address_encoding_witness :
  generate_address_preimage (2 ^ 159) 1 =
    Rlp.encode [Rlp.TByteArray 20; Rlp.TUnsigned 8] [Rlp.VBytes (be_bytes 20 (2 ^ 159)); Rlp.VNum 1] /\
  generate_address_preimage 7 1 <>
    Rlp.encode [Rlp.TByteArray 20; Rlp.TUnsigned 8] [Rlp.VBytes (be_bytes 20 7); Rlp.VNum 1].
Proof.
  assert (H1 : u64 1) by (split; [lia | reflexivity]). split.
  - apply (generate_address_encoding (2 ^ 159) 1); [split; [lia | reflexivity] | done | lia].
  - intros H. apply (generate_address_encoding 7 1) in H; [lia | split; [lia | reflexivity] | done].
Defined.

End Address.
