(* ===== verification/Stack.v ===== *)
(** * The EVM operand stack

    Model of eEVM's include/eEVM/stack.h and src/stack.cpp.  The deque is the
    list of its elements, front (top of the stack) first.  Every operation
    returns the stack it leaves behind, also when it throws. *)
From S2P Require Import Prelude.
From stdpp Require Import list sets.
Local Open Scope Z_scope.

Module Stack.

Abbreviation t := (list Z).
Definition MAX_SIZE : Z := 1024.

Definition size (st : t) : Z := zlen st.

Definition top (st : t) : t * result Z :=
  match st with
  | [] => (st, Throw (EvmException outOfBounds))
  | v :: _ => (st, Ok v)
  end.

Definition pop (st : t) : t * result Z :=
  match st with
  | [] => (st, Throw (EvmException outOfBounds))
  | v :: st => (st, Ok v)
  end.

(** The element is gone even when it does not fit in 64 bits. *)
Definition pop64 (st : t) : t * result Z :=
  let '(st, r) := pop st in
  (st, v ← r; if M64 - 1 <? v then Throw (EvmException outOfBounds) else Ok v).

Definition push (v : Z) (st : t) : t * result unit :=
  if size st =? MAX_SIZE then (st, Throw (EvmException outOfBounds)) else (v :: st, Ok tt).

Definition swap (i : Z) (st : t) : t * result unit :=
  if size st <=? i then (st, Throw (EvmException outOfBounds))
  else (<[Z.to_nat i := znth 0 st]> (<[0%nat := znth i st]> st), Ok tt).

Definition dup (a : Z) (st : t) : t * result unit :=
  if size st <=? a then (st, Throw (EvmException outOfBounds))
  else (znth a st :: st, Ok tt).

(** Every element is a 256-bit word. *)
Definition words_ok (st : t) : Prop := Forall u256 st.

(** The mutators as a syntax, to speak of sequences of them. *)
Inductive op := Pop | Push (v : Z) | Swap (i : Z) | Dup (a : Z).
Definition exec (o : op) (st : t) : t :=
  match o with
  | Pop => fst (pop st)
  | Push v => fst (push v st)
  | Swap i => fst (swap i st)
  | Dup a => fst (dup a st)
  end.
Definition no_dup (o : op) : bool := match o with Dup _ => false | _ => true end.

(** ** Lemmas *)

Lemma znth_u256 st i : words_ok st -> u256 (znth i st).
Proof.
  intros H. unfold znth. generalize (Z.to_nat i).
  induction H as [|v st Hv Hst IH]; intros [|n]; cbn; auto with mach.
Qed.

Lemma pop_ok st : words_ok st -> let '(st', r) := pop st in
  words_ok st' /\ match r with Ok v => u256 v | _ => r = Throw (EvmException outOfBounds) end.
Proof. intros H. destruct H; cbn; auto. split; [constructor | done]. Qed.

Lemma pop64_ok st : words_ok st -> let '(st', r) := pop64 st in
  words_ok st' /\ match r with Ok v => u64 v | _ => r = Throw (EvmException outOfBounds) end.
Proof.
  intros H. unfold pop64. destruct H as [|v st [Hv0 Hv1] Hst]; cbn; [split; [constructor | done]|].
  destruct (Z.ltb_spec (M64 - 1) v); split; try done. unfold u64. lia.
Qed.

Lemma push_ok v st : words_ok st -> u256 v -> let '(st', r) := push v st in
  words_ok st' /\ (r = Ok tt \/ r = Throw (EvmException outOfBounds)).
Proof. intros H Hv. unfold push. zcase; cbn; auto. split; [by constructor | auto]. Qed.

Lemma swap_ok i st : words_ok st -> let '(st', r) := swap i st in
  words_ok st' /\ (r = Ok tt \/ r = Throw (EvmException outOfBounds)).
Proof.
  intros H. unfold swap. zcase; cbn; auto. split; [|auto].
  apply Forall_insert; [apply Forall_insert; [done|] |]; by apply znth_u256.
Qed.

Lemma dup_ok a st : words_ok st -> let '(st', r) := dup a st in
  words_ok st' /\ (r = Ok tt \/ r = Throw (EvmException outOfBounds)).
Proof.
  intros H. unfold dup. zcase; cbn; auto. split; [|auto]. constructor; [by apply znth_u256 | done].
Qed.

Lemma exec_bounded o st : no_dup o = true -> size st <= MAX_SIZE -> size (exec o st) <= MAX_SIZE.
Proof.
  unfold size. destruct o as [|v|i|a]; intros Hno H; cbn [exec]; try discriminate.
  - destruct st; cbn [pop fst length] in *; lia.
  - unfold push, size. zcase; cbn [fst length]; lia.
  - unfold swap, size. zcase; cbn [fst]; [done|]. by rewrite !length_insert.
Qed.

Lemma znth_lookup (st : t) i x : st !! Z.to_nat i = Some x -> znth i st = x.
Proof. intros H. unfold znth. rewrite nth_lookup, H. done. Qed.

Lemma push_zeros n st : MAX_SIZE < size st ->
  size (foldl (fun st o => exec o st) st (replicate n (Push 0))) = size st + Z.of_nat n.
Proof.
  revert st; induction n as [|n IH]; intros st H; cbn [replicate foldl]; [lia|].
  unfold exec at 2, push. zcase; [lia|]. cbn [fst]. rewrite IH; unfold size in *; cbn [length]; lia.
Qed.

(** ** Properties *)

(** [swap] exchanges the top with the element at depth [i] and leaves every
    other element in place; doing it twice restores the stack. *)
Theorem swap_spec i st : 0 < i < size st ->
  let st' := fst (swap i st) in
  snd (swap i st) = Ok tt /\ length st' = length st /\
  st' !! 0%nat = st !! Z.to_nat i /\ st' !! Z.to_nat i = st !! 0%nat /\
  (forall j, j <> 0%nat -> j <> Z.to_nat i -> st' !! j = st !! j) /\
  swap i st' = (st, Ok tt).
Proof.
  unfold size. intros Hi. unfold swap, size. zcase; [lia|]. cbn [fst snd].
  destruct (lookup_lt_is_Some_2 st 0 ltac:(lia)) as [x Hx].
  destruct (lookup_lt_is_Some_2 st (Z.to_nat i) ltac:(lia)) as [y Hy].
  rewrite (znth_lookup st 0 x), (znth_lookup st i y) by done.
  rewrite !length_insert. split; [done|]. split; [done|].
  rewrite list_lookup_insert_ne, list_lookup_insert_eq by lia. split; [done|].
  rewrite list_lookup_insert_eq by (rewrite length_insert; lia). split; [done|].
  split; [intros j Hj0 Hji; by rewrite !list_lookup_insert_ne|].
  zcase; [lia|]. f_equal.
  rewrite (znth_lookup _ 0 y), (znth_lookup _ i x); [|..].
  - apply list_eq. intros j.
    destruct (decide (j = Z.to_nat i)) as [->|]; [rewrite list_lookup_insert_eq by (rewrite !length_insert; lia); done|].
    rewrite list_lookup_insert_ne by done.
    destruct (decide (j = 0%nat)) as [->|]; [rewrite list_lookup_insert_eq by (rewrite !length_insert; lia); done|].
    by rewrite !list_lookup_insert_ne.
  - rewrite list_lookup_insert_eq; [done|]. rewrite length_insert. lia.
  - rewrite list_lookup_insert_ne, list_lookup_insert_eq by lia. done.
Qed.

Lemma swap_spec_witness : swap 2 (fst (swap 2 [7; 8; 9])) = ([7; 8; 9], Ok tt).
Proof. apply swap_spec. split; reflexivity. Defined.

(** The 1024-element limit is kept by every sequence of operations that does
    not use [dup]; [dup] does not test it: on a full stack it succeeds, and
    from then on [push] accepts elements without bound. *)
Theorem stack_limit (ops : list op) (st : t) :
  (forallb no_dup ops = true -> size st <= MAX_SIZE -> size (foldl (fun st o => exec o st) st ops) <= MAX_SIZE) /\
  (size st = MAX_SIZE -> forall n, size (foldl (fun st o => exec o st) st (Dup 0 :: replicate n (Push 0))) = MAX_SIZE + 1 + Z.of_nat n).
Proof.
  split.
  - revert st. induction ops as [|o ops IH]; intros st Hno Hst; cbn [foldl]; [done|].
    cbn [forallb] in Hno. apply andb_true_iff in Hno as [Ho Hno].
    apply IH; [done|]. by apply exec_bounded.
  - intros Hst n. cbn [foldl]. unfold exec at 2, dup. rewrite Hst. cbn [Z.leb Z.compare MAX_SIZE fst].
    rewrite push_zeros by (unfold size in *; cbn [length]; unfold MAX_SIZE in *; lia).
    unfold size in *. cbn [length]. lia.
Qed.

Lemma stack_limit_witness :
  size (foldl (fun st o => exec o st) (replicate 1024 5) [Dup 0; Push 0; Push 0]) = 1027.
Proof. apply (stack_limit [] (replicate 1024 5)) with (n := 2%nat). reflexivity. Defined.

End Stack.
