(* ===== verification/Bytecode.v ===== *)
(** * Opcodes, programs and the disassembler

    Models of eEVM's include/eEVM/opcode.h, of class Program of
    src/processor.cpp (the jump-destination analysis) and of
    include/eEVM/disassembler.h with its table in src/disassembler.cpp. *)
From S2P Require Import Prelude Util.
From stdpp Require Import list sets strings.
Local Open Scope Z_scope.

Module Bytecode.
Import Util.

(** ** Opcodes *)

(** [enum Opcode : uint8_t], the numbered families as one constructor each. *)
Inductive Opcode :=
  | STOP | ADD | MUL | SUB | DIV | SDIV | MOD | SMOD | ADDMOD | MULMOD | EXP | SIGNEXTEND | LT
  | GT | SLT | SGT | EQ | ISZERO | AND | OR | XOR | NOT | BYTE | SHL | SHR | SAR | SHA3 | ADDRESS
  | BALANCE | ORIGIN | CALLER | CALLVALUE | CALLDATALOAD | CALLDATASIZE | CALLDATACOPY | CODESIZE
  | CODECOPY | GASPRICE | EXTCODESIZE | EXTCODECOPY | RETURNDATASIZE | RETURNDATACOPY | EXTCODEHASH
  | BLOCKHASH | COINBASE | TIMESTAMP | NUMBER | PREVRANDAO | GASLIMIT | CHAINID | SELFBALANCE
  | BASEFEE | POP | MLOAD | MSTORE | MSTORE8 | SLOAD | SSTORE | JUMP | JUMPI | PC | MSIZE | GAS
  | JUMPDEST | CREATE | CALL | CALLCODE | RETURN | DELEGATECALL | CREATE2 | STATICCALL | REVERT
  | INVALID | SELFDESTRUCT
  | PUSH (n : Z)   (* PUSH0 .. PUSH32 *)
  | DUP (n : Z)    (* DUP1 .. DUP16 *)
  | SWAP (n : Z)   (* SWAP1 .. SWAP16 *)
  | LOG (n : Z).   (* LOG0 .. LOG4 *)

#[global] Instance Opcode_eq_dec : EqDecision Opcode.
Proof. solve_decision. Defined.

Definition opcode_val (o : Opcode) : Z :=
  match o with
  | STOP => 0x00 | ADD => 0x01 | MUL => 0x02 | SUB => 0x03 | DIV => 0x04 | SDIV => 0x05
  | MOD => 0x06 | SMOD => 0x07 | ADDMOD => 0x08 | MULMOD => 0x09 | EXP => 0x0a | SIGNEXTEND => 0x0b
  | LT => 0x10 | GT => 0x11 | SLT => 0x12 | SGT => 0x13 | EQ => 0x14 | ISZERO => 0x15
  | AND => 0x16 | OR => 0x17 | XOR => 0x18 | NOT => 0x19 | BYTE => 0x1a | SHL => 0x1b
  | SHR => 0x1c | SAR => 0x1d | SHA3 => 0x20 | ADDRESS => 0x30 | BALANCE => 0x31 | ORIGIN => 0x32
  | CALLER => 0x33 | CALLVALUE => 0x34 | CALLDATALOAD => 0x35 | CALLDATASIZE => 0x36 | CALLDATACOPY => 0x37
  | CODESIZE => 0x38 | CODECOPY => 0x39 | GASPRICE => 0x3a | EXTCODESIZE => 0x3b | EXTCODECOPY => 0x3c
  | RETURNDATASIZE => 0x3d | RETURNDATACOPY => 0x3e | EXTCODEHASH => 0x3f | BLOCKHASH => 0x40
  | COINBASE => 0x41 | TIMESTAMP => 0x42 | NUMBER => 0x43 | PREVRANDAO => 0x44 | GASLIMIT => 0x45
  | CHAINID => 0x46 | SELFBALANCE => 0x47 | BASEFEE => 0x48 | POP => 0x50 | MLOAD => 0x51
  | MSTORE => 0x52 | MSTORE8 => 0x53 | SLOAD => 0x54 | SSTORE => 0x55 | JUMP => 0x56 | JUMPI => 0x57
  | PC => 0x58 | MSIZE => 0x59 | GAS => 0x5a | JUMPDEST => 0x5b | CREATE => 0xf0 | CALL => 0xf1
  | CALLCODE => 0xf2 | RETURN => 0xf3 | DELEGATECALL => 0xf4 | CREATE2 => 0xf5 | STATICCALL => 0xfa
  | REVERT => 0xfd | INVALID => 0xfe | SELFDESTRUCT => 0xff
  | PUSH n => 0x5f + n
  | DUP n => 0x80 + n - 1
  | SWAP n => 0x90 + n - 1
  | LOG n => 0xa0 + n
  end.

(** The cast from a code byte; [None] for the bytes that name no enumerator. *)
Definition opcode_of (b : Z) : option Opcode :=
  if (0x5f <=? b) && (b <=? 0x7f) then Some (PUSH (b - 0x5f))
  else if (0x80 <=? b) && (b <=? 0x8f) then Some (DUP (b - 0x80 + 1))
  else if (0x90 <=? b) && (b <=? 0x9f) then Some (SWAP (b - 0x90 + 1))
  else if (0xa0 <=? b) && (b <=? 0xa4) then Some (LOG (b - 0xa0))
  else match b with
  | 0x00 => Some STOP | 0x01 => Some ADD | 0x02 => Some MUL | 0x03 => Some SUB | 0x04 => Some DIV
  | 0x05 => Some SDIV | 0x06 => Some MOD | 0x07 => Some SMOD | 0x08 => Some ADDMOD
  | 0x09 => Some MULMOD | 0x0a => Some EXP | 0x0b => Some SIGNEXTEND | 0x10 => Some LT
  | 0x11 => Some GT | 0x12 => Some SLT | 0x13 => Some SGT | 0x14 => Some EQ | 0x15 => Some ISZERO
  | 0x16 => Some AND | 0x17 => Some OR | 0x18 => Some XOR | 0x19 => Some NOT | 0x1a => Some BYTE
  | 0x1b => Some SHL | 0x1c => Some SHR | 0x1d => Some SAR | 0x20 => Some SHA3 | 0x30 => Some ADDRESS
  | 0x31 => Some BALANCE | 0x32 => Some ORIGIN | 0x33 => Some CALLER | 0x34 => Some CALLVALUE
  | 0x35 => Some CALLDATALOAD | 0x36 => Some CALLDATASIZE | 0x37 => Some CALLDATACOPY
  | 0x38 => Some CODESIZE | 0x39 => Some CODECOPY | 0x3a => Some GASPRICE | 0x3b => Some EXTCODESIZE
  | 0x3c => Some EXTCODECOPY | 0x3d => Some RETURNDATASIZE | 0x3e => Some RETURNDATACOPY
  | 0x3f => Some EXTCODEHASH | 0x40 => Some BLOCKHASH | 0x41 => Some COINBASE | 0x42 => Some TIMESTAMP
  | 0x43 => Some NUMBER | 0x44 => Some PREVRANDAO | 0x45 => Some GASLIMIT | 0x46 => Some CHAINID
  | 0x47 => Some SELFBALANCE | 0x48 => Some BASEFEE | 0x50 => Some POP | 0x51 => Some MLOAD
  | 0x52 => Some MSTORE | 0x53 => Some MSTORE8 | 0x54 => Some SLOAD | 0x55 => Some SSTORE
  | 0x56 => Some JUMP | 0x57 => Some JUMPI | 0x58 => Some PC | 0x59 => Some MSIZE
  | 0x5a => Some GAS | 0x5b => Some JUMPDEST | 0xf0 => Some CREATE | 0xf1 => Some CALL
  | 0xf2 => Some CALLCODE | 0xf3 => Some RETURN | 0xf4 => Some DELEGATECALL | 0xf5 => Some CREATE2
  | 0xfa => Some STATICCALL | 0xfd => Some REVERT | 0xfe => Some INVALID | 0xff => Some SELFDESTRUCT

  | _ => None
  end.

(** ** Program: the valid jump destinations *)

(** The loop of [compute_jump_dests] from position [i] on.  Each turn advances
    by at least one byte, so the code's length bounds the turns. *)
Fixpoint jump_dests_from (fuel : nat) (code : list Z) (i : Z) : list Z :=
  match fuel with
  | O => []
  | S fuel =>
      if i <? zlen code then
        let op := znth i code in
        if (0x60 <=? op) && (op <=? 0x7f) then
          let immediate_bytes := op - 0x60 + 1 in
          jump_dests_from fuel code (i + immediate_bytes + 1)
        else if op =? 0x5b then i :: jump_dests_from fuel code (i + 1)
        else jump_dests_from fuel code (i + 1)
      else []
  end.

Definition compute_jump_dests (code : list Z) : list Z := jump_dests_from (length code) code 0.

Record Program := mkProgram { code : list Z; jump_dests : list Z }.
Definition make_program (c : list Z) : Program :=
  {| code := c; jump_dests := compute_jump_dests c |}.

(** ** Disassembler *)

Record Op := mkOp { opcode : Z; mnemonic : list Z; immediate_bytes : Z }.

(** [Disassembler::ops]: the entries with an immediate are PUSH1 .. PUSH32. *)
Definition ops : list (Z * string) :=
  [(0x00, "STOP"); (0x01, "ADD"); (0x02, "MUL"); (0x03, "SUB"); (0x04, "DIV"); (0x05, "SDIV");
   (0x06, "MOD"); (0x07, "SMOD"); (0x08, "ADDMOD"); (0x09, "MULMOD"); (0x0a, "EXP"); (0x0b, "SIGNEXTEND");
   (0x10, "LT"); (0x11, "GT"); (0x12, "SLT"); (0x13, "SGT"); (0x14, "EQ"); (0x15, "ISZERO");
   (0x16, "AND"); (0x17, "OR"); (0x18, "XOR"); (0x19, "NOT"); (0x1a, "BYTE"); (0x20, "SHA3");
   (0x30, "ADDRESS"); (0x31, "BALANCE"); (0x32, "ORIGIN"); (0x33, "CALLER"); (0x34, "CALLVALUE");
   (0x35, "CALLDATALOAD"); (0x36, "CALLDATASIZE"); (0x37, "CALLDATACOPY"); (0x38, "CODESIZE");
   (0x39, "CODECOPY"); (0x3a, "GASPRICE"); (0x3b, "EXTCODESIZE"); (0x3c, "EXTCODECOPY");
   (0x40, "BLOCKHASH"); (0x41, "COINBASE"); (0x42, "TIMESTAMP"); (0x43, "NUMBER"); (0x44, "PREVRANDAO");
   (0x45, "GASLIMIT"); (0x50, "POP"); (0x51, "MLOAD"); (0x52, "MSTORE"); (0x53, "MSTORE8");
   (0x54, "SLOAD"); (0x55, "SSTORE"); (0x56, "JUMP"); (0x57, "JUMPI"); (0x58, "PC"); (0x59, "MSIZE");
   (0x5a, "GAS"); (0x5b, "JUMPDEST"); (0x60, "PUSH1"); (0x61, "PUSH2"); (0x62, "PUSH3");
   (0x63, "PUSH4"); (0x64, "PUSH5"); (0x65, "PUSH6"); (0x66, "PUSH7"); (0x67, "PUSH8"); (0x68, "PUSH9");
   (0x69, "PUSH10"); (0x6a, "PUSH11"); (0x6b, "PUSH12"); (0x6c, "PUSH13"); (0x6d, "PUSH14");
   (0x6e, "PUSH15"); (0x6f, "PUSH16"); (0x70, "PUSH17"); (0x71, "PUSH18"); (0x72, "PUSH19");
   (0x73, "PUSH20"); (0x74, "PUSH21"); (0x75, "PUSH22"); (0x76, "PUSH23"); (0x77, "PUSH24");
   (0x78, "PUSH25"); (0x79, "PUSH26"); (0x7a, "PUSH27"); (0x7b, "PUSH28"); (0x7c, "PUSH29");
   (0x7d, "PUSH30"); (0x7e, "PUSH31"); (0x7f, "PUSH32"); (0x80, "DUP1"); (0x81, "DUP2");
   (0x82, "DUP3"); (0x83, "DUP4"); (0x84, "DUP5"); (0x85, "DUP6"); (0x86, "DUP7"); (0x87, "DUP8");
   (0x88, "DUP9"); (0x89, "DUP10"); (0x8a, "DUP11"); (0x8b, "DUP12"); (0x8c, "DUP13"); (0x8d, "DUP14");
   (0x8e, "DUP15"); (0x8f, "DUP16"); (0x90, "SWAP1"); (0x91, "SWAP2"); (0x92, "SWAP3"); (0x93, "SWAP4");
   (0x94, "SWAP5"); (0x95, "SWAP6"); (0x96, "SWAP7"); (0x97, "SWAP8"); (0x98, "SWAP9"); (0x99, "SWAP10");
   (0x9a, "SWAP11"); (0x9b, "SWAP12"); (0x9c, "SWAP13"); (0x9d, "SWAP14"); (0x9e, "SWAP15");
   (0x9f, "SWAP16"); (0xa0, "LOG0"); (0xa1, "LOG1"); (0xa2, "LOG2"); (0xa3, "LOG3"); (0xa4, "LOG4");
   (0xf0, "CREATE"); (0xf1, "CALL"); (0xf2, "CALLCODE"); (0xf3, "RETURN"); (0xf4, "DELEGATECALL");
   (0xfd, "REVERT"); (0xff, "SELFDESTRUCT")].

Definition imm_of (oc : Z) : Z := if (0x60 <=? oc) && (oc <=? 0x7f) then oc - 0x60 + 1 else 0.

Definition getOp (oc : Z) : Op :=
  match find (fun e => fst e =? oc) ops with
  | None => mkOp oc (str "INVALID") 0
  | Some e => mkOp oc (str (snd e)) (imm_of oc)
  end.

Definition has_immediate (o : Op) : bool := 0 <? immediate_bytes o.

Record Instr := mkInstr { op : Op; pc : Z; raw_imm : list Z; comment : list Z }.

Definition get_immediate (i : Instr) : result Z :=
  match raw_imm i with
  | [] => Throw LogicError
  | l => from_big_endian l (zlen l)
  end.

(** The first loop of [dis]: [prog] is what is left of the program at [pc]. *)
Fixpoint dis_loop (fuel : nat) (pc : Z) (prog : list Z) : result (list Instr) :=
  match fuel, prog with
  | _, [] => Ok []
  | O, _ => Undef
  | S fuel, opcode :: rest =>
      let op := getOp opcode in
      if zlen rest <? immediate_bytes op then Throw OutOfRange
      else
        let imm := ztake (immediate_bytes op) rest in
        l ← dis_loop fuel (pc + 1 + immediate_bytes op) (zdrop (immediate_bytes op) rest);
        Ok (mkInstr op pc imm [] :: l)
  end.

(** [comment << std::dec << pc] *)
Definition loc (pc : Z) : list Z := str "loc_" ++ digits pc 10.

Definition name_dest (i : Instr) : Instr :=
  if opcode (op i) =? 0x5b then mkInstr (op i) (pc i) (raw_imm i) (loc (pc i)) else i.

(** The comment of a jump, from the instruction before it. *)
Definition resolve_jump (l : list Instr) (prev : option Instr) (i : Instr) : result Instr :=
  if (opcode (op i) =? 0x56) || (opcode (op i) =? 0x57) then
    match prev with
    | None => Ok i
    | Some p =>
        if negb (has_immediate (op p)) then Ok i
        else
          v ← get_immediate p;
          let target_address := wrap64 v in
          let c := match find (fun t => pc t =? target_address) l with
                   | Some t => if opcode (op t) =? 0x5b then str "branches to " ++ comment t
                               else str "illegal target"
                   | None => str "illegal target"
                   end in
          Ok (mkInstr (op i) (pc i) (raw_imm i) c)
    end
  else Ok i.

Fixpoint resolve_jumps (all : list Instr) (prev : option Instr) (l : list Instr) : result (list Instr) :=
  match l with
  | [] => Ok []
  | i :: l => i' ← resolve_jump all prev i; l' ← resolve_jumps all (Some i) l; Ok (i' :: l')
  end.

Definition dis (prog : list Z) : result (list Instr) :=
  l ← dis_loop (length prog) 0 prog;
  let l := map name_dest l in
  resolve_jumps l None l.

(** ** Specification: instruction boundaries *)

(** The positions at which an instruction starts when decoding begins at [s];
    for a program, [s] is 0. *)
Inductive instr_start (c : list Z) (s : Z) : Z -> Prop :=
  | start_first : instr_start c s s
  | start_next i : instr_start c s i -> i < zlen c -> instr_start c s (i + 1 + imm_of (znth i c)).

Definition bytes_of (l : list Instr) : list Z := flat_map (fun i => opcode (op i) :: raw_imm i) l.
Definition is_dest (i : Instr) : bool := opcode (op i) =? 0x5b.
Definition is_Some_b {A} (o : option A) : bool := match o with Some _ => true | None => false end.

(** Two instructions that differ at most in their comment, and an instruction
    whose immediate has the announced length. *)
Definition same_code (i j : Instr) : Prop := op i = op j /\ pc i = pc j /\ raw_imm i = raw_imm j.
Definition imm_ok (i : Instr) : Prop :=
  zlen (raw_imm i) = immediate_bytes (op i) /\ immediate_bytes (op i) <= 32.

(** ** Lemmas *)

Lemma imm_of_range oc : 0 <= imm_of oc <= 32.
Proof. unfold imm_of. destruct (_ && _) eqn:E; [|lia]. lia. Qed.

Lemma getOp_imm oc : immediate_bytes (getOp oc) = imm_of oc /\ opcode (getOp oc) = oc.
Proof.
  unfold getOp. destruct (find _ ops) eqn:E; [done|]. split; [|done]. cbn [immediate_bytes].
  unfold imm_of. destruct ((0x60 <=? oc) && (oc <=? 0x7f)) eqn:R; [|done]. exfalso.
  assert (Hin : In oc (map fst ops)).
  { assert (Hall : forallb (fun n => existsb (fun e => fst e =? Z.of_nat n + 0x60) ops) (seq 0 32) = true)
      by (vm_compute; reflexivity).
    rewrite forallb_forall in Hall. specialize (Hall (Z.to_nat (oc - 0x60))).
    rewrite existsb_exists in Hall. destruct Hall as (e & He & Heq); [apply in_seq; lia|].
    apply in_map_iff. exists e. split; [lia | done]. }
  apply in_map_iff in Hin as (e & He & Hin). apply (find_none _ _ E) in Hin. lia.
Qed.

Lemma start_inv c s k : instr_start c s k <->
  k = s \/ (s < zlen c /\ instr_start c (s + 1 + imm_of (znth s c)) k).
Proof.
  split.
  - induction 1 as [|i Hi IH Hl]; [by left|]. right. destruct IH as [->|[Hs IH]].
    + split; [done|]. constructor.
    + split; [done|]. by constructor.
  - intros [->|[Hs H]]; [constructor|]. induction H as [|i Hi IH Hl]; [by repeat constructor|].
    by constructor.
Qed.

Lemma start_ge c s k : instr_start c s k -> s <= k.
Proof. induction 1 as [|i Hi IH Hl]; [lia|]. pose proof (imm_of_range (znth i c)). lia. Qed.

(** One turn of the analysis: note [i], then skip its immediate. *)
Lemma jump_dests_step fuel c i : jump_dests_from (S fuel) c i =
  if i <? zlen c then (if znth i c =? 0x5b then [i] else []) ++ jump_dests_from fuel c (i + 1 + imm_of (znth i c))
  else [].
Proof.
  cbn [jump_dests_from]. destruct (i <? zlen c); [|done]. unfold imm_of.
  destruct ((0x60 <=? znth i c) && (znth i c <=? 0x7f)) eqn:E.
  - destruct (Z.eqb_spec (znth i c) 0x5b); [lia|]. cbn [app]. f_equal. lia.
  - rewrite Z.add_0_r. by destruct (_ =? _).
Qed.

Lemma jump_dests_from_spec fuel c j : forall i, 0 <= i -> zlen c - i <= Z.of_nat fuel ->
  In j (jump_dests_from fuel c i) <-> instr_start c i j /\ j < zlen c /\ znth j c = 0x5b.
Proof.
  induction fuel as [|fuel IH]; intros i Hi Hf.
  - cbn. split; [done|]. intros (Hs & Hl & _). apply start_ge in Hs. lia.
  - rewrite jump_dests_step. destruct (Z.ltb_spec i (zlen c)) as [Hl|Hl].
    + pose proof (imm_of_range (znth i c)) as Him.
      rewrite in_app_iff, IH, (start_inv c i j) by lia.
      destruct (Z.eqb_spec (znth i c) 0x5b) as [E|E]; cbn; split.
      * intros [[->|[]]|(H1 & H2 & H3)]; [by auto|]. auto.
      * intros ([->|[_ H1]] & H2 & H3); auto.
      * intros [[]|(H1 & H2 & H3)]; auto.
      * intros ([->|[_ H1]] & H2 & H3); [done | auto].
    + split; [done|]. intros (Hs & Hj & _). apply start_ge in Hs. lia.
Qed.

Lemma znth_app_head pre b rest : znth (zlen pre) (pre ++ b :: rest) = b.
Proof. unfold znth. rewrite Nat2Z.id, app_nth2, Nat.sub_diag by lia. done. Qed.

(** The first pass of [dis] reproduces its input, finds the same boundaries as
    the jump analysis, and fails only on a truncated immediate. *)
Lemma dis_loop_spec fuel : forall pre prog, (length prog <= fuel)%nat -> bytes_ok prog ->
  match dis_loop fuel (zlen pre) prog with
  | Ok l => bytes_of l = prog /\
            map pc (List.filter is_dest l) = jump_dests_from fuel (pre ++ prog) (zlen pre) /\
            Forall imm_ok l
  | Throw e => e = OutOfRange
  | Undef => False
  end.
Proof.
  induction fuel as [|fuel IH]; intros pre prog Hf Hok.
  - destruct prog; [|cbn in Hf; lia]. cbn. split; [done|]. split; [done|constructor].
  - destruct prog as [|b rest]; cbn [dis_loop].
    + rewrite jump_dests_step, app_nil_r. zcase; [lia|]. split; [done|]. split; [done | constructor].
    + destruct (getOp_imm b) as [Him Hoc]. rewrite Him. pose proof (imm_of_range b) as Hr.
      inversion Hok as [|? ? Hb Hrest]; subst.
      zcase; [done|]. set (k := imm_of b) in *. unfold ztake, zdrop.
      pose proof (IH (pre ++ b :: take (Z.to_nat k) rest) (drop (Z.to_nat k) rest)) as H'.
      assert (Hlen : zlen (pre ++ b :: take (Z.to_nat k) rest) = zlen pre + 1 + k).
      { rewrite length_app. cbn [length]. rewrite length_take. lia. }
      rewrite Hlen in H'. cbn [length] in Hf.
      specialize (H' ltac:(rewrite length_drop; lia) ltac:(auto with mach)).
      rewrite <- app_assoc in H'. cbn [app] in H'. rewrite take_drop in H'.
      destruct (dis_loop fuel _ _) as [l|e|]; [|done|done]. cbn [mbind result_bind].
      destruct H' as (H1 & H2 & H3). split; [|split].
      * unfold bytes_of in *. cbn [flat_map op raw_imm]. rewrite Hoc, H1, <- app_comm_cons, take_drop. done.
      * rewrite jump_dests_step, znth_app_head. zcase; [|rewrite length_app in *; cbn [length] in *; lia].
        fold k. rewrite <- H2. cbn [List.filter]. unfold is_dest at 1. cbn [op]. rewrite Hoc.
        destruct (b =? 0x5b); reflexivity.
      * constructor; [|done]. unfold imm_ok. cbn [raw_imm op]. rewrite Him, length_take. fold k. lia.
Qed.

(** The later passes only write comments. *)
Lemma same_code_bytes l l' : Forall2 same_code l l' ->
  bytes_of l = bytes_of l' /\ map pc (List.filter is_dest l) = map pc (List.filter is_dest l').
Proof.
  induction 1 as [|i j l l' (Ho & Hp & Hr) Hl [IH1 IH2]]; [done|]. unfold bytes_of in *.
  cbn [flat_map]. rewrite Ho, Hr, IH1. split; [done|]. cbn [List.filter].
  replace (is_dest i) with (is_dest j) by (unfold is_dest; by rewrite Ho).
  destruct (is_dest j); cbn [map]; congruence.
Qed.

Lemma name_dest_same l : Forall2 same_code l (map name_dest l).
Proof.
  induction l as [|i l IH]; cbn [map]; constructor; [|done]. unfold name_dest.
  destruct (_ =? _); done.
Qed.

Lemma resolve_jump_same all prev i : (forall p, prev = Some p -> imm_ok p) ->
  exists i', resolve_jump all prev i = Ok i' /\ same_code i i'.
Proof.
  intros Hp. unfold resolve_jump. destruct (_ || _); [|by eexists].
  destruct prev as [p|]; [|by eexists]. destruct (has_immediate (op p)) eqn:Hh; [|by eexists].
  cbn [negb]. destruct (Hp p eq_refl) as [Hl Hm]. unfold has_immediate in Hh.
  assert (Hg : exists v, get_immediate p = Ok v).
  { unfold get_immediate. destruct (raw_imm p) as [|b l]; [cbn [length] in Hl; lia|].
    unfold from_big_endian. repeat (zcase; try lia). by eexists. }
  destruct Hg as [v ->]. cbn. by eexists.
Qed.

Lemma resolve_jumps_same all l : forall prev, Forall imm_ok l -> (forall p, prev = Some p -> imm_ok p) ->
  exists l', resolve_jumps all prev l = Ok l' /\ Forall2 same_code l l'.
Proof.
  induction l as [|i l IH]; intros prev Hl Hp; cbn [resolve_jumps].
  - eexists. split; [done | constructor].
  - inversion Hl; subst. destruct (resolve_jump_same all prev i Hp) as (i' & -> & Hi).
    destruct (IH (Some i)) as (l' & -> & Hl'); [done | by intros p [= <-] |].
    cbn. eexists. split; [done | by constructor].
Qed.

Lemma imm_ok_name_dest l : Forall imm_ok l -> Forall imm_ok (map name_dest l).
Proof.
  induction 1 as [|i l Hi Hl IH]; cbn [map]; constructor; [|done]. unfold name_dest.
  by destruct (_ =? _).
Qed.

(** ** Properties *)

(** The bytes of the enumeration: reading back the number of an opcode gives
    that opcode, and exactly the listed 144 bytes name one. *)
Theorem opcode_table :
  (forall b o, 0 <= b < 256 -> opcode_of b = Some o -> opcode_val o = b) /\
  length (List.filter (fun b => is_Some_b (opcode_of (Z.of_nat b))) (seq 0 256)) = 144%nat.
Proof.
  split; [|vm_compute; reflexivity]. intros b o Hb Ho.
  assert (Hall : forallb (fun n => match opcode_of (Z.of_nat n) with
                                   | Some o => opcode_val o =? Z.of_nat n
                                   | None => true end) (seq 0 256) = true) by (vm_compute; reflexivity).
  rewrite forallb_forall in Hall. specialize (Hall (Z.to_nat b)).
  rewrite Z2Nat.id, Ho in Hall by lia. apply Z.eqb_eq, Hall, in_seq. lia.
Qed.

Lemma opcode_table_witness : opcode_val (SWAP 3) = 0x92.
Proof. apply (proj1 opcode_table); [lia | reflexivity]. Defined.

(** The jump-destination analysis is exact: a position is accepted by JUMP
    if and only if an instruction starts there (bytes inside PUSH immediates
    excluded), it lies in the code, and the instruction is JUMPDEST. *)
Theorem compute_jump_dests_spec c j :
  In j (compute_jump_dests c) <-> instr_start c 0 j /\ j < zlen c /\ znth j c = 0x5b.
Proof. apply jump_dests_from_spec; lia. Qed.

(** The disassembler: on every byte string it either reports a truncated
    immediate or lists instructions whose bytes, concatenated, are the input,
    and whose JUMPDESTs are the jump destinations of the processor. *)
Theorem dis_spec prog : bytes_ok prog ->
  dis prog = Throw OutOfRange \/
  exists l, dis prog = Ok l /\ bytes_of l = prog /\
    map pc (List.filter is_dest l) = compute_jump_dests prog.
Proof.
  intros Hok. pose proof (dis_loop_spec (length prog) [] prog (le_n _) Hok) as H.
  unfold dis. change (zlen []) with 0 in H. cbn [app] in H.
  destruct (dis_loop (length prog) 0 prog) as [l|e|]; cbn [mbind result_bind];
    [|left; by subst|done].
  destruct H as (H1 & H2 & H3). right. apply imm_ok_name_dest in H3.
  destruct (resolve_jumps_same (map name_dest l) (map name_dest l) None H3) as (l' & Hl' & Hs);
    [done|].
  exists l'. split; [done|].
  destruct (same_code_bytes _ _ Hs) as [<- <-].
  destruct (same_code_bytes _ _ (name_dest_same l)) as [<- <-]. done.
Qed.

Lemma dis_spec_witness : let prog := [0x60; 0x03; 0x56; 0x5b; 0x61; 0x5b; 0x5b] in
  dis prog = Throw OutOfRange \/
  exists l, dis prog = Ok l /\ bytes_of l = prog /\
    map pc (List.filter is_dest l) = compute_jump_dests prog.
Proof. intros prog. apply dis_spec. apply (bool_decide_unpack _). vm_compute. exact I. Defined.

End Bytecode.
