(* ===== verification/Monad.v ===== *)
(** * Effects

    State and exceptions together.  A C++ operation on an object is a function
    from the object's state to the state it leaves behind and a [result]: a
    thrown exception does not undo the writes made before it.  [triple] is the
    partial-correctness judgement used for the invariants: a postcondition for
    the normal return, one for exceptions, and the proposition under which the
    operation may run into undefined behaviour. *)
From S2P Require Import Prelude.
From stdpp Require Import list.
Local Open Scope Z_scope.

Definition M (St A : Type) : Type := St -> St * result A.

#[global] Instance M_ret {St} : MRet (M St) := fun A a s => (s, Ok a).
#[global] Instance M_bind {St} : MBind (M St) := fun A B f m s =>
  match m s with
  | (s, Ok a) => f a s
  | (s, Throw e) => (s, Throw e)
  | (s, Undef) => (s, Undef)
  end.

Definition throw {St A} (e : cxx_exn) : M St A := fun s => (s, Throw e).
Definition undef {St A} : M St A := fun s => (s, Undef).
Definition lift {St A} (r : result A) : M St A := fun s => (s, r).
Definition gets {St A} (f : St -> A) : M St A := fun s => (s, Ok (f s)).
Definition getsR {St A} (f : St -> result A) : M St A := fun s => (s, f s).
Definition modify {St} (f : St -> St) : M St unit := fun s => (f s, Ok tt).

(** Run an operation on a part of the state. *)
Definition zoom {St T A} (get : St -> T) (set : T -> St -> St) (m : M T A) : M St A :=
  fun s => let '(t, r) := m (get s) in (set t s, r).

(** [for (x : l) f(x);] *)
Fixpoint for_each {St A} (f : A -> M St unit) (l : list A) : M St unit :=
  match l with
  | [] => mret tt
  | a :: l => f a ;; for_each f l
  end.

(** [n] times, collecting the results in order. *)
Fixpoint times {St A} (n : nat) (m : M St A) : M St (list A) :=
  match n with
  | O => mret []
  | S n => a ← m; l ← times n m; mret (a :: l)
  end.

Definition triple {St A} (P : St -> Prop) (m : M St A) (Q : A -> St -> Prop)
    (E : cxx_exn -> St -> Prop) (U : Prop) : Prop :=
  forall s, P s ->
    match m s with
    | (s', Ok a) => Q a s'
    | (s', Throw e) => E e s'
    | (s', Undef) => U
    end.

Section rules.
Context {St : Type}.
Implicit Types P : St -> Prop.

Lemma triple_ret {A} P (a : A) Q E U : (forall s, P s -> Q a s) -> triple P (mret a : M St A) Q E U.
Proof. intros H s Hs. apply H, Hs. Qed.

Lemma triple_bind {A B} P (m : M St A) (f : A -> M St B) R Q E U :
  triple P m R E U -> (forall a, triple (R a) (f a) Q E U) -> triple P (m ≫= f) Q E U.
Proof.
  intros Hm Hf s Hs. specialize (Hm s Hs). unfold mbind, M_bind.
  destruct (m s) as [s' [a|e|]]; [|done|done]. apply (Hf a s' Hm).
Qed.

Lemma triple_weaken {A} P P' (m : M St A) Q Q' E E' (U U' : Prop) :
  triple P m Q E U -> (forall s, P' s -> P s) -> (forall a s, Q a s -> Q' a s) ->
  (forall e s, E e s -> E' e s) -> (U -> U') -> triple P' m Q' E' U'.
Proof.
  intros H HP HQ HE HU s Hs. specialize (H s (HP s Hs)).
  destruct (m s) as [s' [a|e|]]; auto.
Qed.

Lemma triple_throw {A} P e Q E U : (forall s, P s -> E e s) -> triple P (throw e : M St A) Q E U.
Proof. intros H s Hs. apply H, Hs. Qed.

Lemma triple_lift {A} P (r : result A) Q E U :
  match r with
  | Ok a => forall s, P s -> Q a s
  | Throw e => forall s, P s -> E e s
  | Undef => U
  end -> triple P (lift r) Q E U.
Proof. intros H s Hs. unfold lift. destruct r; auto. Qed.

Lemma triple_gets {A} P (f : St -> A) Q E U :
  (forall s, P s -> Q (f s) s) -> triple P (gets f) Q E U.
Proof. intros H s Hs. apply H, Hs. Qed.

Lemma triple_modify P (f : St -> St) Q E U :
  (forall s, P s -> Q tt (f s)) -> triple P (modify f) Q E U.
Proof. intros H s Hs. apply H, Hs. Qed.

Lemma triple_pull {A} (X : Prop) P (m : M St A) Q E U :
  (X -> triple P m Q E U) -> triple (fun s => X /\ P s) m Q E U.
Proof. intros H s [HX Hs]. by apply H. Qed.

Lemma triple_if {A} (b : bool) P (m m' : M St A) Q E U :
  (b = true -> triple P m Q E U) -> (b = false -> triple P m' Q E U) ->
  triple P (if b then m else m') Q E U.
Proof. destruct b; auto. Qed.

(** A loop keeps an invariant each turn keeps. *)
Lemma triple_for_each {A} P (f : A -> M St unit) l E U :
  Forall (fun a => triple P (f a) (fun _ => P) E U) l ->
  triple P (for_each f l) (fun _ => P) E U.
Proof.
  induction 1 as [|a l Ha Hl IH]; cbn [for_each]; [by apply triple_ret|].
  eapply triple_bind; [exact Ha|]. intros []. exact IH.
Qed.

Lemma triple_times {A} P (m : M St A) (V : A -> Prop) n E U :
  triple P m (fun a s => V a /\ P s) E U ->
  triple P (times n m) (fun l s => Forall V l /\ length l = n /\ P s) E U.
Proof.
  intros Hm. induction n as [|n IH]; cbn [times].
  - apply triple_ret. auto.
  - eapply triple_bind; [exact Hm|]. intros a. apply triple_pull. intros Ha.
    eapply triple_bind; [exact IH|]. intros l. apply triple_pull. intros Hl.
    apply triple_pull. intros Hn. apply triple_ret. intros s Hs.
    split; [by constructor|]. split; [cbn; congruence | done].
Qed.
End rules.
