(* ===== verification/GlobalState.v ===== *)
(** * World state: accounts, storage and the GlobalState interface

    Model of eEVM's include/eEVM/account.h, storage.h, globalstate.h, block.h
    and of the std::map-backed implementation in include/eEVM/simple and
    src/simple.  The abstract C++ interface is the class [GlobalState]: an
    [AccountState] (a pair of references) is represented by the address it was
    obtained under, and the accessors fail with [Undef] when no such account
    exists any more (a dangling reference).  [GlobalStateLaws] is what the
    processor relies on; both this file's SimpleGlobalState and the KV-backed
    EthereumState are proved to satisfy it. *)
From S2P Require Import Prelude Monad.
From stdpp Require Import list gmap.
Local Open Scope Z_scope.

(** ** The interface *)

Class GlobalState (St : Type) := {
  gs_remove : Z -> M St unit;
  gs_get : Z -> M St unit;
  gs_create : Z -> Z -> list Z -> M St unit;
  gs_get_block_hash : Z -> M St Z;
  acc_get_address : Z -> St -> result Z;
  acc_get_balance : Z -> St -> result Z;
  acc_set_balance : Z -> Z -> M St unit;
  acc_get_nonce : Z -> St -> result Z;
  acc_increment_nonce : Z -> M St unit;
  acc_get_code : Z -> St -> result (list Z);
  acc_set_code : Z -> list Z -> M St unit;
  st_load : Z -> Z -> M St Z;
  st_store : Z -> Z -> Z -> M St unit;
  st_remove : Z -> Z -> M St bool;
}.

(** [Account::pay_to] on the accounts held under [this] and [other]. *)
Definition pay_to {St} `{GlobalState St} (this other amount : Z) : M St unit :=
  this_balance ← getsR (acc_get_balance this);
  if this_balance <? amount then throw (EvmException outOfFunds)
  else
    other_balance ← getsR (acc_get_balance other);
    let proposed_balance := wrap256 (other_balance + amount) in
    if proposed_balance <? other_balance then throw (EvmException overflow)
    else
      acc_set_balance this (wrap256 (this_balance - amount)) ;;
      acc_set_balance other proposed_balance.

(** [Account::has_code] *)
Definition has_code {St} `{GlobalState St} (a : Z) (s : St) : result bool :=
  c ← acc_get_code a s; Ok (negb (bool_decide (c = []))).

(** ** What an implementation promises *)

(** A std::vector<uint8_t>: its elements are bytes and its length is below the
    largest size a vector can have. *)
Definition vec_ok (l : list Z) : Prop := bytes_ok l /\ zlen l < 2 ^ 63.

(** [gs_ok] is the implementation's own invariant, [live a] that references to
    the account at [a] are valid. *)
Class GlobalStateLaws (St : Type) `{GlobalState St} := {
  gs_ok : St -> Prop;
  live : Z -> St -> Prop;
  law_get a s : gs_ok s -> u256 a ->
    let '(s', r) := gs_get a s in
    gs_ok s' /\ (forall b, live b s -> live b s') /\
    match r with Ok _ => live a s' | Throw _ => True | Undef => False end;
  law_create a b c s : gs_ok s -> u256 a -> u256 b -> vec_ok c ->
    let '(s', r) := gs_create a b c s in
    gs_ok s' /\ (forall b, live b s -> live b s') /\
    match r with Ok _ => live a s' | Throw _ => True | Undef => live a s end;
  law_block_hash o s : gs_ok s ->
    let '(s', r) := gs_get_block_hash o s in
    gs_ok s' /\ (forall b, live b s -> live b s') /\
    match r with Ok v => u256 v | Throw _ => True | Undef => False end;
  law_address a s : gs_ok s -> live a s -> exists v, acc_get_address a s = Ok v /\ u256 v;
  law_balance a s : gs_ok s -> live a s -> exists v, acc_get_balance a s = Ok v /\ u256 v;
  law_nonce a s : gs_ok s -> live a s -> exists v, acc_get_nonce a s = Ok v /\ u64 v;
  law_code a s : gs_ok s -> live a s -> exists c, acc_get_code a s = Ok c /\ vec_ok c;
  law_set_balance a v s : gs_ok s -> live a s -> u256 v ->
    let '(s', r) := acc_set_balance a v s in
    r = Ok tt /\ gs_ok s' /\ (forall b, live b s -> live b s') /\
    acc_get_balance a s' = Ok v /\
    (forall b, b <> a -> acc_get_balance b s' = acc_get_balance b s);
  law_set_code a c s : gs_ok s -> live a s -> vec_ok c ->
    let '(s', r) := acc_set_code a c s in
    r = Ok tt /\ gs_ok s' /\ (forall b, live b s -> live b s') /\ acc_get_code a s' = Ok c;
  law_load a k s : gs_ok s -> live a s -> u256 k ->
    let '(s', r) := st_load a k s in
    gs_ok s' /\ (forall b, live b s -> live b s') /\
    match r with Ok v => u256 v | Throw _ => True | Undef => False end;
  law_store a k v s : gs_ok s -> live a s -> u256 k -> u256 v ->
    let '(s', r) := st_store a k v s in
    gs_ok s' /\ (forall b, live b s -> live b s') /\ r <> Undef;
  law_st_remove a k s : gs_ok s -> live a s -> u256 k ->
    let '(s', r) := st_remove a k s in
    gs_ok s' /\ (forall b, live b s -> live b s') /\ r <> Undef;
}.

(** ** SimpleGlobalState *)

Module Simple.

Record Block := mkBlock {
  number : Z; gas_limit : Z; timestamp : Z;
  coinbase : Z; prev_randao : Z; chain_id : Z; base_fee : Z
}.

Record SimpleAccount := mkAccount { address : Z; balance : Z; code : list Z; nonce : Z }.

Abbreviation SimpleStorage := (gmap Z Z).

Definition storage_store (key value : Z) (s : SimpleStorage) : SimpleStorage := <[key := value]> s.
Definition storage_load (key : Z) (s : SimpleStorage) : Z := default 0 (s !! key).
Definition storage_exists (key : Z) (s : SimpleStorage) : bool := bool_decide (is_Some (s !! key)).
Definition storage_remove (key : Z) (s : SimpleStorage) : SimpleStorage * bool :=
  match s !! key with
  | None => (s, false)
  | Some _ => (delete key s, true)
  end.

Record SimpleGlobalState := mkState {
  currentBlock : Block;
  accounts : gmap Z (SimpleAccount * SimpleStorage)
}.

Definition with_accounts (s : SimpleGlobalState) m := mkState (currentBlock s) m.

Definition remove (addr : Z) : M SimpleGlobalState unit :=
  modify (fun s => with_accounts s (delete addr (accounts s))).

(** [insert] asserts that the key was new; a failed assertion aborts. *)
Definition insert_entry (p : SimpleAccount * SimpleStorage) : M SimpleGlobalState unit := fun s =>
  match accounts s !! address (fst p) with
  | Some _ => (s, Undef)
  | None => (with_accounts s (<[address (fst p) := p]> (accounts s)), Ok tt)
  end.

(** [create] ends in [get], which finds the entry just inserted. *)
Definition create (addr balance : Z) (code : list Z) : M SimpleGlobalState unit :=
  insert_entry (mkAccount addr balance code 0, ∅).

Definition get (addr : Z) : M SimpleGlobalState unit := fun s =>
  match accounts s !! addr with
  | Some _ => (s, Ok tt)
  | None => create addr 0 [] s
  end.

Definition exists_ (addr : Z) (s : SimpleGlobalState) : bool := bool_decide (is_Some (accounts s !! addr)).
Definition num_accounts (s : SimpleGlobalState) : Z := Z.of_nat (size (accounts s)).
Definition get_block_hash (offset : Z) : M SimpleGlobalState Z := mret 0.

(** Reading and writing through a reference to an entry of the map. *)
Definition entry (a : Z) (s : SimpleGlobalState) : result (SimpleAccount * SimpleStorage) :=
  match accounts s !! a with Some e => Ok e | None => Undef end.
Definition update_entry {A} (a : Z)
    (f : SimpleAccount * SimpleStorage -> (SimpleAccount * SimpleStorage) * A) : M SimpleGlobalState A :=
  fun s => match accounts s !! a with
           | Some e => let '(e', r) := f e in (with_accounts s (<[a := e']> (accounts s)), Ok r)
           | None => (s, Undef)
           end.

Definition get_address (a : SimpleAccount) : Z := address a.
Definition get_balance (a : SimpleAccount) : Z := balance a.
Definition get_nonce (a : SimpleAccount) : Z := nonce a.
Definition get_code (a : SimpleAccount) : list Z := code a.
Definition set_address (x : Z) (a : SimpleAccount) := mkAccount x (balance a) (code a) (nonce a).
Definition set_balance (b : Z) (a : SimpleAccount) := mkAccount (address a) b (code a) (nonce a).
Definition set_nonce (n : Z) (a : SimpleAccount) := mkAccount (address a) (balance a) (code a) n.
Definition increment_nonce (a : SimpleAccount) :=
  mkAccount (address a) (balance a) (code a) (wrap64 (nonce a + 1)).
Definition set_code (c : list Z) (a : SimpleAccount) := mkAccount (address a) (balance a) c (nonce a).
Definition account_eqb (a b : SimpleAccount) : bool :=
  (get_address a =? get_address b) && (get_balance a =? get_balance b) &&
  (get_nonce a =? get_nonce b) && bool_decide (get_code a = get_code b).

End Simple.

#[global] Instance SimpleGlobalState_GlobalState : GlobalState Simple.SimpleGlobalState := {
  gs_remove := Simple.remove;
  gs_get := Simple.get;
  gs_create := Simple.create;
  gs_get_block_hash := Simple.get_block_hash;
  acc_get_address a s := e ← Simple.entry a s; Ok (Simple.get_address (fst e));
  acc_get_balance a s := e ← Simple.entry a s; Ok (Simple.get_balance (fst e));
  acc_set_balance a v := Simple.update_entry a (fun e => ((Simple.set_balance v (fst e), snd e), tt));
  acc_get_nonce a s := e ← Simple.entry a s; Ok (Simple.get_nonce (fst e));
  acc_increment_nonce a := Simple.update_entry a (fun e => ((Simple.increment_nonce (fst e), snd e), tt));
  acc_get_code a s := e ← Simple.entry a s; Ok (Simple.get_code (fst e));
  acc_set_code a c := Simple.update_entry a (fun e => ((Simple.set_code c (fst e), snd e), tt));
  st_load a k s := (s, e ← Simple.entry a s; Ok (Simple.storage_load k (snd e)));
  st_store a k v := Simple.update_entry a (fun e => ((fst e, Simple.storage_store k v (snd e)), tt));
  st_remove a k := Simple.update_entry a (fun e =>
    let '(st, r) := Simple.storage_remove k (snd e) in ((fst e, st), r));
}.

(** ** Lemmas: SimpleGlobalState keeps the interface's laws *)

Module SimpleFacts.
Import Simple.

Definition entry_ok (a : Z) (e : SimpleAccount * SimpleStorage) : Prop :=
  u256 a /\ address (fst e) = a /\ u256 (balance (fst e)) /\ vec_ok (code (fst e)) /\
  u64 (nonce (fst e)) /\ map_Forall (fun _ v => u256 v) (snd e).
Definition state_ok (s : SimpleGlobalState) : Prop := map_Forall entry_ok (accounts s).
Definition is_live (a : Z) (s : SimpleGlobalState) : Prop := is_Some (accounts s !! a).

(** The sum of all balances. *)
Definition total_balance (s : SimpleGlobalState) : Z :=
  map_fold (fun _ e acc => balance (fst e) + acc) 0 (accounts s).

Lemma vec_ok_nil : vec_ok [].
Proof. split; [constructor | reflexivity]. Qed.

Lemma create_ok a b c s : state_ok s -> u256 a -> u256 b -> vec_ok c ->
  let '(s', r) := create a b c s in
  state_ok s' /\ (forall b, is_live b s -> is_live b s') /\
  match r with Ok _ => is_live a s' | Throw _ => True | Undef => is_live a s end.
Proof.
  intros Hs Ha Hb Hc. unfold create, insert_entry. cbn [fst address].
  destruct (accounts s !! a) as [e|] eqn:E; [by split; [|split; [|exists e]]|].
  split; [|split].
  - apply map_Forall_insert_2; [|done].
    refine (conj Ha (conj eq_refl (conj Hb (conj Hc (conj _ _))))).
    + apply u64_0.
    + apply map_Forall_empty.
  - intros x Hx. apply lookup_insert_is_Some'. auto.
  - apply lookup_insert_is_Some'. auto.
Qed.

Lemma create_ok_state a b c s : state_ok s -> u256 a -> u256 b -> vec_ok c ->
  state_ok (fst (create a b c s)).
Proof.
  intros Hs Ha Hb Hc. pose proof (create_ok a b c s Hs Ha Hb Hc) as H.
  destruct (create a b c s). apply H.
Qed.

(** The overflow test of [pay_to] is exact. *)
Lemma no_wrap y amount : u256 y -> u256 amount -> y <= wrap256 (y + amount) ->
  wrap256 (y + amount) = y + amount.
Proof.
  unfold u256, wrap256. intros [Hy0 Hy1] [Ha0 Ha1] Hle. destruct (Z.lt_ge_cases (y + amount) M256); [apply Z.mod_small; lia|].
  exfalso. replace (y + amount) with (y + amount - M256 + 1 * M256) in Hle by lia.
  rewrite Z.mod_add, Z.mod_small in Hle by lia. lia.
Qed.

Lemma update_entry_ok {A} a (f : _ -> _ * A) s : state_ok s -> is_live a s ->
  (forall e, entry_ok a e -> entry_ok a (fst (f e))) ->
  exists e, accounts s !! a = Some e /\
    update_entry a f s = (with_accounts s (<[a := fst (f e)]> (accounts s)), Ok (snd (f e))) /\
    state_ok (with_accounts s (<[a := fst (f e)]> (accounts s))) /\
    (forall b, is_live b s -> is_live b (with_accounts s (<[a := fst (f e)]> (accounts s)))).
Proof.
  intros Hs [e He] Hf. exists e. unfold update_entry. rewrite He. destruct (f e) as [e' r] eqn:Ef.
  split; [done|]. split; [done|]. split.
  - apply map_Forall_insert_2; [|done]. specialize (Hf e (Hs a e He)). by rewrite Ef in Hf.
  - intros b Hb. apply lookup_insert_is_Some'. auto.
Qed.

Lemma entry_live a s : state_ok s -> is_live a s -> exists e, entry a s = Ok e /\ entry_ok a e.
Proof. intros Hs [e He]. exists e. unfold entry. rewrite He. split; [done | by apply Hs]. Qed.

Lemma load_ok k e a : entry_ok a e -> u256 (storage_load k (snd e)).
Proof.
  intros (_ & _ & _ & _ & _ & Hst). unfold storage_load.
  destruct (snd e !! k) as [v|] eqn:E; cbn; [by apply (Hst k v) | apply u256_0].
Qed.

(** Writing one entry changes the total by the difference of its balances. *)
Lemma total_insert s a e e' : accounts s !! a = Some e ->
  total_balance (with_accounts s (<[a := e']> (accounts s))) =
  total_balance s - balance (fst e) + balance (fst e').
Proof.
  intros He. unfold total_balance. cbn [accounts with_accounts].
  rewrite <- insert_delete_eq.
  rewrite (map_fold_insert_L _ _ a e' (delete a (accounts s)));
    [|intros; lia | apply lookup_delete_eq].
  rewrite (map_fold_delete_L _ _ a e (accounts s)); [lia | intros; lia | done].
Qed.

End SimpleFacts.

#[global] Program Instance SimpleGlobalState_Laws : GlobalStateLaws Simple.SimpleGlobalState := {
  gs_ok := SimpleFacts.state_ok;
  live := SimpleFacts.is_live;
}.
Next Obligation.
  intros a s Hs Ha. cbn. unfold Simple.get. destruct (Simple.accounts s !! a) as [e|] eqn:E.
  - split; [done|]. split; [done|]. by exists e.
  - pose proof (SimpleFacts.create_ok a 0 [] s Hs Ha u256_0 SimpleFacts.vec_ok_nil) as H.
    destruct (Simple.create a 0 [] s) as [s' r]. destruct H as (H1 & H2 & H3).
    split; [done|]. split; [done|]. destruct r; [done|done|]. destruct H3 as [e He]. congruence.
Qed.
Next Obligation. intros. cbn. by apply SimpleFacts.create_ok. Qed.
Next Obligation. intros. cbn. split; [done|]. split; [done | apply u256_0]. Qed.
Next Obligation.
  intros a s Hs Ha. cbn. destruct (SimpleFacts.entry_live a s Hs Ha) as (e & -> & He).
  cbn. eexists. split; [done|]. destruct He as (H1 & H2 & _). unfold Simple.get_address. by rewrite H2.
Qed.
Next Obligation.
  intros a s Hs Ha. cbn. destruct (SimpleFacts.entry_live a s Hs Ha) as (e & -> & He).
  cbn. eexists. split; [done|]. apply He.
Qed.
Next Obligation.
  intros a s Hs Ha. cbn. destruct (SimpleFacts.entry_live a s Hs Ha) as (e & -> & He).
  cbn. eexists. split; [done|]. apply He.
Qed.
Next Obligation.
  intros a s Hs Ha. cbn. destruct (SimpleFacts.entry_live a s Hs Ha) as (e & -> & He).
  cbn. eexists. split; [done|]. apply He.
Qed.
Next Obligation.
  intros a v s Hs Ha Hv. cbn.
  destruct (SimpleFacts.update_entry_ok a (fun e => ((Simple.set_balance v (fst e), snd e), tt)) s Hs Ha)
    as (e & He & -> & Hok & Hl); [intros e (H1 & H2 & H3 & H4); exact (conj H1 (conj H2 (conj Hv H4)))|].
  split; [done|]. split; [done|]. split; [done|]. unfold Simple.entry. cbn.
  rewrite lookup_insert_eq. split; [done|]. intros b Hb. by rewrite lookup_insert_ne.
Qed.
Next Obligation.
  intros a c s Hs Ha Hc. cbn.
  destruct (SimpleFacts.update_entry_ok a (fun e => ((Simple.set_code c (fst e), snd e), tt)) s Hs Ha)
    as (e & He & -> & Hok & Hl); [intros e (H1 & H2 & H3 & H4 & H5); exact (conj H1 (conj H2 (conj H3 (conj Hc H5))))|].
  split; [done|]. split; [done|]. split; [done|]. unfold Simple.entry. cbn.
  by rewrite lookup_insert_eq.
Qed.
Next Obligation.
  intros a k s Hs Ha Hk. cbn. split; [done|]. split; [done|].
  destruct (SimpleFacts.entry_live a s Hs Ha) as (e & -> & He). cbn. by eapply SimpleFacts.load_ok.
Qed.
Next Obligation.
  intros a k v s Hs Ha Hk Hv. cbn.
  destruct (SimpleFacts.update_entry_ok a
      (fun e => ((fst e, Simple.storage_store k v (snd e)), tt)) s Hs Ha)
    as (e & He & -> & Hok & Hl); [|done].
  intros e (H1 & H2 & H3 & H4 & H5 & H6).
  refine (conj H1 (conj H2 (conj H3 (conj H4 (conj H5 _))))). by apply map_Forall_insert_2.
Qed.
Next Obligation.
  intros a k s Hs Ha Hk. cbn.
  destruct (SimpleFacts.update_entry_ok a
      (fun e => let '(st, r) := Simple.storage_remove k (snd e) in ((fst e, st), r)) s Hs Ha)
    as (e & He & -> & Hok & Hl); [|done].
  intros e (H1 & H2 & H3 & H4 & H5 & H6). unfold Simple.storage_remove.
  destruct (snd e !! k); refine (conj H1 (conj H2 (conj H3 (conj H4 (conj H5 _)))));
    [by apply map_Forall_delete | done].
Qed.

(** *** The sum of the balances *)

Lemma pay_to_sum this other amount (s s' : Simple.SimpleGlobalState) :
  SimpleFacts.state_ok s -> u256 amount ->
  pay_to this other amount s = (s', Ok tt) ->
  SimpleFacts.total_balance s' =
  SimpleFacts.total_balance s + (if this =? other then amount else 0).
Proof.
  intros Hs [Ha0 Ha1]. unfold pay_to, getsR, mbind, M_bind. cbn [acc_get_balance acc_set_balance SimpleGlobalState_GlobalState].
  unfold Simple.entry, Simple.get_balance.
  destruct (Simple.accounts s !! this) as [e|] eqn:Et; [|done]. cbn [mbind result_bind].
  destruct (Z.ltb_spec (Simple.balance (fst e)) amount); [done|].
  destruct (Simple.accounts s !! other) as [e'|] eqn:Eo; [|done]. cbn [mbind result_bind].
  destruct (Hs _ _ Et) as (_ & _ & [Hx0 Hx1] & _). destruct (Hs _ _ Eo) as (_ & _ & [Hy0 Hy1] & _).
  destruct (Z.ltb_spec (wrap256 (Simple.balance (fst e') + amount)) (Simple.balance (fst e'))); [done|].
  unfold Simple.update_entry. rewrite Et. cbn -[wrap256].
  rewrite (SimpleFacts.no_wrap (Simple.balance (fst e')) amount) by done.
  rewrite (wrap256_small (Simple.balance (fst e) - amount)) by (unfold u256; lia).
  set (s1 := Simple.with_accounts s _).
  pose proof (SimpleFacts.total_insert s this e (Simple.set_balance (Simple.balance (fst e) - amount) (fst e), snd e) Et) as T1.
  fold s1 in T1. destruct (Z.eqb_spec this other) as [<-|Hne].
  - assert (e' = e) as -> by congruence. rewrite lookup_insert_eq. intros [= <-].
    pose proof (SimpleFacts.total_insert s1 this _ (Simple.set_balance (Simple.balance (fst e) + amount) (fst e), snd e) (lookup_insert_eq _ _ _)) as T2.
    cbn in T1, T2. etransitivity; [exact T2 | lia].
  - rewrite lookup_insert_ne, Eo by done. intros [= <-].
    pose proof (SimpleFacts.total_insert s1 other e' (Simple.set_balance (Simple.balance (fst e') + amount) (fst e'), snd e')) as T2.
    etransitivity; [apply T2; cbn; by rewrite lookup_insert_ne|]. cbn in T1 |- *. lia.
Qed.

Lemma create_sum a b c (s s' : Simple.SimpleGlobalState) : Simple.create a b c s = (s', Ok tt) ->
  Simple.accounts s !! a = None /\ SimpleFacts.total_balance s' = SimpleFacts.total_balance s + b.
Proof.
  unfold Simple.create, Simple.insert_entry. cbn [Simple.address fst].
  destruct (Simple.accounts s !! a) eqn:E; [done|]. intros [= <-]. split; [done|].
  unfold SimpleFacts.total_balance. cbn [Simple.accounts Simple.with_accounts].
  rewrite map_fold_insert_L; [cbn; lia | intros; lia | done].
Qed.

(** ** Properties *)

(** [pay_to] between two live accounts: it throws outOfFunds or overflow and
    changes nothing when the payer is short or the payee's balance would leave
    256 bits; otherwise it moves exactly [amount] and touches no third account,
    except that paying oneself creates [amount] out of nothing. *)
Theorem pay_to_spec {St} `{GlobalStateLaws St} this other amount x y (s : St) :
  gs_ok s -> live this s -> live other s -> u256 amount ->
  acc_get_balance this s = Ok x -> acc_get_balance other s = Ok y ->
  let '(s', r) := pay_to this other amount s in
  if x <? amount then s' = s /\ r = Throw (EvmException outOfFunds)
  else if M256 <=? y + amount then s' = s /\ r = Throw (EvmException overflow)
  else r = Ok tt /\
       acc_get_balance other s' = Ok (y + amount) /\
       (this <> other -> acc_get_balance this s' = Ok (x - amount)) /\
       (forall b, b <> this -> b <> other -> acc_get_balance b s' = acc_get_balance b s).
Proof.
  intros Hs Ht Ho [Ha0 Ha1] Hx Hy. unfold pay_to, getsR, mbind, M_bind. rewrite Hx.
  destruct (law_balance this s Hs Ht) as (x' & Hx' & Hxr0 & Hxr1).
  destruct (law_balance other s Hs Ho) as (y' & Hy' & Hyr0 & Hyr1).
  assert (x' = x) as -> by congruence. assert (y' = y) as -> by congruence.
  destruct (Z.ltb_spec x amount); [done|]. rewrite Hy.
  destruct (Z.leb_spec M256 (y + amount)).
  - destruct (Z.ltb_spec (wrap256 (y + amount)) y); [done|]. exfalso.
    pose proof (SimpleFacts.no_wrap y amount) as Hw. pose proof (wrap256_u256 (y + amount)) as [_ ?].
    rewrite Hw in *; unfold u256; lia.
  - rewrite wrap256_small by (unfold u256; lia).
    destruct (Z.ltb_spec (y + amount) y); [lia|].
    pose proof (law_set_balance this (wrap256 (x - amount)) s Hs Ht (wrap256_u256 _)) as L1.
    destruct (acc_set_balance this _ s) as [s1 r1]. destruct L1 as (-> & Hs1 & Hl1 & Hb1 & Hn1).
    pose proof (law_set_balance other (y + amount) s1 Hs1 (Hl1 _ Ho) ltac:(unfold u256; lia)) as L2.
    destruct (acc_set_balance other _ s1) as [s2 r2]. destruct L2 as (-> & Hs2 & Hl2 & Hb2 & Hn2).
    split; [done|]. split; [done|]. split.
    + intros Hne. rewrite Hn2, Hb1, wrap256_small by (done || unfold u256; lia). done.
    + intros b Hbt Hbo. by rewrite Hn2, Hn1.
Qed.

Lemma pay_to_spec_witness :
  let b := Simple.mkBlock 0 0 0 0 0 0 0 in
  let s := fst (Simple.create 2 5 [] (fst (Simple.create 1 10 [] (Simple.mkState b ∅)))) in
  let '(s', r) := pay_to 1 2 7 s in
  r = Ok tt /\ acc_get_balance 2 s' = Ok 12 /\ (1 <> 2 -> acc_get_balance 1 s' = Ok 3) /\
  (forall b, b <> 1 -> b <> 2 -> acc_get_balance b s' = acc_get_balance b s).
Proof.
  intros b s. apply (pay_to_spec 1 2 7 10 5 s).
  - repeat apply SimpleFacts.create_ok_state; try (by apply (bool_decide_unpack _); vm_compute).
  - by eexists.
  - by eexists.
  - split; [lia | reflexivity].
  - reflexivity.
  - reflexivity.
Defined.

(** Payments conserve the sum of all balances of the state, unless an
    account pays itself, which adds the amount to the sum. *)
Theorem pay_to_total this other amount (s s' : Simple.SimpleGlobalState) :
  SimpleFacts.state_ok s -> u256 amount ->
  pay_to this other amount s = (s', Ok tt) ->
  SimpleFacts.total_balance s' =
  SimpleFacts.total_balance s + (if this =? other then amount else 0).
Proof. apply pay_to_sum. Qed.

Lemma pay_to_total_witness :
  let s := fst (Simple.create 1 10 [] (Simple.mkState (Simple.mkBlock 0 0 0 0 0 0 0) ∅)) in
  SimpleFacts.total_balance (fst (pay_to 1 1 7 s)) = 17.
Proof.
  intros s. rewrite (pay_to_total 1 1 7 s (fst (pay_to 1 1 7 s))); [reflexivity | | | reflexivity].
  - apply SimpleFacts.create_ok_state; try (by apply (bool_decide_unpack _); vm_compute).
  - split; [lia | reflexivity].
Defined.
