(* ===== verification/Processor.v ===== *)
(** * The EVM processor

    Model of eEVM's src/processor.cpp and include/eEVM/processor.h, with the
    transaction of include/eEVM/transaction.h.  One definition per C++ member
    function.  The machine state [pstate] holds the world state, the stack of
    contexts ([ctxts], the current one first), the effects collected by the
    transaction, and the [ExecResult] the outermost handlers write to.

    A context's three closures (return, halt and exception handler) are the
    data they capture: [HRoot] for the ones made by [run], [HCall] and
    [HCreate] for the ones made by [call] and [create_impl]; [parent] is the
    parent context's position counted from the outermost one.

    Parameters ([Env]): the transaction's fields; [now], the system clock read
    by TIMESTAMP; [junk], the uninitialised bytes CREATE2 hashes; and
    [newAcc_alive]: the return handler of CREATE holds a reference to a local
    variable of [create_impl], which has returned by the time the handler runs,
    so what it denotes is formally undefined.  [newAcc_alive = true] is the
    behaviour when the stack slot still holds the account, [false] the
    undefined one.  The optional trace is not modelled. *)
From S2P Require Import Prelude Monad Keccak Util Rlp Address Stack Bytecode GlobalState.
From stdpp Require Import list.
Local Open Scope Z_scope.

Module Processor.
Import Bytecode.

(** ** Data *)

Definition MAX_CALL_DEPTH : Z := 1024.
Definition WORD_SIZE : Z := 32.
Definition MAX_MEM_SIZE : Z := 2 ^ 25.

Inductive Handlers :=
  | HRoot
  | HCall (parent : nat) (offOut sizeOut : Z)
  | HCreate (parent : nat) (newAcc : Z).

Record Context := mkContext {
  pc : Z;
  pc_changed : bool;
  mem : list Z;
  s : list Z;
  acc : Z;
  caller : Z;
  input : list Z;
  call_value : Z;
  prog : Program;
  handlers : Handlers;
  return_data : list Z;
  in_static_mode : bool
}.

Inductive ExitReason := returned | halted | threw.
Record ExecResult := mkResult { er : ExitReason; ex : evm_exn; output : list Z }.

Record LogEntry := mkLog { log_address : Z; log_data : list Z; log_topics : list Z }.

Record Env := mkEnv {
  origin : Z;
  gas_price : Z;
  gas_limit : Z;
  now : nat -> Z;
  junk : nat -> list Z * list Z;
  newAcc_alive : bool
}.

Record pstate (St : Type) := mkPState {
  gs : St;
  ctxts : list Context;
  logs : list LogEntry;
  selfdestruct_list : list Z;
  ticks : nat;
  res : ExecResult
}.
Arguments mkPState {St} _ _ _ _ _ _.
Arguments gs {St} _.
Arguments ctxts {St} _.
Arguments logs {St} _.
Arguments selfdestruct_list {St} _.
Arguments ticks {St} _.
Arguments res {St} _.

(** Field updates. *)
Definition set_pc_field (v : Z) (b : bool) (c : Context) : Context :=
  mkContext v b (mem c) (s c) (acc c) (caller c) (input c) (call_value c) (prog c) (handlers c)
    (return_data c) (in_static_mode c).
Definition set_mem (m : list Z) (c : Context) : Context :=
  mkContext (pc c) (pc_changed c) m (s c) (acc c) (caller c) (input c) (call_value c) (prog c)
    (handlers c) (return_data c) (in_static_mode c).
Definition set_stack (st : list Z) (c : Context) : Context :=
  mkContext (pc c) (pc_changed c) (mem c) st (acc c) (caller c) (input c) (call_value c) (prog c)
    (handlers c) (return_data c) (in_static_mode c).
Definition set_return_data (d : list Z) (c : Context) : Context :=
  mkContext (pc c) (pc_changed c) (mem c) (s c) (acc c) (caller c) (input c) (call_value c) (prog c)
    (handlers c) d (in_static_mode c).

(** [Context::Context]: every other member has its default. *)
Definition new_context (caller acc : Z) (input : list Z) (call_value : Z) (prog : Program)
    (h : Handlers) (static : bool) : Context :=
  mkContext 0 true [] [] acc caller input call_value prog h [] static.

Definition step_ctx (c : Context) : Context :=
  if pc_changed c then set_pc_field (pc c) false c else set_pc_field (wrap64 (pc c + 1)) false c.
Definition set_pc (v : Z) (c : Context) : Context := set_pc_field v true c.
Definition pc_valid (c : Context) : bool := pc c <? zlen (code (prog c)).
Definition get_used_mem (c : Context) : Z := (zlen (mem c) + WORD_SIZE - 1) / WORD_SIZE.

(** ** Pure helpers *)

Definition get_sign (v : Z) : Z := if Z.shiftr v 255 =? 0 then 1 else -1.
(** [x << n] and [x >> n] of intx, 256-bit or 64-bit count. *)
Definition shl256 (x n : Z) : Z := if 256 <=? n then 0 else wrap256 (Z.shiftl x n).
Definition shr256 (x n : Z) : Z := if 256 <=? n then 0 else Z.shiftr x n.
Definition not256 (x : Z) : Z := Z.lxor x (M256 - 1).
Definition neg256 (x : Z) : Z := wrap256 (0 - x).

(** [copy_mem_raw]: the destination vector it leaves. *)
Definition copy_mem_raw (offDst offSrc size : Z) (dst src : list Z) (pad : Z) : result (list Z) :=
  if size =? 0 then Ok dst
  else
    let lastDst := wrap64 (offDst + size) in
    if lastDst <? offDst then Throw (EvmException outOfBounds)
    else if MAX_MEM_SIZE <? lastDst then Throw (EvmException outOfBounds)
    else
      let dst := if zlen dst <? lastDst then zresize lastDst dst else dst in
      let lastSrc := wrap64 (offSrc + size) in
      let endSrc := Z.min lastSrc (zlen src) in
      let '(dst, remaining) :=
        if offSrc <? endSrc
        then (zwrite offDst (zslice offSrc (endSrc - offSrc) src) dst, lastSrc - endSrc)
        else (dst, size) in
      Ok (zwrite (lastDst - remaining) (replicate (Z.to_nat remaining) pad) dst).

(** [prepare_mem_access]: the memory it leaves. *)
Definition prepare_mem (offset size : Z) (m : list Z) : result (list Z) :=
  let end_ := wrap64 (offset + size) in
  if end_ <? offset then Throw (EvmException outOfBounds)
  else if MAX_MEM_SIZE <? end_ then Throw (EvmException outOfBounds)
  else Ok (if zlen m <? end_ then zresize end_ m else m).

Definition safeAdd (x y : Z) : result Z :=
  let r := wrap64 (x + y) in if r <? x then Throw OverflowError else Ok r.

(** [intx::exp]: square and multiply; an exponent below 2^256 is used up after
    256 turns. *)
Fixpoint exp_loop (fuel : nat) (result base exponent : Z) : Z :=
  match fuel with
  | O => result
  | S fuel =>
      if exponent =? 0 then result
      else
        let result := if negb (Z.land exponent 1 =? 0) then wrap256 (result * base) else result in
        exp_loop fuel result (wrap256 (base * base)) (Z.shiftr exponent 1)
  end.
Definition exp256 (base exponent : Z) : Z :=
  if base =? 2 then shl256 1 exponent else exp_loop 256 1 base exponent.

(** The value each computing instruction pushes, from the values it popped. *)
Definition div_val (x y : Z) : Z := if y =? 0 then 0 else x / y.
Definition sdiv_val (x y : Z) : Z :=
  let min := (M256 - 1) / 2 + 1 in
  if y =? 0 then 0
  (* [y == -1] compares with uint256_t(-1), whose constructor only fills the
     lowest word: 2^64 - 1 *)
  else if (x =? min) && (y =? M64 - 1) then x
  else
    let signX := get_sign x in
    let signY := get_sign y in
    let x := if signX =? -1 then neg256 x else x in
    let y := if signY =? -1 then neg256 y else y in
    let z := x / y in
    if negb (signX =? signY) then neg256 z else z.
Definition mod_val (x m : Z) : Z := if m =? 0 then 0 else x mod m.
Definition smod_val (x m : Z) : Z :=
  if m =? 0 then 0
  else
    let signX := get_sign x in
    let signM := get_sign m in
    let x := if signX =? -1 then neg256 x else x in
    let m := if signM =? -1 then neg256 m else m in
    let z := x mod m in
    if signX =? -1 then neg256 z else z.
Definition addmod_val (x y m : Z) : Z := if m =? 0 then 0 else wrap256 (x + y) mod m.
Definition mulmod_val (x y m : Z) : Z := if m =? 0 then m else wrap256 (x * y) mod m.
Definition signextend_val (x y : Z) : Z :=
  if 32 <=? x then y
  else
    let idx := 8 * Z.land x 255 + 7 in
    let sign := Z.land (shr256 y idx) 1 in
    let mask := shr256 (not256 0) (256 - idx) in
    Z.lor (shl256 (if sign =? 0 then 0 else not256 0) idx) (Z.land y mask).
Definition slt_val (x y : Z) : Z :=
  if x =? y then 0
  else
    let signX := get_sign x in
    let signY := get_sign y in
    if negb (signX =? signY) then (if signX =? -1 then 1 else 0)
    else if x <? y then 1 else 0.
Definition byte_val (idx val : Z) : Z :=
  let shift := 256 - 8 - 8 * Z.land idx 255 in
  let mask := shl256 255 shift in
  shr256 (Z.land val mask) shift.
Definition sar_val (y x : Z) : Z :=
  let is_neg := M64 / 2 <=? (x / 2 ^ 192) mod M64 in
  let sign_mask := if is_neg then not256 0 else 0 in
  let mask_shift := if y <? 256 then 256 - y else 0 in
  Z.lor (shr256 x y) (shl256 sign_mask mask_shift).

(** The loop of [calldataload]: [n] bytes to go, [j] the next position. *)
Fixpoint calldataload_loop (n : nat) (inp : list Z) (v j : Z) : Z :=
  match n with
  | O => v
  | S n' =>
      if j <? zlen inp then calldataload_loop n' inp (wrap256 (shl256 v 8 + znth j inp)) (j + 1)
      else shl256 v (8 * Z.of_nat n)
  end.

(** The immediate of PUSHn at [p]. *)
Fixpoint push_imm (n : nat) (c : list Z) (imm p : Z) : Z :=
  match n with
  | O => imm
  | S n => push_imm n c (Z.lor (shl256 imm 8) (znth p c)) (p + 1)
  end.

(** ** Operations on the machine state *)

Section machine.
Context {St : Type} `{GlobalState St} (env : Env).

Abbreviation EVM := (M (pstate St)).

Definition with_ctxts (l : list Context) (st : pstate St) : pstate St :=
  mkPState (gs st) l (logs st) (selfdestruct_list st) (ticks st) (res st).
Definition with_gs (g : St) (st : pstate St) : pstate St :=
  mkPState g (ctxts st) (logs st) (selfdestruct_list st) (ticks st) (res st).
Definition with_res (r : ExecResult) (st : pstate St) : pstate St :=
  mkPState (gs st) (ctxts st) (logs st) (selfdestruct_list st) (ticks st) r.

(** [*ctxt]; dereferencing the null pointer of an empty stack is undefined. *)
Definition cur : EVM Context := fun st =>
  match ctxts st with
  | c :: _ => (st, Ok c)
  | [] => (st, Undef)
  end.

(** Run an operation on the current context. *)
Definition on_cur {A} (m : M Context A) : EVM A := fun st =>
  match ctxts st with
  | c :: l => let '(c', r) := m c in (with_ctxts (c' :: l) st, r)
  | [] => (st, Undef)
  end.

(** Run an operation on the context a handler captured. *)
Definition on_ctx {A} (i : nat) (m : M Context A) : EVM A := fun st =>
  let p := (length (ctxts st) - 1 - i)%nat in
  match ctxts st !! p with
  | Some c => let '(c', r) := m c in (with_ctxts (<[p := c']> (ctxts st)) st, r)
  | None => (st, Undef)
  end.

Definition on_stack {A} (m : M (list Z) A) : M Context A := zoom s set_stack m.
Definition stk {A} (m : M (list Z) A) : EVM A := on_cur (on_stack m).
Definition world {A} (m : M St A) : EVM A := zoom gs with_gs m.
Definition worldR {A} (f : St -> result A) : EVM A := getsR (fun st => f (gs st)).

Definition s_pop : EVM Z := stk Stack.pop.
Definition s_pop64 : EVM Z := stk Stack.pop64.
Definition s_push (v : Z) : EVM unit := stk (Stack.push v).

Definition get_call_depth : EVM Z := gets (fun st => wrap16 (zlen (ctxts st))).

Definition get_op : EVM Z := c ← cur; mret (znth (pc c) (code (prog c))).

Definition pop_addr : EVM Z := v ← s_pop; mret (Z.land v (2 ^ 160 - 1)).

Definition push_context (caller acc : Z) (input : list Z) (code : list Z) (call_value : Z)
    (h : Handlers) (static : bool) : EVM unit :=
  d ← get_call_depth;
  if MAX_CALL_DEPTH <=? d then throw (EvmException outOfBounds)
  else modify (fun st =>
         with_ctxts (new_context caller acc input call_value (make_program code) h static :: ctxts st) st).

Definition pop_context : EVM unit := modify (fun st => with_ctxts (tail (ctxts st)) st).

Definition prepare_mem_access (offset size : Z) : EVM unit :=
  c ← cur; m ← lift (prepare_mem offset size (mem c)); on_cur (modify (set_mem m)).

Definition copy_from_mem (offset size : Z) : EVM (list Z) :=
  prepare_mem_access offset size ;; c ← cur; mret (zslice offset size (mem c)).

(** [copy_mem(ctxt->mem, src, pad)] *)
Definition copy_mem (src : list Z) (pad : Z) : EVM unit :=
  offDst ← s_pop64; offSrc ← s_pop64; size ← s_pop64;
  c ← cur; m ← lift (copy_mem_raw offDst offSrc size (mem c) src pad);
  on_cur (modify (set_mem m)).

Definition jump_to (newPc : Z) : EVM unit :=
  c ← cur;
  if bool_decide (newPc ∈ jump_dests (prog c)) then on_cur (modify (set_pc newPc))
  else throw (EvmException illegalInstruction).

(** ** Handlers *)

(** [ctxt->rh(output)] *)
Definition run_rh (h : Handlers) (out : list Z) : EVM unit :=
  match h with
  | HRoot => modify (fun st => with_res (mkResult returned (ex (res st)) out) st)
  | HCall p offOut sizeOut =>
      on_ctx p (modify (set_return_data out) ;;
                c ← gets id; m ← lift (copy_mem_raw offOut 0 sizeOut (mem c) out 0);
                modify (set_mem m) ;;
                on_stack (Stack.push 1))
  | HCreate p newAcc =>
      on_ctx p (modify (set_return_data out)) ;;
      if newAcc_alive env then
        world (acc_set_code newAcc out) ;;
        a ← worldR (acc_get_address newAcc);
        on_ctx p (on_stack (Stack.push a))
      else undef
  end.

(** [hh()] *)
Definition run_hh (h : Handlers) : EVM unit :=
  match h with
  | HRoot => modify (fun st => with_res (mkResult halted (ex (res st)) (output (res st))) st)
  | HCall p _ _ => on_ctx p (on_stack (Stack.push 1))
  | HCreate p _ => on_ctx p (on_stack (Stack.push 0))
  end.

(** [ctxt->eh(ex)] *)
Definition run_eh (h : Handlers) (t : evm_exn) : EVM unit :=
  match h with
  | HRoot => modify (fun st => with_res (mkResult threw t (output (res st))) st)
  | HCall p _ _ => on_ctx p (on_stack (Stack.push 0))
  | HCreate p _ => on_ctx p (on_stack (Stack.push 0))
  end.

(** ** Instructions *)

Definition swap (n : Z) : EVM unit := stk (Stack.swap n).
Definition dup (n : Z) : EVM unit := stk (Stack.dup (n - 1)).
Definition add : EVM unit := x ← s_pop; y ← s_pop; s_push (wrap256 (x + y)).
Definition sub : EVM unit := x ← s_pop; y ← s_pop; s_push (wrap256 (x - y)).
Definition mul : EVM unit := x ← s_pop; y ← s_pop; s_push (wrap256 (x * y)).
Definition div_ : EVM unit := x ← s_pop; y ← s_pop; s_push (div_val x y).
Definition sdiv : EVM unit := x ← s_pop; y ← s_pop; s_push (sdiv_val x y).
Definition mod_ : EVM unit := x ← s_pop; m ← s_pop; s_push (mod_val x m).
Definition smod : EVM unit := x ← s_pop; m ← s_pop; s_push (smod_val x m).
Definition addmod : EVM unit := x ← s_pop; y ← s_pop; m ← s_pop; s_push (addmod_val x y m).
Definition mulmod : EVM unit := x ← s_pop; y ← s_pop; m ← s_pop; s_push (mulmod_val x y m).
Definition exp_ : EVM unit := b ← s_pop; e ← s_pop64; s_push (exp256 b e).
Definition signextend : EVM unit := x ← s_pop; y ← s_pop; s_push (signextend_val x y).
Definition lt : EVM unit := x ← s_pop; y ← s_pop; s_push (if x <? y then 1 else 0).
Definition gt : EVM unit := x ← s_pop; y ← s_pop; s_push (if y <? x then 1 else 0).
Definition slt : EVM unit := x ← s_pop; y ← s_pop; s_push (slt_val x y).
Definition sgt : EVM unit := stk (Stack.swap 1) ;; slt.
Definition eq_ : EVM unit := x ← s_pop; y ← s_pop; s_push (if x =? y then 1 else 0).
Definition isZero : EVM unit := x ← s_pop; s_push (if x =? 0 then 1 else 0).
Definition and_ : EVM unit := x ← s_pop; y ← s_pop; s_push (Z.land x y).
Definition or_ : EVM unit := x ← s_pop; y ← s_pop; s_push (Z.lor x y).
Definition xor_ : EVM unit := x ← s_pop; y ← s_pop; s_push (Z.lxor x y).
Definition not_ : EVM unit := x ← s_pop; s_push (not256 x).
(** With an index of 32 or more the value stays on the stack. *)
Definition byte_ : EVM unit :=
  idx ← s_pop; if 32 <=? idx then s_push 0 else v ← s_pop; s_push (byte_val idx v).
Definition shl : EVM unit := shift ← s_pop; value ← s_pop; s_push (shl256 value shift).
Definition shr : EVM unit := shift ← s_pop; value ← s_pop; s_push (shr256 value shift).
Definition sar : EVM unit := y ← s_pop; x ← s_pop; s_push (sar_val y x).
Definition jump : EVM unit := newPc ← s_pop64; jump_to newPc.
Definition jumpi : EVM unit :=
  newPc ← s_pop64; cond ← s_pop; if negb (cond =? 0) then jump_to newPc else mret tt.
Definition jumpdest : EVM unit := mret tt.
Definition pc_ : EVM unit := c ← cur; s_push (pc c).
Definition msize : EVM unit := c ← cur; s_push (get_used_mem c * 32).
Definition mload : EVM unit :=
  offset ← s_pop64; prepare_mem_access offset WORD_SIZE ;;
  c ← cur; v ← lift (Util.from_big_endian (zdrop offset (mem c)) WORD_SIZE); s_push v.
Definition mstore : EVM unit :=
  offset ← s_pop64; word ← s_pop; prepare_mem_access offset WORD_SIZE ;;
  c ← cur; on_cur (modify (set_mem (zwrite offset (Util.to_big_endian word) (mem c)))).
Definition mstore8 : EVM unit :=
  offset ← s_pop64; v ← s_pop; prepare_mem_access offset 1 ;;
  c ← cur; on_cur (modify (set_mem (<[Z.to_nat offset := Z.land v 255]> (mem c)))).
Definition sload : EVM unit :=
  k ← s_pop; c ← cur; v ← world (st_load (acc c) k); s_push v.
Definition sstore : EVM unit :=
  c ← cur;
  if in_static_mode c then throw (EvmException staticModeViolation)
  else
    k ← s_pop; v ← s_pop;
    if v =? 0 then world (st_remove (acc c) k) ;; mret tt else world (st_store (acc c) k v).
Definition codecopy : EVM unit := c ← cur; copy_mem (code (prog c)) 0.
(** [gs.get(pop_addr(ctxt->s)).acc.get_code()] *)
Definition ext_code : EVM (list Z) :=
  a ← pop_addr; world (gs_get a) ;; worldR (acc_get_code a).
Definition extcodesize : EVM unit := c ← ext_code; s_push (zlen c).
Definition extcodecopy : EVM unit := c ← ext_code; copy_mem c 0.
Definition returndatasize : EVM unit := c ← cur; s_push (zlen (return_data c)).
Definition returndatacopy : EVM unit := c ← cur; copy_mem (return_data c) 0.
Definition extcodehash : EVM unit :=
  c ← ext_code; h ← lift (Address.to_uint256_bytes c true); s_push h.
Definition codesize : EVM unit := c ← cur; code ← worldR (acc_get_code (acc c)); s_push (zlen code).
Definition calldataload : EVM unit :=
  offset ← s_pop64; lift (safeAdd offset WORD_SIZE) ;;
  c ← cur; s_push (calldataload_loop 32 (input c) 0 offset).
Definition calldatasize : EVM unit := c ← cur; s_push (zlen (input c)).
Definition calldatacopy : EVM unit := c ← cur; copy_mem (input c) 0.
Definition address : EVM unit := c ← cur; a ← worldR (acc_get_address (acc c)); s_push a.
Definition balance : EVM unit :=
  a ← pop_addr; world (gs_get a) ;; b ← worldR (acc_get_balance a); s_push b.
Definition origin_ : EVM unit := s_push (origin env).
Definition caller_ : EVM unit := c ← cur; s_push (caller c).
Definition callvalue : EVM unit := c ← cur; s_push (call_value c).
Definition push (bytes : Z) : EVM unit :=
  c ← cur;
  let end_ := wrap64 (pc c + bytes) in
  if end_ <? pc c then throw (EvmException outOfBounds)
  else if zlen (code (prog c)) <=? end_ then throw (EvmException outOfBounds)
  else
    s_push (push_imm (Z.to_nat bytes) (code (prog c)) 0 (pc c + 1)) ;;
    on_cur (modify (set_pc (pc c + 1 + bytes))).
Definition pop_ : EVM unit := s_pop ;; mret tt.
Definition log (n : Z) : EVM unit :=
  c ← cur;
  if in_static_mode c then throw (EvmException staticModeViolation)
  else
    offset ← s_pop64; size ← s_pop64; topics ← times (Z.to_nat n) s_pop;
    a ← worldR (acc_get_address (acc c)); data ← copy_from_mem offset size;
    modify (fun st => mkPState (gs st) (ctxts st) (logs st ++ [mkLog a data topics])
                        (selfdestruct_list st) (ticks st) (res st)).
Definition blockhash : EVM unit :=
  i ← s_pop64; if 256 <=? i then s_push 0 else v ← world (gs_get_block_hash (i mod 256)); s_push v.
Definition not_implemented : EVM unit := throw (EvmException notImplemented).
Definition number : EVM unit := not_implemented.
Definition gasprice : EVM unit := s_push (gas_price env).
Definition coinbase : EVM unit := not_implemented.
(** One tick per read of the clock or of uninitialised memory. *)
Definition tick : EVM nat := fun st =>
  (mkPState (gs st) (ctxts st) (logs st) (selfdestruct_list st) (S (ticks st)) (res st), Ok (ticks st)).
Definition timestamp : EVM unit := t ← tick; s_push (wrap64 (now env t)).
Definition prevrandao : EVM unit := not_implemented.
Definition gas : EVM unit := s_push (gas_limit env).
Definition gaslimit : EVM unit := not_implemented.
Definition chanid : EVM unit := not_implemented.
Definition selfbalance : EVM unit := c ← cur; b ← worldR (acc_get_balance (acc c)); s_push b.
Definition basefee : EVM unit := not_implemented.
Definition sha3 : EVM unit :=
  offset ← s_pop64; size ← s_pop64; prepare_mem_access offset size ;;
  c ← cur; h ← lift (Address.to_uint256_bytes (zslice offset size (mem c)) true); s_push h.
Definition return_ : EVM unit :=
  offset ← s_pop64; size ← s_pop64; c ← cur;
  out ← copy_from_mem offset size; run_rh (handlers c) out ;; pop_context.
(** The message of the exception is built from the output first. *)
Definition revert : EVM unit :=
  offset ← s_pop64; size ← s_pop64; out ← copy_from_mem offset size;
  lift (Util.parse_revert out) ;; throw (EvmException revert_).
Definition stop : EVM unit := c ← cur; pop_context ;; run_hh (handlers c).

Definition selfdestruct : EVM unit :=
  c ← cur;
  if in_static_mode c then throw (EvmException staticModeViolation)
  else
    recipient ← pop_addr; world (gs_get recipient) ;;
    b ← worldR (acc_get_balance (acc c));
    world (pay_to (acc c) recipient b) ;;
    a ← worldR (acc_get_address (acc c));
    modify (fun st => mkPState (gs st) (ctxts st) (logs st) (selfdestruct_list st ++ [a])
                        (ticks st) (res st)) ;;
    stop.

(** The position of the current context, as the handlers count it. *)
Definition cur_index : EVM nat := gets (fun st => (length (ctxts st) - 1)%nat).

Definition create_impl (op : Opcode) : EVM unit :=
  c ← cur;
  if in_static_mode c then throw (EvmException staticModeViolation)
  else
    contractValue ← s_pop; offset ← s_pop64; size ← s_pop64;
    initCode ← copy_from_mem offset size;
    a ← worldR (acc_get_address (acc c));
    newAddress ← (if bool_decide (op = CREATE)
                  then n ← worldR (acc_get_nonce (acc c)); lift (Address.generate_address a n)
                  else salt ← s_pop; t ← tick;
                       lift (Address.generate_address_for_create2
                               (fst (junk env t)) (snd (junk env t)) a salt initCode));
    world (gs_create newAddress contractValue []) ;;
    world (pay_to (acc c) newAddress contractValue) ;;
    p ← cur_index;
    push_context a newAddress [] initCode 0 (HCreate p newAddress) false.

(** One case of the switch at the end of [call]: the caller's address is read
    from the context that is current at that point. *)
Definition call_case (callee : Z) (inp : list Z) (value : Z) (h : Handlers) (static : bool) : EVM unit :=
  c ← cur; a ← worldR (acc_get_address (acc c)); code ← worldR (acc_get_code callee);
  push_context a callee inp code value h static.

Definition call (op : Opcode) : EVM unit :=
  s_pop ;;
  addr ← pop_addr;
  value ← (if bool_decide (op = DELEGATECALL) || bool_decide (op = STATICCALL) then mret 0 else s_pop64);
  offIn ← s_pop64; sizeIn ← s_pop64; offOut ← s_pop64; sizeOut ← s_pop64;
  if (1 <=? addr) && (addr <=? 8) then throw (EvmException notImplemented)
  else
    world (gs_get addr) ;;
    c ← cur;
    world (pay_to (acc c) addr value) ;;
    hc ← worldR (has_code addr);
    if negb hc then s_push 1
    else
      prepare_mem_access offOut sizeOut ;;
      inp ← copy_from_mem offIn sizeIn;
      p ← cur_index;
      let h := HCall p offOut sizeOut in
      match op with
      | STATICCALL => call_case addr inp value h true ;; call_case addr inp value h false
      | CALL => call_case addr inp value h false
      | CALLCODE =>
          a ← worldR (acc_get_address (acc c)); code ← worldR (acc_get_code addr);
          push_context a (acc c) inp code value h false
      | DELEGATECALL =>
          code ← worldR (acc_get_code addr);
          push_context (caller c) (acc c) inp code (call_value c) h false
      | _ => throw UnexpectedState
      end.

Definition dispatch_op (op : option Opcode) : EVM unit :=
  match op with
  | Some (PUSH n) => push n
  | Some POP => pop_
  | Some (SWAP n) => swap n
  | Some (DUP n) => dup n
  | Some (LOG n) => log n
  | Some ADD => add | Some MUL => mul | Some SUB => sub | Some DIV => div_ | Some SDIV => sdiv
  | Some MOD => mod_ | Some SMOD => smod | Some ADDMOD => addmod | Some MULMOD => mulmod
  | Some EXP => exp_ | Some SIGNEXTEND => signextend
  | Some LT => lt | Some GT => gt | Some SLT => slt | Some SGT => sgt | Some EQ => eq_
  | Some ISZERO => isZero | Some AND => and_ | Some OR => or_ | Some XOR => xor_ | Some NOT => not_
  | Some BYTE => byte_ | Some SHL => shl | Some SHR => shr | Some SAR => sar
  | Some JUMP => jump | Some JUMPI => jumpi | Some PC => pc_ | Some MSIZE => msize
  | Some MLOAD => mload | Some MSTORE => mstore | Some MSTORE8 => mstore8
  | Some CODESIZE => codesize | Some CODECOPY => codecopy
  | Some EXTCODESIZE => extcodesize | Some EXTCODECOPY => extcodecopy
  | Some RETURNDATASIZE => returndatasize | Some RETURNDATACOPY => returndatacopy
  | Some EXTCODEHASH => extcodehash
  | Some SLOAD => sload | Some SSTORE => sstore
  | Some ADDRESS => address | Some BALANCE => balance | Some ORIGIN => origin_
  | Some CALLER => caller_ | Some CALLVALUE => callvalue
  | Some CALLDATALOAD => calldataload | Some CALLDATASIZE => calldatasize
  | Some CALLDATACOPY => calldatacopy
  | Some RETURN => return_ | Some SELFDESTRUCT => selfdestruct
  | Some CREATE => create_impl CREATE | Some CREATE2 => create_impl CREATE2
  | Some CALL => call CALL | Some CALLCODE => call CALLCODE
  | Some DELEGATECALL => call DELEGATECALL | Some STATICCALL => call STATICCALL
  | Some JUMPDEST => jumpdest | Some BLOCKHASH => blockhash | Some NUMBER => number
  | Some GASPRICE => gasprice | Some COINBASE => coinbase | Some TIMESTAMP => timestamp
  | Some PREVRANDAO => prevrandao | Some GASLIMIT => gaslimit | Some GAS => gas
  | Some CHAINID => chanid | Some SELFBALANCE => selfbalance | Some BASEFEE => basefee
  | Some SHA3 => sha3 | Some STOP => stop | Some INVALID => stop | Some REVERT => revert
  | None => throw (EvmException illegalInstruction)
  end.

Definition dispatch : EVM unit := op ← get_op; dispatch_op (opcode_of op).

(** ** The run loop *)

Definition step : EVM unit := on_cur (modify step_ctx).

(** The catch clause. *)
Definition handle_exception (t : evm_exn) : EVM unit :=
  c ← cur; run_eh (handlers c) t ;; pop_context.

(** One turn of the loop up to the null test: [Ok true] when a context is left. *)
Definition turn : EVM bool := fun st =>
  let '(st, r) := dispatch st in
  let '(st, r) := match r with
                  | Throw (EvmException t) => handle_exception t st
                  | _ => (st, r)
                  end in
  match r with
  | Ok _ => match ctxts st with
            | [] => (st, Ok false)
            | _ => let '(st, _) := step st in (st, Ok true)
            end
  | Throw e => (st, Throw e)
  | Undef => (st, Undef)
  end.

(** The [while] loop; [None] when the fuel runs out. *)
Fixpoint run_loop (fuel : nat) (st : pstate St) : option (pstate St * result unit) :=
  match ctxts st with
  | [] => Some (st, Undef)
  | c :: _ =>
      if pc_valid c then
        match fuel with
        | O => None
        | S fuel =>
            match turn st with
            | (st, Ok true) => run_loop fuel st
            | (st, Ok false) => Some (st, Ok tt)
            | (st, Throw e) => Some (st, Throw e)
            | (st, Undef) => Some (st, Undef)
            end
        end
      else Some (st, Ok tt)
  end.

(** After the loop: halt what is still there, remove the destroyed accounts. *)
Definition finish : EVM ExecResult :=
  l ← gets ctxts;
  (match l with [] => mret tt | _ => stop end) ;;
  dead ← gets selfdestruct_list;
  for_each (fun a => world (gs_remove a)) dead ;;
  gets res.

(** [run] up to the loop: the outermost context. *)
Definition start (caller callee : Z) (inp : list Z) (value : Z) (g : St) : pstate St * result unit :=
  (code ← worldR (acc_get_code callee);
   push_context caller callee inp code value HRoot false)
    (mkPState g [] [] [] 0 (mkResult returned outOfBounds [])).

Definition run (fuel : nat) (caller callee : Z) (inp : list Z) (value : Z) (g : St)
  : option (pstate St * result ExecResult) :=
  match start caller callee inp value g with
  | (st, Ok _) =>
      match run_loop fuel st with
      | Some (st, Ok _) => Some (finish st)
      | Some (st, Throw e) => Some (st, Throw e)
      | Some (st, Undef) => Some (st, Undef)
      | None => None
      end
  | (st, Throw e) => Some (st, Throw e)
  | (st, Undef) => Some (st, Undef)
  end.

End machine.
End Processor.
