(* ===== verification/EvmArith.v ===== *)
(** * The computing instructions

    What the arithmetic, comparison and bit instructions of Processor.v push,
    stated on integers: 256-bit words read as two's complement numbers
    ([to_signed]), truncated division, floor shifts, powers. *)
From S2P Require Import Prelude Bytecode Processor.
From stdpp Require Import list.
Local Open Scope Z_scope.

Module EvmArith.
Import Processor.

Definition M255 : Z := 2 ^ 255.
Definition to_signed (x : Z) : Z := if x <? M255 then x else x - M256.

(** ** Lemmas *)

Lemma M256_M255 : M256 = 2 * M255. Proof. reflexivity. Qed.
Lemma M255_pos : 0 < M255. Proof. reflexivity. Qed.

Lemma get_sign_spec v : u256 v -> get_sign v = if v <? M255 then 1 else -1.
Proof.
  intros [Hv0 Hv1]. unfold get_sign. rewrite Z.shiftr_div_pow2 by lia. fold M255.
  pose proof M255_pos. destruct (Z.ltb_spec v M255).
  - by rewrite Z.div_small by lia.
  - destruct (Z.eqb_spec (v / M255) 0) as [E|]; [|done].
    apply Z.div_small_iff in E; lia.
Qed.

Lemma neg256_spec x : u256 x -> neg256 x = if x =? 0 then 0 else M256 - x.
Proof.
  intros [H0 H1]. unfold neg256, wrap256. zcase; [subst; done|].
  replace (0 - x) with (M256 - x + (-1) * M256) by lia.
  rewrite Z.mod_add, Z.mod_small by (unfold M256 in *; lia). done.
Qed.

Lemma wrap256_neg z : 0 <= z < M256 -> wrap256 (- z) = neg256 z.
Proof. intros H. unfold neg256. f_equal. Qed.

(** The absolute value the signed instructions compute first. *)
Lemma abs_spec x : u256 x ->
  (if get_sign x =? -1 then neg256 x else x) = Z.abs (to_signed x).
Proof.
  intros Hx. rewrite get_sign_spec by done. unfold to_signed. pose proof M256_M255. destruct Hx as [H0 H1].
  destruct (Z.ltb_spec x M255); cbn [Z.eqb Pos.eqb].
  - lia.
  - rewrite neg256_spec by done. pose proof M255_pos. zcase; lia.
Qed.

Lemma sign_neg x : u256 x -> (get_sign x =? -1) = (to_signed x <? 0).
Proof.
  intros Hx. rewrite get_sign_spec by done. unfold to_signed. destruct Hx.
  destruct (Z.ltb_spec x M255); cbn; symmetry; [apply Z.ltb_ge | apply Z.ltb_lt]; lia.
Qed.
Lemma sign_eqb x y : u256 x -> u256 y ->
  (get_sign x =? get_sign y) = Bool.eqb (to_signed x <? 0) (to_signed y <? 0).
Proof.
  intros Hx Hy. rewrite <- !sign_neg by done. rewrite !get_sign_spec by done.
  destruct (x <? M255), (y <? M255); reflexivity.
Qed.
Lemma to_signed_bound x : u256 x -> - M255 <= to_signed x < M255.
Proof. intros [H0 H1]. unfold to_signed. pose proof M256_M255. zcase; lia. Qed.
Lemma to_signed_0 x : u256 x -> to_signed x = 0 <-> x = 0.
Proof. intros [H0 H1]. unfold to_signed. pose proof M255_pos. zcase; lia. Qed.
Lemma wrap_to_signed x : u256 x -> wrap256 (to_signed x) = x.
Proof.
  intros Hx. unfold to_signed. zcase; [by apply wrap256_small|]. unfold wrap256.
  replace (x - M256) with (x + (-1) * M256) by lia. rewrite Z.mod_add by (unfold M256; lia).
  by apply Z.mod_small.
Qed.

Lemma sdiv_general x y : u256 x -> u256 y -> y <> 0 ->
  (let z := Z.abs (to_signed x) / Z.abs (to_signed y) in
   if negb (get_sign x =? get_sign y) then neg256 z else z) =
  wrap256 (Z.quot (to_signed x) (to_signed y)).
Proof.
  intros Hx Hy Hy0. cbv zeta. rewrite sign_eqb by done.
  pose proof (to_signed_bound x Hx) as Bx. pose proof (to_signed_bound y Hy) as By.
  assert (Sy : to_signed y <> 0) by (by rewrite to_signed_0).
  pose proof M256_M255. pose proof M255_pos.
  set (a := to_signed x) in *. set (b := to_signed y) in *. clearbody a b. clear Hx Hy Hy0 x y.
  assert (Hq : 0 <= Z.abs a / Z.abs b < M256).
  { split; [apply Z.div_pos; lia|]. apply Z.div_lt_upper_bound; nia. }
  rewrite (Z.quot_div a b) by done.
  destruct (Z.ltb_spec a 0), (Z.ltb_spec b 0); cbn [Bool.eqb negb].
  - rewrite (Z.sgn_neg a), (Z.sgn_neg b) by done. rewrite wrap256_small by (unfold u256; lia). lia.
  - rewrite (Z.sgn_neg a), (Z.sgn_pos b) by lia. rewrite <- wrap256_neg by done; f_equal; lia.
  - destruct (Z.eq_dec a 0) as [->|].
    + cbn [Z.abs Z.sgn]. rewrite Z.div_0_l by lia. reflexivity.
    + rewrite (Z.sgn_pos a), (Z.sgn_neg b) by lia. rewrite <- wrap256_neg by done; f_equal; lia.
  - destruct (Z.eq_dec a 0) as [->|].
    + cbn [Z.abs Z.sgn]. rewrite Z.div_0_l by lia. reflexivity.
    + rewrite (Z.sgn_pos a), (Z.sgn_pos b) by lia. rewrite wrap256_small by (unfold u256; lia). lia.
Qed.

Lemma smod_general x m : u256 x -> u256 m -> m <> 0 ->
  (let z := Z.abs (to_signed x) mod Z.abs (to_signed m) in
   if get_sign x =? -1 then neg256 z else z) =
  wrap256 (Z.rem (to_signed x) (to_signed m)).
Proof.
  intros Hx Hm Hm0. cbv zeta. rewrite sign_neg by done.
  pose proof (to_signed_bound m Hm) as Bm.
  assert (Sm : to_signed m <> 0) by (by rewrite to_signed_0).
  pose proof M256_M255. pose proof M255_pos.
  set (a := to_signed x) in *. set (b := to_signed m) in *. clearbody a b.
  pose proof (Z.mod_pos_bound (Z.abs a) (Z.abs b) ltac:(lia)) as Hz.
  rewrite (Z.rem_mod a b) by done.
  assert (Ha0 : a = 0 -> Z.abs a mod Z.abs b = 0) by (intros ->; by rewrite Z.mod_0_l by lia).
  set (z := Z.abs a mod Z.abs b) in *. clearbody z. destruct (Z.ltb_spec a 0).
  - rewrite (Z.sgn_neg a) by done. rewrite <- wrap256_neg by lia; f_equal; lia.
  - destruct (Z.eq_dec a 0) as [->|].
    + rewrite Ha0 by done. reflexivity.
    + rewrite (Z.sgn_pos a) by lia. rewrite wrap256_small by (unfold u256; lia). lia.
Qed.

(** Bits. *)
Lemma not256_0 : not256 0 = M256 - 1. Proof. reflexivity. Qed.
Lemma land_low x k : 0 <= k -> Z.land x (2 ^ k - 1) = x mod 2 ^ k.
Proof. intros Hk. rewrite <- Z.land_ones by done. f_equal. rewrite Z.ones_equiv. lia. Qed.
Lemma land_255 x : 0 <= x < 256 -> Z.land x 255 = x.
Proof. intros H. change 255 with (2 ^ 8 - 1). rewrite land_low by lia. by apply Z.mod_small. Qed.
Lemma shr256_spec x n : u256 x -> 0 <= n -> shr256 x n = x / 2 ^ n.
Proof.
  intros [H0 H1] Hn. unfold shr256. zcase.
  - symmetry. apply Z.div_small. split; [done|]. apply (Z.lt_le_trans _ _ _ H1).
    apply Z.pow_le_mono_r; lia.
  - by apply Z.shiftr_div_pow2.
Qed.
Lemma shl256_spec x n : 0 <= n -> shl256 x n = wrap256 (x * 2 ^ n).
Proof.
  intros Hn. unfold shl256. zcase; [|by rewrite Z.shiftl_mul_pow2].
  unfold wrap256, M256. symmetry. apply Z.mod_divide; [lia|].
  apply Z.divide_mul_r. exists (2 ^ (n - 256)). rewrite <- Z.pow_add_r by lia. f_equal. lia.
Qed.

(** Ones above bit [k]: the sign mask of SIGNEXTEND and SAR. *)
Lemma ones_above k : 0 <= k <= 256 -> wrap256 ((M256 - 1) * 2 ^ k) = M256 - 2 ^ k.
Proof.
  intros Hk. unfold wrap256. replace ((M256 - 1) * 2 ^ k) with (- 2 ^ k + 2 ^ k * M256) by ring.
  rewrite Z.mod_add by (unfold M256; lia).
  assert (0 < 2 ^ k <= M256).
  { split; [apply Z.pow_pos_nonneg; lia|]. apply Z.pow_le_mono_r; lia. }
  destruct (Z.eq_dec (2 ^ k) M256) as [E|].
  - rewrite E. rewrite Z.sub_diag. replace (- M256) with (0 + (-1) * M256) by lia.
    by rewrite Z.mod_add by (unfold M256; lia).
  - replace (- 2 ^ k) with (M256 - 2 ^ k + (-1) * M256) by lia.
    rewrite Z.mod_add, Z.mod_small by (unfold M256 in *; lia). done.
Qed.

Lemma M256_split k : 0 <= k <= 256 -> M256 - 2 ^ k = (2 ^ (256 - k) - 1) * 2 ^ k.
Proof.
  intros Hk. unfold M256. replace 256 with (256 - k + k) at 1 by lia.
  rewrite Z.pow_add_r by lia. ring.
Qed.

Lemma exp_loop_spec fuel : forall r b e, 0 <= e < 2 ^ Z.of_nat fuel ->
  wrap256 (exp_loop fuel r b e) = wrap256 (r * b ^ e).
Proof.
  induction fuel as [|fuel IH]; intros r b e He; cbn [exp_loop].
  - replace e with 0 by (cbn in He; lia). by rewrite Z.pow_0_r, Z.mul_1_r.
  - zcase; [subst; by rewrite Z.pow_0_r, Z.mul_1_r|].
    rewrite Nat2Z.inj_succ, Z.pow_succ_r in He by lia.
    assert (Hsh : Z.shiftr e 1 = e / 2) by (by rewrite Z.shiftr_div_pow2).
    rewrite Hsh, IH by (split; [apply Z.div_pos | apply Z.div_lt_upper_bound]; lia).
    change 1 with (2 ^ 1 - 1) at 1. rewrite land_low by lia. change (2 ^ 1) with 2.
    pose proof (Z.div_mod e 2 ltac:(lia)) as Hdm. pose proof (Z.mod_pos_bound e 2 ltac:(lia)) as Hmb.
    assert (Hq : 0 <= e / 2) by (apply Z.div_pos; lia).
    assert (Hpow : (wrap256 (b * b)) ^ (e / 2) mod M256 = b ^ (2 * (e / 2)) mod M256).
    { unfold wrap256. rewrite Z.mod_pow_l, (Z.pow_mul_r b), Z.pow_2_r by lia. done. }
    unfold wrap256 in *. destruct (Z.eqb_spec (e mod 2) 0) as [E|E]; cbn [negb].
    + rewrite Z.mul_mod, Hpow, <- Z.mul_mod by (unfold M256; lia). do 3 f_equal. lia.
    + rewrite Z.mul_mod, Z.mod_mod, Hpow, <- Z.mul_mod by (unfold M256; lia).
      replace e with (2 * (e / 2) + 1) at 2 by lia.
      rewrite Z.pow_add_r, Z.pow_1_r by lia. f_equal. ring.
Qed.

Lemma exp_loop_u256 fuel : forall r b e, u256 r -> u256 (exp_loop fuel r b e).
Proof.
  induction fuel as [|fuel IH]; intros r b e Hr; cbn [exp_loop]; [done|].
  zcase; [done|]. apply IH. destruct (negb _); auto with mach.
Qed.

(** The two halves of a sign-extended word do not overlap. *)
Lemma sign_fill k low (neg : bool) : 0 <= k <= 256 -> 0 <= low < 2 ^ k ->
  Z.lor (if neg then M256 - 2 ^ k else 0) low = wrap256 (if neg then low - 2 ^ k else low).
Proof.
  intros Hk Hlow. assert (Hle : 2 ^ k <= M256) by (apply Z.pow_le_mono_r; lia). destruct neg.
  - rewrite M256_split, lor_low, <- M256_split by lia. unfold wrap256.
    replace (low - 2 ^ k) with (M256 - 2 ^ k + low + (-1) * M256) by lia.
    rewrite Z.mod_add, Z.mod_small by (unfold M256 in *; lia). done.
  - rewrite Z.lor_0_l, wrap256_small by (unfold u256; lia). done.
Qed.

Lemma mask_low k : 0 <= k <= 256 -> shr256 (not256 0) (256 - k) = 2 ^ k - 1.
Proof.
  intros Hk. rewrite not256_0, shr256_spec by (lia || (split; [discriminate | reflexivity])).
  unfold M256. replace 256 with (k + (256 - k)) at 1 by lia. rewrite Z.pow_add_r by lia.
  assert (0 < 2 ^ (256 - k)) by (apply Z.pow_pos_nonneg; lia).
  replace (2 ^ k * 2 ^ (256 - k) - 1) with ((2 ^ k - 1) * 2 ^ (256 - k) + (2 ^ (256 - k) - 1)) by ring.
  rewrite Z.div_add_l, Z.div_small by lia. lia.
Qed.

Lemma top_bit x : u256 x -> (M64 / 2 <=? (x / 2 ^ 192) mod M64) = negb (x <? M255).
Proof.
  intros [H0 H1]. change (M64 / 2) with (2 ^ 63).
  rewrite Z.mod_small by (split; [apply Z.div_pos; lia | apply Z.div_lt_upper_bound; [lia | exact H1]]).
  destruct (Z.ltb_spec x M255) as [Hx|Hx]; cbn [negb].
  - apply Z.leb_gt, Z.div_lt_upper_bound; [lia | exact Hx].
  - apply Z.leb_le, Z.div_le_lower_bound; [lia | exact Hx].
Qed.

Lemma signextend_val_spec x y : u256 x -> u256 y ->
  signextend_val x y =
    (if 32 <=? x then y
     else let b := 8 * (x + 1) in
          let v := y mod 2 ^ b in
          wrap256 (if v <? 2 ^ (b - 1) then v else v - 2 ^ b)).
Proof.
  intros Hx Hy.
  unfold signextend_val. zcase; [done|]. destruct Hx as [Hx0 _].
  rewrite (land_255 x) by lia. cbv zeta. set (k := 8 * x + 7).
  replace (8 * (x + 1)) with (k + 1) by lia. replace (k + 1 - 1) with k by lia.
  rewrite mask_low, land_low, shr256_spec by (done || lia).
  change 1 with (2 ^ 1 - 1) at 1. rewrite land_low by lia. change (2 ^ 1) with 2.
  rewrite shl256_spec by lia.
  assert (Hp : 0 < 2 ^ k) by (apply Z.pow_pos_nonneg; lia).
  pose proof (Z.mod_pos_bound y (2 ^ k) Hp) as Hlow.
  pose proof (Z.mod_pos_bound (y / 2 ^ k) 2 ltac:(lia)) as Hbit.
  assert (Hv : y mod 2 ^ (k + 1) = y mod 2 ^ k + 2 ^ k * ((y / 2 ^ k) mod 2)).
  { rewrite Z.pow_add_r, Z.rem_mul_r by lia. change (2 ^ 1) with 2. done. }
  rewrite Hv, Z.pow_add_r by lia. change (2 ^ 1) with 2.
  destruct (Z.eqb_spec ((y / 2 ^ k) mod 2) 0) as [E|E].
  + rewrite Z.mul_0_l. change (wrap256 0) with 0.
    pose proof (sign_fill k (y mod 2 ^ k) false ltac:(lia) Hlow) as Hf. cbn [Z.lor] in Hf. rewrite E.
    rewrite Hf. f_equal. destruct (Z.ltb_spec (y mod 2 ^ k + 2 ^ k * 0) (2 ^ k)); lia.
  + assert ((y / 2 ^ k) mod 2 = 1) as -> by lia. rewrite not256_0, ones_above by lia.
    rewrite (sign_fill k (y mod 2 ^ k) true) by lia. f_equal.
    destruct (Z.ltb_spec (y mod 2 ^ k + 2 ^ k * 1) (2 ^ k)); lia.
Qed.

Lemma sar_val_spec x y : u256 x -> u256 y -> sar_val y x = wrap256 (to_signed x / 2 ^ y).
Proof.
  intros Hx Hy.
  unfold sar_val. rewrite top_bit, shr256_spec by (done || apply Hy). unfold to_signed.
  destruct Hy as [Hy0 _]. destruct Hx as [Hx0 Hx1].
  assert (Hp : 0 < 2 ^ y) by (apply Z.pow_pos_nonneg; lia).
  destruct (Z.ltb_spec y 256) as [Hy|Hy].
  + rewrite shl256_spec by lia.
    assert (Hlow : 0 <= x / 2 ^ y < 2 ^ (256 - y)).
    { split; [apply Z.div_pos; lia|]. apply Z.div_lt_upper_bound; [done|].
      rewrite <- Z.pow_add_r by lia. replace (y + (256 - y)) with 256 by lia. exact Hx1. }
    rewrite Z.lor_comm. destruct (Z.ltb_spec x M255); cbn [negb].
    * rewrite Z.mul_0_l. apply (sign_fill (256 - y) _ false); lia || done.
    * rewrite not256_0, ones_above by lia. rewrite (sign_fill (256 - y) _ true) by (done || lia).
      f_equal. unfold M256. replace 256 with (256 - y + y) at 2 by lia. rewrite Z.pow_add_r by lia.
      replace (x - 2 ^ (256 - y) * 2 ^ y) with (x + (- 2 ^ (256 - y)) * 2 ^ y) by ring.
      rewrite Z.div_add by lia. lia.
  + rewrite (Z.div_small x) by (split; [done|]; apply (Z.lt_le_trans _ _ _ Hx1); apply Z.pow_le_mono_r; lia).
    rewrite Z.lor_0_l, shl256_spec by lia. rewrite Z.pow_0_r, Z.mul_1_r.
    assert (Hbig : M256 <= 2 ^ y) by (apply Z.pow_le_mono_r; lia).
    destruct (Z.ltb_spec x M255) as [Hx|Hx]; cbn [negb].
    * f_equal. rewrite Z.div_small; lia.
    * pose proof M256_M255. pose proof M255_pos.
      replace (x - M256) with ((-1) * 2 ^ y + (2 ^ y + x - M256)) by lia.
      rewrite Z.div_add_l, Z.div_small by lia. reflexivity.
Qed.

(** ** Properties *)

(** SDIV pushes the truncated quotient of the two's complement values (0 for
    a zero divisor), except on one pair of operands: -2^255 divided by
    2^64 - 1 returns -2^255, because the test for the overflow case compares
    the divisor with 2^64 - 1 instead of -1. *)
Theorem sdiv_spec x y : u256 x -> u256 y ->
  sdiv_val x y =
  if y =? 0 then 0
  else if (x =? M255) && (y =? M64 - 1) then M255
  else wrap256 (Z.quot (to_signed x) (to_signed y)).
Proof.
  intros Hx Hy. unfold sdiv_val. change ((M256 - 1) / 2 + 1) with M255.
  destruct (Z.eqb_spec y 0); [done|].
  destruct ((x =? M255) && (y =? M64 - 1)) eqn:E; [lia|].
  rewrite (abs_spec x), (abs_spec y) by done. by apply sdiv_general.
Qed.

Lemma sdiv_spec_witness :
  sdiv_val (M256 - 7) 2 = wrap256 (-3) /\
  sdiv_val M255 (M64 - 1) = M255 /\ Z.quot (to_signed M255) (M64 - 1) <> to_signed M255.
Proof.
  split; [|split].
  - rewrite sdiv_spec; [reflexivity | split; [discriminate | reflexivity] | split; [lia | reflexivity]].
  - rewrite sdiv_spec; [reflexivity | split; [discriminate | reflexivity] | split; [discriminate | reflexivity]].
  - vm_compute. discriminate.
Defined.

(** SMOD, SLT and BYTE: the remainder with the dividend's sign, the signed
    order, and the byte at a big-endian index. *)
Theorem smod_slt_byte_spec x y : u256 x -> u256 y ->
  smod_val x y = (if y =? 0 then 0 else wrap256 (Z.rem (to_signed x) (to_signed y))) /\
  slt_val x y = (if to_signed x <? to_signed y then 1 else 0) /\
  (x < 32 -> byte_val x y = (y / 256 ^ (31 - x)) mod 256).
Proof.
  intros Hx Hy. split; [|split].
  - unfold smod_val. destruct (Z.eqb_spec y 0); [done|].
    rewrite (abs_spec x), (abs_spec y) by done. by apply smod_general.
  - unfold slt_val. rewrite sign_eqb, sign_neg by done. pose proof M256_M255.
    destruct Hx, Hy. unfold to_signed.
    destruct (Z.eqb_spec x y) as [->|]; [by rewrite Z.ltb_irrefl|].
    destruct (Z.ltb_spec x M255), (Z.ltb_spec y M255);
      repeat match goal with |- context [?a <? ?b] => destruct (Z.ltb_spec a b) end;
      cbn; try lia; done.
  - intros Hlt. destruct Hx as [Hx0 _]. unfold byte_val.
    rewrite (land_255 x) by lia. set (n := 256 - 8 - 8 * x).
    rewrite shl256_spec by lia.
    assert (Hp : 256 ^ (31 - x) = 2 ^ n).
    { change 256 with (2 ^ 8). rewrite <- Z.pow_mul_r by lia. f_equal. lia. }
    assert (H255 : 255 * 2 ^ n < M256).
    { apply Z.lt_le_trans with (2 ^ 8 * 2 ^ n); [|rewrite <- Z.pow_add_r by lia; apply Z.pow_le_mono_r; lia].
      assert (0 < 2 ^ n) by (apply Z.pow_pos_nonneg; lia). lia. }
    rewrite wrap256_small by (unfold u256; assert (0 < 2 ^ n) by (apply Z.pow_pos_nonneg; lia); lia).
    unfold shr256. zcase; [lia|].
    rewrite Z.shiftr_land, <- Z.shiftl_mul_pow2, Z.shiftr_shiftl_l, Z.sub_diag, Z.shiftl_0_r by lia.
    change 255 with (2 ^ 8 - 1). rewrite land_low, Z.shiftr_div_pow2, Hp by lia. done.
Qed.

Lemma smod_slt_byte_spec_witness :
  smod_val (M256 - 7) 3 = wrap256 (-1) /\ slt_val (M256 - 1) 0 = 1 /\ byte_val 30 0x1234 = 0x12.
Proof.
  assert (H1 : u256 (M256 - 7)) by (split; [discriminate | reflexivity]).
  assert (H2 : u256 (M256 - 1)) by (split; [discriminate | reflexivity]).
  assert (H3 : u256 3) by (split; [lia | reflexivity]).
  split; [|split].
  - rewrite (proj1 (smod_slt_byte_spec _ _ H1 H3)). reflexivity.
  - rewrite (proj1 (proj2 (smod_slt_byte_spec _ _ H2 u256_0))). reflexivity.
  - rewrite (proj2 (proj2 (smod_slt_byte_spec 30 0x1234 ltac:(split; [lia | reflexivity]) ltac:(split; [lia | reflexivity])))) by lia.
    reflexivity.
Defined.

(** SIGNEXTEND reads the low x+1 bytes of y as a signed number, and SAR is
    the floor division by 2^y of the signed value, for every shift count. *)
Theorem signextend_sar_spec x y : u256 x -> u256 y ->
  signextend_val x y =
    (if 32 <=? x then y
     else let b := 8 * (x + 1) in
          let v := y mod 2 ^ b in
          wrap256 (if v <? 2 ^ (b - 1) then v else v - 2 ^ b)) /\
  sar_val y x = wrap256 (to_signed x / 2 ^ y).
Proof. intros Hx Hy. split; [by apply signextend_val_spec | by apply sar_val_spec]. Qed.

Lemma signextend_sar_spec_witness :
  signextend_val 0 0xff = wrap256 (-1) /\ sar_val 4 (M256 - 0x100) = wrap256 (-0x10).
Proof.
  split.
  - rewrite (proj1 (signextend_sar_spec 0 0xff u256_0 ltac:(split; [lia | reflexivity]))). reflexivity.
  - rewrite (proj2 (signextend_sar_spec (M256 - 0x100) 4 ltac:(split; [discriminate | reflexivity])
                      ltac:(split; [lia | reflexivity]))). reflexivity.
Defined.

(** EXP is exponentiation modulo 2^256: the square-and-multiply loop uses up
    any 256-bit exponent within its 256 turns. *)
Theorem exp256_spec b e : u256 b -> u256 e -> exp256 b e = b ^ e mod 2 ^ 256.
Proof.
  intros Hb He. unfold exp256. destruct (Z.eqb_spec b 2) as [->|].
  - rewrite shl256_spec by apply He. unfold wrap256. by rewrite Z.mul_1_l.
  - rewrite <- (wrap256_small (exp_loop 256 1 b e)) by (apply exp_loop_u256, u256_1).
    rewrite exp_loop_spec by exact He. unfold wrap256. by rewrite Z.mul_1_l.
Qed.

Lemma exp256_spec_witness : exp256 3 300 = 3 ^ 300 mod 2 ^ 256.
Proof. apply exp256_spec; split; lia || reflexivity. Defined.

(** ADDMOD and MULMOD reduce the sum or product modulo 2^256 before reducing
    it modulo m: they agree with the exact result when it fits 256 bits, and
    there are operands on which each of them is wrong. *)
Theorem addmod_mulmod_spec x y m : u256 x -> u256 y -> 0 < m ->
  (x + y < M256 -> addmod_val x y m = (x + y) mod m) /\
  (x * y < M256 -> mulmod_val x y m = (x * y) mod m) /\
  addmod_val M255 M255 3 <> (M255 + M255) mod 3 /\
  mulmod_val M255 2 3 <> (M255 * 2) mod 3.
Proof.
  intros [Hx0 _] [Hy0 _] Hm. unfold addmod_val, mulmod_val.
  destruct (Z.eqb_spec m 0); [lia|]. split; [|split; [|split; vm_compute; discriminate]].
  - intros H. rewrite wrap256_small; [done | unfold u256; lia].
  - intros H. rewrite wrap256_small; [done | unfold u256; nia].
Qed.

Lemma addmod_mulmod_spec_witness : addmod_val 10 20 7 = 2.
Proof.
  rewrite (proj1 (addmod_mulmod_spec 10 20 7 ltac:(split; [lia | reflexivity])
                    ltac:(split; [lia | reflexivity]) ltac:(lia))) by reflexivity.
  reflexivity.
Defined.

End EvmArith.
