(* ===== verification/EvmMemory.v ===== *)
(** * Memory, call data and immediates

    What the byte-moving helpers of Processor.v do: [copy_mem_raw] (CODECOPY,
    EXTCODECOPY, CALLDATACOPY, RETURNDATACOPY and the output of a call),
    [prepare_mem] with MLOAD and MSTORE, [calldataload_loop] and [push_imm]. *)
From S2P Require Import Prelude Util Bytecode Processor EvmArith.
From stdpp Require Import list.
Local Open Scope Z_scope.

Module EvmMemory.
Import Processor.

(** Byte [i] of [l] padded with [pad] on the right. *)
Definition padded (l : list Z) (pad i : Z) : Z := if i <? zlen l then znth i l else pad.

(** The [n] bytes of [l] from [off] on, zero-padded. *)
Definition window (l : list Z) (off : Z) (n : nat) : list Z :=
  map (fun k => padded l 0 (off + Z.of_nat k)) (seq 0 n).

(** ** Lemmas *)

Lemma wrap64_add a b : u64 a -> u64 b ->
  wrap64 (a + b) = a + b /\ a + b < M64 \/ wrap64 (a + b) = a + b - M64 /\ M64 <= a + b.
Proof.
  intros [Ha0 Ha1] [Hb0 Hb1]. unfold wrap64. destruct (Z.lt_ge_cases (a + b) M64).
  - left. rewrite Z.mod_small; lia.
  - right. replace (a + b) with (a + b - M64 + 1 * M64) at 1 by lia.
    rewrite Z.mod_add, Z.mod_small; unfold M64 in *; lia.
Qed.

(** The test "end < offset" of both helpers catches exactly the wrap-around. *)
Lemma range_check off size : u64 off -> u64 size ->
  (wrap64 (off + size) <? off) || (MAX_MEM_SIZE <? wrap64 (off + size)) = (MAX_MEM_SIZE <? off + size).
Proof.
  intros Ho Hs. destruct (wrap64_add off size Ho Hs) as [[-> H]|[-> H]]; destruct Ho, Hs.
  - destruct (Z.ltb_spec (off + size) off); [lia | done].
  - destruct (Z.ltb_spec (off + size - M64) off); [|lia]. cbn. symmetry. apply Z.ltb_lt.
    unfold MAX_MEM_SIZE, M64 in *. lia.
Qed.

Lemma prepare_mem_spec off size m : u64 off -> u64 size ->
  prepare_mem off size m =
  if MAX_MEM_SIZE <? off + size then Throw (EvmException outOfBounds)
  else Ok (if zlen m <? off + size then zresize (off + size) m else m).
Proof.
  intros Ho Hs. pose proof (range_check off size Ho Hs) as Hc. unfold prepare_mem.
  destruct (Z.ltb_spec MAX_MEM_SIZE (off + size)) as [Hm|Hm].
  - apply orb_true_iff in Hc as [-> | ->]; [done|]. by destruct (_ <? _).
  - apply orb_false_iff in Hc as [-> ->].
    destruct (wrap64_add off size Ho Hs) as [[-> _]|[_ H]]; [done|].
    unfold MAX_MEM_SIZE, M64 in *. lia.
Qed.

Lemma prepare_mem_ok off size m m' : u64 off -> u64 size -> prepare_mem off size m = Ok m' ->
  off + size <= MAX_MEM_SIZE /\ zlen m' = Z.max (zlen m) (off + size) /\
  (forall i, 0 <= i -> znth i m' = znth i m) /\ (bytes_ok m -> bytes_ok m').
Proof.
  intros Ho Hs. rewrite prepare_mem_spec by done.
  destruct (Z.ltb_spec MAX_MEM_SIZE (off + size)); [done|]. intros [= <-]. destruct Ho, Hs.
  split; [lia|]. destruct (Z.ltb_spec (zlen m) (off + size)).
  - rewrite zlen_zresize by lia. split; [lia|].
    split; [intros i Hi; apply znth_zresize; lia | apply bytes_ok_resize].
  - split; [lia|]. done.
Qed.

(** The destination after the size check. *)
Lemma copy_written off n src offSrc size dst pad : 0 <= off -> 0 <= offSrc -> 0 < size ->
  off + size <= zlen dst -> 0 <= n <= size ->
  (forall j, 0 <= j < n -> offSrc + j < zlen src) -> (forall j, n <= j < size -> zlen src <= offSrc + j) ->
  forall i, 0 <= i ->
  znth i (zwrite (off + size - (size - n)) (replicate (Z.to_nat (size - n)) pad)
            (zwrite off (zslice offSrc n src) dst)) =
  if (off <=? i) && (i <? off + size) then padded src pad (offSrc + (i - off)) else znth i dst.
Proof.
  intros Ho Hos Hs Hl Hn Hin Hout i Hi.
  assert (Hsl : zlen (zslice offSrc n src) = n).
  { destruct (Z.eq_dec n 0) as [->|]; [done|]. apply zlen_zslice; [lia | lia |].
    specialize (Hin (n - 1)). lia. }
  assert (Hr : zlen (replicate (Z.to_nat (size - n)) pad) = size - n) by (rewrite length_replicate; lia).
  rewrite znth_zwrite by (try done; rewrite ?Hr, ?zlen_zwrite; lia). rewrite Hr.
  replace (off + size - (size - n)) with (off + n) by lia. unfold padded.
  destruct ((off + n <=? i) && (i <? off + n + (size - n))) eqn:E1.
  - rewrite znth_replicate by lia. destruct ((off <=? i) && (i <? off + size)) eqn:E2; [|lia].
    specialize (Hout (i - off)). zcase; [lia | done].
  - rewrite znth_zwrite, Hsl by (try done; lia).
    destruct ((off <=? i) && (i <? off + n)) eqn:E2.
    + rewrite znth_zslice by lia. specialize (Hin (i - off)).
      destruct ((off <=? i) && (i <? off + size)) eqn:E3; [|lia]. zcase; [done | lia].
    + destruct ((off <=? i) && (i <? off + size)) eqn:E3; [lia | done].
Qed.

Lemma copy_mem_raw_general offDst offSrc size dst src pad :
  u64 offDst -> u64 offSrc -> u64 size -> size <> 0 -> zlen src < 2 ^ 63 ->
  match copy_mem_raw offDst offSrc size dst src pad with
  | Ok m =>
      offDst + size <= MAX_MEM_SIZE /\ zlen m = Z.max (zlen dst) (offDst + size) /\
      forall i, 0 <= i -> znth i m =
        if (offDst <=? i) && (i <? offDst + size) then padded src pad (offSrc + (i - offDst)) else znth i dst
  | Throw e => e = EvmException outOfBounds /\ MAX_MEM_SIZE < offDst + size
  | Undef => False
  end.
Proof.
  intros Hd Hs Hz H0 Hsrc. unfold copy_mem_raw. destruct (Z.eqb_spec size 0) as [|_]; [done|].
  pose proof (range_check offDst size Hd Hz) as Hc.
  destruct (Z.ltb_spec MAX_MEM_SIZE (offDst + size)) as [Hm|Hm].
  { apply orb_true_iff in Hc as [-> | ->]; [done|]. by destruct (_ <? _). }
  apply orb_false_iff in Hc as [-> ->].
  destruct (wrap64_add offDst size Hd Hz) as [[-> _]|[_ H]]; [|unfold MAX_MEM_SIZE, M64 in *; lia].
  destruct Hd as [Hd0 _]. destruct Hz as [Hz0 Hz1]. pose proof Hs as [Hs0 Hs1].
  set (d := if zlen dst <? offDst + size then zresize (offDst + size) dst else dst).
  assert (Hdl : zlen d = Z.max (zlen dst) (offDst + size)).
  { subst d. zcase; [rewrite zlen_zresize; lia | lia]. }
  assert (Hdn : forall i, 0 <= i -> znth i d = znth i dst).
  { intros i Hi. subst d. zcase; [apply znth_zresize; lia | done]. }
  clearbody d.
  set (n := Z.max 0 (Z.min size (zlen src - offSrc))).
  assert (Hfinal : (let '(dst, remaining) :=
      if offSrc <? Z.min (wrap64 (offSrc + size)) (zlen src)
      then (zwrite offDst (zslice offSrc (Z.min (wrap64 (offSrc + size)) (zlen src) - offSrc) src) d,
            wrap64 (offSrc + size) - Z.min (wrap64 (offSrc + size)) (zlen src))
      else (d, size) in
      zwrite (offDst + size - remaining) (replicate (Z.to_nat remaining) pad) dst) =
      zwrite (offDst + size - (size - n)) (replicate (Z.to_nat (size - n)) pad)
            (zwrite offDst (zslice offSrc n src) d)).
  { destruct (wrap64_add offSrc size Hs (conj Hz0 Hz1)) as [[-> Hw]|[-> Hw]].
    - destruct (Z.ltb_spec offSrc (Z.min (offSrc + size) (zlen src))).
      + replace (Z.min (offSrc + size) (zlen src) - offSrc) with n by lia.
        replace (offSrc + size - Z.min (offSrc + size) (zlen src)) with (size - n) by lia. done.
      + replace n with 0 by lia. rewrite Z.sub_0_r. done.
    - destruct (Z.ltb_spec offSrc (Z.min (offSrc + size - M64) (zlen src))); [lia|].
      replace n with 0 by (unfold M64, MAX_MEM_SIZE in *; lia). rewrite Z.sub_0_r. done. }
  destruct (if offSrc <? _ then _ else _) as [d' rem]. rewrite Hfinal.
  split; [lia|]. split; [by rewrite !zlen_zwrite|].
  intros i Hi. rewrite (copy_written offDst n src offSrc size d pad) by lia. by rewrite Hdn.
Qed.

Lemma be_val_step v b : u8 b -> 0 <= v -> v * 256 + b < M256 -> wrap256 (shl256 v 8 + b) = v * 256 + b.
Proof.
  intros [Hb0 _] Hv Hlt. rewrite EvmArith.shl256_spec by lia. change (2 ^ 8) with 256.
  rewrite (wrap256_small (v * 256)), wrap256_small by (unfold u256; lia). done.
Qed.

Lemma window_S l off n : window l off (S n) = padded l 0 off :: window l (off + 1) n.
Proof.
  unfold window. cbn [seq map]. rewrite Z.add_0_r. f_equal.
  rewrite <- seq_shift, map_map. apply map_ext. intros k. f_equal. lia.
Qed.
Lemma length_window l off n : length (window l off n) = n.
Proof. unfold window. by rewrite length_map, length_seq. Qed.
Lemma padded_u8 l i : bytes_ok l -> u8 (padded l 0 i).
Proof. intros H. unfold padded. zcase; [by apply bytes_ok_nth | split; [lia | reflexivity]]. Qed.
Lemma window_ok l off n : bytes_ok l -> bytes_ok (window l off n).
Proof.
  intros H. apply List.Forall_forall. intros b Hb. unfold window in Hb.
  apply in_map_iff in Hb as (k & <- & _). by apply padded_u8.
Qed.
Lemma window_beyond l off n : zlen l <= off -> window l off n = replicate n 0.
Proof.
  revert off; induction n as [|n IH]; intros off H; [done|]. rewrite window_S, IH by lia.
  unfold padded. zcase; [lia | done].
Qed.

Lemma pow256_le n : 0 <= n <= 32 -> 0 < 256 ^ n <= M256.
Proof.
  intros Hn. split; [apply Z.pow_pos_nonneg; lia|]. unfold M256. change (2 ^ 256) with (256 ^ 32).
  apply Z.pow_le_mono_r; lia.
Qed.
(** Shifting in [n] more bytes stays below 2^256 when 32 - n bytes were read. *)
Lemma room v n : (n <= 32)%nat -> 0 <= v < 256 ^ (32 - Z.of_nat n) -> 0 <= v * 256 ^ Z.of_nat n < M256.
Proof.
  intros Hn Hv. pose proof (pow256_le (Z.of_nat n) ltac:(lia)).
  assert (M256 = 256 ^ (32 - Z.of_nat n) * 256 ^ Z.of_nat n).
  { rewrite <- Z.pow_add_r by lia. replace (32 - Z.of_nat n + Z.of_nat n) with 32 by lia. reflexivity. }
  nia.
Qed.
Lemma pow256_S n : (S n <= 32)%nat -> 256 ^ (32 - Z.of_nat n) = 256 ^ (32 - Z.of_nat (S n)) * 256.
Proof.
  intros Hn. replace (32 - Z.of_nat n) with (Z.succ (32 - Z.of_nat (S n))) by lia.
  rewrite Z.pow_succ_r by lia. lia.
Qed.

Lemma calldataload_loop_spec inp n : bytes_ok inp -> (n <= 32)%nat -> forall v j, 0 <= j ->
  0 <= v < 256 ^ (32 - Z.of_nat n) ->
  calldataload_loop n inp v j = v * 256 ^ Z.of_nat n + be_val (window inp j n).
Proof.
  intros Hok. induction n as [|n IH]; intros Hn v j Hj Hv.
  - cbn. rewrite Z.mul_1_r, Z.add_0_r. done.
  - cbn [calldataload_loop]. destruct (Z.ltb_spec j (zlen inp)) as [Hlt|Hge].
    + assert (Hb : u8 (znth j inp)) by (by apply bytes_ok_nth).
      pose proof Hb as [Hb0 Hb1]. rewrite M8_val in Hb1. pose proof (pow256_S n Hn) as HS.
      assert (H256 : 256 ^ (32 - Z.of_nat n) <= M256) by (apply pow256_le; lia).
      rewrite be_val_step by (done || lia). rewrite IH by lia.
      rewrite window_S, be_val_cons, length_window. unfold padded at 1. destruct (Z.ltb_spec j (zlen inp)); [|lia].
      rewrite Nat2Z.inj_succ, Z.pow_succ_r by lia. ring.
    + rewrite window_beyond, be_val_zeros, Z.add_0_r by done.
      rewrite EvmArith.shl256_spec by lia.
      rewrite Z.pow_mul_r by lia. change (2 ^ 8) with 256. apply wrap256_small. by apply room.
Qed.

Lemma push_imm_spec c n : bytes_ok c -> (n <= 32)%nat -> forall v p, 0 <= p -> p + Z.of_nat n <= zlen c ->
  0 <= v < 256 ^ (32 - Z.of_nat n) ->
  push_imm n c v p = v * 256 ^ Z.of_nat n + be_val (zslice p (Z.of_nat n) c).
Proof.
  intros Hok. induction n as [|n IH]; intros Hn v p Hp Hl Hv.
  - cbn. rewrite Z.mul_1_r, Z.add_0_r. done.
  - cbn [push_imm].
    assert (Hb : u8 (znth p c)) by (by apply bytes_ok_nth).
    pose proof Hb as [Hb0 Hb1]. rewrite M8_val in Hb1. pose proof (pow256_S n Hn) as HS.
    assert (H256 : 256 ^ (32 - Z.of_nat n) <= M256) by (apply pow256_le; lia).
    rewrite EvmArith.shl256_spec, wrap256_small by (unfold u256; change (2 ^ 8) with 256; lia).
    rewrite lor_low by (done || lia). change (2 ^ 8) with 256. rewrite IH by lia.
    assert (Hs : zslice p (Z.of_nat (S n)) c = znth p c :: zslice (p + 1) (Z.of_nat n) c).
    { apply znth_ext.
      - rewrite (zlen_zslice p) by lia. cbn [length]. pose proof (zlen_zslice (p + 1) (Z.of_nat n) c). lia.
      - intros i Hi. rewrite zlen_zslice in Hi by lia. rewrite znth_zslice by lia.
        change (znth p c :: zslice (p + 1) (Z.of_nat n) c) with ([znth p c] ++ zslice (p + 1) (Z.of_nat n) c).
        rewrite znth_app by lia. change (zlen [znth p c]) with 1. zcase.
        + replace i with 0 by lia. rewrite Z.add_0_r. done.
        + rewrite znth_zslice by lia. f_equal. lia. }
    rewrite Hs, be_val_cons, Nat2Z.inj_succ, Z.pow_succ_r by lia.
    assert (Hz : zlen (zslice (p + 1) (Z.of_nat n) c) = Z.of_nat n) by (apply zlen_zslice; lia).
    rewrite Hz. ring.
Qed.

Lemma bytes_ok_zslice off n l : bytes_ok l -> bytes_ok (zslice off n l).
Proof. intros. unfold zslice, ztake, zdrop. auto with mach. Qed.

Lemma copy_mem_raw_bytes offDst offSrc size dst src pad m :
  bytes_ok dst -> bytes_ok src -> u8 pad ->
  copy_mem_raw offDst offSrc size dst src pad = Ok m -> bytes_ok m.
Proof.
  intros Hd Hs Hp. unfold copy_mem_raw. destruct (size =? 0); [by intros [= <-]|].
  destruct (_ <? _); [done|]. destruct (_ <? _); [done|].
  set (d := if zlen dst <? _ then _ else _).
  assert (Hdk : bytes_ok d) by (subst d; destruct (_ <? _); unfold zresize; auto with mach). clearbody d.
  assert (Hrep : forall n, bytes_ok (replicate n pad)) by (intros; by apply Forall_replicate).
  destruct (_ <? _); intros [= <-]; unfold zwrite; apply bytes_ok_inserts; try done.
  apply bytes_ok_inserts; [by apply bytes_ok_zslice | done].
Qed.

(** ** Properties *)

(** [copy_mem_raw], behind all the copying instructions and the output of
    calls: it fails exactly when the destination range ends beyond the memory
    limit (64-bit wrap-around of either range included), and otherwise writes
    the source bytes, padded with [pad] past the end of the source, leaves
    every other byte alone and grows the destination with zeros as needed. *)
Theorem copy_mem_raw_spec offDst offSrc size dst src pad :
  u64 offDst -> u64 offSrc -> u64 size -> zlen src < 2 ^ 63 ->
  match copy_mem_raw offDst offSrc size dst src pad with
  | Ok m =>
      (size = 0 /\ m = dst) \/
      offDst + size <= MAX_MEM_SIZE /\ zlen m = Z.max (zlen dst) (offDst + size) /\
      forall i, 0 <= i -> znth i m =
        if (offDst <=? i) && (i <? offDst + size) then padded src pad (offSrc + (i - offDst)) else znth i dst
  | Throw e => e = EvmException outOfBounds /\ size <> 0 /\ MAX_MEM_SIZE < offDst + size
  | Undef => False
  end.
Proof.
  intros Hd Hs Hz Hl. destruct (Z.eq_dec size 0) as [->|H0]; [cbn; by left|].
  pose proof (copy_mem_raw_general offDst offSrc size dst src pad Hd Hs Hz H0 Hl) as H.
  destruct (copy_mem_raw _ _ _ _ _ _); [by right | |done]. destruct H; auto.
Qed.

Lemma copy_mem_raw_spec_witness :
  copy_mem_raw 2 1 4 [9] [1; 2; 3] 7 = Ok [9; 0; 2; 3; 7; 7] /\
  copy_mem_raw 2 (M64 - 1) (MAX_MEM_SIZE - 1) [9] [1; 2; 3] 0 = Throw (EvmException outOfBounds).
Proof.
  split; [reflexivity|].
  pose proof (copy_mem_raw_spec 2 (M64 - 1) (MAX_MEM_SIZE - 1) [9] [1; 2; 3] 0) as H.
  specialize (H ltac:(split; [lia | reflexivity]) ltac:(split; [discriminate | reflexivity])
                ltac:(split; [discriminate | reflexivity]) ltac:(reflexivity)).
  destruct (copy_mem_raw _ _ _ _ _ _) as [m|e|]; [|by destruct H as [-> _]|done].
  destruct H as [[H _]|[H _]]; [discriminate | exfalso; revert H; vm_compute; congruence].
Defined.

(** CALLDATALOAD reads the 32-byte window of the call data at the offset,
    zero-padded past its end, and PUSHn reads its n immediate bytes, both as
    big-endian numbers. *)
Theorem calldataload_push_spec inp off c n p : bytes_ok inp -> bytes_ok c ->
  0 <= off -> 0 <= p -> (n <= 32)%nat -> p + Z.of_nat n <= zlen c ->
  calldataload_loop 32 inp 0 off = be_val (window inp off 32) /\
  push_imm n c 0 p = be_val (zslice p (Z.of_nat n) c).
Proof.
  intros Hi Hc Ho Hp Hn Hl. split.
  - rewrite (calldataload_loop_spec inp 32) by (done || cbn; lia). lia.
  - rewrite push_imm_spec by (done || (pose proof (pow256_le (32 - Z.of_nat n)); lia)). lia.
Qed.

Lemma calldataload_push_spec_witness :
  calldataload_loop 32 [0xab; 0xcd] 0 1 = 0xcd * 256 ^ 31 /\ push_imm 2 [0x61; 1; 2] 0 1 = 258.
Proof.
  destruct (calldataload_push_spec [0xab; 0xcd] 1 [0x61; 1; 2] 2 1) as [H1 H2];
    [by apply (bool_decide_unpack _); vm_compute | by apply (bool_decide_unpack _); vm_compute
    | lia | lia | lia | cbn; lia |].
  rewrite H1, H2. split; vm_compute; reflexivity.
Defined.

End EvmMemory.
