(* ===== verification/EvmSafety.v ===== *)
(** * Safety of the interpreter

    The invariant of the run loop of [Processor] and the proof that every
    instruction keeps it, over any world state that satisfies
    [GlobalStateLaws].  The invariant bounds the call depth and the memory of
    each context, keeps every stack element a 256-bit word, keeps the program
    counter on an instruction boundary (never inside the immediate of a PUSH)
    and keeps every account reference a context holds valid.  Undefined
    behaviour is confined to four instructions, named by [hazard]. *)
From S2P Require Import Prelude Monad Keccak Util Rlp Address Stack Bytecode GlobalState Processor.
From S2P Require Import EvmArith EvmMemory.
From stdpp Require Import list.
Local Open Scope Z_scope.

Module EvmSafety.
Import Bytecode Processor EvmArith EvmMemory.

(** ** The invariant *)

Definition env_ok (env : Env) : Prop :=
  u256 (origin env) /\ u256 (gas_price env) /\ u256 (gas_limit env).

(** A handler captured at depth [n] refers to a context below. *)
Definition handlers_ok (n : nat) (h : Handlers) : Prop :=
  match h with
  | HRoot => True
  | HCall p offOut sizeOut => (p < n)%nat /\ u64 offOut /\ u64 sizeOut
  | HCreate p _ => (p < n)%nat
  end.

Record ctx_base (n : nat) (c : Context) : Prop := {
  ck_stack : Stack.words_ok (s c);
  ck_mem : bytes_ok (mem c);
  ck_mem_size : zlen (mem c) <= MAX_MEM_SIZE;
  ck_code : vec_ok (code (prog c));
  ck_prog : prog c = make_program (code (prog c));
  ck_caller : u256 (caller c);
  ck_value : u256 (call_value c);
  ck_input : vec_ok (input c);
  ck_return : vec_ok (return_data c);
  ck_handlers : handlers_ok n (handlers c)
}.

(** The program counter between two instructions, and what [step] needs of it:
    either it was set by the instruction, or the instruction has no immediate. *)
Definition pc_start (c : Context) : Prop :=
  instr_start (code (prog c)) 0 (pc c) /\ pc c <= zlen (code (prog c)).
Definition pc_ok (c : Context) : Prop :=
  pc_start c /\
  (pc_changed c = true \/
   pc c < zlen (code (prog c)) /\ imm_of (znth (pc c) (code (prog c))) = 0).

(** The accounts a context holds a reference to. *)
Definition live_refs (c : Context) : list Z :=
  acc c :: match handlers c with HCreate _ a => [a] | _ => [] end.

Section invariant.
Context {St : Type} `{GS : GlobalState St} `{GL : !GlobalStateLaws St} (env : Env).

Fixpoint ctxs_ok (g : St) (l : list Context) : Prop :=
  match l with
  | [] => True
  | c :: l => ctx_base (length l) c /\ pc_ok c /\ Forall (fun a => live a g) (live_refs c) /\ ctxs_ok g l
  end.

(** During an instruction: at least [k] contexts, the accounts [L] live. *)
Definition ok (L : list Z) (k : nat) (st : pstate St) : Prop :=
  gs_ok (gs st) /\ ctxs_ok (gs st) (ctxts st) /\ (k <= length (ctxts st) <= 1024)%nat /\
  Forall (fun a => live a (gs st)) L.

(** When an exception is thrown: nothing is known of the current [pc]. *)
Definition okE (st : pstate St) : Prop :=
  gs_ok (gs st) /\ (length (ctxts st) <= 1024)%nat /\
  match ctxts st with
  | [] => False
  | c :: l => ctx_base (length l) c /\ Forall (fun a => live a (gs st)) (live_refs c) /\
              ctxs_ok (gs st) l
  end.

(** At the head of the loop. *)
Definition loop_ok (st : pstate St) : Prop :=
  okE st /\ match ctxts st with [] => False | c :: _ => pc_start c end.
Definition running (st : pstate St) : bool :=
  match ctxts st with [] => false | c :: _ => pc_valid c end.

Definition cur_op (st : pstate St) : option Opcode :=
  match ctxts st with [] => None | c :: _ => opcode_of (znth (pc c) (code (prog c))) end.

(** The instructions that can run into undefined behaviour: REVERT decodes its
    message unchecked, RETURN from a constructor uses a dangling reference, and
    CREATE aborts when the new address is taken. *)
Definition hazard (op : option Opcode) : Prop :=
  match op with
  | Some REVERT | Some CREATE | Some CREATE2 => True
  | Some RETURN => newAcc_alive env = false
  | _ => False
  end.

(** States the loop goes through. *)
Inductive reaches : pstate St -> pstate St -> Prop :=
  | reaches_refl st : reaches st st
  | reaches_turn st st' st'' :
      reaches st st' -> running st' = true -> turn env st' = (st'', Ok true) -> reaches st st''.

(** The judgements: [safe] for a whole instruction, [prim] for an operation
    after which the instruction goes on. *)
Definition safe {A} (L : list Z) (k : nat) (m : M (pstate St) A) (U : Prop) : Prop :=
  triple (ok L k) m (fun _ => ok [] 0) (fun _ => okE) U.
Definition prim {A} (L : list Z) (k : nat) (m : M (pstate St) A) (V : A -> Prop) : Prop :=
  triple (ok L k) m (fun a st => V a /\ ok L k st) (fun _ => okE) False.

(** What an operation on one context has to respect. *)
Definition frame (c c' : Context) : Prop :=
  pc c' = pc c /\ pc_changed c' = pc_changed c /\ prog c' = prog c /\
  acc c' = acc c /\ handlers c' = handlers c.
Definition keeps {A} (m : M Context A) (V : A -> Prop) : Prop :=
  forall n c, ctx_base n c ->
    let '(c', r) := m c in
    ctx_base n c' /\ frame c c' /\
    match r with Ok a => V a | Throw _ => True | Undef => False end.
Definition world_keeps {A} (L : list Z) (m : M St A) (V : A -> St -> Prop) (U : Prop) : Prop :=
  forall g, gs_ok g -> Forall (fun a => live a g) L ->
    let '(g', r) := m g in
    gs_ok g' /\ (forall b, live b g -> live b g') /\
    match r with Ok a => V a g' | Throw _ => True | Undef => U end.

End invariant.

(** ** Lemmas *)

(** *** The values the instructions push are words *)

Lemma u256_lor x y : u256 x -> u256 y -> u256 (Z.lor x y).
Proof. apply (lor_bound x y 256). lia. Qed.
Lemma u256_lxor x y : u256 x -> u256 y -> u256 (Z.lxor x y).
Proof. apply (lxor_bound x y 256). lia. Qed.
Lemma u256_land x y : u256 x -> 0 <= y -> u256 (Z.land x y).
Proof. apply (land_bound x y 256). lia. Qed.
Lemma u256_land' x y : u256 x -> u256 y -> u256 (Z.land x y).
Proof. intros Hx [Hy _]. by apply u256_land. Qed.
Lemma u256_max : u256 (M256 - 1). Proof. split; [done | reflexivity]. Qed.
Lemma u256_not x : u256 x -> u256 (not256 x).
Proof. intros. apply u256_lxor; [done | apply u256_max]. Qed.
Lemma u256_neg x : u256 (neg256 x).
Proof. apply wrap256_u256. Qed.
Lemma u256_shl x n : u256 (shl256 x n).
Proof. unfold shl256. destruct (_ <=? _); auto with mach. Qed.
Lemma u256_shr x n : u256 x -> 0 <= n -> u256 (shr256 x n).
Proof.
  intros Hx Hn. rewrite shr256_spec by done. apply u256_div; [done|]. apply Z.pow_pos_nonneg; lia.
Qed.
Lemma u256_shr' x n : u256 x -> u256 n -> u256 (shr256 x n).
Proof. intros Hx [Hn _]. by apply u256_shr. Qed.
Lemma u256_bool (b : bool) : u256 (if b then 1 else 0).
Proof. destruct b; auto with mach. Qed.
#[local] Hint Resolve u256_lor u256_lxor u256_land' u256_max u256_not u256_neg u256_shl u256_bool : mach.

Lemma u256_abs x (b : bool) : u256 x -> u256 (if b then neg256 x else x).
Proof. destruct b; auto with mach. Qed.
Lemma u256_div_val x y : u256 x -> u256 y -> u256 (div_val x y).
Proof.
  intros Hx [Hy _]. unfold div_val. destruct (Z.eqb_spec y 0); [auto with mach|]. apply u256_div; [done | lia].
Qed.
Lemma u256_mod_val x y : u256 x -> u256 y -> u256 (mod_val x y).
Proof.
  intros Hx Hy. unfold mod_val. destruct (Z.eqb_spec y 0); [auto with mach|].
  apply u256_mod; [done | destruct Hy; lia].
Qed.
Lemma u256_quot x y : u256 x -> u256 y -> u256 (x / y).
Proof.
  intros Hx [Hy _]. destruct (Z.eq_dec y 0) as [->|]; [rewrite Z.div_0_r; auto with mach|].
  apply u256_div; [done | lia].
Qed.
Lemma u256_rem x y : u256 x -> u256 y -> u256 (x mod y).
Proof.
  intros Hx Hy. destruct (Z.eq_dec y 0) as [->|]; [by rewrite Z.mod_0_r|].
  apply u256_mod; [done | destruct Hy; lia].
Qed.
Lemma u256_sdiv_val x y : u256 x -> u256 y -> u256 (sdiv_val x y).
Proof.
  intros Hx Hy. unfold sdiv_val. destruct (y =? 0); [auto with mach|]. destruct (_ && _); [done|].
  destruct (negb _); [auto with mach|]. by apply u256_quot; apply u256_abs.
Qed.
Lemma u256_smod_val x y : u256 x -> u256 y -> u256 (smod_val x y).
Proof.
  intros Hx Hy. unfold smod_val. destruct (y =? 0); [auto with mach|].
  apply u256_abs, u256_rem; by apply u256_abs.
Qed.
Lemma u256_addmod_val x y m : u256 m -> u256 (addmod_val x y m).
Proof.
  intros Hm. unfold addmod_val. destruct (m =? 0); [auto with mach|]. apply u256_rem; auto with mach.
Qed.
Lemma u256_mulmod_val x y m : u256 m -> u256 (mulmod_val x y m).
Proof. intros Hm. unfold mulmod_val. destruct (m =? 0); [done|]. apply u256_rem; auto with mach. Qed.
Lemma u256_exp256 b e : u256 (exp256 b e).
Proof. unfold exp256. destruct (b =? 2); [auto with mach|]. apply exp_loop_u256. auto with mach. Qed.
Lemma u256_signextend_val x y : u256 x -> u256 y -> u256 (signextend_val x y).
Proof.
  intros [Hx _] Hy. unfold signextend_val. destruct (Z.leb_spec 32 x); [done|].
  assert (0 <= 256 - (8 * Z.land x 255 + 7)).
  { rewrite land_255 by lia. lia. }
  apply u256_lor; [auto with mach|]. apply u256_land'; [done|]. apply u256_shr; auto with mach.
Qed.
Lemma u256_slt_val x y : u256 (slt_val x y).
Proof. unfold slt_val. repeat destruct (if _ then _ else _); repeat destruct (_ =? _); repeat destruct (_ <? _); auto with mach. Qed.
Lemma u256_byte_val x y : u256 x -> (32 <=? x) = false -> u256 y -> u256 (byte_val x y).
Proof.
  intros [Hx0 _] Hx Hy. unfold byte_val. apply u256_shr; [auto with mach|]. rewrite land_255 by lia. lia.
Qed.
Lemma u256_sar_val y x : u256 y -> u256 x -> u256 (sar_val y x).
Proof.
  intros [Hy _] Hx. unfold sar_val. apply u256_lor; [by apply u256_shr | auto with mach].
Qed.
Lemma u256_small x : 0 <= x < 2 ^ 64 -> u256 x.
Proof. intros H. apply u64_u256. exact H. Qed.
Lemma u256_vec l : vec_ok l -> u256 (zlen l).
Proof. intros [_ H]. apply u256_small. lia. Qed.
Lemma u256_calldataload n inp v j : u256 v -> u256 (calldataload_loop n inp v j).
Proof.
  revert v j; induction n as [|n IH]; intros v j Hv; cbn [calldataload_loop]; [done|].
  destruct (_ <? _); auto with mach.
Qed.
Lemma u256_push_imm n c v p : bytes_ok c -> u256 v -> u256 (push_imm n c v p).
Proof.
  intros Hc. revert v p; induction n as [|n IH]; intros v p Hv; cbn [push_imm]; [done|].
  apply IH, u256_lor; [auto with mach|]. apply u8_u256, bytes_ok_nth, Hc.
Qed.
Lemma u256_addr a : 0 <= a < M160 -> u256 a.
Proof. apply Address.M160_u256. Qed.
#[local] Hint Resolve u256_shr u256_shr' u256_div_val u256_mod_val u256_sdiv_val u256_smod_val u256_addmod_val
  u256_mulmod_val u256_exp256 u256_signextend_val u256_slt_val u256_byte_val u256_sar_val u256_vec
  u256_calldataload u256_push_imm u256_addr : mach.

Section lemmas.
Context {St : Type} `{GS : GlobalState St} `{GL : !GlobalStateLaws St} (env : Env).
Implicit Types (st : pstate St) (L : list Z) (k : nat) (U : Prop).

Lemma frame_pc_ok c c' : frame c c' -> pc_ok c -> pc_ok c'.
Proof. intros (H1 & H2 & H3 & _). unfold pc_ok, pc_start. by rewrite H1, H2, H3. Qed.
Lemma frame_refs c c' : frame c c' -> live_refs c' = live_refs c.
Proof. intros (_ & _ & _ & H4 & H5). unfold live_refs. by rewrite H4, H5. Qed.

Lemma handlers_ok_mono n n' h : handlers_ok n h -> (n <= n')%nat -> handlers_ok n' h.
Proof. destruct h; cbn; intuition lia. Qed.

Lemma ctxs_ok_mono (g g' : St) l : (forall b, live b g -> live b g') -> ctxs_ok g l -> ctxs_ok g' l.
Proof.
  intros Hl. induction l as [|c l IH]; cbn [ctxs_ok]; [done|].
  intros (H1 & H2 & H3 & H4). split_and!; auto. eapply Forall_impl; [exact H3|]. auto.
Qed.

Lemma ctxs_ok_lookup (g : St) l i c : ctxs_ok g l -> l !! i = Some c ->
  ctx_base (length l - 1 - i) c /\
  forall c', ctx_base (length l - 1 - i) c' -> frame c c' -> ctxs_ok g (<[i := c']> l).
Proof.
  revert i; induction l as [|d l IH]; intros [|i]; cbn [lookup list_lookup ctxs_ok]; try done.
  - intros (H1 & H2 & H3 & H4) [= ->]. cbn [length]. replace (S (length l) - 1 - 0)%nat with (length l) by lia.
    split; [done|]. intros c' Hc' Hf. cbn [insert list_insert ctxs_ok]. rewrite (frame_refs _ _ Hf).
    eauto using frame_pc_ok.
  - intros (H1 & H2 & H3 & H4) Hl. destruct (IH i H4 Hl) as [Hc Hins].
    cbn [length]. replace (S (length l) - 1 - S i)%nat with (length l - 1 - i)%nat by lia.
    split; [done|]. intros c' Hc' Hf. change (<[S i := c']> (d :: l)) with (d :: <[i := c']> l).
    cbn [ctxs_ok]. rewrite length_insert. auto.
Qed.

Lemma ok_okE L k st : (1 <= k)%nat -> ok L k st -> okE st.
Proof.
  intros Hk (H1 & H2 & H3 & _). split; [done|]. split; [lia|].
  destruct (ctxts st); cbn in *; [lia|]. tauto.
Qed.
Lemma ok_weaken L k L' k' st : ok L k st -> incl L' L -> (k' <= k)%nat -> ok L' k' st.
Proof.
  intros (H1 & H2 & H3 & H4) HL Hk. split_and!; try done; try lia.
  rewrite List.Forall_forall in *. auto.
Qed.

(** *** Structural rules *)

Lemma prim_bind {A B} L k (m : M (pstate St) A) V (f : A -> M (pstate St) B) U :
  prim L k m V -> (forall a, V a -> safe L k (f a) U) -> safe L k (m ≫= f) U.
Proof.
  intros Hm Hf. apply triple_bind with (R := fun a st => V a /\ ok L k st).
  - by apply (triple_weaken _ _ _ _ _ _ _ _ _ Hm).
  - intros a. apply triple_pull, Hf.
Qed.

Lemma prim_last {A} L k (m : M (pstate St) A) V U : prim L k m V -> safe L k m U.
Proof.
  intros Hm. eapply triple_weaken; [exact Hm | auto | | auto | done].
  intros a st [_ H]. eapply ok_weaken; [exact H | apply incl_nil_l | lia].
Qed.

Lemma prim_prim_bind {A B} L k (m : M (pstate St) A) V (f : A -> M (pstate St) B) V' :
  prim L k m V -> (forall a, V a -> prim L k (f a) V') -> prim L k (m ≫= f) V'.
Proof.
  intros Hm Hf. apply triple_bind with (R := fun a st => V a /\ ok L k st); [exact Hm|].
  intros a. apply triple_pull, Hf.
Qed.

Lemma prim_ret {A} L k (a : A) (V : A -> Prop) : V a -> prim L k (mret a) V.
Proof. intros. apply triple_ret. auto. Qed.

Lemma safe_ret {A} L k (a : A) U : safe L k (mret a) U.
Proof. apply triple_ret. intros st H. eapply ok_weaken; [exact H | apply incl_nil_l | lia]. Qed.

Lemma safe_throw {A} L k e U : (1 <= k)%nat -> safe L k (throw e : M (pstate St) A) U.
Proof. intros Hk. apply triple_throw. intros st. by apply ok_okE. Qed.

Lemma prim_lift {A} L k (r : result A) V : (1 <= k)%nat ->
  match r with Ok a => V a | Throw _ => True | Undef => False end -> prim L k (lift r) V.
Proof.
  intros Hk Hr. apply triple_lift. destruct r; [auto | | done].
  intros st. by apply ok_okE.
Qed.

Lemma bind_assoc {A B C} (m : M (pstate St) A) (f : A -> M (pstate St) B) (h : B -> M (pstate St) C) st :
  ((m ≫= f) ≫= h) st = (m ≫= (fun a => f a ≫= h)) st.
Proof. unfold mbind, M_bind. by destruct (m st) as [? [|?|]]. Qed.

Lemma safe_cur {A} L k (f : Context -> M (pstate St) A) U : (1 <= k)%nat ->
  (forall c n, ctx_base n c -> pc_ok c -> (k <= S n)%nat -> safe (live_refs c ++ L) (S n) (f c) U) ->
  safe L k (cur ≫= f) U.
Proof.
  intros Hk Hf st (H1 & H2 & H3 & H4). unfold mbind, M_bind, cur.
  destruct (ctxts st) as [|c l] eqn:E; cbn [length] in H3; [lia|]. cbn [ctxs_ok] in H2.
  destruct H2 as (Hb & Hpc & Hl & Hr). apply (Hf c (length l)); [done | done | lia |].
  split; [done|]. rewrite E. cbn [ctxs_ok length]. split_and!; try done; try lia.
  apply Forall_app. done.
Qed.

(** *** Operations on contexts *)

Lemma prim_on_ctx {A} L k p (m : M Context A) V : (p < k)%nat -> keeps m V -> prim L k (on_ctx p m) V.
Proof.
  intros Hp Hm st (H1 & H2 & H3 & H4). unfold on_ctx.
  destruct (lookup_lt_is_Some_2 (ctxts st) (length (ctxts st) - 1 - p)) as [c Hc]; [lia|].
  rewrite Hc. destruct (ctxs_ok_lookup _ _ _ _ H2 Hc) as [Hb Hins].
  specialize (Hm _ _ Hb). destruct (m c) as [c' r]. destruct Hm as (Hb' & Hf & Hr).
  assert (ok L k (with_ctxts (<[(length (ctxts st) - 1 - p)%nat := c']> (ctxts st)) st)).
  { split; [done|]. cbn [with_ctxts gs ctxts]. rewrite length_insert. auto. }
  destruct r; [done | | done]. apply (ok_okE L k); [lia | done].
Qed.

Lemma prim_on_cur {A} L k (m : M Context A) V : (1 <= k)%nat -> keeps m V -> prim L k (on_cur m) V.
Proof.
  intros Hk Hm st (H1 & H2 & H3 & H4). unfold on_cur.
  destruct (ctxts st) as [|c l] eqn:E; cbn [length] in H3; [lia|]. cbn [ctxs_ok] in H2.
  destruct H2 as (Hb & Hpc & Hl & Hr).
  specialize (Hm _ _ Hb). destruct (m c) as [c' r]. destruct Hm as (Hb' & Hf & Hres).
  assert (ok L k (with_ctxts (c' :: l) st)).
  { split; [done|]. cbn [with_ctxts gs ctxts ctxs_ok length]. rewrite (frame_refs _ _ Hf).
    eauto 10 using frame_pc_ok. }
  destruct r; [done | | done]. apply (ok_okE L k); [lia | done].
Qed.

Lemma keeps_stack {A} (m : M (list Z) A) V :
  (forall st : list Z, Stack.words_ok st -> let '(st', r) := m st in
     Stack.words_ok st' /\ match r with Ok a => V a | Throw _ => True | Undef => False end) ->
  keeps (on_stack m) V.
Proof.
  intros Hm n c Hc. unfold on_stack, zoom. specialize (Hm _ (ck_stack _ _ Hc)).
  destruct (m (s c)) as [st' r]. destruct Hm as [Hw Hr]. split; [|done].
  destruct Hc. by constructor.
Qed.

Lemma keeps_push v : u256 v -> keeps (on_stack (Stack.push v)) (fun _ => True).
Proof.
  intros Hv. apply keeps_stack. intros st Hst. pose proof (Stack.push_ok v st Hst Hv) as H.
  destruct (Stack.push v st). by destruct H as [? [->| ->]].
Qed.

Lemma keeps_set_mem m : bytes_ok m -> zlen m <= MAX_MEM_SIZE -> keeps (modify (set_mem m)) (fun _ => True).
Proof. intros Hm Hl n c Hc. cbn. split; [|done]. destruct Hc. by constructor. Qed.

Lemma keeps_set_return d : vec_ok d -> keeps (modify (set_return_data d)) (fun _ => True).
Proof. intros Hd n c Hc. cbn. split; [|done]. destruct Hc. by constructor. Qed.

Lemma keeps_bind {A B} (m : M Context A) (f : A -> M Context B) V V' :
  keeps m V -> (forall a, V a -> keeps (f a) V') -> keeps (m ≫= f) V'.
Proof.
  intros Hm Hf n c Hc. unfold mbind, M_bind. specialize (Hm n c Hc).
  destruct (m c) as [c' [a|e|]]; [|done|tauto]. destruct Hm as (H1 & H2 & H3).
  specialize (Hf a H3 n c' H1). destruct (f a c') as [c'' r]. destruct Hf as (H4 & H5 & H6).
  split; [done|]. split; [|done]. unfold frame in *. intuition congruence.
Qed.

Lemma prim_pop L k : (1 <= k)%nat -> prim L k s_pop u256.
Proof.
  intros Hk. apply prim_on_cur; [done|]. apply keeps_stack. intros st Hst.
  pose proof (Stack.pop_ok st Hst) as Hp. destruct (Stack.pop st) as [st' [v|e|]]; tauto || by destruct Hp.
Qed.
Lemma prim_pop64 L k : (1 <= k)%nat -> prim L k s_pop64 u64.
Proof.
  intros Hk. apply prim_on_cur; [done|]. apply keeps_stack. intros st Hst.
  pose proof (Stack.pop64_ok st Hst) as Hp. destruct (Stack.pop64 st) as [st' [v|e|]]; tauto || by destruct Hp.
Qed.
Lemma prim_push L k v : (1 <= k)%nat -> u256 v -> prim L k (s_push v) (fun _ => True).
Proof. intros Hk Hv. apply prim_on_cur; [done|]. by apply keeps_push. Qed.
Lemma prim_swap L k i : (1 <= k)%nat -> prim L k (stk (Stack.swap i)) (fun _ => True).
Proof.
  intros Hk. apply prim_on_cur; [done|]. apply keeps_stack. intros st Hst.
  pose proof (Stack.swap_ok i st Hst) as H. destruct (Stack.swap i st). by destruct H as [? [->| ->]].
Qed.
Lemma prim_dup L k i : (1 <= k)%nat -> prim L k (stk (Stack.dup i)) (fun _ => True).
Proof.
  intros Hk. apply prim_on_cur; [done|]. apply keeps_stack. intros st Hst.
  pose proof (Stack.dup_ok i st Hst) as H. destruct (Stack.dup i st). by destruct H as [? [->| ->]].
Qed.

Lemma u8_0 : u8 0. Proof. split; [lia | reflexivity]. Qed.
Lemma land160 v : u256 v -> 0 <= Z.land v (2 ^ 160 - 1) < M160.
Proof.
  intros [H0 _]. rewrite land_low by lia. apply Z.mod_pos_bound. reflexivity.
Qed.
Lemma prim_pop_addr L k : (1 <= k)%nat -> prim L k pop_addr (fun a => 0 <= a < M160).
Proof.
  intros Hk. eapply prim_prim_bind; [by apply prim_pop|]. intros v Hv. apply prim_ret, land160, Hv.
Qed.

(** *** Memory *)

Lemma vec_ok_mem n c off size : ctx_base n c -> 0 <= off -> 0 <= size -> off + size <= zlen (mem c) ->
  vec_ok (zslice off size (mem c)) /\ zlen (zslice off size (mem c)) = size.
Proof.
  intros Hc Ho Hs Hl. pose proof (zlen_zslice off size (mem c) Ho Hs Hl) as E.
  split; [|done]. split; [apply bytes_ok_zslice, (ck_mem _ _ Hc)|].
  pose proof (ck_mem_size _ _ Hc). change MAX_MEM_SIZE with (2 ^ 25) in *. lia.
Qed.

(** The memory reaches the end of the prepared range. *)
Lemma prepare_triple L k off size : (1 <= k)%nat -> u64 off -> u64 size ->
  triple (ok L k) (prepare_mem_access off size)
    (fun _ st => ok L k st /\ match ctxts st with c :: _ => off + size <= zlen (mem c) | [] => False end)
    (fun _ => okE) False.
Proof.
  intros Hk Ho Hs st Hst. pose proof (ok_okE _ _ _ Hk Hst) as HE. destruct Hst as (H1 & H2 & H3 & H4).
  unfold prepare_mem_access, mbind, M_bind, cur, lift.
  destruct (ctxts st) as [|c l] eqn:E; cbn [length] in H3; [lia|]. cbn [ctxs_ok] in H2.
  destruct H2 as (Hb & Hpc & Hl & Hr).
  destruct (prepare_mem off size (mem c)) as [m|e|] eqn:Em; [|done|].
  2: { rewrite prepare_mem_spec in Em by done. by destruct (_ <? _). }
  destruct (prepare_mem_ok _ _ _ _ Ho Hs Em) as (Hmax & Hlen & _ & Hbytes).
  unfold on_cur. rewrite E. cbn [modify with_ctxts ctxts set_mem mem]. pose proof (ck_mem_size _ _ Hb) as Hms.
  split; [|lia]. split; [done|]. cbn [with_ctxts gs ctxts ctxs_ok length]. split_and!; try done; try lia.
  destruct Hb. constructor; cbn; auto. lia.
Qed.

Lemma prim_prepare L k off size : (1 <= k)%nat -> u64 off -> u64 size ->
  prim L k (prepare_mem_access off size) (fun _ => True).
Proof.
  intros Hk Ho Hs. eapply triple_weaken; [exact (prepare_triple L k off size Hk Ho Hs) | | | |]; auto.
  intros [] st [H _]. done.
Qed.

Lemma safe_prepare_cur {A} L k off size (f : Context -> M (pstate St) A) U : (1 <= k)%nat ->
  u64 off -> u64 size ->
  (forall c n, ctx_base n c -> (k <= S n)%nat -> off + size <= zlen (mem c) ->
     safe (live_refs c ++ L) (S n) (f c) U) ->
  safe L k (prepare_mem_access off size ;; cur ≫= f) U.
Proof.
  intros Hk Ho Hs Hf. eapply triple_bind.
  - eapply triple_weaken; [exact (prepare_triple L k off size Hk Ho Hs) | auto | | auto | done].
    intros a st H. exact H.
  - intros [] st [(H1 & H2 & H3 & H4) Hm]. unfold mbind, M_bind, cur.
    destruct (ctxts st) as [|c l] eqn:E; [done|]. cbn [length] in H3. destruct H2 as (Hb & Hpc & Hl & Hr).
    apply (Hf c (length l)); [done | lia | done |].
    split; [done|]. rewrite E. cbn [ctxs_ok length]. split_and!; try done; try lia.
    apply Forall_app. done.
Qed.

Lemma prim_copy_from_mem L k off size : (1 <= k)%nat -> u64 off -> u64 size ->
  prim L k (copy_from_mem off size) vec_ok.
Proof.
  intros Hk Ho Hs. eapply triple_bind; [exact (prepare_triple L k off size Hk Ho Hs)|].
  intros [] st [Hok Hm]. unfold mbind, M_bind, cur. pose proof Hok as (H1 & H2 & H3 & H4).
  destruct (ctxts st) as [|c l] eqn:E; [done|]. destruct H2 as (Hb & _). split; [|done].
  destruct Ho, Hs. by eapply vec_ok_mem.
Qed.

Lemma prim_set_mem L k m : (1 <= k)%nat -> bytes_ok m -> zlen m <= MAX_MEM_SIZE ->
  prim L k (on_cur (modify (set_mem m))) (fun _ => True).
Proof. intros Hk Hm Hl. apply prim_on_cur; [done|]. by apply keeps_set_mem. Qed.

Lemma copy_mem_raw_keeps offDst offSrc size n c src pad : ctx_base n c -> vec_ok src -> u8 pad ->
  u64 offDst -> u64 offSrc -> u64 size ->
  match copy_mem_raw offDst offSrc size (mem c) src pad with
  | Ok m => bytes_ok m /\ zlen m <= MAX_MEM_SIZE | Throw _ => True | Undef => False end.
Proof.
  intros Hc [Hs Hl] Hp Hd Ho Hz. pose proof (ck_mem_size _ _ Hc). pose proof (ck_mem _ _ Hc).
  destruct (Z.eqb_spec size 0) as [->|Hne]; [done|].
  pose proof (copy_mem_raw_general offDst offSrc size (mem c) src pad Hd Ho Hz Hne Hl) as Hg.
  pose proof (copy_mem_raw_bytes offDst offSrc size (mem c) src pad) as Hb.
  destruct (copy_mem_raw _ _ _ _ _ _) as [m| |]; [|done|done].
  split; [by apply Hb | lia].
Qed.

Lemma safe_copy_mem L k src U : (1 <= k)%nat -> vec_ok src -> safe L k (copy_mem src 0) U.
Proof.
  intros Hk Hs. unfold copy_mem.
  eapply prim_bind; [by apply prim_pop64|]. intros d Hd.
  eapply prim_bind; [by apply prim_pop64|]. intros o Ho.
  eapply prim_bind; [by apply prim_pop64|]. intros z Hz.
  apply safe_cur; [done|]. intros c n Hc _ Hn.
  eapply prim_bind; [apply (prim_lift _ _ _ (fun m => bytes_ok m /\ zlen m <= MAX_MEM_SIZE)); [lia|]|].
  - eapply copy_mem_raw_keeps; done.
  - intros m [Hm Hl]. eapply prim_last. apply prim_set_mem; [lia | done | done].
Qed.

(** *** The world state *)

Lemma ok_world L N k (g' : St) st : ok L k st -> gs_ok g' -> (forall b, live b (gs st) -> live b g') ->
  Forall (fun a => live a g') N -> ok (N ++ L) k (with_gs g' st).
Proof.
  intros (H1 & H2 & H3 & H4) Hg Hl HN. split_and!; cbn [with_gs gs ctxts]; try done; try lia.
  - by eapply ctxs_ok_mono.
  - apply Forall_app. split; [done|]. eapply Forall_impl; [exact H4 | auto].
Qed.

Lemma safe_world {A B} L N k (m : M St A) (X : A -> Prop) (f : A -> M (pstate St) B) U : (1 <= k)%nat ->
  world_keeps L m (fun a g => X a /\ Forall (fun a => live a g) N) U ->
  (forall a, X a -> safe (N ++ L) k (f a) U) -> safe L k (world m ≫= f) U.
Proof.
  intros Hk Hm Hf st Hst. pose proof Hst as (H1 & _ & _ & H4). specialize (Hm (gs st) H1 H4).
  unfold mbind, M_bind, world, zoom. destruct (m (gs st)) as [g' r]. destruct Hm as (Hg & Hl & Hr).
  destruct r as [a|e|].
  - destruct Hr as [HX HN]. apply (Hf a HX). by apply ok_world.
  - apply (ok_okE ([] ++ L) k); [done|]. by apply ok_world.
  - done.
Qed.

Lemma safe_world_last {A} L k (m : M St A) (X : A -> Prop) U : (1 <= k)%nat ->
  world_keeps L m (fun a g => X a /\ Forall (fun a => live a g) []) U -> safe L k (world m) U.
Proof.
  intros Hk Hm st Hst. pose proof (safe_world L [] k m X mret U Hk Hm) as H.
  specialize (H ltac:(intros; apply safe_ret) st Hst). revert H. unfold mbind, M_bind.
  by destruct (world m st) as [? [| |]].
Qed.

Lemma prim_worldR {A} L k (f : St -> result A) V : (1 <= k)%nat ->
  (forall g, gs_ok g -> Forall (fun a => live a g) L -> exists a, f g = Ok a /\ V a) ->
  prim L k (worldR f) V.
Proof.
  intros Hk Hf st Hst. pose proof Hst as (H1 & _ & _ & H4). destruct (Hf _ H1 H4) as (a & E & Ha).
  unfold worldR, getsR. rewrite E. done.
Qed.

Lemma in_live L (g : St) a : Forall (fun a => live a g) L -> In a L -> live a g.
Proof. rewrite List.Forall_forall. auto. Qed.

Lemma prim_address L k a : (1 <= k)%nat -> In a L -> prim L k (worldR (acc_get_address a)) u256.
Proof. intros Hk Ha. apply prim_worldR; [done|]. intros g Hg Hl. apply law_address; eauto using in_live. Qed.
Lemma prim_balance L k a : (1 <= k)%nat -> In a L -> prim L k (worldR (acc_get_balance a)) u256.
Proof. intros Hk Ha. apply prim_worldR; [done|]. intros g Hg Hl. apply law_balance; eauto using in_live. Qed.
Lemma prim_nonce L k a : (1 <= k)%nat -> In a L -> prim L k (worldR (acc_get_nonce a)) u64.
Proof. intros Hk Ha. apply prim_worldR; [done|]. intros g Hg Hl. apply law_nonce; eauto using in_live. Qed.
Lemma prim_code L k a : (1 <= k)%nat -> In a L -> prim L k (worldR (acc_get_code a)) vec_ok.
Proof. intros Hk Ha. apply prim_worldR; [done|]. intros g Hg Hl. apply law_code; eauto using in_live. Qed.
Lemma prim_has_code L k a : (1 <= k)%nat -> In a L -> prim L k (worldR (has_code a)) (fun _ => True).
Proof.
  intros Hk Ha. apply prim_worldR; [done|]. intros g Hg Hl.
  destruct (law_code a g Hg) as (c & E & _); [eauto using in_live|].
  unfold has_code. rewrite E. by eexists.
Qed.

Lemma keeps_get L a U : u256 a ->
  world_keeps L (gs_get a) (fun _ (g : St) => True /\ Forall (fun a => live a g) [a]) U.
Proof.
  intros Ha g Hg _. pose proof (law_get a g Hg Ha) as H. destruct (gs_get a g) as [g' [x| |]]; [|tauto|tauto].
  destruct H as (H1 & H2 & H3). auto.
Qed.
Lemma keeps_create L a b c : u256 a -> u256 b -> vec_ok c ->
  world_keeps L (gs_create a b c) (fun _ (g : St) => True /\ Forall (fun a => live a g) [a]) True.
Proof.
  intros Ha Hb Hc g Hg _. pose proof (law_create a b c g Hg Ha Hb Hc) as H.
  destruct (gs_create a b c g) as [g' [x| |]]; [|tauto|tauto]. destruct H as (H1 & H2 & H3). auto.
Qed.
Lemma keeps_block_hash L o U :
  world_keeps L (gs_get_block_hash o) (fun v (g : St) => u256 v /\ Forall (fun a => live a g) []) U.
Proof.
  intros g Hg _. pose proof (law_block_hash o g Hg) as H.
  destruct (gs_get_block_hash o g) as [g' [x| |]]; [|tauto|tauto]. destruct H as (H1 & H2 & H3). auto.
Qed.
Lemma keeps_load L a key U : In a L -> u256 key ->
  world_keeps L (st_load a key) (fun v (g : St) => u256 v /\ Forall (fun a => live a g) []) U.
Proof.
  intros Ha Hk g Hg Hl. pose proof (law_load a key g Hg (in_live _ _ _ Hl Ha) Hk) as H.
  destruct (st_load a key g) as [g' [x| |]]; [|tauto|tauto]. destruct H as (H1 & H2 & H3). auto.
Qed.
Lemma keeps_store L a key v U : In a L -> u256 key -> u256 v ->
  world_keeps L (st_store a key v) (fun _ (g : St) => True /\ Forall (fun a => live a g) []) U.
Proof.
  intros Ha Hk Hv g Hg Hl. pose proof (law_store a key v g Hg (in_live _ _ _ Hl Ha) Hk Hv) as H.
  destruct (st_store a key v g) as [g' [x| |]]; destruct H as (H1 & H2 & H3); auto. done.
Qed.
Lemma keeps_st_remove L a key U : In a L -> u256 key ->
  world_keeps L (st_remove a key) (fun _ (g : St) => True /\ Forall (fun a => live a g) []) U.
Proof.
  intros Ha Hk g Hg Hl. pose proof (law_st_remove a key g Hg (in_live _ _ _ Hl Ha) Hk) as H.
  destruct (st_remove a key g) as [g' [x| |]]; destruct H as (H1 & H2 & H3); auto. done.
Qed.
Lemma keeps_set_code L a c U : In a L -> vec_ok c ->
  world_keeps L (acc_set_code a c) (fun _ (g : St) => True /\ Forall (fun a => live a g) []) U.
Proof.
  intros Ha Hc g Hg Hl. pose proof (law_set_code a c g Hg (in_live _ _ _ Hl Ha) Hc) as H.
  destruct (acc_set_code a c g) as [g' r]. destruct H as (-> & H1 & H2 & H3). auto.
Qed.

Lemma keeps_pay_to L a b v U : In a L -> In b L -> u256 v ->
  world_keeps L (pay_to a b v) (fun _ (g : St) => True /\ Forall (fun a => live a g) []) U.
Proof.
  intros Ha Hb Hv g Hg Hl. pose proof (in_live _ _ _ Hl Ha) as La. pose proof (in_live _ _ _ Hl Hb) as Lb.
  destruct (law_balance a g Hg La) as (x & Ex & Hx). destruct (law_balance b g Hg Lb) as (y & Ey & Hy).
  unfold pay_to, getsR, mbind, M_bind. rewrite Ex. destruct (Z.ltb_spec x v); [done|].
  rewrite Ey. destruct (_ <? _); [done|].
  pose proof (law_set_balance a (wrap256 (x - v)) g Hg La (wrap256_u256 _)) as H1.
  destruct (acc_set_balance a (wrap256 (x - v)) g) as [g1 r1]. destruct H1 as (-> & G1 & L1 & _).
  pose proof (law_set_balance b (wrap256 (y + v)) g1 G1 (L1 _ Lb) (wrap256_u256 _)) as H2.
  destruct (acc_set_balance b (wrap256 (y + v)) g1) as [g2 r2]. destruct H2 as (-> & G2 & L2 & _). auto 10.
Qed.

(** *** Contexts and handlers *)

Definition handler_refs (h : Handlers) : list Z := match h with HCreate _ a => [a] | _ => [] end.

Lemma prim_push_context L k caller a inp c v h static : (1 <= k)%nat ->
  u256 caller -> In a L -> vec_ok inp -> vec_ok c -> u256 v -> handlers_ok k h -> incl (handler_refs h) L ->
  prim L k (push_context caller a inp c v h static) (fun _ => True).
Proof.
  intros Hk Hcaller Ha Hinp Hc Hv Hh Hr st Hst. pose proof Hst as (H1 & H2 & H3 & H4).
  unfold push_context, get_call_depth, mbind, M_bind, gets.
  replace (wrap16 (zlen (ctxts st))) with (zlen (ctxts st)).
  2: { symmetry. apply Z.mod_small. change M16 with 65536. lia. }
  change MAX_CALL_DEPTH with 1024. destruct (Z.leb_spec 1024 (zlen (ctxts st))); [by apply (ok_okE L k)|].
  cbn [modify]. split; [done|]. split; [done|]. cbn [with_ctxts gs ctxts ctxs_ok length].
  split_and!; try done; try lia.
  - constructor; cbn; try done; try apply Forall_nil_2; [by split; [apply Forall_nil_2|]|].
    apply (handlers_ok_mono k); [done | lia].
  - split; [split; [constructor|cbn; lia] | by left].
  - cbn. constructor; [by eapply in_live|]. destruct h; try constructor; [|done].
    eapply in_live; [exact H4|]. apply Hr. by left.
Qed.

Lemma safe_pop_context {A} L k (f : unit -> M (pstate St) A) U :
  safe L k (f tt) U -> safe L (S k) (pop_context ≫= f) U.
Proof.
  intros Hf st (H1 & H2 & H3 & H4). unfold mbind, M_bind, pop_context, modify. apply Hf.
  split; [done|]. cbn [with_ctxts gs ctxts]. destruct (ctxts st) as [|c l]; cbn [length tail ctxs_ok] in *; [lia|].
  split_and!; try done; try lia. tauto.
Qed.

Lemma safe_pop_context_last L k U : safe L k pop_context U.
Proof.
  intros st (H1 & H2 & H3 & H4). cbn [pop_context modify].
  split; [done|]. cbn [with_ctxts gs ctxts]. destruct (ctxts st) as [|c l]; cbn [length tail ctxs_ok] in *;
    split_and!; try done; try lia; tauto.
Qed.

Lemma prim_with_res L k r : prim L k (modify (fun st => with_res (r st) st)) (fun _ => True).
Proof. apply triple_modify. intros st H. split; [done | exact H]. Qed.

Lemma prim_hh L k h : handlers_ok k h -> prim L k (run_hh h) (fun _ => True).
Proof.
  intros Hh. destruct h as [|p o z|p a]; cbn [run_hh]; [apply prim_with_res | |];
    (apply prim_on_ctx; [cbn in Hh; lia | apply keeps_push; auto with mach]).
Qed.
Lemma prim_eh L k h t : handlers_ok k h -> prim L k (run_eh h t) (fun _ => True).
Proof.
  intros Hh. destruct h as [|p o z|p a]; cbn [run_eh]; [apply prim_with_res | |];
    (apply prim_on_ctx; [cbn in Hh; lia | apply keeps_push; auto with mach]).
Qed.

Lemma keeps_return_call off size out : u64 off -> u64 size -> vec_ok out ->
  keeps (modify (set_return_data out) ;;
         c ← gets id; m ← lift (copy_mem_raw off 0 size (mem c) out 0);
         modify (set_mem m) ;;
         on_stack (Stack.push 1)) (fun _ => True).
Proof.
  intros Ho Hs Hout. eapply keeps_bind; [by apply keeps_set_return|]. intros [] _ n c Hc.
  pose proof (copy_mem_raw_keeps off 0 size n c out 0 Hc Hout u8_0 Ho u64_0 Hs) as Hm.
  unfold mbind at 1, M_bind at 1, gets. cbn [id]. unfold mbind at 1, M_bind at 1, lift.
  destruct (copy_mem_raw _ _ _ _ _ _) as [m| |]; [|done|done]. destruct Hm as [Hm Hl].
  refine (keeps_bind _ _ _ _ (keeps_set_mem m Hm Hl) _ n c Hc).
  intros [] _. apply keeps_push. auto with mach.
Qed.

Lemma safe_rh {A} L k h out (f : unit -> M (pstate St) A) U : (1 <= k)%nat -> handlers_ok k h ->
  incl (handler_refs h) L -> vec_ok out -> (newAcc_alive env = false -> U) ->
  safe L k (f tt) U -> safe L k (run_rh env h out ≫= f) U.
Proof.
  intros Hk Hh Hr Hout HU Hf. destruct h as [|p o z|p a]; cbn [run_rh].
  - eapply prim_bind; [apply prim_with_res|]. intros [] _. done.
  - destruct Hh as (Hp & Ho & Hz). eapply prim_bind; [apply prim_on_ctx; [done|]; by apply keeps_return_call|].
    intros [] _. done.
  - cbn in Hh, Hr. intros st Hst. rewrite bind_assoc. revert st Hst.
    eapply prim_bind; [apply prim_on_ctx; [done|]; by apply keeps_set_return|]. intros [] _.
    destruct (newAcc_alive env); [|by intros st _; apply HU].
    intros st Hst. rewrite bind_assoc. revert st Hst.
    assert (Ha : In a L) by (apply Hr; by left).
    eapply safe_world; [done | by apply keeps_set_code|]. intros _ _.
    intros st Hst. rewrite bind_assoc. revert st Hst.
    eapply prim_bind; [by apply prim_address|]. intros v Hv.
    eapply prim_bind; [apply prim_on_ctx; [done | by apply keeps_push]|]. intros [] _. done.
Qed.

(** *** Control flow *)

Lemma jump_dests_ok n c v : ctx_base n c -> v ∈ jump_dests (prog c) ->
  instr_start (code (prog c)) 0 v /\ v < zlen (code (prog c)).
Proof.
  intros Hc Hv. rewrite (ck_prog _ _ Hc) in Hv. cbn [jump_dests make_program] in Hv.
  apply list_elem_of_In, jump_dests_from_spec in Hv; [tauto | lia | lia].
Qed.

Lemma safe_jump_to L k v U : (1 <= k)%nat -> safe L k (jump_to v) U.
Proof.
  intros Hk st Hst. pose proof (ok_okE _ _ _ Hk Hst) as HE. destruct Hst as (H1 & H2 & H3 & H4).
  unfold jump_to, mbind, M_bind, cur.
  destruct (ctxts st) as [|c l] eqn:E; cbn [length] in H3; [lia|]. cbn [ctxs_ok] in H2.
  destruct H2 as (Hb & Hpc & Hl & Hr).
  case_bool_decide as Hv; [|done]. destruct (jump_dests_ok _ _ _ Hb Hv) as [Hs Hlt].
  unfold on_cur. rewrite E. cbn [modify]. split; [done|].
  cbn [with_ctxts gs ctxts ctxs_ok length]. split_and!; try done; try lia.
  - destruct Hb. by constructor.
  - split; [|by left]. split; [exact Hs | cbn; lia].
Qed.

Lemma pc_start_bound n c : ctx_base n c -> pc_start c -> 0 <= pc c < 2 ^ 63.
Proof.
  intros Hc [Hs Hl]. pose proof (ck_code _ _ Hc) as [_ Hcode]. apply start_ge in Hs. lia.
Qed.

Lemma u256_pc n c : ctx_base n c -> pc_ok c -> u256 (pc c).
Proof. intros Hc [Hs _]. apply u256_small. pose proof (pc_start_bound _ _ Hc Hs). lia. Qed.
Lemma u256_msize n c : ctx_base n c -> u256 (get_used_mem c * 32).
Proof.
  intros Hc. pose proof (ck_mem_size _ _ Hc) as Hm. apply u256_small. unfold get_used_mem, WORD_SIZE.
  change MAX_MEM_SIZE with (2 ^ 25) in Hm.
  pose proof (Z.mul_div_le (zlen (mem c) + 32 - 1) 32). pose proof (Z.div_pos (zlen (mem c) + 32 - 1) 32). lia.
Qed.

(** PUSHn moves the program counter behind its immediate. *)
Lemma push_safe n st : loop_ok st -> running st = true -> 0 <= n <= 32 ->
  match ctxts st with [] => False | c :: _ => imm_of (znth (pc c) (code (prog c))) = n end ->
  match push n st with
  | (st', Ok _) => ok [] 1 st'
  | (st', Throw _) => okE st'
  | (_, Undef) => False
  end.
Proof.
  intros [HE Hstart] Hrun Hn Himm. pose proof HE as (H1 & H2 & H3). unfold running, pc_valid in *.
  unfold push, mbind, M_bind, cur. destruct (ctxts st) as [|c l] eqn:E; [done|].
  destruct H3 as (Hb & Hl & Hr). pose proof (pc_start_bound _ _ Hb Hstart) as Hpc. destruct Hstart as [Hs Hle].
  rewrite (wrap64_small (pc c + n)) by (unfold u64, M64; lia).
  destruct (Z.ltb_spec (pc c + n) (pc c)); [done|].
  destruct (Z.leb_spec (zlen (code (prog c))) (pc c + n)); [done|].
  unfold s_push, stk, on_cur. rewrite E. unfold on_stack, zoom.
  pose proof (Stack.push_ok _ (s c) (ck_stack _ _ Hb)
    (u256_push_imm (Z.to_nat n) _ 0 (pc c + 1) (proj1 (ck_code _ _ Hb)) u256_0)) as Hp.
  destruct (Stack.push _ (s c)) as [s' r]. destruct Hp as [Hw Hres].
  assert (Hb' : forall m b, ctx_base (length l) (set_pc_field m b (set_stack s' c))).
  { intros m b. destruct Hb. by constructor. }
  assert (HE' : okE (with_ctxts (set_stack s' c :: l) st)).
  { split; [done|]. split; [exact H2|]. cbn [with_ctxts gs ctxts]. split; [|done]. destruct Hb; by constructor. }
  destruct Hres as [-> | ->]; [|exact HE'].
  cbn [with_ctxts ctxts modify]. split; [done|]. cbn [with_ctxts gs ctxts ctxs_ok length] in *.
  split_and!; try done; try lia; [apply Hb'|].
  split; [|by left]. split; cbn; [|lia]. rewrite <- Himm. by apply start_next; [|lia].
Qed.

(** *** Small operations *)

Lemma prim_tick L k : prim L k tick (fun _ => True).
Proof. intros st Hst. split; [done | exact Hst]. Qed.
Lemma prim_log L k (f : pstate St -> list LogEntry) :
  prim L k (modify (fun st => mkPState (gs st) (ctxts st) (f st) (selfdestruct_list st) (ticks st) (res st)))
    (fun _ => True).
Proof. intros st Hst. split; [done | exact Hst]. Qed.
Lemma prim_selfdestruct_list L k (f : pstate St -> list Z) :
  prim L k (modify (fun st => mkPState (gs st) (ctxts st) (logs st) (f st) (ticks st) (res st)))
    (fun _ => True).
Proof. intros st Hst. split; [done | exact Hst]. Qed.

Lemma safe_cur_index {A} L k (f : nat -> M (pstate St) A) U : (1 <= k)%nat ->
  (forall p n, (p < n)%nat -> (k <= n)%nat -> safe L n (f p) U) -> safe L k (cur_index ≫= f) U.
Proof.
  intros Hk Hf st (H1 & H2 & H3 & H4). unfold mbind, M_bind, cur_index, gets.
  apply (Hf _ (length (ctxts st))); [lia | lia |]. split_and!; try done; lia.
Qed.

Lemma prim_times {A} L k n (m : M (pstate St) A) V : prim L k m V ->
  prim L k (times n m) (fun l => Forall V l).
Proof.
  intros Hm. eapply triple_weaken; [exact (triple_times _ m V n _ _ Hm) | auto | | auto | done].
  intros l st (H1 & H2 & H3). done.
Qed.

Lemma safe_assoc {A B C} L k (m : M (pstate St) A) (f : A -> M (pstate St) B) (h : B -> M (pstate St) C) U :
  safe L k (m ≫= (fun a => f a ≫= h)) U -> safe L k ((m ≫= f) ≫= h) U.
Proof. intros H st Hst. rewrite bind_assoc. by apply H. Qed.
Lemma safe_ret_bind {A B} L k (a : A) (f : A -> M (pstate St) B) U :
  safe L k (f a) U -> safe L k (mret a ≫= f) U.
Proof. intros H. exact H. Qed.
Lemma safe_if {A} L k (b : bool) (m m' : M (pstate St) A) U :
  (b = true -> safe L k m U) -> (b = false -> safe L k m' U) -> safe L k (if b then m else m') U.
Proof. destruct b; auto. Qed.

End lemmas.

(** *** Automation: one rule per operation *)

Ltac in_refs :=
  unfold live_refs; repeat (rewrite in_app_iff || rewrite (app_comm_cons _ _ _)); cbn; auto 10.
Ltac evm_side :=
  first [ lia | done | solve [auto with mach] | solve [in_refs] | solve [eauto using ck_input, ck_return, ck_code, ck_caller, ck_value, u256_pc, u256_msize with mach] ].

(** The premises of [prim_push_context]. *)
Ltac push_side :=
  first [ exact (incl_nil_l _) | solve [cbn; split_and!; lia || done] | evm_side ].

Ltac evm_bind tac := eapply prim_bind; [tac; evm_side | intros ? ?].

Ltac evm_step :=
  lazymatch goal with
  | |- safe _ _ (mbind _ (mbind _ _)) _ => apply safe_assoc
  | |- safe _ _ (mbind _ (mret _)) _ => apply safe_ret_bind
  | |- safe _ _ (mbind _ pop_addr) _ => evm_bind ltac:(apply prim_pop_addr)
  | |- safe _ _ (mbind _ s_pop) _ => evm_bind ltac:(apply prim_pop)
  | |- safe _ _ (mbind _ s_pop64) _ => evm_bind ltac:(apply prim_pop64)
  | |- safe _ _ (mbind _ (s_push _)) _ => evm_bind ltac:(apply prim_push)
  | |- safe _ _ (mbind _ (stk (Stack.swap _))) _ => evm_bind ltac:(apply prim_swap)
  | |- safe _ _ (mbind _ tick) _ => evm_bind ltac:(apply prim_tick)
  | |- safe _ _ (mbind _ (times _ s_pop)) _ =>
      eapply prim_bind; [apply prim_times, prim_pop; evm_side | intros ? ?]
  | |- safe _ _ (mbind _ (worldR (acc_get_address _))) _ => evm_bind ltac:(apply prim_address)
  | |- safe _ _ (mbind _ (worldR (acc_get_balance _))) _ => evm_bind ltac:(apply prim_balance)
  | |- safe _ _ (mbind _ (worldR (acc_get_nonce _))) _ => evm_bind ltac:(apply prim_nonce)
  | |- safe _ _ (mbind _ (worldR (acc_get_code _))) _ => evm_bind ltac:(apply prim_code)
  | |- safe _ _ (mbind _ (worldR (has_code _))) _ => evm_bind ltac:(apply prim_has_code)
  | |- safe _ _ (mbind _ (world (gs_get _))) _ =>
      eapply safe_world; [evm_side | apply keeps_get; evm_side | intros ? _]
  | |- safe _ _ (mbind _ (world (gs_create _ _ _))) _ =>
      eapply safe_world; [evm_side | apply keeps_create; evm_side | intros ? _]
  | |- safe _ _ (mbind _ (world (pay_to _ _ _))) _ =>
      eapply safe_world; [evm_side | apply keeps_pay_to; evm_side | intros ? _]
  | |- safe _ _ (mbind _ (world (gs_get_block_hash _))) _ =>
      eapply safe_world; [evm_side | apply keeps_block_hash | intros ? ?]
  | |- safe _ _ (mbind _ (world (st_load _ _))) _ =>
      eapply safe_world; [evm_side | apply keeps_load; evm_side | intros ? ?]
  | |- safe _ _ (mbind _ (world (st_remove _ _))) _ =>
      eapply safe_world; [evm_side | apply keeps_st_remove; evm_side | intros ? ?]
  | |- safe _ _ (world (st_store _ _ _)) _ =>
      eapply safe_world_last; [evm_side | apply keeps_store; evm_side]
  | |- safe _ _ (mbind _ (copy_from_mem _ _)) _ => evm_bind ltac:(apply prim_copy_from_mem)
  | |- safe _ _ (mbind (fun _ => mbind _ cur) (prepare_mem_access _ _)) _ =>
      apply safe_prepare_cur; [evm_side | evm_side | evm_side | intros ? ? ? ? ?]
  | |- safe _ _ (mbind _ (prepare_mem_access _ _)) _ => evm_bind ltac:(apply prim_prepare)
  | |- safe _ _ (mbind _ cur_index) _ => apply safe_cur_index; [evm_side | intros ? ? ? ?]
  | |- safe _ _ (mbind _ cur) _ => apply safe_cur; [evm_side | intros ? ? ? ? ?]
  | |- safe _ _ (push_context _ _ _ _ _ _ _) _ => eapply prim_last, prim_push_context; try push_side
  | |- safe _ _ (mbind _ (push_context _ _ _ _ _ _ _)) _ =>
      eapply prim_bind; [eapply prim_push_context; try push_side | intros ? ?]
  | |- safe _ _ (stk (Stack.swap _)) _ => eapply prim_last, prim_swap; evm_side
  | |- safe _ _ (stk (Stack.dup _)) _ => eapply prim_last, prim_dup; evm_side
  | |- safe _ _ (s_push _) _ => eapply prim_last, prim_push; evm_side
  | |- safe _ _ (jump_to _) _ => apply safe_jump_to; evm_side
  | |- safe _ _ (copy_mem _ _) _ => apply safe_copy_mem; evm_side
  | |- safe _ _ (mret _) _ => apply safe_ret
  | |- safe _ _ (throw _) _ => apply safe_throw; evm_side
  | |- safe _ _ (mbind _ (if ?b then _ else _)) _ => destruct b
  | |- safe _ _ (if _ then _ else _) _ => apply safe_if; intros ?
  end.
Ltac evm := cbn beta zeta; repeat (evm_step; cbn beta zeta).

Section instructions.
#[local] Opaque Address.generate_address Address.generate_address_for_create2 Address.to_uint256_bytes.
Context {St : Type} `{GS : GlobalState St} `{GL : !GlobalStateLaws St} (env : Env) (Henv : env_ok env).
Implicit Types (st : pstate St) (L : list Z) (k : nat) (U : Prop).

Lemma sload_safe U : safe (St := St) [] 1 sload U.
Proof. unfold sload. evm. Qed.
Lemma log_safe n U : safe (St := St) [] 1 (log n) U.
Proof. unfold log. evm. eapply prim_last, prim_log. Qed.
Lemma mload_safe U : safe (St := St) [] 1 mload U.
Proof.
  unfold mload. evm. eapply prim_bind; [apply (prim_lift _ _ _ u256); [lia|] | intros; evm].
  match goal with Hc : ctx_base _ ?c, Hu : u64 ?o |- _ =>
    assert (Hz : (WORD_SIZE <=? zlen (zdrop o (mem c))) = true); [|pose proof (ck_mem _ _ Hc) as Hm] end.
  { apply Z.leb_le. unfold zdrop. rewrite length_drop. unfold u64, WORD_SIZE in *. lia. }
  unfold Util.from_big_endian. change (32 <? WORD_SIZE) with false. rewrite Hz. apply Z.leb_le in Hz.
  assert (Hb : bytes_ok (ztake WORD_SIZE (zdrop a (mem c)))) by (unfold ztake, zdrop; auto with mach).
  apply be_val_bound in Hb. unfold ztake in *. rewrite length_take_le in Hb by (unfold WORD_SIZE in *; lia). exact Hb.
Qed.

Lemma mstore_safe U : safe (St := St) [] 1 mstore U.
Proof.
  unfold mstore. evm. match goal with Hc : ctx_base _ _ |- _ => destruct Hc end.
  eapply prim_last, prim_set_mem; [lia | unfold zwrite, Util.to_big_endian; auto with mach | by rewrite zlen_zwrite].
Qed.

Lemma mstore8_safe U : safe (St := St) [] 1 mstore8 U.
Proof.
  unfold mstore8. evm. match goal with Hc : ctx_base _ _ |- _ => destruct Hc end.
  eapply prim_last, prim_set_mem; [lia | | by rewrite length_insert].
  apply Forall_insert; [done|]. change 255 with (2 ^ 8 - 1). rewrite land_low by lia.
  apply Z.mod_pos_bound. reflexivity.
Qed.

Lemma safe_lift_hash {A} L k m (f : Z -> M (pstate St) A) U : (1 <= k)%nat ->
  (forall h, u256 h -> safe L k (f h) U) -> safe L k (lift (Address.to_uint256_bytes m true) ≫= f) U.
Proof.
  intros Hk Hf. eapply prim_bind; [|exact Hf]. apply prim_lift; [done|].
  destruct (Address.to_uint256_hash_ok m) as (v & -> & Hv). done.
Qed.

Lemma sha3_safe U : safe (St := St) [] 1 sha3 U.
Proof. unfold sha3. evm. apply safe_lift_hash; [lia|]. intros. evm. Qed.
Lemma extcodehash_safe U : safe (St := St) [] 1 extcodehash U.
Proof. unfold extcodehash, ext_code. evm. apply safe_lift_hash; [lia|]. intros. evm. Qed.

Lemma calldataload_safe U : safe (St := St) [] 1 calldataload U.
Proof.
  unfold calldataload. evm. eapply prim_bind; [apply (prim_lift _ _ _ (fun _ => True)); [lia|] | intros; evm].
  unfold safeAdd. cbv zeta. by destruct (_ <? _).
Qed.

Lemma return_safe : safe (St := St) [] 1 (return_ env) (newAcc_alive env = false).
Proof.
  unfold return_. evm. apply safe_rh; [lia | | | done | done | apply safe_pop_context_last].
  - match goal with Hc : ctx_base _ _ |- _ => apply (handlers_ok_mono _ _ _ (ck_handlers _ _ Hc)) end. lia.
  - unfold live_refs, handler_refs. intros x Hx. right. apply in_app_iff. by left.
Qed.

Lemma revert_safe : safe (St := St) [] 1 revert True.
Proof.
  unfold revert. evm. intros st Hst. unfold mbind, M_bind, lift, throw.
  destruct (Util.parse_revert _) as [x|e|]; [| |done]; by apply (ok_okE [] 1).
Qed.

Lemma stop_safe L k U : (1 <= k)%nat -> safe (St := St) L k stop U.
Proof.
  intros Hk. unfold stop. evm. apply safe_pop_context. eapply prim_last, prim_hh.
  match goal with Hc : ctx_base _ _ |- _ => apply (ck_handlers _ _ Hc) end.
Qed.

Lemma selfdestruct_safe U : safe (St := St) [] 1 selfdestruct U.
Proof.
  unfold selfdestruct. evm. eapply prim_bind; [apply prim_selfdestruct_list|]. intros [] _.
  apply stop_safe. lia.
Qed.

#[local] Hint Resolve SimpleFacts.vec_ok_nil : mach.

Lemma safe_lift_address {A} L k r (f : Z -> M (pstate St) A) U : (1 <= k)%nat ->
  (exists a, r = Ok a /\ 0 <= a < M160) -> (forall a, 0 <= a < M160 -> safe L k (f a) U) ->
  safe L k (lift r ≫= f) U.
Proof. intros Hk (a & -> & Ha) Hf. eapply prim_bind; [|exact Hf]. by apply prim_lift. Qed.

Lemma create_safe op : safe (St := St) [] 1 (create_impl env op) True.
Proof.
  unfold create_impl. evm.
  all: apply safe_lift_address; [lia | apply Address.generate_address_ok || apply Address.create2_ok|].
  all: intros; evm; try evm_side.
  all: cbn; intros x [->|[]]; in_refs.
Qed.

Lemma call_safe op U : safe (St := St) [] 1 (call op) U.
Proof.
  unfold call. evm.
  all: destruct op; unfold call_case; evm.
Qed.

Lemma dispatch_safe op : (forall n, op <> Some (PUSH n)) ->
  safe (St := St) [] 1 (dispatch_op env op) (hazard env op).
Proof.
  intros Hp. destruct op as [op|]; [|cbn; evm]. destruct Henv as (Ho & Hg & Hl).
  destruct op; cbn [dispatch_op hazard]; try (by destruct (Hp n));
    unfold pop_, swap, dup, add, mul, sub, div_, sdiv, mod_, smod, addmod, mulmod, exp_, signextend, lt, gt,
      sgt, slt, eq_, isZero, and_, or_, xor_, not_, byte_, shl, shr, sar, jump, jumpi, pc_, msize, codesize,
      codecopy, extcodesize, extcodecopy, ext_code, returndatasize, returndatacopy, sstore, address, balance,
      origin_, caller_, callvalue, calldatasize, calldatacopy, jumpdest, blockhash, number, gasprice,
      coinbase, timestamp, prevrandao, gaslimit, gas, chanid, selfbalance, basefee, not_implemented.
  all: try solve [evm].
  all: try apply sload_safe; try apply log_safe; try apply mload_safe; try apply mstore_safe;
    try apply mstore8_safe; try apply sha3_safe; try apply extcodehash_safe; try apply calldataload_safe;
    try apply return_safe; try apply revert_safe; try (apply stop_safe; lia); try apply selfdestruct_safe;
    try apply create_safe; try apply call_safe.
Qed.

(** *** The loop *)

Lemma imm_of_push b n : opcode_of b = Some (PUSH n) -> imm_of b = n /\ 0 <= n <= 32.
Proof.
  unfold opcode_of, imm_of. destruct ((0x5f <=? b) && (b <=? 0x7f)) eqn:E1.
  - intros [= <-]. destruct ((0x60 <=? b) && (b <=? 0x7f)) eqn:E2; lia.
  - repeat (match goal with |- (if ?x then _ else _) = _ -> _ => destruct x end; [done|]).
    repeat match goal with |- match ?x with _ => _ end = _ -> _ => destruct x; try done end.
Qed.

Lemma imm_of_not_push b : (forall n, opcode_of b <> Some (PUSH n)) -> imm_of b = 0.
Proof.
  intros Hn. unfold imm_of. destruct ((0x60 <=? b) && (b <=? 0x7f)) eqn:E; [|done].
  destruct (Hn (b - 0x5f)). unfold opcode_of. replace ((0x5f <=? b) && (b <=? 0x7f)) with true by lia. done.
Qed.

Lemma push_or_not (o : option Opcode) :
  (exists n, o = Some (PUSH n)) \/ forall n, o <> Some (PUSH n).
Proof. destruct o as [[]|]; eauto. Qed.

Lemma dispatch_loop st : loop_ok st -> running st = true ->
  match dispatch env st with
  | (st', Ok _) => ok [] 0 st'
  | (st', Throw _) => okE st'
  | (_, Undef) => hazard env (cur_op st)
  end.
Proof.
  intros Hst Hrun. pose proof Hst as [HE Hs]. pose proof HE as (H1 & H2 & H3).
  unfold dispatch, get_op, mbind, M_bind, cur, mret, M_ret, cur_op.
  destruct (ctxts st) as [|c l] eqn:E; [done|].
  set (b := znth (pc c) (code (prog c))).
  destruct (push_or_not (opcode_of b)) as [[n Hn]|Hop].
  - destruct (imm_of_push _ _ Hn) as [Him Hr]. rewrite Hn. cbn [dispatch_op].
    pose proof (push_safe n st Hst Hrun Hr) as Hp. rewrite E in Hp. specialize (Hp Him).
    destruct (push n st) as [st' [[]| |]]; [|done|done]. eapply ok_weaken; [exact Hp | apply incl_nil_l | lia].
  - apply (dispatch_safe (opcode_of b) Hop). destruct H3 as (Hb & Hl & Hr).
    unfold running in Hrun. rewrite E in Hrun. unfold pc_valid in Hrun. cbn [length] in H2.
    split; [done|]. rewrite E. cbn [ctxs_ok length]. split_and!; try done; try lia.
    split; [done|]. right. split; [lia|]. by apply imm_of_not_push.
Qed.

(** A handler leaves the context that runs it alone. *)
Lemma on_ctx_cons {A} p c l (m : M Context A) st : (p < length l)%nat ->
  on_ctx p m (with_ctxts (c :: l) st) =
  let '(st', r) := on_ctx p m (with_ctxts l st) in (with_ctxts (c :: ctxts st') st', r).
Proof.
  intros Hp. unfold on_ctx. cbn [with_ctxts ctxts length].
  replace (S (length l) - 1 - p)%nat with (S (length l - 1 - p)) by lia. cbn [lookup list_lookup].
  destruct (l !! (length l - 1 - p)%nat) as [c0|]; [|done]. by destruct (m c0).
Qed.

Lemma run_eh_cons h t c l st : handlers_ok (length l) h ->
  run_eh h t (with_ctxts (c :: l) st) =
  let '(st', r) := run_eh h t (with_ctxts l st) in (with_ctxts (c :: ctxts st') st', r).
Proof.
  intros Hh. destruct h; cbn [run_eh]; [done | |]; apply on_ctx_cons; cbn in Hh; lia.
Qed.

Lemma with_ctxts_id st l : ctxts st = l -> with_ctxts l st = st.
Proof. intros <-. by destruct st. Qed.

Lemma handle_exception_ok t st : okE st ->
  match handle_exception t st with
  | (st', Ok _) => ok [] 0 st'
  | (st', Throw _) => gs_ok (gs st')
  | (_, Undef) => False
  end.
Proof.
  intros (H1 & H2 & H3). destruct (ctxts st) as [|c l] eqn:E; [done|]. destruct H3 as (Hb & Hl & Hr).
  pose proof (ck_handlers _ _ Hb) as Hh. cbn [length] in H2.
  assert (Hok : ok [] (length l) (with_ctxts l st)).
  { split; [done|]. cbn [with_ctxts gs ctxts]. split_and!; try done; try lia. }
  pose proof (prim_eh [] (length l) (handlers c) t Hh _ Hok) as Heh.
  unfold handle_exception, cur, mbind, M_bind. rewrite E.
  rewrite <- (with_ctxts_id st (c :: l) E), run_eh_cons by done.
  change (with_ctxts l (with_ctxts (c :: l) st)) with (with_ctxts l st).
  destruct (run_eh (handlers c) t (with_ctxts l st)) as [st' [[]|e|]]; [|exact (proj1 Heh)|done].
  destruct Heh as [_ Heh]. cbn [pop_context modify with_ctxts ctxts tail].
  eapply (ok_weaken _ _ [] 0) in Heh; [|apply incl_nil_l|lia]. destruct st'. exact Heh.
Qed.

Lemma step_ok st : ok [] 1 st -> loop_ok (fst (step st)).
Proof.
  intros Hst. pose proof (ok_okE _ _ _ ltac:(done) Hst) as HE. destruct Hst as (H1 & H2 & H3 & _).
  unfold step, on_cur. destruct (ctxts st) as [|c l] eqn:E; cbn [length] in H3; [lia|].
  cbn [modify fst]. destruct H2 as (Hb & [Hs Hpc] & Hl & Hr). pose proof (pc_start_bound _ _ Hb Hs) as Hbound.
  assert (Hb' : forall v b, ctx_base (length l) (set_pc_field v b c)) by (intros; destruct Hb; by constructor).
  split.
  - split; [done|]. cbn [with_ctxts gs ctxts length]. split; [lia|].
    unfold step_ctx. destruct (pc_changed c); split_and!; done || apply Hb'.
  - cbn [with_ctxts ctxts]. unfold step_ctx. destruct Hpc as [-> | [Hlt Him]]; [exact Hs|].
    destruct (pc_changed c); [exact Hs|]. destruct Hs as [Hs Hle].
    split; cbn; rewrite wrap64_small by (unfold u64, M64; lia); [|lia].
    replace (pc c + 1) with (pc c + 1 + imm_of (znth (pc c) (code (prog c)))) by lia. by apply start_next.
Qed.

Lemma turn_ok st : loop_ok st -> running st = true ->
  match turn env st with
  | (st', Ok true) => loop_ok st'
  | (st', Ok false) => gs_ok (gs st') /\ ctxts st' = []
  | (st', Throw _) => gs_ok (gs st')
  | (_, Undef) => hazard env (cur_op st)
  end.
Proof.
  intros Hst Hrun. pose proof (dispatch_loop st Hst Hrun) as Hd. unfold turn.
  destruct (dispatch env st) as [st1 r].
  assert (Hn : match (match r with Throw (EvmException t) => handle_exception t st1 | _ => (st1, r) end) with
               | (st', Ok _) => ok [] 0 st'
               | (st', Throw _) => gs_ok (gs st')
               | (_, Undef) => hazard env (cur_op st)
               end).
  { destruct r as [[]|e|]; [done| |done].
    destruct e; try exact (proj1 Hd). pose proof (handle_exception_ok t st1 Hd) as He.
    by destruct (handle_exception t st1) as [st2 [| |]]. }
  destruct (match r with Throw (EvmException t) => handle_exception t st1 | _ => (st1, r) end) as [st2 r2].
  destruct r2 as [[]|e|]; [|done|done]. destruct (ctxts st2) as [|c l] eqn:E.
  - split; [apply Hn | done].
  - pose proof (step_ok st2) as Hs. destruct (step st2) as [st3 r3]. apply Hs.
    destruct Hn as (G1 & G2 & G3 & G4). split_and!; try done; rewrite E; cbn; try lia.
    rewrite E in G3. cbn in G3. lia.
Qed.

Lemma loop_ok_reaches st st' : loop_ok st -> reaches env st st' -> loop_ok st'.
Proof.
  intros Hst. induction 1 as [|st st' st'' Hr IH Hrun Ht]; [done|].
  pose proof (turn_ok st' (IH Hst) Hrun) as H. by rewrite Ht in H.
Qed.

Lemma start_loop_ok caller callee inp v g : gs_ok g -> live callee g ->
  u256 caller -> u256 v -> vec_ok inp ->
  exists st, start (St := St) caller callee inp v g = (st, Ok tt) /\ loop_ok st.
Proof.
  intros Hg Hl Hc Hv Hi. destruct (law_code callee g Hg Hl) as (code & E & Hcode).
  unfold start, mbind, M_bind, worldR, getsR. cbn [gs]. rewrite E. eexists. split; [reflexivity|].
  split; [|split; [constructor | cbn; lia]].
  split; [done|]. split; [cbn; lia|]. cbn [with_ctxts ctxts gs]. split_and!; [|by repeat constructor|done].
  constructor; cbn; try done; try apply Forall_nil_2. by split; [apply Forall_nil_2|].
Qed.

Lemma ctxs_ok_Forall (g : St) l : ctxs_ok g l ->
  Forall (fun c => zlen (mem c) <= MAX_MEM_SIZE /\ bytes_ok (mem c) /\ Stack.words_ok (s c) /\
                   instr_start (code (prog c)) 0 (pc c)) l.
Proof.
  induction l as [|c l IH]; cbn [ctxs_ok]; constructor.
  - destruct H as (Hb & [[Hs _] _] & _). destruct Hb. done.
  - apply IH, H.
Qed.

(** C1. Safety of the interpreter over any world state that keeps its promises:
    from the state [run] starts in, the loop only goes through states with at
    most 1024 contexts, in which every context has at most 32 MiB of memory, a
    stack of 256-bit words, and a program counter on an instruction boundary,
    never inside the immediate of a PUSH; and one more turn can meet undefined
    behaviour only at REVERT, CREATE, CREATE2 or the RETURN of a constructor. *)
Theorem run_invariant caller callee inp v (g : St) :
  gs_ok g -> live callee g -> u256 caller -> u256 v -> vec_ok inp ->
  exists st0, start caller callee inp v g = (st0, Ok tt) /\
  forall st, reaches env st0 st ->
    (1 <= length (ctxts st) <= 1024)%nat /\
    Forall (fun c => zlen (mem c) <= MAX_MEM_SIZE /\ bytes_ok (mem c) /\ Stack.words_ok (s c) /\
                     instr_start (code (prog c)) 0 (pc c)) (ctxts st) /\
    (running st = true -> snd (turn env st) = Undef -> hazard env (cur_op st)).
Proof.
  intros Hg Hl Hc Hv Hi. destruct (start_loop_ok caller callee inp v g Hg Hl Hc Hv Hi) as (st0 & E & Hst0).
  exists st0. split; [done|]. intros st Hr. pose proof (loop_ok_reaches _ _ Hst0 Hr) as Hst.
  pose proof Hst as [(H1 & H2 & H3) Hs]. split_and!.
  - destruct (ctxts st); [done | cbn; lia].
  - done.
  - destruct (ctxts st) as [|c l]; [done|]. destruct H3 as (Hb & _ & Hr'). constructor; [|by eapply ctxs_ok_Forall].
    destruct Hb, Hs. done.
  - intros Hrun Hu. pose proof (turn_ok st Hst Hrun) as Ht. destruct (turn env st) as [st' r]. cbn in Hu. by subst.
Qed.

End instructions.

Lemma run_invariant_witness :
  let env := mkEnv 1 0 0 (fun _ => 0) (fun _ => ([], [])) true in
  let g := Simple.mkState (Simple.mkBlock 0 0 0 0 0 0 0)
             {[ 7 := (Simple.mkAccount 7 0 [0x60; 0x05; 0x00] 0, ∅) ]} in
  exists st0, start 1 7 [] 0 g = (st0, Ok tt) /\
  forall st, reaches env st0 st -> (length (ctxts st) <= 1024)%nat.
Proof.
  intros env g.
  destruct (run_invariant env (ltac:(by split_and!)) 1 7 [] 0 g) as (st0 & E & H).
  - apply (bool_decide_unpack _). vm_compute. exact I.
  - by apply (bool_decide_unpack _); vm_compute.
  - done.
  - done.
  - apply SimpleFacts.vec_ok_nil.
  - exists st0. split; [exact E|]. intros st Hst. apply (H st Hst).
Defined.

End EvmSafety.
