(* ===== verification/EvmRun.v ===== *)
(** * Runs of the interpreter

    What whole runs of [Processor] do.  The first part separates the
    instructions that only touch the data of the current context from those
    that change the flow of control, and derives termination of straight-line
    code.  The second part executes compiled arithmetic expressions.  The third
    part states the behaviours of the loop, STATICCALL and CREATE that differ
    from what the code's comments or the EVM intend. *)
From S2P Require Import Prelude Monad Keccak Util Rlp Address Stack Bytecode GlobalState Processor.
From S2P Require Import EvmArith EvmMemory EvmSafety.
From stdpp Require Import list gmap.
Local Open Scope Z_scope.

Module EvmRun.
Import Bytecode Processor EvmArith EvmMemory EvmSafety.

(** ** Definitions *)

(** Instructions after which the next one in the code is executed. *)
Definition sequential (op : Opcode) : bool :=
  match op with
  | PUSH _ | JUMP | JUMPI | RETURN | STOP | INVALID | SELFDESTRUCT
  | CREATE | CREATE2 | CALL | CALLCODE | DELEGATECALL | STATICCALL => false
  | _ => true
  end.

(** Code in which no instruction jumps or opens a context. *)
Definition branches (op : Opcode) : bool :=
  match op with
  | JUMP | JUMPI | CREATE | CREATE2 | CALL | CALLCODE | DELEGATECALL | STATICCALL => true
  | _ => false
  end.
Definition straight_line (c : list Z) : Prop :=
  forall i op, instr_start c 0 i -> i < zlen c -> opcode_of (znth i c) = Some op -> branches op = false.

(** Arithmetic expressions, their meaning in the EVM and their code: the right
    operand is computed first, so that the left one is on top. *)
Inductive binop := BAdd | BSub | BMul | BDiv | BMod | BLt | BGt | BEq | BAnd | BOr | BXor.
Inductive expr :=
  | Const (v : Z)
  | Bin (o : binop) (a b : expr).

Definition binop_code (o : binop) : Opcode :=
  match o with
  | BAdd => ADD | BSub => SUB | BMul => MUL | BDiv => DIV | BMod => MOD | BLt => LT | BGt => GT
  | BEq => EQ | BAnd => AND | BOr => OR | BXor => XOR
  end.

Definition binop_eval (o : binop) (x y : Z) : Z :=
  match o with
  | BAdd => (x + y) mod 2 ^ 256
  | BSub => (x - y) mod 2 ^ 256
  | BMul => (x * y) mod 2 ^ 256
  | BDiv => if y =? 0 then 0 else x / y
  | BMod => if y =? 0 then 0 else x mod y
  | BLt => if x <? y then 1 else 0
  | BGt => if y <? x then 1 else 0
  | BEq => if x =? y then 1 else 0
  | BAnd => Z.land x y
  | BOr => Z.lor x y
  | BXor => Z.lxor x y
  end.

Fixpoint eval (e : expr) : Z :=
  match e with
  | Const v => v
  | Bin o a b => binop_eval o (eval a) (eval b)
  end.

Fixpoint compile (e : expr) : list Z :=
  match e with
  | Const v => opcode_val (PUSH 32) :: be_bytes 32 v
  | Bin o a b => compile b ++ compile a ++ [opcode_val (binop_code o)]
  end.

(** MSTORE the result at 0 and return that word. *)
Definition program (e : expr) : list Z :=
  compile e ++ [0x60; 0; 0x52; 0x60; 32; 0x60; 0; 0xf3].

Fixpoint consts_ok (e : expr) : bool :=
  match e with
  | Const v => bool_decide (u256 v)
  | Bin _ a b => consts_ok a && consts_ok b
  end.

(** Stack slots and turns an expression takes. *)
Fixpoint slots (e : expr) : Z :=
  match e with
  | Const _ => 1
  | Bin _ a b => Z.max (slots b) (1 + slots a)
  end.
Fixpoint turns (e : expr) : nat :=
  match e with
  | Const _ => 1
  | Bin _ a b => turns b + (turns a + 1)
  end.

Section defs.
Context {St : Type} `{GS : GlobalState St} (env : Env).

(** On return or exception only the data of the current context, the effects and
    the world have changed. *)
Definition quiet {A} (m : M (pstate St) A) : Prop :=
  forall st c l, ctxts st = c :: l ->
    match m st with
    | (_, Undef) => True
    | (st', _) => exists c', ctxts st' = c' :: l /\ frame c c'
    end.

End defs.

(** ** Quiet operations *)

Section quiet.
Context {St : Type} `{GS : GlobalState St} (env : Env).

Lemma frame_refl c : frame c c. Proof. done. Qed.
Lemma frame_trans c c' c'' : frame c c' -> frame c' c'' -> frame c c''.
Proof. unfold frame. intuition congruence. Qed.
Hint Resolve frame_refl : core.

Lemma quiet_bind {A B} (m : M (pstate St) A) (f : A -> M (pstate St) B) :
  quiet m -> (forall a, quiet (f a)) -> quiet (m ≫= f).
Proof.
  intros Hm Hf st c l E. specialize (Hm st c l E). unfold mbind, M_bind.
  destruct (m st) as [st' [a| |]]; [|done|done]. destruct Hm as (c' & E' & F').
  specialize (Hf a st' c' l E'). destruct (f a st') as [st'' [b| |]]; [| |done];
    destruct Hf as (c'' & E'' & F''); eauto using frame_trans.
Qed.
Lemma quiet_ret {A} (a : A) : quiet (mret a : M (pstate St) A).
Proof. intros st c l E. cbn. eauto. Qed.
Lemma quiet_throw {A} e : quiet (throw e : M (pstate St) A).
Proof. intros st c l E. cbn. eauto. Qed.
Lemma quiet_lift {A} (r : result A) : quiet (lift r : M (pstate St) A).
Proof. intros st c l E. cbn. destruct r; eauto. Qed.
Lemma quiet_cur : quiet (cur : M (pstate St) Context).
Proof. intros st c l E. unfold cur. rewrite E. eauto. Qed.
Lemma quiet_world {A} (m : M St A) : quiet (world m).
Proof. intros st c l E. unfold world, zoom. destruct (m (gs st)) as [g [a| |]]; cbn; eauto. Qed.
Lemma quiet_worldR {A} (f : St -> result A) : quiet (worldR f).
Proof. intros st c l E. unfold worldR, getsR. destruct (f (gs st)); eauto. Qed.
Lemma quiet_stk {A} (m : M (list Z) A) : quiet (St := St) (stk m).
Proof.
  intros st c l E. unfold stk, on_cur, on_stack, zoom. rewrite E.
  destruct (m (s c)) as [s' [a| |]]; [| |done]; (eexists; split; [reflexivity | done]).
Qed.
Lemma quiet_set_mem m : quiet (St := St) (on_cur (modify (set_mem m))).
Proof. intros st c l E. unfold on_cur. rewrite E. eexists. split; [reflexivity | done]. Qed.
Lemma quiet_tick : quiet (St := St) tick.
Proof. intros st c l E. cbn. eauto. Qed.
Lemma quiet_log (f : pstate St -> list LogEntry) :
  quiet (modify (fun st => mkPState (gs st) (ctxts st) (f st) (selfdestruct_list st) (ticks st) (res st))).
Proof. intros st c l E. cbn. eauto. Qed.
Lemma quiet_gets {A} (f : pstate St -> A) : quiet (gets f).
Proof. intros st c l E. cbn. eauto. Qed.
Lemma quiet_if {A} (b : bool) (m m' : M (pstate St) A) : quiet m -> quiet m' -> quiet (if b then m else m').
Proof. by destruct b. Qed.
Lemma quiet_times {A} n (m : M (pstate St) A) : quiet m -> quiet (times n m).
Proof.
  intros Hm. induction n as [|n IH]; cbn [times]; [apply quiet_ret|].
  apply quiet_bind; [done|]. intros a. apply quiet_bind; [done|]. intros. apply quiet_ret.
Qed.

Ltac quiet_step := intros; cbv beta zeta; first
  [ apply quiet_bind | apply quiet_if | apply quiet_stk | apply quiet_cur | apply quiet_world
  | apply quiet_worldR | apply quiet_lift | apply quiet_throw | apply quiet_ret | apply quiet_set_mem
  | apply quiet_tick | apply quiet_gets | apply quiet_log | apply quiet_times ].

Lemma sequential_quiet op : sequential op = true -> quiet (dispatch_op env (Some op)).
Proof.
  intros Hs. destruct op; try discriminate; cbn [dispatch_op];
    unfold pop_, swap, dup, add, mul, sub, div_, sdiv, mod_, smod, addmod, mulmod, exp_, signextend, lt, gt,
      sgt, slt, eq_, isZero, and_, or_, xor_, not_, byte_, shl, shr, sar, pc_, msize, codesize,
      codecopy, extcodesize, extcodecopy, extcodehash, ext_code, returndatasize, returndatacopy, sstore, sload,
      address, balance, mload, mstore, mstore8, copy_mem, log, copy_from_mem, prepare_mem_access, sha3, revert,
      origin_, caller_, callvalue, calldatasize, calldatacopy, calldataload, jumpdest, blockhash, number, gasprice,
      coinbase, timestamp, prevrandao, gaslimit, gas, chanid, selfbalance, basefee, not_implemented,
      pop_addr, s_pop, s_pop64, s_push;
    solve [repeat quiet_step].
Qed.

(** *** Instructions that end the outermost context *)

Definition ends {A} (m : M (pstate St) A) : Prop :=
  forall st c, ctxts st = [c] -> handlers c = HRoot ->
    match m st with
    | (st', Ok _) => ctxts st' = []
    | (st', Throw _) => exists c', ctxts st' = [c'] /\ handlers c' = HRoot
    | (_, Undef) => True
    end.

Lemma ends_bind {A B} (m : M (pstate St) A) (f : A -> M (pstate St) B) :
  quiet m -> (forall a, ends (f a)) -> ends (m ≫= f).
Proof.
  intros Hm Hf st c E Hh. specialize (Hm st c [] E). unfold mbind, M_bind.
  destruct (m st) as [st' [a| |]]; [| |done]; destruct Hm as (c' & E' & F');
    assert (Hh' : handlers c' = HRoot) by (by destruct F' as (_ & _ & _ & _ & ->)); [|eauto].
  by apply (Hf a st' c' E').
Qed.
Lemma ends_cur {A} (f : Context -> M (pstate St) A) :
  (forall c, handlers c = HRoot -> ends (f c)) -> ends (cur ≫= f).
Proof. intros Hf st c E Hh. unfold mbind, M_bind, cur. rewrite E. by apply (Hf c Hh st c). Qed.
Lemma ends_if {A} (b : bool) (m m' : M (pstate St) A) : ends m -> ends m' -> ends (if b then m else m').
Proof. by destruct b. Qed.
Lemma quiet_with_res (f : pstate St -> ExecResult) : quiet (modify (fun st => with_res (f st) st)).
Proof. intros st c l E. cbn. eauto. Qed.
Lemma quiet_selfdestruct_list (f : pstate St -> list Z) :
  quiet (modify (fun st => mkPState (gs st) (ctxts st) (logs st) (f st) (ticks st) (res st))).
Proof. intros st c l E. cbn. eauto. Qed.

Lemma ends_stop : ends stop.
Proof.
  apply ends_cur. intros c Hh st d E _. rewrite Hh. unfold mbind, M_bind. cbn. by rewrite E.
Qed.

Lemma ends_return : ends (return_ env).
Proof.
  unfold return_, copy_from_mem, prepare_mem_access, s_pop64.
  apply ends_bind; [repeat quiet_step|]. intros offset. apply ends_bind; [repeat quiet_step|]. intros size.
  apply ends_cur. intros c Hh. apply ends_bind; [repeat quiet_step|]. intros out. rewrite Hh.
  apply ends_bind; [apply quiet_with_res|]. intros _ st d E _. cbn. by rewrite E.
Qed.
Lemma ends_throw {A} e : ends (throw e : M (pstate St) A).
Proof. intros st c E Hh. cbn. eauto. Qed.

Lemma ends_selfdestruct : ends selfdestruct.
Proof.
  unfold selfdestruct, pop_addr, s_pop. apply ends_cur. intros c _. apply ends_if; [apply ends_throw|].
  do 6 (apply ends_bind; [solve [repeat quiet_step | apply quiet_selfdestruct_list] | intros ?]).
  apply ends_stop.
Qed.

(** *** Straight-line code *)

Lemma push_flow n (st : pstate St) c l : ctxts st = c :: l -> 0 <= pc c -> 0 <= n <= 32 ->
  zlen (code (prog c)) < 2 ^ 63 -> pc c < zlen (code (prog c)) ->
  match push n st with
  | (st', Ok _) => exists c', ctxts st' = c' :: l /\ prog c' = prog c /\ handlers c' = handlers c /\
                     pc c' = pc c + 1 + n /\ pc_changed c' = true
  | (st', Throw _) => exists c', ctxts st' = c' :: l /\ handlers c' = handlers c
  | (_, Undef) => True
  end.
Proof.
  intros E Hpc Hn Hlen Hv. unfold push, mbind, M_bind, cur. rewrite E.
  rewrite wrap64_small by (unfold u64, M64; lia).
  destruct (_ <? _); [cbn; by eauto|]. destruct (_ <=? _); [cbn; by eauto|].
  unfold s_push, stk, on_cur, on_stack, zoom. rewrite E.
  destruct (Stack.push _ _) as [s' [[]| |]]; [|by eexists|done]. cbn [with_ctxts ctxts modify].
  eexists. split; [reflexivity | done].
Qed.

(** One turn of the outermost context moves on, or repeats the very first
    instruction, or ends the run. *)
Definition root_ok (st : pstate St) (c : Context) : Prop :=
  ctxts st = [c] /\ handlers c = HRoot /\ instr_start (code (prog c)) 0 (pc c) /\
  zlen (code (prog c)) < 2 ^ 63 /\ straight_line (code (prog c)).

Lemma step_flow (st : pstate St) c l : ctxts st = c :: l -> 0 <= pc c < 2 ^ 63 + 64 ->
  step st = (with_ctxts (set_pc_field (if pc_changed c then pc c else pc c + 1) false c :: l) st, Ok tt).
Proof.
  intros E Hpc. unfold step, on_cur. rewrite E. cbn [modify]. unfold step_ctx.
  rewrite wrap64_small by (unfold u64, M64; lia). by destruct (pc_changed c).
Qed.

Lemma root_exception t (st : pstate St) c : ctxts st = [c] -> handlers c = HRoot ->
  exists st', handle_exception t st = (st', Ok tt) /\ ctxts st' = [].
Proof.
  intros E Hh. unfold handle_exception, mbind, M_bind, cur. rewrite E, Hh.
  eexists. split; [reflexivity|]. cbn. by rewrite E.
Qed.

(** What one instruction of the outermost context leaves. *)
Lemma root_dispatch st c : root_ok st c -> pc c < zlen (code (prog c)) ->
  match dispatch env st with
  | (_, Undef) => True
  | (st', Throw _) => exists c', ctxts st' = [c'] /\ handlers c' = HRoot
  | (st', Ok _) =>
      ctxts st' = [] \/
      exists c', ctxts st' = [c'] /\ handlers c' = HRoot /\ prog c' = prog c /\
        (pc c' = pc c /\ pc_changed c' = pc_changed c /\ imm_of (znth (pc c) (code (prog c))) = 0 \/
         pc c' = pc c + 1 + imm_of (znth (pc c) (code (prog c))) /\ pc_changed c' = true)
  end.
Proof.
  intros (E & Hh & Hs & Hlen & Hsl) Hv. pose proof (start_ge _ _ _ Hs) as Hpc.
  unfold dispatch, get_op, mbind at 1 2, M_bind at 1 2, cur. rewrite E. cbn [mret M_ret].
  destruct (opcode_of (znth (pc c) (code (prog c)))) as [op|] eqn:Eop; [|cbn; eauto].
  destruct (push_or_not (Some op)) as [[n [= ->]]|Hnp].
  { destruct (imm_of_push _ _ Eop) as [Him Hn]. cbn [dispatch_op].
    pose proof (push_flow n st c [] E Hpc Hn Hlen Hv) as Hp.
    destruct (push n st) as [st' [[]| |]]; [| |done].
    - destruct Hp as (c' & E' & Hp' & Hh' & Hpc' & Hch). right. exists c'. rewrite Him. rewrite Hh', Hh. auto 10.
    - destruct Hp as (c' & E' & Hh'). exists c'. by rewrite Hh'. }
  assert (Him : imm_of (znth (pc c) (code (prog c))) = 0) by (apply imm_of_not_push; by rewrite Eop).
  destruct (sequential op) eqn:Eseq.
  - pose proof (sequential_quiet op Eseq st c [] E) as Hq.
    destruct (dispatch_op env (Some op) st) as [st' [a| |]]; [| |done];
      destruct Hq as (c' & E' & F1 & F2 & F3 & F4 & F5); [right|]; exists c'; rewrite F5, Hh; [|done].
    rewrite F1, F2, F3. auto 10.
  - pose proof (Hsl _ _ Hs Hv Eop) as Hb.
    assert (Hend : ends (dispatch_op env (Some op))).
    { destruct op; try discriminate; try (by destruct (Hnp n)); cbn [dispatch_op].
      all: first [apply ends_stop | apply ends_return | apply ends_selfdestruct]. }
    specialize (Hend st c E Hh). destruct (dispatch_op env (Some op) st) as [st' [a| |]]; auto.
Qed.

Lemma root_turn st c : root_ok st c -> pc c < zlen (code (prog c)) ->
  match turn env st with
  | (st', Ok true) => exists c', root_ok st' c' /\ prog c' = prog c /\ pc_changed c' = false /\
                        (pc c < pc c' \/ pc c' = pc c /\ pc_changed c = true)
  | _ => True
  end.
Proof.
  intros Hok Hv. pose proof (root_dispatch st c Hok Hv) as Hd. destruct Hok as (E & Hh & Hs & Hlen & Hsl).
  pose proof (start_ge _ _ _ Hs) as Hpc. unfold turn. destruct (dispatch env st) as [st1 [[]|e|]]; [| |done].
  - destruct Hd as [-> | (c' & E1 & Hh1 & Hp1 & Hd)]; [done|].
    pose proof (imm_of_range (znth (pc c) (code (prog c)))) as Him.
    rewrite E1, (step_flow st1 c' [] E1) by (destruct Hd as [(-> & _)|(-> & _)]; lia).
    exists (set_pc_field (if pc_changed c' then pc c' else pc c' + 1) false c').
    split; [|split; [exact Hp1 | split; [reflexivity|]]].
    + split; [reflexivity|]. cbn [set_pc_field handlers prog pc]. rewrite Hp1. split_and!; try done.
      destruct Hd as [(H1 & H2 & H3)|(H1 & ->)]; [rewrite H1, H2 | rewrite H1; by apply start_next].
      destruct (pc_changed c); [done|].
      replace (pc c + 1) with (pc c + 1 + imm_of (znth (pc c) (code (prog c)))) by lia. by apply start_next.
    + cbn [set_pc_field pc]. destruct Hd as [(-> & -> & _)|(-> & ->)]; destruct (pc_changed c); auto; left; lia.
  - destruct Hd as (c' & E1 & Hh1). destruct e; try done.
    destruct (root_exception t st1 c' E1 Hh1) as (st2 & -> & ->). done.
Qed.

Lemma root_loop : forall fuel st c, root_ok st c ->
  zlen (code (prog c)) - pc c + (if pc_changed c then 1 else 0) <= Z.of_nat fuel ->
  run_loop env fuel st <> None.
Proof.
  induction fuel as [|fuel IH]; intros st c Hok Hf; pose proof Hok as (E & _); cbn [run_loop]; rewrite E;
    destruct (pc_valid c) eqn:Hv; try done; unfold pc_valid in Hv; apply Z.ltb_lt in Hv.
  - destruct (pc_changed c); lia.
  - pose proof (root_turn st c Hok Hv) as Ht. destruct (turn env st) as [st' [[]| |]]; try done.
    destruct Ht as (c' & Hok' & Hp & Hc & Hd). apply (IH st' c' Hok'). rewrite Hp, Hc.
    destruct Hd as [Hd|[-> Hd]]; [destruct (pc_changed c) | rewrite Hd in Hf]; lia.
Qed.

Lemma run_loop_mono n m st r : run_loop env n st = Some r -> run_loop env (n + m) st = Some r.
Proof.
  revert st; induction n as [|n IH]; intros st; cbn [run_loop Nat.add].
  - destruct m; cbn [run_loop]; destruct (ctxts st) as [|c l]; try done; by destruct (pc_valid c).
  - destruct (ctxts st) as [|c l]; [done|]. destruct (pc_valid c); [|done].
    destruct (turn env st) as [st' [[]| |]]; auto.
Qed.

Lemma run_mono n m caller callee inp v (g : St) r :
  run env n caller callee inp v g = Some r -> run env (n + m) caller callee inp v g = Some r.
Proof.
  unfold run. destruct (start caller callee inp v g) as [st [[]| |]]; [|done|done].
  destruct (run_loop env n st) as [r'|] eqn:E; [|done]. by rewrite (run_loop_mono _ m _ _ E).
Qed.

Lemma start_root caller callee inp v (g : St) c : acc_get_code callee g = Ok c ->
  start caller callee inp v g =
  (mkPState g [new_context caller callee inp v (make_program c) HRoot false] [] [] 0
     (mkResult returned outOfBounds []), Ok tt).
Proof. intros E. unfold start, mbind, M_bind, worldR, getsR. cbn [gs]. by rewrite E. Qed.

(** *** Single turns *)

Definition adv (p : Z) (stack : list Z) (c : Context) : Context := set_pc_field p false (set_stack stack c).

Lemma turn_intro st st' c c' l : dispatch env st = (st', Ok tt) -> ctxts st' = c' :: l ->
  0 <= pc c' < 2 ^ 63 + 64 -> c = set_pc_field (if pc_changed c' then pc c' else pc c' + 1) false c' ->
  turn env st = (with_ctxts (c :: l) st', Ok true).
Proof. intros Hd E Hpc ->. unfold turn. rewrite Hd, E. by rewrite (step_flow st' c' l E Hpc). Qed.

Lemma dispatch_at (st : pstate St) c l pre b post : ctxts st = c :: l ->
  code (prog c) = pre ++ b :: post -> pc c = zlen pre -> dispatch env st = dispatch_op env (opcode_of b) st.
Proof.
  intros E Hc Hpc. unfold dispatch, get_op, mbind, M_bind, cur. rewrite E. cbn [mret M_ret].
  rewrite Hc, Hpc, znth_app by lia. rewrite Z.ltb_irrefl, Z.sub_diag. done.
Qed.

Lemma stack_push v (st : list Z) : zlen st < 1024 -> Stack.push v st = (v :: st, Ok tt).
Proof.
  intros H. unfold Stack.push, Stack.size, Stack.MAX_SIZE. destruct (Z.eqb_spec (zlen st) 1024); [lia | done].
Qed.

Lemma zlen_app (l k : list Z) : zlen (l ++ k) = zlen l + zlen k.
Proof. rewrite length_app. lia. Qed.
Lemma zlen_cons (x : Z) l : zlen (x :: l) = 1 + zlen l.
Proof. cbn [length]. lia. Qed.

Lemma zslice_middle (pre imm post : list Z) : zslice (zlen pre) (zlen imm) (pre ++ imm ++ post) = imm.
Proof.
  unfold zslice, ztake, zdrop. rewrite !Nat2Z.id, drop_app_length, take_app_length. done.
Qed.

Lemma turn_push (st : pstate St) c l pre imm post : ctxts st = c :: l ->
  code (prog c) = pre ++ (0x5f + zlen imm) :: imm ++ post -> pc c = zlen pre -> 1 <= zlen imm <= 32 ->
  vec_ok (code (prog c)) -> zlen (s c) < 1024 ->
  turn env st = (with_ctxts (adv (zlen pre + 1 + zlen imm) (be_val imm :: s c) c :: l) st, Ok true).
Proof.
  intros E Hc Hpc Him [Hb Hlen] Hs.
  assert (Hz : zlen (code (prog c)) = zlen pre + 1 + zlen imm + zlen post).
  { rewrite Hc, zlen_app, zlen_cons, zlen_app. lia. }
  assert (Hop : opcode_of (0x5f + zlen imm) = Some (PUSH (zlen imm))).
  { unfold opcode_of. replace ((0x5f <=? 0x5f + zlen imm) && (0x5f + zlen imm <=? 0x7f)) with true by lia.
    do 2 f_equal. lia. }
  assert (Hd : dispatch env st = (with_ctxts (set_pc (zlen pre + 1 + zlen imm) (set_stack (be_val imm :: s c) c) :: l) st, Ok tt)).
  { rewrite (dispatch_at st c l pre _ _ E Hc Hpc), Hop. cbn [dispatch_op].
    unfold push, mbind, M_bind, cur. rewrite E, Hpc, wrap64_small by (unfold u64, M64; lia).
    destruct (Z.ltb_spec (zlen pre + zlen imm) (zlen pre)); [lia|].
    destruct (Z.leb_spec (zlen (code (prog c))) (zlen pre + zlen imm)); [lia|].
    rewrite Nat2Z.id, (push_imm_spec (code (prog c)) (length imm)), Z.mul_0_l, Z.add_0_l by (done || lia || (split; [lia | apply Z.pow_pos_nonneg; lia])).
    assert (Hsl : zslice (zlen pre + 1) (zlen imm) (code (prog c)) = imm).
    { rewrite Hc. change (pre ++ (0x5f + zlen imm) :: imm ++ post) with (pre ++ [0x5f + zlen imm] ++ imm ++ post).
      rewrite app_assoc. replace (zlen pre + 1) with (zlen (pre ++ [0x5f + zlen imm])) by (rewrite zlen_app; done).
      apply zslice_middle. }
    rewrite Hsl. unfold s_push, stk, on_cur, on_stack, zoom. rewrite E, stack_push by done. done. }
  eapply eq_trans; [eapply turn_intro; [exact Hd | reflexivity | cbn; lia | reflexivity] | reflexivity].
Qed.

Lemma turn_seq (st st' : pstate St) c c' l pre b post op : ctxts st = c :: l ->
  code (prog c) = pre ++ b :: post -> pc c = zlen pre -> zlen (code (prog c)) < 2 ^ 63 ->
  opcode_of b = Some op -> dispatch_op env (Some op) st = (st', Ok tt) ->
  ctxts st' = c' :: l -> pc c' = pc c -> pc_changed c' = false ->
  turn env st = (with_ctxts (set_pc_field (zlen pre + 1) false c' :: l) st', Ok true).
Proof.
  intros E Hc Hpc Hlen Hop Hd E' Hpc' Hch. rewrite Hc, zlen_app in Hlen.
  eapply turn_intro; [|exact E' | lia |].
  - by rewrite (dispatch_at st c l pre b post E Hc Hpc), Hop.
  - by rewrite Hch, Hpc', Hpc.
Qed.

(** The instructions that pop two words and push a function of them. *)
Lemma binop_run (F : Z -> Z -> Z) (st : pstate St) c l x y rest : ctxts st = c :: l -> s c = x :: y :: rest ->
  zlen rest < 1024 ->
  (a ← s_pop; b ← s_pop; s_push (F a b)) st = (with_ctxts (set_stack (F x y :: rest) c :: l) st, Ok tt).
Proof.
  intros E Hs Hl. unfold s_pop, s_push, stk, on_cur, on_stack, zoom, mbind, M_bind. rewrite E, Hs. cbn [Stack.pop].
  cbn [with_ctxts ctxts set_stack s Stack.pop]. by rewrite stack_push.
Qed.

Lemma binop_dispatch o (st : pstate St) c l x y rest : ctxts st = c :: l -> s c = x :: y :: rest ->
  zlen rest < 1024 ->
  dispatch_op env (Some (binop_code o)) st =
  (with_ctxts (set_stack (binop_eval o x y :: rest) c :: l) st, Ok tt).
Proof. intros E Hs Hl. destruct o; exact (binop_run _ st c l x y rest E Hs Hl). Qed.

Lemma binop_opcode o : opcode_of (opcode_val (binop_code o)) = Some (binop_code o).
Proof. by destruct o. Qed.

Lemma run_loop_turn f (st st' : pstate St) c l : ctxts st = c :: l -> pc_valid c = true ->
  turn env st = (st', Ok true) -> run_loop env (S f) st = run_loop env f st'.
Proof. intros E Hv Ht. cbn [run_loop]. by rewrite E, Hv, Ht. Qed.

Lemma pc_valid_at c pre b post : code (prog c) = pre ++ b :: post -> pc c = zlen pre -> pc_valid c = true.
Proof. intros Hc Hpc. unfold pc_valid. rewrite Hc, Hpc, zlen_app, zlen_cons. lia. Qed.

Lemma slots_pos e : 1 <= slots e.
Proof. induction e; cbn [slots]; lia. Qed.

Lemma run_compile e : consts_ok e = true -> forall (st : pstate St) c l pre post f,
  ctxts st = c :: l -> code (prog c) = pre ++ compile e ++ post -> pc c = zlen pre ->
  vec_ok (code (prog c)) -> zlen (s c) + slots e <= 1024 ->
  run_loop env (turns e + f) st =
  run_loop env f (with_ctxts (adv (zlen pre + zlen (compile e)) (eval e :: s c) c :: l) st).
Proof.
  induction e as [v|o a IHa b IHb]; intros Hok st c l pre post f E Hc Hpc Hv Hs;
    cbn [consts_ok slots turns compile eval] in *.
  - apply bool_decide_eq_true in Hok. cbn [Nat.add]. apply (run_loop_turn _ _ _ c l E).
    { by eapply pc_valid_at. }
    pose proof (turn_push st c l pre (be_bytes 32 v) post E) as Ht. rewrite length_be_bytes in Ht.
    rewrite Ht by (done || lia). rewrite be_val_be_bytes, Z.mod_small by exact Hok.
    rewrite zlen_cons, length_be_bytes. do 4 f_equal. lia.
  - apply andb_prop in Hok as [Hoka Hokb]. pose proof (slots_pos a). rewrite <- !Nat.add_assoc.
    rewrite (IHb Hokb st c l pre (compile a ++ [opcode_val (binop_code o)] ++ post) _ E); try done; try lia.
    2: { by rewrite Hc, <- !app_assoc. }
    rewrite (IHa Hoka _ (adv (zlen pre + zlen (compile b)) (eval b :: s c) c) l (pre ++ compile b)
      ([opcode_val (binop_code o)] ++ post)); try done.
    2: { cbn [adv set_pc_field set_stack prog]. by rewrite Hc, <- !app_assoc. }
    2: { cbn [adv set_pc_field pc]. by rewrite zlen_app. }
    2: { cbn [adv set_pc_field set_stack s]. rewrite zlen_cons. lia. }
    set (c2 := adv _ (eval a :: _) _).
    assert (Hc2 : code (prog c2) = ((pre ++ compile b) ++ compile a) ++ opcode_val (binop_code o) :: post).
    { cbn [c2 adv set_pc_field set_stack prog]. by rewrite Hc, <- !app_assoc. }
    assert (Hpc2 : pc c2 = zlen ((pre ++ compile b) ++ compile a)).
    { cbn [c2 adv set_pc_field pc]. by rewrite (zlen_app (pre ++ compile b)). }
    set (st2 := with_ctxts (c2 :: l) _).
    pose proof (binop_dispatch o st2 c2 l (eval a) (eval b) (s c) eq_refl eq_refl ltac:(lia)) as Hd.
    pose proof (turn_seq st2 _ c2 _ l _ _ _ _ eq_refl Hc2 Hpc2 (proj2 Hv) (binop_opcode o) Hd
      eq_refl eq_refl eq_refl) as Ht.
    cbn [Nat.add]. rewrite (run_loop_turn f st2 _ c2 l eq_refl (pc_valid_at _ _ _ _ Hc2 Hpc2) Ht).
    replace (zlen pre + zlen (compile b ++ compile a ++ [opcode_val (binop_code o)]))
      with (zlen ((pre ++ compile b) ++ compile a) + 1); [reflexivity|].
    rewrite !zlen_app, zlen_cons. cbn [length]. lia.
Qed.

(** The code that returns the top of the stack. *)
Lemma mstore_run (st : pstate St) c l v rest : ctxts st = c :: l -> s c = 0 :: v :: rest -> mem c = [] ->
  mstore st = (with_ctxts (set_mem (be_bytes 32 v) (set_stack rest c) :: l) st, Ok tt).
Proof.
  intros E Hs Hm. unfold mstore, prepare_mem_access, s_pop, s_pop64, stk, on_cur, on_stack, zoom, lift, cur, mbind, M_bind.
  rewrite E, Hs. cbn [Stack.pop64 Stack.pop mbind M_bind Z.ltb Z.compare]. 
  cbn [with_ctxts ctxts set_stack s mem Stack.pop]. rewrite Hm.
  change (prepare_mem 0 WORD_SIZE []) with (Ok (zresize 32 [])).
  cbn [modify set_mem mem with_ctxts ctxts]. unfold Util.to_big_endian.
  change (zwrite 0 (be_bytes 32 v) (zresize 32 [])) with (be_bytes 32 v). done.
Qed.

Lemma bind_run {A B} (m : M (pstate St) A) (f : A -> M (pstate St) B) st st' a :
  m st = (st', Ok a) -> (m ≫= f) st = f a st'.
Proof. intros E. unfold mbind, M_bind. by rewrite E. Qed.
Lemma pop64_run (st : pstate St) c l x rest : ctxts st = c :: l -> s c = x :: rest -> x < M64 ->
  s_pop64 st = (with_ctxts (set_stack rest c :: l) st, Ok x).
Proof.
  intros E Hs Hx. unfold s_pop64, stk, on_cur, on_stack, zoom, Stack.pop64, mbind, M_bind. rewrite E, Hs.
  cbn. destruct (Z.ltb_spec (M64 - 1) x); [lia | reflexivity].
Qed.
Lemma pop_run (st : pstate St) c l x rest : ctxts st = c :: l -> s c = x :: rest ->
  s_pop st = (with_ctxts (set_stack rest c :: l) st, Ok x).
Proof. intros E Hs. unfold s_pop, stk, on_cur, on_stack, zoom. by rewrite E, Hs. Qed.
Lemma worldR_run {A} (f : St -> result A) (h : A -> M (pstate St) unit) st r :
  (worldR f ≫= h) st = (r, Ok tt) -> exists a, f (gs st) = Ok a /\ h a st = (r, Ok tt).
Proof. unfold worldR, getsR, mbind, M_bind. destruct (f (gs st)); eauto; done. Qed.
Lemma cur_run (st : pstate St) c l : ctxts st = c :: l -> cur st = (st, Ok c).
Proof. intros E. unfold cur. by rewrite E. Qed.

Lemma copy_from_mem_run (st : pstate St) c l : ctxts st = c :: l -> length (mem c) = 32%nat ->
  copy_from_mem 0 32 st = (st, Ok (mem c)).
Proof.
  intros E Hm.
  assert (Hp : prepare_mem 0 32 (mem c) = Ok (mem c)) by (unfold prepare_mem; rewrite Hm; reflexivity).
  assert (Hz : zslice 0 32 (mem c) = mem c) by (apply take_ge; rewrite Hm; cbn; lia).
  destruct st as [g cs lg sd tk rs]. cbn in E. subst cs.
  unfold copy_from_mem, prepare_mem_access, lift, on_cur, cur, mbind, M_bind. cbn [ctxts]. rewrite Hp.
  cbn. rewrite Hz. by destruct c.
Qed.

Lemma return_run (st : pstate St) c rest : ctxts st = [c] -> handlers c = HRoot -> s c = 0 :: 32 :: rest ->
  length (mem c) = 32%nat ->
  return_ env st = (with_ctxts [] (with_res (mkResult returned (ex (res st)) (mem c)) st), Ok tt).
Proof.
  intros E Hh Hs Hm. unfold return_.
  rewrite (bind_run _ _ _ _ _ (pop64_run st c [] _ _ E Hs eq_refl)).
  erewrite bind_run; [|by eapply pop64_run]. erewrite bind_run; [|by eapply cur_run].
  erewrite bind_run; [|by eapply copy_from_mem_run]. cbn [set_stack handlers mem]. by rewrite Hh.
Qed.

Lemma run_push1 f (st : pstate St) c l pre b post : ctxts st = c :: l ->
  code (prog c) = pre ++ 0x60 :: b :: post -> pc c = zlen pre -> vec_ok (code (prog c)) -> zlen (s c) < 1024 ->
  run_loop env (S f) st = run_loop env f (with_ctxts (adv (zlen pre + 2) (b :: s c) c :: l) st).
Proof.
  intros E Hc Hpc Hv Hs.
  rewrite (run_loop_turn _ st _ c l E (pc_valid_at _ _ _ _ Hc Hpc)
    (turn_push st c l pre [b] post E Hc Hpc ltac:(done) Hv Hs)).
  replace (zlen pre + 1 + zlen [b]) with (zlen pre + 2) by (cbn [length]; lia). done.
Qed.

Lemma run_mstore f (st : pstate St) c l pre post v rest : ctxts st = c :: l ->
  code (prog c) = pre ++ 0x52 :: post -> pc c = zlen pre -> vec_ok (code (prog c)) ->
  pc_changed c = false -> s c = 0 :: v :: rest -> mem c = [] ->
  run_loop env (S f) st =
  run_loop env f (with_ctxts (set_mem (be_bytes 32 v) (adv (zlen pre + 1) rest c) :: l) st).
Proof.
  intros E Hc Hpc Hv Hch Hs Hm.
  rewrite (run_loop_turn _ st _ c l E (pc_valid_at _ _ _ _ Hc Hpc)
    (turn_seq st _ c _ l _ _ _ MSTORE E Hc Hpc (proj2 Hv) eq_refl (mstore_run st c l v rest E Hs Hm)
       eq_refl eq_refl Hch)). done.
Qed.

Lemma run_loop_return f (st : pstate St) c pre rest : ctxts st = [c] ->
  code (prog c) = pre ++ [0xf3] -> pc c = zlen pre -> handlers c = HRoot -> s c = 0 :: 32 :: rest ->
  length (mem c) = 32%nat ->
  run_loop env (S f) st = Some (with_ctxts [] (with_res (mkResult returned (ex (res st)) (mem c)) st), Ok tt).
Proof.
  intros E Hc Hpc Hh Hs Hm. cbn [run_loop]. rewrite E, (pc_valid_at _ _ _ _ Hc Hpc).
  unfold turn. rewrite (dispatch_at st c [] _ _ _ E Hc Hpc).
  change (dispatch_op env (opcode_of 0xf3)) with (return_ env).
  by rewrite (return_run st c rest E Hh Hs Hm).
Qed.

Lemma run_return (st : pstate St) c pre f v : ctxts st = [c] -> handlers c = HRoot -> mem c = [] ->
  code (prog c) = pre ++ [0x60; 0; 0x52; 0x60; 32; 0x60; 0; 0xf3] -> pc c = zlen pre ->
  vec_ok (code (prog c)) -> s c = [v] ->
  run_loop env (5 + f) st =
  Some (with_ctxts [] (with_res (mkResult returned (ex (res st)) (be_bytes 32 v)) st), Ok tt).
Proof.
  intros E Hh Hm Hc Hpc Hv Hs. cbn [Nat.add].
  assert (Hsplit : forall k, code (prog c) =
    (pre ++ take k [0x60; 0; 0x52; 0x60; 32; 0x60; 0; 0xf3]) ++ drop k [0x60; 0; 0x52; 0x60; 32; 0x60; 0; 0xf3]).
  { intros k. by rewrite <- app_assoc, take_drop. }
  assert (Hz : forall k, (k <= 8)%nat ->
    zlen (pre ++ take k [0x60; 0; 0x52; 0x60; 32; 0x60; 0; 0xf3]) = zlen pre + Z.of_nat k).
  { intros k Hk. rewrite zlen_app, length_take. cbn [length]. lia. }
  rewrite (run_push1 _ st c [] pre 0 (drop 2 [0x60; 0; 0x52; 0x60; 32; 0x60; 0; 0xf3])) by (done || by rewrite Hs).
  erewrite run_mstore; [|reflexivity | exact (Hsplit 2%nat) | by rewrite Hz by lia | done | done
    | cbn; by rewrite Hs | done].
  erewrite run_push1; [|reflexivity | exact (Hsplit 3%nat) | rewrite !Hz by lia; cbn; lia | done | done].
  erewrite run_push1; [|reflexivity | exact (Hsplit 5%nat) | rewrite !Hz by lia; cbn; lia | done | done].
  erewrite run_loop_return; [|reflexivity | exact (Hsplit 7%nat) | rewrite !Hz by lia; cbn; lia | done | done | done].
  done.
Qed.

Lemma compile_bytes_ok e : bytes_ok (compile e).
Proof.
  induction e as [v|o a IHa b IHb]; cbn [compile].
  - constructor; [by split | apply be_bytes_ok].
  - apply bytes_ok_app. split; [done|]. apply bytes_ok_app. split; [done|].
    constructor; [|constructor]. by destruct o.
Qed.

Lemma program_vec_ok e : zlen (program e) < 2 ^ 63 -> vec_ok (program e).
Proof.
  intros H. split; [|done]. apply bytes_ok_app. split; [apply compile_bytes_ok|].
  by apply (bool_decide_unpack _); vm_compute.
Qed.

(** *** Taking a successful computation apart *)

Lemma peel {A B} (m : M (pstate St) A) (f : A -> M (pstate St) B) st st' c l b : quiet m ->
  ctxts st = c :: l -> (m ≫= f) st = (st', Ok b) ->
  exists a st1 c1, m st = (st1, Ok a) /\ ctxts st1 = c1 :: l /\ frame c c1 /\ f a st1 = (st', Ok b).
Proof.
  intros Hq E. specialize (Hq st c l E). unfold mbind, M_bind.
  destruct (m st) as [st1 [a| |]]; [|done|done]. destruct Hq as (c1 & E1 & F1). eauto 10.
Qed.

Lemma call_case_run callee inp v h static (st st' : pstate St) c l : ctxts st = c :: l ->
  call_case callee inp v h static st = (st', Ok tt) ->
  exists a cd, acc_get_address (acc c) (gs st) = Ok a /\ acc_get_code callee (gs st) = Ok cd /\
    st' = with_ctxts (new_context a callee inp v (make_program cd) h static :: c :: l) st.
Proof.
  intros E. unfold call_case, push_context, get_call_depth, worldR, getsR, gets, cur, mbind, M_bind. rewrite E.
  destruct (acc_get_address (acc c) (gs st)) as [a| |]; [|done|done].
  destruct (acc_get_code callee (gs st)) as [cd| |]; [|done|done].
  destruct (_ <=? _); [done|]. cbn [modify]. intros [= <-]. rewrite E. eauto.
Qed.

(** Operations that leave the world state alone. *)
Definition still {A} (m : M (pstate St) A) : Prop := forall st, gs (fst (m st)) = gs st.

Lemma still_bind {A B} (m : M (pstate St) A) (f : A -> M (pstate St) B) :
  still m -> (forall a, still (f a)) -> still (m ≫= f).
Proof.
  intros Hm Hf st. specialize (Hm st). unfold mbind, M_bind. destruct (m st) as [st' [a| |]]; [|done|done].
  cbn in Hm. by rewrite Hf.
Qed.
Lemma still_stk {A} (m : M (list Z) A) : still (stk m).
Proof.
  intros st. unfold stk, on_cur, on_stack, zoom. destruct (ctxts st) as [|c l]; [done|]. by destruct (m (s c)).
Qed.
Lemma still_cur : still cur.
Proof. intros st. unfold cur. by destruct (ctxts st). Qed.
Lemma still_set_mem m : still (on_cur (modify (set_mem m))).
Proof. intros st. unfold on_cur. by destruct (ctxts st). Qed.
Lemma still_if {A} (b : bool) (m m' : M (pstate St) A) : still m -> still m' -> still (if b then m else m').
Proof. by destruct b. Qed.
Ltac still_step := intros; cbv beta zeta; first
  [ apply still_bind | apply still_if | apply still_stk | apply still_cur | apply still_set_mem
  | solve [intro; reflexivity] ].

Lemma peel_still {A B} (m : M (pstate St) A) (f : A -> M (pstate St) B) st st' c l b : quiet m -> still m ->
  ctxts st = c :: l -> (m ≫= f) st = (st', Ok b) ->
  exists a st1 c1, ctxts st1 = c1 :: l /\ acc c1 = acc c /\ gs st1 = gs st /\ f a st1 = (st', Ok b).
Proof.
  intros Hq Hs E H. destruct (peel m f st st' c l b Hq E H) as (a & st1 & c1 & E1 & E2 & F & H').
  exists a, st1, c1. specialize (Hs st). rewrite E1 in Hs. destruct F as (_ & _ & _ & F & _). auto.
Qed.

(** [H : (m ≫= f) st = _] becomes [f a st1 = _], [E] the contexts of [st1]. *)
Ltac peel_bind H E :=
  eapply peel in H; [|solve [repeat quiet_step] | exact E];
  clear E; destruct H as (? & ? & ? & _ & E & _ & H); cbv beta zeta in H.

Lemma two_call_cases callee inp v h (st st' : pstate St) c l : ctxts st = c :: l ->
  (call_case callee inp v h true ;; call_case callee inp v h false) st = (st', Ok tt) ->
  exists c2 c1, ctxts st' = c2 :: c1 :: c :: l /\
    in_static_mode c2 = false /\ in_static_mode c1 = true /\
    acc c2 = acc c1 /\ input c2 = input c1 /\ prog c2 = prog c1 /\ handlers c2 = handlers c1 /\
    acc_get_address (acc c1) (gs st') = Ok (caller c2).
Proof.
  intros E H. unfold mbind, M_bind in H.
  destruct (call_case callee inp v h true st) as [st1 [[]| |]] eqn:E1; [|done|done].
  apply (call_case_run _ _ _ _ _ _ _ c l E) in E1 as (a & cd & Ha & Hcd & ->).
  eapply call_case_run in H as (a' & cd' & Ha' & Hcd' & ->); [|reflexivity].
  cbn [with_ctxts gs] in Ha', Hcd'. assert (cd' = cd) as -> by congruence.
  eexists _, _. split; [reflexivity|]. done.
Qed.

Ltac peel_still_bind H E G :=
  eapply peel_still in H; [|solve [repeat quiet_step] | solve [repeat still_step] | exact E];
  clear E; let G1 := fresh "G" in
  destruct H as (? & ? & ? & E & _ & G1 & H); rewrite G in G1; clear G;
  rename G1 into G; cbv beta zeta in H.

(** The end of [create_impl], once the address is known. *)
Lemma create_tail (st st' : pstate St) payer a v caller initCode :
  (world (gs_create a v []) ;; world (pay_to payer a v) ;; p ← cur_index;
   push_context caller a [] initCode 0 (HCreate p a) false) st = (st', Ok tt) ->
  exists g1, gs_create a v [] (gs st) = (g1, Ok tt) /\ pay_to payer a v g1 = (gs st', Ok tt).
Proof.
  unfold world, zoom, mbind, M_bind, cur_index, gets, push_context, get_call_depth.
  destruct (gs_create a v [] (gs st)) as [g1 [[]| |]] eqn:E1; [|done|done]. cbn [with_gs gs].
  destruct (pay_to payer a v g1) as [g2 [[]| |]] eqn:E2; [|done|done].
  cbv beta iota zeta. unfold mbind, M_bind, gets. destruct (MAX_CALL_DEPTH <=? _); [done|]. intros [= <-]. eauto.
Qed.

(** What CREATE and CREATE2 do to the world. *)
Lemma create_run op (st st' : pstate St) c l v rest : ctxts st = c :: l -> s c = v :: rest ->
  create_impl env op st = (st', Ok tt) ->
  exists a g1 x, 0 <= a < M160 /\ acc_get_address (acc c) (gs st) = Ok x /\
    gs_create a v [] (gs st) = (g1, Ok tt) /\ pay_to (acc c) a v g1 = (gs st', Ok tt).
Proof.
  intros E Hs H. unfold create_impl in H.
  rewrite (bind_run _ _ _ _ _ (cur_run st c l E)) in H. destruct (in_static_mode c); [done|].
  rewrite (bind_run _ _ _ _ _ (pop_run st c l v rest E Hs)) in H.
  set (st0 := with_ctxts _ st) in H. assert (E0 : ctxts st0 = set_stack rest c :: l) by done.
  assert (G : gs st0 = gs st) by done. clearbody st0.
  unfold s_pop, s_pop64, copy_from_mem, prepare_mem_access in H.
  do 3 peel_still_bind H E0 G. apply worldR_run in H as (addr & Hx & H). rewrite G in Hx.
  destruct (bool_decide (op = CREATE)); rewrite bind_assoc in H.
  - apply worldR_run in H as (n & _ & H).
    destruct (Address.generate_address_ok addr n) as (a & Ea & Ha). rewrite Ea in H.
    rewrite (bind_run (lift (Ok a)) _ _ _ a eq_refl) in H.
    apply create_tail in H as (g1 & H1 & H2). rewrite G in H1. eauto 10.
  - peel_still_bind H E0 G. rewrite bind_assoc in H. peel_still_bind H E0 G.
    match type of H with (lift (Address.generate_address_for_create2 ?j1 ?j2 ?x ?salt ?code) ≫= _) _ = _ =>
      destruct (Address.create2_ok j1 j2 x salt code) as (a & Ea & Ha) end. rewrite Ea in H.
    rewrite (bind_run (lift (Ok a)) _ _ _ a eq_refl) in H.
    apply create_tail in H as (g1 & H1 & H2). rewrite G in H1. eauto 10.
Qed.

Lemma run_program e caller callee inp v (g : St) fuel :
  consts_ok e = true -> slots e <= 1024 -> zlen (program e) < 2 ^ 63 ->
  acc_get_code callee g = Ok (program e) -> (turns e + 5 <= fuel)%nat ->
  exists st, run env fuel caller callee inp v g =
    Some (st, Ok (mkResult returned outOfBounds (be_bytes 32 (eval e)))) /\ gs st = g /\ logs st = [].
Proof.
  intros Hok Hs Hlen E Hf. pose proof (program_vec_ok e Hlen) as Hv.
  unfold run. rewrite (start_root _ _ _ _ _ _ E).
  set (c0 := new_context _ _ _ _ _ _ _). set (st := mkPState _ _ _ _ _ _).
  replace fuel with (turns e + (5 + (fuel - turns e - 5)))%nat by lia.
  rewrite (run_compile e Hok st c0 [] [] [0x60; 0; 0x52; 0x60; 32; 0x60; 0; 0xf3]); try done.
  erewrite (run_return _ _ (compile e)); [|reflexivity | done | done | reflexivity | done | exact Hv | reflexivity].
  cbn. eauto.
Qed.

(** ** Properties *)

(** Termination of straight-line code: when no instruction of the callee's
    code jumps, calls or creates, [run] returns within one turn per byte and one
    more, over any world state, and more fuel does not change the outcome. *)
Theorem straight_line_terminates caller callee inp v (g : St) c fuel :
  acc_get_code callee g = Ok c -> zlen c < 2 ^ 63 -> straight_line c -> (S (length c) <= fuel)%nat ->
  run env fuel caller callee inp v g <> None /\
  run env fuel caller callee inp v g = run env (S (length c)) caller callee inp v g.
Proof.
  intros E Hlen Hsl Hf.
  assert (Hn : run env (S (length c)) caller callee inp v g <> None).
  { unfold run. rewrite (start_root _ _ _ _ _ c E).
    set (st := mkPState _ _ _ _ _ _). set (c0 := new_context _ _ _ _ _ _ _) in *.
    pose proof (root_loop (S (length c)) st c0) as Hl.
    destruct (run_loop env (S (length c)) st) as [[st' [[]| |]]|]; try done.
    exfalso. apply Hl; [|cbn [c0 new_context prog code make_program pc pc_changed]; lia | done].
    split; [done|]. split; [done|]. split; [constructor | done]. }
  destruct (run env (S (length c)) caller callee inp v g) as [r|] eqn:Er; [|done].
  replace fuel with (S (length c) + (fuel - S (length c)))%nat by lia. by rewrite (run_mono _ _ _ _ _ _ _ _ Er).
Qed.

(** C18. Functional correctness of whole runs: the code compiled from an
    arithmetic expression returns the 32 big-endian bytes of the expression's
    value and leaves the world state alone, for expressions of any shape that
    need at most the 1024 stack slots. *)
Theorem run_program_eval e caller callee inp v (g : St) fuel :
  consts_ok e = true -> slots e <= 1024 -> zlen (program e) < 2 ^ 63 ->
  acc_get_code callee g = Ok (program e) -> (turns e + 5 <= fuel)%nat ->
  exists st, run env fuel caller callee inp v g =
    Some (st, Ok (mkResult returned outOfBounds (be_bytes 32 (eval e)))) /\ gs st = g /\ logs st = [].
Proof. apply run_program. Qed.

(** The first instruction of a transaction is executed twice: a new context
    starts with [pc_changed] set, so unless the instruction sets the program
    counter itself, the first [step] leaves the counter at 0, with the effects of
    the instruction already made. *)
Theorem first_instruction_twice caller callee inp v (g : St) c op st1 :
  acc_get_code callee g = Ok c -> 0 < zlen c < 2 ^ 63 ->
  opcode_of (znth 0 c) = Some op -> sequential op = true ->
  dispatch env (fst (start caller callee inp v g)) = (st1, Ok tt) ->
  exists st2, turn env (fst (start caller callee inp v g)) = (st2, Ok true) /\
    gs st2 = gs st1 /\ logs st2 = logs st1 /\ running st2 = true /\ cur_op st2 = Some op.
Proof.
  intros E Hc Hop Hs. rewrite (start_root _ _ _ _ _ _ E). cbn [fst].
  set (c0 := new_context _ _ _ _ _ _ _). set (st := mkPState _ _ _ _ _ _). intros Hd.
  pose proof (sequential_quiet op Hs st c0 [] eq_refl) as Hq.
  assert (Hd' : dispatch_op env (Some op) st = (st1, Ok tt)).
  { rewrite <- Hd. unfold dispatch, get_op, mbind, M_bind, cur. cbn [st ctxts mret M_ret].
    cbn [c0 new_context pc prog code make_program]. by rewrite Hop. }
  rewrite Hd' in Hq. destruct Hq as (c1 & E1 & F1 & F2 & F3 & _).
  eexists. split; [eapply turn_intro; [exact Hd | exact E1 | rewrite F1; cbn; lia | reflexivity]|].
  split; [done|]. split; [done|]. rewrite F2. unfold running, cur_op, pc_valid.
  cbn [with_ctxts ctxts set_pc_field pc prog c0 new_context pc_changed]. rewrite F1, F3.
  cbn [c0 new_context pc prog code make_program]. split; [lia | done].
Qed.

(** A called contract that runs off the end of its code ends the whole
    transaction: the loop stops although the caller's context is still there,
    and [run] reports whatever the result was before, without resuming the
    caller. *)
Theorem falling_off_end (st : pstate St) c d l off size fuel :
  ctxts st = c :: d :: l -> handlers c = HCall (length l) off size -> pc_valid c = false ->
  zlen (s d) <> 1024 -> selfdestruct_list st = [] ->
  run_loop env fuel st = Some (st, Ok tt) /\
  exists st', finish st = (st', Ok (res st)) /\ gs st' = gs st /\ ctxts st' = set_stack (1 :: s d) d :: l.
Proof.
  intros E Hh Hv Hs Hsd. split; [destruct fuel; cbn [run_loop]; by rewrite E, Hv|].
  destruct st as [g cs lg sd tk rs]. cbn in E, Hsd. subst cs sd.
  unfold finish, stop, cur, pop_context, gets, mbind, M_bind. cbn [ctxts modify with_ctxts tail]. rewrite Hh.
  cbn [run_hh]. unfold on_ctx, on_stack, zoom. cbn [ctxts with_ctxts length].
  replace (S (length l) - 1 - length l)%nat with 0%nat by lia. cbn [lookup list_lookup].
  unfold Stack.push, Stack.size, Stack.MAX_SIZE. destruct (Z.eqb_spec (zlen (s d)) 1024); [done|].
  cbn. eauto.
Qed.

(** STATICCALL falls through to CALL: when the callee has code, two contexts
    for the same callee are opened.  The one that runs first is not in static
    mode and its caller is the callee itself. *)
Theorem staticcall_two_contexts (st st' : pstate St) c l :
  ctxts st = c :: l -> call STATICCALL st = (st', Ok tt) ->
  (exists c', ctxts st' = c' :: l) \/
  exists c2 c1 c', ctxts st' = c2 :: c1 :: c' :: l /\
    in_static_mode c2 = false /\ in_static_mode c1 = true /\
    acc c2 = acc c1 /\ input c2 = input c1 /\ prog c2 = prog c1 /\ handlers c2 = handlers c1 /\
    acc_get_address (acc c1) (gs st') = Ok (caller c2).
Proof.
  intros E H. unfold call, s_pop, s_pop64, pop_addr, prepare_mem_access, copy_from_mem, cur_index in H.
  do 7 peel_bind H E. destruct (_ && _); [done|]. do 4 peel_bind H E.
  destruct (negb _).
  - left. pose proof (quiet_stk (Stack.push 1) _ _ _ E) as Hq. unfold s_push in H. rewrite H in Hq.
    destruct Hq as (c' & E' & _). eauto.
  - right. do 3 peel_bind H E. apply (two_call_cases _ _ _ _ _ _ _ _ E) in H as (c2 & c1 & H). eauto.
Qed.

End quiet.

(** CREATE pays the endowment twice: the new account is created with the
    value as its balance and then receives it from the creator, so that every
    successful CREATE or CREATE2 adds its value to the sum of all balances. *)
Theorem create_mints env op (st st' : pstate Simple.SimpleGlobalState) c l v rest :
  SimpleFacts.state_ok (gs st) -> ctxts st = c :: l -> s c = v :: rest -> u256 v ->
  create_impl env op st = (st', Ok tt) ->
  SimpleFacts.total_balance (gs st') = SimpleFacts.total_balance (gs st) + v.
Proof.
  intros Hok E Hs Hv H. destruct (create_run env op st st' c l v rest E Hs H) as (a & g1 & x & Ha & Hx & Hc & Hp).
  destruct (create_sum _ _ _ _ _ Hc) as [Hnew Hsum].
  assert (Hok1 : SimpleFacts.state_ok g1).
  { pose proof (SimpleFacts.create_ok a v [] (gs st) Hok (u256_addr _ Ha) Hv SimpleFacts.vec_ok_nil) as Hk.
    cbn in Hc. rewrite Hc in Hk. apply Hk. }
  rewrite (pay_to_sum _ _ _ _ _ Hok1 Hv Hp), Hsum.
  destruct (Z.eqb_spec (acc c) a) as [Heq|]; [|lia].
  cbn in Hx. unfold Simple.entry in Hx. rewrite Heq, Hnew in Hx. done.
Qed.

(** ** Witnesses *)

Definition wenv : Env := mkEnv 1 0 0 (fun _ => 0) (fun _ => ([], [])) true.
Definition wworld (c : list Z) : Simple.SimpleGlobalState :=
  Simple.mkState (Simple.mkBlock 0 0 0 0 0 0 0)
    {[ 100 := (Simple.mkAccount 100 50 c 0, ∅); 200 := (Simple.mkAccount 200 0 [0x5b] 0, ∅) ]}.
Definition wcontext (stack c : list Z) (h : Handlers) (p : Z) : Context :=
  mkContext p false [] stack 100 1 [] 0 (make_program c) h [] false.
Definition wstate (l : list Context) : pstate Simple.SimpleGlobalState :=
  mkPState (wworld []) l [] [] 0 (mkResult returned outOfBounds []).

Lemma straight_line_terminates_witness :
  run wenv 9 1 100 [] 0 (wworld [0x60; 5; 0x60; 0; 0x55; 0x00]) <> None /\
  run wenv 9 1 100 [] 0 (wworld [0x60; 5; 0x60; 0; 0x55; 0x00]) =
  run wenv 7 1 100 [] 0 (wworld [0x60; 5; 0x60; 0; 0x55; 0x00]).
Proof.
  apply (straight_line_terminates wenv 1 100 [] 0 _ [0x60; 5; 0x60; 0; 0x55; 0x00] 9); try reflexivity.
  - intros i op Hi Hl. apply start_ge in Hi. cbn [length] in Hl.
    assert (i = 0 \/ i = 1 \/ i = 2 \/ i = 3 \/ i = 4 \/ i = 5) as [->|[->|[->|[->|[->| ->]]]]] by lia;
      intros [= <-]; reflexivity.
  - cbn. lia.
Defined.

Lemma run_program_eval_witness :
  let e := Bin BAdd (Const 2) (Bin BMul (Const 3) (Const 4)) in
  exists st, run wenv 30 1 100 [] 0 (wworld (program e)) =
    Some (st, Ok (mkResult returned outOfBounds (be_bytes 32 14))) /\ gs st = wworld (program e) /\ logs st = [].
Proof.
  intros e. apply (run_program_eval wenv e 1 100 [] 0 (wworld (program e)) 30); try reflexivity; cbn; lia.
Defined.

(** ADDRESS, ADD: a single ADDRESS would leave ADD without its second operand,
    but the run returns twice the address of the account. *)
Lemma first_instruction_twice_witness :
  let g := wworld [0x30; 0x01; 0x60; 0; 0x52; 0x60; 32; 0x60; 0; 0xf3] in
  (exists st2, turn wenv (fst (start 1 100 [] 0 g)) = (st2, Ok true) /\ cur_op st2 = Some ADDRESS) /\
  exists st, run wenv 20 1 100 [] 0 g = Some (st, Ok (mkResult returned outOfBounds (be_bytes 32 200))).
Proof.
  intros g. split; [|eexists; vm_compute; reflexivity].
  destruct (first_instruction_twice wenv 1 100 [] 0 g [0x30; 0x01; 0x60; 0; 0x52; 0x60; 32; 0x60; 0; 0xf3] ADDRESS
    (fst (dispatch wenv (fst (start 1 100 [] 0 g))))) as (st2 & H1 & _ & _ & _ & H2);
    [reflexivity | by split | reflexivity | reflexivity | vm_compute; reflexivity |].
  exists st2. split; [exact H1 | exact H2].
Defined.

Lemma falling_off_end_witness :
  let d := wcontext [9] [0xf1; 0x00] HRoot 0 in
  let c := wcontext [] [0x5b] (HCall 0 0 0) 1 in
  run_loop wenv 3 (wstate [c; d]) = Some (wstate [c; d], Ok tt) /\
  exists st', finish (wstate [c; d]) = (st', Ok (mkResult returned outOfBounds [])) /\
    gs st' = wworld [] /\ ctxts st' = [set_stack [1; 9] d].
Proof. intros d c. by apply (falling_off_end wenv (wstate [c; d]) c d [] 0 0 3). Defined.

Lemma staticcall_two_contexts_witness :
  let c := wcontext [0; 200; 0; 0; 0; 0] [0xfa; 0x00] HRoot 0 in
  let st' := fst (call STATICCALL (wstate [c])) in
  (exists c', ctxts st' = [c']) \/
  exists c2 c1 c', ctxts st' = [c2; c1; c'] /\
    in_static_mode c2 = false /\ in_static_mode c1 = true /\
    acc c2 = acc c1 /\ input c2 = input c1 /\ prog c2 = prog c1 /\ handlers c2 = handlers c1 /\
    acc_get_address (acc c1) (gs st') = Ok (caller c2).
Proof.
  intros c st'. apply (staticcall_two_contexts (wstate [c]) st' c []); [reflexivity | vm_compute; reflexivity].
Defined.

Lemma create_mints_witness :
  let c := wcontext [7; 0; 0] [0xf0; 0x00] HRoot 0 in
  SimpleFacts.total_balance (gs (fst (create_impl wenv CREATE (wstate [c])))) =
  SimpleFacts.total_balance (wworld []) + 7.
Proof.
  intros c. apply (create_mints wenv CREATE (wstate [c]) _ c [] 7 [0; 0]);
    [| reflexivity | reflexivity | by split | vm_compute; reflexivity].
  apply (bool_decide_unpack _). vm_compute. exact I.
Defined.

End EvmRun.
