(* ===== verification/Cipher.v ===== *)
(** * Encrypted contract state

    Model of the byte formats and encryptors that protect contract state:
    the GcmHeader of CCF's src/crypto/symmetric_key.cpp, src/ethereum/encryptor.h (the contract's own
    key, a fixed 64-byte record) and src/state/{encryptor,state_cipher,
    secret_key}.h (a key shared with a data owner, a record that names the
    owner).

    AES-GCM itself is OpenSSL's: [Gcm] is its interface and [GcmLaws] what the
    code relies on (decryption with the same key, IV and tag inverts
    encryption; the ciphertext is as long as the plaintext). *)
From S2P Require Import Prelude Serialized Util Rlp.
From stdpp Require Import list.
Local Open Scope Z_scope.

Module Cipher.
Import Serialized.

(** ** GcmHeader and GcmCipher *)

Definition GCM_SIZE_TAG : Z := 16.
Definition IV_SIZE : Z := 12.

Record GcmHeader := mkHdr { tag : list Z; iv : list Z }.

Definition hdr_serialised_size : Z := GCM_SIZE_TAG + IV_SIZE.

Definition hdr_deserialise (data : list Z) : result (GcmHeader * list Z) :=
  '(t, data) ← read GCM_SIZE_TAG data;
  '(i, data) ← read IV_SIZE data;
  Ok (mkHdr t i, data).

(** ** AES-GCM *)

Class Gcm := {
  gcm_encrypt : list Z -> list Z -> list Z -> list Z * list Z;
  gcm_decrypt : list Z -> list Z -> list Z -> list Z -> option (list Z)
}.

(** [gcm_encrypt key iv plain] is the ciphertext and the tag. *)
Class GcmLaws `{Gcm} := {
  gcm_roundtrip key iv plain c t : bytes_ok plain -> gcm_encrypt key iv plain = (c, t) -> gcm_decrypt key iv t c = Some plain;
  gcm_length key iv plain c t : gcm_encrypt key iv plain = (c, t) -> length c = length plain /\ length t = 16%nat;
  gcm_bytes key iv plain c t : bytes_ok plain -> gcm_encrypt key iv plain = (c, t) -> bytes_ok c /\ bytes_ok t;
  gcm_plain key iv t c plain : gcm_decrypt key iv t c = Some plain -> length plain = length c /\ bytes_ok plain
}.

(** [make_key_aes_gcm]: keys of less than 128 bits are refused. *)
Definition make_key_aes_gcm (key : list Z) : result (list Z) :=
  if zlen key * 8 <? 128 then Throw LogicError else Ok key.

(** ** Ethereum::StateCipher and StateEncryptorImpl *)

Module Contract.

Record StateCipher := mkCipher { hdr : GcmHeader; cipher : list Z }.

Definition serialise (c : StateCipher) : result (list Z) :=
  w ← write (cipher c) (new_writer 64);
  w ← write (tag (hdr c)) w;
  w ← write (iv (hdr c)) w;
  Ok (buf w).

Definition deserialise (serial : list Z) : result StateCipher :=
  '(c, data) ← read 32 serial;
  '(h, _) ← hdr_deserialise data;
  Ok (mkCipher h c).

Section encryptor.
Context `{Gcm}.

(** [encrypt(plain, serial)] under a fresh random IV. *)
Definition encrypt (key iv plain : list Z) : result (list Z) :=
  if negb (zlen plain =? 32) then Throw RuntimeError
  else
    k ← make_key_aes_gcm key;
    let '(c, t) := gcm_encrypt k iv plain in
    serialise (mkCipher (mkHdr t iv) c).

(** [decrypt(serial_cipher, plain)]: [None] when it returns false. *)
Definition decrypt (key serial : list Z) : result (option (list Z)) :=
  st ← deserialise serial;
  k ← make_key_aes_gcm key;
  Ok (gcm_decrypt k (iv (hdr st)) (tag (hdr st)) (cipher st)).

End encryptor.
End Contract.

(** ** State::StateCipher and EncryptorManager *)

Module Owned.

Record OwnedCipher := mkCipher { owner : Z; hdr : GcmHeader; cipher : list Z }.

Definition serialise_owned (c : OwnedCipher) : result (list Z) :=
  let owner_ := Rlp.to_byte_string_u256 (owner c) in
  w ← write owner_ (new_writer (hdr_serialised_size + zlen (cipher c) + zlen owner_));
  w ← write (tag (hdr c)) w;
  w ← write (iv (hdr c)) w;
  w ← write (cipher c) w;
  Ok (buf w).

Definition deserialise_owned (serial : list Z) : result OwnedCipher :=
  '(o, data) ← read 20 serial;
  o ← Util.from_big_endian o 20;
  '(h, data) ← hdr_deserialise data;
  '(c, _) ← read (zlen data) data;
  Ok (mkCipher o h c).

Section encryptor.
Context `{Gcm}.

(** The shared secret and the peer's address come from the key exchange. *)
Record SecretKey := mkSecret { shared_secret : list Z; data_owner : Z }.

Definition encrypt_owned (ctx : SecretKey) (iv plain : list Z) : result (list Z) :=
  k ← make_key_aes_gcm (shared_secret ctx);
  let '(c, t) := gcm_encrypt k iv plain in
  (* [if (!plain.empty()) cipher = ...]: the buffer was made with plain.size() *)
  serialise_owned (mkCipher (data_owner ctx) (mkHdr t iv) c).

Definition decrypt_owned (ctx : SecretKey) (serial : list Z) : result (option (list Z)) :=
  st ← deserialise_owned serial;
  if negb (owner st =? data_owner ctx) then Throw RuntimeError
  else
    k ← make_key_aes_gcm (shared_secret ctx);
    Ok (gcm_decrypt k (iv (hdr st)) (tag (hdr st)) (cipher st)).

End encryptor.
End Owned.

Definition hdr_ok (h : GcmHeader) : Prop := length (tag h) = 16%nat /\ length (iv h) = 12%nat.

(** ** Lemmas *)

Lemma hdr_deserialise_app h rest : hdr_ok h -> hdr_deserialise (tag h ++ iv h ++ rest) = Ok (h, rest).
Proof.
  intros [Ht Hi]. unfold hdr_deserialise, GCM_SIZE_TAG, IV_SIZE.
  replace 16 with (zlen (tag h)) by (rewrite Ht; done). rewrite read_app. cbn [mbind result_bind].
  replace 12 with (zlen (iv h)) by (rewrite Hi; done). rewrite read_app. by destruct h.
Qed.

(** A contract record is the ciphertext, the tag, the IV and four zero bytes. *)
Lemma contract_serialise c : length (Contract.cipher c) = 32%nat -> hdr_ok (Contract.hdr c) ->
  Contract.serialise c =
  Ok (Contract.cipher c ++ tag (Contract.hdr c) ++ iv (Contract.hdr c) ++ [0; 0; 0; 0]).
Proof.
  intros Hc [Ht Hi]. unfold Contract.serialise.
  destruct (write_ok [] 64 _ (Contract.cipher c) (new_writer_written 64)) as (w1 & E1 & W1); [lia|].
  change (new_writer 64) with (new_writer (Z.of_nat 64)). rewrite E1. cbn [mbind result_bind].
  destruct (write_ok _ _ _ (tag (Contract.hdr c)) W1) as (w2 & E2 & W2); [lia|]. rewrite E2. cbn [mbind result_bind].
  destruct (write_ok _ _ _ (iv (Contract.hdr c)) W2) as (w3 & E3 & W3); [lia|]. rewrite E3. cbn [mbind result_bind].
  destruct W3 as (-> & _ & _). rewrite Hc, Ht, Hi. cbn [app]. by rewrite <- !app_assoc.
Qed.

Lemma contract_roundtrip c : length (Contract.cipher c) = 32%nat -> hdr_ok (Contract.hdr c) ->
  Contract.serialise c ≫= Contract.deserialise = Ok c.
Proof.
  intros Hc Hh. rewrite contract_serialise by done. cbn [mbind result_bind]. unfold Contract.deserialise.
  replace 32 with (zlen (Contract.cipher c)) by (rewrite Hc; done). rewrite read_app. cbn [mbind result_bind].
  rewrite hdr_deserialise_app by done. by destruct c.
Qed.

Lemma contract_deserialise_shape serial : match Contract.deserialise serial with
  | Ok c => length (Contract.cipher c) = 32%nat | Throw _ => True | Undef => False end.
Proof.
  unfold Contract.deserialise, hdr_deserialise.
  pose proof (read_shape 32 serial) as H1. destruct (read 32 serial) as [[c d1]| |]; [|done|done]. cbn [mbind result_bind].
  pose proof (read_shape GCM_SIZE_TAG d1) as H2. destruct (read GCM_SIZE_TAG d1) as [[t d2]| |]; [|done|done].
  cbn [mbind result_bind].
  pose proof (read_shape IV_SIZE d2) as H3. destruct (read IV_SIZE d2) as [[i d3]| |]; [|done|done].
  cbn. lia.
Qed.

Section contract.
Context `{GL : GcmLaws}.

Lemma contract_decrypt_shape key serial : match Contract.decrypt key serial with
  | Ok (Some plain) => bytes_ok plain /\ length plain = 32%nat | Ok None | Throw _ => True | Undef => False end.
Proof.
  unfold Contract.decrypt, make_key_aes_gcm. pose proof (contract_deserialise_shape serial) as H1.
  destruct (Contract.deserialise serial) as [c| |]; [|done|done]. cbn [mbind result_bind].
  destruct (_ <? _); [done|]. cbn [mbind result_bind].
  destruct (gcm_decrypt _ _ _ _) as [plain|] eqn:E; [|done]. apply gcm_plain in E as [E1 E2]. split; [done | congruence].
Qed.

(** What [encrypt] produces for a storage word, and that [decrypt] inverts it. *)
Lemma contract_encrypt key iv plain : length plain = 32%nat -> length iv = 12%nat -> 128 <= zlen key * 8 ->
  bytes_ok iv -> bytes_ok plain ->
  exists serial, Contract.encrypt key iv plain = Ok serial /\ length serial = 64%nat /\ bytes_ok serial /\
    Contract.decrypt key serial = Ok (Some plain).
Proof.
  intros Hp Hi Hk Hb Hpb. unfold Contract.encrypt, make_key_aes_gcm. rewrite Hp. cbn [Z.eqb negb Z.of_nat].
  destruct (Z.ltb_spec (zlen key * 8) 128); [lia|]. cbn [mbind result_bind].
  destruct (gcm_encrypt key iv plain) as [c t] eqn:E.
  destruct (gcm_length _ _ _ _ _ E) as [Hc Ht]. destruct (gcm_bytes _ _ _ _ _ Hpb E) as [Bc Bt].
  set (st := Contract.mkCipher (mkHdr t iv) c).
  assert (Hst : length (Contract.cipher st) = 32%nat /\ hdr_ok (Contract.hdr st)) by (cbn; unfold hdr_ok; cbn; lia).
  pose proof (contract_roundtrip st (proj1 Hst) (proj2 Hst)) as Hr.
  pose proof (contract_serialise st (proj1 Hst) (proj2 Hst)) as Hs. rewrite Hs in Hr |- *. cbn [mbind result_bind] in Hr.
  eexists. split; [reflexivity|]. cbn [Contract.cipher Contract.hdr tag Cipher.iv st] in *.
  split; [rewrite !length_app; cbn; lia|]. split.
  - rewrite !bytes_ok_app. split; [done|]. split; [done|]. split; [done|].
    by apply (bool_decide_unpack _); vm_compute.
  - unfold Contract.decrypt, make_key_aes_gcm. rewrite Hr. cbn [mbind result_bind].
    destruct (Z.ltb_spec (zlen key * 8) 128); [lia|]. cbn [mbind result_bind]. do 2 f_equal.
    cbn. by apply gcm_roundtrip.
Qed.

End contract.

(** An owned record is the owner's significant bytes, the tag, the IV and the
    ciphertext. *)
Lemma owned_serialise c : hdr_ok (Owned.hdr c) ->
  Owned.serialise_owned c =
  Ok (Rlp.to_byte_string_u256 (Owned.owner c) ++ tag (Owned.hdr c) ++ iv (Owned.hdr c) ++ Owned.cipher c).
Proof.
  intros [Ht Hi]. unfold Owned.serialise_owned. cbv zeta. set (o := Rlp.to_byte_string_u256 (Owned.owner c)).
  replace (hdr_serialised_size + zlen (Owned.cipher c) + zlen o)
    with (Z.of_nat (length o + 16 + 12 + length (Owned.cipher c)))
    by (unfold hdr_serialised_size, GCM_SIZE_TAG, IV_SIZE; lia).
  set (n := (length o + 16 + 12 + length (Owned.cipher c))%nat).
  destruct (write_ok [] n _ o (new_writer_written n)) as (w1 & E1 & W1); [lia|]. rewrite E1. cbn [mbind result_bind].
  destruct (write_ok _ _ _ (tag (Owned.hdr c)) W1) as (w2 & E2 & W2); [lia|]. rewrite E2. cbn [mbind result_bind].
  destruct (write_ok _ _ _ (iv (Owned.hdr c)) W2) as (w3 & E3 & W3); [lia|]. rewrite E3. cbn [mbind result_bind].
  destruct (write_ok _ _ _ (Owned.cipher c) W3) as (w4 & E4 & W4); [lia|]. rewrite E4. cbn [mbind result_bind].
  destruct W4 as (-> & _ & _).
  replace (n - length o - length (tag (Owned.hdr c)) -
           length (iv (Owned.hdr c)) - length (Owned.cipher c))%nat with 0%nat by lia.
  cbn [replicate app]. by rewrite app_nil_r, <- !app_assoc.
Qed.

(** Reading a record gives a ciphertext of the length that is left. *)
Lemma owned_deserialise_length serial c : Owned.deserialise_owned serial = Ok c ->
  (length serial = 20 + 28 + length (Owned.cipher c))%nat.
Proof.
  unfold Owned.deserialise_owned, hdr_deserialise, read, Util.from_big_endian, GCM_SIZE_TAG, IV_SIZE.
  destruct (Z.ltb_spec (zlen serial) 20); [done|]. cbn [mbind result_bind].
  change (32 <? 20) with false. destruct (20 <=? _); [|done]. cbn [mbind result_bind].
  destruct (Z.ltb_spec (zlen (zdrop 20 serial)) 16); [done|]. cbn [mbind result_bind].
  destruct (Z.ltb_spec (zlen (zdrop 16 (zdrop 20 serial))) 12); [done|]. cbn [mbind result_bind].
  rewrite Z.ltb_irrefl. cbn [mbind result_bind]. intros [= <-]. cbn [Owned.cipher].
  unfold zdrop, ztake in *. rewrite length_take, !length_drop in *. lia.
Qed.

(** An address has 20 significant bytes exactly when its first byte is not 0. *)
Lemma owner_bytes_length n : 0 <= n < M160 ->
  (length (Rlp.to_byte_string_u256 n) <= 20)%nat /\
  (length (Rlp.to_byte_string_u256 n) = 20%nat <-> 2 ^ 152 <= n).
Proof.
  intros [Hn0 Hn1].
  assert (Hu : u256 n) by (split; [done|]; unfold M160, M256 in *; lia).
  destruct (Rlp.to_byte_string_u256_spec n Hu) as (Hv & Hok & _).
  pose proof (Rlp.to_byte_string_u256_head n Hu) as Hh.
  set (r := Rlp.to_byte_string_u256 n) in *. pose proof (be_val_bound r Hok) as Hb. rewrite Hv in Hb.
  assert (Hle : (length r <= 20)%nat).
  { destruct r as [|b r']; [cbn; lia|]. pose proof (be_val_lower b r' Hok ltac:(cbn in Hh; congruence)) as Hl.
    rewrite Hv in Hl. cbn [length]. destruct (Nat.le_gt_cases (length r') 19); [lia|].
    assert (256 ^ 20 <= 256 ^ zlen r') by (apply Z.pow_le_mono_r; lia). unfold M160 in *. lia. }
  split; [done|]. split; intros H.
  - destruct r as [|b r']; [done|]. pose proof (be_val_lower b r' Hok ltac:(cbn in Hh; congruence)) as Hl.
    rewrite Hv in Hl. cbn [length] in H. replace (zlen r') with 19 in Hl by lia. lia.
  - destruct (Nat.le_gt_cases (length r) 19); [|lia].
    assert (256 ^ zlen r <= 256 ^ 19) by (apply Z.pow_le_mono_r; lia). lia.
Qed.

Lemma owned_deserialise_serial c : hdr_ok (Owned.hdr c) -> 2 ^ 152 <= Owned.owner c < M160 ->
  Owned.serialise_owned c ≫= Owned.deserialise_owned = Ok c.
Proof.
  intros Hh Ho. destruct (owner_bytes_length (Owned.owner c)) as [_ Hlen]; [lia|].
  apply proj2 in Hlen. specialize (Hlen (proj1 Ho)).
  assert (Hu : u256 (Owned.owner c)) by (split; [lia|]; unfold M160, M256 in *; lia).
  destruct (Rlp.to_byte_string_u256_spec _ Hu) as (Hv & _ & _).
  rewrite owned_serialise by done. cbn [mbind result_bind]. unfold Owned.deserialise_owned.
  set (o := Rlp.to_byte_string_u256 (Owned.owner c)) in *.
  replace 20 with (zlen o) by (rewrite Hlen; done). rewrite read_app. cbn [mbind result_bind].
  unfold Util.from_big_endian, ztake. rewrite Hlen, take_ge by (rewrite Hlen; done).
  change (32 <? Z.of_nat 20) with false. change (Z.of_nat 20 <=? Z.of_nat 20) with true. cbn [mbind result_bind].
  rewrite hdr_deserialise_app by done. cbn [mbind result_bind].
  pose proof (read_app (Owned.cipher c) []) as Hr. rewrite app_nil_r in Hr. rewrite Hr. cbn [mbind result_bind].
  rewrite Hv. by destruct c.
Qed.

(** ** Properties *)

(** Owned state records round trip exactly for the owners whose address has a
    non-zero first byte: [serialise] writes the owner without leading zeros while
    [deserialise] always reads 20 bytes, so for every other owner the fields are
    shifted. *)
Theorem owned_record_roundtrip c : hdr_ok (Owned.hdr c) -> 0 <= Owned.owner c < M160 ->
  (Owned.serialise_owned c ≫= Owned.deserialise_owned = Ok c <-> 2 ^ 152 <= Owned.owner c).
Proof.
  intros Hh Ho. split; [|intros; apply owned_deserialise_serial; [done | lia]].
  rewrite owned_serialise by done. cbn [mbind result_bind]. intros H.
  apply owned_deserialise_length in H. rewrite !length_app in H. destruct Hh as [Ht Hi].
  apply (owner_bytes_length (Owned.owner c) Ho). lia.
Qed.

Lemma owned_record_roundtrip_witness :
  let h := mkHdr (replicate 16 7) (replicate 12 9) in
  Owned.serialise_owned (Owned.mkCipher (2 ^ 159 + 5) h [1; 2; 3]) ≫= Owned.deserialise_owned =
    Ok (Owned.mkCipher (2 ^ 159 + 5) h [1; 2; 3]) /\
  Owned.serialise_owned (Owned.mkCipher 5 h [1; 2; 3]) ≫= Owned.deserialise_owned <> Ok (Owned.mkCipher 5 h [1; 2; 3]).
Proof.
  intros h. split.
  - by apply (owned_record_roundtrip (Owned.mkCipher (2 ^ 159 + 5) h [1; 2; 3])).
  - intros H. assert (Ho : 0 <= 5 < M160) by (by split).
    pose proof (proj1 (owned_record_roundtrip (Owned.mkCipher 5 h [1; 2; 3]) (conj eq_refl eq_refl) Ho) H) as Hc.
    by apply Hc.
Defined.

End Cipher.
