(* ===== verification/KvHandle.v ===== *)
(** * The key-value transaction handle

    Model of CCF's src/kv/untyped_map_handle.cpp: the view a transaction has of
    one map, made of the state it started from and its own writes.  The state
    is the list of its entries in the order its [foreach] visits them (CHAMP
    maps visit in hash order), the write set and the read set are the sorted
    association lists of std::map.  Keys and values are serialised byte
    strings.  The refinement theorem says that the handle implements a finite
    map; the account and storage tables of [EthState] are such maps. *)
From S2P Require Import Prelude.
From stdpp Require Import list gmap sorting.
Local Open Scope Z_scope.

Module KvHandle.

Abbreviation K := (list Z).
Abbreviation V := (list Z).

(** ** std::map *)

(** [operator<] of the serialised keys: lexicographic. *)
Fixpoint key_lt (a b : K) : bool :=
  match a, b with
  | _, [] => false
  | [], _ :: _ => true
  | x :: a, y :: b => if x <? y then true else if y <? x then false else key_lt a b
  end.

Section std_map.
Context {A : Type}.

Fixpoint map_find (k : K) (l : list (K * A)) : option A :=
  match l with
  | [] => None
  | (k', a) :: l => if bool_decide (k = k') then Some a else map_find k l
  end.

(** [m[k] = a] *)
Fixpoint map_put (k : K) (a : A) (l : list (K * A)) : list (K * A) :=
  match l with
  | [] => [(k, a)]
  | (k', a') :: l' =>
      if bool_decide (k = k') then (k, a) :: l'
      else if key_lt k k' then (k, a) :: l else (k', a') :: map_put k a l'
  end.

(** [m.insert({k, a})] keeps an entry that is there. *)
Definition map_insert (k : K) (a : A) (l : list (K * A)) : list (K * A) :=
  match map_find k l with Some _ => l | None => map_put k a l end.

Fixpoint map_erase (k : K) (l : list (K * A)) : list (K * A) :=
  match l with
  | [] => []
  | (k', a) :: l => if bool_decide (k = k') then l else (k', a) :: map_erase k l
  end.

End std_map.

(** ** ChangeSet *)

Definition NoVersion : Z := 0.
Record VersionV := mkVersionV { version : Z; read_version : Z; value : V }.
Definition is_deleted (version : Z) : bool := version <? 0.

Record ChangeSet := mkChanges {
  state : list (K * VersionV);
  committed : list (K * VersionV);
  start_version : Z;
  cs_read_version : Z;
  reads : list (K * (Z * Z));
  writes : list (K * option V)
}.

Definition set_reads (r : list (K * (Z * Z))) (cs : ChangeSet) : ChangeSet :=
  mkChanges (state cs) (committed cs) (start_version cs) (cs_read_version cs) r (writes cs).
Definition set_writes (w : list (K * option V)) (cs : ChangeSet) : ChangeSet :=
  mkChanges (state cs) (committed cs) (start_version cs) (cs_read_version cs) (reads cs) w.
Definition set_read_version (v : Z) (cs : ChangeSet) : ChangeSet :=
  mkChanges (state cs) (committed cs) (start_version cs) v (reads cs) (writes cs).

(** ** MapHandle *)

Definition read_key (key : K) (cs : ChangeSet) : ChangeSet * option V :=
  match map_find key (writes cs) with
  | Some (Some v) => (cs, Some v)
  | Some None => (cs, None)
  | None =>
      match map_find key (state cs) with
      | None => (set_reads (map_insert key (NoVersion, NoVersion) (reads cs)) cs, None)
      | Some search =>
          let cs := set_reads (map_insert key (version search, read_version search) (reads cs)) cs in
          if is_deleted (version search) then (cs, None) else (cs, Some (value search))
      end
  end.

Definition get (key : K) (cs : ChangeSet) : ChangeSet * option V := read_key key cs.
Definition has (key : K) (cs : ChangeSet) : ChangeSet * bool :=
  let '(cs, v) := read_key key cs in (cs, match v with Some _ => true | None => false end).

Definition get_version_of_previous_write (key : K) (cs : ChangeSet) : ChangeSet * option Z :=
  match map_find key (state cs) with
  | None => (set_reads (map_insert key (NoVersion, NoVersion) (reads cs)) cs, None)
  | Some search =>
      let cs := set_reads (map_insert key (version search, read_version search) (reads cs)) cs in
      if is_deleted (version search) then (cs, None) else (cs, Some (version search))
  end.

Definition get_globally_committed (key : K) (cs : ChangeSet) : option V :=
  match map_find key (committed cs) with
  | None => None
  | Some found => if is_deleted (version found) then None else Some (value found)
  end.

Definition put (key : K) (v : V) (cs : ChangeSet) : ChangeSet :=
  set_writes (map_put key (Some v) (writes cs)) cs.

Definition remove (key : K) (cs : ChangeSet) : ChangeSet * bool :=
  let exists_in_state := match map_find key (state cs) with Some _ => true | None => false end in
  match map_find key (writes cs) with
  | Some _ =>
      (set_writes (if exists_in_state then map_put key None (writes cs)
                   else map_erase key (writes cs)) cs, true)
  | None =>
      if negb exists_in_state then (cs, false)
      else (set_writes (map_put key None (writes cs)) cs, true)
  end.

Section visit.
Context {A : Type} (f : K -> V -> A -> A * bool).

(** [state.foreach] with the lambda of [foreach_state_and_writes]. *)
Fixpoint visit_state (w : list (K * option V)) (l : list (K * VersionV)) (a : A) : A * bool :=
  match l with
  | [] => (a, true)
  | (k, v) :: l =>
      let '(a, go) :=
        match map_find k w with
        | None => if is_deleted (version v) then (a, true) else f k (value v) a
        | Some _ => (a, true)
        end in
      if go then visit_state w l a else (a, false)
  end.

Fixpoint visit_writes (go : bool) (w : list (K * option V)) (a : A) : A :=
  match w with
  | [] => a
  | (k, ov) :: w =>
      let '(a, go) := match ov with Some v => f k v a | None => (a, go) end in
      if go then visit_writes go w a else a
  end.

End visit.

(** The visitor works on [a] and may change the handle; the entries visited are
    those of the state and of the writes at the start. *)
Definition foreach_state_and_writes {A} (f : K -> V -> ChangeSet * A -> (ChangeSet * A) * bool) (always_consider_writes : bool) (cs : ChangeSet) (a : A) : ChangeSet * A :=
  let cs := set_read_version (start_version cs) cs in
  let w := writes cs in
  let '(x, should_continue) := visit_state f w (state cs) (cs, a) in
  if always_consider_writes || should_continue then visit_writes f should_continue w x else x.

Definition foreach {A} (f : K -> V -> ChangeSet * A -> (ChangeSet * A) * bool) (cs : ChangeSet) (a : A) : ChangeSet * A :=
  foreach_state_and_writes f false cs a.

Definition size (cs : ChangeSet) : ChangeSet * Z :=
  foreach (fun _ _ '(cs, n) => ((cs, n + 1), true)) cs 0.

Definition clear (cs : ChangeSet) : ChangeSet :=
  fst (foreach (fun k _ '(cs, u) => ((fst (remove k cs), u), true)) cs tt).

(** The entries with key in [from, to), in key order (CHAMP build). *)
Definition range (from to : K) (cs : ChangeSet) : ChangeSet * list (K * V) :=
  if bool_decide (from = to) || key_lt to from then (cs, [])
  else
    foreach_state_and_writes (fun k v '(cs, res) =>
      if key_lt k from then ((cs, res), true)
      else if bool_decide (k = to) || key_lt to k then ((cs, res), true)
      else ((cs, map_put k v res), true)) true cs [].

(** ** Specification *)

(** The finite map a handle stands for. *)
Definition live_value (vv : VersionV) : option V :=
  if is_deleted (version vv) then None else Some (value vv).
Definition view (cs : ChangeSet) : gmap K V :=
  merge (fun (w : option (option V)) (s : option VersionV) =>
           match w with Some ov => ov | None => s ≫= live_value end)
    (list_to_map (writes cs)) (list_to_map (state cs)).

Definition sorted {A} (l : list (K * A)) : Prop :=
  StronglySorted (fun a b => key_lt a.1 b.1 = true) l.
Definition handle_ok (cs : ChangeSet) : Prop := NoDup (state cs).*1 /\ sorted (writes cs).

(** What [foreach] shows to a visitor that collects the entries. *)
Definition collect (k : K) (v : V) (x : ChangeSet * list (K * V)) : (ChangeSet * list (K * V)) * bool := ((x.1, x.2 ++ [(k, v)]), true).
Definition entries (cs : ChangeSet) : list (K * V) := snd (foreach collect cs []).

(** What a read leaves in the handle: of one key, its version in the state unless the
    transaction has written or read the key before; of the whole map, the version at which
    the transaction started. *)
Definition seen (k : K) (cs : ChangeSet) : Z * Z :=
  match map_find k (state cs) with None => (NoVersion, NoVersion) | Some e => (version e, read_version e) end.
Definition same_but_reads (cs cs' : ChangeSet) : Prop :=
  state cs' = state cs /\ committed cs' = committed cs /\ start_version cs' = start_version cs /\ writes cs' = writes cs.
Definition reads_key (k : K) (cs cs' : ChangeSet) : Prop :=
  same_but_reads cs cs' /\ cs_read_version cs' = cs_read_version cs /\
  forall k', map_find k' (reads cs') =
    match map_find k' (reads cs) with
    | Some r => Some r
    | None => if bool_decide (k' = k /\ map_find k (writes cs) = None) then Some (seen k cs) else None
    end.
Definition reads_all (cs cs' : ChangeSet) : Prop :=
  same_but_reads cs cs' /\ reads cs' = reads cs /\ cs_read_version cs' = start_version cs.
Definition record_global_read (cs : ChangeSet) : ChangeSet := set_read_version (start_version cs) cs.

(** ** Lemmas *)

Lemma key_lt_irrefl a : key_lt a a = false.
Proof. induction a as [|x a IH]; cbn; [done|]. by rewrite Z.ltb_irrefl. Qed.
Lemma key_lt_trans a b c : key_lt a b = true -> key_lt b c = true -> key_lt a c = true.
Proof.
  revert b c; induction a as [|x a IH]; intros [|y b] [|z c]; cbn; try done.
  destruct (Z.ltb_spec x y), (Z.ltb_spec y z), (Z.ltb_spec x z); try done; try lia;
    destruct (Z.ltb_spec y x), (Z.ltb_spec z y), (Z.ltb_spec z x); try done; try lia. apply IH.
Qed.
Lemma key_lt_total a b : a <> b -> key_lt a b = false -> key_lt b a = true.
Proof.
  revert b; induction a as [|x a IH]; intros [|y b]; cbn; try done.
  intros Hne. destruct (Z.ltb_spec x y); [done|]. destruct (Z.ltb_spec y x); [done|].
  assert (x = y) as -> by lia. intros. apply IH; congruence.
Qed.

Section std_map_facts.
Context {A : Type}.
Implicit Types (l : list (K * A)).

Lemma map_find_lookup k l : map_find k l = (list_to_map l : gmap K A) !! k.
Proof.
  induction l as [|[k' a] l IH]; cbn; [by rewrite lookup_empty|].
  case_bool_decide as Hk; [subst; by rewrite lookup_insert_eq | by rewrite lookup_insert_ne].
Qed.

Lemma map_put_map k a l : (list_to_map (map_put k a l) : gmap K A) = <[k := a]> (list_to_map l).
Proof.
  induction l as [|[k' a'] l IH]; cbn; [done|]. case_bool_decide as Hk; cbn.
  - subst. by rewrite insert_insert_eq.
  - destruct (key_lt k k'); cbn; [done|]. rewrite IH. by apply insert_insert_ne.
Qed.

Lemma sorted_inv k a l : sorted ((k, a) :: l) ->
  sorted l /\ Forall (fun e => key_lt k e.1 = true) l.
Proof. inversion 1; subst. done. Qed.

Lemma sorted_not_in k a l : sorted ((k, a) :: l) -> map_find k l = None.
Proof.
  intros [_ Hf]%sorted_inv. induction Hf as [|[k' a'] l Hk Hl IH]; cbn; [done|].
  case_bool_decide as He; [|done]. subst. cbn in Hk. by rewrite key_lt_irrefl in Hk.
Qed.

Lemma map_erase_map k l : sorted l -> (list_to_map (map_erase k l) : gmap K A) = delete k (list_to_map l).
Proof.
  induction l as [|[k' a'] l IH]; intros Hs; cbn; [by rewrite delete_empty|].
  pose proof (sorted_not_in _ _ _ Hs) as Hn. apply sorted_inv in Hs as [Hs _]. case_bool_decide as Hk; cbn.
  - subst. rewrite delete_insert_eq, delete_id; [done|]. by rewrite <- map_find_lookup.
  - rewrite IH by done. by rewrite delete_insert_ne.
Qed.

Lemma map_put_lower k0 k a l : Forall (fun e => key_lt k0 e.1 = true) l -> key_lt k0 k = true ->
  Forall (fun e => key_lt k0 e.1 = true) (map_put k a l).
Proof.
  intros Hl Hk. induction Hl as [|[k' a'] l Hk' Hl IH]; cbn; [by repeat constructor|].
  case_bool_decide; [by constructor|]. destruct (key_lt k k'); by repeat constructor.
Qed.

Lemma sorted_put k a l : sorted l -> sorted (map_put k a l).
Proof.
  induction l as [|[k' a'] l IH]; intros Hs; cbn; [by repeat constructor|].
  pose proof Hs as [Hs' Hf]%sorted_inv. case_bool_decide as Hk; [subst; by constructor|].
  destruct (key_lt k k') eqn:E.
  - constructor; [done|]. constructor; [done|]. eapply Forall_impl; [exact Hf|].
    intros e He. by apply (key_lt_trans _ k').
  - constructor; [by apply IH|]. apply map_put_lower; [done|]. by apply key_lt_total.
Qed.

Lemma sorted_erase k l : sorted l -> sorted (map_erase k l).
Proof.
  induction l as [|[k' a'] l IH]; intros Hs; cbn; [done|]. apply sorted_inv in Hs as [Hs Hf].
  case_bool_decide; [done|]. constructor; [by apply IH|].
  clear -Hf. induction Hf as [|[k2 a2] l H2 Hl IH]; cbn; [constructor|]. case_bool_decide; [done|]. by constructor.
Qed.

Lemma sorted_NoDup l : sorted l -> NoDup l.*1.
Proof.
  induction l as [|[k a] l IH]; intros Hs; cbn; [constructor|].
  pose proof (sorted_not_in _ _ _ Hs) as Hn. apply sorted_inv in Hs as [Hs _]. constructor; [|by apply IH].
  rewrite map_find_lookup in Hn. by apply not_elem_of_list_to_map in Hn.
Qed.

End std_map_facts.

(** *** The view *)

Lemma view_lookup cs k : view cs !! k =
  match map_find k (writes cs) with
  | Some ov => ov
  | None => map_find k (state cs) ≫= live_value
  end.
Proof.
  unfold view. rewrite lookup_merge, <- !map_find_lookup. unfold diag_None.
  destruct (map_find k (writes cs)), (map_find k (state cs)); done.
Qed.

Lemma view_set_reads r cs : view (set_reads r cs) = view cs. Proof. done. Qed.

Lemma read_key_view k cs : snd (read_key k cs) = view cs !! k /\
  view (fst (read_key k cs)) = view cs /\ (handle_ok cs -> handle_ok (fst (read_key k cs))).
Proof.
  rewrite view_lookup. unfold read_key. destruct (map_find k (writes cs)) as [[v|]|]; [done|done|].
  destruct (map_find k (state cs)) as [vv|]; [|done]. cbn. unfold live_value.
  by destruct (is_deleted (version vv)).
Qed.

Lemma view_put k v cs : view (put k v cs) = <[k := v]> (view cs).
Proof.
  apply map_eq. intros k'. rewrite view_lookup. cbn [put set_writes writes state].
  rewrite map_find_lookup, map_put_map. destruct (decide (k = k')) as [<-|Hne].
  - by rewrite !lookup_insert_eq.
  - rewrite !lookup_insert_ne, view_lookup, <- map_find_lookup by done. done.
Qed.

Lemma put_ok k v cs : handle_ok cs -> handle_ok (put k v cs).
Proof. intros [H1 H2]. split; [done|]. by apply sorted_put. Qed.

(** A tombstone in the write set. *)
Lemma view_put_none k cs : view (set_writes (map_put k None (writes cs)) cs) = delete k (view cs).
Proof.
  apply map_eq. intros k'. rewrite view_lookup. cbn [set_writes writes state].
  rewrite map_find_lookup, map_put_map. destruct (decide (k = k')) as [<-|Hne].
  - by rewrite lookup_insert_eq, lookup_delete_eq.
  - rewrite lookup_insert_ne, lookup_delete_ne, view_lookup, <- map_find_lookup by done. done.
Qed.

Lemma view_erase k cs : sorted (writes cs) -> map_find k (state cs) = None ->
  view (set_writes (map_erase k (writes cs)) cs) = delete k (view cs).
Proof.
  intros Hs Hst. apply map_eq. intros k'. rewrite view_lookup. cbn [set_writes writes state].
  rewrite map_find_lookup, map_erase_map by done. destruct (decide (k = k')) as [<-|Hne].
  - by rewrite !lookup_delete_eq, Hst.
  - rewrite !lookup_delete_ne, view_lookup, <- map_find_lookup by done. done.
Qed.

Lemma remove_view k cs : handle_ok cs ->
  view (fst (remove k cs)) = delete k (view cs) /\ handle_ok (fst (remove k cs)).
Proof.
  intros [Hd Hs]. unfold remove.
  destruct (map_find k (writes cs)) as [ov|] eqn:Ew; destruct (map_find k (state cs)) as [vv|] eqn:Es;
    cbn [negb fst].
  - rewrite view_put_none. split; [done|]. split; [done | by apply sorted_put].
  - rewrite view_erase by done. split; [done|]. split; [done | by apply sorted_erase].
  - rewrite view_put_none. split; [done|]. split; [done | by apply sorted_put].
  - rewrite delete_id; [done|]. by rewrite view_lookup, Ew, Es.
Qed.

(** *** Iteration *)

(** The entries a full iteration visits, in order. *)
Definition state_entry (w : list (K * option V)) (e : K * VersionV) : option (K * V) :=
  match map_find e.1 w with
  | Some _ => None
  | None => v ← live_value e.2; Some (e.1, v)
  end.
Definition write_entry (e : K * option V) : option (K * V) := v ← e.2; Some (e.1, v).
Definition visited (cs : ChangeSet) : list (K * V) :=
  omap (state_entry (writes cs)) (state cs) ++ omap write_entry (writes cs).

(** A visitor that never stops is a fold over them. *)
Lemma foreach_fold {A} (f : K -> V -> ChangeSet * A -> (ChangeSet * A) * bool) always cs a :
  (forall k v a, snd (f k v a) = true) ->
  foreach_state_and_writes f always cs a = foldl (fun a e => fst (f e.1 e.2 a)) (record_global_read cs, a) (visited cs).
Proof.
  intros Hgo. unfold foreach_state_and_writes, visited. rewrite foldl_app. cbn [writes state set_read_version].
  assert (H1 : forall l a, visit_state f (writes cs) l a =
    (foldl (fun a e => fst (f e.1 e.2 a)) a (omap (state_entry (writes cs)) l), true)).
  { induction l as [|[k vv] l IH]; intros b; cbn [visit_state omap list_omap]; [done|].
    unfold state_entry at 1. cbn [fst snd]. destruct (map_find k (writes cs)); [by rewrite IH|].
    unfold live_value. destruct (is_deleted (version vv)); cbn [mbind option_bind]; [by rewrite IH|].
    cbn [foldl fst snd]. specialize (Hgo k (value vv) b). destruct (f k (value vv) b) as [b' go]. cbn in Hgo |- *.
    subst. by rewrite IH. }
  assert (H2 : forall l a, visit_writes f true l a =
    foldl (fun a e => fst (f e.1 e.2 a)) a (omap write_entry l)).
  { induction l as [|[k [v|]] l IH]; intros b; cbn [visit_writes omap list_omap write_entry mbind option_bind snd fst];
      [done| |by rewrite IH].
    cbn [foldl fst snd]. specialize (Hgo k v b). destruct (f k v b) as [b' go]. cbn in Hgo |- *. subst. by rewrite IH. }
  rewrite H1. rewrite orb_true_r. apply H2.
Qed.

(** One that leaves the handle alone changes only the read version. *)
Lemma foreach_pure {A} (f : K -> V -> ChangeSet * A -> (ChangeSet * A) * bool) (g : A -> K * V -> A) always cs a :
  (forall k v cs a, f k v (cs, a) = ((cs, g a (k, v)), true)) -> foreach_state_and_writes f always cs a = (record_global_read cs, foldl g a (visited cs)).
Proof.
  intros Hf. rewrite foreach_fold by (intros k v [c b]; by rewrite Hf). generalize (record_global_read cs). revert a. induction (visited cs) as [|[k v] l IH]; intros a c; [done|].
  cbn [foldl fst snd]. rewrite Hf. apply IH.
Qed.
Lemma foreach_clear l : forall cs u, foldl (fun a (e : K * V) => fst ((fun '(cs, u) => ((fst (remove e.1 cs), u), true)) a)) (cs, u) l = (foldl (fun c e => fst (remove e.1 c)) cs l, u : unit).
Proof. induction l as [|e l IH]; intros cs u; [done|]. cbn [foldl fst]. apply IH. Qed.

Lemma visited_elem cs k v : handle_ok cs -> (k, v) ∈ visited cs <-> view cs !! k = Some v.
Proof.
  intros [Hd Hs]. rewrite view_lookup. unfold visited. rewrite elem_of_app, !list_elem_of_omap. split.
  - intros [([k' vv] & Hin & He)|([k' ov] & Hin & He)].
    + unfold state_entry in He. cbn in He. destruct (map_find k' (writes cs)) eqn:E; [done|].
      destruct (live_value vv) eqn:El; [|done]. injection He as -> ->. rewrite E.
      replace (map_find k (state cs)) with (Some vv); [done|]. symmetry. rewrite map_find_lookup.
      by apply elem_of_list_to_map.
    + unfold write_entry in He. cbn in He. destruct ov as [v'|]; [|done]. injection He as -> ->.
      replace (map_find k (writes cs)) with (Some (Some v)); [done|]. symmetry. rewrite map_find_lookup.
      apply elem_of_list_to_map; [by apply sorted_NoDup | done].
  - destruct (map_find k (writes cs)) as [ov|] eqn:E.
    + intros ->. right. exists (k, Some v). split; [|done]. rewrite map_find_lookup in E.
      by apply elem_of_list_to_map_2.
    + destruct (map_find k (state cs)) as [vv|] eqn:E2; [|done]. cbn. intros El. left. exists (k, vv).
      split; [rewrite map_find_lookup in E2; by apply elem_of_list_to_map_2|].
      unfold state_entry. cbn. by rewrite E, El.
Qed.

Lemma omap_keys_NoDup {A} (g : K * A -> option (K * V)) l :
  (forall e e', g e = Some e' -> e'.1 = e.1) -> NoDup l.*1 -> NoDup (omap g l).*1.
Proof.
  intros Hg. induction l as [|e l IH]; intros Hn; cbn; [constructor|].
  inversion Hn as [|? ? Hni Hn']; subst. destruct (g e) as [e'|] eqn:E; cbn; [|by apply IH].
  constructor; [|by apply IH]. rewrite (Hg _ _ E). intros Hin. apply Hni.
  apply list_elem_of_fmap in Hin as (e2 & -> & Hin). apply list_elem_of_omap in Hin as (e3 & Hin & E3).
  rewrite (Hg _ _ E3). by apply list_elem_of_fmap_2.
Qed.

Lemma visited_NoDup cs : handle_ok cs -> NoDup (visited cs).*1.
Proof.
  intros [Hd Hs]. unfold visited. rewrite fmap_app. apply NoDup_app. split_and!.
  - apply omap_keys_NoDup; [|done]. intros e e'. unfold state_entry. destruct (map_find e.1 (writes cs)); [done|].
    destruct (live_value e.2); [|done]. by intros [= <-].
  - intros k (e & -> & Hin)%list_elem_of_fmap (e' & He & Hin')%list_elem_of_fmap.
    apply list_elem_of_omap in Hin as (e1 & H1 & E1). apply list_elem_of_omap in Hin' as (e2 & H2 & E2).
    unfold state_entry in E1. destruct (map_find e1.1 (writes cs)) eqn:Ew; [done|].
    destruct (live_value e1.2); [|done]. injection E1 as <-. destruct e2 as [k2 [v2|]]; [|done].
    injection E2 as <-. cbn in *. subst. rewrite map_find_lookup in Ew.
    apply not_elem_of_list_to_map in Ew. apply Ew. by apply (list_elem_of_fmap_2 fst _ (_, Some v2)).
  - apply omap_keys_NoDup; [|by apply sorted_NoDup]. intros [k [v|]] e'; [|done]. by intros [= <-].
Qed.

Lemma visited_view cs : handle_ok cs -> visited cs ≡ₚ map_to_list (view cs).
Proof.
  intros Hok. apply NoDup_Permutation.
  - eapply NoDup_fmap_1. by apply visited_NoDup.
  - apply NoDup_map_to_list.
  - intros [k v]. rewrite visited_elem by done. symmetry. apply elem_of_map_to_list.
Qed.

Lemma collect_run cs : foreach collect cs [] = (record_global_read cs, visited cs).
Proof.
  unfold foreach. rewrite (foreach_pure _ (fun l e => l ++ [e])) by done. f_equal.
  assert (H : forall l a, foldl (fun a (e : K * V) => a ++ [e]) a l = a ++ l); [|by rewrite H].
  induction l as [|e l IH]; intros a; cbn; [by rewrite app_nil_r|]. by rewrite IH, <- app_assoc.
Qed.
Lemma entries_visited cs : entries cs = visited cs.
Proof.
  unfold entries. by rewrite collect_run.
Qed.

Lemma size_run cs : size cs = (record_global_read cs, Z.of_nat (length (visited cs))).
Proof.
  unfold size, foreach. rewrite (foreach_pure _ (fun n _ => n + 1)) by done. f_equal.
  assert (H : forall (l : list (K * V)) n, foldl (fun n _ => n + 1) n l = n + Z.of_nat (length l)); [|by rewrite H].
  induction l as [|e l IH]; intros n; cbn [foldl length]; [lia|]. rewrite IH. lia.
Qed.
Lemma size_view cs : handle_ok cs -> snd (size cs) = Z.of_nat (base.size (view cs)).
Proof. intros Hok. rewrite size_run. cbn [snd]. by rewrite <- (length_map_to_list (view cs)), <- (visited_view cs Hok). Qed.

Lemma clear_run cs : clear cs = foldl (fun c e => fst (remove e.1 c)) (record_global_read cs) (visited cs).
Proof. unfold clear, foreach. rewrite foreach_fold by (by intros k v []). by rewrite foreach_clear. Qed.

Lemma clear_view cs : handle_ok cs -> view (clear cs) = ∅ /\ handle_ok (clear cs).
Proof.
  intros Hok. rewrite clear_run.
  assert (H : forall (l : list (K * V)) c, handle_ok c ->
    handle_ok (foldl (fun c e => fst (remove e.1 c)) c l) /\
    view (foldl (fun c e => fst (remove e.1 c)) c l) = foldr (fun e m => delete e.1 m) (view c) l).
  { induction l as [|e l IH] using rev_ind; intros c Hc; [done|]. rewrite foldl_app, foldr_app. cbn [foldl foldr].
    destruct (IH c Hc) as [Hc' Hv]. destruct (remove_view e.1 _ Hc') as [Hv' Hok'].
    split; [done|]. rewrite Hv', Hv. clear. induction l as [|e' l IH]; cbn; [done|]. by rewrite <- IH, delete_delete. }
  destruct (H (visited cs) (record_global_read cs) Hok) as [H1 H2].
  split; [|done]. rewrite H2. apply map_empty. intros k.
  destruct (view cs !! k) as [v|] eqn:E.
  - apply visited_elem in E; [|done].
    revert E. generalize (view (record_global_read cs)). clear. induction (visited cs) as [|e l IH]; intros m Hin; cbn.
    + by apply not_elem_of_nil in Hin.
    + apply elem_of_cons in Hin as [<-|Hin]; [apply lookup_delete_eq|].
      destruct (decide (e.1 = k)) as [<-|]; [apply lookup_delete_eq|]. rewrite lookup_delete_ne by done. by apply IH.
  - revert E. clear H1 H2.
    change (view (record_global_read cs)) with (view cs). generalize (view cs). induction (visited cs) as [|e l IH]; intros m Hm; cbn; [done|].
    destruct (decide (e.1 = k)) as [<-|]; [apply lookup_delete_eq|]. rewrite lookup_delete_ne by done. by apply IH.
Qed.

(** *** Ranges *)

Definition in_range (from to k : K) : bool := negb (key_lt k from) && key_lt k to.

Lemma key_lt_asym a b : key_lt a b = true -> key_lt b a = false.
Proof.
  intros H. destruct (key_lt b a) eqn:E; [|done]. pose proof (key_lt_trans _ _ _ H E) as Hc.
  by rewrite key_lt_irrefl in Hc.
Qed.

Lemma past_to k to : bool_decide (k = to) || key_lt to k = negb (key_lt k to).
Proof.
  case_bool_decide as Hk; [subst; by rewrite key_lt_irrefl|]. cbn.
  destruct (key_lt k to) eqn:E; [by apply key_lt_asym | by apply key_lt_total].
Qed.

Lemma range_fold from to (l : list (K * V)) : NoDup l.*1 -> forall acc, sorted acc ->
  let r := foldl (fun res e => if in_range from to e.1 then map_put e.1 e.2 res else res) acc l in
  sorted r /\
  forall k, (list_to_map r : gmap K V) !! k =
    match (if in_range from to k then (list_to_map l : gmap K V) !! k else None) with
    | Some v => Some v
    | None => (list_to_map acc : gmap K V) !! k
    end.
Proof.
  induction l as [|[k0 v0] l IH]; intros Hn acc Hs; cbn [foldl fst snd].
  - split; [done|]. intros k. cbn. rewrite lookup_empty. by destruct (in_range from to k).
  - inversion Hn as [|? ? Hni Hn']; subst. cbn [fst] in Hni.
    assert (Hl : (list_to_map l : gmap K V) !! k0 = None) by (by apply not_elem_of_list_to_map).
    destruct (in_range from to k0) eqn:E.
    + destruct (IH Hn' (map_put k0 v0 acc) (sorted_put _ _ _ Hs)) as [H1 H2]. split; [exact H1|].
      intros k. rewrite H2, map_put_map. cbn [list_to_map foldr uncurry]. destruct (decide (k0 = k)) as [<-|Hne].
      * rewrite E. cbn. by rewrite Hl, !lookup_insert_eq.
      * cbn. by rewrite !lookup_insert_ne.
    + destruct (IH Hn' acc Hs) as [H1 H2]. split; [exact H1|].
      intros k. rewrite H2. cbn. destruct (decide (k0 = k)) as [<-|Hne]; [by rewrite E|].
      by rewrite lookup_insert_ne.
Qed.

(** ** Properties *)

(** *** What reads leave behind *)

Lemma map_find_insert {A} k (a : A) l k' : map_find k' (map_insert k a l) = match map_find k' l with Some r => Some r | None => if bool_decide (k' = k) then Some a else None end.
Proof.
  unfold map_insert. destruct (map_find k l) as [b|] eqn:E.
  - destruct (map_find k' l) eqn:E'; [done|]. case_bool_decide; [congruence|done].
  - rewrite map_find_lookup, map_put_map, lookup_insert, <- map_find_lookup. case_decide as Hk; [subst; rewrite E; by case_bool_decide|]. destruct (map_find k' l); [done|]. case_bool_decide; [congruence|done].
Qed.

Lemma read_key_reads k cs : reads_key k cs (fst (read_key k cs)).
Proof.
  assert (fst (read_key k cs) = match map_find k (writes cs) with Some _ => cs | None => set_reads (map_insert k (seen k cs) (reads cs)) cs end) as ->.
  { unfold read_key, seen. destruct (map_find k (writes cs)) as [[v|]|]; [done..|]. destruct (map_find k (state cs)) as [e|]; [by destruct (is_deleted _)|done]. }
  unfold reads_key. destruct (map_find k (writes cs)) as [w|] eqn:Ew; (split; [done|]); (split; [done|]); intros k'.
  - destruct (map_find k' (reads cs)); [done|]. case_bool_decide as H; [by destruct H|done].
  - cbn [reads set_reads]. rewrite map_find_insert. destruct (map_find k' (reads cs)); [done|]. repeat case_bool_decide; naive_solver.
Qed.

Lemma remove_reads k cs : reads (fst (remove k cs)) = reads cs /\ cs_read_version (fst (remove k cs)) = cs_read_version cs.
Proof. unfold remove. by destruct (map_find k (writes cs)), (map_find k (state cs)). Qed.

(** C19. The transaction handle implements a finite map: [get] and [has] look up
    the map the handle stands for, [put] inserts, [remove] deletes, [clear]
    empties, [foreach] visits each entry once, and [size] counts them; the
    invariant is kept.  A read is recorded: [get] and [has] of a key that the
    transaction has not written note the version of the key in the state, once,
    [foreach] and [size] note the version at which the transaction started, and
    they change nothing else; [put] and [remove] record no read. *)
Theorem kv_handle_refines cs k v : handle_ok cs ->
  (snd (get k cs) = view cs !! k /\ reads_key k cs (fst (get k cs)) /\ view (fst (get k cs)) = view cs /\ handle_ok (fst (get k cs))) /\
  (snd (has k cs) = bool_decide (is_Some (view cs !! k)) /\ reads_key k cs (fst (has k cs))) /\
  (view (put k v cs) = <[k := v]> (view cs) /\ handle_ok (put k v cs) /\ reads (put k v cs) = reads cs) /\
  (view (fst (remove k cs)) = delete k (view cs) /\ handle_ok (fst (remove k cs)) /\ reads (fst (remove k cs)) = reads cs) /\
  (entries cs ≡ₚ map_to_list (view cs) /\ reads_all cs (fst (foreach collect cs []))) /\
  (snd (size cs) = Z.of_nat (base.size (view cs)) /\ reads_all cs (fst (size cs))) /\
  (view (clear cs) = ∅ /\ handle_ok (clear cs)).
Proof.
  intros Hok. destruct (read_key_view k cs) as (H1 & H2 & H3). pose proof (read_key_reads k cs) as Hr. split_and!; try done.
  - by apply H3.
  - rewrite <- H1. unfold has. by destruct (read_key k cs) as [cs' [v'|]].
  - unfold has. by destruct (read_key k cs) as [cs' [v'|]].
  - apply view_put.
  - by apply put_ok.
  - by apply remove_view.
  - by apply remove_view.
  - apply remove_reads.
  - rewrite entries_visited. by apply visited_view.
  - by rewrite collect_run.
  - by apply size_view.
  - by rewrite size_run.
  - by apply clear_view.
  - by apply clear_view.
Qed.

Lemma range_run from to cs : range from to cs =
  if bool_decide (from = to) || key_lt to from then (cs, [])
  else (record_global_read cs, foldl (fun res e => if in_range from to e.1 then map_put e.1 e.2 res else res) [] (visited cs)).
Proof.
  unfold range. destruct (_ || _); [done|]. apply foreach_pure. intros k v c res. cbn [fst snd]. rewrite past_to. unfold in_range. by destruct (key_lt k from), (key_lt k to).
Qed.

(** [range] yields exactly the entries whose key lies in the half-open
    interval, in increasing key order, wherever they are stored. *)
Theorem kv_range_spec from to cs : handle_ok cs ->
  sorted (snd (range from to cs)) /\
  forall k v, (k, v) ∈ snd (range from to cs) <->
    view cs !! k = Some v /\ key_lt k from = false /\ key_lt k to = true.
Proof.
  intros Hok. rewrite range_run, past_to.
  destruct (key_lt from to) eqn:Eft; cbn [negb snd].
  - destruct (range_fold from to (visited cs) (visited_NoDup cs Hok) [] ltac:(constructor)) as [H1 H2].
    split; [done|]. intros k v. pose proof (sorted_NoDup _ H1) as Hnd.
    rewrite (elem_of_list_to_map _ k v Hnd), H2. cbn [list_to_map foldr]. rewrite lookup_empty.
    rewrite <- (visited_elem cs k v Hok), (elem_of_list_to_map _ k v (visited_NoDup cs Hok)).
    unfold in_range. destruct (key_lt k from), (key_lt k to); cbn; try (split; [done | by intros (_ & ? & ?)]).
    destruct ((list_to_map (visited cs) : gmap K V) !! k); split; try done; by intros [? _].
  - split; [constructor|]. intros k v. split; [intros H; by apply not_elem_of_nil in H|].
    intros (_ & H1 & H2). exfalso. destruct (decide (from = k)) as [->|Hne]; [congruence|].
    pose proof (key_lt_total k from ltac:(done) H1) as H3. by rewrite (key_lt_trans _ _ _ H3 H2) in Eft.
Qed.

(** [remove] returns true exactly when the key has an entry in the write set
    or in the state, a tombstone included; so removing a key a second time in
    one transaction reports true although the key has no value. *)
Theorem kv_remove_result k cs :
  (snd (remove k cs) = true <->
   is_Some (map_find k (writes cs)) \/ is_Some (map_find k (state cs))) /\
  (is_Some (map_find k (state cs)) ->
   view (fst (remove k cs)) !! k = None /\ snd (remove k (fst (remove k cs))) = true).
Proof.
  unfold remove. destruct (map_find k (writes cs)) as [ov|] eqn:Ew; destruct (map_find k (state cs)) as [vv|] eqn:Es;
    cbn [negb fst snd]; (split; [by naive_solver|]); try (by intros [? ?]); intros _.
  all: split; [by rewrite view_put_none, lookup_delete_eq|].
  all: cbn [set_writes writes state]; rewrite Es, map_find_lookup, map_put_map, lookup_insert_eq; done.
Qed.

Definition wchanges : ChangeSet :=
  mkChanges [([2], mkVersionV 3 1 [20]); ([1], mkVersionV (-4) 0 []); ([9], mkVersionV 5 0 [90])] [] 7 0 []
    [([2], None); ([5], Some [50])].

Lemma wchanges_ok : handle_ok wchanges.
Proof.
  split; [by apply (bool_decide_unpack _); vm_compute|]. repeat constructor.
Qed.

Lemma kv_handle_refines_witness :
  snd (get [5] wchanges) = Some [50] /\ snd (get [2] wchanges) = None /\
  view (fst (remove [9] wchanges)) = delete [9] (view wchanges) /\
  entries wchanges ≡ₚ map_to_list (view wchanges) /\ map_find [9] (reads (fst (get [9] wchanges))) = Some (5, 0).
Proof.
  destruct (kv_handle_refines wchanges [9] [] wchanges_ok) as ((_ & (_ & _ & H0) & _) & _ & _ & (H1 & _) & (H2 & _) & _).
  split_and!; [reflexivity | reflexivity | exact H1 | exact H2 | rewrite (H0 [9]); reflexivity].
Defined.

Lemma kv_range_spec_witness :
  sorted (snd (range [3] [10] wchanges)) /\ snd (range [3] [10] wchanges) = [([5], [50]); ([9], [90])].
Proof. split; [apply (kv_range_spec [3] [10] wchanges), wchanges_ok | reflexivity]. Defined.

Lemma kv_remove_result_witness :
  view (fst (remove [9] wchanges)) !! [9] = None /\ snd (remove [9] (fst (remove [9] wchanges))) = true.
Proof. apply (kv_remove_result [9] wchanges). by eexists. Defined.

End KvHandle.
