(* ===== verification/EthState.v ===== *)
(** * The enclave's Ethereum state

    Model of src/ethereum/account_proxy.h (AccountProxy), state.h
    (EthereumState), tables.h and transaction_sync.h (TransactionSync), and of
    enclave/export_state.h.  The tables are the finite maps the transaction
    handles of [KvHandle] implement; the visiting order of [foreach] over the
    pending set is left open.  An AccountProxy is referred to by its address,
    as in [GlobalState]; the cache owns the proxies.

    Outside the model: the entropy source (the IV of each encryption), the host
    call that reads a contract's storage from the chain, and AES-GCM ([Gcm]).
    The state record carries the first two as [host]. *)
From S2P Require Import Prelude Monad Keccak Util Rlp Address GlobalState Cipher.
From stdpp Require Import list gmap sorting.
Local Open Scope Z_scope.

Module EthState.
Import Cipher.

(** ** Data *)

Inductive ContractLevel := BASIC | SOLIDITY | SOLIDITY_ENHANCE | CLOAK.
Definition level_val (l : ContractLevel) : Z :=
  match l with BASIC => 0 | SOLIDITY => 1 | SOLIDITY_ENHANCE => 2 | CLOAK => 3 end.
(** [l > m] on the enumeration. *)
Definition level_gt (l m : ContractLevel) : bool := level_val m <? level_val l.

Abbreviation StorageKey := (Z * Z)%type.

Record AccountProxy := mkProxy { encryptor : option (list Z); level : ContractLevel }.

(** The n-th draw of an IV and the n-th answer of the host. *)
Record Host := mkHost { entropy : nat -> list Z; export_state : nat -> Z -> Z -> option Z }.

Record EthereumState := mkEth {
  balances : gmap Z Z;
  codes : gmap Z (list Z);
  nonces : gmap Z Z;
  tx_storage : gmap StorageKey (list Z);
  pending_storage : gmap StorageKey (list Z);
  pending : gset StorageKey;
  syncs : gset StorageKey;
  encryptedKey : gmap Z (list Z);
  contractLevels : gmap Z ContractLevel;
  cache : gmap Z AccountProxy;
  host : Host;
  draws : nat
}.

Definition put_balance (a v : Z) (s : EthereumState) : EthereumState :=
  mkEth (<[a := v]> (balances s)) (codes s) (nonces s) (tx_storage s) (pending_storage s) (pending s)
    (syncs s) (encryptedKey s) (contractLevels s) (cache s) (host s) (draws s).
Definition put_code (a : Z) (c : list Z) (s : EthereumState) : EthereumState :=
  mkEth (balances s) (<[a := c]> (codes s)) (nonces s) (tx_storage s) (pending_storage s) (pending s)
    (syncs s) (encryptedKey s) (contractLevels s) (cache s) (host s) (draws s).
Definition put_nonce (a n : Z) (s : EthereumState) : EthereumState :=
  mkEth (balances s) (codes s) (<[a := n]> (nonces s)) (tx_storage s) (pending_storage s) (pending s)
    (syncs s) (encryptedKey s) (contractLevels s) (cache s) (host s) (draws s).
Definition with_storage (m : gmap StorageKey (list Z)) (s : EthereumState) : EthereumState :=
  mkEth (balances s) (codes s) (nonces s) m (pending_storage s) (pending s)
    (syncs s) (encryptedKey s) (contractLevels s) (cache s) (host s) (draws s).
Definition with_pending_storage (m : gmap StorageKey (list Z)) (s : EthereumState) : EthereumState :=
  mkEth (balances s) (codes s) (nonces s) (tx_storage s) m (pending s)
    (syncs s) (encryptedKey s) (contractLevels s) (cache s) (host s) (draws s).
Definition with_pending (p : gset StorageKey) (s : EthereumState) : EthereumState :=
  mkEth (balances s) (codes s) (nonces s) (tx_storage s) (pending_storage s) p
    (syncs s) (encryptedKey s) (contractLevels s) (cache s) (host s) (draws s).
Definition with_syncs (p : gset StorageKey) (s : EthereumState) : EthereumState :=
  mkEth (balances s) (codes s) (nonces s) (tx_storage s) (pending_storage s) (pending s)
    p (encryptedKey s) (contractLevels s) (cache s) (host s) (draws s).
Definition with_cache (m : gmap Z AccountProxy) (s : EthereumState) : EthereumState :=
  mkEth (balances s) (codes s) (nonces s) (tx_storage s) (pending_storage s) (pending s)
    (syncs s) (encryptedKey s) (contractLevels s) m (host s) (draws s).
Definition draw (s : EthereumState) : EthereumState :=
  mkEth (balances s) (codes s) (nonces s) (tx_storage s) (pending_storage s) (pending s)
    (syncs s) (encryptedKey s) (contractLevels s) (cache s) (host s) (S (draws s)).

Abbreviation Eth := (M EthereumState).

(** The proxy behind a reference; dereferencing a reference to no proxy is
    undefined. *)
Definition proxy (a : Z) : Eth AccountProxy :=
  getsR (fun s => match cache s !! a with Some p => Ok p | None => Undef end).

(** [enclave::get_export_state] *)
Definition get_export_state (address key : Z) : Eth Z := fun s =>
  (draw s, match export_state (host s) (draws s) address key with
           | Some v => Ok v
           | None => Throw RuntimeError
           end).

Definition random_iv : Eth (list Z) := fun s => (draw s, Ok (entropy (host s) (draws s))).

(** ** AccountProxy as eevm::Account *)

(** The constructor: a proxy's level and key are those of the tables. *)
Definition make_proxy (level : option ContractLevel) (encryptKey : option (list Z)) : AccountProxy :=
  mkProxy encryptKey (default BASIC level).

Definition get_balance (a : Z) (s : EthereumState) : Z := default 0 (balances s !! a).
Definition set_balance (a b : Z) : Eth unit := modify (put_balance a b).
Definition get_nonce (a : Z) (s : EthereumState) : Z := default 0 (nonces s !! a).
Definition increment_nonce (a : Z) : Eth unit :=
  nonce ← gets (get_nonce a); modify (put_nonce a (wrap64 (nonce + 1))).
Definition get_code (a : Z) (s : EthereumState) : list Z := default [] (codes s !! a).
Definition set_code (a : Z) (c : list Z) : Eth unit := modify (put_code a c).

(** ** AccountProxy as eevm::Storage *)

Section storage.
Context `{Gcm}.

Definition translate (address key : Z) : StorageKey := (address, key).

Definition update_pending (a key : Z) : Eth unit :=
  modify (fun s => with_pending ({[translate a key]} ∪ pending s) s).

Definition store (a key value : Z) : Eth unit :=
  p ← proxy a;
  state ← match encryptor p with
          | Some k => iv ← random_iv; lift (Contract.encrypt k iv (Util.to_big_endian value))
          | None => mret (Util.to_big_endian value)
          end;
  modify (fun s => with_storage (<[translate a key := state]> (tx_storage s)) s) ;;
  if level_gt (level p) BASIC then update_pending a key else mret tt.

(** The decrypting branch of [load]. *)
Definition load_encrypted (p : AccountProxy) (state : list Z) : result Z :=
  match encryptor p with
  | None => Undef
  | Some k =>
      r ← Contract.decrypt k state;
      match r with
      | Some plain => Util.from_big_endian plain 32
      | None => Throw RuntimeError
      end
  end.

Definition load (a key : Z) : Eth Z :=
  p ← proxy a;
  state ← gets (fun s => tx_storage s !! translate a key);
  match state with
  | Some state =>
      old ← gets (fun s => pending_storage s !! translate a key);
      (if negb (bool_decide (is_Some old)) && level_gt (level p) BASIC
       then modify (fun s => with_pending_storage (<[translate a key := state]> (pending_storage s)) s)
       else mret tt) ;;
      if level_gt (level p) SOLIDITY && (32 <? zlen state) then lift (load_encrypted p state)
      else lift (Util.from_big_endian state 32)
  | None =>
      match level p with
      | BASIC => mret 0
      | _ =>
          value ← get_export_state a key;
          modify (fun s => with_pending_storage
                             (<[translate a key := Util.to_big_endian value]> (pending_storage s)) s) ;;
          match level p with
          | SOLIDITY => mret value
          | _ => throw RuntimeError
          end
      end
  end.

(** The boolean is the one documented for the table's [remove]; see
    [KvHandle.kv_remove_result] for when it differs.  No caller looks at it. *)
Definition storage_remove (a key : Z) : Eth bool := fun s =>
  (with_storage (delete (translate a key) (tx_storage s)) s,
   Ok (bool_decide (is_Some (tx_storage s !! translate a key)))).

End storage.

(** ** EthereumState as eevm::GlobalState *)

Definition add_to_cache (address : Z) : Eth unit := fun s =>
  match cache s !! address with
  | Some _ => (s, Throw EthException)
  | None =>
      (with_cache (<[address := make_proxy (contractLevels s !! address) (encryptedKey s !! address)]>
                     (cache s)) s, Ok tt)
  end.

Definition remove (addr : Z) : Eth unit := throw EthException.

Definition create (address balance : Z) (code : list Z) : Eth unit :=
  let initial_nonce := if negb (bool_decide (code = [])) then 1 else 0 in
  balance_it ← gets (fun s => balances s !! address);
  (match balance_it with Some _ => throw EthException | None => modify (put_balance address balance) end) ;;
  code_it ← gets (fun s => codes s !! address);
  (match code_it with Some _ => throw EthException | None => modify (put_code address code) end) ;;
  nonce_it ← gets (fun s => nonces s !! address);
  (match nonce_it with Some _ => throw EthException | None => modify (put_nonce address initial_nonce) end) ;;
  add_to_cache address.

Definition get (address : Z) : Eth unit := fun s =>
  match cache s !! address with
  | Some _ => (s, Ok tt)
  | None =>
      match balances s !! address with
      | None => create address 0 [] s
      | Some _ => add_to_cache address s
      end
  end.

Definition get_block_hash (offset : Z) : Eth Z := mret 0.

(** ** TransactionSync *)

Definition update_sync (contract_address key : Z) : Eth unit :=
  modify (fun s => with_syncs (syncs s ∖ {[(contract_address, key)]}) s).

(** [load(storage_key)]: the first 32 bytes of the stored value. *)
Definition sync_load (k : StorageKey) (s : EthereumState) : result Z :=
  match tx_storage s !! k with
  | Some state => Util.from_big_endian state 32
  | None => Ok 0
  end.

(** [load(data, storage_key)]: copies the old value to [data]; the increment of
    the pointer is lost, it is passed by value. *)
Definition load_old (k : StorageKey) (data : list Z) : Eth (list Z) := fun s =>
  match pending_storage s !! k with
  | Some val =>
      if zlen val <? 32 then (s, Undef)
      else (with_pending_storage (delete k (pending_storage s)) s, Ok (zwrite 0 (ztake 32 val) data))
  | None => (s, Ok data)
  end.

(** The order of std::set on pairs of uint256_t. *)
Definition key_le (a b : StorageKey) : Prop := a.1 < b.1 \/ (a.1 = b.1 /\ a.2 <= b.2).
#[global] Instance key_le_dec a b : Decision (key_le a b).
Proof. unfold key_le. apply _. Defined.

(** The loop that moves the keys from [pending] to [syncs]. *)
Fixpoint sync_loop (keys : list StorageKey) (data : list Z) : Eth (list Z) :=
  match keys with
  | [] => mret data
  | k :: keys =>
      data ← load_old k data;
      modify (fun s => with_syncs ({[k]} ∪ syncs s) s) ;;
      modify (fun s => with_pending (pending s ∖ {[k]}) s) ;;
      sync_loop keys data
  end.

(** [order] is the order in which [pending.foreach] visits the keys.  The guard
    [total++ < 0] on an unsigned counter never holds.  The results are the
    multimap entries (address, (key, value)) in insertion order and the digest. *)
Definition sync_states (order : list StorageKey) : Eth (list (Z * (Z * Z)) * list Z) :=
  states ← getsR (fun s => result_mapM (fun k => v ← sync_load k s; Ok (k.1, (k.2, v))) order);
  let update_keys := merge_sort key_le order in
  if zlen update_keys <? 1 then mret (states, [])
  else
    old_states ← sync_loop update_keys (zeros (zlen update_keys * 32));
    mret (states, Keccak.keccak256 old_states).

(** ** Invariant *)

(** What a proxy's level and key promise: contracts above SOLIDITY have a key,
    contracts with a key are above SOLIDITY, keys are long enough for AES. *)
Definition proxy_ok (p : AccountProxy) : Prop :=
  match encryptor p with
  | Some k => level_gt (level p) SOLIDITY = true /\ 128 <= zlen k * 8
  | None => level_gt (level p) SOLIDITY = false
  end.

Definition value_ok (v : list Z) : Prop := bytes_ok v /\ 32 <= zlen v.
Definition host_ok (h : Host) : Prop :=
  (forall n, bytes_ok (entropy h n) /\ length (entropy h n) = 12%nat) /\
  (forall n a k v, export_state h n a k = Some v -> u256 v).

#[global] Instance vec_ok_dec c : Decision (vec_ok c).
Proof. unfold vec_ok. apply _. Defined.
#[global] Instance value_ok_dec v : Decision (value_ok v).
Proof. unfold value_ok. apply _. Defined.
#[global] Instance proxy_ok_dec p : Decision (proxy_ok p).
Proof. unfold proxy_ok. destruct (encryptor p); apply _. Defined.

Record eth_ok (s : EthereumState) : Prop := {
  ok_balances : map_Forall (fun _ v => u256 v) (balances s);
  ok_codes : map_Forall (fun _ c => vec_ok c) (codes s);
  ok_nonces : map_Forall (fun _ n => u64 n) (nonces s);
  ok_storage : map_Forall (fun _ v => value_ok v) (tx_storage s);
  ok_pending : map_Forall (fun _ v => value_ok v) (pending_storage s);
  ok_tables : forall a, proxy_ok (make_proxy (contractLevels s !! a) (encryptedKey s !! a));
  ok_cache : map_Forall (fun a p => u256 a /\ proxy_ok p) (cache s);
  ok_host : host_ok (host s)
}.

Definition eth_live (a : Z) (s : EthereumState) : Prop := is_Some (cache s !! a).

(** ** Instances *)

Section instances.
Context `{Gcm}.

#[global] Instance EthereumState_GlobalState : GlobalState EthereumState := {
  gs_remove := remove;
  gs_get := get;
  gs_create := create;
  gs_get_block_hash := get_block_hash;
  acc_get_address a s := match cache s !! a with Some _ => Ok a | None => Undef end;
  acc_get_balance a s := match cache s !! a with Some _ => Ok (get_balance a s) | None => Undef end;
  acc_set_balance a b := proxy a ;; set_balance a b;
  acc_get_nonce a s := match cache s !! a with Some _ => Ok (get_nonce a s) | None => Undef end;
  acc_increment_nonce a := proxy a ;; increment_nonce a;
  acc_get_code a s := match cache s !! a with Some _ => Ok (get_code a s) | None => Undef end;
  acc_set_code a c := proxy a ;; set_code a c;
  st_load := load;
  st_store := store;
  st_remove a k := proxy a ;; storage_remove a k;
}.

End instances.

(** ** Lemmas *)

Lemma proxy_run a p s : cache s !! a = Some p -> proxy a s = (s, Ok p).
Proof. intros E. unfold proxy, getsR. by rewrite E. Qed.

Lemma to_big_endian_ok v : value_ok (Util.to_big_endian v).
Proof. split; [apply be_bytes_ok | unfold Util.to_big_endian; rewrite length_be_bytes; lia]. Qed.

Lemma from_to_big_endian v : u256 v -> Util.from_big_endian (Util.to_big_endian v) 32 = Ok v.
Proof.
  intros Hv. unfold Util.from_big_endian, Util.to_big_endian. rewrite length_be_bytes.
  change (32 <? 32) with false. change (32 <=? Z.of_nat 32) with true.
  unfold ztake. rewrite take_ge by (rewrite length_be_bytes; done). rewrite be_val_be_bytes. f_equal.
  apply Z.mod_small, Hv.
Qed.

Lemma from_big_endian_ok l : bytes_ok l -> 32 <= zlen l -> exists v, Util.from_big_endian l 32 = Ok v /\ u256 v.
Proof.
  intros Hb Hl. unfold Util.from_big_endian. change (32 <? 32) with false.
  destruct (Z.leb_spec 32 (zlen l)); [|lia]. eexists. split; [reflexivity|].
  assert (Hk : bytes_ok (ztake 32 l)) by (unfold ztake; auto with mach).
  apply be_val_bound in Hk. unfold ztake in *. rewrite length_take_le in Hk by lia. exact Hk.
Qed.

Section storage_facts.
Context `{GL : GcmLaws}.

(** The bytes [store] writes, and that [load] reads the word back from them. *)
Lemma stored_bytes p v (iv : list Z) : proxy_ok p -> u256 v -> bytes_ok iv -> length iv = 12%nat ->
  exists st,
    match encryptor p with
    | Some k => Contract.encrypt k iv (Util.to_big_endian v)
    | None => Ok (Util.to_big_endian v)
    end = Ok st /\ value_ok st /\
    (if level_gt (level p) SOLIDITY && (32 <? zlen st) then load_encrypted p st
     else Util.from_big_endian st 32) = Ok v.
Proof.
  intros Hp Hv Hb Hi. unfold proxy_ok in Hp. destruct (encryptor p) as [k|] eqn:Ek.
  - destruct Hp as [Hl Hk].
    destruct (contract_encrypt k iv (Util.to_big_endian v)) as (st & E & Hlen & Hok & Hd); try done.
    { apply be_bytes_ok. }
    exists st. split; [done|]. split; [split; [done | lia]|].
    rewrite Hl, Hlen. change (true && (32 <? Z.of_nat 64)) with true. unfold load_encrypted. rewrite Ek, Hd.
    cbn [mbind result_bind]. by apply from_to_big_endian.
  - exists (Util.to_big_endian v). split; [done|]. split; [apply to_big_endian_ok|]. rewrite Hp. cbn [andb].
    by apply from_to_big_endian.
Qed.

Lemma load_encrypted_ok p st : proxy_ok p -> level_gt (level p) SOLIDITY = true ->
  match load_encrypted p st with Ok v => u256 v | Throw _ => True | Undef => False end.
Proof.
  intros Hp Hl. unfold load_encrypted, proxy_ok in *. destruct (encryptor p) as [k|]; [|by rewrite Hl in Hp].
  pose proof (contract_decrypt_shape k st) as Hd. destruct (Contract.decrypt k st) as [[plain|]| |]; cbn [mbind result_bind]; try done.
  destruct Hd as [Hb Hlen]. destruct (from_big_endian_ok plain Hb) as (v & -> & Hv); [lia | done].
Qed.

(** *** Every operation keeps the invariant *)

Lemma eth_put_balance a v s : eth_ok s -> u256 v -> eth_ok (put_balance a v s).
Proof. intros [] Hv. constructor; try done. by apply map_Forall_insert_2. Qed.
Lemma eth_put_code a c s : eth_ok s -> vec_ok c -> eth_ok (put_code a c s).
Proof. intros [] Hv. constructor; try done. by apply map_Forall_insert_2. Qed.
Lemma eth_put_nonce a n s : eth_ok s -> u64 n -> eth_ok (put_nonce a n s).
Proof. intros [] Hv. constructor; try done. by apply map_Forall_insert_2. Qed.
Lemma eth_put_storage k v s : eth_ok s -> value_ok v -> eth_ok (with_storage (<[k := v]> (tx_storage s)) s).
Proof. intros [] Hv. constructor; try done. by apply map_Forall_insert_2. Qed.
Lemma eth_delete_storage k s : eth_ok s -> eth_ok (with_storage (delete k (tx_storage s)) s).
Proof. intros []. constructor; try done. by apply map_Forall_delete. Qed.
Lemma eth_put_pending k v s : eth_ok s -> value_ok v ->
  eth_ok (with_pending_storage (<[k := v]> (pending_storage s)) s).
Proof. intros [] Hv. constructor; try done. by apply map_Forall_insert_2. Qed.
Lemma eth_with_pending p s : eth_ok s -> eth_ok (with_pending p s).
Proof. intros []. by constructor. Qed.
Lemma eth_draw s : eth_ok s -> eth_ok (draw s).
Proof. intros []. by constructor. Qed.

Lemma add_to_cache_ok a s : eth_ok s -> u256 a ->
  let '(s', r) := add_to_cache a s in
  eth_ok s' /\ (forall b, eth_live b s -> eth_live b s') /\
  match r with Ok _ => eth_live a s' | Throw _ => True | Undef => False end.
Proof.
  intros Hs Ha. unfold add_to_cache. destruct (cache s !! a) eqn:E; [done|]. split_and!.
  - pose proof (ok_tables _ Hs a) as Hp. destruct Hs. constructor; try done. by apply map_Forall_insert_2.
  - intros b Hb. apply lookup_insert_is_Some'. auto.
  - apply lookup_insert_is_Some'. auto.
Qed.

Lemma eth_create_ok a b c s : eth_ok s -> u256 a -> u256 b -> vec_ok c ->
  let '(s', r) := create a b c s in
  eth_ok s' /\ (forall b, eth_live b s -> eth_live b s') /\
  match r with Ok _ => eth_live a s' | Throw _ => True | Undef => False end.
Proof.
  intros Hs Ha Hb Hc. unfold create, mbind, M_bind, gets, throw, modify.
  destruct (balances s !! a); [done|]. cbn [codes put_balance].
  destruct (codes s !! a); [split; [by apply eth_put_balance | done]|]. cbn [nonces put_code put_balance].
  assert (Hs2 : eth_ok (put_code a c (put_balance a b s))) by auto using eth_put_code, eth_put_balance.
  destruct (nonces s !! a); [done|].
  set (s3 := put_nonce a _ _).
  assert (Hs3 : eth_ok s3).
  { apply eth_put_nonce; [done|]. destruct (negb _); split; done. }
  pose proof (add_to_cache_ok a s3 Hs3 Ha) as H3. destruct (add_to_cache a s3) as [s4 r]. exact H3.
Qed.

Lemma eth_load_ok a k s : eth_ok s -> eth_live a s ->
  let '(s', r) := load a k s in
  eth_ok s' /\ (forall b, eth_live b s -> eth_live b s') /\
  match r with Ok v => u256 v | Throw _ => True | Undef => False end.
Proof.
  intros Hs [p Ep]. destruct (ok_cache _ Hs a p Ep) as [_ Hp].
  unfold load. unfold mbind at 1, M_bind at 1. rewrite (proxy_run a p s Ep).
  unfold mbind at 1, M_bind at 1, gets at 1. cbn [tx_storage].
  destruct (tx_storage s !! translate a k) as [st|] eqn:Est.
  - pose proof (ok_storage _ Hs _ _ Est) as [Hb Hl]. unfold mbind at 1, M_bind at 1, gets.
    unfold mbind, M_bind.
    destruct (negb _ && level_gt (level p) BASIC); cbn [modify mret M_ret lift].
    all: assert (Hs' : eth_ok (with_pending_storage (<[translate a k := st]> (pending_storage s)) s)) by (by apply eth_put_pending).
    all: destruct (level_gt (level p) SOLIDITY && (32 <? zlen st)) eqn:Elv; cbn [lift].
    all: split; [done|]; split; [done|].
    1, 3: apply load_encrypted_ok; [done|]; by apply andb_prop in Elv as [? _].
    all: destruct (from_big_endian_ok st Hb Hl) as (v & -> & Hv); exact Hv.
  - assert (Hgen : forall (f : Z -> Eth Z), (forall v s', u256 v -> eth_ok s' -> f v s' = (s', Ok v) \/ f v s' = (s', Throw RuntimeError)) ->
      let '(s', r) := (value ← get_export_state a k;
         modify (fun s => with_pending_storage (<[translate a k := Util.to_big_endian value]> (pending_storage s)) s) ;; f value) s in
      eth_ok s' /\ (forall b, eth_live b s -> eth_live b s') /\ match r with Ok v => u256 v | Throw _ => True | Undef => False end).
    { intros f Hf. unfold get_export_state, mbind, M_bind.
      destruct (export_state (host s) (draws s) a k) as [v|] eqn:Ex; [|split; [by apply eth_draw | done]].
      pose proof (proj2 (ok_host _ Hs) _ _ _ _ Ex) as Hv. cbn [modify].
      set (s' := with_pending_storage _ _). assert (Hs' : eth_ok s') by (apply eth_put_pending; [by apply eth_draw | apply to_big_endian_ok]).
      destruct (Hf v s' Hv Hs') as [-> | ->]; done. }
    destruct (level p); [by split; [|split; [|apply u256_0]] | apply Hgen; auto | apply Hgen; auto | apply Hgen; auto].
Qed.

Lemma store_ok a k v s : eth_ok s -> eth_live a s -> u256 v ->
  let '(s', r) := store a k v s in
  eth_ok s' /\ (forall b, eth_live b s -> eth_live b s') /\ r <> Undef.
Proof.
  intros Hs [p Ep] Hv. destruct (ok_cache _ Hs a p Ep) as [_ Hp]. destruct (proj1 (ok_host _ Hs) (draws s)) as [Hb Hi].
  destruct (stored_bytes p v (entropy (host s) (draws s)) Hp Hv Hb Hi) as (st & E & Hst & _).
  unfold store. unfold mbind at 1, M_bind at 1. rewrite (proxy_run a p s Ep).
  assert (Hfin : forall s0, eth_ok s0 -> cache s0 = cache s ->
    let '(s', r) := (modify (fun s => with_storage (<[translate a k := st]> (tx_storage s)) s) ;;
      if level_gt (level p) BASIC then update_pending a k else mret tt) s0 in
    eth_ok s' /\ (forall b, eth_live b s -> eth_live b s') /\ r <> Undef).
  { intros s0 Hs0 Hc. unfold mbind, M_bind, modify, update_pending. pose proof (eth_put_storage (translate a k) st s0 Hs0 Hst) as H1.
    destruct (level_gt (level p) BASIC); cbn; (split; [auto using eth_with_pending|]);
      (split; [unfold eth_live; cbn; by rewrite Hc | done]). }
  unfold mbind at 1, M_bind at 1. destruct (encryptor p) as [key|].
  - unfold mbind at 1, M_bind at 1, random_iv, lift. rewrite E. apply Hfin; [by apply eth_draw | done].
  - injection E as <-. by apply Hfin.
Qed.

#[global] Program Instance EthereumState_Laws : GlobalStateLaws EthereumState := {
  gs_ok := eth_ok;
  live := eth_live;
}.
Next Obligation.
  intros a s Hs Ha. cbn. unfold get. destruct (cache s !! a) as [p|] eqn:E; [split; [done|]; split; [done | by exists p]|].
  destruct (balances s !! a); [by apply add_to_cache_ok|].
  apply (eth_create_ok a 0 [] s Hs Ha u256_0 SimpleFacts.vec_ok_nil).
Qed.
Next Obligation.
  intros a b c s Hs Ha Hb Hc. cbn. pose proof (eth_create_ok a b c s Hs Ha Hb Hc) as Hk.
  destruct (create a b c s) as [s' [x| |]]; tauto.
Qed.
Next Obligation. intros o s Hs. cbn. split; [done|]. split; [done | apply u256_0]. Qed.
Next Obligation.
  intros a s Hs [p Ep]. cbn. rewrite Ep. eexists. split; [done|]. by apply (ok_cache _ Hs a p Ep).
Qed.
Next Obligation.
  intros a s Hs [p Ep]. cbn. rewrite Ep. eexists. split; [done|]. unfold get_balance.
  destruct (balances s !! a) eqn:E; [by apply (ok_balances _ Hs a) | apply u256_0].
Qed.
Next Obligation.
  intros a s Hs [p Ep]. cbn. rewrite Ep. eexists. split; [done|]. unfold get_nonce.
  destruct (nonces s !! a) eqn:E; [by apply (ok_nonces _ Hs a) | apply u64_0].
Qed.
Next Obligation.
  intros a s Hs [p Ep]. cbn. rewrite Ep. eexists. split; [done|]. unfold get_code.
  destruct (codes s !! a) eqn:E; [by apply (ok_codes _ Hs a) | apply SimpleFacts.vec_ok_nil].
Qed.
Next Obligation.
  intros a v s Hs [p Ep] Hv. cbn. unfold mbind, M_bind. rewrite (proxy_run a p s Ep). cbn. rewrite Ep.
  split; [done|]. split; [by apply eth_put_balance|]. split; [done|].
  unfold get_balance. cbn. rewrite lookup_insert_eq. split; [done|].
  intros b Hb. rewrite lookup_insert_ne by done. done.
Qed.
Next Obligation.
  intros a c s Hs [p Ep] Hc. cbn. unfold mbind, M_bind. rewrite (proxy_run a p s Ep). cbn. rewrite Ep.
  split; [done|]. split; [by apply eth_put_code|]. split; [done|]. unfold get_code. cbn. by rewrite lookup_insert_eq.
Qed.
Next Obligation. intros a k s Hs Ha Hk. by apply eth_load_ok. Qed.
Next Obligation. intros a k v s Hs Ha Hk Hv. by apply store_ok. Qed.
Next Obligation.
  intros a k s Hs [p Ep] Hk. cbn. unfold mbind, M_bind. rewrite (proxy_run a p s Ep). cbn.
  split; [by apply eth_delete_storage | done].
Qed.

End storage_facts.

(** *** Synchronisation *)

(** The old value that ends up in the buffer: each key's overwrites the one
    before. *)
Definition last_old (keys : list StorageKey) (m : gmap StorageKey (list Z)) (w : list Z) : list Z :=
  foldl (fun w k => match m !! k with Some v => ztake 32 v | None => w end) w keys.

Lemma last_old_delete keys m w k : k ∉ keys -> last_old keys (delete k m) w = last_old keys m w.
Proof.
  revert w; induction keys as [|k' keys IH]; intros w Hk; cbn; [done|].
  rewrite lookup_delete_ne by set_solver. apply IH. set_solver.
Qed.

Lemma zwrite_front w v (rest : list Z) : length w = length v -> zwrite 0 v (w ++ rest) = v ++ rest.
Proof.
  intros Hl. unfold zwrite. change (Z.to_nat 0) with 0%nat.
  rewrite list_inserts_spec by (rewrite length_app; lia). cbn [take app Nat.add]. by rewrite <- Hl, drop_app_length.
Qed.

Lemma sync_loop_run keys : NoDup keys -> forall s w rest,
  map_Forall (fun _ v => value_ok v) (pending_storage s) -> length w = 32%nat ->
  exists s', sync_loop keys (w ++ rest) s = (s', Ok (last_old keys (pending_storage s) w ++ rest)) /\
    pending s' = pending s ∖ list_to_set keys /\ syncs s' = list_to_set keys ∪ syncs s /\
    tx_storage s' = tx_storage s /\
    (forall k, pending_storage s' !! k = if bool_decide (k ∈ keys) then None else pending_storage s !! k).
Proof.
  induction 1 as [|k keys Hk Hnd IH]; intros s w rest Hps Hw; cbn [sync_loop].
  - exists s. split_and!; try done; set_solver.
  - set (w1 := match pending_storage s !! k with Some v => ztake 32 v | None => w end).
    set (s1 := match pending_storage s !! k with
               | Some _ => with_pending_storage (delete k (pending_storage s)) s | None => s end).
    assert (Hlo : load_old k (w ++ rest) s = (s1, Ok (w1 ++ rest)) /\ length w1 = 32%nat).
    { unfold load_old, w1, s1. destruct (pending_storage s !! k) as [v|] eqn:E; [|done].
      destruct (Hps k v E) as [_ Hv]. destruct (Z.ltb_spec (zlen v) 32); [lia|].
      assert (Hl : length (ztake 32 v) = 32%nat) by (unfold ztake; rewrite length_take; lia).
      by rewrite zwrite_front by lia. }
    destruct Hlo as [Hlo Hw1]. unfold mbind at 1, M_bind at 1. rewrite Hlo.
    set (s2 := with_pending (pending s1 ∖ {[k]}) (with_syncs ({[k]} ∪ syncs s1) s1)).
    assert (Hps1 : pending_storage s1 = delete k (pending_storage s)).
    { unfold s1. destruct (pending_storage s !! k) eqn:E; [done|]. by rewrite delete_id. }
    destruct (IH s2 w1 rest) as (s' & Hr & H1 & H2 & H3 & H4); [|done|].
    { cbn. rewrite Hps1. by apply map_Forall_delete. }
    exists s'. split; [|split_and!].
    + change (sync_loop keys (w1 ++ rest) s2 = (s', Ok (last_old (k :: keys) (pending_storage s) w ++ rest))).
      rewrite Hr. cbn [s2 with_pending with_syncs pending_storage]. rewrite Hps1, last_old_delete by done. done.
    + rewrite H1. cbn [s2 with_pending pending]. replace (pending s1) with (pending s); [set_solver|].
      unfold s1. by destruct (pending_storage s !! k).
    + rewrite H2. cbn [s2 with_pending with_syncs syncs]. replace (syncs s1) with (syncs s); [set_solver|].
      unfold s1. by destruct (pending_storage s !! k).
    + rewrite H3. unfold s2, s1. by destruct (pending_storage s !! k).
    + intros k'. rewrite H4. cbn [s2 with_pending with_syncs pending_storage]. rewrite Hps1.
      destruct (decide (k' = k)) as [->|Hne].
      * rewrite lookup_delete_eq, (bool_decide_eq_true_2 (k ∈ k :: keys)) by constructor. by destruct (bool_decide _).
      * rewrite lookup_delete_ne by done. rewrite (bool_decide_ext (k' ∈ k :: keys) (k' ∈ keys)); [done|].
        rewrite elem_of_cons. tauto.
Qed.

Lemma sync_load_ok k s : eth_ok s -> exists v, sync_load k s = Ok v /\ u256 v.
Proof.
  intros Hs. unfold sync_load. destruct (tx_storage s !! k) as [st|] eqn:E; [|by exists 0; split; [|apply u256_0]].
  destruct (ok_storage _ Hs k st E). by apply from_big_endian_ok.
Qed.

Lemma sync_mapM order s : eth_ok s ->
  exists states, result_mapM (fun k => v ← sync_load k s; Ok (k.1, (k.2, v))) order = Ok states /\
    Forall2 (fun k e => sync_load k s = Ok e.2.2 /\ e.1 = k.1 /\ e.2.1 = k.2) order states.
Proof.
  intros Hs. induction order as [|k order (states & E & Hf)]; cbn [result_mapM]; [by exists []|].
  destruct (sync_load_ok k s Hs) as (v & Ev & _). rewrite Ev. cbn [mbind result_bind]. rewrite E.
  cbn [mbind result_bind]. eexists. split; [done|]. constructor; done.
Qed.

(** ** Properties *)

Section properties.
Context `{GL : GcmLaws}.

(** C35. Contract storage keeps what is written: at every privacy level, encrypted
    or not, loading a key right after storing it returns the stored word, no
    other key changes, and contracts above BASIC get the key marked as pending
    for the chain. *)
Theorem eth_store_load a k v p (s : EthereumState) :
  eth_ok s -> cache s !! a = Some p -> u256 v ->
  exists s1, store a k v s = (s1, Ok tt) /\ snd (load a k s1) = Ok v /\
    (forall k', k' <> (a, k) -> tx_storage s1 !! k' = tx_storage s !! k') /\
    pending s1 = (if level_gt (level p) BASIC then {[(a, k)]} ∪ pending s else pending s).
Proof.
  intros Hs Ep Hv. destruct (ok_cache _ Hs a p Ep) as [_ Hp]. destruct (proj1 (ok_host _ Hs) (draws s)) as [Hb Hi].
  destruct (stored_bytes p v (entropy (host s) (draws s)) Hp Hv Hb Hi) as (st & E & Hst & Hl).
  assert (Hload : forall s1, cache s1 !! a = Some p -> tx_storage s1 !! (a, k) = Some st -> snd (load a k s1) = Ok v).
  { intros s1 E1 E2. unfold load. unfold mbind at 1, M_bind at 1. rewrite (proxy_run a p s1 E1).
    unfold mbind at 1, M_bind at 1, gets at 1. unfold translate. rewrite E2. unfold mbind, M_bind, gets.
    rewrite <- Hl. destruct (negb _ && level_gt (level p) BASIC); cbn [modify mret M_ret];
      destruct (level_gt (level p) SOLIDITY && (32 <? zlen st)); done. }
  assert (Hrun : exists s0, cache s0 = cache s /\ tx_storage s0 = tx_storage s /\ pending s0 = pending s /\
    store a k v s = (modify (fun s => with_storage (<[translate a k := st]> (tx_storage s)) s) ;;
      if level_gt (level p) BASIC then update_pending a k else mret tt) s0).
  { unfold store. unfold mbind at 1, M_bind at 1. rewrite (proxy_run a p s Ep). unfold mbind at 1, M_bind at 1.
    destruct (encryptor p) as [key|].
    - unfold mbind at 1, M_bind at 1, random_iv, lift. rewrite E. by exists (draw s).
    - injection E as <-. by exists s. }
  destruct Hrun as (s0 & Hc & Ht & Hpd & ->). unfold mbind, M_bind, modify, update_pending, translate.
  destruct (level_gt (level p) BASIC); eexists; (split; [reflexivity|]); (split; [apply Hload; cbn; [by rewrite Hc | apply lookup_insert_eq]|]).
  all: cbn; rewrite Ht, Hpd; split; [|done]; intros k' Hk'; by rewrite lookup_insert_ne.
Qed.

(** Writing zero is lost for contracts whose storage mirrors the chain: SSTORE
    of 0 removes the entry without marking the key as pending, and the next load
    asks the host for the value on the chain instead of returning 0. *)
Theorem eth_zero_write a k v p (s : EthereumState) :
  cache s !! a = Some p -> level p = SOLIDITY -> export_state (host s) (draws s) a k = Some v ->
  exists s1, snd (storage_remove a k s) <> Undef /\ fst (storage_remove a k s) = s1 /\
    pending s1 = pending s /\ snd (load a k s1) = Ok v.
Proof.
  intros Ep Hl Hx. eexists. split; [done|]. split; [reflexivity|]. split; [done|].
  unfold load, mbind, M_bind. rewrite (proxy_run a p) by done. unfold gets.
  cbn [storage_remove fst with_storage tx_storage]. rewrite lookup_delete_eq, Hl.
  unfold get_export_state. cbn [with_storage host draws]. by rewrite Hx.
Qed.

(** C38. In a well-formed state that has pending keys, a synchronisation hands over
    every pending key exactly once, whatever the order of the visit: the pending
    set becomes empty, its keys join the keys being synchronised, one entry per
    key with the first word of its stored value is reported, and the remembered
    old values of these keys are dropped.  The digest, however, covers the old
    value of a single key (the last one in key order that has one) followed by
    zeros, whatever the other old values are. *)
Theorem sync_states_spec (order : list StorageKey) (s : EthereumState) :
  eth_ok s -> order ≡ₚ elements (pending s) -> order <> [] ->
  exists s' states, sync_states order s =
    (s', Ok (states, Keccak.keccak256
      (last_old (merge_sort key_le order) (pending_storage s) (zeros 32) ++ zeros (32 * (zlen order - 1))))) /\
    pending s' = ∅ /\ syncs s' = pending s ∪ syncs s /\ tx_storage s' = tx_storage s /\
    Forall2 (fun k e => sync_load k s = Ok e.2.2 /\ e.1 = k.1 /\ e.2.1 = k.2) order states /\
    (forall k, pending_storage s' !! k = if bool_decide (k ∈ pending s) then None else pending_storage s !! k).
Proof.
  intros Hs Ho Hne. destruct (sync_mapM order s Hs) as (states & E & Hf).
  set (keys := merge_sort key_le order).
  assert (Hperm : keys ≡ₚ order) by apply merge_sort_Permutation.
  assert (Hnd : NoDup keys) by (rewrite Hperm, Ho; apply NoDup_elements).
  assert (Hset : list_to_set keys = pending s) by (rewrite Hperm, Ho; apply list_to_set_elements_L).
  assert (Hlen : length keys = length order) by (by rewrite Hperm).
  destruct order as [|k0 order]; [done|].
  destruct (sync_loop_run keys Hnd s (zeros 32) (zeros (32 * (zlen (k0 :: order) - 1))) (ok_pending _ Hs) eq_refl)
    as (s' & Hr & H1 & H2 & H3 & H4).
  exists s', states. split_and!; [|rewrite H1, Hset; set_solver | by rewrite H2, Hset | done | done |].
  - unfold sync_states. unfold mbind at 1, M_bind at 1, getsR. rewrite E. cbv zeta. fold keys. rewrite Hlen.
    destruct (Z.ltb_spec (zlen (k0 :: order)) 1) as [Hlt|_]; [cbn [length] in Hlt; lia|].
    unfold mbind, M_bind.
    replace (zeros (zlen (k0 :: order) * 32)) with (zeros 32 ++ zeros (32 * (zlen (k0 :: order) - 1))).
    2: { unfold zeros. rewrite <- replicate_add. f_equal. cbn [length]. lia. }
    by rewrite Hr.
  - intros k. rewrite H4. rewrite (bool_decide_ext (k ∈ keys) (k ∈ pending s)); [done|].
    rewrite <- Hset. symmetry. apply elem_of_list_to_set.
Qed.

End properties.

(** ** Witnesses *)

(** A stand-in for AES-GCM that satisfies the laws: the ciphertext is the
    plaintext. *)
#[local] Instance identity_gcm : Gcm := {
  gcm_encrypt _ _ plain := (plain, replicate 16 0);
  gcm_decrypt _ _ _ c := if bool_decide (bytes_ok c) then Some c else None
}.
#[local] Instance identity_gcm_laws : GcmLaws.
Proof.
  split.
  - intros key iv plain c t Hp [= <- <-]. cbn. by rewrite bool_decide_eq_true_2.
  - by intros key iv plain c t [= <- <-].
  - intros key iv plain c t Hp [= <- <-]. split; [done|]. by apply (bool_decide_unpack _); vm_compute.
  - intros key iv t c plain. cbn. case_bool_decide; [|done]. by intros [= <-].
Qed.

Definition whost : Host := mkHost (fun _ => replicate 12 3) (fun _ _ _ => Some 77).
(** Contract 1 mirrors the chain, contract 2 is encrypted. *)
Definition weth : EthereumState :=
  mkEth ∅ ∅ ∅ {[ (1, 5) := be_bytes 32 9 ]} {[ (1, 5) := be_bytes 32 8; (1, 6) := be_bytes 32 4 ]}
    {[ (1, 5); (1, 6) ]} ∅ {[ 2 := replicate 16 1 ]} {[ 1 := SOLIDITY; 2 := SOLIDITY_ENHANCE ]}
    {[ 1 := mkProxy None SOLIDITY; 2 := mkProxy (Some (replicate 16 1)) SOLIDITY_ENHANCE ]} whost 0.

Lemma weth_ok : eth_ok weth.
Proof.
  constructor; try (by apply (bool_decide_unpack _); vm_compute).
  - intros a. cbn. destruct (decide (a = 1)) as [->|H1]; [done|]. destruct (decide (a = 2)) as [->|H2]; [done|].
    rewrite (lookup_insert_ne _ 1), lookup_singleton_ne, lookup_singleton_ne by done. done.
  - split; [intros n; split; [by apply (bool_decide_unpack _); vm_compute | done]|]. by intros n a k v [= <-].
Qed.

Lemma eth_store_load_witness :
  exists s1, store 2 7 1234 weth = (s1, Ok tt) /\ snd (load 2 7 s1) = Ok 1234 /\
    (forall k', k' <> (2, 7) -> tx_storage s1 !! k' = tx_storage weth !! k') /\
    pending s1 = {[(2, 7)]} ∪ pending weth.
Proof.
  apply (eth_store_load 2 7 1234 (mkProxy (Some (replicate 16 1)) SOLIDITY_ENHANCE) weth weth_ok); [reflexivity|].
  by split.
Defined.

Lemma eth_zero_write_witness :
  exists s1, snd (storage_remove 1 5 weth) <> Undef /\ fst (storage_remove 1 5 weth) = s1 /\
    pending s1 = pending weth /\ snd (load 1 5 s1) = Ok 77.
Proof. by apply (eth_zero_write 1 5 77 (mkProxy None SOLIDITY) weth). Defined.

Lemma sync_states_spec_witness :
  exists s' states, sync_states (elements (pending weth)) weth =
    (s', Ok (states, Keccak.keccak256
      (last_old (merge_sort key_le (elements (pending weth))) (pending_storage weth) (zeros 32) ++
       zeros (32 * (zlen (elements (pending weth)) - 1))))) /\
    pending s' = ∅.
Proof.
  destruct (sync_states_spec (elements (pending weth)) weth weth_ok) as (s' & states & H1 & H2 & _);
    [reflexivity | by vm_compute |].
  exists s', states. split; [exact H1 | exact H2].
Defined.

End EthState.
