(* ===== verification/EthTx.v ===== *)
(** * Ethereum transactions and their signatures

    Model of include/ethereum_transaction.h, include/ccf/crypto/recover.h, the
    callers of libsecp256k1 in src/crypto/secp256k1 (sign_hash, recover_key) and
    the signed transactions of src/transaction (signature_abstract.h,
    signature.h).  [current_chain_id] is an argument; curve arithmetic and key
    serialisation are the interface [Secp256k1] with the laws [Secp256k1Laws].
    The JSON inside a privacy or multi-party transaction stays a byte string. *)
From S2P Require Import Prelude Keccak Util Rlp Address.
From stdpp Require Import list strings.
Local Open Scope Z_scope.

Module EthTx.
Import Keccak Util Address.

(** ** Chain and recovery ids *)

Definition pre_eip_155 : Z := 0.
Definition ethereum_mainnet : Z := 1.
Definition geth_private_default : Z := 1337.
Definition pre_155_v_start : Z := 27.
Definition post_155_v_start : Z := 35.

Definition is_pre_eip_155 (v : Z) : bool := (v =? 27) || (v =? 28).

Definition to_ethereum_recovery_id (current_chain_id rec_id : Z) : result Z :=
  if 3 <? rec_id then Throw LogicError
  else if 1 <? rec_id then Throw LogicError
  else if current_chain_id =? pre_eip_155 then Ok (wrap64 (rec_id + pre_155_v_start))
  else Ok (wrap64 (rec_id + current_chain_id * 2 + post_155_v_start)).

Definition from_ethereum_recovery_id (current_chain_id v : Z) : result Z :=
  if is_pre_eip_155 v then Ok (v - pre_155_v_start)
  else if v <? 37 then Throw LogicError
  else
    let rec_id := (v - post_155_v_start) mod 2 in
    let chain_id := ((v - rec_id) - post_155_v_start) / 2 in
    if negb (chain_id =? current_chain_id) then Throw LogicError else Ok rec_id.

(** ** Addresses *)

(** [intx::be::trunc] keeps the 20 low bytes. *)
Definition encode_optional_address (address : option Z) : list Z :=
  match address with Some a => be_bytes 20 a | None => [] end.

Definition get_address_from_public_key (pubKey : list Z) : result Z :=
  match pubKey with
  | [] => Undef
  | b :: bytes =>
      if negb (b =? 4) then Throw LogicError
      else from_big_endian (zdrop 12 (keccak256 bytes)) 20
  end.

(** ** Recoverable signatures *)

Record RecoverableSignature := mkRs { raw : list Z; recovery_id : Z }.

(** [std::copy] runs to [data.end()], past the 64 bytes of [raw]: a 65th byte
    lands on the [recovery_id] that follows it, which the next line assigns.
    The object has 68 bytes. *)
Definition rs_of_bytes (data : list Z) : result RecoverableSignature :=
  if (zlen data <? 65) || (68 <? zlen data) then Undef
  else Ok (mkRs (ztake 64 data) (znth 64 data)).

Definition rs_serialise (rs : RecoverableSignature) : list Z := raw rs ++ [wrap8 (recovery_id rs)].

(** What libsecp256k1 and OpenSSL provide: recoverable signing of a digest in
    compact form, recovery of the uncompressed public key from it, and the
    public key of a pair. *)
Class Secp256k1 := {
  KeyPair : Type;
  public_key_raw : KeyPair -> list Z;
  sign_recoverable : KeyPair -> list Z -> option (list Z * Z);
  recover : list Z -> Z -> list Z -> option (list Z)
}.

Class Secp256k1Laws `{Secp256k1} := {
  sign_format kp h r id : sign_recoverable kp h = Some (r, id) ->
    bytes_ok r /\ length r = 64%nat /\ 0 <= id <= 3;
  recover_sign kp h r id : sign_recoverable kp h = Some (r, id) -> recover r id h = Some (public_key_raw kp);
  public_key_format kp : exists xy, public_key_raw kp = 4 :: xy
}.

Section curve.
Context `{Secp256k1}.

Definition sign_hash (kp : KeyPair) (hash : list Z) : result (list Z) :=
  if negb (zlen hash =? 32) then Throw RuntimeError
  else match sign_recoverable kp hash with
       | None => Throw RuntimeError
       | Some (r, id) => Ok (rs_serialise (mkRs r id))
       end.

(** [recover_key] followed by [public_key_raw] on the recovered key. *)
Definition recover_key (rs : RecoverableSignature) (hashed : list Z) : result (list Z) :=
  if negb (zlen hashed =? 32) then Throw RuntimeError
  else match recover (raw rs) (recovery_id rs) hashed with
       | None => Throw RuntimeError
       | Some pubk => Ok pubk
       end.

End curve.

(** ** Message calls and transactions *)

Record MessageCall := mkCall {
  from : Z; call_to : option Z; call_gas : Z; call_gas_price : Z; call_value : Z; call_data : list Z
}.

Record EthereumTransaction := mkTx {
  nonce : Z; gas_price : Z; gas : Z; to : list Z; value : Z; data : list Z
}.

Definition tx_of_call (nonce_ : Z) (tc : MessageCall) : EthereumTransaction :=
  mkTx nonce_ (call_gas_price tc) (call_gas tc) (encode_optional_address (call_to tc)) (call_value tc)
    (to_bytes (call_data tc)).

Definition tx_types : list Rlp.ty :=
  [Rlp.TUnsigned 8; Rlp.TUint256; Rlp.TUint256; Rlp.TByteString; Rlp.TUint256; Rlp.TByteString].
Definition tx_vals (t : EthereumTransaction) : list Rlp.val :=
  [Rlp.VNum (nonce t); Rlp.VNum (gas_price t); Rlp.VNum (gas t); Rlp.VBytes (to t); Rlp.VNum (value t);
   Rlp.VBytes (data t)].

(** The constructor from RLP; the decoder returns values of the types asked
    for, so the last case does not arise. *)
Definition tx_decode (encoded : list Z) : result EthereumTransaction :=
  tup ← Rlp.decode tx_types encoded;
  match tup with
  | [Rlp.VNum n; Rlp.VNum gp; Rlp.VNum g; Rlp.VBytes t; Rlp.VNum v; Rlp.VBytes d] => Ok (mkTx n gp g t v d)
  | _ => Undef
  end.

Definition tx_encode (t : EthereumTransaction) : list Z := Rlp.encode tx_types (tx_vals t).

Definition to_be_signed (t : EthereumTransaction) : list Z := keccak256 (tx_encode t).

(** The literals 0 take the uint64_t overload. *)
Definition tx_encode_with_chain_id (current_chain_id : Z) (t : EthereumTransaction) : list Z :=
  Rlp.encode (tx_types ++ [Rlp.TUnsigned 8; Rlp.TUnsigned 8; Rlp.TUnsigned 8])
    (tx_vals t ++ [Rlp.VNum current_chain_id; Rlp.VNum 0; Rlp.VNum 0]).
Definition to_be_signed_with_chain_id (current_chain_id : Z) (t : EthereumTransaction) : list Z :=
  keccak256 (tx_encode_with_chain_id current_chain_id t).

Definition to_transaction_call (t : EthereumTransaction) (tc : MessageCall) : result MessageCall :=
  a ← match to t with
      | [] => Ok None
      | _ => a ← from_big_endian (to t) (zlen (to t)); Ok (Some a)
      end;
  Ok (mkCall (from tc) a (gas t) (gas_price t) (value t) (to_hex_string (data t))).

(** ** Signed transactions *)

Record EthereumTransactionWithSignature := mkSigned { tx : EthereumTransaction; v : Z; r : Z; s : Z }.

(** The coordinates of a compact signature, 32 bytes each. *)
Definition rs_coords (sig : RecoverableSignature) : result (Z * Z) :=
  r ← from_big_endian (raw sig) 32;
  s ← from_big_endian (zdrop 32 (raw sig)) 32;
  Ok (r, s).

Definition with_signature (current_chain_id : Z) (t : EthereumTransaction) (sig : RecoverableSignature)
  : result EthereumTransactionWithSignature :=
  v ← to_ethereum_recovery_id current_chain_id (recovery_id sig);
  '(r, s) ← rs_coords sig;
  Ok (mkSigned t v r s).

Definition signed_types : list Rlp.ty := tx_types ++ [Rlp.TUnsigned 8; Rlp.TUint256; Rlp.TUint256].

Definition signed_decode (encoded : list Z) : result EthereumTransactionWithSignature :=
  tup ← Rlp.decode signed_types encoded;
  match tup with
  | [Rlp.VNum n; Rlp.VNum gp; Rlp.VNum g; Rlp.VBytes t; Rlp.VNum vl; Rlp.VBytes d;
     Rlp.VNum v; Rlp.VNum r; Rlp.VNum s] => Ok (mkSigned (mkTx n gp g t vl d) v r s)
  | _ => Undef
  end.

Definition signed_encode (t : EthereumTransactionWithSignature) : list Z :=
  Rlp.encode signed_types (tx_vals (tx t) ++ [Rlp.VNum (v t); Rlp.VNum (r t); Rlp.VNum (s t)]).

Definition to_recoverable_signature (current_chain_id : Z) (t : EthereumTransactionWithSignature)
  : result RecoverableSignature :=
  id ← from_ethereum_recovery_id current_chain_id (v t);
  Ok (mkRs (to_big_endian (r t) ++ to_big_endian (s t)) id).

Definition signed_to_be_signed (current_chain_id : Z) (includeSignature : bool)
  (t : EthereumTransactionWithSignature) : list Z :=
  if is_pre_eip_155 (v t) then to_be_signed (tx t)
  else if includeSignature then keccak256 (signed_encode t)
  else to_be_signed_with_chain_id current_chain_id (tx t).

Section signing.
Context `{Secp256k1}.
Variable current_chain_id : Z.

Definition get_sender_address (t : EthereumTransactionWithSignature) : result Z :=
  rs ← to_recoverable_signature current_chain_id t;
  let tbs := signed_to_be_signed current_chain_id false t in
  pubk ← recover_key rs tbs;
  get_address_from_public_key pubk.

Definition signed_to_transaction_call (t : EthereumTransactionWithSignature) (tc : MessageCall)
  : result MessageCall :=
  tc ← to_transaction_call (tx t) tc;
  a ← get_sender_address t;
  Ok (mkCall a (call_to tc) (call_gas tc) (call_gas_price tc) (call_value tc) (call_data tc)).

Definition sign_transaction (kp : KeyPair) (t : EthereumTransaction) (with_chain_id : bool)
  : result EthereumTransactionWithSignature :=
  let tbs := if with_chain_id then to_be_signed_with_chain_id current_chain_id t else to_be_signed t in
  sig ← sign_hash kp tbs;
  re_sig ← rs_of_bytes sig;
  with_signature current_chain_id t re_sig.

Definition sign_eth_tx (kp : KeyPair) (mc : MessageCall) (nonce : Z) : result (list Z) :=
  t ← sign_transaction kp (tx_of_call nonce mc) true;
  Ok (signed_encode t).

End signing.

(** ** Privacy and multi-party transactions *)

(** The [v] of these transactions is a uint8_t. *)
Record SignatureAbstract := mkSig { sig_v : Z; sig_r : Z; sig_s : Z }.

Definition signature_of_rs (current_chain_id : Z) (sig : RecoverableSignature) : result SignatureAbstract :=
  v ← to_ethereum_recovery_id current_chain_id (recovery_id sig);
  '(r, s) ← rs_coords sig;
  Ok (mkSig (wrap8 v) r s).

Definition sig_to_recoverable_signature (current_chain_id : Z) (g : SignatureAbstract)
  : result RecoverableSignature :=
  id ← from_ethereum_recovery_id current_chain_id (sig_v g);
  Ok (mkRs (to_big_endian (sig_r g) ++ to_big_endian (sig_s g)) id).

Section signature.
Context `{Secp256k1}.
Variable current_chain_id : Z.

Definition getPublicKey (g : SignatureAbstract) (tbs : list Z) : result (list Z) :=
  rs ← sig_to_recoverable_signature current_chain_id g;
  recover_key rs tbs.

Definition signatureAndVerify (g : SignatureAbstract) (tbs : list Z) : result Z :=
  pubk ← getPublicKey g tbs;
  get_address_from_public_key pubk.

End signature.

Record PrivacyTransaction := mkPrivacy {
  p_to : list Z; verifierAddr : list Z; codeHash : list Z; p_data : list Z
}.

Definition privacy_of_params (to verifier : option Z) (code_hash policy : list Z) : PrivacyTransaction :=
  mkPrivacy (encode_optional_address to) (encode_optional_address verifier) (to_bytes code_hash)
    (to_bytes policy).

Definition privacy_types : list Rlp.ty := replicate 4 Rlp.TByteString.
Definition privacy_vals (t : PrivacyTransaction) : list Rlp.val :=
  [Rlp.VBytes (p_to t); Rlp.VBytes (verifierAddr t); Rlp.VBytes (codeHash t); Rlp.VBytes (p_data t)].
Definition privacy_decode (encoded : list Z) : result PrivacyTransaction :=
  tup ← Rlp.decode privacy_types encoded;
  match tup with
  | [Rlp.VBytes a; Rlp.VBytes b; Rlp.VBytes c; Rlp.VBytes d] => Ok (mkPrivacy a b c d)
  | _ => Undef
  end.
Definition privacy_encode (t : PrivacyTransaction) : list Z := Rlp.encode privacy_types (privacy_vals t).

Definition sig_types : list Rlp.ty := [Rlp.TUnsigned 1; Rlp.TUint256; Rlp.TUint256].
Definition sig_vals (g : SignatureAbstract) : list Rlp.val :=
  [Rlp.VNum (sig_v g); Rlp.VNum (sig_r g); Rlp.VNum (sig_s g)].

Definition privacy_signed_decode (encoded : list Z) : result (PrivacyTransaction * SignatureAbstract) :=
  tup ← Rlp.decode (privacy_types ++ sig_types) encoded;
  match tup with
  | [Rlp.VBytes a; Rlp.VBytes b; Rlp.VBytes c; Rlp.VBytes d; Rlp.VNum v; Rlp.VNum r; Rlp.VNum s] =>
      Ok (mkPrivacy a b c d, mkSig v r s)
  | _ => Undef
  end.
Definition privacy_signed_encode (t : PrivacyTransaction) (g : SignatureAbstract) : list Z :=
  Rlp.encode (privacy_types ++ sig_types) (privacy_vals t ++ sig_vals g).

Definition privacy_to_be_signed (current_chain_id : Z) (t : PrivacyTransaction) (g : SignatureAbstract)
  : list Z :=
  if is_pre_eip_155 (sig_v g) then keccak256 (privacy_encode t)
  else keccak256 (Rlp.encode (privacy_types ++ [Rlp.TUnsigned 8; Rlp.TUnsigned 8; Rlp.TUnsigned 8])
                    (privacy_vals t ++ [Rlp.VNum current_chain_id; Rlp.VNum 0; Rlp.VNum 0])).

(** The recipient and the verifier of a policy transaction: 20 bytes are read
    from each buffer, whatever its size. *)
Definition to_transaction (t : PrivacyTransaction) : result (Z * Z * list Z) :=
  a ← from_big_endian (p_to t) 20;
  b ← from_big_endian (verifierAddr t) 20;
  Ok (a, b, to_hex_string (codeHash t)).

(** [to_transaction_call]: recipient, verifier, code hash, sender and policy
    digest; the policy itself is parsed from JSON. *)
Definition privacy_to_transaction_call `{Secp256k1} (current_chain_id : Z) (t : PrivacyTransaction)
  (g : SignatureAbstract) : result (Z * Z * list Z * Z * list Z) :=
  c ← to_transaction t;
  a ← signatureAndVerify current_chain_id g (privacy_to_be_signed current_chain_id t g);
  Ok (c, a, keccak256 (p_data t)).

Record CloakTransaction := mkCloak { c_nonce : Z; c_to : list Z; c_data : list Z }.

Definition cloak_types : list Rlp.ty := [Rlp.TUnsigned 8; Rlp.TByteString; Rlp.TByteString].
Definition cloak_vals (t : CloakTransaction) : list Rlp.val :=
  [Rlp.VNum (c_nonce t); Rlp.VBytes (c_to t); Rlp.VBytes (c_data t)].
Definition cloak_decode (encoded : list Z) : result CloakTransaction :=
  tup ← Rlp.decode cloak_types encoded;
  match tup with
  | [Rlp.VNum n; Rlp.VBytes a; Rlp.VBytes d] => Ok (mkCloak n a d)
  | _ => Undef
  end.
Definition cloak_encode (t : CloakTransaction) : list Z := Rlp.encode cloak_types (cloak_vals t).

Definition cloak_signed_decode (encoded : list Z) : result (CloakTransaction * SignatureAbstract) :=
  tup ← Rlp.decode (cloak_types ++ sig_types) encoded;
  match tup with
  | [Rlp.VNum n; Rlp.VBytes a; Rlp.VBytes d; Rlp.VNum v; Rlp.VNum r; Rlp.VNum s] =>
      Ok (mkCloak n a d, mkSig v r s)
  | _ => Undef
  end.
Definition cloak_signed_encode (t : CloakTransaction) (g : SignatureAbstract) : list Z :=
  Rlp.encode (cloak_types ++ sig_types) (cloak_vals t ++ sig_vals g).
Definition cloak_digest (t : CloakTransaction) (g : SignatureAbstract) : list Z :=
  keccak256 (cloak_signed_encode t g).

Definition cloak_to_be_signed (current_chain_id : Z) (t : CloakTransaction) (g : SignatureAbstract) : list Z :=
  if is_pre_eip_155 (sig_v g) then keccak256 (cloak_encode t)
  else keccak256 (Rlp.encode (cloak_types ++ [Rlp.TUnsigned 8; Rlp.TUnsigned 8; Rlp.TUnsigned 8])
                    (cloak_vals t ++ [Rlp.VNum current_chain_id; Rlp.VNum 0; Rlp.VNum 0])).

(** Recipient, nonce, sender and the sender's public key; the parameters are
    parsed from JSON. *)
Definition cloak_to_transaction_call `{Secp256k1} (current_chain_id : Z) (t : CloakTransaction)
  (g : SignatureAbstract) : result (list Z * Z * Z * list Z) :=
  let tbs := cloak_to_be_signed current_chain_id t g in
  a ← signatureAndVerify current_chain_id g tbs;
  k ← getPublicKey current_chain_id g tbs;
  Ok (c_to t, c_nonce t, a, k).

(** ** Well-formed values *)

Definition tx_ok (t : EthereumTransaction) : Prop :=
  u64 (nonce t) /\ u256 (gas_price t) /\ u256 (gas t) /\ bytes_ok (to t) /\ u256 (value t) /\ bytes_ok (data t).
Definition call_ok (mc : MessageCall) : Prop :=
  u256 (call_gas mc) /\ u256 (call_gas_price mc) /\ u256 (call_value mc) /\
  match call_to mc with Some a => 0 <= a < M160 | None => True end.
Definition signature_ok (g : SignatureAbstract) : Prop := u8 (sig_v g) /\ u256 (sig_r g) /\ u256 (sig_s g).

(** A transaction, with its signature, fits an RLP list of less than 4 GiB. *)
Definition fits (t : EthereumTransaction) : Prop := zlen (to t) <= 32 /\ zlen (data t) < 2 ^ 31.

(** ** Lemmas *)

#[local] Opaque keccak256.

Lemma rs_of_serialised rs : length (raw rs) = 64%nat -> 0 <= recovery_id rs < 256 ->
  rs_of_bytes (rs_serialise rs) = Ok rs.
Proof.
  intros Hl Hi. destruct rs as [b id]. cbn [raw recovery_id] in *. unfold rs_of_bytes, rs_serialise.
  cbn [raw recovery_id]. unfold wrap8. rewrite Z.mod_small by exact Hi. rewrite length_app, Hl.
  cbn [length Nat.add Z.of_nat Z.ltb Z.compare Pos.compare Pos.compare_cont orb Pos.of_succ_nat Pos.succ].
  unfold ztake, znth. change (Z.to_nat 64) with 64%nat.
  rewrite take_app_le, take_ge, app_nth2, Hl by lia. done.
Qed.

(** The two coordinates of a signature are its two halves. *)
Lemma rs_coords_ok rs : bytes_ok (raw rs) -> length (raw rs) = 64%nat ->
  exists x y, rs_coords rs = Ok (x, y) /\ u256 x /\ u256 y /\ to_big_endian x ++ to_big_endian y = raw rs.
Proof.
  intros Hok Hl. destruct rs as [b id]. cbn [raw] in *. unfold rs_coords. cbn [raw].
  assert (H1 : length (take 32 b) = 32%nat) by (rewrite length_take; lia).
  assert (H2 : length (drop 32 b) = 32%nat) by (rewrite length_drop; lia).
  assert (B1 : bytes_ok (take 32 b)) by (by apply bytes_ok_take).
  assert (B2 : bytes_ok (drop 32 b)) by (by apply bytes_ok_drop).
  exists (be_val (take 32 b)), (be_val (drop 32 b)).
  pose proof (Rlp.from_big_endian_app (take 32 b) (drop 32 b)) as E1. rewrite H1, take_drop in E1. change (Z.of_nat 32) with 32 in E1.
  pose proof (Rlp.from_big_endian_app (drop 32 b) []) as E2. rewrite H2, app_nil_r in E2. change (Z.of_nat 32) with 32 in E2.
  unfold zdrop. change (Z.to_nat 32) with 32%nat. rewrite E1, E2 by lia. split; [done|].
  pose proof (be_val_bound _ B1) as U1. pose proof (be_val_bound _ B2) as U2. rewrite H1 in U1. rewrite H2 in U2.
  split; [exact U1|]. split; [exact U2|]. unfold to_big_endian.
  pose proof (be_bytes_be_val _ B1) as F1. pose proof (be_bytes_be_val _ B2) as F2.
  rewrite H1 in F1. rewrite H2 in F2. by rewrite F1, F2, take_drop.
Qed.

Lemma to_recovery_id c id : 0 <= c < 2 ^ 62 -> 0 <= id <= 1 ->
  exists v, to_ethereum_recovery_id c id = Ok v /\ u64 v /\ from_ethereum_recovery_id c v = Ok id /\
    is_pre_eip_155 v = (c =? 0).
Proof.
  intros Hc Hid. unfold to_ethereum_recovery_id, pre_eip_155. repeat (zcase; try lia).
  - exists (id + 27). unfold pre_155_v_start, wrap64, M64. rewrite Z.mod_small by lia.
    split; [done|]. split; [unfold u64, M64; lia|].
    assert (E : is_pre_eip_155 (id + 27) = true) by (unfold is_pre_eip_155; lia).
    unfold from_ethereum_recovery_id. rewrite E. unfold pre_155_v_start. split; [f_equal; lia | done].
  - exists (id + c * 2 + 35). unfold post_155_v_start, wrap64. rewrite Z.mod_small by (unfold M64; lia).
    split; [done|]. split; [unfold u64, M64; lia|].
    assert (E : is_pre_eip_155 (id + c * 2 + 35) = false) by (unfold is_pre_eip_155; lia).
    split; [|done]. unfold from_ethereum_recovery_id, post_155_v_start. rewrite E.
    zcase; [lia|]. replace (id + c * 2 + 35 - 35) with (id + c * 2) by lia.
    rewrite Z.mod_add, Z.mod_small by lia. replace (id + c * 2 + 35 - id - 35) with (c * 2) by lia.
    rewrite Z.div_mul, Z.eqb_refl by lia. done.
Qed.

(** What recovery accepts: the two pre-EIP-155 values and the two values of the
    current chain. *)
Lemma from_recovery_id c v id : u64 v -> from_ethereum_recovery_id c v = Ok id ->
  0 <= id <= 1 /\ (v = id + 27 \/ (1 <= c /\ v = id + c * 2 + 35)).
Proof.
  intros Hv. unfold from_ethereum_recovery_id, is_pre_eip_155, pre_155_v_start, post_155_v_start.
  destruct ((v =? 27) || (v =? 28)) eqn:E; [intros [= <-]; lia|]. zcase; [done|].
  destruct (Z.eqb_spec ((v - (v - 35) mod 2 - 35) / 2) c) as [Ec|]; cbn [negb]; [|done]. intros [= <-].
  pose proof (Z.div_mod (v - 35) 2). pose proof (Z.mod_pos_bound (v - 35) 2).
  replace (v - (v - 35) mod 2 - 35) with ((v - 35) / 2 * 2) in Ec by lia. rewrite Z.div_mul in Ec by lia.
  split; [lia|]. right. lia.
Qed.

(** An RLP header has at most nine bytes. *)
Lemma encode_single_upper b : u64 (zlen b) -> zlen (Rlp.encode_single b) <= zlen b + 9.
Proof.
  intros Hb. unfold Rlp.encode_single. destruct (_ && _); [lia|]. zcase; cbn [length app]; [lia|].
  destruct (Rlp.to_byte_string_u64_spec _ Hb) as (_ & _ & Hl & _). rewrite length_app. lia.
Qed.
Lemma prefix_upper b : u64 (zlen b) -> zlen (Rlp.prefix_multiple_length (zlen b) b) <= zlen b + 9.
Proof.
  intros Hb. unfold Rlp.prefix_multiple_length. zcase; cbn [length app]; [lia|].
  destruct (Rlp.to_byte_string_u64_spec _ Hb) as (_ & _ & Hl & _). rewrite length_app. lia.
Qed.
Lemma encode_num_upper n : u256 n -> zlen (Rlp.encode_single (Rlp.to_byte_string_u256 n)) <= 41.
Proof.
  intros Hn. destruct (Rlp.to_byte_string_u256_spec n Hn) as (_ & _ & Hl).
  pose proof (encode_single_upper (Rlp.to_byte_string_u256 n)) as Hu. unfold u64, M64 in Hu. lia.
Qed.
Lemma encode_u64_upper n : u64 n -> zlen (Rlp.encode_single (Rlp.to_byte_string_u64 n)) <= 17.
Proof.
  intros Hn. destruct (Rlp.to_byte_string_u64_spec n Hn) as (_ & _ & Hl & _).
  pose proof (encode_single_upper (Rlp.to_byte_string_u64 n)) as Hu. unfold u64, M64 in Hu. lia.
Qed.

Lemma signed_decode_encode t : tx_ok (tx t) -> fits (tx t) -> u64 (v t) -> u256 (r t) -> u256 (s t) ->
  signed_decode (signed_encode t) = Ok t.
Proof.
  destruct t as [[n gp g a vl d] v r s]. cbn [tx EthTx.v EthTx.r EthTx.s].
  intros (Hn & Hgp & Hg & Ha & Hvl & Hd) [F1 F2] Hv Hr Hs. cbn [nonce gas_price gas to value data] in *.
  unfold signed_decode, signed_encode. rewrite Rlp.decode_encode_flat; [done | | |].
  - cbn [signed_types tx_types tx_vals app tx EthTx.v EthTx.r EthTx.s nonce gas_price gas to value data
         Rlp.has_types Rlp.has_type]. change (256 ^ Z.of_nat 8) with M64. unfold u64, u256 in *. split_and!; done || lia.
  - right. repeat constructor.
  - cbn [Rlp.encode signed_types tx_types tx_vals app tx EthTx.v EthTx.r EthTx.s nonce gas_price gas to value data].
    cbn [Rlp.encode_items Rlp.encode1]. rewrite app_nil_r.
    match goal with |- context [Rlp.prefix_multiple_length (zlen ?b) ?b] => pose proof (prefix_upper b) as Hp end.
    rewrite !length_app in Hp.
    pose proof (encode_u64_upper n Hn). pose proof (encode_num_upper gp Hgp). pose proof (encode_num_upper g Hg).
    pose proof (encode_num_upper vl Hvl). pose proof (encode_u64_upper v Hv).
    pose proof (encode_num_upper r Hr). pose proof (encode_num_upper s Hs).
    pose proof (encode_single_upper a) as Ua. pose proof (encode_single_upper d) as Ud.
    unfold u64, M64 in Hp, Ua, Ud. rewrite !length_app. lia.
Qed.

Lemma tx_of_call_ok n mc : u64 n -> call_ok mc -> tx_ok (tx_of_call n mc).
Proof.
  intros Hn (Hg & Hp & Hv & Ht). unfold tx_ok, tx_of_call.
  cbn [nonce gas_price gas to value data]. split_and!; try done; [|apply to_bytes_ok].
  destruct (call_to mc); cbn [encode_optional_address]; [apply be_bytes_ok | constructor].
Qed.

(** The call read back from an unsigned transaction. *)
Lemma to_transaction_call_of_call n mc tc : call_ok mc ->
  to_transaction_call (tx_of_call n mc) tc =
  Ok (mkCall (from tc) (call_to mc) (call_gas mc) (call_gas_price mc) (call_value mc)
        (to_hex_string (to_bytes (call_data mc)))).
Proof.
  intros (_ & _ & _ & Ht). unfold to_transaction_call, tx_of_call. cbn [to gas gas_price value data].
  destruct (call_to mc) as [a|]; cbn [encode_optional_address]; [|done].
  pose proof (Rlp.from_big_endian_app (be_bytes 20 a) []) as E.
  rewrite app_nil_r, length_be_bytes, (be_bytes_20 a Ht) in E.
  pose proof (length_be_bytes 20 a) as Hl.
  destruct (be_bytes 20 a) as [|x l]; [discriminate Hl|]. rewrite Hl, E by lia. done.
Qed.

Section round_trip.
Context `{C : Secp256k1} `{L : !Secp256k1Laws}.

Lemma address_of_key kp : exists a, get_address_from_public_key (public_key_raw kp) = Ok a /\ 0 <= a < M160.
Proof. destruct (public_key_format kp) as [xy ->]. cbn. apply low20_ok. Qed.

Lemma sign_hash_ok kp m b id : sign_recoverable kp (keccak256 m) = Some (b, id) ->
  sign_hash kp (keccak256 m) ≫= rs_of_bytes = Ok (mkRs b id).
Proof.
  intros Hs. destruct (sign_format _ _ _ _ Hs) as (Hb & Hl & Hid). unfold sign_hash.
  rewrite length_keccak256, Hs. cbn [Z.of_nat Z.eqb]. cbn -[rs_of_bytes rs_serialise].
  apply rs_of_serialised; cbn; [done | lia].
Qed.

(** Signing with the chain id of a chain after EIP-155: the sender recovered
    from the signed transaction is the signer. *)
Lemma sender_of_signed c kp t b id : 1 <= c < 2 ^ 62 -> id <= 1 ->
  sign_recoverable kp (to_be_signed_with_chain_id c t) = Some (b, id) ->
  exists st, sign_transaction c kp t true = Ok st /\ tx st = t /\ u64 (v st) /\ u256 (r st) /\ u256 (s st) /\
    get_sender_address c st = get_address_from_public_key (public_key_raw kp).
Proof.
  intros Hc Hid Hs. destruct (sign_format _ _ _ _ Hs) as (Hb & Hl & Hid').
  destruct (to_recovery_id c id) as (w & Ew & Hw & Ef & Ep); [lia | lia |].
  destruct (rs_coords_ok (mkRs b id) Hb Hl) as (x & y & Exy & Hx & Hy & Er). cbn [raw] in Er.
  exists (mkSigned t w x y). cbn [tx v r s]. split_and!; try done.
  - unfold sign_transaction. pose proof (sign_hash_ok kp _ b id Hs) as E.
    unfold to_be_signed_with_chain_id in *. destruct (sign_hash kp _) as [sg| |]; cbn in E; try discriminate E.
    cbn [mbind result_bind]. rewrite E. cbn [mbind result_bind]. unfold with_signature. cbn [recovery_id].
    rewrite Ew. cbn [mbind result_bind]. by rewrite Exy.
  - unfold get_sender_address, to_recoverable_signature. cbn [v r s]. rewrite Ef. cbn [mbind result_bind].
    rewrite Er. unfold signed_to_be_signed. cbn [v tx]. rewrite Ep. destruct (Z.eqb_spec c 0); [lia|].
    unfold recover_key. cbn [raw recovery_id]. rewrite (recover_sign _ _ _ _ Hs).
    unfold to_be_signed_with_chain_id. rewrite length_keccak256. done.
Qed.

End round_trip.

Lemma prefix_inj_length b b' : u64 (zlen b) -> u64 (zlen b') ->
  Rlp.prefix_multiple_length (zlen b) b = Rlp.prefix_multiple_length (zlen b') b' -> zlen b = zlen b'.
Proof.
  intros H1 H2 E. pose proof (Rlp.decode_length_multiple b [] _ H1 (Z.le_refl _)) as D1.
  pose proof (Rlp.decode_length_multiple b' [] _ H2 (Z.le_refl _)) as D2.
  rewrite E in D1. rewrite D1 in D2. by injection D2.
Qed.

(** Appending the chain id makes the message another one. *)
Lemma chain_id_preimage c t : u64 c -> tx_ok t -> fits t -> tx_encode_with_chain_id c t <> tx_encode t.
Proof.
  intros Hc (Hn & Hgp & Hg & Ha & Hvl & Hd) [F1 F2] E. unfold tx_encode_with_chain_id, tx_encode in E.
  cbn [Rlp.encode tx_types tx_vals app Rlp.encode_items Rlp.encode1] in E. rewrite !app_nil_r in E.
  change (Rlp.encode_single (Rlp.to_byte_string_u64 0)) with [0x80] in E.
  pose proof (encode_u64_upper _ Hn). pose proof (encode_num_upper _ Hgp). pose proof (encode_num_upper _ Hg).
  pose proof (encode_num_upper _ Hvl). pose proof (encode_u64_upper c Hc).
  pose proof (encode_single_upper (to t)) as Ua. pose proof (encode_single_upper (data t)) as Ud.
  unfold u64, M64 in Ua, Ud. apply prefix_inj_length in E;
    rewrite ?length_app in *; cbn [length] in *; unfold u64, M64; lia.
Qed.

(** ** Properties *)

(** Recovery ids survive the trip through [v]: on any chain, [v] is formed
    for the ids 0 and 1 only and read back as the same id; and whatever
    [from_ethereum_recovery_id] accepts is a pre-EIP-155 value or a value of
    the current chain. *)
Theorem recovery_id_roundtrip c id w : 0 <= c < 2 ^ 62 -> 0 <= id -> u64 w ->
  (to_ethereum_recovery_id c id = Ok w -> from_ethereum_recovery_id c w = Ok id) /\
  (2 <= id -> to_ethereum_recovery_id c id = Throw LogicError) /\
  (from_ethereum_recovery_id c w = Ok id ->
     to_ethereum_recovery_id 0 id = Ok w \/ (1 <= c /\ to_ethereum_recovery_id c id = Ok w)).
Proof.
  intros Hc Hid Hw.
  assert (Hbig : 2 <= id -> to_ethereum_recovery_id c id = Throw LogicError).
  { intros. unfold to_ethereum_recovery_id. repeat (zcase; try lia); done. }
  split; [|split; [done|]].
  - intros E. destruct (decide (id <= 1)); [|rewrite Hbig in E by lia; done].
    destruct (to_recovery_id c id) as (w' & E' & _ & H & _); [lia | lia |]. congruence.
  - intros E. destruct (from_recovery_id c w id Hw E) as [Hi [-> | [H1 ->]]]; [left | right; split; [done|]];
      unfold to_ethereum_recovery_id, pre_eip_155, pre_155_v_start, post_155_v_start, wrap64, M64;
      repeat (zcase; try lia); by rewrite Z.mod_small by lia.
Qed.

Lemma recovery_id_roundtrip_witness :
  from_ethereum_recovery_id 1337 2710 = Ok 1 /\ to_ethereum_recovery_id 1337 2 = Throw LogicError.
Proof.
  destruct (recovery_id_roundtrip 1337 1 2710) as (H1 & _ & _); [lia | lia | unfold u64, M64; lia|].
  destruct (recovery_id_roundtrip 1337 2 2710) as (_ & H2 & _); [lia | lia | unfold u64, M64; lia|].
  split; [apply H1; reflexivity | apply H2; lia].
Defined.

(** C36. Signing a call and reading it back: what [sign_eth_tx] encodes decodes
    to a signed transaction whose recovered sender is the signer's address and
    whose recipient, gas, price, value and payload are those of the call. *)
Theorem sign_eth_tx_roundtrip `{C : Secp256k1} `{L : !Secp256k1Laws} c kp mc n b id tc :
  1 <= c < 2 ^ 62 -> u64 n -> call_ok mc -> zlen (to_bytes (call_data mc)) < 2 ^ 31 -> id <= 1 ->
  sign_recoverable kp (to_be_signed_with_chain_id c (tx_of_call n mc)) = Some (b, id) ->
  exists enc st a,
    sign_eth_tx c kp mc n = Ok enc /\ signed_decode enc = Ok st /\ nonce (tx st) = n /\
    get_address_from_public_key (public_key_raw kp) = Ok a /\
    signed_to_transaction_call c st tc =
      Ok (mkCall a (call_to mc) (call_gas mc) (call_gas_price mc) (call_value mc)
            (to_hex_string (to_bytes (call_data mc)))) /\
    to_bytes (to_hex_string (to_bytes (call_data mc))) = to_bytes (call_data mc).
Proof.
  intros Hc Hn Hmc Hl Hid Hs.
  destruct (sender_of_signed c kp _ b id Hc Hid Hs) as (st & E & Et & Hv & Hr & Hss & Ha).
  destruct (address_of_key kp) as (a & Ea & _). exists (signed_encode st), st, a.
  assert (Hok : tx_ok (tx st)) by (rewrite Et; by apply tx_of_call_ok).
  assert (Hf : fits (tx st)).
  { rewrite Et. split; [|done]. cbn [tx_of_call to].
    destruct (call_to mc); cbn [encode_optional_address]; rewrite ?length_be_bytes; cbn [length]; lia. }
  split_and!; [| by apply signed_decode_encode | by rewrite Et | done | | apply to_bytes_hex, to_bytes_ok].
  - unfold sign_eth_tx. by rewrite E.
  - unfold signed_to_transaction_call. rewrite Et, to_transaction_call_of_call by done.
    cbn [mbind result_bind]. by rewrite Ha, Ea.
Qed.

(** A concrete instance: the public key is the secret number, and the compact
    signature spells it out. *)
#[local] Instance wcurve : Secp256k1 := {|
  KeyPair := Z;
  public_key_raw k := 4 :: be_bytes 64 k;
  sign_recoverable k _ := Some (be_bytes 64 k, 1);
  recover b _ _ := Some (4 :: b)
|}.
#[local] Instance wcurve_laws : Secp256k1Laws.
Proof.
  split.
  - intros kp h b id E. injection E as Eb <-. split; [|split; [|lia]].
    + rewrite <- Eb. exact (be_bytes_ok 64 kp).
    + rewrite <- Eb. exact (length_be_bytes 64 kp).
  - intros kp h b id E. injection E as <- <-. reflexivity.
  - intros kp. by exists (be_bytes 64 kp).
Defined.

Definition wcall : MessageCall := mkCall 0 (Some 77) 21000 1 5 (str "0x0102ff").

Lemma sign_eth_tx_roundtrip_witness : exists enc st a,
  sign_eth_tx 1 (2 ^ 300 + 9) wcall 3 = Ok enc /\ signed_decode enc = Ok st /\
  signed_to_transaction_call 1 st wcall = Ok (mkCall a (Some 77) 21000 1 5 (str "0x0102ff")).
Proof.
  destruct (sign_eth_tx_roundtrip (C := wcurve) (L := wcurve_laws) 1 (2 ^ 300 + 9) wcall 3
              (be_bytes 64 (2 ^ 300 + 9)) 1 wcall) as (enc & st & a & H1 & H2 & _ & _ & H3 & _).
  - lia.
  - unfold u64, M64; lia.
  - unfold call_ok, u256, M256, M160. cbn. lia.
  - vm_compute. reflexivity.
  - lia.
  - reflexivity.
  - exists enc, st, a. split; [exact H1|]. split; [exact H2 | exact H3].
Defined.

(** The digest that is signed is the digest the sender is recovered from
    exactly when the chain id is signed on a chain after EIP-155 and left out
    before it; the default of [sign_transaction] leaves it out always. *)
Theorem sign_transaction_digest `{C : Secp256k1} `{L : !Secp256k1Laws} c kp t with_chain_id st :
  0 <= c < 2 ^ 62 -> tx_ok t -> fits t -> sign_transaction c kp t with_chain_id = Ok st ->
  exists p q sig,
    sign_hash kp (keccak256 p) = Ok sig /\ (rs_of_bytes sig ≫= with_signature c t) = Ok st /\
    signed_to_be_signed c false st = keccak256 q /\
    (p = q <-> with_chain_id = negb (c =? 0)).
Proof.
  intros Hc Hok Hf E.
  exists (if with_chain_id then tx_encode_with_chain_id c t else tx_encode t),
         (if c =? 0 then tx_encode t else tx_encode_with_chain_id c t).
  pose proof (chain_id_preimage c t ltac:(unfold u64, M64; lia) Hok Hf) as Hne.
  unfold sign_transaction, to_be_signed_with_chain_id, to_be_signed in E.
  replace (if with_chain_id then _ else _)
    with (keccak256 (if with_chain_id then tx_encode_with_chain_id c t else tx_encode t)) in E
    by (by destruct with_chain_id).
  set (p := if with_chain_id then _ else _) in *.
  apply bind_ok in E as (sig & Es & E). apply bind_ok in E as (re & Er & E). exists sig.
  split; [done|]. split; [by rewrite Er|].
  assert (Hst : tx st = t /\ is_pre_eip_155 (v st) = (c =? 0)).
  { unfold with_signature in E. apply bind_ok in E as (w & Ew & E). apply bind_ok in E as ([x y] & _ & [= <-]).
    split; [done|]. cbn [v]. assert (Hid : recovery_id re <= 1).
    { unfold to_ethereum_recovery_id in Ew. repeat (zcase_in Ew; try done); lia. }
    destruct (to_recovery_id c (recovery_id re)) as (w' & Ew' & _ & _ & Hp); [done | |congruence].
    split; [|done]. destruct (sign_recoverable kp (keccak256 p)) as [[b id]|] eqn:Esr.
    - pose proof (sign_hash_ok kp p b id Esr) as Eh. rewrite Es in Eh. cbn [mbind result_bind] in Eh.
      rewrite Er in Eh. injection Eh as ->. cbn [recovery_id]. by destruct (sign_format _ _ _ _ Esr) as (_ & _ & ? & _).
    - unfold sign_hash in Es. rewrite Esr in Es. by destruct (negb _). }
  destruct Hst as [Et Ep]. unfold signed_to_be_signed. rewrite Et, Ep.
  split; [by destruct (c =? 0)|]. subst p. destruct with_chain_id, (c =? 0); cbn; split; try done; congruence.
Qed.

Lemma sign_transaction_digest_witness :
  let t := tx_of_call 3 wcall in
  exists st p q, sign_transaction 1 5 t false = Ok st /\ signed_to_be_signed 1 false st = keccak256 q /\
    sign_hash 5 (keccak256 p) = Ok (be_bytes 64 5 ++ [1]) /\ p <> q.
Proof.
  intros t.
  assert (Hok : tx_ok t) by (apply tx_of_call_ok; unfold call_ok, u64, u256, M64, M256, M160; cbn; lia).
  assert (Hf : fits t) by (split; vm_compute; congruence).
  set (st := mkSigned t 38 (be_val (take 32 (be_bytes 64 5))) (be_val (drop 32 (be_bytes 64 5)))).
  assert (E : sign_transaction 1 5 t false = Ok st).
  { unfold sign_transaction, sign_hash. cbv zeta. unfold to_be_signed at 1. rewrite length_keccak256. reflexivity. }
  destruct (sign_transaction_digest (C := wcurve) (L := wcurve_laws) 1 5 t false st ltac:(lia) Hok Hf E)
    as (p & q & sig & H1 & H2 & H3 & H4).
  exists st, p, q. split; [exact E|]. split; [exact H3|]. split.
  - unfold sign_hash. rewrite length_keccak256. reflexivity.
  - intros Hpq. apply H4 in Hpq. discriminate Hpq.
Defined.

(** Privacy and multi-party transactions keep [v] in one byte: a signature
    is read back exactly when [v] is below 256 (so never on a chain above 110),
    or wraps around to a pre-EIP-155 value. *)
Theorem signature_byte_roundtrip c rs g : 0 <= c < 2 ^ 62 -> bytes_ok (raw rs) -> length (raw rs) = 64%nat ->
  0 <= recovery_id rs -> signature_of_rs c rs = Ok g ->
  (sig_to_recoverable_signature c g = Ok rs <-> recovery_id rs + c * 2 <= 220 \/ c mod 128 = 124).
Proof.
  intros Hc Hb Hl Hid E. unfold signature_of_rs in E. apply bind_ok in E as (w & Ew & E).
  destruct (rs_coords_ok rs Hb Hl) as (x & y & Exy & Hx & Hy & Er). rewrite Exy in E. injection E as <-.
  unfold sig_to_recoverable_signature. cbn [sig_v sig_r sig_s]. rewrite Er. destruct rs as [b id].
  cbn [raw recovery_id] in *.
  assert (Hid1 : id <= 1) by (unfold to_ethereum_recovery_id in Ew; repeat (zcase_in Ew; try done); lia).
  destruct (to_recovery_id c id Hc (conj Hid Hid1)) as (w' & Ew' & Hw & Ef & Ep).
  rewrite Ew in Ew'. injection Ew' as <-.
  assert (H8 : u64 (wrap8 w)) 
    by (change (wrap8 w) with (w mod 256); pose proof (Z.mod_pos_bound w 256); unfold u64, M64; lia).
  assert (Hiff : (exists i, from_ethereum_recovery_id c (wrap8 w) = Ok i /\ i = id) <->
                 id + c * 2 <= 220 \/ c mod 128 = 124).
  { pose proof (from_recovery_id c w id Hw Ef) as [_ Hw']. unfold is_pre_eip_155 in Ep.
    pose proof (Z.div_mod w 256). pose proof (Z.mod_pos_bound w 256). change (wrap8 w) with (w mod 256) in *.
    pose proof (Z.div_mod c 128). pose proof (Z.mod_pos_bound c 128). split.
    - intros (i & Ei & ->). destruct (from_recovery_id c _ id H8 Ei) as [_ Hi]. lia.
    - intros Hcase. exists id. split; [|done]. destruct (Z.le_gt_cases (id + c * 2) 220).
      + rewrite Z.mod_small by lia. done.
      + replace (w mod 256) with (id + 27) by lia. unfold from_ethereum_recovery_id.
        replace (is_pre_eip_155 (id + 27)) with true by (unfold is_pre_eip_155; lia).
        f_equal. unfold pre_155_v_start. lia. }
  rewrite <- Hiff. destruct (from_ethereum_recovery_id c (wrap8 w)); cbn; split; intros H.
  - injection H as ->. eauto.
  - destruct H as (i & [= ->] & ->). done.
  - discriminate H.
  - by destruct H as (i & ? & _).
  - discriminate H.
  - by destruct H as (i & ? & _).
Qed.

Lemma signature_byte_roundtrip_witness :
  let rs := mkRs (be_bytes 64 7) 1 in
  let g := mkSig 150 0 7 in
  signature_of_rs geth_private_default rs = Ok g /\
  sig_to_recoverable_signature geth_private_default g <> Ok rs.
Proof.
  intros rs g. assert (E : signature_of_rs geth_private_default rs = Ok g) by (vm_compute; reflexivity).
  split; [exact E|].
  rewrite (signature_byte_roundtrip geth_private_default rs g).
  - intros [H|H]; [vm_compute in H; contradiction | discriminate H].
  - vm_compute. split; congruence.
  - exact (be_bytes_ok 64 7).
  - reflexivity.
  - vm_compute. congruence.
  - exact E.
Defined.

(** Signed privacy and multi-party transactions survive their RLP encoding. *)
Theorem privacy_cloak_roundtrip p k g :
  signature_ok g -> Forall bytes_ok [p_to p; verifierAddr p; codeHash p; p_data p; c_to k; c_data k] ->
  u64 (c_nonce k) -> zlen (p_to p ++ verifierAddr p ++ codeHash p ++ p_data p) < 2 ^ 31 ->
  zlen (c_to k ++ c_data k) < 2 ^ 31 ->
  privacy_signed_decode (privacy_signed_encode p g) = Ok (p, g) /\
  cloak_signed_decode (cloak_signed_encode k g) = Ok (k, g).
Proof.
  destruct p as [a b c d], k as [n ka kd], g as [w x y]. intros (Hw & Hx & Hy) Hb Hn Hl Hk.
  cbn [p_to verifierAddr codeHash p_data c_to c_data c_nonce sig_v sig_r sig_s] in *.
  rewrite !Forall_cons in Hb. destruct Hb as (B1 & B2 & B3 & B4 & B5 & B6 & _). rewrite !length_app in Hl, Hk.
  assert (H8 : u64 w) by (unfold u64, M64, u8, M8 in *; lia).
  pose proof (encode_u64_upper w H8). pose proof (encode_num_upper x Hx). pose proof (encode_num_upper y Hy).
  pose proof (encode_u64_upper n Hn).
  pose proof (encode_single_upper a) as U1. pose proof (encode_single_upper b) as U2.
  pose proof (encode_single_upper c) as U3. pose proof (encode_single_upper d) as U4.
  pose proof (encode_single_upper ka) as U5. pose proof (encode_single_upper kd) as U6.
  unfold u64, M64 in U1, U2, U3, U4, U5, U6.
  unfold privacy_signed_decode, privacy_signed_encode, cloak_signed_decode, cloak_signed_encode.
  split; rewrite Rlp.decode_encode_flat; try done; try (right; repeat constructor);
    cbn [privacy_types cloak_types sig_types privacy_vals cloak_vals sig_vals app replicate
         p_to verifierAddr codeHash p_data c_to c_data c_nonce sig_v sig_r sig_s
         Rlp.has_types Rlp.has_type Rlp.encode Rlp.encode_items Rlp.encode1].
  1, 3: change (256 ^ Z.of_nat 8) with M64; change (256 ^ Z.of_nat 1) with 256;
        unfold u8, u64, u256, M8 in *; split_and!; done || lia.
  all: match goal with |- context [Rlp.prefix_multiple_length (zlen ?b) ?b] => pose proof (prefix_upper b) as Hp end;
       rewrite ?length_app in *; cbn [length] in *; unfold u64, M64 in Hp; lia.
Qed.

Lemma privacy_cloak_roundtrip_witness :
  let p := mkPrivacy (be_bytes 20 5) [] [1; 2; 3] [200] in
  let k := mkCloak 300 (be_bytes 20 6) [7] in
  let g := mkSig 38 (2 ^ 200) 1 in
  privacy_signed_decode (privacy_signed_encode p g) = Ok (p, g) /\
  cloak_signed_decode (cloak_signed_encode k g) = Ok (k, g).
Proof.
  intros p k g. apply (privacy_cloak_roundtrip p k g).
  - unfold signature_ok, u8, u256, M8, M256. cbn. lia.
  - repeat constructor; vm_compute; congruence.
  - unfold u64, M64. cbn. lia.
  - reflexivity.
  - reflexivity.
Defined.

End EthTx.
