(* ===== verification/ExecTx.v ===== *)
(** * Executing a transaction

    Model of src/ethereum/execute_transaction.h: [AbstractEVM::run_in_evm] and
    [run], and the two entry points of [EVMC].  They are written over the
    interface [GlobalState]; the program runs them on the EthereumState of
    EthState.v.  The processor's fuel is passed through: [None] means that it
    ran out.  The call's payload is the hexadecimal string of the JSON request. *)
From S2P Require Import Prelude Monad Keccak Util Rlp Address Stack Bytecode GlobalState Processor.
From S2P Require Import EvmArith EvmMemory EvmSafety EvmRun EthTx.
From stdpp Require Import list gmap strings.
Local Open Scope Z_scope.

Module ExecTx.
Import Processor EthTx.

(** What the environment provides to the processor. *)
Record Machine := mkMachine {
  clock : nat -> Z;
  stack_junk : nat -> list Z * list Z;
  new_acc_alive : bool
}.

Record TxResult := mkTxResult { contract_address : option Z; tx_logs : list LogEntry }.

Section exec.
Context {St : Type} `{GS : GlobalState St} (m : Machine).

(** [eevm::Transaction eth_tx(call_data.from, log_handler)]: the price and the
    limit are the defaults. *)
Definition eth_tx (mc : MessageCall) : Env :=
  mkEnv (from mc) 0 0 (clock m) (stack_junk m) (new_acc_alive m).

Definition exec_run (fuel : nat) (mc : MessageCall) (dst : Z) (g : St)
  : option (St * result (ExecResult * list LogEntry)) :=
  match (gs_get dst ;; getsR (has_code dst)) g with
  | (g, Ok true) =>
      match run (eth_tx mc) fuel (from mc) dst (Util.to_bytes (call_data mc)) (call_value mc) g with
      | Some (st, Ok x) => Some (gs st, Ok (x, logs st))
      | Some (st, Throw e) => Some (gs st, Throw e)
      | Some (st, Undef) => Some (gs st, Undef)
      | None => None
      end
  | (g, Ok false) => Some (g, Throw EthException)
  | (g, Throw e) => Some (g, Throw e)
  | (g, Undef) => Some (g, Undef)
  end.

(** The account the call goes to; a call without recipient creates it, with the
    gas as its balance and the payload as its code. *)
Definition exec_target (mc : MessageCall) : M St Z :=
  match call_to mc with
  | Some a => mret a
  | None =>
      gs_get (from mc) ;;
      a ← getsR (acc_get_address (from mc));
      n ← getsR (acc_get_nonce (from mc));
      dst ← lift (Address.generate_address a n);
      gs_create dst (call_gas mc) (Util.to_bytes (call_data mc)) ;;
      mret dst
  end.

(** After the run: install the code of a deployment, count the sender's nonce. *)
Definition exec_commit (mc : MessageCall) (dst : Z) (x : ExecResult) : M St Z :=
  (match call_to mc with None => acc_set_code dst (output x) | Some _ => mret tt end) ;;
  gs_get (from mc) ;;
  getsR (acc_get_nonce (from mc)) ;;
  acc_increment_nonce (from mc) ;;
  getsR (acc_get_address dst).

Definition run_in_evm (fuel : nat) (mc : MessageCall) (g : St)
  : option (St * result (ExecResult * Z * list LogEntry)) :=
  match exec_target mc g with
  | (g, Ok dst) =>
      match exec_run fuel mc dst g with
      | Some (g, Ok (x, l)) =>
          match er x with
          | threw => Some (g, Ok (x, 0, l))
          | _ => let '(g, r) := exec_commit mc dst x g in
                 Some (g, a ← r; Ok (x, a, l))
          end
      | Some (g, Throw e) => Some (g, Throw e)
      | Some (g, Undef) => Some (g, Undef)
      | None => None
      end
  | (g, Throw e) => Some (g, Throw e)
  | (g, Undef) => Some (g, Undef)
  end.

Definition evmc_run (fuel : nat) (mc : MessageCall) (g : St) : option (St * result TxResult) :=
  match run_in_evm fuel mc g with
  | Some (g, r) =>
      Some (g, '(x, a, l) ← r;
               match er x with
               | threw => Throw LogicError
               | _ => Ok (mkTxResult (match call_to mc with None => Some a | Some _ => None end) l)
               end)
  | None => None
  end.

Definition run_with_result (fuel : nat) (mc : MessageCall) (g : St) : option (St * result ExecResult) :=
  match run_in_evm fuel mc g with
  | Some (g, r) =>
      Some (g, '(x, _, _) ← r; match er x with threw => Throw LogicError | _ => Ok x end)
  | None => None
  end.

(** ** Lemmas *)

(** The run of a program compiled from an expression. *)
Lemma exec_run_program e fuel mc dst (g g1 : St) :
  EvmRun.consts_ok e = true -> EvmRun.slots e <= 1024 -> zlen (EvmRun.program e) < 2 ^ 63 ->
  gs_get dst g = (g1, Ok tt) -> acc_get_code dst g1 = Ok (EvmRun.program e) ->
  (EvmRun.turns e + 5 <= fuel)%nat ->
  exec_run fuel mc dst g = Some (g1, Ok (mkResult returned outOfBounds (be_bytes 32 (EvmRun.eval e)), [])).
Proof.
  intros Hok Hs Hl Hg Hc Hf. unfold exec_run, mbind, M_bind, getsR. rewrite Hg. unfold has_code. rewrite Hc.
  cbn [mbind result_bind].
  replace (bool_decide (EvmRun.program e = [])) with false
    by (symmetry; apply bool_decide_eq_false; unfold EvmRun.program; intros H; by apply app_eq_nil in H as [_ ?]).
  cbn [negb].
  destruct (EvmRun.run_program (eth_tx mc) e (from mc) dst (Util.to_bytes (call_data mc)) (call_value mc) g1 fuel
              Hok Hs Hl Hc Hf) as (st & -> & Hst & Hlg). by rewrite Hst, Hlg.
Qed.

(** ** Properties *)

(** A call to a contract whose code computes an expression returns its value
    and has one effect besides fetching the two accounts: the sender's nonce is
    counted. *)
Theorem exec_call_program e fuel mc dst (g g1 g2 g3 : St) n a :
  EvmRun.consts_ok e = true -> EvmRun.slots e <= 1024 -> zlen (EvmRun.program e) < 2 ^ 63 ->
  call_to mc = Some dst -> gs_get dst g = (g1, Ok tt) -> acc_get_code dst g1 = Ok (EvmRun.program e) ->
  (EvmRun.turns e + 5 <= fuel)%nat ->
  gs_get (from mc) g1 = (g2, Ok tt) -> acc_get_nonce (from mc) g2 = Ok n ->
  acc_increment_nonce (from mc) g2 = (g3, Ok tt) -> acc_get_address dst g3 = Ok a ->
  run_with_result fuel mc g = Some (g3, Ok (mkResult returned outOfBounds (be_bytes 32 (EvmRun.eval e)))) /\
  evmc_run fuel mc g = Some (g3, Ok (mkTxResult None [])).
Proof.
  intros Hok Hs Hl Ht Hg Hc Hf H2 Hn H3 Ha. unfold run_with_result, evmc_run, run_in_evm, exec_target. rewrite Ht.
  cbn [mret M_ret]. rewrite (exec_run_program e fuel mc dst g g1 Hok Hs Hl Hg Hc Hf). cbn [er].
  unfold exec_commit, mbind, M_bind, getsR. rewrite Ht. cbn [mret M_ret]. by rewrite H2, Hn, H3, Ha.
Qed.

(** A transaction to an account without code is refused, whatever it carries:
    value cannot be sent to a plain account. *)
Theorem exec_no_code fuel mc dst (g g1 : St) :
  call_to mc = Some dst -> gs_get dst g = (g1, Ok tt) -> acc_get_code dst g1 = Ok [] ->
  evmc_run fuel mc g = Some (g1, Throw EthException).
Proof.
  intros Ht Hg Hc. unfold evmc_run, run_in_evm, exec_target, exec_run, mbind, M_bind, getsR. rewrite Ht.
  cbn [mret M_ret]. rewrite Hg. unfold has_code. rewrite Hc. done.
Qed.

End exec.

(** A deployment over SimpleGlobalState, step by step. *)
Lemma deploy_target mc (g : Simple.SimpleGlobalState) acct st a :
  call_to mc = None -> Simple.accounts g !! from mc = Some (acct, st) ->
  Address.generate_address (Simple.address acct) (Simple.nonce acct) = Ok a ->
  Simple.accounts g !! a = None ->
  exec_target mc g =
  (Simple.with_accounts g
     (<[a := (Simple.mkAccount a (call_gas mc) (Util.to_bytes (call_data mc)) 0, ∅)]> (Simple.accounts g)), Ok a).
Proof.
  intros Ht Hs Ha Hn. unfold exec_target, mbind, M_bind, getsR, lift. rewrite Ht.
  cbn [gs_get gs_create acc_get_address acc_get_nonce SimpleGlobalState_GlobalState].
  unfold Simple.get, Simple.entry. rewrite Hs. cbn [mbind result_bind]. rewrite Hs.
  cbn [mbind result_bind fst].
  unfold Simple.get_address, Simple.get_nonce. rewrite Ha. unfold Simple.create, Simple.insert_entry.
  cbn [fst Simple.address]. by rewrite Hn.
Qed.

(** Installing the code and counting the nonce touch only these two accounts. *)
Lemma deploy_commit mc x (g : Simple.SimpleGlobalState) a e acct st :
  call_to mc = None -> from mc <> a -> Simple.accounts g !! a = Some e -> Simple.address (fst e) = a ->
  Simple.accounts g !! from mc = Some (acct, st) ->
  exists g', exec_commit mc a x g = (g', Ok a) /\
    Simple.accounts g' !! a = Some (Simple.set_code (output x) (fst e), snd e) /\
    Simple.accounts g' !! from mc = Some (Simple.increment_nonce acct, st) /\
    SimpleFacts.total_balance g' = SimpleFacts.total_balance g.
Proof.
  intros Ht Hne E1 Ea E2.
  set (e1 := (Simple.set_code (output x) (fst e), snd e)).
  set (g1 := Simple.with_accounts g (<[a := e1]> (Simple.accounts g))).
  assert (F2 : Simple.accounts g1 !! from mc = Some (acct, st)) by (cbn; by rewrite lookup_insert_ne).
  set (g2 := Simple.with_accounts g1 (<[from mc := (Simple.increment_nonce acct, st)]> (Simple.accounts g1))).
  assert (F3 : Simple.accounts g2 !! a = Some e1)
    by (cbn; rewrite lookup_insert_ne by done; apply lookup_insert_eq).
  exists g2. split_and!; [|exact F3 | apply lookup_insert_eq |].
  - unfold exec_commit, mbind, M_bind, getsR. rewrite Ht.
    cbn [acc_set_code gs_get acc_get_nonce acc_increment_nonce acc_get_address SimpleGlobalState_GlobalState].
    unfold Simple.update_entry at 1. rewrite E1. cbv beta iota. change (Simple.with_accounts g _) with g1.
    unfold Simple.get, Simple.entry at 1. rewrite F2. cbn [mbind result_bind]. rewrite F2. cbn [mbind result_bind].
    unfold Simple.update_entry. rewrite F2. cbn [fst snd]. change (Simple.with_accounts g1 _) with g2.
    unfold Simple.entry. rewrite F3. cbn. by rewrite Ea.
  - unfold g2. rewrite (SimpleFacts.total_insert g1 _ _ _ F2). unfold g1.
    rewrite (SimpleFacts.total_insert g _ _ _ E1). cbn. lia.
Qed.

(** A deployment creates money: the new account's balance is the gas of the
    call, which nobody pays, and its code what the constructor returned; the
    sender keeps the call's value and counts one nonce. *)
Theorem deploy_mints m e fuel mc (g : Simple.SimpleGlobalState) acct st a :
  EvmRun.consts_ok e = true -> EvmRun.slots e <= 1024 -> zlen (EvmRun.program e) < 2 ^ 63 ->
  (EvmRun.turns e + 5 <= fuel)%nat ->
  call_to mc = None -> Util.to_bytes (call_data mc) = EvmRun.program e ->
  Simple.accounts g !! from mc = Some (acct, st) ->
  Address.generate_address (Simple.address acct) (Simple.nonce acct) = Ok a ->
  Simple.accounts g !! a = None ->
  exists g', evmc_run m fuel mc g = Some (g', Ok (mkTxResult (Some a) [])) /\
    Simple.accounts g' !! a = Some (Simple.mkAccount a (call_gas mc) (be_bytes 32 (EvmRun.eval e)) 0, ∅) /\
    Simple.accounts g' !! from mc = Some (Simple.increment_nonce acct, st) /\
    SimpleFacts.total_balance g' = SimpleFacts.total_balance g + call_gas mc.
Proof.
  intros Hok Hs Hl Hf Ht Hd Hfrom Ha Hn. assert (Hne : from mc <> a) by congruence.
  pose proof (deploy_target mc g acct st a Ht Hfrom Ha Hn) as Et. rewrite Hd in Et.
  set (e0 := (Simple.mkAccount a (call_gas mc) (EvmRun.program e) 0, ∅)) in *.
  set (g1 := Simple.with_accounts g _) in Et.
  assert (E1 : Simple.accounts g1 !! a = Some e0) by apply lookup_insert_eq.
  assert (Hget : gs_get a g1 = (g1, Ok tt))
    by (cbn [gs_get SimpleGlobalState_GlobalState]; unfold Simple.get; by rewrite E1).
  assert (Hcode : acc_get_code a g1 = Ok (EvmRun.program e))
    by (cbn [acc_get_code SimpleGlobalState_GlobalState]; unfold Simple.entry; by rewrite E1).
  destruct (deploy_commit mc (mkResult returned outOfBounds (be_bytes 32 (EvmRun.eval e))) g1 a e0 acct st)
    as (g2 & Ec & F1 & F2 & Hsum); [done | done | done | done | cbn; by rewrite lookup_insert_ne |].
  exists g2. split_and!; [|exact F1 | exact F2 |].
  - unfold evmc_run, run_in_evm. rewrite Et.
    rewrite (exec_run_program m e fuel mc a g1 g1 Hok Hs Hl Hget Hcode Hf). cbn [er]. by rewrite Ec, Ht.
  - rewrite Hsum. apply (create_sum a _ (EvmRun.program e)). unfold Simple.create, Simple.insert_entry.
    cbn [fst Simple.address]. by rewrite Hn.
Qed.

Definition wmachine : Machine := mkMachine (fun _ => 0) (fun _ => ([], [])) true.
Definition wexpr : EvmRun.expr := EvmRun.Bin EvmRun.BAdd (EvmRun.Const 2) (EvmRun.Const 3).
Definition wchain : Simple.SimpleGlobalState :=
  Simple.mkState (Simple.mkBlock 0 0 0 0 0 0 0)
    {[ 100 := (Simple.mkAccount 100 0 (EvmRun.program wexpr) 0, ∅); 7 := (Simple.mkAccount 7 50 [] 4, ∅) ]}.

Lemma exec_call_program_witness :
  exists g', run_with_result wmachine 20 (mkCall 7 (Some 100) 0 0 0 []) wchain =
    Some (g', Ok (mkResult returned outOfBounds (be_bytes 32 5))).
Proof.
  eexists. refine (proj1 (exec_call_program wmachine wexpr 20 (mkCall 7 (Some 100) 0 0 0 []) 100
                            wchain wchain wchain _ 4 100 _ _ _ _ _ _ _ _ _ _ _));
    try reflexivity; cbn; lia.
Defined.

Lemma exec_no_code_witness :
  evmc_run wmachine 20 (mkCall 100 (Some 7) 0 0 25 []) wchain = Some (wchain, Throw EthException).
Proof. apply (exec_no_code wmachine 20 (mkCall 100 (Some 7) 0 0 25 []) 7 wchain wchain); reflexivity. Defined.

Lemma deploy_mints_witness :
  let mc := mkCall 7 None 5006112 0 3 (Util.to_hex_string (EvmRun.program wexpr)) in
  exists g' a, evmc_run wmachine 20 mc wchain = Some (g', Ok (mkTxResult (Some a) [])) /\
    SimpleFacts.total_balance wchain = 50 /\ SimpleFacts.total_balance g' = 50 + 5006112.
Proof.
  intros mc. set (a := match Address.generate_address 7 4 with Ok a => a | _ => 0 end).
  destruct (deploy_mints wmachine wexpr 20 mc wchain (Simple.mkAccount 7 50 [] 4) ∅ a)
    as (g' & H1 & _ & _ & H4).
  1-3: vm_compute; reflexivity || congruence.
  - cbn. lia.
  - reflexivity.
  - vm_compute. reflexivity.
  - reflexivity.
  - vm_compute. reflexivity.
  - vm_compute. reflexivity.
  - exists g', a. split; [exact H1|]. split; [vm_compute; reflexivity | exact H4].
Defined.

End ExecTx.
