(* ===== verification/SipHash.v ===== *)
(** * SipHash

    Model of CCF/include/ccf/ds/siphash.h and of the [std::hash] of byte vectors
    (include/ccf/byte_vector.h, include/ccf/ds/hash.h) that the maps of the store
    use: SipHash-2-4 under a fixed key.

    [siphash_blocks] is the function as its designers define it, over the
    little-endian 64-bit words of the padded message; [siphash_spec] shows that
    the code, with its fall-through switch for the last bytes, computes it. *)
From S2P Require Import Prelude Serialized.
From stdpp Require Import list.
Local Open Scope Z_scope.

Module SipHash.
Import Serialized.

(** [SipState] and [SipKey]. *)
Record SipState := mkSip { s0 : Z; s1 : Z; s2 : Z; s3 : Z }.

(** [x << b] on 64 bits. *)
Definition rotl (x b : Z) : Z := Z.lor (wrap64 (Z.shiftl x b)) (Z.shiftr x (64 - b)).

(** [u32_to_bytes_le] and [u64_to_bytes_le]. *)
Definition u32_to_bytes_le (v : Z) : list Z :=
  [wrap8 v; wrap8 (Z.shiftr v 8); wrap8 (Z.shiftr v 16); wrap8 (Z.shiftr v 24)].
Definition u64_to_bytes_le (v : Z) : list Z :=
  u32_to_bytes_le (v mod 2 ^ 32) ++ u32_to_bytes_le (Z.shiftr v 32 mod 2 ^ 32).

Definition bytes_to_64_le (b : list Z) : Z :=
  Z.lor (Z.lor (Z.lor (Z.lor (Z.lor (Z.lor (Z.lor
    (znth 0 b) (Z.shiftl (znth 1 b) 8)) (Z.shiftl (znth 2 b) 16)) (Z.shiftl (znth 3 b) 24))
    (Z.shiftl (znth 4 b) 32)) (Z.shiftl (znth 5 b) 40)) (Z.shiftl (znth 6 b) 48)) (Z.shiftl (znth 7 b) 56).

(** The body of the loop of [sip_rounds], an assignment a line. *)
Definition sip_round (s : SipState) : SipState :=
  let 'mkSip v0 v1 v2 v3 := s in
  let v0 := wrap64 (v0 + v1) in
  let v1 := rotl v1 13 in
  let v1 := Z.lxor v1 v0 in
  let v0 := rotl v0 32 in
  let v2 := wrap64 (v2 + v3) in
  let v3 := rotl v3 16 in
  let v3 := Z.lxor v3 v2 in
  let v0 := wrap64 (v0 + v3) in
  let v3 := rotl v3 21 in
  let v3 := Z.lxor v3 v0 in
  let v2 := wrap64 (v2 + v1) in
  let v1 := rotl v1 17 in
  let v1 := Z.lxor v1 v2 in
  let v2 := rotl v2 32 in
  mkSip v0 v1 v2 v3.

Fixpoint sip_rounds (rounds : nat) (s : SipState) : SipState :=
  match rounds with O => s | S r => sip_rounds r (sip_round s) end.

Definition xor0 (x : Z) (s : SipState) : SipState := mkSip (Z.lxor (s0 s) x) (s1 s) (s2 s) (s3 s).
Definition xor1 (x : Z) (s : SipState) : SipState := mkSip (s0 s) (Z.lxor (s1 s) x) (s2 s) (s3 s).
Definition xor2 (x : Z) (s : SipState) : SipState := mkSip (s0 s) (s1 s) (Z.lxor (s2 s) x) (s3 s).
Definition xor3 (x : Z) (s : SipState) : SipState := mkSip (s0 s) (s1 s) (s2 s) (Z.lxor (s3 s) x).

Inductive OutputLength := EightBytes | SixteenBytes.

(** [b |= (uint64_t)in[j] << (8 * j)] for the bytes that are left, from the
    [case] of their number down. *)
Fixpoint last_bytes (left : nat) (inp : list Z) (b : Z) : Z :=
  match left with
  | O => b
  | S j => last_bytes j inp (Z.lor b (Z.shiftl (znth (Z.of_nat j) inp) (8 * Z.of_nat j)))
  end.

(** The loop over whole blocks, with [n] blocks left. *)
Fixpoint sip_blocks (compression_rounds n : nat) (inp : list Z) (s : SipState) : SipState * list Z :=
  match n with
  | O => (s, inp)
  | S n =>
      let m := bytes_to_64_le inp in
      let s := xor3 m s in
      let s := sip_rounds compression_rounds s in
      let s := xor0 m s in
      sip_blocks compression_rounds n (zdrop 8 inp) s
  end.

Definition sip_out (s : SipState) : Z := Z.lxor (Z.lxor (Z.lxor (s0 s) (s1 s)) (s2 s)) (s3 s).

Definition sip_init (key0 key1 : Z) : SipState :=
  mkSip (Z.lxor 0x736f6d6570736575 key0) (Z.lxor 0x646f72616e646f6d key1)
        (Z.lxor 0x6c7967656e657261 key0) (Z.lxor 0x7465646279746573 key1).

Definition siphash_raw (compression_rounds finalization_rounds : nat) (out_size : OutputLength)
  (inp : list Z) (key0 key1 : Z) : list Z :=
  let s := sip_init key0 key1 in
  let in_len := zlen inp in
  let left := Z.land in_len 7 in
  let s := match out_size with SixteenBytes => xor1 0xee s | EightBytes => s end in
  let '(s, inp) := sip_blocks compression_rounds (Z.to_nat (in_len / 8)) inp s in
  let b := wrap64 (Z.shiftl in_len 56) in
  let b := last_bytes (Z.to_nat left) inp b in
  let s := xor3 b s in
  let s := sip_rounds compression_rounds s in
  let s := xor0 b s in
  let s := match out_size with SixteenBytes => xor2 0xee s | EightBytes => xor2 0xff s end in
  let s := sip_rounds finalization_rounds s in
  let out := u64_to_bytes_le (sip_out s) in
  match out_size with
  | EightBytes => out
  | SixteenBytes =>
      let s := xor1 0xdd s in
      let s := sip_rounds finalization_rounds s in
      out ++ u64_to_bytes_le (sip_out s)
  end.

Definition siphash (compression_rounds finalization_rounds : nat) (data : list Z) (key0 key1 : Z) : Z :=
  le_val (siphash_raw compression_rounds finalization_rounds EightBytes data key0 key1).

(** [std::hash] of byte vectors: SipHash-2-4 under a fixed key. *)
Definition std_hash (v : list Z) : Z := siphash 2 4 v 0x7720796f726c694b 0x2165726568207361.

(** ** Specification *)

(** The message followed by zeros and the length modulo 256, to a multiple of
    eight bytes. *)
Definition sip_pad (msg : list Z) : list Z :=
  msg ++ zeros (7 - zlen msg mod 8) ++ [zlen msg mod 256].

(** The little-endian words of a byte string. *)
Fixpoint words (n : nat) (l : list Z) : list Z :=
  match n with O => [] | S n => le_val (take 8 l) :: words n (drop 8 l) end.

Definition sip_block (c : nat) (s : SipState) (m : Z) : SipState := xor0 m (sip_rounds c (xor3 m s)).

(** SipHash-c-d with 64 bits of output. *)
Definition siphash_blocks (c d : nat) (msg : list Z) (key0 key1 : Z) : Z :=
  let s := foldl (sip_block c) (sip_init key0 key1) (words (Z.to_nat (zlen msg / 8 + 1)) (sip_pad msg)) in
  sip_out (sip_rounds d (xor2 0xff s)).

Definition sip_ok (s : SipState) : Prop := u64 (s0 s) /\ u64 (s1 s) /\ u64 (s2 s) /\ u64 (s3 s).

(** ** Lemmas *)

Lemma le_val_nil : le_val [] = 0. Proof. reflexivity. Qed.
Lemma le_val_app l k : le_val (l ++ k) = le_val l + 256 ^ zlen l * le_val k.
Proof. unfold le_val. rewrite reverse_app, be_val_app, length_reverse. lia. Qed.
Lemma le_val_cons b l : le_val (b :: l) = b + 256 * le_val l.
Proof. change (b :: l) with ([b] ++ l). rewrite le_val_app. cbn [length]. change (le_val [b]) with (be_val [b]). cbn. lia. Qed.
Lemma le_val_zeros n : le_val (replicate n 0) = 0.
Proof. unfold le_val. rewrite reverse_replicate. apply be_val_zeros. Qed.

(** Bytes above what is there already. *)
Lemma lor_shift acc x k : 0 <= k -> 0 <= acc < 2 ^ k -> Z.lor acc (Z.shiftl x k) = acc + 2 ^ k * x.
Proof. intros Hk Ha. rewrite Z.lor_comm, Z.shiftl_mul_pow2, lor_low by lia. lia. Qed.

Lemma bytes_to_64_le_spec b : bytes_ok b -> (8 <= length b)%nat -> bytes_to_64_le b = le_val (take 8 b).
Proof.
  intros Hb Hl. destruct b as [|b0 [|b1 [|b2 [|b3 [|b4 [|b5 [|b6 [|b7 b]]]]]]]]; try (cbn in Hl; lia).
  unfold bytes_to_64_le. cbv [znth Z.to_nat Pos.to_nat Pos.iter_op nth Nat.add]. rewrite !firstn_cons, firstn_O.
  unfold bytes_ok in Hb. repeat match goal with H : Forall _ (_ :: _) |- _ => inversion H; clear H; subst end.
  unfold u8 in *. rewrite M8_val in *.
  rewrite (lor_shift b0 b1 8), (lor_shift _ b2 16), (lor_shift _ b3 24), (lor_shift _ b4 32), (lor_shift _ b5 40),
    (lor_shift _ b6 48), (lor_shift _ b7 56) by lia.
  rewrite !le_val_cons, le_val_nil. lia.
Qed.

Lemma le_val_take_S j l : (j < length l)%nat -> le_val (take (S j) l) = le_val (take j l) + 256 ^ Z.of_nat j * znth (Z.of_nat j) l.
Proof.
  intros Hj. destruct (lookup_lt_is_Some_2 l j Hj) as [x Hx]. rewrite (take_S_r l j x Hx), le_val_app, length_take.
  rewrite Nat.min_l, le_val_cons, le_val_nil by lia. unfold znth. rewrite Nat2Z.id, nth_lookup, Hx. cbn. lia.
Qed.

Lemma last_bytes_spec n inp x : bytes_ok inp -> (n <= length inp)%nat ->
  last_bytes n inp (x * 2 ^ (8 * Z.of_nat n)) = x * 2 ^ (8 * Z.of_nat n) + le_val (take n inp).
Proof.
  intros Hb. revert x. induction n as [|j IH]; intros x Hn; [cbn [last_bytes]; rewrite take_0, le_val_nil; lia|]. cbn [last_bytes].
  assert (Hu : 0 <= znth (Z.of_nat j) inp < 256) by (unfold znth; apply bytes_ok_nth, Hb).
  assert (Hp : 0 < 2 ^ (8 * Z.of_nat j)) by (apply Z.pow_pos_nonneg; lia).
  assert (Hs : 2 ^ (8 * Z.of_nat (S j)) = 256 * 2 ^ (8 * Z.of_nat j)).
  { replace (8 * Z.of_nat (S j)) with (8 + 8 * Z.of_nat j) by lia. rewrite Z.pow_add_r by lia. lia. }
  rewrite Z.shiftl_mul_pow2, lor_low by (rewrite ?Hs; nia).
  replace (x * 2 ^ (8 * Z.of_nat (S j)) + znth (Z.of_nat j) inp * 2 ^ (8 * Z.of_nat j))
    with ((x * 256 + znth (Z.of_nat j) inp) * 2 ^ (8 * Z.of_nat j)) by (rewrite Hs; lia).
  rewrite IH, le_val_take_S by lia. rewrite Hs. replace (256 ^ Z.of_nat j) with (2 ^ (8 * Z.of_nat j)); [lia|].
  rewrite Z.pow_mul_r by lia. done.
Qed.

Lemma words_snoc n : forall l, words (n + 1) l = words n l ++ [le_val (take 8 (drop (8 * n) l))].
Proof.
  induction n as [|n IH]; intros l; [done|]. cbn [Nat.add words app]. rewrite IH, drop_drop.
  by replace (8 + 8 * n)%nat with (8 * S n)%nat by lia.
Qed.

(** The loop over the blocks folds over the words. *)
Lemma sip_blocks_spec c n : forall inp tail s, bytes_ok inp -> (8 * n <= length inp)%nat ->
  sip_blocks c n inp s = (foldl (sip_block c) s (words n (inp ++ tail)), drop (8 * n) inp).
Proof.
  induction n as [|n IH]; intros inp tail s Hb Hl; cbn [sip_blocks]; [done|].
  unfold zdrop. change (Z.to_nat 8) with 8%nat. rewrite (IH _ tail) by (by apply bytes_ok_drop || (rewrite length_drop; lia)).
  rewrite drop_drop. replace (8 + 8 * n)%nat with (8 * S n)%nat by lia. cbn [words foldl].
  rewrite take_app_le, drop_app_le by lia. rewrite bytes_to_64_le_spec by (done || lia). done.
Qed.

(** The last word: what is left of the message, zeros, and the length. *)
Lemma last_word rest len : bytes_ok rest -> (length rest < 8)%nat -> 0 <= len ->
  last_bytes (length rest) rest (wrap64 (Z.shiftl len 56)) =
  le_val (rest ++ zeros (7 - zlen rest) ++ [len mod 256]).
Proof.
  intros Hb Hl H0. set (r := length rest) in *.
  assert (Hw : wrap64 (Z.shiftl len 56) = (len mod 256 * 2 ^ (56 - 8 * Z.of_nat r)) * 2 ^ (8 * Z.of_nat r)).
  { rewrite <- Z.mul_assoc, <- Z.pow_add_r by lia. replace (56 - 8 * Z.of_nat r + 8 * Z.of_nat r) with 56 by lia.
    unfold wrap64. rewrite Z.shiftl_mul_pow2 by lia. change M64 with (256 * 2 ^ 56). by rewrite Z.mul_mod_distr_r. }
  rewrite Hw, last_bytes_spec, take_ge, !le_val_app, le_val_cons, le_val_nil by (done || lia).
  unfold zeros. rewrite le_val_zeros, length_replicate. fold r. rewrite Z2Nat.id, <- Hw by lia. 
  assert (He : wrap64 (Z.shiftl len 56) = 256 ^ Z.of_nat r * (256 ^ (7 - Z.of_nat r) * (len mod 256))).
  { rewrite Hw. change 256 with (2 ^ 8) at 2 3. rewrite <- !Z.pow_mul_r by lia.
    replace (8 * (7 - Z.of_nat r)) with (56 - 8 * Z.of_nat r) by lia. lia. }
  lia.
Qed.

Lemma u64_pow x : u64 x <-> 0 <= x < 2 ^ 64.
Proof. done. Qed.
Lemma rotl_u64 x b : u64 x -> 0 <= b <= 64 -> u64 (rotl x b).
Proof.
  intros Hx Hb. unfold rotl. apply (lor_bound _ _ 64); [lia | apply wrap64_u64 |].
  rewrite Z.shiftr_div_pow2 by lia. assert (0 < 2 ^ (64 - b)) by (apply Z.pow_pos_nonneg; lia).
  split; [apply Z.div_pos; [apply Hx | lia]|]. destruct Hx. change (2 ^ 64) with M64. apply Z.div_lt_upper_bound; nia.
Qed.
#[local] Hint Resolve u64_lxor rotl_u64 wrap64_u64 : core.

Lemma sip_round_ok s : sip_ok s -> sip_ok (sip_round s).
Proof.
  destruct s as [v0 v1 v2 v3]. intros (H0 & H1 & H2 & H3). cbn in *. unfold sip_ok. cbn.
  split_and!; repeat first [apply u64_lxor | apply rotl_u64 | apply wrap64_u64 | done | lia].
Qed.
Lemma sip_rounds_ok n : forall s, sip_ok s -> sip_ok (sip_rounds n s).
Proof. induction n as [|n IH]; intros s Hs; [done|]. by apply IH, sip_round_ok. Qed.
Lemma xor_ok x s : u64 x -> sip_ok s -> sip_ok (xor0 x s) /\ sip_ok (xor2 x s) /\ sip_ok (xor3 x s).
Proof. intros Hx (H0 & H1 & H2 & H3). unfold sip_ok, xor0, xor2, xor3. cbn [s0 s1 s2 s3]. auto 10. Qed.
Lemma sip_block_ok c s m : u64 m -> sip_ok s -> sip_ok (sip_block c s m).
Proof. intros Hm Hs. unfold sip_block. apply xor_ok; [done|]. apply sip_rounds_ok. by apply xor_ok. Qed.
Lemma foldl_block_ok c l : forall s, Forall u64 l -> sip_ok s -> sip_ok (foldl (sip_block c) s l).
Proof. induction l as [|m l IH]; intros s Hl Hs; [done|]. inversion Hl; subst. cbn. apply IH; [done|]. by apply sip_block_ok. Qed.
Lemma words_u64 n : forall l, bytes_ok l -> Forall u64 (words n l).
Proof.
  induction n as [|n IH]; intros l Hl; cbn [words]; constructor; [|by apply IH, bytes_ok_drop].
  pose proof (le_val_bound (take 8 l) (bytes_ok_take _ _ Hl)) as Hb. rewrite length_take in Hb.
  split; [lia|]. assert (256 ^ Z.of_nat (8 `min` length l) <= 256 ^ 8) by (apply Z.pow_le_mono_r; lia). change M64 with (256 ^ 8). lia.
Qed.

Lemma u64_to_bytes_le_spec v : u64 v -> le_val (u64_to_bytes_le v) = v.
Proof.
  intros [H0 H1]. unfold u64_to_bytes_le, u32_to_bytes_le, wrap8. cbn [app].
  rewrite !le_val_cons, le_val_nil, !Z.shiftr_div_pow2 by lia. rewrite M64_val in H1. change M8 with 256.
  pose proof (Z.div_mod v (2 ^ 32) ltac:(lia)). assert (0 <= v / 2 ^ 32 < 2 ^ 32) by (split; [apply Z.div_pos; lia | apply Z.div_lt_upper_bound; lia]).
  rewrite (Z.mod_small (v / 2 ^ 32)) by lia. pose proof (Z.mod_pos_bound v (2 ^ 32) ltac:(lia)).
  assert (Hx : forall x, 0 <= x < 2 ^ 32 ->
    x mod 256 + 256 * ((x / 2 ^ 8) mod 256 + 256 * ((x / 2 ^ 16) mod 256 + 256 * ((x / 2 ^ 24) mod 256))) = x)
    by (intros x Hx; Z.to_euclidean_division_equations; lia).
  pose proof (Hx (v mod 2 ^ 32) ltac:(lia)). pose proof (Hx (v / 2 ^ 32) ltac:(lia)). lia.
Qed.

(** ** Properties *)

(** C40. SipHash as implemented, reading whole blocks and the remaining bytes by a
    fall-through switch, is SipHash-c-d over the little-endian words of the
    message padded with zeros and its length modulo 256, for every message and
    every number of rounds. *)
Theorem siphash_spec c d msg key0 key1 : bytes_ok msg -> u64 key0 -> u64 key1 ->
  siphash c d msg key0 key1 = siphash_blocks c d msg key0 key1.
Proof.
  intros Hb Hk0 Hk1. unfold siphash, siphash_raw, siphash_blocks. cbv zeta.
  set (q := Z.to_nat (zlen msg / 8)). pose proof (Z.div_mod (zlen msg) 8 ltac:(lia)) as Hdm.
  pose proof (Z.mod_pos_bound (zlen msg) 8 ltac:(lia)) as Hr.
  assert (Hq : (8 * q <= length msg)%nat) by lia. set (rest := drop (8 * q) msg).
  assert (Hrest : zlen rest = zlen msg mod 8) by (unfold rest; rewrite length_drop; lia).
  change 7 with (Z.ones 3). rewrite Z.land_ones by lia. change (2 ^ 3) with 8.
  replace (Z.to_nat (zlen msg mod 8)) with (length rest) by lia.
  rewrite (sip_blocks_spec c q msg (zeros (7 - zlen rest) ++ [zlen msg mod 256])) by done.
  fold rest. rewrite (last_word rest (zlen msg)) by (by apply bytes_ok_drop || lia).
  replace (Z.to_nat (zlen msg / 8 + 1)) with (q + 1)%nat by lia.
  assert (Hw : words (q + 1) (sip_pad msg) =
    words q (msg ++ zeros (7 - zlen rest) ++ [zlen msg mod 256]) ++
    [le_val (rest ++ zeros (7 - zlen rest) ++ [zlen msg mod 256])]).
  { rewrite words_snoc. unfold sip_pad. rewrite <- Hrest. do 3 f_equal. rewrite drop_app_le by done.
    apply take_ge. unfold zeros. rewrite !length_app, length_replicate. cbn [length]. fold rest. lia. }
  rewrite Hw, foldl_app. cbn [foldl]. unfold sip_block at 2. apply u64_to_bytes_le_spec.
  assert (Hok : bytes_ok (sip_pad msg)).
  { unfold sip_pad. rewrite !bytes_ok_app. split_and!; [done | apply bytes_ok_zeros |]. repeat constructor; by apply Z.mod_pos_bound. }
  pose proof (words_u64 (q + 1) _ Hok) as Hu. rewrite Hw in Hu. apply Forall_app in Hu as [Hu1 Hu2]. inversion Hu2 as [|? ? Hm _]; subst.
  assert (Hi : sip_ok (sip_init key0 key1)) by (split_and!; cbn; apply u64_lxor; done).
  set (m := le_val _) in *. set (s := foldl _ _ _).
  assert (Hs : sip_ok (sip_rounds d (xor2 255 (sip_block c s m)))).
  { apply sip_rounds_ok, xor_ok; [done|]. apply sip_block_ok; [done|]. by apply foldl_block_ok. }
  destruct Hs as (? & ? & ? & ?). unfold sip_out. by repeat apply u64_lxor.
Qed.

Lemma siphash_spec_witness :
  siphash 2 4 [0; 1; 2; 3; 4; 5; 6; 7; 8; 9; 10; 11; 12; 13; 14] 0x0706050403020100 0x0f0e0d0c0b0a0908 = 0xa129ca6149be45e5.
Proof.
  rewrite (siphash_spec 2 4 [0; 1; 2; 3; 4; 5; 6; 7; 8; 9; 10; 11; 12; 13; 14] 0x0706050403020100 0x0f0e0d0c0b0a0908).
  - reflexivity.
  - repeat constructor; vm_compute; congruence.
  - split; vm_compute; congruence.
  - split; vm_compute; congruence.
Defined.

End SipHash.
