(* ===== verification/MapSerial.v ===== *)
(** * Serialisation of the key-value states

    Model of CCF/src/ds/map_serializers.h and of its specialisations in
    src/kv/untyped_change_set.h: how keys and versioned values of a map are laid
    out in a snapshot, padded to eight bytes, and read back.  The specialised
    templates [map::get_size], [map::serialize] and [map::deserialize] are the
    class [MapSerial], what the maps rely on is [MapSerialLaws].

    [KvState] is the interface of the two persistent maps that can hold the
    state of a table ([champ::Map], [rb::Map]), and [KvStateLaws] what a table
    relies on: RbMap.v and ChampMap.v give the two instances, UntypedMap.v is
    the client. *)
From S2P Require Import Prelude Serialized KvHandle.
From stdpp Require Import list gmap.
Local Open Scope Z_scope.

(** ** Narrow and signed integers *)
Definition M32 : Z := 2 ^ 32.
Definition wrap32 (x : Z) : Z := x mod M32.
(** Conversion of a [uint64_t] to [int64_t]. *)
Definition to_i64 (x : Z) : Z := if x <? 2 ^ 63 then x else x - M64.
Definition i64 (x : Z) : Prop := - 2 ^ 63 <= x < 2 ^ 63.

Module MapSerial.
Import Serialized KvHandle.

Class MapSerial (A : Type) := {
  get_size : A -> Z;
  (** The new writer and the number of bytes written. *)
  serialize : A -> writer -> result (writer * Z);
  deserialize : list Z -> result (A * list Z)
}.

(** ** Padding *)

Definition get_padding (size : Z) : Z :=
  let padding := size mod 8 in
  if negb (padding =? 0) then 8 - padding else padding.

Definition add_padding (data_size : Z) (w : writer) : result writer :=
  let padding_size := get_padding data_size in
  if negb (padding_size =? 0) then write (zeros padding_size) w else Ok w.

(** The sizes are [uint32_t]. *)
Definition get_size_with_padding {A} `{MapSerial A} (t : A) : Z :=
  let t_size := wrap32 (get_size t) in
  wrap32 (t_size + get_padding t_size).

(** One entry of a snapshot: the key and the value, both padded. *)
Definition serialize_entry {KT VT} `{MapSerial KT} `{MapSerial VT} (k : KT) (v : VT) (w : writer) : result writer :=
  '(w, key_size) ← serialize k w;
  w ← add_padding (wrap32 key_size) w;
  '(w, value_size) ← serialize v w;
  add_padding (wrap32 value_size) w.

Fixpoint serialize_entries {KT VT} `{MapSerial KT} `{MapSerial VT} (l : list (KT * VT)) (w : writer) : result writer :=
  match l with
  | [] => Ok w
  | (k, v) :: l => w ← serialize_entry k v w; serialize_entries l w
  end.

(** ** Keys and versioned values *)

#[global] Instance entry_serial : MapSerial (list Z) := {
  get_size data := 8 + zlen data;
  serialize t w :=
    let data_size := zlen t in
    w ← write (le_bytes 8 data_size) w;
    w ← write t w;
    Ok (w, 8 + data_size);
  (* [append] copies before [skip] checks the size *)
  deserialize data :=
    '(data_size, data) ← read_uint 8 data;
    if zlen data <? data_size then Undef
    else
      let ret := ztake data_size data in
      data ← skip data_size data;
      Ok (ret, data)
}.

#[global] Instance versionv_serial : MapSerial VersionV := {
  get_size data := 8 + 8 + zlen (value data);
  serialize t w :=
    let data_size := 8 + zlen (value t) in
    w ← write (le_bytes 8 data_size) w;
    w ← write (le_bytes 8 (wrap64 (version t))) w;
    w ← write (value t) w;
    Ok (w, 8 + 8 + zlen (value t));
  (* [VersionV()] leaves the read version 0 *)
  deserialize data :=
    '(data_size, data) ← read_uint 8 data;
    '(v, data) ← read_uint 8 data;
    let data_size := wrap64 (data_size - 8) in
    if zlen data <? data_size then Undef
    else
      let ret := mkVersionV (to_i64 v) 0 (ztake data_size data) in
      data ← skip data_size data;
      Ok (ret, data)
}.

(** ** The interface of the maps *)

Class KvState (V T : Type) := {
  st_empty : T;
  st_get : K -> T -> result (option V);
  st_put : K -> V -> T -> result T;
  (** The entries in the order in which [foreach] visits them. *)
  st_entries : T -> result (list (K * V));
  st_size : T -> Z;
  st_get_serialized_size : T -> Z
}.

(** [deserialize_map]: [None] is a loop that has not ended. *)
Section deserialize_map.
Context {V T : Type} `{MS : MapSerial V} `{ST : KvState V T}.

Fixpoint deserialize_loop (fuel : nat) (data : list Z) (map : T) : option (result T) :=
  match data with
  | [] => Some (Ok map)
  | _ :: _ =>
      match fuel with
      | O => None
      | S fuel =>
          match
            '(key, data1) ← deserialize (A := K) data;
            data1 ← skip (get_padding (wrap32 (zlen data - zlen data1))) data1;
            '(v, data2) ← deserialize (A := V) data1;
            data2 ← skip (get_padding (wrap32 (zlen data1 - zlen data2))) data2;
            map ← st_put key v map;
            Ok (data2, map)
          with
          | Ok (data, map) => deserialize_loop fuel data map
          | Throw e => Some (Throw e)
          | Undef => Some Undef
          end
      end
  end.

(** Every turn reads at least the eight bytes of a length. *)
Definition deserialize_map (serialized_state : list Z) : option (result T) :=
  deserialize_loop (length serialized_state) serialized_state st_empty.

End deserialize_map.

(** ** What the maps and tables rely on *)

(** [ser_ok] are the values that fit the format; [ser_canon] is what of a value
    survives it. *)
Class MapSerialLaws (A : Type) `{MS : MapSerial A} := {
  ser_bytes : A -> list Z;
  ser_canon : A -> A;
  ser_ok : A -> Prop;
  ser_length a : ser_ok a -> zlen (ser_bytes a) = get_size a;
  ser_small a : ser_ok a -> 0 < get_size a < M32 - 8;
  ser_write a done n w : ser_ok a -> written done n w -> (length (ser_bytes a) <= n)%nat ->
    exists w', serialize a w = Ok (w', get_size a) /\ written (done ++ ser_bytes a) (n - length (ser_bytes a)) w';
  ser_read a rest : ser_ok a -> deserialize (ser_bytes a ++ rest) = Ok (ser_canon a, rest);
  ser_read_shorter data a rest : deserialize data = Ok (a, rest) -> (length rest < length data)%nat
}.

Class KvStateLaws (V T : Type) `{SL : MapSerialLaws V} `{ST : KvState V T} := {
  st_ok : T -> Prop;
  st_model : T -> gmap K V;
  st_empty_ok : st_ok st_empty /\ st_model st_empty = ∅;
  st_get_ok t k : st_ok t -> st_get k t = Ok (st_model t !! k);
  st_put_ok t k v : st_ok t -> zlen k < M32 - 16 -> ser_ok v ->
    exists t', st_put k v t = Ok t' /\ st_ok t' /\ st_model t' = <[k := v]> (st_model t);
  st_entries_ok t : st_ok t ->
    exists l, st_entries t = Ok l /\ NoDup l.*1 /\ list_to_map l = st_model t;
  st_size_ok t : st_ok t -> st_size t = wrap64 (Z.of_nat (base.size (st_model t)))
}.

(** Maps that can be written to a snapshot. *)
Class SnapshotState (T : Type) := {
  st_make_snapshot : T -> result (list Z)
}.

(** ** Lemmas *)

Lemma get_padding_range s : 0 <= get_padding s < 8 /\ (8 | s + get_padding s).
Proof.
  unfold get_padding. pose proof (Z.mod_pos_bound s 8 ltac:(lia)). pose proof (Z.div_mod s 8 ltac:(lia)).
  destruct (Z.eqb_spec (s mod 8) 0); cbn [negb]; (split; [lia|]).
  - exists (s / 8). lia.
  - exists (s / 8 + 1). lia.
Qed.


Lemma add_padding_written s done n w : written done n w -> get_padding s <= Z.of_nat n ->
  exists w', add_padding s w = Ok w' /\
    written (done ++ zeros (get_padding s)) (n - Z.to_nat (get_padding s)) w'.
Proof.
  intros Hw Hn. unfold add_padding. pose proof (get_padding_range s) as [Hr _].
  destruct (Z.eqb_spec (get_padding s) 0) as [E|E]; cbn [negb].
  - exists w. rewrite E. unfold zeros. cbn. by rewrite app_nil_r, Nat.sub_0_r.
  - pose proof (zlen_zeros _ (proj1 Hr)) as Hz.
    destruct (write_ok _ _ _ (zeros (get_padding s)) Hw) as (w' & E' & W'); [lia|].
    exists w'. split; [done|]. by replace (Z.to_nat (get_padding s)) with (length (zeros (get_padding s))) by lia.
Qed.

Section laws.
Context {A : Type} `{SL : MapSerialLaws A}.

(** A padded item of a snapshot. *)
Definition padded (a : A) : list Z := ser_bytes a ++ zeros (get_padding (get_size a)).

Lemma wrap32_size a : ser_ok a -> wrap32 (get_size a) = get_size a.
Proof. intros H. apply Z.mod_small. pose proof (ser_small a H). lia. Qed.

Lemma size_with_padding a : ser_ok a -> get_size_with_padding a = get_size a + get_padding (get_size a).
Proof.
  intros H. unfold get_size_with_padding. rewrite wrap32_size by done. apply Z.mod_small.
  pose proof (ser_small a H). pose proof (get_padding_range (get_size a)). lia.
Qed.

Lemma length_padded a : ser_ok a -> zlen (padded a) = get_size_with_padding a.
Proof.
  intros H. rewrite size_with_padding by done. unfold padded. rewrite length_app, Nat2Z.inj_add, ser_length by done.
  rewrite zlen_zeros; [done|]. apply get_padding_range.
Qed.

Lemma size_with_padding_pos a : ser_ok a -> 0 < get_size_with_padding a < M32.
Proof.
  intros H. rewrite size_with_padding by done. pose proof (ser_small a H).
  pose proof (get_padding_range (get_size a)). lia.
Qed.

Lemma serialize_padded a done n w : ser_ok a -> written done n w -> (length (padded a) <= n)%nat ->
  exists w', ('(w, s) ← serialize a w; add_padding (wrap32 s) w) = Ok w' /\
    written (done ++ padded a) (n - length (padded a)) w'.
Proof.
  intros Ha Hw Hn. unfold padded in Hn |- *. rewrite length_app in Hn |- *.
  pose proof (get_padding_range (get_size a)) as [Hr _]. pose proof (zlen_zeros _ (proj1 Hr)) as Hz.
  destruct (ser_write a _ _ _ Ha Hw) as (w1 & -> & W1); [lia|]. cbn [mbind result_bind]. rewrite wrap32_size by done.
  destruct (add_padding_written (get_size a) _ _ _ W1) as (w2 & -> & W2); [lia|]. exists w2. split; [done|].
  rewrite <- app_assoc in W2.
  by replace (n - (length (ser_bytes a) + length (zeros (get_padding (get_size a)))))%nat
    with (n - length (ser_bytes a) - Z.to_nat (get_padding (get_size a)))%nat by lia.
Qed.

(** Reading an item and skipping its padding. *)
Lemma deserialize_padded a rest : ser_ok a ->
  deserialize (padded a ++ rest) = Ok (ser_canon a, zeros (get_padding (get_size a)) ++ rest) /\
  skip (get_padding (wrap32 (zlen (padded a ++ rest) - zlen (zeros (get_padding (get_size a)) ++ rest))))
    (zeros (get_padding (get_size a)) ++ rest) = Ok rest.
Proof.
  intros Ha. unfold padded. rewrite <- app_assoc. split; [by apply ser_read|].
  rewrite !length_app. replace (Z.of_nat (length (ser_bytes a) + _) - _) with (zlen (ser_bytes a)) by lia.
  rewrite ser_length, wrap32_size by done. pose proof (get_padding_range (get_size a)) as [Hr _].
  rewrite <- (zlen_zeros (get_padding (get_size a))) at 1 by lia. apply skip_app.
Qed.

End laws.

#[global] Program Instance entry_serial_laws : MapSerialLaws (list Z) := {
  ser_bytes t := le_bytes 8 (zlen t) ++ t;
  ser_canon t := t;
  ser_ok t := zlen t < M32 - 16
}.
Next Obligation. intros a _. cbv beta in *. rewrite length_app, length_le_bytes. cbn. lia. Qed.
Next Obligation. intros a H. cbv beta in *. cbn. lia. Qed.
Next Obligation.
  intros a done n w Ha Hw Hn. cbv beta in *. cbn [serialize entry_serial get_size]. rewrite length_app, length_le_bytes in Hn |- *.
  destruct (write_ok _ _ _ (le_bytes 8 (zlen a)) Hw) as (w1 & -> & W1); [rewrite length_le_bytes; lia|].
  cbn [mbind result_bind]. rewrite length_le_bytes in W1.
  destruct (write_ok _ _ _ a W1) as (w2 & -> & W2); [lia|]. cbn [mbind result_bind].
  exists w2. split; [done|]. rewrite <- app_assoc in W2.
  by replace (n - (8 + length a))%nat with (n - 8 - length a)%nat by lia.
Qed.
Next Obligation.
  intros a rest Ha. cbv beta in *. cbn [deserialize entry_serial]. rewrite <- app_assoc, read_u64_app by (unfold M32 in Ha; split; [lia|]; unfold M64; lia).
  cbn [mbind result_bind]. rewrite skip_app. rewrite length_app. destruct (Z.ltb_spec (Z.of_nat (length a + length rest)) (zlen a)); [lia|].
  cbn [mbind result_bind]. unfold ztake. by rewrite Nat2Z.id, take_app_length.
Qed.
Next Obligation.
  intros data a rest. cbv beta in *. cbn [deserialize entry_serial]. unfold read_uint, read, skip.
  destruct (Z.ltb_spec (zlen data) (Z.of_nat 8)); [done|]. cbn [mbind result_bind].
  destruct (_ <? _); [done|]. cbn [mbind result_bind]. intros [= <- <-]. unfold zdrop. rewrite !length_drop. lia.
Qed.

(** The read version of a value is not part of a snapshot. *)
#[global] Program Instance versionv_serial_laws : MapSerialLaws VersionV := {
  ser_bytes t := le_bytes 8 (8 + zlen (value t)) ++ le_bytes 8 (wrap64 (version t)) ++ value t;
  ser_canon t := mkVersionV (version t) 0 (value t);
  ser_ok t := zlen (value t) < M32 - 24 /\ i64 (version t)
}.
Next Obligation. intros a _. cbv beta in *. rewrite !length_app, !length_le_bytes. cbn. lia. Qed.
Next Obligation. intros a [H _]. cbv beta in *. cbn. lia. Qed.
Next Obligation.
  intros a done n w Ha Hw Hn. cbv beta in *. cbn [serialize versionv_serial get_size]. rewrite !length_app, !length_le_bytes in Hn |- *.
  destruct (write_ok _ _ _ (le_bytes 8 (8 + zlen (value a))) Hw) as (w1 & -> & W1); [rewrite length_le_bytes; lia|].
  cbn [mbind result_bind]. rewrite length_le_bytes in W1.
  destruct (write_ok _ _ _ (le_bytes 8 (wrap64 (version a))) W1) as (w2 & -> & W2); [rewrite length_le_bytes; lia|].
  cbn [mbind result_bind]. rewrite length_le_bytes in W2.
  destruct (write_ok _ _ _ (value a) W2) as (w3 & -> & W3); [lia|]. cbn [mbind result_bind].
  exists w3. split; [done|]. rewrite <- !app_assoc in W3.
  by replace (n - (8 + (8 + length (value a))))%nat with (n - 8 - 8 - length (value a))%nat by lia.
Qed.
Next Obligation.
  intros a rest [Ha Hi]. cbv beta in *. cbn [deserialize versionv_serial]. unfold M32 in Ha.
  rewrite <- !app_assoc, read_u64_app by (split; [lia|]; unfold M64; lia). cbn [mbind result_bind].
  rewrite read_u64_app by apply wrap64_u64. cbn [mbind result_bind].
  replace (8 + zlen (value a) - 8) with (zlen (value a)) by lia.
  rewrite (wrap64_small (zlen (value a))) by (split; [lia|]; unfold M64; lia).
  rewrite skip_app, length_app. destruct (Z.ltb_spec (Z.of_nat (length (value a) + length rest)) (zlen (value a))); [lia|].
  cbn [mbind result_bind]. unfold ztake. rewrite Nat2Z.id, take_app_length. do 4 f_equal.
  unfold to_i64, wrap64. destruct Hi as [H1 H2]. destruct (Z.lt_ge_cases (version a) 0).
  - replace (version a mod M64) with (version a + M64).
    + destruct (Z.ltb_spec (version a + M64) (2 ^ 63)); unfold M64 in *; lia.
    + rewrite <- (Z.mod_add _ 1), Z.mod_small; unfold M64; lia.
  - rewrite Z.mod_small by (unfold M64; lia). destruct (Z.ltb_spec (version a) (2 ^ 63)); lia.
Qed.
Next Obligation.
  intros data a rest. cbv beta in *. cbn [deserialize versionv_serial]. unfold read_uint, read, skip.
  destruct (Z.ltb_spec (zlen data) (Z.of_nat 8)); [done|]. cbn [mbind result_bind].
  destruct (Z.ltb_spec (zlen (zdrop (Z.of_nat 8) data)) (Z.of_nat 8)); [done|]. cbn [mbind result_bind].
  destruct (_ <? _); [done|]. cbn [mbind result_bind]. intros [= <- <-]. unfold zdrop. rewrite !length_drop. lia.
Qed.

(** *** Snapshots *)

Section loop.
Context {V T : Type} `{MS : MapSerial V} `{ST : KvState V T}.

Lemma deserialize_loop_step fuel data (map : T) : data <> [] ->
  deserialize_loop (S fuel) data map =
  match
    '(key, data1) ← deserialize (A := K) data;
    data1 ← skip (get_padding (wrap32 (zlen data - zlen data1))) data1;
    '(v, data2) ← deserialize (A := V) data1;
    data2 ← skip (get_padding (wrap32 (zlen data1 - zlen data2))) data2;
    map ← st_put key v map;
    Ok (data2, map)
  with
  | Ok (data, map) => deserialize_loop fuel data map
  | Throw e => Some (Throw e)
  | Undef => Some Undef
  end.
Proof. by destruct data. Qed.

End loop.


Section snapshot.
Context {V T : Type} `{KL : KvStateLaws V T}.

Definition entry_ok (e : K * V) : Prop := ser_ok e.1 /\ ser_ok e.2.
Definition entry_bytes (e : K * V) : list Z := padded e.1 ++ padded e.2.
Definition entry_size (e : K * V) : Z := get_size_with_padding e.1 + get_size_with_padding e.2.
(** The number of bytes of a snapshot with these entries. *)
Definition snapshot_size (l : list (K * V)) : Z := foldr (fun e n => entry_size e + n) 0 l.
Definition snapshot_bytes (l : list (K * V)) : list Z := concat (entry_bytes <$> l).

Lemma length_entry_bytes e : entry_ok e -> zlen (entry_bytes e) = entry_size e.
Proof.
  intros [H1 H2]. unfold entry_bytes, entry_size. rewrite length_app, Nat2Z.inj_add, !length_padded by done. done.
Qed.

Lemma entry_size_pos e : entry_ok e -> 0 < entry_size e.
Proof. intros [H1 H2]. unfold entry_size. pose proof (size_with_padding_pos _ H1). pose proof (size_with_padding_pos _ H2). lia. Qed.

Lemma length_snapshot_bytes l : Forall entry_ok l -> zlen (snapshot_bytes l) = snapshot_size l.
Proof.
  unfold snapshot_bytes. induction 1 as [|e l He Hl IH]; [done|]. cbn [fmap list_fmap concat snapshot_size foldr].
  rewrite length_app, Nat2Z.inj_add, length_entry_bytes, IH by done. done.
Qed.

Lemma snapshot_size_perm l l' : l ≡ₚ l' -> snapshot_size l = snapshot_size l'.
Proof. unfold snapshot_size. induction 1; cbn [foldr]; lia. Qed.

Lemma serialize_entry_written e done n w : entry_ok e -> written done n w -> (length (entry_bytes e) <= n)%nat ->
  exists w', serialize_entry e.1 e.2 w = Ok w' /\ written (done ++ entry_bytes e) (n - length (entry_bytes e)) w'.
Proof.
  intros [Hk Hv] Hw Hn. unfold entry_bytes in Hn |- *. rewrite length_app in Hn |- *. unfold serialize_entry.
  destruct (serialize_padded e.1 _ _ _ Hk Hw) as (w1 & E1 & W1); [lia|].
  destruct (serialize e.1 w) as [[w1' s1]| |]; cbn [mbind result_bind] in E1 |- *; try discriminate.
  rewrite E1. cbn [mbind result_bind].
  destruct (serialize_padded e.2 _ _ _ Hv W1) as (w2 & E2 & W2); [lia|].
  destruct (serialize e.2 w1) as [[w2' s2]| |]; cbn [mbind result_bind] in E2 |- *; try discriminate.
  exists w2. split; [done|]. rewrite <- app_assoc in W2.
  by replace (n - (length (padded e.1) + length (padded e.2)))%nat
    with (n - length (padded e.1) - length (padded e.2))%nat by lia.
Qed.

Lemma serialize_entries_written l : forall done n w, Forall entry_ok l -> written done n w ->
  (length (snapshot_bytes l) <= n)%nat ->
  exists w', serialize_entries l w = Ok w' /\ written (done ++ snapshot_bytes l) (n - length (snapshot_bytes l)) w'.
Proof.
  unfold snapshot_bytes. induction l as [|[k v] l IH]; intros done n w Hl Hw Hn; cbn [fmap list_fmap concat serialize_entries].
  - exists w. cbn. by rewrite app_nil_r, Nat.sub_0_r.
  - inversion Hl as [|? ? He Hl']; subst. cbn [fmap list_fmap concat] in Hn. rewrite length_app in Hn |- *.
    destruct (serialize_entry_written (k, v) _ _ _ He Hw) as (w1 & E1 & W1); [lia|]. cbn [fst snd] in E1. rewrite E1.
    cbn [mbind result_bind]. destruct (IH _ _ _ Hl' W1) as (w2 & E2 & W2); [lia|].
    exists w2. split; [done|]. rewrite <- app_assoc in W2. by rewrite Nat.sub_add_distr.
Qed.

(** A buffer of exactly the size of the snapshot is filled by it. *)
Lemma serialize_snapshot l : Forall entry_ok l ->
  exists w, serialize_entries l (new_writer (snapshot_size l)) = Ok w /\ buf w = snapshot_bytes l /\ space w = 0.
Proof.
  intros Hl. pose proof (length_snapshot_bytes l Hl) as Hlen.
  destruct (serialize_entries_written l [] (length (snapshot_bytes l)) (new_writer (snapshot_size l)) Hl) as (w & E & W).
  - rewrite <- Hlen. apply new_writer_written.
  - done.
  - exists w. destruct W as (W1 & _ & W3). rewrite Nat.sub_diag in W1, W3. cbn in W1. rewrite app_nil_r in W1. done.
Qed.

Lemma deserialize_entry e rest : entry_ok e -> 
  exists d0 d1 d2, entry_bytes e ++ rest = padded e.1 ++ padded e.2 ++ rest /\
    deserialize (padded e.1 ++ padded e.2 ++ rest) = Ok (e.1, d0) /\
    skip (get_padding (wrap32 (zlen (padded e.1 ++ padded e.2 ++ rest) - zlen d0))) d0 = Ok d1 /\
    deserialize d1 = Ok (ser_canon e.2, d2) /\
    skip (get_padding (wrap32 (zlen d1 - zlen d2))) d2 = Ok rest.
Proof.
  intros [Hk Hv]. destruct (deserialize_padded e.1 (padded e.2 ++ rest) Hk) as [E1 E2].
  destruct (deserialize_padded e.2 rest Hv) as [E3 E4]. do 3 eexists. split_and!; [by unfold entry_bytes; rewrite <- app_assoc | | | |]; eassumption.
Qed.

Lemma deserialize_loop_bytes l : forall fuel t, Forall entry_ok l -> Forall (fun e => ser_ok (ser_canon e.2)) l ->
  st_ok t -> (length l <= fuel)%nat ->
  exists t', deserialize_loop fuel (snapshot_bytes l) t = Some (Ok t') /\ st_ok t' /\
    st_model t' = foldl (fun m e => <[e.1 := ser_canon e.2]> m) (st_model t) l.
Proof.
  induction l as [|[k v] l IH]; intros fuel t Hl Hc Ht Hf; [by destruct fuel; eexists|].
  inversion Hl as [|? ? He Hl']; inversion Hc as [|? ? Hcv Hc']; subst. destruct fuel as [|fuel]; [cbn in Hf; lia|].
  unfold snapshot_bytes. cbn [fmap list_fmap concat]. fold (snapshot_bytes l).
  destruct (deserialize_entry (k, v) (snapshot_bytes l) He) as (d0 & d1 & d2 & -> & E1 & E2 & E3 & E4).
  cbn [fst snd] in *. rewrite deserialize_loop_step.
  2: { intros [H _]%app_eq_nil. pose proof (length_padded k (proj1 He)) as Hp. rewrite H in Hp.
       pose proof (size_with_padding_pos k (proj1 He)). cbn in Hp. lia. }
  rewrite E1. cbn [mbind result_bind]. rewrite E2. cbn [mbind result_bind].
  rewrite E3. cbn [mbind result_bind]. rewrite E4. cbn [mbind result_bind].
  destruct (st_put_ok t k (ser_canon v) Ht (proj1 He) Hcv) as (t1 & -> & Ht1 & Hm1). cbn [mbind result_bind].
  destruct (IH fuel t1 Hl' Hc' Ht1) as (t2 & -> & Ht2 & Hm2); [cbn in Hf; lia|].
  exists t2. split; [done|]. split; [done|]. cbn [foldl fst snd]. by rewrite Hm2, Hm1.
Qed.

Lemma foldl_insert_canon l : forall (m : gmap K V), NoDup l.*1 ->
  foldl (fun m e => <[e.1 := ser_canon e.2]> m) m l = (ser_canon <$> list_to_map l) ∪ m.
Proof.
  induction l as [|[k v] l IH]; intros m Hl; cbn [foldl fst snd list_to_map foldr].
  - by rewrite fmap_empty, map_empty_union.
  - apply NoDup_cons in Hl as [Hk Hl]. rewrite IH by done. cbn. rewrite fmap_insert.
    rewrite <- insert_union_r, insert_union_l; [done|].
    rewrite lookup_fmap, not_elem_of_list_to_map_1; [done|]. done.
Qed.

(** Reading a snapshot gives back the entries it was written from. *)
Lemma deserialize_snapshot l : Forall entry_ok l -> Forall (fun e => ser_ok (ser_canon e.2)) l -> NoDup l.*1 ->
  exists t : T, deserialize_map (snapshot_bytes l) = Some (Ok t) /\ st_ok t /\
    st_model t = ser_canon <$> list_to_map l.
Proof.
  intros Hl Hc Hn. unfold deserialize_map. destruct st_empty_ok as [Ho He].
  destruct (deserialize_loop_bytes l (length (snapshot_bytes l)) st_empty Hl Hc Ho) as (t & E & Ht & Hm).
  - clear -Hl. unfold snapshot_bytes. induction Hl as [|e l He Hl IH]; [done|]. cbn [fmap list_fmap concat length].
    rewrite length_app. pose proof (length_entry_bytes e He). pose proof (entry_size_pos e He). lia.
  - exists t. split; [done|]. split; [done|]. by rewrite Hm, foldl_insert_canon, He, map_union_empty.
Qed.

End snapshot.

Section termination.
Context {V T : Type} `{SL : MapSerialLaws V} `{ST : KvState V T}.

Lemma skip_shorter n data rest : skip n data = Ok rest -> (length rest <= length data)%nat.
Proof. unfold skip. destruct (_ <? _); [done|]. intros [= <-]. unfold zdrop. rewrite length_drop. lia. Qed.

Lemma deserialize_loop_total fuel : forall data (t : T), (length data <= fuel)%nat ->
  deserialize_loop fuel data t <> None.
Proof.
  induction fuel as [|fuel IH]; intros data t Hf.
  - destruct data; [done | cbn in Hf; lia].
  - destruct (decide (data = [])) as [->|Hd]; [done|]. rewrite deserialize_loop_step by done.
    destruct (deserialize data) as [[k d1]| |] eqn:E1; cbn [mbind result_bind]; [|done..].
    pose proof (ser_read_shorter _ _ _ E1) as L1.
    destruct (skip _ d1) as [d2| |] eqn:E2; cbn [mbind result_bind]; [|done..]. pose proof (skip_shorter _ _ _ E2) as L2.
    destruct (deserialize d2) as [[v d3]| |] eqn:E3; cbn [mbind result_bind]; [|done..].
    pose proof (ser_read_shorter _ _ _ E3) as L3.
    destruct (skip _ d3) as [d4| |] eqn:E4; cbn [mbind result_bind]; [|done..]. pose proof (skip_shorter _ _ _ E4) as L4.
    destruct (st_put k v t) as [t1| |]; cbn [mbind result_bind]; [|done..]. apply IH. lia.
Qed.

(** Reading a snapshot ends on every input, well formed or not: each turn
    consumes at least the eight bytes of a length. *)
Lemma deserialize_map_total (data : list Z) : deserialize_map (T := T) data <> None.
Proof. by apply deserialize_loop_total. Qed.

End termination.

(** What a store relies on when it takes a snapshot: the bytes are those of the
    entries in some order. *)
Class SnapshotLaws (V T : Type) `{KL : KvStateLaws V T} `{SS : SnapshotState T} := {
  snap_ok : T -> Prop;
  st_snapshot_ok t : st_ok t -> snap_ok t ->
    exists l, st_make_snapshot t = Ok (snapshot_bytes l) /\ Forall entry_ok l /\ Forall (fun e => ser_ok (ser_canon e.2)) l /\
      NoDup l.*1 /\ list_to_map l = st_model t
}.

End MapSerial.
