(* ===== verification/RbMap.v ===== *)
(** * The red-black map

    Model of CCF/src/ds/rb_map.h, the persistent map that holds the state of a
    table when CCF is built with KV_STATE_RB, and of its snapshot.  A tree
    caches its number of entries and their serialised size, as the nodes of the
    C++ code do.  The assertions of the constructor on the order of the keys are
    part of the model: a failed assertion, like the use of the root of an empty
    map, is [Undef].

    [RbMap.put_spec] and the instance [rb_state_laws] show that the map
    implements a finite map, that insertion keeps the red-black invariant and
    that no assertion fails; [height_log] bounds the depth of every search. *)
From S2P Require Import Prelude Serialized KvHandle MapSerial.
From stdpp Require Import list gmap sorting.
Local Open Scope Z_scope.

Module RbMap.
Import Serialized MapSerial.
Abbreviation K := KvHandle.K.
Abbreviation key_lt := KvHandle.key_lt.

Inductive Color := R | B.

(** [std::shared_ptr<const Node>]. *)
Inductive Map (V : Type) :=
  | Empty
  | Node (_c : Color) (_lft : Map V) (_key : K) (_val : V) (_rgt : Map V)
      (total_size total_serialized_size : Z).
Arguments Empty {V}.
Arguments Node {V} _ _ _ _ _ _ _.

Section ops.
Context {V : Type} `{MS : MapSerial V}.
Implicit Types (t lft rgt : Map V).

Definition empty t : bool := match t with Empty => true | Node _ _ _ _ _ _ _ => false end.
Definition size t : Z := match t with Empty => 0 | Node _ _ _ _ _ s _ => s end.
Definition get_serialized_size t : Z := match t with Empty => 0 | Node _ _ _ _ _ _ s => s end.

Definition mkNode (c : Color) lft (key : K) (val : V) rgt : Map V :=
  Node c lft key val rgt
    (wrap64 (1 + size lft + size rgt))
    (wrap64 (get_size_with_padding key + get_size_with_padding val +
             get_serialized_size lft + get_serialized_size rgt)).

(** The constructor with its assertions. *)
Definition mkMap (c : Color) lft (key : K) (val : V) rgt : result (Map V) :=
  let lft_ok := match lft with Empty => true | Node _ _ y _ _ _ _ => key_lt y key end in
  let rgt_ok := match rgt with Empty => true | Node _ _ y _ _ _ _ => key_lt key y end in
  if lft_ok && rgt_ok then Ok (mkNode c lft key val rgt) else Undef.

Fixpoint getp (key : K) t : option V :=
  match t with
  | Empty => None
  | Node _ l y yv r _ _ =>
      if key_lt key y then getp key l else if key_lt y key then getp key r else Some yv
  end.

Definition is_red t : bool := match t with Node R _ _ _ _ _ _ => true | _ => false end.
Definition doubledLeft t : bool :=
  match t with Node R l _ _ _ _ _ => is_red l | _ => false end.
Definition doubledRight t : bool :=
  match t with Node R _ _ _ r _ _ => is_red r | _ => false end.

Definition paint (c : Color) t : result (Map V) :=
  match t with Empty => Undef | Node _ l k v r _ _ => mkMap c l k v r end.

Definition balance lft (x : K) (v : V) rgt : result (Map V) :=
  if doubledLeft lft then
    match lft with
    | Node _ ll lk lv lr _ _ =>
        l' ← paint B ll;
        r' ← mkMap B lr x v rgt;
        mkMap R l' lk lv r'
    | Empty => Undef
    end
  else if doubledRight lft then
    match lft with
    | Node _ ll lk lv (Node _ lrl lrk lrv lrr _ _) _ _ =>
        l' ← mkMap B ll lk lv lrl;
        r' ← mkMap B lrr x v rgt;
        mkMap R l' lrk lrv r'
    | _ => Undef
    end
  else if doubledLeft rgt then
    match rgt with
    | Node _ (Node _ rll rlk rlv rlr _ _) rk rv rr _ _ =>
        l' ← mkMap B lft x v rll;
        r' ← mkMap B rlr rk rv rr;
        mkMap R l' rlk rlv r'
    | _ => Undef
    end
  else if doubledRight rgt then
    match rgt with
    | Node _ rl rk rv rr _ _ =>
        l' ← mkMap B lft x v rl;
        r' ← paint B rr;
        mkMap R l' rk rv r'
    | Empty => Undef
    end
  else mkMap B lft x v rgt.

Fixpoint insert (x : K) (v : V) t : result (Map V) :=
  match t with
  | Empty => mkMap R Empty x v Empty
  | Node B l y yv r _ _ =>
      if key_lt x y then l' ← insert x v l; balance l' y yv r
      else if key_lt y x then r' ← insert x v r; balance l y yv r'
      else mkMap B l y v r
  | Node R l y yv r _ _ =>
      if key_lt x y then l' ← insert x v l; mkMap R l' y yv r
      else if key_lt y x then r' ← insert x v r; mkMap R l y yv r'
      else mkMap R l y v r
  end.

Definition put (key : K) (value : V) t : result (Map V) :=
  t ← insert key value t; paint B t.

(** Not implemented in the source. *)
Definition remove (key : K) t : result (Map V) := Throw LogicError.

(** The visitor works on [a] and says whether to go on. *)
Fixpoint foreach {A} (f : K -> V -> A -> A * bool) t (a : A) : A * bool :=
  match t with
  | Empty => (a, true)
  | Node _ l k v r _ _ =>
      let '(a, go) := foreach f l a in
      if negb go then (a, false)
      else
        let '(a, go) := f k v a in
        if negb go then (a, false) else foreach f r a
  end.

(** ** Snapshot *)

(** [Snapshot::serialize] with the visitor [serialize_entry], whose exceptions
    leave [foreach]; the last assertion is compiled out with [ndebug]. *)
Definition snapshot_serialize (ndebug : bool) t (w : writer) : result (list Z) :=
  let w := mkWriter (buf w) (pos w) (get_serialized_size t) in
  w ← fst (foreach (fun k v w => let w := w ≫= serialize_entry k v in (w, is_ok w)) t (Ok w));
  if negb ndebug && negb (space w =? 0) then Throw LogicError else Ok (buf w).

(** [std::vector<uint8_t> ret(get_serialized_size()); serialize(ret.data())]. *)
Definition make_snapshot (ndebug : bool) t : result (list Z) :=
  snapshot_serialize ndebug t (new_writer (get_serialized_size t)).

End ops.

#[global] Instance rb_state {V} `{MapSerial V} : KvState V (Map V) := {
  st_empty := Empty;
  st_get key t := Ok (getp key t);
  st_put := put;
  st_entries t := Ok (fst (foreach (fun k v l => (l ++ [(k, v)], true)) t []));
  st_size := size;
  st_get_serialized_size := get_serialized_size
}.

(** ** Specification *)

Section spec.
Context {V : Type} `{MS : MapSerial V}.
Implicit Types (t lft rgt : Map V).

(** The entries in the order of the keys. *)
Fixpoint inorder t : list (K * V) :=
  match t with
  | Empty => []
  | Node _ l k v r _ _ => inorder l ++ (k, v) :: inorder r
  end.

(** The caches of every node are those the constructor computes. *)
Fixpoint sized t : Prop :=
  match t with
  | Empty => True
  | Node c l k v r _ _ => sized l /\ sized r /\ t = mkNode c l k v r
  end.

(** No red node has a red child, and every path has [n] black nodes. *)
Inductive is_rb : Map V -> nat -> Prop :=
  | rb_empty : is_rb Empty 0
  | rb_red l k v r s z n : is_rb l n -> is_rb r n -> is_red l = false -> is_red r = false ->
      is_rb (Node R l k v r s z) n
  | rb_black l k v r s z n : is_rb l n -> is_rb r n -> is_rb (Node B l k v r s z) (S n).

(** The same, except that a red root may have a red child. *)
Inductive nearly_rb : Map V -> nat -> Prop :=
  | nearly_ok t n : is_rb t n -> nearly_rb t n
  | nearly_left l k v r s z n : is_rb l n -> is_rb r n -> is_red r = false -> nearly_rb (Node R l k v r s z) n
  | nearly_right l k v r s z n : is_rb l n -> is_rb r n -> is_red l = false -> nearly_rb (Node R l k v r s z) n.

Definition map_ok t : Prop :=
  KvHandle.sorted (inorder t) /\ sized t /\ is_red t = false /\ exists n, is_rb t n.

Fixpoint height t : Z :=
  match t with Empty => 0 | Node _ l _ _ r _ _ => 1 + Z.max (height l) (height r) end.

End spec.

(** ** Lemmas *)

Lemma sorted_app {A} (l k : list (K * A)) : KvHandle.sorted (l ++ k) <->
  KvHandle.sorted l /\ KvHandle.sorted k /\ (forall a b, a ∈ l -> b ∈ k -> key_lt a.1 b.1 = true).
Proof.
  unfold KvHandle.sorted. induction l as [|x l IH]; cbn.
  - split; [|by intros (_ & H & _)]. intros H. split_and!; [constructor | done | by intros ? ? ?%elem_of_nil].
  - split.
    + inversion 1 as [|? ? Hs Hf]; subst. apply IH in Hs as (H1 & H2 & H3). rewrite Forall_app in Hf.
      destruct Hf as [Hf1 Hf2]. split_and!; [by constructor | done |].
      intros a b [->|Ha]%elem_of_cons Hb; [|by apply H3]. rewrite Forall_forall in Hf2. by apply Hf2.
    + intros (H1 & H2 & H3). inversion H1 as [|? ? Hs Hf]; subst. constructor.
      * apply IH. split_and!; [done..|]. intros a b Ha Hb. apply H3; [by apply elem_of_cons; right | done].
      * rewrite Forall_app. split; [done|]. apply Forall_forall. intros b Hb. apply H3; [by left | done].
Qed.

Lemma sorted_cons {A} x (l : list (K * A)) : KvHandle.sorted (x :: l) <->
  KvHandle.sorted l /\ (forall b, b ∈ l -> key_lt x.1 b.1 = true).
Proof.
  change (x :: l) with ([x] ++ l). rewrite sorted_app. split.
  - intros (_ & H2 & H3). split; [done|]. intros b. apply H3. by left.
  - intros [H2 H3]. split_and!; [repeat constructor | done |]. intros a b ->%list_elem_of_singleton. apply H3.
Qed.

Section lemmas.
Context {V : Type} `{MS : MapSerial V}.
Implicit Types (t lft rgt : Map V).

Lemma mkMap_ok c l k v r : KvHandle.sorted (inorder l ++ (k, v) :: inorder r) ->
  mkMap c l k v r = Ok (mkNode c l k v r).
Proof.
  rewrite sorted_app, sorted_cons. intros (_ & [_ Hr] & Hl). unfold mkMap.
  assert (match l with Empty => true | Node _ _ y _ _ _ _ => key_lt y k end = true) as ->.
  { destruct l as [|c' l1 y yv l2 s z]; [done|]. apply (Hl (y, yv) (k, v)); [|by left].
    cbn. apply elem_of_app. right. by left. }
  assert (match r with Empty => true | Node _ _ y _ _ _ _ => key_lt k y end = true) as ->; [|done].
  destruct r as [|c' r1 y yv r2 s z]; [done|]. apply (Hr (y, yv)). cbn. apply elem_of_app. right. by left.
Qed.

Lemma mkNode_sized c l k v r : sized l -> sized r -> sized (mkNode c l k v r).
Proof. intros Hl Hr. by split_and!. Qed.

(** A contiguous part of a sorted list is sorted. *)
Lemma sorted_part {A} (a b c l : list (K * A)) : KvHandle.sorted l -> l = a ++ b ++ c -> KvHandle.sorted b.
Proof. intros H ->. apply sorted_app in H as (_ & H & _). by apply sorted_app in H as (H & _ & _). Qed.


(** Every rotation builds this tree from the same four subtrees. *)
Lemma rotate a k1 v1 b k2 v2 c k3 v3 d :
  KvHandle.sorted (inorder a ++ (k1, v1) :: inorder b ++ (k2, v2) :: inorder c ++ (k3, v3) :: inorder d) ->
  mkMap B a k1 v1 b = Ok (mkNode B a k1 v1 b) /\ mkMap B c k3 v3 d = Ok (mkNode B c k3 v3 d) /\
  mkMap R (mkNode B a k1 v1 b) k2 v2 (mkNode B c k3 v3 d) =
    Ok (mkNode R (mkNode B a k1 v1 b) k2 v2 (mkNode B c k3 v3 d)).
Proof.
  intros Hs. split_and!; apply mkMap_ok.
  - eapply (sorted_part [] _ ((k2, v2) :: inorder c ++ (k3, v3) :: inorder d)); [exact Hs|].
    cbn [app]. by rewrite <- app_assoc.
  - eapply (sorted_part (inorder a ++ (k1, v1) :: inorder b ++ [(k2, v2)]) _ []); [exact Hs|].
    rewrite app_nil_r, <- app_assoc. cbn [app]. by rewrite <- app_assoc.
  - cbn [mkNode inorder]. by rewrite <- app_assoc.
Qed.

(** What a rotation keeps: the entries, the caches, and one more black level
    whichever side was nearly red-black. *)
Definition balanced l (x : K) (v : V) r t : Prop :=
  sized t /\ inorder t = inorder l ++ (x, v) :: inorder r /\
  (forall n, nearly_rb l n -> is_rb r n -> is_rb t (S n)) /\
  (forall n, is_rb l n -> nearly_rb r n -> is_rb t (S n)).

End lemmas.

Ltac rb_norm := repeat first [rewrite <- !app_assoc | progress cbn [app inorder mkNode]].
Ltac rb_norm_in H := repeat first [rewrite <- !app_assoc in H | progress cbn [app inorder mkNode] in H].
Ltac rb_inv := repeat match goal with
  | H : nearly_rb (Node _ _ _ _ _ _ _) _ |- _ => inversion H; clear H; subst
  | H : is_rb (Node _ _ _ _ _ _ _) _ |- _ => inversion H; clear H; subst
  | H : is_red (Node R _ _ _ _ _ _) = false |- _ => discriminate H
  end.
Ltac rb_solve := intros; rb_inv; repeat (eassumption || constructor || done).

(** One case of [balance]: the parts in order, the constructors, the result. *)
Ltac rb_rotate Hs :=
  let M1 := fresh in let M2 := fresh in let M3 := fresh in
  cbn [sized] in *; rb_norm_in Hs; destruct (rotate _ _ _ _ _ _ _ _ _ _ Hs) as (M1 & M2 & M3);
  cbn [paint]; rewrite M1; cbn [mbind result_bind]; rewrite M2; cbn [mbind result_bind]; rewrite M3;
  eexists; split; [done|]; destruct_and!;
  split_and!; [by repeat apply mkNode_sized | by rb_norm | rb_solve | rb_solve].

Section invariant.
Context {V : Type} `{MS : MapSerial V}.
Implicit Types (t lft rgt : Map V).

Lemma is_red_inv t : is_red t = true -> exists l k v r s z, t = Node R l k v r s z.
Proof. destruct t as [|[] l k v r s z]; try done. intros _. by do 6 eexists. Qed.
Lemma doubledLeft_inv t : doubledLeft t = true ->
  exists a k1 v1 b s1 z1 k2 v2 c s z, t = Node R (Node R a k1 v1 b s1 z1) k2 v2 c s z.
Proof.
  destruct t as [|[] l k v r s z]; try done. intros (? & ? & ? & ? & ? & ? & ->)%is_red_inv. by do 11 eexists.
Qed.
Lemma doubledRight_inv t : doubledRight t = true ->
  exists a k1 v1 b k2 v2 c s1 z1 s z, t = Node R a k1 v1 (Node R b k2 v2 c s1 z1) s z.
Proof.
  destruct t as [|[] l k v r s z]; try done. intros (? & ? & ? & ? & ? & ? & ->)%is_red_inv. by do 11 eexists.
Qed.
Lemma nearly_rb_ok t n : nearly_rb t n -> doubledLeft t = false -> doubledRight t = false -> is_rb t n.
Proof. inversion 1; subst; [done|..]; cbn; intros; by constructor. Qed.

Lemma balance_spec l x v r : sized l -> sized r -> KvHandle.sorted (inorder l ++ (x, v) :: inorder r) ->
  exists t, balance l x v r = Ok t /\ balanced l x v r t.
Proof.
  intros Hl Hr Hs. unfold balance, balanced.
  destruct (doubledLeft l) eqn:E1; [|destruct (doubledRight l) eqn:E2; [|destruct (doubledLeft r) eqn:E3; [|destruct (doubledRight r) eqn:E4]]].
  - apply doubledLeft_inv in E1 as (a & k1 & v1 & b & s1 & z1 & k2 & v2 & c & s & z & ->). rb_rotate Hs.
  - apply doubledRight_inv in E2 as (a & k1 & v1 & b & k2 & v2 & c & s1 & z1 & s & z & ->). rb_rotate Hs.
  - apply doubledLeft_inv in E3 as (a & k1 & v1 & b & s1 & z1 & k2 & v2 & c & s & z & ->). rb_rotate Hs.
  - apply doubledRight_inv in E4 as (a & k1 & v1 & b & k2 & v2 & c & s1 & z1 & s & z & ->). rb_rotate Hs.
  - rewrite mkMap_ok by done. eexists. split; [done|]. split_and!; [by apply mkNode_sized | done |..].
    + intros n Hn Hb. constructor; [by apply nearly_rb_ok | done].
    + intros n Hn Hb. constructor; [done | by apply nearly_rb_ok].
Qed.

(** Insertion into the list of entries, seen from a node. *)
Lemma map_put_left x (v : V) l y yv r : key_lt x y = true ->
  KvHandle.map_put x v (l ++ (y, yv) :: r) = KvHandle.map_put x v l ++ (y, yv) :: r.
Proof.
  intros Hxy. induction l as [|[k a] l IH]; cbn.
  - case_bool_decide as E; [subst; by rewrite KvHandle.key_lt_irrefl in Hxy | by rewrite Hxy].
  - case_bool_decide; [done|]. destruct (key_lt x k); [done|]. cbn. by rewrite IH.
Qed.
Lemma map_put_right x (v : V) l y yv r : key_lt y x = true -> KvHandle.sorted (l ++ (y, yv) :: r) ->
  KvHandle.map_put x v (l ++ (y, yv) :: r) = l ++ (y, yv) :: KvHandle.map_put x v r.
Proof.
  assert (Hgt : forall k, key_lt k x = true -> x <> k /\ key_lt x k = false).
  { intros k H. split; [intros ->; by rewrite KvHandle.key_lt_irrefl in H|].
    destruct (key_lt x k) eqn:E; [|done]. pose proof (KvHandle.key_lt_trans _ _ _ H E) as Hc.
    by rewrite KvHandle.key_lt_irrefl in Hc. }
  intros Hyx. induction l as [|[k a] l IH]; intros Hs; cbn [app KvHandle.map_put] in *.
  - destruct (Hgt y Hyx) as [? ->]. by rewrite bool_decide_eq_false_2.
  - apply sorted_cons in Hs as [Hs Hk]. specialize (Hk (y, yv) ltac:(set_solver)). cbn in Hk.
    destruct (Hgt k (KvHandle.key_lt_trans _ _ _ Hk Hyx)) as [? ->]. rewrite bool_decide_eq_false_2 by done.
    by rewrite IH.
Qed.
Lemma map_put_here y (v : V) l yv r : KvHandle.sorted (l ++ (y, yv) :: r) ->
  KvHandle.map_put y v (l ++ (y, yv) :: r) = l ++ (y, v) :: r.
Proof.
  induction l as [|[k a] l IH]; intros Hs; cbn [app KvHandle.map_put] in *.
  - by rewrite bool_decide_eq_true_2.
  - apply sorted_cons in Hs as [Hs Hk]. specialize (Hk (y, yv) ltac:(set_solver)). cbn in Hk.
    rewrite bool_decide_eq_false_2 by (intros ->; by rewrite KvHandle.key_lt_irrefl in Hk).
    destruct (key_lt y k) eqn:E; [|by rewrite IH].
    pose proof (KvHandle.key_lt_trans _ _ _ Hk E) as Hc. by rewrite KvHandle.key_lt_irrefl in Hc.
Qed.

Lemma insert_spec x v t : sized t -> KvHandle.sorted (inorder t) ->
  exists t', insert x v t = Ok t' /\ sized t' /\ inorder t' = KvHandle.map_put x v (inorder t) /\
    forall n, is_rb t n -> nearly_rb t' n /\ (is_red t = false -> is_rb t' n).
Proof.
  induction t as [|c l IHl y yv r IHr s z]; intros Hz Hs.
  { cbn [insert inorder KvHandle.map_put]. rewrite mkMap_ok by (repeat constructor). eexists. split_and!; [done..|]. intros n Hn. inversion Hn; subst.
    assert (is_rb (mkNode R Empty x v Empty) 0) by (repeat constructor). split; [by constructor | done]. }
  cbn [sized inorder insert] in *. destruct Hz as (Hzl & Hzr & _). pose proof (KvHandle.sorted_put x v _ Hs) as Hp.
  pose proof (proj1 (sorted_app _ _) Hs) as (Hsl & [Hsr _]%sorted_cons & _).
  destruct (IHl Hzl Hsl) as (l' & -> & Hzl' & Hil & Hnl). destruct (IHr Hzr Hsr) as (r' & -> & Hzr' & Hir & Hnr).
  cbn [mbind result_bind]. clear IHl IHr. destruct (key_lt x y) eqn:Exy; [|destruct (key_lt y x) eqn:Eyx].
  - rewrite map_put_left, <- Hil in Hp |- * by done. destruct c.
    + rewrite mkMap_ok by done. eexists. split_and!; [done | by apply mkNode_sized | done |].
      intros n Hn. inversion Hn; subst. destruct (Hnl n) as [_ Hb]; [done|]. split; [by apply nearly_left; [apply Hb|..] | done].
    + destruct (balance_spec l' y yv r) as (t' & -> & Hz' & Hi' & Hn' & _); [done..|]. eexists. split_and!; [done..|].
      intros n Hn. inversion Hn as [| |? ? ? ? ? ? n' Hl Hr]; subst. destruct (Hnl n' Hl) as [Hb _].
      specialize (Hn' n' Hb Hr). split; [by constructor | done].
  - rewrite map_put_right, <- Hir in Hp |- * by done. destruct c.
    + rewrite mkMap_ok by done. eexists. split_and!; [done | by apply mkNode_sized | done |].
      intros n Hn. inversion Hn; subst. destruct (Hnr n) as [_ Hb]; [done|]. split; [by apply nearly_right; [|apply Hb|] | done].
    + destruct (balance_spec l y yv r') as (t' & -> & Hz' & Hi' & _ & Hn'); [done..|]. eexists. split_and!; [done..|].
      intros n Hn. inversion Hn as [| |? ? ? ? ? ? n' Hl Hr]; subst. destruct (Hnr n' Hr) as [Hb _].
      specialize (Hn' n' Hl Hb). split; [by constructor | done].
  - assert (x = y) as -> by (destruct (decide (x = y)) as [|Hne]; [done|];
      by rewrite (KvHandle.key_lt_total _ _ Hne Exy) in Eyx).
    rewrite map_put_here in Hp |- * by done.
    exists (mkNode c l y v r). split_and!; [by destruct c; rewrite mkMap_ok | by apply mkNode_sized | done |].
    intros n Hn. assert (is_rb (mkNode c l y v r) n) by (inversion Hn; subst; by constructor). split; [by constructor | done].
Qed.

Lemma rb_put_ok x v t : map_ok t ->
  exists t', put x v t = Ok t' /\ map_ok t' /\ inorder t' = KvHandle.map_put x v (inorder t).
Proof.
  intros (Hs & Hz & Hr & n & Hn). destruct (insert_spec x v t Hz Hs) as (t1 & E & Hz1 & Hi1 & H1).
  unfold put. rewrite E. cbn [mbind result_bind]. destruct (H1 n Hn) as [_ Hb]. specialize (Hb Hr).
  pose proof (KvHandle.sorted_put x v _ Hs) as Hp. rewrite <- Hi1 in Hp.
  destruct t1 as [|c l k w r s z]; [exfalso; cbn in Hi1; symmetry in Hi1; destruct (inorder t) as [|[k a] l]; cbn in Hi1;
    [done | by repeat (case_bool_decide || destruct (key_lt _ _))]|].
  cbn [paint sized inorder] in *. rewrite mkMap_ok by done. eexists. split_and!; [done | | done].
  destruct Hz1 as (Hzl & Hzr & _). split_and!; [done | by apply mkNode_sized | done |].
  inversion Hb; subst; eexists; by constructor.
Qed.

Lemma getp_find key t : KvHandle.sorted (inorder t) -> getp key t = KvHandle.map_find key (inorder t).
Proof.
  induction t as [|c l IHl y yv r IHr s z]; intros Hs; cbn [getp inorder] in *; [done|].
  pose proof (proj1 (sorted_app _ _) Hs) as (Hsl & [Hsr Hyr]%sorted_cons & Hly).
  rewrite KvHandle.map_find_lookup, list_to_map_app, lookup_union. cbn [list_to_map foldr].
  rewrite IHl, IHr, !KvHandle.map_find_lookup by done.
  assert (Hno : forall l0, (forall a, a ∈ l0 -> a.1 <> key) -> (list_to_map l0 : gmap K V) !! key = None).
  { intros l0 H. apply not_elem_of_list_to_map_1. intros ([k' a] & Hk & Ha)%list_elem_of_fmap. by apply (H (k', a)). }
  destruct (key_lt key y) eqn:E1; [|destruct (key_lt y key) eqn:E2].
  - assert (Hn : y <> key) by (intros ->; by rewrite KvHandle.key_lt_irrefl in E1).
    cbn. rewrite lookup_insert_ne, (Hno (inorder r)) by (done || (intros a Ha <-;
      pose proof (KvHandle.key_lt_trans _ _ _ E1 (Hyr a Ha)) as Hc; by rewrite KvHandle.key_lt_irrefl in Hc)).
    by destruct (list_to_map (inorder l) !! key).
  - assert (Hn : y <> key) by (intros ->; by rewrite KvHandle.key_lt_irrefl in E2).
    cbn. rewrite lookup_insert_ne, (Hno (inorder l)) by (done || (intros a Ha <-;
      pose proof (KvHandle.key_lt_trans _ _ _ (Hly a (y, yv) Ha ltac:(left)) E2) as Hc; by rewrite KvHandle.key_lt_irrefl in Hc)).
    by destruct (list_to_map (inorder r) !! key).
  - assert (y = key) as -> by (destruct (decide (y = key)) as [|Hne]; [done|];
      by rewrite (KvHandle.key_lt_total _ _ Hne E2) in E1).
    cbn. rewrite lookup_insert_eq, (Hno (inorder l)); [done|]. intros a Ha <-.
    specialize (Hly a (a.1, yv) Ha ltac:(left)). by rewrite KvHandle.key_lt_irrefl in Hly.
Qed.

(** [foreach] visits the entries in order until the visitor stops. *)
Fixpoint visit {A} (f : K -> V -> A -> A * bool) (l : list (K * V)) (a : A) : A * bool :=
  match l with
  | [] => (a, true)
  | (k, v) :: l => let '(a, go) := f k v a in if negb go then (a, false) else visit f l a
  end.

Lemma visit_app {A} (f : K -> V -> A -> A * bool) l k a :
  visit f (l ++ k) a = let '(a, go) := visit f l a in if negb go then (a, false) else visit f k a.
Proof.
  revert a. induction l as [|[x v] l IH]; intros a; cbn; [done|].
  destruct (f x v a) as [a' []]; cbn; [apply IH | done].
Qed.
Lemma foreach_visit {A} (f : K -> V -> A -> A * bool) t a : foreach f t a = visit f (inorder t) a.
Proof.
  revert a. induction t as [|c l IHl y yv r IHr s z]; intros a; cbn; [done|].
  rewrite visit_app, IHl. cbn. destruct (visit f (inorder l) a) as [a' []]; cbn; [|done].
  destruct (f y yv a') as [a'' []]; cbn; [apply IHr | done].
Qed.
Lemma visit_collect l : forall acc, visit (fun k v l => (l ++ [(k, v)], true)) l acc = (acc ++ l, true).
Proof.
  induction l as [|[k v] l IH]; intros acc; cbn; [by rewrite app_nil_r|]. rewrite IH, <- app_assoc. done.
Qed.

Lemma wrap64_sum a b c : wrap64 (a + wrap64 b + wrap64 c) = wrap64 (a + b + c).
Proof.
  unfold wrap64. rewrite Z.add_mod_idemp_r by done. replace (a + b mod M64 + c) with (a + c + b mod M64) by lia.
  rewrite Z.add_mod_idemp_r by done. f_equal. lia.
Qed.

(** The caches count the entries and their bytes, modulo 2^64. *)
Lemma sized_counts t : sized t -> size t = wrap64 (zlen (inorder t)) /\
  get_serialized_size t = wrap64 (snapshot_size (inorder t)).
Proof.
  induction t as [|c l IHl y yv r IHr s z]; intros Hz; [done|]. cbn [sized inorder] in *.
  destruct Hz as (Hl & Hr & ->). destruct (IHl Hl) as [Sl Zl], (IHr Hr) as [Sr Zr].
  assert (Happ : snapshot_size (inorder l ++ (y, yv) :: inorder r) =
    snapshot_size (inorder l) + (entry_size (y, yv) + snapshot_size (inorder r))).
  { clear. unfold snapshot_size. induction (inorder l) as [|e k IH]; cbn [foldr app]; lia. }
  rewrite Happ, length_app. cbn [mkNode size get_serialized_size length]. rewrite Sl, Sr, Zl, Zr.
  split; rewrite wrap64_sum; f_equal; unfold entry_size; cbn [fst snd]; lia.
Qed.

End invariant.

(** ** The interface *)

Definition model {V} (t : Map V) : gmap K V := list_to_map (inorder t).

Section laws.
Context {V : Type} `{SL : MapSerialLaws V}.
Implicit Types (t : Map V).

Lemma map_ok_empty : map_ok (V := V) Empty.
Proof. split_and!; [constructor | done | done | exists 0%nat; constructor]. Qed.

Lemma getp_model key t : map_ok t -> getp key t = model t !! key.
Proof. intros (Hs & _). by rewrite getp_find, KvHandle.map_find_lookup. Qed.

Lemma entries_inorder t : fst (foreach (fun k v l => (l ++ [(k, v)], true)) t []) = inorder t.
Proof. by rewrite foreach_visit, visit_collect. Qed.

Lemma size_model t : map_ok t -> size t = wrap64 (Z.of_nat (base.size (model t))).
Proof.
  intros (Hs & Hz & _). rewrite (proj1 (sized_counts t Hz)). unfold model.
  rewrite map_size_list_to_map by (by apply KvHandle.sorted_NoDup). done.
Qed.

#[global] Program Instance rb_state_laws : KvStateLaws V (Map V) := {
  st_ok := map_ok;
  st_model := model
}.
Next Obligation. split; [apply map_ok_empty | done]. Qed.
Next Obligation. intros t k Ht. cbn. by rewrite getp_model. Qed.
Next Obligation.
  intros t k v Ht _ _. cbv beta. destruct (rb_put_ok k v t Ht) as (t' & E & Ht' & Hi). exists t'. split_and!; [done..|].
  unfold model. by rewrite Hi, KvHandle.map_put_map.
Qed.
Next Obligation.
  intros t Ht. cbv beta. exists (inorder t). split_and!; [cbn; by rewrite entries_inorder | | done].
  apply KvHandle.sorted_NoDup, Ht.
Qed.
Next Obligation. intros t Ht. by apply size_model. Qed.

(** *** Depth *)

Lemma is_rb_height t n : is_rb t n ->
  height t <= 2 * Z.of_nat n + (if is_red t then 1 else 0) /\ 2 ^ Z.of_nat n <= zlen (inorder t) + 1.
Proof.
  induction 1 as [|l k v r s z n Hl [IH1 IH2] Hr [IH3 IH4] El Er|l k v r s z n Hl [IH1 IH2] Hr [IH3 IH4]];
    cbn [height inorder is_red]; [cbn; lia| |]; rewrite length_app; cbn [length].
  - rewrite El in IH1. rewrite Er in IH3. lia.
  - rewrite Nat2Z.inj_succ, Z.pow_succ_r by lia.
    destruct (is_red l), (is_red r); lia.
Qed.

(** *** Snapshots *)

Lemma visit_serialize l : forall w : result writer,
  fst (visit (fun k v w => let w := w ≫= serialize_entry k v in (w, is_ok w)) l w) = w ≫= serialize_entries (VT := V) l.
Proof.
  induction l as [|[k v] l IH]; intros w; cbn [visit serialize_entries]; [by destruct w|].
  destruct w as [w| |]; cbn [mbind result_bind]; [|done..].
  destruct (serialize_entry k v w) as [w'| |]; cbn [is_ok negb mbind result_bind]; [|done..]. by rewrite IH.
Qed.

Lemma make_snapshot_inorder ndebug t : map_ok t -> Forall entry_ok (inorder t) -> snapshot_size (inorder t) < M64 ->
  make_snapshot ndebug t = Ok (snapshot_bytes (inorder t)) /\ get_serialized_size t = snapshot_size (inorder t).
Proof.
  intros (Hs & Hz & _) Ho Hlt.
  assert (Hsz : get_serialized_size t = snapshot_size (inorder t)).
  { rewrite (proj2 (sized_counts t Hz)). apply wrap64_small. split; [|done].
    rewrite <- length_snapshot_bytes by done. lia. }
  split; [|done]. destruct (serialize_snapshot _ Ho) as (w & E & Hb & Hw).
  unfold make_snapshot, snapshot_serialize. rewrite foreach_visit, visit_serialize, Hsz. cbn [mbind result_bind].
  change (mkWriter _ _ _) with (new_writer (snapshot_size (inorder t))). rewrite E. cbn [mbind result_bind].
  rewrite Hw, Hb. cbn. by rewrite andb_false_r.
Qed.

#[global] Instance rb_snapshot (ndebug : bool) : SnapshotState (Map V) := { st_make_snapshot := make_snapshot ndebug }.
#[global] Program Instance rb_snapshot_laws (ndebug : bool) : SnapshotLaws V (Map V) (SS := rb_snapshot ndebug) := {
  snap_ok t := Forall entry_ok (inorder t) /\ Forall (fun e => ser_ok (ser_canon e.2)) (inorder t) /\ snapshot_size (inorder t) < M64
}.
Next Obligation.
  intros ndebug t Ht (Ho & Hc & Hlt). exists (inorder t). split_and!; [by apply make_snapshot_inorder | done | done | apply KvHandle.sorted_NoDup, Ht | done].
Qed.

End laws.

(** ** Properties *)

Section properties.
Context {V : Type} `{SL : MapSerialLaws V}.
Implicit Types (t : Map V).

(** C31. On a map that meets its invariant, [put] fails no assertion, keeps the
    invariant (keys in order, no red node with a red child, equally many black
    nodes on every path, exact caches) and implements insertion into a finite
    map: [get] looks up in it, [foreach] visits its entries in the order of the
    keys, [size] and [get_serialized_size] count them modulo 2^64. *)
Theorem rb_put_refines k v t : map_ok t ->
  exists t', put k v t = Ok t' /\ map_ok t' /\ model t' = <[k := v]> (model t) /\
    (forall k', getp k' t' = model t' !! k') /\
    (forall A (f : K -> V -> A -> A * bool) a, foreach f t' a = visit f (KvHandle.map_put k v (inorder t)) a) /\
    size t' = wrap64 (Z.of_nat (base.size (model t'))) /\
    get_serialized_size t' = wrap64 (snapshot_size (KvHandle.map_put k v (inorder t))).
Proof.
  intros Ht. destruct (rb_put_ok k v t Ht) as (t' & E & Ht' & Hi). exists t'. rewrite <- Hi.
  split_and!; [done | done | unfold model; by rewrite Hi, KvHandle.map_put_map | | | by apply size_model |].
  - intros k'. by apply getp_model.
  - intros A f a. apply foreach_visit.
  - apply (sized_counts t'), Ht'.
Qed.

(** The depth of a red-black map is at most twice the logarithm of the
    number of its entries, so every search and insertion takes logarithmically
    many steps. *)
Theorem rb_height_log t : map_ok t -> height t <= 2 * Z.log2 (zlen (inorder t) + 1).
Proof.
  intros (_ & _ & Hr & n & Hn). destruct (is_rb_height t n Hn) as [H1 H2]. rewrite Hr in H1.
  apply Z.log2_le_pow2 in H2; lia.
Qed.

(** A snapshot of a map with entries below 4 GiB fills its buffer exactly,
    whether or not assertions are compiled in, and [deserialize_map] reads back
    the same map, except for what the format drops of a value. *)
Theorem rb_snapshot_roundtrip ndebug t : map_ok t -> Forall entry_ok (inorder t) ->
  Forall (fun e => ser_ok (ser_canon e.2)) (inorder t) -> snapshot_size (inorder t) < M64 ->
  exists bytes t', make_snapshot ndebug t = Ok bytes /\ zlen bytes = get_serialized_size t /\
    deserialize_map bytes = Some (Ok t') /\ map_ok t' /\ model t' = ser_canon <$> model t.
Proof.
  intros Ht Ho Hc Hlt. destruct (make_snapshot_inorder ndebug t Ht Ho Hlt) as [E Hsz].
  destruct (deserialize_snapshot (T := Map V) _ Ho Hc (KvHandle.sorted_NoDup _ (proj1 Ht))) as (t' & Et & Ht' & Hm).
  exists (snapshot_bytes (inorder t)), t'. split_and!; [done | by rewrite Hsz, length_snapshot_bytes | done..].
Qed.

End properties.

(** ** Examples *)

(** The map after a sequence of [put]s. *)
Fixpoint puts {V} `{MapSerial V} (l : list (K * V)) (t : Map V) : result (Map V) :=
  match l with [] => Ok t | (k, v) :: l => t ← put k v t; puts l t end.

Lemma puts_ok {V} `{MapSerial V} l : forall t : Map V, map_ok t -> exists t', puts l t = Ok t' /\ map_ok t'.
Proof.
  induction l as [|[k v] l IH]; intros t Ht; cbn [puts]; [by exists t|].
  destruct (rb_put_ok k v t Ht) as (t' & -> & Ht' & _). by apply IH.
Qed.

Definition sample_entry (k : Z) : K * KvHandle.VersionV := ([k], KvHandle.mkVersionV k 0 [k; k; k]).
Definition sample_map : Map KvHandle.VersionV :=
  match puts (sample_entry <$> [5; 1; 4; 2; 3; 9; 7; 8; 6]) Empty with Ok t => t | _ => Empty end.

Lemma sample_map_ok : map_ok sample_map.
Proof.
  unfold sample_map. destruct (puts_ok (sample_entry <$> [5; 1; 4; 2; 3; 9; 7; 8; 6]) Empty map_ok_empty) as (t & -> & Ht).
  done.
Qed.

Lemma sample_inorder : inorder sample_map = sample_entry <$> [1; 2; 3; 4; 5; 6; 7; 8; 9].
Proof. reflexivity. Qed.

Lemma rb_put_refines_witness : exists t', put [4] (KvHandle.mkVersionV (-6) 0 []) sample_map = Ok t' /\
  map_ok t' /\ getp [4] t' = Some (KvHandle.mkVersionV (-6) 0 []) /\ getp [9] t' = Some (snd (sample_entry 9)).
Proof.
  destruct (rb_put_refines [4] (KvHandle.mkVersionV (-6) 0 []) sample_map sample_map_ok) as (t' & E & Hok & Hm & Hg & _).
  exists t'. rewrite !Hg, Hm. split_and!; [exact E | exact Hok | reflexivity | reflexivity].
Defined.

Lemma rb_height_log_witness : height sample_map = 4 /\ 4 <= 2 * Z.log2 (zlen (inorder sample_map) + 1).
Proof. split; [reflexivity | exact (rb_height_log sample_map sample_map_ok)]. Defined.

Lemma rb_snapshot_roundtrip_witness : exists bytes t', make_snapshot false sample_map = Ok bytes /\
  zlen bytes = 360 /\ deserialize_map (T := Map KvHandle.VersionV) bytes = Some (Ok t') /\ model t' = model sample_map.
Proof.
  destruct (rb_snapshot_roundtrip false sample_map sample_map_ok) as (bytes & t' & E & Hl & Ed & _ & Hm).
  - rewrite sample_inorder. repeat constructor; vm_compute; congruence.
  - rewrite sample_inorder. repeat constructor; vm_compute; congruence.
  - reflexivity.
  - exists bytes, t'. split_and!; [exact E | rewrite Hl; reflexivity | exact Ed | rewrite Hm; reflexivity].
Defined.

End RbMap.
