(* ===== verification/ChampMap.v ===== *)
(** * The CHAMP map

    Model of CCF/src/ds/champ_map.h, the persistent hash map that holds the
    state of every table in the default build, and of its snapshot.

    A node is a [std::shared_ptr<void>] in the source: whether it points to an
    entry, to further nodes or to a collision node follows from two bitmaps and
    the depth, and the code casts accordingly.  Here a node is a tagged value
    and a cast to another type, like an index outside of a vector, is [Undef];
    that no cast goes wrong is part of [put_mut_spec] and [getp_ents].

    The recursion on the depth, which runs from 0 to [collision_depth], is a
    recursion on the levels that are left.  The hash function is a parameter:
    all theorems hold for every function into 64 bits. *)
From S2P Require Import Prelude Serialized SipHash KvHandle MapSerial.
From stdpp Require Import list gmap sorting numbers.
Local Open Scope Z_scope.

(** [__builtin_popcount] and the positions it counts. *)
Definition bits (b : Z) : list Z := filter (fun i => Z.testbit b i = true) (seqZ 0 32).

Module ChampMap.
Import Serialized MapSerial.
Abbreviation K := KvHandle.K.

Definition index_mask_bits : Z := 5.
Definition index_mask : Z := Z.shiftl 1 index_mask_bits - 1.
Definition collision_depth : Z := 32 / index_mask_bits.
Definition collision_bins : Z := Z.shiftl 1 (32 mod index_mask_bits).
(** [(SmallIndex)-1] *)
Definition no_index : Z := 255.

Definition mask (hash depth : Z) : Z := wrap8 (Z.land (Z.shiftr hash (depth * index_mask_bits)) index_mask).

(** ** Bitmap *)
Definition pop (b : Z) : Z := zlen (bits b).
Definition set (b idx : Z) : Z := Z.lor b (wrap32 (Z.shiftl 1 idx)).
Definition clear (b idx : Z) : Z := Z.land b (M32 - 1 - wrap32 (Z.shiftl 1 idx)).
Definition check (b idx : Z) : bool := negb (Z.land b (wrap32 (Z.shiftl 1 idx)) =? 0).

Definition compressed_idx (node_map data_map idx : Z) : Z :=
  if negb (check node_map idx) && negb (check data_map idx) then no_index
  else
    let mask := M32 - 1 - wrap32 (Z.shiftl (M32 - 1) idx) in
    if check data_map idx then pop (Z.land data_map mask)
    else wrap8 (pop data_map + pop (Z.land node_map mask)).

(** ** Vectors *)

(** [v.insert(v.begin() + i, x)] and [v.erase(v.begin() + i)]. *)
Definition vec_insert {A} (i : Z) (x : A) (l : list A) : result (list A) :=
  if zlen l <? i then Undef else Ok (ztake i l ++ x :: zdrop i l).
Definition vec_erase {A} (i : Z) (l : list A) : result (list A) :=
  if zlen l <=? i then Undef else Ok (ztake i l ++ zdrop (i + 1) l).
Definition vec_at {A} (i : Z) (l : list A) : option A := l !! Z.to_nat i.
Definition vec_set {A} (i : Z) (x : A) (l : list A) : list A := <[Z.to_nat i := x]> l.

(** ** Nodes *)

Inductive node (V : Type) :=
  | Entry (key : K) (value : V)
  | Collisions (bins : list (list (K * V)))
  | SubNodes (nodes : list (node V)) (node_map data_map : Z).
Arguments Entry {V} _ _.
Arguments Collisions {V} _.
Arguments SubNodes {V} _ _ _.

Section ops.
Context {V : Type} `{MS : MapSerial V} (H : K -> Z).

(** [Hash] is a [uint32_t]. *)
Definition hash_of (k : K) : Z := wrap32 (H k).

(** *** Collisions *)

Definition bin_getp (k : K) (bin : list (K * V)) : option V := KvHandle.map_find k bin.

Definition coll_getp (hash : Z) (k : K) (bins : list (list (K * V))) : result (option V) :=
  match vec_at (mask hash collision_depth) bins with
  | None => Undef
  | Some bin => Ok (bin_getp k bin)
  end.

(** The new bin, and whether the key was there. *)
Fixpoint bin_put (k : K) (v : V) (bin : list (K * V)) : list (K * V) * bool :=
  match bin with
  | [] => ([(k, v)], false)
  | (k', v') :: bin' =>
      if bool_decide (k = k') then ((k, v) :: bin', true)
      else let '(b, found) := bin_put k v bin' in ((k', v') :: b, found)
  end.

(** The size returned for a key that was there is that of the new value, and
    without padding. *)
Definition coll_put_mut (hash : Z) (k : K) (v : V) (bins : list (list (K * V))) :
  result (list (list (K * V)) * Z) :=
  let idx := mask hash collision_depth in
  match vec_at idx bins with
  | None => Undef
  | Some bin =>
      let '(bin, found) := bin_put k v bin in
      Ok (vec_set idx bin bins, if found then wrap64 (get_size k + get_size v) else 0)
  end.

Fixpoint bin_remove (k : K) (bin : list (K * V)) : list (K * V) * Z :=
  match bin with
  | [] => ([], 0)
  | (k', v') :: bin' =>
      if bool_decide (k = k') then (bin', wrap64 (get_size k' + get_size v'))
      else let '(b, diff) := bin_remove k bin' in ((k', v') :: b, diff)
  end.

Definition coll_remove_mut (hash : Z) (k : K) (bins : list (list (K * V))) :
  result (list (list (K * V)) * Z) :=
  let idx := mask hash collision_depth in
  match vec_at idx bins with
  | None => Undef
  | Some bin => let '(bin, diff) := bin_remove k bin in Ok (vec_set idx bin bins, diff)
  end.

(** [bins[idx].push_back(e)] *)
Definition push_bin (idx : Z) (e : K * V) (bins : list (list (K * V))) : result (list (list (K * V))) :=
  match vec_at idx bins with
  | None => Undef
  | Some bin => Ok (vec_set idx (bin ++ [e]) bins)
  end.

Section loops.
Context {A : Type} (f : K -> V -> A -> A * bool).

(** A loop over nodes that stops when the visitor says so. *)
Fixpoint visit_nodes (g : node V -> A -> result (A * bool)) (l : list (node V)) (a : A) : result (A * bool) :=
  match l with
  | [] => Ok (a, true)
  | n :: l => '(a, go) ← g n a; if negb go then Ok (a, false) else visit_nodes g l a
  end.

Fixpoint visit_bin (bin : list (K * V)) (a : A) : A * bool :=
  match bin with
  | [] => (a, true)
  | (k, v) :: bin => let '(a, go) := f k v a in if negb go then (a, false) else visit_bin bin a
  end.

Fixpoint coll_foreach (bins : list (list (K * V))) (a : A) : A * bool :=
  match bins with
  | [] => (a, true)
  | bin :: bins => let '(a, go) := visit_bin bin a in if negb go then (a, false) else coll_foreach bins a
  end.

Definition visit_entry (n : node V) (a : A) : result (A * bool) :=
  match n with Entry k v => Ok (f k v a) | _ => Undef end.

End loops.

(** *** SubNodes

    [levels] is [collision_depth - depth]: at level 0 a node is cast to
    [Collisions], above to [SubNodes]. *)
Definition depth_of (levels : nat) : Z := collision_depth - Z.of_nat levels.

Fixpoint getp (levels : nat) (hash : Z) (k : K) (n : node V) : result (option V) :=
  match levels, n with
  | O, Collisions bins => coll_getp hash k bins
  | S below, SubNodes nodes node_map data_map =>
      let idx := mask hash (depth_of levels) in
      let c_idx := compressed_idx node_map data_map idx in
      if c_idx =? no_index then Ok None
      else if check data_map idx then
        match vec_at c_idx nodes with
        | Some (Entry key value) => Ok (if bool_decide (k = key) then Some value else None)
        | _ => Undef
        end
      else
        match vec_at c_idx nodes with
        | Some child => getp below hash k child
        | None => Undef
        end
  | _, _ => Undef
  end.

Definition entry_sizes (k : K) (v : V) : Z := wrap64 (get_size_with_padding k + get_size_with_padding v).

(** Replace the entry at [c_idx] by a node below it. *)
Definition push_down (idx c_idx : Z) (sub_node : node V) (nodes : list (node V)) (node_map data_map : Z) :
  result (node V) :=
  nodes ← vec_erase c_idx nodes;
  let data_map := clear data_map idx in
  let node_map := set node_map idx in
  nodes ← vec_insert (compressed_idx node_map data_map idx) sub_node nodes;
  Ok (SubNodes nodes node_map data_map).

(** The new node, and the size of the entry that was replaced. *)
Fixpoint put_mut (levels : nat) (hash : Z) (k : K) (v : V) (n : node V) : result (node V * Z) :=
  match levels, n with
  | O, Collisions bins => '(bins, insert) ← coll_put_mut hash k v bins; Ok (Collisions bins, insert)
  | S below, SubNodes nodes node_map data_map =>
      let depth := depth_of levels in
      let idx := mask hash depth in
      let c_idx := compressed_idx node_map data_map idx in
      if c_idx =? no_index then
        let data_map := set data_map idx in
        let c_idx := compressed_idx node_map data_map idx in
        nodes ← vec_insert c_idx (Entry k v) nodes;
        Ok (SubNodes nodes node_map data_map, 0)
      else if check node_map idx then
        match vec_at c_idx nodes with
        | Some sn =>
            '(sn, insert) ← put_mut below hash k v sn;
            Ok (SubNodes (vec_set c_idx sn nodes) node_map data_map, insert)
        | None => Undef
        end
      else
        match vec_at c_idx nodes with
        | Some (Entry key0 value0) =>
            if bool_decide (k = key0) then
              Ok (SubNodes (vec_set c_idx (Entry k v) nodes) node_map data_map, entry_sizes key0 value0)
            else
              let hash0 := hash_of key0 in
              match below with
              | S _ =>
                  let idx0 := mask hash0 (depth + 1) in
                  '(sub_node, _) ← put_mut below hash k v (SubNodes [Entry key0 value0] 0 (set 0 idx0));
                  n ← push_down idx c_idx sub_node nodes node_map data_map;
                  Ok (n, 0)
              | O =>
                  bins ← push_bin (mask hash0 collision_depth) (key0, value0)
                           (replicate (Z.to_nat collision_bins) []);
                  bins ← push_bin (mask hash collision_depth) (k, v) bins;
                  n ← push_down idx c_idx (Collisions bins) nodes node_map data_map;
                  Ok (n, 0)
              end
        | _ => Undef
        end
  | _, _ => Undef
  end.

Fixpoint remove_mut (levels : nat) (hash : Z) (k : K) (n : node V) : result (node V * Z) :=
  match levels, n with
  | O, Collisions bins => '(bins, diff) ← coll_remove_mut hash k bins; Ok (Collisions bins, diff)
  | S below, SubNodes nodes node_map data_map =>
      let idx := mask hash (depth_of levels) in
      let c_idx := compressed_idx node_map data_map idx in
      if c_idx =? no_index then Ok (n, 0)
      else if check data_map idx then
        match vec_at c_idx nodes with
        | Some (Entry key value) =>
            if negb (bool_decide (key = k)) then Ok (n, 0)
            else
              nodes ← vec_erase c_idx nodes;
              Ok (SubNodes nodes node_map (clear data_map idx), entry_sizes key value)
        | _ => Undef
        end
      else
        match vec_at c_idx nodes with
        | Some sn =>
            '(sn, diff) ← remove_mut below hash k sn;
            Ok (SubNodes (vec_set c_idx sn nodes) node_map data_map, diff)
        | None => Undef
        end
  | _, _ => Undef
  end.

Fixpoint node_foreach {A} (f : K -> V -> A -> A * bool) (levels : nat) (n : node V) (a : A) : result (A * bool) :=
  match levels, n with
  | O, Collisions bins => Ok (coll_foreach f bins a)
  | S below, SubNodes nodes node_map data_map =>
      let entries := pop data_map in
      if zlen nodes <? entries then Undef
      else
        '(a, go) ← visit_nodes (visit_entry f) (ztake entries nodes) a;
        if negb go then Ok (a, false) else visit_nodes (node_foreach f below) (zdrop entries nodes) a
  | _, _ => Undef
  end.

(** *** Map *)

Record Map := mkMap { root : node V; map_size : Z; serialized_size : Z }.

Definition Empty : Map := mkMap (SubNodes [] 0 0) 0 0.

Definition all_levels : nat := Z.to_nat collision_depth.

Definition get (key : K) (m : Map) : result (option V) := getp all_levels (hash_of key) key (root m).

Definition put (key : K) (value : V) (m : Map) : result Map :=
  '(n, r) ← put_mut all_levels (hash_of key) key value (root m);
  let size_ := if r =? 0 then wrap64 (map_size m + 1) else map_size m in
  let size_change := wrap64 (entry_sizes key value - r) in
  Ok (mkMap n size_ (wrap64 (size_change + serialized_size m))).

Definition remove (key : K) (m : Map) : result Map :=
  '(n, r) ← remove_mut all_levels (hash_of key) key (root m);
  let size_ := if 0 <? r then wrap64 (map_size m - 1) else map_size m in
  Ok (mkMap n size_ (wrap64 (serialized_size m - r))).

Definition foreach {A} (f : K -> V -> A -> A * bool) (m : Map) (a : A) : result (A * bool) :=
  node_foreach f all_levels (root m) a.

Definition empty (m : Map) : bool := map_size m =? 0.

(** *** Snapshot *)

(** [KVTuple]: a key, its hash and the value. *)
Abbreviation tuple := (K * Z * V)%type.

(** [Snapshot::serialize] into a buffer.  [std_sort] is [std::sort] by hash,
    which may order equal hashes in any way; [ndebug] compiles the assertions
    out.  The space is what the entries need, not what the buffer has. *)
Definition snapshot_serialize (std_sort : list tuple -> list tuple) (ndebug : bool) (m : Map) (w : writer) :
  result (list Z) :=
  '((ordered_state, size), _) ← foreach (fun key value '(l, size) =>
      let ks := wrap32 (get_size key) in
      let vs := wrap32 (get_size value) in
      let key_size := wrap32 (ks + get_padding ks) in
      let value_size := wrap32 (vs + get_padding vs) in
      ((l ++ [(key, hash_of key, value)], wrap64 (size + wrap32 (key_size + value_size))), true)) m ([], 0);
  let ordered_state := std_sort ordered_state in
  if negb ndebug && negb (size =? serialized_size m) then Throw LogicError
  else
    w ← serialize_entries ((fun p : tuple => (p.1.1, p.2)) <$> ordered_state) (mkWriter (buf w) (pos w) size);
    if negb ndebug && negb (space w =? 0) then Throw LogicError else Ok (buf w).

(** [std::vector<uint8_t> ret(get_serialized_size()); serialize(ret.data())]. *)
Definition make_snapshot (std_sort : list tuple -> list tuple) (ndebug : bool) (m : Map) : result (list Z) :=
  snapshot_serialize std_sort ndebug m (new_writer (serialized_size m)).

End ops.
Arguments Map V : clear implicits.

#[global] Instance champ_state {V} `{MapSerial V} (H : K -> Z) : KvState V (Map V) := {
  st_empty := Empty;
  st_get := get H;
  st_put := put H;
  st_entries m := '(l, _) ← foreach (fun k v l => (l ++ [(k, v)], true)) m []; Ok l;
  st_size := map_size;
  st_get_serialized_size := serialized_size
}.

(** ** Specification *)

(** The entries below a node, in the order in which they are visited. *)
Fixpoint ents {V} (n : node V) : list (K * V) :=
  match n with
  | Entry k v => [(k, v)]
  | Collisions bins => concat bins
  | SubNodes nodes _ _ => flat_map ents nodes
  end.

(** No collision node. *)
Fixpoint coll_free {V} (n : node V) : bool :=
  match n with
  | Entry _ _ => true
  | Collisions _ => false
  | SubNodes nodes _ _ => forallb coll_free nodes
  end.

Section spec.
Context {V : Type} `{SL : MapSerialLaws V} (H : K -> Z).
Abbreviation hash := (hash_of H).

(** Well-formed nodes with [levels] levels below them.  The bitmaps are disjoint;
    the nodes are first the entries and then the inner nodes, each in the order
    of the slots; every key below a slot has the slot in its hash. *)
Fixpoint node_ok (levels : nat) (n : node V) : Prop :=
  match levels, n with
  | O, Collisions bins =>
      length bins = 4%nat /\
      forall j bin, bins !! j = Some bin ->
        NoDup bin.*1 /\ forall e, e ∈ bin -> mask (hash e.1) collision_depth = Z.of_nat j /\ entry_ok e
  | S below, SubNodes nodes nm dm =>
      0 <= nm < M32 /\ 0 <= dm < M32 /\ Z.land nm dm = 0 /\
      exists f : Z -> node V,
        nodes = f <$> (bits dm ++ bits nm) /\
        (forall i, i ∈ bits dm -> exists e, f i = Entry e.1 e.2 /\ entry_ok e /\ mask (hash e.1) (depth_of levels) = i) /\
        (forall i, i ∈ bits nm -> node_ok below (f i) /\
                                 forall e, e ∈ ents (f i) -> mask (hash e.1) (depth_of levels) = i)
  | _, _ => False
  end.

Definition node_model (n : node V) : gmap K V := list_to_map (ents n).
Definition model (m : Map V) : gmap K V := node_model (root m).

Definition map_ok (m : Map V) : Prop :=
  node_ok all_levels (root m) /\ map_size m = wrap64 (Z.of_nat (base.size (model m))).

End spec.

(** ** Lemmas on bitmaps *)

Definition below (b i : Z) : list Z := filter (fun j => Z.testbit b j = true) (seqZ 0 i).
Definition above (b i : Z) : list Z := filter (fun j => Z.testbit b j = true) (seqZ (i + 1) (31 - i)).

Lemma elem_of_bits b i : i ∈ bits b <-> 0 <= i < 32 /\ Z.testbit b i = true.
Proof. unfold bits. rewrite list_elem_of_filter, elem_of_seqZ. lia. Qed.

Lemma NoDup_bits b : NoDup (bits b).
Proof. apply list.NoDup_filter, NoDup_seqZ. Qed.

Lemma bits_split b i : 0 <= i < 32 ->
  bits b = below b i ++ (if Z.testbit b i then [i] else []) ++ above b i.
Proof.
  intros Hi. unfold bits, below, above. replace 32 with (i + (1 + (31 - i))) at 1 by lia.
  rewrite seqZ_app, Z.add_0_l, seqZ_app by lia. rewrite !list.filter_app. do 2 f_equal.
  rewrite seqZ_cons by lia. change (seqZ (Z.succ i) (Z.pred 1)) with (@nil Z). rewrite filter_cons.
  by destruct (Z.testbit b i).
Qed.

Lemma filter_ext_seqZ b c n m : (forall i, n <= i < n + m -> Z.testbit b i = Z.testbit c i) ->
  filter (fun j => Z.testbit b j = true) (seqZ n m) = filter (fun j => Z.testbit c j = true) (seqZ n m).
Proof.
  intros Heq. assert (Hin : forall i, i ∈ seqZ n m -> Z.testbit b i = Z.testbit c i)
    by (intros i Hi%elem_of_seqZ; by apply Heq). clear Heq.
  induction (seqZ n m) as [|i l IH]; [done|]. rewrite !filter_cons, Hin by (by left).
  rewrite IH by (intros j Hj; apply Hin; by right). done.
Qed.

Lemma wrap32_shift i : 0 <= i < 32 -> wrap32 (Z.shiftl 1 i) = 2 ^ i.
Proof.
  intros Hi. unfold wrap32. rewrite Z.shiftl_1_l. apply Z.mod_small. split; [apply Z.pow_nonneg; lia|].
  unfold M32. apply Z.pow_lt_mono_r; lia.
Qed.

Lemma check_spec b i : 0 <= i < 32 -> check b i = Z.testbit b i.
Proof.
  intros Hi. unfold check. rewrite wrap32_shift by done.
  destruct (Z.testbit b i) eqn:E.
  - destruct (Z.eqb_spec (Z.land b (2 ^ i)) 0) as [Hz|]; [|done]. exfalso.
    assert (Z.testbit (Z.land b (2 ^ i)) i = false) by (rewrite Hz; apply Z.bits_0).
    rewrite Z.land_spec, E, Z.pow2_bits_true in H by lia. done.
  - rewrite (proj2 (Z.eqb_eq _ _)); [done|]. apply Z.bits_inj'. intros j Hj. rewrite Z.land_spec, Z.bits_0.
    destruct (Z.eq_dec j i) as [->|Hne]; [by rewrite E|]. rewrite Z.pow2_bits_false by lia. apply andb_false_r.
Qed.

Lemma set_spec b i j : 0 <= i < 32 -> 0 <= j -> Z.testbit (set b i) j = (if j =? i then true else Z.testbit b j).
Proof.
  intros Hi Hj. unfold set. rewrite wrap32_shift, Z.lor_spec by done. destruct (Z.eqb_spec j i) as [->|Hne].
  - rewrite Z.pow2_bits_true by lia. apply orb_true_r.
  - rewrite Z.pow2_bits_false by lia. apply orb_false_r.
Qed.

Lemma low_mask i : 0 <= i < 32 -> M32 - 1 - wrap32 (Z.shiftl (M32 - 1) i) = Z.ones i.
Proof.
  intros Hi. unfold wrap32. rewrite Z.shiftl_mul_pow2, Z.ones_equiv by lia.
  assert (Hp : 0 < 2 ^ i) by (apply Z.pow_pos_nonneg; lia).
  assert (H2 : 2 ^ i < M32) by (unfold M32; apply Z.pow_lt_mono_r; lia).
  replace ((M32 - 1) * 2 ^ i) with (M32 - 2 ^ i + (2 ^ i - 1) * M32) by lia.
  rewrite Z.mod_add, Z.mod_small by lia. lia.
Qed.

Lemma clear_spec b i j : 0 <= i < 32 -> 0 <= b < M32 -> 0 <= j ->
  Z.testbit (clear b i) j = (if j =? i then false else Z.testbit b j).
Proof.
  intros Hi Hb Hj. unfold clear. rewrite wrap32_shift, Z.land_spec by done.
  replace (M32 - 1 - 2 ^ i) with (Z.ldiff (Z.ones 32) (2 ^ i)).
  - rewrite Z.ldiff_spec. destruct (Z.eqb_spec j i) as [->|Hne].
    + rewrite Z.pow2_bits_true by lia. by rewrite !andb_false_r.
    + rewrite Z.pow2_bits_false, andb_true_r by lia. destruct (Z.lt_ge_cases j 32).
      * rewrite Z.ones_spec_low by lia. apply andb_true_r.
      * apply (pow2_bound_testbit b 32 ltac:(lia)) in Hb as [_ Hb]. by rewrite Hb.
  - rewrite <- Z.sub_nocarry_ldiff, Z.ones_equiv; [done|]. apply Z.bits_inj'. intros n Hn.
    rewrite Z.ldiff_spec, Z.bits_0. destruct (Z.eq_dec n i) as [->|].
    + rewrite Z.ones_spec_low by lia. apply andb_false_r.
    + rewrite Z.pow2_bits_false by lia. done.
Qed.

Lemma set_bound b i : 0 <= i < 32 -> 0 <= b < M32 -> 0 <= set b i < M32.
Proof.
  intros Hi Hb. unfold set. rewrite wrap32_shift by done. apply lor_bound; [lia|done|].
  split; [apply Z.pow_nonneg; lia | apply Z.pow_lt_mono_r; lia].
Qed.

Lemma clear_bound b i : 0 <= i < 32 -> 0 <= b < M32 -> 0 <= clear b i < M32.
Proof.
  intros Hi Hb. unfold clear. rewrite wrap32_shift by done. apply land_bound; [lia | done |].
  assert (2 ^ i < M32) by (apply Z.pow_lt_mono_r; lia). lia.
Qed.

Lemma below_ext b c i : (forall j, 0 <= j < i -> Z.testbit b j = Z.testbit c j) -> below b i = below c i.
Proof. intros Heq. apply filter_ext_seqZ. intros j Hj. apply Heq. lia. Qed.
Lemma above_ext b c i : (forall j, i < j < 32 -> Z.testbit b j = Z.testbit c j) -> above b i = above c i.
Proof. intros Heq. apply filter_ext_seqZ. intros j Hj. apply Heq. lia. Qed.
Lemma bits_ext b c : (forall j, 0 <= j < 32 -> Z.testbit b j = Z.testbit c j) -> bits b = bits c.
Proof. intros Heq. apply filter_ext_seqZ. intros j Hj. apply Heq. lia. Qed.

Lemma elem_of_below b i j : j ∈ below b i -> j < i.
Proof. unfold below. rewrite list_elem_of_filter, elem_of_seqZ. lia. Qed.
Lemma elem_of_above b i j : j ∈ above b i -> i < j.
Proof. unfold above. rewrite list_elem_of_filter, elem_of_seqZ. lia. Qed.

Lemma length_bits b : zlen (bits b) <= 32.
Proof.
  unfold bits. assert (Hl : (length (filter (fun i => Z.testbit b i = true) (seqZ 0 32)) <= length (seqZ 0 32))%nat)
    by apply length_filter. change (length (seqZ 0 32)) with 32%nat in Hl. lia.
Qed.

Lemma pop_below b i : 0 <= i < 32 -> pop (Z.land b (Z.ones i)) = zlen (below b i).
Proof.
  intros Hi. unfold pop. rewrite (bits_split _ i) by done.
  assert (Hlow : forall j, 0 <= j < i -> Z.testbit (Z.land b (Z.ones i)) j = Z.testbit b j)
    by (intros j Hj; rewrite Z.land_spec, Z.ones_spec_low by lia; apply andb_true_r).
  assert (Hhigh : forall j, i <= j -> Z.testbit (Z.land b (Z.ones i)) j = Z.testbit 0 j)
    by (intros j Hj; rewrite Z.land_spec, Z.ones_spec_high, Z.bits_0 by lia; apply andb_false_r).
  rewrite (below_ext _ b), (above_ext _ 0), (Hhigh i) by (done || (intros j Hj; apply Hhigh; lia) || lia).
  rewrite Z.bits_0. assert (Habove : above 0 i = []).
  { destruct (above 0 i) as [|j l] eqn:E; [done|]. exfalso. assert (Hj : j ∈ above 0 i) by (rewrite E; left).
    unfold above in Hj. rewrite list_elem_of_filter, Z.bits_0 in Hj. naive_solver. }
  rewrite Habove. cbn. by rewrite app_nil_r.
Qed.

Definition occupied (nm dm i : Z) : bool := Z.testbit dm i || Z.testbit nm i.

Lemma disjoint_bits nm dm j : Z.land nm dm = 0 -> Z.testbit nm j = true -> Z.testbit dm j = false.
Proof.
  intros Hd Hn. destruct (Z.testbit dm j) eqn:E; [|done].
  assert (Hc : Z.testbit (Z.land nm dm) j = true) by (by rewrite Z.land_spec, Hn, E). by rewrite Hd, Z.bits_0 in Hc.
Qed.

Lemma compressed_none nm dm i : 0 <= i < 32 -> occupied nm dm i = false -> compressed_idx nm dm i = no_index.
Proof.
  unfold occupied, compressed_idx. intros Hi [E1 E2]%orb_false_iff. rewrite !check_spec by done. by rewrite E1, E2.
Qed.

(** The nodes around an occupied slot, and the compressed index as its
    position. *)
Lemma slot_split nm dm i : 0 <= i < 32 -> 0 <= nm < M32 -> 0 <= dm < M32 -> Z.land nm dm = 0 ->
  occupied nm dm i = true ->
  exists l r, bits dm ++ bits nm = l ++ i :: r /\ bits (clear dm i) ++ bits (clear nm i) = l ++ r /\
    compressed_idx nm dm i = zlen l /\ zlen l <> no_index /\ (i ∉ l) /\ (i ∉ r).
Proof.
  intros Hi Hn Hd Hdis Ho. unfold compressed_idx. rewrite !check_spec, low_mask, !pop_below by done.
  assert (Hnin : forall b, (i ∉ below b i) /\ (i ∉ above b i)).
  { intros b. split; intros Hin; [apply elem_of_below in Hin | apply elem_of_above in Hin]; lia. }
  assert (Hclr : forall b, 0 <= b < M32 -> bits (clear b i) = below b i ++ above b i).
  { intros b Hb. rewrite (bits_split _ i) by done. rewrite clear_spec, Z.eqb_refl by (done || lia).
    rewrite (below_ext _ b), (above_ext _ b); [done|..]; intros j Hj; rewrite clear_spec by (done || lia);
      destruct (Z.eqb_spec j i); [lia|done|lia|done]. }
  pose proof (length_bits nm) as L1. pose proof (length_bits dm) as L2. unfold no_index.
  destruct (Z.testbit dm i) eqn:E; cbn [negb andb] in *.
  - assert (E' : Z.testbit nm i = false).
    { destruct (Z.testbit nm i) eqn:E'; [|done]. by rewrite (disjoint_bits nm dm i Hdis E') in E. }
    assert (Hnm : bits (clear nm i) = bits nm) by (rewrite Hclr, (bits_split nm i), E' by done; done).
    rewrite (bits_split dm i), E in L2 |- * by done. cbn [app] in *. rewrite length_app in L2.
    exists (below dm i), (above dm i ++ bits nm). rewrite E', Hclr, Hnm, <- !app_assoc by done. cbn.
    split_and!; [done | done | done | lia | apply Hnin |]. rewrite elem_of_app, elem_of_bits, E'. naive_solver.
  - unfold occupied in Ho. rewrite E in Ho. cbn [orb] in Ho. rewrite Ho. cbn [negb andb].
    assert (Hdm : bits (clear dm i) = bits dm) by (rewrite Hclr, (bits_split dm i), E by done; done).
    rewrite (bits_split nm i), Ho in L1 |- * by done. cbn [app] in *. rewrite length_app in L1.
    exists (bits dm ++ below nm i), (above nm i). rewrite Hdm, Hclr, <- !app_assoc, length_app by done. unfold pop.
    split_and!; [done | done | | lia | | apply Hnin].
    + unfold wrap8. rewrite Z.mod_small; unfold M8; lia.
    + rewrite elem_of_app, elem_of_bits, E. pose proof (Hnin nm). naive_solver.
Qed.

(** *** Vectors of nodes *)

(** [f] changed at one slot. *)
Definition upd {A} (f : Z -> A) (i : Z) (x : A) (j : Z) : A := if j =? i then x else f j.

Section vectors.
Context {A : Type} (f : Z -> A) (l r : list Z) (i : Z).
Hypothesis (Hl : i ∉ l) (Hr : i ∉ r).

Lemma fmap_upd x (k : list Z) : i ∉ k -> upd f i x <$> k = f <$> k.
Proof.
  clear Hl Hr. intros Hk. induction k as [|j k IH]; [done|]. cbn. apply not_elem_of_cons in Hk as [Hj Hk].
  rewrite IH by done. unfold upd. destruct (Z.eqb_spec j i); [by subst | done].
Qed.

Lemma vec_at_slot : vec_at (zlen l) (f <$> l ++ i :: r) = Some (f i).
Proof. unfold vec_at. rewrite Nat2Z.id, list_lookup_fmap, lookup_app_r, Nat.sub_diag by lia. done. Qed.

Lemma vec_set_slot x : vec_set (zlen l) x (f <$> l ++ i :: r) = upd f i x <$> l ++ i :: r.
Proof.
  unfold vec_set. rewrite Nat2Z.id, !fmap_app, insert_app_r_alt by (by rewrite length_fmap).
  rewrite length_fmap, Nat.sub_diag, fmap_upd by done. cbn. rewrite fmap_upd by done. unfold upd.
  by rewrite Z.eqb_refl.
Qed.

Lemma vec_erase_slot : vec_erase (zlen l) (f <$> l ++ i :: r) = Ok (f <$> l ++ r).
Proof.
  unfold vec_erase, ztake, zdrop. rewrite length_fmap, length_app. cbn [length].
  destruct (Z.leb_spec (Z.of_nat (length l + S (length r))) (zlen l)); [lia|].
  replace (Z.to_nat (zlen l + 1)) with (length l + 1)%nat by lia. rewrite Nat2Z.id, !fmap_app.
  rewrite take_app_length' by (by rewrite length_fmap). rewrite drop_app_ge by (rewrite length_fmap; lia).
  rewrite length_fmap. by replace (length l + 1 - length l)%nat with 1%nat by lia.
Qed.

Lemma vec_insert_slot x : vec_insert (zlen l) x (f <$> l ++ r) = Ok (upd f i x <$> l ++ i :: r).
Proof.
  unfold vec_insert, ztake, zdrop. rewrite length_fmap, length_app.
  destruct (Z.ltb_spec (Z.of_nat (length l + length r)) (zlen l)); [lia|]. rewrite Nat2Z.id, !fmap_app.
  rewrite take_app_length', drop_app_length' by (by rewrite length_fmap). cbn.
  rewrite !fmap_upd by done. unfold upd. by rewrite Z.eqb_refl.
Qed.

End vectors.

(** *** Entries by slot *)

Section slots.
Context {V : Type} (slot : K -> Z) (g : Z -> list (K * V)).
Implicit Types (l : list Z).

Definition slotted l : Prop := forall i, i ∈ l -> NoDup (g i).*1 /\ forall e, e ∈ g i -> slot e.1 = i.

Lemma slotted_cons i l : slotted (i :: l) -> slotted l.
Proof. intros Hs j Hj. apply Hs. by right. Qed.

Lemma slots_elem l e : e ∈ concat (g <$> l) -> exists i, i ∈ l /\ e ∈ g i.
Proof.
  induction l as [|i l IH]; cbn; [by intros ?%elem_of_nil|]. intros [He|He]%elem_of_app.
  - exists i. split; [by left | done].
  - destruct (IH He) as (j & Hj & Hg). exists j. split; [by right | done].
Qed.

Lemma slots_NoDup l : NoDup l -> slotted l -> NoDup (concat (g <$> l)).*1.
Proof.
  induction l as [|i l IH]; intros Hn Hs; cbn; [constructor|]. apply list.NoDup_cons in Hn as [Hi Hn].
  rewrite fmap_app. apply list.NoDup_app. split_and!; [apply Hs; by left | | apply IH; [done | by eapply slotted_cons]].
  intros k (e & -> & He)%list_elem_of_fmap (e' & Hk & (j & Hj & He')%slots_elem)%list_elem_of_fmap.
  assert (Ei : slot e.1 = i) by (apply (Hs i); [by left | done]).
  assert (Ej : slot e'.1 = j) by (apply (Hs j); [by right | done]). rewrite Hk in Ei. congruence.
Qed.

Lemma slots_lookup l k : NoDup l -> slotted l ->
  (list_to_map (concat (g <$> l)) : gmap K V) !! k =
    if bool_decide (slot k ∈ l) then (list_to_map (g (slot k)) : gmap K V) !! k else None.
Proof.
  assert (Hno : forall i, (forall e, e ∈ g i -> slot e.1 = i) -> slot k <> i -> (list_to_map (g i) : gmap K V) !! k = None).
  { intros i Hi Hne. apply not_elem_of_list_to_map_1. intros (e & -> & He)%list_elem_of_fmap. by rewrite (Hi e He) in Hne. }
  induction l as [|i l IH]; intros Hn Hs; cbn; [done|]. apply list.NoDup_cons in Hn as [Hi Hn].
  rewrite list_to_map_app, lookup_union, IH by (done || by eapply slotted_cons).
  destruct (decide (slot k = i)) as [<-|Hne].
  - rewrite bool_decide_eq_false_2, bool_decide_eq_true_2 by (done || by left). by rewrite (right_id _ _).
  - rewrite Hno, (left_id _ _) by (done || (apply Hs; by left)).
    destruct (decide (slot k ∈ l)) as [Hl|Hl].
    + by rewrite !bool_decide_eq_true_2 by (done || by right).
    + rewrite !bool_decide_eq_false_2; [done | | done]. by intros [?|?]%elem_of_cons.
Qed.

End slots.

Lemma mask_range h d : 0 <= mask h d < 32.
Proof.
  unfold mask, wrap8. change index_mask with (Z.ones 5). rewrite Z.land_ones by lia.
  pose proof (Z.mod_pos_bound (Z.shiftr h (d * index_mask_bits)) (2 ^ 5) ltac:(lia)).
  rewrite Z.mod_small; unfold M8; lia.
Qed.

(** The last level has the two bits that are left. *)
Lemma mask_last h : 0 <= h < M32 -> 0 <= mask h collision_depth < 4.
Proof.
  intros Hh. pose proof (mask_range h collision_depth) as [Hr _]. split; [done|]. unfold mask, wrap8.
  change (collision_depth * index_mask_bits) with 30. rewrite Z.shiftr_div_pow2 by lia.
  assert (0 <= h / 2 ^ 30 < 4) by (split; [apply Z.div_pos; lia | apply Z.div_lt_upper_bound; unfold M32 in Hh; lia]).
  assert (Z.land (h / 2 ^ 30) index_mask = h / 2 ^ 30) as ->.
  { change index_mask with (Z.ones 5). rewrite Z.land_ones by lia. apply Z.mod_small. lia. }
  rewrite Z.mod_small; unfold M8; lia.
Qed.

Section lookup.
Context {V : Type} `{SL : MapSerialLaws V} (H : K -> Z).
Abbreviation hash := (hash_of H).

Lemma hash_range k : 0 <= hash k < M32.
Proof. apply Z.mod_pos_bound. done. Qed.

Lemma flat_map_fmap (f : Z -> node V) l : flat_map ents (f <$> l) = concat ((fun i => ents (f i)) <$> l).
Proof. induction l as [|i l IH]; cbn; [done|]. by rewrite IH. Qed.

Lemma NoDup_slots nm dm : Z.land nm dm = 0 -> NoDup (bits dm ++ bits nm).
Proof.
  intros Hd. apply list.NoDup_app. split_and!; [apply NoDup_bits | | apply NoDup_bits].
  intros i [_ Hi]%elem_of_bits [_ Hj]%elem_of_bits. by rewrite (disjoint_bits nm dm i Hd Hj) in Hi.
Qed.

Lemma elem_of_slots nm dm i : 0 <= i < 32 -> (i ∈ bits dm ++ bits nm <-> occupied nm dm i = true).
Proof. intros Hi. unfold occupied. rewrite elem_of_app, !elem_of_bits, orb_true_iff. naive_solver. Qed.

Lemma NoDup_bins : NoDup [0; 1; 2; 3].
Proof. repeat constructor; rewrite ?elem_of_cons, elem_of_nil; lia. Qed.

(** The bins of a collision node as slots. *)
Lemma concat_bins (bins : list (list (K * V))) : length bins = 4%nat ->
  concat bins = concat ((fun i => default [] (vec_at i bins)) <$> [0; 1; 2; 3]).
Proof. destruct bins as [|b0 [|b1 [|b2 [|b3 []]]]]; try done. Qed.

(** Every level: the keys are distinct and a search ends at its slot. *)
Lemma coll_slotted bins : node_ok (V := V) H 0 (Collisions bins) ->
  slotted (fun k => mask (hash k) collision_depth) (fun i => default [] (vec_at i bins)) [0; 1; 2; 3].
Proof.
  intros [Hlen Hb] i Hi. rewrite !elem_of_cons, elem_of_nil in Hi. assert (0 <= i < 4) by lia. unfold vec_at.
  destruct (bins !! Z.to_nat i) as [bin|] eqn:E; cbn; [|split; [constructor | by intros e ?%elem_of_nil]].
  destruct (Hb _ _ E) as [Hn He]. split; [done|]. intros e He'. rewrite (proj1 (He e He')). lia.
Qed.

(** A slot function [f] that describes the nodes of a [SubNodes]. *)
Definition slot_ok (levels : nat) (nm dm i : Z) (c : node V) : Prop :=
  (Z.testbit dm i = true -> exists e, c = Entry e.1 e.2 /\ entry_ok e) /\
  (Z.testbit nm i = true -> node_ok H levels c) /\
  (forall e, e ∈ ents c -> mask (hash e.1) (depth_of (S levels)) = i).
Definition sub_ok (levels : nat) (nm dm : Z) (f : Z -> node V) : Prop :=
  0 <= nm < M32 /\ 0 <= dm < M32 /\ Z.land nm dm = 0 /\
  forall i, 0 <= i < 32 -> occupied nm dm i = true -> slot_ok levels nm dm i (f i).

Lemma node_ok_sub levels n : node_ok H (S levels) n <->
  exists nm dm f, n = SubNodes (f <$> (bits dm ++ bits nm)) nm dm /\ sub_ok levels nm dm f.
Proof.
  split.
  - destruct n as [| |nodes nm dm]; cbn [node_ok]; [done..|]. intros (Hn & Hd & Hdis & f & -> & Hdata & Hnode).
    exists nm, dm, f. split; [done|]. split_and!; [lia..|done|]. intros i Hi Ho. unfold slot_ok.
    destruct (Z.testbit dm i) eqn:Ed.
    + assert (En : Z.testbit nm i = false).
      { destruct (Z.testbit nm i) eqn:E; [|done]. by rewrite (disjoint_bits _ _ _ Hdis E) in Ed. }
      destruct (Hdata i) as (e & He & Hok & Hm); [by apply elem_of_bits|]. rewrite En.
      split_and!; [naive_solver | done |]. rewrite He. intros e' ->%list_elem_of_singleton. done.
    + unfold occupied in Ho. rewrite Ed in Ho. cbn in Ho. destruct (Hnode i) as [H1 H2]; [by apply elem_of_bits|].
      split_and!; [done | done | done].
  - intros (nm & dm & f & -> & Hn & Hd & Hdis & Hs). cbn [node_ok]. split_and!; [lia..|done|]. exists f. split_and!; [done|..].
    + intros i [Hi Ei]%elem_of_bits. destruct (Hs i Hi) as (H1 & _ & H3); [unfold occupied; by rewrite Ei|].
      destruct (H1 Ei) as (e & He & Hok). exists e. split_and!; [done..|]. apply H3. rewrite He. destruct e; by left.
    + intros i [Hi Ei]%elem_of_bits. destruct (Hs i Hi) as (_ & H2 & H3); [unfold occupied; rewrite Ei; apply orb_true_r|].
      split; [by apply H2 | done].
Qed.

Lemma node_NoDup levels : forall n, node_ok H levels n -> NoDup (ents n).*1.
Proof.
  induction levels as [|levels IH]; intros n Hn.
  - destruct n as [|bins|]; [done| |done]. cbn [ents]. rewrite concat_bins by apply Hn.
    apply (slots_NoDup (fun k => mask (hash k) collision_depth)); [|by apply coll_slotted].
    apply NoDup_bins.
  - apply node_ok_sub in Hn as (nm & dm & f & -> & _ & _ & Hdis & Hs). cbn [ents]. rewrite flat_map_fmap.
    apply (slots_NoDup (fun k => mask (hash k) (depth_of (S levels)))); [by apply NoDup_slots|].
    intros i Hi. assert (Hr : 0 <= i < 32) by (apply elem_of_app in Hi as [Hi|Hi]; apply elem_of_bits in Hi; lia).
    apply elem_of_slots in Hi; [|done]. destruct (Hs i Hr Hi) as (H1 & H2 & H3). split; [|done].
    apply orb_true_iff in Hi as [E|E]; [|by apply IH, H2]. destruct (H1 E) as (e & -> & _). cbn. apply NoDup_singleton.
Qed.

(** The map below a node, seen from the slot of a key. *)
Lemma sub_lookup levels nm dm f k : sub_ok levels nm dm f ->
  let i := mask (hash k) (depth_of (S levels)) in
  node_model (SubNodes (f <$> (bits dm ++ bits nm)) nm dm) !! k =
    if occupied nm dm i then node_model (f i) !! k else None.
Proof.
  intros (_ & _ & Hdis & Hs) i. unfold node_model. cbn [ents]. rewrite flat_map_fmap.
  rewrite (slots_lookup (fun k => mask (hash k) (depth_of (S levels))) (fun i => ents (f i))).
  - fold i. pose proof (mask_range (hash k) (depth_of (S levels))) as Hi. fold i in Hi.
    destruct (occupied nm dm i) eqn:Eo.
    + rewrite bool_decide_eq_true_2; [done|]. by apply elem_of_slots.
    + rewrite bool_decide_eq_false_2; [done|]. rewrite elem_of_slots by done. congruence.
  - by apply NoDup_slots.
  - intros j Hj. assert (Hr : 0 <= j < 32) by (apply elem_of_app in Hj as [Hj|Hj]; apply elem_of_bits in Hj; lia).
    apply elem_of_slots in Hj; [|done]. destruct (Hs j Hr Hj) as (H1 & H2 & H3). split; [|done].
    apply orb_true_iff in Hj as [E|E]; [|by apply (node_NoDup levels), H2]. destruct (H1 E) as (e & -> & _). cbn.
    apply NoDup_singleton.
Qed.

Lemma bins_lookup bins k : node_ok H 0 (Collisions bins) ->
  let i := mask (hash k) collision_depth in
  exists bin, vec_at i bins = Some bin /\ node_model (Collisions bins) !! k = (list_to_map bin : gmap K V) !! k.
Proof.
  intros Hn i. pose proof Hn as [Hlen _]. pose proof (mask_last _ (hash_range k)) as Hi. fold i in Hi.
  destruct (lookup_lt_is_Some_2 bins (Z.to_nat i)) as [bin Eb]; [lia|]. exists bin. split; [done|].
  unfold node_model. cbn [ents]. rewrite concat_bins by done.
  rewrite (slots_lookup (fun k => mask (hash k) collision_depth)) by (apply NoDup_bins || by apply coll_slotted).
  fold i. unfold vec_at. rewrite Eb, bool_decide_eq_true_2; [done|]. rewrite !elem_of_cons. lia.
Qed.

(** A search never casts a node to a wrong type, and finds what is stored. *)
Lemma getp_ents levels : forall n k, node_ok H levels n -> getp levels (hash k) k n = Ok (node_model n !! k).
Proof.
  induction levels as [|levels IH]; intros n k Hn.
  - destruct n as [|bins|]; [done| |done]. cbn [getp]. unfold coll_getp.
    destruct (bins_lookup bins k Hn) as (bin & -> & ->). unfold bin_getp. by rewrite KvHandle.map_find_lookup.
  - apply node_ok_sub in Hn as (nm & dm & f & -> & Hs). rewrite (sub_lookup levels) by done. cbn [getp].
    pose proof (mask_range (hash k) (depth_of (S levels))) as Hi. set (i := mask (hash k) (depth_of (S levels))) in *.
    pose proof Hs as (Hn & Hd & Hdis & Hslot). destruct (occupied nm dm i) eqn:Eo.
    2: { by rewrite compressed_none. }
    destruct (slot_split nm dm i Hi Hn Hd Hdis Eo) as (l & r & EL & _ & -> & Hno & Hl & Hr).
    rewrite (proj2 (Z.eqb_neq _ _)), check_spec, EL by done. rewrite vec_at_slot.
    destruct (Hslot i Hi Eo) as (H1 & H2 & _). destruct (Z.testbit dm i) eqn:Ed.
    + destruct (H1 eq_refl) as ([k' v'] & -> & _). unfold node_model. cbn.
      case_bool_decide as E; [subst; by rewrite lookup_insert_eq | by rewrite lookup_insert_ne].
    + unfold occupied in Eo. rewrite Ed in Eo. by apply IH, H2.
Qed.

End lookup.

(** *** Updates *)

Section update.
Context {V : Type} `{SL : MapSerialLaws V} (H : K -> Z).
Abbreviation hash := (hash_of H).

Lemma elem_ents levels n e : node_ok H levels n -> (e ∈ ents n <-> node_model n !! e.1 = Some e.2).
Proof.
  intros Hn. unfold node_model. destruct e as [k v]. apply elem_of_list_to_map. by apply (node_NoDup H levels).
Qed.

Lemma vec_at_set {A} i j (x : A) l : 0 <= i < zlen l -> 0 <= j ->
  vec_at j (vec_set i x l) = if j =? i then Some x else vec_at j l.
Proof.
  intros Hi Hj. unfold vec_at, vec_set. destruct (Z.eqb_spec j i) as [->|Hne].
  - apply list_lookup_insert_eq. lia.
  - apply list_lookup_insert_ne. lia.
Qed.

(** Change one bin.  [upd_model] says what a change of the keys of one slot does
    to the whole. *)
Lemma bins_upd bins i bin : node_ok (V := V) H 0 (Collisions bins) -> 0 <= i < 4 ->
  NoDup bin.*1 -> (forall e, e ∈ bin -> mask (hash e.1) collision_depth = i /\ entry_ok e) ->
  node_ok H 0 (Collisions (vec_set i bin bins)) /\
  forall k, node_model (Collisions (vec_set i bin bins)) !! k =
    if mask (hash k) collision_depth =? i then (list_to_map bin : gmap K V) !! k else node_model (Collisions bins) !! k.
Proof.
  intros Hn Hi Hnd He. pose proof Hn as [Hlen Hb].
  assert (Hn' : node_ok H 0 (Collisions (vec_set i bin bins))).
  { split; [unfold vec_set; by rewrite length_insert|]. intros j b Ej.
    assert (Hat : vec_at (Z.of_nat j) (vec_set i bin bins) = Some b) by (unfold vec_at; by rewrite Nat2Z.id).
    rewrite vec_at_set in Hat by lia. destruct (Z.eqb_spec (Z.of_nat j) i) as [Eq|].
    - injection Hat as <-. split; [done|]. rewrite Eq. done.
    - unfold vec_at in Hat. rewrite Nat2Z.id in Hat. by apply Hb. }
  split; [done|]. intros k. destruct (bins_lookup H _ k Hn') as (b' & E' & ->).
  destruct (bins_lookup H _ k Hn) as (b & E & ->). pose proof (mask_last _ (hash_range H k)).
  rewrite vec_at_set, E in E' by lia. by destruct (_ =? i); injection E' as <-.
Qed.

Lemma bin_put_spec k v (bin : list (K * V)) : NoDup bin.*1 ->
  let '(bin', found) := bin_put k v bin in
  NoDup bin'.*1 /\ (list_to_map bin' : gmap K V) = <[k := v]> (list_to_map bin) /\
  (forall e, e ∈ bin' -> e = (k, v) \/ e ∈ bin) /\
  found = bool_decide (k ∈ bin.*1).
Proof.
  induction bin as [|[k' v'] bin IH]; cbn [bin_put]; intros Hn.
  - split_and!; [apply NoDup_singleton | done | intros e ->%list_elem_of_singleton; by left | done].
  - cbn in Hn. pose proof Hn as [Hk' Hn']%list.NoDup_cons. destruct (decide (k = k')) as [<-|Hne].
    + rewrite !bool_decide_eq_true_2 by (done || (cbn; by left)). split_and!; [done | | | done].
      * cbn. by rewrite insert_insert_eq.
      * intros e [->|?]%elem_of_cons; [by left | right; by right].
    + rewrite bool_decide_eq_false_2 by done. specialize (IH Hn'). destruct (bin_put k v bin) as [b found].
      destruct IH as (I1 & I2 & I3 & ->). split_and!.
      * cbn. apply list.NoDup_cons. split; [|done]. intros (e & -> & He)%list_elem_of_fmap.
        destruct (I3 e He) as [->|He']; [done|]. apply Hk'. apply list_elem_of_fmap. by exists e.
      * cbn. rewrite I2. by apply insert_insert_ne.
      * intros e [->|He]%elem_of_cons; [right; by left|]. destruct (I3 e He); [by left | right; by right].
      * cbn. apply bool_decide_ext. rewrite elem_of_cons. naive_solver.
Qed.

(** The size of the entry that is there for a key. *)
Definition old_size (n : node V) (k : K) : Z :=
  match node_model n !! k with Some v0 => entry_size (k, v0) | None => 0 end.

(** No key of [n] but [k] has the same bits as [k] in all levels of [n]. *)
Definition apart (levels : nat) (k : K) (n : node V) : Prop :=
  forall e, e ∈ ents n -> e.1 <> k ->
  exists j, (j < levels)%nat /\ mask (hash e.1) (depth_of (S j)) <> mask (hash k) (depth_of (S j)).

(** The result of [put_mut]; without collision nodes its size is exact. *)
Definition put_post (levels : nat) (k : K) (v : V) (n : node V) (r : result (node V * Z)) : Prop :=
  exists n' s, r = Ok (n', s) /\ node_ok H levels n' /\ node_model n' = <[k := v]> (node_model n) /\
    (s = 0 <-> node_model n !! k = None) /\
    (coll_free n = true -> apart levels k n -> coll_free n' = true /\ s = old_size n k).

Lemma wrap64_sizes k v : ser_ok k -> ser_ok v ->
  wrap64 (get_size (A := K) k + get_size (A := V) v) <> 0 /\ entry_sizes (V := V) k v = entry_size (k, v) /\
  0 < entry_size (k, v) < M64.
Proof.
  intros Hk Hv. pose proof (ser_small k Hk). pose proof (ser_small v Hv).
  pose proof (size_with_padding_pos k Hk). pose proof (size_with_padding_pos v Hv).
  unfold entry_sizes, entry_size. cbn [fst snd] in *. unfold M32, M64 in *.
  rewrite !wrap64_small by (split; unfold M64; lia). lia.
Qed.

Lemma coll_put_spec bins k v : node_ok H 0 (Collisions bins) -> entry_ok (k, v) ->
  put_post 0 k v (Collisions bins) (put_mut H 0 (hash k) k v (Collisions bins)).
Proof.
  intros Hn [Hk Hv]. cbn [fst snd] in *. cbn [put_mut]. unfold coll_put_mut.
  destruct (bins_lookup H bins k Hn) as (bin & E & Hm). rewrite E.
  pose proof (mask_last _ (hash_range H k)) as Hi. set (i := mask (hash k) collision_depth) in *.
  pose proof Hn as [Hlen Hb]. destruct (Hb (Z.to_nat i) bin E) as [Hnd He].
  pose proof (bin_put_spec k v bin Hnd) as Hp. destruct (bin_put k v bin) as [bin' found].
  destruct Hp as (P1 & P2 & P3 & ->). cbn [mbind result_bind].
  destruct (bins_upd bins i bin' Hn Hi P1) as [Hn' Hm'].
  { intros e [->|Hin]%P3; [by split|]. destruct (He e Hin) as [-> ?]. split; [lia | done]. }
  do 2 eexists. split_and!; [reflexivity | done | | | done].
  - apply map_eq. intros k'. rewrite Hm'. destruct (decide (k = k')) as [<-|Hne].
    + fold i. rewrite Z.eqb_refl, P2, !lookup_insert_eq. done.
    + rewrite lookup_insert_ne by done. destruct (Z.eqb_spec (mask (hash k') collision_depth) i) as [Ei|]; [|done].
      rewrite P2, lookup_insert_ne by done. destruct (bins_lookup H bins k' Hn) as (b & Eb & ->). rewrite Ei, E in Eb.
      by injection Eb as <-.
  - rewrite Hm, <- not_elem_of_list_to_map. destruct (wrap64_sizes k v Hk Hv) as (Hnz & _).
    case_bool_decide; by split.
Qed.

(** The bitmaps [nm'], [dm'] differ from [nm], [dm] at slot [i] only. *)
Definition maps_upd (nm dm nm' dm' i : Z) : Prop :=
  0 <= nm' < M32 /\ 0 <= dm' < M32 /\ Z.land nm' dm' = 0 /\
  forall j, 0 <= j < 32 -> j <> i -> Z.testbit nm' j = Z.testbit nm j /\ Z.testbit dm' j = Z.testbit dm j.

Lemma sub_upd levels nm dm f nm' dm' i x : sub_ok H levels nm dm f -> maps_upd nm dm nm' dm' i ->
  (occupied nm' dm' i = true -> slot_ok H levels nm' dm' i x) ->
  node_ok H (S levels) (SubNodes (upd f i x <$> (bits dm' ++ bits nm')) nm' dm') /\
  forall k, node_model (SubNodes (upd f i x <$> (bits dm' ++ bits nm')) nm' dm') !! k =
    if mask (hash k) (depth_of (S levels)) =? i then (if occupied nm' dm' i then node_model x !! k else None)
    else node_model (SubNodes (f <$> (bits dm ++ bits nm)) nm dm) !! k.
Proof.
  intros Hs (Hn' & Hd' & Hdis' & Hb) Hx.
  assert (Hs' : sub_ok H levels nm' dm' (upd f i x)).
  { split_and!; [lia..|done|]. intros j Hj Ho. unfold upd. destruct (Z.eqb_spec j i) as [->|Hne]; [by apply Hx|].
    destruct (Hb j Hj Hne) as [E1 E2]. destruct Hs as (_ & _ & _ & Hs). specialize (Hs j Hj). unfold occupied, slot_ok in *.
    rewrite E1, E2 in *. by apply Hs. }
  split; [apply node_ok_sub; by exists nm', dm', (upd f i x)|]. intros k. rewrite !(sub_lookup H levels) by done.
  pose proof (mask_range (hash k) (depth_of (S levels))) as Hj. set (j := mask _ _) in *. unfold upd.
  destruct (Z.eqb_spec j i) as [->|Hne]; [done|]. unfold occupied. by destruct (Hb j Hj Hne) as [-> ->].
Qed.

Lemma land_zero_bits a b : 0 <= a < M32 -> (forall j, 0 <= j < 32 -> Z.testbit a j && Z.testbit b j = false) -> Z.land a b = 0.
Proof.
  intros Ha Hj. apply Z.bits_inj'. intros j H0. rewrite Z.land_spec, Z.bits_0. destruct (Z.lt_ge_cases j 32); [apply Hj; lia|].
  apply (pow2_bound_testbit a 32 ltac:(lia)) in Ha as [_ Ha]. by rewrite Ha.
Qed.

(** The four ways in which an operation changes the bitmaps. *)
Section maps.
Context (nm dm i : Z) (Hi : 0 <= i < 32) (Hn : 0 <= nm < M32) (Hd : 0 <= dm < M32) (Hdis : Z.land nm dm = 0).

Lemma maps_same : maps_upd nm dm nm dm i.
Proof. by split_and!; try lia. Qed.

Lemma maps_disjoint nm' dm' : 0 <= nm' < M32 -> 0 <= dm' < M32 ->
  (forall j, 0 <= j < 32 -> j <> i -> Z.testbit nm' j = Z.testbit nm j /\ Z.testbit dm' j = Z.testbit dm j) ->
  Z.testbit nm' i && Z.testbit dm' i = false -> maps_upd nm dm nm' dm' i.
Proof.
  intros Hn' Hd' Hb Hb'. split_and!; [lia..| |done]. apply land_zero_bits; [done|]. intros j Hj.
  destruct (Z.eq_dec j i) as [->|Hne]; [done|]. destruct (Hb j Hj Hne) as [-> ->].
  destruct (Z.testbit nm j) eqn:E; [|done]. by rewrite (disjoint_bits nm dm j Hdis E).
Qed.

Lemma bit_set b : Z.testbit (set b i) i = true.
Proof. by rewrite set_spec, Z.eqb_refl by lia. Qed.
Lemma bit_clear b : 0 <= b < M32 -> Z.testbit (clear b i) i = false.
Proof. intros Hb. by rewrite clear_spec, Z.eqb_refl by lia. Qed.
Lemma bit_set_ne b j : 0 <= j -> j <> i -> Z.testbit (set b i) j = Z.testbit b j.
Proof. intros Hj Hne. rewrite set_spec by lia. by destruct (Z.eqb_spec j i). Qed.
Lemma bit_clear_ne b j : 0 <= b < M32 -> 0 <= j -> j <> i -> Z.testbit (clear b i) j = Z.testbit b j.
Proof. intros Hb Hj Hne. rewrite clear_spec by lia. by destruct (Z.eqb_spec j i). Qed.

Lemma maps_add : occupied nm dm i = false -> maps_upd nm dm nm (set dm i) i.
Proof.
  intros [_ En]%orb_false_iff. apply maps_disjoint; [done | by apply set_bound | | by rewrite En].
  intros j Hj Hne. by rewrite bit_set_ne by lia.
Qed.
Lemma maps_down : maps_upd nm dm (set nm i) (clear dm i) i.
Proof.
  apply maps_disjoint; [by apply set_bound | by apply clear_bound | | by rewrite bit_clear, andb_false_r].
  intros j Hj Hne. by rewrite bit_set_ne, bit_clear_ne by lia.
Qed.
Lemma maps_drop : maps_upd nm dm nm (clear dm i) i.
Proof.
  apply maps_disjoint; [done | by apply clear_bound | | by rewrite bit_clear, andb_false_r].
  intros j Hj Hne. by rewrite bit_clear_ne by lia.
Qed.

(** Clearing a bit that is not set, or after setting it. *)
Lemma bits_clear_unset b : 0 <= b < M32 -> Z.testbit b i = false -> bits (clear b i) = bits b.
Proof.
  intros Hb Eb. apply bits_ext. intros j Hj. destruct (Z.eq_dec j i) as [->|Hne]; [by rewrite bit_clear, Eb|].
  by rewrite bit_clear_ne by lia.
Qed.
Lemma bits_clear_set b : 0 <= b < M32 -> Z.testbit b i = false -> bits (clear (set b i) i) = bits b.
Proof.
  intros Hb Eb. pose proof (set_bound b i Hi Hb). apply bits_ext. intros j Hj.
  destruct (Z.eq_dec j i) as [->|Hne]; [by rewrite bit_clear, Eb|]. by rewrite bit_clear_ne, bit_set_ne by lia.
Qed.
Lemma bits_clear_clear b : 0 <= b < M32 -> bits (clear (clear b i) i) = bits (clear b i).
Proof. intros Hb. apply bits_clear_unset; [by apply clear_bound | by apply bit_clear]. Qed.

End maps.

(** What the vector operations of the code do to the nodes of a slot function. *)
Section vector_slots.
Context {A : Type} (f : Z -> A) (nm dm i : Z) (Hi : 0 <= i < 32) (Hn : 0 <= nm < M32) (Hd : 0 <= dm < M32)
  (Hdis : Z.land nm dm = 0).
Abbreviation nodes := (f <$> (bits dm ++ bits nm)).

Lemma at_slot : occupied nm dm i = true ->
  (compressed_idx nm dm i =? no_index) = false /\ vec_at (compressed_idx nm dm i) nodes = Some (f i) /\
  forall x, vec_set (compressed_idx nm dm i) x nodes = upd f i x <$> (bits dm ++ bits nm).
Proof.
  intros Ho. destruct (slot_split nm dm i Hi Hn Hd Hdis Ho) as (l & r & -> & _ & -> & Hno & Hl & Hr).
  split_and!; [by apply Z.eqb_neq | apply vec_at_slot |]. intros x. by apply vec_set_slot.
Qed.

Lemma add_slot x : occupied nm dm i = false ->
  vec_insert (compressed_idx nm (set dm i) i) x nodes = Ok (upd f i x <$> (bits (set dm i) ++ bits nm)).
Proof.
  intros Ho. pose proof (maps_add nm dm i Hi Hn Hd Hdis Ho) as (_ & Hd' & Hdis' & _).
  apply orb_false_iff in Ho as [Ed En].
  destruct (slot_split nm (set dm i) i) as (l & r & E1 & E2 & -> & Hno & Hl & Hr); [done..| |].
  { unfold occupied. by rewrite bit_set. }
  rewrite bits_clear_set, bits_clear_unset in E2 by done. rewrite E1, E2. by apply vec_insert_slot.
Qed.

Lemma erase_slot : Z.testbit dm i = true ->
  vec_erase (compressed_idx nm dm i) nodes = Ok (f <$> (bits (clear dm i) ++ bits nm)).
Proof.
  intros Ed. assert (En : Z.testbit nm i = false).
  { destruct (Z.testbit nm i) eqn:E; [|done]. by rewrite (disjoint_bits _ _ _ Hdis E) in Ed. }
  destruct (slot_split nm dm i) as (l & r & E1 & E2 & -> & Hno & Hl & Hr); [done..| |].
  { unfold occupied. by rewrite Ed. }
  rewrite (bits_clear_unset i Hi nm) in E2 by done. rewrite E1, E2. by apply vec_erase_slot.
Qed.

End vector_slots.

Lemma push_down_slot (f : Z -> node V) nm dm i x : 0 <= i < 32 -> 0 <= nm < M32 -> 0 <= dm < M32 -> Z.land nm dm = 0 ->
  Z.testbit dm i = true ->
  push_down i (compressed_idx nm dm i) x (f <$> (bits dm ++ bits nm)) nm dm =
  Ok (SubNodes (upd f i x <$> (bits (clear dm i) ++ bits (set nm i))) (set nm i) (clear dm i)).
Proof.
  intros Hi Hn Hd Hdis Ed. unfold push_down. rewrite erase_slot by done. cbn [mbind result_bind].
  assert (En : Z.testbit nm i = false).
  { destruct (Z.testbit nm i) eqn:E; [|done]. by rewrite (disjoint_bits _ _ _ Hdis E) in Ed. }
  destruct (maps_down nm dm i Hi Hn Hd Hdis) as (Hn' & Hd' & Hdis' & _).
  destruct (slot_split (set nm i) (clear dm i) i) as (l & r & E1 & E2 & -> & Hno & Hl & Hr); [done..| |].
  { unfold occupied. rewrite bit_set by done. apply orb_true_r. }
  rewrite bits_clear_set, bits_clear_clear in E2 by done. rewrite E1, E2, (vec_insert_slot f l r i Hl Hr). done.
Qed.

Lemma empty_sub levels : sub_ok H levels 0 0 (fun _ => SubNodes [] 0 0).
Proof. split_and!; [lia | done | lia | done | done |]. intros i _. unfold occupied. by rewrite Z.bits_0. Qed.

Lemma empty_node_ok levels : node_ok H (S levels) (SubNodes (V := V) [] 0 0).
Proof. apply node_ok_sub. exists 0, 0, (fun _ => SubNodes [] 0 0). split; [done | apply empty_sub]. Qed.

Lemma entry_slot_ok levels nm dm i k v : mask (hash k) (depth_of (S levels)) = i -> Z.testbit nm i = false ->
  entry_ok (k, v) -> slot_ok H levels nm dm i (Entry k v).
Proof.
  intros Hm En Hok. unfold slot_ok. rewrite En. split_and!; [|done|].
  - intros _. by exists (k, v).
  - cbn. by intros e ->%list_elem_of_singleton.
Qed.

(** The node made for an entry that moves down. *)
Lemma single_ok levels k v : entry_ok (k, v) ->
  let n := SubNodes [Entry k v] 0 (set 0 (mask (hash k) (depth_of (S levels)))) in
  node_ok H (S levels) n /\ node_model n = {[k := v]}.
Proof.
  intros Hok. set (i := mask (hash k) (depth_of (S levels))). pose proof (mask_range (hash k) (depth_of (S levels))) as Hi.
  fold i in Hi. cbv zeta. assert (H0 : 0 <= 0 < M32) by done.
  pose proof (maps_add 0 0 i Hi H0 H0 eq_refl ltac:(unfold occupied; by rewrite Z.bits_0)) as Hm.
  destruct (sub_upd levels 0 0 _ 0 (set 0 i) i (Entry k v) (empty_sub levels) Hm) as [Hn Hl].
  { intros _. apply entry_slot_ok; [done | apply Z.bits_0 | done]. }
  assert (E : upd (fun _ => SubNodes [] 0 0) i (Entry k v) <$> (bits (set 0 i) ++ bits 0) = [Entry k v]).
  { pose proof (add_slot (fun _ => SubNodes (V := V) [] 0 0) 0 0 i Hi H0 H0 eq_refl (Entry k v)
      ltac:(unfold occupied; by rewrite Z.bits_0)) as E. change (bits 0) with (@nil Z) in E |- *. cbn [app fmap list_fmap] in E.
    unfold vec_insert in E. destruct (_ <? _); [done|]. unfold ztake, zdrop in E. rewrite take_nil, drop_nil in E. by injection E. }
  rewrite E in Hn, Hl. split; [done|]. apply map_eq. intros k'. rewrite Hl. unfold occupied. rewrite bit_set by done.
  unfold node_model. cbn. destruct (Z.eqb_spec (mask (hash k') (depth_of (S levels))) i) as [_|Hne].
  - by rewrite insert_empty.
  - rewrite lookup_singleton_ne by (by intros <-). apply lookup_empty.
Qed.

(** The same in a collision node: [push_back] is insertion of a new key. *)
Lemma push_bin_put bins k v : node_ok H 0 (Collisions bins) -> node_model (Collisions bins) !! k = None ->
  entry_ok (k, v) -> exists bins', push_bin (mask (hash k) collision_depth) (k, v) bins = Ok bins' /\
    node_ok H 0 (Collisions bins') /\ node_model (Collisions bins') = <[k := v]> (node_model (Collisions bins)).
Proof.
  intros Hn Hk Hok. destruct (coll_put_spec bins k v Hn Hok) as (n' & s & E & Hn' & Hm & _).
  cbn [put_mut] in E. unfold coll_put_mut in E. unfold push_bin.
  destruct (bins_lookup H bins k Hn) as (bin & Eb & Hb). rewrite Eb in E |- *. rewrite Hb in Hk.
  assert (Hp : bin_put k v bin = (bin ++ [(k, v)], false)).
  { apply not_elem_of_list_to_map in Hk. clear -Hk. induction bin as [|[k' v'] bin IH]; [done|]. cbn in Hk |- *.
    apply not_elem_of_cons in Hk as [Hne Hk]. rewrite bool_decide_eq_false_2 by done. by rewrite IH. }
  rewrite Hp in E. cbn [mbind result_bind] in E. injection E as <- _. by eexists.
Qed.

Lemma no_bins_ok : node_ok H 0 (Collisions (replicate 4 [])) /\ node_model (V := V) (Collisions (replicate 4 [])) = ∅.
Proof.
  split; [|done]. split; [done|]. intros j bin Ej. apply lookup_replicate in Ej as [-> _]. split; [constructor|].
  by intros e ?%elem_of_nil.
Qed.

(** The model of what is in a slot. *)
Definition slot_model (nm dm : Z) (f : Z -> node V) (i : Z) : gmap K V :=
  if occupied nm dm i then node_model (f i) else ∅.

Lemma upd_slot levels nm dm f nm' dm' k h x : let i := mask (hash k) (depth_of (S levels)) in
  sub_ok H levels nm dm f -> maps_upd nm dm nm' dm' i ->
  (occupied nm' dm' i = true -> slot_ok H levels nm' dm' i x) ->
  slot_model nm' dm' (upd f i x) i = partial_alter h k (slot_model nm dm f i) ->
  node_ok H (S levels) (SubNodes (upd f i x <$> (bits dm' ++ bits nm')) nm' dm') /\
  node_model (SubNodes (upd f i x <$> (bits dm' ++ bits nm')) nm' dm') =
    partial_alter h k (node_model (SubNodes (f <$> (bits dm ++ bits nm)) nm dm)).
Proof.
  intros i Hs Hm Hx Hmod. destruct (sub_upd levels nm dm f nm' dm' i x Hs Hm Hx) as [Hn Hl].
  split; [done|]. apply map_eq. intros k'. rewrite Hl.
  assert (Hi : mask (hash k') (depth_of (S levels)) = i ->
    (if occupied nm' dm' i then node_model x !! k' else None) = partial_alter h k (slot_model nm dm f i) !! k').
  { intros _. rewrite <- Hmod. unfold slot_model, upd. rewrite Z.eqb_refl. by destruct (occupied nm' dm' i). }
  destruct (decide (k = k')) as [<-|Hne].
  - fold i in Hi |- *. rewrite Z.eqb_refl, Hi, !lookup_partial_alter_eq, (sub_lookup H levels) by done. fold i.
    f_equal. unfold slot_model. by destruct (occupied nm dm i).
  - rewrite lookup_partial_alter_ne by done. destruct (Z.eqb_spec (mask (hash k') (depth_of (S levels))) i) as [E|]; [|done].
    rewrite Hi, lookup_partial_alter_ne, (sub_lookup H levels), E by done. unfold slot_model. by destruct (occupied nm dm i).
Qed.

Lemma put_slot levels nm dm f nm' dm' k v x : let i := mask (hash k) (depth_of (S levels)) in
  sub_ok H levels nm dm f -> maps_upd nm dm nm' dm' i -> occupied nm' dm' i = true ->
  slot_ok H levels nm' dm' i x -> node_model x = <[k := v]> (slot_model nm dm f i) ->
  node_ok H (S levels) (SubNodes (upd f i x <$> (bits dm' ++ bits nm')) nm' dm') /\
  node_model (SubNodes (upd f i x <$> (bits dm' ++ bits nm')) nm' dm') =
    <[k := v]> (node_model (SubNodes (f <$> (bits dm ++ bits nm)) nm dm)).
Proof.
  intros i Hs Hm Ho Hx Hmod. apply (upd_slot levels nm dm f nm' dm' k (fun _ => Some v)); [done..|].
  fold i. unfold slot_model at 1, upd. by rewrite Ho, Z.eqb_refl.
Qed.

(** A node that took the place of a slot's content and one more key. *)
Lemma child_slot_ok levels nm dm i x k v m : node_ok H levels x -> Z.testbit dm i = false ->
  node_model x = <[k := v]> m -> mask (hash k) (depth_of (S levels)) = i ->
  (forall k', is_Some (m !! k') -> mask (hash k') (depth_of (S levels)) = i) -> slot_ok H levels nm dm i x.
Proof.
  intros Hx Hd Hm Hk Hi. unfold slot_ok. rewrite Hd. split_and!; [done | done |]. intros e He.
  apply (elem_ents levels) in He; [|done]. rewrite Hm in He. destruct (decide (k = e.1)) as [<-|Hne]; [done|].
  rewrite lookup_insert_ne in He by done. apply Hi. by exists e.2.
Qed.

Lemma depth_below levels : depth_of (S (S levels)) + 1 = depth_of (S levels).
Proof. unfold depth_of. lia. Qed.

Lemma coll_free_sub (f : Z -> node V) l nm dm :
  coll_free (SubNodes (f <$> l) nm dm) = true <-> forall i, i ∈ l -> coll_free (f i) = true.
Proof.
  cbn [coll_free]. rewrite forallb_forall. split.
  - intros Hf i Hi. apply Hf, list_elem_of_In, list_elem_of_fmap. by exists i.
  - intros Hf n (i & -> & Hi)%list_elem_of_In%list_elem_of_fmap. by apply Hf.
Qed.

Lemma coll_free_upd f nm dm nm' dm' i (x : node V) : maps_upd nm dm nm' dm' i ->
  coll_free (SubNodes (f <$> (bits dm ++ bits nm)) nm dm) = true -> coll_free x = true ->
  coll_free (SubNodes (upd f i x <$> (bits dm' ++ bits nm')) nm' dm') = true.
Proof.
  intros (_ & _ & _ & Hb) Hf Hx. rewrite coll_free_sub in Hf |- *. intros j Hj. unfold upd.
  destruct (Z.eqb_spec j i) as [->|Hne]; [done|]. apply Hf.
  assert (Hr : 0 <= j < 32) by (apply elem_of_app in Hj as [Hj|Hj]; apply elem_of_bits in Hj; lia).
  rewrite elem_of_slots in Hj |- * by done. unfold occupied in *. by destruct (Hb j Hr Hne) as [<- <-].
Qed.

(** What is in a slot is in the node; keys of the slot of [k] differ below. *)
Lemma ents_slot (f : Z -> node V) nm dm i e : 0 <= i < 32 -> occupied nm dm i = true -> e ∈ ents (f i) ->
  e ∈ ents (SubNodes (f <$> (bits dm ++ bits nm)) nm dm).
Proof.
  intros Hi Ho He. cbn [ents]. rewrite flat_map_fmap, list_elem_of_In, in_concat. exists (ents (f i)).
  split; [|by apply list_elem_of_In]. apply list_elem_of_In, list_elem_of_fmap. exists i. split; [done|].
  by apply elem_of_slots.
Qed.

Lemma apart_slot levels f nm dm k : let i := mask (hash k) (depth_of (S levels)) in
  sub_ok H levels nm dm f -> occupied nm dm i = true ->
  apart (S levels) k (SubNodes (f <$> (bits dm ++ bits nm)) nm dm) -> apart levels k (f i).
Proof.
  intros i (_ & _ & _ & Hslot) Ho Ha e He Hne. pose proof (mask_range (hash k) (depth_of (S levels))) as Hi. fold i in Hi.
  destruct (Ha e (ents_slot f nm dm i e Hi Ho He) Hne) as (j & Hj & Hm).
  destruct (Hslot i Hi Ho) as (_ & _ & Hs). specialize (Hs e He). exists j. split; [|done].
  destruct (decide (j = levels)) as [->|]; [done | lia].
Qed.

(** The node below an entry that meets another key of its slot. *)
Lemma split_entry levels k v k0 v0 : entry_ok (k, v) -> entry_ok (k0, v0) -> k <> k0 ->
  (forall n, node_ok H levels n -> put_post levels k v n (put_mut H levels (hash k) k v n)) ->
  exists x, match levels with
    | S _ => '(sub_node, _) ← put_mut H levels (hash k) k v (SubNodes [Entry k0 v0] 0 (set 0 (mask (hash k0) (depth_of (S levels) + 1))));
             Ok sub_node
    | O => bins ← push_bin (mask (hash k0) collision_depth) (k0, v0) (replicate (Z.to_nat collision_bins) []);
           bins ← push_bin (mask (hash k) collision_depth) (k, v) bins; Ok (Collisions bins)
    end = Ok x /\ node_ok H levels x /\ node_model x = <[k := v]> {[k0 := v0]} /\
    (apart levels k (Entry k0 v0) -> coll_free x = true).
Proof.
  intros Hok Hok0 Hne IH. destruct levels as [|levels].
  - destruct no_bins_ok as [H1 H2]. change (Z.to_nat collision_bins) with 4%nat.
    destruct (push_bin_put _ k0 v0 H1) as (b1 & -> & H3 & H4); [by rewrite H2, lookup_empty | done|]. cbn [mbind result_bind].
    destruct (push_bin_put b1 k v H3) as (b2 & -> & H5 & H6);
      [by rewrite H4, lookup_insert_ne, H2, lookup_empty by done | done|]. cbn [mbind result_bind].
    eexists. split_and!; [done | done | by rewrite H6, H4, H2 |]. intros Ha.
    destruct (Ha (k0, v0)) as (j & Hj & _); [by left | done | lia].
  - rewrite depth_below. destruct (single_ok levels k0 v0 Hok0) as [H1 H2].
    destruct (IH _ H1) as (x & s & -> & H3 & H4 & _ & H5). cbn [mbind result_bind]. exists x. rewrite H4, H2.
    split_and!; [done..|]. intros Ha. by apply H5.
Qed.

Section put_cases.
Context (levels : nat) (nm dm : Z) (f : Z -> node V) (k : K) (v : V).
Abbreviation i := (mask (hash k) (depth_of (S levels))).
Abbreviation n := (SubNodes (f <$> (bits dm ++ bits nm)) nm dm).
Hypothesis (Hs : sub_ok H levels nm dm f) (Hok : entry_ok (k, v)).
Hypothesis IH : forall c, node_ok H levels c -> put_post levels k v c (put_mut H levels (hash k) k v c).

(** The slot is free. *)
Lemma put_fresh : occupied nm dm i = false -> put_post (S levels) k v n (put_mut H (S levels) (hash k) k v n).
Proof.
  intros Eo. pose proof Hs as (Hn & Hd & Hdis & _). pose proof (mask_range (hash k) (depth_of (S levels))) as Hi.
  pose proof (sub_lookup H levels nm dm f k Hs) as Hlk. cbv zeta in Hlk. rewrite Eo in Hlk.
  cbn [put_mut]. rewrite (compressed_none nm dm i Hi Eo), Z.eqb_refl, add_slot by done. cbn [mbind result_bind].
  pose proof (maps_add nm dm i Hi Hn Hd Hdis Eo) as Hm. apply orb_false_iff in Eo as [Ed En].
  destruct (put_slot levels nm dm f nm (set dm i) k v (Entry k v) Hs Hm) as [H1 H2].
  - unfold occupied. by rewrite bit_set.
  - by apply entry_slot_ok.
  - unfold slot_model, occupied, node_model. by rewrite Ed, En.
  - do 2 eexists. unfold old_size. rewrite Hlk. split_and!; [done..|]. intros Hf _. split; [|done].
    by apply (coll_free_upd f nm dm nm (set dm i)).
Qed.

(** The slot leads to a node below. *)
Lemma put_child : Z.testbit nm i = true -> put_post (S levels) k v n (put_mut H (S levels) (hash k) k v n).
Proof.
  intros En. pose proof Hs as (Hn & Hd & Hdis & Hslot). pose proof (mask_range (hash k) (depth_of (S levels))) as Hi.
  assert (Eo : occupied nm dm i = true) by (unfold occupied; by rewrite En, orb_true_r).
  pose proof (sub_lookup H levels nm dm f k Hs) as Hlk. cbv zeta in Hlk. rewrite Eo in Hlk.
  cbn [put_mut]. destruct (at_slot f nm dm i Hi Hn Hd Hdis Eo) as (-> & -> & Hset). rewrite check_spec, En by done.
  destruct (Hslot i Hi Eo) as (S1 & S2 & S3).
  destruct (IH (f i) (S2 En)) as (x & s & -> & Hx & Hmx & Hsz & Hfree). cbn [mbind result_bind]. rewrite Hset.
  assert (Ed : Z.testbit dm i = false) by (by apply (disjoint_bits nm dm i)).
  pose proof (maps_same nm dm i Hn Hd Hdis) as Hm.
  destruct (put_slot levels nm dm f nm dm k v x Hs Hm Eo) as [H1 H2].
  - eapply child_slot_ok; [done..|]. intros k' [v' Hk']. change k' with (k', v').1. apply S3.
    by apply (elem_ents levels); [apply S2|].
  - unfold slot_model. by rewrite Eo.
  - do 2 eexists. unfold old_size in *. rewrite Hlk. split_and!; [done..|]. intros Hf Ha.
    destruct Hfree as [Hf1 Hf2]; [by apply (proj1 (coll_free_sub _ _ _ _) Hf), elem_of_slots | by apply (apart_slot levels f nm dm)|].
    split; [|done]. by apply (coll_free_upd f nm dm nm dm).
Qed.

(** The slot has an entry. *)
Lemma put_entry : Z.testbit nm i = false -> Z.testbit dm i = true ->
  put_post (S levels) k v n (put_mut H (S levels) (hash k) k v n).
Proof.
  intros En Ed. pose proof Hs as (Hn & Hd & Hdis & Hslot). pose proof (mask_range (hash k) (depth_of (S levels))) as Hi.
  assert (Eo : occupied nm dm i = true) by (unfold occupied; by rewrite Ed).
  pose proof (sub_lookup H levels nm dm f k Hs) as Hlk. cbv zeta in Hlk. rewrite Eo in Hlk.
  destruct (Hslot i Hi Eo) as (S1 & _ & S3). destruct (S1 Ed) as ([k0 v0] & Ef & Hok0). cbn [fst snd] in Ef.
  pose proof (apart_slot levels f nm dm k Hs Eo) as Hap. cbv zeta in Hap. rewrite Ef in Hlk, S3, Hap.
  cbn [put_mut]. destruct (at_slot f nm dm i Hi Hn Hd Hdis Eo) as (-> & -> & Hset). rewrite check_spec, En, Ef by done.
  assert (Hsm : slot_model nm dm f i = {[k0 := v0]}) by (unfold slot_model, node_model; by rewrite Eo, Ef).
  unfold put_post, old_size. rewrite Hlk. case_bool_decide as Ek.
  - subst k0. rewrite Hset. pose proof (maps_same nm dm i Hn Hd Hdis) as Hm.
    destruct (put_slot levels nm dm f nm dm k v (Entry k v) Hs Hm Eo) as [H1 H2].
    + by apply entry_slot_ok.
    + rewrite Hsm. unfold node_model. cbn. by rewrite insert_singleton_eq.
    + destruct (wrap64_sizes k v0 (proj1 Hok0) (proj2 Hok0)) as (_ & Es & ?).
      unfold node_model at 3 4. cbn [ents list_to_map foldr fst snd]. rewrite lookup_insert_eq.
      do 2 eexists. split_and!; [done..|rewrite Es; split; [lia | done]|]. intros Hf _.
      split; [by apply (coll_free_upd f nm dm nm dm) | done].
  - destruct (split_entry levels k v k0 v0 Hok Hok0 Ek IH) as (x & Ex & Hx & Hmx & Hfx).
    pose proof (maps_down nm dm i Hi Hn Hd Hdis) as Hm.
    destruct (put_slot levels nm dm f (set nm i) (clear dm i) k v x Hs Hm) as [H1 H2].
    { unfold occupied. by rewrite bit_set, orb_true_r. }
    { eapply child_slot_ok; [done | by apply bit_clear | done | done |]. intros k' [v' Hk'].
      apply lookup_singleton_Some in Hk' as [<- _]. apply (S3 (k0, v0)). by left. }
    { by rewrite Hsm. }
    pose proof (push_down_slot f nm dm i x Hi Hn Hd Hdis Ed) as Hp.
    assert (node_model (Entry k0 v0) !! k = None) as -> by (unfold node_model; cbn; by rewrite lookup_insert_ne, lookup_empty).
    do 2 eexists. split_and!; [|exact H1 | exact H2 | done | intros Hf Ha; split; [|done];
      apply (coll_free_upd f nm dm (set nm i)); [done | done | by apply Hfx, Hap]].
    destruct levels as [|levels'].
    + destruct (push_bin _ (k0, v0) _) as [b1| |]; cbn [mbind result_bind] in Ex |- *; try discriminate.
      destruct (push_bin _ (k, v) b1) as [b2| |]; cbn [mbind result_bind] in Ex |- *; try discriminate.
      injection Ex as <-. by rewrite Hp.
    + destruct (put_mut H (S levels') _ k v _) as [[x' s]| |]; cbn [mbind result_bind] in Ex |- *; try discriminate.
      injection Ex as <-. by rewrite Hp.
Qed.

End put_cases.

(** An update never casts a node to a wrong type; it inserts the key. *)
Lemma put_mut_spec levels : forall n k v, node_ok H levels n -> entry_ok (k, v) ->
  put_post levels k v n (put_mut H levels (hash k) k v n).
Proof.
  induction levels as [|levels IH]; intros n k v Hn Hok.
  { destruct n as [|bins|]; [done| |done]. by apply coll_put_spec. }
  apply node_ok_sub in Hn as (nm & dm & f & -> & Hs). set (i := mask (hash k) (depth_of (S levels))).
  destruct (occupied nm dm i) eqn:Eo; [|by apply put_fresh].
  destruct (Z.testbit nm i) eqn:En; [apply put_child; auto|].
  unfold occupied in Eo. rewrite En, orb_false_r in Eo. apply put_entry; auto.
Qed.

(** *** Removal *)

Lemma bin_remove_spec k (bin : list (K * V)) : NoDup bin.*1 -> Forall entry_ok bin ->
  let '(bin', diff) := bin_remove k bin in
  NoDup bin'.*1 /\ (list_to_map bin' : gmap K V) = delete k (list_to_map bin) /\
  (forall e, e ∈ bin' -> e ∈ bin) /\ (diff = 0 <-> k ∉ bin.*1) /\ 0 <= diff.
Proof.
  induction bin as [|[k' v'] bin IH]; cbn [bin_remove]; intros Hn Hok.
  - split_and!; [apply NoDup_nil_2 | symmetry; apply delete_empty | done | | done]. split; [by intros _ ?%elem_of_nil | done].
  - cbn in Hn. pose proof Hn as [Hk' Hn']%list.NoDup_cons. inversion Hok as [|? ? He Hok']; subst. case_bool_decide as E.
    + subst k'. destruct (wrap64_sizes k v' (proj1 He) (proj2 He)) as (Hnz & _). split_and!; [done | | by right | | apply wrap64_u64].
      * cbn. rewrite delete_insert_eq, delete_id; [done|]. by apply not_elem_of_list_to_map.
      * split; [done|]. intros Hx. destruct Hx. cbn. by left.
    + specialize (IH Hn' Hok'). destruct (bin_remove k bin) as [b diff]. destruct IH as (I1 & I2 & I3 & I4 & I5). split_and!.
      * cbn. apply list.NoDup_cons. split; [|done]. intros (e & -> & Hin)%list_elem_of_fmap. apply Hk', list_elem_of_fmap.
        exists e. split; [done | by apply I3].
      * cbn. rewrite I2. by rewrite delete_insert_ne.
      * intros e [->|Hin]%elem_of_cons; [by left | right; by apply I3].
      * rewrite I4. cbn. rewrite not_elem_of_cons. split; [by split | by intros []].
      * done.
Qed.

Definition remove_post (levels : nat) (k : K) (n : node V) (r : result (node V * Z)) : Prop :=
  exists n' s, r = Ok (n', s) /\ node_ok H levels n' /\ node_model n' = delete k (node_model n) /\
    (s = 0 <-> node_model n !! k = None) /\ 0 <= s /\
    (coll_free n = true -> coll_free n' = true /\ s = old_size n k).

Lemma coll_remove_spec bins k : node_ok H 0 (Collisions bins) ->
  remove_post 0 k (Collisions bins) (remove_mut 0 (hash k) k (Collisions bins)).
Proof.
  intros Hn. cbn [remove_mut]. unfold coll_remove_mut.
  destruct (bins_lookup H bins k Hn) as (bin & E & Hm). rewrite E.
  pose proof (mask_last _ (hash_range H k)) as Hi. set (i := mask (hash k) collision_depth) in *.
  pose proof Hn as [Hlen Hb]. destruct (Hb (Z.to_nat i) bin E) as [Hnd He].
  assert (Hok : Forall entry_ok bin) by (apply Forall_forall; intros e Hin%list_elem_of_In; by destruct (He e Hin)).
  pose proof (bin_remove_spec k bin Hnd Hok) as Hp. destruct (bin_remove k bin) as [bin' diff].
  destruct Hp as (P1 & P2 & P3 & P4 & P5). cbn [mbind result_bind].
  destruct (bins_upd bins i bin' Hn Hi P1) as [Hn' Hm'].
  { intros e Hin%P3. destruct (He e Hin) as [-> ?]. split; [lia | done]. }
  do 2 eexists. split_and!; [reflexivity | done | | by rewrite Hm, <- not_elem_of_list_to_map | done | done].
  apply map_eq. intros k'. rewrite Hm'. destruct (decide (k = k')) as [<-|Hne].
  - fold i. by rewrite Z.eqb_refl, P2, !lookup_delete_eq.
  - rewrite lookup_delete_ne by done. destruct (Z.eqb_spec (mask (hash k') collision_depth) i) as [Ei|]; [|done].
    rewrite P2, lookup_delete_ne by done. destruct (bins_lookup H bins k' Hn) as (b & Eb & ->). rewrite Ei, E in Eb.
    by injection Eb as <-.
Qed.

(** A removal that finds nothing. *)
Lemma remove_nothing levels n k : node_ok H levels n -> node_model n !! k = None -> remove_post levels k n (Ok (n, 0)).
Proof. intros Hn Hk. exists n, 0. unfold old_size. rewrite Hk. split_and!; [done | done | by rewrite delete_id | done..]. Qed.

Lemma remove_mut_spec levels : forall n k, node_ok H levels n ->
  remove_post levels k n (remove_mut levels (hash k) k n).
Proof.
  induction levels as [|levels IH]; intros n k Hn.
  { destruct n as [|bins|]; [done| |done]. by apply coll_remove_spec. }
  pose proof Hn as Hnode. apply node_ok_sub in Hn as (nm & dm & f & -> & Hs). pose proof Hs as (Hn & Hd & Hdis & Hslot).
  pose proof (mask_range (hash k) (depth_of (S levels))) as Hi. cbn [remove_mut].
  pose proof (sub_lookup H levels nm dm f k Hs) as Hlk. cbv zeta in Hlk.
  set (i := mask (hash k) (depth_of (S levels))) in *. destruct (occupied nm dm i) eqn:Eo.
  2: { rewrite (compressed_none nm dm i Hi Eo), Z.eqb_refl. by apply remove_nothing. }
  destruct (at_slot f nm dm i Hi Hn Hd Hdis Eo) as (-> & -> & Hset). rewrite check_spec by done.
  destruct (Hslot i Hi Eo) as (S1 & S2 & S3). destruct (Z.testbit dm i) eqn:Ed.
  - destruct (S1 eq_refl) as ([k0 v0] & Ef & [Hk0 Hv0]). cbn [fst snd] in *. rewrite Ef in *. case_bool_decide as Ek; cbn [negb].
    2: { apply remove_nothing; [done|]. rewrite Hlk. unfold node_model. cbn. by rewrite lookup_insert_ne. }
    subst k0. rewrite erase_slot by done. cbn [mbind result_bind].
    assert (En : Z.testbit nm i = false).
    { destruct (Z.testbit nm i) eqn:E; [|done]. by rewrite (disjoint_bits _ _ _ Hdis E) in Ed. }
    assert (Ho' : occupied nm (clear dm i) i = false) by (unfold occupied; by rewrite bit_clear, En).
    destruct (upd_slot levels nm dm f nm (clear dm i) k (fun _ => None) (SubNodes [] 0 0) Hs (maps_drop nm dm i Hi Hn Hd Hdis)) as [H1 H2].
    { fold i. by rewrite Ho'. }
    { fold i. unfold slot_model. rewrite Ho', Eo, Ef. unfold node_model. cbn.
      change (partial_alter (fun _ => None) k (<[k := v0]> (∅ : gmap K V))) with (delete k (<[k := v0]> (∅ : gmap K V))).
      by rewrite delete_insert_eq, delete_empty. }
    fold i in H1, H2. rewrite fmap_upd in H1, H2.
    2, 3: rewrite elem_of_app, !elem_of_bits, bit_clear, En by done; naive_solver.
    destruct (wrap64_sizes k v0 Hk0 Hv0) as (_ & Es & Hpos).
    unfold remove_post, old_size. rewrite Hlk. unfold node_model at 3 4. cbn [ents list_to_map foldr fst snd].
    rewrite lookup_insert_eq, Es. do 2 eexists. split_and!; [done | done | done | split; [lia | done] | lia |].
    intros Hf. split; [|done]. rewrite coll_free_sub in Hf |- *. intros j Hj. apply Hf. rewrite elem_of_app, !elem_of_bits in Hj |- *.
    destruct Hj as [[Hj Hb]|Hj]; [left | by right]. split; [done|]. rewrite clear_spec in Hb by lia. by destruct (j =? i).
  - pose proof Eo as En. unfold occupied in En. rewrite Ed in En. cbn [orb] in En.
    destruct (IH (f i) k (S2 En)) as (x & s & -> & Hx & Hmx & Hsz & Hs0 & Hfree). cbn [mbind result_bind]. rewrite Hset.
    destruct (upd_slot levels nm dm f nm dm k (fun _ => None) x Hs (maps_same nm dm i Hn Hd Hdis)) as [H1 H2].
    { intros _. unfold slot_ok. fold i. rewrite Ed. split_and!; [done | done |]. intros e He. apply S3.
      apply (elem_ents levels) in He; [|done]. rewrite Hmx in He. apply lookup_delete_Some in He as [_ He].
      by apply (elem_ents levels); [apply S2|]. }
    { fold i. unfold slot_model, upd. by rewrite Eo, Z.eqb_refl. }
    unfold remove_post, old_size in *. rewrite Hlk. do 2 eexists. split_and!; [done..|]. intros Hf.
    destruct Hfree as [Hf1 Hf2]; [by apply (proj1 (coll_free_sub _ _ _ _) Hf), elem_of_slots|].
    split; [|done]. by apply (coll_free_upd f nm dm nm dm i); [apply maps_same|..].
Qed.

End update.

(** *** Iteration *)

Section iteration.
Context {V A : Type} `{SL : MapSerialLaws V} (H : K -> Z) (f : K -> V -> A -> A * bool).

Lemma visit_bin_app (l k : list (K * V)) a :
  visit_bin f (l ++ k) a = let '(a, go) := visit_bin f l a in if negb go then (a, false) else visit_bin f k a.
Proof.
  revert a. induction l as [|[x v] l IH]; intros a; cbn; [done|]. destruct (f x v a) as [a' []]; cbn; [apply IH | done].
Qed.

Lemma coll_foreach_concat bins a : coll_foreach f bins a = visit_bin f (concat bins) a.
Proof.
  revert a. induction bins as [|bin bins IH]; intros a; cbn; [done|]. rewrite visit_bin_app.
  destruct (visit_bin f bin a) as [a' []]; cbn; [apply IH | done].
Qed.

Lemma visit_nodes_spec g (l : list (node V)) : (forall n a, n ∈ l -> g n a = Ok (visit_bin f (ents n) a)) ->
  forall a, visit_nodes g l a = Ok (visit_bin f (flat_map ents l) a).
Proof.
  induction l as [|n l IH]; intros Hg a; cbn; [done|]. rewrite (Hg n) by (by left). cbn [mbind result_bind].
  rewrite visit_bin_app. destruct (visit_bin f (ents n) a) as [a' []]; cbn; [|done].
  apply IH. intros n' a'' Hn'. apply Hg. by right.
Qed.

(** [foreach] visits every entry once, in the order of [ents]. *)
Lemma node_foreach_spec levels : forall n a, node_ok H levels n -> node_foreach f levels n a = Ok (visit_bin f (ents n) a).
Proof.
  induction levels as [|levels IH]; intros n a Hn.
  { destruct n as [|bins|]; [done| |done]. cbn. by rewrite coll_foreach_concat. }
  apply node_ok_sub in Hn as (nm & dm & fn & -> & Hs). destruct Hs as (Hn & Hd & Hdis & Hslot). cbn [node_foreach ents].
  unfold pop, ztake, zdrop. rewrite fmap_app, length_app, !length_fmap, Nat2Z.id.
  destruct (Z.ltb_spec (Z.of_nat (length (bits dm) + length (bits nm))) (zlen (bits dm))); [lia|].
  rewrite take_app_length', drop_app_length', flat_map_app, visit_bin_app by (by rewrite length_fmap).
  rewrite visit_nodes_spec.
  2: { intros n' a' (i & -> & [Hi Eb]%elem_of_bits)%list_elem_of_fmap.
       destruct (Hslot i Hi) as (S1 & _); [unfold occupied; by rewrite Eb|]. destruct (S1 Eb) as (e & -> & _). cbn.
       by destruct (f e.1 e.2 a') as [? []]. }
  cbn [mbind result_bind]. destruct (visit_bin f _ a) as [a' []]; cbn [negb]; [|done]. apply visit_nodes_spec.
  intros n' a'' (i & -> & [Hi Eb]%elem_of_bits)%list_elem_of_fmap.
  destruct (Hslot i Hi) as (_ & S2 & _); [unfold occupied; rewrite Eb; apply orb_true_r|]. by apply IH, S2.
Qed.

End iteration.

(** ** The map *)

Section map_laws.
Context {V : Type} `{SL : MapSerialLaws V} (H : K -> Z).
Implicit Types (m : Map V).

Lemma all_levels_S : all_levels = S 5. Proof. reflexivity. Qed.

Lemma champ_ok_empty : map_ok H (Empty (V := V)).
Proof. split; [rewrite all_levels_S; apply empty_node_ok | done]. Qed.

Lemma get_model k m : map_ok H m -> get H k m = Ok (model m !! k).
Proof. intros [Hn _]. by apply getp_ents. Qed.

Lemma foreach_ents {A} (f : K -> V -> A -> A * bool) m a : map_ok H m -> foreach f m a = Ok (visit_bin f (ents (root m)) a).
Proof. intros [Hn _]. by apply (node_foreach_spec H). Qed.

Lemma wrap64_add_wrap x y : wrap64 (wrap64 x + y) = wrap64 (x + y).
Proof. apply Z.add_mod_idemp_l. done. Qed.
Lemma wrap64_sub_wrap x y : wrap64 (wrap64 x - y) = wrap64 (x - y).
Proof. unfold wrap64. apply Zminus_mod_idemp_l. Qed.

(** The sum of the padded sizes of the entries. *)
Definition model_size (mm : gmap K V) : Z := map_fold (fun k v n => entry_size (k, v) + n) 0 mm.

Lemma model_size_insert (mm : gmap K V) k v : mm !! k = None -> model_size (<[k := v]> mm) = entry_size (k, v) + model_size mm.
Proof. intros Hk. unfold model_size. rewrite map_fold_insert_L; [done | intros; lia | done]. Qed.
Lemma model_size_delete (mm : gmap K V) k v : mm !! k = Some v -> model_size mm = entry_size (k, v) + model_size (delete k mm).
Proof. intros Hk. rewrite <- model_size_insert by apply lookup_delete_eq. by rewrite insert_delete_id. Qed.

Lemma snapshot_size_model m : map_ok H m -> snapshot_size (ents (root m)) = model_size (model m).
Proof.
  intros [Hn _]. pose proof (node_NoDup H _ _ Hn) as Hnd. unfold model, node_model.
  induction (ents (root m)) as [|[k v] l IH]; [done|]. cbn in Hnd |- *. apply list.NoDup_cons in Hnd as [Hk Hnd].
  rewrite model_size_insert by (by apply not_elem_of_list_to_map). rewrite <- IH by done. done.
Qed.

(** No two keys that were ever in the map agree in the low 30 bits of their hashes. *)
Definition no_collision m (k : K) : Prop := coll_free (root m) = true /\ apart H all_levels k (root m).

Lemma put_map k v m : map_ok H m -> entry_ok (k, v) ->
  exists m', put H k v m = Ok m' /\ map_ok H m' /\ model m' = <[k := v]> (model m) /\
    (no_collision m k -> serialized_size m = wrap64 (model_size (model m)) ->
     coll_free (root m') = true /\ serialized_size m' = wrap64 (model_size (model m'))).
Proof.
  intros [Hn Hs] Hok. unfold put. destruct (put_mut_spec H all_levels (root m) k v Hn Hok) as (n & s & -> & Hn' & Hm & Hz & Hf).
  cbn [mbind result_bind]. eexists. split; [done|]. unfold map_ok, model in *. cbn [root map_size serialized_size]. rewrite Hm.
  split_and!; [done | | done |].
  - destruct (Z.eqb_spec s 0) as [->|Hne]; rewrite Hs.
    + rewrite wrap64_add_wrap, map_size_insert_None by (by apply Hz). f_equal. lia.
    + destruct (node_model (root m) !! k) as [v0|] eqn:E; [|by destruct Hne; apply Hz].
      by rewrite map_size_insert_Some by (by exists v0).
  - intros [Hf1 Hf2] Hser. destruct (Hf Hf1 Hf2) as [Hf3 ->]. split; [done|]. rewrite Hser.
    destruct (wrap64_sizes k v (proj1 Hok) (proj2 Hok)) as (_ & -> & _). unfold old_size.
    rewrite wrap64_add_wrap, (Z.add_comm _ (wrap64 _)), wrap64_add_wrap. f_equal.
    destruct (node_model (root m) !! k) as [v0|] eqn:E.
    + rewrite (model_size_delete _ _ _ E), <- insert_delete_eq, model_size_insert by apply lookup_delete_eq. lia.
    + rewrite model_size_insert by done. lia.
Qed.

Lemma remove_map k m : map_ok H m ->
  exists m', remove H k m = Ok m' /\ map_ok H m' /\ model m' = delete k (model m) /\
    (coll_free (root m) = true -> serialized_size m = wrap64 (model_size (model m)) ->
     coll_free (root m') = true /\ serialized_size m' = wrap64 (model_size (model m'))).
Proof.
  intros [Hn Hs]. unfold remove. destruct (remove_mut_spec H all_levels (root m) k Hn) as (n & s & -> & Hn' & Hm & Hz & Hp & Hf).
  cbn [mbind result_bind]. eexists. split; [done|]. unfold map_ok, model in *. cbn [root map_size serialized_size]. rewrite Hm.
  split_and!; [done | | done |].
  - destruct (node_model (root m) !! k) as [v0|] eqn:E.
    + destruct (Z.ltb_spec 0 s) as [|Hle]; [|assert (s = 0) as E0 by lia; by apply Hz in E0].
      rewrite Hs, wrap64_sub_wrap, map_size_delete_Some by (by exists v0). f_equal.
      assert (base.size (node_model (root m)) <> 0%nat) by (rewrite map_size_ne_0_lookup; eauto). lia.
    + rewrite (proj2 Hz eq_refl), delete_id by done. done.
  - intros Hf1 Hser. destruct (Hf Hf1) as [Hf3 ->]. split; [done|]. rewrite Hser, wrap64_sub_wrap. f_equal. unfold old_size.
    destruct (node_model (root m) !! k) as [v0|] eqn:E.
    + rewrite (model_size_delete _ _ _ E). lia.
    + rewrite delete_id by done. lia.
Qed.

Lemma visit_bin_collect (l : list (K * V)) : forall acc, visit_bin (fun k v l => (l ++ [(k, v)], true)) l acc = (acc ++ l, true).
Proof. induction l as [|[k v] l IH]; intros acc; cbn; [by rewrite app_nil_r|]. rewrite IH, <- app_assoc. done. Qed.

#[global] Program Instance champ_state_laws : KvStateLaws V (Map V) (ST := champ_state H) := {
  st_ok := map_ok H;
  st_model := model
}.
Next Obligation. split; [apply champ_ok_empty | done]. Qed.
Next Obligation. intros m k Hm. by apply get_model. Qed.
Next Obligation.
  intros m k v Hm Hk Hv. destruct (put_map k v m Hm) as (m' & E & Hm' & Hmod & _); [by split|]. by exists m'.
Qed.
Next Obligation.
  intros m Hm. exists (ents (root m)). cbn [st_entries champ_state]. rewrite foreach_ents by done. cbn [mbind result_bind].
  rewrite visit_bin_collect. split_and!; [done | by apply (node_NoDup H all_levels), Hm | done].
Qed.
Next Obligation. intros m Hm. apply Hm. Qed.

End map_laws.

(** ** Snapshots *)

Section snapshot.
Context {V : Type} `{SL : MapSerialLaws V} (H : K -> Z).
Implicit Types (m : Map V).

Lemma node_ents_ok levels : forall n : node V, node_ok H levels n -> Forall entry_ok (ents n).
Proof.
  induction levels as [|levels IH]; intros n Hn.
  - destruct n as [|bins|]; [done| |done]. destruct Hn as [_ Hb]. apply Forall_forall. intros e He.
    apply in_concat in He as (bin & Hbin & He). apply list_elem_of_In, list_elem_of_lookup in Hbin as [j Hj].
    apply (proj2 (Hb j bin Hj)). by apply list_elem_of_In.
  - apply node_ok_sub in Hn as (nm & dm & f & -> & _ & _ & _ & Hslot). cbn [ents]. rewrite flat_map_fmap.
    apply Forall_forall. intros e (i & Hi & He)%list_elem_of_In%slots_elem.
    assert (Hr : 0 <= i < 32) by (apply elem_of_app in Hi as [Hi|Hi]; apply elem_of_bits in Hi; lia).
    apply elem_of_slots in Hi; [|done]. destruct (Hslot i Hr Hi) as (S1 & S2 & _).
    apply orb_true_iff in Hi as [E|E].
    + destruct (S1 E) as (e' & Ee & Hok). rewrite Ee in He. apply list_elem_of_singleton in He as ->. by destruct e'.
    + specialize (IH _ (S2 E)). rewrite Forall_forall in IH. by apply IH, list_elem_of_In.
Qed.

(** A [std::sort] by hash. *)
Definition sorts (std_sort : list (K * Z * V) -> list (K * Z * V)) : Prop :=
  forall l, std_sort l ≡ₚ l /\ StronglySorted (fun a b => a.1.2 <= b.1.2) (std_sort l).

Definition tuple_of (e : K * V) : K * Z * V := (e.1, hash_of H e.1, e.2).

(** The pass that collects the tuples and adds up the sizes. *)
Lemma visit_tuples (l : list (K * V)) : Forall entry_ok l -> Forall (fun e => entry_size e < M32) l -> forall acc n,
  visit_bin (fun key value '(l, size) =>
      let ks := wrap32 (get_size key) in
      let vs := wrap32 (get_size value) in
      let key_size := wrap32 (ks + get_padding ks) in
      let value_size := wrap32 (vs + get_padding vs) in
      ((l ++ [(key, hash_of H key, value)], wrap64 (size + wrap32 (key_size + value_size))), true)) l (acc, wrap64 n) =
  ((acc ++ (tuple_of <$> l), wrap64 (n + snapshot_size l)), true).
Proof.
  induction l as [|[k v] l IH]; intros Hok Hsz acc n; cbn [visit_bin fmap list_fmap snapshot_size foldr].
  - by rewrite app_nil_r, Z.add_0_r.
  - inversion Hok as [|? ? He Hok']; inversion Hsz as [|? ? Hs Hsz']; subst. cbv zeta. cbn [negb].
    pose proof (size_with_padding_pos k (proj1 He)) as Pk. pose proof (size_with_padding_pos v (proj2 He)) as Pv.
    change (wrap32 (wrap32 (get_size k) + get_padding (wrap32 (get_size k)))) with (get_size_with_padding k).
    change (wrap32 (wrap32 (get_size v) + get_padding (wrap32 (get_size v)))) with (get_size_with_padding v).
    unfold entry_size in Hs. cbn [fst snd] in *.
    assert (wrap32 (get_size_with_padding k + get_size_with_padding v) = entry_size (k, v)) as ->
      by (unfold wrap32; rewrite Z.mod_small; [done | lia]).
    rewrite wrap64_add_wrap, IH, <- app_assoc by done. do 3 f_equal. unfold snapshot_size. lia.
Qed.

Lemma tuples_entries (l : list (K * V)) : (fun p : K * Z * V => (p.1.1, p.2)) <$> (tuple_of <$> l) = l.
Proof. rewrite <- list_fmap_compose. rewrite <- (list_fmap_id l) at 2. apply list_fmap_ext. by intros i [k v]. Qed.

(** What a snapshot of a map with an exact size contains: the entries in some
    order that follows the hashes. *)
Lemma make_snapshot_bytes std_sort ndebug m : sorts std_sort -> map_ok H m ->
  serialized_size m = snapshot_size (ents (root m)) -> snapshot_size (ents (root m)) < M64 ->
  Forall (fun e => entry_size e < M32) (ents (root m)) ->
  make_snapshot H std_sort ndebug m =
    Ok (snapshot_bytes ((fun p : K * Z * V => (p.1.1, p.2)) <$> std_sort (tuple_of <$> ents (root m)))).
Proof.
  intros Hsort Hm Hser Hlt Hsz. pose proof (node_ents_ok _ _ (proj1 Hm)) as Hok.
  set (l := (fun p : K * Z * V => (p.1.1, p.2)) <$> std_sort (tuple_of <$> ents (root m))).
  assert (Hperm : l ≡ₚ ents (root m)).
  { unfold l. rewrite (proj1 (Hsort (tuple_of <$> ents (root m)))), tuples_entries. done. }
  unfold make_snapshot, snapshot_serialize. rewrite (foreach_ents H) by done.
  pose proof (visit_tuples _ Hok Hsz [] 0) as Hv. change (wrap64 0) with 0 in Hv. cbv zeta in Hv. rewrite Hv, Z.add_0_l. cbn [mbind result_bind app].
  assert (wrap64 (snapshot_size (ents (root m))) = snapshot_size (ents (root m))) as ->.
  { apply wrap64_small. split; [|done]. rewrite <- length_snapshot_bytes by done. lia. }
  rewrite Hser, Z.eqb_refl, andb_false_r. fold l.
  destruct (serialize_snapshot l) as (w & E & Hb & Hw); [by rewrite Hperm|].
  rewrite (snapshot_size_perm _ _ Hperm) in E. change (mkWriter _ _ _) with (new_writer (snapshot_size (ents (root m)))).
  rewrite E. cbn [mbind result_bind]. by rewrite Hw, Hb, andb_false_r.
Qed.

(** The entries of a snapshot, in the order in which they are written. *)
Lemma snapshot_perm std_sort m : sorts std_sort ->
  (fun p : K * Z * V => (p.1.1, p.2)) <$> std_sort (tuple_of <$> ents (root m)) ≡ₚ ents (root m).
Proof. intros Hsort. rewrite (proj1 (Hsort (tuple_of <$> ents (root m)))), tuples_entries. done. Qed.

#[global] Instance champ_snapshot (std_sort : list (K * Z * V) -> list (K * Z * V)) (ndebug : bool) : SnapshotState (Map V) :=
  { st_make_snapshot := make_snapshot H std_sort ndebug }.
#[global] Program Instance champ_snapshot_laws std_sort ndebug (Hsort : sorts std_sort) :
  SnapshotLaws V (Map V) (ST := champ_state H) (SS := champ_snapshot std_sort ndebug) := {
  snap_ok m := serialized_size m = snapshot_size (ents (root m)) /\ snapshot_size (ents (root m)) < M64 /\
    Forall (fun e => entry_size e < M32 /\ ser_ok (ser_canon e.2)) (ents (root m))
}.
Next Obligation.
  intros std_sort ndebug Hsort m Hm (Hser & Hlt & Hall). pose proof (snapshot_perm std_sort m Hsort) as Hperm.
  eexists. split; [apply make_snapshot_bytes; try done; eapply Forall_impl; [|exact Hall]; by intros e []|].
  split; [rewrite Hperm; apply (node_ents_ok all_levels), Hm|].
  split; [rewrite Hperm; eapply Forall_impl; [|exact Hall]; by intros e []|].
  pose proof (node_NoDup H _ _ (proj1 Hm)) as Hnd. split; [by rewrite Hperm|]. apply list_to_map_proper; [by rewrite Hperm | done].
Qed.

End snapshot.

(** ** Sequences of operations *)

Inductive op (V : Type) := OpPut (k : K) (v : V) | OpRemove (k : K).
Arguments OpPut {V} _ _.
Arguments OpRemove {V} _.

Definition op_key {V} (o : op V) : K := match o with OpPut k _ | OpRemove k => k end.
Definition run_op {V} `{MapSerial V} (H : K -> Z) (o : op V) (m : Map V) : result (Map V) :=
  match o with OpPut k v => put H k v m | OpRemove k => remove H k m end.
Fixpoint run_ops {V} `{MapSerial V} (H : K -> Z) (l : list (op V)) (m : Map V) : result (Map V) :=
  match l with [] => Ok m | o :: l => m ← run_op H o m; run_ops H l m end.

Section run.
Context {V : Type} `{SL : MapSerialLaws V} (H : K -> Z).
Implicit Types (m : Map V).

Definition op_ok (o : op V) : Prop := match o with OpPut k v => entry_ok (k, v) | OpRemove _ => True end.
Definition op_model (o : op V) (mm : gmap K V) : gmap K V :=
  match o with OpPut k v => <[k := v]> mm | OpRemove k => delete k mm end.

Lemma run_op_spec o m : map_ok H m -> op_ok o -> exists m', run_op H o m = Ok m' /\ map_ok H m' /\ model m' = op_model o (model m).
Proof.
  intros Hm Ho. destruct o as [k v|k]; cbn.
  - destruct (put_map H k v m Hm Ho) as (m' & ? & ? & ? & _). by exists m'.
  - destruct (remove_map H k m Hm) as (m' & ? & ? & ? & _). by exists m'.
Qed.

Lemma run_ops_spec l : forall m, map_ok H m -> Forall op_ok l ->
  exists m', run_ops H l m = Ok m' /\ map_ok H m' /\ model m' = foldl (fun mm o => op_model o mm) (model m) l.
Proof.
  induction l as [|o l IH]; intros m Hm Hl; cbn [run_ops foldl]; [by exists m|]. inversion Hl as [|? ? Ho Hl']; subst.
  destruct (run_op_spec o m Hm Ho) as (m1 & -> & Hm1 & E1). cbn [mbind result_bind].
  destruct (IH m1 Hm1 Hl') as (m2 & -> & Hm2 & E2). exists m2. by rewrite E2, E1.
Qed.

(** *** Hashes without collisions *)

Definition low30 (k : K) : Z := hash_of H k mod 2 ^ 30.

Lemma mask_digit h d : 0 <= d -> h mod 2 ^ (5 * (d + 1)) = h mod 2 ^ (5 * d) + 2 ^ (5 * d) * mask h d.
Proof.
  intros Hd. replace (5 * (d + 1)) with (5 * d + 5) by lia. rewrite Z.pow_add_r by lia.
  assert (0 < 2 ^ (5 * d)) by (apply Z.pow_pos_nonneg; lia). rewrite Z.rem_mul_r by lia. do 2 f_equal.
  unfold mask. change index_mask with (Z.ones 5). rewrite Z.land_ones, Z.shiftr_div_pow2 by (unfold index_mask_bits; lia).
  unfold index_mask_bits, wrap8. rewrite (Z.mul_comm d 5).
  pose proof (Z.mod_pos_bound (h / 2 ^ (5 * d)) (2 ^ 5) ltac:(lia)). rewrite (Z.mod_small _ M8); [done|]. unfold M8. lia.
Qed.

(** Hashes that differ in the low 30 bits differ in one of the six indices. *)
Lemma low30_apart k k' : low30 k' <> low30 k ->
  exists j, (j < all_levels)%nat /\ mask (hash_of H k') (depth_of (S j)) <> mask (hash_of H k) (depth_of (S j)).
Proof.
  intros Hne. destruct (decide (Forall (fun j => mask (hash_of H k') (depth_of (S j)) = mask (hash_of H k) (depth_of (S j)))
    (seq 0 6))) as [Hall|Hex].
  - exfalso. apply Hne. rewrite Forall_forall in Hall.
    assert (Hd : forall d, 0 <= d < 6 -> mask (hash_of H k') d = mask (hash_of H k) d).
    { intros d Hd. specialize (Hall (Z.to_nat (5 - d))). unfold depth_of in Hall. change collision_depth with 6 in Hall.
      replace (6 - Z.of_nat (S (Z.to_nat (5 - d)))) with d in Hall by lia. apply Hall, in_seq. lia. }
    assert (Hm : forall n, (n <= 6)%nat -> hash_of H k' mod 2 ^ (5 * Z.of_nat n) = hash_of H k mod 2 ^ (5 * Z.of_nat n));
      [|by apply (Hm 6%nat)].
    induction n as [|n IH]; intros Hn; [by rewrite !Z.mod_1_r|]. rewrite Nat2Z.inj_succ, <- Z.add_1_r.
    rewrite !mask_digit, IH, Hd by lia. done.
  - apply not_Forall_Exists in Hex; [|intros; apply _]. apply Exists_exists in Hex as (j & Hj & Hm).
    exists j. split; [|done]. apply in_seq in Hj. change all_levels with 6%nat. lia.
Qed.

(** While the keys that occur do not collide, the size of the map is exact. *)
Definition exact (keys : list K) m : Prop :=
  map_ok H m /\ coll_free (root m) = true /\ serialized_size m = wrap64 (model_size (model m)) /\
  forall k, is_Some (model m !! k) -> k ∈ keys.

Definition collision_free (keys : list K) : Prop :=
  forall k k', k ∈ keys -> k' ∈ keys -> k <> k' -> low30 k <> low30 k'.

Lemma run_op_exact keys o m : collision_free keys -> exact keys m -> op_ok o -> op_key o ∈ keys ->
  exists m', run_op H o m = Ok m' /\ exact keys m'.
Proof.
  intros Hc (Hm & Hf & Hs & Hk) Ho Hin. destruct o as [k v|k]; cbn in *.
  - destruct (put_map H k v m Hm Ho) as (m' & E & Hm' & Emod & Hex). destruct Hex as [Hf' Hs']; [|done|].
    + split; [done|]. intros e He Hne. apply low30_apart. apply Hc; [|done|done]. apply Hk. exists e.2.
      by apply (elem_ents H all_levels); [apply Hm|].
    + exists m'. split; [done|]. split_and!; [done..|]. intros k'. rewrite Emod.
      destruct (decide (k = k')) as [<-|Hne]; [done|]. rewrite lookup_insert_ne by done. apply Hk.
  - destruct (remove_map H k m Hm) as (m' & E & Hm' & Emod & Hex). destruct (Hex Hf Hs) as [Hf' Hs'].
    exists m'. split; [done|]. split_and!; [done..|]. intros k' [v' Hv'].
    rewrite Emod in Hv'. apply lookup_delete_Some in Hv' as [_ Hv']. apply Hk. by exists v'.
Qed.

Lemma exact_empty keys : exact keys Empty.
Proof. split; [apply champ_ok_empty|]. split; [done|]. split; [done|]. intros k [v Hv]. done. Qed.

Lemma run_ops_exact keys l : collision_free keys -> forall m, exact keys m -> Forall op_ok l ->
  (forall o, o ∈ l -> op_key o ∈ keys) -> exists m', run_ops H l m = Ok m' /\ exact keys m'.
Proof.
  intros Hc. induction l as [|o l IH]; intros m Hm Hl Hk; cbn [run_ops]; [by exists m|]. inversion Hl as [|? ? Ho Hl']; subst.
  destruct (run_op_exact keys o m Hc Hm Ho) as (m1 & -> & Hm1); [apply Hk; by left|]. cbn [mbind result_bind].
  apply IH; [done | done |]. intros o' Ho'. apply Hk. by right.
Qed.

End run.

(** ** Properties *)

Section properties.
Context {V : Type} `{SL : MapSerialLaws V} (H : K -> Z).
Implicit Types (m : Map V).

(** C30. Whatever the hash function and the operations, from the empty map on, no
    pointer to a node is cast to a type it does not have and no vector is
    accessed outside its bounds: every [put], [remove], [get] and [foreach]
    returns, and the map behaves as the finite map built by the same insertions
    and deletions. [foreach] visits each entry once and [size] counts them. *)
Theorem champ_refines (ops : list (op V)) : Forall op_ok ops ->
  exists m, run_ops H ops Empty = Ok m /\ model m = foldl (fun mm o => op_model o mm) ∅ ops /\
    (forall k, get H k m = Ok (model m !! k)) /\
    (exists l, NoDup l.*1 /\ list_to_map l = model m /\
       forall A (f : K -> V -> A -> A * bool) a, foreach f m a = Ok (visit_bin f l a)) /\
    map_size m = wrap64 (Z.of_nat (base.size (model m))).
Proof.
  intros Hops. destruct (run_ops_spec H ops Empty (champ_ok_empty H) Hops) as (m & E & Hm & Emod).
  exists m. split_and!; [done | done | intros k; by apply get_model | | apply Hm].
  exists (ents (root m)). split_and!; [apply (node_NoDup H all_levels), Hm | done |]. intros A f a. by apply (foreach_ents H).
Qed.

(** As long as the keys that occur in a sequence of operations differ in the
    low 30 bits of their hashes, [get_serialized_size] is exactly the padded size
    of the entries, so that a snapshot fits its buffer. *)
Theorem champ_serialized_size (ops : list (op V)) : Forall op_ok ops -> collision_free H (op_key <$> ops) ->
  exists m, run_ops H ops Empty = Ok m /\ serialized_size m = wrap64 (snapshot_size (ents (root m))).
Proof.
  intros Hops Hc. destruct (run_ops_exact H (op_key <$> ops) ops Hc Empty (exact_empty H _) Hops) as (m & E & Hm & _ & Hs & _).
  - intros o Ho. apply list_elem_of_fmap. by exists o.
  - exists m. by rewrite (snapshot_size_model H).
Qed.

(** A snapshot of a map whose size is exact fills its buffer, with and
    without assertions and however [std::sort] orders equal hashes, and
    [deserialize_map] reads back the same map, except for what the format drops
    of a value. *)
Theorem champ_snapshot_roundtrip std_sort ndebug m : sorts std_sort -> map_ok H m ->
  serialized_size m = snapshot_size (ents (root m)) -> snapshot_size (ents (root m)) < M64 ->
  Forall (fun e => entry_size e < M32 /\ ser_ok (ser_canon e.2)) (ents (root m)) ->
  exists bytes m', make_snapshot H std_sort ndebug m = Ok bytes /\
    deserialize_map (ST := champ_state H) bytes = Some (Ok m') /\ map_ok H m' /\ model m' = ser_canon <$> model m.
Proof.
  intros Hsort Hm Hser Hlt Hall.
  assert (Hsz : Forall (fun e => entry_size e < M32) (ents (root m))) by (eapply Forall_impl; [|exact Hall]; by intros e []).
  assert (Hc : Forall (fun e => ser_ok (ser_canon e.2)) (ents (root m))) by (eapply Forall_impl; [|exact Hall]; by intros e []).
  rewrite (make_snapshot_bytes H) by done.
  set (l := (fun p : K * Z * V => (p.1.1, p.2)) <$> std_sort (tuple_of H <$> ents (root m))).
  assert (Hperm : l ≡ₚ ents (root m)).
  { unfold l. rewrite (proj1 (Hsort (tuple_of H <$> ents (root m)))), tuples_entries. done. }
  pose proof (node_NoDup H _ _ (proj1 Hm)) as Hnd.
  destruct (deserialize_snapshot (ST := champ_state H) l) as (m' & E & Hm' & Emod).
  - rewrite Hperm. by apply (node_ents_ok H all_levels), Hm.
  - by rewrite Hperm.
  - by rewrite Hperm.
  - exists (snapshot_bytes l), m'. split_and!; [done..|].
    change (st_model m') with (model m') in Emod. rewrite Emod. f_equal. apply list_to_map_proper; [|done]. by rewrite Hperm.
Qed.

(** Two maps with the same entries have byte for byte the same snapshot,
    whatever their histories and the sorting algorithms, if no two of their keys
    have the same 32-bit hash. *)
Theorem champ_snapshot_canonical sort1 sort2 ndebug m1 m2 : sorts sort1 -> sorts sort2 ->
  map_ok H m1 -> map_ok H m2 -> model m1 = model m2 ->
  serialized_size m1 = snapshot_size (ents (root m1)) -> serialized_size m2 = snapshot_size (ents (root m2)) ->
  snapshot_size (ents (root m1)) < M64 -> Forall (fun e => entry_size e < M32) (ents (root m1)) ->
  (forall k k', is_Some (model m1 !! k) -> is_Some (model m1 !! k') -> hash_of H k = hash_of H k' -> k = k') ->
  make_snapshot H sort1 ndebug m1 = make_snapshot H sort2 ndebug m2.
Proof.
  intros Hs1 Hs2 Hm1 Hm2 Hmod Hz1 Hz2 Hlt Hsz Hinj.
  pose proof (node_NoDup H _ _ (proj1 Hm1)) as N1. pose proof (node_NoDup H _ _ (proj1 Hm2)) as N2.
  assert (Hp : ents (root m1) ≡ₚ ents (root m2)).
  { rewrite <- (map_to_list_to_map (M := gmap K) (ents (root m1))), <- (map_to_list_to_map (M := gmap K) (ents (root m2))) by done.
    unfold model, node_model in Hmod. by rewrite Hmod. }
  rewrite !(make_snapshot_bytes H) by (done || by rewrite <- ?(snapshot_size_perm _ _ Hp), <- ?Hp).
  do 3 f_equal. destruct (Hs1 (tuple_of H <$> ents (root m1))) as [P1 S1]. destruct (Hs2 (tuple_of H <$> ents (root m2))) as [P2 S2].
  eapply StronglySorted_unique_strong; [|exact S1 | exact S2 | by rewrite P1, P2, Hp].
  intros x1 x2 Hx1 Hx2 L1 L2. rewrite P1 in Hx1. rewrite P2, <- Hp in Hx2.
  apply list_elem_of_fmap in Hx1 as (e1 & -> & He1). apply list_elem_of_fmap in Hx2 as (e2 & -> & He2). cbn in L1, L2.
  rewrite (elem_ents H all_levels) in He1, He2 by apply Hm1. fold (model m1) in He1, He2.
  assert (E : e1.1 = e2.1) by (apply Hinj; [by exists e1.2 | by exists e2.2 | lia]).
  unfold tuple_of. rewrite E in He1 |- *. congruence.
Qed.

End properties.

(** ** Examples *)

Definition by_hash {V} (a b : K * Z * V) : Prop := a.1.2 <= b.1.2.
#[global] Instance by_hash_dec {V} : RelDecision (by_hash (V := V)).
Proof. intros a b. unfold by_hash. apply _. Defined.
#[global] Instance by_hash_total {V} : Total (by_hash (V := V)).
Proof. intros a b. unfold by_hash. lia. Qed.
#[global] Instance by_hash_trans {V} : Transitive (by_hash (V := V)).
Proof. intros a b c. unfold by_hash. lia. Qed.

(** One sorting algorithm. *)
Definition sort_by_hash {V} (l : list (K * Z * V)) : list (K * Z * V) := merge_sort by_hash l.

Lemma sort_by_hash_sorts {V} : sorts (V := V) sort_by_hash.
Proof. intros l. split; [apply merge_sort_Permutation | apply (StronglySorted_merge_sort by_hash)]. Qed.

Definition sample (k : Z) (v : list Z) : op KvHandle.VersionV := OpPut [k] (KvHandle.mkVersionV k 0 v).
Definition sample_ops : list (op KvHandle.VersionV) :=
  [sample 1 [1]; sample 2 [2; 2]; sample 3 []; OpRemove [2]; sample 1 [7; 7; 7; 7; 7; 7; 7; 7; 7]].

Lemma sample_ops_ok : Forall op_ok sample_ops.
Proof. repeat constructor; vm_compute; congruence. Qed.

Lemma collision_free_check (H : K -> Z) keys :
  forallb (fun k => forallb (fun k' => bool_decide (k = k') || negb (low30 H k =? low30 H k')) keys) keys = true ->
  collision_free H keys.
Proof.
  intros Hf k k' Hk Hk' Hne. rewrite forallb_forall in Hf. apply list_elem_of_In in Hk, Hk'. specialize (Hf k Hk).
  rewrite forallb_forall in Hf. specialize (Hf k' Hk'). rewrite bool_decide_eq_false_2 in Hf by done.
  by apply negb_true_iff, Z.eqb_neq in Hf.
Qed.

Lemma sample_no_collision : collision_free SipHash.std_hash (op_key <$> sample_ops).
Proof. apply collision_free_check. vm_compute. reflexivity. Qed.

Definition sample_map : Map KvHandle.VersionV :=
  match run_ops SipHash.std_hash sample_ops Empty with Ok m => m | _ => Empty end.

Lemma champ_sample_ok : map_ok SipHash.std_hash sample_map.
Proof.
  unfold sample_map. destruct (run_ops_spec SipHash.std_hash sample_ops Empty (champ_ok_empty _) sample_ops_ok) as (m & -> & Hm & _).
  done.
Qed.

Lemma sample_ents : ents (root sample_map) =
  [([1], KvHandle.mkVersionV 1 0 [7; 7; 7; 7; 7; 7; 7; 7; 7]); ([3], KvHandle.mkVersionV 3 0 [])].
Proof. vm_compute. reflexivity. Qed.

(** The same entries put in another order. *)
Definition other_ops : list (op KvHandle.VersionV) := [sample 3 []; sample 1 [7; 7; 7; 7; 7; 7; 7; 7; 7]].
Definition other_map : Map KvHandle.VersionV :=
  match run_ops SipHash.std_hash other_ops Empty with Ok m => m | _ => Empty end.

Lemma other_map_ok : map_ok SipHash.std_hash other_map.
Proof.
  unfold other_map. destruct (run_ops_spec SipHash.std_hash other_ops Empty (champ_ok_empty _)) as (m & -> & Hm & _).
  - repeat constructor; vm_compute; congruence.
  - done.
Qed.

Lemma champ_refines_witness : exists m, run_ops SipHash.std_hash sample_ops Empty = Ok m /\
  get SipHash.std_hash [1] m = Ok (Some (KvHandle.mkVersionV 1 0 [7; 7; 7; 7; 7; 7; 7; 7; 7])) /\
  get SipHash.std_hash [2] m = Ok None /\ map_size m = 2.
Proof.
  destruct (champ_refines SipHash.std_hash sample_ops sample_ops_ok) as (m & E & Emod & Hg & _ & Hs).
  exists m. rewrite !Hg, Hs, Emod. split_and!; [exact E | vm_compute; reflexivity..].
Defined.

Lemma champ_serialized_size_witness : exists m, run_ops SipHash.std_hash sample_ops Empty = Ok m /\
  serialized_size m = wrap64 (snapshot_size (ents (root m))).
Proof. apply (champ_serialized_size SipHash.std_hash sample_ops sample_ops_ok sample_no_collision). Defined.

Lemma champ_snapshot_roundtrip_witness : exists bytes m',
  make_snapshot SipHash.std_hash sort_by_hash false sample_map = Ok bytes /\
  deserialize_map (ST := champ_state SipHash.std_hash) bytes = Some (Ok m') /\ model m' = model sample_map.
Proof.
  destruct (champ_snapshot_roundtrip SipHash.std_hash sort_by_hash false sample_map sort_by_hash_sorts champ_sample_ok)
    as (bytes & m' & E & Ed & _ & Em).
  - vm_compute. reflexivity.
  - vm_compute. reflexivity.
  - rewrite sample_ents. repeat constructor; vm_compute; congruence.
  - exists bytes, m'. split_and!; [exact E | exact Ed | rewrite Em; vm_compute; reflexivity].
Defined.

Lemma champ_snapshot_canonical_witness :
  make_snapshot SipHash.std_hash sort_by_hash true sample_map = make_snapshot SipHash.std_hash sort_by_hash true other_map.
Proof.
  apply (champ_snapshot_canonical SipHash.std_hash sort_by_hash sort_by_hash true sample_map other_map
           sort_by_hash_sorts sort_by_hash_sorts champ_sample_ok other_map_ok).
  - vm_compute. reflexivity.
  - vm_compute. reflexivity.
  - vm_compute. reflexivity.
  - vm_compute. reflexivity.
  - rewrite sample_ents. repeat constructor; vm_compute; congruence.
  - assert (Hin : forall k, is_Some (model sample_map !! k) -> k = [1] \/ k = [3]).
    { intros k [v Hv]. unfold model, node_model in Hv. rewrite sample_ents in Hv. cbn in Hv.
      apply lookup_insert_Some in Hv as [[<- _]|[_ Hv]]; [by left|].
      apply lookup_insert_Some in Hv as [[<- _]|[_ Hv]]; [by right|]. by rewrite lookup_empty in Hv. }
    assert (Hd : hash_of SipHash.std_hash [1] <> hash_of SipHash.std_hash [3]) by (vm_compute; congruence).
    intros k k' Hk Hk'. generalize dependent (hash_of SipHash.std_hash). intros h Hd.
    destruct (Hin k Hk) as [->| ->], (Hin k' Hk') as [->| ->]; intros E; [reflexivity | | | reflexivity]; exfalso; apply Hd; auto.
Defined.

(** Two keys with the same 32-bit hash. *)
Definition key1 : K := [107; 49; 53; 50; 54; 48].
Definition key2 : K := [107; 54; 50; 55; 53; 54].
Definition colliding_ops : list (op KvHandle.VersionV) :=
  [OpPut key1 (KvHandle.mkVersionV 1 0 [0]); OpPut key2 (KvHandle.mkVersionV 2 0 [0]);
   OpPut key1 (KvHandle.mkVersionV 3 0 (replicate 64 0))].

(** Under the hash function of the store the keys "k15260" and "k62756"
    collide.  An update of a colliding key is accounted for with the size of the
    new value, not of the one it replaces, so that [get_serialized_size] is 54
    bytes short for this map: taking a snapshot throws when assertions are
    compiled in and writes outside of its buffer when they are not. *)
Theorem champ_collision_size :
  hash_of SipHash.std_hash key1 = hash_of SipHash.std_hash key2 /\
  exists m, run_ops SipHash.std_hash colliding_ops Empty = Ok m /\
    serialized_size m + 54 = snapshot_size (ents (root m)) /\
    make_snapshot SipHash.std_hash sort_by_hash false m = Throw LogicError /\
    make_snapshot SipHash.std_hash sort_by_hash true m = Undef.
Proof.
  split; [vm_compute; reflexivity|].
  destruct (run_ops SipHash.std_hash colliding_ops Empty) as [m| |] eqn:E; [|vm_compute in E; discriminate..].
  exists m. vm_compute in E. injection E as <-. split_and!; [reflexivity|vm_compute; reflexivity..].
Qed.

End ChampMap.
