(* ===== verification/UntypedMap.v ===== *)
(** * A table of the store

    Model of CCF/src/kv/untyped_map.h: the commits of one table that can still
    be rolled back ([Roll]), the change sets that transactions open on it, their
    validation ([prepare]) and application ([commit]), rollback, compaction and
    snapshots.  States are values of any implementation of the interface
    [MapSerial.KvState] that keeps its laws; a transaction works on a change set
    through the handle of KvHandle.v.

    The list of commits is the doubly linked list from its head to its tail;
    recycled commit objects are not modelled, since they are overwritten when
    they are used again.  Every operation runs under the lock of the table.
    [std::move] of a write set leaves it empty, as the standard library does.

    Main results: [occ_serialisable], a transaction that passes validation has
    read what it would read now; [rollback_restores] and [compact_keeps]. *)
From S2P Require Import Prelude Serialized KvHandle MapSerial RbMap.
From stdpp Require Import list gmap.
Local Open Scope Z_scope.

Module UntypedMap.
Import MapSerial.
Abbreviation K := KvHandle.K.
Abbreviation V := KvHandle.V.
Abbreviation VersionV := KvHandle.VersionV.
Abbreviation mkVersionV := KvHandle.mkVersionV.
Abbreviation NoVersion := KvHandle.NoVersion.
Abbreviation Write := (list (K * option V)).

Inductive SecurityDomain := PUBLIC | PRIVATE.

Record LocalCommit (T : Type) := mkCommit { lc_version : Z; lc_state : T; lc_writes : Write }.
Arguments mkCommit {T} _ _ _.
Arguments lc_version {T} _.
Arguments lc_state {T} _.
Arguments lc_writes {T} _.

(** [roll], the two hooks, and the deltas kept for the global hook. *)
Record Map (T : Type) := mkMap {
  name : list Z;
  commits : list (LocalCommit T);
  rollback_counter : Z;
  hook : bool;
  global_hook : bool;
  commit_deltas : list (Z * Write);
  security_domain : SecurityDomain;
  replicated : bool
}.
Arguments mkMap {T} _ _ _ _ _ _ _ _.
Arguments name {T} _.
Arguments commits {T} _.
Arguments rollback_counter {T} _.
Arguments hook {T} _.
Arguments global_hook {T} _.
Arguments commit_deltas {T} _.
Arguments security_domain {T} _.
Arguments replicated {T} _.

Definition nonempty_list {A} (l : list A) : bool := match l with [] => false | _ :: _ => true end.

Definition set_commits {T} (c : list (LocalCommit T)) (m : Map T) : Map T :=
  mkMap (name m) c (rollback_counter m) (hook m) (global_hook m) (commit_deltas m) (security_domain m) (replicated m).
Definition set_counter {T} (n : Z) (m : Map T) : Map T :=
  mkMap (name m) (commits m) n (hook m) (global_hook m) (commit_deltas m) (security_domain m) (replicated m).
Definition set_deltas {T} (d : list (Z * Write)) (m : Map T) : Map T :=
  mkMap (name m) (commits m) (rollback_counter m) (hook m) (global_hook m) d (security_domain m) (replicated m).

(** [Map::Snapshot]: the state is immutable. *)
Record Snapshot (T : Type) := mkSnapshot { sn_name : list Z; sn_domain : SecurityDomain; sn_version : Z; sn_state : T }.
Arguments mkSnapshot {T} _ _ _ _.
Arguments sn_name {T} _.
Arguments sn_domain {T} _.
Arguments sn_version {T} _.
Arguments sn_state {T} _.

(** [ChangeSet] and [SnapshotChangeSet]. *)
Inductive ChangeSet (T : Type) :=
  | Changes (rollbacks : Z) (cs : KvHandle.ChangeSet)
  | SnapshotChanges (state : T) (version : Z).
Arguments Changes {T} _ _.
Arguments SnapshotChanges {T} _ _.

Definition has_writes {T} (c : ChangeSet T) : bool :=
  match c with
  | Changes _ cs => match KvHandle.writes cs with [] => false | _ :: _ => true end
  | SnapshotChanges _ _ => true
  end.

Section ops.
Context {T : Type} `{ST : KvState VersionV T}.
Implicit Types (m : Map T).

(** [reset_commits] *)
Definition reset_commits m : Map T := set_commits [mkCommit 0 st_empty []] m.

Definition new_map (n : list Z) (domain : SecurityDomain) (repl : bool) : Map T :=
  reset_commits (mkMap n [] 0 false false [] domain repl).

Definition get_tail m : result (LocalCommit T) :=
  match last (commits m) with Some c => Ok c | None => Undef end.
Definition get_head m : result (LocalCommit T) :=
  match head (commits m) with Some c => Ok c | None => Undef end.

(** The last commit at or before [v], searched from the tail. *)
Fixpoint find_at (v : Z) (rev_commits : list (LocalCommit T)) : option (LocalCommit T) :=
  match rev_commits with
  | [] => None
  | c :: l => if lc_version c <=? v then Some c else find_at v l
  end.

(** *** create_change_set *)

(** A handle looks at the entries of the states in the order of [foreach]. *)
Definition open_changes (rollbacks : Z) (current committed : LocalCommit T) : result (ChangeSet T) :=
  es ← st_entries (lc_state current);
  com ← st_entries (lc_state committed);
  Ok (Changes rollbacks (KvHandle.mkChanges es com (lc_version current) NoVersion [] [])).

Definition create_change_set (v : Z) m : result (option (ChangeSet T)) :=
  match find_at v (reverse (commits m)) with
  | None => Ok None
  | Some current =>
      h ← get_head m;
      cs ← open_changes (rollback_counter m) current h;
      Ok (Some cs)
  end.

(** *** HandleCommitter *)

(** The loop over the read set. *)
Fixpoint check_reads (track : bool) (current : T) (reads : list (K * (Z * Z))) : result bool :=
  match reads with
  | [] => Ok true
  | (k, (ver, rver)) :: reads =>
      search ← st_get k current;
      if ver =? NoVersion then
        match search with
        | Some _ => Ok false
        | None => check_reads track current reads
        end
      else
        match search with
        | None => Ok false
        | Some s =>
            if negb (ver =? KvHandle.version s) || (track && negb (rver =? KvHandle.read_version s)) then Ok false
            else check_reads track current reads
        end
  end.

Definition prepare_changes (track : bool) (rollbacks : Z) (cs : KvHandle.ChangeSet) m : result bool :=
  match KvHandle.writes cs with
  | [] => Ok true
  | _ :: _ =>
      if negb (rollbacks =? rollback_counter m) then Ok false
      else
        current ← get_tail m;
        let read_version := KvHandle.cs_read_version cs in
        if negb (read_version =? NoVersion) && negb (read_version =? lc_version current) then Ok false
        else check_reads track (lc_state current) (KvHandle.reads cs)
  end.

(** Move the read versions of the keys that were read. *)
Fixpoint track_reads (v : Z) (reads : list (K * (Z * Z))) (state : T) : result T :=
  match reads with
  | [] => Ok state
  | (k, _) :: reads =>
      search ← st_get k state;
      match search with
      | None => track_reads v reads state
      | Some s =>
          state ← st_put k (mkVersionV (KvHandle.version s) v (KvHandle.value s)) state;
          track_reads v reads state
      end
  end.

(** The loop over the write set; the flag is [changes]. *)
Fixpoint apply_writes (v_ : Z) (writes : Write) (state : T) (changes : bool) : result (T * bool) :=
  match writes with
  | [] => Ok (state, changes)
  | (k, Some value) :: writes =>
      state ← st_put k (mkVersionV (to_i64 v_) v_ value) state;
      apply_writes v_ writes state true
  | (k, None) :: writes =>
      search ← st_get (V := VersionV) k state;
      match search with
      | Some _ =>
          state ← st_put k (mkVersionV (- to_i64 v_) v_ []) state;
          apply_writes v_ writes state true
      | None => apply_writes v_ writes state changes
      end
  end.

Definition insert_back (c : LocalCommit T) m : Map T := set_commits (commits m ++ [c]) m.

(** The new map and [commit_version]. *)
Definition commit_changes (v_ : Z) (track : bool) (cs : KvHandle.ChangeSet) m : result (Map T * Z) :=
  let no_writes := match KvHandle.writes cs with [] => true | _ :: _ => false end in
  let start := KvHandle.start_version cs in
  if no_writes && negb track then Ok (m, start)
  else
    tail ← get_tail m;
    state ← (if track then track_reads v_ (KvHandle.reads cs) (lc_state tail) else Ok (lc_state tail));
    if track && no_writes then Ok (insert_back (mkCommit start state (KvHandle.writes cs)) m, start)
    else
      r ← apply_writes v_ (KvHandle.writes cs) state false;
      let '(state, changes) := r : T * bool in
      let v := to_i64 v_ in
      Ok (if changes then insert_back (mkCommit (wrap64 v) state (KvHandle.writes cs)) m else m, wrap64 v).

(** *** SnapshotHandleCommitter *)

Definition snapshot_writes (es : list (K * VersionV)) : Write :=
  foldl (fun w e => KvHandle.map_put e.1
           (if KvHandle.is_deleted (KvHandle.version e.2) then None else Some (KvHandle.value e.2)) w) [] es.

Definition commit_snapshot (state : T) (version : Z) m : result (Map T) :=
  w ← (if hook m || global_hook m then es ← st_entries state; Ok (snapshot_writes es) else Ok []);
  Ok (set_counter (wrap64 (rollback_counter m + 1)) (set_commits [mkCommit version state w] m)).

(** *** The committer interface *)

Definition prepare (track : bool) (c : ChangeSet T) m : result bool :=
  match c with
  | Changes rollbacks cs => prepare_changes track rollbacks cs m
  | SnapshotChanges _ _ => Ok true
  end.

Definition commit (v : Z) (track : bool) (c : ChangeSet T) m : result (Map T * Z) :=
  match c with
  | Changes _ cs => commit_changes v track cs m
  | SnapshotChanges state version => m ← commit_snapshot state version m; Ok (m, version)
  end.

(** [trigger_map_hook]: the call of the hook, if there is one. *)
Definition trigger_map_hook (version : Z) (writes : Write) m : option (Z * Write) :=
  if hook m && match writes with [] => false | _ :: _ => true end then Some (version, writes) else None.

Definition post_commit (commit_version : Z) (c : ChangeSet T) m : result (option (Z * Write)) :=
  match c with
  | Changes _ cs => Ok (trigger_map_hook commit_version (KvHandle.writes cs) m)
  | SnapshotChanges _ version => r ← get_head m; Ok (trigger_map_hook version (lc_writes r) m)
  end.

(** *** Snapshot, rollback, compaction *)

(** What a snapshot at [v] contains of the table. *)
Definition snapshot (v : Z) m : result (Snapshot T) :=
  h ← get_head m;
  let r := match find_at v (reverse (commits m)) with Some c => c | None => h end in
  Ok (mkSnapshot (name m) (security_domain m) (lc_version r) (lc_state r)).

(** Pop from the tail while it is newer than [v], the list from the tail to the
    head; whether something was popped. *)
Fixpoint pop_tail (v : Z) (rev_commits : list (LocalCommit T)) : list (LocalCommit T) * bool :=
  match rev_commits with
  | r :: (_ :: _) as rest =>
      if lc_version r <=? v then (rev_commits, false) else (fst (pop_tail v rest), true)
  | _ => (rev_commits, false)
  end.

Definition rollback (v : Z) m : Map T :=
  let '(l, advance) := pop_tail v (reverse (commits m)) in
  let m := set_commits (reverse l) m in
  if advance then set_counter (wrap64 (rollback_counter m + 1)) m else m.

(** One turn of the loop of [compact] per commit; the commits that stay and the
    deltas. *)
Definition delta (c : LocalCommit T) : Z * Write := (lc_version c, lc_writes c).
Definition moved (c : LocalCommit T) : LocalCommit T := mkCommit (lc_version c) (lc_state c) [].
Definition nonempty (w : Write) : bool := match w with [] => false | _ :: _ => true end.

Fixpoint compact_loop (ghook : bool) (v : Z) (l : list (LocalCommit T)) (deltas : list (Z * Write)) :
  list (LocalCommit T) * list (Z * Write) :=
  match l with
  | [] => ([], deltas)
  | [r] =>
      if ghook && nonempty (lc_writes r) then ([moved r], deltas ++ [delta r]) else ([r], deltas)
  | r :: ((next :: _) as rest) =>
      if lc_version r =? v then
        if ghook then (moved r :: rest, deltas ++ [delta r]) else (l, deltas)
      else
        let '(r, deltas) :=
          if ghook && nonempty (lc_writes r) then (moved r, deltas ++ [delta r]) else (r, deltas) in
        if v <? lc_version next then (r :: rest, deltas)
        else compact_loop ghook v rest deltas
  end.

Definition compact (v : Z) m : Map T :=
  let '(l, deltas) := compact_loop (global_hook m) v (commits m) (commit_deltas m) in
  set_deltas deltas (set_commits l m).

(** The calls of the global hook. *)
Definition post_compact m : Map T * list (Z * Write) :=
  (set_deltas [] m, if global_hook m then commit_deltas m else []).

Definition clear m : Map T := set_counter 0 (reset_commits m).

(** [std::swap] of the rolls. *)
Definition swap m (m' : Map T) : Map T * Map T :=
  (set_counter (rollback_counter m') (set_commits (commits m') m),
   set_counter (rollback_counter m) (set_commits (commits m) m')).

End ops.

(** ** Transactions as programs over a handle *)

Inductive hop :=
  | HGet (k : K) | HHas (k : K) | HVersion (k : K) | HPut (k : K) (v : V) | HRemove (k : K)
  | HSize | HForeach | HRange (from to : K) | HClear.
Inductive reply :=
  | RNone | RVal (v : option V) | RBool (b : bool) | RVersion (v : option Z) | RSize (n : Z)
  | REntries (l : list (K * V)).

Definition run_hop (o : hop) (cs : KvHandle.ChangeSet) : KvHandle.ChangeSet * reply :=
  match o with
  | HGet k => let '(cs, v) := KvHandle.get k cs in (cs, RVal v)
  | HHas k => let '(cs, b) := KvHandle.has k cs in (cs, RBool b)
  | HVersion k => let '(cs, v) := KvHandle.get_version_of_previous_write k cs in (cs, RVersion v)
  | HPut k v => (KvHandle.put k v cs, RNone)
  | HRemove k => let '(cs, b) := KvHandle.remove k cs in (cs, RBool b)
  | HSize => let '(cs, n) := KvHandle.size cs in (cs, RSize n)
  | HForeach => let '(cs, l) := KvHandle.foreach KvHandle.collect cs [] in (cs, REntries l)
  | HRange from to => let '(cs, l) := KvHandle.range from to cs in (cs, REntries l)
  | HClear => (KvHandle.clear cs, RNone)
  end.

(** What a transaction does next depends on the replies so far. *)
Inductive prog (A : Type) := Ret (a : A) | Do (o : hop) (next : reply -> prog A).
Arguments Ret {A} _.
Arguments Do {A} _ _.

Fixpoint run {A} (p : prog A) (cs : KvHandle.ChangeSet) : KvHandle.ChangeSet * A :=
  match p with
  | Ret a => (cs, a)
  | Do o next => let '(cs, r) := run_hop o cs in run (next r) cs
  end.

(** In the run of [p] every removed key has been read before. *)
Fixpoint checked_removes {A} (p : prog A) (cs : KvHandle.ChangeSet) : Prop :=
  match p with
  | Ret _ => True
  | Do o next =>
      match o with HRemove k => is_Some (KvHandle.map_find k (KvHandle.reads cs)) | _ => True end /\
      checked_removes (next (snd (run_hop o cs))) (fst (run_hop o cs))
  end.

Definition iterates (o : hop) : bool :=
  match o with
  | HSize | HForeach | HClear => true
  | HRange from to => negb (bool_decide (from = to) || KvHandle.key_lt to from)
  | _ => false
  end.
(** The run of [p] iterates over the table. *)
Fixpoint iterated {A} (p : prog A) (cs : KvHandle.ChangeSet) : bool :=
  match p with
  | Ret _ => false
  | Do o next => iterates o || iterated (next (snd (run_hop o cs))) (fst (run_hop o cs))
  end.

(** ** Specification *)

(** What happened to a state after version [v]: every other value is newer. *)
Definition newer (v : Z) (s s' : gmap K VersionV) : Prop :=
  forall k, s' !! k = s !! k \/ exists e, s' !! k = Some e /\ v < Z.abs (KvHandle.version e).
Definition bounded (v : Z) (s : gmap K VersionV) : Prop :=
  forall k e, s !! k = Some e -> 0 < Z.abs (KvHandle.version e) <= v.

Definition write_ok (e : K * option V) : Prop :=
  zlen e.1 < M32 - 16 /\ match e.2 with Some v => zlen v < M32 - 24 | None => True end.
Definition writes_ok (cs : KvHandle.ChangeSet) : Prop :=
  Forall write_ok (KvHandle.writes cs) /\ KvHandle.sorted (KvHandle.writes cs).

Section spec.
Context {T : Type} `{ST : KvState VersionV T} `{KL : !KvStateLaws VersionV T}.
Implicit Types (m : Map T) (c : LocalCommit T).

Definition commit_ok c : Prop :=
  st_ok (lc_state c) /\ 0 <= lc_version c < 2 ^ 63 /\ bounded (lc_version c) (st_model (lc_state c)).

Fixpoint chain (l : list (LocalCommit T)) : Prop :=
  match l with
  | [] => True
  | c :: l =>
      commit_ok c /\ chain l /\
      match l with
      | [] => True
      | c' :: _ => lc_version c < lc_version c' /\ newer (lc_version c) (st_model (lc_state c)) (st_model (lc_state c'))
      end
  end.

Definition map_ok m : Prop := commits m <> [] /\ chain (commits m) /\ u64 (rollback_counter m).

(** [c] is a commit that [m] still descends from. *)
Definition ancestor c m : Prop :=
  exists t, last (commits m) = Some t /\ lc_version c <= lc_version t /\
    newer (lc_version c) (st_model (lc_state c)) (st_model (lc_state t)) /\
    (lc_version c = lc_version t -> lc_state c = lc_state t).

(** What can happen to a table, with the number of times the rollback counter
    moves. *)
Inductive step : Z -> Map T -> Map T -> Prop :=
  | step_commit v cs m m' cv t : writes_ok cs -> last (commits m) = Some t -> lc_version t < v < 2 ^ 63 ->
      commit_changes v false cs m = Ok (m', cv) -> step 0 m m'
  | step_compact v m : step 0 m (compact v m)
  | step_post_compact m : step 0 m (fst (post_compact m))
  | step_rollback v m : step (if snd (pop_tail v (reverse (commits m))) then 1 else 0) m (rollback v m)
  | step_snapshot s v m m' : commit_ok (mkCommit v s []) -> commit_snapshot s v m = Ok m' -> step 1 m m'.
Inductive evolves : Z -> Map T -> Map T -> Prop :=
  | evolves_refl m : evolves 0 m m
  | evolves_step n n' m m' m'' : evolves n m m' -> step n' m' m'' -> evolves (n + n') m m''.

(** The state of the table at a version. *)
Definition state_at (v : Z) m : option (gmap K VersionV) :=
  (fun c => st_model (lc_state c)) <$> find_at v (reverse (commits m)).

End spec.

(** ** Lemmas *)

Lemma newer_refl v s : newer v s s.
Proof. by left. Qed.
Lemma newer_trans v v' s1 s2 s3 : v <= v' -> newer v s1 s2 -> newer v' s2 s3 -> newer v s1 s3.
Proof.
  intros Hv H1 H2 k. destruct (H2 k) as [E|(e & E & Hlt)]; [rewrite E; apply H1 | right; exists e; split; [done | lia]].
Qed.
Lemma bounded_le v v' s : v <= v' -> bounded v s -> bounded v' s.
Proof. intros Hv Hb k e He. specialize (Hb k e He). lia. Qed.

(** *** Handles *)

(** What no operation changes, and what it records. *)
Definition same_base (cs cs' : KvHandle.ChangeSet) : Prop :=
  KvHandle.state cs' = KvHandle.state cs /\ KvHandle.start_version cs' = KvHandle.start_version cs.
Definition reads_grow (cs cs' : KvHandle.ChangeSet) : Prop :=
  forall k r, KvHandle.map_find k (KvHandle.reads cs) = Some r -> KvHandle.map_find k (KvHandle.reads cs') = Some r.
(** The read set records the versions in the state. *)
Definition reads_ok (cs : KvHandle.ChangeSet) : Prop :=
  forall k ver rv, KvHandle.map_find k (KvHandle.reads cs) = Some (ver, rv) ->
    match KvHandle.map_find k (KvHandle.state cs) with
    | None => ver = NoVersion
    | Some e => ver = KvHandle.version e
    end.

Lemma map_insert_find {A} k k' (a : A) l : KvHandle.map_find k (KvHandle.map_insert k' a l) =
  match KvHandle.map_find k l with Some x => Some x | None => if bool_decide (k' = k) then Some a else None end.
Proof.
  unfold KvHandle.map_insert. destruct (KvHandle.map_find k' l) as [x|] eqn:E.
  - case_bool_decide as Hk; [subst; by rewrite E | by destruct (KvHandle.map_find k l)].
  - rewrite !KvHandle.map_find_lookup, KvHandle.map_put_map in *. case_bool_decide as Hk.
    + subst. by rewrite lookup_insert_eq, E.
    + rewrite lookup_insert_ne by done. by destruct (list_to_map l !! k).
Qed.

Lemma remove_base k cs : let cs' := fst (KvHandle.remove k cs) in
  same_base cs cs' /\ KvHandle.reads cs' = KvHandle.reads cs /\ KvHandle.cs_read_version cs' = KvHandle.cs_read_version cs.
Proof.
  unfold KvHandle.remove. destruct (KvHandle.map_find k (KvHandle.writes cs)), (KvHandle.map_find k (KvHandle.state cs)); done.
Qed.

Lemma clear_base cs : let cs' := KvHandle.clear cs in
  same_base cs cs' /\ KvHandle.reads cs' = KvHandle.reads cs /\ KvHandle.cs_read_version cs' = KvHandle.start_version cs.
Proof.
  rewrite KvHandle.clear_run.
  assert (Hf : forall l c, same_base cs c -> KvHandle.reads c = KvHandle.reads cs ->
    KvHandle.cs_read_version c = KvHandle.start_version cs ->
    let c' := foldl (fun a (e : K * V) => fst (KvHandle.remove e.1 a)) c l in
    same_base cs c' /\ KvHandle.reads c' = KvHandle.reads cs /\ KvHandle.cs_read_version c' = KvHandle.start_version cs).
  { induction l as [|e l IH]; intros c [H1 H2] H3 H4; [done|]. cbn [foldl]. destruct (remove_base e.1 c) as ([R1 R2] & R3 & R4).
    apply IH; [split; congruence | congruence | congruence]. }
  by apply Hf.
Qed.

(** A read of one key, recorded with what was found. *)
Lemma record_read k cs : reads_ok cs ->
  let r := match KvHandle.map_find k (KvHandle.state cs) with
           | None => (NoVersion, NoVersion)
           | Some s => (KvHandle.version s, KvHandle.read_version s)
           end in
  let cs' := KvHandle.set_reads (KvHandle.map_insert k r (KvHandle.reads cs)) cs in
  reads_ok cs' /\ reads_grow cs cs' /\ is_Some (KvHandle.map_find k (KvHandle.reads cs')).
Proof.
  intros Hok r cs'. split_and!.
  - intros k' ver rv. cbn [cs' KvHandle.set_reads KvHandle.reads KvHandle.state]. rewrite map_insert_find.
    destruct (KvHandle.map_find k' (KvHandle.reads cs)) as [x|] eqn:E.
    + intros [= ->]. by apply (Hok k' ver rv).
    + case_bool_decide as Hk; [|done]. subst k'. intros [= Hr]. unfold r in Hr.
      by destruct (KvHandle.map_find k (KvHandle.state cs)); injection Hr.
  - intros k' x Hx. cbn. by rewrite map_insert_find, Hx.
  - cbn. rewrite map_insert_find. destruct (KvHandle.map_find k (KvHandle.reads cs)); [by eexists|].
    rewrite bool_decide_eq_true_2 by done. by eexists.
Qed.

Lemma grow_refl cs : reads_grow cs cs. Proof. by intros k r. Qed.
#[local] Hint Resolve grow_refl : core.

Definition hop_post (o : hop) (cs cs' : KvHandle.ChangeSet) : Prop :=
  same_base cs cs' /\ reads_ok cs' /\ reads_grow cs cs' /\
  KvHandle.cs_read_version cs' = (if iterates o then KvHandle.start_version cs else KvHandle.cs_read_version cs).

Lemma reads_same cs cs' : same_base cs cs' -> KvHandle.reads cs' = KvHandle.reads cs -> reads_ok cs ->
  reads_ok cs' /\ reads_grow cs cs'.
Proof.
  intros [Hs _] Hr Hok. unfold reads_ok, reads_grow. rewrite Hr, Hs. done.
Qed.

Ltac hop_done := unfold hop_post; split_and!;
  first [split; reflexivity | assumption | match goal with H : reads_ok _ |- _ => exact H end | (intros ? ? H; exact H) | done].

Lemma read_key_post k cs o : reads_ok cs -> iterates o = false -> hop_post o cs (fst (KvHandle.read_key k cs)).
Proof.
  intros Hok Hi. unfold hop_post, KvHandle.read_key. rewrite Hi.
  destruct (KvHandle.map_find k (KvHandle.writes cs)) as [[v|]|]; [hop_done..|].
  destruct (record_read k cs Hok) as (H1 & H2 & _).
  destruct (KvHandle.map_find k (KvHandle.state cs)) as [e|]; [destruct (KvHandle.is_deleted _)|]; hop_done.
Qed.

Lemma run_hop_post o cs : reads_ok cs -> hop_post o cs (fst (run_hop o cs)).
Proof.
  intros Hok. destruct o as [k|k|k|k v|k| | |from to|]; cbn [run_hop].
  - pose proof (read_key_post k cs (HGet k) Hok eq_refl) as Hp. unfold KvHandle.get. by destruct (KvHandle.read_key k cs).
  - pose proof (read_key_post k cs (HHas k) Hok eq_refl) as Hp. unfold KvHandle.has. by destruct (KvHandle.read_key k cs).
  - unfold KvHandle.get_version_of_previous_write. destruct (record_read k cs Hok) as (H1 & H2 & _). unfold hop_post.
    destruct (KvHandle.map_find k (KvHandle.state cs)) as [e|]; [destruct (KvHandle.is_deleted _)|]; hop_done.
  - hop_done.
  - destruct (remove_base k cs) as (H1 & H2 & H3). destruct (KvHandle.remove k cs) as [cs' b]. cbn [fst] in *.
    destruct (reads_same cs cs' H1 H2 Hok). hop_done.
  - rewrite KvHandle.size_run. hop_done.
  - rewrite KvHandle.collect_run. hop_done.
  - rewrite KvHandle.range_run. unfold hop_post. cbn [iterates]. destruct (bool_decide (from = to) || _); hop_done.
  - destruct (clear_base cs) as (H1 & H2 & H3). destruct (reads_same cs _ H1 H2 Hok). hop_done.
Qed.

Lemma run_post {A} (p : prog A) : forall cs, reads_ok cs ->
  let cs' := fst (run p cs) in
  same_base cs cs' /\ reads_ok cs' /\ reads_grow cs cs' /\
  KvHandle.cs_read_version cs' = (if iterated p cs then KvHandle.start_version cs else KvHandle.cs_read_version cs).
Proof.
  induction p as [a|o next IH]; intros cs Hok; cbn [run iterated]; [hop_done|].
  pose proof (run_hop_post o cs Hok) as ([S1 S2] & R1 & G1 & V1). destruct (run_hop o cs) as [cs1 r]. cbn [fst snd] in *.
  destruct (IH r cs1 R1) as ([S3 S4] & R2 & G2 & V2). split_and!; [split; congruence | done | |].
  - intros k x Hx. by apply G2, G1.
  - rewrite V2, S2, V1. by destruct (iterates o), (iterated (next r) cs1).
Qed.

Lemma run_hop_base o cs : same_base cs (fst (run_hop o cs)).
Proof.
  destruct o as [k|k|k|k v|k| | |from to|]; cbn [run_hop]; try (split; reflexivity).
  - unfold KvHandle.get, KvHandle.read_key. destruct (KvHandle.map_find k _) as [[]|]; [done..|].
    by destruct (KvHandle.map_find k _); [destruct (KvHandle.is_deleted _)|].
  - unfold KvHandle.has, KvHandle.read_key. destruct (KvHandle.map_find k _) as [[]|]; [done..|].
    by destruct (KvHandle.map_find k _); [destruct (KvHandle.is_deleted _)|].
  - unfold KvHandle.get_version_of_previous_write. by destruct (KvHandle.map_find k _); [destruct (KvHandle.is_deleted _)|].
  - pose proof (remove_base k cs) as [H _]. by destruct (KvHandle.remove k cs).
  - by rewrite KvHandle.size_run.
  - by rewrite KvHandle.collect_run.
  - rewrite KvHandle.range_run. by destruct (_ || _).
  - apply clear_base.
Qed.

(** The read set is a std::map. *)
Lemma run_hop_reads o cs : KvHandle.sorted (KvHandle.reads cs) -> KvHandle.sorted (KvHandle.reads (fst (run_hop o cs))).
Proof.
  intros Hs. assert (Hi : forall k r, KvHandle.sorted (KvHandle.map_insert k r (KvHandle.reads cs))).
  { intros k r. unfold KvHandle.map_insert. destruct (KvHandle.map_find k _); [done | by apply KvHandle.sorted_put]. }
  assert (Hr : forall k, KvHandle.sorted (KvHandle.reads (fst (KvHandle.read_key k cs)))).
  { intros k. unfold KvHandle.read_key. destruct (KvHandle.map_find k _) as [[]|]; [done..|].
    destruct (KvHandle.map_find k _); [destruct (KvHandle.is_deleted _)|]; apply Hi. }
  destruct o as [k|k|k|k v|k| | |from to|]; cbn [run_hop]; try done.
  - specialize (Hr k). unfold KvHandle.get. by destruct (KvHandle.read_key k cs).
  - specialize (Hr k). unfold KvHandle.has. by destruct (KvHandle.read_key k cs).
  - unfold KvHandle.get_version_of_previous_write. destruct (KvHandle.map_find k _); [destruct (KvHandle.is_deleted _)|]; apply Hi.
  - destruct (remove_base k cs) as (_ & E & _). destruct (KvHandle.remove k cs). cbn in *. by rewrite E.
  - by rewrite KvHandle.size_run.
  - by rewrite KvHandle.collect_run.
  - rewrite KvHandle.range_run. by destruct (_ || _).
  - destruct (clear_base cs) as (_ & E & _). cbn. by rewrite E.
Qed.

Lemma run_reads {A} (p : prog A) : forall cs, KvHandle.sorted (KvHandle.reads cs) -> KvHandle.sorted (KvHandle.reads (fst (run p cs))).
Proof.
  induction p as [a|o next IH]; intros cs Hs; cbn [run]; [done|]. pose proof (run_hop_reads o cs Hs). destruct (run_hop o cs). by apply IH.
Qed.

(** *** Two runs that read the same *)

(** The states agree on the keys of a read set. *)
Definition agree (reads : list (K * (Z * Z))) (cs cs' : KvHandle.ChangeSet) : Prop :=
  forall k, is_Some (KvHandle.map_find k reads) ->
    KvHandle.map_find k (KvHandle.state cs') = KvHandle.map_find k (KvHandle.state cs).

Lemma run_hop_agree o cs cs' reads : reads_ok cs -> iterates o = false -> KvHandle.writes cs' = KvHandle.writes cs ->
  match o with HRemove k => is_Some (KvHandle.map_find k (KvHandle.reads cs)) | _ => True end ->
  reads_grow (fst (run_hop o cs)) (KvHandle.set_reads reads cs) -> reads_grow cs (KvHandle.set_reads reads cs) ->
  agree reads cs cs' ->
  snd (run_hop o cs') = snd (run_hop o cs) /\
  KvHandle.writes (fst (run_hop o cs')) = KvHandle.writes (fst (run_hop o cs)).
Proof.
  intros Hok Hi Hw Hrm Hg Hg0 Ha.
  assert (Hrd : forall k, is_Some (KvHandle.map_find k (KvHandle.reads (fst (run_hop o cs)))) ->
    KvHandle.map_find k (KvHandle.state cs') = KvHandle.map_find k (KvHandle.state cs)).
  { intros k [x Hx]. apply Ha. exists x. by apply Hg. }
  assert (Hread : forall k, fst (run_hop o cs) = fst (KvHandle.read_key k cs) ->
    snd (KvHandle.read_key k cs') = snd (KvHandle.read_key k cs) /\
    KvHandle.writes (fst (KvHandle.read_key k cs')) = KvHandle.writes (fst (KvHandle.read_key k cs))).
  { intros k Hk. rewrite Hk in Hrd. specialize (Hrd k). revert Hrd. clear -Hok Hw. unfold KvHandle.read_key. rewrite Hw.
    destruct (KvHandle.map_find k (KvHandle.writes cs)) as [[v|]|]; [done..|]. destruct (record_read k cs Hok) as (_ & _ & Hin).
    intros Hrd. assert (Hs : KvHandle.map_find k (KvHandle.state cs') = KvHandle.map_find k (KvHandle.state cs)).
    { apply Hrd. destruct (KvHandle.map_find k (KvHandle.state cs)) as [e|]; [destruct (KvHandle.is_deleted _)|]; exact Hin. }
    rewrite Hs. destruct (KvHandle.map_find k (KvHandle.state cs)) as [e|]; [destruct (KvHandle.is_deleted _)|]; done. }
  destruct o as [k|k|k|k v|k| | |from to|]; cbn [run_hop iterates] in *; try discriminate.
  - unfold KvHandle.get in *. specialize (Hread k). destruct (KvHandle.read_key k cs), (KvHandle.read_key k cs'). cbn in *.
    destruct Hread as [-> ->]; done.
  - unfold KvHandle.has in *. specialize (Hread k). destruct (KvHandle.read_key k cs), (KvHandle.read_key k cs'). cbn in *.
    destruct Hread as [-> ->]; done.
  - specialize (Hrd k). revert Hrd. unfold KvHandle.get_version_of_previous_write. destruct (record_read k cs Hok) as (_ & _ & Hin).
    intros Hrd. assert (Hs : KvHandle.map_find k (KvHandle.state cs') = KvHandle.map_find k (KvHandle.state cs)).
    { apply Hrd. destruct (KvHandle.map_find k (KvHandle.state cs)) as [e|]; [destruct (KvHandle.is_deleted _)|]; exact Hin. }
    rewrite Hs. destruct (KvHandle.map_find k (KvHandle.state cs)) as [e|]; [destruct (KvHandle.is_deleted _)|]; done.
  - cbn. by rewrite Hw.
  - assert (Hs : KvHandle.map_find k (KvHandle.state cs') = KvHandle.map_find k (KvHandle.state cs)).
    { apply Ha. destruct Hrm as [x Hx]. exists x. by apply Hg0. }
    unfold KvHandle.remove. rewrite Hw, Hs.
    destruct (KvHandle.map_find k (KvHandle.writes cs)), (KvHandle.map_find k (KvHandle.state cs)); cbn; by rewrite ?Hw.
  - unfold KvHandle.range. apply negb_false_iff in Hi. by rewrite Hi.
Qed.

Lemma run_agree {A} (p : prog A) : forall cs cs', reads_ok cs -> iterated p cs = false -> checked_removes p cs ->
  KvHandle.writes cs' = KvHandle.writes cs -> same_base cs (fst (run p cs)) ->
  agree (KvHandle.reads (fst (run p cs))) cs cs' ->
  snd (run p cs') = snd (run p cs) /\ KvHandle.writes (fst (run p cs')) = KvHandle.writes (fst (run p cs)).
Proof.
  induction p as [a|o next IH]; intros cs cs' Hok Hi Hc Hw _ Ha; cbn [run iterated checked_removes] in *; [done|].
  apply orb_false_iff in Hi as [Hi Hi']. destruct Hc as [Hrm Hc].
  pose proof (run_hop_post o cs Hok) as ([S1 S2] & R1 & G1 & _).
  pose proof (run_post (next (snd (run_hop o cs))) (fst (run_hop o cs)) R1) as (B2 & _ & G2 & _).
  assert (Hrun : run (next (snd (run_hop o cs))) (fst (run_hop o cs)) = (let '(c, r) := run_hop o cs in run (next r) c))
    by (by destruct (run_hop o cs)).
  rewrite <- Hrun in Ha |- *. clear Hrun. set (fin := fst (run _ _)) in *.
  destruct (run_hop_agree o cs cs' (KvHandle.reads fin) Hok Hi Hw Hrm) as [E1 E2].
  - done.
  - intros k x Hx. by apply G2, G1.
  - done.
  - destruct (run_hop_base o cs') as [S3 _].
    destruct (run_hop o cs') as [c1' r'] eqn:Ec'. cbn [fst snd] in *. subst r'.
    apply IH; [done | done | done | done | done |]. intros k Hk. rewrite S1, S3. by apply Ha.
Qed.

(** Change sets that a transaction cannot tell apart. *)
Definition same_data (cs cs' : KvHandle.ChangeSet) : Prop :=
  KvHandle.state cs' = KvHandle.state cs /\ KvHandle.writes cs' = KvHandle.writes cs.

Lemma remove_same k cs cs' : same_data cs cs' ->
  same_data (fst (KvHandle.remove k cs)) (fst (KvHandle.remove k cs')) /\
  snd (KvHandle.remove k cs') = snd (KvHandle.remove k cs).
Proof.
  intros [Hs Hw]. unfold KvHandle.remove. rewrite Hs, Hw. unfold same_data.
  destruct (KvHandle.map_find k (KvHandle.writes cs)), (KvHandle.map_find k (KvHandle.state cs)); by split_and!; cbn; rewrite ?Hw.
Qed.

Lemma run_hop_same o cs cs' : same_data cs cs' ->
  snd (run_hop o cs') = snd (run_hop o cs) /\ same_data (fst (run_hop o cs)) (fst (run_hop o cs')).
Proof.
  intros Hd. pose proof Hd as [Hs Hw]. assert (Hv : KvHandle.visited cs' = KvHandle.visited cs) by (unfold KvHandle.visited; by rewrite Hs, Hw).
  assert (Hread : forall k, snd (KvHandle.read_key k cs') = snd (KvHandle.read_key k cs) /\
    same_data (fst (KvHandle.read_key k cs)) (fst (KvHandle.read_key k cs'))).
  { intros k. unfold KvHandle.read_key. rewrite Hs, Hw. destruct (KvHandle.map_find k (KvHandle.writes cs)) as [[v|]|]; [done..|].
    destruct (KvHandle.map_find k (KvHandle.state cs)); [destruct (KvHandle.is_deleted _)|]; by split. }
  destruct o as [k|k|k|k v|k| | |from to|]; cbn [run_hop].
  - unfold KvHandle.get. destruct (Hread k) as [E ?]. destruct (KvHandle.read_key k cs), (KvHandle.read_key k cs'). cbn in *. by rewrite E.
  - unfold KvHandle.has. destruct (Hread k) as [E ?]. destruct (KvHandle.read_key k cs), (KvHandle.read_key k cs'). cbn in *. by rewrite E.
  - unfold KvHandle.get_version_of_previous_write. rewrite Hs.
    destruct (KvHandle.map_find k (KvHandle.state cs)); [destruct (KvHandle.is_deleted _)|]; by split.
  - split; [done|]. split; [done|]. cbn. by rewrite Hw.
  - destruct (remove_same k cs cs' Hd) as [H E]. destruct (KvHandle.remove k cs), (KvHandle.remove k cs'). cbn in *. by rewrite E.
  - rewrite !KvHandle.size_run, Hv. by split.
  - rewrite !KvHandle.collect_run, Hv. by split.
  - rewrite !KvHandle.range_run, Hv. by destruct (bool_decide (from = to) || _).
  - split; [done|]. rewrite !KvHandle.clear_run, Hv. assert (Hf : forall l c1 c2, same_data c1 c2 ->
      same_data (foldl (fun a (e : K * V) => fst (KvHandle.remove e.1 a)) c1 l) (foldl (fun a e => fst (KvHandle.remove e.1 a)) c2 l)).
    { induction l as [|e l IH]; intros c1 c2 H; [done|]. cbn [foldl]. apply IH. by apply remove_same. }
    by apply Hf.
Qed.

Lemma run_same {A} (p : prog A) : forall cs cs', same_data cs cs' ->
  snd (run p cs') = snd (run p cs) /\ same_data (fst (run p cs)) (fst (run p cs')).
Proof.
  induction p as [a|o next IH]; intros cs cs' Hd; cbn [run]; [done|]. destruct (run_hop_same o cs cs' Hd) as [E1 E2].
  destruct (run_hop o cs) as [c1 r1], (run_hop o cs') as [c1' r1']. cbn [fst snd] in *. subst. by apply IH.
Qed.

(** *** States *)

Section table.
Context {T : Type} `{ST : KvState VersionV T} `{KL : !KvStateLaws VersionV T}.
Implicit Types (m : Map T) (c : LocalCommit T).

(** The effect of one write. *)
Definition write1 (v : Z) (s : gmap K VersionV) (e : K * option V) : gmap K VersionV :=
  match e.2 with
  | Some value => <[e.1 := mkVersionV v v value]> s
  | None => match s !! e.1 with Some _ => <[e.1 := mkVersionV (- v) v []]> s | None => s end
  end.

Lemma version_ok v value : 0 <= v < 2 ^ 63 -> zlen value < M32 - 24 ->
  ser_ok (mkVersionV v v value) /\ ser_ok (mkVersionV (- v) v value).
Proof. intros Hv Hl. split; (split; [exact Hl | unfold i64; cbn [KvHandle.version]; lia]). Qed.

Lemma to_i64_small v : 0 <= v < 2 ^ 63 -> to_i64 v = v /\ wrap64 v = v.
Proof.
  intros Hv. unfold to_i64. destruct (Z.ltb_spec v (2 ^ 63)); [|lia]. split; [done|].
  apply wrap64_small. split; unfold M64; lia.
Qed.

Lemma apply_writes_spec v w : 0 <= v < 2 ^ 63 -> Forall write_ok w -> forall s changes, st_ok s ->
  exists s' changes', apply_writes v w s changes = Ok (s', changes') /\ st_ok s' /\
    st_model s' = foldl (write1 v) (st_model s) w /\ (changes' = false -> s' = s /\ changes = false).
Proof.
  intros Hv Hw. destruct (to_i64_small v Hv) as [Hi _].
  induction Hw as [|[k [value|]] w [Hk He] Hw IH]; intros s changes Hs; cbn [apply_writes foldl]; [by eexists _, _| |].
  - rewrite Hi. destruct (st_put_ok s k (mkVersionV v v value) Hs Hk) as (s1 & -> & Hs1 & Hm1); [by apply version_ok|].
    cbn [mbind result_bind]. destruct (IH s1 true Hs1) as (s2 & c2 & -> & Hs2 & Hm2 & Hc2). eexists _, _. split; [done|].
    unfold write1 at 2. cbn [fst snd]. rewrite <- Hm1. split_and!; [done | done |]. intros ->. by destruct (Hc2 eq_refl).
  - rewrite Hi, (st_get_ok s k Hs). cbn [mbind result_bind]. unfold write1 at 2. cbn [fst snd].
    destruct (st_model s !! k) as [e|] eqn:E; [|apply (IH s changes Hs)].
    destruct (st_put_ok s k (mkVersionV (- v) v []) Hs Hk) as (s1 & -> & Hs1 & Hm1); [by apply version_ok|].
    cbn [mbind result_bind]. destruct (IH s1 true Hs1) as (s2 & c2 & -> & Hs2 & Hm2 & Hc2). eexists _, _. split; [done|].
    rewrite <- Hm1. split_and!; [done | done |]. intros ->. by destruct (Hc2 eq_refl).
Qed.

(** What a key has after the writes of a sorted write set. *)
Lemma writes_lookup v w : KvHandle.sorted w -> forall s k,
  foldl (write1 v) s w !! k =
  match KvHandle.map_find k w with
  | None => s !! k
  | Some (Some value) => Some (mkVersionV v v value)
  | Some None => match s !! k with Some _ => Some (mkVersionV (- v) v []) | None => None end
  end.
Proof.
  induction w as [|[k' ov] w IH]; intros Hs s k; [done|]. pose proof (KvHandle.sorted_not_in _ _ _ Hs) as Hn.
  apply KvHandle.sorted_inv in Hs as [Hs _]. cbn [foldl KvHandle.map_find]. rewrite IH by done.
  unfold write1. cbn [fst snd]. case_bool_decide as E.
  - subst k'. rewrite Hn. destruct ov as [value|]; [by rewrite lookup_insert_eq|].
    destruct (s !! k) eqn:Ek; [by rewrite lookup_insert_eq | done].
  - assert (Hsame : match ov with Some value => <[k' := mkVersionV v v value]> s
      | None => match s !! k' with Some _ => <[k' := mkVersionV (- v) v []]> s | None => s end end !! k = s !! k).
    { destruct ov; [by rewrite lookup_insert_ne|]. destruct (s !! k'); [by rewrite lookup_insert_ne | done]. }
    by rewrite Hsame.
Qed.

Lemma writes_newer v v' w s : KvHandle.sorted w -> v < v' -> 0 <= v -> newer v s (foldl (write1 v') s w).
Proof.
  intros Hs Hv H0 k. rewrite writes_lookup by done. destruct (KvHandle.map_find k w) as [[value|]|].
  - right. eexists. split; [done|]. cbn. lia.
  - destruct (s !! k); [right; eexists; split; [done|]; cbn; lia | by left].
  - by left.
Qed.

Lemma writes_bounded v v' w s : KvHandle.sorted w -> v < v' -> 0 <= v -> bounded v s -> bounded v' (foldl (write1 v') s w).
Proof.
  intros Hs Hv H0 Hb k e. rewrite writes_lookup by done. destruct (KvHandle.map_find k w) as [[value|]|].
  - intros [= <-]. cbn. lia.
  - destruct (s !! k); [|done]. intros [= <-]. cbn. lia.
  - intros He. specialize (Hb k e He). lia.
Qed.

(** *** Chains of commits *)

Lemma chain_app l l' : chain (l ++ l') -> chain l /\ chain l'.
Proof.
  induction l as [|c l IH]; [done|]. cbn [app chain]. intros (H1 & H2 & H3). destruct (IH H2) as [H4 H5].
  split_and!; [done | done | | done]. by destruct l.
Qed.

Lemma chain_snoc l t c : chain (l ++ [t]) -> commit_ok c -> lc_version t < lc_version c ->
  newer (lc_version t) (st_model (lc_state t)) (st_model (lc_state c)) -> chain (l ++ [t; c]).
Proof.
  intros Hl Hc Hv Hn. induction l as [|c' l IH].
  - cbn in *. destruct Hl as (H1 & _ & _). by split_and!.
  - cbn [app chain] in *. destruct Hl as (H1 & H2 & H3). split_and!; [done | by apply IH |]. by destruct l.
Qed.

(** Along a chain the last commit descends from every other. *)
Lemma chain_last l : chain l -> forall c t, c ∈ l -> last l = Some t ->
  lc_version c <= lc_version t /\ newer (lc_version c) (st_model (lc_state c)) (st_model (lc_state t)) /\
  (lc_version c = lc_version t -> c = t).
Proof.
  induction l as [|c0 l IH]; intros Hl c t Hc Ht; [by apply elem_of_nil in Hc|]. cbn [chain] in Hl. destruct Hl as (H1 & H2 & H3).
  destruct l as [|c1 l]; cbn [last] in Ht.
  - injection Ht as ->. apply list_elem_of_singleton in Hc as ->. split_and!; [lia | apply newer_refl | done].
  - apply elem_of_cons in Hc as [->|Hc]; [|by apply IH]. destruct H3 as [H3 H4].
    destruct (IH H2 c1 t) as (I1 & I2 & _); [by left | done|]. split_and!; [lia | | lia].
    eapply newer_trans; [|exact H4 | exact I2]. lia.
Qed.

Lemma chain_ok l c : chain l -> c ∈ l -> commit_ok c.
Proof.
  induction l as [|c' l IH]; intros Hl Hc; [by apply elem_of_nil in Hc|]. destruct Hl as (H1 & H2 & _).
  apply elem_of_cons in Hc as [->|Hc]; [done | by apply IH].
Qed.

Lemma map_ok_tail m : map_ok m -> exists l t, commits m = l ++ [t] /\ last (commits m) = Some t /\ get_tail m = Ok t /\ commit_ok t.
Proof.
  intros (Hne & Hc & _). unfold get_tail. destruct (commits m) as [|x l _] using rev_ind; [done|].
  exists l, x. rewrite last_snoc. split_and!; [done..|]. apply (chain_ok (l ++ [x])); [done|]. apply elem_of_app. right. by left.
Qed.

(** *** Commit *)

Lemma commit_changes_spec v cs m t : map_ok m -> last (commits m) = Some t -> lc_version t < v < 2 ^ 63 -> writes_ok cs ->
  exists m', commit_changes v false cs m = Ok (m', if nonempty (KvHandle.writes cs) then v else KvHandle.start_version cs) /\
    map_ok m' /\ rollback_counter m' = rollback_counter m /\
    exists t', last (commits m') = Some t' /\
      st_model (lc_state t') = foldl (write1 v) (st_model (lc_state t)) (KvHandle.writes cs) /\
      ((m' = m /\ t' = t) \/ (m' = insert_back t' m /\ lc_version t' = v)).
Proof.
  intros Hm Ht Hv [Hw Hs]. destruct (map_ok_tail m Hm) as (l & t0 & El & Et & Eg & Hok). rewrite Ht in Et. injection Et as <-.
  pose proof Hok as (Hst & Hvt & Hb). destruct (to_i64_small v ltac:(lia)) as [Hi Hw64].
  unfold commit_changes. destruct (KvHandle.writes cs) as [|e w] eqn:E; cbn [andb negb nonempty].
  { exists m. split_and!; [done..|]. exists t. split_and!; [done | done | by left]. }
  rewrite Eg. cbn [mbind result_bind]. destruct (apply_writes_spec v (e :: w) ltac:(lia) Hw (lc_state t) false Hst)
    as (s' & ch & -> & Hs' & Hm' & Hch). cbn [mbind result_bind]. rewrite Hi, Hw64. destruct ch.
  - set (t' := mkCommit v s' (e :: w)). assert (Hok' : commit_ok t').
    { split_and!; [done | cbn; lia | cbn; lia |]. cbn. rewrite Hm'. eapply writes_bounded; [done | | | exact Hb]; lia. }
    exists (insert_back t' m). split; [done|]. split; [|split; [done|]].
    + destruct Hm as (_ & Hc & Hu). unfold map_ok, insert_back. cbn [set_commits commits rollback_counter]. split_and!.
      * by intros [_ ?]%app_eq_nil.
      * rewrite El, <- app_assoc in *. apply chain_snoc; [done | done | cbn; lia |]. cbn. rewrite Hm'. apply writes_newer; [done | lia | lia].
      * apply Hu.
    + exists t'. cbn [insert_back set_commits commits]. rewrite last_snoc. split_and!; [done | done |]. by right.
  - destruct (Hch eq_refl) as [-> _]. exists m. split_and!; [done..|]. exists t. split_and!; [done | done | by left].
Qed.

(** *** Rollback *)

Lemma pop_tail_spec v (l : list (LocalCommit T)) : l <> [] ->
  exists popped rest, l = popped ++ rest /\ fst (pop_tail v l) = rest /\ rest <> [] /\
    Forall (fun c => v < lc_version c) popped /\ (snd (pop_tail v l) = true <-> popped <> []) /\
    (exists r rest', rest = r :: rest' /\ (lc_version r <= v \/ rest' = [])).
Proof.
  induction l as [|r [|r' l] IH]; intros Hne; [done| |].
  - exists [], [r]. cbn. split_and!; [done..|]. exists r, []. split; [done | by right].
  - cbn [pop_tail]. destruct (Z.leb_spec (lc_version r) v) as [Hle|Hlt].
    + exists [], (r :: r' :: l). cbn. split_and!; [done..|]. exists r, (r' :: l). split; [done | by left].
    + destruct (IH ltac:(done)) as (popped & rest & E & Ef & Hr & Hp & _ & Hx). exists (r :: popped), rest. cbn [fst snd].
      split_and!; [by rewrite E | done | done | by constructor | done | done].
Qed.

Lemma find_at_app v (l l' : list (LocalCommit T)) :
  find_at v (l ++ l') = match find_at v l with Some c => Some c | None => find_at v l' end.
Proof. induction l as [|c l IH]; [done|]. cbn [app find_at]. by destruct (_ <=? _). Qed.

Lemma find_at_newer v (l : list (LocalCommit T)) : Forall (fun c => v < lc_version c) l -> find_at v l = None.
Proof. induction 1 as [|c l Hc Hl IH]; [done|]. cbn [find_at]. destruct (Z.leb_spec (lc_version c) v); [lia | done]. Qed.

Lemma rollback_spec v m : map_ok m -> exists popped, commits m = commits (rollback v m) ++ popped /\
  commits (rollback v m) <> [] /\ Forall (fun c => v < lc_version c) popped /\
  rollback_counter (rollback v m) = wrap64 (rollback_counter m + if nonempty_list popped then 1 else 0) /\
  (snd (pop_tail v (reverse (commits m))) = nonempty_list popped) /\
  exists t, last (commits (rollback v m)) = Some t /\ (lc_version t <= v \/ commits (rollback v m) = [t]).
Proof.
  intros (Hne & _ & Hu). unfold rollback.
  destruct (pop_tail_spec v (reverse (commits m))) as (popped & rest & E & Ef & Hr & Hp & Hs & (r & rest' & Er & Hx)).
  { intros Hn. apply Hne. by rewrite <- (reverse_involutive (commits m)), Hn. }
  destruct (pop_tail v (reverse (commits m))) as [l adv]. cbn [fst snd] in *. subst l.
  assert (Ec : commits m = reverse rest ++ reverse popped) by (by rewrite <- reverse_app, <- E, reverse_involutive).
  assert (Hn : nonempty_list (reverse popped) = adv).
  { destruct popped as [|x popped]; [|].
    - destruct adv; [by destruct (proj1 Hs eq_refl) | done].
    - rewrite reverse_cons. rewrite (proj2 Hs) by done. by destruct (reverse popped). }
  exists (reverse popped). rewrite Hn.
  assert (Hcm : commits (if adv then set_counter (wrap64 (rollback_counter (set_commits (reverse rest) m) + 1)) (set_commits (reverse rest) m)
                else set_commits (reverse rest) m) = reverse rest) by (by destruct adv).
  rewrite Hcm. split_and!; [done | | by apply Forall_reverse | | done |].
  - subst rest. rewrite reverse_cons. by intros [_ ?]%app_eq_nil.
  - destruct adv; cbn; [done|]. rewrite Z.add_0_r. symmetry. by apply wrap64_small.
  - exists r. subst rest. rewrite reverse_cons, last_snoc. split; [done|]. destruct Hx as [Hx| ->]; [by left | by right].
Qed.

Lemma rollback_ok v m : map_ok m -> map_ok (rollback v m).
Proof.
  intros Hm. destruct (rollback_spec v m Hm) as (popped & E & Hne & _ & Hc & _). destruct Hm as (_ & Hch & _).
  split_and!; [done | rewrite E in Hch; by apply chain_app in Hch as [? _] | rewrite Hc; apply wrap64_u64].
Qed.

(** *** Compaction *)

(** What compaction keeps: a suffix, whose first commit may have lost its writes. *)
Lemma compact_loop_spec g v (l : list (LocalCommit T)) : l <> [] -> chain l -> forall d,
  exists pre c c' rest, l = pre ++ c :: rest /\ fst (compact_loop g v l d) = c' :: rest /\
    lc_version c' = lc_version c /\ lc_state c' = lc_state c /\
    (pre <> [] -> lc_version c <= v) /\ Forall (fun x => v < lc_version x) rest.
Proof.
  induction l as [|r [|next l] IH]; intros Hne Hch d; [done| |].
  - cbn [compact_loop]. exists [], r. destruct (g && nonempty (lc_writes r)); eexists _, []; by split_and!.
  - pose proof Hch as (_ & Hch' & Hlt & _). cbn [compact_loop].
    assert (Hnewer : forall x, v < lc_version next -> x ∈ next :: l -> v < lc_version x).
    { clear -Hch'. intros x Hv Hx. revert Hx Hv Hch'. revert next. induction l as [|y l IHl]; intros next Hx Hv Hc.
      - apply list_elem_of_singleton in Hx as ->. done.
      - apply elem_of_cons in Hx as [->|Hx]; [done|]. destruct Hc as (_ & Hc & Hy & _). apply (IHl y Hx); [lia | done]. }
    destruct (Z.eqb_spec (lc_version r) v) as [Hv|Hv].
    + exists [], r. assert (Forall (fun x => v < lc_version x) (next :: l)) by (apply Forall_forall; intros x Hx; apply Hnewer; [lia | done]).
      destruct g; eexists _, (next :: l); by split_and!.
    + set (rd := if g && nonempty (lc_writes r) then (moved r, d ++ [delta r]) else (r, d)).
      assert (Hrd : lc_version (fst rd) = lc_version r /\ lc_state (fst rd) = lc_state r)
        by (unfold rd; by destruct (g && nonempty (lc_writes r))).
      destruct rd as [r' d']. cbn [fst] in Hrd. destruct (Z.ltb_spec v (lc_version next)) as [Hn|Hn].
      * exists [], r, r', (next :: l). destruct Hrd. split_and!; [done..|]. apply Forall_forall. intros x Hx. by apply Hnewer.
      * destruct (IH ltac:(done) Hch' d') as (pre & c & c' & rest & E1 & E2 & E3 & E4 & E5 & E6).
        exists (r :: pre), c, c', rest. split_and!; [by rewrite E1 | done | done | done | | done]. intros _.
        destruct pre as [|y pre]; [|by apply E5]. cbn in E1. injection E1 as -> _. done.
Qed.

Lemma chain_head c c' rest : lc_version c' = lc_version c -> lc_state c' = lc_state c -> chain (c :: rest) -> chain (c' :: rest).
Proof. intros Hv Hs. cbn [chain]. unfold commit_ok. by rewrite Hv, Hs. Qed.

Lemma compact_spec v m : map_ok m ->
  exists pre c c' rest, commits m = pre ++ c :: rest /\ commits (compact v m) = c' :: rest /\
    lc_version c' = lc_version c /\ lc_state c' = lc_state c /\
    (pre <> [] -> lc_version c <= v) /\ Forall (fun x => v < lc_version x) rest /\
    rollback_counter (compact v m) = rollback_counter m.
Proof.
  intros (Hne & Hc & _). unfold compact.
  destruct (compact_loop_spec (global_hook m) v (commits m) Hne Hc (commit_deltas m)) as (pre & c & c' & rest & E1 & E2 & H).
  destruct (compact_loop _ _ _ _) as [l d]. cbn [fst] in E2. subst l. exists pre, c, c', rest. destruct_and!. by split_and!.
Qed.

Lemma compact_ok v m : map_ok m -> map_ok (compact v m).
Proof.
  intros Hm. destruct (compact_spec v m Hm) as (pre & c & c' & rest & E1 & E2 & E3 & E4 & _ & _ & E5).
  destruct Hm as (_ & Hc & Hu). rewrite E1 in Hc. apply chain_app in Hc as [_ Hc].
  split_and!; [by rewrite E2 | rewrite E2; by apply (chain_head c) | by rewrite E5].
Qed.

Lemma compact_tail v m t : map_ok m -> last (commits m) = Some t ->
  exists t', last (commits (compact v m)) = Some t' /\ lc_version t' = lc_version t /\ lc_state t' = lc_state t.
Proof.
  intros Hm Ht. destruct (compact_spec v m Hm) as (pre & c & c' & rest & E1 & E2 & E3 & E4 & _).
  rewrite E2. rewrite E1, last_app in Ht. destruct rest as [|x rest].
  - exists c'. cbn in *. injection Ht as <-. by split_and!.
  - exists t. split_and!; [|done..]. rewrite !last_cons in *. by destruct (last rest).
Qed.

(** *** Evolution *)

Lemma step_spec n m m' : step n m m' -> map_ok m ->
  map_ok m' /\ rollback_counter m' = wrap64 (rollback_counter m + n) /\ 0 <= n /\
  (n = 0 -> forall c, ancestor c m -> ancestor c m').
Proof.
  intros Hstep Hm. pose proof Hm as (_ & _ & Hu).
  assert (H0 : rollback_counter m = wrap64 (rollback_counter m + 0)) by (rewrite Z.add_0_r; symmetry; by apply wrap64_small).
  destruct Hstep as [v cs m m' cv t Hw Ht Hv Hc|v m|m|v m|s v m m' Hs Hc].
  - destruct (commit_changes_spec v cs m t Hm Ht Hv Hw) as (m1 & E & Hm1 & Hr1 & t1 & Ht1 & Hmod & Hcase).
    rewrite E in Hc. injection Hc as <- _. rewrite Hr1. split_and!; [done | done | done |].
    intros _ c (t0 & Et & Hle & Hn & Heq). rewrite Ht in Et. injection Et as <-. exists t1. split; [done|].
    destruct Hcase as [[_ ->]|[_ Hv1]]; [by split_and!|]. destruct (map_ok_tail m Hm) as (_ & t2 & _ & Et2 & _ & (_ & Hvt & _)).
    rewrite Ht in Et2. injection Et2 as <-. split_and!; [lia | | lia].
    eapply newer_trans; [exact Hle | exact Hn|]. rewrite Hmod. apply writes_newer; [apply Hw | lia | lia].
  - split_and!; [by apply compact_ok | | done |].
    + destruct (compact_spec v m Hm) as (? & ? & ? & ? & _ & _ & _ & _ & _ & _ & ->). done.
    + intros _ c (t & Et & H1 & H2 & H3). destruct (compact_tail v m t Hm Et) as (t' & Et' & Ev & Es). exists t'.
      rewrite Ev, Es. by split_and!.
  - by split_and!.
  - destruct (rollback_spec v m Hm) as (popped & E & Hne & _ & Hc & Hs & _). rewrite Hs. split_and!.
    + by apply rollback_ok.
    + done.
    + by destruct (nonempty_list popped).
    + destruct popped; [|done]. intros _ c (t & Et & H). exists t. rewrite app_nil_r in E. by rewrite <- E.
  - unfold commit_snapshot in Hc. destruct (if hook m || global_hook m then _ else _) as [w| |]; [|done..]. injection Hc as <-.
    split_and!; [|done|lia|lia]. split_and!; [done | cbn [commits set_commits set_counter chain]; split_and!; [exact Hs | done | done] | apply wrap64_u64].
Qed.

Lemma evolves_spec n m m' : evolves n m m' -> map_ok m ->
  map_ok m' /\ rollback_counter m' = wrap64 (rollback_counter m + n) /\ 0 <= n /\
  (n = 0 -> forall c, ancestor c m -> ancestor c m').
Proof.
  induction 1 as [m|n n' m m' m'' _ IH Hs]; intros Hm.
  - split_and!; [done | | done | done]. rewrite Z.add_0_r. symmetry. apply wrap64_small, Hm.
  - destruct (IH Hm) as (Hm' & Hc & Hn & Ha). destruct (step_spec n' m' m'' Hs Hm') as (Hm'' & Hc' & Hn' & Ha').
    split_and!; [done | | lia |].
    + rewrite Hc', Hc. unfold wrap64. rewrite Z.add_mod_idemp_l by (unfold M64; lia). f_equal. lia.
    + intros H0 c Hac. apply Ha'; [lia|]. apply Ha; [lia | done].
Qed.

(** With fewer than 2^64 rollbacks the counter tells whether there was one. *)
Lemma evolves_same_counter n m m' : evolves n m m' -> map_ok m -> n < M64 ->
  rollback_counter m' = rollback_counter m -> n = 0.
Proof.
  intros He Hm Hn Hc. destruct (evolves_spec n m m' He Hm) as (_ & Hc' & Hn0 & _). rewrite Hc in Hc'.
  destruct Hm as (_ & _ & Hu). unfold wrap64, u64, M64 in *. clear -Hc' Hn0 Hn Hu.
  pose proof (Z.div_mod (rollback_counter m + n) (2 ^ 64) ltac:(lia)). rewrite <- Hc' in H.
  assert ((rollback_counter m + n) / 2 ^ 64 = 0 \/ (rollback_counter m + n) / 2 ^ 64 <> 0) as [E|E] by lia; [lia|].
  assert (0 <= (rollback_counter m + n) / 2 ^ 64) by (apply Z.div_pos; lia). nia.
Qed.

(** *** Validation *)

Lemma check_reads_true track s reads : st_ok s -> check_reads track s reads = Ok true ->
  forall k ver rv, KvHandle.map_find k reads = Some (ver, rv) ->
    match st_model s !! k with
    | None => ver = NoVersion
    | Some e => ver <> NoVersion /\ ver = KvHandle.version e
    end.
Proof.
  intros Hs. induction reads as [|[k' [ver' rv']] reads IH]; intros Hc k ver rv; [done|]. cbn [check_reads KvHandle.map_find] in *.
  rewrite (st_get_ok s k' Hs) in Hc. cbn [mbind result_bind] in Hc. case_bool_decide as Hk.
  - subst k'. intros [= -> ->]. destruct (Z.eqb_spec ver NoVersion) as [Hv|Hv], (st_model s !! k) as [e|]; [done | done | | done].
    destruct (Z.eqb_spec ver (KvHandle.version e)); [done|]. done.
  - apply IH. destruct (ver' =? NoVersion), (st_model s !! k') as [e|]; [done | done | | done].
    by destruct (negb _ || _).
Qed.

Lemma check_reads_complete s v reads : st_ok s -> bounded v (st_model s) -> KvHandle.sorted reads ->
  (forall k ver rv, KvHandle.map_find k reads = Some (ver, rv) ->
    match st_model s !! k with None => ver = NoVersion | Some e => ver = KvHandle.version e end) ->
  check_reads false s reads = Ok true.
Proof.
  intros Hs Hb. induction reads as [|[k [ver rv]] reads IH]; intros Hsort Hr; [done|]. cbn [check_reads].
  rewrite (st_get_ok s k Hs). cbn [mbind result_bind]. pose proof (KvHandle.sorted_not_in _ _ _ Hsort) as Hni.
  apply KvHandle.sorted_inv in Hsort as [Hsort _].
  assert (Hrest : check_reads false s reads = Ok true).
  { apply IH; [done|]. intros k' ver' rv' Hk'. apply (Hr k' ver' rv'). cbn [KvHandle.map_find]. case_bool_decide; [congruence | done]. }
  specialize (Hr k ver rv). cbn [KvHandle.map_find] in Hr. rewrite bool_decide_eq_true_2 in Hr by done. specialize (Hr eq_refl).
  specialize (Hb k). destruct (st_model s !! k) as [e|]; subst ver; [|done]. specialize (Hb e eq_refl).
  destruct (Z.eqb_spec (KvHandle.version e) NoVersion) as [E|]; [rewrite E in Hb; unfold NoVersion in Hb; cbn in Hb; lia|].
  by rewrite Z.eqb_refl.
Qed.

Lemma prepare_total track rb cs m : map_ok m -> exists b, prepare_changes track rb cs m = Ok b.
Proof.
  intros Hm. destruct (map_ok_tail m Hm) as (l & t & _ & _ & Eg & Hst & _). unfold prepare_changes.
  destruct (KvHandle.writes cs); [by eexists|]. destruct (negb (rb =? _)); [by eexists|]. rewrite Eg. cbn [mbind result_bind].
  destruct (_ && _); [by eexists|]. induction (KvHandle.reads cs) as [|[k [ver rv]] reads IH]; cbn [check_reads]; [by eexists|].
  rewrite (st_get_ok _ k Hst). cbn [mbind result_bind]. destruct (ver =? NoVersion), (st_model (lc_state t) !! k) as [e|];
    [by eexists | done | | by eexists]. destruct (negb (ver =? _) || _); [by eexists | done].
Qed.

(** The change set opened on [c] has the entries of [c]. *)
Definition opened (c : LocalCommit T) (cs : KvHandle.ChangeSet) : Prop :=
  commit_ok c /\ st_entries (lc_state c) = Ok (KvHandle.state cs) /\ KvHandle.start_version cs = lc_version c /\
  KvHandle.cs_read_version cs = NoVersion /\ KvHandle.reads cs = [] /\ KvHandle.writes cs = [].

Lemma opened_find c cs k : opened c cs -> KvHandle.map_find k (KvHandle.state cs) = st_model (lc_state c) !! k.
Proof.
  intros ((Hs & _ & _) & He & _). destruct (st_entries_ok _ Hs) as (l & El & _ & Hl). rewrite El in He. injection He as ->.
  by rewrite KvHandle.map_find_lookup, <- Hl.
Qed.

Lemma opened_reads_ok c cs : opened c cs -> reads_ok cs.
Proof. intros (_ & _ & _ & _ & Hr & _) k ver rv. by rewrite Hr. Qed.

Lemma create_change_set_spec v m : map_ok m ->
  match find_at v (reverse (commits m)) with
  | None => create_change_set v m = Ok None
  | Some c => c ∈ commits m /\
      exists cs, create_change_set v m = Ok (Some (Changes (rollback_counter m) cs)) /\ opened c cs
  end.
Proof.
  intros Hm. unfold create_change_set. destruct (find_at v (reverse (commits m))) as [c|] eqn:E; [|done].
  assert (Hc : c ∈ commits m).
  { apply elem_of_reverse. clear -E. induction (reverse (commits m)) as [|x l IH]; [done|]. cbn [find_at] in E.
    destruct (_ <=? _); [injection E as <-; by left | right; by apply IH]. }
  split; [done|]. destruct Hm as (Hne & Hch & _). pose proof (chain_ok _ _ Hch Hc) as Hcok.
  unfold get_head, open_changes. destruct (commits m) as [|h l] eqn:El; [done|]. cbn [head mbind result_bind].
  destruct (st_entries_ok (lc_state c)) as (es & E1 & _); [apply Hcok|].
  destruct (st_entries_ok (lc_state h)) as (hs & E2 & _); [apply (chain_ok _ h Hch); by left|].
  rewrite E1, E2. cbn [mbind result_bind]. eexists. split; [done|]. by split_and!.
Qed.

(** Reads that pass validation see the same entries at the two commits. *)
Lemma check_reads_agree c t cs0 cs1 cs reads : opened c cs0 -> opened t cs1 ->
  newer (lc_version c) (st_model (lc_state c)) (st_model (lc_state t)) ->
  reads_ok cs -> same_base cs0 cs -> reads = KvHandle.reads cs ->
  check_reads false (lc_state t) reads = Ok true -> agree reads cs0 cs1.
Proof.
  intros Ho Ho1 Hn Hr [Hs _] -> Hc k [[ver rv] Hk]. rewrite (opened_find _ _ k Ho), (opened_find _ _ k Ho1).
  pose proof (Hr k ver rv Hk) as Hrk. rewrite Hs, (opened_find _ _ k Ho) in Hrk.
  destruct Ho1 as ((Hst & _ & _) & _). pose proof (check_reads_true _ _ _ Hst Hc k ver rv Hk) as Hck.
  destruct Ho as ((_ & _ & Hb) & _). specialize (Hb k). destruct (Hn k) as [E|(e & E & Hlt)]; [done|]. rewrite E in Hck |- *.
  destruct Hck as [Hv0 Hv]. destruct (st_model (lc_state c) !! k) as [e'|]; [|done]. specialize (Hb e' eq_refl).
  assert (KvHandle.version e' = KvHandle.version e) as Hee by congruence. rewrite Hee in Hb. lia.
Qed.

Lemma chain_ancestor c m : map_ok m -> c ∈ commits m -> ancestor c m.
Proof.
  intros Hm Hc. destruct (map_ok_tail m Hm) as (l & t & El & Et & _). exists t. destruct Hm as (_ & Hch & _).
  destruct (chain_last _ Hch c t Hc Et) as (H1 & H2 & H3). split_and!; [done..|]. intros Hv. by rewrite H3.
Qed.

(** A transaction that passes validation would do the same now. *)
Lemma validated_run {A} (p : prog A) c t cs0 cs1 m : ancestor c m -> last (commits m) = Some t ->
  opened c cs0 -> opened t cs1 -> checked_removes p cs0 -> (iterated p cs0 = true -> lc_version c <> NoVersion) ->
  KvHandle.writes (fst (run p cs0)) <> [] ->
  prepare_changes false (rollback_counter m) (fst (run p cs0)) m = Ok true ->
  snd (run p cs1) = snd (run p cs0) /\ KvHandle.writes (fst (run p cs1)) = KvHandle.writes (fst (run p cs0)).
Proof.
  intros (t' & Ht' & Hle & Hn & Heq) Ht Ho Ho1 Hrm Hit Hw Hp. rewrite Ht in Ht'. injection Ht' as <-.
  destruct (run_post p cs0 (opened_reads_ok c cs0 Ho)) as (Hb & Hr & _ & Hv).
  unfold prepare_changes in Hp. destruct (KvHandle.writes (fst (run p cs0))) as [|w0 w] eqn:Ew; [done|].
  rewrite Z.eqb_refl in Hp. cbn [negb] in Hp. unfold get_tail in Hp. rewrite Ht in Hp. cbn [mbind result_bind] in Hp.
  rewrite Hv in Hp. pose proof Ho as (_ & He0 & Hsv & Hrv & _ & Hw0). pose proof Ho1 as (_ & He1 & _ & _ & _ & Hw1).
  rewrite Hsv, Hrv in Hp. destruct (iterated p cs0) eqn:Ei.
  - specialize (Hit eq_refl). destruct (Z.eqb_spec (lc_version c) NoVersion); [done|].
    destruct (Z.eqb_spec (lc_version c) (lc_version t)) as [Ev|]; [|done]. rewrite <- (Heq Ev) in He1.
    destruct (run_same p cs0 cs1) as [E1 [_ E2]]; [split; congruence|]. by rewrite E1, E2, Ew.
  - cbn in Hp. rewrite <- Ew. apply run_agree; [by apply (opened_reads_ok c) | done | done | congruence | done|].
    by eapply check_reads_agree.
Qed.

(** *** Theorems *)


(** A transaction that nobody interferes with commits: validation of a
    change set opened at the latest version succeeds on the table as it was,
    even when it has been compacted in between. *)
Theorem solo_progress {A} (p : prog A) v v' m rollbacks cs0 t :
  map_ok m -> last (commits m) = Some t -> lc_version t <= v ->
  create_change_set v m = Ok (Some (Changes rollbacks cs0)) ->
  prepare_changes false rollbacks (fst (run p cs0)) (compact v' m) = Ok true.
Proof.
  intros Hm Ht Hv Hcreate. pose proof (create_change_set_spec v m Hm) as Hcs.
  destruct (map_ok_tail m Hm) as (l & t0 & El & Et & _ & Hst & _ & Hb). rewrite Ht in Et. injection Et as <-.
  rewrite El, reverse_snoc in Hcs. cbn [find_at] in Hcs. destruct (Z.leb_spec (lc_version t) v); [|lia].
  destruct Hcs as (_ & cs & Ecs & Ho). rewrite Ecs in Hcreate. injection Hcreate as <- <-.
  destruct (compact_tail v' m t Hm Ht) as (t' & Ht' & Ev & Es).
  destruct (compact_spec v' m Hm) as (_ & _ & _ & _ & _ & _ & _ & _ & _ & _ & Hcnt).
  destruct (run_post p cs (opened_reads_ok t cs Ho)) as ([Hs _] & Hr & _ & Hrv). pose proof Ho as (_ & _ & Hsv & Hrv0 & Hr0 & _).
  assert (Hsort : KvHandle.sorted (KvHandle.reads (fst (run p cs)))) by (apply run_reads; rewrite Hr0; constructor).
  unfold prepare_changes. destruct (KvHandle.writes (fst (run p cs))); [done|]. rewrite Hcnt, Z.eqb_refl. cbn [negb].
  unfold get_tail. rewrite Ht'. cbn [mbind result_bind]. rewrite Hrv, Hsv, Hrv0, Ev, Es.
  replace (negb _ && negb _) with false
    by (destruct (iterated p cs); [by rewrite Z.eqb_refl, andb_false_r | done]).
  apply (check_reads_complete _ (lc_version t)); [done..|]. intros k ver rv Hin. specialize (Hr k ver rv Hin).
  by rewrite Hs, (opened_find _ _ k Ho) in Hr.
Qed.

(** [rollback] restores the past: it keeps the invariant, every version up
    to [v] reads as before, nothing newer than [v] remains (unless the oldest
    commit, which is kept, is newer), and the rollback counter moves when and
    only when a commit was dropped. *)
Theorem rollback_restores v m : map_ok m ->
  map_ok (rollback v m) /\ (forall v', v' <= v -> state_at v' (rollback v m) = state_at v' m) /\
  (exists t, last (commits (rollback v m)) = Some t /\ (lc_version t <= v \/ commits (rollback v m) = [t])) /\
  rollback_counter (rollback v m) = wrap64 (rollback_counter m + if decide (length (commits (rollback v m)) < length (commits m))%nat then 1 else 0).
Proof.
  intros Hm. destruct (rollback_spec v m Hm) as (popped & E & _ & Hp & Hc & _ & Ht).
  split_and!; [by apply rollback_ok | | done |].
  - intros v' Hv. unfold state_at. rewrite E. rewrite reverse_app, find_at_app, (find_at_newer v' (reverse popped)); [done|].
    apply Forall_reverse. eapply Forall_impl; [exact Hp|]. cbn. lia.
  - rewrite Hc. do 2 f_equal. rewrite E. rewrite length_app. destruct popped; cbn [nonempty_list length]; case_decide; lia.
Qed.

(** [compact] keeps the present: it keeps the invariant and the rollback
    counter, every version from [v] on reads as before, and all that remains
    below [v] is the one commit that [v] reads. *)
Theorem compact_keeps v m : map_ok m ->
  map_ok (compact v m) /\ rollback_counter (compact v m) = rollback_counter m /\
  (forall v', v <= v' -> state_at v' (compact v m) = state_at v' m) /\
  Forall (fun c => v < lc_version c) (tail (commits (compact v m))).
Proof.
  intros Hm. destruct (compact_spec v m Hm) as (pre & c & c' & rest & E1 & E2 & E3 & E4 & E5 & E6 & E7).
  split_and!; [by apply compact_ok | done | | by rewrite E2].
  intros v' Hv. unfold state_at. rewrite E1, E2, reverse_app, !reverse_cons, <- app_assoc, !find_at_app.
  destruct (find_at v' (reverse rest)); [done|]. cbn [app find_at]. rewrite E3.
  destruct (Z.leb_spec (lc_version c) v'); [cbn; by rewrite E4|]. destruct pre; [done|]. specialize (E5 ltac:(done)). lia.
Qed.

End table.

(** *** A new table *)

Lemma new_map_ok {T} `{ST : KvState VersionV T} `{KL : !KvStateLaws VersionV T} nm d r : map_ok (new_map (T := T) nm d r).
Proof.
  destruct (st_empty_ok (T := T)) as [Hok He]. split_and!; [done | | split; [done | unfold M64; cbn; lia]].
  cbn [new_map reset_commits set_commits commits chain]. split_and!; [|done..]. split_and!; [done | cbn; lia | cbn; lia |].
  cbn. rewrite He. intros k e. by rewrite lookup_empty.
Qed.

(** ** Examples *)

(** A table with red-black states, and the change set of one write. *)
Abbreviation RB := (RbMap.Map VersionV).
Definition ex_writes (w : Write) : KvHandle.ChangeSet := KvHandle.mkChanges [] [] 0 NoVersion [] w.
Definition ex_commit (v : Z) (w : Write) (m : Map RB) : Map RB :=
  match commit_changes v false (ex_writes w) m with Ok (m, _) => m | _ => m end.
Definition ex0 : Map RB := new_map [116] PUBLIC true.
Definition ex1 : Map RB := ex_commit 1 [([1], Some [10])] ex0.
Definition ex2 : Map RB := ex_commit 2 [([2], Some [20])] ex1.
(** The change set that a transaction opens at a version. *)
Definition ex_open (v : Z) (m : Map RB) : KvHandle.ChangeSet :=
  match create_change_set v m with Ok (Some (Changes _ cs)) => cs | _ => ex_writes [] end.

Lemma ex_step v w m t : last (commits m) = Some t -> lc_version t < v < 2 ^ 63 -> writes_ok (ex_writes w) ->
  map_ok m -> step 0 m (ex_commit v w m) /\ map_ok (ex_commit v w m).
Proof.
  intros Ht Hv Hw Hm. destruct (commit_changes_spec v (ex_writes w) m t Hm Ht Hv Hw) as (m' & E & Hm' & _).
  unfold ex_commit. rewrite E. split; [|done]. by eapply step_commit.
Qed.

Ltac ex_writes_ok := split; repeat constructor; vm_compute; congruence.
Lemma ex1_ok : step 0 ex0 ex1 /\ map_ok ex1.
Proof. eapply ex_step; [reflexivity | vm_compute; split; congruence | ex_writes_ok | apply new_map_ok]. Qed.
Lemma ex2_ok : step 0 ex1 ex2 /\ map_ok ex2.
Proof. eapply ex_step; [reflexivity | vm_compute; split; congruence | ex_writes_ok | apply ex1_ok]. Qed.

(** Read key 1, then write key 3. *)
Definition ex_prog : prog (option V) :=
  Do (HGet [1]) (fun r => Do (HPut [3] [30]) (fun _ => Ret (match r with RVal v => v | _ => None end))).
(** Count the entries, then write the number. *)
Definition count_prog : prog reply :=
  Do HSize (fun r => match r with RSize n => Do (HPut [3] [n]) (fun _ => Ret r) | _ => Ret r end).
(** Remove key 2, and write down whether it was there. *)
Definition remove_prog : prog reply :=
  Do (HRemove [2]) (fun r => match r with RBool b => Do (HPut [3] [if b then 1 else 0]) (fun _ => Ret r) | _ => Ret r end).


Lemma solo_progress_witness :
  prepare_changes false 0 (fst (run count_prog (ex_open 2 ex2))) (compact 1 ex2) = Ok true.
Proof.
  apply (solo_progress count_prog 2 1 ex2 0 (ex_open 2 ex2)
    (mkCommit 2 (match last (commits ex2) with Some c => lc_state c | None => RbMap.Empty end) [([2], Some [20])])).
  - apply ex2_ok.
  - vm_compute. reflexivity.
  - vm_compute. congruence.
  - vm_compute. reflexivity.
Defined.

Lemma rollback_restores_witness :
  state_at 1 (rollback 1 ex2) = state_at 1 ex2 /\ rollback_counter (rollback 1 ex2) = 1.
Proof.
  destruct (rollback_restores 1 ex2) as (_ & H & _ & _); [apply ex2_ok|]. split; [apply H; lia | vm_compute; reflexivity].
Defined.

Lemma compact_keeps_witness : state_at 2 (compact 2 ex2) = state_at 2 ex2 /\ length (commits (compact 2 ex2)) = 1%nat.
Proof.
  destruct (compact_keeps 2 ex2) as (_ & _ & H & _); [apply ex2_ok|]. split; [apply H; lia | vm_compute; reflexivity].
Defined.

(** Two dependencies escape validation.  A transaction that counts the
    entries of a table at version 0 records that version, which is [NoVersion],
    and still passes after another commit has added an entry.  A transaction
    that removes a key records no dependency on it, and still passes after
    another commit has added the key.  In both cases the same transaction would
    now get another reply and write another value. *)
Theorem validation_gaps :
  prepare_changes false 0 (fst (run count_prog (ex_open 0 ex0))) ex1 = Ok true /\
  snd (run count_prog (ex_open 0 ex0)) = RSize 0 /\ snd (run count_prog (ex_open 1 ex1)) = RSize 1 /\
  prepare_changes false 0 (fst (run count_prog (ex_open 1 ex1))) ex2 = Ok false /\
  prepare_changes false 0 (fst (run remove_prog (ex_open 1 ex1))) ex2 = Ok true /\
  snd (run remove_prog (ex_open 1 ex1)) = RBool false /\ snd (run remove_prog (ex_open 2 ex2)) = RBool true.
Proof. by vm_compute. Qed.

End UntypedMap.
