(* ===== verification/Store.v ===== *)
(** * The store

    Model of CCF/src/kv/store.h and CCF/src/kv/apply_changes.h: the tables of a
    store with their creation versions, version numbers and terms, the atomic
    application of a transaction's change sets, rollback, compaction, snapshots,
    and the queue that hands committed transactions to the consensus in version
    order.

    Tables are shared objects: the store and the transactions refer to them by
    the index of the object in [objs].  Every operation runs under the locks
    that it takes; [commit] releases [version_lock] while it calls the
    consensus, so it is two steps with a call in between.  The history, the
    encryptor and the snapshotter are told of these operations and do not change
    the store; the calls of hooks are values (a version and the writes).

    Main results: [apply_changes_atomic], [store_invariant],
    [store_rollback_restores] and [replicated_in_order]. *)
From S2P Require Import Prelude Serialized KvHandle MapSerial RbMap UntypedMap.
From stdpp Require Import list gmap.
Local Open Scope Z_scope.

Module Store.
Import MapSerial.
Abbreviation K := KvHandle.K.
Abbreviation VersionV := KvHandle.VersionV.
Abbreviation Write := UntypedMap.Write.
Abbreviation Map := UntypedMap.Map.
Abbreviation ChangeSet := UntypedMap.ChangeSet.
Abbreviation NoVersion := KvHandle.NoVersion.
Abbreviation SecurityDomain := UntypedMap.SecurityDomain.

Inductive ReplicateType := ALL | NONE | SOME.
Inductive CommitResult := SUCCESS | FAIL_CONFLICT | FAIL_NO_REPLICATE.
Record TxID := mkTxID { term : Z; tx_version : Z }.

(** [nonstd::starts_with] *)
Fixpoint starts_with (s prefix : list Z) : bool :=
  match prefix, s with
  | [], _ => true
  | _ :: _, [] => false
  | p :: prefix, c :: s => (p =? c) && starts_with s prefix
  end.
(** The bytes of "public:". *)
Definition public_domain_prefix : list Z := [112; 117; 98; 108; 105; 99; 58].
Definition get_security_domain (name : K) : SecurityDomain :=
  if starts_with name public_domain_prefix then UntypedMap.PUBLIC else UntypedMap.PRIVATE.

(** What [version_lock] guards. *)
Record Versions := mkVersions {
  version : Z;
  last_new_map : Z;
  compacted : Z;
  term_of_next_version : Z;
  term_of_last_version : Z;
  last_replicated : Z;
  last_committable : Z;
  rollback_count : Z
}.

Record PendingTxInfo := mkInfo {
  info_success : CommitResult;
  info_data : list Z;
  info_hooks : list (Z * Write)
}.

(** [P] are the pending transactions, [T] the states of tables. *)
Record Store (P T : Type) := mkStore {
  objs : list (Map T);
  maps : list (K * (Z * nat));
  vers : Versions;
  pending_txs : gmap Z (P * bool);
  map_hooks : list K;
  global_hooks : list K;
  replicate_type : ReplicateType;
  replicated_tables : list K;
  strict_versions : bool;
  flags : Z
}.
Arguments mkStore {P T} _ _ _ _ _ _ _ _ _ _.
Arguments objs {P T} _.
Arguments maps {P T} _.
Arguments vers {P T} _.
Arguments pending_txs {P T} _.
Arguments map_hooks {P T} _.
Arguments global_hooks {P T} _.
Arguments replicate_type {P T} _.
Arguments replicated_tables {P T} _.
Arguments strict_versions {P T} _.
Arguments flags {P T} _.

Section setters.
Context {P T : Type}.
Implicit Types (s : Store P T).

Definition set_objs o s : Store P T :=
  mkStore o (maps s) (vers s) (pending_txs s) (map_hooks s) (global_hooks s) (replicate_type s) (replicated_tables s) (strict_versions s) (flags s).
Definition set_maps m s : Store P T :=
  mkStore (objs s) m (vers s) (pending_txs s) (map_hooks s) (global_hooks s) (replicate_type s) (replicated_tables s) (strict_versions s) (flags s).
Definition set_vers v s : Store P T :=
  mkStore (objs s) (maps s) v (pending_txs s) (map_hooks s) (global_hooks s) (replicate_type s) (replicated_tables s) (strict_versions s) (flags s).
Definition set_pending p s : Store P T :=
  mkStore (objs s) (maps s) (vers s) p (map_hooks s) (global_hooks s) (replicate_type s) (replicated_tables s) (strict_versions s) (flags s).
Definition set_hooks h g s : Store P T :=
  mkStore (objs s) (maps s) (vers s) (pending_txs s) h g (replicate_type s) (replicated_tables s) (strict_versions s) (flags s).
Definition set_flags f s : Store P T :=
  mkStore (objs s) (maps s) (vers s) (pending_txs s) (map_hooks s) (global_hooks s) (replicate_type s) (replicated_tables s) (strict_versions s) f.

(** The object behind a pointer. *)
Definition obj (id : nat) s : result (Map T) :=
  match objs s !! id with Some m => Ok m | None => Undef end.
Definition set_obj (id : nat) (m : Map T) s : Store P T := set_objs (<[id := m]> (objs s)) s.
(** [make_shared] *)
Definition alloc (m : Map T) s : Store P T * nat := (set_objs (objs s ++ [m]) s, length (objs s)).

End setters.

(** ** Versions *)

Definition max_deletable : Z := 2 ^ 63 - 1.

Definition next_version_unsafe (v : Versions) : Versions :=
  let n := wrap64 (version v + 1) in
  let n := if max_deletable <? n then 0 else n in
  mkVersions n (last_new_map v) (compacted v) (term_of_next_version v) (term_of_next_version v)
    (last_replicated v) (last_committable v) (rollback_count v).

(** The version and the previous [last_new_map]. *)
Definition next_version (commit_new_map : bool) (v : Versions) : Versions * (Z * Z) :=
  let previous_last_new_map := last_new_map v in
  let v := next_version_unsafe v in
  let n := version v in
  (if commit_new_map
   then mkVersions n n (compacted v) (term_of_next_version v) (term_of_last_version v)
          (last_replicated v) (last_committable v) (rollback_count v)
   else v, (n, previous_last_new_map)).

Definition next_txid (v : Versions) : Versions * TxID :=
  let v := next_version_unsafe v in (v, mkTxID (term_of_next_version v) (version v)).

Definition current_txid_unsafe (v : Versions) : TxID := mkTxID (term_of_last_version v) (version v).
Definition current_txid_and_commit_term (v : Versions) : TxID * Z := (current_txid_unsafe v, term_of_next_version v).
Definition committable_gap (v : Versions) : Z := wrap64 (version v - last_committable v).

Section ops.
Context {P T : Type} `{ST : KvState VersionV T}.
Implicit Types (s : Store P T).

Definition new_store (strict : bool) (repl : ReplicateType) (tables : list K) : Store P T :=
  mkStore [] [] (mkVersions 0 NoVersion 0 0 0 0 0 0) ∅ [] [] repl tables strict 0.

(** [StoreState::clear] *)
Definition clear s : Store P T :=
  set_pending ∅ (set_vers (mkVersions 0 NoVersion 0 0 0 0 0 0) (set_maps [] s)).

(** ** Tables *)

Definition get_map (v : Z) (map_name : K) s : option nat :=
  match KvHandle.map_find map_name (maps s) with
  | Some (map_creation_version, id) =>
      if (map_creation_version <=? v) || (map_creation_version =? NoVersion) then Some id else None
  | None => None
  end.

Definition is_map_replicated (name : K) s : bool :=
  match replicate_type s with
  | ALL => true
  | NONE => false
  | SOME => bool_decide (name ∈ replicated_tables s)
  end.

(** The map that a transaction or a deserialised entry creates. *)
Definition create_map (name : K) s : Store P T * nat :=
  alloc (UntypedMap.new_map name (get_security_domain name) (is_map_replicated name s)) s.

Definition set_map_hooks (h g : bool) (m : Map T) : Map T :=
  UntypedMap.mkMap (UntypedMap.name m) (UntypedMap.commits m) (UntypedMap.rollback_counter m) h g
    (UntypedMap.commit_deltas m) (UntypedMap.security_domain m) (UntypedMap.replicated m).

Definition add_dynamic_map (v : Z) (id : nat) s : result (Store P T) :=
  m ← obj id s;
  let map_name := UntypedMap.name m in
  match get_map v map_name s with
  | Some _ => Throw LogicError
  | None =>
      let s := set_maps (KvHandle.map_put map_name (v, id) (maps s)) s in
      let g := bool_decide (map_name ∈ global_hooks s) || UntypedMap.global_hook m in
      let h := bool_decide (map_name ∈ map_hooks s) || UntypedMap.hook m in
      Ok (set_obj id (set_map_hooks h g m) s)
  end.

(** ** apply_changes *)

Definition Changes : Type := list (K * (nat * ChangeSet T)).
Definition changes_have_writes (changes : Changes) : bool :=
  existsb (fun e => UntypedMap.has_writes e.2.2) changes.

(** Until one committer does not agree. *)
Fixpoint prepare_all (track : bool) (changes : Changes) s : result bool :=
  match changes with
  | [] => Ok true
  | (_, (id, c)) :: changes =>
      m ← obj id s;
      ok ← UntypedMap.prepare track c m;
      if (ok : bool) then prepare_all track changes s else Ok false
  end.

(** None of the new maps may exist. *)
Definition new_maps_free (conflict_version : option Z) (new_maps : list (K * nat)) s : bool :=
  forallb (fun e =>
    let current_v := match conflict_version with Some v => v | None => version (vers s) end in
    match get_map current_v e.1 s with Some _ => false | None => true end) new_maps.

Fixpoint add_new_maps (v : Z) (changes : Changes) (new_maps : list (K * nat)) s : result (Store P T) :=
  match new_maps with
  | [] => Ok s
  | (map_name, id) :: new_maps =>
      s ← match KvHandle.map_find map_name changes with
          | Some (_, c) => if UntypedMap.has_writes c then add_dynamic_map v id s else Ok s
          | None => Ok s
          end;
      add_new_maps v changes new_maps s
  end.

(** The [commit_version] of each committer. *)
Fixpoint commit_all (v : Z) (track : bool) (changes : Changes) s : result (Store P T * list Z) :=
  match changes with
  | [] => Ok (s, [])
  | (_, (id, c)) :: changes =>
      m ← obj id s;
      '(m, commit_version) ← UntypedMap.commit v track c m;
      '(s, cvs) ← commit_all v track changes (set_obj id m s);
      Ok (s, commit_version :: cvs)
  end.

Fixpoint post_commit_all (changes : Changes) (cvs : list Z) s : result (list (Z * Write)) :=
  match changes, cvs with
  | (_, (id, c)) :: changes, cv :: cvs =>
      m ← obj id s;
      h ← UntypedMap.post_commit cv c m;
      hooks ← post_commit_all changes cvs s;
      Ok (match h with Some h => h :: hooks | None => hooks end)
  | _, _ => Ok []
  end.

(** The resolver takes whether there are new maps and changes the versions.  The
    result is the version, or nothing on a conflict, and the calls of hooks. *)
Definition apply_changes (changes : Changes) (version_resolver_fn : bool -> Versions -> Versions * (Z * Z))
  (new_maps : list (K * nat)) (conflict_version : option Z) (track_read_versions : bool) s :
  result (Store P T * option Z * list (Z * Write)) :=
  let has_writes := changes_have_writes changes in
  prepared ← prepare_all track_read_versions changes s;
  let ok := prepared && new_maps_free conflict_version new_maps s in
  if ok && has_writes then
    let '(vs, (v, _)) := version_resolver_fn (match new_maps with [] => false | _ :: _ => true end) (vers s) in
    let s := set_vers vs s in
    if negb track_read_versions then
      s ← add_new_maps v changes new_maps s;
      '(s, cvs) ← commit_all v track_read_versions changes s;
      hooks ← post_commit_all changes cvs s;
      Ok (s, Some v, hooks)
    else Ok (s, None, [])
  else Ok (s, if ok then Some NoVersion else None, []).

Definition commit_deserialised (changes : Changes) (v term : Z) (new_maps : list (K * nat)) s :
  result (Store P T * bool * list (Z * Write)) :=
  '(s, c, hooks) ← apply_changes changes (fun _ vs => (vs, (v, wrap64 (v - 1)))) new_maps None false s;
  match c with
  | None => Ok (s, false, hooks)
  | Some _ =>
      let vs := vers s in
      Ok (set_vers (mkVersions v (last_new_map vs) (compacted vs) (term_of_next_version vs) term
            v (last_committable vs) (rollback_count vs)) s, true, hooks)
  end.

(** ** Snapshots, compaction, rollback *)

(** Apply an operation to the object of every table. *)
Fixpoint update_maps (f : Map T -> Map T) (l : list (K * (Z * nat))) s : result (Store P T) :=
  match l with
  | [] => Ok s
  | (_, (_, id)) :: l => m ← obj id s; update_maps f l (set_obj id (f m) s)
  end.

(** The snapshots of the tables, in the order of their names. *)
Definition snapshot (v : Z) s : result (list (UntypedMap.Snapshot T)) :=
  if v <? compacted (vers s) then Throw LogicError
  else if version (vers s) <? v then Throw LogicError
  else
    result_mapM (fun e => m ← obj e.2.2 s; UntypedMap.snapshot v m) (maps s).

(** [post_compact] of every table and the calls of the global hooks. *)
Fixpoint post_compact_maps (l : list (K * (Z * nat))) s : result (Store P T * list (Z * Write)) :=
  match l with
  | [] => Ok (s, [])
  | (_, (_, id)) :: l =>
      m ← obj id s;
      let '(m, calls) := UntypedMap.post_compact m in
      '(s, calls') ← post_compact_maps l (set_obj id m s);
      Ok (s, calls ++ calls')
  end.

Definition compact (v : Z) s : result (Store P T * list (Z * Write)) :=
  if version (vers s) <? v then Ok (s, [])
  else
    s ← update_maps (UntypedMap.compact v) (maps s) s;
    let vs := vers s in
    let s := set_vers (mkVersions (version vs) (last_new_map vs) v (term_of_next_version vs)
               (term_of_last_version vs) (last_replicated vs) (last_committable vs) (rollback_count vs)) s in
    post_compact_maps (maps s) s.

(** LEDGER_CHUNK_AT_NEXT_SIGNATURE and SNAPSHOT_AT_NEXT_SIGNATURE *)
Definition LEDGER_CHUNK_AT_NEXT_SIGNATURE : Z := 1.
Definition SNAPSHOT_AT_NEXT_SIGNATURE : Z := 2.
Definition set_flag_unsafe (f : Z) s : Store P T := set_flags (Z.lor (flags s) f) s.
Definition unset_flag_unsafe (f : Z) s : Store P T := set_flags (Z.land (flags s) (Z.lxor f 255)) s.
Definition flag_enabled_unsafe (f : Z) s : bool := negb (Z.land (flags s) f =? 0).

(** The maps that stay: those created at or before [v]. *)
Definition keep_maps (v : Z) (l : list (K * (Z * nat))) : list (K * (Z * nat)) :=
  filter (fun e => e.2.1 <= v) l.

Definition rollback (tx_id : TxID) (term_of_next_version_ : Z) s : result (Store P T) :=
  let v := tx_version tx_id in
  let vs := vers s in
  if v <? compacted vs then Throw LogicError
  else
    let vs := mkVersions (version vs) (last_new_map vs) (compacted vs) term_of_next_version_ (term tx_id)
                (last_replicated vs) (last_committable vs) (rollback_count vs) in
    let s := set_vers vs s in
    if version vs <=? v then Ok s
    else
      let s := set_vers (mkVersions v (last_new_map vs) (compacted vs) (term_of_next_version vs) (term_of_last_version vs)
                 v (last_committable vs) (wrap64 (rollback_count vs + 1))) s in
      let s := unset_flag_unsafe SNAPSHOT_AT_NEXT_SIGNATURE (unset_flag_unsafe LEDGER_CHUNK_AT_NEXT_SIGNATURE s) in
      let s := set_pending ∅ s in
      s ← update_maps (UntypedMap.rollback v) (maps s) s;
      Ok (set_maps (keep_maps v (maps s)) s).

Definition initialise_term (t : Z) s : result (Store P T) :=
  let vs := vers s in
  if negb (term_of_next_version vs =? 0) then Throw LogicError
  else Ok (set_vers (mkVersions (version vs) (last_new_map vs) (compacted vs) t (term_of_last_version vs)
             (last_replicated vs) (last_committable vs) (rollback_count vs)) s).

(** Hooks by name, kept for the maps that will be created. *)
Definition with_map (map_name : K) (f : Map T -> Map T) s : result (Store P T) :=
  match KvHandle.map_find map_name (maps s) with
  | Some (_, id) => m ← obj id s; Ok (set_obj id (f m) s)
  | None => Ok s
  end.
Definition erase_name (n : K) (l : list K) : list K := filter (fun x => x <> n) l.
Definition set_map_hook (map_name : K) s : result (Store P T) :=
  with_map map_name (fun m => set_map_hooks true (UntypedMap.global_hook m) m)
    (set_hooks (map_name :: erase_name map_name (map_hooks s)) (global_hooks s) s).
Definition unset_map_hook (map_name : K) s : result (Store P T) :=
  with_map map_name (fun m => set_map_hooks false (UntypedMap.global_hook m) m)
    (set_hooks (erase_name map_name (map_hooks s)) (global_hooks s) s).
Definition set_global_hook (map_name : K) s : result (Store P T) :=
  with_map map_name (fun m => set_map_hooks (UntypedMap.hook m) true m)
    (set_hooks (map_hooks s) (map_name :: erase_name map_name (global_hooks s)) s).
Definition unset_global_hook (map_name : K) s : result (Store P T) :=
  with_map map_name (fun m => set_map_hooks (UntypedMap.hook m) false m)
    (set_hooks (map_hooks s) (erase_name map_name (global_hooks s)) s).

(** *** swap_private_maps *)

Definition is_private (m : Map T) : bool :=
  match UntypedMap.security_domain m with UntypedMap.PRIVATE => true | UntypedMap.PUBLIC => false end.

(** The object of the target store, created where there is none. *)
Definition swap_target (map_name : K) s : result (Store P T * nat) :=
  match KvHandle.map_find map_name (maps s) with
  | None =>
      let '(s, id) := alloc (UntypedMap.new_map map_name UntypedMap.PRIVATE (is_map_replicated map_name s)) s in
      Ok (set_maps (KvHandle.map_put map_name (NoVersion, id) (maps s)) s, id)
  | Some (_, id) =>
      m ← obj id s;
      if is_private m then Ok (s, id) else Throw LogicError
  end.
Fixpoint swap_targets (l : list (K * nat)) s : result (Store P T * list (nat * nat)) :=
  match l with
  | [] => Ok (s, [])
  | (map_name, theirs) :: l =>
      '(s, mine) ← swap_target map_name s;
      '(s, l') ← swap_targets l s;
      Ok (s, (mine, theirs) :: l')
  end.
Fixpoint swap_all (l : list (nat * nat)) s (store : Store P T) : result (Store P T * Store P T) :=
  match l with
  | [] => Ok (s, store)
  | (mine, theirs) :: l =>
      m ← obj mine s;
      m' ← obj theirs store;
      let '(m, m') := UntypedMap.swap m m' in
      swap_all l (set_obj mine m s) (set_obj theirs m' store)
  end.

Definition swap_private_maps s (store : Store P T) : result (Store P T * Store P T) :=
  if version (vers s) <? version (vers store) then Throw RuntimeError
  else
    entries ← result_mapM (fun e => m ← obj e.2.2 store; Ok (e.1, (e.2.2, is_private m))) (maps store);
    let entries := omap (fun e : K * (nat * bool) => if e.2.2 then Some (e.1, e.2.1) else None) entries in
    '(s, l) ← swap_targets entries s;
    swap_all l s store.

(** ** commit *)

(** A virtual call: signatures are produced when they are replicated. *)
Context (call : P -> Store P T -> result (Store P T * PendingTxInfo)).

Record BatchEntry := mkEntry {
  be_version : Z;
  be_data : list Z;
  be_committable : bool;
  be_hooks : list (Z * Write)
}.

(** [None] is a loop that has not ended. *)
Fixpoint batch_loop (fuel : nat) (offset : Z) (batch : list BatchEntry) s :
  option (result (Store P T * list BatchEntry)) :=
  match fuel with
  | O => None
  | S fuel =>
      let next := wrap64 (last_replicated (vers s) + offset) in
      match pending_txs s !! next with
      | None => Some (Ok (s, batch))
      | Some (pending_tx_, committable_) =>
          match call pending_tx_ s with
          | Ok (s, info) =>
              batch_loop fuel (offset + 1) (batch ++ [mkEntry next (info_data info) committable_ (info_hooks info)])
                (set_pending (delete next (pending_txs s)) s)
          | Throw e => Some (Throw e)
          | Undef => Some Undef
          end
      end
  end.

(** What is kept across the call of [replicate]. *)
Record Replication := mkReplication {
  rep_batch : list BatchEntry;
  rep_view : Z;
  previous_last_replicated : Z;
  previous_rollback_count : Z;
  next_last_replicated : Z
}.

Definition set_last_replicated (n : Z) s : Store P T :=
  let vs := vers s in
  set_vers (mkVersions (version vs) (last_new_map vs) (compacted vs) (term_of_next_version vs)
    (term_of_last_version vs) n (last_committable vs) (rollback_count vs)) s.
Definition set_last_committable (n : Z) s : Store P T :=
  let vs := vers s in
  set_vers (mkVersions (version vs) (last_new_map vs) (compacted vs) (term_of_next_version vs)
    (term_of_last_version vs) (last_replicated vs) n (rollback_count vs)) s.

(** Up to the call of [replicate]: a result, or the batch to replicate.
    [bft_backup] is [type() == BFT && is_backup()]. *)
Definition commit_start (is_primary bft_backup : bool) (txid : TxID) (pending_tx : P) (globally_committable : bool) s :
  option (result (Store P T * (CommitResult + Replication))) :=
  let vs := vers s in
  if negb (term txid =? term_of_next_version vs) && is_primary then Some (Ok (s, inl FAIL_NO_REPLICATE))
  else
    let s := if globally_committable && (last_committable vs <? tx_version txid)
             then set_last_committable (tx_version txid) s else s in
    let s := match pending_txs s !! tx_version txid with
             | Some _ => s
             | None => set_pending (<[tx_version txid := (pending_tx, globally_committable)]> (pending_txs s)) s
             end in
    r ← batch_loop (Datatypes.S (base.size (pending_txs s))) 1 [] s;
    Some (
      '(s, batch) ← r;
      match batch with
      | [] => Ok (s, inl SUCCESS)
      | _ :: _ =>
          let previous := last_replicated (vers s) in
          let next := wrap64 (previous + zlen batch) in
          let rep := mkReplication batch (term_of_next_version (vers s)) previous (rollback_count (vers s)) next in
          Ok (if bft_backup then set_last_replicated next s else s, inr rep)
      end).

(** After the call of [replicate]. *)
Definition commit_end (bft_backup replicated : bool) (rep : Replication) s : Store P T * CommitResult :=
  if replicated then
    (if (last_replicated (vers s) =? previous_last_replicated rep) &&
        (previous_rollback_count rep =? rollback_count (vers s)) && negb bft_backup
     then set_last_replicated (next_last_replicated rep) s else s, SUCCESS)
  else (s, FAIL_NO_REPLICATE).

(** The consensus, as it answers during the call. *)
Record Consensus := mkConsensus {
  is_primary : bool;
  bft_backup : bool;
  replicate : list BatchEntry -> Z -> bool
}.

(** With nothing between the two steps: the store, the result and the batch. *)
Definition commit (consensus : option Consensus) (txid : TxID) (pending_tx : P) (globally_committable : bool) s :
  option (result (Store P T * CommitResult * list BatchEntry)) :=
  match consensus with
  | None => Some (Ok (s, SUCCESS, []))
  | Some c =>
      r ← commit_start (is_primary c) (bft_backup c) txid pending_tx globally_committable s;
      Some (
        '(s, r) ← r;
        match r with
        | inl res => Ok (s, res, [])
        | inr rep =>
            let '(s, res) := commit_end (bft_backup c) (replicate c (rep_batch rep) (rep_view rep)) rep s in
            Ok (s, res, rep_batch rep)
        end)
  end.

End ops.

(** [MovePendingTx::call] *)
Definition move_call {T} (p : PendingTxInfo) (s : Store PendingTxInfo T) : result (Store PendingTxInfo T * PendingTxInfo) := Ok (s, p).

(** ** Specification *)

Section spec.
Context {P T : Type} `{ST : KvState VersionV T} `{KL : !KvStateLaws VersionV T}.
Implicit Types (s : Store P T).

(** The state of a table at its last commit. *)
Definition tail_version (m : Map T) : Z :=
  match last (UntypedMap.commits m) with Some t => UntypedMap.lc_version t | None => 0 end.
Definition head_version (m : Map T) : Z :=
  match head (UntypedMap.commits m) with Some t => UntypedMap.lc_version t | None => 0 end.
Definition tail_state (m : Map T) : gmap K VersionV :=
  match last (UntypedMap.commits m) with Some t => st_model (UntypedMap.lc_state t) | None => ∅ end.

(** The table with a name, and what it contains now. *)
Definition table (n : K) s : option (Map T) :=
  match KvHandle.map_find n (maps s) with Some (_, id) => objs s !! id | None => None end.
Definition contents (n : K) s : option (gmap K VersionV) := tail_state <$> table n s.

(** An object that the store of version [v] can use under the name [n]. *)
Definition table_ok (v : Z) (n : K) (m : Map T) : Prop :=
  UntypedMap.name m = n /\ UntypedMap.map_ok m /\ tail_version m <= v.
Definition obj_ok (v : Z) (n : K) (id : nat) s : Prop := exists m, objs s !! id = Some m /\ table_ok v n m.

Definition versions_ok (vs : Versions) : Prop :=
  0 <= compacted vs /\ compacted vs <= version vs /\ version vs < 2 ^ 63.
Definition entry_ok s (n : K) (cv : Z) (id : nat) : Prop :=
  obj_ok (version (vers s)) n id s /\ 0 <= cv <= version (vers s) /\
  forall m, objs s !! id = Some m -> head_version m <= compacted (vers s).
Definition store_ok s : Prop :=
  KvHandle.sorted (maps s) /\ versions_ok (vers s) /\
  forall n cv id, KvHandle.map_find n (maps s) = Some (cv, id) -> entry_ok s n cv id.

(** The change sets of a transaction: each over the table of its name or over a
    map that the transaction has created. *)
Definition change_ok s (new_maps : list (K * nat)) (n : K) (id : nat) (c : ChangeSet T) : Prop :=
  obj_ok (version (vers s)) n id s /\
  (exists rb cs, c = UntypedMap.Changes rb cs /\ UntypedMap.writes_ok cs) /\
  ((exists cv, KvHandle.map_find n (maps s) = Some (cv, id)) \/ KvHandle.map_find n new_maps = Some id).
Definition new_map_ok s (n : K) (id : nat) : Prop :=
  obj_ok (version (vers s)) n id s /\ forall m, objs s !! id = Some m -> head_version m <= compacted (vers s) /\ tail_state m = ∅.
Definition tx_ok s (changes : Changes) (new_maps : list (K * nat)) : Prop :=
  KvHandle.sorted changes /\ KvHandle.sorted new_maps /\
  (forall n id c, KvHandle.map_find n changes = Some (id, c) -> change_ok s new_maps n id c) /\
  (forall n id, KvHandle.map_find n new_maps = Some id -> new_map_ok s n id).

(** The writes of a transaction to one table. *)
Definition writes_of (n : K) (changes : Changes (T := T)) : Write :=
  match KvHandle.map_find n changes with Some (_, UntypedMap.Changes _ cs) => KvHandle.writes cs | _ => [] end.

End spec.

(** ** Lemmas *)

Section objects.
Context {P T : Type}.
Implicit Types (s : Store P T) (o : list (Map T)).

Definition apply_upd (l : list (nat * (Map T -> Map T))) o : list (Map T) := foldl (fun o e => alter e.2 e.1 o) o l.

Lemma apply_upd_lookup l : NoDup l.*1 -> forall o id,
  apply_upd l o !! id = (match (list_to_map l : gmap nat (Map T -> Map T)) !! id with Some f => f | None => fun m => m end) <$> (o !! id).
Proof.
  induction l as [|[id0 f] l IH]; intros Hnd o id; cbn [apply_upd foldl fst snd list_to_map foldr].
  - rewrite lookup_empty. by destruct (o !! id).
  - apply NoDup_cons in Hnd as [Hni Hnd]. fold (apply_upd l (alter f id0 o)). rewrite IH by done. cbn in Hni.
    destruct (decide (id0 = id)) as [->|Hne].
    + rewrite lookup_insert_eq, list_lookup_alter_eq, not_elem_of_list_to_map_1 by done. by destruct (o !! id).
    + by rewrite lookup_insert_ne, list_lookup_alter_ne by done.
Qed.

Lemma apply_upd_length l : forall o, length (apply_upd l o) = length o.
Proof. induction l as [|[id f] l IH]; intros o; [done|]. cbn. fold (apply_upd l (alter f id o)). by rewrite IH, length_alter. Qed.

Lemma set_obj_alter id m f s : objs s !! id = Some m -> set_obj id (f m) s = set_objs (alter f id (objs s)) s.
Proof.
  intros Hm. unfold set_obj. f_equal. apply list_eq. intros i. destruct (decide (i = id)) as [->|Hne].
  - rewrite list_lookup_insert_eq by (by eapply lookup_lt_Some). by rewrite list_lookup_alter_eq, Hm.
  - by rewrite list_lookup_insert_ne, list_lookup_alter_ne by done.
Qed.

Lemma update_maps_spec f l : forall s, Forall (fun e => is_Some (objs s !! e.2.2)) l ->
  update_maps f l s = Ok (set_objs (apply_upd ((fun e : K * (Z * nat) => (e.2.2, f)) <$> l) (objs s)) s).
Proof.
  induction l as [|[n [cv id]] l IH]; intros s Hl; cbn [update_maps].
  { by destruct s. }
  apply Forall_cons in Hl as [[m Hm] Hl]. cbn in Hm. unfold obj. rewrite Hm. cbn [mbind result_bind].
  rewrite (set_obj_alter _ _ _ _ Hm), IH.
  - done.
  - eapply Forall_impl; [exact Hl|]. intros e [m' He]. apply lookup_lt_is_Some. cbn. rewrite length_alter. by apply lookup_lt_Some in He.
Qed.

End objects.

Section lemmas.
Context {P T : Type} `{ST : KvState VersionV T} `{KL : !KvStateLaws VersionV T}.
Implicit Types (s : Store P T).

(** Different names have different objects. *)
Lemma obj_ok_inj v v' n n' id s : obj_ok v n id s -> obj_ok v' n' id s -> n = n'.
Proof. intros (m & E & <- & _) (m' & E' & <- & _). congruence. Qed.

Lemma sorted_find {A} (l : list (K * A)) k a : KvHandle.sorted l -> (k, a) ∈ l <-> KvHandle.map_find k l = Some a.
Proof.
  intros Hs. rewrite KvHandle.map_find_lookup. apply elem_of_list_to_map. by apply KvHandle.sorted_NoDup.
Qed.

Lemma ids_NoDup {A} (g : A -> nat) (l : list (K * A)) s : KvHandle.sorted l ->
  (forall n a, KvHandle.map_find n l = Some a -> exists v, obj_ok v n (g a) s) -> NoDup ((fun e => g e.2) <$> l).
Proof.
  intros Hs Hok. assert (Hall : forall n a, (n, a) ∈ l -> exists v, obj_ok v n (g a) s) by (intros n a H; apply Hok; by apply sorted_find).
  clear Hok. induction l as [|[n a] l IH]; [constructor|]. pose proof (KvHandle.sorted_not_in _ _ _ Hs) as Hn.
  apply KvHandle.sorted_inv in Hs as [Hs _]. rewrite fmap_cons. constructor.
  - intros ([n' a'] & E & Hin)%list_elem_of_fmap. cbn in E. destruct (Hall n a) as [v H1]; [by left|].
    destruct (Hall n' a') as [v' H2]; [by right|]. rewrite <- E in H2. pose proof (obj_ok_inj _ _ _ _ _ _ H1 H2) as <-.
    apply sorted_find in Hin; [|done]. congruence.
  - apply IH; [done|]. intros n' a' H. apply Hall. by right.
Qed.

(** *** Updating every table *)

Lemma maps_objs s : store_ok s -> Forall (fun e => is_Some (objs s !! e.2.2)) (maps s).
Proof.
  intros (Hs & _ & Hok). apply Forall_forall. intros [n [cv id]] Hin. apply sorted_find in Hin; [|done].
  destruct (Hok _ _ _ Hin) as ((m & Hm & _) & _). by exists m.
Qed.

Lemma update_maps_lookup f s : store_ok s ->
  exists o, update_maps f (maps s) s = Ok (set_objs o s) /\
    forall n cv id, KvHandle.map_find n (maps s) = Some (cv, id) -> o !! id = f <$> objs s !! id.
Proof.
  intros Hstore. pose proof Hstore as (Hs & _ & Hok). rewrite update_maps_spec by (by apply maps_objs).
  eexists. split; [done|]. intros n cv id Hf. rewrite apply_upd_lookup.
  - replace (list_to_map _ !! id) with (Some f); [done|]. symmetry. apply elem_of_list_to_map_1.
    + rewrite <- list_fmap_compose. apply (ids_NoDup (fun a : Z * nat => a.2) (maps s) s Hs). intros n' [cv' id'] H. eexists. by apply (Hok _ _ _ H).
    + apply list_elem_of_fmap. exists (n, (cv, id)). split; [done|]. by apply sorted_find.
  - rewrite <- list_fmap_compose. apply (ids_NoDup (fun a : Z * nat => a.2) (maps s) s Hs). intros n' [cv' id'] H. eexists. by apply (Hok _ _ _ H).
Qed.

(** An operation on every table keeps the invariant at new versions. *)
Lemma update_maps_ok f s vs o : store_ok s -> versions_ok vs ->
  (forall n cv id, KvHandle.map_find n (maps s) = Some (cv, id) -> o !! id = f <$> objs s !! id) ->
  (forall n m, table_ok (version (vers s)) n m -> head_version m <= compacted (vers s) ->
    table_ok (version vs) n (f m) /\ head_version (f m) <= compacted vs) ->
  forall l, KvHandle.sorted l ->
  (forall n cv id, KvHandle.map_find n l = Some (cv, id) -> KvHandle.map_find n (maps s) = Some (cv, id) /\ 0 <= cv <= version vs) ->
  store_ok (set_maps l (set_vers vs (set_objs o s))).
Proof.
  intros (Hs & _ & Hok) Hvs Ho Hf l Hl Hin. split_and!; [done | done |]. intros n cv id Hfind. cbn in Hfind.
  destruct (Hin _ _ _ Hfind) as [Hfind' Hcv]. destruct (Hok _ _ _ Hfind') as ((m & Hm & Ht) & _ & Hh).
  destruct (Hf n m Ht (Hh m Hm)) as [Ht' Hh']. pose proof (Ho _ _ _ Hfind') as Hom. rewrite Hm in Hom.
  split_and!; cbn; [by exists (f m) | lia | lia |]. intros m' Hm'. rewrite Hom in Hm'. by injection Hm' as <-.
Qed.

Lemma compact_table v m n vs : table_ok vs n m -> head_version m <= v ->
  table_ok vs n (UntypedMap.compact v m) /\ head_version (UntypedMap.compact v m) <= v /\
  tail_state (UntypedMap.compact v m) = tail_state m.
Proof.
  intros (Hn & Hm & Ht) Hh. destruct (UntypedMap.map_ok_tail m Hm) as (l & t & _ & El & _).
  destruct (UntypedMap.compact_tail v m t Hm El) as (t' & El' & Ev & Es). unfold table_ok, tail_version, tail_state, head_version in *.
  rewrite El' in *. rewrite El in *. rewrite Ev, Es.
  destruct (UntypedMap.compact_spec v m Hm) as (pre & c & c' & rest & E1 & E2 & E3 & _ & E5 & _).
  split_and!; [ | by apply UntypedMap.compact_ok | done | | done].
  - unfold UntypedMap.compact. by destruct (UntypedMap.compact_loop _ _ _ _).
  - rewrite E2. cbn. rewrite E3. destruct pre; [by rewrite E1 in Hh | by apply E5].
Qed.

Lemma rollback_table v m n vs : table_ok vs n m -> head_version m <= v ->
  table_ok v n (UntypedMap.rollback v m) /\ head_version (UntypedMap.rollback v m) = head_version m.
Proof.
  intros (Hn & Hm & Ht) Hh. destruct (UntypedMap.rollback_spec v m Hm) as (popped & E & Hne & _ & _ & _ & t & El & Hv).
  assert (Hhead : head_version (UntypedMap.rollback v m) = head_version m).
  { unfold head_version. rewrite E. by destruct (UntypedMap.commits (UntypedMap.rollback v m)). }
  split; [|done]. split_and!; [ | by apply UntypedMap.rollback_ok |].
  - unfold UntypedMap.rollback. destruct (UntypedMap.pop_tail _ _) as [? []]; done.
  - unfold tail_version. rewrite El. destruct Hv as [Hv|Hv]; [done|]. unfold head_version in Hhead, Hh. rewrite Hv in Hhead. cbn in Hhead. lia.
Qed.

Lemma post_compact_maps_spec l : forall s s', update_maps (fun m => fst (UntypedMap.post_compact m)) l s = Ok s' ->
  exists calls, post_compact_maps l s = Ok (s', calls).
Proof.
  induction l as [|[n [cv id]] l IH]; intros s s'; cbn [update_maps post_compact_maps]; [intros [= ->]; by eexists|].
  destruct (obj id s) as [m| |]; cbn [mbind result_bind]; [|done..]. intros H. destruct (IH _ _ H) as [calls Hc].
  unfold UntypedMap.post_compact at 1. cbn [fst] in Hc. eexists. unfold UntypedMap.post_compact in Hc. cbn [fst] in Hc. rewrite Hc. done.
Qed.

(** *** Compaction and rollback of the store *)

Lemma store_compact_spec v s : store_ok s -> compacted (vers s) <= v <= version (vers s) ->
  exists s' calls, compact v s = Ok (s', calls) /\ store_ok s' /\ maps s' = maps s /\
    version (vers s') = version (vers s) /\ compacted (vers s') = v /\ pending_txs s' = pending_txs s /\
    forall n cv id, KvHandle.map_find n (maps s) = Some (cv, id) ->
      objs s' !! id = (fun m => fst (UntypedMap.post_compact (UntypedMap.compact v m))) <$> objs s !! id.
Proof.
  intros Hok Hv. pose proof Hok as (Hsort & (Hv1 & Hv2 & Hv3) & Hent). unfold compact.
  destruct (Z.ltb_spec (version (vers s)) v); [lia|]. destruct (update_maps_lookup (UntypedMap.compact v) s Hok) as (o & E & Ho).
  rewrite E. cbn [mbind result_bind]. set (vs := mkVersions _ _ _ _ _ _ _ _). set (s1 := set_vers vs (set_objs o s)).
  assert (Hok1 : store_ok s1).
  { apply (update_maps_ok (UntypedMap.compact v) s vs o Hok) with (l := maps s); [by split_and!; cbn; lia | done | | done |].
    - intros n m Ht Hh. destruct (compact_table v m n _ Ht) as (? & ? & _); [cbn in *; lia|]. done.
    - intros n cv id Hf. destruct (Hent _ _ _ Hf) as (_ & ? & _). done. }
  destruct (update_maps_lookup (fun m => fst (UntypedMap.post_compact m)) s1 Hok1) as (o' & E' & Ho').
  destruct (post_compact_maps_spec _ _ _ E') as [calls Ec]. exists (set_objs o' s1), calls. split; [exact Ec|].
  split_and!; [|done..|].
  - apply (update_maps_ok (fun m => fst (UntypedMap.post_compact m)) s1 vs o' Hok1) with (l := maps s); [by split_and!; cbn; lia | done | | done |].
    + intros n m (? & ? & ?) ?. done.
    + intros n cv id Hf. destruct (Hent _ _ _ Hf) as (_ & ? & _). done.
  - intros n cv id Hf. cbn. rewrite (Ho' n cv id Hf). cbn. rewrite (Ho n cv id Hf). by destruct (objs s !! id).
Qed.

Lemma keep_maps_find v l n cv id : KvHandle.sorted l ->
  KvHandle.map_find n (keep_maps v l) = Some (cv, id) <-> KvHandle.map_find n l = Some (cv, id) /\ cv <= v.
Proof.
  intros Hs. induction l as [|[n' [cv' id']] l IH]; [by split; [|intros []]|].
  pose proof (KvHandle.sorted_not_in _ _ _ Hs) as Hn. apply KvHandle.sorted_inv in Hs as [Hs _]. specialize (IH Hs).
  unfold keep_maps in *. rewrite filter_cons. cbn [fst snd KvHandle.map_find]. case_decide as Hc; cbn [KvHandle.map_find].
  - case_bool_decide; [|done]. split; [intros [= <- <-]; done | by intros [? _]].
  - case_bool_decide as He; [|done]. subst. rewrite IH, Hn. split; [by intros [? _] | intros [[= <- <-] ?]; lia].
Qed.

Lemma keep_maps_sorted v l : KvHandle.sorted l -> KvHandle.sorted (keep_maps v l).
Proof.
  induction 1 as [|[n e] l Hs IH Hf]; [constructor|]. unfold keep_maps in *. rewrite filter_cons. case_decide; [|done].
  constructor; [done|]. apply Forall_forall. intros x Hx. apply list_elem_of_filter in Hx as [_ Hx]. rewrite Forall_forall in Hf. by apply Hf.
Qed.

Lemma store_rollback_spec tx t s : store_ok s -> compacted (vers s) <= tx_version tx ->
  exists s', rollback tx t s = Ok s' /\ store_ok s' /\
    version (vers s') = Z.min (version (vers s)) (tx_version tx) /\ compacted (vers s') = compacted (vers s) /\
    term_of_next_version (vers s') = t /\ term_of_last_version (vers s') = term tx /\
    (tx_version tx < version (vers s) -> last_replicated (vers s') = tx_version tx /\ pending_txs s' = ∅) /\
    (version (vers s) <= tx_version tx -> maps s' = maps s /\ objs s' = objs s) /\
    (tx_version tx < version (vers s) -> maps s' = keep_maps (tx_version tx) (maps s) /\
      forall n cv id, KvHandle.map_find n (maps s) = Some (cv, id) -> objs s' !! id = UntypedMap.rollback (tx_version tx) <$> objs s !! id).
Proof.
  intros Hok Hv. pose proof Hok as (Hsort & (Hv1 & Hv2 & Hv3) & Hent). unfold rollback.
  destruct (Z.ltb_spec (tx_version tx) (compacted (vers s))); [lia|]. cbn [version].
  destruct (Z.leb_spec (version (vers s)) (tx_version tx)) as [Hle|Hlt].
  { eexists. split; [done|]. split_and!; cbn; try done; try lia. }
  set (vs := mkVersions (tx_version tx) _ _ _ _ _ _ _).
  set (s1 := set_pending ∅ _). change (maps s1) with (maps s).
  rewrite update_maps_spec by exact (maps_objs s Hok). cbn [mbind result_bind]. change (objs s1) with (objs s).
  destruct (update_maps_lookup (UntypedMap.rollback (tx_version tx)) s Hok) as (o & E & Ho).
  rewrite update_maps_spec in E by (by apply maps_objs). injection E as E. rewrite E. clear E.
  eexists. split; [done|]. change (maps (set_objs o s1)) with (maps s).
  assert (Hok' : store_ok (set_maps (keep_maps (tx_version tx) (maps s)) (set_vers vs (set_objs o s)))).
  { apply (update_maps_ok (UntypedMap.rollback (tx_version tx)) s vs o Hok); [by split_and!; cbn; lia | done | | by apply keep_maps_sorted|].
    - intros n m Ht Hh. destruct (rollback_table (tx_version tx) m n _ Ht) as [? Hh']; [lia|]. split; [done | cbn; lia].
    - intros n cv id Hf. apply keep_maps_find in Hf as [Hf Hc]; [|done]. destruct (Hent _ _ _ Hf) as (_ & ? & _). split; [done | cbn; lia]. }
  split_and!; cbn; try done; try lia.
Qed.

(** *** Applying changes *)

Definition commit1 (v : Z) (c : ChangeSet T) (m : Map T) : Map T :=
  match UntypedMap.commit v false c m with Ok (m, _) => m | _ => m end.

Lemma commit_table v0 v n m rb cs : table_ok v0 n m -> v0 < v < 2 ^ 63 -> UntypedMap.writes_ok cs ->
  let c := UntypedMap.Changes rb cs in
  (exists cv, UntypedMap.commit v false c m = Ok (commit1 v c m, cv)) /\
  table_ok v n (commit1 v c m) /\ head_version (commit1 v c m) = head_version m /\
  tail_state (commit1 v c m) = foldl (UntypedMap.write1 v) (tail_state m) (KvHandle.writes cs) /\
  (KvHandle.writes cs = [] -> commit1 v c m = m).
Proof.
  intros (Hn & Hm & Ht) Hv Hw c. destruct (UntypedMap.map_ok_tail m Hm) as (l & t & El & Et & _). unfold tail_version in Ht. rewrite Et in Ht.
  destruct (UntypedMap.commit_changes_spec v cs m t Hm Et ltac:(lia) Hw) as (m' & E & Hm' & _ & t' & Et' & Es & Hcase).
  assert (Hc : commit1 v c m = m') by (unfold commit1, c; cbn [UntypedMap.commit]; by rewrite E). rewrite Hc.
  assert (Hname : UntypedMap.name m' = UntypedMap.name m /\ head_version m' = head_version m /\ UntypedMap.lc_version t' <= v).
  { destruct Hcase as [[-> ->]|[-> <-]]; [split_and!; [done | done | lia]|]. split_and!; [done | | done]. unfold head_version. cbn.
    rewrite El. by destruct l. }
  destruct Hname as (Hname & Hhead & Hver). split_and!.
  - eexists. exact E.
  - split_and!; [congruence | done |]. unfold tail_version. by rewrite Et'.
  - done.
  - unfold tail_state. by rewrite Et', Et.
  - intros Hwe. unfold UntypedMap.commit_changes in E. rewrite Hwe in E. cbn in E. by injection E as <-.
Qed.

(** The phase that commits every change set. *)
Lemma commit_all_spec v changes : forall s, KvHandle.sorted changes ->
  (forall n id c, KvHandle.map_find n changes = Some (id, c) ->
     exists m cv, objs s !! id = Some m /\ UntypedMap.name m = n /\ UntypedMap.commit v false c m = Ok (commit1 v c m, cv)) ->
  exists o cvs, commit_all v false changes s = Ok (set_objs o s, cvs) /\ length cvs = length changes /\ length o = length (objs s) /\
    (forall n id c, KvHandle.map_find n changes = Some (id, c) -> o !! id = commit1 v c <$> objs s !! id) /\
    (forall id, (forall n c, KvHandle.map_find n changes <> Some (id, c)) -> o !! id = objs s !! id).
Proof.
  induction changes as [|[n [id c]] changes IH]; intros s Hsort Hok; cbn [commit_all].
  { exists (objs s), []. destruct s. by split_and!. }
  pose proof (KvHandle.sorted_not_in _ _ _ Hsort) as Hn. apply KvHandle.sorted_inv in Hsort as [Hsort _].
  assert (Hfind : forall n' x, KvHandle.map_find n' changes = Some x -> KvHandle.map_find n' ((n, (id, c)) :: changes) = Some x).
  { intros n' x Hx. cbn. case_bool_decide; [congruence | done]. }
  destruct (Hok n id c) as (m & cv & Hm & Hname & Ec); [cbn; by rewrite bool_decide_eq_true_2|].
  unfold obj. rewrite Hm. cbn [mbind result_bind]. rewrite Ec. cbn [mbind result_bind]. set (m' := commit1 v _ m) in *.
  assert (Hne : forall n' id' c', KvHandle.map_find n' changes = Some (id', c') -> id' <> id).
  { intros n' id' c' Hf ->. destruct (Hok n' id c' (Hfind _ _ Hf)) as (m2 & _ & Hm2 & Hn2 & _). congruence. }
  destruct (IH (set_obj id m' s) Hsort) as (o & cvs & E & Hl & Hlo & H1 & H2).
  { intros n' id' c' Hf. destruct (Hok n' id' c' (Hfind _ _ Hf)) as (m2 & cv2 & Hm2 & Hr). exists m2, cv2. split; [|done].
    cbn. rewrite list_lookup_insert_ne; [done|]. intros ->. by eapply Hne. }
  rewrite E. cbn [mbind result_bind]. exists o, (cv :: cvs). split_and!.
  - done.
  - cbn. lia.
  - rewrite Hlo. cbn. by rewrite length_insert.
  - intros n' id' c' Hf. cbn in Hf. case_bool_decide as He.
    + injection Hf as <- <-. rewrite H2 by (intros ? ? Hf; by eapply Hne). cbn. rewrite list_lookup_insert_eq by (by eapply lookup_lt_Some).
      by rewrite Hm.
    + rewrite (H1 _ _ _ Hf). cbn. rewrite list_lookup_insert_ne; [done|]. intros ->. by eapply Hne.
  - intros id' Hf. assert (id' <> id) by (intros ->; apply (Hf n c); cbn; by rewrite bool_decide_eq_true_2).
    rewrite H2. { cbn. by rewrite list_lookup_insert_ne. } intros n' c' Hf'. apply (Hf n' c'). by apply Hfind.
Qed.

Definition written (n : K) (changes : Changes (T := T)) : bool :=
  match KvHandle.map_find n changes with Some (_, c) => UntypedMap.has_writes c | None => false end.

(** The same table, up to the hooks that [add_dynamic_map] sets. *)
Definition same_objs s s' : Prop :=
  length (objs s') = length (objs s) /\
  forall id m, objs s !! id = Some m -> exists h g, objs s' !! id = Some (set_map_hooks h g m).

Lemma same_objs_back s s' id m' : same_objs s s' -> objs s' !! id = Some m' ->
  exists m h g, objs s !! id = Some m /\ m' = set_map_hooks h g m.
Proof.
  intros [Hl Hs] Hm'. destruct (lookup_lt_is_Some_2 (objs s) id) as [m Hm]; [rewrite <- Hl; by eapply lookup_lt_Some|].
  destruct (Hs id m Hm) as (h & g & E). exists m, h, g. split; [done | congruence].
Qed.

Lemma add_new_maps_spec v changes new_maps : forall s, KvHandle.sorted new_maps -> KvHandle.sorted (maps s) ->
  (forall n id, KvHandle.map_find n new_maps = Some id ->
     KvHandle.map_find n (maps s) = None /\ exists m, objs s !! id = Some m /\ UntypedMap.name m = n) ->
  exists s', add_new_maps v changes new_maps s = Ok s' /\ vers s' = vers s /\ pending_txs s' = pending_txs s /\
    KvHandle.sorted (maps s') /\ same_objs s s' /\
    forall n, KvHandle.map_find n (maps s') =
      match KvHandle.map_find n new_maps with
      | Some id => if written n changes then Some (v, id) else KvHandle.map_find n (maps s)
      | None => KvHandle.map_find n (maps s)
      end.
Proof.
  assert (Hrefl : forall s, same_objs s s) by (intros s; split; [done|]; intros id m Hm; exists (UntypedMap.hook m), (UntypedMap.global_hook m);
    rewrite Hm; by destruct m).
  induction new_maps as [|[n id] new_maps IH]; intros s Hsn Hsm Hok; cbn [add_new_maps]; [by exists s; split_and!|].
  pose proof (KvHandle.sorted_not_in _ _ _ Hsn) as Hni. apply KvHandle.sorted_inv in Hsn as [Hsn _].
  destruct (Hok n id) as (Hnone & m & Hm & Hname); [cbn; by rewrite bool_decide_eq_true_2|].
  assert (Hrest : forall n' id', KvHandle.map_find n' new_maps = Some id' -> n' <> n /\
    KvHandle.map_find n' (maps s) = None /\ exists m, objs s !! id' = Some m /\ UntypedMap.name m = n').
  { intros n' id' Hf. assert (n' <> n) by congruence. split; [done|]. apply Hok. cbn. by rewrite bool_decide_eq_false_2. }
  fold (written n changes). replace (match KvHandle.map_find n changes with Some (_, c) => _ | None => _ end)
    with (if written n changes then add_dynamic_map v id s else Ok s)
    by (unfold written; destruct (KvHandle.map_find n changes) as [[? c]|]; [by destruct (UntypedMap.has_writes c) | done]).
  destruct (written n changes) eqn:Ew; cbn [mbind result_bind].
  - unfold add_dynamic_map, obj, get_map. rewrite Hm. cbn [mbind result_bind]. rewrite Hname, Hnone. cbn [mbind result_bind].
    set (m' := set_map_hooks _ _ m). set (s1 := set_obj id m' _).
    assert (Hs1 : same_objs s s1).
    { split; [cbn; by rewrite length_insert|]. intros id' x Hx. cbn. destruct (decide (id' = id)) as [->|Hne].
      - rewrite list_lookup_insert_eq by (by eapply lookup_lt_Some). rewrite Hm in Hx. injection Hx as <-. by eexists _, _.
      - rewrite list_lookup_insert_ne by done. exists (UntypedMap.hook x), (UntypedMap.global_hook x). rewrite Hx. by destruct x. }
    destruct (IH s1 Hsn) as (s' & E & Hv & Hp & Hs' & Hso & Hf).
    { by apply KvHandle.sorted_put. }
    { intros n' id' Hf. destruct (Hrest n' id' Hf) as (Hne & Hno & x & Hx & Hnx). split.
      - cbn. rewrite KvHandle.map_find_lookup, KvHandle.map_put_map, lookup_insert_ne by done. by rewrite <- KvHandle.map_find_lookup.
      - destruct Hs1 as [_ Hs1]. destruct (Hs1 _ _ Hx) as (h & g & ->). by eexists. }
    exists s'. split_and!; [done | done | done | done | |].
    + split; [destruct Hso as [-> _]; apply Hs1|]. intros id' x Hx. destruct Hs1 as [_ Hs1]. destruct (Hs1 _ _ Hx) as (h & g & Hx1).
      destruct Hso as [_ Hso]. destruct (Hso _ _ Hx1) as (h' & g' & ->). by eexists _, _.
    + intros n'. rewrite Hf. cbn. case_bool_decide as Hn'.
      * subst n'. rewrite Hni, Ew. by rewrite KvHandle.map_find_lookup, KvHandle.map_put_map, lookup_insert_eq.
      * destruct (KvHandle.map_find n' new_maps); [destruct (written n' changes); [done|]|];
          rewrite KvHandle.map_find_lookup, KvHandle.map_put_map, lookup_insert_ne, <- KvHandle.map_find_lookup by done; done.
  - destruct (IH s Hsn Hsm) as (s' & E & Hv & Hp & Hs' & Hso & Hf); [intros n' id' Hx; by apply (Hrest n' id')|].
    exists s'. split_and!; [done..|]. intros n'. rewrite Hf. cbn. case_bool_decide as Hn'; [subst; by rewrite Hni, Ew | done].
Qed.

Lemma prepare_all_total changes s : KvHandle.sorted changes ->
  (forall n id c, KvHandle.map_find n changes = Some (id, c) ->
     (exists v, obj_ok v n id s) /\ exists rb cs, c = UntypedMap.Changes rb cs) ->
  exists b, prepare_all false changes s = Ok b.
Proof.
  induction changes as [|[n [id c]] changes IH]; intros Hs Hok; cbn [prepare_all]; [by eexists|].
  pose proof (KvHandle.sorted_not_in _ _ _ Hs) as Hni. apply KvHandle.sorted_inv in Hs as [Hs _].
  destruct (Hok n id c) as ((v & m & Hm & _ & Hmok & _) & rb & cs & ->); [cbn; by rewrite bool_decide_eq_true_2|].
  unfold obj. rewrite Hm. cbn [mbind result_bind UntypedMap.prepare]. destruct (UntypedMap.prepare_total false rb cs m Hmok) as [b ->].
  cbn [mbind result_bind]. destruct b; [|by eexists]. apply IH; [done|]. intros n' id' c' Hf. apply Hok. cbn. case_bool_decide; [congruence | done].
Qed.

Lemma post_commit_all_total changes : forall cvs s, Forall (fun e => is_Some (objs s !! e.2.1) /\ exists rb cs, e.2.2 = UntypedMap.Changes rb cs) changes ->
  exists hooks, post_commit_all changes cvs s = Ok hooks.
Proof.
  induction changes as [|[n [id c]] changes IH]; intros cvs s Hok; [by eexists|]. apply Forall_cons in Hok as [[[m Hm] (rb & cs & Ec)] Hok].
  cbn in Hm, Ec. subst c. destruct cvs as [|cv cvs]; [by eexists|]. cbn [post_commit_all]. unfold obj. rewrite Hm. cbn [mbind result_bind UntypedMap.post_commit].
  destruct (IH cvs s Hok) as [hooks ->]. by eexists.
Qed.

Lemma new_maps_free_find s cv new_maps : store_ok s -> KvHandle.sorted new_maps -> version (vers s) <= default (version (vers s)) cv ->
  new_maps_free cv new_maps s = true -> forall n id, KvHandle.map_find n new_maps = Some id -> KvHandle.map_find n (maps s) = None.
Proof.
  intros (_ & _ & Hok) Hs Hcv Hf n id Hn. apply sorted_find in Hn; [|done]. unfold new_maps_free in Hf. rewrite forallb_forall in Hf.
  specialize (Hf (n, id) (proj1 (list_elem_of_In _ _) Hn)). cbn in Hf. unfold get_map in Hf.
  destruct (KvHandle.map_find n (maps s)) as [[c id']|] eqn:E; [|done]. destruct (Hok _ _ _ E) as (_ & Hc & _).
  destruct (Z.leb_spec c (match cv with Some v => v | None => version (vers s) end)); [done|]. destruct cv; cbn in Hcv; lia.
Qed.

Lemma written_writes n id c changes : KvHandle.map_find n changes = Some (id, c) -> (exists rb cs, c = UntypedMap.Changes rb cs) ->
  written n changes = UntypedMap.nonempty (writes_of n changes).
Proof. intros Hf (rb & cs & ->). unfold written, writes_of. rewrite Hf. cbn. by destruct (KvHandle.writes cs). Qed.

(** The maps and the objects after the new maps have been added and the change
    sets committed. *)
Definition applied (v : Z) (changes : Changes (T := T)) (new_maps : list (K * nat)) s s2 (o : list (Map T)) : Prop :=
  same_objs s s2 /\ KvHandle.sorted (maps s2) /\
  (forall n, KvHandle.map_find n (maps s2) =
     match KvHandle.map_find n new_maps with
     | Some id => if written n changes then Some (v, id) else KvHandle.map_find n (maps s)
     | None => KvHandle.map_find n (maps s)
     end) /\
  (forall n id c, KvHandle.map_find n changes = Some (id, c) -> o !! id = commit1 v c <$> objs s2 !! id) /\
  (forall id, (forall n c, KvHandle.map_find n changes <> Some (id, c)) -> o !! id = objs s2 !! id).

Section phases.
Context (v : Z) (changes : Changes (T := T)) (new_maps : list (K * nat)) (s s2 : Store P T) (o : list (Map T)).
Hypothesis (Hok : store_ok s) (Htx : tx_ok s changes new_maps) (Hv : version (vers s) < v < 2 ^ 63).
Hypothesis Hfree : forall n id, KvHandle.map_find n new_maps = Some id -> KvHandle.map_find n (maps s) = None.

Lemma obj_ok_same v0 n id : same_objs s s2 -> obj_ok v0 n id s -> obj_ok v0 n id s2.
Proof. intros [_ Hso] (m & Hm & Ht). destruct (Hso id m Hm) as (h & g & E). exists (set_map_hooks h g m). by split. Qed.

(** A table that is not written keeps its object. *)
Lemma not_changed n id v0 : obj_ok v0 n id s -> KvHandle.map_find n changes = None ->
  forall n' c', KvHandle.map_find n' changes <> Some (id, c').
Proof.
  intros Ho Hn n' c' Hf'. destruct Htx as (_ & _ & Hch & _). destruct (Hch n' id c' Hf') as (Ho' & _).
  pose proof (obj_ok_inj _ _ _ _ _ _ Ho Ho') as ->. congruence.
Qed.

Lemma applied_contents n : applied v changes new_maps s s2 o ->
  contents n (set_objs o s2) = if UntypedMap.nonempty (writes_of n changes)
    then Some (foldl (UntypedMap.write1 v) (default ∅ (contents n s)) (writes_of n changes)) else contents n s.
Proof.
  intros (Hso & _ & Hf2 & H1 & H2). pose proof Htx as (_ & _ & Hch & Hnm). destruct Hok as (_ & _ & Hent).
  unfold contents, table. cbn [maps set_objs objs]. rewrite Hf2. destruct (KvHandle.map_find n changes) as [[id c]|] eqn:Ec.
  - destruct (Hch n id c Ec) as (Ho & (rb & cs & -> & Hw) & Hwhere). rewrite (written_writes n id _ changes Ec) by (by eexists _, _).
    assert (Hwo : writes_of n changes = KvHandle.writes cs) by (unfold writes_of; by rewrite Ec). rewrite Hwo.
    destruct (obj_ok_same _ _ _ Hso Ho) as (m2 & Hm2 & Ht2). pose proof (H1 n id _ Ec) as Hoid. rewrite Hm2 in Hoid. cbn [fmap option_fmap option_map] in Hoid.
    destruct (commit_table _ v n m2 rb cs Ht2 Hv Hw) as (_ & _ & _ & Hts & Hsame).
    destruct (same_objs_back _ _ _ _ Hso Hm2) as (m & h & g & Hm & ->). change (tail_state (set_map_hooks h g m)) with (tail_state m) in Hts.
    destruct Hwhere as [[cv Hold]|Hnew].
    + assert (KvHandle.map_find n new_maps = None) as -> by (destruct (KvHandle.map_find n new_maps) eqn:En; [by rewrite (Hfree _ _ En) in Hold | done]).
      rewrite Hold, Hoid, Hm. cbn. destruct (KvHandle.writes cs) eqn:Ew; cbn [UntypedMap.nonempty]; [by rewrite Hsame | by rewrite Hts].
    + rewrite Hnew, (Hfree n id Hnew). destruct (KvHandle.writes cs) eqn:Ew; cbn [UntypedMap.nonempty]; [done|].
      rewrite Hoid. cbn. rewrite Hts. destruct (Hnm n id Hnew) as [_ Hh]. by destruct (Hh m Hm) as [_ ->].
  - assert (written n changes = false) as -> by (unfold written; by rewrite Ec).
    assert (writes_of n changes = []) as -> by (unfold writes_of; by rewrite Ec). cbn [UntypedMap.nonempty].
    replace (match KvHandle.map_find n new_maps with Some _ => _ | None => _ end) with (KvHandle.map_find n (maps s)) by (by destruct (KvHandle.map_find n new_maps)).
    destruct (KvHandle.map_find n (maps s)) as [[cv id]|] eqn:Em; [|done]. destruct (Hent _ _ _ Em) as (Ho & _).
    rewrite H2 by (by apply (not_changed n id _ Ho)).
    destruct Ho as (m & Hm & _). destruct Hso as [_ Hso]. destruct (Hso id m Hm) as (h & g & ->). by rewrite Hm.
Qed.

(** Where an entry of the new maps comes from. *)
Lemma applied_entry n cv id : applied v changes new_maps s s2 o -> KvHandle.map_find n (maps s2) = Some (cv, id) ->
  obj_ok (version (vers s)) n id s /\ 0 <= cv <= v /\ (forall m, objs s !! id = Some m -> head_version m <= compacted (vers s)) /\
  (forall id' c, KvHandle.map_find n changes = Some (id', c) -> id' = id).
Proof.
  intros (_ & _ & Hf2 & _) Hf. destruct Htx as (_ & _ & Hch & Hnm). destruct Hok as (_ & Hvs & Hent). rewrite Hf2 in Hf. destruct Hvs as (? & ? & ?).
  assert (Hin : (KvHandle.map_find n new_maps = Some id /\ cv = v) \/ (KvHandle.map_find n new_maps = None /\ KvHandle.map_find n (maps s) = Some (cv, id))).
  { destruct (KvHandle.map_find n new_maps) as [id'|] eqn:En; [|by right]. left.
    destruct (written n changes); [by injection Hf as <- <- | by rewrite (Hfree n id' En) in Hf]. }
  destruct Hin as [[En ->]|[En Em]].
  - destruct (Hnm n id En) as [Ho Hh]. split_and!; [done | lia | lia | intros m Hm; by apply Hh|]. intros id' c Ec.
    destruct (Hch n id' c Ec) as (_ & _ & [[cv' Hx]|Hx]); [by rewrite (Hfree _ _ En) in Hx | congruence].
  - destruct (Hent _ _ _ Em) as (Ho & Hc & Hh). split_and!; [done | lia | lia | done |]. intros id' c Ec.
    destruct (Hch n id' c Ec) as (_ & _ & [[cv' Hx]|Hx]); congruence.
Qed.

Lemma applied_ok vs' : applied v changes new_maps s s2 o -> version vs' = v -> compacted vs' = compacted (vers s) ->
  store_ok (set_vers vs' (set_objs o s2)).
Proof.
  intros Happ Hvv Hvc. pose proof Happ as (Hso & Hsm2 & Hf2 & H1 & H2). pose proof Htx as (_ & _ & Hch & _). pose proof Hok as (_ & (? & ? & ?) & _).
  split_and!; [done | unfold versions_ok; cbn; lia |]. intros n cv id Hf. cbn [maps set_objs set_vers] in Hf.
  destruct (applied_entry n cv id Happ Hf) as (Ho & Hc & Hh & Hid). destruct (obj_ok_same _ _ _ Hso Ho) as (m2 & Hm2 & Ht2).
  destruct (same_objs_back _ _ _ _ Hso Hm2) as (m & h & g & Hm & ->). specialize (Hh m Hm). unfold entry_ok, obj_ok. cbn [vers set_vers objs set_objs].
  rewrite Hvv, Hvc. destruct (KvHandle.map_find n changes) as [[id' c]|] eqn:Ec.
  - pose proof (Hid _ _ eq_refl) as ->. destruct (Hch n id c Ec) as (_ & (rb & cs & -> & Hw) & _).
    destruct (commit_table _ v n _ rb cs Ht2 Hv Hw) as (_ & Htab & Hhead & _).
    pose proof (H1 n id _ Ec) as Hoid. rewrite Hm2 in Hoid. cbn [fmap option_fmap option_map] in Hoid.
    split_and!; [eexists; by split | lia | lia |]. intros m' Hm'. rewrite Hoid in Hm'. injection Hm' as <-. by rewrite Hhead.
  - rewrite H2 by (by apply (not_changed n id _ Ho)). rewrite Hm2. destruct Ht2 as (? & ? & ?).
    split_and!; [eexists; split; [done|]; split_and!; [done | done | lia] | lia | lia |]. by intros m' [= <-].
Qed.

End phases.

(** Adding the new maps and committing, for a transaction that has been validated. *)
Lemma apply_phase v changes new_maps s : store_ok s -> tx_ok s changes new_maps -> version (vers s) < v < 2 ^ 63 ->
  (forall n id, KvHandle.map_find n new_maps = Some id -> KvHandle.map_find n (maps s) = None) ->
  forall vs, exists s2 s3 cvs hooks, add_new_maps v changes new_maps (set_vers vs s) = Ok s2 /\
    commit_all v false changes s2 = Ok (s3, cvs) /\ post_commit_all changes cvs s3 = Ok hooks /\
    vers s3 = vs /\ pending_txs s3 = pending_txs s /\
    (forall n, contents n s3 = if UntypedMap.nonempty (writes_of n changes)
       then Some (foldl (UntypedMap.write1 v) (default ∅ (contents n s)) (writes_of n changes)) else contents n s) /\
    (forall vs', version vs' = v -> compacted vs' = compacted (vers s) -> store_ok (set_vers vs' s3)).
Proof.
  intros Hok Htx Hv Hfree vs. pose proof Hok as (Hsm & _ & _). pose proof Htx as (Hsc & Hsn & Hch & Hnm).
  destruct (add_new_maps_spec v changes new_maps (set_vers vs s) Hsn Hsm) as (s2 & E2 & Hvs2 & Hp2 & Hsm2 & Hso & Hf2).
  { intros n id Hf. split; [by apply (Hfree n id)|]. destruct (Hnm n id Hf) as ((m & Hm & Hn & _) & _). by exists m. }
  destruct (commit_all_spec v changes s2 Hsc) as (o & cvs & E3 & Hl & Hlo & H1 & H2).
  { intros n id c Hf. destruct (Hch n id c Hf) as (Ho & (rb & cs & -> & Hw) & _). destruct (obj_ok_same s s2 _ _ _ Hso Ho) as (m & Hm & Ht).
    destruct (commit_table _ v n m rb cs Ht Hv Hw) as ((cv & Ec) & _). exists m, cv. split_and!; [done | apply Ht | done]. }
  destruct (post_commit_all_total changes cvs (set_objs o s2)) as [hooks E4].
  { apply Forall_forall. intros [n [id c]] Hin. apply sorted_find in Hin; [|done]. destruct (Hch n id c Hin) as (Ho & (rb & cs & -> & _) & _).
    split; [|by eexists _, _]. destruct (obj_ok_same s s2 _ _ _ Hso Ho) as (m & Hm & _). cbn. apply lookup_lt_is_Some. rewrite Hlo. by eapply lookup_lt_Some. }
  assert (Happ : applied v changes new_maps s s2 o) by (by split_and!).
  exists s2, (set_objs o s2), cvs, hooks. split_and!; [done..| |].
  - intros n. by apply (applied_contents v changes new_maps s s2 o Hok Htx Hv Hfree n).
  - intros vs' H H'. by apply (applied_ok v changes new_maps s s2 o Hok Htx Hv Hfree).
Qed.

(** *** The commit queue *)

Abbreviation QStore := (Store PendingTxInfo T).
Abbreviation mcall := (move_call (T := T)).
Definition entry_of (tx : TxID) (p : PendingTxInfo) (g : bool) : BatchEntry := mkEntry (tx_version tx) (info_data p) g (info_hooks p).

Lemma batch_loop_spec fuel : forall offset batch (q : QStore) start, start = last_replicated (vers q) + offset ->
  (base.size (pending_txs q) < fuel)%nat -> 0 <= start -> start + Z.of_nat fuel <= M64 ->
  exists q' new k, batch_loop mcall fuel offset batch q = Some (Ok (q', batch ++ new)) /\ vers q' = vers q /\ 0 <= k /\
    be_version <$> new = seqZ start k /\ Z.of_nat (base.size (pending_txs q')) + k = Z.of_nat (base.size (pending_txs q)) /\
    (forall v, pending_txs q' !! v = if decide (start <= v < start + k) then None else pending_txs q !! v) /\
    (forall v, start <= v < start + k -> is_Some (pending_txs q !! v)) /\ pending_txs q !! (start + k) = None /\
    Forall (fun e => exists p g, pending_txs q !! be_version e = Some (p, g) /\ e = mkEntry (be_version e) (info_data p) g (info_hooks p)) new.
Proof.
  induction fuel as [|fuel IH]; intros offset batch q start Hstart Hsize H0 HM; [lia|]. cbn [batch_loop].
  rewrite <- Hstart, wrap64_small by (split; lia). destruct (pending_txs q !! start) as [[p g]|] eqn:E.
  - pose proof (map_size_ne_0_lookup_2 (pending_txs q) start ltac:(by rewrite E)). cbn [move_call]. set (q1 := set_pending (delete start (pending_txs q)) q). set (e := mkEntry start _ _ _).
    destruct (IH (offset + 1) (batch ++ [e]) q1 (start + 1)) as (q' & new & k & Eq & Hv & Hk & Hver & Hsz & Hp & Hin & Hlast & Hall).
    + cbn. lia.
    + cbn. rewrite map_size_delete_Some by done. lia.
    + lia.
    + lia.
    + exists q', (e :: new), (k + 1). rewrite Eq, <- app_assoc. cbn in Hp, Hlast, Hall, Hin, Hsz.
      split_and!; [done | done | lia | | | | | |].
      * rewrite fmap_cons, Hver. rewrite (seqZ_cons start (k + 1)) by lia. f_equal. f_equal; lia.
      * rewrite map_size_delete_Some in Hsz by done. lia.
      * intros v. rewrite Hp. destruct (decide (v = start)) as [->|Hne].
        -- rewrite decide_False by lia. rewrite lookup_delete_eq, decide_True by lia. done.
        -- rewrite lookup_delete_ne by done. destruct (decide (start + 1 <= v < start + 1 + k)), (decide (start <= v < start + (k + 1))); done || lia.
      * intros v Hr. destruct (decide (v = start)) as [->|Hne]; [by rewrite E|]. destruct (Hin v) as [x Hx]; [lia|].
        rewrite lookup_delete_ne in Hx by done. by rewrite Hx.
      * rewrite lookup_delete_ne in Hlast by lia. by replace (start + (k + 1)) with (start + 1 + k) by lia.
      * constructor; [by exists p, g|]. eapply Forall_impl; [exact Hall|]. intros x (p' & g' & Hx & Hx').
        exists p', g'. split; [|done]. destruct (decide (be_version x = start)) as [Es|Hne]; [by rewrite Es, lookup_delete_eq in Hx|].
        by rewrite lookup_delete_ne in Hx.
  - exists q, [], 0. rewrite app_nil_r, !Z.add_0_r. split_and!; [done | done | done | done | lia | | | done | constructor].
    + intros v. by rewrite decide_False by lia.
    + intros v Hr. lia.
Qed.

(** A transaction handed to [commit]. *)
Abbreviation Submission := (TxID * (PendingTxInfo * bool))%type.
Definition sub_version (x : Submission) : Z := tx_version x.1.

(** Transactions committed one after the other, each with the consensus as it
    answers then, and all that was replicated: a batch counts when [commit]
    succeeds. *)
Abbreviation Step := (Consensus * Submission)%type.
Definition replicated_by (r : CommitResult) (batch : list BatchEntry) : list BatchEntry :=
  match r with SUCCESS => batch | _ => [] end.
Fixpoint submit_all (l : list Step) (q : QStore) : option (result (QStore * list BatchEntry)) :=
  match l with
  | [] => Some (Ok (q, []))
  | (c, (tx, (p, g))) :: l =>
      match commit mcall (Some c) tx p g q with
      | Some (Ok (q, r, batch)) =>
          match submit_all l q with
          | Some (Ok (q, log)) => Some (Ok (q, replicated_by r batch ++ log))
          | r => r
          end
      | Some (Throw e) => Some (Throw e)
      | Some Undef => Some Undef
      | None => None
      end
  end.

(** The queue after the submissions [l]: the versions after [lr] have been
    replicated up to the first that is missing, the others wait. *)
Definition queue_ok (lr n : Z) (l : list Submission) (q : QStore) : Prop :=
  0 <= n /\ last_replicated (vers q) = lr + n /\ Z.of_nat (base.size (pending_txs q)) + n = zlen l /\
  (forall v p g, pending_txs q !! v = Some (p, g) <-> lr + n < v /\ exists tx, (tx, (p, g)) ∈ l /\ tx_version tx = v) /\
  pending_txs q !! (lr + n + 1) = None /\ (forall v, lr < v <= lr + n -> v ∈ sub_version <$> l).
Definition from_sub (l : list Submission) (e : BatchEntry) : Prop := exists tx p g, (tx, (p, g)) ∈ l /\ e = entry_of tx p g.

Lemma from_sub_mono l l' log : l ⊆ l' -> Forall (from_sub l) log -> Forall (from_sub l') log.
Proof. intros Hl Hf. eapply Forall_impl; [exact Hf|]. intros e (tx & p & g & Hin & ->). exists tx, p, g. split; [by apply Hl | done]. Qed.

(** One more submission, then [k] versions leave the queue. *)
Lemma queue_step lr n k l tx p g (pend pend' : gmap Z (PendingTxInfo * bool)) q :
  let q1 := <[tx_version tx := (p, g)]> pend in
  queue_ok lr n l q -> pend = pending_txs q -> lr < tx_version tx -> tx_version tx ∉ sub_version <$> l -> 0 <= k ->
  Z.of_nat (base.size pend') + k = Z.of_nat (base.size pend) + 1 ->
  (forall v, pend' !! v = if decide (lr + n + 1 <= v < lr + n + 1 + k) then None else q1 !! v) ->
  (forall v, lr + n + 1 <= v < lr + n + 1 + k -> is_Some (q1 !! v)) -> q1 !! (lr + n + 1 + k) = None ->
  forall q3, pending_txs q3 = pend' -> last_replicated (vers q3) = lr + (n + k) -> queue_ok lr (n + k) (l ++ [(tx, (p, g))]) q3.
Proof.
  intros q1 (Hn & Hlr & Hsz & Hp & Hnext & Hin) -> Hv Hfresh Hk Hsz2 Hp2 Hin2 Hlast q3 Hp3 Hlr3. subst q1.
  split_and!; [lia | done | rewrite Hp3, length_app; cbn [length]; lia | | |].
  - intros v p' g'. rewrite Hp3, Hp2. case_decide as Hr.
    + split; [done|]. intros (? & _). lia.
    + destruct (decide (v = tx_version tx)) as [->|Hne].
      * rewrite lookup_insert_eq. split.
        -- intros [= <- <-]. split; [|exists tx; split; [apply elem_of_app; right; by left | done]].
           assert (~ (tx_version tx <= lr + n)) by (intros Hle; apply Hfresh, Hin; lia). lia.
        -- intros (_ & tx' & Hx & Ex). apply elem_of_app in Hx as [Hx|Hx].
           ++ destruct Hfresh. apply list_elem_of_fmap. exists (tx', (p', g')). by split.
           ++ apply list_elem_of_singleton in Hx. by injection Hx as -> -> ->.
      * rewrite lookup_insert_ne, Hp by done. split.
        -- intros (Hlt & tx' & Hx & Ex). split; [lia|]. exists tx'. split; [apply elem_of_app; by left | done].
        -- intros (Hlt & tx' & Hx & Ex). split; [lia|]. exists tx'. split; [|done]. apply elem_of_app in Hx as [Hx|Hx]; [done|].
           apply list_elem_of_singleton in Hx. injection Hx as -> -> ->. congruence.
  - rewrite Hp3, Hp2, decide_False by lia. by replace (lr + (n + k) + 1) with (lr + n + 1 + k) by lia.
  - intros v Hr. rewrite fmap_app. apply elem_of_app. destruct (decide (v <= lr + n)); [left; apply Hin; lia|].
    destruct (Hin2 v) as [[p' g'] Hx]; [lia|]. destruct (decide (v = tx_version tx)) as [->|Hne]; [right; by left|].
    left. rewrite lookup_insert_ne in Hx by done. apply Hp in Hx as (_ & tx' & Hx & Ex). apply list_elem_of_fmap. exists (tx', (p', g')). by split.
Qed.

Lemma commit_queue c tx p g l lr n q : queue_ok lr n l q -> 0 <= lr -> lr + zlen l + 3 <= M64 ->
  bft_backup c = false -> (forall b v, replicate c b v = true) -> term tx = term_of_next_version (vers q) ->
  lr < tx_version tx -> tx_version tx ∉ sub_version <$> l ->
  exists q' batch k, commit mcall (Some c) tx p g q = Some (Ok (q', SUCCESS, batch)) /\ 0 <= k /\
    be_version <$> batch = seqZ (lr + n + 1) k /\ queue_ok lr (n + k) (l ++ [(tx, (p, g))]) q' /\
    term_of_next_version (vers q') = term_of_next_version (vers q) /\ Forall (from_sub (l ++ [(tx, (p, g))])) batch.
Proof.
  intros Hq H0 HM Hbft Hrep Hterm Hv Hfresh. pose proof Hq as (Hn & Hlr & Hsz & Hp & Hnext & Hin). unfold commit, commit_start.
  rewrite Hterm, Z.eqb_refl, Hbft. cbn [negb andb]. set (q0 := if g && _ then _ else q).
  assert (Hq0 : pending_txs q0 = pending_txs q /\ last_replicated (vers q0) = lr + n /\ term_of_next_version (vers q0) = term_of_next_version (vers q))
    by (unfold q0; destruct (g && _); by rewrite <- ?Hlr). destruct Hq0 as (Hq1 & Hq2 & Hq3).
  assert (Hnone : pending_txs q !! tx_version tx = None).
  { destruct (pending_txs q !! tx_version tx) as [[p' g']|] eqn:E; [|done]. apply Hp in E as (_ & tx' & Hx & Ex). destruct Hfresh.
    apply list_elem_of_fmap. exists (tx', (p', g')). by split. }
  rewrite Hq1, Hnone. set (q1 := set_pending (<[tx_version tx := (p, g)]> (pending_txs q)) q0).
  assert (Hsz1 : base.size (pending_txs q1) = S (base.size (pending_txs q))) by (cbn; by rewrite map_size_insert_None).
  destruct (batch_loop_spec (S (base.size (pending_txs q1))) 1 [] q1 (lr + n + 1)) as (q2 & batch & k & Eq & Hvers & Hk & Hver & Hsz2 & Hp2 & Hin2 & Hlast & Hall);
    [cbn; lia | lia | lia | lia|]. rewrite Eq. cbn [mbind option_bind result_bind app].
  pose proof (queue_step lr n k l tx p g (pending_txs q) (pending_txs q2) q Hq eq_refl Hv Hfresh Hk ltac:(lia) Hp2 Hin2 Hlast) as Hqok.
  assert (Hfrom : Forall (from_sub (l ++ [(tx, (p, g))])) batch).
  { eapply Forall_impl; [exact Hall|]. intros e (p' & g' & He & ->). cbn in He |- *. destruct (decide (be_version e = tx_version tx)) as [Ev|Hne].
    - rewrite Ev, lookup_insert_eq in He. injection He as <- <-. exists tx, p, g. split; [apply elem_of_app; right; by left|]. unfold entry_of. by rewrite Ev.
    - rewrite lookup_insert_ne in He by done. apply Hp in He as (_ & tx' & Hx & Ex). exists tx', p', g'. split; [apply elem_of_app; by left|].
      unfold entry_of. by rewrite Ex. }
  assert (Hlen : zlen batch = k) by (rewrite <- (length_fmap be_version batch), Hver, length_seqZ; lia).
  assert (Hv2 : last_replicated (vers q2) = lr + n /\ term_of_next_version (vers q2) = term_of_next_version (vers q)) by (rewrite Hvers; by split).
  destruct Hv2 as [Hv2 Hv3]. destruct batch as [|e batch].
  - exists q2, [], 0. cbn in Hlen. subst k. split_and!; [done | lia | done | apply Hqok; [done | lia] | done | done].
  - unfold commit_end. cbn [mbind result_bind rep_batch rep_view]. rewrite Hrep. cbn [previous_last_replicated previous_rollback_count].
    rewrite !Z.eqb_refl. cbn [andb negb next_last_replicated]. eexists _, (e :: batch), k. split; [done|].
    split_and!; [lia | done | | done | done]. apply Hqok; [done|]. cbn [vers set_last_replicated set_vers last_replicated].
    rewrite Hlen, Hv2, wrap64_small by (split; lia). lia.
Qed.

(** Whatever the consensus answers: a batch that counts continues the log, any
    other leaves the log where it was. *)
Definition pending_from (l : list Submission) (q : QStore) : Prop :=
  forall v p g, pending_txs q !! v = Some (p, g) -> exists tx, (tx, (p, g)) ∈ l /\ tx_version tx = v.

Lemma commit_any c tx p g l q : let lr := last_replicated (vers q) in
  pending_from l q -> 0 <= lr -> lr + Z.of_nat (base.size (pending_txs q)) + 3 <= M64 -> bft_backup c = false ->
  exists q' r batch k, commit mcall (Some c) tx p g q = Some (Ok (q', r, batch)) /\ 0 <= k /\
    be_version <$> replicated_by r batch = seqZ (lr + 1) k /\ last_replicated (vers q') = lr + k /\
    Z.of_nat (base.size (pending_txs q')) + k <= Z.of_nat (base.size (pending_txs q)) + 1 /\
    pending_from (l ++ [(tx, (p, g))]) q' /\ Forall (from_sub (l ++ [(tx, (p, g))])) (replicated_by r batch) /\
    (forall v, is_Some (pending_txs q' !! v) -> v = tx_version tx \/ is_Some (pending_txs q !! v)) /\
    (pending_txs q !! (lr + 1) = None -> tx_version tx <> lr + 1 -> batch = [] /\ k = 0) /\
    (r <> SUCCESS -> k = 0 /\ (batch <> [] -> pending_txs q' !! (lr + 1) = None /\
       (tx_version tx = lr + 1 \/ is_Some (pending_txs q !! (lr + 1))))).
Proof.
  intros lr Hp H0 HM Hbft. unfold commit, commit_start. rewrite Hbft. destruct (negb _ && _).
  { exists q, FAIL_NO_REPLICATE, [], 0. cbn. rewrite Z.add_0_r. split_and!; try done; [lia | |by right].
    intros v p' g' Hx. destruct (Hp _ _ _ Hx) as (tx' & Hin & Ev). exists tx'. split; [apply elem_of_app; by left | done]. }
  set (q0 := if g && _ then _ else q).
  assert (Hq0 : pending_txs q0 = pending_txs q /\ last_replicated (vers q0) = lr) by (unfold q0; by destruct (g && _)).
  destruct Hq0 as [Hq1 Hq2]. rewrite Hq1.
  set (q1 := match pending_txs q !! tx_version tx with Some _ => q0 | None => _ end).
  assert (Hlr1 : last_replicated (vers q1) = lr) by (unfold q1; by destruct (pending_txs q !! tx_version tx)).
  assert (Hsz : Z.of_nat (base.size (pending_txs q1)) <= Z.of_nat (base.size (pending_txs q)) + 1).
  { unfold q1. destruct (pending_txs q !! tx_version tx) eqn:E; [rewrite Hq1; lia|]. cbn. rewrite map_size_insert_None by done. lia. }
  assert (Hq1p : pending_from (l ++ [(tx, (p, g))]) q1).
  { intros v p' g'. unfold q1. destruct (pending_txs q !! tx_version tx) eqn:E; [rewrite Hq1|cbn; destruct (decide (v = tx_version tx)) as [->|Hne];
      [rewrite lookup_insert_eq; intros [= <- <-]; exists tx; split; [apply elem_of_app; right; by left | done] | rewrite lookup_insert_ne by done]];
    intros Hx; destruct (Hp _ _ _ Hx) as (tx' & Hin & Ev); exists tx'; (split; [apply elem_of_app; by left | done]). }
  assert (Hmono : forall v, is_Some (pending_txs q1 !! v) -> v = tx_version tx \/ is_Some (pending_txs q !! v)).
  { intros v. unfold q1. destruct (pending_txs q !! tx_version tx) eqn:E; [rewrite Hq1; by right|]. cbn.
    destruct (decide (v = tx_version tx)) as [->|Hne]; [by left|]. rewrite lookup_insert_ne by done. by right. }
  clearbody q1. clear q0 Hq1 Hq2.
  destruct (batch_loop_spec (S (base.size (pending_txs q1))) 1 [] q1 (lr + 1)) as (q2 & batch & k & Eq & Hvers & Hk & Hver & Hsz2 & Hp2 & Hin2 & Hlast & Hall);
    [lia..|]. rewrite Eq. cbn [mbind option_bind result_bind app].
  assert (Hlen : zlen batch = k) by (rewrite <- (length_fmap be_version batch), Hver, length_seqZ; lia).
  assert (Hsub : forall v x, pending_txs q2 !! v = Some x -> pending_txs q1 !! v = Some x) by (intros v x; rewrite Hp2; by case_decide).
  assert (Hp2' : pending_from (l ++ [(tx, (p, g))]) q2) by (intros v p' g' Hx; by apply Hq1p, Hsub).
  assert (Hm2 : forall v, is_Some (pending_txs q2 !! v) -> v = tx_version tx \/ is_Some (pending_txs q !! v)) by (intros v [x Hx]; apply Hmono; exists x; by apply Hsub).
  assert (Hfrom : Forall (from_sub (l ++ [(tx, (p, g))])) batch).
  { eapply Forall_impl; [exact Hall|]. intros e (p' & g' & He & ->). destruct (Hq1p _ _ _ He) as (tx' & Hin & Ev).
    exists tx', p', g'. split; [done|]. unfold entry_of. cbn. by rewrite Ev. }
  assert (Hnone : pending_txs q !! (lr + 1) = None -> tx_version tx <> lr + 1 -> batch = [] /\ k = 0).
  { intros Hn Hne. destruct (decide (k = 0)) as [->|Hk0]; [by destruct batch; [split | cbn in Hlen; lia]|].
    destruct (Hmono (lr + 1)) as [?|[x Hx]]; [apply Hin2; lia | done | congruence]. }
  assert (Hblock : k <> 0 -> pending_txs q2 !! (lr + 1) = None /\ (tx_version tx = lr + 1 \/ is_Some (pending_txs q !! (lr + 1)))).
  { intros Hk0. split; [by rewrite Hp2, decide_True by lia|]. destruct (Hmono (lr + 1)) as [?|?]; [apply Hin2; lia | by left | by right]. }
  assert (Hlr2 : last_replicated (vers q2) = lr) by (by rewrite Hvers).
  destruct batch as [|e batch].
  { cbn in Hlen. subst k. exists q2, SUCCESS, [], 0. split_and!; try done; lia. }
  unfold commit_end. cbn [mbind result_bind rep_batch rep_view previous_last_replicated previous_rollback_count next_last_replicated].
  destruct (replicate c _ _).
  - rewrite !Z.eqb_refl. cbn [andb negb]. eexists _, SUCCESS, (e :: batch), k. split; [done|]. cbn [vers set_last_replicated set_vers last_replicated pending_txs replicated_by].
    rewrite Hlen, Hlr2, wrap64_small by (split; lia). split_and!; try done; lia.
  - exists q2, FAIL_NO_REPLICATE, (e :: batch), 0. cbn [replicated_by fmap list_fmap]. split_and!; try done; try lia.
    + intros Hn Hne. by destruct (Hnone Hn Hne).
    + intros _. split; [done|]. intros _. apply Hblock. cbn [length] in Hlen. lia.
Qed.

(** The log of any submissions. *)
Lemma submit_all_any l : forall l0 q, let lr := last_replicated (vers q) in
  pending_from l0 q -> 0 <= lr -> lr + Z.of_nat (base.size (pending_txs q)) + zlen l + 3 <= M64 -> Forall (fun x => bft_backup x.1 = false) l ->
  exists q' log k, submit_all l q = Some (Ok (q', log)) /\ 0 <= k /\ be_version <$> log = seqZ (lr + 1) k /\
    last_replicated (vers q') = lr + k /\ lr + k + Z.of_nat (base.size (pending_txs q')) <= lr + Z.of_nat (base.size (pending_txs q)) + zlen l /\
    pending_from (l0 ++ l.*2) q' /\ Forall (from_sub (l0 ++ l.*2)) log /\
    (forall v, is_Some (pending_txs q' !! v) -> v ∈ sub_version <$> l.*2 \/ is_Some (pending_txs q !! v)) /\
    (pending_txs q !! (lr + 1) = None -> lr + 1 ∉ sub_version <$> l.*2 -> log = []).
Proof.
  induction l as [|[c [tx [p g]]] l IH]; intros l0 q lr Hp H0 HM Hb.
  { exists q, [], 0. cbn [submit_all fmap list_fmap length] in *. rewrite !app_nil_r, Z.add_0_r. split_and!; try done; [lia | by right]. }
  apply Forall_cons in Hb as [Hbc Hb]. cbn [length] in HM.
  destruct (commit_any c tx p g l0 q Hp H0) as (q1 & r & batch & k & E & Hk & Hver & Hlr & Hsz & Hp1 & Hf1 & Hm1 & Hn1 & _); [lia | done|].
  fold lr in Hver, Hlr, Hn1. destruct (IH (l0 ++ [(tx, (p, g))]) q1 Hp1) as (q2 & log & k2 & E2 & Hk2 & Hver2 & Hlr2 & Hsz2 & Hp2 & Hf2 & Hm2 & Hn2); [lia.. | done|].
  rewrite <- app_assoc in Hp2, Hf2. cbn [submit_all]. rewrite E, E2. exists q2, (replicated_by r batch ++ log), (k + k2).
  split_and!; [done | lia | | lia | cbn [length]; lia | done | | |].
  - rewrite fmap_app, Hver, Hver2, Hlr, seqZ_app by lia. do 2 f_equal. lia.
  - apply Forall_app. split; [|done]. eapply from_sub_mono; [|exact Hf1]. intros x Hx. rewrite fmap_cons, (cons_middle _ l0). rewrite app_assoc. apply elem_of_app. by left.
  - intros v Hv. destruct (Hm2 v Hv) as [Hin|Hs]; [left; by right|]. destruct (Hm1 v Hs) as [->|?]; [left; by left | by right].
  - intros Hn Hni. rewrite !fmap_cons, not_elem_of_cons in Hni. destruct Hni as [Hne Hni]. destruct (Hn1 Hn) as [-> ->]; [intros Hx; by apply Hne|].
    rewrite Z.add_0_r in Hlr. rewrite Hlr in Hn2. rewrite Hn2; [by destruct r | | done].
    destruct (pending_txs q1 !! (lr + 1)) eqn:Ex; [|done]. destruct (Hm1 (lr + 1)) as [?|[x Hx]]; [by rewrite Ex | by destruct Hne | congruence].
Qed.

(** Submissions of which none is refused. *)
Definition taken (q : QStore) (x : Step) : Prop :=
  (forall b v, replicate x.1 b v = true) /\ term x.2.1 = term_of_next_version (vers q).

Lemma submit_all_queue l : forall l0 lr n q, queue_ok lr n l0 q -> 0 <= lr -> lr + zlen (l0 ++ l.*2) + 3 <= M64 ->
  Forall (fun x => bft_backup x.1 = false) l -> Forall (taken q) l -> NoDup (sub_version <$> l0 ++ l.*2) ->
  Forall (fun x => lr < sub_version x.2) l ->
  exists q' log k, submit_all l q = Some (Ok (q', log)) /\ 0 <= k /\ be_version <$> log = seqZ (lr + n + 1) k /\
    queue_ok lr (n + k) (l0 ++ l.*2) q' /\ Forall (from_sub (l0 ++ l.*2)) log.
Proof.
  induction l as [|[c [tx [p g]]] l IH]; intros l0 lr n q Hq H0 HM Hb Hr Hnd Hl.
  { exists q, [], 0. rewrite fmap_nil, app_nil_r, Z.add_0_r. by split_and!. }
  apply Forall_cons in Hl as [Hv Hl]. apply Forall_cons in Hb as [Hbc Hb]. apply Forall_cons in Hr as [[Hrc Ht] Hr].
  rewrite fmap_cons in *. cbn [snd] in *. rewrite length_app in HM. cbn [length] in HM. pose proof Hnd as Hnd'.
  rewrite fmap_app in Hnd. apply NoDup_app in Hnd as (_ & Hdis & _).
  destruct (commit_queue c tx p g l0 lr n q Hq H0 ltac:(lia) Hbc Hrc Ht Hv) as (q1 & batch & k & E & Hk & Hver & Hq1 & Hterm & Hfrom).
  { intros Hin. apply (Hdis _ Hin). by left. }
  replace (l0 ++ (tx, (p, g)) :: _) with ((l0 ++ [(tx, (p, g))]) ++ l.*2) in * by (by rewrite <- app_assoc).
  destruct (IH (l0 ++ [(tx, (p, g))]) lr (n + k) q1 Hq1 H0) as (q2 & log & k2 & E2 & Hk2 & Hver2 & Hq2 & Hfrom2);
    [rewrite !length_app; cbn [length]; lia | done | unfold taken in *; by rewrite Hterm | done | done |].
  cbn [submit_all]. rewrite E, E2. exists q2, (batch ++ log), (k + k2). split_and!; [done | lia | | |].
  - rewrite fmap_app, Hver, Hver2. rewrite seqZ_app by lia. f_equal. f_equal. lia.
  - by rewrite Z.add_assoc.
  - apply Forall_app. split; [|done]. eapply from_sub_mono; [|exact Hfrom]. intros x Hx. apply elem_of_app. by left.
Qed.

(** A refused batch is gone: nothing after it is replicated. *)
Lemma submit_all_app l l' q q1 log1 q2 log2 : submit_all l q = Some (Ok (q1, log1)) -> submit_all l' q1 = Some (Ok (q2, log2)) ->
  submit_all (l ++ l') q = Some (Ok (q2, log1 ++ log2)).
Proof.
  revert q log1. induction l as [|[c [tx [p g]]] l IH]; intros q log1; cbn [submit_all app]; [by intros [= -> <-]|].
  destruct (commit mcall (Some c) tx p g q) as [[[[q' r] batch]| |]|]; try done.
  destruct (submit_all l q') as [[[q'' log]| |]|] eqn:E; try done. intros [= -> <-] E2. rewrite (IH _ _ E E2). by rewrite app_assoc.
Qed.

(** *** Steps of a store *)

(** What happens to a store between snapshots.  Transactions and entries come with
    change sets that are well formed; versions stay below the largest that can be
    deleted.  The installation of a snapshot (Snapshot.v) and
    [swap_private_maps] are not steps: they leave tables that start above the
    last compaction, to which [rollback] must not be asked to go. *)
Inductive sstep : Store P T -> Store P T -> Prop :=
  | sstep_create n s : sstep s (fst (create_map n s))
  | sstep_tx changes new_maps s s' r hooks : tx_ok s changes new_maps -> version (vers s) < max_deletable ->
      apply_changes changes next_version new_maps None false s = Ok (s', r, hooks) -> sstep s s'
  | sstep_entry changes v t new_maps s s' r hooks : tx_ok s changes new_maps -> version (vers s) < v <= max_deletable ->
      commit_deserialised changes v t new_maps s = Ok (s', r, hooks) -> sstep s s'
  | sstep_compact v s s' calls : compacted (vers s) <= v -> compact v s = Ok (s', calls) -> sstep s s'
  | sstep_rollback tx t s s' : rollback tx t s = Ok s' -> sstep s s'
  | sstep_next s : version (vers s) < max_deletable -> sstep s (set_vers (fst (next_txid (vers s))) s)
  | sstep_term t s s' : initialise_term t s = Ok s' -> sstep s s'
  | sstep_replicated n s : sstep s (set_last_replicated n s)
  | sstep_clear s : sstep s (clear s).
Inductive reachable : Store P T -> Prop :=
  | reachable_new strict repl tables : reachable (new_store strict repl tables)
  | reachable_step s s' : reachable s -> sstep s s' -> reachable s'.

Lemma next_version_spec b vs : 0 <= version vs < max_deletable ->
  let '(vs', (v, _)) := next_version b vs in
  v = version vs + 1 /\ version vs' = v /\ compacted vs' = compacted vs.
Proof.
  intros Hv. unfold next_version, next_version_unsafe. unfold max_deletable in *. cbn [version].
  rewrite wrap64_small by (split; unfold M64; lia). destruct (Z.ltb_spec (2 ^ 63 - 1) (version vs + 1)); [lia|]. by destruct b.
Qed.

(** Every outcome of [apply_changes], whatever chooses the version. *)
Lemma apply_changes_spec resolver changes new_maps s vs v x : store_ok s -> tx_ok s changes new_maps ->
  resolver (match new_maps with [] => false | _ :: _ => true end) (vers s) = (vs, (v, x)) -> version (vers s) < v < 2 ^ 63 ->
  exists s' r hooks, apply_changes changes resolver new_maps None false s = Ok (s', r, hooks) /\
    match r with
    | None => s' = s /\ hooks = []
    | Some r =>
        if changes_have_writes changes then
          r = v /\ vers s' = vs /\ pending_txs s' = pending_txs s /\
          (forall n, contents n s' = if UntypedMap.nonempty (writes_of n changes)
             then Some (foldl (UntypedMap.write1 v) (default ∅ (contents n s)) (writes_of n changes)) else contents n s) /\
          (forall vs', version vs' = v -> compacted vs' = compacted (vers s) -> store_ok (set_vers vs' s'))
        else r = NoVersion /\ s' = s /\ hooks = []
    end.
Proof.
  intros Hok Htx Hres Hv. pose proof Htx as (Hsc & Hsn & Hch & _). unfold apply_changes.
  destruct (prepare_all_total changes s Hsc) as [b ->].
  { intros n id c Hf. destruct (Hch n id c Hf) as (Ho & (rb & cs & -> & _) & _). split; [by eexists | by eexists _, _]. }
  cbn [mbind result_bind]. destruct (b && new_maps_free None new_maps s) eqn:Eok; cbn [andb].
  2:{ eexists _, _, _. by split. }
  destruct (changes_have_writes changes); cbn [andb].
  2:{ eexists _, _, _. by split. }
  rewrite Hres. apply andb_true_iff in Eok as [-> Hfree]. cbn [negb].
  destruct (apply_phase v changes new_maps s Hok Htx Hv) with (vs := vs) as (s2 & s3 & cvs & hooks & E2 & E3 & E4 & H);
    [by apply (new_maps_free_find s None)|].
  rewrite E2. cbn [mbind result_bind]. rewrite E3. cbn [mbind result_bind]. rewrite E4. cbn [mbind result_bind].
  eexists _, _, _. split; [done|]. destruct H as (H1 & H2 & H3 & H4). by split_and!.
Qed.

Lemma set_vers_self s : set_vers (vers s) s = s. Proof. by destruct s. Qed.

Lemma store_ok_vers vs s : store_ok s -> version vs = version (vers s) -> compacted vs = compacted (vers s) -> store_ok (set_vers vs s).
Proof.
  intros (H1 & (? & ? & ?) & H3) Hv Hc. split_and!; [done | unfold versions_ok; cbn; lia |]. intros n cv id Hf. unfold entry_ok in *.
  cbn [vers set_vers]. rewrite Hv, Hc. by apply H3.
Qed.

Lemma store_ok_next vs s : store_ok s -> version (vers s) <= version vs < 2 ^ 63 -> compacted vs = compacted (vers s) -> store_ok (set_vers vs s).
Proof.
  intros (H1 & (? & ? & ?) & H3) Hv Hc. split_and!; [done | unfold versions_ok; cbn; lia |]. intros n cv id Hf.
  destruct (H3 n cv id Hf) as ((m & Hm & ? & ? & ?) & ? & Hh). split_and!; cbn; [|lia|lia|by rewrite Hc].
  exists m. split; [done|]. split_and!; [done | done | lia].
Qed.

Lemma sstep_ok s s' : store_ok s -> sstep s s' -> store_ok s'.
Proof.
  intros Hok Hs. pose proof Hok as (Hsort & (? & ? & ?) & Hent).
  destruct Hs as [n s|changes new_maps s s' r hooks Htx Hv E|changes v t new_maps s s' r hooks Htx Hv E|v s s' calls Hv E|tx t s s' E|s Hv|t s s' E|n s|s].
  - split_and!; [done | done |]. intros n' cv id Hf. destruct (Hent n' cv id Hf) as ((m & Hm & Ht) & Hc & Hh).
    assert (Hm' : objs (fst (create_map n s)) !! id = Some m) by (cbn; by apply lookup_app_l_Some).
    split_and!; [by exists m | apply Hc | apply Hc |]. intros m' Hx. rewrite Hm' in Hx. injection Hx as <-. by apply Hh.
  - pose proof (next_version_spec (match new_maps with [] => false | _ :: _ => true end) (vers s)) as Hnv.
    destruct (next_version _ (vers s)) as [vs [v x]] eqn:Er. destruct Hnv as (-> & Hv1 & Hv2); [lia|]. unfold max_deletable in Hv.
    destruct (apply_changes_spec next_version changes new_maps s vs _ x Hok Htx Er) as (s1 & r1 & h1 & E1 & Hr); [lia|].
    rewrite E1 in E. injection E as <- <- <-. destruct r1 as [r1|]; [|destruct Hr as [-> _]; done].
    destruct (changes_have_writes changes); [|by destruct Hr as (_ & -> & _)]. destruct Hr as (_ & Hvs & _ & _ & Hst).
    rewrite <- (set_vers_self s1), Hvs. by apply Hst.
  - unfold commit_deserialised in E. unfold max_deletable in Hv. destruct (apply_changes_spec (fun _ vs => (vs, (v, wrap64 (v - 1)))) changes new_maps s
      (vers s) v (wrap64 (v - 1)) Hok Htx eq_refl) as (s1 & r1 & h1 & E1 & Hr); [lia|].
    rewrite E1 in E. cbn [mbind result_bind] in E. destruct r1 as [r1|]; injection E as <- _ _; [|destruct Hr as [-> _]; done].
    destruct (changes_have_writes changes).
    + destruct Hr as (_ & Hvs & _ & _ & Hst). apply Hst; cbn; [done | by rewrite Hvs].
    + destruct Hr as (_ & -> & _). apply store_ok_next; [done | cbn; lia | done].
  - destruct (Z.ltb_spec (version (vers s)) v) as [Hlt|Hle].
    + unfold compact in E. destruct (Z.ltb_spec (version (vers s)) v); [by injection E as <- _ | lia].
    + destruct (store_compact_spec v s Hok) as (s1 & c1 & E1 & Hs1 & _); [lia|]. rewrite E1 in E. by injection E as <- _.
  - destruct (Z.ltb_spec (tx_version tx) (compacted (vers s))) as [Hlt|Hle].
    + unfold rollback in E. destruct (Z.ltb_spec (tx_version tx) (compacted (vers s))); [done | lia].
    + destruct (store_rollback_spec tx t s Hok Hle) as (s1 & E1 & Hs1 & _). rewrite E1 in E. by injection E as <-.
  - pose proof (next_version_spec false (vers s) ltac:(lia)) as Hn. cbn [next_version] in Hn. destruct Hn as (_ & Hv1 & Hv2).
    apply store_ok_next; [done | | done]. unfold max_deletable in Hv. cbn [next_txid fst].
    pose proof (next_version_spec false (vers s) ltac:(unfold max_deletable; lia)) as Hn. cbn [next_version] in Hn. lia.
  - unfold initialise_term in E. destruct (negb _); [done|]. injection E as <-. by apply store_ok_vers.
  - by apply store_ok_vers.
  - split_and!; [constructor | by split_and!; cbn |]. intros n cv id. done.
Qed.

(** *** Theorems *)

(** C9. [apply_changes] is atomic.  On a well-formed store and transaction it
    never fails with an exception.  A conflict leaves the store as it was and
    calls no hook; a transaction without writes gets [NoVersion] and changes
    nothing; otherwise all the writes are applied at the next version, to every
    table that the transaction wrote and to no other, tables that it created
    appear, and the store stays well formed. *)
Theorem apply_changes_atomic changes new_maps s :
  store_ok s -> tx_ok s changes new_maps -> version (vers s) < max_deletable ->
  exists s' r hooks, apply_changes changes next_version new_maps None false s = Ok (s', r, hooks) /\
    match r with
    | None => s' = s /\ hooks = []
    | Some v =>
        if changes_have_writes changes then
          v = version (vers s) + 1 /\ version (vers s') = v /\ pending_txs s' = pending_txs s /\ store_ok s' /\
          (forall n, contents n s' = if UntypedMap.nonempty (writes_of n changes)
             then Some (foldl (UntypedMap.write1 v) (default ∅ (contents n s)) (writes_of n changes)) else contents n s)
        else v = NoVersion /\ s' = s /\ hooks = []
    end.
Proof.
  intros Hok Htx Hv. pose proof Hok as (_ & (? & ? & ?) & _).
  pose proof (next_version_spec (match new_maps with [] => false | _ :: _ => true end) (vers s)) as Hnv.
  destruct (next_version _ (vers s)) as [vs [v x]] eqn:Er. destruct Hnv as (-> & Hv1 & Hv2); [lia|]. unfold max_deletable in Hv.
  destruct (apply_changes_spec next_version changes new_maps s vs _ x Hok Htx Er) as (s' & r & hooks & E & Hr); [lia|].
  exists s', r, hooks. split; [done|]. destruct r as [r|]; [|done]. destruct (changes_have_writes changes); [|done].
  destruct Hr as (-> & Hvs & Hp & Hc & Hst). split_and!; [done | by rewrite Hvs | done | | done].
  rewrite <- (set_vers_self s'), Hvs. by apply Hst.
Qed.

(** C10. Every store that a new one becomes by creating tables, transactions,
    applying entries of the ledger, reserving versions, compaction, rollback and
    [clear] is well formed: the tables are the objects of their names, no table
    is ahead of the store or created after its version, nothing older than the
    last compaction can be lost, and the versions are in order.  The change sets
    are well formed, versions stay below 2^63 and go up, and compaction does not
    go back.  The installation of a snapshot and the exchange of private maps
    are not among the steps: an installed table starts above the last
    compaction. *)
Theorem store_invariant s : reachable s -> store_ok s.
Proof.
  induction 1 as [strict repl tables|s s' _ IH Hs]; [|by apply (sstep_ok s)].
  split_and!; [constructor | by split_and!; cbn |]. intros n cv id. done.
Qed.

(** C29. A rollback below the last compaction is an error.  One to the version of
    the store or above it sets the two terms and leaves the version, the tables
    and the queue.  One in between
    takes the store to the requested version: tables that are younger disappear,
    the others read at every version up to it as before and end there, and
    nothing waits for replication. *)
Theorem store_rollback_restores tx t s :
  store_ok s ->
  (tx_version tx < compacted (vers s) -> rollback tx t s = Throw LogicError) /\
  (compacted (vers s) <= tx_version tx -> version (vers s) <= tx_version tx ->
   exists s', rollback tx t s = Ok s' /\ store_ok s' /\ version (vers s') = version (vers s) /\
     last_replicated (vers s') = last_replicated (vers s) /\ pending_txs s' = pending_txs s /\
     term_of_next_version (vers s') = t /\ term_of_last_version (vers s') = term tx /\ forall n, table n s' = table n s) /\
  (compacted (vers s) <= tx_version tx < version (vers s) ->
   exists s', rollback tx t s = Ok s' /\ store_ok s' /\ version (vers s') = tx_version tx /\
     last_replicated (vers s') = tx_version tx /\ pending_txs s' = ∅ /\
     forall n cv id m, KvHandle.map_find n (maps s) = Some (cv, id) -> objs s !! id = Some m ->
       if decide (cv <= tx_version tx) then
         exists m', table n s' = Some m' /\ Some (tail_state m') = UntypedMap.state_at (tx_version tx) m /\
           forall v', v' <= tx_version tx -> UntypedMap.state_at v' m' = UntypedMap.state_at v' m
       else table n s' = None).
Proof.
  intros Hok. split_and!.
  { intros Hlt. unfold rollback. destruct (Z.ltb_spec (tx_version tx) (compacted (vers s))); [done | lia]. }
  { intros Hc Hv. destruct (store_rollback_spec tx t s Hok Hc) as (s' & E & Hok' & _). exists s'. revert E. unfold rollback.
    destruct (Z.ltb_spec (tx_version tx) (compacted (vers s))); [lia|]. cbn [version].
    destruct (Z.leb_spec (version (vers s)) (tx_version tx)); [|lia]. intros [= <-]. by split_and!. }
  intros [Hc Hv]. destruct (store_rollback_spec tx t s Hok Hc) as (s' & E & Hok' & Hv' & _ & _ & _ & Hlr & _ & Hmaps).
  destruct (Hlr Hv) as [Hlr' Hp]. destruct (Hmaps Hv) as [Hm Ho]. exists s'. split_and!; [done | done | lia | done | done |].
  intros n cv id m Hf Hmid. destruct Hok as (Hsort & _ & Hent). destruct (Hent _ _ _ Hf) as ((m0 & Hm0 & Ht) & _ & Hh).
  rewrite Hmid in Hm0. injection Hm0 as <-. specialize (Hh m Hmid). unfold table. rewrite Hm. case_decide as Hcv.
  - rewrite (proj2 (keep_maps_find (tx_version tx) (maps s) n cv id Hsort) (conj Hf Hcv)).
    rewrite (Ho n cv id Hf), Hmid. eexists. split; [done|]. destruct Ht as (Hn & Hmok & Htl).
    destruct (UntypedMap.rollback_spec (tx_version tx) m Hmok) as (popped & Ec & _ & Hpop & _ & _ & tl & Elast & Htv).
    assert (Hsame : forall v', v' <= tx_version tx -> UntypedMap.state_at v' (UntypedMap.rollback (tx_version tx) m) = UntypedMap.state_at v' m).
    { intros v' Hle. unfold UntypedMap.state_at. rewrite Ec, reverse_app, UntypedMap.find_at_app, (UntypedMap.find_at_newer v' (reverse popped)); [done|].
      apply Forall_reverse. eapply Forall_impl; [exact Hpop|]. cbn. lia. }
    split; [|done]. rewrite <- Hsame by lia. destruct (rollback_table (tx_version tx) m n (version (vers s)) (conj Hn (conj Hmok Htl)) ltac:(lia)) as [(_ & Hmok' & Htl') _].
    destruct (UntypedMap.map_ok_tail _ Hmok') as (l & t' & El & Et & _). unfold tail_state, tail_version, UntypedMap.state_at in *.
    rewrite Et in *. rewrite El, reverse_snoc. cbn [UntypedMap.find_at]. by destruct (Z.leb_spec (UntypedMap.lc_version t') (tx_version tx)); [|lia].
  - destruct (KvHandle.map_find n (keep_maps (tx_version tx) (maps s))) as [[cv' id']|] eqn:Ek; [|done].
    apply keep_maps_find in Ek as [Ek Hle]; [|done]. rewrite Hf in Ek. injection Ek as -> ->. lia.
Qed.

Lemma taken_all (l : list Step) (q q' : QStore) log n :
  let lr := last_replicated (vers q) in
  let subs := sub_version <$> l.*2 in
  pending_txs q = ∅ -> 0 <= lr -> lr + zlen l + 3 <= M64 -> Forall (fun x => bft_backup x.1 = false) l ->
  NoDup subs -> Forall (fun v => lr < v) subs -> Forall (taken q) l ->
  submit_all l q = Some (Ok (q', log)) -> last_replicated (vers q') = lr + n ->
  (forall v, v ∈ subs <-> lr < v <= lr + n \/ is_Some (pending_txs q' !! v)) /\
  (lr + n + 1 ∉ subs) /\ (subs ≡ₚ seqZ (lr + 1) (zlen l) -> n = zlen l /\ pending_txs q' = ∅).
Proof.
  intros lr subs Hp H0 HM Hb Hnd Hl Ht E0 Hlr0.
  assert (Hq : queue_ok lr 0 [] q).
  { split_and!; [done | lia | rewrite Hp; done | | by rewrite Hp, lookup_empty | intros v Hv; lia].
    intros v p g. rewrite Hp, lookup_empty. split; [done|]. intros (_ & tx & Hx & _). by apply elem_of_nil in Hx. }
  assert (Hl' : Forall (fun x => lr < sub_version x.2) l) by (unfold subs in Hl; by rewrite !Forall_fmap in Hl).
  destruct (submit_all_queue l [] lr 0 q Hq H0) as (q'' & log'' & n' & E & Hn & Hver & Hq' & Hfrom);
    [cbn [app]; rewrite length_fmap; lia | done..|]. rewrite E0 in E. injection E as <- <-.
  rewrite Z.add_0_r, Z.add_0_l in *. cbn [app] in *. destruct Hq' as (_ & Hlr & Hsz & Hpend & Hnext & Hin). assert (n' = n) as -> by lia.
  assert (Hiff : forall v, v ∈ subs <-> lr < v <= lr + n \/ is_Some (pending_txs q' !! v)).
  { intros v. split.
    - intros Hv. rewrite Forall_forall in Hl. pose proof (Hl v Hv). apply list_elem_of_fmap in Hv as ([tx [p g]] & -> & Hx).
      unfold sub_version in *. cbn [fst] in *. destruct (decide (tx_version tx <= lr + n)); [left; lia|]. right. exists (p, g). apply Hpend.
      split; [lia|]. by exists tx.
    - intros [Hv|[[p g] Hx]]; [by apply Hin|]. apply Hpend in Hx as (_ & tx & Hx & Ex). apply list_elem_of_fmap. by exists (tx, (p, g)). }
  assert (Hmiss : lr + n + 1 ∉ subs).
  { rewrite Hiff. intros [?|[x Hx]]; [lia|]. by rewrite Hnext in Hx. }
  rewrite length_fmap in Hsz. split_and!; [done..|]. intros Hperm. assert (n = zlen l) as Hnl.
  { destruct (decide (n = zlen l)) as [|Hne]; [done|]. destruct Hmiss. rewrite Hperm. apply elem_of_seqZ. lia. }
  split; [done|]. apply map_size_empty_inv. lia.
Qed.

Lemma refused_blocks l1 c tx p g l2 (q q1 : QStore) log1 q2 batch q' log :
  pending_txs q = ∅ -> 0 <= last_replicated (vers q) -> last_replicated (vers q) + zlen (l1 ++ (c, (tx, (p, g))) :: l2) + 3 <= M64 ->
  Forall (fun x => bft_backup x.1 = false) (l1 ++ (c, (tx, (p, g))) :: l2) -> NoDup (sub_version <$> (l1 ++ (c, (tx, (p, g))) :: l2).*2) ->
  submit_all l1 q = Some (Ok (q1, log1)) -> commit mcall (Some c) tx p g q1 = Some (Ok (q2, FAIL_NO_REPLICATE, batch)) -> batch <> [] ->
  submit_all (l1 ++ (c, (tx, (p, g))) :: l2) q = Some (Ok (q', log)) -> log = log1.
Proof.
  intros Hp H0 HM Hb Hnd E1 Ec Hne E. rewrite length_app in HM. cbn [length] in HM. apply Forall_app in Hb as [Hb1 [Hbc Hb2]%Forall_cons].
  assert (Hp0 : pending_from [] q) by (intros v p' g'; by rewrite Hp, lookup_empty). assert (Hs0 : base.size (pending_txs q) = 0%nat) by (by rewrite Hp).
  destruct (submit_all_any l1 [] q Hp0 H0) as (q1' & log1' & n & E1' & Hn & _ & Hlr & Hsz & Hp1 & _ & Hm1 & _); [rewrite Hs0; lia | done|].
  rewrite E1 in E1'. injection E1' as <- <-.
  destruct (commit_any c tx p g (l1.*2) q1 Hp1) as (q2' & r & batch' & k & Ec' & _ & _ & Hlr2 & Hsz2 & Hp2 & _ & _ & _ & Hr); [lia.. | done|].
  rewrite Ec in Ec'. injection Ec' as <- <- <-. destruct (Hr ltac:(done)) as [-> Hr2]. destruct (Hr2 Hne) as [Hnone Hsome]. rewrite Z.add_0_r in Hlr2.
  destruct (submit_all_any l2 _ q2 Hp2) as (q3 & log3 & n3 & E3 & _ & _ & _ & _ & _ & _ & _ & Hstop); [lia | lia | done|].
  assert (log3 = []) as ->.
  { apply Hstop; rewrite Hlr2; [done|]. intros Hin. rewrite !fmap_app in Hnd. apply NoDup_app in Hnd as (_ & Hdis & Hnd).
    rewrite !fmap_cons in Hnd, Hdis. apply NoDup_cons in Hnd as [Hnd _]. destruct Hsome as [Hv|Hs].
    - destruct Hnd. unfold sub_version at 1. cbn [fst snd]. by rewrite Hv.
    - destruct (Hm1 _ Hs) as [Hi|[x Hx]]; [|by rewrite Hp, lookup_empty in Hx]. apply (Hdis _ Hi). by right. }
  assert (E2 : submit_all ((c, (tx, (p, g))) :: l2) q1 = Some (Ok (q3, []))) by (cbn [submit_all]; by rewrite Ec, E3).
  rewrite (submit_all_app _ _ _ _ _ _ _ E1 E2) in E. injection E as _ <-. by rewrite app_nil_r.
Qed.

(** C11. Whatever the order in which transactions reach [commit], from an empty
    queue and with no rollback in between, they are replicated in the order of
    their versions, without a gap, with the data that was submitted, also when
    the consensus refuses batches or transactions are of another term.  When
    none is refused, all are of the current term and the versions are distinct
    and not replicated yet, exactly the versions up to
    the first missing one have been replicated, and all when all have been
    submitted.  A refused batch is lost: its versions have left the queue, and
    nothing after it is replicated, whatever is submitted later under other
    versions.  (Under CFT; a
    BFT backup advances before it asks.) *)
Theorem replicated_in_order (l : list Step) (q : QStore) :
  let lr := last_replicated (vers q) in
  let subs := sub_version <$> l.*2 in
  pending_txs q = ∅ -> 0 <= lr -> lr + zlen l + 3 <= M64 -> Forall (fun x => bft_backup x.1 = false) l ->
  exists q' log n, submit_all l q = Some (Ok (q', log)) /\
    be_version <$> log = seqZ (lr + 1) n /\ last_replicated (vers q') = lr + n /\ Forall (from_sub l.*2) log /\
    (NoDup subs -> Forall (fun v => lr < v) subs -> Forall (taken q) l ->
     (forall v, v ∈ subs <-> lr < v <= lr + n \/ is_Some (pending_txs q' !! v)) /\
     (lr + n + 1 ∉ subs) /\
     (subs ≡ₚ seqZ (lr + 1) (zlen l) -> n = zlen l /\ pending_txs q' = ∅)) /\
    (NoDup subs -> forall l1 c tx p g l2 q1 log1 q2 batch, l = l1 ++ (c, (tx, (p, g))) :: l2 ->
     submit_all l1 q = Some (Ok (q1, log1)) -> commit mcall (Some c) tx p g q1 = Some (Ok (q2, FAIL_NO_REPLICATE, batch)) ->
     batch <> [] -> log = log1).
Proof.
  intros lr subs Hp H0 HM Hb. assert (Hp0 : pending_from [] q) by (intros v p g; by rewrite Hp, lookup_empty).
  assert (Hs0 : base.size (pending_txs q) = 0%nat) by (by rewrite Hp).
  destruct (submit_all_any l [] q Hp0 H0) as (q' & log & n & E & Hn & Hver & Hlr & _ & _ & Hfrom & _); [rewrite Hs0; lia | done|].
  exists q', log, n. split_and!; [done | done | done | done | |].
  - intros Hnd Hv Ht. by apply (taken_all l q q' log n).
  - intros Hnd l1 c tx p g l2 q1 log1 q2 batch -> E1 Ec Hne. by apply (refused_blocks l1 c tx p g l2 q q1 log1 q2 batch q' log).
Qed.

End lemmas.

(** ** Examples *)

Abbreviation RB := (RbMap.Map VersionV).
Abbreviation EStore := (Store PendingTxInfo RB).
(** A transaction that creates the table "a" and writes to it. *)
Definition ex_name : K := [97].
Definition ex_s0 : EStore := new_store true ALL [].
Definition ex_s1 : EStore := fst (create_map ex_name ex_s0).
Definition ex_changes : Changes (T := RB) := [(ex_name, (0%nat, UntypedMap.Changes 0 (UntypedMap.ex_writes [([1], Some [10])])))].
Definition ex_new_maps : list (K * nat) := [(ex_name, 0%nat)].
Definition ex_s2 : EStore :=
  match apply_changes ex_changes next_version ex_new_maps None false ex_s1 with Ok (s, _, _) => s | _ => ex_s1 end.

Lemma ex_reachable1 : reachable ex_s1.
Proof. apply (reachable_step ex_s0); [constructor | apply sstep_create]. Qed.
Lemma ex_tx_ok : tx_ok ex_s1 ex_changes ex_new_maps.
Proof.
  assert (Ho : obj_ok 0 ex_name 0 ex_s1).
  { eexists. split; [reflexivity|]. split_and!; [reflexivity | apply UntypedMap.new_map_ok | vm_compute; congruence]. }
  split_and!; [repeat constructor | repeat constructor | |].
  - intros n id c. cbn. case_bool_decide; [|done]. intros [= <- <-]. subst n. split_and!; [exact Ho | | by right].
    eexists _, _. split; [done|]. split; repeat constructor; vm_compute; congruence.
  - intros n id. cbn. case_bool_decide; [|done]. intros [= <-]. subst n. split; [exact Ho|]. intros m [= <-]. split; [vm_compute; congruence | done].
Qed.
Lemma ex_step2 : sstep ex_s1 ex_s2.
Proof.
  apply (sstep_tx ex_changes ex_new_maps _ _ (Some 1) []); [apply ex_tx_ok | vm_compute; congruence | vm_compute; reflexivity].
Qed.

Lemma apply_changes_atomic_witness :
  exists s' r hooks, apply_changes ex_changes next_version ex_new_maps None false ex_s1 = Ok (s', r, hooks) /\ r = Some 1 /\
    contents ex_name s' = Some (foldl (UntypedMap.write1 1) ∅ [([1], Some [10])]).
Proof.
  destruct (apply_changes_atomic ex_changes ex_new_maps ex_s1) as (s' & r & hooks & E & H).
  - split_and!; [constructor | by split_and!; cbn |]. intros n cv id. done.
  - apply ex_tx_ok.
  - vm_compute. reflexivity.
  - exists s', r, hooks. split; [exact E|]. assert (r = Some 1) as -> by (vm_compute in E; congruence).
    split; [reflexivity|]. destruct H as (_ & _ & _ & _ & H). rewrite H. reflexivity.
Defined.

Lemma store_invariant_witness : store_ok ex_s2.
Proof. apply store_invariant. apply (reachable_step ex_s1); [apply ex_reachable1 | apply ex_step2]. Defined.

Lemma ex_s2_ok : store_ok ex_s2.
Proof. apply (sstep_ok ex_s1); [|apply ex_step2]. apply (sstep_ok ex_s0); [|apply sstep_create]. split_and!; [constructor | by split_and!; cbn |]. done. Qed.

Lemma store_rollback_restores_witness :
  exists s', rollback (mkTxID 1 0) 2 ex_s2 = Ok s' /\ version (vers s') = 0 /\ table ex_name s' = None.
Proof.
  destruct (store_rollback_restores (mkTxID 1 0) 2 ex_s2 ex_s2_ok) as (_ & _ & H).
  destruct H as (s' & E & _ & Hv & _ & _ & H); [vm_compute; split; congruence|]. exists s'. split; [exact E|]. split; [exact Hv|].
  eapply (H ex_name 1 0%nat); vm_compute; reflexivity.
Defined.

Definition ex_consensus : Consensus := mkConsensus true false (fun _ _ => true).
Definition ex_sub (v : Z) : TxID * (PendingTxInfo * bool) := (mkTxID 0 v, (mkInfo SUCCESS [v] [], false)).
Definition ex_step (v : Z) : Consensus * (TxID * (PendingTxInfo * bool)) := (ex_consensus, ex_sub v).
Lemma replicated_in_order_witness :
  exists q' log n, submit_all [ex_step 2; ex_step 3; ex_step 1] ex_s0 = Some (Ok (q', log)) /\
    be_version <$> log = [1; 2; 3] /\ n = 3 /\ pending_txs q' = ∅.
Proof.
  destruct (replicated_in_order [ex_step 2; ex_step 3; ex_step 1] ex_s0) as (q' & log & n & E & Hlog & _ & _ & H & _).
  - reflexivity.
  - vm_compute. congruence.
  - vm_compute. congruence.
  - by repeat constructor.
  - destruct H as (_ & _ & H); [repeat constructor; vm_compute; set_solver | by repeat constructor | by repeat constructor|].
    exists q', log, n. destruct H as [-> Hp]; [by vm_compute; apply (Permutation_app_comm [2; 3] [1])|]. by split_and!.
Defined.

End Store.
