(* ===== verification/KvSerial.v ===== *)
(** * Ledger entries

    Model of CCF/src/kv/raw_serialise.h, generic_serialise_wrapper.h and
    serialised_entry_format.h, and of [serialise_changes] and
    [deserialise_internal] of untyped_map.h: the bytes of a transaction as the
    primary writes them to the ledger and a backup reads them.

    A [RawReader] is a pointer, an offset and a size; [rdata] are the bytes from
    the pointer to the end of the memory that it may touch, which can be more
    than [rsize], and reading past them is [Undef].  The encryptor is an
    interface ([Encryptor]); assertions that are compiled out of release builds
    are not modelled.

    Main results: [entry_roundtrip], what is written is read back, and
    [reader_overreads], the bound check that is off by eight. *)
From S2P Require Import Prelude Serialized KvHandle MapSerial UntypedMap Store.
From stdpp Require Import list gmap sorting.
Local Open Scope Z_scope.

Module KvSerial.
Import Serialized.
Abbreviation K := KvHandle.K.
Abbreviation V := KvHandle.V.
Abbreviation Write := UntypedMap.Write.
Abbreviation NoVersion := KvHandle.NoVersion.
Abbreviation SecurityDomain := UntypedMap.SecurityDomain.
Abbreviation PUBLIC := UntypedMap.PUBLIC.
Abbreviation PRIVATE := UntypedMap.PRIVATE.
Abbreviation TxID := Store.TxID.

Inductive EntryType :=
  | WriteSet | Snapshot | WriteSetWithClaims | WriteSetWithCommitEvidence | WriteSetWithCommitEvidenceAndClaims.
Definition entry_type_value (t : EntryType) : Z :=
  match t with
  | WriteSet => 0 | Snapshot => 1 | WriteSetWithClaims => 2 | WriteSetWithCommitEvidence => 3
  | WriteSetWithCommitEvidenceAndClaims => 4
  end.
Definition entry_type_of (v : Z) : option EntryType :=
  match v with
  | 0 => Some WriteSet | 1 => Some Snapshot | 2 => Some WriteSetWithClaims | 3 => Some WriteSetWithCommitEvidence
  | 4 => Some WriteSetWithCommitEvidenceAndClaims | _ => None
  end.
Definition has_claims (t : EntryType) : bool :=
  match t with WriteSetWithClaims | WriteSetWithCommitEvidenceAndClaims => true | _ => false end.
Definition has_commit_evidence (t : EntryType) : bool :=
  match t with WriteSetWithCommitEvidence | WriteSetWithCommitEvidenceAndClaims => true | _ => false end.

(** ** RawWriter *)

(** The buffer grows by exactly what is written. *)
Definition serialise_entry (n : nat) (v : Z) (b : list Z) : result (list Z) :=
  w ← write_uint n v (new_writer (Z.of_nat n)); Ok (b ++ buf w).
Definition serialise_vector (entry : list Z) (b : list Z) : result (list Z) :=
  w ← write entry (new_writer (zlen entry)); Ok (b ++ buf w).
Definition serialise_array (a : list Z) (b : list Z) : result (list Z) :=
  w ← write a (new_writer (zlen a)); Ok (b ++ buf w).
Definition serialise_string (s : list Z) (b : list Z) : result (list Z) :=
  w ← write_string s (new_writer (8 + zlen s)); Ok (b ++ buf w).

(** The cases of [append]. *)
Definition append_bytes (entry : list Z) (b : list Z) : result (list Z) :=
  b ← serialise_entry 8 (zlen entry) b;
  if 0 <? zlen entry then serialise_vector entry b else Ok b.
Definition append_versions (entry : list Z) (b : list Z) : result (list Z) :=
  b ← serialise_entry 8 (zlen entry * 8) b;
  if 0 <? zlen entry then serialise_vector (concat (le_bytes 8 <$> entry)) b else Ok b.
Definition append_digest (d : list Z) (b : list Z) : result (list Z) := serialise_array d b.
Definition append_entry_type (t : EntryType) (b : list Z) : result (list Z) := serialise_entry 1 (entry_type_value t) b.
Definition append_string (s : list Z) (b : list Z) : result (list Z) := serialise_string s b.
Definition append_u64 (v : Z) (b : list Z) : result (list Z) := serialise_entry 8 v b.

(** ** RawReader *)

Record RawReader := mkReader { rdata : list Z; roff : Z; rsize : Z }.
Definition set_off (o : Z) (r : RawReader) : RawReader := mkReader (rdata r) o (rsize r).

(** [n] bytes of memory from an offset. *)
Definition mem (o n : Z) (r : RawReader) : result (list Z) :=
  if zlen (rdata r) <? o + n then Undef else Ok (ztake n (zdrop o (rdata r))).

Definition read_entry (n : nat) (r : RawReader) : result (Z * RawReader) :=
  let remainder := wrap64 (rsize r - roff r) in
  if remainder <? Z.of_nat n then Throw LogicError
  else
    b ← mem (roff r) (Z.of_nat n) r;
    Ok (le_val b, set_off (wrap64 (roff r + Z.of_nat n)) r).

(** The size, the offset of the entry, and the reader behind it. *)
Definition read_size_prefixed_entry (r : RawReader) : result (Z * Z * RawReader) :=
  let remainder := wrap64 (rsize r - roff r) in
  '(entry_size, r) ← read_entry 8 r;
  if remainder <? entry_size then Throw RuntimeError
  else Ok (entry_size, roff r, set_off (wrap64 (roff r + entry_size)) r).

Definition read_bytes (r : RawReader) : result (list Z * RawReader) :=
  '(size, o, r) ← read_size_prefixed_entry r;
  b ← mem o size r;
  Ok (b, r).
Definition read_string (r : RawReader) : result (list Z * RawReader) :=
  '(size, o, r) ← read_size_prefixed_entry r;
  b ← mem o size r;
  Ok (b, r).
(** A digest: there is no check. *)
Definition read_digest (r : RawReader) : result (list Z * RawReader) :=
  b ← mem (roff r) 32 r;
  Ok (b, set_off (wrap64 (roff r + 32)) r).
Definition read_entry_type (r : RawReader) : result (EntryType * RawReader) :=
  '(t, r) ← read_entry 1 r;
  match entry_type_of t with Some t => Ok (t, r) | None => Throw LogicError end.
Definition read_u64 (r : RawReader) : result (Z * RawReader) := read_entry 8 r.
Definition is_eos (r : RawReader) : bool := rsize r <=? roff r.

(** [std::vector<Version>] *)
Fixpoint chunks8 (n : nat) (l : list Z) : list Z :=
  match n with O => [] | S n => le_val (take 8 l) :: chunks8 n (drop 8 l) end.
Definition read_versions (r : RawReader) : result (list Z * RawReader) :=
  '(size, o, r) ← read_size_prefixed_entry r;
  if negb (size mod 8 =? 0) then Undef
  else b ← mem o size r; Ok (chunks8 (Z.to_nat (size / 8)) b, r).

(** ** The encryptor *)

Record Encryptor := mkEncryptor {
  get_header_length : Z;
  (** plain, additional data, transaction, type, hint: header and cipher *)
  encrypt : list Z -> list Z -> TxID -> EntryType -> bool -> result (option (list Z * list Z));
  (** cipher, additional data, header, version, hint: plain; and the term *)
  decrypt : list Z -> list Z -> list Z -> Z -> bool -> result (option (list Z) * Z);
  get_term : list Z -> result Z
}.

(** ** GenericSerialiseWrapper *)

Record Serialiser := mkSerialiser {
  public_writer : list Z;
  private_writer : list Z;
  tx_id : TxID;
  entry_type : EntryType;
  header_flags : Z;
  crypto_util : option Encryptor;
  current_domain : SecurityDomain;
  historical_hint : bool
}.

(** [serialise_internal], with the append of the type. *)
Definition serialise_internal (append : list Z -> result (list Z)) (s : Serialiser) : result Serialiser :=
  match current_domain s with
  | UntypedMap.PUBLIC =>
      w ← append (public_writer s);
      Ok (mkSerialiser w (private_writer s) (tx_id s) (entry_type s) (header_flags s) (crypto_util s) (current_domain s) (historical_hint s))
  | UntypedMap.PRIVATE =>
      w ← append (private_writer s);
      Ok (mkSerialiser (public_writer s) w (tx_id s) (entry_type s) (header_flags s) (crypto_util s) (current_domain s) (historical_hint s))
  end.
Definition set_current_domain (d : SecurityDomain) (s : Serialiser) : Serialiser :=
  mkSerialiser (public_writer s) (private_writer s) (tx_id s) (entry_type s) (header_flags s) (crypto_util s) d (historical_hint s).

Definition new_serialiser (e : option Encryptor) (tx : TxID) (t : EntryType) (flags : Z) (evidence claims : list Z) (hint : bool) : result Serialiser :=
  let s := mkSerialiser [] [] tx t flags e PUBLIC hint in
  s ← serialise_internal (append_entry_type t) s;
  s ← serialise_internal (append_u64 (Store.tx_version tx)) s;
  s ← (if has_claims t then serialise_internal (append_digest claims) s else Ok s);
  s ← (if has_commit_evidence t then serialise_internal (append_digest evidence) s else Ok s);
  serialise_internal (append_u64 0) s.

Definition start_map (name : K) (domain : SecurityDomain) (s : Serialiser) : result Serialiser :=
  match domain, crypto_util s with
  | UntypedMap.PRIVATE, None => Throw KvSerialiserException
  | _, _ => serialise_internal (append_string name) (set_current_domain domain s)
  end.
Definition serialise_raw (raw : list Z) (s : Serialiser) : result Serialiser := serialise_internal (append_bytes raw) s.
Definition serialise_view_history (h : list Z) (s : Serialiser) : result Serialiser := serialise_internal (append_versions h) s.
Definition serialise_entry_version (v : Z) (s : Serialiser) : result Serialiser := serialise_internal (append_u64 v) s.
Definition serialise_count_header (ctr : Z) (s : Serialiser) : result Serialiser := serialise_internal (append_u64 ctr) s.
Definition serialise_read (k : K) (v : Z) (s : Serialiser) : result Serialiser :=
  s ← serialise_internal (append_bytes k) s; serialise_internal (append_u64 v) s.
Definition serialise_write (k : K) (v : V) (s : Serialiser) : result Serialiser :=
  s ← serialise_internal (append_bytes k) s; serialise_internal (append_bytes v) s.
Definition serialise_remove (k : K) (s : Serialiser) : result Serialiser := serialise_internal (append_bytes k) s.

(** The eight bytes of [SerialisedEntryHeader]; the size has 48 bits. *)
Definition entry_format_v1 : Z := 1.
Definition header_bytes (flags size : Z) : list Z := [entry_format_v1; flags] ++ le_bytes 6 size.

Definition serialise_domains (pub priv : list Z) (s : Serialiser) : result (list Z) :=
  let size_ := zlen pub + match crypto_util s with Some e => get_header_length e + 8 + zlen priv | None => 0 end in
  w ← write (header_bytes (header_flags s) (size_ mod 2 ^ 48)) (new_writer (size_ + 8));
  match crypto_util s with
  | None => w ← write pub w; Ok (buf w)
  | Some e =>
      enc ← encrypt e priv pub (tx_id s) (entry_type s) (historical_hint s);
      match enc with
      | None => Throw KvSerialiserException
      | Some (hdr, cipher) =>
          w ← write hdr w;
          w ← write_uint 8 (zlen pub) w;
          w ← write pub w;
          w ← (if 0 <? zlen cipher then write cipher w else Ok w);
          Ok (buf w)
      end
  end.
Definition get_raw_data (s : Serialiser) : result (list Z) := serialise_domains (public_writer s) (private_writer s) s.

(** ** GenericDeserialiseWrapper *)

Record Deserialiser := mkDeserialiser {
  public_reader : RawReader;
  private_reader : RawReader;
  on_private : bool;
  d_claims : option (list Z);
  d_evidence : option (list Z);
  d_version : Z
}.
Definition current_reader (d : Deserialiser) : RawReader := if on_private d then private_reader d else public_reader d.
Definition set_reader (r : RawReader) (d : Deserialiser) : Deserialiser :=
  if on_private d
  then mkDeserialiser (public_reader d) r true (d_claims d) (d_evidence d) (d_version d)
  else mkDeserialiser r (private_reader d) false (d_claims d) (d_evidence d) (d_version d).

Definition read_public_header (r : RawReader) : result Deserialiser :=
  '(t, r) ← read_entry_type r;
  '(v, r) ← read_u64 r;
  '(claims, r) ← (if has_claims t then '(d, r) ← read_digest r; Ok (Some d, r) else Ok (None, r));
  '(evidence, r) ← (if has_commit_evidence t then '(d, r) ← read_digest r; Ok (Some d, r) else Ok (None, r));
  '(_, r) ← read_u64 r;
  Ok (mkDeserialiser r (mkReader [] 0 0) false claims evidence v).

(** The deserialiser, and the term when it is known; [None] is a failed
    decryption. *)
Definition init (e : option Encryptor) (public_only : bool) (hint : bool) (data : list Z) :
  result (option (Deserialiser * option Z)) :=
  '(h, data) ← read 8 data;
  if negb (le_val (drop 2 h) =? zlen data) then Throw LogicError
  else if negb (bool_decide (head h = Some entry_format_v1)) then Throw LogicError
  else
    match e with
    | None => d ← read_public_header (mkReader data 0 (zlen data)); Ok (Some (d, None))
    | Some e =>
        let hdr := ztake (get_header_length e) data in
        data ← skip (get_header_length e) data;
        '(public_domain_length, data) ← read_uint 8 data;
        d ← read_public_header (mkReader data 0 public_domain_length);
        if public_only then term ← get_term e hdr; Ok (Some (d, Some term))
        else
          let data_public := ztake public_domain_length data in
          data ← skip public_domain_length data;
          dec ← decrypt e data data_public hdr (d_version d) hint;
          match dec with
          | (None, _) => Ok None
          | (Some plain, term) =>
              Ok (Some (mkDeserialiser (public_reader d) (mkReader plain 0 (zlen plain)) false
                          (d_claims d) (d_evidence d) (d_version d), Some term))
          end
    end.

(** The name of the next map. *)
Definition next_map (d : Deserialiser) : result (option K * Deserialiser) :=
  let go d := '(n, r) ← read_string (current_reader d); Ok (Some n, set_reader r d) in
  if is_eos (current_reader d) then
    if negb (on_private d) && negb (is_eos (private_reader d))
    then go (mkDeserialiser (public_reader d) (private_reader d) true (d_claims d) (d_evidence d) (d_version d))
    else Ok (None, d)
  else go d.

Definition deserialise_u64 (d : Deserialiser) : result (Z * Deserialiser) :=
  '(v, r) ← read_u64 (current_reader d); Ok (v, set_reader r d).
Definition deserialise_bytes (d : Deserialiser) : result (list Z * Deserialiser) :=
  '(v, r) ← read_bytes (current_reader d); Ok (v, set_reader r d).
Definition deserialise_versions (d : Deserialiser) : result (list Z * Deserialiser) :=
  '(v, r) ← read_versions (current_reader d); Ok (v, set_reader r d).
Definition end_ (d : Deserialiser) : bool := is_eos (current_reader d) && is_eos (public_reader d).

(** ** Write sets *)

Fixpoint serialise_reads (l : list (K * (Z * Z))) (s : Serialiser) : result Serialiser :=
  match l with
  | [] => Ok s
  | (k, (ver, _)) :: l => s ← serialise_read k ver s; serialise_reads l s
  end.
Fixpoint serialise_writes (l : Write) (s : Serialiser) : result Serialiser :=
  match l with
  | [] => Ok s
  | (k, Some v) :: l => s ← serialise_write k v s; serialise_writes l s
  | (_, None) :: l => serialise_writes l s
  end.
Fixpoint serialise_removes (l : Write) (s : Serialiser) : result Serialiser :=
  match l with
  | [] => Ok s
  | (k, None) :: l => s ← serialise_remove k s; serialise_removes l s
  | (_, Some _) :: l => serialise_removes l s
  end.
Definition is_write (e : K * option V) : bool := match e.2 with Some _ => true | None => false end.
Definition count_writes (w : Write) : Z := zlen (List.filter is_write w).
Definition count_removes (w : Write) : Z := zlen (List.filter (fun e => negb (is_write e)) w).

Definition serialise_changes (name : K) (domain : SecurityDomain) (cs : KvHandle.ChangeSet) (include_reads : bool) (s : Serialiser) :
  result Serialiser :=
  s ← start_map name domain s;
  s ← (if include_reads then
         s ← serialise_entry_version (KvHandle.cs_read_version cs) s;
         s ← serialise_count_header (zlen (KvHandle.reads cs)) s;
         serialise_reads (KvHandle.reads cs) s
       else
         s ← serialise_entry_version NoVersion s;
         serialise_count_header 0 s);
  s ← serialise_count_header (count_writes (KvHandle.writes cs)) s;
  s ← serialise_writes (KvHandle.writes cs) s;
  s ← serialise_count_header (count_removes (KvHandle.writes cs)) s;
  serialise_removes (KvHandle.writes cs) s.

(** The loops of [deserialise_internal]. *)
Fixpoint deserialise_reads (n : nat) (cs : KvHandle.ChangeSet) (d : Deserialiser) : result (KvHandle.ChangeSet * Deserialiser) :=
  match n with
  | O => Ok (cs, d)
  | S n =>
      '(k, d) ← deserialise_bytes d;
      '(ver, d) ← deserialise_u64 d;
      deserialise_reads n (KvHandle.set_reads (KvHandle.map_put k (ver, NoVersion) (KvHandle.reads cs)) cs) d
  end.
Fixpoint deserialise_writes (n : nat) (cs : KvHandle.ChangeSet) (d : Deserialiser) : result (KvHandle.ChangeSet * Deserialiser) :=
  match n with
  | O => Ok (cs, d)
  | S n =>
      '(k, d) ← deserialise_bytes d;
      '(v, d) ← deserialise_bytes d;
      deserialise_writes n (KvHandle.set_writes (KvHandle.map_put k (Some v) (KvHandle.writes cs)) cs) d
  end.
Fixpoint deserialise_removes (n : nat) (cs : KvHandle.ChangeSet) (d : Deserialiser) : result (KvHandle.ChangeSet * Deserialiser) :=
  match n with
  | O => Ok (cs, d)
  | S n =>
      '(k, d) ← deserialise_bytes d;
      deserialise_removes n (KvHandle.set_writes (KvHandle.map_put k None (KvHandle.writes cs)) cs) d
  end.

(** Into a change set that has been created for the version of the entry. *)
Definition deserialise_internal (cs : KvHandle.ChangeSet) (d : Deserialiser) : result (KvHandle.ChangeSet * Deserialiser) :=
  '(rv, d) ← deserialise_u64 d;
  let cs := if negb (rv =? NoVersion) then KvHandle.set_read_version rv cs else cs in
  '(ctr, d) ← deserialise_u64 d;
  '(cs, d) ← deserialise_reads (Z.to_nat ctr) cs d;
  '(ctr, d) ← deserialise_u64 d;
  '(cs, d) ← deserialise_writes (Z.to_nat ctr) cs d;
  '(ctr, d) ← deserialise_u64 d;
  deserialise_removes (Z.to_nat ctr) cs d.

(** One change set of a transaction, with what its map says about itself. *)
Record MapChange := mkMapChange {
  mc_name : K;
  mc_domain : SecurityDomain;
  mc_replicated : bool;
  mc_changes : KvHandle.ChangeSet
}.
Definition same_domain (d d' : SecurityDomain) : bool :=
  match d, d' with UntypedMap.PUBLIC, UntypedMap.PUBLIC | UntypedMap.PRIVATE, UntypedMap.PRIVATE => true | _, _ => false end.
Definition in_domain (domain : SecurityDomain) (c : MapChange) : bool :=
  same_domain (mc_domain c) domain && mc_replicated c && UntypedMap.nonempty (KvHandle.writes (mc_changes c)).

(** The maps of one domain, and the two domains in order. *)
Fixpoint serialise_domain (domain : SecurityDomain) (l : list MapChange) (s : Serialiser) : result Serialiser :=
  match l with
  | [] => Ok s
  | c :: l =>
      s ← (if in_domain domain c then serialise_changes (mc_name c) (mc_domain c) (mc_changes c) false s else Ok s);
      serialise_domain domain l s
  end.
Definition serialise_all (l : list MapChange) (s : Serialiser) : result Serialiser :=
  s ← serialise_domain PUBLIC l s; serialise_domain PRIVATE l s.

(** The loop over the maps of an entry, which stops early when the body returns
    nothing.  The outer [None] is a loop that has not ended. *)
Fixpoint read_maps {A} (body : K -> Deserialiser -> A -> result (option (Deserialiser * A))) (fuel : nat) (d : Deserialiser) (a : A) :
  option (result (option (Deserialiser * A))) :=
  match fuel with
  | O => None
  | S fuel =>
      match next_map d with
      | Ok (None, d) => Some (Ok (Some (d, a)))
      | Ok (Some map_name, d) =>
          match body map_name d a with
          | Ok (Some (d, a)) => read_maps body fuel d a
          | Ok None => Some (Ok None)
          | Throw e => Some (Throw e)
          | Undef => Some Undef
          end
      | Throw e => Some (Throw e)
      | Undef => Some Undef
      end
  end.

(** ** Specification *)

(** The bytes of strings and of the write set of one map. *)
Definition enc_bytes (b : list Z) : list Z := le_bytes 8 (zlen b) ++ b.
Definition enc_write (e : K * option V) : list Z := match e.2 with Some v => enc_bytes e.1 ++ enc_bytes v | None => [] end.
Definition enc_remove (e : K * option V) : list Z := match e.2 with Some _ => [] | None => enc_bytes e.1 end.
Definition enc_writes (w : Write) : list Z :=
  le_bytes 8 NoVersion ++ le_bytes 8 0 ++
  le_bytes 8 (count_writes w) ++ concat (enc_write <$> w) ++ le_bytes 8 (count_removes w) ++ concat (enc_remove <$> w).
Definition enc_map (m : K * Write) : list Z := enc_bytes m.1 ++ enc_writes m.2.

(** Append bytes to the current domain. *)
Definition emit (b : list Z) (s : Serialiser) : Serialiser :=
  match current_domain s with
  | UntypedMap.PUBLIC => mkSerialiser (public_writer s ++ b) (private_writer s) (tx_id s) (entry_type s) (header_flags s) (crypto_util s) (current_domain s) (historical_hint s)
  | UntypedMap.PRIVATE => mkSerialiser (public_writer s) (private_writer s ++ b) (tx_id s) (entry_type s) (header_flags s) (crypto_util s) (current_domain s) (historical_hint s)
  end.
Definition emits (f : Serialiser -> result Serialiser) (b : list Z) : Prop := forall s, f s = Ok (emit b s).

(** A reader in front of [rest]. *)
Definition rd (rest : list Z) (r : RawReader) : Prop :=
  exists pre extra, rdata r = pre ++ rest ++ extra /\ roff r = zlen pre /\ rsize r = zlen pre + zlen rest /\ rsize r < M64.
(** The deserialiser [d0], moved in front of [rest] in its current domain. *)
Definition at_rest (d0 : Deserialiser) (rest : list Z) (d : Deserialiser) : Prop := exists r, d = set_reader r d0 /\ rd rest r.

(** What the encryptor guarantees: it reads what it wrote. *)
Definition encryptor_ok (e : Encryptor) : Prop :=
  0 <= get_header_length e /\
  forall plain aad tx t hint hdr cipher, bytes_ok plain -> u64 (Store.term tx) -> encrypt e plain aad tx t hint = Ok (Some (hdr, cipher)) ->
    zlen hdr = get_header_length e /\ zlen cipher = zlen plain /\
    (t <> Snapshot -> get_term e hdr = Ok (Store.term tx) /\ decrypt e cipher aad hdr (Store.tx_version tx) hint = Ok (Some plain, Store.term tx)) /\
    (forall hint', exists term, decrypt e cipher aad hdr (Store.tx_version tx) hint' = Ok (Some plain, term)).

(** ** Lemmas *)

Lemma emit_app a b s : emit b (emit a s) = emit (a ++ b) s.
Proof. unfold emit. destruct s as [? ? ? ? ? ? d ?], d; cbn; by rewrite app_assoc. Qed.
Lemma emit_nil s : emit [] s = s.
Proof. unfold emit. destruct s as [? ? ? ? ? ? d ?], d; cbn; by rewrite app_nil_r. Qed.
Lemma emits_bind f g a b : emits f a -> emits g b -> emits (fun s => s ← f s; g s) (a ++ b).
Proof. intros Hf Hg s. rewrite Hf. cbn [mbind result_bind]. by rewrite Hg, emit_app. Qed.

Lemma written_all (done : list Z) w : written done 0 w -> buf w = done.
Proof. intros (-> & _). cbn. by rewrite app_nil_r. Qed.

Lemma write_exact entry : exists w, write entry (new_writer (zlen entry)) = Ok w /\ buf w = entry.
Proof.
  destruct (write_ok [] _ _ entry (new_writer_written (length entry)) ltac:(lia)) as (w & E & Hw). exists w. split; [done|].
  apply written_all. by rewrite Nat.sub_diag in Hw.
Qed.

Lemma serialise_entry_ok n v b : serialise_entry n v b = Ok (b ++ le_bytes n v).
Proof.
  unfold serialise_entry, write_uint. destruct (write_exact (le_bytes n v)) as (w & E & Hw). rewrite length_le_bytes in E. rewrite E.
  cbn [mbind result_bind]. by rewrite Hw.
Qed.
Lemma serialise_vector_ok e b : serialise_vector e b = Ok (b ++ e).
Proof. unfold serialise_vector. destruct (write_exact e) as (w & -> & Hw). cbn [mbind result_bind]. by rewrite Hw. Qed.
Lemma append_bytes_ok e b : append_bytes e b = Ok (b ++ enc_bytes e).
Proof.
  unfold append_bytes, enc_bytes. rewrite serialise_entry_ok. cbn [mbind result_bind]. destruct e as [|x e]; [by rewrite app_nil_r|].
  destruct (Z.ltb_spec 0 (zlen (x :: e))); [|cbn in *; lia]. by rewrite serialise_vector_ok, app_assoc.
Qed.
Lemma append_string_ok e b : append_string e b = Ok (b ++ enc_bytes e).
Proof.
  unfold append_string, serialise_string. replace (8 + zlen e) with (Z.of_nat (8 + length e)) by lia.
  destruct (write_string_written e [] _ _ (new_writer_written (8 + length e)) ltac:(lia)) as (w & -> & Hw). cbn [mbind result_bind].
  rewrite Nat.sub_diag in Hw. by rewrite (written_all _ _ Hw).
Qed.
Lemma append_u64_ok v b : append_u64 v b = Ok (b ++ le_bytes 8 v).
Proof. apply serialise_entry_ok. Qed.

Lemma internal_emits f b : (forall w, f w = Ok (w ++ b)) -> emits (serialise_internal f) b.
Proof. intros Hf s. unfold serialise_internal, emit. rewrite !Hf. by destruct (current_domain s). Qed.

Lemma u64_emits v : emits (serialise_internal (append_u64 v)) (le_bytes 8 v).
Proof. apply internal_emits. intros w. apply append_u64_ok. Qed.
Lemma bytes_emits b : emits (serialise_internal (append_bytes b)) (enc_bytes b).
Proof. apply internal_emits. intros w. apply append_bytes_ok. Qed.

Lemma writes_emits w : emits (serialise_writes w) (concat (enc_write <$> w)).
Proof.
  induction w as [|[k [v|]] w IH]; [intros s; by rewrite emit_nil| |done]. cbn [serialise_writes fmap list_fmap concat enc_write snd fst].
  apply emits_bind; [|exact IH]. apply emits_bind; apply bytes_emits.
Qed.
Lemma removes_emits w : emits (serialise_removes w) (concat (enc_remove <$> w)).
Proof.
  induction w as [|[k [v|]] w IH]; [intros s; by rewrite emit_nil|done|]. cbn [serialise_removes fmap list_fmap concat enc_remove snd fst].
  apply emits_bind; [apply bytes_emits | exact IH].
Qed.

Lemma body_emits w :
  emits (fun s =>
    s ← (s ← serialise_entry_version NoVersion s; serialise_count_header 0 s);
    s ← serialise_count_header (count_writes w) s;
    s ← serialise_writes w s;
    s ← serialise_count_header (count_removes w) s;
    serialise_removes w s) (enc_writes w).
Proof.
  unfold enc_writes. rewrite app_assoc. apply emits_bind; [apply emits_bind; apply u64_emits|].
  apply emits_bind; [apply u64_emits|]. apply emits_bind; [apply writes_emits|]. apply emits_bind; [apply u64_emits | apply removes_emits].
Qed.

Lemma start_map_ok name domain s : (domain = PRIVATE -> is_Some (crypto_util s)) ->
  start_map name domain s = Ok (emit (enc_bytes name) (set_current_domain domain s)).
Proof.
  intros Hd. assert (Hi : emits (serialise_internal (append_string name)) (enc_bytes name)) by (apply internal_emits; intros w; apply append_string_ok).
  unfold start_map. destruct domain; [apply Hi|]. destruct (Hd eq_refl) as [e ->]. apply Hi.
Qed.

Lemma serialise_changes_ok name domain cs s : (domain = PRIVATE -> is_Some (crypto_util s)) ->
  serialise_changes name domain cs false s = Ok (emit (enc_map (name, KvHandle.writes cs)) (set_current_domain domain s)).
Proof.
  intros Hd. unfold serialise_changes. rewrite start_map_ok by done. cbn [mbind result_bind].
  etransitivity; [exact (body_emits (KvHandle.writes cs) _)|]. by rewrite emit_app.
Qed.

(** *** Reading *)

Lemma mem_ok pre b rest r : rdata r = pre ++ b ++ rest -> mem (zlen pre) (zlen b) r = Ok b.
Proof.
  intros E. unfold mem. rewrite E, !length_app. destruct (Z.ltb_spec (Z.of_nat (length pre + (length b + length rest))) (zlen pre + zlen b)); [lia|].
  unfold ztake, zdrop. by rewrite !Nat2Z.id, drop_app_length, take_app_length.
Qed.

Lemma rd_bounds rest r : rd rest r -> 0 <= roff r /\ rsize r = roff r + zlen rest /\ rsize r < M64.
Proof. intros (pre & extra & _ & -> & -> & H). split_and!; lia. Qed.

Lemma rd_skip a rest r : rd (a ++ rest) r -> rd rest (set_off (roff r + zlen a) r).
Proof.
  intros (pre & extra & E & Ho & Hs & HM). exists (pre ++ a), extra. rewrite !length_app in *. cbn. split_and!; [|lia..].
  by rewrite E, <- !app_assoc.
Qed.

Lemma rd_mem a rest r : rd (a ++ rest) r -> mem (roff r) (zlen a) r = Ok a.
Proof. intros (pre & extra & E & -> & _). apply (mem_ok pre a (rest ++ extra)). by rewrite E, <- !app_assoc. Qed.

Lemma read_entry_ok n v rest r : rd (le_bytes n v ++ rest) r ->
  exists r', read_entry n r = Ok (v mod 256 ^ Z.of_nat n, r') /\ rd rest r' /\ roff r' = roff r + Z.of_nat n /\ rsize r' = rsize r.
Proof.
  intros Hr. pose proof (rd_bounds _ _ Hr) as (H0 & Hs & HM). rewrite length_app, length_le_bytes in Hs.
  unfold read_entry. rewrite !wrap64_small by (split; lia). destruct (Z.ltb_spec (rsize r - roff r) (Z.of_nat n)); [lia|].
  pose proof (rd_mem _ _ _ Hr) as Hm. rewrite length_le_bytes in Hm. rewrite Hm. cbn [mbind result_bind]. rewrite le_val_le_bytes.
  eexists. split; [done|]. split; [|done]. pose proof (rd_skip _ _ _ Hr) as Hk. by rewrite length_le_bytes in Hk.
Qed.

Lemma read_u64_ok v rest r : u64 v -> rd (le_bytes 8 v ++ rest) r -> exists r', read_u64 r = Ok (v, r') /\ rd rest r'.
Proof.
  intros Hv Hr. destruct (read_entry_ok 8 v rest r Hr) as (r' & E & Hr' & _). exists r'. split; [|done]. unfold read_u64. rewrite E.
  change (256 ^ Z.of_nat 8) with M64. by rewrite Z.mod_small.
Qed.

Lemma read_prefixed_ok b rest r : rd (enc_bytes b ++ rest) r ->
  exists o r', read_size_prefixed_entry r = Ok (zlen b, o, r') /\ mem o (zlen b) r' = Ok b /\ rd rest r'.
Proof.
  intros Hr. unfold enc_bytes in Hr. rewrite <- app_assoc in Hr. pose proof (rd_bounds _ _ Hr) as (H0 & Hs & HM).
  rewrite !length_app, length_le_bytes in Hs. unfold read_size_prefixed_entry.
  destruct (read_entry_ok 8 (zlen b) (b ++ rest) r Hr) as (r1 & E & Hr1 & Ho1 & Hs1). rewrite E. cbn [mbind result_bind].
  change (256 ^ Z.of_nat 8) with M64. rewrite Z.mod_small by lia. rewrite wrap64_small by (split; lia).
  destruct (Z.ltb_spec (rsize r - roff r) (zlen b)); [lia|]. rewrite wrap64_small by (split; lia).
  eexists _, _. split; [done|]. split; [exact (rd_mem _ _ _ Hr1) | by apply rd_skip].
Qed.

Lemma read_bytes_ok b rest r : rd (enc_bytes b ++ rest) r -> exists r', read_bytes r = Ok (b, r') /\ rd rest r'.
Proof.
  intros Hr. destruct (read_prefixed_ok b rest r Hr) as (o & r' & E & Hm & Hr'). unfold read_bytes. rewrite E. cbn [mbind result_bind].
  rewrite Hm. by exists r'.
Qed.

(** Vectors of versions. *)
Definition version_bytes (h : list Z) : list Z := concat (le_bytes 8 <$> h).
Lemma length_version_bytes h : length (version_bytes h) = (8 * length h)%nat.
Proof.
  induction h as [|v h IH]; [done|]. unfold version_bytes in *. rewrite fmap_cons. cbn [concat length]. rewrite length_app, length_le_bytes, IH. lia.
Qed.
Lemma chunks8_ok h : Forall u64 h -> chunks8 (length h) (version_bytes h) = h.
Proof.
  unfold version_bytes. induction 1 as [|v h Hv _ IH]; [done|]. rewrite fmap_cons. cbn [concat length chunks8].
  rewrite take_app_length', drop_app_length', IH by (by rewrite length_le_bytes). by rewrite le_val_u64.
Qed.
Lemma append_versions_ok h b : append_versions h b = Ok (b ++ enc_bytes (version_bytes h)).
Proof.
  pose proof (length_version_bytes h) as Hl. rewrite <- append_bytes_ok. unfold append_versions, append_bytes. fold (version_bytes h).
  replace (zlen h * 8) with (zlen (version_bytes h)) by lia. destruct (serialise_entry 8 _ b) as [b'| |]; [|done..]. cbn [mbind result_bind].
  destruct (Z.ltb_spec 0 (zlen h)), (Z.ltb_spec 0 (zlen (version_bytes h))); done || lia.
Qed.
Lemma read_versions_ok h rest r : Forall u64 h -> rd (enc_bytes (version_bytes h) ++ rest) r ->
  exists r', read_versions r = Ok (h, r') /\ rd rest r'.
Proof.
  intros Hh Hr. destruct (read_prefixed_ok _ rest r Hr) as (o & r' & E & Hm & Hr'). unfold read_versions. rewrite E. cbn [mbind result_bind].
  pose proof (length_version_bytes h) as Hl. replace (zlen (version_bytes h)) with (zlen h * 8) in * by lia. rewrite Z_mod_mult, Z_div_mult, Nat2Z.id by lia.
  cbn [Z.eqb negb]. rewrite Hm. cbn [mbind result_bind]. rewrite chunks8_ok by done. by exists r'.
Qed.

Lemma read_digest_ok b rest r : zlen b = 32 -> rd (b ++ rest) r -> exists r', read_digest r = Ok (b, r') /\ rd rest r'.
Proof.
  intros Hb Hr. pose proof (rd_bounds _ _ Hr) as (H0 & Hs & HM). rewrite length_app in Hs. unfold read_digest.
  pose proof (rd_mem _ _ _ Hr) as Hm. rewrite Hb in Hm. rewrite Hm. cbn [mbind result_bind]. rewrite wrap64_small by (split; lia).
  eexists. split; [done|]. pose proof (rd_skip _ _ _ Hr) as Hk. by rewrite Hb in Hk.
Qed.

(** *** Deserialising a map *)

Lemma set_reader_idem r r' d : set_reader r' (set_reader r d) = set_reader r' d.
Proof. unfold set_reader. by destruct d as [? ? [] ? ? ?]. Qed.
Lemma current_set_reader r d : current_reader (set_reader r d) = r.
Proof. unfold set_reader, current_reader. by destruct d as [? ? [] ? ? ?]. Qed.

Lemma deserialise_u64_ok d0 v rest d : u64 v -> at_rest d0 (le_bytes 8 v ++ rest) d ->
  exists d', deserialise_u64 d = Ok (v, d') /\ at_rest d0 rest d'.
Proof.
  intros Hv (r & -> & Hr). unfold deserialise_u64. rewrite current_set_reader. destruct (read_u64_ok v rest r Hv Hr) as (r' & -> & Hr').
  cbn [mbind result_bind]. rewrite set_reader_idem. eexists. split; [done|]. by exists r'.
Qed.
Lemma deserialise_versions_ok d0 h rest d : Forall u64 h -> at_rest d0 (enc_bytes (version_bytes h) ++ rest) d ->
  exists d', deserialise_versions d = Ok (h, d') /\ at_rest d0 rest d'.
Proof.
  intros Hh (r & -> & Hr). unfold deserialise_versions. rewrite current_set_reader. destruct (read_versions_ok h rest r Hh Hr) as (r' & -> & Hr').
  cbn [mbind result_bind]. rewrite set_reader_idem. eexists. split; [done|]. by exists r'.
Qed.
Lemma deserialise_bytes_ok d0 b rest d : at_rest d0 (enc_bytes b ++ rest) d ->
  exists d', deserialise_bytes d = Ok (b, d') /\ at_rest d0 rest d'.
Proof.
  intros (r & -> & Hr). unfold deserialise_bytes. rewrite current_set_reader. destruct (read_bytes_ok b rest r Hr) as (r' & -> & Hr').
  cbn [mbind result_bind]. rewrite set_reader_idem. eexists. split; [done|]. by exists r'.
Qed.

Definition put_all (w l : Write) : Write := foldl (fun w e => KvHandle.map_put e.1 e.2 w) w l.
Definition removes (w : Write) : Write := List.filter (fun e => negb (is_write e)) w.
Definition puts (w : Write) : Write := List.filter is_write w.

Lemma deserialise_writes_ok d0 rest w : forall cs d, at_rest d0 (concat (enc_write <$> w) ++ rest) d ->
  exists d', deserialise_writes (length (puts w)) cs d = Ok (KvHandle.set_writes (put_all (KvHandle.writes cs) (puts w)) cs, d') /\ at_rest d0 rest d'.
Proof.
  induction w as [|[k [v|]] w IH]; intros cs d Hd; cbn [fmap list_fmap concat enc_write snd fst puts List.filter is_write] in *.
  - exists d. split; [by destruct cs | done].
  - rewrite <- !app_assoc in Hd. cbn [length deserialise_writes]. destruct (deserialise_bytes_ok _ _ _ _ Hd) as (d1 & -> & Hd1).
    cbn [mbind result_bind]. destruct (deserialise_bytes_ok _ _ _ _ Hd1) as (d2 & -> & Hd2). cbn [mbind result_bind].
    destruct (IH (KvHandle.set_writes (KvHandle.map_put k (Some v) (KvHandle.writes cs)) cs) d2 Hd2) as (d3 & E & Hd3).
    exists d3. split; [exact E | done].
  - by apply IH.
Qed.
Lemma deserialise_removes_ok d0 rest w : forall cs d, at_rest d0 (concat (enc_remove <$> w) ++ rest) d ->
  exists d', deserialise_removes (length (removes w)) cs d = Ok (KvHandle.set_writes (put_all (KvHandle.writes cs) (removes w)) cs, d') /\ at_rest d0 rest d'.
Proof.
  induction w as [|[k [v|]] w IH]; intros cs d Hd; cbn [fmap list_fmap concat enc_remove snd fst removes List.filter is_write negb] in *.
  - exists d. split; [by destruct cs | done].
  - by apply IH.
  - rewrite <- !app_assoc in Hd. cbn [length deserialise_removes]. destruct (deserialise_bytes_ok _ _ _ _ Hd) as (d1 & -> & Hd1).
    cbn [mbind result_bind]. destruct (IH (KvHandle.set_writes (KvHandle.map_put k None (KvHandle.writes cs)) cs) d1 Hd1) as (d3 & E & Hd3).
    exists d3. split; [exact E | done].
Qed.

(** A std::map is determined by its entries. *)
Lemma sorted_eq {A} (l l' : list (K * A)) : KvHandle.sorted l -> KvHandle.sorted l' ->
  (forall k, KvHandle.map_find k l = KvHandle.map_find k l') -> l = l'.
Proof.
  intros Hs Hs' Hf. apply (StronglySorted_unique_strong (fun a b => KvHandle.key_lt a.1 b.1 = true)); [|done|done|].
  - intros x y _ _ H1 H2. pose proof (KvHandle.key_lt_trans _ _ _ H1 H2) as H. by rewrite KvHandle.key_lt_irrefl in H.
  - apply NoDup_Permutation; [by apply (NoDup_fmap_1 fst), KvHandle.sorted_NoDup..|]. intros [k a].
    rewrite !Store.sorted_find by done. by rewrite Hf.
Qed.

Lemma put_all_sorted l : forall w, KvHandle.sorted w -> KvHandle.sorted (put_all w l).
Proof. induction l as [|e l IH]; intros w Hw; [done|]. apply IH. by apply KvHandle.sorted_put. Qed.

Lemma put_all_find l : KvHandle.sorted l -> forall w k,
  KvHandle.map_find k (put_all w l) = match KvHandle.map_find k l with Some x => Some x | None => KvHandle.map_find k w end.
Proof.
  induction l as [|[k' x] l IH]; intros Hs w k; [done|]. pose proof (KvHandle.sorted_not_in _ _ _ Hs) as Hn.
  apply KvHandle.sorted_inv in Hs as [Hs _]. cbn [put_all foldl fst snd]. fold (put_all (KvHandle.map_put k' x w) l). rewrite IH by done.
  cbn [KvHandle.map_find]. rewrite !(KvHandle.map_find_lookup _ (KvHandle.map_put _ _ _)), KvHandle.map_put_map. case_bool_decide as Hk.
  - subst. by rewrite Hn, lookup_insert_eq.
  - by rewrite lookup_insert_ne, <- KvHandle.map_find_lookup.
Qed.

Lemma filter_sorted (f : K * option V -> bool) w : KvHandle.sorted w -> KvHandle.sorted (List.filter f w) /\
  forall k, KvHandle.map_find k (List.filter f w) =
    match KvHandle.map_find k w with Some x => if f (k, x) then Some x else None | None => None end.
Proof.
  induction w as [|[k' x] w IH]; intros Hs; [split; [constructor | done]|]. pose proof (KvHandle.sorted_not_in _ _ _ Hs) as Hn.
  apply KvHandle.sorted_inv in Hs as [Hs Hf]. destruct (IH Hs) as [H1 H2]. cbn [List.filter KvHandle.map_find]. split.
  - destruct (f (k', x)); [|done]. constructor; [done|]. apply Forall_forall. intros e He. rewrite Forall_forall in Hf. apply Hf.
    apply list_elem_of_In in He. apply List.filter_In in He as [He _]. by apply list_elem_of_In.
  - intros k. destruct (f (k', x)) eqn:E; cbn [KvHandle.map_find]; case_bool_decide as Hk; try (by rewrite H2); subst.
    + by rewrite E.
    + by rewrite H2, Hn, E.
Qed.

Lemma put_all_split w : KvHandle.sorted w -> put_all (put_all [] (puts w)) (removes w) = w.
Proof.
  intros Hs. destruct (filter_sorted is_write w Hs) as [P1 P2]. destruct (filter_sorted (fun e => negb (is_write e)) w Hs) as [R1 R2].
  apply sorted_eq; [apply put_all_sorted, put_all_sorted; constructor | done |]. intros k.
  rewrite !put_all_find by done. unfold removes, puts. rewrite R2, P2. cbn [KvHandle.map_find].
  destruct (KvHandle.map_find k w) as [[v|]|]; done.
Qed.

(** The write set of one map is read into a fresh change set. *)
Lemma deserialise_internal_ok d0 rest w cs d : KvHandle.sorted w -> zlen w < M64 -> KvHandle.writes cs = [] ->
  at_rest d0 (enc_writes w ++ rest) d ->
  exists d', deserialise_internal cs d = Ok (KvHandle.set_writes w cs, d') /\ at_rest d0 rest d'.
Proof.
  intros Hs Hw Hcs Hd. unfold enc_writes in Hd. rewrite <- !app_assoc in Hd. unfold deserialise_internal.
  assert (Hlen : zlen (puts w) < M64 /\ zlen (removes w) < M64).
  { unfold puts, removes. pose proof (List.filter_length_le is_write w). pose proof (List.filter_length_le (fun e => negb (is_write e)) w). lia. }
  destruct (deserialise_u64_ok d0 NoVersion _ d ltac:(by split) Hd) as (d1 & -> & Hd1). cbn [mbind result_bind].
  destruct (deserialise_u64_ok d0 0 _ d1 ltac:(by split) Hd1) as (d2 & -> & Hd2). cbn [mbind result_bind].
  change (Z.to_nat 0) with O. cbn [deserialise_reads mbind result_bind]. rewrite Z.eqb_refl. cbn [negb].
  destruct (deserialise_u64_ok d0 (count_writes w) _ d2 ltac:(unfold count_writes; split; [lia | apply Hlen]) Hd2) as (d3 & -> & Hd3). cbn [mbind result_bind].
  unfold count_writes. rewrite Nat2Z.id. destruct (deserialise_writes_ok d0 _ w cs d3 Hd3) as (d4 & E4 & Hd4). unfold puts in E4 at 1. rewrite E4.
  cbn [mbind result_bind]. destruct (deserialise_u64_ok d0 (count_removes w) _ d4 ltac:(unfold count_removes; split; [lia | apply Hlen]) Hd4) as (d5 & -> & Hd5).
  cbn [mbind result_bind]. unfold count_removes. rewrite Nat2Z.id.
  destruct (deserialise_removes_ok d0 rest w (KvHandle.set_writes (put_all (KvHandle.writes cs) (puts w)) cs) d5 Hd5) as (d6 & E6 & Hd6).
  unfold removes in E6 at 1. rewrite E6. exists d6. split; [|done]. cbn [KvHandle.writes KvHandle.set_writes]. rewrite Hcs, put_all_split by done. done.
Qed.

(** *** Whole entries *)

Lemma ztake_app_length (l k : list Z) : ztake (zlen l) (l ++ k) = l.
Proof. unfold ztake. by rewrite Nat2Z.id, take_app_length. Qed.

Definition enc_header (t : EntryType) (v : Z) (evidence claims : list Z) : list Z :=
  le_bytes 1 (entry_type_value t) ++ le_bytes 8 v ++ (if has_claims t then claims else []) ++
  (if has_commit_evidence t then evidence else []) ++ le_bytes 8 0.
(** The maps that an entry has in one domain. *)
Definition selected (domain : SecurityDomain) (l : list MapChange) : list (K * Write) :=
  (fun c => (mc_name c, KvHandle.writes (mc_changes c))) <$> List.filter (in_domain domain) l.
Definition enc_maps (l : list (K * Write)) : list Z := concat (enc_map <$> l).

Lemma if_emits (b : bool) f a : emits f a -> emits (fun s => if b then f s else Ok s) (if b then a else []).
Proof. intros Hf s. destruct b; [apply Hf | by rewrite emit_nil]. Qed.
Lemma digest_emits b : emits (serialise_internal (append_digest b)) b.
Proof. apply internal_emits. intros w. apply serialise_vector_ok. Qed.
Lemma type_emits t : emits (serialise_internal (append_entry_type t)) (le_bytes 1 (entry_type_value t)).
Proof. apply internal_emits. intros w. apply serialise_entry_ok. Qed.

Lemma new_serialiser_ok e tx t flags evidence claims hint :
  new_serialiser e tx t flags evidence claims hint =
  Ok (mkSerialiser (enc_header t (Store.tx_version tx) evidence claims) [] tx t flags e PUBLIC hint).
Proof.
  unfold new_serialiser. set (s0 := mkSerialiser [] [] tx t flags e PUBLIC hint). transitivity (Ok (emit (enc_header t (Store.tx_version tx) evidence claims) s0)); [|done].
  unfold enc_header. apply (emits_bind _ _ _ _ (type_emits t)). apply emits_bind; [apply u64_emits|].
  apply emits_bind; [apply if_emits, digest_emits|]. apply emits_bind; [apply if_emits, digest_emits | apply u64_emits].
Qed.

(** What the loop over one domain appends. *)
Definition with_writers (pub priv : list Z) (d : SecurityDomain) (s : Serialiser) : Serialiser :=
  mkSerialiser pub priv (tx_id s) (entry_type s) (header_flags s) (crypto_util s) d (historical_hint s).

Lemma selected_cons domain c l : selected domain (c :: l) =
  if in_domain domain c then (mc_name c, KvHandle.writes (mc_changes c)) :: selected domain l else selected domain l.
Proof. unfold selected. cbn [List.filter]. by destruct (in_domain domain c). Qed.

Lemma serialise_domain_ok domain l : forall s, (domain = PRIVATE -> is_Some (crypto_util s)) ->
  exists d, serialise_domain domain l s = Ok (match domain with
    | UntypedMap.PUBLIC => with_writers (public_writer s ++ enc_maps (selected domain l)) (private_writer s) d s
    | UntypedMap.PRIVATE => with_writers (public_writer s) (private_writer s ++ enc_maps (selected domain l)) d s
    end).
Proof.
  induction l as [|c l IH]; intros s Hc; cbn [serialise_domain].
  { exists (current_domain s). unfold with_writers. destruct domain, s; cbn; by rewrite app_nil_r. }
  rewrite selected_cons. destruct (in_domain domain c) eqn:E; cbn [mbind result_bind]; [|by apply IH].
  assert (Hd : mc_domain c = domain).
  { unfold in_domain in E. apply andb_true_iff in E as [E _]. apply andb_true_iff in E as [E _]. by destruct (mc_domain c), domain. }
  rewrite Hd, serialise_changes_ok by done. cbn [mbind result_bind].
  destruct (IH (emit (enc_map (mc_name c, KvHandle.writes (mc_changes c))) (set_current_domain domain s))) as [d Hdom].
  { intros H. destruct (Hc H) as [e He]. exists e. unfold emit. subst domain. destruct (mc_domain c); exact He. }
  exists d. rewrite Hdom. unfold enc_maps. rewrite fmap_cons. cbn [concat].
  destruct domain; unfold with_writers, emit; cbn; by rewrite <- app_assoc.
Qed.

Lemma serialise_all_ok l s : is_Some (crypto_util s) ->
  exists d, serialise_all l s = Ok (with_writers (public_writer s ++ enc_maps (selected PUBLIC l)) (private_writer s ++ enc_maps (selected PRIVATE l)) d s).
Proof.
  intros Hc. unfold serialise_all. destruct (serialise_domain_ok PUBLIC l s) as [d ->]; [done|]. cbn [mbind result_bind].
  destruct (serialise_domain_ok PRIVATE l (with_writers (public_writer s ++ enc_maps (selected PUBLIC l)) (private_writer s) d s)) as [d' ->]; [done|].
  by exists d'.
Qed.

Lemma length_header_bytes flags size : length (header_bytes flags size) = 8%nat.
Proof. unfold header_bytes. rewrite length_app, length_le_bytes. done. Qed.

Lemma serialise_domains_ok e pub priv s hdr cipher : encryptor_ok e -> crypto_util s = Some e -> bytes_ok priv -> u64 (Store.term (tx_id s)) ->
  encrypt e priv pub (tx_id s) (entry_type s) (historical_hint s) = Ok (Some (hdr, cipher)) ->
  let size := zlen pub + (get_header_length e + 8 + zlen priv) in
  serialise_domains pub priv s = Ok (header_bytes (header_flags s) (size mod 2 ^ 48) ++ hdr ++ le_bytes 8 (zlen pub) ++ pub ++ cipher).
Proof.
  intros [H0 He] Hc Hb Hterm Henc size. destruct (He _ _ _ _ _ _ _ Hb Hterm Henc) as (Hh & Hl & _). unfold serialise_domains. rewrite Hc. fold size.
  set (n := (8 + length hdr + 8 + length pub + length cipher)%nat). replace (size + 8) with (Z.of_nat n) by (unfold size, n; lia).
  set (h := header_bytes _ _). assert (Hlen : length h = 8%nat) by apply length_header_bytes.
  destruct (write_ok [] n _ h (new_writer_written n)) as (w1 & -> & W1); [lia|]. cbn [mbind result_bind]. rewrite Henc. cbn [mbind result_bind].
  destruct (write_ok _ _ _ hdr W1) as (w2 & -> & W2); [lia|]. cbn [mbind result_bind]. unfold write_uint.
  destruct (write_ok _ _ _ (le_bytes 8 (zlen pub)) W2) as (w3 & -> & W3); [rewrite length_le_bytes; lia|]. cbn [mbind result_bind].
  rewrite length_le_bytes in W3. destruct (write_ok _ _ _ pub W3) as (w4 & -> & W4); [lia|]. cbn [mbind result_bind].
  assert (Hw5 : exists w5, (if 0 <? zlen cipher then write cipher w4 else Ok w4) = Ok w5 /\ written ((((([] ++ h) ++ hdr) ++ le_bytes 8 (zlen pub)) ++ pub) ++ cipher) 0 w5).
  { destruct cipher as [|x c].
    - exists w4. split; [done|]. rewrite app_nil_r. by replace (n - _ - _ - 8 - _)%nat with 0%nat in W4 by (unfold n; cbn [length app]; lia).
    - destruct (write_ok _ _ _ (x :: c) W4) as (w5 & E5 & W5); [unfold n; cbn [length app]; lia|].
      destruct (Z.ltb_spec 0 (zlen (x :: c))); [|cbn in *; lia]. rewrite E5. exists w5. split; [done|].
      by replace (n - _ - _ - 8 - _ - _)%nat with 0%nat in W5 by (unfold n; cbn [length app]; lia). }
  destruct Hw5 as (w5 & -> & W5). cbn [mbind result_bind]. rewrite (written_all _ _ W5). cbn [app]. by rewrite <- !app_assoc.
Qed.

Lemma read_entry_type_ok t rest r : rd (le_bytes 1 (entry_type_value t) ++ rest) r ->
  exists r', read_entry_type r = Ok (t, r') /\ rd rest r'.
Proof.
  intros Hr. destruct (read_entry_ok 1 _ rest r Hr) as (r' & E & Hr' & _). exists r'. split; [|done]. unfold read_entry_type. rewrite E.
  by destruct t.
Qed.

Definition new_deserialiser (r : RawReader) (t : EntryType) (v : Z) (evidence claims : list Z) : Deserialiser :=
  mkDeserialiser r (mkReader [] 0 0) false (if has_claims t then Some claims else None) (if has_commit_evidence t then Some evidence else None) v.

Lemma read_public_header_ok t v evidence claims rest r : u64 v -> zlen evidence = 32 -> zlen claims = 32 ->
  rd (enc_header t v evidence claims ++ rest) r ->
  exists r', read_public_header r = Ok (new_deserialiser r' t v evidence claims) /\ rd rest r'.
Proof.
  intros Hv He Hc Hr. unfold enc_header in Hr. rewrite <- !app_assoc in Hr. unfold read_public_header.
  destruct (read_entry_type_ok t _ r Hr) as (r1 & -> & Hr1). cbn [mbind result_bind].
  destruct (read_u64_ok v _ r1 Hv Hr1) as (r2 & -> & Hr2). cbn [mbind result_bind].
  assert (H3 : exists r3, (if has_claims t then '(d, r) ← read_digest r2; Ok (Some d, r) else Ok (None, r2)) =
      Ok (if has_claims t then Some claims else None, r3) /\ rd ((if has_commit_evidence t then evidence else []) ++ le_bytes 8 0 ++ rest) r3).
  { destruct (has_claims t); [|by exists r2]. destruct (read_digest_ok claims _ r2 Hc Hr2) as (r3 & -> & Hr3). by exists r3. }
  destruct H3 as (r3 & -> & Hr3). cbn [mbind result_bind].
  assert (H4 : exists r4, (if has_commit_evidence t then '(d, r) ← read_digest r3; Ok (Some d, r) else Ok (None, r3)) =
      Ok (if has_commit_evidence t then Some evidence else None, r4) /\ rd (le_bytes 8 0 ++ rest) r4).
  { destruct (has_commit_evidence t); [|by exists r3]. destruct (read_digest_ok evidence _ r3 He Hr3) as (r4 & -> & Hr4). by exists r4. }
  destruct H4 as (r4 & -> & Hr4). cbn [mbind result_bind].
  destruct (read_u64_ok 0 _ r4 ltac:(by split) Hr4) as (r5 & -> & Hr5). cbn [mbind result_bind]. by exists r5.
Qed.

Lemma rd_whole l : zlen l < M64 -> rd l (mkReader l 0 (zlen l)).
Proof. intros Hl. exists [], []. cbn. rewrite app_nil_r. split_and!; [done..|lia]. Qed.
Lemma rd_prefix l extra : zlen l < M64 -> rd l (mkReader (l ++ extra) 0 (zlen l)).
Proof. intros Hl. exists [], extra. cbn. split_and!; [done..|lia]. Qed.

(** An entry as [serialise_domains] writes it. *)
Definition entry_bytes (flags : Z) (hdr pub cipher : list Z) : list Z :=
  header_bytes flags (zlen hdr + 8 + zlen pub + zlen cipher) ++ hdr ++ le_bytes 8 (zlen pub) ++ pub ++ cipher.

Lemma init_ok e hint flags t v evidence claims pub_maps plain hdr cipher term :
  let pub := enc_header t v evidence claims ++ pub_maps in
  0 <= get_header_length e -> zlen hdr = get_header_length e -> zlen hdr + 8 + zlen pub + zlen cipher < 2 ^ 48 -> zlen plain < M64 ->
  u64 v -> zlen evidence = 32 -> zlen claims = 32 -> decrypt e cipher pub hdr v hint = Ok (Some plain, term) ->
  exists r, rd pub_maps r /\ init (Some e) false hint (entry_bytes flags hdr pub cipher) =
    Ok (Some (mkDeserialiser r (mkReader plain 0 (zlen plain)) false (if has_claims t then Some claims else None)
                (if has_commit_evidence t then Some evidence else None) v, Some term)).
Proof.
  intros pub H0 Hh Hsize Hp Hv He Hc Hd. unfold init, entry_bytes. set (size := zlen hdr + 8 + zlen pub + zlen cipher) in *.
  set (h := header_bytes flags size). pose proof (read_app h (hdr ++ le_bytes 8 (zlen pub) ++ pub ++ cipher)) as Hread.
  unfold h in Hread at 1. rewrite length_header_bytes in Hread. change (Z.of_nat 8) with 8 in Hread. rewrite Hread. cbn [mbind result_bind].
  assert (Hsz : le_val (drop 2 h) = size).
  { change (drop 2 h) with (le_bytes 6 size). rewrite le_val_le_bytes. change (256 ^ Z.of_nat 6) with (2 ^ 48). apply Z.mod_small. lia. }
  rewrite Hsz. replace (zlen (hdr ++ le_bytes 8 (zlen pub) ++ pub ++ cipher)) with size
    by (unfold size; rewrite !length_app, length_le_bytes; lia). rewrite Z.eqb_refl. cbn [negb].
  rewrite bool_decide_eq_true_2 by done. cbn [negb]. rewrite <- Hh. rewrite skip_app. cbn [mbind result_bind].
  rewrite read_u64_app by (split; unfold M64; lia). cbn [mbind result_bind].
  destruct (read_public_header_ok t v evidence claims pub_maps (mkReader (pub ++ cipher) 0 (zlen pub)) Hv He Hc) as (r & Er & Hr).
  { apply (rd_prefix pub cipher). unfold M64. lia. }
  rewrite Er. cbn [mbind result_bind]. exists r. split; [done|]. rewrite skip_app. cbn [mbind result_bind d_version new_deserialiser].
  rewrite !ztake_app_length, Hd. done.
Qed.

(** *** The loop over the maps *)

Lemma is_eos_rd rest r : rd rest r -> is_eos r = match rest with [] => true | _ :: _ => false end.
Proof.
  intros Hr. destruct (rd_bounds _ _ Hr) as (_ & Hs & _). unfold is_eos. destruct rest; [|].
  - apply Z.leb_le. cbn in Hs. lia.
  - apply Z.leb_gt. cbn [length] in Hs. lia.
Qed.

Lemma read_string_ok b rest r : rd (enc_bytes b ++ rest) r -> exists r', read_string r = Ok (b, r') /\ rd rest r'.
Proof. apply read_bytes_ok. Qed.

Lemma next_map_ok d0 n rest d : at_rest d0 (enc_bytes n ++ rest) d ->
  exists d', next_map d = Ok (Some n, d') /\ at_rest d0 rest d'.
Proof.
  intros (r & -> & Hr). unfold next_map. rewrite current_set_reader, (is_eos_rd _ _ Hr).
  destruct (enc_bytes n ++ rest) eqn:E; [by apply app_eq_nil in E as [[? _]%app_eq_nil _]|]. rewrite <- E in Hr.
  destruct (read_string_ok n rest r Hr) as (r' & -> & Hr'). cbn [mbind result_bind]. rewrite set_reader_idem. eexists. split; [done|]. by exists r'.
Qed.

Definition enc_all {W} (enc : W -> list Z) (l : list (K * W)) : list Z := concat ((fun m => enc_bytes m.1 ++ enc m.2) <$> l).

Section loop.
(** What follows the name of a map is written with [enc]. *)
Context {A W : Type} (enc : W -> list Z) (body : K -> Deserialiser -> A -> result (option (Deserialiser * A))) (maps : list (K * W)) (Inv : list (K * W) -> A -> Prop).
(** The body reads what belongs to its map and keeps the invariant. *)
Hypothesis Hbody : forall done m todo a d0 rest d, maps = done ++ m :: todo -> Inv done a -> at_rest d0 (enc m.2 ++ rest) d ->
  exists d' a', body m.1 d a = Ok (Some (d', a')) /\ at_rest d0 rest d' /\ Inv (done ++ [m]) a'.

Lemma read_maps_domain l : forall done todo fuel d0 a d, maps = done ++ l ++ todo -> Inv done a -> at_rest d0 (enc_all enc l) d ->
  exists d' a', read_maps body (length l + fuel) d a = read_maps body fuel d' a' /\ at_rest d0 [] d' /\ Inv (done ++ l) a'.
Proof.
  induction l as [|m l IH]; intros done todo fuel d0 a d Hm Ha Hd; [exists d, a; by rewrite app_nil_r|].
  unfold enc_all in Hd. rewrite fmap_cons in Hd. cbn [concat] in Hd. rewrite <- app_assoc in Hd.
  destruct (next_map_ok _ _ _ _ Hd) as (d1 & E1 & Hd1). cbn [length Nat.add read_maps]. rewrite E1.
  destruct (Hbody done m (l ++ todo) a d0 _ d1 Hm Ha Hd1) as (d2 & a2 & E2 & Hd2 & Ha2). rewrite E2.
  destruct (IH (done ++ [m]) todo fuel d0 a2 d2) as (d3 & a3 & E3 & Hd3 & Ha3); [by rewrite <- app_assoc | done | done|].
  exists d3, a3. by rewrite <- app_assoc in Ha3.
Qed.

(** The whole loop: the public maps, then the private ones. *)
Lemma read_maps_ok pub priv d a fuel : maps = pub ++ priv -> Inv [] a -> on_private d = false ->
  rd (enc_all enc pub) (public_reader d) -> rd (enc_all enc priv) (private_reader d) -> (length maps < fuel)%nat ->
  exists d' a', read_maps body fuel d a = Some (Ok (Some (d', a'))) /\ Inv maps a' /\ end_ d' = true.
Proof.
  intros Hm Ha Hop Hpub Hpriv Hfuel.
  assert (Hd : at_rest d (enc_all enc pub) d) by (exists (public_reader d); split; [destruct d as [? ? [] ? ? ?]; done | done]).
  replace fuel with (length pub + (fuel - length pub))%nat by (rewrite Hm, length_app in Hfuel; lia).
  destruct (read_maps_domain pub [] priv (fuel - length pub) d a d Hm Ha Hd) as (d1 & a1 & -> & (r1 & -> & Hr1) & Ha1). cbn [app] in Ha1.
  set (d1 := set_reader r1 d). assert (Hr1' : is_eos r1 = true) by (by rewrite (is_eos_rd _ _ Hr1)).
  assert (Hd1 : current_reader d1 = r1 /\ on_private d1 = false /\ private_reader d1 = private_reader d /\ public_reader d1 = r1)
    by (unfold d1, set_reader, current_reader; rewrite Hop; done).
  destruct Hd1 as (Hcur & Hop1 & Hpr1 & Hpb1). destruct priv as [|m priv].
  - replace (fuel - length pub)%nat with (S (fuel - length pub - 1)) by (rewrite Hm, length_app in Hfuel; lia). cbn [read_maps]. unfold next_map.
    rewrite Hcur, Hr1', Hop1, Hpr1, (is_eos_rd _ _ Hpriv). cbn. exists d1, a1. rewrite app_nil_r in Hm. subst maps. split_and!; [done..|].
    unfold end_. by rewrite Hcur, Hpb1, Hr1'.
  - set (dp := mkDeserialiser (public_reader d1) (private_reader d1) true (d_claims d1) (d_evidence d1) (d_version d1)).
    assert (Hdp : at_rest dp (enc_all enc (m :: priv)) dp) by (exists (private_reader d); split; [unfold dp, set_reader; cbn; by rewrite Hpr1 | done]).
    assert (Hne : is_eos (private_reader d) = false) by (rewrite (is_eos_rd _ _ Hpriv); unfold enc_all, enc_bytes; rewrite fmap_cons; cbn [concat];
      destruct (le_bytes 8 (zlen m.1)) eqn:El; [pose proof (length_le_bytes 8 (zlen m.1)) as Hl; by rewrite El in Hl | done]).
    assert (Hnext : next_map d1 = next_map dp).
    { unfold next_map. rewrite Hcur, Hr1', Hop1, Hpr1, Hne. cbn [negb andb]. change (current_reader dp) with (private_reader d1). rewrite Hpr1, Hne. done. }
    assert (Hstep : read_maps body (fuel - length pub) d1 a1 = read_maps body (fuel - length pub) dp a1).
    { destruct (fuel - length pub)%nat; [done|]. cbn [read_maps]. by rewrite Hnext. }
    rewrite Hstep. replace (fuel - length pub)%nat with (length (m :: priv) + S (fuel - length pub - length (m :: priv) - 1))%nat
      by (rewrite Hm, length_app in Hfuel; lia).
    destruct (read_maps_domain (m :: priv) pub [] (S (fuel - length pub - length (m :: priv) - 1)) dp a1 dp) as (d2 & a2 & -> & (r2 & -> & Hr2) & Ha2);
      [by rewrite app_nil_r | done | done|]. cbn [read_maps]. unfold next_map. rewrite current_set_reader, (is_eos_rd _ _ Hr2).
    cbn. exists (set_reader r2 dp), a2. rewrite <- Hm in Ha2. split_and!; [done..|]. unfold end_. rewrite current_set_reader, (is_eos_rd _ _ Hr2).
    cbn [andb]. unfold set_reader. cbn. by rewrite Hpb1.
Qed.

End loop.

(** *** Well-formed transactions *)

Definition mc_ok (c : MapChange) : Prop :=
  bytes_ok (mc_name c) /\ KvHandle.sorted (KvHandle.writes (mc_changes c)) /\
  Forall (fun e => bytes_ok e.1 /\ match e.2 with Some v => bytes_ok v | None => True end) (KvHandle.writes (mc_changes c)).

Lemma enc_bytes_ok b : bytes_ok b -> bytes_ok (enc_bytes b).
Proof. intros Hb. apply Forall_app. split; [apply le_bytes_ok | done]. Qed.
Lemma concat_bytes_ok {A} (f : A -> list Z) l : Forall (fun a => bytes_ok (f a)) l -> bytes_ok (concat (f <$> l)).
Proof. induction 1 as [|a l Ha _ IH]; [constructor|]. rewrite fmap_cons. apply Forall_app. by split. Qed.

Lemma enc_maps_ok domain l : Forall mc_ok l -> bytes_ok (enc_maps (selected domain l)).
Proof.
  intros Hl. apply concat_bytes_ok. unfold selected. apply Forall_fmap. apply Forall_forall. intros c Hc. apply list_elem_of_In in Hc.
  apply List.filter_In in Hc as [Hc _]. apply list_elem_of_In in Hc. rewrite Forall_forall in Hl. destruct (Hl c Hc) as (Hn & _ & Hw).
  unfold compose, enc_map, enc_writes, enc_bytes. cbn [fst snd]. unfold bytes_ok. rewrite !Forall_app. split_and!; try apply le_bytes_ok; try done.
  - apply concat_bytes_ok. eapply Forall_impl; [exact Hw|]. intros [k [v|]] [Hk Hv]; [|constructor]. apply Forall_app. split; by apply enc_bytes_ok.
  - apply concat_bytes_ok. eapply Forall_impl; [exact Hw|]. intros [k [v|]] [Hk Hv]; [constructor|]. by apply enc_bytes_ok.
Qed.

Lemma enc_all_length {W} (enc : W -> list Z) l : (length l <= length (enc_all enc l))%nat.
Proof.
  induction l as [|m l IH]; [done|]. unfold enc_all in *. rewrite fmap_cons. cbn [concat length]. rewrite length_app.
  unfold enc_bytes at 1. rewrite !length_app, length_le_bytes. lia.
Qed.

Lemma enc_write_length w : zlen w <= zlen (concat (enc_write <$> w)) + zlen (concat (enc_remove <$> w)).
Proof.
  induction w as [|[k [v|]] w IH]; [done| |]; rewrite !fmap_cons; cbn [concat length]; unfold enc_write at 1, enc_remove at 1; cbn [fst snd app];
    rewrite !length_app; unfold enc_bytes; rewrite !length_app, !length_le_bytes; lia.
Qed.

Lemma enc_maps_elem m l : m ∈ l -> zlen m.2 <= zlen (enc_maps l).
Proof.
  induction 1 as [m l|m m' l _ IH]; unfold enc_maps in *; rewrite fmap_cons; cbn [concat]; rewrite length_app.
  - unfold enc_map, enc_writes. rewrite !length_app. pose proof (enc_write_length m.2). lia.
  - lia.
Qed.

Lemma selected_sorted domain l m : Forall mc_ok l -> m ∈ selected domain l -> KvHandle.sorted m.2.
Proof.
  intros Hl (c & -> & Hc)%list_elem_of_fmap. apply list_elem_of_In, List.filter_In in Hc as [Hc _]. apply list_elem_of_In in Hc.
  rewrite Forall_forall in Hl. by destruct (Hl c Hc) as (_ & ? & _).
Qed.

(** The primary's side of an entry. *)
Definition make_entry (e : Encryptor) (tx : TxID) (t : EntryType) (flags : Z) (evidence claims : list Z) (hint : bool) (l : list MapChange) :
  result (list Z) :=
  s ← new_serialiser (Some e) tx t flags evidence claims hint;
  s ← serialise_all l s;
  get_raw_data s.

Definition entry_size (e : Encryptor) (t : EntryType) (v : Z) (evidence claims : list Z) (l : list MapChange) : Z :=
  get_header_length e + 8 + (zlen (enc_header t v evidence claims) + zlen (enc_maps (selected PUBLIC l))) + zlen (enc_maps (selected PRIVATE l)).

(** What a transaction becomes, and what [init] makes of it. *)
(** The tables of an entry are in one domain each. *)
Lemma entry_size_le e t v evidence claims l : entry_size e t v evidence claims l <=
  get_header_length e + 8 + zlen (enc_header t v evidence claims) +
  Z.of_nat (sum_list_with (fun c => length (enc_map (mc_name c, KvHandle.writes (mc_changes c)))) l).
Proof.
  unfold entry_size. enough (length (enc_maps (selected PUBLIC l)) + length (enc_maps (selected PRIVATE l)) <=
    sum_list_with (fun c => length (enc_map (mc_name c, KvHandle.writes (mc_changes c)))) l)%nat by lia.
  induction l as [|c l IH]; [done|]. rewrite !selected_cons. cbn [sum_list_with]. unfold in_domain.
  destruct (mc_domain c); cbn [same_domain andb]; destruct (mc_replicated c && _); unfold enc_maps in *;
    rewrite ?fmap_cons; cbn [concat]; rewrite ?length_app; lia.
Qed.

Lemma make_entry_init e tx t flags evidence claims hint l : encryptor_ok e -> Forall mc_ok l ->
  t <> Snapshot ->
  (forall plain aad, exists hc, encrypt e plain aad tx t hint = Ok (Some hc)) -> u64 (Store.tx_version tx) -> u64 (Store.term tx) -> zlen evidence = 32 -> zlen claims = 32 ->
  entry_size e t (Store.tx_version tx) evidence claims l < 2 ^ 48 ->
  exists data d, make_entry e tx t flags evidence claims hint l = Ok data /\
    (length (selected PUBLIC l ++ selected PRIVATE l) < S (length data))%nat /\
    init (Some e) false hint data = Ok (Some (d, Some (Store.term tx))) /\
    d_version d = Store.tx_version tx /\ d_claims d = (if has_claims t then Some claims else None) /\
    d_evidence d = (if has_commit_evidence t then Some evidence else None) /\ on_private d = false /\
    rd (enc_maps (selected PUBLIC l)) (public_reader d) /\ rd (enc_maps (selected PRIVATE l)) (private_reader d).
Proof.
  intros He Hl Ht Henc Hv Htu Hev Hcl Hsize. pose proof He as [H0 Hrt]. unfold make_entry. rewrite new_serialiser_ok. cbn [mbind result_bind].
  set (s0 := mkSerialiser _ _ _ _ _ _ _ _). destruct (serialise_all_ok l s0) as [dom ->]; [by exists e|]. cbn [mbind result_bind].
  unfold get_raw_data. cbn [public_writer private_writer with_writers s0 app].
  set (h := enc_header t (Store.tx_version tx) evidence claims) in *. set (pubm := enc_maps (selected PUBLIC l)) in *. set (priv := enc_maps (selected PRIVATE l)) in *.
  assert (Hpriv : bytes_ok priv) by (by apply enc_maps_ok). destruct (Henc priv (h ++ pubm)) as [[hdr cipher] Ee].
  destruct (Hrt _ _ _ _ _ _ _ Hpriv Htu Ee) as (Hh & Hlc & Hdec & _).
  destruct (Hdec Ht) as [_ Hdec'].
  rewrite (serialise_domains_ok e (h ++ pubm) priv _ hdr cipher He); [|done|done|done|exact Ee]. cbn [header_flags with_writers s0].
  set (n := zlen (h ++ pubm) + (get_header_length e + 8 + zlen priv)).
  assert (Hn : n mod 2 ^ 48 = zlen hdr + 8 + zlen (h ++ pubm) + zlen cipher).
  { unfold entry_size in Hsize. fold h pubm priv in Hsize. unfold n. rewrite Z.mod_small by (rewrite length_app; lia). lia. }
  rewrite Hn. fold (entry_bytes flags hdr (h ++ pubm) cipher).
  destruct (init_ok e hint flags t (Store.tx_version tx) evidence claims pubm priv hdr cipher (Store.term tx)) as (r & Hr & Ei); try done.
  { fold h. unfold entry_size in Hsize. fold h pubm priv in Hsize. rewrite length_app. lia. }
  { unfold entry_size in Hsize. fold h pubm priv in Hsize. unfold M64. lia. }
  eexists _, _. split; [done|]. split.
  { unfold entry_bytes. rewrite !length_app. pose proof (enc_all_length enc_writes (selected PUBLIC l) : (_ <= length (enc_maps _))%nat) as L1. pose proof (enc_all_length enc_writes (selected PRIVATE l) : (_ <= length (enc_maps _))%nat) as L2.
    fold pubm in L1. fold priv in L2. lia. }
  split; [exact Ei|]. cbn. split_and!; [done..|]. apply rd_whole. unfold entry_size in Hsize. fold h pubm priv in Hsize. unfold M64. lia.
Qed.

(** *** Theorems *)

(** A backup that collects the write sets of an entry. *)
Definition collect (n : K) (d : Deserialiser) (acc : list (K * Write)) : result (option (Deserialiser * list (K * Write))) :=
  '(cs, d) ← deserialise_internal (UntypedMap.ex_writes []) d;
  Ok (Some (d, acc ++ [(n, KvHandle.writes cs)])).

(** C12. A ledger entry is read back as it was written: version, term, claims and
    commit evidence, and for every replicated map with writes its name and its
    write set, the public maps before the private ones, with nothing left over.
    The encryptor decrypts what it encrypted and has a key for the version; the
    entry fits the 48 bits of its size field. *)
Theorem entry_roundtrip e tx t flags evidence claims hint l :
  encryptor_ok e -> Forall mc_ok l -> t <> Snapshot -> (forall plain aad, exists hc, encrypt e plain aad tx t hint = Ok (Some hc)) ->
  u64 (Store.tx_version tx) -> u64 (Store.term tx) -> zlen evidence = 32 -> zlen claims = 32 ->
  entry_size e t (Store.tx_version tx) evidence claims l < 2 ^ 48 ->
  exists data d d', make_entry e tx t flags evidence claims hint l = Ok data /\
    init (Some e) false hint data = Ok (Some (d, Some (Store.term tx))) /\
    d_version d = Store.tx_version tx /\ d_claims d = (if has_claims t then Some claims else None) /\
    d_evidence d = (if has_commit_evidence t then Some evidence else None) /\
    read_maps collect (S (length data)) d [] = Some (Ok (Some (d', selected PUBLIC l ++ selected PRIVATE l))) /\ end_ d' = true.
Proof.
  intros He Hl Ht Henc Hv Htu Hev Hcl Hsize.
  destruct (make_entry_init e tx t flags evidence claims hint l He Hl Ht Henc Hv Htu Hev Hcl Hsize) as (data & d & E & Hlen & Ei & H1 & H2 & H3 & H4 & H5 & H6).
  set (maps := selected PUBLIC l ++ selected PRIVATE l) in *.
  destruct (read_maps_ok enc_writes collect maps (fun done acc => acc = done)) with (pub := selected PUBLIC l) (priv := selected PRIVATE l) (d := d) (a := @nil (K * Write)) (fuel := S (length data))
    as (d' & acc & Er & -> & Hend); [|done|done|done|done|done|done|].
  - intros done m todo acc d0 rest d1 Hm -> Hd1. unfold collect.
    assert (Hin : m ∈ maps) by (rewrite Hm; apply elem_of_app; right; by left).
    assert (Hm2 : KvHandle.sorted m.2 /\ zlen m.2 < M64).
    { unfold maps in Hin. apply elem_of_app in Hin as Hin'. unfold entry_size in Hsize. destruct Hin' as [Hi|Hi];
        (split; [by apply (selected_sorted _ _ _ Hl Hi)|]; pose proof (enc_maps_elem _ _ Hi); destruct He as [? _]; unfold M64; lia). }
    destruct (deserialise_internal_ok d0 rest m.2 (UntypedMap.ex_writes []) d1 (proj1 Hm2) (proj2 Hm2) eq_refl Hd1) as (d2 & -> & Hd2).
    cbn [mbind result_bind]. eexists _, _. split_and!; [done | done |]. by destruct m.
  - exists data, d, d'. by split_and!.
Qed.

(** The bound check of a length-prefixed entry compares with what was left
    before the length was read, so a reader can return eight bytes that lie
    behind its data, and a digest is read without any check. *)
Theorem reader_overreads behind :
  zlen behind = 8 ->
  read_bytes (mkReader (le_bytes 8 8 ++ behind) 0 8) = Ok (behind, mkReader (le_bytes 8 8 ++ behind) 16 8) /\
  read_bytes (mkReader (le_bytes 8 8) 0 8) = Undef /\
  read_bytes (mkReader (le_bytes 8 9 ++ behind) 0 8) = Throw RuntimeError /\
  read_digest (mkReader (le_bytes 8 8) 0 8) = Undef.
Proof.
  intros Hb. do 9 (destruct behind as [|? behind]; [cbn in Hb; lia || (split_and!; vm_compute; reflexivity)|]). cbn in Hb. lia.
Qed.

(** ** Examples *)

(** An encryptor that only records the term, as the sources' tests have one. *)
Definition null_encryptor : Encryptor := {|
  get_header_length := 8;
  encrypt := fun plain _ tx _ _ => Ok (Some (le_bytes 8 (Store.term tx), plain));
  decrypt := fun cipher _ hdr _ _ => Ok (Some cipher, le_val hdr);
  get_term := fun hdr => Ok (le_val hdr)
|}.
Lemma null_encryptor_ok : encryptor_ok null_encryptor.
Proof.
  split; [done|]. intros plain aad tx t hint hdr cipher _ Hterm [= <- <-]. cbn [get_header_length get_term decrypt null_encryptor].
  rewrite length_le_bytes, le_val_u64 by done. split_and!; [done..|]. by eexists.
Qed.

Definition ex_tx : list MapChange :=
  [mkMapChange [97] PUBLIC true (UntypedMap.ex_writes [([1], Some [10; 11]); ([2], None)]);
   mkMapChange [98] PRIVATE true (UntypedMap.ex_writes [([3], Some [])]);
   mkMapChange [99] PUBLIC false (UntypedMap.ex_writes [([4], None)]);
   mkMapChange [100] PUBLIC true (UntypedMap.ex_writes [])].

Lemma entry_roundtrip_witness :
  exists data d d', make_entry null_encryptor (Store.mkTxID 3 7) WriteSetWithCommitEvidenceAndClaims 0 (zeros 32) (replicate 32 1) false ex_tx = Ok data /\
    init (Some null_encryptor) false false data = Ok (Some (d, Some 3)) /\ d_version d = 7 /\
    read_maps collect (S (length data)) d [] = Some (Ok (Some (d', [([97], [([1], Some [10; 11]); ([2], None)]); ([98], [([3], Some [])])]))) /\ end_ d' = true.
Proof.
  destruct (entry_roundtrip null_encryptor (Store.mkTxID 3 7) WriteSetWithCommitEvidenceAndClaims 0 (zeros 32) (replicate 32 1) false ex_tx)
    as (data & d & d' & H1 & H2 & H3 & _ & _ & H4 & H5).
  - apply null_encryptor_ok.
  - repeat constructor; vm_compute; congruence.
  - discriminate.
  - intros plain aad. eexists. reflexivity.
  - vm_compute. split; congruence.
  - vm_compute. split; congruence.
  - reflexivity.
  - reflexivity.
  - vm_compute. reflexivity.
  - exists data, d, d'. split; [exact H1|]. split; [exact H2|]. split; [exact H3|]. split; [exact H4 | exact H5].
Defined.

Lemma reader_overreads_witness :
  read_bytes (mkReader (le_bytes 8 8 ++ [1; 2; 3; 4; 5; 6; 7; 8]) 0 8) = Ok ([1; 2; 3; 4; 5; 6; 7; 8], mkReader (le_bytes 8 8 ++ [1; 2; 3; 4; 5; 6; 7; 8]) 16 8).
Proof. apply (reader_overreads [1; 2; 3; 4; 5; 6; 7; 8]). reflexivity. Defined.

End KvSerial.
