(* ===== verification/Encryptor.v ===== *)
(** * Ledger secrets and the encryptor of ledger entries

    Model of CCF/src/kv/encryptor.h, src/node/encryptor.h and
    src/node/ledger_secrets.h: the IV of an entry, its GCM header, the choice of
    the key for a version with the iterator that follows it, and the methods of
    [NodeEncryptor], which implement the interface that KvSerial.v relies on.

    AES-GCM with additional data is OpenSSL's: [Aead] is its interface and
    [AeadLaws] what the code relies on.  The ledger secrets are a std::map from
    the version from which a secret is used; the iterator to the last used one
    is the version that it points to.

    Main results: [iv_unique], [secrets_in_order] and [node_encryptor_ok]. *)
From S2P Require Import Prelude Serialized Cipher KvHandle UntypedMap Store KvSerial.
From stdpp Require Import list gmap sorting.
Local Open Scope Z_scope.

(** ** AES-GCM with additional data *)

(** [aead_encrypt key iv plain aad] is the ciphertext and the tag;
    [aead_decrypt key iv tag cipher aad] the plaintext. *)
Class Aead := {
  aead_encrypt : list Z -> list Z -> list Z -> list Z -> list Z * list Z;
  aead_decrypt : list Z -> list Z -> list Z -> list Z -> list Z -> option (list Z)
}.
Class AeadLaws `{Aead} := {
  aead_roundtrip key iv plain aad c t : bytes_ok plain -> aead_encrypt key iv plain aad = (c, t) -> aead_decrypt key iv t c aad = Some plain;
  aead_length key iv plain aad c t : aead_encrypt key iv plain aad = (c, t) -> length c = length plain /\ length t = 16%nat
}.

Module Encryptor.
Import Serialized.

(** ** TxGcmHeader *)

Definition set_iv_seq (seq : Z) (iv : list Z) : list Z := zwrite 0 (le_bytes 8 seq) iv.
Definition set_iv_term (term : Z) (iv : list Z) : result (list Z) :=
  if 2 ^ 31 - 1 <? term then Throw LogicError else Ok (zwrite 8 (le_bytes 4 term) iv).
Definition set_iv_is_snapshot (iv : list Z) : list Z := alter (fun b => Z.lor b 128) 11%nat iv.
Definition iv_get_term (iv : list Z) : Z := le_val (take 4 (drop 8 iv)).

(** [TxEncryptor::set_iv] on a fresh header. *)
Definition set_iv (tx_id : Store.TxID) (entry_type : KvSerial.EntryType) : result (list Z) :=
  let iv := set_iv_seq (Store.tx_version tx_id) (zeros 12) in
  iv ← set_iv_term (Store.term tx_id) iv;
  Ok (match entry_type with KvSerial.Snapshot => set_iv_is_snapshot iv | _ => iv end).

Definition hdr_serialise (h : Cipher.GcmHeader) : result (list Z) :=
  w ← write (Cipher.tag h) (new_writer Cipher.hdr_serialised_size);
  w ← write (Cipher.iv h) w;
  Ok (buf w).

(** ** LedgerSecrets *)

Record Secret := mkSecret { raw_key : list Z; previous_secret_stored_version : option Z }.
Record LedgerSecrets := mkSecrets {
  ledger_secrets : list (Z * Secret);
  initial_latest_ledger_secret_version : Z;
  last_used_secret_it : option Z
}.

Fixpoint find_secret (v : Z) (l : list (Z * Secret)) : option Secret :=
  match l with [] => None | (k, s) :: l => if v =? k then Some s else find_secret v l end.
(** [emplace] keeps the order and an entry that is there. *)
Fixpoint emplace (v : Z) (x : Secret) (l : list (Z * Secret)) : list (Z * Secret) :=
  match l with
  | [] => [(v, x)]
  | (k, s) :: l' => if v =? k then l else if v <? k then (v, x) :: l else (k, s) :: emplace v x l'
  end.
(** The entry after an iterator. *)
Fixpoint next_secret (v : Z) (l : list (Z * Secret)) : option (Z * Secret) :=
  match l with [] => None | (k, s) :: l => if v =? k then head l else next_secret v l end.
(** [std::prev(std::upper_bound(...))] *)
Fixpoint upper_prev (v : Z) (l : list (Z * Secret)) : option (Z * Secret) :=
  match l with
  | [] => None
  | (k, s) :: l => if v <? k then None else match upper_prev v l with Some e => Some e | None => Some (k, s) end
  end.

Definition set_last (it : option Z) (s : LedgerSecrets) : LedgerSecrets :=
  mkSecrets (ledger_secrets s) (initial_latest_ledger_secret_version s) it.
Definition set_map (l : list (Z * Secret)) (s : LedgerSecrets) : LedgerSecrets :=
  mkSecrets l (initial_latest_ledger_secret_version s) (last_used_secret_it s).

Definition get_secret_for_version (version : Z) (historical_hint : bool) (s : LedgerSecrets) : result (LedgerSecrets * option Secret) :=
  match ledger_secrets s with
  | [] => Ok (s, None)
  | _ :: _ =>
      match (if historical_hint then None else last_used_secret_it s) with
      | Some it =>
          let it := match next_secret it (ledger_secrets s) with
                    | Some (k, _) => if k <=? version then k else it
                    | None => it
                    end in
          match find_secret it (ledger_secrets s) with
          | Some x => Ok (set_last (Some it) s, Some x)
          | None => Undef
          end
      | None =>
          match upper_prev version (ledger_secrets s) with
          | None => Ok (s, None)
          | Some (k, x) => Ok (if historical_hint then s else set_last (Some k) s, Some x)
          end
      end
  end.

Definition init (initial_version : Z) (secret : Secret) (s : LedgerSecrets) : LedgerSecrets :=
  mkSecrets (emplace initial_version secret (ledger_secrets s)) initial_version (last_used_secret_it s).
(** The map may not be empty. *)
Definition init_from_map (l : list (Z * Secret)) (s : LedgerSecrets) : result LedgerSecrets :=
  match last l with Some (k, _) => Ok (mkSecrets l k (last_used_secret_it s)) | None => Undef end.
Definition adjust_previous_secret_stored_version (version : Z) (s : LedgerSecrets) : result LedgerSecrets :=
  match last (ledger_secrets s) with
  | None => Throw LogicError
  | Some (k, x) => Ok (set_map (take (length (ledger_secrets s) - 1) (ledger_secrets s) ++ [(k, mkSecret (raw_key x) (Some version))]) s)
  end.
Definition get_first (s : LedgerSecrets) : result (Z * Secret) :=
  match head (ledger_secrets s) with Some e => Ok e | None => Throw LogicError end.
Definition get_latest (s : LedgerSecrets) : result (Z * Secret) :=
  match last (ledger_secrets s) with Some e => Ok e | None => Throw LogicError end.
Definition set_secret (version : Z) (secret : Secret) (s : LedgerSecrets) : LedgerSecrets :=
  set_map (emplace version secret (ledger_secrets s)) s.
Definition restore_historical (restored : list (Z * Secret)) (s : LedgerSecrets) : result LedgerSecrets :=
  match head (ledger_secrets s), last restored with
  | Some (first, _), Some (last_restored, _) =>
      if first <=? last_restored then Throw LogicError else Ok (set_map (restored ++ ledger_secrets s) s)
  | _, _ => Ok (set_map (restored ++ ledger_secrets s) s)
  end.

(** Erase from the back, the map in reverse. *)
Fixpoint erase_back (version initial : Z) (rev : list (Z * Secret)) : list (Z * Secret) :=
  match rev with
  | (k, x) :: ((_ :: _) as rest) =>
      if (k <=? version) || (k <=? initial) then rev else erase_back version initial rest
  | _ => rev
  end.
Definition rollback (version : Z) (s : LedgerSecrets) : LedgerSecrets :=
  match ledger_secrets s with
  | [] => s
  | (first, _) :: _ =>
      if version <? first then s
      else
        mkSecrets (reverse (erase_back version (initial_latest_ledger_secret_version s) (reverse (ledger_secrets s))))
          (initial_latest_ledger_secret_version s) None
  end.

(** ** TxEncryptor *)

Section encryptor.
Context `{A : Aead}.

Definition get_encryption_key_for (version : Z) (historical_hint : bool) (s : LedgerSecrets) : result (LedgerSecrets * option (list Z)) :=
  '(s, x) ← get_secret_for_version version historical_hint s; Ok (s, option_map raw_key x).

(** The methods of the encryptor on the secrets of its node, which they share with the rest of
    the node and whose iterator they move.  [encrypt] gives the header and the cipher. *)
Definition encrypt (plain aad : list Z) (tx_id : Store.TxID) (entry_type : KvSerial.EntryType) (historical_hint : bool) (s : LedgerSecrets) :
    result (LedgerSecrets * option (list Z * list Z)) :=
  iv ← set_iv tx_id entry_type;
  '(s, key) ← get_encryption_key_for (Store.tx_version tx_id) historical_hint s;
  match key with
  | None => Ok (s, None)
  | Some key =>
      let '(cipher, tag) := aead_encrypt key iv plain aad in
      hdr ← hdr_serialise (Cipher.mkHdr tag iv);
      Ok (s, Some (hdr, cipher))
  end.
(** The plaintext and the term. *)
Definition decrypt (cipher aad serialised_header : list Z) (version : Z) (historical_hint : bool) (s : LedgerSecrets) : result (LedgerSecrets * (option (list Z) * Z)) :=
  '(hdr, _) ← Cipher.hdr_deserialise serialised_header;
  let term := iv_get_term (Cipher.iv hdr) in
  '(s, key) ← get_encryption_key_for version historical_hint s;
  match key with
  | None => Ok (s, (None, term))
  | Some key => Ok (s, (aead_decrypt key (Cipher.iv hdr) (Cipher.tag hdr) cipher aad, term))
  end.
Definition get_term (data : list Z) : result Z := '(hdr, _) ← Cipher.hdr_deserialise data; Ok (iv_get_term (Cipher.iv hdr)).

(** The encryptor as KvSerial.v calls it, for the calls that are made with the secrets [s]. *)
Definition encryptor_at (s : LedgerSecrets) : KvSerial.Encryptor := {|
  KvSerial.get_header_length := Cipher.hdr_serialised_size;
  KvSerial.encrypt := fun plain aad tx_id entry_type hint => '(_, r) ← encrypt plain aad tx_id entry_type hint s; Ok r;
  KvSerial.decrypt := fun cipher aad hdr version hint => '(_, r) ← decrypt cipher aad hdr version hint s; Ok r;
  KvSerial.get_term := get_term |}.

End encryptor.

(** ** Specification *)

Definition secrets_sorted (l : list (Z * Secret)) : Prop := StronglySorted (fun a b => a.1 < b.1) l.

(** What happens to the secrets of a store that uses versions in order: the next
    version, a new secret for later versions, a rollback that stays above the
    first secret.  [cur] is the last version that was used. *)
Inductive event := Use | Rekey (version : Z) (secret : Secret) | Rollback (version : Z).
Definition event_ok (cur : Z) (s : LedgerSecrets) (e : event) : Prop :=
  match e with
  | Use => True
  | Rekey v _ => cur < v
  | Rollback v => match head (ledger_secrets s) with Some (k, _) => k <= v | None => True end
  end.
(** The last used version and the secrets after an event, and what was found. *)
Definition do_event (e : event) (cur : Z) (s : LedgerSecrets) : result (Z * LedgerSecrets * option (option Secret)) :=
  match e with
  | Use => '(s, x) ← get_secret_for_version (cur + 1) false s; Ok (cur + 1, s, Some x)
  | Rekey v x => Ok (cur, set_secret v x s, None)
  | Rollback v => Ok (Z.min cur v, rollback v s, None)
  end.

(** The iterator is where the slow path would put it. *)
Definition pointer_ok (cur : Z) (s : LedgerSecrets) : Prop :=
  match last_used_secret_it s with
  | None => True
  | Some it => exists x, upper_prev cur (ledger_secrets s) = Some (it, x)
  end.

(** Who asks for the secret of a version: with the hint anybody, without it who has used the
    version before it. *)
Definition in_order (version : Z) (historical_hint : bool) (s : LedgerSecrets) : Prop :=
  secrets_sorted (ledger_secrets s) /\ (historical_hint = true \/ pointer_ok (version - 1) s).

(** ** Lemmas *)

(** *** IVs *)

Lemma zwrite_app (a b c : list Z) : length b = length c -> zwrite (zlen a) c (a ++ b) = a ++ c.
Proof.
  intros Hl. unfold zwrite. rewrite Nat2Z.id, list_inserts_spec by (rewrite length_app; lia).
  rewrite take_app_length, drop_ge by (rewrite length_app; lia). by rewrite app_nil_r.
Qed.

Lemma set_iv_seq_term v t : zwrite 8 (le_bytes 4 t) (set_iv_seq v (zeros 12)) = le_bytes 8 v ++ le_bytes 4 t.
Proof.
  assert (H1 : set_iv_seq v (zeros 12) = le_bytes 8 v ++ zeros 4).
  { unfold set_iv_seq, zwrite, zeros. change (Z.to_nat 0) with O. change (Z.to_nat 12) with 12%nat. change (Z.to_nat 4) with 4%nat.
    rewrite list_inserts_spec by (rewrite length_replicate, length_le_bytes; lia). rewrite length_le_bytes. done. }
  rewrite H1. replace 8 with (zlen (le_bytes 8 v)) at 1 by (by rewrite length_le_bytes). apply zwrite_app. by rewrite length_le_bytes.
Qed.

Definition iv_bytes (v t : Z) (snapshot : bool) : list Z :=
  if snapshot then alter (fun b => Z.lor b 128) 11%nat (le_bytes 8 v ++ le_bytes 4 t) else le_bytes 8 v ++ le_bytes 4 t.
Definition is_snapshot (t : KvSerial.EntryType) : bool := match t with KvSerial.Snapshot => true | _ => false end.

Lemma set_iv_fits tx t : Store.term tx < 2 ^ 31 -> set_iv tx t = Ok (iv_bytes (Store.tx_version tx) (Store.term tx) (is_snapshot t)).
Proof.
  intros Ht. unfold set_iv, set_iv_term. destruct (Z.ltb_spec (2 ^ 31 - 1) (Store.term tx)); [lia|]. cbn [mbind result_bind]. rewrite set_iv_seq_term. by destruct t.
Qed.
Lemma set_iv_refused tx t : 2 ^ 31 <= Store.term tx -> set_iv tx t = Throw LogicError.
Proof. intros Ht. unfold set_iv, set_iv_term. by destruct (Z.ltb_spec (2 ^ 31 - 1) (Store.term tx)); [|lia]. Qed.
Lemma set_iv_ok tx t iv : set_iv tx t = Ok iv -> Store.term tx < 2 ^ 31 /\ iv = iv_bytes (Store.tx_version tx) (Store.term tx) (is_snapshot t).
Proof.
  destruct (Z.ltb_spec (Store.term tx) (2 ^ 31)) as [H|H]; [rewrite set_iv_fits by done; intros [= <-]; done|by rewrite set_iv_refused].
Qed.

Lemma length_iv v t b : length (iv_bytes v t b) = 12%nat.
Proof. unfold iv_bytes. destruct b; rewrite ?length_alter, length_app, !length_le_bytes; done. Qed.

Lemma iv_seq v t b : take 8 (iv_bytes v t b) = le_bytes 8 v.
Proof.
  assert (H : take 8 (le_bytes 8 v ++ le_bytes 4 t) = le_bytes 8 v) by (rewrite take_app_le by (rewrite length_le_bytes; lia); by rewrite take_ge by (rewrite length_le_bytes; lia)).
  destruct b; [|exact H]. unfold iv_bytes. rewrite take_alter by lia. exact H.
Qed.

Lemma lor_128 b : 0 <= b < 128 -> Z.lor b 128 = b + 128.
Proof.
  intros Hb. assert (H : forallb (fun b => Z.lor b 128 =? b + 128) (seqZ 0 128) = true) by (vm_compute; reflexivity).
  rewrite forallb_forall in H. apply Z.eqb_eq, H, list_elem_of_In, elem_of_seqZ. lia.
Qed.

Lemma iv_term v t b : 0 <= t < 2 ^ 31 -> iv_get_term (iv_bytes v t b) = t + (if b then 2 ^ 31 else 0).
Proof.
  intros Ht. unfold iv_get_term. assert (Hd : forall x, drop 8 (le_bytes 8 v ++ x) = x) by (intros x; by rewrite drop_app_length' by (by rewrite length_le_bytes)).
  assert (H4 : take 4 (le_bytes 4 t) = le_bytes 4 t) by (apply take_ge; rewrite length_le_bytes; lia).
  destruct b; unfold iv_bytes.
  - rewrite alter_app_r_alt by (rewrite length_le_bytes; lia). rewrite length_le_bytes. change (11 - 8)%nat with 3%nat. rewrite Hd.
    pose proof (le_val_le_bytes 4 t) as Hv. pose proof (le_bytes_ok 4 t) as Hb. pose proof (length_le_bytes 4 t) as Hl.
    destruct (le_bytes 4 t) as [|b0 [|b1 [|b2 [|b3 [|? ?]]]]]; cbn [length] in Hl; try lia. cbn [alter list_alter].
    rewrite Z.mod_small in Hv by (change (256 ^ Z.of_nat 4) with (2 ^ 32); lia). repeat (apply Forall_cons in Hb as [? Hb]). unfold u8 in *.
    cbn [take]. unfold le_val in *. cbn in Hv |- *. rewrite lor_128 by lia. lia.
  - rewrite Hd, H4, le_val_le_bytes, Z.mod_small; [lia|]. change (256 ^ Z.of_nat 4) with (2 ^ 32). lia.
Qed.

(** *** Ledger secrets *)

Lemma upper_prev_in v l k x : upper_prev v l = Some (k, x) -> (k, x) ∈ l /\ k <= v.
Proof.
  induction l as [|[k' x'] l IH]; [done|]. cbn [upper_prev]. destruct (Z.ltb_spec v k'); [done|].
  destruct (upper_prev v l) as [e|] eqn:E.
  - intros [= ->]. destruct (IH eq_refl). split; [by right | done].
  - intros [= <- <-]. split; [by left | done].
Qed.

Lemma sorted_above k x l : secrets_sorted ((k, x) :: l) -> secrets_sorted l /\ forall k' x', (k', x') ∈ l -> k < k'.
Proof.
  intros Hs. apply StronglySorted_inv in Hs as [Hs Hf]. split; [done|]. intros k' x' Hin. rewrite Forall_forall in Hf. by apply (Hf (k', x')).
Qed.

(** One step of the fast path is the slow path. *)
Lemma fast_slow l cur it x : secrets_sorted l -> upper_prev cur l = Some (it, x) ->
  let it' := match next_secret it l with Some (k, _) => if k <=? cur + 1 then k else it | None => it end in
  exists x', upper_prev (cur + 1) l = Some (it', x') /\ find_secret it' l = Some x'.
Proof.
  induction l as [|[k s] l IH]; [done|]. intros Hs. apply sorted_above in Hs as [Hs Hlt]. cbn [upper_prev next_secret find_secret].
  destruct (Z.ltb_spec cur k) as [|Hk]; [done|]. destruct (Z.ltb_spec (cur + 1) k) as [|_]; [lia|].
  destruct (upper_prev cur l) as [e|] eqn:E.
  - intros [= ->]. destruct (upper_prev_in _ _ _ _ E) as [Hin _]. pose proof (Hlt _ _ Hin). destruct (Z.eqb_spec it k); [lia|].
    destruct (IH Hs eq_refl) as (x' & E1 & E2). exists x'. rewrite E1. split; [done|].
    destruct (upper_prev_in _ _ _ _ E1) as [Hin' _]. pose proof (Hlt _ _ Hin'). destruct (Z.eqb_spec (match next_secret it l with Some (k, _) => if k <=? cur + 1 then k else it | None => it end) k); [lia | done].
  - intros [= <- <-]. rewrite Z.eqb_refl. destruct l as [|[k2 s2] l]; cbn [head].
    + exists s. rewrite Z.eqb_refl. done.
    + cbn [upper_prev] in E. destruct (Z.ltb_spec cur k2) as [Hk2|]; [|by destruct (upper_prev cur l)]. cbn [upper_prev].
      destruct (Z.leb_spec k2 (cur + 1)) as [Hle|Hgt]; destruct (Z.ltb_spec (cur + 1) k2) as [Hl2|Hl2]; try lia.
      * apply sorted_above in Hs as [_ Hlt2]. pose proof (Hlt k2 s2 ltac:(by left)).
        assert (upper_prev (cur + 1) l = None) as ->.
        { destruct (upper_prev (cur + 1) l) as [[k3 s3]|] eqn:E3; [|done]. destruct (upper_prev_in _ _ _ _ E3) as [Hin3 Hle3]. specialize (Hlt2 _ _ Hin3). lia. }
        exists s2. split; [done|]. cbn [find_secret]. destruct (Z.eqb_spec k2 k); [lia|]. by rewrite Z.eqb_refl.
      * exists s. by rewrite Z.eqb_refl.
Qed.

Lemma emplace_sorted v x l : secrets_sorted l -> secrets_sorted (emplace v x l) /\ forall k y, (k, y) ∈ emplace v x l -> (k, y) ∈ l \/ k = v.
Proof.
  induction l as [|[k s] l IH]; intros Hs; cbn [emplace].
  - split; [repeat constructor|]. intros k y Hin. apply list_elem_of_singleton in Hin. injection Hin as -> _. by right.
  - pose proof Hs as Hs0. apply sorted_above in Hs as [Hs Hlt]. destruct (Z.eqb_spec v k); [split; [done | by left]|].
    destruct (Z.ltb_spec v k) as [Hvk|Hvk].
    + split.
      * constructor; [done|]. constructor; [done|]. apply Forall_forall. intros [k' y] Hin. cbn. specialize (Hlt _ _ Hin). lia.
      * intros k' y Hin. apply elem_of_cons in Hin as [Hin|Hin]; [injection Hin as -> _; by right | by left].
    + destruct (IH Hs) as [H1 H2]. split.
      * constructor; [done|]. apply Forall_forall. intros [k' y] Hin. cbn. destruct (H2 _ _ Hin) as [Hin'| ->]; [by apply (Hlt k' y) | lia].
      * intros k' y Hin. apply elem_of_cons in Hin as [Hin|Hin]; [left; rewrite Hin; by left|]. destruct (H2 _ _ Hin) as [?| ->]; [left; by right | by right].
Qed.

(** A secret for later versions does not change the slow path. *)
Lemma emplace_upper v x cur l : cur < v -> upper_prev cur (emplace v x l) = upper_prev cur l.
Proof.
  intros Hv. induction l as [|[k s] l IH]; cbn [emplace upper_prev].
  - destruct (Z.ltb_spec cur v); [done | lia].
  - destruct (Z.eqb_spec v k); [done|]. destruct (Z.ltb_spec v k); cbn [upper_prev].
    + destruct (Z.ltb_spec cur v), (Z.ltb_spec cur k); done || lia.
    + destruct (Z.ltb_spec cur k); [done|]. by rewrite IH.
Qed.

Lemma erase_back_suffix v i l : exists pre, l = pre ++ erase_back v i l.
Proof.
  induction l as [|[k x] [|e l] IH]; [by exists []|by exists []|]. cbn [erase_back]. destruct (_ || _); [by exists []|].
  destruct IH as [pre E]. exists ((k, x) :: pre). exact (f_equal (cons (k, x)) E).
Qed.

Lemma rollback_sorted v s : secrets_sorted (ledger_secrets s) -> secrets_sorted (ledger_secrets (rollback v s)).
Proof.
  intros Hs. unfold rollback. destruct (ledger_secrets s) as [|[k x] l] eqn:E; [by rewrite E|]. destruct (v <? k); [by rewrite E|].
  cbn [ledger_secrets]. destruct (erase_back_suffix v (initial_latest_ledger_secret_version s) (reverse ((k, x) :: l))) as [pre Hp].
  set (er := erase_back _ _ _) in *. assert (Hl : (k, x) :: l = reverse er ++ reverse pre) by (rewrite <- reverse_app, <- Hp; by rewrite reverse_involutive).
  rewrite Hl in Hs. by apply StronglySorted_app in Hs as (_ & ? & _).
Qed.

(** *** Theorems *)


(** *** The secret of a version *)

(** Asked in order, the iterator gives the secret that the search would find. *)
Lemma lookup_in_order v hint s : in_order v hint s ->
  exists s', get_secret_for_version v hint s = Ok (s', snd <$> upper_prev v (ledger_secrets s)) /\ ledger_secrets s' = ledger_secrets s /\
    (if hint then s' = s else pointer_ok v s').
Proof.
  intros [Hs Hp]. unfold get_secret_for_version. destruct (ledger_secrets s) as [|e l] eqn:El.
  { exists s. split; [done|]. split; [done|]. destruct hint; [done|]. destruct Hp as [?|Hp]; [done|]. unfold pointer_ok in *. rewrite El in *. destruct (last_used_secret_it s); [by destruct Hp|done]. }
  rewrite <- El in *. clear El. destruct hint.
  - destruct (upper_prev v (ledger_secrets s)) as [[k x]|]; by exists s.
  - destruct Hp as [?|Hp]; [done|]. unfold pointer_ok in Hp. destruct (last_used_secret_it s) as [it|] eqn:Eit.
    + destruct Hp as [x Hp]. destruct (fast_slow _ _ _ _ Hs Hp) as (x' & E1 & E2). rewrite Z.sub_add in E1, E2. rewrite E2.
      eexists. split; [by rewrite E1|]. split; [done|]. unfold pointer_ok. cbn. by exists x'.
    + destruct (upper_prev v (ledger_secrets s)) as [[k x]|] eqn:E; eexists; (split; [done|]); (split; [done|]); unfold pointer_ok; cbn; [by exists x|by rewrite Eit].
Qed.

(** A store that uses versions in order, with new secrets only for later
    versions and rollbacks not below the first secret, always gets the secret
    of the slow path, although it follows an iterator that moves by one. *)
Theorem secrets_in_order e cur s :
  secrets_sorted (ledger_secrets s) -> pointer_ok cur s -> event_ok cur s e ->
  exists cur' s' r, do_event e cur s = Ok (cur', s', r) /\ secrets_sorted (ledger_secrets s') /\ pointer_ok cur' s' /\
    match r with Some x => x = snd <$> upper_prev cur' (ledger_secrets s') | None => True end.
Proof.
  intros Hs Hp He. destruct e as [|v x|v]; cbn [do_event].
  - destruct (lookup_in_order (cur + 1) false s) as (s' & E & El & Hp'); [split; [done|right; by rewrite Z.add_simpl_r]|]. rewrite E. cbn [mbind result_bind].
    eexists _, _, _. split; [done|]. rewrite El. by split_and!.
  - eexists _, _, _. split; [done|]. cbn [event_ok] in He. split_and!; [by apply emplace_sorted | | done].
    unfold pointer_ok in *. cbn. by rewrite emplace_upper.
  - eexists _, _, _. split; [done|]. split_and!; [by apply rollback_sorted | | done]. cbn [event_ok] in He.
    unfold rollback, pointer_ok in *. destruct (ledger_secrets s) as [|[k x] l] eqn:E.
    + destruct (last_used_secret_it s); [by destruct Hp | done].
    + cbn [head] in He. destruct (Z.ltb_spec v k); [lia | done].
Qed.

Section laws.
Context `{AL : AeadLaws}.

Lemma hdr_serialise_ok h : Cipher.hdr_ok h -> hdr_serialise h = Ok (Cipher.tag h ++ Cipher.iv h).
Proof.
  intros [Ht Hi]. unfold hdr_serialise. change Cipher.hdr_serialised_size with (Z.of_nat 28).
  destruct (write_ok [] 28 _ (Cipher.tag h) (new_writer_written 28)) as (w1 & -> & W1); [lia|]. cbn [mbind result_bind].
  destruct (write_ok _ _ _ (Cipher.iv h) W1) as (w2 & -> & W2); [lia|]. cbn [mbind result_bind].
  rewrite Ht, Hi in W2. by rewrite (KvSerial.written_all _ _ W2).
Qed.

(** One key for both ends. *)
Lemma sealed_opens plain aad tx t key c tag : bytes_ok plain -> 0 <= Store.term tx < 2 ^ 31 ->
  let iv := iv_bytes (Store.tx_version tx) (Store.term tx) (is_snapshot t) in
  aead_encrypt key iv plain aad = (c, tag) ->
  hdr_serialise (Cipher.mkHdr tag iv) = Ok (tag ++ iv) /\ zlen (tag ++ iv) = Cipher.hdr_serialised_size /\ zlen c = zlen plain /\
  Cipher.hdr_deserialise (tag ++ iv) = Ok (Cipher.mkHdr tag iv, []) /\ aead_decrypt key iv tag c aad = Some plain /\
  iv_get_term iv = Store.term tx + (if is_snapshot t then 2 ^ 31 else 0).
Proof.
  intros Hb Hterm iv Ea. destruct (aead_length _ _ _ _ _ _ Ea) as [Hc Ht].
  assert (Hok : Cipher.hdr_ok (Cipher.mkHdr tag iv)) by (split; [done | apply length_iv]). split; [by rewrite hdr_serialise_ok|].
  split; [rewrite length_app, Ht; unfold iv; by rewrite length_iv|]. split; [lia|].
  pose proof (Cipher.hdr_deserialise_app (Cipher.mkHdr tag iv) [] Hok) as Hd. cbn [Cipher.tag Cipher.iv] in Hd. rewrite app_nil_r in Hd. split; [exact Hd|].
  split; [exact (aead_roundtrip _ _ _ _ _ _ Hb Ea)|]. by apply iv_term.
Qed.

Lemma encrypt_run plain aad tx t hint s s' hdr cipher : in_order (Store.tx_version tx) hint s -> encrypt plain aad tx t hint s = Ok (s', Some (hdr, cipher)) ->
  exists k x tag, let iv := iv_bytes (Store.tx_version tx) (Store.term tx) (is_snapshot t) in
    Store.term tx < 2 ^ 31 /\ upper_prev (Store.tx_version tx) (ledger_secrets s) = Some (k, x) /\ aead_encrypt (raw_key x) iv plain aad = (cipher, tag) /\
    hdr_serialise (Cipher.mkHdr tag iv) = Ok hdr /\ (if hint then s' = s else pointer_ok (Store.tx_version tx) s').
Proof.
  intros Hin. destruct (lookup_in_order _ _ _ Hin) as (x1 & E1 & _ & P1). unfold encrypt, get_encryption_key_for. destruct (set_iv tx t) as [iv| |] eqn:Eiv; cbn [mbind result_bind]; [|done..].
  apply set_iv_ok in Eiv as [Hlt ->]. rewrite E1. cbn [mbind result_bind]. destruct (upper_prev (Store.tx_version tx) (ledger_secrets s)) as [[k x]|]; cbn [fmap option_fmap option_map snd]; [|done].
  destruct (aead_encrypt _ _ _ _) as [c tag] eqn:Ea. destruct (hdr_serialise _) as [h| |] eqn:Eh; cbn [mbind result_bind]; [|done..]. intros [= <- <- <-]. by exists k, x, tag.
Qed.

Lemma decrypt_run plain aad tx t hint s k x cipher tag : let iv := iv_bytes (Store.tx_version tx) (Store.term tx) (is_snapshot t) in
  bytes_ok plain -> 0 <= Store.term tx < 2 ^ 31 -> in_order (Store.tx_version tx) hint s -> upper_prev (Store.tx_version tx) (ledger_secrets s) = Some (k, x) ->
  aead_encrypt (raw_key x) iv plain aad = (cipher, tag) ->
  exists s', decrypt cipher aad (tag ++ iv) (Store.tx_version tx) hint s = Ok (s', (Some plain, Store.term tx + (if is_snapshot t then 2 ^ 31 else 0))) /\
    (if hint then s' = s else pointer_ok (Store.tx_version tx) s').
Proof.
  intros iv Hb Hterm Hin Hk Ea. destruct (lookup_in_order _ _ _ Hin) as (x2 & E2 & _ & P2). destruct (sealed_opens _ _ tx t _ _ _ Hb Hterm Ea) as (_ & _ & _ & Hd & Hdec & Hgt). fold iv in Hd, Hdec, Hgt.
  unfold decrypt, get_encryption_key_for. rewrite Hd. cbn [mbind result_bind]. rewrite E2, Hk. cbn [mbind result_bind fmap option_fmap option_map snd Cipher.iv Cipher.tag]. rewrite Hdec, Hgt. by exists x2.
Qed.

(** C33. What one node encrypts another one decrypts, each through its own iterator into the ledger secrets: if the two have the same secrets and each asks either with the
    historical hint or for the version after the last one it used, the header has the announced length, the ciphertext is as long as the plaintext, and decrypting gives the
    plaintext and the term (with the snapshot bit, for a snapshot).  A call with the hint leaves the iterator where it is, and one without it leaves it ready for the next version. *)
Theorem node_encryptor_ok s1 s2 plain aad tx t hint1 hint2 s1' hdr cipher :
  bytes_ok plain -> 0 <= Store.term tx -> ledger_secrets s2 = ledger_secrets s1 -> in_order (Store.tx_version tx) hint1 s1 -> in_order (Store.tx_version tx) hint2 s2 ->
  encrypt plain aad tx t hint1 s1 = Ok (s1', Some (hdr, cipher)) ->
  zlen hdr = Cipher.hdr_serialised_size /\ zlen cipher = zlen plain /\ (if hint1 then s1' = s1 else pointer_ok (Store.tx_version tx) s1') /\
  exists s2', decrypt cipher aad hdr (Store.tx_version tx) hint2 s2 = Ok (s2', (Some plain, Store.term tx + (if is_snapshot t then 2 ^ 31 else 0))) /\
    (if hint2 then s2' = s2 else pointer_ok (Store.tx_version tx) s2').
Proof.
  intros Hb Hterm Hsame H1 H2 E. destruct (encrypt_run _ _ _ _ _ _ _ _ _ H1 E) as (k & x & tag & Hlt & Hk & Ea & Hh & P1).
  destruct (sealed_opens _ _ tx t _ _ _ Hb ltac:(lia) Ea) as (Hh' & Hl & Hc & _). rewrite Hh in Hh'. injection Hh' as ->. do 3 (split; [done|]). rewrite <- Hsame in Hk.
  by eapply decrypt_run.
Qed.

(** Without an iterator, as at the start and after a rollback, every call searches, and the encryptor is what ledger entries rely on. *)
Lemma encryptor_at_ok s : secrets_sorted (ledger_secrets s) -> last_used_secret_it s = None -> KvSerial.encryptor_ok (encryptor_at s).
Proof.
  intros Hs Hl. split; [vm_compute; congruence|]. intros plain aad tx t hint hdr cipher Hb [Hterm _]. cbn [KvSerial.encrypt KvSerial.decrypt KvSerial.get_term KvSerial.get_header_length encryptor_at].
  assert (Hin : forall v h, in_order v h s) by (intros v h; split; [done|]; right; unfold pointer_ok; by rewrite Hl).
  destruct (encrypt plain aad tx t hint s) as [[s' r]| |] eqn:E; cbn [mbind result_bind]; [|done..]. intros [= ->].
  destruct (encrypt_run _ _ _ _ _ _ _ _ _ (Hin _ _) E) as (k & x & tag & Hlt & Hk & Ea & Hh & _).
  destruct (sealed_opens _ _ tx t _ _ _ Hb ltac:(lia) Ea) as (Hh' & Hlen & Hc & Hd & _ & Hgt). rewrite Hh in Hh'. injection Hh' as ->. split; [done|]. split; [done|].
  split; [intros Hsnap|intros hint'].
  - destruct (decrypt_run plain aad tx t hint s k x cipher tag Hb ltac:(lia) (Hin _ _) Hk Ea) as (s2 & -> & _). unfold get_term. rewrite Hd. cbn [mbind result_bind Cipher.iv]. rewrite Hgt.
    assert (is_snapshot t = false) as -> by (by destruct t). by rewrite Z.add_0_r.
  - destruct (decrypt_run plain aad tx t hint' s k x cipher tag Hb ltac:(lia) (Hin _ _) Hk Ea) as (s2 & -> & _). cbn [mbind result_bind]. by eexists.
Qed.

End laws.

(** ** Examples *)


(** A secret from version 1 on, and one from version 3 on. *)
Definition ex_secrets : LedgerSecrets :=
  mkSecrets [(1, mkSecret [1] None); (3, mkSecret [3] None)] 1 (Some 1).
Lemma secrets_in_order_witness :
  exists cur' s' r, do_event Use 2 ex_secrets = Ok (cur', s', r) /\ cur' = 3 /\ pointer_ok cur' s' /\ r = Some (Some (mkSecret [3] None)).
Proof.
  destruct (secrets_in_order Use 2 ex_secrets) as (cur' & s' & r & E & _ & Hp & _).
  - repeat constructor.
  - exists (mkSecret [1] None). reflexivity.
  - exact I.
  - exists cur', s', r. split; [exact E|]. vm_compute in E. injection E as <- <- <-. split_and!; [reflexivity | exact Hp | reflexivity].
Defined.

(** A cipher that does nothing shows that the laws can hold. *)
Definition null_aead : Aead := {| aead_encrypt _ _ plain _ := (plain, zeros 16); aead_decrypt _ _ _ cipher _ := Some cipher |}.
Lemma null_aead_laws : @AeadLaws null_aead.
Proof.
  split.
  - intros key iv plain aad c t _ [= <- <-]. reflexivity.
  - intros key iv plain aad c t [= <- <-]. split; reflexivity.
Qed.
(** The primary has used version 2 and its iterator is at the secret from version 1 on; the other node has not asked yet. *)
Lemma node_encryptor_ok_witness :
  exists s1, @encrypt null_aead [7; 8] [9] (Store.mkTxID 5 3) KvSerial.WriteSet false ex_secrets = Ok (s1, Some (zeros 16 ++ le_bytes 8 3 ++ le_bytes 4 5, [7; 8])) /\
  exists s2, @decrypt null_aead [7; 8] [9] (zeros 16 ++ le_bytes 8 3 ++ le_bytes 4 5) 3 true (set_last None ex_secrets) = Ok (s2, (Some [7; 8], 5)).
Proof.
  eexists. assert (@encrypt null_aead [7; 8] [9] (Store.mkTxID 5 3) KvSerial.WriteSet false ex_secrets = Ok (set_last (Some 3) ex_secrets, Some (zeros 16 ++ le_bytes 8 3 ++ le_bytes 4 5, [7; 8]))) as E
    by (vm_compute; reflexivity). split; [exact E|].
  assert (secrets_sorted (ledger_secrets ex_secrets)) as Hs by repeat constructor.
  destruct (@node_encryptor_ok null_aead null_aead_laws ex_secrets (set_last None ex_secrets) [7; 8] [9] (Store.mkTxID 5 3) KvSerial.WriteSet false true (set_last (Some 3) ex_secrets)
    (zeros 16 ++ le_bytes 8 3 ++ le_bytes 4 5) [7; 8]) as (_ & _ & _ & s2 & H & _); [..|exact E|].
  - repeat constructor; vm_compute; congruence.
  - vm_compute. congruence.
  - reflexivity.
  - split; [exact Hs|]. right. exists (mkSecret [1] None). reflexivity.
  - split; [exact Hs|]. by left.
  - exists s2. exact H.
Defined.

End Encryptor.
