(* ===== verification/Tx.v ===== *)
(** * Transactions

    Model of CCF/include/ccf/tx.h, src/kv/tx.cpp and src/kv/committable_tx.h:
    a transaction collects change sets over the tables of one read version and
    commits them.  A handle is the change set of its table in [all_changes];
    handles of different types over one table share it.  A reserved transaction
    ([new_reserved_tx], [commit_reserved]) commits at a version that was taken
    before it ran; Signature.v uses it.

    The digest of the commit evidence (an HMAC of the transaction identifier
    under the ledger secret, hashed) is a parameter, and so is the encryptor.

    Main results: [tx_serialisable], a transaction that writes every table it
    reads and passes validation does what it would do now; [write_skew], the
    tables that it only reads are not validated. *)
From S2P Require Import Prelude Serialized KvHandle MapSerial RbMap UntypedMap Store KvSerial.
From stdpp Require Import functions list gmap.
Local Open Scope Z_scope.

Module Tx.
Import MapSerial.
Abbreviation K := KvHandle.K.
Abbreviation VersionV := KvHandle.VersionV.
Abbreviation NoVersion := KvHandle.NoVersion.
Abbreviation Info := Store.PendingTxInfo.

Record Tx (T : Type) := mkTx {
  all_changes : Store.Changes (T := T);
  created_maps : list (K * nat);
  read_txid : option Store.TxID;
  commit_view : Z;
  committed : bool;
  success : bool;
  tx_ver : Z;
  tx_flags : Z;
  entry_flags : Z
}.
Arguments mkTx {T} _ _ _ _ _ _ _ _ _.
Arguments all_changes {T} _.
Arguments created_maps {T} _.
Arguments read_txid {T} _.
Arguments commit_view {T} _.
Arguments committed {T} _.
Arguments success {T} _.
Arguments tx_ver {T} _.
Arguments tx_flags {T} _.
Arguments entry_flags {T} _.

Section ops.
Context {P T : Type} `{ST : KvState VersionV T}.
Abbreviation QStore := (Store.Store P T).
Implicit Types (s : QStore) (tx : Tx T).

Definition VIEW_UNKNOWN : Z := 0.
Definition new_tx : Tx T := mkTx [] [] None VIEW_UNKNOWN false false NoVersion 0 0.

Definition set_changes (c : Store.Changes) tx : Tx T :=
  mkTx c (created_maps tx) (read_txid tx) (commit_view tx) (committed tx) (success tx) (tx_ver tx) (tx_flags tx) (entry_flags tx).
Definition set_created (c : list (K * nat)) tx : Tx T :=
  mkTx (all_changes tx) c (read_txid tx) (commit_view tx) (committed tx) (success tx) (tx_ver tx) (tx_flags tx) (entry_flags tx).
Definition set_read_txid (r : Store.TxID) (view : Z) tx : Tx T :=
  mkTx (all_changes tx) (created_maps tx) (Some r) view (committed tx) (success tx) (tx_ver tx) (tx_flags tx) (entry_flags tx).
Definition set_outcome (c sc : bool) (v : Z) tx : Tx T :=
  mkTx (all_changes tx) (created_maps tx) (read_txid tx) (commit_view tx) c sc v (tx_flags tx) (entry_flags tx).
Definition set_tx_flags (f : Z) tx : Tx T :=
  mkTx (all_changes tx) (created_maps tx) (read_txid tx) (commit_view tx) (committed tx) (success tx) (tx_ver tx) f (entry_flags tx).

(** ** Handles *)

(** The object and, unless the version has been compacted, the change set. *)
Definition get_map_and_change_set_by_name (map_name : K) s tx : result (QStore * Tx T * nat * option (UntypedMap.ChangeSet T)) :=
  let tx := match read_txid tx with
            | Some _ => tx
            | None => let '(r, view) := Store.current_txid_and_commit_term (Store.vers s) in set_read_txid r view tx
            end in
  let v := match read_txid tx with Some r => Store.tx_version r | None => 0 end in
  '(s, tx, id) ← match Store.get_map v map_name s with
                 | Some id => Ok (s, tx, id)
                 | None =>
                     match KvHandle.map_find map_name (created_maps tx) with
                     | Some _ => Throw LogicError
                     | None =>
                         let '(s, id) := Store.create_map map_name s in
                         Ok (s, set_created (KvHandle.map_put map_name id (created_maps tx)) tx, id)
                     end
                 end;
  m ← Store.obj id s;
  cs ← UntypedMap.create_change_set v m;
  Ok (s, tx, id, cs).

(** After this the handle over [map_name] is its change set. *)
Definition get_handle_by_name (map_name : K) s tx : result (QStore * Tx T) :=
  match KvHandle.map_find map_name (all_changes tx) with
  | Some _ => Ok (s, tx)
  | None =>
      '(s, tx, id, cs) ← get_map_and_change_set_by_name map_name s tx;
      match cs with
      | None => Throw CompactedVersionConflict
      | Some cs => Ok (s, set_changes (KvHandle.map_put map_name (id, cs) (all_changes tx)) tx)
      end
  end.

(** One operation through a handle. *)
Definition with_handle (map_name : K) (o : UntypedMap.hop) s tx : result (QStore * Tx T * UntypedMap.reply) :=
  '(s, tx) ← get_handle_by_name map_name s tx;
  match KvHandle.map_find map_name (all_changes tx) with
  | Some (id, UntypedMap.Changes rb cs) =>
      let '(cs, r) := UntypedMap.run_hop o cs in
      Ok (s, set_changes (KvHandle.map_put map_name (id, UntypedMap.Changes rb cs) (all_changes tx)) tx, r)
  | _ => Throw LogicError
  end.

(** ** Commit *)

Context (e : option KvSerial.Encryptor) (evidence : Store.TxID -> list Z).

(** The tables of the change sets, as [serialise] asks for them. *)
Definition map_change (c : K * (nat * UntypedMap.ChangeSet T)) s : result KvSerial.MapChange :=
  m ← Store.obj c.2.1 s;
  Ok (KvSerial.mkMapChange (UntypedMap.name m) (UntypedMap.security_domain m) (UntypedMap.replicated m)
        match c.2.2 with UntypedMap.Changes _ cs => cs | UntypedMap.SnapshotChanges _ _ => UntypedMap.ex_writes [] end).

Definition LEDGER_CHUNK_AT_NEXT_SIGNATURE : Z := 1.
Definition SNAPSHOT_AT_NEXT_SIGNATURE : Z := 2.
Definition LEDGER_CHUNK_BEFORE_THIS_TX : Z := 4.
Definition FORCE_LEDGER_CHUNK_BEFORE : Z := 2.
Definition flag_enabled (f : Z) tx : bool := negb (Z.land (tx_flags tx) f =? 0).
Definition set_flag (f : Z) tx : Tx T := set_tx_flags (Z.lor (tx_flags tx) f) tx.
Definition unset_flag (f : Z) tx : Tx T := set_tx_flags (Z.land (tx_flags tx) (Z.lxor f 255)) tx.

(** [claims] is [None] when no digest has been set. *)
Definition serialise (claims : option (list Z)) s tx : result (list Z) :=
  if negb (committed tx) then Throw LogicError
  else if negb (success tx) then Throw LogicError
  else
    match claims with
    | None => Throw LogicError
    | Some claims =>
        if negb (Store.changes_have_writes (all_changes tx)) then Ok []
        else
          match e with
          | None => Throw KvSerialiserException
          | Some e =>
              let id := Store.mkTxID (commit_view tx) (tx_ver tx) in
              let flags := if flag_enabled LEDGER_CHUNK_BEFORE_THIS_TX tx then Z.lor (entry_flags tx) FORCE_LEDGER_CHUNK_BEFORE
                           else entry_flags tx in
              l ← result_mapM (fun c => map_change c s) (all_changes tx);
              KvSerial.make_entry e id KvSerial.WriteSetWithCommitEvidenceAndClaims flags (evidence id) claims false l
          end
    end.

(** Flags that a committed transaction hands to the store. *)
Definition pass_flag (f : Z) (p : QStore * Tx T) : QStore * Tx T :=
  let '(s, tx) := p in
  if flag_enabled f tx then (Store.set_flag_unsafe f s, unset_flag f tx) else (s, tx).

(** Without a version resolver of its own.  [None] is a loop that has not
    ended.  [move] is [MovePendingTx], [call] the virtual [PendingTx::call]. *)
Definition commit (move : Info -> P) (call : P -> QStore -> result (QStore * Info)) (consensus : option Store.Consensus) (claims : option (list Z)) (track_read_versions : bool) s tx :
  option (result (QStore * Tx T * Store.CommitResult * list Store.BatchEntry)) :=
  if committed tx then Some (Throw LogicError)
  else
    match all_changes tx with
    | [] => Some (Ok (s, set_outcome true true (tx_ver tx) tx, Store.SUCCESS, []))
    | _ :: _ =>
        match Store.apply_changes (all_changes tx) Store.next_version (created_maps tx) None track_read_versions s with
        | Throw ex => Some (Throw ex)
        | Undef => Some Undef
        | Ok (s, None, _) => Some (Ok (s, set_outcome (committed tx) false (tx_ver tx) tx, Store.FAIL_CONFLICT, []))
        | Ok (s, Some v, hooks) =>
            let tx := set_outcome true true v tx in
            let '(s, tx) := pass_flag SNAPSHOT_AT_NEXT_SIGNATURE (pass_flag LEDGER_CHUNK_AT_NEXT_SIGNATURE (s, tx)) in
            if v =? NoVersion then Some (Ok (s, tx, Store.SUCCESS, []))
            else
              match serialise claims s tx with
              | Throw _ => Some (Throw KvSerialiserException)
              | Undef => Some Undef
              | Ok [] => Some (Ok (s, tx, Store.SUCCESS, []))
              | Ok data =>
                  r ← Store.commit call consensus (Store.mkTxID (commit_view tx) v) (move (Store.mkInfo Store.SUCCESS data hooks)) false s;
                  Some (
                    match r with
                    | Ok (s, res, batch) => Ok (s, tx, res, batch)
                    | Throw _ => Throw KvSerialiserException
                    | Undef => Undef
                    end)
              end
        end
    end.

Definition commit_version tx : result Z :=
  if negb (committed tx) then Throw LogicError else if negb (success tx) then Throw LogicError else Ok (tx_ver tx).
Definition get_txid tx : result (option Store.TxID) :=
  if negb (committed tx) then Throw LogicError
  else
    Ok (match read_txid tx with
        | None => None
        | Some r => if tx_ver tx =? NoVersion then Some r else Some (Store.mkTxID (commit_view tx) (tx_ver tx))
        end).

(** ** Reserved transactions *)

Definition new_reserved_tx (read_term : Z) (reserved_tx_id : Store.TxID) : Tx T :=
  mkTx [] [] (Some (Store.mkTxID read_term (wrap64 (Store.tx_version reserved_tx_id - 1)))) (Store.term reserved_tx_id)
    false false (Store.tx_version reserved_tx_id) 0 0.
(** [Store::create_reserved_tx] *)
Definition create_reserved_tx (tx_id : Store.TxID) s : Tx T := new_reserved_tx (Store.term_of_last_version (Store.vers s)) tx_id.

(** [record_committable] of the snapshotter, if there is one. *)
Definition must_force_ledger_chunk (record_committable : option (Z -> bool)) (v : Z) s : bool :=
  let r := Store.flag_enabled_unsafe Store.LEDGER_CHUNK_AT_NEXT_SIGNATURE s || Store.flag_enabled_unsafe Store.SNAPSHOT_AT_NEXT_SIGNATURE s in
  match record_committable with Some f => r || f v | None => r end.

Definition FORCE_LEDGER_CHUNK_AFTER : Z := 1.
Definition set_entry_flags (f : Z) tx : Tx T :=
  mkTx (all_changes tx) (created_maps tx) (read_txid tx) (commit_view tx) (committed tx) (success tx) (tx_ver tx) (tx_flags tx) f.
(** [ccf::empty_claims] *)
Definition empty_claims : list Z := zeros 32.

Definition commit_reserved (record_committable : option (Z -> bool)) s tx : result (QStore * Tx T * Info) :=
  if committed tx then Throw LogicError
  else
    match all_changes tx with
    | [] => Throw LogicError
    | _ :: _ =>
        '(s, c, hooks) ← Store.apply_changes (all_changes tx) (fun _ vs => (vs, (tx_ver tx, wrap64 (tx_ver tx - 1)))) (created_maps tx) (Some (tx_ver tx)) false s;
        match c with
        | None => Throw LogicError
        | Some _ =>
            let tx := if must_force_ledger_chunk record_committable (tx_ver tx) s
                      then set_entry_flags (Z.lor (entry_flags tx) FORCE_LEDGER_CHUNK_AFTER) tx else tx in
            let tx := set_outcome true true (tx_ver tx) tx in
            data ← serialise (Some empty_claims) s tx;
            let s := Store.unset_flag_unsafe Store.LEDGER_CHUNK_AT_NEXT_SIGNATURE s in
            Ok (s, tx, Store.mkInfo Store.SUCCESS data hooks)
        end
    end.

End ops.

(** ** Programs over several tables *)

(** What a transaction does next depends on the replies so far. *)
Inductive tprog (A : Type) := TRet (a : A) | TDo (table : K) (o : UntypedMap.hop) (next : UntypedMap.reply -> tprog A).
Arguments TRet {A} _.
Arguments TDo {A} _ _ _.

(** The change sets by the name of their table. *)
Abbreviation env := (K -> KvHandle.ChangeSet).
Fixpoint trun {A} (p : tprog A) (c : env) : env * A :=
  match p with
  | TRet a => (c, a)
  | TDo n o next => let '(cs, r) := UntypedMap.run_hop o (c n) in trun (next r) (<[n := cs]> c)
  end.

(** The run works on table [n], iterates over it, or removes from it only keys
    that it has read. *)
Fixpoint touched {A} (n : K) (p : tprog A) (c : env) : bool :=
  match p with
  | TRet _ => false
  | TDo n' o next =>
      bool_decide (n = n') || touched n (next (snd (UntypedMap.run_hop o (c n')))) (<[n' := fst (UntypedMap.run_hop o (c n'))]> c)
  end.
Fixpoint titerated {A} (n : K) (p : tprog A) (c : env) : bool :=
  match p with
  | TRet _ => false
  | TDo n' o next =>
      (bool_decide (n = n') && UntypedMap.iterates o) ||
      titerated n (next (snd (UntypedMap.run_hop o (c n')))) (<[n' := fst (UntypedMap.run_hop o (c n'))]> c)
  end.
Fixpoint tchecked {A} (p : tprog A) (c : env) : Prop :=
  match p with
  | TRet _ => True
  | TDo n o next =>
      match o with UntypedMap.HRemove k => is_Some (KvHandle.map_find k (KvHandle.reads (c n))) | _ => True end /\
      tchecked (next (snd (UntypedMap.run_hop o (c n)))) (<[n := fst (UntypedMap.run_hop o (c n))]> c)
  end.

(** ** Lemmas *)

Lemma trun_post {A} (p : tprog A) : forall c, (forall n, UntypedMap.reads_ok (c n)) ->
  let c' := fst (trun p c) in
  forall n, UntypedMap.same_base (c n) (c' n) /\ UntypedMap.reads_ok (c' n) /\ UntypedMap.reads_grow (c n) (c' n) /\
    KvHandle.cs_read_version (c' n) = (if titerated n p c then KvHandle.start_version (c n) else KvHandle.cs_read_version (c n)).
Proof.
  induction p as [a|n0 o next IH]; intros c Hok; cbn [trun titerated fst]; intros n.
  { by split_and!; [| |apply UntypedMap.grow_refl|]. }
  pose proof (UntypedMap.run_hop_post o (c n0) (Hok n0)) as ([S1 S2] & R1 & G1 & V1).
  destruct (UntypedMap.run_hop o (c n0)) as [cs1 r]. cbn [fst snd] in *.
  assert (Hok1 : forall n, UntypedMap.reads_ok ((<[n0 := cs1]> c) n)).
  { intros n'. destruct (decide (n0 = n')) as [<-|Hne]; [by rewrite fn_lookup_insert | by rewrite fn_lookup_insert_ne]. }
  destruct (IH r _ Hok1 n) as ([S3 S4] & R2 & G2 & V2). destruct (decide (n0 = n)) as [<-|Hne].
  - rewrite fn_lookup_insert in *. split_and!; [split; congruence | done | |].
    + intros k x Hx. by apply G2, G1.
    + rewrite V2, S2, V1, bool_decide_eq_true_2 by done. cbn [andb]. destruct (titerated n0 _ _), (UntypedMap.iterates o); done.
  - rewrite fn_lookup_insert_ne in * by done. rewrite bool_decide_eq_false_2 by done. by split_and!.
Qed.

(** Two environments that a program cannot tell apart: on the tables that it
    iterates over they are the same, on the others they agree on its reads. *)
Lemma trun_agree {A} (p : tprog A) : forall c c' (iter : K -> bool), (forall n, UntypedMap.reads_ok (c n)) ->
  (forall n, titerated n p c = true -> iter n = true) -> tchecked p c ->
  (forall n, KvHandle.writes (c' n) = KvHandle.writes (c n)) ->
  (forall n, if iter n then KvHandle.state (c' n) = KvHandle.state (c n)
             else UntypedMap.agree (KvHandle.reads (fst (trun p c) n)) (c n) (c' n)) ->
  snd (trun p c') = snd (trun p c) /\ forall n, KvHandle.writes (fst (trun p c') n) = KvHandle.writes (fst (trun p c) n).
Proof.
  induction p as [a|n0 o next IH]; intros c c' iter Hok Hi Hc Hw Ha; cbn [trun titerated tchecked] in *; [done|]. destruct Hc as [Hrm Hc].
  pose proof (UntypedMap.run_hop_post o (c n0) (Hok n0)) as ([S1 S2] & R1 & G1 & _).
  set (c1 := <[n0 := fst (UntypedMap.run_hop o (c n0))]> c) in *. set (p1 := next (snd (UntypedMap.run_hop o (c n0)))) in *.
  assert (Hrun : (let '(cs, r) := UntypedMap.run_hop o (c n0) in trun (next r) (<[n0 := cs]> c)) = trun p1 c1)
    by (unfold p1, c1; by destruct (UntypedMap.run_hop o (c n0))).
  rewrite Hrun in Ha |- *. clear Hrun.
  assert (Hok1 : forall n, UntypedMap.reads_ok (c1 n)).
  { intros n. unfold c1. destruct (decide (n0 = n)) as [<-|Hne]; [by rewrite fn_lookup_insert | by rewrite fn_lookup_insert_ne]. }
  pose proof (trun_post p1 c1 Hok1) as Hpost.
  assert (Hstep : snd (UntypedMap.run_hop o (c' n0)) = snd (UntypedMap.run_hop o (c n0)) /\
    KvHandle.writes (fst (UntypedMap.run_hop o (c' n0))) = KvHandle.writes (fst (UntypedMap.run_hop o (c n0)))).
  { specialize (Ha n0). destruct (iter n0) eqn:Ei.
    - destruct (UntypedMap.run_hop_same o (c n0) (c' n0)) as [E [_ E']]; [by split|]. done.
    - assert (Hio : UntypedMap.iterates o = false).
      { destruct (UntypedMap.iterates o) eqn:E; [|done]. rewrite Hi in Ei; [done|]. by rewrite bool_decide_eq_true_2 by done. }
      destruct (Hpost n0) as (_ & _ & G2 & _). unfold c1 in G2 at 1. rewrite fn_lookup_insert in G2.
      apply (UntypedMap.run_hop_agree o (c n0) (c' n0) (KvHandle.reads (fst (trun p1 c1) n0)) (Hok n0) Hio (Hw n0) Hrm); [done | | done].
      intros k x Hx. by apply G2, G1. }
  destruct Hstep as [E1 E2]. pose proof (UntypedMap.run_hop_base o (c' n0)) as [S3 _].
  destruct (UntypedMap.run_hop o (c' n0)) as [cs1' r'] eqn:Er. cbn [fst snd] in E1, E2, S3. subst r'.
  apply (IH _ c1 (<[n0 := cs1']> c') iter Hok1).
  - intros n Hn. apply Hi, orb_true_iff. by right.
  - done.
  - intros n. unfold c1. destruct (decide (n0 = n)) as [<-|Hne]; [by rewrite !fn_lookup_insert | rewrite !fn_lookup_insert_ne by done; apply Hw].
  - intros n. specialize (Ha n). unfold c1. destruct (decide (n0 = n)) as [<-|Hne].
    + rewrite !fn_lookup_insert, S1, S3. destruct (iter n0); [done|]. intros k Hk. rewrite S1, S3. by apply Ha.
    + by rewrite !fn_lookup_insert_ne.
Qed.

(** Tables that a program does not touch do not change. *)
Lemma trun_untouched {A} n (p : tprog A) : forall c, touched n p c = false -> fst (trun p c) n = c n.
Proof.
  induction p as [a|n0 o next IH]; intros c Ht; cbn [trun touched] in *; [done|]. apply orb_false_iff in Ht as [Hn Ht].
  apply bool_decide_eq_false in Hn. destruct (UntypedMap.run_hop o (c n0)) as [cs r]. cbn [fst snd] in *. rewrite IH by done. by rewrite fn_lookup_insert_ne.
Qed.

Lemma iterated_touched {A} n (p : tprog A) : forall c, titerated n p c = true -> touched n p c = true.
Proof.
  induction p as [a|n0 o next IH]; intros c Ht; cbn [touched titerated] in *; [done|]. apply orb_true_iff in Ht as [Ht|Ht].
  - apply andb_true_iff in Ht as [-> _]. done.
  - rewrite (IH _ _ Ht). apply orb_true_r.
Qed.

(** ** Theorems *)

Section tables.
Context {T : Type} `{ST : KvState VersionV T} `{KL : !KvStateLaws VersionV T}.

(** C7. A transaction over any number of tables that passes validation is
    serialisable, if it writes every table that it touches.  Its change sets are
    opened at one read version, every table goes its own way (commits,
    compaction, snapshots, fewer than 2^64 rollbacks), and validation succeeds
    for each; then the same transaction started now gets the same replies and
    makes the same writes to every table.  The transaction reads the keys that it
    removes, and does not iterate over a table that is at version 0: for such
    transactions validation is not enough. *)
Theorem tx_serialisable {A} (p : tprog A) (m m' : K -> UntypedMap.Map T) (t : K -> UntypedMap.LocalCommit T) (c0 c1 : env) (rb : K -> Z) v v' :
  (forall n, touched n p c0 = true ->
     UntypedMap.map_ok (m n) /\ UntypedMap.create_change_set v (m n) = Ok (Some (UntypedMap.Changes (rb n) (c0 n))) /\
     (exists k, UntypedMap.evolves k (m n) (m' n) /\ k < M64) /\
     list.last (UntypedMap.commits (m' n)) = Some (t n) /\ UntypedMap.lc_version (t n) <= v' /\
     UntypedMap.create_change_set v' (m' n) = Ok (Some (UntypedMap.Changes (UntypedMap.rollback_counter (m' n)) (c1 n))) /\
     (titerated n p c0 = true -> KvHandle.start_version (c0 n) <> NoVersion) /\
     KvHandle.writes (fst (trun p c0) n) <> [] /\
     UntypedMap.prepare_changes false (rb n) (fst (trun p c0) n) (m' n) = Ok true) ->
  (forall n, touched n p c0 = false -> c1 n = c0 n /\ UntypedMap.reads_ok (c0 n)) ->
  tchecked p c0 ->
  snd (trun p c1) = snd (trun p c0) /\ forall n, KvHandle.writes (fst (trun p c1) n) = KvHandle.writes (fst (trun p c0) n).
Proof.
  intros Ht Hu Hc.
  assert (Hopen : forall n, touched n p c0 = true -> exists cm, UntypedMap.opened cm (c0 n) /\ UntypedMap.opened (t n) (c1 n) /\
    UntypedMap.ancestor cm (m' n) /\ rb n = UntypedMap.rollback_counter (m' n)).
  { intros n Hn. destruct (Ht n Hn) as (Hm & Hcreate & (k & Hev & Hk) & Hlast & Hv & Hcreate' & _ & Hw & Hp).
    pose proof (UntypedMap.create_change_set_spec v (m n) Hm) as Hcs.
    destruct (UntypedMap.find_at v (reverse (UntypedMap.commits (m n)))) as [cm|]; [|rewrite Hcs in Hcreate; discriminate].
    destruct Hcs as (Hin & cs & Ecs & Ho). rewrite Ecs in Hcreate. injection Hcreate as Hrb <-.
    assert (Hcnt : UntypedMap.rollback_counter (m' n) = UntypedMap.rollback_counter (m n)).
    { unfold UntypedMap.prepare_changes in Hp. destruct (KvHandle.writes _); [done|]. rewrite <- Hrb in Hp.
      destruct (Z.eqb_spec (UntypedMap.rollback_counter (m n)) (UntypedMap.rollback_counter (m' n))); [done | discriminate]. }
    pose proof (UntypedMap.evolves_same_counter k _ _ Hev Hm Hk Hcnt) as ->. destruct (UntypedMap.evolves_spec 0 _ _ Hev Hm) as (Hm' & _ & _ & Ha).
    exists cm. split_and!; [done | | | congruence].
    - pose proof (UntypedMap.create_change_set_spec v' (m' n) Hm') as Hcs'. destruct (UntypedMap.map_ok_tail _ Hm') as (l & t' & El & Et & _).
      rewrite Hlast in Et. injection Et as <-. rewrite El, reverse_snoc in Hcs'. cbn [UntypedMap.find_at] in Hcs'.
      destruct (Z.leb_spec (UntypedMap.lc_version (t n)) v'); [|lia]. destruct Hcs' as (_ & cs' & E' & Ho'). rewrite E' in Hcreate'. by injection Hcreate' as <-.
    - apply Ha; [done|]. by apply UntypedMap.chain_ancestor. }
  assert (Hok : forall n, UntypedMap.reads_ok (c0 n)).
  { intros n. destruct (touched n p c0) eqn:En; [|by apply Hu]. destruct (Hopen n En) as (cm & Ho & _). by apply (UntypedMap.opened_reads_ok cm). }
  apply (trun_agree p c0 c1 (fun n => titerated n p c0) Hok); [done | done | |].
  - intros n. destruct (touched n p c0) eqn:En; [|by destruct (Hu n En) as [-> _]]. destruct (Hopen n En) as (cm & Ho & Ho' & _).
    destruct Ho as (_ & _ & _ & _ & _ & ->), Ho' as (_ & _ & _ & _ & _ & ->). done.
  - intros n. destruct (touched n p c0) eqn:En.
    2:{ destruct (Hu n En) as [-> _]. destruct (titerated n p c0); done. }
    destruct (Hopen n En) as (cm & Ho & Ho' & (t' & Hlast' & Hle & Hnew & Heq) & Hrb).
    destruct (Ht n En) as (_ & _ & _ & Hlast & _ & _ & Hz & Hw & Hp). rewrite Hlast in Hlast'. injection Hlast' as <-.
    destruct (trun_post p c0 Hok n) as (Hb & Hr & _ & Hv). unfold UntypedMap.prepare_changes in Hp.
    destruct (KvHandle.writes (fst (trun p c0) n)) as [|w0 w]; [done|]. rewrite Hrb, Z.eqb_refl in Hp. cbn [negb] in Hp.
    unfold UntypedMap.get_tail in Hp. rewrite Hlast in Hp. cbn [mbind result_bind] in Hp. rewrite Hv in Hp.
    pose proof Ho as (_ & He0 & Hsv & Hrv & _ & _). pose proof Ho' as (_ & He1 & _). destruct (titerated n p c0) eqn:Ei.
    + specialize (Hz eq_refl). destruct (Z.eqb_spec (KvHandle.start_version (c0 n)) NoVersion); [done|]. cbn [negb andb] in Hp.
      destruct (Z.eqb_spec (KvHandle.start_version (c0 n)) (UntypedMap.lc_version (t n))) as [Ev|]; [|done].
      rewrite <- (Heq ltac:(congruence)) in He1. congruence.
    + rewrite Hrv in Hp. cbn in Hp. by eapply (UntypedMap.check_reads_agree cm (t n)).
Qed.

End tables.

(** ** Examples *)

Abbreviation RB := (RbMap.Map VersionV).
Abbreviation EStore := (Store.Store Info RB).
Definition ex_commit (s : EStore) (tx : Tx RB) : result (EStore * Store.CommitResult) :=
  match commit (Some KvSerial.null_encryptor) (fun _ => zeros 32) id Store.move_call None (Some (zeros 32)) false s tx with
  | Some (Ok (s, _, r, _)) => Ok (s, r)
  | Some (Throw ex) => Throw ex
  | _ => Undef
  end.
Definition ex_read (n : K) (s : EStore) : result UntypedMap.reply :=
  '(_, _, r) ← with_handle n (UntypedMap.HGet [1]) s new_tx; Ok r.
Definition ta : K := [97].
Definition tb : K := [98].
(** A store where key 1 has the value 0 in two tables. *)
Definition ex_setup : result EStore :=
  '(s, tx, _) ← with_handle ta (UntypedMap.HPut [1] [0]) (Store.new_store true Store.ALL [] : EStore) new_tx;
  '(s, tx, _) ← with_handle tb (UntypedMap.HPut [1] [0]) s tx;
  '(s, _) ← ex_commit s tx;
  Ok s.
(** If key 1 is 0 in [r], make it 1 in [w]. *)
Definition skew (r w : K) (s : EStore) : result (EStore * Tx RB) :=
  '(s, tx, v) ← with_handle r (UntypedMap.HGet [1]) s new_tx;
  match v with
  | UntypedMap.RVal (Some [0]) => '(s, tx, _) ← with_handle w (UntypedMap.HPut [1] [1]) s tx; Ok (s, tx)
  | _ => Ok (s, tx)
  end.
Definition ex_final (s : EStore) (r1 r2 : Store.CommitResult) : result (Store.CommitResult * Store.CommitResult * UntypedMap.reply * UntypedMap.reply) :=
  a ← ex_read ta s; b ← ex_read tb s; Ok (r1, r2, a, b).
(** Two transactions one after the other, and with both started before either
    commits. *)
Definition skew_serial (r1 w1 r2 w2 : K) :=
  s ← ex_setup; '(s, t1) ← skew r1 w1 s; '(s, res1) ← ex_commit s t1; '(s, t2) ← skew r2 w2 s; '(s, res2) ← ex_commit s t2; ex_final s res1 res2.
Definition skew_interleaved (r1 w1 r2 w2 : K) :=
  s ← ex_setup; '(s, t1) ← skew r1 w1 s; '(s, t2) ← skew r2 w2 s; '(s, res1) ← ex_commit s t1; '(s, res2) ← ex_commit s t2; ex_final s res1 res2.

(** Tables that a transaction only reads are not validated.  One transaction
    sets b if a is 0, another sets a if b is 0.  In either order one of them
    finds the other's write; started together both commit, and both values are
    1, which no order gives.  When both write the table that they read, the
    second is refused. *)
Example write_skew :
  let v x := UntypedMap.RVal (Some [x]) in
  skew_serial ta tb tb ta = Ok (Store.SUCCESS, Store.SUCCESS, v 0, v 1) /\
  skew_serial tb ta ta tb = Ok (Store.SUCCESS, Store.SUCCESS, v 1, v 0) /\
  skew_interleaved ta tb tb ta = Ok (Store.SUCCESS, Store.SUCCESS, v 1, v 1) /\
  skew_interleaved ta ta ta ta = Ok (Store.SUCCESS, Store.FAIL_CONFLICT, v 1, v 0).
Proof. by vm_compute. Qed.

(** Read and write one table, write another. *)
Definition ex_tprog : tprog (option KvHandle.V) :=
  TDo ta (UntypedMap.HGet [1]) (fun r => TDo ta (UntypedMap.HPut [3] [30]) (fun _ => TDo tb (UntypedMap.HPut [1] [7])
    (fun _ => TRet (match r with UntypedMap.RVal v => v | _ => None end)))).
Definition ex_env : env := fun n => if bool_decide (n = ta) || bool_decide (n = tb) then UntypedMap.ex_open 1 UntypedMap.ex1 else UntypedMap.ex_writes [].
Definition ex_env' : env := fun n => if bool_decide (n = ta) || bool_decide (n = tb) then UntypedMap.ex_open 2 UntypedMap.ex2 else UntypedMap.ex_writes [].

Lemma tx_serialisable_witness :
  snd (trun ex_tprog ex_env) = Some [10] /\ snd (trun ex_tprog ex_env') = snd (trun ex_tprog ex_env).
Proof.
  split; [vm_compute; reflexivity|].
  destruct (tx_serialisable ex_tprog (fun _ => UntypedMap.ex1) (fun _ => UntypedMap.ex2)
    (fun _ => UntypedMap.mkCommit 2 (match list.last (UntypedMap.commits UntypedMap.ex2) with Some c => UntypedMap.lc_state c | None => RbMap.Empty end) [([2], Some [20])])
    ex_env ex_env' (fun _ => 0) 1 2) as [H _].
  - intros n Hn. assert (n = ta \/ n = tb) as Hnn.
    { cbn [touched ex_tprog] in Hn. rewrite !orb_true_iff, !bool_decide_eq_true in Hn. by destruct Hn as [?|[?|[?|?]]]; auto. }
    destruct UntypedMap.ex2_ok as [Hs _]. destruct UntypedMap.ex1_ok as [_ Hm].
    destruct Hnn as [->| ->]; (split; [exact Hm|]; split; [vm_compute; reflexivity|]; split;
      [exists 0; split; [exact (UntypedMap.evolves_step 0 0 _ _ _ (UntypedMap.evolves_refl _) Hs) | reflexivity]|];
      split; [vm_compute; reflexivity|]; split; [vm_compute; congruence|]; split; [vm_compute; reflexivity|];
      split; [vm_compute; discriminate|]; split; [vm_compute; discriminate | vm_compute; reflexivity]).
  - intros n Hn. cbn [touched ex_tprog] in Hn. rewrite !orb_false_iff, !bool_decide_eq_false in Hn. destruct Hn as (Ha & _ & Hb & _).
    unfold ex_env, ex_env'. rewrite !bool_decide_eq_false_2 by done. split; [reflexivity|]. intros k ver rv. done.
  - vm_compute. repeat split.
  - exact H.
Defined.

End Tx.
