(* ===== verification/Replication.v ===== *)
(** * Applying ledger entries on a backup

    Model of [Store::fill_maps] and [commit_deserialised] in
    CCF/src/kv/store.h and of [CFTExecutionWrapper::apply] in
    src/kv/deserialise.h: a backup reads the entry that the primary has written
    and applies it to its own tables.

    The verification of a signature by the history is a parameter.

    Main results: [backup_follows_primary], after the primary's transaction and
    the backup's application of its entry the replicated tables are equal again,
    and [entry_rejected], what leaves the backup as it was. *)
From S2P Require Import Prelude Serialized KvHandle MapSerial RbMap UntypedMap Store KvSerial Tx.
From stdpp Require Import list gmap.
Local Open Scope Z_scope.

Module Replication.
Import MapSerial.
Abbreviation K := KvHandle.K.
Abbreviation VersionV := KvHandle.VersionV.
Abbreviation NoVersion := KvHandle.NoVersion.

Inductive ApplyResult := PASS | PASS_SIGNATURE | PASS_SNAPSHOT_EVIDENCE | PASS_ENCRYPTED_PAST_LEDGER_SECRET | FAIL.

Section ops.
Context {P T : Type} `{ST : KvState VersionV T}.
Abbreviation Sto := (Store.Store P T).

(** What [fill_maps] returns through its references. *)
Record Filled := mkFilled {
  f_version : Z;
  f_view : option Z;
  f_changes : Store.Changes (T := T);
  f_new_maps : list (K * nat);
  f_claims : option (list Z);
  f_evidence : option (list Z)
}.

(** One map of the entry: the map is found or created, and its change set read. *)
Definition fill_map (v : Z) (map_name : K) (d : KvSerial.Deserialiser) (a : Sto * Store.Changes (T := T) * list (K * nat)) :
  result (option (KvSerial.Deserialiser * (Sto * Store.Changes (T := T) * list (K * nat)))) :=
  let '(s, changes, new_maps) := a in
  let '(s, new_maps, id) :=
    match Store.get_map v map_name s with
    | Some id => (s, new_maps, id)
    | None => let '(s, id) := Store.create_map map_name s in (s, KvHandle.map_put map_name id new_maps, id)
    end in
  match KvHandle.map_find map_name changes with
  | Some _ => Ok None
  | None =>
      m ← Store.obj id s;
      cs ← UntypedMap.create_change_set v m;
      match cs with
      | Some (UntypedMap.Changes rb cs) =>
          '(cs, d) ← KvSerial.deserialise_internal cs d;
          Ok (Some (d, (s, KvHandle.map_put map_name (id, UntypedMap.Changes rb cs) changes, new_maps)))
      | _ => Throw LogicError
      end
  end.

(** The store and, unless the entry is refused, what it contains.  [None] is a
    loop that has not ended. *)
Definition fill_maps (e : option KvSerial.Encryptor) (public_only is_historical ignore_strict_versions : bool) (data : list Z) (s : Sto) :
  option (result (Sto * option Filled)) :=
  match KvSerial.init e public_only is_historical data with
  | Throw ex => Some (Throw ex)
  | Undef => Some Undef
  | Ok None => Some (Ok (s, None))
  | Ok (Some (d, view)) =>
      let v := KvSerial.d_version d in
      let vs := Store.vers s in
      match Store.rollback (Store.mkTxID (Store.term_of_last_version vs) (wrap64 (v - 1))) (Store.term_of_next_version vs) s with
      | Throw ex => Some (Throw ex)
      | Undef => Some Undef
      | Ok s =>
          if Store.strict_versions s && negb ignore_strict_versions && negb (Store.version (Store.vers s) =? wrap64 (v - 1))
          then Some (Ok (s, None))
          else
            r ← KvSerial.read_maps (fill_map v) (S (length data)) d (s, [], []);
            Some (
              o ← r;
              match o with
              | None => Ok (s, None)
              | Some (d', (s, changes, new_maps)) =>
                  if negb (KvSerial.end_ d') then Ok (s, None)
                  else Ok (s, Some (mkFilled v view changes new_maps (KvSerial.d_claims d) (KvSerial.d_evidence d)))
              end)
      end
  end.

(** The bytes of the names of the tables that [apply] knows. *)
Definition internal_prefix : K := [112; 117; 98; 108; 105; 99; 58; 99; 99; 102; 46; 105; 110; 116; 101; 114; 110; 97; 108; 46].
Definition SIGNATURES : K := internal_prefix ++ [115; 105; 103; 110; 97; 116; 117; 114; 101; 115].
Definition SERIALISED_MERKLE_TREE : K := internal_prefix ++ [116; 114; 101; 101].
Definition SNAPSHOT_EVIDENCE : K := internal_prefix ++ [115; 110; 97; 112; 115; 104; 111; 116; 95; 101; 118; 105; 100; 101; 110; 99; 101].
Definition ENCRYPTED_PAST_LEDGER_SECRET : K :=
  internal_prefix ++ [104; 105; 115; 116; 111; 114; 105; 99; 97; 108; 95; 101; 110; 99; 114; 121; 112; 116; 101; 100; 95; 108; 101; 100; 103; 101; 114; 95; 115; 101; 99; 114; 101; 116].
Definition has_change (n : K) (changes : Store.Changes (T := T)) : bool :=
  match KvHandle.map_find n changes with Some _ => true | None => false end.

(** [verify] is the answer of the history, if there is one.  [term0] is what the
    member [term] holds before [init], which sets it only with an encryptor. *)
Definition apply (term0 : Z) (e : option KvSerial.Encryptor) (public_only is_historical : bool) (expected_txid : option Store.TxID)
  (verify : Sto -> option Z -> option bool) (data : list Z) (s : Sto) : option (result (Sto * ApplyResult)) :=
  r ← fill_maps e public_only is_historical true data s;
  Some (
    '(s, o) ← r;
    match o with
    | None => Ok (s, FAIL)
    | Some f =>
        let term := default term0 (f_view f) in
        let mismatch := match expected_txid with
                        | Some tx => negb ((term =? Store.term tx) && (f_version f =? Store.tx_version tx))
                        | None => false
                        end in
        if mismatch then Ok (s, FAIL)
        else
          '(s, ok, _) ← Store.commit_deserialised (f_changes f) (f_version f) term (f_new_maps f) s;
          if negb ok then Ok (s, FAIL)
          else
            let c := f_changes f in
            if has_change SIGNATURES c && ((2 <? zlen c) || negb (has_change SERIALISED_MERKLE_TREE c)) then Ok (s, FAIL)
            else if has_change SIGNATURES c && bool_decide (verify s (f_view f) = Some false) then Ok (s, FAIL)
            else Ok (s, if has_change ENCRYPTED_PAST_LEDGER_SECRET c then PASS_ENCRYPTED_PAST_LEDGER_SECRET
                        else if has_change SNAPSHOT_EVIDENCE c then PASS_SNAPSHOT_EVIDENCE
                        else if has_change SIGNATURES c then PASS_SIGNATURE else PASS)
    end).

End ops.
Arguments Filled T : clear implicits.
Arguments mkFilled {T} _ _ _ _ _ _.

(** ** Lemmas *)

Section lemmas.
Context {P T : Type} `{ST : KvState VersionV T} `{KL : !KvStateLaws VersionV T}.
Abbreviation Sto := (Store.Store P T).
Implicit Types (s : Sto).

(** A change set that validation accepts: opened now, nothing read. *)
Definition fresh s (id : nat) (c : UntypedMap.ChangeSet T) : Prop :=
  exists cs m, Store.objs s !! id = Some m /\ c = UntypedMap.Changes (UntypedMap.rollback_counter m) cs /\
    KvHandle.reads cs = [] /\ KvHandle.cs_read_version cs = NoVersion.

(** The store with objects added. *)
Definition grown s0 s : Prop := exists o, s = Store.set_objs (Store.objs s0 ++ o) s0.

Lemma grown_refl s : grown s s.
Proof. exists []. rewrite app_nil_r. by destruct s. Qed.
Lemma grown_obj s0 s id m : grown s0 s -> Store.objs s0 !! id = Some m -> Store.objs s !! id = Some m.
Proof. intros [o ->] Hm. cbn. by apply lookup_app_l_Some. Qed.
Lemma grown_create s0 s n : grown s0 s -> grown s0 (fst (Store.create_map n s)).
Proof. intros [o ->]. eexists. cbn. unfold Store.set_objs at 1. cbn. rewrite <- app_assoc. done. Qed.
Lemma grown_fields s0 s : grown s0 s -> Store.maps s = Store.maps s0 /\ Store.vers s = Store.vers s0.
Proof. by intros [o ->]. Qed.
Lemma grown_contents s0 s n : grown s0 s -> Store.store_ok s0 -> Store.contents n s = Store.contents n s0.
Proof.
  intros Hg (_ & _ & Hent). unfold Store.contents, Store.table. destruct (grown_fields _ _ Hg) as [-> _].
  destruct (KvHandle.map_find n (Store.maps s0)) as [[cv id]|] eqn:E; [|done]. destruct (Hent _ _ _ E) as ((m & Hm & _) & _).
  by rewrite (grown_obj s0 s id m Hg Hm), Hm.
Qed.
Lemma grown_obj_ok s0 s v n id : grown s0 s -> Store.obj_ok v n id s0 -> Store.obj_ok v n id s.
Proof. intros Hg (m & Hm & Ht). exists m. split; [by apply (grown_obj s0) | done]. Qed.
Lemma grown_ok s0 s : grown s0 s -> Store.store_ok s0 -> Store.store_ok s.
Proof.
  intros Hg (H1 & H2 & H3). destruct (grown_fields _ _ Hg) as [Em Ev]. unfold Store.store_ok. rewrite Em, Ev. split_and!; [done | done |].
  intros n cv id Hf. destruct (H3 n cv id Hf) as (Ho & Hc & Hh). unfold Store.entry_ok. rewrite Ev. split_and!; [by apply (grown_obj_ok s0) | apply Hc | apply Hc |].
  intros m Hm. destruct Ho as (m0 & Hm0 & _). rewrite (grown_obj s0 s id m0 Hg Hm0) in Hm. injection Hm as <-. by apply Hh.
Qed.

(** The maps that have been read are in the change sets, ready to be applied. *)
Definition filled s0 (done : list (K * UntypedMap.Write)) (a : Sto * Store.Changes (T := T) * list (K * nat)) : Prop :=
  let '(s, changes, new_maps) := a in
  grown s0 s /\ Store.tx_ok s changes new_maps /\
  (forall n, Store.writes_of n changes = default [] (KvHandle.map_find n done)) /\
  (forall n, is_Some (KvHandle.map_find n changes) -> n ∈ done.*1) /\
  (forall n id c, KvHandle.map_find n changes = Some (id, c) -> fresh s id c) /\
  (forall n id, KvHandle.map_find n new_maps = Some id -> n ∈ done.*1 /\ KvHandle.map_find n (Store.maps s0) = None).

Lemma get_map_find v n s : Store.store_ok s -> Store.version (Store.vers s) <= v ->
  Store.get_map v n s = snd <$> KvHandle.map_find n (Store.maps s).
Proof.
  intros (_ & _ & Hent) Hv. unfold Store.get_map. destruct (KvHandle.map_find n (Store.maps s)) as [[cv id]|] eqn:E; [|done].
  destruct (Hent _ _ _ E) as (_ & Hc & _). destruct (Z.leb_spec cv v); [done | lia].
Qed.

(** A table can be opened at any version from the last compaction on. *)
Lemma open_table v n m : Store.table_ok v n m -> Store.head_version m <= v ->
  exists c cs, UntypedMap.create_change_set v m = Ok (Some (UntypedMap.Changes (UntypedMap.rollback_counter m) cs)) /\ UntypedMap.opened c cs.
Proof.
  intros (_ & Hm & Ht) Hh. pose proof (UntypedMap.create_change_set_spec v m Hm) as Hcs.
  destruct (UntypedMap.map_ok_tail m Hm) as (l & t & El & Et & _). unfold Store.tail_version in Ht. rewrite Et in Ht.
  rewrite El, reverse_snoc in Hcs. cbn [UntypedMap.find_at] in Hcs. destruct (Z.leb_spec (UntypedMap.lc_version t) v); [|lia].
  destruct Hcs as (_ & cs & E & Ho). by exists t, cs.
Qed.

Lemma new_table_ok v n d r : 0 <= v -> Store.table_ok v n (UntypedMap.new_map (T := T) n d r).
Proof. intros Hv. split_and!; [done | apply UntypedMap.new_map_ok | done]. Qed.

Lemma map_find_put {A} n k (a : A) l : KvHandle.map_find n (KvHandle.map_put k a l) = if bool_decide (n = k) then Some a else KvHandle.map_find n l.
Proof.
  rewrite !KvHandle.map_find_lookup, KvHandle.map_put_map. case_bool_decide; [subst; apply lookup_insert_eq | by apply lookup_insert_ne].
Qed.
Lemma map_find_elem {A} n (a : A) l : KvHandle.map_find n l = Some a -> n ∈ l.*1.
Proof. rewrite KvHandle.map_find_lookup. intros Hl%elem_of_list_to_map_2. by apply (list_elem_of_fmap_2 fst) in Hl. Qed.
Lemma map_find_snoc {A} n k (a : A) l : k ∉ l.*1 ->
  KvHandle.map_find n (l ++ [(k, a)]) = if bool_decide (n = k) then Some a else KvHandle.map_find n l.
Proof.
  intros Hk. rewrite !KvHandle.map_find_lookup, list_to_map_snoc by done. case_bool_decide; [subst; apply lookup_insert_eq | by apply lookup_insert_ne].
Qed.

(** The store grows, and a new map may be noted. *)
Lemma tx_ok_grown s s1 changes new_maps new1 : grown s s1 -> Store.tx_ok s changes new_maps -> KvHandle.sorted new1 ->
  (forall n id, KvHandle.map_find n new_maps = Some id -> KvHandle.map_find n new1 = Some id) ->
  (forall n id, KvHandle.map_find n new1 = Some id -> KvHandle.map_find n new_maps = Some id \/ Store.new_map_ok s1 n id) ->
  Store.tx_ok s1 changes new1.
Proof.
  intros Hg (H1 & H2 & H3 & H4) Hs Hsub Hnew. destruct (grown_fields _ _ Hg) as [Em Ev]. split_and!; [done | done | |].
  - intros n id c Hf. destruct (H3 n id c Hf) as (Ho & Hc & Hin). unfold Store.change_ok. rewrite Em, Ev.
    split_and!; [by apply (grown_obj_ok s) | done |]. destruct Hin as [?|?]; [by left | right; by apply Hsub].
  - intros n id Hf. destruct (Hnew n id Hf) as [Hf'|]; [|done]. destruct (H4 n id Hf') as (Ho & Ht). unfold Store.new_map_ok. rewrite Ev.
    split; [by apply (grown_obj_ok s)|]. intros m Hm. destruct Ho as (m0 & Hm0 & _). rewrite (grown_obj s s1 id m0 Hg Hm0) in Hm.
    injection Hm as <-. by apply Ht.
Qed.
Lemma fresh_grown s s1 id c : grown s s1 -> fresh s id c -> fresh s1 id c.
Proof. intros Hg (cs & m & Hm & H). exists cs, m. split; [by apply (grown_obj s) | done]. Qed.
Lemma grown_trans s0 s1 s2 : grown s0 s1 -> grown s1 s2 -> grown s0 s2.
Proof. intros [o ->] [o' ->]. exists (o ++ o'). cbn. unfold Store.set_objs. cbn. by rewrite app_assoc. Qed.

(** A table of the entry: found, or created and noted. *)
Lemma find_or_create s0 done s changes new_maps v n : Store.store_ok s0 -> Store.version (Store.vers s0) <= v ->
  filled s0 done (s, changes, new_maps) -> n ∉ done.*1 ->
  exists s1 new1 id m,
    match Store.get_map v n s with
    | Some id => (s, new_maps, id)
    | None => let '(s, id) := Store.create_map n s in (s, KvHandle.map_put n id new_maps, id)
    end = (s1, new1, id) /\
    Store.objs s1 !! id = Some m /\ Store.table_ok (Store.version (Store.vers s0)) n m /\ Store.head_version m <= Store.compacted (Store.vers s0) /\
    ((exists cv, KvHandle.map_find n (Store.maps s0) = Some (cv, id)) \/ KvHandle.map_find n new1 = Some id) /\
    filled s0 done (s, changes, new_maps) /\ grown s s1 /\ Store.tx_ok s1 changes new1 /\
    (forall n' id, KvHandle.map_find n' new1 = Some id -> n' ∈ n :: done.*1 /\ KvHandle.map_find n' (Store.maps s0) = None).
Proof.
  intros Hok Hv Hf Hn. pose proof Hf as (Hg & Htx & _ & _ & _ & Hnew). destruct (grown_fields _ _ Hg) as [Em Ev].
  pose proof (grown_ok _ _ Hg Hok) as Hoks. rewrite (get_map_find v n s Hoks) by (rewrite Ev; lia). rewrite Em.
  destruct (KvHandle.map_find n (Store.maps s0)) as [[cv id]|] eqn:E; cbn [fmap option_fmap option_map snd].
  - destruct (Hok) as (_ & _ & Hent). destruct (Hent n cv id E) as ((m & Hm & Ht) & _ & Hh). exists s, new_maps, id, m.
    split_and!; [done | by apply (grown_obj s0) | exact Ht | by apply Hh | left; by eexists | done | apply grown_refl | done |].
    intros n' id' Hf'. destruct (Hnew n' id' Hf'). split; [by right | done].
  - destruct Hok as (_ & (Hc0 & Hcv & _) & _). pose (m := UntypedMap.new_map (T := T) n (Store.get_security_domain n) (Store.is_map_replicated n s)).
    assert (Hg1 : grown s (fst (Store.create_map n s))) by apply grown_create, grown_refl.
    assert (Hm : Store.objs (fst (Store.create_map n s)) !! length (Store.objs s) = Some m) by (cbn; by rewrite lookup_app_r, Nat.sub_diag).
    assert (Ht : Store.table_ok (Store.version (Store.vers s0)) n m) by (apply new_table_ok; lia).
    exists (fst (Store.create_map n s)), (KvHandle.map_put n (length (Store.objs s)) new_maps), (length (Store.objs s)), m.
    assert (Hnone : KvHandle.map_find n new_maps = None).
    { destruct (KvHandle.map_find n new_maps) as [id|] eqn:E'; [|done]. by destruct (Hnew n id E'). }
    split_and!; [done | done | exact Ht | exact Hc0 | right; rewrite map_find_put; by rewrite bool_decide_eq_true_2 | done | done | |].
    + apply (tx_ok_grown s _ changes new_maps); [done | done | apply KvHandle.sorted_put, Htx | |].
      * intros n' id'. rewrite map_find_put. case_bool_decide; [congruence | done].
      * intros n' id'. rewrite map_find_put. case_bool_decide as En; [|by left]. intros [= <-]. subst n'. right.
        split; [exists m; split; [done | cbn; rewrite Ev; exact Ht]|]. intros m' Hm'. rewrite Hm in Hm'. injection Hm' as <-.
        cbn [Store.vers Store.create_map Store.alloc fst Store.set_objs]. rewrite Ev. split; [exact Hc0 | apply st_empty_ok].
    + intros n' id'. rewrite map_find_put. case_bool_decide as En; [subst; split; [by left | done]|]. intros Hf'.
      destruct (Hnew n' id' Hf'). split; [by right | done].
Qed.

(** A change set over it, with the writes [w]. *)
Lemma filled_open s0 done s changes new_maps s1 new1 id m n cs w : filled s0 done (s, changes, new_maps) -> n ∉ done.*1 ->
  grown s s1 -> Store.tx_ok s1 changes new1 -> Store.objs s1 !! id = Some m -> Store.table_ok (Store.version (Store.vers s0)) n m ->
  ((exists cv, KvHandle.map_find n (Store.maps s0) = Some (cv, id)) \/ KvHandle.map_find n new1 = Some id) ->
  (forall n' id, KvHandle.map_find n' new1 = Some id -> n' ∈ n :: done.*1 /\ KvHandle.map_find n' (Store.maps s0) = None) ->
  KvHandle.reads cs = [] -> KvHandle.cs_read_version cs = NoVersion -> KvHandle.writes cs = w -> KvHandle.sorted w -> Forall UntypedMap.write_ok w ->
  filled s0 (done ++ [(n, w)]) (s1, KvHandle.map_put n (id, UntypedMap.Changes (UntypedMap.rollback_counter m) cs) changes, new1).
Proof.
  intros Hf Hn Hg1 Htx1 Hm Ht Hin Hnew1 Hr Hrv <- Hsw Hw. pose proof Hf as (Hg & _ & Hwr & Hsome & Hfr & _).
  assert (Hgs : grown s0 s1) by by apply (grown_trans s0 s). destruct (grown_fields _ _ Hgs) as [Em Ev].
  pose proof Htx1 as (Hs1 & Hs2 & Hch & Hnm). split_and!; [done | | | | |].
  - split_and!; [by apply KvHandle.sorted_put | done | | done]. intros n' id' c'. rewrite map_find_put. case_bool_decide as En.
    + intros [= <- <-]. subst n'. split_and!; [exists m; by rewrite Ev | by eexists _, _ | by rewrite Em].
    + by apply Hch.
  - intros n'. rewrite map_find_snoc by done. unfold Store.writes_of. rewrite map_find_put. case_bool_decide; [done | apply Hwr].
  - intros n'. rewrite map_find_put, fmap_app, elem_of_app. case_bool_decide; [subst; right; by left | left; by apply Hsome].
  - intros n' id' c'. rewrite map_find_put. case_bool_decide.
    + intros [= <- <-]. by eexists _, m.
    + intros Hx. apply (fresh_grown s); [done|]. by apply (Hfr n').
  - intros n' id' Hx. destruct (Hnew1 n' id' Hx) as [Hel ?]. split; [|done]. rewrite fmap_app, elem_of_app.
    apply elem_of_cons in Hel as [->|]; [right; by left | by left].
Qed.

Lemma fill_step s0 v done n w a d0 rest d : Store.store_ok s0 -> Store.version (Store.vers s0) < v -> filled s0 done a -> n ∉ done.*1 ->
  KvHandle.sorted w -> Forall UntypedMap.write_ok w -> zlen w < M64 -> KvSerial.at_rest d0 (KvSerial.enc_writes w ++ rest) d ->
  exists d' a', fill_map v n d a = Ok (Some (d', a')) /\ KvSerial.at_rest d0 rest d' /\ filled s0 (done ++ [(n, w)]) a'.
Proof.
  destruct a as [[s changes] new_maps]. intros Hok Hv Hf Hn Hsw Hw Hzw Hd. unfold fill_map.
  destruct (find_or_create s0 done s changes new_maps v n Hok ltac:(lia) Hf Hn) as (s1 & new1 & id & m & E & Hm & Ht & Hh & Hin & _ & Hg1 & Htx1 & Hnew1).
  rewrite E. pose proof Hf as (Hg & _ & Hwr & Hsome & Hfr & _).
  assert (Hnone : KvHandle.map_find n changes = None) by (apply eq_None_not_Some; intros Hx; by apply Hn, Hsome).
  assert (Hgs : grown s0 s1) by by apply (grown_trans s0 s). destruct (grown_fields _ _ Hgs) as [Em Ev].
  rewrite Hnone. unfold Store.obj. rewrite Hm. cbn [mbind result_bind].
  pose proof Hok as (_ & (_ & Hcv & _) & _).
  assert (Htv : Store.table_ok v n m) by (destruct Ht as (? & ? & ?); split_and!; [done | done | lia]).
  destruct (open_table v n m Htv ltac:(lia)) as (c & cs & -> & Ho). cbn [mbind result_bind].
  destruct Ho as (_ & _ & _ & Hrv & Hr & Hws).
  destruct (KvSerial.deserialise_internal_ok d0 rest w cs d Hsw Hzw Hws Hd) as (d' & -> & Hd'). cbn [mbind result_bind].
  eexists _, _. split; [done|]. split; [done|]. by apply (filled_open s0 done s changes new_maps s1 new1 id m n).
Qed.

Lemma filled_nil s : filled s [] (s, [], []).
Proof. split_and!; [apply grown_refl | split_and!; [constructor | constructor | done | done] | done | by intros n [] | done | done]. Qed.

(** Change sets that have read nothing pass validation. *)
Lemma prepare_fresh changes s : KvHandle.sorted changes ->
  (forall n id c, KvHandle.map_find n changes = Some (id, c) -> fresh s id c /\ exists v, Store.obj_ok v n id s) ->
  Store.prepare_all false changes s = Ok true.
Proof.
  induction changes as [|[n [id c]] changes IH]; intros Hs Hfr; [done|]. cbn [Store.prepare_all].
  pose proof (KvHandle.sorted_not_in _ _ _ Hs) as Hni. apply KvHandle.sorted_inv in Hs as [Hs _].
  destruct (Hfr n id c) as ((cs & m & Hm & -> & Hr & Hrv) & (v & m' & Hm' & _ & Hmok & _)); [cbn; by rewrite bool_decide_eq_true_2|].
  rewrite Hm in Hm'. injection Hm' as <-. unfold Store.obj. rewrite Hm. cbn [mbind result_bind UntypedMap.prepare].
  assert (UntypedMap.prepare_changes false (UntypedMap.rollback_counter m) cs m = Ok true) as ->.
  { unfold UntypedMap.prepare_changes. destruct (KvHandle.writes cs); [done|]. rewrite Z.eqb_refl, Hr, Hrv.
    destruct (UntypedMap.map_ok_tail m Hmok) as (l' & t & _ & _ & -> & _). done. }
  cbn [mbind result_bind]. apply IH; [done|]. intros n' id' c' Hf. apply Hfr. cbn. case_bool_decide; [congruence | done].
Qed.

(** Nothing is rolled back when the entry is the next one. *)
Lemma rollback_next s v : Store.store_ok s -> v = Store.version (Store.vers s) ->
  Store.rollback (Store.mkTxID (Store.term_of_last_version (Store.vers s)) v) (Store.term_of_next_version (Store.vers s)) s = Ok s.
Proof.
  intros (_ & (_ & Hc & _) & _) ->. unfold Store.rollback. cbn [Store.tx_version Store.term].
  destruct (Z.ltb_spec (Store.version (Store.vers s)) (Store.compacted (Store.vers s))); [lia|]. cbn [Store.version]. rewrite Z.leb_refl.
  destruct s as [? ? [] ? ? ? ? ? ? ?]. done.
Qed.

(** Changes that are valid, with new names, are accepted. *)
Lemma apply_accepted resolver changes new_maps s s' r hooks :
  Store.apply_changes changes resolver new_maps None false s = Ok (s', r, hooks) ->
  Store.prepare_all false changes s = Ok true -> Store.new_maps_free None new_maps s = true -> r <> None.
Proof.
  unfold Store.apply_changes. intros E Hp Hf. rewrite Hp in E. cbn [mbind result_bind] in E. rewrite Hf in E. cbn [andb] in E.
  destruct (Store.changes_have_writes changes); [|by injection E as _ <- _].
  destruct (resolver _ _) as [vs [v x]]. cbn [negb] in E. destruct (Store.add_new_maps _ _ _ _); [|done..]. cbn [mbind result_bind] in E.
  destruct (Store.commit_all _ _ _ _) as [[s3 cvs]| |]; [|done..]. cbn [mbind result_bind] in E.
  destruct (Store.post_commit_all _ _ _); [|done..]. by injection E as _ <- _.
Qed.

Lemma no_writes_of n (changes : Store.Changes (T := T)) : Store.changes_have_writes changes = false -> UntypedMap.nonempty (Store.writes_of n changes) = false.
Proof.
  unfold Store.writes_of. induction changes as [|[n' [id c]] changes IH]; intros Hx; [done|]. cbn in Hx. apply orb_false_iff in Hx as [H1 H2]. cbn.
  case_bool_decide; [|by apply IH]. destruct c as [rb cs|]; [|done]. cbn in H1. by destruct (KvHandle.writes cs).
Qed.

Section entry.
Context (e : KvSerial.Encryptor) (tx : Store.TxID) (t : KvSerial.EntryType) (flags : Z) (evidence claims : list Z) (hint : bool) (l : list KvSerial.MapChange).
Let maps := KvSerial.selected UntypedMap.PUBLIC l ++ KvSerial.selected UntypedMap.PRIVATE l.

(** An entry that can be written, whose tables are distinct. *)
Definition entry_ok : Prop :=
  KvSerial.encryptor_ok e /\ Forall KvSerial.mc_ok l /\ t <> KvSerial.Snapshot /\
  (forall plain aad, exists hc, KvSerial.encrypt e plain aad tx t hint = Ok (Some hc)) /\
  u64 (Store.tx_version tx) /\ u64 (Store.term tx) /\ zlen evidence = 32 /\ zlen claims = 32 /\
  KvSerial.entry_size e t (Store.tx_version tx) evidence claims l < 2 ^ 48.
Hypothesis Hentry : entry_ok.
Hypothesis Hnodup : NoDup maps.*1.
Hypothesis Hwrites : Forall (fun m => Forall UntypedMap.write_ok m.2) maps.

Lemma maps_elem m : m ∈ maps -> KvHandle.sorted m.2 /\ Forall UntypedMap.write_ok m.2 /\ zlen m.2 < M64 /\ UntypedMap.nonempty m.2 = true.
Proof.
  destruct Hentry as (He & Hl & _ & _ & _ & _ & _ & _ & Hsz). intros Hm. rewrite Forall_forall in Hwrites.
  assert (Hcase : exists dom, m ∈ KvSerial.selected dom l) by (apply elem_of_app in Hm as [?|?]; by eexists).
  destruct Hcase as [dom Hd]. split_and!; [by apply (KvSerial.selected_sorted dom l) | by apply Hwrites | |].
  - unfold KvSerial.entry_size in Hsz. pose proof (KvSerial.enc_maps_elem m) as Hlen. destruct He as [Hh _].
    apply elem_of_app in Hm as [Hm|Hm]; apply Hlen in Hm; unfold M64; lia.
  - unfold KvSerial.selected in Hd. apply list_elem_of_fmap in Hd as (c & -> & Hc). apply list_elem_of_In, filter_In in Hc as [_ Hc].
    unfold KvSerial.in_domain in Hc. by apply andb_true_iff in Hc as [_ Hc].
Qed.

(** [fill_maps] reads the entry and prepares its change sets. *)
Lemma fill_maps_ok s : Store.store_ok s -> Store.tx_version tx = Store.version (Store.vers s) + 1 ->
  exists data s1 changes new_maps cl ev, KvSerial.make_entry e tx t flags evidence claims hint l = Ok data /\
    fill_maps (Some e) false hint true data s =
      Some (Ok (s1, Some (mkFilled (Store.tx_version tx) (Some (Store.term tx)) changes new_maps cl ev))) /\
    filled s maps (s1, changes, new_maps).
Proof.
  intros Hok Hv. destruct Hentry as (He & Hl & Ht & Henc & Hu1 & Hu2 & H32 & H32' & Hsz).
  destruct (KvSerial.make_entry_init e tx t flags evidence claims hint l He Hl Ht Henc Hu1 Hu2 H32 H32' Hsz)
    as (data & d & Em & Hlen & Ei & Ev & _ & _ & Hp & Hpub & Hpriv).
  exists data. unfold fill_maps. rewrite Ei, Ev. assert (wrap64 (Store.tx_version tx - 1) = Store.version (Store.vers s)) as ->.
  { pose proof Hok as (_ & (? & ? & ?) & _). rewrite wrap64_small; [lia | unfold u64, M64 in *; lia]. }
  rewrite rollback_next by done. rewrite andb_false_r. cbn [andb negb].
  destruct (KvSerial.read_maps_ok KvSerial.enc_writes (fill_map (Store.tx_version tx)) maps (filled s)) with
    (pub := KvSerial.selected UntypedMap.PUBLIC l) (priv := KvSerial.selected UntypedMap.PRIVATE l) (d := d) (a := (s, @nil (K * (nat * UntypedMap.ChangeSet T)), @nil (K * nat)))
    (fuel := S (length data)) as (d' & [[s1 changes] new_maps] & Er & Hf & Eend); [|done | apply filled_nil | done.. |].
  - intros done [n w] todo a d0 rest d1 Hm Ha Hd. cbn [fst snd] in *.
    destruct (maps_elem (n, w)) as (Hs & Hw & Hz & _); [rewrite Hm; apply elem_of_app; right; by left|].
    apply (fill_step s); [done | lia | done | | done..].
    clear -Hnodup Hm. rewrite Hm, fmap_app, NoDup_app in Hnodup. destruct Hnodup as (_ & Hx & _). intros Hin. apply (Hx n Hin). by left.
  - rewrite Er. cbn [mbind option_bind result_bind]. rewrite Eend. cbn [negb]. eexists s1, changes, new_maps, _, _. by split_and!.
Qed.

(** The change sets of the entry are applied. *)
Lemma commit_filled s s1 changes new_maps v term : Store.store_ok s -> v = Store.version (Store.vers s) + 1 -> v < 2 ^ 63 ->
  filled s maps (s1, changes, new_maps) ->
  exists s' hooks, Store.commit_deserialised changes v term new_maps s1 = Ok (s', true, hooks) /\ Store.store_ok s' /\
    Store.version (Store.vers s') = v /\ Store.term_of_last_version (Store.vers s') = term /\
    forall n, Store.contents n s' = match KvHandle.map_find n maps with
      | Some w => Some (foldl (UntypedMap.write1 v) (default ∅ (Store.contents n s)) w) | None => Store.contents n s end.
Proof.
  intros Hok Hv Hv63 (Hg & Htx & Hw & Hin & Hfr & Hnew). pose proof (grown_ok _ _ Hg Hok) as Hok1. destruct (grown_fields _ _ Hg) as [Em Ev].
  unfold Store.commit_deserialised.
  destruct (Store.apply_changes_spec (fun _ vs => (vs, (v, wrap64 (v - 1)))) changes new_maps s1 (Store.vers s1) v (wrap64 (v - 1)) Hok1 Htx)
    as (s' & r & hooks & E & Hr); [done | rewrite Ev; lia|].
  pose proof Htx as (Hsc & Hsn & Hch & _).
  assert (Hr' : r <> None).
  { apply (apply_accepted _ _ _ _ _ _ _ E).
    - apply prepare_fresh; [done|]. intros n id c Hf. split; [by apply (Hfr n) | eexists; apply (Hch n id c Hf)].
    - unfold Store.new_maps_free. apply forallb_forall. intros [n id] Hel%list_elem_of_In. apply Store.sorted_find in Hel; [|done].
      cbn [fst]. rewrite get_map_find by done. rewrite Em. by destruct (Hnew n id Hel) as [_ ->]. }
  rewrite E. cbn [mbind result_bind]. destruct r as [r|]; [|done]. exists (Store.set_vers (Store.mkVersions v (Store.last_new_map (Store.vers s'))
    (Store.compacted (Store.vers s')) (Store.term_of_next_version (Store.vers s')) term v (Store.last_committable (Store.vers s')) (Store.rollback_count (Store.vers s'))) s'), hooks.
  split; [done|]. pose proof Hok as (_ & (? & ? & ?) & _).
  assert (Hcont : forall n, Store.contents n s' = if UntypedMap.nonempty (Store.writes_of n changes)
     then Some (foldl (UntypedMap.write1 v) (default ∅ (Store.contents n s1)) (Store.writes_of n changes)) else Store.contents n s1).
  { intros n. destruct (Store.changes_have_writes changes) eqn:Ech; [apply Hr|]. destruct Hr as (_ & -> & _).
    by rewrite (no_writes_of n). }
  split_and!; [| done | done |].
  - destruct (Store.changes_have_writes changes); [destruct Hr as (_ & Hvs & _ & _ & Hok'); apply Hok'; [done | by rewrite Hvs]|].
    destruct Hr as (_ & -> & _). apply Store.store_ok_next; [done | rewrite Ev; cbn; lia | done].
  - intros n. change (Store.contents n (Store.set_vers ?vs s')) with (Store.contents n s'). rewrite Hcont, Hw, (grown_contents s s1 n Hg Hok).
    destruct (KvHandle.map_find n maps) as [w|] eqn:Ew; [|done]. cbn [from_option].
    destruct (maps_elem (n, w)) as (_ & _ & _ & Hne); [rewrite KvHandle.map_find_lookup in Ew; by apply elem_of_list_to_map_2|].
    cbn [snd] in Hne. unfold id. by rewrite Hne.
Qed.

(** A backup that is at the version before the entry applies it. *)
Lemma apply_entry term0 s verify : Store.store_ok s -> Store.tx_version tx = Store.version (Store.vers s) + 1 -> Store.tx_version tx < 2 ^ 63 ->
  SIGNATURES ∉ maps.*1 ->
  exists data s' r, KvSerial.make_entry e tx t flags evidence claims hint l = Ok data /\
    apply term0 (Some e) false hint None verify data s = Some (Ok (s', r)) /\ r <> FAIL /\ Store.store_ok s' /\
    Store.version (Store.vers s') = Store.tx_version tx /\ Store.term_of_last_version (Store.vers s') = Store.term tx /\
    forall n, Store.contents n s' = match KvHandle.map_find n maps with
      | Some w => Some (foldl (UntypedMap.write1 (Store.tx_version tx)) (default ∅ (Store.contents n s)) w) | None => Store.contents n s end.
Proof.
  intros Hok Hv Hv63 Hsig. destruct (fill_maps_ok s Hok Hv) as (data & s1 & changes & new_maps & cl & ev & Em & Ef & Hf).
  destruct (commit_filled s s1 changes new_maps _ (Store.term tx) Hok Hv Hv63 Hf) as (s' & hooks & Ec & H).
  exists data, s'. unfold apply. rewrite Ef. cbn [mbind option_bind result_bind f_version f_view f_changes f_new_maps from_option]. unfold id. rewrite Ec.
  cbn [mbind result_bind negb].
  assert (has_change SIGNATURES changes = false) as ->.
  { unfold has_change. destruct (KvHandle.map_find SIGNATURES changes) eqn:E; [|done]. destruct Hf as (_ & _ & _ & Hin & _).
    destruct Hsig. apply Hin. by rewrite E. }
  cbn [andb]. eexists. split_and!; [done | done | | apply H..]. by repeat destruct (has_change _ _).
Qed.

End entry.

(** *** The entry of a transaction *)

Lemma NoDup_fmap_inj {A B} (f : A -> B) l x y : NoDup (f <$> l) -> x ∈ l -> y ∈ l -> f x = f y -> x = y.
Proof.
  intros Hnd [i Hi]%list_elem_of_lookup [j Hj]%list_elem_of_lookup Hf.
  assert (i = j) as ->; [|congruence]. apply (NoDup_lookup (f <$> l) i j (f x) Hnd); rewrite list_lookup_fmap; [by rewrite Hi | by rewrite Hj, Hf].
Qed.

(** The public entries before the private ones: every entry once. *)
Lemma two_domains {A B} (f : A -> K) (g : A -> B) (p q : A -> bool) l : NoDup (f <$> l) -> (forall a, p a = true -> q a = true -> False) ->
  let maps := ((fun a => (f a, g a)) <$> List.filter p l) ++ ((fun a => (f a, g a)) <$> List.filter q l) in
  NoDup maps.*1 /\
  forall n w, KvHandle.map_find n maps = Some w <-> exists a, a ∈ l /\ f a = n /\ g a = w /\ p a || q a = true.
Proof.
  intros Hnd Hpq maps. assert (Hel : forall r n w, (n, w) ∈ (fun a => (f a, g a)) <$> List.filter r l <-> exists a, a ∈ l /\ f a = n /\ g a = w /\ r a = true).
  { intros r n w. rewrite list_elem_of_fmap. split.
    - intros (a & [= -> ->] & Ha). apply list_elem_of_In, filter_In in Ha as [Ha Hr]. exists a. by rewrite list_elem_of_In.
    - intros (a & Ha & <- & <- & Hr). exists a. split; [done|]. apply list_elem_of_In, filter_In. by rewrite <- list_elem_of_In. }
  assert (Hdom : forall r, NoDup ((fun a => (f a, g a)) <$> List.filter r l).*1).
  { intros r. clear maps Hel. induction l as [|c l IH]; [constructor|]. apply NoDup_cons in Hnd as [Hc Hnd]. cbn [List.filter].
    destruct (r c); [|by apply IH]. cbn. constructor; [|by apply IH]. intros Hx. apply Hc. rewrite <- list_fmap_compose in Hx.
    apply list_elem_of_fmap in Hx as (c' & -> & Hc'). apply list_elem_of_In, filter_In in Hc' as [Hc' _]. apply list_elem_of_fmap. exists c'. by rewrite list_elem_of_In. }
  assert (Hmaps : NoDup maps.*1).
  { unfold maps. rewrite fmap_app. apply NoDup_app. split_and!; [apply Hdom | | apply Hdom]. intros n Hn1 Hn2.
    apply list_elem_of_fmap in Hn1 as ([? w1] & -> & H1), Hn2 as ([? w2] & E2 & H2). cbn in E2. subst.
    apply Hel in H1 as (c1 & Hc1 & En1 & _ & Hp), H2 as (c2 & Hc2 & En2 & _ & Hq).
    assert (c1 = c2); [apply (NoDup_fmap_inj f l); congruence | subst; by eapply Hpq]. }
  split; [done|]. intros n w. rewrite KvHandle.map_find_lookup, <- elem_of_list_to_map by done. unfold maps. rewrite elem_of_app, !Hel.
  setoid_rewrite orb_true_iff. split.
  - intros [(a & ? & ? & ? & ?)|(a & ? & ? & ? & ?)]; exists a; split_and!; auto.
  - intros (a & ? & ? & ? & [?|?]); [left | right]; by exists a.
Qed.

Definition mc_writes (c : KvSerial.MapChange) : UntypedMap.Write := KvHandle.writes (KvSerial.mc_changes c).

Lemma in_domain_spec dom c : KvSerial.in_domain dom c = true <->
  KvSerial.mc_domain c = dom /\ KvSerial.mc_replicated c = true /\ UntypedMap.nonempty (mc_writes c) = true.
Proof.
  unfold KvSerial.in_domain, mc_writes. rewrite !andb_true_iff. split; [intros [[H1 ->] ->] | intros (-> & -> & ->)]; split_and!; try done.
  - by destruct (KvSerial.mc_domain c), dom.
  - by destruct dom.
Qed.

(** Every replicated table with writes is in the entry, once. *)
Lemma selected_maps l : NoDup (KvSerial.mc_name <$> l) ->
  let maps := KvSerial.selected UntypedMap.PUBLIC l ++ KvSerial.selected UntypedMap.PRIVATE l in
  NoDup maps.*1 /\
  forall n w, KvHandle.map_find n maps = Some w <->
    exists c, c ∈ l /\ KvSerial.mc_name c = n /\ mc_writes c = w /\ KvSerial.mc_replicated c = true /\ UntypedMap.nonempty w = true.
Proof.
  intros Hnd maps. destruct (two_domains KvSerial.mc_name mc_writes (KvSerial.in_domain UntypedMap.PUBLIC) (KvSerial.in_domain UntypedMap.PRIVATE) l Hnd)
    as [Hmaps Hfind]; [intros c [? _]%in_domain_spec [? _]%in_domain_spec; congruence|].
  split; [exact Hmaps|]. intros n w. etransitivity; [apply Hfind|]. setoid_rewrite orb_true_iff. setoid_rewrite in_domain_spec. split.
  - intros (c & ? & ? & <- & [(_ & ? & ?)|(_ & ? & ?)]); by exists c.
  - intros (c & ? & ? & <- & ? & ?). exists c. split_and!; [done.. |]. destruct (KvSerial.mc_domain c); [by left | by right].
Qed.

(** What a table keeps when it is written. *)
Definition attrs (m : UntypedMap.Map T) : K * UntypedMap.SecurityDomain * bool :=
  (UntypedMap.name m, UntypedMap.security_domain m, UntypedMap.replicated m).

Lemma commit_attrs v c m m' cv : UntypedMap.commit v false c m = Ok (m', cv) -> attrs m' = attrs m.
Proof.
  destruct c as [rb cs|st ver]; cbn [UntypedMap.commit]; intros H.
  - unfold UntypedMap.commit_changes in H. destruct (_ && _); [by injection H as <- _|].
    destruct (UntypedMap.get_tail m) as [t| |]; [|done..]. cbn [mbind result_bind andb] in H.
    destruct (UntypedMap.apply_writes _ _ _ _) as [[st []]| |]; [| |done..]; by injection H as <- _.
  - unfold UntypedMap.commit_snapshot in H. destruct (UntypedMap.hook m || _).
    + destruct (st_entries st); [|done..]. by injection H as <- _.
    + by injection H as <- _.
Qed.

Definition same_attrs s s' : Prop := forall id, attrs <$> Store.objs s' !! id = attrs <$> Store.objs s !! id.

Lemma set_obj_attrs s id m m' : Store.objs s !! id = Some m -> attrs m' = attrs m -> same_attrs s (Store.set_obj id m' s).
Proof.
  intros Hm Ha id'. cbn. destruct (decide (id' = id)) as [->|]; [|by rewrite list_lookup_insert_ne].
  rewrite list_lookup_insert_eq by (by eapply lookup_lt_Some). rewrite Hm. cbn. by rewrite Ha.
Qed.

Lemma commit_all_attrs v changes : forall s s' cvs, Store.commit_all v false changes s = Ok (s', cvs) -> same_attrs s s'.
Proof.
  induction changes as [|[n [id c]] changes IH]; intros s s' cvs H; cbn [Store.commit_all] in H; [by injection H as <- _|].
  unfold Store.obj in H. destruct (Store.objs s !! id) as [m|] eqn:Hm; [|done]. cbn [mbind result_bind] in H.
  destruct (UntypedMap.commit v false c m) as [[m' cv]| |] eqn:Ec; [|done..]. cbn [mbind result_bind] in H.
  destruct (Store.commit_all v false changes (Store.set_obj id m' s)) as [[s2 cvs2]| |] eqn:E2; [|done..]. injection H as <- _.
  intros id'. rewrite (IH _ _ _ E2 id'). by apply (set_obj_attrs s id m), (commit_attrs v c _ _ cv).
Qed.

Lemma add_new_maps_attrs v changes new_maps : forall s s', Store.add_new_maps v changes new_maps s = Ok s' -> same_attrs s s'.
Proof.
  induction new_maps as [|[n id] new_maps IH]; intros s s' H; cbn [Store.add_new_maps] in H; [by injection H as <-|].
  destruct (match KvHandle.map_find n changes with Some _ => _ | None => _ end) as [s1| |] eqn:E1; [|done..]. cbn [mbind result_bind] in H.
  intros id'. rewrite (IH _ _ H id'). clear IH H. destruct (KvHandle.map_find n changes) as [[id0 c]|]; [|by injection E1 as <-].
  destruct (UntypedMap.has_writes c); [|by injection E1 as <-]. unfold Store.add_dynamic_map, Store.obj in E1.
  destruct (Store.objs s !! id) as [m|] eqn:Hm; [|done]. cbn [mbind result_bind] in E1.
  destruct (Store.get_map _ _ _); [done|]. injection E1 as <-.
  match goal with |- context [Store.set_obj id ?m' (Store.set_maps ?l s)] => apply (set_obj_attrs (Store.set_maps l s) id m m' Hm) end. done.
Qed.

Lemma apply_changes_attrs resolver changes new_maps cv s s' r hooks :
  Store.apply_changes changes resolver new_maps cv false s = Ok (s', r, hooks) -> same_attrs s s'.
Proof.
  unfold Store.apply_changes. intros H. destruct (Store.prepare_all false changes s); [|done..]. cbn [mbind result_bind] in H.
  destruct (_ && _); [|by injection H as <- _ _]. destruct (resolver _ _) as [vs [v x]]. cbn [negb] in H.
  destruct (Store.add_new_maps v changes new_maps _) as [s2| |] eqn:E2; [|done..]. cbn [mbind result_bind] in H.
  destruct (Store.commit_all v false changes s2) as [[s3 cvs]| |] eqn:E3; [|done..]. cbn [mbind result_bind] in H.
  destruct (Store.post_commit_all _ _ _); [|done..]. injection H as <- _ _.
  intros id. rewrite (commit_all_attrs _ _ _ _ _ E3 id). apply (add_new_maps_attrs _ _ _ _ _ E2 id).
Qed.

End lemmas.

Section theorems.
Context {P Q T : Type} `{ST : KvState VersionV T} `{KL : !KvStateLaws VersionV T}.
Implicit Types (sp : Store.Store Q T) (sb : Store.Store P T).

(** The changes of the entry are those of the transaction, in its order. *)
Lemma entry_changes (changes : Store.Changes (T := T)) new_maps sp sp' l : Store.tx_ok sp changes new_maps -> same_attrs sp sp' ->
  result_mapM (fun c => Tx.map_change c sp') changes = Ok l ->
  Forall2 (fun c mc => KvSerial.mc_name mc = c.1 /\ mc_writes mc = Store.writes_of c.1 changes) changes l.
Proof.
  intros (Hs & _ & Hch & _) Ha Hl%result_mapM_ok. apply Forall2_same_length_lookup. split; [by eapply Forall2_length|].
  intros i [n [id c]] mc Hi Hj. pose proof (Forall2_lookup_lr _ _ _ _ _ _ Hl Hi Hj) as Hmc. cbn [fst].
  assert (Hf : KvHandle.map_find n changes = Some (id, c)) by (apply Store.sorted_find; [done | by apply list_elem_of_lookup_2 in Hi]).
  destruct (Hch n id c Hf) as ((m0 & Hm0 & Hn & _) & (rb & cs & -> & _) & _). unfold Tx.map_change, Store.obj in Hmc. cbn [fst snd] in Hmc.
  specialize (Ha id). rewrite Hm0 in Ha. destruct (Store.objs sp' !! id) as [m|]; [|done]. injection Ha as Ea.
  injection Hmc as <-. unfold mc_writes, Store.writes_of. rewrite Hf. split; [cbn; congruence | done].
Qed.

Lemma entry_maps (changes : Store.Changes (T := T)) l : KvHandle.sorted changes ->
  Forall2 (fun c mc => KvSerial.mc_name mc = c.1 /\ mc_writes mc = Store.writes_of c.1 changes) changes l ->
  let maps := KvSerial.selected UntypedMap.PUBLIC l ++ KvSerial.selected UntypedMap.PRIVATE l in
  NoDup maps.*1 /\ (forall n w, KvHandle.map_find n maps = Some w -> n ∈ changes.*1 /\ w = Store.writes_of n changes) /\
  forall n, (forall c, c ∈ l -> KvSerial.mc_name c = n -> KvSerial.mc_replicated c = true) ->
    KvHandle.map_find n maps = if UntypedMap.nonempty (Store.writes_of n changes) then Some (Store.writes_of n changes) else None.
Proof.
  intros Hs Hf2 maps. assert (Hnames : KvSerial.mc_name <$> l = changes.*1).
  { clear -Hf2. revert Hf2. generalize changes at 1. intros ch Hf2. induction Hf2 as [|c mc cs mcs [H _] _ IH]; [done|]. cbn. by rewrite H, IH. }
  destruct (selected_maps l) as [Hnd Hfind]; [rewrite Hnames; by apply KvHandle.sorted_NoDup|]. fold maps in Hnd, Hfind.
  assert (Hel : forall c, c ∈ l -> KvSerial.mc_name c ∈ changes.*1 /\ mc_writes c = Store.writes_of (KvSerial.mc_name c) changes).
  { intros c Hc. split; [rewrite <- Hnames; by apply list_elem_of_fmap_2|]. apply list_elem_of_lookup in Hc as [i Hi].
    destruct (Forall2_lookup_r _ _ _ _ _ Hf2 Hi) as (x & _ & Hn & Hw). by rewrite Hw, Hn. }
  split_and!; [done | |].
  - intros n w (c & Hc & <- & <- & _)%Hfind. by apply Hel.
  - intros n Hrep. destruct (UntypedMap.nonempty (Store.writes_of n changes)) eqn:En.
    + apply Hfind. assert (Hin : n ∈ changes.*1).
      { unfold Store.writes_of in En. destruct (KvHandle.map_find n changes) eqn:E; [|done]. by apply map_find_elem in E. }
      rewrite <- Hnames in Hin. apply list_elem_of_fmap in Hin as (c & -> & Hc). exists c. split_and!; [done | done | apply Hel, Hc | by apply Hrep | done].
    + destruct (KvHandle.map_find n maps) as [w|] eqn:E; [|done]. apply Hfind in E as (c & Hc & Hn & <- & _ & Hne).
      destruct (Hel c Hc) as [_ Hw]. rewrite Hn in Hw. congruence.
Qed.

Lemma written_ok sp (changes : Store.Changes (T := T)) new_maps n : Store.tx_ok sp changes new_maps -> Forall UntypedMap.write_ok (Store.writes_of n changes).
Proof.
  intros (_ & _ & Hch & _). unfold Store.writes_of. destruct (KvHandle.map_find n changes) as [[id c]|] eqn:E; [|constructor].
  destruct (Hch n id c E) as (_ & (rb & cs & -> & Hw) & _). apply Hw.
Qed.

(** What the primary has after the transaction. *)
Lemma primary_applied changes new_maps sp sp' v hooks : Store.store_ok sp -> Store.tx_ok sp changes new_maps ->
  Store.version (Store.vers sp) < Store.max_deletable -> Store.changes_have_writes changes = true ->
  Store.apply_changes changes Store.next_version new_maps None false sp = Ok (sp', Some v, hooks) ->
  v = Store.version (Store.vers sp) + 1 /\ Store.version (Store.vers sp') = v /\
  forall n, Store.contents n sp' = if UntypedMap.nonempty (Store.writes_of n changes)
    then Some (foldl (UntypedMap.write1 v) (default ∅ (Store.contents n sp)) (Store.writes_of n changes)) else Store.contents n sp.
Proof.
  intros Hok Htx Hv Hw E. pose proof Hok as (_ & (? & ? & ?) & _). unfold Store.max_deletable in Hv.
  pose proof (Store.next_version_spec (match new_maps with [] => false | _ :: _ => true end) (Store.vers sp)) as Hnv.
  destruct (Store.next_version _ (Store.vers sp)) as [vs [v0 x]] eqn:Er. destruct Hnv as (-> & Hv1 & Hv2); [unfold Store.max_deletable; lia|].
  destruct (Store.apply_changes_spec Store.next_version changes new_maps sp vs _ x Hok Htx Er) as (s' & r & h & E' & Hr); [lia|].
  rewrite E in E'. injection E' as <- <- <-. rewrite Hw in Hr. destruct Hr as (-> & Hvs & _ & Hc & _). split_and!; [done | by rewrite Hvs | done].
Qed.

(** C8. A backup that is at the primary's version applies the entry which the
    primary wrote for a transaction.  The store has the primary's version, the
    term of the transaction, and every replicated table that was equal on both
    sides is equal again. *)
Theorem backup_follows_primary term0 e evidence claims (tx : Tx.Tx T) sp sp' sb l v hooks verify :
  Store.store_ok sp -> Store.tx_ok sp (Tx.all_changes tx) (Tx.created_maps tx) -> Store.version (Store.vers sp) < Store.max_deletable ->
  Store.changes_have_writes (Tx.all_changes tx) = true ->
  Store.apply_changes (Tx.all_changes tx) Store.next_version (Tx.created_maps tx) None false sp = Ok (sp', Some v, hooks) ->
  result_mapM (fun c => Tx.map_change c sp') (Tx.all_changes tx) = Ok l ->
  entry_ok e (Store.mkTxID (Tx.commit_view tx) v) KvSerial.WriteSetWithCommitEvidenceAndClaims
    (evidence (Store.mkTxID (Tx.commit_view tx) v)) claims false l ->
  SIGNATURES ∉ (Tx.all_changes tx).*1 ->
  Store.store_ok sb -> Store.version (Store.vers sb) = Store.version (Store.vers sp) ->
  exists data sb' r,
    Tx.serialise (Some e) evidence (Some claims) sp' (Tx.set_outcome true true v tx) = Ok data /\
    apply term0 (Some e) false false None verify data sb = Some (Ok (sb', r)) /\ r <> FAIL /\ Store.store_ok sb' /\
    Store.version (Store.vers sb') = Store.version (Store.vers sp') /\ Store.term_of_last_version (Store.vers sb') = Tx.commit_view tx /\
    forall n, Store.contents n sp = Store.contents n sb ->
      (forall c, c ∈ l -> KvSerial.mc_name c = n -> KvSerial.mc_replicated c = true) -> Store.contents n sp' = Store.contents n sb'.
Proof.
  intros Hok Htx Hmax Hw Hap Hl Hentry Hsig Hokb Hver. pose proof (entry_changes _ _ _ _ _ Htx (apply_changes_attrs _ _ _ _ _ _ _ _ Hap) Hl) as Hf2.
  destruct (primary_applied _ _ _ _ _ _ Hok Htx Hmax Hw Hap) as (Hv & Hv' & Hcp).
  destruct (entry_maps _ l (proj1 Htx) Hf2) as (Hnd & Hin & Hfind). unfold Store.max_deletable in Hmax.
  destruct (apply_entry (P := P) e (Store.mkTxID (Tx.commit_view tx) v) _ (if Tx.flag_enabled Tx.LEDGER_CHUNK_BEFORE_THIS_TX tx
      then Z.lor (Tx.entry_flags tx) Tx.FORCE_LEDGER_CHUNK_BEFORE else Tx.entry_flags tx) _ claims false l Hentry Hnd)
    with (term0 := term0) (s := sb) (verify := verify) as (data & sb' & r & Em & Ea & Hr & Hokb' & Hvb & Htb & Hcb); [| done | cbn; lia | cbn; lia | |].
  - apply Forall_forall. intros [n w] Hm. rewrite elem_of_list_to_map, <- KvHandle.map_find_lookup in Hm by done.
    apply Hin in Hm as [_ ->]. by apply (written_ok sp _ (Tx.created_maps tx)).
  - intros Hx. apply list_elem_of_fmap in Hx as ([n w] & En & Hm). rewrite elem_of_list_to_map, <- KvHandle.map_find_lookup in Hm by done.
    apply Hin in Hm as [Hm _]. by rewrite En in Hsig.
  - exists data, sb', r. split_and!; [| done | done | done | by rewrite Hvb, Hv' | done |].
    + unfold Tx.serialise. cbn [Tx.set_outcome Tx.committed Tx.success Tx.all_changes Tx.tx_ver Tx.commit_view negb]. rewrite Hw. cbn [negb].
      rewrite Hl. exact Em.
    + intros n Heq Hrep. rewrite Hcp, Hcb, (Hfind n Hrep), Heq. by destruct (UntypedMap.nonempty _).
Qed.

Lemma fill_map_grown v n d (s : Store.Store P T) changes new_maps d' s' changes' new_maps' :
  fill_map v n d (s, changes, new_maps) = Ok (Some (d', (s', changes', new_maps'))) -> grown s s'.
Proof.
  unfold fill_map. destruct (Store.get_map v n s) as [id|]; [|cbn [Store.create_map Store.alloc]].
  all: destruct (KvHandle.map_find n changes); [done|]; destruct (Store.obj _ _); [|done..]; cbn [mbind result_bind].
  all: destruct (UntypedMap.create_change_set v _) as [[[rb cs|]|]| |]; [|done..]; cbn [mbind result_bind].
  all: destruct (KvSerial.deserialise_internal cs d) as [[cs' d1]| |]; [|done..]; cbn [mbind result_bind]; intros [= _ <- _ _].
  - apply grown_refl.
  - apply (grown_create s s n), grown_refl.
Qed.

Lemma read_maps_grown v fuel : forall d (s : Store.Store P T) changes new_maps d' s' changes' new_maps',
  KvSerial.read_maps (fill_map v) fuel d (s, changes, new_maps) = Some (Ok (Some (d', (s', changes', new_maps')))) -> grown s s'.
Proof.
  induction fuel as [|fuel IH]; intros d s changes new_maps d' s' changes' new_maps' H; [done|]. cbn [KvSerial.read_maps] in H.
  destruct (KvSerial.next_map d) as [[[n|] d1]| |]; [| |done..]; [|injection H as _ <- _ _; apply grown_refl].
  destruct (fill_map v n d1 (s, changes, new_maps)) as [[[d2 [[s2 ch2] nm2]]|]| |] eqn:E; [|done..].
  apply (grown_trans s s2); [by eapply fill_map_grown | by eapply IH].
Qed.

(** What an entry that is refused before it is applied leaves behind: the
    rollback to the version before it, and objects that no name leads to. *)
Definition refused (e : option KvSerial.Encryptor) (public_only hint : bool) (data : list Z) (s s' : Store.Store P T) : Prop :=
  (KvSerial.init e public_only hint data = Ok None /\ s' = s) \/
  exists d view s1, let vs := Store.vers s in
    KvSerial.init e public_only hint data = Ok (Some (d, view)) /\
    Store.rollback (Store.mkTxID (Store.term_of_last_version vs) (wrap64 (KvSerial.d_version d - 1))) (Store.term_of_next_version vs) s = Ok s1 /\
    grown s1 s'.

Lemma fill_maps_refused e public_only hint strict data (s s' : Store.Store P T) o :
  fill_maps e public_only hint strict data s = Some (Ok (s', o)) -> refused e public_only hint data s s'.
Proof.
  unfold fill_maps. destruct (KvSerial.init e public_only hint data) as [[[d view]|]| |] eqn:Ei; [| |done..]; [|intros [= <- _]; by left].
  destruct (Store.rollback _ _ s) as [s1| |] eqn:Er; [|done..]. intros H. right. exists d, view, s1. split; [exact Ei|]. split; [exact Er|].
  destruct (_ && _); [injection H as <- _; apply grown_refl|].
  destruct (KvSerial.read_maps _ _ _ _) as [[[[d' [[s2 ch] nm]]|]| |]|] eqn:E; cbn [mbind option_bind result_bind] in H; [| |done..].
  - apply (read_maps_grown _ _ _ _ _ _ _ _ _ _) in E. by destruct (negb _); injection H as <- _.
  - injection H as <- _. apply grown_refl.
Qed.

Lemma apply_changes_none changes resolver new_maps (s s' : Store.Store P T) hooks :
  Store.apply_changes changes resolver new_maps None false s = Ok (s', None, hooks) -> s' = s.
Proof.
  unfold Store.apply_changes. intros H. destruct (Store.prepare_all false changes s) as [b| |]; [|done..]. cbn [mbind result_bind] in H.
  destruct (_ && Store.changes_have_writes changes); [|by injection H as <- _ _]. destruct (resolver _ _) as [vs [v x]]. cbn [negb] in H.
  destruct (Store.add_new_maps v changes new_maps _) as [s2| |]; [|done..]. cbn [mbind result_bind] in H.
  destruct (Store.commit_all v false changes s2) as [[s3 cvs]| |]; [|done..]. cbn [mbind result_bind] in H.
  by destruct (Store.post_commit_all _ _ _).
Qed.

(** C34. An entry that fails leaves the backup as it was before the entry: at
    most the local transactions from its version on are rolled back, and no
    table is written.  The exception is an entry with a signature, which is
    verified only when its writes have been applied. *)
Theorem entry_rejected term0 e public_only hint expected verify data (s s' : Store.Store P T) :
  apply term0 e public_only hint expected verify data s = Some (Ok (s', FAIL)) ->
  refused e public_only hint data s s' \/
  exists s1 f hooks, fill_maps e public_only hint true data s = Some (Ok (s1, Some f)) /\ has_change SIGNATURES (f_changes f) = true /\
    Store.commit_deserialised (f_changes f) (f_version f) (default term0 (f_view f)) (f_new_maps f) s1 = Ok (s', true, hooks).
Proof.
  unfold apply. destruct (fill_maps e public_only hint true data s) as [[[s1 [f|]]| |]|] eqn:Ef; cbn [mbind option_bind result_bind]; [| |done..].
  2:{ intros [= <-]. left. by eapply fill_maps_refused. }
  cbv zeta. destruct (match expected with Some _ => _ | None => _ end); [intros [= <-]; left; by eapply fill_maps_refused|].
  destruct (Store.commit_deserialised _ _ _ _ s1) as [[[s2 ok] hooks]| |] eqn:Ec; [|done..]. cbn [mbind result_bind]. destruct ok; cbn [negb].
  - destruct (has_change SIGNATURES (f_changes f)) eqn:Es.
    + intros H. right. exists s1, f, hooks. split_and!; [done | done |]. cbn [andb] in H. rewrite Ec.
      repeat match type of H with context [if ?b then _ else _] => destruct b end; by injection H as <-.
    + cbn [andb]. by repeat destruct (has_change _ _).
  - intros [= <-]. left. unfold Store.commit_deserialised in Ec.
    destruct (Store.apply_changes _ _ _ _ _ s1) as [[[s3 [c|]] h]| |] eqn:Ea; [done | | done..]. cbn [mbind result_bind] in Ec. injection Ec as <- _.
    apply apply_changes_none in Ea as ->. by eapply fill_maps_refused.
Qed.

End theorems.

(** ** Examples *)

Definition ex_tx : Tx.Tx Store.RB := Tx.mkTx Store.ex_changes Store.ex_new_maps None 3 false false 0 0 0.
Definition ex_evidence (_ : Store.TxID) : list Z := repeat 7 32.
Definition ex_claims : list Z := repeat 9 32.
Definition ex_changed : list KvSerial.MapChange :=
  match result_mapM (fun c => Tx.map_change c Store.ex_s2) Store.ex_changes with Ok l => l | _ => [] end.
Definition ex_data : list Z :=
  match Tx.serialise (Some KvSerial.null_encryptor) ex_evidence (Some ex_claims) Store.ex_s2 (Tx.set_outcome true true 1 ex_tx) with Ok d => d | _ => [] end.
Definition ex_verify (_ : Store.EStore) (_ : option Z) : option bool := None.

Lemma ex_s0_ok : Store.store_ok Store.ex_s0.
Proof. split_and!; [constructor | by split_and!; cbn |]. done. Qed.
Lemma ex_s1_ok : Store.store_ok Store.ex_s1.
Proof. apply (Store.sstep_ok Store.ex_s0); [apply ex_s0_ok | apply Store.sstep_create]. Qed.

Lemma backup_follows_primary_witness :
  exists data sb' r,
    Tx.serialise (Some KvSerial.null_encryptor) ex_evidence (Some ex_claims) Store.ex_s2 (Tx.set_outcome true true 1 ex_tx) = Ok data /\
    apply 0 (Some KvSerial.null_encryptor) false false None ex_verify data Store.ex_s0 = Some (Ok (sb', r)) /\ r <> FAIL /\
    Store.contents Store.ex_name sb' = Some (foldl (UntypedMap.write1 1) ∅ [([1], Some [10])]).
Proof.
  destruct (backup_follows_primary 0 KvSerial.null_encryptor ex_evidence ex_claims ex_tx Store.ex_s1 Store.ex_s2 Store.ex_s0 ex_changed 1 [] ex_verify)
    as (data & sb' & r & Es & Ea & Hr & _ & _ & _ & H).
  - apply ex_s1_ok.
  - apply Store.ex_tx_ok.
  - vm_compute. reflexivity.
  - reflexivity.
  - vm_compute. reflexivity.
  - vm_compute. reflexivity.
  - split_and!; [apply KvSerial.null_encryptor_ok | | done | by eexists | vm_compute; split; congruence | vm_compute; split; congruence | reflexivity | reflexivity | vm_compute; reflexivity].
    repeat constructor; vm_compute; congruence.
  - vm_compute. intros Hx. by repeat (apply elem_of_cons in Hx as [Hx|Hx]; [discriminate Hx|]); apply not_elem_of_nil in Hx.
  - apply ex_s0_ok.
  - reflexivity.
  - exists data, sb', r. split_and!; [exact Es | exact Ea | exact Hr |]. rewrite <- H; [vm_compute; reflexivity | reflexivity |].
    intros c Hc _. vm_compute in Hc. apply list_elem_of_singleton in Hc as ->. reflexivity.
Defined.

(** The entry is not the one that was expected. *)
Lemma entry_rejected_witness : exists s',
  apply 0 (Some KvSerial.null_encryptor) false false (Some (Store.mkTxID 2 1)) ex_verify ex_data Store.ex_s0 = Some (Ok (s', FAIL)) /\
  (refused (Some KvSerial.null_encryptor) false false ex_data Store.ex_s0 s' \/
   exists s1 f hooks, fill_maps (Some KvSerial.null_encryptor) false false true ex_data Store.ex_s0 = Some (Ok (s1, Some f)) /\ has_change SIGNATURES (f_changes f) = true /\
    Store.commit_deserialised (f_changes f) (f_version f) (default 0 (f_view f)) (f_new_maps f) s1 = Ok (s', true, hooks)).
Proof.
  eexists. split; [vm_compute; reflexivity|].
  apply (entry_rejected 0 _ _ _ (Some (Store.mkTxID 2 1)) ex_verify). vm_compute. reflexivity.
Defined.

End Replication.
