(* ===== verification/Snapshot.v ===== *)
(** * Snapshots of whole stores

    Model of CCF/src/kv/snapshot.h, of [Map::Snapshot::serialise] and
    [deserialise_snapshot_changes] in untyped_map.h, and of
    [Store::deserialise_snapshot] in store.h: a snapshot of all the tables at one
    version is written as one entry, and a node that joins installs it.

    The leaf of the Merkle tree and the view history, which the history and the
    consensus add to a snapshot, are parameters, and so is the verdict of the
    history on the leaf that it is given.

    Main result: [snapshot_restores], a node that installs a snapshot has the
    tables that the other node had at the version of the snapshot. *)
From S2P Require Import Prelude Serialized KvHandle MapSerial RbMap UntypedMap Store KvSerial Replication.
From stdpp Require Import list gmap.
Local Open Scope Z_scope.

Module Snapshot.
Import MapSerial.
Abbreviation K := KvHandle.K.
Abbreviation VersionV := KvHandle.VersionV.
Abbreviation NoVersion := KvHandle.NoVersion.

Section ops.
Context {P T : Type} `{ST : KvState VersionV T} `{SS : SnapshotState T}.
Abbreviation Sto := (Store.Store P T).

(** ** Taking and writing a snapshot *)

Record StoreSnapshot := mkStoreSnapshot {
  ss_version : Z;
  ss_snapshots : list (UntypedMap.Snapshot T);
  ss_hash_at_snapshot : option (list Z);
  ss_view_history : option (list Z)
}.

(** [get_raw_leaf] of the history and [get_view_history] of the consensus, if
    the store has them. *)
Definition take_snapshot (get_raw_leaf get_view_history : option (Z -> list Z)) (v : Z) (s : Sto) : result StoreSnapshot :=
  l ← Store.snapshot v s;
  Ok (mkStoreSnapshot v l (option_map (fun f => f v) get_raw_leaf) (option_map (fun f => f v) get_view_history)).

(** [Map::Snapshot::serialise] *)
Definition serialise_map (m : UntypedMap.Snapshot T) (s : KvSerial.Serialiser) : result KvSerial.Serialiser :=
  s ← KvSerial.start_map (UntypedMap.sn_name m) (UntypedMap.sn_domain m) s;
  s ← KvSerial.serialise_entry_version (UntypedMap.sn_version m) s;
  ret ← st_make_snapshot (UntypedMap.sn_state m);
  KvSerial.serialise_raw ret s.

Fixpoint serialise_maps (domain : UntypedMap.SecurityDomain) (l : list (UntypedMap.Snapshot T)) (s : KvSerial.Serialiser) : result KvSerial.Serialiser :=
  match l with
  | [] => Ok s
  | m :: l =>
      s ← (if KvSerial.same_domain (UntypedMap.sn_domain m) domain then serialise_map m s else Ok s);
      serialise_maps domain l s
  end.

(** The digests are not written to snapshots. *)
Definition serialise (e : option KvSerial.Encryptor) (sn : StoreSnapshot) : result (list Z) :=
  s ← KvSerial.new_serialiser e (Store.mkTxID 0 (ss_version sn)) KvSerial.Snapshot 0 (zeros 32) (zeros 32) true;
  s ← match ss_hash_at_snapshot sn with Some h => KvSerial.serialise_raw h s | None => Ok s end;
  s ← match ss_view_history sn with Some h => KvSerial.serialise_view_history h s | None => Ok s end;
  s ← serialise_maps UntypedMap.PUBLIC (ss_snapshots sn) s;
  s ← serialise_maps UntypedMap.PRIVATE (ss_snapshots sn) s;
  KvSerial.get_raw_data s.

(** ** Installing a snapshot *)

(** [deserialize_map] ends on every input ([deserialize_loop_total]). *)
Definition deserialise_snapshot_changes (d : KvSerial.Deserialiser) : result (UntypedMap.ChangeSet T * KvSerial.Deserialiser) :=
  '(v, d) ← KvSerial.deserialise_u64 d;
  '(map_snapshot, d) ← KvSerial.deserialise_bytes d;
  state ← match deserialize_map map_snapshot with Some r => r | None => Undef end;
  Ok (UntypedMap.SnapshotChanges state v, d).

Definition fill_snapshot_map (map_name : K) (d : KvSerial.Deserialiser) (a : Sto * Store.Changes (T := T) * list (K * nat)) :
  result (option (KvSerial.Deserialiser * (Sto * Store.Changes (T := T) * list (K * nat)))) :=
  let '(s, changes, new_maps) := a in
  let '(s, new_maps, id) :=
    match KvHandle.map_find map_name (Store.maps s) with
    | Some (_, id) => (s, new_maps, id)
    | None => let '(s, id) := Store.create_map map_name s in (s, KvHandle.map_put map_name id new_maps, id)
    end in
  match KvHandle.map_find map_name changes with
  | Some _ => Ok None
  | None =>
      '(c, d) ← deserialise_snapshot_changes d;
      Ok (Some (d, (s, KvHandle.map_put map_name (id, c) changes, new_maps)))
  end.

(** [history] is [init_from_snapshot] of the history, if there is one; [views]
    whether the caller asks for the view history, which is the last result. *)
Definition deserialise_snapshot (e : option KvSerial.Encryptor) (public_only is_historical : bool) (history : option (list Z -> bool)) (views : bool)
  (data : list Z) (s : Sto) : option (result (Sto * Replication.ApplyResult * option (list Z))) :=
  match KvSerial.init e public_only is_historical data with
  | Throw ex => Some (Throw ex)
  | Undef => Some Undef
  | Ok None => Some (Ok (s, Replication.FAIL, None))
  | Ok (Some (d, _)) =>
      let v := KvSerial.d_version d in
      match
        '(hash, d) ← match history with Some _ => KvSerial.deserialise_bytes d | None => Ok ([], d) end;
        '(view_history, d) ← (if views then KvSerial.deserialise_versions d else Ok ([], d));
        Ok (hash, view_history, d)
      with
      | Throw ex => Some (Throw ex)
      | Undef => Some Undef
      | Ok (hash, view_history, d) =>
          r ← KvSerial.read_maps fill_snapshot_map (S (length data)) d (s, [], []);
          Some (
            o ← r;
            match o with
            | None => Ok (s, Replication.FAIL, None)
            | Some (d, (s, changes, new_maps)) =>
                if negb (KvSerial.end_ d) then Ok (s, Replication.FAIL, None)
                else
                  '(s, c, _) ← Store.apply_changes changes (fun _ vs => (vs, (NoVersion, NoVersion))) new_maps None false s;
                  match c with
                  | None => Ok (s, Replication.FAIL, None)
                  | Some _ =>
                      let vs := Store.vers s in
                      let s := Store.set_vers (Store.mkVersions v (Store.last_new_map vs) (Store.compacted vs) (Store.term_of_next_version vs)
                                 (Store.term_of_last_version vs) v (Store.last_committable vs) (Store.rollback_count vs)) s in
                      if match history with Some init_from_snapshot => init_from_snapshot hash | None => true end
                      then Ok (s, Replication.PASS, if views then Some view_history else None)
                      else Ok (s, Replication.FAIL, None)
                  end
            end)
      end
  end.

End ops.
Arguments StoreSnapshot T : clear implicits.
Arguments mkStoreSnapshot {T} _ _ _ _.

(** ** Lemmas *)

Section lemmas.
Context {P T : Type} `{ST : KvState VersionV T} `{SS : SnapshotState T}.
Implicit Types (m : UntypedMap.Snapshot T) (l : list (UntypedMap.Snapshot T)).

(** *** Writing *)

(** The bytes of a table, and what follows its name. *)
Definition raw m : list Z := match st_make_snapshot (UntypedMap.sn_state m) with Ok b => b | _ => [] end.
Definition writable m : Prop := st_make_snapshot (UntypedMap.sn_state m) = Ok (raw m).
Definition enc_snap (x : Z * list Z) : list Z := le_bytes 8 x.1 ++ KvSerial.enc_bytes x.2.
Definition in_domain (domain : UntypedMap.SecurityDomain) m : bool := KvSerial.same_domain (UntypedMap.sn_domain m) domain.
(** The tables of one domain. *)
Definition tables (domain : UntypedMap.SecurityDomain) l : list (K * (Z * list Z)) :=
  (fun m => (UntypedMap.sn_name m, (UntypedMap.sn_version m, raw m))) <$> List.filter (in_domain domain) l.
Abbreviation enc_tables := (KvSerial.enc_all enc_snap).

Lemma serialise_map_ok m s : writable m -> (UntypedMap.sn_domain m = UntypedMap.PRIVATE -> is_Some (KvSerial.crypto_util s)) ->
  serialise_map m s = Ok (KvSerial.emit (KvSerial.enc_bytes (UntypedMap.sn_name m) ++ enc_snap (UntypedMap.sn_version m, raw m))
    (KvSerial.set_current_domain (UntypedMap.sn_domain m) s)).
Proof.
  intros Hw Hd. unfold serialise_map. rewrite KvSerial.start_map_ok by done. cbn [mbind result_bind].
  unfold KvSerial.serialise_entry_version. rewrite KvSerial.u64_emits. cbn [mbind result_bind]. rewrite Hw. cbn [mbind result_bind].
  unfold KvSerial.serialise_raw. rewrite KvSerial.bytes_emits, !KvSerial.emit_app. unfold enc_snap. cbn [fst snd]. by rewrite ?app_assoc.
Qed.

Lemma serialise_maps_ok domain l : Forall writable l -> forall s, (domain = UntypedMap.PRIVATE -> is_Some (KvSerial.crypto_util s)) ->
  exists d, serialise_maps domain l s = Ok (match domain with
    | UntypedMap.PUBLIC => KvSerial.with_writers (KvSerial.public_writer s ++ enc_tables (tables domain l)) (KvSerial.private_writer s) d s
    | UntypedMap.PRIVATE => KvSerial.with_writers (KvSerial.public_writer s) (KvSerial.private_writer s ++ enc_tables (tables domain l)) d s
    end).
Proof.
  induction 1 as [|m l Hm _ IH]; intros s Hc; cbn [serialise_maps].
  { exists (KvSerial.current_domain s). unfold KvSerial.with_writers. destruct domain, s; cbn; by rewrite app_nil_r. }
  unfold tables. cbn [List.filter]. fold (in_domain domain m). destruct (in_domain domain m) eqn:E; cbn [mbind result_bind]; [|by apply IH].
  assert (Hd : UntypedMap.sn_domain m = domain) by (unfold in_domain in E; by destruct (UntypedMap.sn_domain m), domain).
  rewrite serialise_map_ok by (rewrite ?Hd; done). rewrite Hd. cbn [mbind result_bind].
  match goal with |- context [serialise_maps domain l (KvSerial.emit ?x ?s1)] => destruct (IH (KvSerial.emit x s1)) as [d Hdom] end.
  { intros H. destruct (Hc H) as [e He]. exists e. unfold KvSerial.emit. rewrite H. exact He. }
  exists d. rewrite Hdom. fold (tables domain l). rewrite fmap_cons. unfold KvSerial.enc_all. rewrite fmap_cons. cbn [concat fst snd].
  generalize (KvSerial.enc_bytes (UntypedMap.sn_name m) ++ enc_snap (UntypedMap.sn_version m, raw m)). intros x. clear.
  destruct domain; unfold KvSerial.with_writers, KvSerial.emit; cbn; by rewrite <- !app_assoc.
Qed.

(** What comes before the tables. *)
Definition enc_extras (sn : StoreSnapshot T) : list Z :=
  match ss_hash_at_snapshot sn with Some h => KvSerial.enc_bytes h | None => [] end ++
  match ss_view_history sn with Some h => KvSerial.enc_bytes (KvSerial.version_bytes h) | None => [] end.
Definition public_bytes (sn : StoreSnapshot T) : list Z :=
  KvSerial.enc_header KvSerial.Snapshot (ss_version sn) (zeros 32) (zeros 32) ++ enc_extras sn ++ enc_tables (tables UntypedMap.PUBLIC (ss_snapshots sn)).
Definition private_bytes (sn : StoreSnapshot T) : list Z := enc_tables (tables UntypedMap.PRIVATE (ss_snapshots sn)).

Lemma serialise_ok e sn hdr cipher : KvSerial.encryptor_ok e -> Forall writable (ss_snapshots sn) -> bytes_ok (private_bytes sn) ->
  KvSerial.encrypt e (private_bytes sn) (public_bytes sn) (Store.mkTxID 0 (ss_version sn)) KvSerial.Snapshot true = Ok (Some (hdr, cipher)) ->
  zlen (public_bytes sn) + (KvSerial.get_header_length e + 8 + zlen (private_bytes sn)) < 2 ^ 48 ->
  serialise (Some e) sn = Ok (KvSerial.entry_bytes 0 hdr (public_bytes sn) cipher).
Proof.
  intros He Hw Hb Henc Hsize. unfold serialise. rewrite KvSerial.new_serialiser_ok. cbn [mbind result_bind Store.tx_version].
  set (s0 := KvSerial.mkSerialiser _ _ _ _ _ _ _ _).
  assert (H1 : exists s2, (s ← match ss_hash_at_snapshot sn with Some h => KvSerial.serialise_raw h s0 | None => Ok s0 end;
      match ss_view_history sn with Some h => KvSerial.serialise_view_history h s | None => Ok s end) = Ok s2 /\ s2 = KvSerial.emit (enc_extras sn) s0).
  { eexists. split; [|done]. unfold enc_extras. apply (KvSerial.emits_bind (fun s => match ss_hash_at_snapshot sn with Some h => KvSerial.serialise_raw h s | None => Ok s end)).
    - destruct (ss_hash_at_snapshot sn); [apply KvSerial.bytes_emits | intros s; by rewrite KvSerial.emit_nil].
    - destruct (ss_view_history sn); [apply KvSerial.internal_emits; intros w; apply KvSerial.append_versions_ok | intros s; by rewrite KvSerial.emit_nil]. }
  destruct H1 as (s2 & E2 & Hs2). destruct (match ss_hash_at_snapshot sn with Some h => _ | None => _ end) as [s1| |]; [|done..].
  cbn [mbind result_bind] in E2 |- *. rewrite E2. cbn [mbind result_bind]. subst s2.
  destruct (serialise_maps_ok UntypedMap.PUBLIC _ Hw (KvSerial.emit (enc_extras sn) s0)) as [d1 ->]; [done|]. cbn [mbind result_bind].
  match goal with |- context [serialise_maps UntypedMap.PRIVATE _ ?s3] => destruct (serialise_maps_ok UntypedMap.PRIVATE _ Hw s3) as [d2 ->] end; [by eexists|].
  cbn [mbind result_bind]. unfold KvSerial.get_raw_data.
  assert (Hpub : KvSerial.public_writer (KvSerial.emit (enc_extras sn) s0) ++ enc_tables (tables UntypedMap.PUBLIC (ss_snapshots sn)) = public_bytes sn)
    by (unfold public_bytes; symmetry; apply app_assoc).
  cbn [KvSerial.public_writer KvSerial.private_writer KvSerial.with_writers]. rewrite Hpub. cbn [app]. fold (private_bytes sn).
  rewrite (KvSerial.serialise_domains_ok e (public_bytes sn) (private_bytes sn) _ hdr cipher He); [|done|done|by split|exact Henc].
  destruct He as [_ He]. destruct (He _ _ _ _ _ _ _ Hb (u64_0 : u64 (Store.term (Store.mkTxID 0 (ss_version sn)))) Henc) as (Hh & Hl & _). unfold KvSerial.entry_bytes.
  replace (zlen hdr + 8 + zlen (public_bytes sn) + zlen cipher) with
    ((zlen (public_bytes sn) + (KvSerial.get_header_length e + 8 + zlen (private_bytes sn))) mod 2 ^ 48) by (rewrite Z.mod_small; lia). done.
Qed.

(** *** Reading *)

(** [init] of a snapshot, and what is read before the tables. *)
Lemma init_snapshot e sn hdr cipher : KvSerial.encryptor_ok e -> bytes_ok (private_bytes sn) -> u64 (ss_version sn) ->
  KvSerial.encrypt e (private_bytes sn) (public_bytes sn) (Store.mkTxID 0 (ss_version sn)) KvSerial.Snapshot true = Ok (Some (hdr, cipher)) ->
  zlen (public_bytes sn) + (KvSerial.get_header_length e + 8 + zlen (private_bytes sn)) < 2 ^ 48 ->
  exists d term, KvSerial.init (Some e) false false (KvSerial.entry_bytes 0 hdr (public_bytes sn) cipher) = Ok (Some (d, term)) /\
    KvSerial.d_version d = ss_version sn /\ KvSerial.on_private d = false /\
    KvSerial.rd (enc_extras sn ++ enc_tables (tables UntypedMap.PUBLIC (ss_snapshots sn))) (KvSerial.public_reader d) /\
    KvSerial.rd (private_bytes sn) (KvSerial.private_reader d).
Proof.
  intros [H0 He] Hb Hv Henc Hsize. destruct (He _ _ _ _ _ _ _ Hb (u64_0 : u64 (Store.term (Store.mkTxID 0 (ss_version sn)))) Henc) as (Hh & Hl & _ & Hdec).
  destruct (Hdec false) as [term Hd]. cbn [Store.tx_version] in Hd.
  destruct (KvSerial.init_ok e false 0 KvSerial.Snapshot (ss_version sn) (zeros 32) (zeros 32)
    (enc_extras sn ++ enc_tables (tables UntypedMap.PUBLIC (ss_snapshots sn))) (private_bytes sn) hdr cipher term) as (r & Hr & Ei);
    [done | done | fold (public_bytes sn); lia | unfold M64; lia | done | done | done | exact Hd |].
  fold (public_bytes sn) in Ei. eexists _, _. split; [exact Ei|]. cbn. split_and!; [done | done | done|]. apply KvSerial.rd_whole. unfold M64. lia.
Qed.

Lemma extras_ok sn d (history : option (list Z -> bool)) :
  (is_Some history <-> is_Some (ss_hash_at_snapshot sn)) -> (forall h, ss_view_history sn = Some h -> Forall u64 h) ->
  KvSerial.on_private d = false ->
  KvSerial.rd (enc_extras sn ++ enc_tables (tables UntypedMap.PUBLIC (ss_snapshots sn))) (KvSerial.public_reader d) ->
  exists r, KvSerial.rd (enc_tables (tables UntypedMap.PUBLIC (ss_snapshots sn))) r /\
    ('(hash, d) ← match history with Some _ => KvSerial.deserialise_bytes d | None => Ok ([], d) end;
     '(view_history, d) ← (if bool_decide (is_Some (ss_view_history sn)) then KvSerial.deserialise_versions d else Ok ([], d));
     Ok (hash, view_history, d)) =
    Ok (default [] (ss_hash_at_snapshot sn), default [] (ss_view_history sn), KvSerial.set_reader r d).
Proof.
  intros Hhist Hviews Hop Hrd. unfold enc_extras in Hrd. rewrite <- app_assoc in Hrd.
  assert (Hd : KvSerial.at_rest d (match ss_hash_at_snapshot sn with Some h => KvSerial.enc_bytes h | None => [] end ++
     match ss_view_history sn with Some h => KvSerial.enc_bytes (KvSerial.version_bytes h) | None => [] end ++
     enc_tables (tables UntypedMap.PUBLIC (ss_snapshots sn))) d)
    by (exists (KvSerial.public_reader d); split; [destruct d as [? ? [] ? ? ?]; done | done]).
  assert (H1 : exists d1, match history with Some _ => KvSerial.deserialise_bytes d | None => Ok ([], d) end = Ok (default [] (ss_hash_at_snapshot sn), d1) /\
    KvSerial.at_rest d (match ss_view_history sn with Some h => KvSerial.enc_bytes (KvSerial.version_bytes h) | None => [] end ++
     enc_tables (tables UntypedMap.PUBLIC (ss_snapshots sn))) d1).
  { destruct (ss_hash_at_snapshot sn) as [h|]; destruct history as [f|].
    - by destruct (KvSerial.deserialise_bytes_ok _ _ _ _ Hd) as (d1 & E & Hd1); exists d1.
    - by destruct (proj2 Hhist (mk_is_Some _ h eq_refl)).
    - by destruct (proj1 Hhist (mk_is_Some _ f eq_refl)).
    - by exists d. }
  destruct H1 as (d1 & -> & Hd1). cbn [mbind result_bind].
  assert (H2 : exists d2, (if bool_decide (is_Some (ss_view_history sn)) then KvSerial.deserialise_versions d1 else Ok ([], d1)) =
    Ok (default [] (ss_view_history sn), d2) /\ KvSerial.at_rest d (enc_tables (tables UntypedMap.PUBLIC (ss_snapshots sn))) d2).
  { destruct (ss_view_history sn) as [h|].
    - rewrite bool_decide_eq_true_2 by (by eexists). destruct (KvSerial.deserialise_versions_ok _ _ _ _ (Hviews h eq_refl) Hd1) as (d2 & E & Hd2). by exists d2.
    - rewrite bool_decide_eq_false_2 by (by intros []). by exists d1. }
  destruct H2 as (d2 & -> & r & -> & Hr). cbn [mbind result_bind]. by exists r.
Qed.

End lemmas.

Section install.
Context {P T : Type} `{ST : KvState VersionV T} `{KL : !KvStateLaws VersionV T} `{SS : SnapshotState T} `{SL : !SnapshotLaws VersionV T}.
Abbreviation Sto := (Store.Store P T).
Abbreviation enc_tables := (KvSerial.enc_all enc_snap).
Implicit Types (s : Sto).

(** *** The loop over the tables *)

(** The tables that have been read are new objects, and their states wait to be
    installed. *)
Definition loaded s0 (done : list (K * (Z * list Z))) (a : Sto * Store.Changes (T := T) * list (K * nat)) : Prop :=
  let '(s, changes, new_maps) := a in
  Replication.grown s0 s /\ KvHandle.sorted changes /\ KvHandle.sorted new_maps /\
  forall n, match KvHandle.map_find n done with
    | Some (v, b) => exists id t m, KvHandle.map_find n changes = Some (id, UntypedMap.SnapshotChanges t v) /\ KvHandle.map_find n new_maps = Some id /\
        deserialize_map b = Some (Ok t) /\ st_ok t /\ Store.objs s !! id = Some m /\ UntypedMap.name m = n
    | None => KvHandle.map_find n changes = None /\ KvHandle.map_find n new_maps = None
    end.

Lemma loaded_nil s : loaded s [] (s, [], []).
Proof. split_and!; [apply Replication.grown_refl | constructor | constructor | done]. Qed.

Lemma fill_snapshot_step s0 done n v b t a d0 rest d : Store.maps s0 = [] -> loaded s0 done a -> n ∉ done.*1 -> u64 v ->
  deserialize_map b = Some (Ok t) -> st_ok t -> KvSerial.at_rest d0 (enc_snap (v, b) ++ rest) d ->
  exists d' a', fill_snapshot_map n d a = Ok (Some (d', a')) /\ KvSerial.at_rest d0 rest d' /\ loaded s0 (done ++ [(n, (v, b))]) a'.
Proof.
  destruct a as [[s changes] new_maps]. intros Hm0 (Hg & Hsc & Hsn & Hl) Hn Hv Hb Ht Hd. unfold fill_snapshot_map.
  destruct (Replication.grown_fields _ _ Hg) as [-> _]. rewrite Hm0. cbn [KvHandle.map_find Store.create_map Store.alloc].
  assert (Hnone : KvHandle.map_find n done = None).
  { destruct (KvHandle.map_find n done) eqn:E; [|done]. destruct Hn. by eapply Replication.map_find_elem. }
  pose proof (Hl n) as Hln. rewrite Hnone in Hln. destruct Hln as [-> Hnn]. unfold deserialise_snapshot_changes.
  unfold enc_snap in Hd. cbn [fst snd] in Hd. rewrite <- app_assoc in Hd.
  destruct (KvSerial.deserialise_u64_ok _ _ _ _ Hv Hd) as (d1 & -> & Hd1). cbn [mbind result_bind].
  destruct (KvSerial.deserialise_bytes_ok _ _ _ _ Hd1) as (d2 & -> & Hd2). cbn [mbind result_bind]. rewrite Hb. cbn [mbind result_bind].
  eexists _, _. split; [done|]. split; [done|]. split_and!.
  - by apply (Replication.grown_create s0 s n).
  - by apply KvHandle.sorted_put.
  - by apply KvHandle.sorted_put.
  - intros n'. rewrite Replication.map_find_snoc by done. rewrite !Replication.map_find_put. case_bool_decide as E.
    + subst n'. eexists _, t, _. split_and!; [done | done | done | done | cbn; rewrite lookup_app_r, Nat.sub_diag by lia; done | done].
    + specialize (Hl n'). destruct (KvHandle.map_find n' done) as [[v' b']|]; [|done]. destruct Hl as (id & t' & m & H1 & H2 & H3 & H4 & H5 & H6).
      exists id, t', m. split_and!; [done | done | done | done | cbn; by apply lookup_app_l_Some | done].
Qed.

(** *** Installation *)

Lemma commit_snapshot_ok v t ver (m : UntypedMap.Map T) : st_ok t ->
  exists m', UntypedMap.commit v false (UntypedMap.SnapshotChanges t ver) m = Ok (m', ver) /\
    Store.commit1 v (UntypedMap.SnapshotChanges t ver) m = m' /\
    Store.tail_state m' = st_model t /\ Store.tail_version m' = ver /\ UntypedMap.name m' = UntypedMap.name m /\
    is_Some (head (UntypedMap.commits m')).
Proof.
  intros Ht. destruct (st_entries_ok t Ht) as (es & Hes & _). unfold Store.commit1. cbn [UntypedMap.commit]. unfold UntypedMap.commit_snapshot. rewrite Hes.
  destruct (_ || _); cbn [mbind result_bind]; eexists; split_and!; by eexists.
Qed.

Lemma prepare_snapshots changes s : (forall n id c, (n, (id, c)) ∈ changes -> is_Some (Store.objs s !! id) /\ exists t v, c = UntypedMap.SnapshotChanges t v) ->
  Store.prepare_all false changes s = Ok true.
Proof.
  induction changes as [|[n [id c]] changes IH]; intros H; [done|]. cbn [Store.prepare_all].
  destruct (H n id c) as ([m Hm] & t & v & ->); [by left|]. unfold Store.obj. rewrite Hm. cbn [mbind result_bind UntypedMap.prepare].
  apply IH. intros n' id' c' Hx. apply (H n'). by right.
Qed.

Lemma post_commit_snapshots changes : forall cvs s,
  (forall n id c, (n, (id, c)) ∈ changes -> exists m, Store.objs s !! id = Some m /\ is_Some (head (UntypedMap.commits m))) ->
  exists hooks, Store.post_commit_all changes cvs s = Ok hooks.
Proof.
  induction changes as [|[n [id c]] changes IH]; intros cvs s H; [by eexists|]. destruct cvs as [|cv cvs]; [by eexists|]. cbn [Store.post_commit_all].
  destruct (H n id c) as (m & Hm & h & Hh); [by left|]. unfold Store.obj. rewrite Hm. cbn [mbind result_bind].
  destruct (IH cvs s) as [hooks Eh]; [intros n' id' c' Hx; apply (H n' id' c'); by right|].
  destruct c; cbn [UntypedMap.post_commit]; unfold UntypedMap.get_head; rewrite ?Hh; cbn [mbind result_bind]; rewrite Eh; by eexists.
Qed.

Lemma loaded_change s0 done s changes new_maps n id c : loaded s0 done (s, changes, new_maps) -> KvHandle.map_find n changes = Some (id, c) ->
  exists t v b m, c = UntypedMap.SnapshotChanges t v /\ KvHandle.map_find n done = Some (v, b) /\ KvHandle.map_find n new_maps = Some id /\
    deserialize_map b = Some (Ok t) /\ st_ok t /\ Store.objs s !! id = Some m /\ UntypedMap.name m = n.
Proof.
  intros (_ & _ & _ & Hl) Hf. specialize (Hl n). destruct (KvHandle.map_find n done) as [[v b]|]; [|by destruct Hl; congruence].
  destruct Hl as (id' & t & m & H1 & H2 & H3 & H4 & H5 & H6). rewrite Hf in H1. injection H1 as <- ->. by exists t, v, b, m.
Qed.

(** The phase that installs the states. *)
Lemma commit_loaded s0 done s changes new_maps s2 : loaded s0 done (s, changes, new_maps) -> Store.same_objs s s2 ->
  exists o cvs, Store.commit_all NoVersion false changes s2 = Ok (Store.set_objs o s2, cvs) /\
    forall n id c, KvHandle.map_find n changes = Some (id, c) -> exists t v b m', KvHandle.map_find n done = Some (v, b) /\
      deserialize_map b = Some (Ok t) /\ o !! id = Some m' /\ Store.tail_state m' = st_model t /\ Store.tail_version m' = v /\ is_Some (head (UntypedMap.commits m')).
Proof.
  intros Hl Hso. pose proof (fun n id c => loaded_change s0 done s changes new_maps n id c Hl) as Hch. pose proof Hl as (_ & Hsc & _).
  destruct (Store.commit_all_spec NoVersion changes s2 Hsc) as (o & cvs & E & _ & _ & H1 & _).
  { intros n id c Hf. destruct (Hch n id c Hf) as (t & v & b & m & -> & _ & _ & _ & Hst & Hm & Hn).
    destruct Hso as [_ Hso]. destruct (Hso id m Hm) as (h & g & Hm2). destruct (commit_snapshot_ok NoVersion t v (Store.set_map_hooks h g m) Hst) as (m' & Ec & <- & _).
    by exists (Store.set_map_hooks h g m), v. }
  exists o, cvs. split; [done|]. intros n id c Hf. destruct (Hch n id c Hf) as (t & v & b & m & -> & Hd & _ & Hb & Hst & Hm & Hn).
  destruct Hso as [_ Hso]. destruct (Hso id m Hm) as (h & g & Hm2). destruct (commit_snapshot_ok NoVersion t v (Store.set_map_hooks h g m) Hst) as (m' & _ & Ec & Hs & Hv & _ & Hh).
  exists t, v, b, m'. split_and!; [done | done | | done | done | done]. rewrite (H1 n id _ Hf), Hm2. cbn. by rewrite Ec.
Qed.

(** The states are installed, whatever the store has recorded before. *)
Lemma install_ok s0 done s changes new_maps : Store.maps s0 = [] -> loaded s0 done (s, changes, new_maps) ->
  exists s' r hooks, Store.apply_changes changes (fun _ vs => (vs, (NoVersion, NoVersion))) new_maps None false s = Ok (s', Some r, hooks) /\
    Store.vers s' = Store.vers s0 /\
    forall n, match KvHandle.map_find n done with
      | Some (v, b) => exists t m, deserialize_map b = Some (Ok t) /\ Store.table n s' = Some m /\ Store.tail_state m = st_model t /\ Store.tail_version m = v
      | None => Store.table n s' = None
      end.
Proof.
  intros Hm0 Hl. pose proof Hl as (Hg & Hsc & Hsn & Hall). destruct (Replication.grown_fields _ _ Hg) as [Em Ev]. rewrite Hm0 in Em.
  unfold Store.apply_changes. rewrite prepare_snapshots.
  2:{ intros n id c Hin%Store.sorted_find; [|done]. destruct (loaded_change _ _ _ _ _ n id c Hl Hin) as (t & v & b & m & -> & _ & _ & _ & _ & Hm & _).
      split; [by rewrite Hm | by eexists _, _]. }
  assert (Hfree : Store.new_maps_free None new_maps s = true) by (unfold Store.new_maps_free, Store.get_map; rewrite Em; by apply forallb_forall).
  cbn [mbind result_bind]. rewrite Hfree. cbn [andb]. destruct (Store.changes_have_writes changes) eqn:Ew; cbn [negb].
  2:{ eexists _, _, _. split; [done|]. split; [done|]. intros n. specialize (Hall n).
      destruct (KvHandle.map_find n done) as [[v b]|]; [|unfold Store.table; by rewrite Em].
      destruct Hall as (id & t & m & Hf & _). unfold Store.changes_have_writes in Ew. apply Store.sorted_find, list_elem_of_In in Hf; [|done].
      assert (true = false); [|done]. rewrite <- Ew. symmetry. apply existsb_exists. by eexists. }
  rewrite Store.set_vers_self.
  destruct (Store.add_new_maps_spec NoVersion changes new_maps s Hsn) as (s2 & -> & Hvs2 & _ & Hsm2 & Hso & Hf2); [by rewrite Em; constructor| |].
  { intros n id Hf. rewrite Em. split; [done|]. specialize (Hall n). destruct (KvHandle.map_find n done) as [[v b]|]; [|by destruct Hall; congruence].
    destruct Hall as (id' & t & m & _ & Hf' & _ & _ & Hm & Hn). rewrite Hf in Hf'. injection Hf' as <-. by exists m. }
  cbn [mbind result_bind]. destruct (commit_loaded _ _ _ _ _ s2 Hl Hso) as (o & cvs & -> & Hobj). cbn [mbind result_bind].
  destruct (post_commit_snapshots changes cvs (Store.set_objs o s2)) as [hooks ->].
  { intros n id c Hin%Store.sorted_find; [|done]. destruct (Hobj n id c Hin) as (t & v & b & m' & _ & _ & Hm' & _ & _ & Hh). by exists m'. }
  cbn [mbind result_bind]. eexists _, _, _. split; [done|]. split; [by rewrite <- Ev, <- Hvs2|]. intros n. unfold Store.table. cbn [Store.maps Store.set_objs Store.objs].
  rewrite Hf2, Em. specialize (Hall n). destruct (KvHandle.map_find n done) as [[v b]|] eqn:Ed.
  - destruct Hall as (id & t & m & Hf & -> & Hb & _). unfold Store.written. rewrite Hf. cbn [UntypedMap.has_writes].
    destruct (Hobj n id _ Hf) as (t' & v' & b' & m' & Ed' & Hb' & Hm' & Hs & Hv & _). rewrite Ed in Ed'. injection Ed' as <- <-. by exists t', m'.
  - by destruct Hall as [_ ->].
Qed.

(** *** Whole snapshots *)

(** What a table contained at a version. *)
Definition contents_at (v : Z) (n : K) s : option (gmap K VersionV) :=
  match Store.table n s with Some m => UntypedMap.state_at v m | None => None end.

(** What a snapshot has of the tables of a store. *)
Lemma snapshot_tables v s l : Store.store_ok s -> Store.snapshot v s = Ok l ->
  Forall2 (fun e m => UntypedMap.sn_name m = e.1 /\ 0 <= UntypedMap.sn_version m < 2 ^ 63 /\ st_ok (UntypedMap.sn_state m) /\
    contents_at v e.1 s = Some (st_model (UntypedMap.sn_state m))) (Store.maps s) l.
Proof.
  intros Hok Hs. unfold Store.snapshot in Hs. destruct (Z.ltb_spec v (Store.compacted (Store.vers s))) as [|Hc]; [done|].
  destruct (Z.ltb_spec (Store.version (Store.vers s)) v); [done|]. apply result_mapM_ok in Hs.
  destruct Hok as (Hsort & _ & Hent). apply Forall2_same_length_lookup. split; [by eapply Forall2_length|].
  intros i [n [cv id]] m Hi Hj. pose proof (Forall2_lookup_lr _ _ _ _ _ _ Hs Hi Hj) as Hm. cbn [fst snd] in *.
  apply list_elem_of_lookup_2, Store.sorted_find in Hi; [|done]. destruct (Hent n cv id Hi) as ((m0 & Hm0 & Hname & Hmok & _) & _ & Hh).
  specialize (Hh m0 Hm0). unfold Store.obj in Hm. rewrite Hm0 in Hm. cbn [mbind result_bind] in Hm. unfold UntypedMap.snapshot in Hm.
  destruct (UntypedMap.get_head m0) as [h| |] eqn:Eh; [|done..]. cbn [mbind result_bind] in Hm. injection Hm as <-.
  unfold contents_at, Store.table. rewrite Hi, Hm0. cbn [UntypedMap.sn_name UntypedMap.sn_version UntypedMap.sn_state]. unfold UntypedMap.state_at.
  pose proof (UntypedMap.create_change_set_spec v m0 Hmok) as Hfind. destruct (UntypedMap.find_at v (reverse (UntypedMap.commits m0))) as [c|] eqn:Ef.
  - destruct Hfind as (Hc' & _). destruct (UntypedMap.chain_ok _ c (proj1 (proj2 Hmok)) Hc') as (Hst & Hv & _). split_and!; [done | apply Hv | apply Hv | done | done].
  - exfalso. unfold UntypedMap.get_head in Eh. destruct (head (UntypedMap.commits m0)) as [h0|] eqn:Eh0; [|done]. unfold Store.head_version in Hh. rewrite Eh0 in Hh.
    destruct (UntypedMap.commits m0) as [|c0 cs]; [done|]. injection Eh0 as ->. rewrite reverse_cons in Ef.
    clear -Ef Hh Hc. induction (reverse cs) as [|c l IH]; cbn in Ef; [destruct (Z.leb_spec (UntypedMap.lc_version h0) v); [done | lia]|].
    destruct (_ <=? _); [done | by apply IH].
Qed.

Lemma snapshot_range v s l : Store.store_ok s -> Store.snapshot v s = Ok l -> u64 v.
Proof.
  intros (_ & (? & ? & ?) & _) Hs. unfold Store.snapshot in Hs. destruct (Z.ltb_spec v (Store.compacted (Store.vers s))); [done|].
  destruct (Z.ltb_spec (Store.version (Store.vers s)) v); [done|]. split; unfold M64; lia.
Qed.

Lemma snapshot_names v s l : Store.store_ok s -> Store.snapshot v s = Ok l -> UntypedMap.sn_name <$> l = (Store.maps s).*1.
Proof.
  intros Hok Hs. pose proof (snapshot_tables v s l Hok Hs) as Hf2. clear -Hf2. induction Hf2 as [|e m es ms [H _] _ IH]; [done|].
  rewrite !fmap_cons. by rewrite H, IH.
Qed.

(** A table that can be written: its name and bytes are bytes, and its state fits
    the format. *)
Definition ready (m : UntypedMap.Snapshot T) : Prop :=
  bytes_ok (UntypedMap.sn_name m) /\ bytes_ok (raw m) /\ snap_ok (UntypedMap.sn_state m).

Lemma private_bytes_ok sn : Forall ready (ss_snapshots sn) -> bytes_ok (private_bytes sn).
Proof.
  intros Hr. apply KvSerial.concat_bytes_ok. unfold tables. apply Forall_fmap, Forall_forall. intros m Hm. apply list_elem_of_In, filter_In in Hm as [Hm _].
  apply list_elem_of_In in Hm. rewrite Forall_forall in Hr. destruct (Hr m Hm) as (Hn & Hb & _). unfold compose, enc_snap. cbn [fst snd].
  unfold bytes_ok. rewrite !Forall_app. split_and!; [by apply KvSerial.enc_bytes_ok | apply Serialized.le_bytes_ok | by apply KvSerial.enc_bytes_ok].
Qed.

(** A table of the snapshot is read back. *)
Lemma ready_state m : st_ok (UntypedMap.sn_state m) -> ready m ->
  writable m /\ exists t, deserialize_map (raw m) = Some (Ok t) /\ st_ok t /\ st_model t = ser_canon <$> st_model (UntypedMap.sn_state m).
Proof.
  intros Hst (_ & _ & Hsn). destruct (st_snapshot_ok (UntypedMap.sn_state m) Hst Hsn) as (l & E & He & Hc & Hnd & Hl).
  unfold writable, raw. rewrite E. split; [done|]. destruct (deserialize_snapshot (T := T) l He Hc Hnd) as (t & Et & Ht & Hm). exists t. by rewrite Hm, Hl.
Qed.

(** The loop reads every table of the snapshot. *)
Lemma read_snapshot sn d s0 fuel : Store.maps s0 = [] -> NoDup (UntypedMap.sn_name <$> ss_snapshots sn) ->
  Forall (fun m => u64 (UntypedMap.sn_version m) /\ st_ok (UntypedMap.sn_state m) /\ ready m) (ss_snapshots sn) -> KvSerial.on_private d = false ->
  KvSerial.rd (enc_tables (tables UntypedMap.PUBLIC (ss_snapshots sn))) (KvSerial.public_reader d) -> KvSerial.rd (private_bytes sn) (KvSerial.private_reader d) ->
  let maps := tables UntypedMap.PUBLIC (ss_snapshots sn) ++ tables UntypedMap.PRIVATE (ss_snapshots sn) in (length maps < fuel)%nat ->
  exists d' a, KvSerial.read_maps fill_snapshot_map fuel d (s0, [], []) = Some (Ok (Some (d', a))) /\ loaded s0 maps a /\ KvSerial.end_ d' = true /\
    (forall n x, KvHandle.map_find n maps = Some x <->
       exists m, m ∈ ss_snapshots sn /\ UntypedMap.sn_name m = n /\ (UntypedMap.sn_version m, raw m) = x).
Proof.
  intros Hm0 Hnd Hl Hop Hpub Hpriv maps Hfuel.
  destruct (Replication.two_domains UntypedMap.sn_name (fun m => (UntypedMap.sn_version m, raw m)) (in_domain UntypedMap.PUBLIC) (in_domain UntypedMap.PRIVATE)
    (ss_snapshots sn) Hnd) as [Hndm Hfind]; [unfold in_domain; by intros m; destruct (UntypedMap.sn_domain m)|].
  change (NoDup maps.*1) in Hndm. assert (Hfind' : forall n x, KvHandle.map_find n maps = Some x <-> exists m, m ∈ ss_snapshots sn /\ UntypedMap.sn_name m = n /\ (UntypedMap.sn_version m, raw m) = x).
  { intros n x. etransitivity; [apply Hfind|]. split; intros (m & H1 & H2 & H3); exists m.
    - by destruct H3.
    - split_and!; [done..|]. unfold in_domain. by destruct (UntypedMap.sn_domain m). }
  destruct (KvSerial.read_maps_ok enc_snap fill_snapshot_map maps (loaded s0)) with (pub := tables UntypedMap.PUBLIC (ss_snapshots sn))
    (priv := tables UntypedMap.PRIVATE (ss_snapshots sn)) (d := d) (a := (s0, @nil (K * (nat * UntypedMap.ChangeSet T)), @nil (K * nat))) (fuel := fuel)
    as (d' & a & Er & Ha & Hend); [|done | apply loaded_nil | done..|by exists d', a].
  intros done [n [v b]] todo a d0 rest d1 Hm Ha Hd. cbn [fst snd] in *.
  assert (Hx : KvHandle.map_find n maps = Some (v, b)).
  { rewrite KvHandle.map_find_lookup. apply elem_of_list_to_map_1; [done|]. rewrite Hm. apply elem_of_app. right. by left. }
  apply Hfind' in Hx as (m & Hin & <- & [= <- <-]). rewrite Forall_forall in Hl. destruct (Hl m Hin) as (Hv & Hst & Hrd).
  destruct (ready_state m Hst Hrd) as (_ & t & Et & Ht & _). eapply (fill_snapshot_step s0); [done | done | | done | exact Et | done | done].
  clear -Hndm Hm. rewrite Hm, fmap_app, NoDup_app in Hndm. destruct Hndm as (_ & Hx & _). intros Hin. apply (Hx _ Hin). by left.
Qed.

(** There is fuel for every table. *)
Lemma snapshot_fuel sn hdr cipher : zlen cipher = zlen (private_bytes sn) ->
  (length (tables UntypedMap.PUBLIC (ss_snapshots sn) ++ tables UntypedMap.PRIVATE (ss_snapshots sn)) <
   S (length (KvSerial.entry_bytes 0 hdr (public_bytes sn) cipher)))%nat.
Proof.
  intros Hc. unfold KvSerial.entry_bytes, public_bytes. unfold private_bytes in Hc. rewrite !length_app.
  pose proof (KvSerial.enc_all_length enc_snap (tables UntypedMap.PUBLIC (ss_snapshots sn))).
  pose proof (KvSerial.enc_all_length enc_snap (tables UntypedMap.PRIVATE (ss_snapshots sn))). lia.
Qed.

(** What the installed tables contain. *)
Lemma installed_contents v s s' l maps : Store.store_ok s -> Store.snapshot v s = Ok l -> Forall ready l ->
  (forall n x, KvHandle.map_find n maps = Some x <-> exists m, m ∈ l /\ UntypedMap.sn_name m = n /\ (UntypedMap.sn_version m, raw m) = x) ->
  (forall n, match KvHandle.map_find n maps with
     | Some (v, b) => exists t m, deserialize_map b = Some (Ok t) /\ Store.table n s' = Some m /\ Store.tail_state m = st_model t /\ Store.tail_version m = v
     | None => Store.table (P := P) n s' = None
     end) ->
  forall n, Store.contents n s' = option_map (fun t : gmap K VersionV => ser_canon <$> t) (contents_at v n s).
Proof.
  intros Hok Es Hready Hfind Htabs n. pose proof (snapshot_tables v s l Hok Es) as Htab. specialize (Htabs n). unfold Store.contents.
  destruct (KvHandle.map_find n maps) as [[w b]|] eqn:Ef.
  - destruct Htabs as (t & m' & Hb & -> & Hs & _). apply Hfind in Ef as (m & Hm & <- & [= <- <-]). pose proof Hm as [i Hi]%list_elem_of_lookup.
    destruct (Forall2_lookup_r _ _ _ _ _ Htab Hi) as (x & _ & Hn & _ & Hst & Hc). rewrite Hn, Hc. cbn. rewrite Hs.
    rewrite Forall_forall in Hready. destruct (ready_state m Hst (Hready m Hm)) as (_ & t' & Et & _ & Ht'). rewrite Hb in Et. injection Et as <-. by rewrite Ht'.
  - rewrite Htabs. cbn. unfold contents_at, Store.table. destruct (KvHandle.map_find n (Store.maps s)) as [e|] eqn:Em; [|done]. exfalso.
    apply Replication.map_find_elem in Em. rewrite <- (snapshot_names v s l Hok Es) in Em. apply list_elem_of_fmap in Em as (m & Hn & Hm). assert (KvHandle.map_find n maps = Some (UntypedMap.sn_version m, raw m)) by (apply Hfind; by exists m). congruence.
Qed.

(** C13. A snapshot restores the store: a node without tables that installs the
    snapshot which another node has taken at version [v] has that version, the
    view history, and exactly the other node's tables, each with the contents
    that it had at [v] (up to the read versions, which the format drops). *)
Theorem snapshot_restores e leaf views history v s s0 sn :
  KvSerial.encryptor_ok e -> (forall plain aad, exists hc, KvSerial.encrypt e plain aad (Store.mkTxID 0 v) KvSerial.Snapshot true = Ok (Some hc)) ->
  Store.store_ok s -> take_snapshot leaf views v s = Ok sn -> Forall ready (ss_snapshots sn) ->
  zlen (public_bytes sn) + (KvSerial.get_header_length e + 8 + zlen (private_bytes sn)) < 2 ^ 48 ->
  (forall f, views = Some f -> Forall u64 (f v)) ->
  match leaf, history with Some f, Some init_from_snapshot => init_from_snapshot (f v) = true | None, None => True | _, _ => False end ->
  Store.maps s0 = [] ->
  exists data s', serialise (Some e) sn = Ok data /\
    deserialise_snapshot (Some e) false false history (bool_decide (is_Some views)) data s0 = Some (Ok (s', Replication.PASS, option_map (fun f => f v) views)) /\
    Store.version (Store.vers s') = v /\ Store.last_replicated (Store.vers s') = v /\
    forall n, Store.contents n s' = option_map (fun t : gmap K VersionV => ser_canon <$> t) (contents_at v n s).
Proof.
  intros He Henc Hok Htake Hready Hsize Hviews Hhist Hm0. unfold take_snapshot in Htake. destruct (Store.snapshot v s) as [l| |] eqn:Es; [|done..].
  cbn [mbind result_bind] in Htake. injection Htake as <-. set (sn := mkStoreSnapshot v l _ _) in *. cbn [ss_snapshots sn] in Hready.
  pose proof (snapshot_tables v s l Hok Es) as Htab. pose proof (snapshot_names v s l Hok Es) as Hnames.
  assert (Hl : Forall (fun m => u64 (UntypedMap.sn_version m) /\ st_ok (UntypedMap.sn_state m) /\ ready m) l).
  { apply Forall_forall. intros m Hm. rewrite Forall_forall in Hready. split_and!; [| |by apply Hready]; apply list_elem_of_lookup in Hm as [i Hi];
      destruct (Forall2_lookup_r _ _ _ _ _ Htab Hi) as (x & _ & _ & Hv & Hst & _); [split; unfold M64; lia | done]. }
  assert (Hw : Forall writable l) by (eapply Forall_impl; [exact Hl|]; intros m (_ & Hst & Hrd); by apply (ready_state m)).
  pose proof (private_bytes_ok sn Hready) as Hpb. destruct (Henc (private_bytes sn) (public_bytes sn)) as [[hdr cipher] Ee].
  assert (Hv : u64 v) by (by apply (snapshot_range v s l)).
  exists (KvSerial.entry_bytes 0 hdr (public_bytes sn) cipher). rewrite (serialise_ok e sn hdr cipher He Hw Hpb Ee Hsize).
  destruct (init_snapshot e sn hdr cipher He Hpb Hv Ee Hsize) as (d & term & Ei & Hdv & Hop & Hpub & Hpriv).
  assert (Hviews' : bool_decide (is_Some views) = bool_decide (is_Some (ss_view_history sn))) by (by destruct views).
  destruct (extras_ok sn d history) as (r & Hr & Ex); [destruct leaf, history; cbn; split; (done || by eexists) | | done | done|].
  { cbn. intros h Hh. destruct views as [f|]; [|done]. injection Hh as <-. by apply Hviews. }
  unfold deserialise_snapshot. rewrite Ei, Hviews', Ex, Hdv.
  destruct (read_snapshot sn (KvSerial.set_reader r d) s0 (S (length (KvSerial.entry_bytes 0 hdr (public_bytes sn) cipher)))) as (d' & [[s1 changes] new_maps] & Erd & Hld & Hend & Hfind);
    [done | cbn; rewrite Hnames; apply KvHandle.sorted_NoDup, Hok | done | | | | |].
  1-3: unfold KvSerial.set_reader; by rewrite Hop.
  { apply snapshot_fuel. by destruct (proj2 He _ _ _ _ _ _ _ Hpb (u64_0 : u64 (Store.term (Store.mkTxID 0 v))) Ee) as (_ & ? & _). }
  rewrite Erd. cbn [mbind option_bind result_bind]. rewrite Hend. cbn [negb].
  destruct (install_ok _ _ _ _ _ Hm0 Hld) as (s' & x & hooks & Ea & Hvs & Htabs). rewrite Ea. cbn [mbind result_bind].
  eexists. split; [done|]. split.
  { destruct leaf, history; try done; cbn [sn ss_hash_at_snapshot option_map default from_option id]; rewrite ?Hhist; by destruct views. }
  split; [done|]. split; [done|]. by apply (installed_contents v s _ l _ Hok Es Hready Hfind).
Qed.

End install.

(** ** Witnesses *)

Definition ex_sn : StoreSnapshot (RbMap.Map VersionV) :=
  match take_snapshot (Some (fun v => [v])) (Some (fun _ => [1; 1])) 1 Store.ex_s2 with
  | Ok sn => sn
  | _ => mkStoreSnapshot 0 [] None None
  end.

Lemma ex_ready : Forall (ready (SL := RbMap.rb_snapshot_laws false)) (ss_snapshots ex_sn).
Proof.
  destruct (ss_snapshots ex_sn) as [|m l] eqn:E; [constructor|]. vm_compute in E. injection E as <- <-. constructor; [|constructor].
  split_and!; [by repeat constructor | unfold raw; vm_compute; by repeat constructor | cbn; split_and!; repeat constructor; vm_compute; congruence].
Qed.

Lemma snapshot_restores_witness : exists data s',
  serialise (SS := RbMap.rb_snapshot false) (Some KvSerial.null_encryptor) ex_sn = Ok data /\
  deserialise_snapshot (Some KvSerial.null_encryptor) false false (Some (fun h => bool_decide (h = [1]))) true data Store.ex_s0 =
    Some (Ok (s', Replication.PASS, Some [1; 1])) /\
  Store.version (Store.vers s') = 1 /\
  Store.contents Store.ex_name s' = option_map (fun t : gmap K VersionV => ser_canon <$> t) (Store.contents Store.ex_name Store.ex_s2).
Proof.
  destruct (snapshot_restores (SL := RbMap.rb_snapshot_laws false) KvSerial.null_encryptor (Some (fun v => [v])) (Some (fun _ => [1; 1])) (Some (fun h => bool_decide (h = [1]))) 1
    Store.ex_s2 Store.ex_s0 ex_sn) as (data & s' & Es & Ed & Hv & _ & Hc).
  - apply KvSerial.null_encryptor_ok.
  - by eexists.
  - apply Store.ex_s2_ok.
  - vm_compute. reflexivity.
  - apply ex_ready.
  - vm_compute. reflexivity.
  - intros f [= <-]. repeat constructor; vm_compute; congruence.
  - reflexivity.
  - reflexivity.
  - exists data, s'. split; [exact Es|]. split; [exact Ed|]. split; [exact Hv|]. rewrite Hc. vm_compute. reflexivity.
Defined.

End Snapshot.
