(* ===== verification/Signature.v ===== *)
(** * Signatures of the ledger

    Model of the part of CCF/src/node/history.h that signs the ledger, over the
    reserved transactions of committable_tx.h: [emit_signature] reserves a
    version and hands the store a pending transaction; when its turn comes the
    store calls it, and it writes the signature and the Merkle tree to their
    tables in a transaction that must not fail.

    The Merkle tree, the key of the node and the JSON format of a signature are
    parameters.

    Main result: [signature_emitted], a signature is committed and replicated
    under the version reserved for it. *)
From S2P Require Import Prelude Serialized KvHandle MapSerial RbMap UntypedMap Store KvSerial Tx Replication.
From stdpp Require Import list gmap.
Local Open Scope Z_scope.

Module Signature.
Import MapSerial.
Abbreviation K := KvHandle.K.
Abbreviation VersionV := KvHandle.VersionV.
Abbreviation NoVersion := KvHandle.NoVersion.
Abbreviation Info := Store.PendingTxInfo.

(** ** Values *)

Record SignableTxIndices := mkSignable { si_term : Z; si_version : Z; si_previous_version : Z }.

Record PrimarySignature := mkSignature {
  ps_node : list Z;
  ps_seqno : Z;
  ps_view : Z;
  ps_commit_seqno : Z;
  ps_commit_view : Z;
  ps_root : list Z;
  ps_hashed_nonce : list Z;
  ps_sig : list Z;
  ps_cert : list Z
}.

(** The node and its history, as they answer during a call. *)
Record Node := mkNode {
  node_id : list Z;
  sign_hash : list Z -> list Z;
  get_replicated_state_root : list Z;
  serialise_tree : Z -> Z -> list Z;
  to_json : PrimarySignature -> list Z
}.

(** [ZeroBlitUnitCreator::get] *)
Definition unit_key : K := zeros 8.

(** What a pending transaction can be. *)
Inductive PendingTx := MovePendingTx (info : Info) | HistoryPendingTx (txid : Store.TxID) (commit_txid : SignableTxIndices) (endorsed_cert : list Z).

Section ops.
Context {T : Type} `{ST : KvState VersionV T}.
Abbreviation PStore := (Store.Store PendingTx T).
Context (e : option KvSerial.Encryptor) (evidence : Store.TxID -> list Z) (record_committable : option (Z -> bool)) (node : Node).

(** [put] of a value handle *)
Definition put_value (table : K) (value : list Z) (s : PStore) (tx : Tx.Tx T) : result (PStore * Tx.Tx T) :=
  '(s, tx, _) ← Tx.with_handle table (UntypedMap.HPut unit_key value) s tx;
  Ok (s, tx).

Definition signature (txid : Store.TxID) (commit_txid : SignableTxIndices) (endorsed_cert : list Z) : PrimarySignature :=
  let root := get_replicated_state_root node in
  let primary_sig := sign_hash node root in
  mkSignature (node_id node) (Store.tx_version txid) (Store.term txid) (si_version commit_txid) (si_term commit_txid)
    root [] primary_sig endorsed_cert.

(** [MerkleTreeHistoryPendingTx::call] *)
Definition history_call (txid : Store.TxID) (commit_txid : SignableTxIndices) (endorsed_cert : list Z) (s : PStore) : result (PStore * Info) :=
  let sig := Tx.create_reserved_tx txid s in
  '(s, sig) ← Tx.get_handle_by_name Replication.SIGNATURES s sig;
  '(s, sig) ← Tx.get_handle_by_name Replication.SERIALISED_MERKLE_TREE s sig;
  let sig_value := signature txid commit_txid endorsed_cert in
  '(s, sig) ← put_value Replication.SIGNATURES (to_json node sig_value) s sig;
  '(s, sig) ← put_value Replication.SERIALISED_MERKLE_TREE
                (serialise_tree node (si_previous_version commit_txid) (wrap64 (Store.tx_version txid - 1))) s sig;
  '(s, _, info) ← Tx.commit_reserved e evidence record_committable s sig;
  Ok (s, info).

Definition call (p : PendingTx) (s : PStore) : result (PStore * Info) :=
  match p with
  | MovePendingTx info => Ok (s, info)
  | HistoryPendingTx txid commit_txid endorsed_cert => history_call txid commit_txid endorsed_cert s
  end.

(** The consensus comes with what [get_signable_txid] answers.  The result of
    [commit] is dropped; what is kept here is the batch that was replicated. *)
Definition emit_signature (consensus : option (Store.Consensus * SignableTxIndices)) (endorsed_cert : option (list Z)) (s : PStore) :
  option (result (PStore * list Store.BatchEntry)) :=
  match consensus with
  | None => Some (Ok (s, []))
  | Some (c, commit_txid) =>
      match endorsed_cert with
      | None => Some (Throw LogicError)
      | Some cert =>
          let '(vs, txid) := Store.next_txid (Store.vers s) in
          r ← Store.commit call (Some c) txid (HistoryPendingTx txid commit_txid cert) true (Store.set_vers vs s);
          Some ('(s, _, batch) ← r; Ok (s, batch))
      end
  end.

(** With the lock free. *)
Definition try_emit_signature (sig_tx_interval : Z) (consensus : option (Store.Consensus * SignableTxIndices)) (endorsed_cert : option (list Z)) (s : PStore) :
  option (result (PStore * list Store.BatchEntry)) :=
  if Store.committable_gap (Store.vers s) <? sig_tx_interval then Some (Ok (s, [])) else emit_signature consensus endorsed_cert s.

End ops.

(** ** Lemmas *)

Section lemmas.
Context {P T : Type} `{ST : KvState VersionV T} `{KL : !KvStateLaws VersionV T}.
Abbreviation Sto := (Store.Store P T).
Implicit Types (s : Sto) (tx : Tx.Tx T).

(** *** Handles of a reserved transaction *)

(** A transaction with a read version does not look at the versions. *)
Lemma get_handle_vers vs n s tx : is_Some (Tx.read_txid tx) ->
  Tx.get_handle_by_name n (Store.set_vers vs s) tx = ('(s1, tx1) ← Tx.get_handle_by_name n s tx; Ok (Store.set_vers vs s1, tx1)).
Proof.
  intros [r Hr]. unfold Tx.get_handle_by_name. destruct (KvHandle.map_find n (Tx.all_changes tx)); [done|].
  unfold Tx.get_map_and_change_set_by_name. rewrite Hr.
  change (Store.get_map ?v n (Store.set_vers vs s)) with (Store.get_map v n s). destruct (Store.get_map _ n s) as [id|].
  - cbn [mbind result_bind]. change (Store.obj id (Store.set_vers vs s)) with (Store.obj id s). destruct (Store.obj id s); [|done..].
    cbn [mbind result_bind]. by destruct (UntypedMap.create_change_set _ _) as [[]| |].
  - destruct (KvHandle.map_find n (Tx.created_maps tx)); [done|]. cbn [Store.create_map Store.alloc]. cbn [mbind result_bind].
    change (Store.is_map_replicated n (Store.set_vers vs s)) with (Store.is_map_replicated n s). cbn [Store.objs Store.set_vers].
    match goal with |- context [Store.obj ?id (Store.set_objs ?o s)] =>
      change (Store.obj id (Store.set_objs o (Store.set_vers vs s))) with (Store.obj id (Store.set_objs o s)); destruct (Store.obj id (Store.set_objs o s)) end; [|done..].
    cbn [mbind result_bind]. by destruct (UntypedMap.create_change_set _ _) as [[]| |].
Qed.

Lemma with_handle_vers vs n o s tx : is_Some (Tx.read_txid tx) ->
  Tx.with_handle n o (Store.set_vers vs s) tx = ('(s1, tx1, r) ← Tx.with_handle n o s tx; Ok (Store.set_vers vs s1, tx1, r)).
Proof.
  intros Hr. unfold Tx.with_handle. rewrite get_handle_vers by done. destruct (Tx.get_handle_by_name n s tx) as [[s1 tx1]| |]; [|done..].
  cbn [mbind result_bind]. destruct (KvHandle.map_find n (Tx.all_changes tx1)) as [[id [rb cs|]]|]; [|done..]. by destruct (UntypedMap.run_hop o cs).
Qed.

(** Opening a table at the version of the store. *)
Lemma open_handle s0 done s tx r n : Store.store_ok s0 -> Replication.filled s0 done (s, Tx.all_changes tx, Tx.created_maps tx) -> n ∉ done.*1 ->
  Tx.read_txid tx = Some r -> Store.tx_version r = Store.version (Store.vers s0) ->
  exists s1 x new_maps, let changes := KvHandle.map_put n x (Tx.all_changes tx) in
    Tx.get_handle_by_name n s tx = Ok (s1, Tx.set_changes changes (Tx.set_created new_maps tx)) /\
    Replication.filled s0 (done ++ [(n, [])]) (s1, changes, new_maps).
Proof.
  intros Hok Hf Hn Hr Hrv. unfold Tx.get_handle_by_name. pose proof Hf as (Hg & _ & _ & Hsome & _ & Hnew).
  assert (KvHandle.map_find n (Tx.all_changes tx) = None) as -> by (apply eq_None_not_Some; intros Hx; by apply Hn, Hsome).
  unfold Tx.get_map_and_change_set_by_name. rewrite Hr. cbn [Tx.read_txid]. rewrite Hr, Hrv.
  destruct (Replication.find_or_create s0 done s _ _ (Store.version (Store.vers s0)) n Hok ltac:(lia) Hf Hn)
    as (s1 & new1 & id & m & E & Hm & Ht & Hh & Hin & _ & Hg1 & Htx1 & Hnew1).
  assert (E' : match Store.get_map (Store.version (Store.vers s0)) n s with
      | Some id => Ok (s, tx, id)
      | None => match KvHandle.map_find n (Tx.created_maps tx) with
          | Some _ => Throw LogicError
          | None => let '(s2, id) := Store.create_map n s in Ok (s2, Tx.set_created (KvHandle.map_put n id (Tx.created_maps tx)) tx, id) end
      end = Ok (s1, Tx.set_created new1 tx, id)).
  { destruct (Store.get_map _ n s); [injection E as <- <- <-; by destruct tx|].
    destruct (KvHandle.map_find n (Tx.created_maps tx)) as [x|] eqn:Ex; [by destruct (Hnew n x Ex)|].
    destruct (Store.create_map n s) as [s2 id2]. by injection E as <- <- <-. }
  rewrite E'. cbn [mbind result_bind]. unfold Store.obj. rewrite Hm. cbn [mbind result_bind].
  pose proof Hok as (_ & (? & ? & _) & _). destruct (Replication.open_table _ n m Ht ltac:(lia)) as (c & cs & -> & Ho). cbn [mbind result_bind].
  destruct Ho as (_ & _ & _ & Hrv' & Hrd & Hws). eexists _, _, _. split; [done|].
  apply (Replication.filled_open s0 done s _ (Tx.created_maps tx) s1 new1 id m n); try done; constructor.
Qed.

(** Writing to a table that is open and has no writes yet. *)
Lemma put_handle s0 done done' s tx n k v : Replication.filled s0 done (s, Tx.all_changes tx, Tx.created_maps tx) ->
  is_Some (KvHandle.map_find n (Tx.all_changes tx)) -> KvHandle.map_find n done = Some [] -> UntypedMap.write_ok (k, Some v) ->
  done'.*1 = done.*1 -> (forall n', KvHandle.map_find n' done' = if bool_decide (n' = n) then Some [(k, Some v)] else KvHandle.map_find n' done) ->
  exists x, let changes := KvHandle.map_put n x (Tx.all_changes tx) in
    Tx.with_handle n (UntypedMap.HPut k v) s tx = Ok (s, Tx.set_changes changes tx, UntypedMap.RNone) /\
    Replication.filled s0 done' (s, changes, Tx.created_maps tx).
Proof.
  intros Hf [[id c] Hc] Hd Hw Hnames Hd'. pose proof Hf as (Hg & Htx & Hwr & Hsome & Hfr & Hnew). pose proof Htx as (Hs1 & Hs2 & Hch & Hnm).
  unfold Tx.with_handle, Tx.get_handle_by_name. rewrite Hc. cbn [mbind result_bind]. rewrite Hc.
  destruct (Hfr n id c Hc) as (cs & m & Hm & -> & Hr & Hrv). cbn [UntypedMap.run_hop].
  assert (Hws : KvHandle.writes cs = []) by (specialize (Hwr n); unfold Store.writes_of in Hwr; by rewrite Hc, Hd in Hwr).
  eexists. split; [done|]. split_and!; [done | | | | |].
  - split_and!; [by apply KvHandle.sorted_put | done | | done]. intros n' id' c'. rewrite Replication.map_find_put. case_bool_decide as En; [|by apply Hch].
    intros [= <- <-]. subst n'. destruct (Hch n id _ Hc) as (Ho & _ & Hin). split_and!; [done | | done]. eexists _, _. split; [done|].
    unfold UntypedMap.writes_ok. cbn. rewrite Hws. cbn. split; repeat constructor; apply Hw.
  - intros n'. rewrite Hd'. unfold Store.writes_of. rewrite Replication.map_find_put. case_bool_decide; [cbn; by rewrite Hws | apply Hwr].
  - intros n'. rewrite Replication.map_find_put, Hnames. case_bool_decide; [subst; intros _; apply Hsome; by eexists | apply Hsome].
  - intros n' id' c'. rewrite Replication.map_find_put. case_bool_decide; [|apply Hfr]. intros [= <- <-]. by eexists _, m.
  - intros n' id' Hx. rewrite Hnames. by apply (Hnew n' id').
Qed.

(** *** Applying a reserved transaction *)

Lemma prepare_all_vers vs track changes s : Store.prepare_all track changes (Store.set_vers vs s) = Store.prepare_all track changes s.
Proof.
  induction changes as [|[n [id c]] changes IH]; [done|]. cbn [Store.prepare_all].
  change (Store.obj id (Store.set_vers vs s)) with (Store.obj id s). destruct (Store.obj id s); [|done..]. cbn [mbind result_bind].
  destruct (UntypedMap.prepare _ _ _) as [[]| |]; [apply IH | done..].
Qed.

(** Nothing has been read, so nothing conflicts. *)
Lemma apply_reserved s0 done s changes new_maps v vs : Store.store_ok s0 -> Replication.filled s0 done (s, changes, new_maps) ->
  v = Store.version (Store.vers s0) + 1 -> v < 2 ^ 63 -> Store.changes_have_writes changes = true ->
  exists s' hooks, Store.apply_changes changes (fun _ vs => (vs, (v, wrap64 (v - 1)))) new_maps (Some v) false (Store.set_vers vs s) = Ok (s', Some v, hooks) /\
    Store.vers s' = vs /\ Store.pending_txs s' = Store.pending_txs s0 /\
    (forall n, Store.contents n s' = if UntypedMap.nonempty (default [] (KvHandle.map_find n done))
       then Some (foldl (UntypedMap.write1 v) (default ∅ (Store.contents n s0)) (default [] (KvHandle.map_find n done))) else Store.contents n s0) /\
    (forall vs', Store.version vs' = v -> Store.compacted vs' = Store.compacted (Store.vers s0) -> Store.store_ok (Store.set_vers vs' s')).
Proof.
  intros Hok (Hg & Htx & Hw & Hin & Hfr & Hnew) Hv Hv63 Hwr. pose proof (Replication.grown_ok _ _ Hg Hok) as Hok1. destruct (Replication.grown_fields _ _ Hg) as [Em Ev].
  pose proof Htx as (Hsc & Hsn & Hch & _).
  destruct (Store.apply_phase v changes new_maps s Hok1 Htx) with (vs := vs) as (s2 & s3 & cvs & hooks & E1 & E2 & E3 & Hvs & Hp & Hc & Hokf);
    [rewrite Ev; lia | intros n id Hf; rewrite Em; by apply (Hnew n id) |].
  unfold Store.apply_changes. rewrite prepare_all_vers, (Replication.prepare_fresh changes s Hsc)
    by (intros n id c Hf; split; [by apply (Hfr n) | eexists; apply (Hch n id c Hf)]). cbn [mbind result_bind].
  assert (Store.new_maps_free (Some v) new_maps (Store.set_vers vs s) = true) as ->.
  { unfold Store.new_maps_free. apply forallb_forall. intros [n id] Hel%list_elem_of_In. apply Store.sorted_find in Hel; [|done].
    cbn [fst]. change (Store.get_map v n (Store.set_vers vs s)) with (Store.get_map v n s).
    rewrite Replication.get_map_find by (done || rewrite Ev; lia). rewrite Em. by destruct (Hnew n id Hel) as [_ ->]. }
  rewrite Hwr. cbn [andb negb Store.vers Store.set_vers].
  change (Store.set_vers vs (Store.set_vers vs s)) with (Store.set_vers vs s). rewrite E1. cbn [mbind result_bind]. rewrite E2. cbn [mbind result_bind]. rewrite E3.
  cbn [mbind result_bind]. exists s3, hooks. split_and!; [done | done | by rewrite Hp; destruct Hg as [o ->] | |].
  - intros n. by rewrite Hc, Hw, (Replication.grown_contents s0 s n Hg Hok).
  - intros vs' H1 H2. apply Hokf; [done | by rewrite Ev].
Qed.

(** *** Writing its entry *)

Lemma sum_submseteq {A} (f : A -> nat) l k : l ⊆+ k -> (sum_list_with f l <= sum_list_with f k)%nat.
Proof. intros [k' ->]%submseteq_Permutation. rewrite sum_list_with_app. lia. Qed.
Lemma sum_fmap {A B} (f : A -> B) (g : B -> nat) l : sum_list_with g (f <$> l) = sum_list_with (fun a => g (f a)) l.
Proof. induction l as [|a l IH]; [done|]. cbn. by rewrite IH. Qed.
Lemma sum_ext {A} (f g : A -> nat) l : (forall a, a ∈ l -> f a = g a) -> sum_list_with f l = sum_list_with g l.
Proof. induction l as [|a l IH]; intros H; [done|]. cbn. rewrite (H a) by left. f_equal. apply IH. intros x Hx. apply H. by right. Qed.

Definition bytes_writes (x : K * UntypedMap.Write) : Prop :=
  bytes_ok x.1 /\ Forall (fun w => bytes_ok w.1 /\ match w.2 with Some v => bytes_ok v | None => True end) x.2.

(** The change sets of an entry, as they are read from the tables. *)
Lemma filled_entry s0 done s changes new_maps s' : Replication.filled s0 done (s, changes, new_maps) -> Replication.same_attrs s s' ->
  Forall bytes_writes done -> NoDup done.*1 ->
  exists l, result_mapM (fun c => Tx.map_change c s') changes = Ok l /\ Forall KvSerial.mc_ok l /\
    (sum_list_with (fun c => length (KvSerial.enc_map (KvSerial.mc_name c, KvHandle.writes (KvSerial.mc_changes c)))) l <=
     sum_list_with (fun x => length (KvSerial.enc_map x)) done)%nat.
Proof.
  intros (_ & Htx & Hw & Hin & Hfr & _) Ha Hb Hnd. pose proof Htx as (Hs & _ & Hch & _).
  destruct (result_mapM_total (fun c => Tx.map_change c s') changes) as [l Hl].
  { intros [n [id c]] Hc. apply Store.sorted_find in Hc; [|done]. destruct (Hch n id c Hc) as ((m & Hm & _) & _). specialize (Ha id). rewrite Hm in Ha.
    unfold Tx.map_change, Store.obj. cbn [fst snd]. destruct (Store.objs s' !! id); [by eexists | done]. }
  exists l. split; [done|]. pose proof (Replication.entry_changes changes new_maps s s' l Htx Ha Hl) as Hf2.
  assert (Hnames : KvSerial.mc_name <$> l = changes.*1).
  { clear -Hf2. revert Hf2. generalize changes at 1. intros ch Hf2. induction Hf2 as [|c mc cs mcs [H _] _ IH]; [done|]. cbn. by rewrite H, IH. }
  assert (Hel : forall c, c ∈ l -> exists w, KvHandle.map_find (KvSerial.mc_name c) done = Some w /\ KvHandle.writes (KvSerial.mc_changes c) = w /\ KvHandle.sorted w).
  { intros c [i Hi]%list_elem_of_lookup. destruct (Forall2_lookup_r _ _ _ _ _ Hf2 Hi) as ([n [id ch]] & Hx & Hn & Hwc). cbn [fst] in *.
    apply list_elem_of_lookup_2, Store.sorted_find in Hx; [|done]. assert (Hnd' : n ∈ done.*1) by (apply Hin; by eexists).
    apply list_elem_of_fmap in Hnd' as ([n' w] & -> & Hd). cbn [fst] in *.
    assert (Hf : KvHandle.map_find n' done = Some w) by (rewrite KvHandle.map_find_lookup; by apply elem_of_list_to_map_1).
    unfold Replication.mc_writes in Hwc. rewrite Hwc, Hw, Hn, Hf. exists w. split_and!; [done | done|].
    destruct (Hch n' id ch Hx) as (_ & (rb & cs & -> & _ & Hsw) & _). specialize (Hw n'). unfold Store.writes_of in Hw. rewrite Hx, Hf in Hw. cbn in Hw. by rewrite <- Hw. }
  split.
  - apply Forall_forall. intros c Hc. destruct (Hel c Hc) as (w & Hf & <- & Hsw). rewrite KvHandle.map_find_lookup in Hf. apply elem_of_list_to_map_2 in Hf.
    rewrite Forall_forall in Hb. destruct (Hb _ Hf) as [H1 H2]. by split_and!.
  - set (g := fun n => length (KvSerial.enc_map (n, default [] (KvHandle.map_find n done)))). etransitivity; [|etransitivity].
    + apply Nat.eq_le_incl. apply (sum_ext _ (fun c => g (KvSerial.mc_name c))). intros c Hc. unfold g. by destruct (Hel c Hc) as (w & -> & -> & _).
    + rewrite <- sum_fmap, Hnames. apply (sum_submseteq g _ done.*1), NoDup_submseteq; [by apply KvHandle.sorted_NoDup|].
      intros n [[n' [id c]] [-> Hc]]%list_elem_of_fmap. apply Hin. apply Store.sorted_find in Hc; [|done]. by eexists.
    + rewrite sum_fmap. apply Nat.eq_le_incl, sum_ext. intros [n w] Hx. unfold g. cbn [fst].
      assert (KvHandle.map_find n done = Some w) as -> by (rewrite KvHandle.map_find_lookup; by apply elem_of_list_to_map_1). done.
Qed.

(** The entry of a reserved transaction can be written. *)
Lemma serialise_filled e evidence s0 done s changes new_maps s' tx claims : Replication.filled s0 done (s, changes, new_maps) -> Replication.same_attrs s s' ->
  Forall bytes_writes done -> NoDup done.*1 -> Tx.all_changes tx = changes -> Tx.committed tx = true -> Tx.success tx = true ->
  Store.changes_have_writes changes = true -> let id := Store.mkTxID (Tx.commit_view tx) (Tx.tx_ver tx) in
  KvSerial.encryptor_ok e ->
  (forall plain aad, exists hc, KvSerial.encrypt e plain aad id KvSerial.WriteSetWithCommitEvidenceAndClaims false = Ok (Some hc)) ->
  u64 (Tx.commit_view tx) -> u64 (Tx.tx_ver tx) -> zlen (evidence id) = 32 -> zlen claims = 32 ->
  KvSerial.get_header_length e + 200 + Z.of_nat (sum_list_with (fun x => length (KvSerial.enc_map x)) done) < 2 ^ 48 ->
  exists data d, Tx.serialise (Some e) evidence (Some claims) s' tx = Ok data /\
    KvSerial.init (Some e) false false data = Ok (Some (d, Some (Tx.commit_view tx))) /\ KvSerial.d_version d = Tx.tx_ver tx.
Proof.
  intros Hf Ha Hb Hnd Htx Hc Hs Hwr id He Henc Ht Hv Hev Hcl Hsize. destruct (filled_entry s0 done s changes new_maps s' Hf Ha Hb Hnd) as (l & Hl & Hmc & Hsum).
  unfold Tx.serialise. rewrite Hc, Hs, Htx, Hwr. cbn [negb]. rewrite Hl. cbn [mbind result_bind].
  pose proof (KvSerial.entry_size_le e KvSerial.WriteSetWithCommitEvidenceAndClaims (Tx.tx_ver tx) (evidence id) claims l) as Hle.
  assert (zlen (KvSerial.enc_header KvSerial.WriteSetWithCommitEvidenceAndClaims (Tx.tx_ver tx) (evidence id) claims) = 81) as Hh.
  { unfold KvSerial.enc_header. cbn [KvSerial.has_claims KvSerial.has_commit_evidence]. rewrite !length_app, !Serialized.length_le_bytes. lia. }
  destruct (KvSerial.make_entry_init e id KvSerial.WriteSetWithCommitEvidenceAndClaims
    (if Tx.flag_enabled Tx.LEDGER_CHUNK_BEFORE_THIS_TX tx then Z.lor (Tx.entry_flags tx) Tx.FORCE_LEDGER_CHUNK_BEFORE else Tx.entry_flags tx)
    (evidence id) claims false l) as (data & d & Em & _ & Ei & Hdv & _); try done; [cbn; lia|]. by exists data, d.
Qed.

End lemmas.

Section signing.
Context {T : Type} `{ST : KvState VersionV T} `{KL : !KvStateLaws VersionV T}.
Implicit Types (s : Store.Store PendingTx T).

(** What a signature writes. *)
Definition signed (sig_value tree : list Z) : list (K * UntypedMap.Write) :=
  [(Replication.SIGNATURES, [(unit_key, Some sig_value)]); (Replication.SERIALISED_MERKLE_TREE, [(unit_key, Some tree)])].
Definition value_ok (v : list Z) : Prop := bytes_ok v /\ zlen v < M32 - 24.

Lemma txid_eta (x : Store.TxID) : Store.mkTxID (Store.term x) (Store.tx_version x) = x.
Proof. by destruct x. Qed.
Lemma unit_write_ok v : value_ok v -> UntypedMap.write_ok (unit_key, Some v).
Proof. intros [_ H]. split; [done | exact H]. Qed.

(** Opening the two tables and writing to them. *)
Lemma sign_tables s0 vs txid sig_value tree : Store.store_ok s0 -> Store.tx_version txid = Store.version (Store.vers s0) + 1 -> Store.tx_version txid < 2 ^ 63 ->
  value_ok sig_value -> value_ok tree ->
  exists s changes new_maps, let tx := Tx.create_reserved_tx txid (Store.set_vers vs s0) in let sig := Tx.set_changes changes (Tx.set_created new_maps tx) in
    ('(s, sig) ← Tx.get_handle_by_name Replication.SIGNATURES (Store.set_vers vs s0) tx;
     '(s, sig) ← Tx.get_handle_by_name Replication.SERIALISED_MERKLE_TREE s sig;
     '(s, sig) ← put_value Replication.SIGNATURES sig_value s sig;
     put_value Replication.SERIALISED_MERKLE_TREE tree s sig) = Ok (Store.set_vers vs s, sig) /\
    Replication.filled s0 (signed sig_value tree) (s, changes, new_maps).
Proof.
  intros Hok Hv Hv63 Hj Ht. pose proof Hok as (_ & (? & ? & ?) & _). set (tx := Tx.create_reserved_tx txid (Store.set_vers vs s0)).
  assert (Hr : exists r, Tx.read_txid tx = Some r /\ Store.tx_version r = Store.version (Store.vers s0)).
  { eexists. split; [done|]. cbn. rewrite wrap64_small by (split; unfold M64; lia). lia. }
  destruct Hr as (r & Hr & Hrv).
  destruct (open_handle s0 [] s0 tx r Replication.SIGNATURES Hok (Replication.filled_nil s0)) as (s1 & x1 & n1 & E1 & Hf1); [intros Hx; inversion Hx | done | done|].
  set (tx1 := Tx.set_changes _ _) in E1.
  destruct (open_handle s0 _ s1 tx1 r Replication.SERIALISED_MERKLE_TREE Hok Hf1) as (s2 & x2 & n2 & E2 & Hf2); [by apply (bool_decide_unpack _); vm_compute | done | done|].
  set (tx2 := Tx.set_changes _ _) in E2.
  destruct (put_handle s0 _ [(Replication.SIGNATURES, [(unit_key, Some sig_value)]); (Replication.SERIALISED_MERKLE_TREE, [])] s2 tx2 Replication.SIGNATURES unit_key sig_value Hf2)
    as (x3 & E3 & Hf3); [cbn [Tx.all_changes Tx.set_changes Tx.set_created tx1 tx2]; rewrite !Replication.map_find_put; repeat case_bool_decide; (done || by eexists) | done | by apply unit_write_ok | done | |].
  { intros n. cbn. by repeat case_bool_decide. }
  set (tx3 := Tx.set_changes _ _) in E3.
  destruct (put_handle s0 _ (signed sig_value tree) s2 tx3 Replication.SERIALISED_MERKLE_TREE unit_key tree Hf3)
    as (x4 & E4 & Hf4); [cbn [Tx.all_changes Tx.set_changes Tx.set_created tx1 tx2 tx3]; rewrite !Replication.map_find_put; repeat case_bool_decide; (done || by eexists) | done | by apply unit_write_ok | done | |].
  { intros n. cbn. repeat case_bool_decide; subst; done. }
  eexists s2, _, _. split; [|exact Hf4]. rewrite get_handle_vers, E1 by done. cbn [mbind result_bind]. rewrite get_handle_vers, E2 by done. cbn [mbind result_bind].
  unfold put_value. rewrite with_handle_vers, E3 by done. cbn [mbind result_bind]. rewrite with_handle_vers, E4 by done. done.
Qed.

Section emit.
Context (e : KvSerial.Encryptor) (evidence : Store.TxID -> list Z) (record_committable : option (Z -> bool)) (node : Node).
Context (txid : Store.TxID) (commit_txid : SignableTxIndices) (cert : list Z).
Let sig_value := to_json node (signature node txid commit_txid cert).
Let tree := serialise_tree node (si_previous_version commit_txid) (wrap64 (Store.tx_version txid - 1)).

(** The node can sign: it has keys, and the signature and the tree fit. *)
Definition can_sign : Prop :=
  KvSerial.encryptor_ok e /\ KvSerial.get_header_length e < 2 ^ 40 /\
  (forall plain aad, exists hc, KvSerial.encrypt e plain aad txid KvSerial.WriteSetWithCommitEvidenceAndClaims false = Ok (Some hc)) /\
  u64 (Store.term txid) /\ zlen (evidence txid) = 32 /\ value_ok sig_value /\ value_ok tree.
Hypothesis Hcan : can_sign.

Lemma signed_bytes : Forall bytes_writes (signed sig_value tree).
Proof. destruct Hcan as (_ & _ & _ & _ & _ & [Hj _] & [Ht _]). repeat constructor; try done; apply (bool_decide_unpack _); vm_compute; done. Qed.

Lemma signed_size : KvSerial.get_header_length e + 200 + Z.of_nat (sum_list_with (fun x => length (KvSerial.enc_map x)) (signed sig_value tree)) < 2 ^ 48.
Proof.
  destruct Hcan as (_ & Hh & _ & _ & _ & [_ Hj] & [_ Ht]). cbn [sum_list_with signed]. unfold KvSerial.enc_map, KvSerial.enc_writes, KvSerial.enc_bytes. cbn [fst snd fmap list_fmap concat].
  unfold KvSerial.enc_write, KvSerial.enc_remove, KvSerial.enc_bytes. cbn [fst snd]. rewrite !length_app, !Serialized.length_le_bytes.
  change (length Replication.SIGNATURES) with 30%nat. change (length Replication.SERIALISED_MERKLE_TREE) with 24%nat. change (length unit_key) with 8%nat.
  cbn [length app]. unfold M32 in *. lia.
Qed.

(** The call of a pending signature, in a store that has reserved its version. *)
Lemma history_call_ok s0 vs : Store.store_ok s0 -> Store.tx_version txid = Store.version (Store.vers s0) + 1 -> Store.tx_version txid < 2 ^ 63 ->
  exists s' data hooks d, history_call (Some e) evidence record_committable node txid commit_txid cert (Store.set_vers vs s0) = Ok (s', Store.mkInfo Store.SUCCESS data hooks) /\
    KvSerial.init (Some e) false false data = Ok (Some (d, Some (Store.term txid))) /\ KvSerial.d_version d = Store.tx_version txid /\
    Store.vers s' = vs /\ Store.pending_txs s' = Store.pending_txs s0 /\
    (forall n, Store.contents n s' = match KvHandle.map_find n (signed sig_value tree) with
       | Some w => Some (foldl (UntypedMap.write1 (Store.tx_version txid)) (default ∅ (Store.contents n s0)) w) | None => Store.contents n s0 end) /\
    (forall vs', Store.version vs' = Store.tx_version txid -> Store.compacted vs' = Store.compacted (Store.vers s0) -> Store.store_ok (Store.set_vers vs' s')).
Proof.
  intros Hok Hv Hv63. pose proof Hok as (_ & (? & ? & ?) & _). pose proof signed_bytes as Hsb. pose proof signed_size as Hsz.
  destruct Hcan as (He & _ & Henc & Ht & Hev & Hj & Htr).
  destruct (sign_tables s0 vs txid sig_value tree Hok Hv Hv63 Hj Htr) as (s & changes & new_maps & Es & Hf).
  set (tx := Tx.create_reserved_tx txid (Store.set_vers vs s0)) in *. set (sig := Tx.set_changes _ _) in Es.
  unfold history_call. fold tx.
  destruct (Tx.get_handle_by_name _ _ tx) as [[sa siga]| |]; [|done..]. cbn [mbind result_bind] in Es |- *.
  destruct (Tx.get_handle_by_name _ sa siga) as [[sb sigb]| |]; [|done..]. cbn [mbind result_bind] in Es |- *.
  fold sig_value. destruct (put_value _ sig_value sb sigb) as [[sc sigc]| |]; [|done..]. cbn [mbind result_bind] in Es |- *.
  fold tree. rewrite Es. cbn [mbind result_bind].
  assert (Hwr : Store.changes_have_writes changes = true).
  { destruct (Store.changes_have_writes changes) eqn:E; [done|]. apply (Replication.no_writes_of Replication.SIGNATURES) in E.
    destruct Hf as (_ & _ & Hw & _). rewrite Hw in E. done. }
  destruct changes as [|ch chs]; [done|].
  destruct (apply_reserved s0 _ s (ch :: chs) new_maps (Store.tx_version txid) vs Hok Hf Hv Hv63 Hwr) as (s' & hooks & Ea & Hvs & Hp & Hc & Hokf).
  pose proof (Replication.apply_changes_attrs _ _ _ _ _ _ _ _ Ea) as Hattr.
  unfold Tx.commit_reserved. change (Tx.committed sig) with false. change (Tx.all_changes sig) with (ch :: chs). change (Tx.created_maps sig) with new_maps.
  change (Tx.tx_ver sig) with (Store.tx_version txid). cbv match. rewrite Ea. cbn [mbind result_bind].
  set (sig1 := if Tx.must_force_ledger_chunk _ _ _ then _ else sig).
  assert (Hsig1 : Tx.all_changes sig1 = (ch :: chs) /\ Tx.tx_ver sig1 = Store.tx_version txid /\ Tx.commit_view sig1 = Store.term txid) by (unfold sig1; by destruct (Tx.must_force_ledger_chunk _ _ _)).
  destruct Hsig1 as (Hs1 & Hs2 & Hs3).
  destruct (serialise_filled e evidence s0 (signed sig_value tree) s (ch :: chs) new_maps s' (Tx.set_outcome true true (Tx.tx_ver sig1) sig1) Tx.empty_claims Hf Hattr Hsb)
    as (data & d & Ed & Ei & Hdv); try done; cbn [Tx.set_outcome Tx.commit_view Tx.tx_ver]; rewrite ?Hs2, ?Hs3; try done; [by apply (bool_decide_unpack _); vm_compute | by rewrite txid_eta | split; unfold M64; lia | by rewrite txid_eta |].
  cbn [Tx.set_outcome Tx.commit_view Tx.tx_ver] in Ei, Hdv. rewrite Hs3 in Ei. rewrite Hs2 in Hdv, Ed.
  rewrite Ed. cbn [mbind result_bind]. eexists _, data, hooks, d. split; [done|]. split_and!; [done | done | done | done | |done].
  intros n. change (Store.contents n (Store.unset_flag_unsafe ?f s')) with (Store.contents n s'). rewrite Hc. cbn [signed KvHandle.map_find].
  by repeat case_bool_decide.
Qed.

End emit.

(** The queue holds the signature only. *)
Lemma batch_signature e evidence record_committable node txid commit_txid cert s vs : can_sign e evidence node txid commit_txid cert ->
  Store.store_ok s -> Store.tx_version txid = Store.version (Store.vers s) + 1 -> Store.tx_version txid < 2 ^ 63 -> Store.pending_txs s = ∅ ->
  Store.last_replicated vs = Store.version (Store.vers s) -> let p := HistoryPendingTx txid commit_txid cert in
  exists s' data hooks d,
    Store.batch_loop (call (Some e) evidence record_committable node) 2 1 [] (Store.set_vers vs (Store.set_pending {[Store.tx_version txid := (p, true)]} s)) =
      Some (Ok (s', [Store.mkEntry (Store.tx_version txid) data true hooks])) /\
    KvSerial.init (Some e) false false data = Ok (Some (d, Some (Store.term txid))) /\ KvSerial.d_version d = Store.tx_version txid /\
    Store.vers s' = vs /\ Store.pending_txs s' = ∅ /\
    (forall n, Store.contents n s' = match KvHandle.map_find n (signed (to_json node (signature node txid commit_txid cert))
        (serialise_tree node (si_previous_version commit_txid) (wrap64 (Store.tx_version txid - 1)))) with
       | Some w => Some (foldl (UntypedMap.write1 (Store.tx_version txid)) (default ∅ (Store.contents n s)) w) | None => Store.contents n s end) /\
    (forall vs', Store.version vs' = Store.tx_version txid -> Store.compacted vs' = Store.compacted (Store.vers s) -> Store.store_ok (Store.set_vers vs' s')).
Proof.
  intros Hcan Hok Hv Hv63 Hp Hlr p. pose proof Hok as (_ & (? & ? & ?) & _). set (s0 := Store.set_pending _ s).
  destruct (history_call_ok e evidence record_committable node txid commit_txid cert Hcan s0 vs Hok Hv Hv63) as (s' & data & hooks & d & Eh & Ei & Hd & Hvs & Hps & Hc & Hokf).
  cbn [Store.batch_loop Store.vers Store.set_vers Store.pending_txs s0 Store.set_pending]. rewrite Hlr, wrap64_small by (split; unfold M64; lia).
  rewrite <- Hv, lookup_singleton_eq. cbn [call p]. rewrite Eh. cbn [Store.info_data Store.info_hooks Store.set_pending Store.vers Store.pending_txs app].
  rewrite Hvs, Hlr, Hps. cbn [s0 Store.set_pending Store.pending_txs]. rewrite wrap64_small by (split; unfold M64; lia).
  rewrite delete_singleton_eq, lookup_empty. eexists _, data, hooks, d. split; [done|]. by split_and!.
Qed.

(** C14. A signature is committed and replicated under the version reserved for
    it.  When everything before it has been replicated, [emit_signature] puts
    the signature and the tree into their tables, leaves the other tables as
    they were, and hands one committable entry to the consensus, which a reader
    opens with the version and the term of the signature. *)
Theorem signature_emitted e evidence record_committable node c commit_txid cert s :
  let v := Store.version (Store.vers s) + 1 in let txid := Store.mkTxID (Store.term_of_next_version (Store.vers s)) v in
  let sig_value := to_json node (signature node txid commit_txid cert) in
  let tree := serialise_tree node (si_previous_version commit_txid) (Store.version (Store.vers s)) in
  can_sign e evidence node txid commit_txid cert -> Store.store_ok s -> v <= Store.max_deletable ->
  Store.pending_txs s = ∅ -> Store.last_replicated (Store.vers s) = Store.version (Store.vers s) ->
  Store.bft_backup c = false -> (forall b t, Store.replicate c b t = true) ->
  exists s' data hooks d,
    emit_signature (Some e) evidence record_committable node (Some (c, commit_txid)) (Some cert) s = Some (Ok (s', [Store.mkEntry v data true hooks])) /\
    KvSerial.init (Some e) false false data = Ok (Some (d, Some (Store.term txid))) /\ KvSerial.d_version d = v /\
    Store.store_ok s' /\ Store.pending_txs s' = ∅ /\ Store.version (Store.vers s') = v /\ Store.last_replicated (Store.vers s') = v /\
    Store.last_committable (Store.vers s') = Z.max (Store.last_committable (Store.vers s)) v /\
    Store.contents Replication.SIGNATURES s' =
      Some (UntypedMap.write1 v (default ∅ (Store.contents Replication.SIGNATURES s)) (unit_key, Some sig_value)) /\
    Store.contents Replication.SERIALISED_MERKLE_TREE s' =
      Some (UntypedMap.write1 v (default ∅ (Store.contents Replication.SERIALISED_MERKLE_TREE s)) (unit_key, Some tree)) /\
    forall n, n <> Replication.SIGNATURES -> n <> Replication.SERIALISED_MERKLE_TREE -> Store.contents n s' = Store.contents n s.
Proof.
  intros v txid sig_value tree Hcan Hok Hmax Hp Hlr Hbft Hrep. pose proof Hok as (_ & (? & ? & ?) & _). unfold Store.max_deletable in Hmax.
  assert (En : Store.next_txid (Store.vers s) = (Store.next_version_unsafe (Store.vers s), txid) /\ Store.version (Store.next_version_unsafe (Store.vers s)) = v).
  { unfold Store.next_txid, Store.next_version_unsafe, Store.max_deletable. rewrite wrap64_small by (split; unfold M64; lia).
    destruct (Z.ltb_spec (2 ^ 63 - 1) (Store.version (Store.vers s) + 1)); [lia | done]. }
  destruct En as [En Ev]. unfold emit_signature. rewrite En. set (vs := Store.next_version_unsafe (Store.vers s)) in *.
  unfold Store.commit, Store.commit_start. cbn [Store.set_vers Store.vers Store.term txid Store.tx_version].
  change (Store.term_of_next_version vs) with (Store.term_of_next_version (Store.vers s)). rewrite Z.eqb_refl, Hbft. cbn [negb andb].
  assert (Hs1 : exists vs1, (if Store.last_committable vs <? v then Store.set_last_committable v (Store.set_vers vs s) else Store.set_vers vs s) = Store.set_vers vs1 s /\
    Store.version vs1 = v /\ Store.compacted vs1 = Store.compacted (Store.vers s) /\ Store.last_replicated vs1 = Store.version (Store.vers s) /\
    Store.last_committable vs1 = Z.max (Store.last_committable (Store.vers s)) v).
  { change (Store.last_committable vs) with (Store.last_committable (Store.vers s)).
    destruct (Z.ltb_spec (Store.last_committable (Store.vers s)) v); eexists; (split; [done|]); cbn; split_and!; try done; lia. }
  destruct Hs1 as (vs1 & -> & Hv1 & Hc1 & Hl1 & Hlc1). cbn [Store.set_vers Store.pending_txs]. rewrite Hp, lookup_empty, insert_empty.
  cbn [Store.set_pending Store.pending_txs]. rewrite map_size_singleton.
  destruct (batch_signature e evidence record_committable node txid commit_txid cert s vs1 Hcan Hok) as (s' & data & hooks & d & Eb & Ei & Hd & Hvs & Hps & Hc & Hokf);
    [done | cbn; lia | done | done|].
  match goal with |- context [Store.batch_loop ?f ?n ?o ?b ?x] =>
    change x with (Store.set_vers vs1 (Store.set_pending {[v := (HistoryPendingTx txid commit_txid cert, true)]} s)) end. cbn [txid Store.tx_version] in Eb. rewrite Eb.
  cbn [mbind option_bind result_bind]. unfold Store.commit_end. cbn [Store.rep_batch Store.rep_view]. rewrite Hrep.
  cbn [Store.previous_last_replicated Store.previous_rollback_count Store.next_last_replicated]. rewrite !Z.eqb_refl. cbn [andb negb mbind result_bind].
  eexists _, data, hooks, d. split; [done|]. cbn [Store.vers Store.set_last_replicated Store.set_vers Store.version Store.last_replicated Store.last_committable length].
  rewrite Hvs, Hl1. change (Z.of_nat 1) with 1. fold v. rewrite wrap64_small by (split; unfold M64; lia). split_and!; [done | done | apply Hokf; cbn; rewrite ?Hvs; congruence | done | done | done | done | | |].
  - etransitivity; [apply (Hc Replication.SIGNATURES) | done].
  - etransitivity; [apply (Hc Replication.SERIALISED_MERKLE_TREE) |]. cbn [txid Store.tx_version]. unfold tree. rewrite wrap64_small by (split; unfold M64; lia).
    by replace (v - 1) with (Store.version (Store.vers s)) by lia.
  - intros n H1n H2n. etransitivity; [apply (Hc n)|]. cbn [signed KvHandle.map_find]. by rewrite !bool_decide_eq_false_2.
Qed.

End signing.

(** ** Witnesses *)

Definition ex_store : Store.Store PendingTx Store.RB := Store.new_store true Store.ALL [].
Definition ex_node : Node := mkNode [1] (fun h => h) (zeros 32) (fun a b => [a; b]) (fun p => [ps_seqno p; ps_view p]).
Definition ex_consensus : Store.Consensus := Store.mkConsensus true false (fun _ _ => true).

Lemma ex_store_ok : Store.store_ok ex_store.
Proof. split_and!; [constructor | by split_and!; cbn | done]. Qed.

Lemma signature_emitted_witness : exists s' data hooks,
  emit_signature (Some KvSerial.null_encryptor) (fun _ => zeros 32) None ex_node (Some (ex_consensus, mkSignable 0 0 0)) (Some []) ex_store =
    Some (Ok (s', [Store.mkEntry 1 data true hooks])) /\
  Store.contents Replication.SIGNATURES s' = Some (UntypedMap.write1 1 ∅ (unit_key, Some [1; 0])).
Proof.
  destruct (signature_emitted KvSerial.null_encryptor (fun _ => zeros 32) None ex_node ex_consensus (mkSignable 0 0 0) [] ex_store)
    as (s' & data & hooks & d & E & _ & _ & _ & _ & _ & _ & _ & Hc & _).
  - split_and!; [apply KvSerial.null_encryptor_ok | reflexivity | by eexists | split; reflexivity || (vm_compute; congruence) | reflexivity | |];
      (split; [repeat constructor; vm_compute; congruence | reflexivity]).
  - apply ex_store_ok.
  - vm_compute. congruence.
  - reflexivity.
  - reflexivity.
  - reflexivity.
  - reflexivity.
  - exists s', data, hooks. split; [exact E|]. exact Hc.
Defined.

End Signature.
