(* ===== verification/Json.v ===== *)
(** * JSON documents

    The part of nlohmann::json that the sources use: documents, access by key
    and conversions.  Numbers are integers; object members keep the order of
    the list.  Strings are byte lists, as in Util.v. *)
From S2P Require Import Prelude Util.
From stdpp Require Import list.
Local Open Scope Z_scope.

Module Json.
Import Util.

Inductive json :=
  | JNull
  | JBool (b : bool)
  | JNum (z : Z)
  | JStr (s : list Z)
  | JArr (l : list json)
  | JObj (l : list (list Z * json)).

(** Member of an object. *)
Fixpoint assoc {A} (k : list Z) (l : list (list Z * A)) : option A :=
  match l with
  | [] => None
  | (k', a) :: l => if bool_decide (k = k') then Some a else assoc k l
  end.

(** [j[key]] of a constant: a missing member is undefined behaviour. *)
Definition at_const (k : list Z) (j : json) : result json :=
  match j with
  | JObj l => match assoc k l with Some a => Ok a | None => Undef end
  | _ => Throw JsonError
  end.
(** [j[key]] of a variable: a missing member is created as null. *)
Definition at_var (k : list Z) (j : json) : result json :=
  match j with
  | JObj l => Ok (default JNull (assoc k l))
  | JNull => Ok JNull
  | _ => Throw JsonError
  end.
(** [j.find(key)], null members left out as the callers do. *)
Definition find (k : list Z) (j : json) : option json :=
  match j with
  | JObj l => match assoc k l with Some JNull => None | o => o end
  | _ => None
  end.

Definition is_str (s : list Z) (j : json) : bool :=
  match j with JStr s' => bool_decide (s' = s) | _ => false end.

(** [get<std::string>], [get<size_t>], [get<int>], [get<bool>], [get<std::vector<json>>] *)
Definition get_string (j : json) : result (list Z) :=
  match j with JStr s => Ok s | _ => Throw JsonError end.
Definition get_size (j : json) : result Z :=
  match j with JNum z => Ok (wrap64 z) | JBool b => Ok (if b then 1 else 0) | _ => Throw JsonError end.
Definition get_int (j : json) : result Z :=
  let int_of z := let w := z mod 2 ^ 32 in if w <? 2 ^ 31 then w else w - 2 ^ 32 in
  match j with JNum z => Ok (int_of z) | JBool b => Ok (if b then 1 else 0) | _ => Throw JsonError end.
Definition get_bool (j : json) : result bool :=
  match j with JBool b => Ok b | _ => Throw JsonError end.
Definition get_vector (j : json) : result (list json) :=
  match j with JArr l => Ok l | _ => Throw JsonError end.

End Json.
