(* ===== verification/Abi.v ===== *)
(** * The contract ABI coder

    Model of tee/src/abi: the coders of types/type.h and types/array.h, packing
    in coder.h, and the Encoder and Decoder.  A coder is an object with state:
    encoding pads the bytes of a [Bytes] and appends to the parameters of an
    array, decoding fills it.

    The type of a parameter is a JSON document; [parse_types] reads it once and
    keeps the errors of nested types in place, since the source reads them when
    it needs them.

    Main results: [encode_is_abi], the packed bytes are the encoding that the
    contract ABI prescribes, given as a reference definition; [abi_roundtrip], what the Encoder writes the Decoder reads, within
    the limits stated there; [abi_decode_gaps], what happens outside of them. *)
From S2P Require Import Prelude Util Keccak Json.
From stdpp Require Import list strings.
Local Open Scope Z_scope.

Module Abi.
Import Util Json.

(** ** Byte vectors: utils.h *)

(** The vector constructor needs [begin <= offset]. *)
Definition sub_vector (inputs : list Z) (begin_ offset : Z) : result (list Z) :=
  if zlen inputs <? offset then Throw ABIException
  else if offset <? begin_ then Undef else Ok (zslice begin_ (offset - begin_) inputs).

(** [double] is exact for these sizes. *)
Definition alignSize (size : Z) : Z := 32 * ((size + 31) / 32).

(** [at] throws past the end. *)
Definition to_array (res value : list Z) (offset : Z) : result (list Z) :=
  if zlen res <? offset + zlen value then Throw OutOfRange else Ok (zwrite offset value res).

(** [to_bytes(s, offset)] of utils.h, into 32 bytes. *)
Fixpoint hex_pairs (h : list Z) (offset : Z) (s : list Z) : result (list Z) :=
  match s with
  | [] => Ok h
  | [a] => if 32 <=? offset then Throw ABIException else Ok (zwrite offset [wrap8 (strtoull16 [a])] h)
  | a :: b :: s =>
      if 32 <=? offset then Throw ABIException
      else hex_pairs (zwrite offset [wrap8 (strtoull16 [a; b])] h) (offset + 1) s
  end.
Definition to_bytes_at (s : list Z) (offset : Z) : result (list Z) :=
  let s := strip s in
  if 64 <? zlen s then Throw ABIException else hex_pairs (zeros 32) offset s.

Definition bytes_strip (src : list Z) : list Z :=
  match src with
  | _ :: 120 :: _ => to_bytes src
  | _ => src
  end.

(** ** Types: common.h and parse_types.h *)

Inductive type_value := FOUNDNOT | ADDRESS | BOOL | BYTES | STRING | NUMBER | ARRAY.

(** Strings that are not listed are read as the first value. *)
Definition type_value_of (j : json) : type_value :=
  if is_str (str "address") j then ADDRESS
  else if is_str (str "bool") j then BOOL
  else if is_str (str "bytes") j then BYTES
  else if is_str (str "string") j then STRING
  else if is_str (str "number") j then NUMBER
  else if is_str (str "array") j then ARRAY
  else FOUNDNOT.

(** What [parse_types] finds.  [TNull] is the null pointer that it returns for
    null and for strings, [TBad] an exception. *)
Inductive AbiType :=
  | TNull
  | TBad (e : cxx_exn)
  | TUndef
  | TNumber (bit_size : Z) (Signed : bool)
  | TArray (len : option Z) (next : AbiType)
  | TCommon (type : type_value) (len : option Z).

Definition from_result (r : result AbiType) : AbiType :=
  match r with Ok t => t | Throw e => TBad e | Undef => TUndef end.

(** [len] of from_json: absent, null or a number. *)
Definition opt_len (j : json) : result (option Z) :=
  match find (str "len") j with Some n => l ← get_size n; Ok (Some l) | None => Ok None end.

Fixpoint parse_types (j : json) : AbiType :=
  match j with
  | JNull | JStr _ => TNull
  | JObj l =>
      let nested := map (fun m => (m.1, parse_types m.2)) l in
      from_result (
        t ← at_const (str "type") j;
        match type_value_of t with
        | NUMBER =>
            b ← at_const (str "bit_size") j; b ← get_size b;
            s ← at_const (str "signed") j; s ← get_bool s;
            Ok (TNumber b s)
        | ARRAY =>
            match assoc (str "value_type") nested with
            | None => Undef
            | Some next => len ← opt_len j; Ok (TArray len next)
            end
        | (ADDRESS | BOOL | STRING | BYTES) as t => len ← opt_len j; Ok (TCommon t len)
        | FOUNDNOT => Throw LogicError
        end)
  | _ => TBad JsonError
  end.

(** The null pointer is dereferenced, but a nested type that is null or a string
    is not looked at. *)
Fixpoint check_dynamic (t : AbiType) : result bool :=
  match t with
  | TNull | TUndef => Undef
  | TBad e => Throw e
  | TNumber _ _ => Ok false
  | TArray None _ => Ok true
  | TArray (Some _) TNull => Ok false
  | TArray (Some _) next => check_dynamic next
  | TCommon t _ => Ok (match t with BYTES | STRING => true | _ => false end)
  end.

(** The JSON that [number_type], [common_type] and the helpers of utils.h give. *)
Definition number_type (bit : Z) (Signed : bool) : json :=
  JObj [(str "type", JStr (str "number")); (str "bit_size", JNum bit); (str "signed", JBool Signed)].
Definition with_len (len : Z) (l : list (list Z * json)) : json :=
  JObj (if len =? 0 then l else l ++ [(str "len", JNum len)]).
Definition common_type (type : list Z) (len : Z) : json := with_len len [(str "type", JStr type)].
Definition array_type (next : json) (col : Z) : json :=
  with_len col [(str "type", JStr (str "array")); (str "value_type", next)].
Definition make_array_type (j : json) (num : list Z) : json :=
  match num with [] => array_type j 0 | _ => foldl array_type j num end.
(** [number_type] takes the size first. *)
Definition make_number_array (isSigned : bool) (len : Z) (num : list Z) : json :=
  make_array_type (number_type (if isSigned then 1 else 0) (negb (len =? 0))) num.
Definition make_bytes_array (len : Z) (num : list Z) : json := make_array_type (common_type (str "bytes") len) num.
Definition make_common_array (t : list Z) (num : list Z) : json := make_array_type (common_type t 0) num.

(** ** Coders *)

Inductive Coder :=
  | CAddress (value : list Z)
  | CNumeric (value : Z)
  | CBool (value : bool)
  | CBytes (length : Z) (value : list Z)
  | CDynBytes (value : list Z)
  | CString (value : list Z)
  | CDynArray (type : AbiType) (value : list json) (parameters : list Coder)
  | CStaticArray (type : AbiType) (expectedSize : Z) (dynamic : bool) (value : list json) (parameters : list Coder).

Definition dynamicType (c : Coder) : bool :=
  match c with
  | CDynBytes _ | CString _ | CDynArray _ _ _ => true
  | CStaticArray _ _ dynamic _ _ => dynamic
  | _ => false
  end.

Definition offset (c : Coder) : Z :=
  match c with
  | CDynBytes v | CString v => alignSize (zlen v)
  | CStaticArray _ n _ _ _ => wrap64 (n * 32)
  | _ => 32
  end.

Fixpoint get_value (c : Coder) : list Z :=
  match c with
  | CAddress v | CBytes _ v | CDynBytes v | CString v => v
  | CNumeric v => to_big_endian v
  | CBool b => zeros 31 ++ [if b then 1 else 0]
  | CDynArray _ _ ps | CStaticArray _ _ _ _ ps => flat_map get_value ps
  end.

(** *** Constructors *)

Definition isValidBitSize (bitSize : Z) : bool := (bitSize mod 8 =? 0) && (0 <? bitSize) && (bitSize <=? 256).
Definition new_int (value : list Z) (bitSize : Z) : result Coder :=
  v ← to_uint256 value;
  let size := if bitSize =? 0 then 256 else bitSize in
  if isValidBitSize size then Ok (CNumeric v) else Throw ABIException.

(** [v[0]] of an empty vector is undefined behaviour. *)
Definition new_bool (value : list Z) : result Coder :=
  match to_bytes value with
  | [] => Undef
  | [c] => if 1 <? c then Throw ABIException else Ok (CBool (c =? 1))
  | _ => Throw ABIException
  end.

Definition new_bytes (byteSize : Z) (value : list Z) : result Coder :=
  let len := zlen value in
  if (0 <? len) && (len <=? 32) && (len =? byteSize) then Ok (CBytes byteSize value) else Throw ABIException.

Definition new_static_array (t : AbiType) (n : Z) (value : json) : result Coder :=
  l ← get_vector value;
  d ← check_dynamic t;
  if negb (n =? 0) && negb (zlen l =? n) then Throw ABIException else Ok (CStaticArray t n d l []).

(** [generate_coders(rawType, length, value)], by the type that gave the name. *)
Definition generate_basic (t : AbiType) (value : list Z) : result Coder :=
  match t with
  | TNumber bit_size _ => new_int value bit_size
  | TCommon ADDRESS _ => v ← to_bytes_at value 12; Ok (CAddress v)
  | TCommon BOOL _ => new_bool value
  | TCommon STRING _ => Ok (CString value)
  | TCommon BYTES len =>
      let len := default 0 len in
      if len =? 0 then Ok (CDynBytes (bytes_strip value))
      else
        match value with
        | [] => new_bytes len (zeros len)
        | _ => new_bytes len (bytes_strip value)
        end
  | TBad e => Throw e
  | _ => Undef
  end.

(** [generate_coders(type, value)]; a basic value must be a string. *)
Definition generate_coders (t : AbiType) (value : json) : result Coder :=
  match t with
  | TArray len next =>
      let len := default 0 len in
      if 0 <? len then new_static_array next len value else l ← get_vector value; Ok (CDynArray next l [])
  | TNull | TUndef => Undef
  | TBad e => Throw e
  | _ => v ← get_string value; generate_basic t v
  end.

Definition entry_identity (t : AbiType) : result Coder :=
  match t with
  | TArray len next =>
      let len := default 0 len in
      if 0 <? len then d ← check_dynamic next; Ok (CStaticArray next len d [] []) else Ok (CDynArray next [] [])
  | TNull | TUndef => Undef
  | TBad e => Throw e
  | _ => generate_basic t []
  end.

(** *** Packing: coder.h *)

Definition encode_word (value : Z) : list Z := be_bytes 32 value.

Record PackParams := mkPart { Dynamic : bool; data : list Z }.

Definition static_size (p : PackParams) : Z := if Dynamic p then 32 else alignSize (zlen (data p)).
Definition dynamic_size (p : PackParams) : Z := if Dynamic p then alignSize (zlen (data p)) else 0.
Definition total (f : PackParams -> Z) (l : list PackParams) : Z := foldr (fun p n => f p + n) 0 l.

Fixpoint pack_loop (buf : list Z) (offset dynamicOffset : Z) (parts : list PackParams) : result (list Z) :=
  match parts with
  | [] => Ok buf
  | p :: parts =>
      if Dynamic p then
        buf ← to_array buf (encode_word dynamicOffset) offset;
        buf ← to_array buf (data p) dynamicOffset;
        pack_loop buf (offset + 32) (dynamicOffset + alignSize (zlen (data p))) parts
      else
        buf ← to_array buf (data p) offset;
        pack_loop buf (offset + alignSize (zlen (data p))) dynamicOffset parts
  end.
Definition basic_pack (parts : list PackParams) : result (list Z) :=
  let staticSize := total static_size parts in
  let dynamicSize := total dynamic_size parts in
  pack_loop (zeros (staticSize + dynamicSize)) 0 staticSize parts.

(** *** encode *)

Definition encode_bytes (value : list Z) : list Z :=
  encode_word (zlen value) ++ value ++ zeros (alignSize (zlen value) - zlen value).

(** Coders that are not arrays; [Bytes] keeps the padding. *)
Definition encode_basic (c : Coder) : list Z * Coder :=
  match c with
  | CAddress v => (v, c)
  | CNumeric v => (encode_word v, c)
  | CBool b => (zeros 31 ++ [if b then 1 else 0], c)
  | CBytes n v => let v := v ++ zeros (alignSize (zlen v) - zlen v) in (v, CBytes n v)
  | CDynBytes v | CString v => (encode_bytes v, c)
  | _ => ([], c)
  end.

(** [t] is the type of the elements of arrays, on which the recursion is. *)
Definition encode_array (enc : Coder -> result (list Z * Coder)) (next : AbiType) (value : list json) (ps : list Coder) :
  result (list Z * list Coder) :=
  new ← result_mapM (generate_coders next) value;
  es ← result_mapM (fun c => '(b, c') ← enc c; Ok (mkPart (dynamicType c) b, c')) (ps ++ new);
  b ← basic_pack (es.*1);
  Ok (b, es.*2).

Fixpoint encode (t : AbiType) (c : Coder) : result (list Z * Coder) :=
  match t, c with
  | TArray _ next, CDynArray ty value ps =>
      match value with
      | [] => Ok (zeros 32, c)
      | _ :: _ =>
          '(b, ps) ← encode_array (encode next) next value ps;
          Ok (encode_word (zlen value) ++ b, CDynArray ty value ps)
      end
  | TArray _ next, CStaticArray ty n d value ps =>
      match value with
      | [] => Ok (zeros 32, c)
      | _ :: _ => '(b, ps) ← encode_array (encode next) next value ps; Ok (b, CStaticArray ty n d value ps)
      end
  | _, _ => Ok (encode_basic c)
  end.

(** [Coder::pack] *)
Definition pack (coders : list (AbiType * Coder)) : result (list Z * list (AbiType * Coder)) :=
  match coders with
  | [] => Ok ([], [])
  | _ :: _ =>
      es ← result_mapM (fun c => '(b, c') ← encode c.1 c.2; Ok (mkPart (dynamicType c.2) b, (c.1, c'))) coders;
      b ← basic_pack (es.*1);
      Ok (b, es.*2)
  end.

(** *** decode *)

(** [decode_to_uint64(inputs, begin, offset)] *)
Definition decode_to_uint64 (inputs : list Z) (begin_ offset : Z) : result Z :=
  val ← sub_vector inputs begin_ offset;
  if negb (zlen val =? 32) then Throw ABIException
  else let v := be_val val in if M64 <=? v then Throw ABIException else Ok v.

(** [std::vector(inputs.begin() + pos, inputs.end())] *)
Definition suffix (inputs : list Z) (pos : Z) : result (list Z) :=
  if zlen inputs <? pos then Undef else Ok (zdrop pos inputs).

Definition decode_bytes (inputs : list Z) : result (list Z) :=
  if zlen inputs <? 32 then Throw ABIException
  else header ← decode_to_uint64 inputs 0 32; sub_vector inputs 32 (wrap64 (32 + header)).

(** Coders that are not arrays.  [Bytes] copies [length] bytes whatever the size
    of the input is. *)
Definition decode_basic (c : Coder) (inputs : list Z) : result Coder :=
  match c with
  | CAddress _ => if zlen inputs <? 32 then Throw ABIException else Ok (CAddress (ztake 32 inputs))
  | CNumeric _ => if zlen inputs <? 32 then Throw ABIException else Ok (CNumeric (be_val (ztake 32 inputs)))
  | CBool _ =>
      if zlen inputs <? 32 then Throw ABIException
      else
        let v := be_val (ztake 32 inputs) in
        if v =? 1 then Ok (CBool true) else if v =? 0 then Ok (CBool false) else Throw ABIException
  | CBytes n v =>
      if (zlen inputs <? 32) && (n <? zlen inputs) then Throw ABIException
      else if (zlen inputs <? n) || (zlen v <? n) then Undef
      else Ok (CBytes n (zwrite 0 (ztake n inputs) v))
  | CDynBytes _ => v ← decode_bytes inputs; Ok (CDynBytes v)
  | CString _ => v ← decode_bytes inputs; Ok (CString v)
  | _ => Ok c
  end.

(** [basic_decode] for [n] elements from [offset] on. *)
Fixpoint decode_elems (dec : Coder -> list Z -> result Coder) (next : AbiType) (inputs : list Z) (n : nat) (offset : Z) : result (list Coder) :=
  match n with
  | O => Ok []
  | S n =>
      parameter ← entry_identity next;
      x ← (if dynamicType parameter then offDst ← decode_to_uint64 inputs offset (offset + 32); suffix inputs (offDst + 32)
           else sub_vector inputs offset (offset + 32));
      parameter ← dec parameter x;
      ps ← decode_elems dec next inputs n (offset + 32);
      Ok (parameter :: ps)
  end.

Fixpoint decode (t : AbiType) (c : Coder) (inputs : list Z) : result Coder :=
  match t, c with
  | TArray _ next, CDynArray ty value ps =>
      let length := zlen inputs / 32 in
      if length <? 2 then Throw ABIException
      else
        header ← decode_to_uint64 inputs 0 32;
        if length - 1 <? header then Throw ABIException
        else new ← decode_elems (decode next) next inputs (Z.to_nat header) 32; Ok (CDynArray ty value (ps ++ new))
  | TArray _ next, CStaticArray ty n d value ps =>
      let length := zlen inputs / 32 in
      if length <? 1 then Throw ABIException
      else new ← decode_elems (decode next) next inputs (Z.to_nat n) 0; Ok (CStaticArray ty n d value (ps ++ new))
  | _, _ => decode_basic c inputs
  end.

(** ** Encoder *)

Record Encoder := mkEncoder { coders : list (AbiType * Coder); abi : list (list Z * list Z); entry : list Z }.

Definition new_encoder (entry : list Z) : Encoder := mkEncoder [] [] entry.
Definition add_inputs (name type : list Z) (value type_value : json) (e : Encoder) : result Encoder :=
  let t := parse_types type_value in
  c ← generate_coders t value;
  Ok (mkEncoder (coders e ++ [(t, c)]) (abi e ++ [(name, type)]) (entry e)).
Definition encoder_encode (e : Encoder) : result (list Z * Encoder) :=
  '(b, cs) ← pack (coders e);
  Ok (b, mkEncoder cs (abi e) (entry e)).
(** [encode(signature_function)] *)
Definition encode_with (signature_function : list Z) (e : Encoder) : result (list Z) :=
  if zlen signature_function <? 4 then Undef
  else '(b, _) ← encoder_encode e; Ok (ztake 4 signature_function ++ b).

Fixpoint join_types (l : list (list Z * list Z)) : list Z :=
  match l with
  | [] => []
  | [p] => p.2
  | p :: l => p.2 ++ str "," ++ join_types l
  end.
Definition build_method_signature (e : Encoder) : list Z :=
  ztake 4 (Keccak.keccak256 (entry e ++ str "(" ++ join_types (abi e) ++ str ")")).
Definition encodeWithSignatrue (e : Encoder) : result (list Z) :=
  '(b, _) ← encoder_encode e;
  Ok (build_method_signature e ++ b).

(** The static [encode(type, value, j_type)] *)
Definition encode_value (type : list Z) (value j_type : json) : result (list Z) :=
  e ← add_inputs [] type value j_type (new_encoder []);
  '(b, _) ← encoder_encode e;
  Ok b.

(** ** Decoder *)

Fixpoint decode_params (inputs : list Z) (off : Z) (l : list (AbiType * Coder)) : result (list (AbiType * Coder)) :=
  match l with
  | [] => Ok []
  | (t, c) :: l =>
      x ← (if dynamicType c then jump ← decode_to_uint64 inputs off (32 + off); suffix inputs jump else suffix inputs off);
      c ← decode t c x;
      l ← decode_params inputs (off + offset c) l;
      Ok ((t, c) :: l)
  end.
Definition decoder_decode (types : list json) (inputs : list Z) : result (list (AbiType * Coder)) :=
  l ← result_mapM (fun j => let t := parse_types j in c ← entry_identity t; Ok (t, c)) types;
  decode_params inputs 0 l.

Definition decode_bytes_array (inputs : list Z) : result (list (list Z)) :=
  l ← decoder_decode [make_bytes_array 0 []] inputs;
  match l with
  | [(_, CDynArray _ _ ps)] => Ok (map (fun p => to_hex_string (get_value p)) ps)
  | _ => Throw LogicError
  end.

(** Sizes of the zero values of static arrays. *)
Fixpoint get_static_array_size (j : json) : result Z :=
  match j with
  | JObj l =>
      let nested := map (fun m => (m.1, get_static_array_size m.2)) l in
      t ← at_const (str "type") j;
      if negb (is_str (str "array") t) then Ok 1
      else
        match assoc (str "len") l with
        | None => Ok 1
        | Some n =>
            n ← get_size n;
            match assoc (str "value_type") nested with
            | None => Undef
            | Some m => m ← m; Ok (wrap64 (n * m))
            end
        end
  | _ => Throw JsonError
  end.

(** ** The head and tail encoding

    The ABI writes a tuple as the heads of its components followed by their
    tails.  The head of a static component is its encoding; that of a dynamic
    one is the position of its tail. *)

Definition pad (p : PackParams) : PackParams := mkPart (Dynamic p) (data p ++ zeros (alignSize (zlen (data p)) - zlen (data p))).
Fixpoint heads (pos : Z) (l : list PackParams) : list Z :=
  match l with
  | [] => []
  | p :: l => if Dynamic p then encode_word pos ++ heads (pos + zlen (data p)) l else data p ++ heads pos l
  end.
Definition tails (l : list PackParams) : list Z := flat_map (fun p => if Dynamic p then data p else []) l.
Definition heads_size (l : list PackParams) : Z := total (fun p => if Dynamic p then 32 else zlen (data p)) l.
Definition head_tail (l : list PackParams) : list Z := heads (heads_size l) l ++ tails l.

(** What the ABI says of a type and of a value. *)
Fixpoint is_dynamic (t : AbiType) : bool :=
  match t with
  | TArray len next => if default 0 len =? 0 then true else is_dynamic next
  | TCommon BYTES len => default 0 len =? 0
  | TCommon STRING _ => true
  | _ => false
  end.

Definition abi_basic (t : AbiType) (s : list Z) : result (list Z) :=
  match t with
  | TNumber _ _ | TCommon ADDRESS _ => v ← to_uint256 s; Ok (encode_word v)
  | TCommon BOOL _ => Ok (encode_word (be_val (to_bytes s)))
  | TCommon STRING _ => Ok (encode_bytes s)
  | TCommon BYTES len => Ok (if default 0 len =? 0 then encode_bytes (bytes_strip s) else data (pad (mkPart false (bytes_strip s))))
  | _ => Undef
  end.

Fixpoint abi_encode (t : AbiType) (v : json) : result (list Z) :=
  match t with
  | TArray len next =>
      l ← get_vector v;
      es ← result_mapM (abi_encode next) l;
      let b := head_tail (map (mkPart (is_dynamic next)) es) in
      Ok (if default 0 len =? 0 then encode_word (zlen l) ++ b else b)
  | _ => s ← get_string v; abi_basic t s
  end.

(** The flag that the coder keeps for a static array agrees. *)
Fixpoint flags_ok (t : AbiType) : bool :=
  match t with
  | TArray None next => flags_ok next
  | TArray (Some n) next =>
      flags_ok next && (0 <? n) && match check_dynamic next with Ok d => eqb d (is_dynamic next) | _ => false end
  | _ => true
  end.

(** Addresses are written with all their digits, and bytes are not empty. *)
Definition is_hexb (c : Z) : bool := bool_decide (is_Some (hex_val c)).
Definition full_value (t : AbiType) (s : list Z) : bool :=
  match t with
  | TCommon ADDRESS _ => bool_decide (take 2 s = str "0x") && (zlen (drop 2 s) =? 40) && forallb is_hexb (drop 2 s)
  | TCommon BYTES len => (default 0 len =? 0) || negb (zlen s =? 0)
  | _ => true
  end.
Fixpoint full_values (t : AbiType) (v : json) : bool :=
  match t, v with
  | TArray _ next, JArr l => forallb (full_values next) l
  | TArray _ _, _ => false
  | _, JStr s => full_value t s
  | _, _ => false
  end.

(** A new coder for a value, encoded once. *)
Definition encode_new (t : AbiType) (v : json) : result (list Z) :=
  c ← generate_coders t v;
  '(b, _) ← encode t c;
  Ok b.

(** ** Lemmas *)

Lemma alignSize_bound n : 0 <= n -> n <= alignSize n < n + 32 /\ alignSize n mod 32 = 0.
Proof.
  intros Hn. unfold alignSize. pose proof (Z.div_mod (n + 31) 32 ltac:(lia)). pose proof (Z.mod_pos_bound (n + 31) 32 ltac:(lia)).
  split; [lia|]. rewrite Z.mul_comm. apply Z_mod_mult.
Qed.
Lemma alignSize_id n : n mod 32 = 0 -> alignSize n = n.
Proof. intros H. unfold alignSize. pose proof (Z.div_mod n 32 ltac:(lia)) as E. rewrite H in E. replace (n + 31) with (31 + (n / 32) * 32) by lia. rewrite Z.div_add by lia. change (31 / 32) with 0. lia. Qed.
Lemma zeros_add a b : 0 <= a -> 0 <= b -> zeros (a + b) = zeros a ++ zeros b.
Proof. intros Ha Hb. unfold zeros. rewrite Z2Nat.inj_add by done. apply replicate_add. Qed.
Lemma zlen_word v : zlen (encode_word v) = 32.
Proof. unfold encode_word. by rewrite length_be_bytes. Qed.
Lemma zlen_pad p : zlen (data (pad p)) = alignSize (zlen (data p)).
Proof. cbn. pose proof (alignSize_bound (zlen (data p)) ltac:(lia)). rewrite length_app, Nat2Z.inj_add, zlen_zeros by lia. lia. Qed.

(** Writing into the zeros between what has been written. *)
Lemma zwrite_zeros H v n R : zlen v <= n -> zwrite (zlen H) v (H ++ zeros n ++ R) = H ++ v ++ zeros (n - zlen v) ++ R.
Proof.
  intros Hv. unfold zwrite. rewrite Nat2Z.id, list_inserts_spec by (rewrite !length_app; unfold zeros; rewrite length_replicate; lia).
  rewrite take_app_length, <- drop_drop, drop_app_length. do 2 f_equal. replace n with (zlen v + (n - zlen v)) at 1 by lia.
  rewrite zeros_add, <- app_assoc by lia. apply drop_app_length'. unfold zeros. rewrite length_replicate. lia.
Qed.

Lemma to_array_zeros H v n R : zlen v <= n -> to_array (H ++ zeros n ++ R) v (zlen H) = Ok (H ++ v ++ zeros (n - zlen v) ++ R).
Proof.
  intros Hv. unfold to_array. destruct (Z.ltb_spec (zlen (H ++ zeros n ++ R)) (zlen H + zlen v)) as [Hl|_]; [|by rewrite zwrite_zeros].
  rewrite !length_app, !Nat2Z.inj_add, zlen_zeros in Hl by lia. lia.
Qed.

Lemma total_nonneg f l : (forall p, 0 <= f p) -> 0 <= total f l.
Proof. intros Hf. unfold total. induction l as [|p l IH]; cbn [foldr]; [lia | specialize (Hf p); lia]. Qed.

Lemma static_nonneg l : 0 <= total static_size l.
Proof. apply total_nonneg. intros q. unfold static_size. destruct (Dynamic q); [lia|]. pose proof (alignSize_bound (zlen (data q)) ltac:(lia)). lia. Qed.
Lemma dynamic_nonneg l : 0 <= total dynamic_size l.
Proof. apply total_nonneg. intros q. unfold dynamic_size. destruct (Dynamic q); [|lia]. pose proof (alignSize_bound (zlen (data q)) ltac:(lia)). lia. Qed.

Lemma pack_loop_spec parts : forall H D,
  pack_loop (H ++ zeros (total static_size parts) ++ D ++ zeros (total dynamic_size parts)) (zlen H) (zlen H + total static_size parts + zlen D) parts =
  Ok (H ++ heads (zlen H + total static_size parts + zlen D) (pad <$> parts) ++ D ++ tails (pad <$> parts)).
Proof.
  induction parts as [|p parts IH]; intros H D; cbn [pack_loop].
  { cbn [total foldr heads tails flat_map fmap list_fmap]. by rewrite !app_nil_r. }
  pose proof (static_nonneg parts) as Hs. pose proof (dynamic_nonneg parts) as Hd. pose proof (alignSize_bound (zlen (data p)) ltac:(lia)) as [Ha _]. pose proof (zlen_pad p) as Hp.
  rewrite fmap_cons. cbn [total foldr heads tails flat_map]. fold (total static_size parts) (total dynamic_size parts) (tails (pad <$> parts)).
  cbn [Dynamic pad]. destruct (Dynamic p) eqn:E.
  - assert (static_size p = 32 /\ dynamic_size p = alignSize (zlen (data p))) as [-> ->] by (unfold static_size, dynamic_size; by rewrite E).
    set (pos := zlen H + (32 + total static_size parts) + zlen D). rewrite to_array_zeros, zlen_word by (rewrite zlen_word; lia). cbn [mbind result_bind]. replace (32 + total static_size parts - 32) with (total static_size parts) by lia.
    set (w := encode_word pos). replace (H ++ w ++ zeros (total static_size parts) ++ D ++ zeros (alignSize (zlen (data p)) + total dynamic_size parts))
      with ((H ++ w ++ zeros (total static_size parts) ++ D) ++ zeros (alignSize (zlen (data p)) + total dynamic_size parts) ++ []) by (by rewrite <- !app_assoc, app_nil_r).
    set (B := H ++ w ++ _ ++ D). assert (HB : zlen B = pos) by (unfold B, w, pos; rewrite !length_app, !Nat2Z.inj_add, zlen_word, zlen_zeros by lia; lia).
    rewrite <- HB. rewrite to_array_zeros by lia. cbn [mbind result_bind].
    replace (alignSize (zlen (data p)) + total dynamic_size parts - zlen (data p)) with ((alignSize (zlen (data p)) - zlen (data p)) + total dynamic_size parts) by lia.
    rewrite zeros_add by lia. specialize (IH (H ++ w) (D ++ data (pad p))).
    replace (zlen (H ++ w)) with (zlen H + 32) in IH by (unfold w; rewrite length_app, Nat2Z.inj_add, zlen_word; lia).
    replace (zlen H + 32 + total static_size parts + zlen (D ++ data (pad p))) with (pos + zlen (data (pad p))) in IH by (rewrite length_app, Nat2Z.inj_add; unfold pos; lia).
    rewrite Hp in IH |- *. rewrite HB. cbn [pad data] in IH |- *. rewrite <- !app_assoc in IH. unfold B. rewrite <- !app_assoc, app_nil_r. exact IH.
  - assert (static_size p = alignSize (zlen (data p)) /\ dynamic_size p = 0) as [-> ->] by (unfold static_size, dynamic_size; by rewrite E).
    rewrite to_array_zeros by lia. cbn [mbind result_bind app].
    replace (alignSize (zlen (data p)) + total static_size parts - zlen (data p)) with ((alignSize (zlen (data p)) - zlen (data p)) + total static_size parts) by lia.
    rewrite zeros_add by lia. specialize (IH (H ++ data (pad p)) D). rewrite length_app, Nat2Z.inj_add, Hp in IH.
    replace (zlen H + (alignSize (zlen (data p)) + total static_size parts) + zlen D) with (zlen H + alignSize (zlen (data p)) + total static_size parts + zlen D) by lia.
    cbn [pad data] in IH |- *. rewrite <- !app_assoc. rewrite <- !app_assoc in IH. rewrite Z.add_0_l. etransitivity; [exact IH | by rewrite <- ?app_assoc].
Qed.

Lemma basic_pack_spec parts : basic_pack parts = Ok (head_tail (pad <$> parts)).
Proof.
  unfold basic_pack. pose proof (pack_loop_spec parts [] []) as H. cbn [app length] in H. rewrite <- zeros_add in H by (apply static_nonneg || apply dynamic_nonneg).
  change (Z.of_nat 0) with 0 in H. rewrite Z.add_0_l, Z.add_0_r in H. rewrite H. f_equal. unfold head_tail. f_equal. f_equal.
  clear H. unfold heads_size, total. induction parts as [|p l IH]; [done|]. rewrite fmap_cons. cbn [foldr]. by rewrite <- IH, zlen_pad.
Qed.

(** *** Coders that are not arrays *)

Lemma hex_pairs_length n : forall s h off b, (length s <= n)%nat -> hex_pairs h off s = Ok b -> length b = length h.
Proof.
  induction n as [|n IH]; intros [|a [|a' s]] h off b Hs E; cbn [hex_pairs length] in E, Hs; try (by injection E as <-); try lia.
  - destruct (Z.leb_spec 32 off); [done|]. injection E as <-. unfold zwrite. by rewrite length_list_inserts.
  - destruct (Z.leb_spec 32 off); [done|]. apply IH in E; [|lia]. rewrite E. unfold zwrite. by rewrite length_list_inserts.
Qed.

Lemma to_bytes_at_length s off b : to_bytes_at s off = Ok b -> zlen b = 32.
Proof. intros E. unfold to_bytes_at in E. destruct (64 <? zlen (strip s)); [done|]. apply (hex_pairs_length _ _ _ _ _ (le_n _)) in E. by rewrite E. Qed.

Lemma hex_val_range c z : hex_val c = Some z -> 0 <= c /\ In (Z.to_nat c) (seq 0 128).
Proof. intros Hc. unfold hex_val in Hc. repeat zcase_in Hc; cbn in Hc; simplify_eq; split; try lia; apply in_seq; lia. Qed.

Lemma strtoull16_pair a b x y : hex_val a = Some x -> hex_val b = Some y -> wrap8 (strtoull16 [a; b]) = x * 16 + y.
Proof.
  intros Ha Hb.
  assert (H : forallb (fun a => forallb (fun b => match hex_val (Z.of_nat a), hex_val (Z.of_nat b) with
      | Some x, Some y => wrap8 (strtoull16 [Z.of_nat a; Z.of_nat b]) =? x * 16 + y | _, _ => true end) (seq 0 128)) (seq 0 128) = true) by (vm_compute; reflexivity).
  pose proof (hex_val_range a x Ha) as [Ra Sa]. pose proof (hex_val_range b y Hb) as [Rb Sb]. rewrite forallb_forall in H. specialize (H (Z.to_nat a) Sa).
  rewrite forallb_forall in H. specialize (H (Z.to_nat b) Sb). rewrite (Z2Nat.id a), (Z2Nat.id b), Ha, Hb in H by done. by apply Z.eqb_eq.
Qed.

Lemma hexnum_acc x s : hexnum x s = x * 16 ^ zlen s + hexnum 0 s.
Proof.
  unfold hexnum. revert x. induction s as [|c s IH]; intros x; cbn [foldl length]; [cbn; lia|].
  rewrite IH, (IH (0 * 16 + _)), Nat2Z.inj_succ, Z.pow_succ_r by lia. lia.
Qed.

(** Pairs of digits are written one after the other. *)
Lemma hex_pairs_spec n : forall d h R, length d = (2 * n)%nat -> zlen h + Z.of_nat n <= 32 -> Forall is_hex d ->
  exists b, hex_pairs (h ++ zeros (Z.of_nat n) ++ R) (zlen h) d = Ok (h ++ b ++ R) /\ length b = n /\ be_val b = hexnum 0 d /\ bytes_ok b.
Proof.
  induction n as [|n IH]; intros d h R Hd Hn Hx.
  { destruct d; [|done]. exists []. split_and!; [done | done | done | constructor]. }
  destruct d as [|a [|b d]]; cbn in Hd; [lia | lia|]. assert (Hd' : length d = (2 * n)%nat) by lia. apply Forall_cons in Hx as [[x Ha] Hx]. apply Forall_cons in Hx as [[y Hb] Hx].
  cbn [hex_pairs]. destruct (Z.leb_spec 32 (zlen h)); [lia|]. rewrite (strtoull16_pair a b x y Ha Hb).
  replace (Z.of_nat (S n)) with (1 + Z.of_nat n) by lia. rewrite zwrite_zeros by (cbn; lia).
  replace (1 + Z.of_nat n - zlen [x * 16 + y]) with (Z.of_nat n) by (cbn; lia).
  destruct (IH d (h ++ [x * 16 + y]) R) as (bs & E & Hl & Hv & Hbs); [lia | rewrite length_app; cbn [length]; lia | done|].
  exists ((x * 16 + y) :: bs). rewrite <- !app_assoc in E. rewrite length_app in E. cbn [length app] in E. replace (Z.of_nat (length h + 1)) with (zlen h + 1) in E by lia.
  cbn [app]. split; [exact E|]. split; [cbn; lia|]. split.
  2:{ constructor; [|done]. destruct (from_hex_digit_val a x Ha) as (_ & ? & _), (from_hex_digit_val b y Hb) as (_ & ? & _). split; unfold M8; lia. }
  change (a :: b :: d) with ([a; b] ++ d). rewrite be_val_cons, Hv, Hl, hexnum_app, (hexnum_acc (hexnum 0 [a; b]) d), Hd'.
  cbn [hexnum foldl]. rewrite Ha, Hb. cbn [default from_option id]. replace (16 ^ Z.of_nat (2 * n)) with (256 ^ Z.of_nat n); [lia|].
  rewrite Nat2Z.inj_mul, Z.pow_mul_r by lia. done.
Qed.

Lemma address_spec d : zlen d = 40 -> Forall is_hex d ->
  exists b, to_bytes_at (str "0x" ++ d) 12 = Ok b /\ b = encode_word (hexnum 0 d) /\ to_uint256 (str "0x" ++ d) = Ok (hexnum 0 d).
Proof.
  intros Hl Hd. unfold to_bytes_at. change (strip (str "0x" ++ d)) with d. destruct (Z.ltb_spec 64 (zlen d)); [lia|].
  destruct (hex_pairs_spec 20 d (zeros 12) []) as (b & E & Hb & Hv & Hok); [lia | reflexivity | done|].
  change (zeros 12 ++ zeros (Z.of_nat 20) ++ []) with (zeros 32) in E. change (zlen (zeros 12)) with 12 in E. rewrite app_nil_r in E. exists (zeros 12 ++ b).
  split; [exact E|]. split; [|apply from_string_0x; [done | lia]]. unfold encode_word. rewrite <- Hv.
  assert (H32 : length (zeros 12 ++ b) = 32%nat) by (rewrite length_app, Hb; reflexivity).
  rewrite <- (be_bytes_be_val (zeros 12 ++ b)) by (apply bytes_ok_app; split; [apply bytes_ok_zeros | done]).
  rewrite H32, be_val_app. unfold zeros. rewrite be_val_zeros. done.
Qed.

Lemma bool_word c : 0 <= c <= 1 -> zeros 31 ++ [if c =? 1 then 1 else 0] = encode_word (be_val [c]).
Proof. intros Hc. assert (c = 0 \/ c = 1) as [->| ->] by lia; reflexivity. Qed.

Lemma zlen_pad_mod p : zlen (data (pad p)) mod 32 = 0.
Proof. rewrite zlen_pad. apply alignSize_bound. lia. Qed.
Lemma pad_id p : zlen (data p) mod 32 = 0 -> pad p = p.
Proof. intros H. destruct p as [d b]. unfold pad. cbn in *. rewrite alignSize_id, Z.sub_diag by done. by rewrite app_nil_r. Qed.
Lemma encode_bytes_mod v : zlen (encode_bytes v) mod 32 = 0.
Proof.
  unfold encode_bytes. pose proof (alignSize_bound (zlen v) ltac:(lia)) as [? Hm]. rewrite !length_app, !Nat2Z.inj_add, zlen_word, zlen_zeros by lia.
  replace (32 + (zlen v + (alignSize (zlen v) - zlen v))) with (alignSize (zlen v) + 1 * 32) by lia. by rewrite Z_mod_plus_full.
Qed.

Lemma full_address s : bool_decide (take 2 s = str "0x") && (zlen (drop 2 s) =? 40) && forallb is_hexb (drop 2 s) = true ->
  exists d, s = str "0x" ++ d /\ zlen d = 40 /\ Forall is_hex d.
Proof.
  intros [[H1%bool_decide_eq_true H2%Z.eqb_eq]%andb_true_iff H3]%andb_true_iff. exists (drop 2 s).
  split; [by rewrite <- H1, take_drop|]. split; [done|]. rewrite forallb_forall in H3. apply List.Forall_forall. intros x Hx.
  specialize (H3 x Hx). by apply bool_decide_eq_true in H3.
Qed.

(** Every basic value is written as the ABI says. *)
Lemma basic_spec t s c : generate_basic t s = Ok c -> full_value t s = true ->
  abi_basic t s = Ok (fst (encode_basic c)) /\ dynamicType c = is_dynamic t /\ zlen (fst (encode_basic c)) mod 32 = 0.
Proof.
  destruct t as [|e| |bit sg|len next|[] len]; cbn [generate_basic abi_basic is_dynamic]; intros E Hf; try done.
  - unfold new_int in E. destruct (to_uint256 s) as [v| |]; [|done..]. cbn [mbind result_bind] in E |- *. destruct (isValidBitSize _); [|done].
    injection E as <-. cbn [encode_basic fst]. by rewrite zlen_word.
  - destruct (full_address s Hf) as (d & -> & Hl & Hd). destruct (address_spec d Hl Hd) as (b & E' & -> & ->).
    rewrite E' in E. injection E as <-. cbn [encode_basic fst dynamicType mbind result_bind]. by rewrite zlen_word.
  - unfold new_bool in E. pose proof (to_bytes_ok s) as Hb. destruct (to_bytes s) as [|x [|]]; [done | | done]. apply Forall_inv in Hb as [? _].
    destruct (Z.ltb_spec 1 x); [done|]. injection E as <-. cbn [encode_basic fst dynamicType]. rewrite bool_word by lia. by rewrite zlen_word.
  - cbn in Hf. destruct (default 0 len =? 0).
    + injection E as <-. cbn [encode_basic fst dynamicType]. split_and!; [done | done | apply encode_bytes_mod].
    + destruct s as [|x s]; [done|]. unfold new_bytes in E. destruct (_ && _); [|done]. injection E as <-. cbn [encode_basic fst dynamicType].
      split_and!; [done | done |]. apply (zlen_pad_mod (mkPart false (bytes_strip (x :: s)))).
  - injection E as <-. cbn [encode_basic fst dynamicType]. split_and!; [done | done | apply encode_bytes_mod].
Qed.

(** *** Arrays and tuples *)

Lemma head_tail_mod l : Forall (fun p => zlen (data p) mod 32 = 0) l -> zlen (head_tail l) mod 32 = 0.
Proof.
  intros H. unfold head_tail. generalize (heads_size l). intros pos. rewrite length_app, Nat2Z.inj_add. revert pos.
  induction H as [|p l Hp _ IH]; intros pos; [done|]. cbn [heads tails flat_map]. fold (tails l).
  apply Z.mod_divide in Hp; [|lia]. apply Z.mod_divide; [lia|].
  assert (IH' : forall pos, (32 | zlen (heads pos l) + zlen (tails l))) by (intros q; apply Z.mod_divide; [lia | apply IH]).
  destruct (Dynamic p); rewrite !length_app, !Nat2Z.inj_add, ?zlen_word.
  - destruct (IH' (pos + zlen (data p))) as [q Hq], Hp as [r Hr]. exists (1 + r + q). lia.
  - destruct (IH' pos) as [q Hq], Hp as [r Hr]. exists (r + q). cbn [length]. lia.
Qed.

Lemma word_app_mod x b : zlen b mod 32 = 0 -> zlen (encode_word x ++ b) mod 32 = 0.
Proof. intros [q Hq]%Z.mod_divide; [|lia]. rewrite length_app, Nat2Z.inj_add, zlen_word. apply Z.mod_divide; [lia|]. exists (1 + q). lia. Qed.

Lemma parts_spec {A C} (gen : A -> result C) (enc : C -> result (list Z * C)) (dyn : C -> bool) (ref : A -> result (list Z)) (d : A -> bool) l cs es :
  Forall2 (fun a c => gen a = Ok c) l cs ->
  Forall2 (fun c e => ('(b, c') ← enc c; Ok (mkPart (dyn c) b, c')) = Ok e) cs es ->
  (forall a c b c', a ∈ l -> gen a = Ok c -> enc c = Ok (b, c') -> ref a = Ok b /\ dyn c = d a /\ zlen b mod 32 = 0) ->
  exists bs, result_mapM ref l = Ok bs /\ pad <$> es.*1 = zip_with mkPart (d <$> l) bs /\
    Forall (fun p => zlen (data p) mod 32 = 0) (pad <$> es.*1).
Proof.
  intros H. revert es. induction H as [|a c l cs Hg _ IH]; intros es He Hs.
  { inversion He; subst. by exists []. }
  inversion He as [|? [p c'] ? es' He1 He2]; subst. destruct (enc c) as [[b c'']| |] eqn:Ec; [|done..]. injection He1 as <- <-.
  destruct (Hs a c b c'' ltac:(left) Hg Ec) as (H1 & H2 & H3). destruct (IH es' He2) as (bs & E & Ep & Hf); [intros; eapply Hs; by try right|].
  exists (b :: bs). cbn [result_mapM]. rewrite H1. cbn [mbind result_bind]. rewrite E, !fmap_cons. cbn [fst zip_with].
  rewrite pad_id, H2 by done. split; [done|]. split; [by rewrite Ep | by constructor].
Qed.

Lemma encode_array_spec next l b ps :
  (forall v c b c', v ∈ l -> generate_coders next v = Ok c -> encode next c = Ok (b, c') ->
     abi_encode next v = Ok b /\ dynamicType c = is_dynamic next /\ zlen b mod 32 = 0) ->
  encode_array (encode next) next l [] = Ok (b, ps) ->
  exists bs, result_mapM (abi_encode next) l = Ok bs /\ b = head_tail (map (mkPart (is_dynamic next)) bs) /\ zlen b mod 32 = 0.
Proof.
  intros Hs. unfold encode_array. destruct (result_mapM (generate_coders next) l) as [new| |] eqn:En; [|done..]. cbn [mbind result_bind app].
  destruct (result_mapM _ new) as [es| |] eqn:Ee; [|done..]. cbn [mbind result_bind]. rewrite basic_pack_spec. cbn [mbind result_bind]. intros [= <- <-].
  apply result_mapM_ok in En, Ee. destruct (parts_spec _ _ _ _ (fun _ => is_dynamic next) _ _ _ En Ee Hs) as (bs & E & Ep & Hf).
  exists bs. split; [done|]. split; [|by apply head_tail_mod]. f_equal. rewrite Ep. apply result_mapM_ok, Forall2_length in E. clear -E.
  revert bs E. induction l as [|v l IH]; intros [|b bs] E; try done. cbn. f_equal. apply IH. by injection E.
Qed.

Lemma encode_spec t : forall v c b c', flags_ok t = true -> full_values t v = true -> generate_coders t v = Ok c -> encode t c = Ok (b, c') ->
  abi_encode t v = Ok b /\ dynamicType c = is_dynamic t /\ zlen b mod 32 = 0.
Proof.
  induction t as [|e| |bit sg|len next IH|ct len]; intros v c b c' Hf Hv Hc He; try done.
  1,3: destruct v as [| | |s| |]; try done; cbn [generate_coders get_string mbind result_bind full_values] in Hc, Hv;
    destruct (basic_spec _ _ _ Hc Hv) as (H1 & H2 & H3); cbn [encode] in He; injection He as He; rewrite He in H1, H3; by cbn [abi_encode get_string mbind result_bind].
  destruct v as [| | | |l|]; try done. cbn [full_values] in Hv. rewrite forallb_forall in Hv.
  assert (Hs : flags_ok next = true -> forall v c b c', v ∈ l -> generate_coders next v = Ok c -> encode next c = Ok (b, c') ->
    abi_encode next v = Ok b /\ dynamicType c = is_dynamic next /\ zlen b mod 32 = 0).
  { intros Hn v' c0 b0 c0' Hin. apply IH; [done|]. apply Hv. by apply list_elem_of_In. }
  cbn [generate_coders abi_encode is_dynamic get_vector mbind result_bind] in Hc |- *. destruct len as [n|]; cbn [default from_option id] in Hc |- *.
  - cbn [flags_ok] in Hf. apply andb_true_iff in Hf as [[Hn Hpos]%andb_true_iff Hd]. rewrite Hpos in Hc. apply Z.ltb_lt in Hpos.
    unfold new_static_array in Hc. cbn [get_vector mbind result_bind] in Hc. destruct (check_dynamic next) as [d| |]; [|done..]. apply eqb_prop in Hd. subst d.
    cbn [mbind result_bind] in Hc. destruct (Z.eqb_spec n 0); [lia|]. cbn [negb andb] in Hc. destruct (Z.eqb_spec (zlen l) n) as [Hl|]; [|done].
    injection Hc as <-. cbn [encode] in He. destruct l as [|x l]; [cbn in Hl; lia|]. set (l' := x :: l) in *.
    destruct (encode_array _ _ _ _) as [[b' ps]| |] eqn:Ea; [|done..]. injection He as <- <-.
    destruct (encode_array_spec next l' b' ps (Hs Hn) Ea) as (bs & E & -> & Hm). rewrite E. done.
  - injection Hc as <-. cbn [encode] in He. destruct l as [|x l]; [injection He as <- <-; done|]. set (l' := x :: l) in *.
    destruct (encode_array _ _ _ _) as [[b' ps]| |] eqn:Ea; [|done..]. injection He as <- <-.
    destruct (encode_array_spec next l' b' ps (Hs Hf) Ea) as (bs & E & -> & Hm). rewrite E. split; [done|]. split; [done|].
    by apply word_app_mod.
Qed.

(** C24. The bytes of [Encoder] are those that the contract ABI prescribes: for
    parameters of any types, arrays of any depth included, the packed call data
    is the head and tail encoding of the reference encodings of the values.
    Types are those whose static arrays the coder flags correctly, and values
    are written in full. *)
Theorem encode_is_abi (params : list (AbiType * json)) cs b cs' :
  forallb (fun p => flags_ok p.1 && full_values p.1 p.2) params = true ->
  result_mapM (fun p => c ← generate_coders p.1 p.2; Ok (p.1, c)) params = Ok cs ->
  pack cs = Ok (b, cs') ->
  exists es, result_mapM (fun p => abi_encode p.1 p.2) params = Ok es /\
    b = head_tail (zip_with mkPart ((fun p => is_dynamic p.1) <$> params) es) /\ zlen b mod 32 = 0.
Proof.
  intros Hok Hg Hp. apply result_mapM_ok in Hg. destruct cs as [|c0 cs0]; cbn [pack] in Hp.
  { inversion Hg; subst. injection Hp as <- <-. by exists []. }
  destruct (result_mapM _ _) as [es| |] eqn:Ee in Hp; [|done..]. cbn [mbind result_bind] in Hp. rewrite basic_pack_spec in Hp. injection Hp as <- <-.
  apply result_mapM_ok in Ee.
  destruct (parts_spec _ (fun c : AbiType * Coder => '(b, c') ← encode c.1 c.2; Ok (b, (c.1, c'))) (fun c => dynamicType c.2)
     (fun p => abi_encode p.1 p.2) (fun p => is_dynamic p.1) params (c0 :: cs0) es Hg) as (bs & E & Ep & Hf).
  - eapply Forall2_impl; [exact Ee|]. intros [t c] e H. cbn in H |- *. by destruct (encode t c) as [[? ?]| |].
  - intros [t v] [t' c] b [t'' c'] Hin Hg' He. rewrite forallb_forall in Hok. specialize (Hok (t, v) ltac:(by apply list_elem_of_In)).
    apply andb_true_iff in Hok as [H1 H2]. cbn in *. destruct (generate_coders t v) as [c1| |] eqn:Eg; [|done..]. injection Hg' as <- <-.
    destruct (encode t c1) as [[? ?]| |] eqn:E1; [|done..]. injection He as <- <- <-. by eapply encode_spec.
  - exists bs. split; [done|]. rewrite Ep in Hf |- *. split; [done | by apply head_tail_mod].
Qed.

(** *** Decoding *)

Lemma to_uint256_u256 s v : to_uint256 s = Ok v -> u256 v.
Proof.
  assert (Hh : forall s n x, u256 x -> from_string_hex n x s = Ok v -> u256 v).
  { induction s0 as [|c s0 IH]; intros n x Hx E; cbn [from_string_hex] in E; [by injection E as <-|].
    destruct (64 <? n + 1); [done|]. destruct (from_hex_digit c) as [d| |] eqn:Ed; [|done..]. cbn [mbind result_bind] in E. eapply IH; [|exact E].
    apply (lor_bound _ _ 256); [lia | apply wrap256_u256 |]. unfold from_hex_digit, from_dec_digit in Ed. repeat zcase_in Ed; cbn in Ed; simplify_eq; lia. }
  assert (Hd : forall s n x, u256 x -> from_string_dec n x s = Ok v -> u256 v).
  { induction s0 as [|c s0 IH]; intros n x Hx E; cbn [from_string_dec] in E; [by injection E as <-|].
    destruct (77 <? n); [done|]. destruct (from_dec_digit c) as [d| |]; [|done..]. cbn [mbind result_bind] in E.
    destruct (_ <? d); [done|]. eapply IH; [|exact E]. apply wrap256_u256. }
  unfold to_uint256, from_string. repeat case_match; intros E; first [by apply Hh in E; [|apply u256_0] | by apply Hd in E; [|apply u256_0]].
Qed.

Lemma zslice_app {A} (a b c : list A) n : zlen b = n -> zslice (zlen a) n (a ++ b ++ c) = b.
Proof. intros <-. unfold zslice, ztake, zdrop. by rewrite !Nat2Z.id, drop_app_length, take_app_length. Qed.

Lemma sub_vector_app a b c from to_ : zlen a = from -> to_ = from + zlen b -> sub_vector (a ++ b ++ c) from to_ = Ok b.
Proof.
  intros <- ->. unfold sub_vector. destruct (Z.ltb_spec (zlen (a ++ b ++ c)) (zlen a + zlen b)) as [H|_]; [rewrite !length_app in H; lia|].
  destruct (Z.ltb_spec (zlen a + zlen b) (zlen a)); [lia|]. f_equal. apply zslice_app. lia.
Qed.

Lemma suffix_app a b pos : zlen a = pos -> suffix (a ++ b) pos = Ok b.
Proof.
  intros <-. unfold suffix. destruct (Z.ltb_spec (zlen (a ++ b)) (zlen a)) as [H|_]; [rewrite length_app in H; lia|].
  unfold zdrop. by rewrite Nat2Z.id, drop_app_length.
Qed.

Lemma decode_word_app a x c from to_ : zlen a = from -> to_ = from + 32 -> 0 <= x < M64 -> decode_to_uint64 (a ++ encode_word x ++ c) from to_ = Ok x.
Proof.
  intros Ha Ht Hx. unfold decode_to_uint64. rewrite (sub_vector_app a _ c) by (rewrite ?zlen_word; lia). cbn [mbind result_bind].
  rewrite zlen_word. cbn [Z.eqb Pos.eqb negb]. unfold encode_word. rewrite be_val_be_bytes. change (256 ^ Z.of_nat 32) with M256.
  rewrite Z.mod_small by (unfold M64, M256 in *; lia). destruct (Z.leb_spec M64 x); [lia | done].
Qed.

Lemma ztake_app {A} (a b : list A) n : zlen a = n -> ztake n (a ++ b) = a.
Proof. intros <-. unfold ztake. by rewrite Nat2Z.id, take_app_length. Qed.

Lemma decode_bytes_app v rest : zlen v < 2 ^ 63 -> decode_bytes (encode_bytes v ++ rest) = Ok v.
Proof.
  intros Hv. unfold decode_bytes, encode_bytes. rewrite <- !app_assoc. destruct (Z.ltb_spec (zlen (encode_word (zlen v) ++ v ++ zeros (alignSize (zlen v) - zlen v) ++ rest)) 32) as [H|_].
  { rewrite length_app, Nat2Z.inj_add, zlen_word in H. lia. }
  pose proof (decode_word_app [] (zlen v) (v ++ zeros (alignSize (zlen v) - zlen v) ++ rest) 0 32) as E. cbn [app] in E.
  rewrite E by (done || (unfold M64; lia)). cbn [mbind result_bind]. apply sub_vector_app; [apply zlen_word|]. unfold wrap64. rewrite Z.mod_small; unfold M64; lia.
Qed.

(** Values whose decoding finds what was encoded: no booleans, and arrays of
    variable size that are not empty. *)
Fixpoint elem_ok (t : AbiType) (v : json) : bool :=
  match t, v with
  | TArray None next, JArr l => negb (zlen l =? 0) && forallb (elem_ok next) l
  | TArray _ _, _ | TCommon BOOL _, _ => false
  | _, JStr _ => true
  | _, _ => false
  end.

(** The coder that decoding leaves. *)
Fixpoint decoded (t : AbiType) (v : json) : result Coder :=
  match t with
  | TArray len next =>
      l ← get_vector v;
      ps ← result_mapM (decoded next) l;
      if 0 <? default 0 len then d ← check_dynamic next; Ok (CStaticArray next (default 0 len) d [] ps) else Ok (CDynArray next [] ps)
  | _ => generate_coders t v
  end.

Lemma bytes_roundtrip n v rest : 0 < n <= 32 -> zlen v = n ->
  decode_basic (CBytes n (zeros n)) (data (pad (mkPart false v)) ++ rest) = Ok (CBytes n v).
Proof.
  intros Hn Hv. cbn [decode_basic]. pose proof (zlen_pad (mkPart false v)) as Hp. cbn [data] in Hp. rewrite Hv in Hp.
  assert (alignSize n = 32) as Ha by (unfold alignSize; replace ((n + 31) / 32) with 1 by (pose proof (Z.div_mod (n + 31) 32); pose proof (Z.mod_pos_bound (n + 31) 32); lia); lia).
  destruct (Z.ltb_spec (zlen (data (pad (mkPart false v)) ++ rest)) 32) as [H|_]; [rewrite length_app in H; lia|]. cbn [andb].
  destruct (Z.ltb_spec (zlen (data (pad (mkPart false v)) ++ rest)) n) as [H|_]; [rewrite length_app in H; lia|].
  rewrite zlen_zeros, Z.ltb_irrefl by lia. cbn [orb pad data]. rewrite <- app_assoc, ztake_app by done. do 2 f_equal.
  pose proof (zwrite_zeros [] v n [] ltac:(lia)) as E. cbn [app length] in E. change (Z.of_nat 0) with 0 in E. rewrite app_nil_r in E. rewrite E, Hv, Z.sub_diag. apply app_nil_r.
Qed.

(** A static value fills one word. *)
Lemma decode_basic_spec t s c rest : generate_basic t s = Ok c -> elem_ok t (JStr s) = true -> zlen (fst (encode_basic c)) < 2 ^ 63 ->
  exists e, entry_identity t = Ok e /\ dynamicType e = dynamicType c /\ decode_basic e (fst (encode_basic c) ++ rest) = Ok c /\
    zlen (fst (encode_basic c)) mod 32 = 0 /\ (dynamicType c = false -> zlen (fst (encode_basic c)) = 32).
Proof.
  assert (H32 : forall l : list Z, zlen l = 32 -> (zlen (l ++ rest) <? 32) = false) by (intros l Hl; apply Z.ltb_ge; rewrite length_app; lia).
  destruct t as [|e| |bit sg|len next|[] len]; cbn [generate_basic elem_ok]; intros E Hf Hz; try done.
  - unfold new_int in E. destruct (to_uint256 s) as [v| |] eqn:Ev; [|done..]. apply to_uint256_u256 in Ev. cbn [mbind result_bind] in E.
    destruct (isValidBitSize _) eqn:Eb; [|done]. injection E as <-. exists (CNumeric 0). cbn [entry_identity generate_basic]. unfold new_int.
    change (to_uint256 []) with (Ok 0). cbn [mbind result_bind]. rewrite Eb. split_and!; [done..| |cbn [encode_basic fst]; by rewrite zlen_word |intros _; apply zlen_word].
    cbn [decode_basic encode_basic fst]. rewrite H32, ztake_app by apply zlen_word. unfold encode_word. rewrite be_val_be_bytes.
    by rewrite Z.mod_small.
  - destruct (to_bytes_at s 12) as [v| |] eqn:Ev; [|done..]. injection E as <-. apply to_bytes_at_length in Ev. exists (CAddress (zeros 32)).
    split_and!; [done..| |cbn [encode_basic fst]; by rewrite Ev |done]. cbn [decode_basic encode_basic fst]. by rewrite H32, ztake_app.
  - cbn [entry_identity generate_basic]. destruct (Z.eqb_spec (default 0 len) 0) as [H0|H0].
    + injection E as <-. exists (CDynBytes []). cbn [encode_basic fst] in Hz |- *. split_and!; [done..| |apply encode_bytes_mod |done]. cbn [decode_basic].
      rewrite decode_bytes_app; [done|]. unfold encode_bytes in Hz. rewrite !length_app in Hz. lia.
    + assert (exists v, zlen v = default 0 len /\ 0 < default 0 len <= 32 /\ c = CBytes (default 0 len) v) as (v & Hv & Hn & ->).
      { destruct s; unfold new_bytes in E; (destruct (_ && _) eqn:E1; [|done]); injection E as <-;
          apply andb_true_iff in E1 as [[?%Z.ltb_lt ?%Z.leb_le]%andb_true_iff ?%Z.eqb_eq]; eexists; split_and!; try done; lia. }
      exists (CBytes (default 0 len) (zeros (default 0 len))). unfold new_bytes. rewrite zlen_zeros by lia.
      rewrite (proj2 (Z.ltb_lt 0 _)), (proj2 (Z.leb_le _ 32)), Z.eqb_refl by lia. split_and!; [done..| | |].
      * by apply bytes_roundtrip.
      * apply (zlen_pad_mod (mkPart false v)).
      * intros _. pose proof (zlen_pad (mkPart false v)) as Hp. pose proof (zlen_pad_mod (mkPart false v)) as Hm. pose proof (alignSize_bound (zlen v) ltac:(lia)) as [Ha _].
        cbn [data] in Hp. cbn [encode_basic fst]. cbn [pad data] in *. rewrite Hp in Hm |- *. apply Z.mod_divide in Hm as [q Hq]; lia.
  - injection E as <-. exists (CString []). cbn [encode_basic fst] in Hz |- *. split_and!; [done..| |apply encode_bytes_mod |done]. cbn [decode_basic].
    rewrite decode_bytes_app; [done|]. unfold encode_bytes in Hz. rewrite !length_app in Hz. lia.
Qed.

Lemma static_elems next dec e es ds :
  entry_identity next = Ok e -> dynamicType e = false -> Forall2 (fun b d => zlen b = 32 /\ dec e b = Ok d) es ds ->
  forall H rest off, off = zlen H -> decode_elems dec next (H ++ concat es ++ rest) (length es) off = Ok ds.
Proof.
  intros He Hd Hs. induction Hs as [|b d es ds [Hb Hdec] _ IH]; intros H rest off Ho; [done|]. cbn [decode_elems length concat].
  rewrite He. cbn [mbind result_bind]. rewrite Hd. rewrite <- app_assoc, (sub_vector_app H b) by lia. cbn [mbind result_bind]. rewrite Hdec. cbn [mbind result_bind].
  rewrite (app_assoc H b), IH by (rewrite length_app; lia). done.
Qed.

Lemma zlen_heads_dyn bs : forall pos, zlen (heads pos (map (mkPart true) bs)) = 32 * zlen bs.
Proof. induction bs as [|b bs IH]; intros pos; cbn [map heads Dynamic data length]; [done|]. rewrite length_app, Nat2Z.inj_add, zlen_word, IH. lia. Qed.

Lemma dyn_elems next dec e es ds : entry_identity next = Ok e -> dynamicType e = true -> Forall2 (fun b d => forall rest, dec e (b ++ rest) = Ok d) es ds ->
  forall W H D rest pos off, zlen W = 32 -> off = 32 + zlen H -> pos = zlen H + 32 * zlen es + zlen D -> pos + zlen (concat es) < 2 ^ 63 ->
  decode_elems dec next (W ++ H ++ heads pos (map (mkPart true) es) ++ D ++ concat es ++ rest) (length es) off = Ok ds.
Proof.
  intros He Hd Hs. induction Hs as [|b d es ds Hdec _ IH]; intros W H D rest pos off HW Ho Hp Hz; [done|].
  cbn [decode_elems length concat map heads Dynamic data] in *. rewrite He. cbn [mbind result_bind]. rewrite Hd.
  rewrite length_app in Hz. rewrite <- !app_assoc.
  pose proof (decode_word_app (W ++ H) pos (heads (pos + zlen b) (map (mkPart true) es) ++ D ++ b ++ concat es ++ rest) off (off + 32)) as Ew.
  rewrite <- app_assoc in Ew. rewrite Ew by (rewrite ?length_app; unfold M64; lia). cbn [mbind result_bind]. clear Ew.
  set (hs := heads (pos + zlen b) (map (mkPart true) es)).
  assert (Hh : zlen hs = 32 * zlen es) by apply zlen_heads_dyn.
  replace (W ++ H ++ encode_word pos ++ hs ++ D ++ b ++ concat es ++ rest) with ((W ++ H ++ encode_word pos ++ hs ++ D) ++ b ++ concat es ++ rest) by (by rewrite <- !app_assoc).
  rewrite suffix_app by (rewrite !length_app, !Nat2Z.inj_add, zlen_word; lia). cbn [mbind result_bind]. rewrite Hdec. cbn [mbind result_bind].
  specialize (IH W (H ++ encode_word pos) (D ++ b) rest (pos + zlen b) (off + 32)). fold hs in IH. rewrite <- !app_assoc in IH. rewrite <- !app_assoc, IH; [done..| | | |lia].
  all: rewrite ?length_app, ?Nat2Z.inj_add, ?zlen_word; lia.
Qed.

Lemma head_tail_dyn bs : head_tail (map (mkPart true) bs) = heads (32 * zlen bs) (map (mkPart true) bs) ++ concat bs.
Proof.
  unfold head_tail. f_equal; [f_equal | unfold tails; induction bs as [|b bs IH]; [done|]; cbn; by rewrite IH].
  induction bs as [|b bs IH]; [done|]. unfold heads_size, total in *. cbn [map foldr Dynamic length]. rewrite IH. lia.
Qed.
Lemma head_tail_static bs : head_tail (map (mkPart false) bs) = concat bs.
Proof.
  unfold head_tail. generalize (heads_size (map (mkPart false) bs)). intros q. induction bs as [|b bs IH]; [done|].
  cbn [map heads Dynamic data concat tails flat_map app] in *. by rewrite <- IH, <- app_assoc.
Qed.

Lemma head_tail_ge l : forall p, p ∈ l -> zlen (data p) <= zlen (head_tail l).
Proof.
  unfold head_tail. intros p Hin. rewrite length_app, Nat2Z.inj_add. generalize (heads_size l). revert p Hin.
  induction l as [|q l IH]; intros p Hin pos; [by apply not_elem_of_nil in Hin|]. cbn [heads tails flat_map]. fold (tails l).
  apply elem_of_cons in Hin as [->|Hin].
  - destruct (Dynamic q); rewrite !length_app; lia.
  - destruct (Dynamic q); rewrite !length_app; [specialize (IH p Hin (pos + zlen (data q))) | specialize (IH p Hin pos)]; lia.
Qed.

Lemma part_le dys bs b : length dys = length bs -> b ∈ bs -> zlen b <= zlen (head_tail (pad <$> zip_with mkPart dys bs)).
Proof.
  intros Hl Hin. assert (exists d, mkPart d b ∈ zip_with mkPart dys bs) as [d Hd].
  { revert dys Hl. induction Hin as [b bs|b x bs _ IH]; intros [|d dys] Hl; try done; cbn [zip_with]; [exists d; left|].
    destruct (IH dys) as [d' Hd]; [by injection Hl|]. exists d'. by right. }
  apply list_elem_of_fmap_2 with (f := pad) in Hd. apply head_tail_ge in Hd. rewrite zlen_pad in Hd. cbn [data] in Hd.
  pose proof (alignSize_bound (zlen b) ltac:(lia)). lia.
Qed.

Lemma encode_array_parts next l b ps : encode_array (encode next) next l [] = Ok (b, ps) ->
  exists cs bs, Forall2 (fun v c => generate_coders next v = Ok c) l cs /\ Forall2 (fun c b => exists c', encode next c = Ok (b, c')) cs bs /\
    b = head_tail (pad <$> zip_with mkPart (dynamicType <$> cs) bs).
Proof.
  unfold encode_array. destruct (result_mapM (generate_coders next) l) as [cs| |] eqn:En; [|done..]. cbn [mbind result_bind app].
  destruct (result_mapM _ cs) as [es| |] eqn:Ee; [|done..]. cbn [mbind result_bind]. rewrite basic_pack_spec. cbn [mbind result_bind]. intros [= <- <-].
  apply result_mapM_ok in En, Ee. exists cs, (data <$> es.*1). split; [done|]. clear En.
  enough (Forall2 (fun c b => exists c', encode next c = Ok (b, c')) cs (data <$> es.*1) /\ es.*1 = zip_with mkPart (dynamicType <$> cs) (data <$> es.*1)) as [H1 H2]
    by (split; [exact H1 | by rewrite <- H2]).
  induction Ee as [|c [p c'] cs es H _ [IH1 IH2]]; [done|]. destruct (encode next c) as [[b c'']| |] eqn:E; [|done..]. injection H as <- <-.
  rewrite !fmap_cons. cbn [fst data zip_with]. split; [constructor; [by exists c'' | done]|]. by rewrite <- IH2.
Qed.

(** [b] is read back as [d] from the blank coder [e]. *)
Definition reads (t : AbiType) (e : Coder) (b : list Z) (d : Coder) : Prop :=
  (forall rest, decode t e (b ++ rest) = Ok d) /\ zlen b mod 32 = 0 /\ (dynamicType e = false -> zlen b = 32).

Lemma elems_decoded next e l cs bs :
  Forall2 (fun v c => generate_coders next v = Ok c) l cs -> Forall2 (fun c b => exists c', encode next c = Ok (b, c')) cs bs ->
  (forall v c b c', v ∈ l -> b ∈ bs -> generate_coders next v = Ok c -> encode next c = Ok (b, c') ->
     dynamicType c = dynamicType e /\ exists d, decoded next v = Ok d /\ reads next e b d) ->
  exists ds, result_mapM (decoded next) l = Ok ds /\ Forall2 (reads next e) bs ds /\ length bs = length l /\
    pad <$> zip_with mkPart (dynamicType <$> cs) bs = map (mkPart (dynamicType e)) bs.
Proof.
  intros Hg. revert bs. induction Hg as [|v c l cs Hv _ IH]; intros bs Hb Hs.
  { inversion Hb; subst. by exists []. }
  inversion Hb as [|? b ? bs' [c' Hc] Hb']; subst. destruct (Hs v c b c' ltac:(left) ltac:(left) Hv Hc) as (Hd & d & Ed & Hr).
  destruct (IH bs' Hb') as (ds & E & Hf & Hl & Ep); [intros; eapply Hs; by try right|].
  exists (d :: ds). cbn [result_mapM]. rewrite Ed. cbn [mbind result_bind]. rewrite E. split; [done|]. split; [by constructor|]. split; [cbn; lia|].
  rewrite !fmap_cons. cbn [zip_with map]. rewrite fmap_cons, Ep, pad_id, Hd by apply Hr. done.
Qed.

(** Reading the elements of an array of variable size. *)
Lemma array_decoded next e bs ds x :
  entry_identity next = Ok e -> Forall2 (reads next e) bs ds -> bs <> [] -> zlen (head_tail (map (mkPart (dynamicType e)) bs)) < 2 ^ 63 ->
  x = encode_word (zlen bs) ++ head_tail (map (mkPart (dynamicType e)) bs) ->
  forall rest, decode (TArray None next) (CDynArray next [] []) (x ++ rest) = Ok (CDynArray next [] ds).
Proof.
  intros He Hr Hne Hz -> rest. cbn [decode]. rewrite <- app_assoc.
  assert (Hn : 1 <= zlen bs) by (destruct bs; [done | cbn; lia]).
  assert (Hlen : 32 * zlen bs <= zlen (head_tail (map (mkPart (dynamicType e)) bs)) ).
  { clear -Hr. unfold head_tail. rewrite length_app, Nat2Z.inj_add. generalize (heads_size (map (mkPart (dynamicType e)) bs)).
    induction Hr as [|b d bs ds Hb _ IH]; intros q; [cbn; lia|]. cbn [map heads Dynamic data tails flat_map length]. fold (tails (map (mkPart (dynamicType e)) bs)).
    destruct (dynamicType e) eqn:Ed; rewrite !length_app, !Nat2Z.inj_add, ?zlen_word.
    - specialize (IH (q + zlen b)). lia.
    - specialize (IH q). destruct Hb as (_ & _ & Hb). rewrite (Hb Ed). cbn [length]. lia. }
  assert (Hl : zlen bs + 1 <= zlen (encode_word (zlen bs) ++ head_tail (map (mkPart (dynamicType e)) bs) ++ rest) / 32).
  { apply Z.div_le_lower_bound; [lia|]. rewrite !length_app, !Nat2Z.inj_add, zlen_word. lia. }
  set (L := _ / 32) in Hl |- *. destruct (Z.ltb_spec L 2); [lia|].
  pose proof (decode_word_app [] (zlen bs) (head_tail (map (mkPart (dynamicType e)) bs) ++ rest) 0 32 eq_refl eq_refl) as E. cbn [app] in E.
  rewrite E by (unfold M64; lia). cbn [mbind result_bind]. destruct (Z.ltb_spec (L - 1) (zlen bs)); [lia|]. rewrite Nat2Z.id.
  destruct (dynamicType e) eqn:Ed.
  - rewrite head_tail_dyn in Hz |- *. rewrite length_app, Nat2Z.inj_add in Hz.
    pose proof (dyn_elems next (decode next) e bs ds He Ed) as Hde. rewrite <- app_assoc.
    specialize (Hde ltac:(eapply Forall2_impl; [exact Hr | by intros b d [? _]]) (encode_word (zlen bs)) [] [] rest (32 * zlen bs) 32).
    cbn [app length] in Hde. rewrite Hde; [done | apply zlen_word | done | lia |]. rewrite zlen_heads_dyn in Hz. lia.
  - rewrite head_tail_static. erewrite static_elems; [done | done | done | | by rewrite zlen_word].
    eapply Forall2_impl; [exact Hr|]. intros b d (Hd & _ & Hb). split; [auto|]. specialize (Hd []). by rewrite app_nil_r in Hd.
Qed.

#[local] Opaque encode_word.

Lemma array_elems next l b ps : l <> [] -> encode_array (encode next) next l [] = Ok (b, ps) -> zlen b < 2 ^ 63 ->
  (forall v c b c', v ∈ l -> generate_coders next v = Ok c -> encode next c = Ok (b, c') -> zlen b < 2 ^ 63 ->
    exists e, entry_identity next = Ok e /\ dynamicType c = dynamicType e /\ exists d, decoded next v = Ok d /\ reads next e b d) ->
  exists e bs ds, entry_identity next = Ok e /\ result_mapM (decoded next) l = Ok ds /\ Forall2 (reads next e) bs ds /\ length bs = length l /\
    b = head_tail (map (mkPart (dynamicType e)) bs).
Proof.
  intros Hne Ea Hz Hs. apply encode_array_parts in Ea as (cs & bs & Hg & Hb & ->).
  assert (Hl : length (dynamicType <$> cs) = length bs) by (rewrite length_fmap; by eapply Forall2_length).
  assert (Hbs : forall b, b ∈ bs -> zlen b < 2 ^ 63) by (intros b Hin; pose proof (part_le _ bs b Hl Hin); lia).
  assert (exists e, entry_identity next = Ok e) as [e He].
  { destruct Hg as [|v0 c0 l cs Hg0 _]; [done|]. inversion Hb as [|? b0 ? bs0 [c0' Hb0]]; subst.
    destruct (Hs v0 c0 b0 c0') as (e & He & _); [left | done | done | apply Hbs; left | by exists e]. }
  destruct (elems_decoded next e l cs bs Hg Hb) as (ds & Ed & Hr & Hlen & Ep).
  { intros v c b c' H1 H2 H3 H4. destruct (Hs v c b c' H1 H3 H4 (Hbs b H2)) as (e' & He' & Hd). rewrite He in He'. by injection He' as <-. }
  exists e, bs, ds. by rewrite Ep.
Qed.

Lemma decode_spec t : forall v c b c', elem_ok t v = true -> generate_coders t v = Ok c -> encode t c = Ok (b, c') -> zlen b < 2 ^ 63 ->
  exists e, entry_identity t = Ok e /\ dynamicType c = dynamicType e /\ exists d, decoded t v = Ok d /\ reads t e b d.
Proof.
  induction t as [|x| |bit sg|len next IH|ct len]; intros v c b c' Hv Hc He Hz; try done.
  1,3: destruct v as [| | |s| |]; try done; try (by destruct ct); cbn [generate_coders get_string mbind result_bind] in Hc;
    cbn [encode] in He; injection He as He; assert (b = fst (encode_basic c)) as -> by (by rewrite He);
    destruct (decode_basic_spec _ s c [] Hc Hv Hz) as (e & H1 & H2 & _ & H4 & H5); exists e; split; [done|]; split; [done|]; exists c; split; [done|];
    unfold reads; rewrite H2; split; [|done]; intros rest; destruct (decode_basic_spec _ s c rest Hc Hv Hz) as (e' & H1' & _ & H3 & _);
    rewrite H1 in H1'; injection H1' as <-; exact H3.
  destruct len as [n|]; [by destruct v|]. destruct v as [| | | |l|]; try done. cbn [elem_ok] in Hv. apply andb_true_iff in Hv as [Hne Hv].
  cbn [generate_coders get_vector mbind result_bind default from_option id] in Hc. injection Hc as <-. cbn [encode] in He. destruct l as [|v0 l0]; [done|]. set (l := v0 :: l0) in *.
  destruct (encode_array _ _ _ _) as [[b' ps]| |] eqn:Ea; [|done..]. injection He as <- <-. rewrite length_app, Nat2Z.inj_add, zlen_word in Hz. rewrite forallb_forall in Hv.
  destruct (array_elems next l b' ps) as (e & bs & ds & He & Ed & Hr & Hlen & ->); [done | done | lia | |].
  { intros v c b c' Hin. apply IH. by apply Hv, list_elem_of_In. }
  exists (CDynArray next [] []). split; [done|]. split; [done|]. exists (CDynArray next [] ds).
  cbn [decoded get_vector mbind result_bind default from_option id]. rewrite Ed. split; [done|]. split; [|split; [|done]].
  - eapply array_decoded; [done | done | by destruct bs | lia | by rewrite Hlen].
  - apply word_app_mod, head_tail_mod. apply Forall_map. clear -Hr. induction Hr as [|b d bs ds H _ IH]; constructor; [apply H | done].
Qed.

(** Parameters may also be static arrays of numbers and addresses. *)
Definition param_ok (t : AbiType) (v : json) : bool :=
  match t, v with
  | TArray (Some n) next, JArr l => (0 <? n) && match check_dynamic next with Ok d => negb d | _ => false end && forallb (elem_ok next) l
  | _, _ => elem_ok t v
  end.

(** As [reads], for a parameter: a static one fills the slots that it counts. *)
Definition param_reads (t : AbiType) (e : Coder) (b : list Z) (d : Coder) : Prop :=
  (forall rest, decode t e (b ++ rest) = Ok d) /\ zlen b mod 32 = 0 /\ (dynamicType e = false -> offset d = zlen b) /\ dynamicType d = dynamicType e.

Lemma static_offset t v c : match t with TArray _ _ => false | _ => true end = true -> generate_coders t v = Ok c -> dynamicType c = false -> offset c = 32.
Proof.
  intros Ht Hc Hd. assert (forall s, generate_basic t s = Ok c -> offset c = 32) as H.
  { intros s E. destruct t as [| | |bit sg|len next|[] len]; try done; cbn [generate_basic] in E.
    - unfold new_int in E. destruct (to_uint256 s); [|done..]. cbn [mbind result_bind] in E. destruct (isValidBitSize _); [|done]. by injection E as <-.
    - destruct (to_bytes_at s 12); [|done..]. by injection E as <-.
    - unfold new_bool in E. repeat case_match; try done. by injection E as <-.
    - destruct (_ =? 0); [by injection E as <-|]. destruct s; unfold new_bytes in E; (destruct (_ && _); [|done]); by injection E as <-.
    - by injection E as <-. }
  destruct t; try done; cbn [generate_coders] in Hc; (destruct (get_string v) as [s'| |]; [|done..]); by apply (H s').
Qed.

Lemma elem_param t v c b c' : elem_ok t v = true -> generate_coders t v = Ok c -> encode t c = Ok (b, c') -> zlen b < 2 ^ 63 ->
  exists e, entry_identity t = Ok e /\ dynamicType c = dynamicType e /\ exists d, decoded t v = Ok d /\ param_reads t e b d.
Proof.
  intros Hv Hc He Hz. destruct (decode_spec t v c b c' Hv Hc He Hz) as (e & H1 & H2 & d & H3 & H4 & H5 & H6). exists e. split; [done|]. split; [done|].
  exists d. split; [done|]. split; [done|]. split; [done|].
  assert (dynamicType d = dynamicType c /\ (dynamicType c = false -> offset d = 32)) as [Hd1 Hd2].
  { destruct t as [| | |bit sg|[] next|ct len]; try done; try (by destruct v); cbn [decoded] in H3; rewrite ?Hc in H3.
    - injection H3 as <-. split; [done|]. by apply (static_offset (TNumber bit sg) v).
    - cbn [generate_coders] in Hc. destruct (get_vector v); [|done..]. cbn [mbind result_bind] in H3, Hc. destruct (result_mapM _ _); [|done..]. by injection H3 as <-; injection Hc as <-.
    - injection H3 as <-. split; [done|]. by apply (static_offset (TCommon ct len) v). }
  rewrite Hd1, H2. split; [|done]. intros Hd. rewrite Hd2, H6 by (done || by rewrite H2). done.
Qed.

Lemma static_elem_type t v e : elem_ok t v = true -> check_dynamic t = Ok false -> entry_identity t = Ok e -> dynamicType e = false.
Proof.
  destruct t as [| | |bit sg|[] next|[] len]; cbn; try done; try (by destruct v).
  - intros _ _. unfold new_int. change (to_uint256 []) with (Ok 0). cbn [mbind result_bind]. intros E. destruct (isValidBitSize _); [|done]. by injection E as <-.
  - intros _ _ [= <-]. done.
Qed.

Lemma param_spec t v c b c' : param_ok t v = true -> generate_coders t v = Ok c -> encode t c = Ok (b, c') -> zlen b < 2 ^ 63 ->
  exists e, entry_identity t = Ok e /\ dynamicType c = dynamicType e /\ exists d, decoded t v = Ok d /\ param_reads t e b d.
Proof.
  intros Hv Hc He Hz. destruct t as [| | | |[n|] next|]; try (by eapply elem_param). destruct v as [| | | |l|]; try done.
  cbn [param_ok] in Hv. apply andb_true_iff in Hv as [[Hn%Z.ltb_lt Hk]%andb_true_iff Hv]. destruct (check_dynamic next) as [[]| |] eqn:Ek; try done. clear Hk.
  rewrite forallb_forall in Hv. cbn [generate_coders default from_option id] in Hc. rewrite (proj2 (Z.ltb_lt 0 n) Hn) in Hc. unfold new_static_array in Hc.
  cbn [get_vector mbind result_bind] in Hc. rewrite Ek in Hc. cbn [mbind result_bind] in Hc. destruct (Z.eqb_spec n 0); [lia|]. destruct (Z.eqb_spec (zlen l) n) as [Hl|]; [|done].
  injection Hc as <-. cbn [encode] in He. destruct l as [|v0 l0]; [cbn in Hl; lia|]. set (l := v0 :: l0) in *.
  destruct (encode_array _ _ _ _) as [[b' ps]| |] eqn:Ea; [|done..]. injection He as <- <-.
  destruct (array_elems next l b' ps) as (e & bs & ds & He & Ed & Hr & Hlen & ->); [done | done | lia | |].
  { intros v c b c' Hin. apply decode_spec. by apply Hv, list_elem_of_In. }
  assert (Hde : dynamicType e = false) by (eapply (static_elem_type next v0); [apply Hv; by left | done | done]).
  rewrite Hde, head_tail_static in Hz |- *. exists (CStaticArray next n false [] []). cbn [entry_identity decoded default from_option id get_vector mbind result_bind].
  rewrite (proj2 (Z.ltb_lt 0 n) Hn), Ek, Ed. cbn [mbind result_bind]. split; [done|]. split; [done|]. exists (CStaticArray next n false [] ds). split; [done|].
  assert (Hc : zlen (concat bs) = n * 32).
  { rewrite <- Hl, <- Hlen. clear -Hr Hde. induction Hr as [|b d bs ds (_ & _ & H) _ IH]; [done|]. cbn [concat length]. rewrite length_app. rewrite Nat2Z.inj_add, IH, H by done. lia. }
  split; [|split; [|split]]; [| rewrite Hc; apply Z_mod_mult | intros _; cbn [offset]; rewrite Hc; unfold wrap64; apply Z.mod_small; unfold M64; lia | done].
  intros rest. cbn [decode]. destruct (Z.ltb_spec (zlen (concat bs ++ rest) / 32) 1) as [H|_].
  { apply Z.lt_nge in H. destruct H. apply Z.div_le_lower_bound; [lia|]. rewrite length_app. lia. }
  replace (Z.to_nat n) with (length bs) by lia. pose proof (static_elems next (decode next) e bs ds He Hde) as Hse.
  specialize (Hse ltac:(eapply Forall2_impl; [exact Hr | intros b d (Hd & _ & Hb'); split; [auto | specialize (Hd []); by rewrite app_nil_r in Hd]]) [] rest 0 eq_refl).
  cbn [app] in Hse. by rewrite Hse.
Qed.

(** *** Tuples *)

Record param := mkParam { ptype : AbiType; blank : Coder; bytes : list Z; read : Coder }.
Definition part (q : param) : PackParams := mkPart (dynamicType (blank q)) (bytes q).

(** The decoder takes the next head at [offset] from the last one: a dynamic
    parameter should count for one slot. *)
Definition slot_ok (c : Coder) : bool := negb (dynamicType c) || (offset c =? 32).

Lemma zlen_heads l : forall pos, zlen (heads pos l) = heads_size l.
Proof.
  unfold heads_size, total. induction l as [|p l IH]; intros pos; cbn [heads foldr]; [done|].
  destruct (Dynamic p); rewrite length_app, Nat2Z.inj_add, IH, ?zlen_word; done.
Qed.
Lemma heads_size_nonneg l : 0 <= heads_size l.
Proof. rewrite <- (zlen_heads l 0). lia. Qed.

Lemma removelast_fmap {A B} (f : A -> B) l : f <$> removelast l = removelast (f <$> l).
Proof. induction l as [|a [|b l] IH]; [done..|]. rewrite !fmap_cons in *. cbn [removelast] in *. by rewrite fmap_cons, IH. Qed.

Lemma decode_params_spec L : Forall (fun q => param_reads (ptype q) (blank q) (bytes q) (read q)) L ->
  forallb slot_ok (read <$> removelast L) = true ->
  forall H D off pos, off = zlen H -> pos = zlen H + heads_size (part <$> L) + zlen D -> pos + zlen (tails (part <$> L)) < 2 ^ 63 ->
  decode_params (H ++ heads pos (part <$> L) ++ D ++ tails (part <$> L)) off ((fun q => (ptype q, blank q)) <$> L) = Ok ((fun q => (ptype q, read q)) <$> L).
Proof.
  induction L as [|q L IH]; intros Hr Hs H D off pos Ho Hp Hz; [done|]. apply Forall_cons in Hr as [(Hdec & Hm & Hoff & Hd) Hr].
  rewrite !fmap_cons in *. cbn [decode_params heads tails flat_map part Dynamic data] in *. fold (tails (part <$> L)) in Hz |- *.
  unfold heads_size, total in Hp. cbn [foldr part Dynamic data] in Hp. fold (total (fun p => if Dynamic p then 32 else zlen (data p)) (part <$> L)) (heads_size (part <$> L)) in Hp.
  assert (Hnext : L = [] \/ slot_ok (read q) = true /\ forallb slot_ok (read <$> removelast L) = true).
  { destruct L as [|q' L]; [by left | right]. change (removelast (q :: q' :: L)) with (q :: removelast (q' :: L)) in Hs. rewrite fmap_cons in Hs. by apply andb_true_iff in Hs. }
  unfold slot_ok in Hnext. rewrite Hd in Hnext. destruct (dynamicType (blank q)) eqn:Eb.
  - rewrite length_app in Hz. set (hs := heads (pos + zlen (bytes q)) (part <$> L)). rewrite <- !app_assoc.
    rewrite decode_word_app by (pose proof (heads_size_nonneg (part <$> L)); unfold M64; lia). cbn [mbind result_bind].
    assert (Hh : zlen hs = heads_size (part <$> L)) by apply zlen_heads.
    replace (H ++ encode_word pos ++ hs ++ D ++ bytes q ++ tails (part <$> L)) with ((H ++ encode_word pos ++ hs ++ D) ++ bytes q ++ tails (part <$> L)) by (by rewrite <- !app_assoc).
    rewrite suffix_app by (rewrite !length_app, !Nat2Z.inj_add, zlen_word; lia). cbn [mbind result_bind]. rewrite Hdec. cbn [mbind result_bind].
    destruct Hnext as [->|[Hn1%Z.eqb_eq Hn2]]; [done|]. specialize (IH Hr Hn2 (H ++ encode_word pos) (D ++ bytes q) (off + offset (read q)) (pos + zlen (bytes q))).
    fold hs in IH. rewrite <- !app_assoc in IH. rewrite <- !app_assoc, IH; [done|..]; rewrite ?length_app, ?Nat2Z.inj_add, ?zlen_word; lia.
  - cbn [app] in Hz |- *. set (hs := heads pos (part <$> L)). rewrite <- !app_assoc. rewrite suffix_app by done. cbn [mbind result_bind]. rewrite Hdec. cbn [mbind result_bind].
    destruct Hnext as [->|[_ Hn2]]; [done|]. specialize (IH Hr Hn2 (H ++ bytes q) D (off + offset (read q)) pos).
    fold hs in IH. rewrite <- !app_assoc in IH. rewrite IH; [done|..]; rewrite ?length_app, ?Nat2Z.inj_add, ?(Hoff eq_refl); lia.
Qed.

Lemma pack_parts cs b cs' : pack cs = Ok (b, cs') ->
  exists bs, Forall2 (fun c b => exists c', encode c.1 c.2 = Ok (b, c')) cs bs /\ b = head_tail (pad <$> zip_with mkPart (dynamicType <$> cs.*2) bs).
Proof.
  intros H. destruct cs as [|c0 cs0]; cbn [pack] in H; [injection H as <- <-; by exists []|]. set (cs := c0 :: cs0) in *. clearbody cs. clear c0 cs0.
  destruct (result_mapM _ _) as [es| |] eqn:Ee in H; [|done..]. cbn [mbind result_bind] in H. rewrite basic_pack_spec in H. injection H as <- <-.
  apply result_mapM_ok in Ee. exists (data <$> es.*1).
  enough (Forall2 (fun c b => exists c', encode c.1 c.2 = Ok (b, c')) cs (data <$> es.*1) /\ es.*1 = zip_with mkPart (dynamicType <$> cs.*2) (data <$> es.*1)) as [H1 H2]
    by (split; [exact H1 | by rewrite <- H2]).
  induction Ee as [|[t c] [p c'] cs es H _ [IH1 IH2]]; [done|]. cbn [fst snd] in H. destruct (encode t c) as [[b c'']| |] eqn:E; [|done..]. injection H as <- <-.
  rewrite !fmap_cons. cbn [fst snd data zip_with]. split; [constructor; [by exists c'' | done]|]. by rewrite <- IH2.
Qed.

Lemma params_spec (params : list (json * json)) cs bs :
  forallb (fun p => param_ok (parse_types p.1) p.2) params = true ->
  Forall2 (fun p tc => (let t := parse_types p.1 in c ← generate_coders t p.2; Ok (t, c)) = Ok tc) params cs ->
  Forall2 (fun c b => exists c', encode c.1 c.2 = Ok (b, c')) cs bs -> Forall (fun b => zlen b < 2 ^ 63) bs ->
  exists L, result_mapM (fun p => decoded (parse_types p.1) p.2) params = Ok (read <$> L) /\
    result_mapM (fun j => let t := parse_types j in c ← entry_identity t; Ok (t, c)) params.*1 = Ok ((fun q => (ptype q, blank q)) <$> L) /\
    ptype <$> L = parse_types <$> params.*1 /\ Forall (fun q => param_reads (ptype q) (blank q) (bytes q) (read q)) L /\
    pad <$> zip_with mkPart (dynamicType <$> cs.*2) bs = part <$> L.
Proof.
  intros Hok Hg. revert bs. induction Hg as [|[j v] [t' c] params cs Hg _ IH]; intros bs Hb Hz.
  { inversion Hb; subst. by exists []. }
  inversion Hb as [|? b ? bs' [c' Hc] Hb']; subst. apply Forall_cons in Hz as [Hz Hz']. cbn [forallb fst snd] in *. apply andb_true_iff in Hok as [Hv Hok].
  destruct (generate_coders (parse_types j) v) as [c1| |] eqn:Eg; [|done..]. injection Hg as <- <-.
  destruct (param_spec _ _ _ _ _ Hv Eg Hc Hz) as (e & He & Hd & d & Ed & Hr). destruct (IH Hok bs' Hb' Hz') as (L & H1 & H2 & H3 & H4 & H5).
  exists (mkParam (parse_types j) e b d :: L). rewrite !fmap_cons. cbn [result_mapM fst snd zip_with ptype blank read mbind result_bind].
  rewrite Ed, He. cbn [mbind result_bind]. rewrite H1, H2, H3. split; [done|]. split; [done|]. split; [done|]. split; [by constructor|].
  rewrite fmap_cons, H5, pad_id, Hd by apply Hr. done.
Qed.

(** C25. The Decoder reads what the Encoder writes: parameters of numbers,
    addresses, bytes and strings, arrays of them of any depth with a variable
    number of elements, and static arrays of numbers and addresses, are read
    back as the coders of their values.  The limits are those of the code:
    every dynamic parameter but the last must count for one slot of the head,
    so strings and bytes there have 1 to 32 bytes; arrays are not empty; there
    are no booleans. *)
Theorem abi_roundtrip (params : list (json * json)) cs b cs' :
  forallb (fun p => param_ok (parse_types p.1) p.2) params = true ->
  result_mapM (fun p => let t := parse_types p.1 in c ← generate_coders t p.2; Ok (t, c)) params = Ok cs ->
  pack cs = Ok (b, cs') -> zlen b < 2 ^ 63 ->
  exists ds, result_mapM (fun p => decoded (parse_types p.1) p.2) params = Ok ds /\
    (forallb slot_ok (removelast ds) = true -> decoder_decode params.*1 b = Ok (zip (parse_types <$> params.*1) ds)).
Proof.
  intros Hok Hg Hp Hz. apply result_mapM_ok in Hg. apply pack_parts in Hp as (bs & Hb & ->).
  assert (Hl : length (dynamicType <$> cs.*2) = length bs) by (rewrite !length_fmap; by eapply Forall2_length).
  destruct (params_spec params cs bs Hok Hg Hb) as (L & H1 & H2 & H3 & H4 & H5).
  { apply Forall_forall. intros b Hin. pose proof (part_le _ bs b Hl Hin). lia. }
  exists (read <$> L). split; [done|]. intros Hs. unfold decoder_decode. cbv zeta in H2 |- *. rewrite H2. cbn [mbind result_bind]. rewrite H5 in Hz |- *. unfold head_tail in Hz |- *.
  pose proof (decode_params_spec L H4) as Hd. rewrite length_app, Nat2Z.inj_add, zlen_heads in Hz.
  specialize (Hd ltac:(by rewrite removelast_fmap) [] [] 0 (heads_size (part <$> L)) eq_refl). cbn [app length] in Hd.
  rewrite Hd by lia. f_equal. rewrite <- H3. clear. induction L as [|q L IH]; [done|]. rewrite !fmap_cons. cbn [zip_with]. by rewrite <- IH.
Qed.

(** *** Instances *)

Definition uint_t : json := number_type 256 false.
Definition wit_params : list (json * json) :=
  [(common_type (str "string") 0, JStr (str "hello"));
   (make_array_type (common_type (str "bytes") 0) [0; 0], JArr [JArr [JStr (str "0x0102"); JStr (str "0x")]; JArr [JStr (str "0xff")]]);
   (array_type uint_t 2, JArr [JStr (str "7"); JStr (str "0x100")]);
   (common_type (str "address") 0, JStr (str "0x00000000000000000000000000000000000000aa"))].

Definition wit_types : list (AbiType * json) := Eval vm_compute in map (fun p => (parse_types p.1, p.2)) wit_params.
Definition wit_coders : list (AbiType * Coder) :=
  Eval vm_compute in match result_mapM (fun p => c ← generate_coders p.1 p.2; Ok (p.1, c)) wit_types with Ok cs => cs | _ => [] end.
Definition wit_packed : list Z * list (AbiType * Coder) := Eval vm_compute in match pack wit_coders with Ok r => r | _ => ([], []) end.

Lemma encode_is_abi_witness : exists es,
  result_mapM (fun p => abi_encode p.1 p.2) wit_types = Ok es /\
  wit_packed.1 = head_tail (zip_with mkPart ((fun p => is_dynamic p.1) <$> wit_types) es) /\ zlen wit_packed.1 mod 32 = 0.
Proof. apply (encode_is_abi wit_types wit_coders wit_packed.1 wit_packed.2); vm_compute; reflexivity. Defined.

Lemma abi_roundtrip_witness : exists ds,
  result_mapM (fun p => decoded (parse_types p.1) p.2) wit_params = Ok ds /\
  (forallb slot_ok (removelast ds) = true -> decoder_decode wit_params.*1 wit_packed.1 = Ok (zip (parse_types <$> wit_params.*1) ds)).
Proof. apply (abi_roundtrip wit_params wit_coders wit_packed.1 wit_packed.2); vm_compute; reflexivity. Defined.

(** What a decoder finds in the bytes that an encoder gives. *)
Definition reread (params : list (json * json)) : result (list (AbiType * Coder)) :=
  cs ← result_mapM (fun p => let t := parse_types p.1 in c ← generate_coders t p.2; Ok (t, c)) params;
  '(b, _) ← pack cs;
  decoder_decode params.*1 b.

(** Outside of these limits decoding fails or finds other values: after a
    string of 41 bytes the number 7 is read as 41, the length of the string; an
    empty array, an array of two strings and a two by two array of numbers that
    were encoded are refused; decoding a boolean reads the first element of an
    empty vector. *)
Theorem abi_decode_gaps :
  reread [(common_type (str "string") 0, JStr (replicate 41 97)); (uint_t, JStr (str "7"))] =
    Ok [(TCommon STRING None, CString (replicate 41 97)); (TNumber 256 false, CNumeric 41)] /\
  reread [(array_type uint_t 0, JArr [])] = Throw ABIException /\
  reread [(array_type (common_type (str "string") 0) 2, JArr [JStr (str "a"); JStr (str "b")])] = Throw ABIException /\
  reread [(make_array_type uint_t [2; 2], JArr [JArr [JStr (str "1"); JStr (str "2")]; JArr [JStr (str "3"); JStr (str "4")]])] = Throw ABIException /\
  reread [(common_type (str "bool") 0, JStr (str "0x01"))] = Undef.
Proof. split_and!; vm_compute; reflexivity. Qed.

End Abi.
