(* ===== verification/Policy.v ===== *)
(** * Privacy policies and the functions of a multi-party transaction

    Model of tee/src/queue/types.h with the JSON conversions of
    tee/src/queue/nljsontypes.h, include/json_utils.h and the field macros of
    CCF's ds/json.h.  [Utils::split_string] is not part of the sources and is an
    argument.

    A [std::map] is the list of its entries in the order of the keys.

    Main results: [policy_json_roundtrip], a policy survives the trip through
    the JSON in which the tables keep it; [padding_completes], a function is
    complete once every input has been given, and then keeps its inputs;
    [mapping_keys_length], the number of keys that is announced for a state. *)
From S2P Require Import Prelude Util Keccak Json Abi.
From stdpp Require Import list strings.
Local Open Scope Z_scope.

Module Policy.
Import Util Json Abi.

(** ** Data *)

Inductive Status := PENDING | REQUESTING_OLD_STATES | SYNCING | SYNCED | SYNC_FAILED | DROPPED.
#[global] Instance status_eq_dec : EqDecision Status.
Proof. solve_decision. Defined.

Record MultiPartyParams := mkMpp { function_ : list Z; mpp_inputs : list (list Z * json) }.

Record Params := mkParams { name : list Z; structural_type : json; owner : json; value : option json }.

Definition getValue (p : Params) : result json :=
  match value p with Some v => Ok v | None => Throw TransactionException end.
Definition set_value (v : json) (p : Params) : Params := mkParams (name p) (structural_type p) (owner p) (Some v).

Record stateParams := mkStateParams { sname : list Z; keys : list (list Z) }.

Record Function := mkFunction {
  ftype : list Z; fname : list Z; fentry : list Z; inputs : list Params;
  read : list stateParams; mutate : list stateParams; outputs : list Params; raw_outputs : list Z
}.

Definition with_inputs (i : list Params) (f : Function) : Function :=
  mkFunction (ftype f) (fname f) (fentry f) i (read f) (mutate f) (outputs f) (raw_outputs f).

(** ** Inputs *)

Fixpoint add_all (l : list Params) (e : Encoder) : result Encoder :=
  match l with
  | [] => Ok e
  | p :: l => v ← getValue p; e ← add_inputs (name p) [] v (structural_type p) e; add_all l e
  end.
Definition packed_to_data (f : Function) : result (list Z) :=
  e ← add_all (inputs f) (new_encoder []);
  encode_with (fentry f) e.

Definition complete (f : Function) : bool := forallb (fun x => match value x with Some _ => true | None => false end) (inputs f).

(** The first input of that name. *)
Fixpoint set_input (name_ : list Z) (v : json) (l : list Params) : result (list Params) :=
  match l with
  | [] => Throw LogicError
  | p :: l => if bool_decide (name_ = name p) then Ok (set_value v p :: l) else l ← set_input name_ v l; Ok (p :: l)
  end.
Definition padding (name_ : list Z) (v : json) (f : Function) : result Function :=
  if complete f then Ok f else l ← set_input name_ v (inputs f); Ok (with_inputs l f).

(** The inputs that one party gives, as [set_content] adds them. *)
Fixpoint padding_all (l : list (list Z * json)) (f : Function) : result Function :=
  match l with
  | [] => Ok f
  | (n, v) :: l => f ← padding n v f; padding_all l f
  end.

(** ** Keys of the states a function reads and writes *)

Section keys.
Variable split_string : list Z -> Z -> list (list Z).

Definition access (f : Function) : list stateParams := read f ++ mutate f.

(** Every input of that name adds a key. *)
Fixpoint input_keys (single_key : list Z) (encoded : bool) (l : list Params) : result (list (list Z)) :=
  match l with
  | [] => Ok []
  | p :: l =>
      if bool_decide (name p = single_key) then
        k ← (v ← (match value p with Some v => Ok v | None => Throw BadOptionalAccess end);
             if encoded then data ← encode_value [] v (structural_type p); Ok (to_hex_string data)
             else get_string v);
        ks ← input_keys single_key encoded l;
        Ok (k :: ks)
      else input_keys single_key encoded l
  end.
Definition single_keys (msg_sender : list Z) (encoded : bool) (f : Function) (single_key : list Z) : result (list (list Z)) :=
  if bool_decide (single_key = str "msg.sender") then
    if encoded then a ← to_bytes_at msg_sender 12; Ok [to_hex_string a] else Ok [msg_sender]
  else input_keys single_key encoded (inputs f).
(** [at] of a negative position is [at] of a huge one. *)
Definition nested_keys (pos : Z) (key : list Z) : result (list (list Z)) :=
  let l := split_string key 58 in
  if pos =? -1 then Ok l
  else if (pos <? 0) || (zlen l <=? pos) then Throw OutOfRange else Ok [nth (Z.to_nat pos) l []].
Definition key_keys (msg_sender : list Z) (pos : Z) (encoded : bool) (f : Function) (key : list Z) : result (list (list Z)) :=
  ks ← nested_keys pos key;
  rs ← result_mapM (single_keys msg_sender encoded f) ks;
  Ok (concat rs).
Definition get_mapping_keys (msg_sender name : list Z) (pos : Z) (encoded : bool) (f : Function) : result (list (list Z)) :=
  rs ← result_mapM (key_keys msg_sender pos encoded f)
         (flat_map (fun x => if bool_decide (sname x = name) then keys x else []) (access f));
  Ok (concat rs).

End keys.

Definition get_keys_size (name : list Z) (f : Function) : Z :=
  foldl (fun sum x => if bool_decide (sname x = name) then wrap64 (sum + zlen (keys x)) else sum) 0 (access f).

(** ** Policies *)

Record Policy := mkPolicy { contract : list Z; states : list Params; functions : list Function }.

Definition get_funtions (name_ : list Z) (p : Policy) : result Function :=
  match List.find (fun f => bool_decide (fname f = name_)) (functions p) with Some f => Ok f | None => Throw LogicError end.

(** ** JSON *)

(** json_utils.h *)
Definition from_to_str (k : list Z) (j : json) (v : list Z) : result (list Z) :=
  match find k j with None | Some (JStr []) => Ok v | Some x => get_string x end.
Definition from_to_array (k : list Z) (j : json) (v : list Z) : result (list Z) :=
  vs ← from_to_str k j [];
  Ok (match vs with [] => v | _ => to_bytes vs end).
Definition require_object (j : json) : result unit := match j with JObj _ => Ok tt | _ => Throw InvalidArgument end.
Definition from_array_to_object {A} (from_json : json -> result A) (k : list Z) (j : json) (v : list A) : result (list A) :=
  match find k j with
  | None => Ok v
  | Some (JArr l) => l ← result_mapM from_json l; Ok (v ++ l)
  | Some _ => Throw InvalidArgument
  end.

(** The field macros of ds/json.h *)
Definition members (j : json) : result (list (list Z * json)) := match j with JObj l => Ok l | _ => Throw InvalidArgument end.
Definition required {A} (k : list Z) (get : json -> result A) (l : list (list Z * json)) : result A :=
  match assoc k l with Some j => get j | None => Throw InvalidArgument end.
Definition optional {A} (k : list Z) (get : json -> result A) (d : A) (l : list (list Z * json)) : result A :=
  match assoc k l with Some j => get j | None => Ok d end.
Definition strings_of (j : json) : result (list (list Z)) :=
  match j with JArr l => result_mapM get_string l | _ => Throw InvalidArgument end.

Definition params_to_json (p : Params) : json :=
  JObj ([(str "owner", owner p); (str "structural_type", structural_type p)] ++
        match name p with [] => [] | n => [(str "name", JStr n)] end ++
        match value p with None => [] | Some v => [(str "value", v)] end).
Definition params_from_json (j : json) : result Params :=
  l ← members j;
  o ← required (str "owner") (fun j => Ok j) l;
  t ← required (str "structural_type") (fun j => Ok j) l;
  n ← optional (str "name") get_string [] l;
  v ← optional (str "value") (fun j => Ok (match j with JNull => None | _ => Some j end)) None l;
  Ok (mkParams n t o v).

Definition state_to_json (s : stateParams) : json :=
  JObj ((str "name", JStr (sname s)) :: match keys s with [] => [] | ks => [(str "keys", JArr (map JStr ks))] end).
Definition state_from_json (j : json) : result stateParams :=
  l ← members j;
  n ← required (str "name") get_string l;
  ks ← optional (str "keys") strings_of [] l;
  Ok (mkStateParams n ks).

Definition function_to_json (f : Function) : json :=
  JObj [(str "name", JStr (fname f)); (str "type", JStr (ftype f)); (str "inputs", JArr (map params_to_json (inputs f)));
        (str "read", JArr (map state_to_json (read f))); (str "entry", JStr (to_hex_string (fentry f)));
        (str "raw_outputs", JStr (to_hex_string (raw_outputs f))); (str "mutate", JArr (map state_to_json (mutate f)));
        (str "outputs", JArr (map params_to_json (outputs f)))].
Definition function_from_json (j : json) : result Function :=
  _ ← require_object j;
  n ← from_to_str (str "name") j [];
  t ← from_to_str (str "type") j [];
  i ← from_array_to_object params_from_json (str "inputs") j [];
  e ← from_to_array (str "entry") j [];
  ro ← from_to_array (str "raw_outputs") j [];
  r ← from_array_to_object state_from_json (str "read") j [];
  m ← from_array_to_object state_from_json (str "mutate") j [];
  o ← from_array_to_object params_from_json (str "outputs") j [];
  Ok (mkFunction t n e i r m o ro).

Definition policy_to_json (p : Policy) : json :=
  JObj [(str "contract", JStr (contract p)); (str "states", JArr (map params_to_json (states p)));
        (str "functions", JArr (map function_to_json (functions p)))].
Definition policy_from_json (j : json) : result Policy :=
  _ ← require_object j;
  c ← from_to_str (str "contract") j [];
  s ← from_array_to_object params_from_json (str "states") j [];
  f ← from_array_to_object function_from_json (str "functions") j [];
  Ok (mkPolicy c s f).

(** ** Properties *)

Definition params_ok (p : Params) : Prop := value p <> Some JNull.
Definition function_ok (f : Function) : Prop :=
  Forall params_ok (inputs f) /\ Forall params_ok (outputs f) /\ bytes_ok (fentry f) /\ bytes_ok (raw_outputs f).

Lemma params_roundtrip p : params_ok p -> params_from_json (params_to_json p) = Ok p.
Proof.
  destruct p as [n t o v]. intros H. unfold params_ok in H. cbn [value] in H.
  destruct n as [|c n], v as [v|]; try (destruct v; done); reflexivity.
Qed.

Lemma strings_roundtrip l : result_mapM get_string (map JStr l) = Ok l.
Proof. induction l as [|a l IH]; [done|]. cbn. by rewrite IH. Qed.

Lemma state_roundtrip s : state_from_json (state_to_json s) = Ok s.
Proof.
  destruct s as [n [|k ks]]; [done|]. unfold state_from_json, state_to_json. cbn [sname keys members mbind result_bind].
  change (optional (str "keys") strings_of [] _) with (result_mapM get_string (map JStr (k :: ks))). by rewrite strings_roundtrip.
Qed.

Lemma array_roundtrip {A} (to_json : A -> json) (from_json : json -> result A) l :
  Forall (fun a => from_json (to_json a) = Ok a) l -> result_mapM from_json (map to_json l) = Ok l.
Proof. induction 1 as [|a l Ha _ IH]; [done|]. cbn. rewrite Ha. cbn. by rewrite IH. Qed.

Lemma from_to_str_member k s l : assoc k l = Some (JStr s) -> from_to_str k (JObj l) [] = Ok s.
Proof. intros H. unfold from_to_str, find. rewrite H. by destruct s. Qed.
Lemma from_to_array_member k b l : bytes_ok b -> assoc k l = Some (JStr (to_hex_string b)) -> from_to_array k (JObj l) [] = Ok b.
Proof. intros Hb H. unfold from_to_array. rewrite (from_to_str_member _ _ _ H). cbn [mbind result_bind]. f_equal. by apply to_bytes_hex. Qed.
Lemma from_array_member {A} (to_json : A -> json) (from_json : json -> result A) k a l :
  Forall (fun a => from_json (to_json a) = Ok a) a -> assoc k l = Some (JArr (map to_json a)) -> from_array_to_object from_json k (JObj l) [] = Ok a.
Proof. intros Ha H. unfold from_array_to_object, find. rewrite H, array_roundtrip by done. done. Qed.

Lemma function_roundtrip f : function_ok f -> function_from_json (function_to_json f) = Ok f.
Proof.
  intros (Hi & Ho & He & Hr). destruct f as [t n e i r m o ro]. unfold function_from_json, function_to_json. cbn [ftype fname fentry inputs read mutate outputs raw_outputs] in *.
  set (L := [_; _; _; _; _; _; _; _]). cbn [require_object mbind result_bind].
  assert (Hp : forall l, Forall params_ok l -> Forall (fun a => params_from_json (params_to_json a) = Ok a) l) by (intros l Hl; eapply Forall_impl; [exact Hl | apply params_roundtrip]).
  assert (Hs : forall l, Forall (fun a => state_from_json (state_to_json a) = Ok a) l) by (intros l; apply Forall_true; apply state_roundtrip).
  rewrite (from_to_str_member (str "name") n L), (from_to_str_member (str "type") t L) by reflexivity. cbn [mbind result_bind].
  rewrite (from_array_member params_to_json params_from_json (str "inputs") i L) by (reflexivity || auto). cbn [mbind result_bind].
  rewrite (from_to_array_member (str "entry") e L), (from_to_array_member (str "raw_outputs") ro L) by (done || reflexivity). cbn [mbind result_bind].
  rewrite (from_array_member state_to_json state_from_json (str "read") r L) by (reflexivity || auto). cbn [mbind result_bind].
  rewrite (from_array_member state_to_json state_from_json (str "mutate") m L) by (reflexivity || auto). cbn [mbind result_bind].
  rewrite (from_array_member params_to_json params_from_json (str "outputs") o L) by (reflexivity || auto). done.
Qed.

(** C37. A policy is read back from the JSON that the tables keep as it was put:
    every state, every function with its inputs, accesses and byte strings.
    Input values must not be null: a null value is read back as a missing one. *)
Theorem policy_json_roundtrip p :
  Forall params_ok (states p) -> Forall function_ok (functions p) -> policy_from_json (policy_to_json p) = Ok p.
Proof.
  intros Hs Hf. destruct p as [c s f]. unfold policy_from_json, policy_to_json. cbn [contract states functions] in *. set (L := [_; _; _]). cbn [require_object mbind result_bind].
  rewrite (from_to_str_member (str "contract") c L) by reflexivity. cbn [mbind result_bind].
  rewrite (from_array_member params_to_json params_from_json (str "states") s L) by (reflexivity || (eapply Forall_impl; [exact Hs | apply params_roundtrip])). cbn [mbind result_bind].
  rewrite (from_array_member function_to_json function_from_json (str "functions") f L) by (reflexivity || (eapply Forall_impl; [exact Hf | apply function_roundtrip])). done.
Qed.

Definition given (p : Params) : bool := match value p with Some _ => true | None => false end.

Lemma set_input_spec n v l l' : set_input n v l = Ok l' ->
  map name l' = map name l /\ forall i p', l' !! i = Some p' -> exists p, l !! i = Some p /\ name p' = name p /\ (given p = true -> given p' = true) /\
    (NoDup (map name l) -> name p = n -> given p' = true).
Proof.
  revert l'. induction l as [|p l IH]; intros l' E; cbn [set_input] in E; [done|]. case_bool_decide as Hn.
  - injection E as <-. split; [done|]. intros [|i] p' Hi; cbn in Hi; [injection Hi as <-; exists p; split_and!; try done; by destruct p|].
    exists p'. split_and!; [done.. |]. intros Hd Hn'. cbn [map] in Hd. apply NoDup_cons in Hd as [Hd _]. destruct Hd.
    rewrite <- Hn, <- Hn'. apply list_elem_of_In, in_map, list_elem_of_In. by apply list_elem_of_lookup_2 in Hi.
  - destruct (set_input n v l) as [l0| |]; [|done..]. injection E as <-. destruct (IH l0 eq_refl) as [H1 H2]. split; [cbn; by rewrite H1|].
    intros [|i] p' Hi; cbn in Hi; [injection Hi as <-; exists p; by split_and!|]. destruct (H2 i p' Hi) as (q & ? & ? & ? & Hq). exists q. split_and!; [done..|].
    intros Hd. apply Hq. by apply NoDup_cons in Hd as [_ Hd].
Qed.

Lemma complete_spec f : complete f = true <-> forall i p, inputs f !! i = Some p -> given p = true.
Proof.
  unfold complete. fold given. rewrite forallb_forall. split.
  - intros H i p Hi. apply H, list_elem_of_In. by apply list_elem_of_lookup_2 in Hi.
  - intros H p Hp. apply list_elem_of_In, list_elem_of_lookup_1 in Hp as [i Hi]. by eapply H.
Qed.

Lemma padding_all_complete l f f' : complete f = true -> padding_all l f = Ok f' -> f' = f.
Proof.
  intros Hc. revert f'. induction l as [|[n v] l IH]; intros f' E; cbn [padding_all] in E; [by injection E as <-|].
  unfold padding in E. rewrite Hc in E. by apply IH.
Qed.

(** The parties complete a function: once values have been given for all the
    inputs that had none, the function is complete, its inputs are the same by
    name, and from then on nothing that a party gives changes them. *)
Theorem padding_completes l f f' :
  NoDup (map name (inputs f)) -> padding_all l f = Ok f' ->
  (forall p, p ∈ inputs f -> value p = None -> name p ∈ l.*1) ->
  complete f' = true /\ map name (inputs f') = map name (inputs f) /\ forall l2 f2, padding_all l2 f' = Ok f2 -> f2 = f'.
Proof.
  intros Hd E Hl. enough (complete f' = true /\ map name (inputs f') = map name (inputs f)) as [H1 H2] by (split_and!; [done..|]; intros l2 f2; by apply padding_all_complete).
  revert f Hd E Hl. induction l as [|[n v] l IH]; intros f Hd E Hl; cbn [padding_all] in E.
  { injection E as <-. split; [|done]. apply complete_spec. intros i p Hi. unfold given. destruct (value p) eqn:Ev; [done|].
    apply list_elem_of_lookup_2 in Hi. specialize (Hl p Hi Ev). by apply not_elem_of_nil in Hl. }
  unfold padding in E. destruct (complete f) eqn:Ec.
  { cbn [mbind result_bind] in E. apply padding_all_complete in E as ->; done. }
  destruct (set_input n v (inputs f)) as [l0| |] eqn:Es; [|done..]. cbn [mbind result_bind] in E. destruct (set_input_spec _ _ _ _ Es) as [Hn Hi].
  destruct (IH (with_inputs l0 f)) as [H1 H2]; cbn [inputs with_inputs] in *; [by rewrite Hn | done | | by rewrite H2, Hn].
  intros p Hp Hv. apply list_elem_of_lookup_1 in Hp as [i Hp]. destruct (Hi i p Hp) as (q & Hq & Hnq & Hg & Hset).
  rewrite fmap_cons in Hl. specialize (Hl q (list_elem_of_lookup_2 _ _ _ Hq)). rewrite Hnq. unfold given in Hg, Hset. rewrite Hv in Hg, Hset.
  destruct (value q); [by specialize (Hg eq_refl)|]. apply elem_of_cons in Hl as [Hl|Hl]; [|done|done]. cbn [fst] in Hl. by specialize (Hset Hd Hl).
Qed.

(** *** Keys *)

Definition state_keys (name : list Z) (f : Function) : list (list Z) :=
  flat_map (fun x => if bool_decide (sname x = name) then keys x else []) (access f).

Lemma get_keys_size_spec n f : zlen (state_keys n f) < M64 -> get_keys_size n f = zlen (state_keys n f).
Proof.
  unfold get_keys_size, state_keys. assert (H : forall l a, 0 <= a -> a + zlen (flat_map (fun x => if bool_decide (sname x = n) then keys x else []) l) < M64 ->
    foldl (fun sum x => if bool_decide (sname x = n) then wrap64 (sum + zlen (keys x)) else sum) a l = a + zlen (flat_map (fun x => if bool_decide (sname x = n) then keys x else []) l)).
  { induction l as [|x l IH]; intros a Ha Hl; cbn [foldl flat_map] in *; [cbn; lia|]. rewrite length_app in Hl |- *. case_bool_decide.
    - unfold wrap64. rewrite Z.mod_small by lia. rewrite IH; lia.
    - cbn [length] in *. rewrite IH; lia. }
  intros Hl. rewrite H; lia.
Qed.

(** A part of a key names the sender or an input. *)
Definition part_ok (f : Function) (k : list Z) : Prop := k = str "msg.sender" \/ k ∈ map name (inputs f).

Lemma input_keys_length k enc l ks : NoDup (map name l) -> input_keys k enc l = Ok ks ->
  length ks = if bool_decide (k ∈ map name l) then 1%nat else 0%nat.
Proof.
  revert ks. induction l as [|p l IH]; intros ks Hd E; cbn [input_keys map] in E |- *; [by injection E as <-|].
  apply NoDup_cons in Hd as [Hn Hd]. case_bool_decide as Hk.
  - apply bind_ok in E as (v & _ & E). apply bind_ok in E as (ks' & E & [= <-]). apply IH in E; [|done]. cbn [length]. rewrite E.
    rewrite bool_decide_eq_false_2 by (by rewrite <- Hk). rewrite bool_decide_eq_true_2; [done|]. rewrite Hk. left.
  - apply IH in E; [|done]. rewrite E. replace (bool_decide (k ∈ name p :: map name l)) with (bool_decide (k ∈ map name l)); [done|].
    apply bool_decide_ext. rewrite elem_of_cons. split; [by right | intros [->|?]; done].
Qed.

Lemma single_keys_length s enc f k ks : NoDup (map name (inputs f)) -> part_ok f k -> single_keys s enc f k = Ok ks -> length ks = 1%nat.
Proof.
  intros Hd Hk E. unfold single_keys in E. case_bool_decide as Hs.
  - destruct enc; [|by injection E as <-]. apply bind_ok in E as (a & _ & [= <-]). done.
  - destruct Hk as [Hk|Hk]; [done|]. apply input_keys_length in E; [|done]. by rewrite E, bool_decide_eq_true_2.
Qed.

Lemma concat_length {A} (ls : list (list A)) n : Forall (fun l => length l = n) ls -> length (concat ls) = (length ls * n)%nat.
Proof. induction 1 as [|l ls Hl _ IH]; [done|]. cbn. rewrite length_app, IH, Hl. lia. Qed.

(** The keys that are sent for a state are as many as are announced: with
    keys of [depth] parts, each the sender or an input, [get_mapping_keys] gives
    [depth] strings for each of the [get_keys_size] keys. *)
Theorem mapping_keys_length split_string s n depth enc f ks :
  NoDup (map name (inputs f)) -> zlen (state_keys n f) < M64 ->
  (forall k, k ∈ state_keys n f -> length (split_string k 58) = depth /\ Forall (part_ok f) (split_string k 58)) ->
  get_mapping_keys split_string s n (-1) enc f = Ok ks ->
  zlen ks = Z.of_nat depth * get_keys_size n f.
Proof.
  intros Hd Hl Hk E. rewrite get_keys_size_spec by done. unfold get_mapping_keys in E. fold (state_keys n f) in E.
  apply bind_ok in E as (rs & E & [= <-]). apply result_mapM_ok in E. rewrite (concat_length rs depth); [apply Forall2_length in E; lia|].
  clear Hl. induction E as [|k r l rs Hr _ IH]; constructor.
  - unfold key_keys, nested_keys in Hr. cbn [Z.eqb Z.leb Pos.eqb mbind result_bind] in Hr. apply bind_ok in Hr as (xs & E & [= <-]). apply result_mapM_ok in E.
    destruct (Hk k ltac:(left)) as [H1 H2]. rewrite (concat_length xs 1); [apply Forall2_length in E; lia|].
    clear H1 Hk IH. induction E as [|p x ps xs Hx _ IH]; constructor; apply Forall_cons in H2 as [Hp H2]; [by eapply single_keys_length | auto].
  - apply IH. intros k' Hk'. apply Hk. by right.
Qed.

(** *** Instances *)

Definition split_colon (s : list Z) (c : Z) : list (list Z) :=
  foldr (fun x acc => if x =? c then [] :: acc else match acc with [] => [[x]] | y :: ys => (x :: y) :: ys end) [[]] s.

Definition wfun : Function :=
  mkFunction (str "f") (str "transfer") [1; 2; 3; 4]
    [mkParams (str "to") (common_type (str "address") 0) JNull None; mkParams (str "n") (number_type 256 false) JNull (Some (JStr (str "5")))]
    [mkStateParams (str "balances") [str "msg.sender:n"]] [mkStateParams (str "balances") [str "to:n"; str "n:msg.sender"]] [] [].
Definition wfun_done : Function := Eval vm_compute in match padding (str "to") (JStr (str "0x07")) wfun with Ok f => f | _ => wfun end.
Definition wkeys : list (list Z) :=
  Eval vm_compute in match get_mapping_keys split_colon (str "0x09") (str "balances") (-1) true wfun_done with Ok ks => ks | _ => [] end.

Lemma policy_json_roundtrip_witness :
  policy_from_json (policy_to_json (mkPolicy (str "Bank") [mkParams (str "balances") JNull JNull None] [wfun])) = Ok (mkPolicy (str "Bank") [mkParams (str "balances") JNull JNull None] [wfun]).
Proof.
  apply policy_json_roundtrip; [by repeat constructor|]. constructor; [|constructor]. split; [repeat constructor; done|]. split; [constructor|].
  split; apply (bool_decide_unpack _); vm_compute; exact I.
Defined.

Lemma padding_completes_witness : complete wfun = false /\
  complete wfun_done = true /\ map name (inputs wfun_done) = map name (inputs wfun) /\ forall l2 f2, padding_all l2 wfun_done = Ok f2 -> f2 = wfun_done.
Proof.
  split; [reflexivity|]. apply (padding_completes [(str "to", JStr (str "0x07"))]).
  - apply (bool_decide_unpack _). vm_compute. exact I.
  - vm_compute. reflexivity.
  - intros p Hp Hv. cbn [wfun inputs] in Hp. apply elem_of_cons in Hp as [->|Hp]; [left|]. apply elem_of_cons in Hp as [->|Hp]; [discriminate | by apply not_elem_of_nil in Hp].
Defined.

Lemma mapping_keys_length_witness : zlen wkeys = Z.of_nat 2 * get_keys_size (str "balances") wfun_done.
Proof.
  apply (mapping_keys_length split_colon (str "0x09") (str "balances") 2 true wfun_done).
  - apply (bool_decide_unpack _). vm_compute. exact I.
  - vm_compute. reflexivity.
  - apply Forall_forall. change (state_keys (str "balances") wfun_done) with [str "msg.sender:n"; str "to:n"; str "n:msg.sender"].
    assert (Hn : str "n" ∈ map name (inputs wfun_done)) by (right; left). assert (Ht : str "to" ∈ map name (inputs wfun_done)) by left.
    constructor; [|constructor; [|constructor; [|constructor]]]; (split; [reflexivity|]);
      (constructor; [|constructor; [|constructor]]); first [left; reflexivity | right; exact Hn | right; exact Ht].
  - vm_compute. reflexivity.
Defined.

End Policy.
