(* ===== verification/CloakTx.v ===== *)
(** * Multi-party transactions

    Model of tee/src/queue/workertransaction.h: the records of the tables, the
    proposal that is sent to the chain, and the states that travel between the
    chain and the enclave.  A list of states holds, for each state, its number
    followed by its value; the value of a mapping is the number of rows followed
    by the rows, and a value that has an owner is followed by the tag with the
    IV and by the owner's address when it is encrypted.

    [Utils] of app/utils.h, which is not part of the sources, is the class
    [Agent] with the laws [AgentLaws]; [json::dump] is part of it.  A [std::map]
    is a list of entries; [partys] is kept in the order of its keys.

    A missing member that [operator[]] creates as null in the JSON of a state is
    not written back.

    Main results: [states_roundtrip], what [encrypt_states] writes is what
    [decrypt_states] reads; [return_len_exact], the number of strings that is
    announced to the contract is the number that there are; [visit_states_loops],
    a count of rows for which the loop never ends. *)
From S2P Require Import Prelude Util Keccak Rlp Address EthTx Json Abi Policy.
From stdpp Require Import list strings.
Local Open Scope Z_scope.

Module CloakTx.
Import Util Address Json Abi Policy.

(** ** Records *)

Record MultiPartyTransaction := mkMpt { mnonce : Z; mto : list Z; mfrom : Z; publicKeys : list Z; params : MultiPartyParams }.

Definition check_transaction_type (m : MultiPartyTransaction) : result bool :=
  if zlen (mto m) =? 20 then Ok false else if zlen (mto m) =? 32 then Ok true else Throw LogicError.

Record PrivacyPolicyTransaction := mkPpt { pfrom : Z; pto : Z; pverifierAddr : Z; pcodeHash : list Z; policy : Policy }.

Record CloakPolicyTransaction := mkCpt {
  from : Z; to : Z; verifierAddr : Z; codeHash : list Z; function : Function; cstates : list Params;
  old_states : list (list Z); requested_addresses : list (list Z); public_keys : list (list Z * list Z);
  status : Status; partys : list (list Z * list Z)
}.

Definition new_cpt (ppt : PrivacyPolicyTransaction) (name : list Z) : result CloakPolicyTransaction :=
  f ← get_funtions name (policy ppt);
  Ok (mkCpt 0 (pto ppt) (pverifierAddr ppt) (pcodeHash ppt) f (states (policy ppt)) [] [] [] PENDING []).

Definition set_status (s : Status) (c : CloakPolicyTransaction) : CloakPolicyTransaction :=
  mkCpt (from c) (to c) (verifierAddr c) (codeHash c) (function c) (cstates c) (old_states c) (requested_addresses c) (public_keys c) s (partys c).
Definition set_from (a : Z) (c : CloakPolicyTransaction) : CloakPolicyTransaction :=
  mkCpt a (to c) (verifierAddr c) (codeHash c) (function c) (cstates c) (old_states c) (requested_addresses c) (public_keys c) (status c) (partys c).
Definition set_inputs (f : Function) (p : list (list Z * list Z)) (c : CloakPolicyTransaction) : CloakPolicyTransaction :=
  mkCpt (from c) (to c) (verifierAddr c) (codeHash c) f (cstates c) (old_states c) (requested_addresses c) (public_keys c) (status c) p.
Definition set_old_states (l : list (list Z)) (c : CloakPolicyTransaction) : CloakPolicyTransaction :=
  mkCpt (from c) (to c) (verifierAddr c) (codeHash c) (function c) (cstates c) l (requested_addresses c) (public_keys c) (status c) (partys c).
Definition set_requested (l : list (list Z)) (c : CloakPolicyTransaction) : CloakPolicyTransaction :=
  mkCpt (from c) (to c) (verifierAddr c) (codeHash c) (function c) (cstates c) (old_states c) l (public_keys c) (status c) (partys c).
Definition set_public_keys (l : list (list Z * list Z)) (c : CloakPolicyTransaction) : CloakPolicyTransaction :=
  mkCpt (from c) (to c) (verifierAddr c) (codeHash c) (function c) (cstates c) (old_states c) (requested_addresses c) l (status c) (partys c).

(** ** Maps *)

(** Lexicographic order of byte strings. *)
Fixpoint bytes_ltb (a b : list Z) : bool :=
  match a, b with
  | _, [] => false
  | [], _ :: _ => true
  | x :: a, y :: b => (x <? y) || ((x =? y) && bytes_ltb a b)
  end.
Fixpoint map_put (k v : list Z) (l : list (list Z * list Z)) : list (list Z * list Z) :=
  match l with
  | [] => [(k, v)]
  | (k', v') :: l => if bytes_ltb k k' then (k, v) :: (k', v') :: l else if bytes_ltb k' k then (k', v') :: map_put k v l else (k, v) :: l
  end.
Definition map_at (k : list Z) (l : list (list Z * list Z)) : result (list Z) :=
  match assoc k l with Some v => Ok v | None => Throw OutOfRange end.

(** [v[i]] of a vector *)
Definition vat {A} (l : list A) (i : Z) : result A :=
  match l !! Z.to_nat i with Some a => Ok a | None => Undef end.
(** [insert(end, first, last)] of a part of a vector *)
Definition vrange {A} (l : list A) (first last : Z) : result (list A) :=
  if (zlen l <? last) || (last <? first) then Undef else Ok (zslice first (last - first) l).

Definition ZERO_HEX_STR : list Z := str "0x" ++ replicate 64 48.

(** ** What app/utils.h provides *)

Class Agent `{EthTx.Secp256k1} := {
  split_string : list Z -> Z -> list (list Z);
  split_tag_and_iv : list Z -> result (list Z * list Z);
  encrypt_data_s : EthTx.KeyPair -> list Z -> list Z -> list Z -> result (list Z * list Z);
  decrypt_data : EthTx.KeyPair -> list Z -> list Z -> list Z -> result (list Z);
  repeat_hex_string : list Z -> Z -> list Z;
  dump : json -> result (list Z)
}.

(** The messages that the agent on the host is asked to send: syncstate.h. *)
Record SyncStateResponse := mkResponse { tx_hash : list Z; rdata : list Z; rfrom : option Z; rto : option Z }.

(** Computations with fuel: [None] when it ran out. *)
Definition fbind {A B} (m : option (result A)) (f : A -> option (result B)) : option (result B) :=
  match m with
  | Some (Ok a) => f a
  | Some (Throw e) => Some (Throw e)
  | Some Undef => Some Undef
  | None => None
  end.
Declare Scope fuel_scope.
Delimit Scope fuel_scope with fuel.
Notation "x <~ m ; k" := (fbind m%fuel (fun x => k%fuel)) (at level 20, m at level 100, k at level 200, only parsing) : fuel_scope.
Notation "' p <~ m ; k" := (fbind m%fuel (fun x => match x with p => k%fuel end)) (at level 20, p pattern, m at level 100, k at level 200, only parsing) : fuel_scope.

Section cloak.
Context `{Ag : Agent}.

(** ** Inputs and proposal *)

(** [nlohmann::json(mul.params)] *)
Definition mpp_to_json (p : MultiPartyParams) : json :=
  JObj [(str "function", JStr (function_ p)); (str "inputs", JObj (mpp_inputs p))].

Definition set_content (mul : MultiPartyTransaction) (c : CloakPolicyTransaction) : result CloakPolicyTransaction :=
  f ← padding_all (mpp_inputs (params mul)) (function c);
  d ← dump (mpp_to_json (params mul));
  Ok (set_inputs f (map_put (publicKeys mul) d (partys c)) c).

Definition calcInputsHash (c : CloakPolicyTransaction) : result (list Z * list (list Z)) :=
  party ← result_mapM (fun p : list Z * list Z => EthTx.get_address_from_public_key p.1) (partys c);
  Ok (party, map (fun p : list Z * list Z => hex_str (Keccak.keccak256 p.2)) (partys c)).

(** A number as JSON: to_json of bigint.h *)
Definition num_json (n : Z) : json := JStr (to_hex_string_u256 n).

Definition packedPropose (txId : list Z) (c : CloakPolicyTransaction) : result (list Z) :=
  '(party, inputHash) ← calcInputsHash c;
  e ← add_inputs (str "txId") (str "uint256") (JStr (hex_str txId)) (number_type 256 false) (new_encoder (str "propose"));
  e ← add_inputs (str "verifierAddr") (str "address") (num_json (verifierAddr c)) (common_type (str "address") 0) e;
  e ← add_inputs (str "partys") (str "address[]") (JArr (map num_json party)) (make_common_array (str "address") []) e;
  e ← add_inputs (str "inputHash") (str "bytes32[]") (JArr (map JStr inputHash)) (make_bytes_array 32 []) e;
  e ← add_inputs (str "deposit") (str "uint256") (num_json 1000000000) (number_type 256 false) e;
  encodeWithSignatrue e.

(** ** Reading states from the chain *)

Definition sender (c : CloakPolicyTransaction) : list Z := to_checksum_address (from c).

(** [p.structural_type["type"] == s], [p.owner["owner"] == s] and their values *)
Definition type_is (s : list Z) (p : Params) : result bool := t ← at_var (str "type") (structural_type p); Ok (is_str s t).
Definition owner_is (s : list Z) (p : Params) : result bool := o ← at_var (str "owner") (owner p); Ok (is_str s o).
Definition owner_of (p : Params) : result (list Z) := o ← at_var (str "owner") (owner p); get_string o.
Definition depth_of (p : Params) : result Z := d ← at_var (str "depth") (structural_type p); get_size d.

Fixpoint states_read (c : CloakPolicyTransaction) (i : Z) (l : list Params) : result (list (list Z)) :=
  match l with
  | [] => Ok []
  | p :: l =>
      m ← type_is (str "mapping") p;
      if (m : bool) then
        ks ← get_mapping_keys split_string (sender c) (name p) (-1) true (function c);
        rest ← states_read c (i + 1) l;
        Ok (to_hex_string_fixed i 64 :: to_hex_string_fixed (get_keys_size (name p) (function c)) 64 :: ks ++ rest)
      else states_read c (i + 1) l
  end.
Definition get_states_read (c : CloakPolicyTransaction) : result (list (list Z)) := states_read c 0 (cstates c).

Definition state_len (encrypted : bool) (f : Function) (p : Params) : result Z :=
  o ← owner_of p;
  let factor := if encrypted && negb (bool_decide (o = str "all")) then 3 else 1 in
  m ← type_is (str "mapping") p;
  if (m : bool) then depth ← depth_of p; Ok (2 + (depth + factor) * get_keys_size (name p) f) else Ok (factor + 1).
Fixpoint return_len (encrypted : bool) (f : Function) (res : Z) (l : list Params) : result Z :=
  match l with
  | [] => Ok res
  | p :: l => n ← state_len encrypted f p; return_len encrypted f (wrap64 (res + n)) l
  end.
Definition get_states_return_len (encrypted : bool) (c : CloakPolicyTransaction) : result Z :=
  return_len encrypted (function c) 0 (cstates c).

Definition get_states_call_data (encrypted : bool) (c : CloakPolicyTransaction) : result (list Z) :=
  read ← get_states_read c;
  return_len ← get_states_return_len encrypted c;
  e ← add_inputs (str "read") (str "bytes[]") (JArr (map JStr read)) (make_bytes_array 0 []) (new_encoder (str "get_states"));
  e ← add_inputs (str "return_len") (str "uint256") (JStr (to_hex_string_u64 return_len)) (number_type 256 false) e;
  encodeWithSignatrue e.

(** ** Visiting states *)

(** The next index after the state [p] at [i]. *)
Definition visit_next (v_states : list (list Z)) (is_encryped : bool) (p : Params) (i : Z) : result Z :=
  a ← (if is_encryped then b ← owner_is (str "all") p; Ok (negb (b : bool)) else Ok false);
  let factor := if (a : bool) then 3 else 1 in
  m ← type_is (str "mapping") p;
  if (m : bool) then
    depth ← depth_of p;
    n ← vat v_states (i + 1);
    Ok (wrap64 (i + 2 + to_uint64 n * (factor + depth)))
  else Ok (i + 1 + factor).

(** [None]: the fuel ran out. *)
Fixpoint visit_states {A} (fuel : nat) (sts : list Params) (v_states : list (list Z)) (is_encryped : bool) (f : Z -> Z -> A -> result A) (i : Z) (a : A) : option (result A) :=
  if zlen v_states <=? i then Some (Ok a)
  else
    match fuel with
    | O => None
    | S fuel =>
        let r :=
          s ← vat v_states i;
          let id := to_uint64 s in
          a ← f id i a;
          p ← vat sts id;
          i ← visit_next v_states is_encryped p i;
          Ok (a, i) in
        match r with
        | Ok (a, i) => visit_states fuel sts v_states is_encryped f i a
        | Throw e => Some (Throw e)
        | Undef => Some Undef
        end
    end.

(** ** Public keys *)

(** Addresses of the owners that are named by a state. *)
Definition visit_address (c : CloakPolicyTransaction) (id idx : Z) (addresses : list (list Z * list Z)) : result (list (list Z * list Z)) :=
  p ← vat (cstates c) id;
  t ← type_is (str "address") p;
  o ← (if (t : bool) then owner_is (str "all") p else Ok false);
  if (o : bool) then
    s ← vat (old_states c) (idx + 1);
    a ← to_uint256 s;
    Ok (map_put (name p) (to_checksum_address a) addresses)
  else Ok addresses.

Definition visit_owner (c : CloakPolicyTransaction) (addresses : list (list Z * list Z)) (id _ : Z) (acc : bool * list (list Z)) : result (bool * list (list Z)) :=
  let '(included_tee, res) := acc in
  p ← vat (cstates c) id;
  o ← owner_of p;
  if bool_decide (o = str "all") then Ok acc
  else if bool_decide (o = str "tee") then Ok (true, res)
  else if bool_decide (o = str "mapping") then
    v ← at_var (str "var_pos") (owner p);
    pos ← get_int v;
    if pos =? -1 then
      x ← at_var (str "var") (owner p); x ← get_string x; a ← map_at x addresses; Ok (included_tee, res ++ [a])
    else
      ks ← get_mapping_keys split_string (sender c) (name p) pos false (function c);
      Ok (included_tee, res ++ ks)
  else a ← map_at o addresses; Ok (included_tee, res ++ [a]).

(** ** Decryption *)

Definition decrypt_value (tee_kp : EthTx.KeyPair) (der : list Z) (value tag_iv : list Z) : result (list Z) :=
  '(tag, iv) ← split_tag_and_iv (to_bytes tag_iv);
  d ← decrypt_data tee_kp der iv (to_bytes value ++ tag);
  Ok (to_hex_string d).

(** The rows [j], [j + 1], ... of a mapping with owners. *)
Fixpoint decrypt_rows (tee_kp : EthTx.KeyPair) (c : CloakPolicyTransaction) (mapping_keys : list (list Z)) (idx depth : Z) (j : Z) (n : nat) : result (list (list Z)) :=
  match n with
  | O => Ok []
  | S n =>
      ks ← vrange mapping_keys (j * depth) ((j + 1) * depth);
      let data_pos := idx + 2 + depth + j * (depth + 3) in
      s ← vat (old_states c) (data_pos + 2);
      a ← to_uint256 s;
      x ← (if a =? 0 then Ok ZERO_HEX_STR
           else
             pk ← map_at (to_checksum_address a) (public_keys c);
             t ← vat (old_states c) (data_pos + 1);
             d ← vat (old_states c) data_pos;
             decrypt_value tee_kp (to_bytes pk) d t);
      rest ← decrypt_rows tee_kp c mapping_keys idx depth (j + 1) n;
      Ok (ks ++ x :: rest)
  end.

(** The strings that follow the number of a state. *)
Definition decrypt_state (tee_kp : EthTx.KeyPair) (c : CloakPolicyTransaction) (p : Params) (idx : Z) : result (list (list Z)) :=
  o ← owner_of p;
  if bool_decide (o = str "all") then
    m ← type_is (str "mapping") p;
    if (m : bool) then
      s ← vat (old_states c) (idx + 1);
      size ← to_uint256 s;
      depth ← depth_of p;
      vrange (old_states c) (idx + 1) (idx + 2 + wrap64 (wrap64 size * (depth + 1)))
    else s ← vat (old_states c) (idx + 1); Ok [s]
  else if bool_decide (o = str "mapping") then
    mapping_keys ← get_mapping_keys split_string (sender c) (name p) (-1) true (function c);
    depth ← depth_of p;
    s ← vat (old_states c) (idx + 1);
    rows ← decrypt_rows tee_kp c mapping_keys idx depth 0 (Z.to_nat (get_keys_size (name p) (function c)));
    Ok (s :: rows)
  else
    s ← vat (old_states c) (idx + 3);
    a ← to_uint256 s;
    let sender_addr := to_checksum_address a in
    a ← to_uint256 sender_addr;
    if a =? 0 then
      arr ← type_is (str "array") p;
      if (arr : bool) then n ← get_static_array_size (structural_type p); Ok [repeat_hex_string ZERO_HEX_STR n] else Ok [ZERO_HEX_STR]
    else
      pk_der ← (if bool_decide (o = str "tee") then Ok (EthTx.public_key_raw tee_kp) else k ← map_at sender_addr (public_keys c); Ok (to_bytes k));
      t ← vat (old_states c) (idx + 2);
      d ← vat (old_states c) (idx + 1);
      x ← decrypt_value tee_kp pk_der d t;
      Ok [x].

Definition visit_decrypt (tee_kp : EthTx.KeyPair) (c : CloakPolicyTransaction) (id idx : Z) (res : list (list Z)) : result (list (list Z)) :=
  s ← vat (old_states c) idx;
  match cstates c !! Z.to_nat id with
  | None => Throw OutOfRange
  | Some p => l ← decrypt_state tee_kp c p idx; Ok (res ++ s :: l)
  end.
Definition decrypt_states (fuel : nat) (tee_kp : EthTx.KeyPair) (c : CloakPolicyTransaction) : option (result (list (list Z))) :=
  visit_states fuel (cstates c) (old_states c) true (visit_decrypt tee_kp c) 0 [].

(** [tee_kp]: looking up the key throws when there is none. *)
Definition request_public_keys (fuel : nat) (target_digest : list Z) (acc : Z) (tee_kp : result EthTx.KeyPair) (service_addr : Z) (c : CloakPolicyTransaction) :
  option (result (bool * CloakPolicyTransaction * list SyncStateResponse)) :=
  (addresses <~ visit_states fuel (cstates c) (old_states c) true (visit_address c) 0 [];
   '(included_tee, res) <~ visit_states fuel (cstates c) (old_states c) true (visit_owner c addresses) 0 (false, []);
   match res with
   | [] =>
       if included_tee then kp <~ Some tee_kp; old <~ decrypt_states fuel kp c; Some (Ok (false, set_old_states old c, []))
       else Some (Ok (false, c, []))
   | _ :: _ =>
       Some (
         e ← add_inputs (str "read") (str "address[]") (JArr (map JStr res)) (make_common_array (str "address") []) (new_encoder (str "getPk"));
         data ← encodeWithSignatrue e;
         Ok (true, set_requested res c, [mkResponse target_digest data (Some acc) (Some service_addr)]))
   end)%fuel.

(** ** Encryption *)

(** [entropy] gives the IVs one after the other; [n] counts them. *)
Variable entropy : nat -> list Z.

(** The three strings of a value with an owner. *)
Definition encrypt_value (tee_kp : EthTx.KeyPair) (der : list Z) (owner_addr : list Z) (n : nat) (value : list Z) : result (list (list Z)) :=
  '(encrypted, tag) ← encrypt_data_s tee_kp der (entropy n) (to_bytes value);
  Ok [to_hex_string encrypted; to_hex_string (tag ++ entropy n); owner_addr].

Fixpoint encrypt_rows (tee_kp : EthTx.KeyPair) (c : CloakPolicyTransaction) (mapping_keys new_states : list (list Z)) (idx depth : Z) (n : nat) (j : Z) (m : nat) : result (list (list Z)) :=
  match m with
  | O => Ok []
  | S m =>
      ks ← vrange mapping_keys (depth * j) (depth * (j + 1));
      k ← vat mapping_keys j;
      a ← to_uint256 k;
      pk ← map_at (to_checksum_address a) (public_keys c);
      v ← vat new_states (idx + 3 + j * 2);
      e ← encrypt_value tee_kp (to_bytes pk) k n v;
      rest ← encrypt_rows tee_kp c mapping_keys new_states idx depth (S n) (j + 1) m;
      Ok (ks ++ e ++ rest)
  end.

(** The strings that follow the number of a state, and the IVs used. *)
Definition encrypt_state (tee_kp : EthTx.KeyPair) (c : CloakPolicyTransaction) (new_states : list (list Z)) (addresses : list (list Z * list Z)) (tee_addr_hex : list Z) (p : Params) (idx : Z) (n : nat) : result (list (list Z) * nat) :=
  all ← owner_is (str "all") p;
  mapping ← owner_is (str "mapping") p;
  if (all : bool) then
    m ← type_is (str "mapping") p;
    if (m : bool) then
      s ← vat new_states (idx + 1);
      depth ← depth_of p;
      l ← vrange new_states (idx + 1) (idx + 2 + wrap64 ((depth + 1) * to_uint64 s));
      Ok (l, n)
    else s ← vat new_states (idx + 1); Ok ([s], n)
  else if (mapping : bool) then
    mapping_keys ← get_mapping_keys split_string (sender c) (name p) (-1) true (function c);
    depth ← depth_of p;
    s ← vat new_states (idx + 1);
    let size := Z.to_nat (get_keys_size (name p) (function c)) in
    rows ← encrypt_rows tee_kp c mapping_keys new_states idx depth n 0 size;
    Ok (s :: rows, (n + size)%nat)
  else
    tee ← owner_is (str "tee") p;
    sender_addr ← (if (tee : bool) then Ok tee_addr_hex else o ← owner_of p; map_at o addresses);
    pk_der ← (if (tee : bool) then Ok (EthTx.public_key_raw tee_kp) else k ← map_at sender_addr (public_keys c); Ok (to_bytes k));
    v ← vat new_states (idx + 1);
    e ← encrypt_value tee_kp pk_der sender_addr n v;
    Ok (e, S n).

Definition visit_encrypt (tee_kp : EthTx.KeyPair) (c : CloakPolicyTransaction) (new_states : list (list Z)) (addresses : list (list Z * list Z)) (id idx : Z) (acc : list (list Z) * nat) : result (list (list Z) * nat) :=
  let '(res, n) := acc in
  a ← EthTx.get_address_from_public_key (EthTx.public_key_raw tee_kp);
  p ← vat (cstates c) id;
  s ← vat new_states idx;
  '(l, n) ← encrypt_state tee_kp c new_states addresses (to_hex_string_u256 a) p idx n;
  Ok (res ++ s :: l, n).
Definition encrypt_states (fuel : nat) (tee_kp : EthTx.KeyPair) (new_states : list (list Z)) (n : nat) (c : CloakPolicyTransaction) : option (result (list (list Z) * nat)) :=
  (addresses <~ visit_states fuel (cstates c) new_states false (visit_address c) 0 [];
   visit_states fuel (cstates c) new_states false (visit_encrypt tee_kp c new_states addresses) 0 ([], n))%fuel.

End cloak.

(** ** Visiting a list of states entry by entry *)

Lemma vat_app {A} (pre e post : list A) i x : vat e i = Ok x -> 0 <= i -> vat (pre ++ e ++ post) (zlen pre + i) = Ok x.
Proof.
  unfold vat. intros H Hi. replace (Z.to_nat (zlen pre + i)) with (length pre + Z.to_nat i)%nat by lia. rewrite lookup_app_r by lia.
  replace (length pre + Z.to_nat i - length pre)%nat with (Z.to_nat i) by lia. destruct (e !! Z.to_nat i) as [y|] eqn:E; [|done].
  by rewrite (lookup_app_l_Some _ _ _ _ E).
Qed.

Lemma vrange_app {A} (pre e post : list A) a b : 0 <= a <= b -> b <= zlen e ->
  vrange (pre ++ e ++ post) (zlen pre + a) (zlen pre + b) = Ok (zslice a (b - a) e).
Proof.
  intros Ha Hb. unfold vrange. rewrite !length_app. destruct (Z.ltb_spec (Z.of_nat (length pre + (length e + length post))) (zlen pre + b)); [lia|].
  destruct (Z.ltb_spec (zlen pre + b) (zlen pre + a)); [lia|]. cbn [orb]. f_equal. unfold zslice, ztake, zdrop.
  replace (zlen pre + b - (zlen pre + a)) with (b - a) by lia. replace (Z.to_nat (zlen pre + a)) with (length pre + Z.to_nat a)%nat by lia.
  rewrite <- drop_drop, drop_app_length, drop_app_le, take_app_le; [done | rewrite length_drop; lia | lia].
Qed.

(** An entry is a whole state: its number and all its strings. *)
Definition entry_of (sts : list Params) (enc : bool) (p : Params) (e : list (list Z)) : Prop :=
  exists s body, e = s :: body /\ vat sts (to_uint64 s) = Ok p /\ visit_next e enc p 0 = Ok (zlen e).

Fixpoint fold_entries {A} (f : Z -> Z -> A -> result A) (i : Z) (es : list (list (list Z))) (a : A) : result A :=
  match es with
  | [] => Ok a
  | e :: es => a ← f (to_uint64 (hd [] e)) i a; fold_entries f (i + zlen e) es a
  end.

Lemma visit_next_app pre e post enc p n : visit_next e enc p 0 = Ok n -> n = zlen e -> zlen (pre ++ e ++ post) < M64 ->
  visit_next (pre ++ e ++ post) enc p (zlen pre) = Ok (zlen pre + n).
Proof.
  intros H Hn Hl. unfold visit_next in *. destruct (if enc then _ else _) as [b| |]; [|done..]. cbn [mbind result_bind] in *.
  destruct (type_is (str "mapping") p) as [m| |]; [|done..]. cbn [mbind result_bind] in *. destruct m; [|injection H as <-; f_equal; lia].
  destruct (depth_of p) as [d| |]; [|done..]. cbn [mbind result_bind] in *. destruct (vat e (0 + 1)) as [x| |] eqn:Ex; [|done..].
  rewrite (vat_app pre e post 1 x Ex) by lia. cbn [mbind result_bind] in *. injection H as H. f_equal. rewrite !length_app in Hl.
  unfold wrap64 in *. replace (zlen pre + 2 + to_uint64 x * ((if b then 3 else 1) + d)) with (zlen pre + (0 + 2 + to_uint64 x * ((if b then 3 else 1) + d))) by lia.
  rewrite <- Z.add_mod_idemp_r by (unfold M64; lia). rewrite H, Z.mod_small; lia.
Qed.

Lemma visit_entries {A} sts enc (f : Z -> Z -> A -> result A) ps es : Forall2 (entry_of sts enc) ps es ->
  forall pre fuel a, (length es <= fuel)%nat -> zlen (pre ++ concat es) < M64 ->
  visit_states fuel sts (pre ++ concat es) enc f (zlen pre) a = Some (fold_entries f (zlen pre) es a).
Proof.
  induction 1 as [|p e ps es (s & body & He & Hp & Hn) _ IH]; intros pre fuel a Hf Hl; cbn [concat] in *.
  { rewrite app_nil_r. destruct fuel; cbn [visit_states]; by rewrite Z.leb_refl. }
  destruct fuel as [|fuel]; [cbn in Hf; lia|]. cbn [visit_states fold_entries]. destruct (Z.leb_spec (zlen (pre ++ e ++ concat es)) (zlen pre)) as [H|_].
  { rewrite !length_app in H. subst e. cbn [length] in H. lia. }
  replace (vat (pre ++ e ++ concat es) (zlen pre)) with (Ok (A := list Z) s)
    by (rewrite <- (Z.add_0_r (zlen pre)) at 1; symmetry; apply vat_app; [by subst e | lia]).
  cbn [mbind result_bind]. replace (hd [] e) with s by (by subst e). destruct (f (to_uint64 s) (zlen pre) a) as [a'| |]; [|done..]. cbn [mbind result_bind].
  rewrite Hp. cbn [mbind result_bind]. rewrite (visit_next_app pre e (concat es) enc p _ Hn eq_refl Hl). cbn [mbind result_bind].
  rewrite app_assoc in Hl |- *. replace (zlen pre + zlen e) with (zlen (pre ++ e)) by (rewrite length_app; lia). apply IH; [cbn in Hf; lia | done].
Qed.

(** ** Encryption and decryption of states *)

(** What the sources rely on: decryption inverts encryption, and the string that
    holds tag and IV is split where it was joined. *)
Class AgentLaws `{Agent} := {
  split_tag_iv tag iv : zlen iv = 12 -> split_tag_and_iv (tag ++ iv) = Ok (tag, iv);
  decrypt_encrypt kp der iv d e t : encrypt_data_s kp der iv d = Ok (e, t) -> decrypt_data kp der iv (e ++ t) = Ok d;
  encrypt_bytes kp der iv d e t : encrypt_data_s kp der iv d = Ok (e, t) -> bytes_ok e /\ bytes_ok t
}.

Lemma owner_is_of p o s : owner_of p = Ok o -> owner_is s p = Ok (bool_decide (o = s)).
Proof.
  unfold owner_of, owner_is. destruct (at_var _ _) as [j| |]; [|done..]. cbn [mbind result_bind]. destruct j; cbn; try done. by intros [= ->].
Qed.

Section roundtrip.
Context {Curve : EthTx.Secp256k1} {Ag : Agent} {Laws : AgentLaws}.
Variables (entropy : nat -> list Z) (kp : EthTx.KeyPair) (c c2 : CloakPolicyTransaction) (addresses : list (list Z * list Z)).
Hypothesis entropy_ok : forall n, zlen (entropy n) = 12 /\ bytes_ok (entropy n).
(** [c2] is the record that reads what [c] has written: of a contract with the same
    states, with the public keys that [c] had and maybe others. *)
Hypothesis same_states : cstates c2 = cstates c.
Hypothesis keys_known : forall k pk, map_at k (public_keys c) = Ok pk -> map_at k (public_keys c2) = Ok pk.

Definition hex_value (v : list Z) : Prop := exists b, bytes_ok b /\ v = to_hex_string b.

Lemma encrypt_value_spec der addr n v l : hex_value v -> encrypt_value entropy kp der addr n v = Ok l ->
  exists x t, l = [x; t; addr] /\ decrypt_value kp der x t = Ok v.
Proof.
  intros (b & Hb & ->) E. unfold encrypt_value in E. apply bind_ok in E as ([e t] & E & [= <-]). destruct (entropy_ok n) as [He1 He2].
  destruct (encrypt_bytes _ _ _ _ _ _ E) as [H1 H2]. exists (to_hex_string e), (to_hex_string (t ++ entropy n)). split; [done|]. unfold decrypt_value.
  rewrite !to_bytes_hex by (done || by apply bytes_ok_app). rewrite split_tag_iv by done. cbn [mbind result_bind].
  rewrite (decrypt_encrypt _ _ _ _ _ _ E). cbn [mbind result_bind]. by rewrite to_bytes_hex.
Qed.

(** A row of a mapping with owners and what encryption makes of it. *)
Definition row_ok (k : list Z) (r : list (list Z)) : Prop := exists v a, r = [k; v] /\ hex_value v /\ to_uint256 k = Ok a /\ a <> 0.
Definition row_enc (k : list Z) (r er : list (list Z)) : Prop :=
  exists v a pk x t, r = [k; v] /\ er = [k; x; t; k] /\ to_uint256 k = Ok a /\ a <> 0 /\ map_at (to_checksum_address a) (public_keys c) = Ok pk /\
    decrypt_value kp (to_bytes pk) x t = Ok v.

Lemma vrange_one {A} (l1 l2 : list A) k a b : a = zlen l1 -> b = zlen l1 + 1 -> vrange (l1 ++ k :: l2) a b = Ok [k].
Proof.
  intros -> ->. pose proof (vrange_app l1 [k] l2 0 1 ltac:(lia) ltac:(cbn; lia)) as H. rewrite Z.add_0_r in H. exact H.
Qed.

Lemma encrypt_rows_spec idx post ks : forall rows, Forall2 row_ok ks rows -> forall done P n j l, j = zlen done -> zlen P = idx + 2 + 2 * j ->
  encrypt_rows entropy kp c (done ++ ks) (P ++ concat rows ++ post) idx 1 n j (length ks) = Ok l ->
  exists ers, l = concat ers /\ length ers = length ks /\ Forall2 (fun kr er => row_enc kr.1 kr.2 er) (zip ks rows) ers.
Proof.
  induction 1 as [|k r ks rows (v & a & -> & Hv & Ha & Hz) _ IH]; intros ds P n j l Hj HP E; cbn [length encrypt_rows] in E.
  { injection E as <-. by exists []. }
  rewrite vrange_one in E by lia. cbn [mbind result_bind] in E.
  replace (vat (ds ++ k :: ks) j) with (Ok (A := list Z) k) in E by (symmetry; rewrite Hj, <- (Z.add_0_r (zlen ds)); apply (vat_app ds [k] ks 0); [done | lia]).
  cbn [mbind result_bind] in E. rewrite Ha in E. cbn [mbind result_bind] in E. destruct (map_at _ _) as [pk| |] eqn:Epk; [|done..]. cbn [mbind result_bind] in E.
  cbn [concat] in E. rewrite <- app_assoc in E. replace (vat (P ++ [k; v] ++ concat rows ++ post) (idx + 3 + j * 2)) with (Ok (A := list Z) v) in E
    by (symmetry; replace (idx + 3 + j * 2) with (zlen P + 1) by lia; apply vat_app; [done | lia]).
  cbn [mbind result_bind] in E. apply bind_ok in E as (e & Ee & E). apply bind_ok in E as (rest & Er & [= <-]).
  destruct (encrypt_value_spec _ _ _ _ _ Hv Ee) as (x & t & -> & Hd).
  replace (ds ++ k :: ks) with ((ds ++ [k]) ++ ks) in Er by (by rewrite <- app_assoc). rewrite (app_assoc P) in Er.
  destruct (IH (ds ++ [k]) (P ++ [k; v]) (S n) (j + 1) rest ltac:(rewrite length_app; cbn; lia) ltac:(rewrite length_app; cbn; lia) Er) as (ers & -> & Hl & Hf).
  exists ([k; x; t; k] :: ers). split; [done|]. split; [cbn; lia|]. cbn [zip_with]. constructor; [|done]. by exists v, a, pk, x, t.
Qed.

Lemma decrypt_rows_spec cr idx post ks : public_keys cr = public_keys c2 -> forall rows ers, length rows = length ks -> Forall2 (fun kr er => row_enc kr.1 kr.2 er) (zip ks rows) ers ->
  forall done P j, j = zlen done -> zlen P = idx + 2 + 4 * j -> old_states cr = P ++ concat ers ++ post ->
  decrypt_rows kp cr (done ++ ks) idx 1 j (length ks) = Ok (concat rows).
Proof.
  intros Hpk. induction ks as [|k ks IH]; intros [|r rows] ers Hl Hf ds P j Hj HP Ho; try done. cbn [zip_with] in Hf. apply Forall2_cons_inv_l in Hf as (er & ers' & Hr & Hf' & ->). cbn [fst snd] in Hr.
  destruct Hr as (v & a & pk & x & t & -> & -> & Ha & Hz & Hk & Hd). cbn [length decrypt_rows concat] in *. rewrite vrange_one by lia. cbn [mbind result_bind].
  rewrite <- app_assoc in Ho.
  assert (Hat : forall i y, vat [k; x; t; k] i = Ok y -> 0 <= i -> vat (old_states cr) (zlen P + i) = Ok y) by (intros i y Hy Hi; rewrite Ho; by apply vat_app).
  replace (idx + 2 + 1 + j * (1 + 3)) with (zlen P + 1) by lia.
  replace (zlen P + 1 + 2) with (zlen P + 3) by lia. rewrite (Hat 3 k) by (done || lia). cbn [mbind result_bind]. rewrite Ha. cbn [mbind result_bind].
  destruct (Z.eqb_spec a 0); [done|]. rewrite Hpk, (keys_known _ _ Hk). cbn [mbind result_bind]. replace (zlen P + 1 + 1) with (zlen P + 2) by lia. rewrite (Hat 2 t), (Hat 1 x) by (done || lia). cbn [mbind result_bind].
  rewrite Hd. cbn [mbind result_bind]. replace (ds ++ k :: ks) with ((ds ++ [k]) ++ ks) by (by rewrite <- app_assoc).
  rewrite (IH rows ers' ltac:(lia) Hf' (ds ++ [k]) (P ++ [k; x; t; k]) (j + 1)); [done | rewrite length_app; cbn; lia | rewrite length_app; cbn; lia|].
  by rewrite Ho, <- app_assoc.
Qed.

(** The plain value of a state, as the contract returns it.  Mappings with owners
    have keys of one part, which are the same for both records, values with an owner are written in full, and owners
    are not the zero address. *)
Inductive plain (tee_hex : list Z) (p : Params) : list (list Z) -> Prop :=
  | plain_value s v : owner_of p = Ok (str "all") -> type_is (str "mapping") p = Ok false -> plain tee_hex p [s; v]
  | plain_map s n rows depth :
      owner_of p = Ok (str "all") -> type_is (str "mapping") p = Ok true -> depth_of p = Ok depth -> 0 <= depth -> to_uint256 n = Ok (to_uint64 n) ->
      zlen rows = to_uint64 n * (depth + 1) -> plain tee_hex p (s :: n :: rows)
  | plain_owned s v o addr a :
      owner_of p = Ok o -> o <> str "all" -> o <> str "mapping" -> type_is (str "mapping") p = Ok false ->
      (if bool_decide (o = str "tee") then addr = tee_hex else map_at o addresses = Ok addr /\ addr = to_checksum_address a) ->
      to_uint256 addr = Ok a -> a <> 0 -> hex_value v -> plain tee_hex p [s; v]
  | plain_rows s n ks rows :
      owner_of p = Ok (str "mapping") -> type_is (str "mapping") p = Ok true -> depth_of p = Ok 1 ->
      get_mapping_keys split_string (sender c) (name p) (-1) true (function c) = Ok ks -> get_keys_size (name p) (function c) = zlen ks ->
      get_mapping_keys split_string (sender c2) (name p) (-1) true (function c2) = Ok ks -> get_keys_size (name p) (function c2) = zlen ks ->
      to_uint64 n = zlen ks -> Forall2 row_ok ks rows -> plain tee_hex p (s :: n :: concat rows).

Lemma concat_rows ks rows : Forall2 row_ok ks rows -> zlen (concat rows) = 2 * zlen ks.
Proof. induction 1 as [|k r ks rows (v & a & -> & _) _ IH]; [done|]. cbn [concat length]. rewrite length_app. cbn [length]. lia. Qed.
Lemma concat_enc_rows l ers : Forall2 (fun kr er => row_enc kr.1 kr.2 er) l ers -> zlen (concat ers) = 4 * zlen ers.
Proof. induction 1 as [|k r ks rows (v & a & pk & x & t & _ & -> & _) _ IH]; [done|]. cbn [concat length]. rewrite length_app. cbn [length]. lia. Qed.

Lemma slice_tail {A} (x : A) l b : b = zlen l -> zslice 1 b (x :: l) = l.
Proof. intros ->. unfold zslice, ztake, zdrop. cbn. by rewrite Nat2Z.id, firstn_all. Qed.

(** One state: encrypted, it is an entry of its own, from which decryption
    restores the plain strings. *)
Definition state_restored (p : Params) (e l : list (list Z)) : Prop :=
  exists s body, e = s :: body /\ visit_next (s :: l) true p 0 = Ok (zlen (s :: l)) /\
    forall pre2 post2 old, old = pre2 ++ (s :: l) ++ post2 -> zlen old < M64 -> decrypt_state kp (set_old_states old c2) p (zlen pre2) = Ok body.

Lemma owned_encrypted tee_hex p s v o addr a pre post n l n' :
  owner_of p = Ok o -> o <> str "all" -> o <> str "mapping" -> type_is (str "mapping") p = Ok false ->
  (if bool_decide (o = str "tee") then addr = tee_hex else map_at o addresses = Ok addr /\ addr = to_checksum_address a) ->
  to_uint256 addr = Ok a -> a <> 0 -> hex_value v ->
  encrypt_state entropy kp c (pre ++ [s; v] ++ post) addresses tee_hex p (zlen pre) n = Ok (l, n') -> state_restored p [s; v] l.
Proof.
  intros Ho Hn1 Hn2 Ht Ha Hz Hz' Hv E. unfold encrypt_state in E. rewrite !(owner_is_of p _ _ Ho) in E. cbn [mbind result_bind] in E.
  rewrite !bool_decide_eq_false_2 in E by done. cbn [mbind result_bind] in E.
  assert (exists der x, (if bool_decide (o = str "tee") then Ok (EthTx.public_key_raw kp) else k ← map_at addr (public_keys c); Ok (to_bytes k)) = Ok der /\
    encrypt_value entropy kp der addr n v = Ok x /\ l = x) as (der & x & Hder & Ex & ->).
  { destruct (bool_decide (o = str "tee")); [subst addr | destruct Ha as [Ha _]; rewrite Ho in E; cbn [mbind result_bind] in E; rewrite Ha in E]; cbn [mbind result_bind] in E.
    - rewrite (vat_app pre [s; v] post 1 v) in E by (done || lia). cbn [mbind result_bind] in E. apply bind_ok in E as (x & Ex & E). injection E as <- _. by eexists _, _.
    - apply bind_ok in E as (der & Hder & E). rewrite (vat_app pre [s; v] post 1 v) in E by (done || lia). cbn [mbind result_bind] in E. apply bind_ok in E as (x & Ex & E). injection E as <- _. by eexists _, _. }
  destruct (encrypt_value_spec _ _ _ _ _ Hv Ex) as (y & t & -> & Hdec). exists s, [v]. split; [done|]. split.
  + unfold visit_next. rewrite (owner_is_of p _ _ Ho), Ht. by rewrite bool_decide_eq_false_2.
  + intros pre2 post2 old -> Hold. unfold decrypt_state. rewrite Ho. cbn [mbind result_bind old_states set_old_states public_keys]. rewrite !bool_decide_eq_false_2 by done.
    assert (Hat : forall i z, vat [s; y; t; addr] i = Ok z -> 0 <= i -> vat (pre2 ++ [s; y; t; addr] ++ post2) (zlen pre2 + i) = Ok z) by (intros i z Hy Hi; by apply vat_app).
    rewrite (Hat 3 addr), (Hat 2 t), (Hat 1 y) by (done || lia). cbn [mbind result_bind]. rewrite Hz. cbn [mbind result_bind].
    rewrite (proj1 (checksum_address_roundtrip a (to_uint256_u256 _ _ Hz))). cbn [mbind result_bind]. destruct (Z.eqb_spec a 0); [done|].
    replace (if bool_decide (o = str "tee") then _ else _) with (Ok (A := list Z) der); [cbn [mbind result_bind]; by rewrite Hdec|].
    destruct (bool_decide (o = str "tee")); [by rewrite <- Hder|]. destruct Ha as [_ ->]. apply bind_ok in Hder as (k & Hk & <-). by rewrite (keys_known _ _ Hk).
Qed.

Lemma rows_encrypted tee_hex p s m ks rows pre post n l n' :
  owner_of p = Ok (str "mapping") -> type_is (str "mapping") p = Ok true -> depth_of p = Ok 1 ->
  get_mapping_keys split_string (sender c) (name p) (-1) true (function c) = Ok ks -> get_keys_size (name p) (function c) = zlen ks ->
  get_mapping_keys split_string (sender c2) (name p) (-1) true (function c2) = Ok ks -> get_keys_size (name p) (function c2) = zlen ks ->
  to_uint64 m = zlen ks -> Forall2 row_ok ks rows -> zlen (pre ++ (s :: m :: concat rows) ++ post) < 2 ^ 62 ->
  encrypt_state entropy kp c (pre ++ (s :: m :: concat rows) ++ post) addresses tee_hex p (zlen pre) n = Ok (l, n') -> state_restored p (s :: m :: concat rows) l.
Proof.
  intros Ho Ht Hd Hk Hks Hk2 Hks2 Hm Hr Hl E. rewrite !length_app in Hl. unfold encrypt_state in E. rewrite !(owner_is_of p _ _ Ho) in E. cbn [mbind result_bind] in E.
  replace (bool_decide (str "mapping" = str "all")) with false in E by reflexivity. replace (bool_decide (str "mapping" = str "mapping")) with true in E by reflexivity.
  rewrite Hk in E. cbn [mbind result_bind] in E. rewrite Hd in E. cbn [mbind result_bind] in E. rewrite (vat_app pre (s :: m :: concat rows) post 1 m) in E by (done || lia).
  cbn [mbind result_bind] in E. rewrite Hks, Nat2Z.id in E. apply bind_ok in E as (rl & Er & [= <- <-]).
  replace (pre ++ (s :: m :: concat rows) ++ post) with ((pre ++ [s; m]) ++ concat rows ++ post) in Er by (by rewrite <- app_assoc).
  destruct (encrypt_rows_spec (zlen pre) post ks rows Hr [] (pre ++ [s; m]) n 0 rl eq_refl ltac:(rewrite length_app; cbn; lia) Er) as (ers & -> & Hle & Hf).
  pose proof (concat_enc_rows _ _ Hf) as Hce. pose proof (concat_rows _ _ Hr) as Hcr. cbn [length] in Hl. exists s, (m :: concat rows). split; [done|]. split.
  + unfold visit_next. rewrite (owner_is_of p _ _ Ho), Ht. cbn [mbind result_bind]. rewrite Hd. cbn [mbind result_bind]. change (vat (s :: m :: concat ers) (0 + 1)) with (Ok m).
    replace (bool_decide (str "mapping" = str "all")) with false by reflexivity. cbn [mbind result_bind negb length]. f_equal. rewrite Hm. unfold wrap64. rewrite Z.mod_small; unfold M64; lia.
  + intros pre2 post2 old -> Hold. unfold decrypt_state. rewrite Ho. cbn [mbind result_bind]. replace (bool_decide (str "mapping" = str "all")) with false by reflexivity.
    replace (bool_decide (str "mapping" = str "mapping")) with true by reflexivity. set (cr := set_old_states _ c2).
    change (sender cr) with (sender c2). change (function cr) with (function c2). rewrite Hk2. cbn [mbind result_bind]. rewrite Hd. cbn [mbind result_bind].
    change (old_states cr) with (pre2 ++ (s :: m :: concat ers) ++ post2). rewrite (vat_app pre2 (s :: m :: concat ers) post2 1 m) by (done || lia). cbn [mbind result_bind]. rewrite Hks2, Nat2Z.id.
    pose proof (decrypt_rows_spec cr (zlen pre2) post2 ks eq_refl rows ers (eq_sym (Forall2_length _ _ _ Hr)) Hf [] (pre2 ++ [s; m]) 0) as Hdr.
    cbn [app] in Hdr. rewrite Hdr; [done | done | rewrite length_app; cbn; lia|]. unfold cr. cbn [old_states set_old_states]. by rewrite <- app_assoc.
Qed.

Lemma state_encrypted tee_hex p e pre post n l n' : plain tee_hex p e -> zlen (pre ++ e ++ post) < 2 ^ 62 ->
  encrypt_state entropy kp c (pre ++ e ++ post) addresses tee_hex p (zlen pre) n = Ok (l, n') -> state_restored p e l.
Proof.
  intros Hp Hl E. destruct Hp as [s v Ho Ht|s m rows depth Ho Ht Hdp Hd0 Hm Hr|s v o addr a Ho Hn1 Hn2 Ht Ha Hz Hz' Hv|s m ks rows Ho Ht Hd Hk Hks Hk2 Hks2 Hm Hr];
    [..|by eapply owned_encrypted|by eapply rows_encrypted]; rewrite !length_app in Hl;
    unfold encrypt_state in E; rewrite !(owner_is_of p _ _ Ho) in E; cbn [mbind result_bind] in E.
  - replace (bool_decide (str "all" = str "all")) with true in E by reflexivity. rewrite Ht in E. cbn [mbind result_bind] in E.
    rewrite (vat_app pre [s; v] post 1 v) in E by (done || lia). injection E as <- <-. exists s, [v]. split; [done|]. split.
    + unfold visit_next. rewrite (owner_is_of p _ _ Ho), Ht. reflexivity.
    + intros pre2 post2 old -> Hold. unfold decrypt_state. rewrite Ho. cbn [mbind result_bind]. replace (bool_decide (str "all" = str "all")) with true by reflexivity.
      rewrite Ht. cbn [mbind result_bind old_states set_old_states]. by rewrite (vat_app pre2 [s; v] post2 1 v) by (done || lia).
  - replace (bool_decide (str "all" = str "all")) with true in E by reflexivity. rewrite Ht in E. cbn [mbind result_bind] in E.
    assert (Hn : 0 <= to_uint64 m) by (pose proof (to_uint256_u256 _ _ Hm) as [? _]; done). cbn [length] in Hl.
    assert (Hw : wrap64 (to_uint64 m * (depth + 1)) = zlen rows) by (unfold wrap64; rewrite Z.mod_small; unfold M64; lia).
    rewrite (vat_app pre (s :: m :: rows) post 1 m) in E by (done || lia). cbn [mbind result_bind] in E. rewrite Hdp in E. cbn [mbind result_bind] in E.
    rewrite (Z.mul_comm (depth + 1)), Hw, <- !Z.add_assoc, vrange_app in E by (cbn [length]; lia). rewrite slice_tail in E by (cbn [length]; lia). injection E as <- <-.
    exists s, (m :: rows). split; [done|]. split.
    + unfold visit_next. rewrite (owner_is_of p _ _ Ho), Ht. cbn [mbind result_bind negb]. rewrite Hdp. cbn [mbind result_bind].
      change (vat (s :: m :: rows) (0 + 1)) with (Ok m). cbn [mbind result_bind]. f_equal. replace (bool_decide (str "all" = str "all")) with true by reflexivity.
      cbn [negb length]. rewrite (Z.add_comm 1 depth), <- Hr. unfold wrap64. rewrite Z.mod_small; unfold M64; lia.
    + intros pre2 post2 old -> Hold. unfold decrypt_state. rewrite Ho. cbn [mbind result_bind]. replace (bool_decide (str "all" = str "all")) with true by reflexivity.
      rewrite Ht. cbn [mbind result_bind old_states set_old_states]. rewrite (vat_app pre2 (s :: m :: rows) post2 1 m) by (done || lia). cbn [mbind result_bind]. rewrite Hm, Hdp. cbn [mbind result_bind].
      replace (wrap64 (to_uint64 m)) with (to_uint64 m) by (unfold wrap64; rewrite Z.mod_small; unfold M64; nia).
      rewrite Hw, <- !Z.add_assoc, vrange_app by (cbn [length]; lia). by rewrite slice_tail by (cbn [length]; lia).
Qed.

Lemma fold_roundtrip a ps es : EthTx.get_address_from_public_key (EthTx.public_key_raw kp) = Ok a ->
  Forall2 (entry_of (cstates c) false) ps es -> Forall2 (plain (to_hex_string_u256 a)) ps es ->
  forall pre news res n res' n', news = pre ++ concat es -> zlen news < 2 ^ 62 ->
  fold_entries (visit_encrypt entropy kp c news addresses) (zlen pre) es (res, n) = Ok (res', n') ->
  exists encs, res' = res ++ concat encs /\ Forall2 (entry_of (cstates c) true) ps encs /\
    forall pre2 old acc, old = pre2 ++ concat encs -> zlen old < M64 ->
      fold_entries (visit_decrypt kp (set_old_states old c2)) (zlen pre2) encs acc = Ok (acc ++ concat es).
Proof.
  intros Ha He Hp. revert Hp. induction He as [|p e ps es (s & body & Hes & Hid & Hnx) _ IH]; intros Hp pre news res n res' n' Hnews Hl E.
  { cbn in E. injection E as <- <-. exists []. rewrite app_nil_r. split; [done|]. split; [constructor|]. intros. cbn. by rewrite app_nil_r. }
  apply Forall2_cons_1 in Hp as [Hpe Hp]. cbn [fold_entries] in E. apply bind_ok in E as ([res1 n1] & E1 & E). unfold visit_encrypt in E1. rewrite Ha in E1. cbn [mbind result_bind] in E1.
  replace (hd [] e) with s in E1 by (by subst e). rewrite Hid in E1. cbn [mbind result_bind] in E1. cbn [concat] in Hnews. subst news.
  replace (vat (pre ++ e ++ concat es) (zlen pre)) with (Ok (A := list Z) s) in E1
    by (rewrite <- (Z.add_0_r (zlen pre)) at 1; symmetry; apply vat_app; [by subst e | lia]).
  cbn [mbind result_bind] in E1. apply bind_ok in E1 as ([l n2] & El & [= <- <-]).
  destruct (state_encrypted _ _ _ _ _ _ _ _ Hpe Hl El) as (s' & body' & Hes' & Hv & Hdec). rewrite Hes in Hes'. injection Hes' as <- <-.
  replace (zlen pre + zlen e) with (zlen (pre ++ e)) in E by (rewrite length_app; lia). rewrite app_assoc in Hl, E.
  destruct (IH Hp (pre ++ e) _ _ _ _ _ eq_refl Hl E) as (encs & -> & Hf & Hd). exists ((s :: l) :: encs). split; [by rewrite <- app_assoc|].
  split; [constructor; [by exists s, l | done]|]. intros pre2 old acc -> Hold. cbn [fold_entries concat hd] in *. set (old := pre2 ++ (s :: l) ++ concat encs) in *.
  assert (visit_decrypt kp (set_old_states old c2) (to_uint64 s) (zlen pre2) acc = Ok (acc ++ s :: body)) as ->.
  { unfold visit_decrypt. change (old_states (set_old_states old c2)) with old. change (cstates (set_old_states old c2)) with (cstates c2). rewrite same_states.
    replace (vat old (zlen pre2)) with (Ok (A := list Z) s) by (rewrite <- (Z.add_0_r (zlen pre2)) at 1; symmetry; apply vat_app; [done | lia]).
    cbn [mbind result_bind]. unfold vat in Hid. destruct (cstates c !! Z.to_nat (to_uint64 s)); [|done]. injection Hid as ->.
    by rewrite (Hdec pre2 (concat encs) old eq_refl Hold). }
  cbn [mbind result_bind].
  replace (zlen pre2 + zlen (s :: l)) with (zlen (pre2 ++ s :: l)) by (rewrite length_app; lia).
  rewrite (Hd (pre2 ++ s :: l) old) by (done || (unfold old; by rewrite <- app_assoc)). rewrite Hes. by rewrite <- !app_assoc.
Qed.

(** C22. The states of a multi-party transaction survive the trip through the
    chain: what [encrypt_states] makes of the new states with the record [c] is a
    list from which [decrypt_states] restores them, when another record [c2]
    reads it as its old states.  States are public values and mappings, values of
    the enclave or of a named owner, and mappings whose rows belong to their keys,
    these of depth 1.  [c2] has the same states as [c], knows the public keys that
    [c] knew, and its function has the same keys for the mappings with owners;
    owners are not the zero address.  Encryption and its IVs are parameters, for
    which decryption undoes encryption. *)
Theorem states_roundtrip fuel a ps es n enc n' :
  EthTx.get_address_from_public_key (EthTx.public_key_raw kp) = Ok a ->
  Forall2 (entry_of (cstates c) false) ps es -> Forall2 (plain (to_hex_string_u256 a)) ps es -> zlen (concat es) < 2 ^ 62 -> (length es <= fuel)%nat ->
  visit_states fuel (cstates c) (concat es) false (visit_address c) 0 [] = Some (Ok addresses) ->
  encrypt_states entropy fuel kp (concat es) n c = Some (Ok (enc, n')) -> zlen enc < 2 ^ 62 ->
  decrypt_states fuel kp (set_old_states enc c2) = Some (Ok (concat es)).
Proof.
  intros Ha He Hp Hl Hf Hv E Hle. unfold encrypt_states in E. rewrite Hv in E. cbn [fbind] in E.
  pose proof (visit_entries (cstates c) false (visit_encrypt entropy kp c (concat es) addresses) ps es He [] fuel ([], n) Hf ltac:(cbn [app]; unfold M64; lia)) as Hve.
  cbn [app length] in Hve. change (Z.of_nat 0) with 0 in Hve. rewrite Hve in E. injection E as E.
  destruct (fold_roundtrip a ps es Ha He Hp [] (concat es) [] n enc n' eq_refl Hl E) as (encs & Henc & Hf2 & Hd). cbn [app] in Henc. subst enc.
  unfold decrypt_states. change (cstates (set_old_states (concat encs) c2)) with (cstates c2). rewrite same_states.
  change (old_states (set_old_states (concat encs) c2)) with (concat encs).
  assert (Hle2 : length encs = length es) by (rewrite <- (Forall2_length _ _ _ Hf2); by apply Forall2_length in He).
  pose proof (visit_entries (cstates c) true (visit_decrypt kp (set_old_states (concat encs) c2)) ps encs Hf2 [] fuel [] ltac:(lia) ltac:(cbn [app]; unfold M64; lia)) as Hvd.
  cbn [app length] in Hvd. change (Z.of_nat 0) with 0 in Hvd. rewrite Hvd. f_equal. apply (Hd [] (concat encs) [] eq_refl). unfold M64. lia.
Qed.

End roundtrip.

(** ** Lengths and termination *)

(** A mapping has as many rows as the function has keys for it. *)
Definition counted (f : Function) (p : Params) (e : list (list Z)) : Prop :=
  type_is (str "mapping") p = Ok true -> match e with _ :: m :: _ => to_uint64 m = get_keys_size (name p) f | _ => False end.

Lemma state_len_entry enc f p e : (exists o, owner_of p = Ok o) -> counted f p e -> visit_next e enc p 0 = Ok (zlen e) -> exists n, state_len enc f p = Ok n /\ wrap64 n = wrap64 (zlen e).
Proof.
  intros [o Ho] Hc Hn. unfold visit_next in Hn. unfold state_len. rewrite (owner_is_of p o _ Ho) in Hn. rewrite Ho. cbn [mbind result_bind] in *.
  replace (if enc then Ok (negb (bool_decide (o = str "all"))) else Ok false) with (Ok (A := bool) (enc && negb (bool_decide (o = str "all")))) in Hn by (by destruct enc).
  cbn [mbind result_bind] in Hn. unfold counted in Hc. destruct (type_is (str "mapping") p) as [[]| |]; try done; cbn [mbind result_bind] in *.
  - destruct (depth_of p) as [d| |]; [|done..]. cbn [mbind result_bind] in *. destruct e as [|x [|m e]]; try (by destruct (Hc eq_refl)). change (vat (x :: m :: e) (0 + 1)) with (Ok m) in Hn.
    cbn [mbind result_bind] in Hn. injection Hn as Hn. rewrite (Hc eq_refl) in Hn. eexists. split; [done|]. cbn [length]. rewrite <- Hn. unfold wrap64. rewrite Z.mod_mod by (unfold M64; lia). f_equal. lia.
  - injection Hn as Hn. eexists. split; [done|]. f_equal. lia.
Qed.

(** The length that [get_states_return_len] announces to the contract is the
    length of the list: a list with one entry for each state, its mappings with
    one row for each key of the function, has exactly that many strings,
    encrypted or not. *)
Theorem return_len_exact `{Agent} enc c es :
  Forall2 (entry_of (cstates c) enc) (cstates c) es -> Forall2 (counted (function c)) (cstates c) es ->
  Forall (fun p => exists o, owner_of p = Ok o) (cstates c) -> zlen (concat es) < M64 ->
  get_states_return_len enc c = Ok (zlen (concat es)).
Proof.
  unfold get_states_return_len. intros He Hc Ho Hl. assert (Hlen : forall ps es res, Forall2 (entry_of (cstates c) enc) ps es -> Forall2 (counted (function c)) ps es ->
    Forall (fun p => exists o, owner_of p = Ok o) ps -> return_len enc (function c) (wrap64 res) ps = Ok (wrap64 (res + zlen (concat es)))).
  { clear. intros ps es res He. revert res. induction He as [|p e ps es (s & b & _ & _ & Hn) _ IH]; intros res Hc Ho; cbn [return_len concat].
    { do 2 f_equal. cbn. lia. }
    apply Forall2_cons_1 in Hc as [Hc1 Hc]. apply Forall_cons in Ho as [Ho1 Ho]. destruct (state_len_entry enc _ p e Ho1 Hc1 Hn) as (n & -> & Hw). cbn [mbind result_bind].
    replace (wrap64 (wrap64 res + n)) with (wrap64 (res + zlen e)); [rewrite IH by done; do 2 f_equal; rewrite length_app; lia|].
    unfold wrap64 in *. rewrite Z.add_mod_idemp_l by (unfold M64; lia). rewrite <- Z.add_mod_idemp_r, <- Hw, Z.add_mod_idemp_r by (unfold M64; lia). done. }
  specialize (Hlen (cstates c) es 0 He Hc Ho). change (wrap64 0) with 0 in Hlen. rewrite Hlen. f_equal. unfold wrap64. apply Z.mod_small. lia.
Qed.

(** A count of rows that the chain sends can keep the enclave busy for ever:
    the product that [visit_states] adds to its index wraps around to zero, and
    no amount of fuel is enough for the first loop of [request_public_keys]. *)
Theorem visit_states_loops `{Agent} fuel digest acc kp service c p :
  cstates c = [p] -> type_is (str "mapping") p = Ok true -> type_is (str "address") p = Ok false -> owner_is (str "all") p = Ok true -> depth_of p = Ok 1 ->
  old_states c = [str "0x0"; str "0xffffffffffffffff"] ->
  request_public_keys fuel digest acc kp service c = None.
Proof.
  intros Hc Hm Ha Ho Hd Hold. unfold request_public_keys. enough (visit_states fuel (cstates c) (old_states c) true (visit_address c) 0 [] = None) as -> by done.
  rewrite Hold, Hc. generalize (@nil (list Z * list Z)). induction fuel as [|fuel IH]; intros l; [done|]. cbn [visit_states].
  change (zlen [str "0x0"; str "0xffffffffffffffff"] <=? 0) with false. cbn match.
  change (vat [str "0x0"; str "0xffffffffffffffff"] 0) with (Ok (str "0x0")). cbn [mbind result_bind]. replace (to_uint64 (str "0x0")) with 0 by (vm_compute; reflexivity).
  unfold visit_address at 1. rewrite Hc. change (vat [p] 0) with (Ok p). cbn [mbind result_bind]. rewrite Ha. cbn [mbind result_bind].
  unfold visit_next. rewrite Ho, Hm. cbn [mbind result_bind]. rewrite Hd. cbn [mbind result_bind negb].
  change (vat [str "0x0"; str "0xffffffffffffffff"] (0 + 1)) with (Ok (str "0xffffffffffffffff")). cbn [mbind result_bind].
  replace (wrap64 (0 + 2 + to_uint64 (str "0xffffffffffffffff") * (1 + 1))) with 0 by (vm_compute; reflexivity). apply IH.
Qed.

(** ** Instances *)

#[local] Instance wcurve : EthTx.Secp256k1 := {|
  EthTx.KeyPair := Z;
  EthTx.public_key_raw k := 4 :: be_bytes 64 k;
  EthTx.sign_recoverable k _ := Some (be_bytes 64 k, 1);
  EthTx.recover b _ _ := Some (4 :: b)
|}.
(** Encryption that leaves the bytes as they are, with a tag of sixteen zeros. *)
#[local] Instance wagent : Agent := {|
  split_string := split_colon;
  split_tag_and_iv b := Ok (ztake (zlen b - 12) b, zdrop (zlen b - 12) b);
  encrypt_data_s _ _ _ d := if bool_decide (bytes_ok d) then Ok (d, zeros 16) else Throw LogicError;
  decrypt_data _ _ _ d := Ok (ztake (zlen d - 16) d);
  repeat_hex_string s _ := s;
  dump _ := Ok []
|}.

#[local] Instance wagent_laws : AgentLaws.
Proof.
  split.
  - intros tag iv Hiv. cbn [split_tag_and_iv wagent]. do 2 f_equal; unfold ztake, zdrop; replace (Z.to_nat (zlen (tag ++ iv) - 12)) with (length tag) by (rewrite length_app; lia).
    + by rewrite take_app_length.
    + by rewrite drop_app_length.
  - intros kp der iv d e t E. cbn [encrypt_data_s wagent] in E. destruct (bool_decide _); [|done]. injection E as <- <-. cbn [decrypt_data wagent]. f_equal. unfold ztake.
    replace (Z.to_nat (zlen (d ++ zeros 16) - 16)) with (length d) by (rewrite length_app; unfold zeros; rewrite length_replicate; lia). by rewrite take_app_length.
  - intros kp der iv d e t E. cbn [encrypt_data_s wagent] in E. case_bool_decide; [|done]. injection E as <- <-. split; [done | apply bytes_ok_zeros].
Defined.

Definition wowner (o : list Z) : json := JObj [(str "owner", JStr o)].
Definition wmapping : json := JObj [(str "type", JStr (str "mapping")); (str "depth", JNum 1)].
Definition wst : list Params :=
  [mkParams (str "total") (number_type 256 false) (wowner (str "all")) None;
   mkParams (str "secret") (number_type 256 false) (wowner (str "tee")) None;
   mkParams (str "balances") wmapping (wowner (str "mapping")) None].
Definition wkey : list Z := Eval vm_compute in to_hex_string (be_bytes 32 7).
Definition wcpt : CloakPolicyTransaction :=
  mkCpt 7 1 2 (str "0x00") (mkFunction [] (str "f") [] [mkParams (str "to") (number_type 256 false) JNull (Some (JStr (str "7")))]
    [mkStateParams (str "balances") [str "to"]] [] [] []) wst [] [] [(to_checksum_address 7, str "0x0405")] PENDING [].
Definition wentries : list (list (list Z)) :=
  [[str "0x0"; str "0x11"]; [str "0x1"; to_hex_string [34]]; [str "0x2"; str "0x1"; wkey; to_hex_string [51]]].

Definition wiv : nat -> list Z := fun _ => replicate 12 9.
Definition wenc : list (list Z) * nat :=
  Eval vm_compute in match encrypt_states wiv 3 (5 : EthTx.KeyPair) (concat wentries) 0 wcpt with Some (Ok r) => r | _ => ([], 0%nat) end.

(** A later transaction of another sender, on the same mapping key. *)
Definition wnext : CloakPolicyTransaction :=
  mkCpt 9 1 2 (str "0x00") (mkFunction [] (str "g") [] [mkParams (str "who") (number_type 256 false) JNull (Some (JStr (str "7")))]
    [mkStateParams (str "balances") [str "who"]] [] [] []) wst [] [] [(to_checksum_address 7, str "0x0405")] REQUESTING_OLD_STATES [].

Lemma states_roundtrip_witness : decrypt_states 3 (5 : EthTx.KeyPair) (set_old_states wenc.1 wnext) = Some (Ok (concat wentries)).
Proof.
  assert (Ha : exists a, EthTx.get_address_from_public_key (EthTx.public_key_raw (5 : EthTx.KeyPair)) = Ok a) by (eexists; vm_compute; reflexivity). destruct Ha as [a Ha].
  apply (@states_roundtrip wcurve wagent wagent_laws wiv 5 wcpt wnext []) with (a := a) (ps := wst) (n := 0%nat) (n' := wenc.2).
  - intros n. split; [reflexivity | apply (bool_decide_unpack _); vm_compute; exact I].
  - reflexivity.
  - intros k pk Hk. exact Hk.
  - exact Ha.
  - constructor; [|constructor; [|constructor; [|constructor]]]; eexists _, _; (split; [reflexivity|]); vm_compute; split; reflexivity.
  - vm_compute in Ha. injection Ha as <-. constructor; [|constructor; [|constructor; [|constructor]]].
    + apply plain_value; vm_compute; reflexivity.
    + eapply (plain_owned _ _ _ _ _ _ _ (str "tee")); [vm_compute; reflexivity | vm_compute; discriminate | vm_compute; discriminate | vm_compute; reflexivity |
        vm_compute; reflexivity | vm_compute; reflexivity | discriminate | exists [34]; split; [apply (bool_decide_unpack _); vm_compute; exact I | reflexivity]].
    + apply (plain_rows _ _ _ _ _ _ _ [wkey] [[wkey; to_hex_string [51]]]); [vm_compute; reflexivity..|].
      constructor; [|constructor]. exists (to_hex_string [51]), 7. split; [reflexivity|]. split; [|split; [vm_compute; reflexivity | discriminate]].
      exists [51]. split; [apply (bool_decide_unpack _); vm_compute; exact I | reflexivity].
  - vm_compute. reflexivity.
  - cbn. lia.
  - vm_compute. reflexivity.
  - vm_compute. reflexivity.
  - vm_compute. reflexivity.
Defined.

Lemma return_len_exact_witness : get_states_return_len false wcpt = Ok (zlen (concat wentries)).
Proof.
  apply (return_len_exact false wcpt wentries).
  - constructor; [|constructor; [|constructor; [|constructor]]]; eexists _, _; (split; [reflexivity|]); vm_compute; split; reflexivity.
  - constructor; [|constructor; [|constructor; [|constructor]]]; intros E; vm_compute in E; first [discriminate | vm_compute; reflexivity].
  - constructor; [|constructor; [|constructor; [|constructor]]]; eexists; vm_compute; reflexivity.
  - vm_compute. reflexivity.
Defined.

Lemma visit_states_loops_witness :
  request_public_keys 1000 [] 1 (Ok (5 : EthTx.KeyPair)) 2 (set_old_states [str "0x0"; str "0xffffffffffffffff"]
    (mkCpt 7 1 2 [] (function wcpt) [mkParams (str "m") wmapping (wowner (str "all")) None] [] [] [] PENDING [])) = None.
Proof. eapply visit_states_loops; reflexivity. Defined.

End CloakTx.
