(* ===== verification/Generator.v ===== *)
(** * The multi-party workflow

    Model of tee/src/transaction/generator.h over the tables of
    transaction/tables.h, with the account of the enclave of
    ethereum/tee_manager.h and tee_account.h.  A handler runs in one
    transaction of the key-value store: it gives the new tables and the messages
    for the agent on the host, or throws and changes nothing.

    The class [External] holds the code that is not part of the sources: the
    parsers and [execute_mpt], the address of the service contract and the
    source of IVs.  A private key is kept as the key pair and not as its PEM
    text; the values of the tables are the records and not their JSON
    (see [Policy.policy_json_roundtrip]).

    The other place where the enclave signs with that account is the heartbeat of
    web3client/web3_operation.h ([heart_beat]), which sends the states that wait
    in TransactionSync.  The endpoint cloak_prepare is not among the requests: it
    calls a function that the sources do not define.

    A message leaves the enclave while its transaction runs, before the commit,
    and the heartbeat sends after a commit whose result it does not look at.
    [steps] therefore has steps whose transaction is lost: their messages are
    out and the tables are as before.

    Main results: [nonces_in_sequence], the nonces under which the enclave signs,
    whatever requests and heartbeats arrive; [workflow_step], what a request can
    do to the record of a transaction; [policies_stay], a contract keeps its
    policy digest; [shared_digest], and what happens when another contract
    registers the same policy; [replay_resets]. *)
From S2P Require Import Prelude Monad Util Keccak Rlp Address EthTx EthState Json Abi Policy CloakTx.
From stdpp Require Import list gmap strings.
Local Open Scope Z_scope.

Module Generator.
Import Util Address Json Abi Policy CloakTx.

(** ** The account of the enclave *)

Section tee.
Context `{EthTx.Secp256k1}.

Record Tee := mkTee { privateKey : gmap Z EthTx.KeyPair; publicAddr : option Z; tee_balances : gmap Z Z; tee_nonces : gmap Z Z }.

(** [State::get] and the constructor of the account *)
Definition tee_get (t : Tee) : result Z := match publicAddr t with Some a => Ok a | None => Throw LogicError end.
Definition tee_nonce (a : Z) (t : Tee) : Z := default 0 (tee_nonces t !! a).
Definition tee_balance (a : Z) (t : Tee) : Z := default 0 (tee_balances t !! a).
Definition tee_increment_nonce (a : Z) (t : Tee) : Tee :=
  mkTee (privateKey t) (publicAddr t) (tee_balances t) (<[a := wrap64 (tee_nonce a t + 1)]> (tee_nonces t)).
Definition tee_set_balance (a b : Z) (t : Tee) : Tee := mkTee (privateKey t) (publicAddr t) (<[a := b]> (tee_balances t)) (tee_nonces t).
Definition get_tee_kp (a : Z) (t : Tee) : result EthTx.KeyPair :=
  match privateKey t !! a with Some k => Ok k | None => Throw LogicError end.

(** [State::create] with the key pair that was made *)
Definition tee_create (kp : EthTx.KeyPair) (t : Tee) : result (Tee * Z) :=
  match publicAddr t with
  | Some _ => Throw LogicError
  | None =>
      addr ← EthTx.get_address_from_public_key (EthTx.public_key_raw kp);
      match tee_balances t !! addr with
      | Some _ => Throw LogicError
      | None =>
          match tee_nonces t !! addr with
          | Some _ => Throw LogicError
          | None =>
              Ok (mkTee (<[addr := kp]> (privateKey t)) (Some addr) (<[addr := 0]> (tee_balances t)) (<[addr := 0]> (tee_nonces t)), addr)
          end
      end
  end.

End tee.

(** ** Tables *)

Record State `{EthTx.Secp256k1} := mkState {
  privacys : gmap (list Z) PrivacyPolicyTransaction;
  privacy_digests : gmap Z (list Z);
  cloak_policys : gmap (list Z) CloakPolicyTransaction;
  cloak_digests : gmap Z (list Z);
  states_digests : gmap (list Z) (list Z);
  tee : Tee;
  eth : EthState.EthereumState;
  draws : nat
}.

Class External `{Agent} := {
  parse_policy : list Z -> result Policy;
  parse_params : list Z -> result MultiPartyParams;
  service_addr : result Z;
  current_chain_id : Z;
  execute_mpt : nat -> EthState.EthereumState -> CloakPolicyTransaction -> Z -> list (list Z) -> option (result (EthState.EthereumState * CloakPolicyTransaction * list Z));
  entropy : nat -> list Z
}.

Section generator.
Context {Curve : EthTx.Secp256k1} {Ag : Agent} {Ext : External}.

Definition put_privacy (h : list Z) (tc : PrivacyPolicyTransaction) (s : State) : State :=
  mkState _ (<[h := tc]> (privacys s)) (<[pto tc := h]> (privacy_digests s)) (cloak_policys s) (cloak_digests s) (states_digests s) (tee s) (eth s) (draws s).
Definition put_policy (h : list Z) (c : CloakPolicyTransaction) (s : State) : State :=
  mkState _ (privacys s) (privacy_digests s) (<[h := c]> (cloak_policys s)) (cloak_digests s) (states_digests s) (tee s) (eth s) (draws s).
Definition put_cloak_digest (a : Z) (h : list Z) (s : State) : State :=
  mkState _ (privacys s) (privacy_digests s) (cloak_policys s) (<[a := h]> (cloak_digests s)) (states_digests s) (tee s) (eth s) (draws s).
Definition put_states_digest (h d : list Z) (s : State) : State :=
  mkState _ (privacys s) (privacy_digests s) (cloak_policys s) (cloak_digests s) (<[h := d]> (states_digests s)) (tee s) (eth s) (draws s).
Definition set_tee (t : Tee) (s : State) : State :=
  mkState _ (privacys s) (privacy_digests s) (cloak_policys s) (cloak_digests s) (states_digests s) t (eth s) (draws s).
Definition set_eth (e : EthState.EthereumState) (s : State) : State :=
  mkState _ (privacys s) (privacy_digests s) (cloak_policys s) (cloak_digests s) (states_digests s) (tee s) e (draws s).
Definition set_draws (n : nat) (s : State) : State :=
  mkState _ (privacys s) (privacy_digests s) (cloak_policys s) (cloak_digests s) (states_digests s) (tee s) (eth s) n.

Definition get_policy (h : list Z) (s : State) : result CloakPolicyTransaction :=
  match cloak_policys s !! h with Some c => Ok c | None => Throw TransactionException end.

(** ** Policies *)

Definition add_privacy (encoded : list Z) (s : State) : result (State * list Z) :=
  '(t, g) ← EthTx.privacy_signed_decode encoded;
  '(to_, verifier, code_hash) ← EthTx.to_transaction t;
  pol ← parse_policy (EthTx.p_data t);
  from_ ← EthTx.signatureAndVerify current_chain_id g (EthTx.privacy_to_be_signed current_chain_id t g);
  let hash := Keccak.keccak256 (EthTx.p_data t) in
  match privacy_digests s !! to_ with
  | Some _ => Throw TransactionException
  | None => Ok (put_privacy hash (mkPpt from_ to_ verifier code_hash pol) s, hash)
  end.

Definition check_privacy_modules (to_ : Z) (s : State) : result (list Z * PrivacyPolicyTransaction) :=
  match privacy_digests s !! to_ with
  | None => Throw TransactionException
  | Some h => match privacys s !! h with None => Throw TransactionException | Some p => Ok (h, p) end
  end.

(** ** Signed transactions *)

(** [MessageCall(from, to, data)] *)
Definition message_call (from_ to_ : Z) (data : list Z) : EthTx.MessageCall := EthTx.mkCall from_ (Some to_) 5006112 0 0 (to_hex_string data).

(** Sign with the key and the nonce of the account, which is then incremented. *)
Definition send_signed (digest : list Z) (acc : Z) (packed : list Z) (s : State) : result (State * list SyncStateResponse) :=
  service ← service_addr;
  kp ← get_tee_kp acc (tee s);
  signed ← EthTx.sign_eth_tx current_chain_id kp (message_call acc service packed) (tee_nonce acc (tee s));
  Ok (set_tee (tee_increment_nonce acc (tee s)) s, [mkResponse digest signed None None]).

Definition propose (digest : list Z) (c : CloakPolicyTransaction) (acc : Z) (s : State) : result (State * list SyncStateResponse) :=
  packed ← packedPropose digest c;
  send_signed digest acc packed s.

Definition request_old_state (digest : list Z) (c : CloakPolicyTransaction) (acc : Z) : result (CloakPolicyTransaction * list SyncStateResponse) :=
  let c := set_status REQUESTING_OLD_STATES c in
  data ← get_states_call_data true c;
  Ok (c, [mkResponse digest data (Some acc) (Some (verifierAddr c))]).

Definition get_proof (c : CloakPolicyTransaction) (digest : list Z) (s : State) : result (list (list Z)) :=
  match privacy_digests s !! to c with
  | None => Throw TransactionException
  | Some p =>
      match states_digests s !! digest with
      | None => Throw TransactionException
      | Some d => Ok [codeHash c; hex_str p; hex_str d]
      end
  end.

(** The call data of set_states and of complete *)
Definition pack_result (digest : list Z) (c : CloakPolicyTransaction) (encrypted : list (list Z)) (s : State) : result (list Z) :=
  len ← get_states_return_len true c;
  read ← get_states_read c;
  e ← add_inputs (str "read") (str "bytes[]") (JArr (map JStr read)) (make_bytes_array 0 []) (new_encoder (str "set_states"));
  e ← add_inputs (str "old_states_len") (str "uint256") (JStr (to_hex_string_u64 len)) (number_type 256 false) e;
  e ← add_inputs (str "data") (str "bytes[]") (JArr (map JStr encrypted)) (make_bytes_array 0 []) e;
  proof ← get_proof c digest s;
  e ← add_inputs (str "proof") (str "uint256[]") (JArr (map JStr proof)) (make_number_array false 256 []) e;
  packed ← encodeWithSignatrue e;
  e ← add_inputs (str "txid") (str "uint256") (JStr (hex_str digest)) (number_type 256 false) (new_encoder (str "complete"));
  e ← add_inputs (str "data") (str "bytes") (JStr (to_hex_string packed)) (common_type (str "bytes") 0) e;
  e ← add_inputs (str "returnCommit") (str "bytes") (JStr (to_hex_string (raw_outputs (function c)))) (common_type (str "bytes") 0) e;
  encodeWithSignatrue e.

Definition sync_result (fuel : nat) (digest : list Z) (c : CloakPolicyTransaction) (acc : Z) (new_states_ : list Z) (s : State) :
  option (result (State * CloakPolicyTransaction * list SyncStateResponse)) :=
  (new_states <~ Some (decode_bytes_array new_states_);
   kp <~ Some (get_tee_kp acc (tee s));
   '(encrypted, n) <~ encrypt_states entropy fuel kp new_states (draws s) c;
   let s := set_draws n s in
   Some (
     packed ← pack_result digest c encrypted s;
     '(s, out) ← send_signed digest acc packed s;
     Ok (s, set_status SYNCING c, out)))%fuel.

(** ** Requests *)

Definition add_cloakTransaction (encoded : list Z) (s : State) : result (State * list SyncStateResponse * list Z) :=
  '(t, g) ← EthTx.cloak_signed_decode encoded;
  p ← parse_params (EthTx.c_data t);
  '(to_, nonce, from_, pk) ← EthTx.cloak_to_transaction_call current_chain_id t g;
  let mpt := mkMpt nonce to_ from_ pk p in
  let multi_digest := EthTx.cloak_digest t g in
  existing ← check_transaction_type mpt;
  if (existing : bool) then
    target ← from_hex_bytes (mto mpt);
    c ← get_policy target s;
    if negb (bool_decide (status c = PENDING)) then Throw TransactionException
    else
      c ← set_content mpt c;
      let s := put_policy target c s in
      if complete (function c) then acc ← tee_get (tee s); '(s, out) ← propose target c acc s; Ok (s, out, target)
      else Ok (s, [], target)
  else
    a ← from_big_endian (mto mpt) 20;
    '(_, ppt) ← check_privacy_modules a s;
    let '(e, r) := EthState.get (mfrom mpt) (EthState.with_cache ∅ (eth s)) in
    _ ← r;
    let s := set_eth e s in
    if mnonce mpt <? EthState.get_nonce (mfrom mpt) e then Throw TransactionException
    else
      c ← new_cpt ppt (function_ (params mpt));
      c ← set_content mpt (set_from (mfrom mpt) c);
      let s := put_cloak_digest a multi_digest (put_policy multi_digest c s) in
      if complete (function c) then acc ← tee_get (tee s); '(s, out) ← propose multi_digest c acc s; Ok (s, out, multi_digest)
      else Ok (s, [], multi_digest).

Definition sync_report (id result_ : list Z) (s : State) : result State :=
  c ← get_policy id s;
  Ok (put_policy id (set_status (if bool_decide (result_ = str "SYNCED") then SYNCED else SYNC_FAILED) c) s).

Definition sync_propose (id : list Z) (success : bool) (s : State) : result (State * list SyncStateResponse) :=
  c ← get_policy id s;
  if success then acc ← tee_get (tee s); '(c, out) ← request_old_state id c acc; Ok (put_policy id c s, out)
  else Ok (put_policy id (set_status DROPPED c) s, []).

(** [public_keys[requested_addresses[i]] = public_key_list[i]] *)
Fixpoint zip_keys (requested list_ : list (list Z)) (m : list (list Z * list Z)) : result (list (list Z * list Z)) :=
  match requested, list_ with
  | [], _ => Ok m
  | _ :: _, [] => Undef
  | a :: requested, k :: list_ => zip_keys requested list_ (map_put a k m)
  end.

Definition sync_public_keys (fuel : nat) (id data : list Z) (s : State) : option (result (State * list SyncStateResponse)) :=
  (c <~ Some (get_policy id s);
   keys <~ Some (decode_bytes_array (to_bytes data));
   keys <~ Some (zip_keys (requested_addresses c) keys []);
   let c := set_public_keys keys c in
   acc <~ Some (tee_get (tee s));
   kp <~ Some (get_tee_kp acc (tee s));
   decrypted <~ decrypt_states fuel kp c;
   '(e, c, new_states) <~ execute_mpt fuel (eth s) c acc decrypted;
   '(s, c, out) <~ sync_result fuel id c acc new_states (set_eth e s);
   Some (Ok (put_policy id c s, out)))%fuel.

Definition sync_states (fuel : nat) (id data : list Z) (s : State) : option (result (State * list SyncStateResponse)) :=
  (c <~ Some (get_policy id s);
   let data := to_bytes data in
   old <~ Some (decode_bytes_array data);
   let s := put_states_digest id (Keccak.keccak256 data) s in
   if negb (complete (function c)) then Some (Throw TransactionException)
   else
     let c := set_old_states old c in
     acc <~ Some (tee_get (tee s));
     service <~ Some service_addr;
     '(requested, c, out) <~ request_public_keys fuel id acc (get_tee_kp acc (tee s)) service c;
     if (requested : bool) then Some (Ok (put_policy id c s, out))
     else
       '(e, c, new_states) <~ execute_mpt fuel (eth s) c acc old;
       '(s, c, out) <~ sync_result fuel id c acc new_states (set_eth e s);
       Some (Ok (put_policy id c s, out)))%fuel.

Inductive request :=
  | ReqPrivacy (encoded : list Z)
  | ReqCloak (encoded : list Z)
  | ReqReport (id result_ : list Z)
  | ReqPropose (id : list Z) (success : bool)
  | ReqKeys (id data : list Z)
  | ReqStates (id data : list Z).

(** The endpoints of app/rpc/user_frontend.h that reach the generator *)
Definition handle (fuel : nat) (r : request) (s : State) : option (result (State * list SyncStateResponse)) :=
  match r with
  | ReqPrivacy b => Some ('(s, _) ← add_privacy b s; Ok (s, []))
  | ReqCloak b => Some ('(s, out, _) ← add_cloakTransaction b s; Ok (s, out))
  | ReqReport id x => Some (s ← sync_report id x s; Ok (s, []))
  | ReqPropose id b => Some (sync_propose id b s)
  | ReqKeys id d => sync_public_keys fuel id d s
  | ReqStates id d => sync_states fuel id d s
  end.

(** The status and the outputs of a transaction *)
Definition get_mpt (id : list Z) (s : State) : result (Status * list Z) :=
  match cloak_policys s !! id with
  | None => Throw LogicError
  | Some c => Ok (status c, to_hex_string (raw_outputs (function c)))
  end.

(** ** The heartbeat *)

(** What leaves the enclave: a message of the log, or [Web3Msg::send] with the
    signed transaction, the contract and the keys. *)
Inductive emitted := Log (r : SyncStateResponse) | Web3Send (signed : list Z) (contract_address : Z) (keys : list (list Z)).

(** [std::multimap::emplace]: after the entries with the same key. *)
Fixpoint multimap_emplace (k : Z) (v : Z * Z) (l : list (Z * (Z * Z))) : list (Z * (Z * Z)) :=
  match l with
  | [] => [(k, v)]
  | e :: l => if k <? e.1 then (k, v) :: e :: l else e :: multimap_emplace k v l
  end.

(** The call data of updateState for the proxy [contract_address]. *)
Definition update_state_data (contract_address proof : Z) (old_states : list Z) (keys vals : list (list Z)) : result (list Z) :=
  let proof := to_big_endian proof ++ old_states in
  e ← add_inputs (str "proof") (str "bytes32") (JStr (hex_str (Keccak.keccak256 proof))) (common_type (str "bytes") 32) (new_encoder (str "updateState"));
  e ← add_inputs (str "keys") (str "bytes32[]") (JArr (map JStr keys)) (make_number_array false 256 []) e;
  e ← add_inputs (str "values") (str "bytes32[]") (JArr (map JStr vals)) (make_number_array false 256 []) e;
  e1 ← add_inputs (str "proxy") (str "address[]") (JArr [JStr (to_hex_string_u256 contract_address)]) (make_common_array (str "address") []) (new_encoder (str "updateState"));
  packed ← encodeWithSignatrue e;
  e1 ← add_inputs (str "data") (str "bytes[]") (JArr [JStr (to_hex_string packed)]) (make_bytes_array 0 []) e1;
  encodeWithSignatrue e1.

(** [order] is the order in which the pending keys are visited, [service] is
    [config.service], [proofs] the table of proofs.  The exception of
    [make_account] is caught, and the account that is missing then is a null
    pointer. *)
Definition heart_beat (order : list EthState.StorageKey) (service : Z) (proofs : gmap Z Z) (s : State) : result (State * list emitted) :=
  match EthState.sync_states order (eth s) with
  | (_, Throw e) => Throw e
  | (_, Undef) => Undef
  | (e, Ok (entries, old_states)) =>
      let states := foldl (fun m x => multimap_emplace x.1 x.2 m) [] entries in
      match states with
      | [] => Ok (s, [])
      | (contract_address, _) :: _ =>
          let keys := map (fun x => to_hex_string_u256 x.2.1) states in
          let vals := map (fun x => to_hex_string_u256 x.2.2) states in
          packed ← update_state_data contract_address (default 0 (proofs !! contract_address)) old_states keys vals;
          match tee_get (tee s) with
          | Ok acc =>
              kp ← get_tee_kp acc (tee s);
              signed ← EthTx.sign_eth_tx current_chain_id kp (message_call 0 service packed) (tee_nonce acc (tee s));
              Ok (set_tee (tee_increment_nonce acc (tee s)) (set_eth e s), [Web3Send signed contract_address keys])
          | _ => Undef
          end
      end
  end.

(** ** Runs *)

Inductive event :=
  | Request (fuel : nat) (r : request)
  | HeartBeat (order : list EthState.StorageKey) (service : Z) (proofs : gmap Z Z).

Definition run_event (ev : event) (s : State) : option (result (State * list emitted)) :=
  match ev with
  | Request fuel r => ('(s, out) <~ handle fuel r s; Some (Ok (s, map Log out)))%fuel
  | HeartBeat order service proofs => Some (heart_beat order service proofs s)
  end.

(** Events one after the other, each in a transaction, with what they emit and
    whether their transaction was committed.  An event that throws emits nothing
    and changes nothing. *)
Inductive steps : State -> list (bool * emitted) -> State -> Prop :=
  | steps_refl s : steps s [] s
  | steps_ok s1 l1 s2 ev s3 l2 : steps s1 l1 s2 -> run_event ev s2 = Some (Ok (s3, l2)) -> steps s1 (l1 ++ map (pair true) l2) s3
  | steps_lost s1 l1 s2 ev s3 l2 : steps s1 l1 s2 -> run_event ev s2 = Some (Ok (s3, l2)) -> steps s1 (l1 ++ map (pair false) l2) s2.

(** ** Properties *)

#[local] Opaque add_inputs encodeWithSignatrue make_bytes_array make_common_array make_number_array number_type common_type Keccak.keccak256.

Lemma fbind_ok {A B} (m : option (result A)) (f : A -> option (result B)) b :
  fbind m f = Some (Ok b) -> exists a, m = Some (Ok a) /\ f a = Some (Ok b).
Proof. destruct m as [[a| |]|]; cbn; try discriminate. by exists a. Qed.

(** Take a successful computation apart. *)
Ltac inv_ok H :=
  repeat (progress cbv beta zeta in H || match type of H with
  | fbind _ _ = Some (Ok _) => let x := fresh "x" in let E := fresh "E" in apply fbind_ok in H as (x & E & H); try apply (inj Some) in E
  | Some _ = Some _ => apply (inj Some) in H
  | (_ ≫= _) = Ok _ => let x := fresh "x" in let E := fresh "E" in apply bind_ok in H as (x & E & H)
  | match ?p with (_, _) => _ end = _ => destruct p
  end).

(** *** Nonces *)

Definition is_signed (r : SyncStateResponse) : bool := match rfrom r with None => true | Some _ => false end.

(** A step either signs nothing or signs one transaction with the next nonce. *)
Definition signs_next (a : Z) (kp : EthTx.KeyPair) (t t' : Tee) (out : list SyncStateResponse) : Prop :=
  (t' = t /\ List.filter is_signed out = []) \/
  (t' = tee_increment_nonce a t /\ exists digest packed service signed, out = [mkResponse digest signed None None] /\
     EthTx.sign_eth_tx current_chain_id kp (message_call a service packed) (tee_nonce a t) = Ok signed).

Lemma send_signed_next digest a kp packed s s' out : privateKey (tee s) !! a = Some kp -> send_signed digest a packed s = Ok (s', out) -> signs_next a kp (tee s) (tee s') out.
Proof.
  intros Hk E. unfold send_signed in E. inv_ok E. unfold get_tee_kp in E1. rewrite Hk in E1. injection E1 as <-. injection E as <- <-.
  right. split; [done|]. by eexists _, _, _, _.
Qed.

Lemma tee_get_addr t a x : publicAddr t = Some a -> tee_get t = Ok x -> x = a.
Proof. unfold tee_get. intros ->. by intros [= ->]. Qed.

Lemma request_public_keys_unsigned fuel id acc kp service c b c' out : request_public_keys fuel id acc kp service c = Some (Ok (b, c', out)) -> List.filter is_signed out = [].
Proof.
  unfold request_public_keys. intros E. inv_ok E. destruct l; [destruct b0|]; inv_ok E; by injection E as _ _ <-.
Qed.

Lemma sync_result_next fuel id c a kp new s s' c' out : privateKey (tee s) !! a = Some kp -> sync_result fuel id c a new s = Some (Ok (s', c', out)) -> signs_next a kp (tee s) (tee s') out.
Proof.
  intros Hk E. unfold sync_result in E. inv_ok E. injection E as <- _ <-. match goal with H : send_signed _ _ _ ?s1 = Ok _ |- _ => exact (send_signed_next _ _ _ _ s1 _ _ Hk H) end.
Qed.

Lemma propose_next digest c x a kp s s' out : publicAddr (tee s) = Some a -> privateKey (tee s) !! a = Some kp ->
  tee_get (tee s) = Ok x -> propose digest c x s = Ok (s', out) -> signs_next a kp (tee s) (tee s') out.
Proof. intros Ha Hk Hx E. rewrite (tee_get_addr _ _ _ Ha Hx) in E. unfold propose in E. inv_ok E. by eapply send_signed_next. Qed.

Lemma add_cloak_next b s s' out id a kp : publicAddr (tee s) = Some a -> privateKey (tee s) !! a = Some kp ->
  add_cloakTransaction b s = Ok (s', out, id) -> signs_next a kp (tee s) (tee s') out.
Proof.
  intros Ha Hk E. unfold add_cloakTransaction in E. inv_ok E. match goal with H : check_transaction_type _ = Ok ?x |- _ => destruct x end.
  - inv_ok E. destruct (negb _); [done|]. inv_ok E. destruct (complete _); inv_ok E; injection E as <- <- _; [|by left].
    match goal with Hx : tee_get _ = Ok ?x, H : propose _ _ ?x ?s1 = Ok _ |- _ => exact (propose_next _ _ _ _ _ s1 _ _ Ha Hk Hx H) end.
  - inv_ok E. destruct (_ <? _); [done|]. inv_ok E. destruct (complete _); inv_ok E; injection E as <- <- _; [|by left].
    match goal with Hx : tee_get _ = Ok ?x, H : propose _ _ ?x ?s1 = Ok _ |- _ => exact (propose_next _ _ _ _ _ s1 _ _ Ha Hk Hx H) end.
Qed.

Lemma handle_next fuel r s s' out a kp : publicAddr (tee s) = Some a -> privateKey (tee s) !! a = Some kp -> handle fuel r s = Some (Ok (s', out)) -> signs_next a kp (tee s) (tee s') out.
Proof.
  intros Ha Hk E. destruct r as [b|b|id x|id b|id d|id d]; cbn [handle] in E.
  - inv_ok E. injection E as <- <-. left. split; [|done]. unfold add_privacy in E0. inv_ok E0. destruct (privacy_digests _ !! _); [done|]. by injection E0 as <- _.
  - inv_ok E. injection E as <- <-. by eapply add_cloak_next.
  - inv_ok E. injection E as <- <-. unfold sync_report in E0. inv_ok E0. injection E0 as <-. by left.
  - inv_ok E. unfold sync_propose in E. inv_ok E. destruct b; [|injection E as <- <-; by left]. inv_ok E. injection E as <- <-.
    match goal with H : request_old_state _ _ _ = _ |- _ => unfold request_old_state in H; inv_ok H; injection H as <- <- end. by left.
  - unfold sync_public_keys in E. inv_ok E. injection E as <- <-. pose proof (tee_get_addr _ _ _ Ha ltac:(eassumption)) as ->.
    match goal with H : sync_result _ _ _ _ _ ?s1 = _ |- _ => exact (sync_result_next _ _ _ _ _ _ s1 _ _ _ Hk H) end.
  - unfold sync_states in E. inv_ok E. destruct (negb _); [done|]. inv_ok E. destruct b.
    + inv_ok E. injection E as <- <-. left. split; [done|]. by eapply request_public_keys_unsigned.
    + inv_ok E. injection E as <- <-. pose proof (tee_get_addr (tee s) _ _ Ha ltac:(eassumption)) as ->.
      match goal with H : sync_result _ _ _ _ _ ?s1 = _ |- _ => exact (sync_result_next _ _ _ _ _ _ s1 _ _ _ Hk H) end.
Qed.

(** The transactions for the chain among what is emitted. *)
Definition signed_of (e : emitted) : option (list Z) :=
  match e with Log r => if is_signed r then Some (rdata r) else None | Web3Send signed _ _ => Some signed end.
Definition signed (l : list (bool * emitted)) : list (bool * list Z) := omap (fun x => pair x.1 <$> signed_of x.2) l.
(** The number of those whose transaction was committed. *)
Definition committed (l : list (bool * list Z)) : Z := zlen (List.filter fst l).

(** An event signs at most one transaction, with the nonce of the account, which
    is then incremented. *)
Lemma event_next ev s s' out a kp : publicAddr (tee s) = Some a -> privateKey (tee s) !! a = Some kp -> run_event ev s = Some (Ok (s', out)) ->
  (tee s' = tee s /\ omap signed_of out = []) \/
  (tee s' = tee_increment_nonce a (tee s) /\ exists d from_ service packed, omap signed_of out = [d] /\
     EthTx.sign_eth_tx current_chain_id kp (message_call from_ service packed) (tee_nonce a (tee s)) = Ok d).
Proof.
  intros Ha Hk E. destruct ev as [fuel r|order service proofs]; cbn [run_event] in E.
  - inv_ok E. injection E as <- <-. assert (forall l, omap signed_of (map Log l) = rdata <$> List.filter is_signed l) as Hl.
    { intros out. induction out as [|x out IH]; [done|]. cbn. destruct (is_signed x); cbn; by rewrite IH. }
    rewrite Hl. destruct (handle_next _ _ _ _ _ _ _ Ha Hk ltac:(eassumption)) as [[H1 H2]|(H1 & digest & packed & service & d & -> & Hsig)]; [left; by rewrite H1, H2|].
    right. split; [done|]. by exists d, a, service, packed.
  - apply (inj Some) in E. unfold heart_beat in E. destruct (EthState.sync_states order (eth s)) as [e [[entries old]|x|]]; try done.
    destruct (foldl _ _ _) as [|[c v] states]; [injection E as <- <-; by left|]. inv_ok E. unfold tee_get in E. rewrite Ha in E. inv_ok E.
    unfold get_tee_kp in E1. rewrite Hk in E1. injection E1 as <-. injection E as <- <-. right. split; [done|]. by eexists _, 0, _, _.
Qed.

Lemma signed_map b out : signed (map (pair b) out) = pair b <$> omap signed_of out.
Proof. induction out as [|x out IH]; [done|]. unfold signed in *. cbn. destruct (signed_of x); cbn; by rewrite IH. Qed.
Lemma signed_app l l' : signed (l ++ l') = signed l ++ signed l'.
Proof. apply omap_app. Qed.
Lemma committed_app l l' : committed (l ++ l') = committed l + committed l'.
Proof. unfold committed. rewrite List.filter_app, length_app. lia. Qed.
Lemma committed_le l : 0 <= committed (signed l) <= zlen l.
Proof. unfold committed, signed. induction l as [|[b x] l IH]; [cbn; lia|]. cbn [omap list_omap fst snd]. destruct (signed_of x); destruct b; cbn [fmap option_fmap option_map List.filter fst length] in *; lia. Qed.

Lemma steps_nonces s l s' a kp n : steps s l s' -> publicAddr (tee s) = Some a -> privateKey (tee s) !! a = Some kp ->
  tee_nonce a (tee s) = n -> 0 <= n -> n + zlen l < M64 ->
  (publicAddr (tee s') = Some a /\ privateKey (tee s') !! a = Some kp) /\ tee_nonce a (tee s') = n + committed (signed l) /\
  forall k b d, signed l !! k = Some (b, d) ->
    exists from_ service packed, EthTx.sign_eth_tx current_chain_id kp (message_call from_ service packed) (n + committed (take k (signed l))) = Ok d.
Proof.
  intros Hst Ha Hk <- H0 Hn.
  assert (forall l1 s2 l2 s3 ev b, publicAddr (tee s2) = Some a -> privateKey (tee s2) !! a = Some kp -> tee_nonce a (tee s2) = tee_nonce a (tee s) + committed (signed l1) ->
    run_event ev s2 = Some (Ok (s3, l2)) -> forall k, (length (signed l1) <= k)%nat -> forall b' d, signed (map (pair b) l2) !! (k - length (signed l1))%nat = Some (b', d) ->
    exists from_ service packed, EthTx.sign_eth_tx current_chain_id kp (message_call from_ service packed) (tee_nonce a (tee s) + committed (take k (signed l1 ++ signed (map (pair b) l2)))) = Ok d) as Hnew.
  { intros l1 s2 l2 s3 ev b Ha2 Hk2 Hn2 E k Hlen b' d Hx. rewrite signed_map in *.
    destruct (event_next _ _ _ _ _ _ Ha2 Hk2 E) as [[_ H]|(_ & d' & f & service & packed & H & Hsig)]; rewrite H in *; [done|].
    destruct (k - length (signed l1))%nat as [|j] eqn:Ej; [|by destruct j]. injection Hx as _ <-. exists f, service, packed.
    rewrite take_app_length' by lia. by rewrite <- Hn2. }
  induction Hst as [s|s1 l1 s2 ev s3 l2 _ IH E|s1 l1 s2 ev s3 l2 _ IH E].
  { unfold committed, signed. cbn. rewrite Z.add_0_r. by split_and!. }
  all: rewrite length_app, length_map in Hn; destruct (IH Ha Hk H0 ltac:(lia) Hnew) as ([Ha2 Hk2] & Hn2 & Hs2); clear IH.
  all: rewrite signed_app.
  all: rewrite committed_app; pose proof (committed_le l1) as Hle.
  - assert (tee_nonce a (tee s3) = tee_nonce a (tee s2) + committed (signed (map (pair true) l2)) /\ publicAddr (tee s3) = publicAddr (tee s2) /\ privateKey (tee s3) = privateKey (tee s2)) as (Hn3 & -> & ->).
    { rewrite signed_map. destruct (event_next _ _ _ _ _ _ Ha2 Hk2 E) as [[-> ->]|(-> & d & f & service & packed & Hout & _)]; [unfold committed; cbn; split_and!; [lia|done|done]|].
      assert (0 < zlen l2) by (destruct l2; [done | cbn [length]; lia]). rewrite Hout. split_and!; [|done|done].
      unfold committed. cbn [fmap list_fmap List.filter fst length]. unfold tee_nonce at 1. cbn [tee_nonces tee_increment_nonce]. rewrite lookup_insert_eq. cbn [default from_option id].
      rewrite Hn2. rewrite wrap64_small by (split; lia). lia. }
    split; [done|]. split; [lia|]. intros k b d Hx. apply lookup_app_Some in Hx as [Hx|[Hlen Hx]]; [|by eapply Hnew].
    rewrite take_app_le by (apply lookup_lt_Some in Hx; lia). by eapply Hs2.
  - assert (committed (signed (map (pair false) l2)) = 0) as -> by (rewrite signed_map; unfold committed; by induction (omap signed_of l2)).
    split; [done|]. split; [lia|]. intros k b d Hx. apply lookup_app_Some in Hx as [Hx|[Hlen Hx]]; [|by eapply Hnew].
    rewrite take_app_le by (apply lookup_lt_Some in Hx; lia). by eapply Hs2.
Qed.

Lemma committed_all l k : Forall (fun x => x.1 = true) l -> (k <= length l)%nat -> committed (take k l) = Z.of_nat k.
Proof.
  intros Hl. revert k. induction Hl as [|[b d] l Hb _ IH]; intros [|k] Hk; cbn [take length] in *; [done | lia | done |]. cbn in Hb. subst b.
  specialize (IH k ltac:(lia)). unfold committed in *. cbn [List.filter fst length]. lia.
Qed.

(** C21. The nonces under which the enclave signs transactions for the chain, in
    any run of requests and heartbeats with the account prepared and the nonce
    below 2^64: each is signed with its key under the
    nonce at the start plus the number of signing transactions that were
    committed before.  So if all are committed, the k-th has the k-th nonce, none
    is used twice and none is left out; if one is not committed, because of a
    conflict that makes it run again or is not noticed, its message is out all
    the same, and the next one is signed under the same nonce. *)
Theorem nonces_in_sequence s l s' a kp :
  steps s l s' -> publicAddr (tee s) = Some a -> privateKey (tee s) !! a = Some kp -> 0 <= tee_nonce a (tee s) -> tee_nonce a (tee s) + zlen l < M64 ->
  publicAddr (tee s') = Some a /\ tee_nonce a (tee s') = tee_nonce a (tee s) + committed (signed l) /\
  (forall k b d, signed l !! k = Some (b, d) -> exists from_ service packed,
     EthTx.sign_eth_tx current_chain_id kp (message_call from_ service packed) (tee_nonce a (tee s) + committed (take k (signed l))) = Ok d) /\
  (Forall (fun x => x.1 = true) (signed l) -> forall k b d, signed l !! k = Some (b, d) -> exists from_ service packed,
     EthTx.sign_eth_tx current_chain_id kp (message_call from_ service packed) (tee_nonce a (tee s) + Z.of_nat k) = Ok d) /\
  (forall k d b d', signed l !! k = Some (false, d) -> signed l !! Datatypes.S k = Some (b, d') -> exists n from_ service packed from_' service' packed',
     EthTx.sign_eth_tx current_chain_id kp (message_call from_ service packed) n = Ok d /\
     EthTx.sign_eth_tx current_chain_id kp (message_call from_' service' packed') n = Ok d').
Proof.
  intros Hst Ha Hk H0 Hn. destruct (steps_nonces s l s' a kp _ Hst Ha Hk eq_refl H0 Hn) as ([H1 _] & H2 & H3). split_and!; [done | done | done | |].
  - intros Hall k b d Hx. pose proof (lookup_lt_Some _ _ _ Hx). rewrite <- (committed_all (signed l) k Hall) by lia. by eapply H3.
  - intros k d b d' Hx Hx'. destruct (H3 _ _ _ Hx) as (f & sv & p & Hs). destruct (H3 _ _ _ Hx') as (f' & sv' & p' & Hs').
    rewrite (take_S_r _ _ _ Hx), committed_app in Hs'. change (committed [(false, d)]) with 0 in Hs'. rewrite Z.add_0_r in Hs'. exists (tee_nonce a (tee s) + committed (take k (signed l))), f, sv, p, f', sv', p'. split; [exact Hs | exact Hs'].
Qed.

(** *** Records *)

(** What the parties agreed on. *)
Definition same_deal (c c' : CloakPolicyTransaction) : Prop :=
  from c' = from c /\ to c' = to c /\ verifierAddr c' = verifierAddr c /\ codeHash c' = codeHash c /\ cstates c' = cstates c /\
  (complete (function c) = true -> inputs (function c') = inputs (function c)).

(** How a request changes the status of the record it names. *)
Inductive edge : request -> list Z -> Status -> Status -> Prop :=
  | edge_input b id : edge (ReqCloak b) id PENDING PENDING
  | edge_report id x st : edge (ReqReport id x) id st (if bool_decide (x = str "SYNCED") then SYNCED else SYNC_FAILED)
  | edge_accepted id st : edge (ReqPropose id true) id st REQUESTING_OLD_STATES
  | edge_dropped id st : edge (ReqPropose id false) id st DROPPED
  | edge_waiting id d st : edge (ReqStates id d) id st st.

(** The request lets [execute_mpt] work on the record, with the deal as it was,
    and keeps the record that it gives, as one that is syncing. *)
Definition executed (fuel : nat) (r : request) (s : State) (id : list Z) (c c' : CloakPolicyTransaction) : Prop :=
  (exists d, r = ReqKeys id d \/ r = ReqStates id d) /\
  exists c1 acc old e c2 new, same_deal c c1 /\ status c1 = status c /\
    execute_mpt fuel (eth s) c1 acc old = Some (Ok (e, c2, new)) /\ c' = set_status SYNCING c2.

(** A request writes one record: a new one, or a step of an old one. *)
Definition writes (fuel : nat) (r : request) (s : State) (id : list Z) (c' : CloakPolicyTransaction) : Prop :=
  (exists b t g, r = ReqCloak b /\ EthTx.cloak_signed_decode b = Ok (t, g) /\ zlen (EthTx.c_to t) = 20 /\ id = EthTx.cloak_digest t g /\ status c' = PENDING /\ old_states c' = []) \/
  (exists c, cloak_policys s !! id = Some c /\ ((same_deal c c' /\ edge r id (status c) (status c')) \/ executed fuel r s id c c')).

(** The tables of the workflow, apart from the account of the enclave. *)
Definition frame (s s' : State) : Prop :=
  privacys s' = privacys s /\ privacy_digests s' = privacy_digests s /\ cloak_policys s' = cloak_policys s.

Lemma send_signed_frame digest a packed s s' out : send_signed digest a packed s = Ok (s', out) -> frame s s'.
Proof. intros E. unfold send_signed in E. inv_ok E. by injection E as <- <-. Qed.

Lemma sync_result_frame fuel id c a new s s' c' out : sync_result fuel id c a new s = Some (Ok (s', c', out)) -> frame s s' /\ c' = set_status SYNCING c.
Proof.
  intros E. unfold sync_result in E. inv_ok E. injection E as <- <- <-. split; [|done]. match goal with H : send_signed _ _ _ _ = _ |- _ => exact (send_signed_frame _ _ _ _ _ _ H) end.
Qed.

Lemma request_public_keys_keeps fuel id acc kp service c b c' out : request_public_keys fuel id acc kp service c = Some (Ok (b, c', out)) -> same_deal c c' /\ status c' = status c.
Proof.
  unfold request_public_keys. intros E. inv_ok E. destruct l; [destruct b0|]; inv_ok E; injection E as _ <- _; repeat split.
Qed.

Lemma set_content_keeps m c c' : set_content m c = Ok c' -> same_deal c c' /\ status c' = status c /\ old_states c' = old_states c.
Proof.
  unfold set_content. intros E. inv_ok E. injection E as <-. split; [|done]. unfold same_deal. cbn. split_and!; try done. intros Hc.
  match goal with H : padding_all _ _ = _ |- _ => by rewrite (padding_all_complete _ _ _ Hc H) end.
Qed.

Lemma get_policy_some id s c : get_policy id s = Ok c -> cloak_policys s !! id = Some c.
Proof. unfold get_policy. destruct (cloak_policys s !! id); [|done]. by intros [= ->]. Qed.

(** The record that a multi-party transaction writes is there when it is proposed. *)
Lemma propose_frame digest c x s s' out : propose digest c x s = Ok (s', out) -> frame s s'.
Proof. intros E. unfold propose in E. inv_ok E. by eapply send_signed_frame. Qed.

Lemma cloak_call_to t g a n f k : EthTx.cloak_to_transaction_call current_chain_id t g = Ok (a, n, f, k) -> a = EthTx.c_to t.
Proof. unfold EthTx.cloak_to_transaction_call. intros E. inv_ok E. by injection E as <- _ _ _. Qed.

Lemma add_cloak_effect fuel b s s' out id : add_cloakTransaction b s = Ok (s', out, id) ->
  privacys s' = privacys s /\ privacy_digests s' = privacy_digests s /\ exists c', cloak_policys s' = <[id := c']> (cloak_policys s) /\ writes fuel (ReqCloak b) s id c'.
Proof.
  intros E. unfold add_cloakTransaction in E. inv_ok E.
  match goal with H : EthTx.cloak_to_transaction_call _ _ _ = _ |- _ => pose proof (cloak_call_to _ _ _ _ _ _ H) as Hto end.
  match goal with H : check_transaction_type _ = Ok ?x |- _ => rename H into Hty; destruct x end.
  - inv_ok E. match goal with H : get_policy _ _ = Ok _ |- _ => apply get_policy_some in H; rename H into Hc end.
    destruct (negb _) eqn:Hp; [done|]. apply negb_false_iff, bool_decide_eq_true in Hp. inv_ok E.
    match goal with H : set_content _ _ = _ |- _ => apply set_content_keeps in H as (K1 & K2 & K3) end.
    assert (Hw : forall t, t = id -> cloak_policys s !! t = Some x1 -> writes fuel (ReqCloak b) s id x2).
    { intros t -> Ht. right. eexists. split; [exact Ht|]. left. split; [done|]. rewrite K2, Hp. constructor. }
    destruct (complete _); inv_ok E; injection E as <- <- <-; [|by split_and!; [..|exists x2; split; [|by apply Hw with x0]]].
    match goal with H : propose _ _ _ _ = Ok _ |- _ => destruct (propose_frame _ _ _ _ _ _ H) as (F1 & F2 & F3) end.
    split_and!; [done..|]. exists x2. split; [done | by apply Hw with x0].
  - inv_ok E. destruct (_ <? _); [done|]. inv_ok E. match goal with H : set_content _ _ = _ |- _ => apply set_content_keeps in H as (K1 & K2 & K3) end.
    match goal with H : new_cpt _ _ = _ |- _ => unfold new_cpt in H; inv_ok H; injection H as <- end. cbn [status old_states set_from] in K2, K3.
    assert (Hw : writes fuel (ReqCloak b) s (EthTx.cloak_digest c s0) x3).
    { left. eexists _, _, _. split; [done|]. split; [done|]. split; [|by split_and!]. rewrite <- Hto. unfold check_transaction_type in Hty. cbn [mto] in Hty. destruct (Z.eqb_spec (zlen l0) 20); [done|]. by destruct (zlen l0 =? 32). }
    destruct (complete _); inv_ok E; injection E as <- <- <-; [|by split_and!; [..|exists x3]].
    match goal with H : propose _ _ _ _ = Ok _ |- _ => destruct (propose_frame _ _ _ _ _ _ H) as (F1 & F2 & F3) end. split_and!; [done..|]. by exists x3.
Qed.

Lemma handle_effect fuel r s s' out : handle fuel r s = Some (Ok (s', out)) ->
  (exists h tc, s' = put_privacy h tc s /\ privacy_digests s !! pto tc = None) \/
  (privacys s' = privacys s /\ privacy_digests s' = privacy_digests s /\ exists id c', cloak_policys s' = <[id := c']> (cloak_policys s) /\ writes fuel r s id c').
Proof.
  intros E. destruct r as [b|b|id x|id b|id d|id d]; cbn [handle] in E.
  - inv_ok E. injection E as <- <-. left. unfold add_privacy in E0. inv_ok E0. destruct (privacy_digests _ !! _) eqn:Ed; [done|]. injection E0 as <- _. by eexists _, _.
  - inv_ok E. injection E as <- <-. right. destruct (add_cloak_effect fuel _ _ _ _ _ E0) as (H1 & H2 & c' & H3 & H4). split_and!; [done..|]. by eexists _, _.
  - inv_ok E. injection E as <- <-. right. unfold sync_report in E0. inv_ok E0. injection E0 as <-. split_and!; [done..|]. eexists _, _. split; [done|].
    right. match goal with H : get_policy _ _ = _ |- _ => apply get_policy_some in H end. eexists. split; [done|]. left. split; [by repeat split|]. apply edge_report.
  - right. unfold sync_propose in E. inv_ok E. apply get_policy_some in E0. destruct b; [inv_ok E|injection E as <- <-].
    + injection E as <- <-. match goal with H : request_old_state _ _ _ = _ |- _ => unfold request_old_state in H; inv_ok H; injection H as <- <- end.
      split_and!; [done..|]. eexists _, _. split; [done|]. right. eexists. split; [done|]. left. split; [by repeat split|]. apply edge_accepted.
    + split_and!; [done..|]. eexists _, _. split; [done|]. right. eexists. split; [done|]. left. split; [by repeat split|]. apply edge_dropped.
  - right. unfold sync_public_keys in E. inv_ok E. injection E as <- <-. apply get_policy_some in E0.
    match goal with H : sync_result _ _ _ _ _ _ = _, G : execute_mpt _ _ _ _ _ = _ |- _ => apply sync_result_frame in H as [(F1 & F2 & F3) ->]; rename G into Hex end.
    split_and!; [done..|]. eexists id, _. cbn [cloak_policys put_policy]. rewrite F3. split; [done|]. right. eexists. split; [done|]. right.
    split; [exists d; by left|]. eexists _, _, _, _, _, _. split_and!; [..|exact Hex|reflexivity]; [by repeat split | done].
  - right. unfold sync_states in E. inv_ok E. destruct (negb _); [done|]. inv_ok E. apply get_policy_some in E0.
    match goal with H : request_public_keys _ _ _ _ _ _ = _ |- _ => apply request_public_keys_keeps in H as [R1 R2] end. destruct b.
    + inv_ok E. injection E as <- <-. split_and!; [done..|]. eexists id, _. split; [done|]. right. eexists. split; [done|]. left. split; [exact R1 | rewrite R2; apply edge_waiting].
    + inv_ok E. injection E as <- <-.
      match goal with H : sync_result _ _ _ _ _ _ = _, G : execute_mpt _ _ _ _ _ = _ |- _ => apply sync_result_frame in H as [(F1 & F2 & F3) ->]; rename G into Hex end.
      split_and!; [done..|]. eexists id, _. cbn [cloak_policys put_policy]. rewrite F3. split; [done|]. right. eexists. split; [done|]. right.
      split; [exists d; by right|]. eexists _, _, _, _, _, _. split_and!; [..|exact Hex|reflexivity]; [exact R1 | exact R2].
Qed.

(** C23. What a request can do to the record of a multi-party transaction: the
    record stays; unless the request executes the transaction, who started it,
    its contract, verifier, code hash and states are those of the beginning,
    inputs that are complete do not change, and the status moves only as the
    request says.  A request that executes gives the record to [execute_mpt]
    with all this as it was, keeps the record that comes back and marks it as
    syncing.  The one exception is the transaction that made the record, sent
    again. *)
Theorem workflow_step fuel r s s' out id c :
  handle fuel r s = Some (Ok (s', out)) -> cloak_policys s !! id = Some c ->
  (forall b t g, r = ReqCloak b -> EthTx.cloak_signed_decode b = Ok (t, g) -> EthTx.cloak_digest t g <> id) ->
  exists c', cloak_policys s' !! id = Some c' /\
    ((same_deal c c' /\ (status c' = status c \/ edge r id (status c) (status c'))) \/ executed fuel r s id c c').
Proof.
  intros E Hc Hr. assert (same_deal c c) as Hrefl by (by repeat split). destruct (handle_effect _ _ _ _ _ E) as [(h & tc & -> & _)|(_ & _ & id' & c' & Hp & Hw)].
  { exists c. split; [done|]. left. split; [done | by left]. }
  rewrite Hp. destruct (decide (id' = id)) as [->|Hne].
  - exists c'. rewrite lookup_insert_eq. split; [done|]. destruct Hw as [(b & t & g & Hb & Hd & _ & Hid & _)|(c0 & Hc0 & [[Hs He]|Hx])].
    + by destruct (Hr b t g Hb Hd).
    + rewrite Hc in Hc0. injection Hc0 as <-. left. split; [done | by right].
    + rewrite Hc in Hc0. injection Hc0 as <-. by right.
  - exists c. rewrite lookup_insert_ne by done. split; [done|]. left. split; [done | by left].
Qed.

(** *** Policies *)

Lemma heart_beat_frame order service proofs s s' out : heart_beat order service proofs s = Ok (s', out) -> privacys s' = privacys s /\ privacy_digests s' = privacy_digests s.
Proof.
  unfold heart_beat. intros E. destruct (EthState.sync_states order (eth s)) as [e [[entries old]|x|]]; try done.
  destruct (foldl _ _ _) as [|[c v] states]; [by injection E as <- <-|]. inv_ok E. destruct (tee_get (tee s)) as [acc| |]; [|discriminate E..]. inv_ok E. injection E as <- <-. split; reflexivity.
Qed.

(** Every registered contract has its policy. *)
Definition policies_ok (s : State) : Prop := forall a h, privacy_digests s !! a = Some h -> is_Some (privacys s !! h).

(** The policy digest of a contract is never replaced, and its policy can
    always be found: along any run a registered contract keeps
    its digest, and [check_privacy_modules] succeeds for it. *)
Theorem policies_stay s out s' a h :
  steps s out s' -> policies_ok s -> privacy_digests s !! a = Some h ->
  policies_ok s' /\ privacy_digests s' !! a = Some h /\ exists ppt, check_privacy_modules a s' = Ok (h, ppt).
Proof.
  intros Hst Hok Hd. enough (policies_ok s' /\ privacy_digests s' !! a = Some h) as [H1 H2].
  { split; [done|]. split; [done|]. unfold check_privacy_modules. rewrite H2. destruct (H1 a h H2) as [ppt ->]. by exists ppt. }
  induction Hst as [s|s1 l1 s2 ev s3 l2 _ IH E|s1 l1 s2 ev s3 l2 _ IH E]; [done| |by apply IH]. destruct (IH Hok Hd) as [H1 H2].
  destruct ev as [fuel r|order service proofs]; cbn [run_event] in E; [|apply (inj Some), heart_beat_frame in E as [Hp Hpd]; unfold policies_ok; by rewrite Hp, Hpd].
  inv_ok E. injection E as <- _. rename E0 into E. destruct (handle_effect _ _ _ _ _ E) as [(h' & tc & -> & Hn)|(Hp & Hpd & _)]; [|unfold policies_ok; by rewrite Hp, Hpd].
  cbn [privacy_digests privacys put_privacy]. split.
  - intros a' h''. cbn [privacy_digests privacys put_privacy]. destruct (decide (pto tc = a')) as [<-|Ha'].
    + rewrite lookup_insert_eq. intros [= <-]. rewrite lookup_insert_eq. done.
    + rewrite lookup_insert_ne by done. intros H. apply H1 in H. destruct (decide (h' = h'')) as [->|]; [by rewrite lookup_insert_eq | by rewrite lookup_insert_ne].
  - rewrite lookup_insert_ne; [done|]. intros <-. by rewrite Hn in H2.
Qed.

(** A policy is kept under the digest of its text: when another contract
    registers the same text, the policy that is found for the first contract is
    the one of the other, with its address, verifier and code hash. *)
Theorem shared_digest b1 b2 s s1 s2 h a :
  add_privacy b1 s = Ok (s1, h) -> privacy_digests s1 !! a = Some h -> add_privacy b2 s1 = Ok (s2, h) ->
  exists ppt, check_privacy_modules a s2 = Ok (h, ppt) /\ pto ppt <> a.
Proof.
  intros _ Ha E. unfold add_privacy in E. inv_ok E. match type of E with context [privacy_digests s1 !! ?z] => destruct (privacy_digests s1 !! z) eqn:Hd end; [done|]. injection E as <- <-.
  match type of Hd with _ !! ?z = None => assert (z <> a) as Hne by (intros ->; by rewrite Ha in Hd) end. unfold check_privacy_modules. cbn [privacy_digests privacys put_privacy pto].
  rewrite lookup_insert_ne, Ha, lookup_insert_eq by done. eexists. split; [done|]. by cbn [pto].
Qed.

(** Sending the first transaction of a multi-party transaction again resets
    it: whatever its status was, it is pending again, without its old states and
    with the inputs of the first party only. *)
Theorem replay_resets b t g s s' out id :
  EthTx.cloak_signed_decode b = Ok (t, g) -> zlen (EthTx.c_to t) = 20 -> add_cloakTransaction b s = Ok (s', out, id) ->
  id = EthTx.cloak_digest t g /\ exists c, cloak_policys s' !! id = Some c /\ status c = PENDING /\ old_states c = [] /\ (length (partys c) <= 1)%nat.
Proof.
  intros Hd Hl E. unfold add_cloakTransaction in E. rewrite Hd in E. cbn [mbind result_bind] in E. inv_ok E.
  match goal with H : EthTx.cloak_to_transaction_call _ _ _ = _ |- _ => pose proof (cloak_call_to _ _ _ _ _ _ H) as -> end.
  match goal with H : check_transaction_type _ = Ok _ |- _ => unfold check_transaction_type in H; cbn [mto] in H; rewrite Hl in H; injection H as <- end.
  inv_ok E. destruct (_ <? _); [done|]. inv_ok E. match goal with H : set_content _ _ = Ok ?c |- _ => rename H into Hs; rename c into c' end.
  assert (status c' = PENDING /\ old_states c' = [] /\ (length (partys c') <= 1)%nat) as Hc.
  { match goal with H : new_cpt _ _ = _ |- _ => unfold new_cpt in H; inv_ok H; injection H as <- end. unfold set_content in Hs. inv_ok Hs. injection Hs as <-. by cbn. }
  destruct (complete _); inv_ok E; injection E as <- <- <-; (split; [done|]); exists c'; (split; [|done]).
  - match goal with H : propose _ _ _ _ = Ok _ |- _ => destruct (propose_frame _ _ _ _ _ _ H) as (_ & _ & ->) end. apply lookup_insert_eq.
  - apply lookup_insert_eq.
Qed.

(** The account of the enclave is created once, and is then the one in use. *)
Theorem tee_created kp t t' a : tee_create kp t = Ok (t', a) ->
  tee_get t' = Ok a /\ get_tee_kp a t' = Ok kp /\ tee_nonce a t' = 0 /\ forall kp', tee_create kp' t' = Throw LogicError.
Proof.
  unfold tee_create. destruct (publicAddr t); [done|]. intros E. inv_ok E. destruct (tee_balances t !! x); [done|]. destruct (tee_nonces t !! x); [done|].
  injection E as <- <-. split; [done|]. unfold get_tee_kp, tee_nonce. cbn [privateKey tee_nonces publicAddr]. rewrite !lookup_insert_eq. by split_and!.
Qed.

End generator.

(** ** Instances *)

#[local] Existing Instance CloakTx.wcurve.
#[local] Existing Instance CloakTx.wagent.

Definition wpolicy : Policy := mkPolicy (str "Bank") CloakTx.wst [mkFunction [] (str "f") [1; 2; 3; 4] [] [] [] [] []].
#[local] Instance wexternal : External := {|
  parse_policy _ := Ok wpolicy;
  parse_params _ := Ok (mkMpp (str "f") []);
  service_addr := Ok 9;
  current_chain_id := 1;
  execute_mpt _ e c _ _ := Some (Ok (e, c, []));
  entropy := CloakTx.wiv
|}.

Definition wsig : EthTx.SignatureAbstract := Eval vm_compute in match EthTx.signature_of_rs 1 (EthTx.mkRs (be_bytes 64 77) 1) with Ok g => g | _ => EthTx.mkSig 0 0 0 end.
Definition wprivacy (to_ : Z) : list Z := EthTx.privacy_signed_encode (EthTx.privacy_of_params (Some to_) (Some 3) [] []) wsig.
Definition wfirst : EthTx.CloakTransaction := EthTx.mkCloak 0 (be_bytes 20 1) [].
Definition wencoded : list Z := Eval vm_compute in EthTx.cloak_signed_encode wfirst wsig.

(** The account 8 of the enclave, and the policy of contract 1. *)
Definition wtee : Tee := mkTee {[ 8 := 5 : EthTx.KeyPair ]} (Some 8) ∅ {[ 8 := 41 ]}.
Definition wstate : State := mkState _ {[ [1] := mkPpt 7 1 3 [] wpolicy ]} {[ 1 := [1] ]} {[ [2] := CloakTx.wcpt ]} ∅ ∅ wtee EthState.weth 0.

Definition after (r : request) (s : State) : State * list SyncStateResponse := match handle 9 r s with Some (Ok x) => x | _ => (s, []) end.
Lemma handle_after r s : is_ok (default Undef (handle 9 r s)) = true -> handle 9 r s = Some (Ok ((after r s).1, (after r s).2)).
Proof. unfold after. by destruct (handle 9 r s) as [[[x y]| |]|]. Qed.
Lemma step_after r s : is_ok (default Undef (handle 9 r s)) = true -> steps s ([] ++ map (pair true) (map Log (after r s).2)) (after r s).1.
Proof. intros H. apply (steps_ok s [] s (Request 9 r)); [constructor|]. cbn [run_event]. by rewrite (handle_after r s H). Qed.

Definition wout : list SyncStateResponse := (after (ReqCloak wencoded) wstate).2.
Lemma wsigned : (is_ok (default Undef (handle 9 (ReqCloak wencoded) wstate)), map is_signed wout) = (true, [true]).
Proof. vm_compute. reflexivity. Qed.

(** The request makes the enclave sign. *)
Lemma nonces_in_sequence_witness : map is_signed wout = [true] /\
  let l := [] ++ map (pair true) (map Log wout) in
  publicAddr (tee (after (ReqCloak wencoded) wstate).1) = Some 8 /\ tee_nonce 8 (tee (after (ReqCloak wencoded) wstate).1) = tee_nonce 8 (tee wstate) + committed (signed l).
Proof.
  pose proof (f_equal fst wsigned : is_ok _ = true) as H1. pose proof (f_equal snd wsigned : map is_signed wout = [true]) as H2. split; [exact H2|].
  intros l. destruct (nonces_in_sequence (Curve := CloakTx.wcurve) wstate l _ 8 5 (step_after _ _ H1) eq_refl eq_refl) as (H3 & H4 & _); [discriminate | |].
  - assert (length l = 1%nat) as -> by (unfold l; cbn [app]; rewrite !length_map, <- (length_map is_signed), H2; reflexivity). reflexivity.
  - split; [exact H3 | exact H4].
Defined.

(** A heartbeat with one pending key signs and moves the key to those that are
    being synchronised. *)
Definition wpending : State := set_eth (EthState.with_pending {[ (1, 2) ]} (eth wstate)) wstate.
Lemma heart_beat_signs : match heart_beat [(1, 2)] 9 ∅ wpending with
  | Ok (s, l) => (length (omap signed_of l), tee_nonce 8 (tee s), bool_decide (EthState.syncs (eth s) = {[ (1, 2) ]}), bool_decide (EthState.pending (eth s) = ∅)) = (1%nat, 42, true, true)
  | _ => False
  end.
Proof. by vm_compute. Qed.

Definition wreport : request := ReqReport [2] (str "SYNCED").
Lemma wreported : is_ok (default Undef (handle 9 wreport wstate)) = true.
Proof. vm_compute. reflexivity. Qed.

Lemma workflow_step_witness : exists c', cloak_policys (after wreport wstate).1 !! [2] = Some c' /\
  ((same_deal CloakTx.wcpt c' /\ (status c' = status CloakTx.wcpt \/ edge wreport [2] (status CloakTx.wcpt) (status c'))) \/ executed 9 wreport wstate [2] CloakTx.wcpt c').
Proof.
  apply (workflow_step 9 wreport wstate (after wreport wstate).1 (after wreport wstate).2 [2]); [exact (handle_after _ _ wreported) | | discriminate].
  exact (lookup_singleton_eq [2] CloakTx.wcpt).
Defined.

Lemma policies_stay_witness : policies_ok (after wreport wstate).1 /\ privacy_digests (after wreport wstate).1 !! 1 = Some [1] /\
  exists ppt, check_privacy_modules 1 (after wreport wstate).1 = Ok ([1], ppt).
Proof.
  apply (policies_stay wstate ([] ++ map (pair true) (map Log (after wreport wstate).2))); [exact (step_after _ _ wreported) | | exact (lookup_singleton_eq 1 [1])].
  intros a h H. change (({[ 1 := [1] ]} : gmap Z (list Z)) !! a = Some h) in H. apply lookup_singleton_Some in H as [<- <-]. eexists. exact (lookup_singleton_eq [1] _).
Defined.

(** The same policy registered for contract 2 and then for contract 3. *)
Definition added (b : list Z) (s : State) : State * list Z := match add_privacy b s with Ok x => x | _ => (s, []) end.
Lemma add_after b s h : is_ok (add_privacy b s) = true -> (added b s).2 = h -> add_privacy b s = Ok ((added b s).1, h).
Proof. unfold added. destruct (add_privacy b s) as [[x y]| |]; [by intros _ <- | done..]. Qed.
Definition wonce : State * list Z := added (wprivacy 2) wstate.
Definition wtwice : State * list Z := added (wprivacy 3) wonce.1.
Lemma wshared : (is_ok (add_privacy (wprivacy 2) wstate), is_ok (add_privacy (wprivacy 3) wonce.1), bool_decide (privacy_digests wonce.1 !! 2 = Some wonce.2), bool_decide (wtwice.2 = wonce.2)) = (true, true, true, true).
Proof. vm_compute. reflexivity. Qed.

Lemma shared_digest_witness : exists ppt, check_privacy_modules 2 wtwice.1 = Ok (wonce.2, ppt) /\ pto ppt <> 2.
Proof.
  pose proof (f_equal (fun x => x.1.1.1) wshared : is_ok _ = true) as H1. pose proof (f_equal (fun x => x.1.1.2) wshared : is_ok _ = true) as H2.
  pose proof (f_equal (fun x => x.1.2) wshared : bool_decide _ = true) as H3. pose proof (f_equal snd wshared : bool_decide _ = true) as H4.
  apply (shared_digest (wprivacy 2) (wprivacy 3) wstate wonce.1 wtwice.1 wonce.2 2); [exact (add_after _ _ _ H1 eq_refl) | exact (bool_decide_eq_true_1 _ H3) | exact (add_after _ _ _ H2 (bool_decide_eq_true_1 _ H4))].
Defined.

Lemma cloak_after b s : is_ok (default Undef (handle 9 (ReqCloak b) s)) = true -> exists s' out id, add_cloakTransaction b s = Ok (s', out, id).
Proof. cbn [handle]. destruct (add_cloakTransaction b s) as [[[s' out] id]| |]; [by exists s', out, id | done..]. Qed.

Lemma replay_resets_witness : exists s' out id, add_cloakTransaction wencoded wstate = Ok (s', out, id) /\
  id = EthTx.cloak_digest wfirst wsig /\ exists c, cloak_policys s' !! id = Some c /\ status c = PENDING /\ old_states c = [] /\ (length (partys c) <= 1)%nat.
Proof.
  destruct (cloak_after _ _ (f_equal fst wsigned : is_ok _ = true)) as (s' & out & id & E). exists s', out, id. split; [exact E|].
  apply (replay_resets wencoded wfirst wsig wstate s' out id); [vm_compute; reflexivity | reflexivity | exact E].
Defined.

End Generator.
