(* ===== verification/RingBuffer.v ===== *)
(** * Ring buffer between the host and the enclave

    Model of CCF/src/ds/ring_buffer.h and of [AbstractWriter] in
    ring_buffer_types.h: any number of writers reserve space with an atomic
    exchange on the tail and fill it; one reader handles the messages, clears
    their memory and advances the head.

    A member function is a program over the shared memory ([prog]): each atomic
    operation, each 64-bit access and each byte of a copy is one action.  A
    machine ([step]) interleaves the actions of the writers and of the reader;
    the weak exchange may fail for no reason.  Memory is sequentially
    consistent.  A loop that retries takes fuel. *)
From S2P Require Import Prelude Serialized.
From stdpp Require Import list gmap.
Local Open Scope Z_scope.

Module RingBuffer.

(** ** Constants and headers *)

Definition pending_write_flag : Z := 2 ^ 31.
Definition length_mask : Z := 2 ^ 31 - 1.
Definition msg_max : Z := 2 ^ 32 - 2.
Definition msg_min : Z := 1.
Definition msg_none : Z := 0.
Definition msg_pad : Z := 2 ^ 32 - 1.

Definition is_power_of_2 (n : Z) : bool := negb (n =? 0) && (Z.land n (wrap64 (wrap64 (Z.lnot n) + 1)) =? n).
Definition is_aligned (data align : Z) : bool := data mod align =? 0.
Definition header_size : Z := 8.
Definition align_size (n : Z) : Z := Z.land (wrap64 (n + (header_size - 1))) (wrap64 (Z.lnot (header_size - 1))).
Definition entry_size (n : Z) : Z := align_size (wrap64 (n + header_size)).
Definition max_size : Z := 2 ^ 31 - 1 - header_size.
Definition max_reservation_size (buffer_size : Z) : Z := buffer_size / 2.
(** [__builtin_clzll] of 0 is undefined. *)
Definition previous_power_of_2 (n : Z) : result Z := if n =? 0 then Undef else Ok (2 ^ Z.log2 n).
(** The address and the size of the part that is used. *)
Definition find_acceptable_sub_buffer (data size : Z) : result (option (Z * Z)) :=
  let diff := (- data) mod 8 in
  if size <? 8 + diff then Ok None
  else p ← previous_power_of_2 (size - diff); Ok (Some (data + diff, p)).
Definition make_header (m size : Z) (pending : bool) : Z :=
  Z.lor (Z.shiftl m 32) (Z.lor (Z.land size length_mask) (if pending then pending_write_flag else 0)).
Definition message (header : Z) : Z := Z.shiftr header 32.
Definition length_ (header : Z) : Z := Z.land header (2 ^ 32 - 1).

(** ** Programs *)

Inductive prog (A : Type) : Type :=
  | Ret (a : A)
  | Raise (e : cxx_exn)
  | OutOfFuel
  | LoadHeadCache (k : Z -> prog A)
  | LoadTail (k : Z -> prog A)
  | LoadHead (k : Z -> prog A)
  | StoreHeadCache (v : Z) (k : prog A)
  | StoreHead (v : Z) (k : prog A)
  | CasTail (expected desired : Z) (k : bool -> Z -> prog A)
  | Read64 (i : Z) (k : Z -> prog A)
  | Write64 (i v : Z) (k : prog A)
  | WriteBytes (i : Z) (bs : list Z) (k : prog A)
  | ClearBytes (i : Z) (n : nat) (k : prog A)
  | Handle (m i n : Z) (k : prog A).
Arguments Ret {A} _.
Arguments Raise {A} _.
Arguments OutOfFuel {A}.
Arguments LoadHeadCache {A} _.
Arguments LoadTail {A} _.
Arguments LoadHead {A} _.
Arguments StoreHeadCache {A} _ _.
Arguments StoreHead {A} _ _.
Arguments CasTail {A} _ _ _.
Arguments Read64 {A} _ _.
Arguments Write64 {A} _ _ _.
Arguments WriteBytes {A} _ _ _.
Arguments ClearBytes {A} _ _ _.
Arguments Handle {A} _ _ _ _.

#[global] Instance prog_ret : MRet prog := @Ret.
#[global] Instance prog_bind : MBind prog := fun A B f =>
  fix go (p : prog A) : prog B :=
  match p with
  | Ret a => f a
  | Raise e => Raise e
  | OutOfFuel => OutOfFuel
  | LoadHeadCache k => LoadHeadCache (fun v => go (k v))
  | LoadTail k => LoadTail (fun v => go (k v))
  | LoadHead k => LoadHead (fun v => go (k v))
  | StoreHeadCache v k => StoreHeadCache v (go k)
  | StoreHead v k => StoreHead v (go k)
  | CasTail e d k => CasTail e d (fun b v => go (k b v))
  | Read64 i k => Read64 i (fun v => go (k v))
  | Write64 i v k => Write64 i v (go k)
  | WriteBytes i bs k => WriteBytes i bs (go k)
  | ClearBytes i n k => ClearBytes i n (go k)
  | Handle m i n k => Handle m i n (go k)
  end.

Section ring.
(** The size of the buffer *)
Variable size : Z.
Abbreviation mask := (size - 1).

Definition check_access (index access_size : Z) : prog unit :=
  if size <? wrap64 (index + access_size) then Raise RuntimeError else Ret tt.
Definition read64 (index : Z) : prog Z := _ ← check_access index 8; Read64 index Ret.
Definition write64 (index value : Z) : prog unit := _ ← check_access index 8; Write64 index value (Ret tt).

(** ** Reader *)

(** [Reader(bd)] *)
Definition new_reader (data : Z) : result unit :=
  if negb (is_power_of_2 size) then Throw LogicError
  else if negb (is_aligned data 8) then Throw LogicError
  else Ok tt.

Fixpoint read_loop (fuel : nat) (limit hd_index block advance count : Z) : prog (Z * Z) :=
  if (advance <? block) && (count <? limit) then
    match fuel with
    | O => OutOfFuel
    | S fuel =>
        let msg_index := hd_index + advance in
        header ← read64 msg_index;
        let sz := length_ header in
        if negb (Z.land sz pending_write_flag =? 0) then Ret (advance, count)
        else
          let m := message header in
          if m =? msg_none then Ret (advance, count)
          else if m =? msg_pad then read_loop fuel limit hd_index block (advance + header_size + sz) count
          else
            let advance := advance + entry_size sz in
            _ ← check_access hd_index advance;
            Handle m (msg_index + header_size) sz (read_loop fuel limit hd_index block advance (count + 1))
    end
  else Ret (advance, count).

(** Every turn of the loop advances by a header at least. *)
Definition read (limit : Z) : prog Z :=
  LoadHead (fun hd =>
    let hd_index := Z.land hd mask in
    '(advance, count) ← read_loop (S (Z.to_nat (size / 8))) limit hd_index (size - hd_index) 0 0;
    if 0 <? advance then
      _ ← check_access hd_index advance;
      ClearBytes hd_index (Z.to_nat advance) (StoreHead (wrap64 (hd + advance)) (Ret count))
    else Ret count).

(** ** Writer *)

Definition rmax : Z := max_reservation_size size.

Definition greater_with_wraparound (a b : Z) : bool := negb (a =? b) && (wrap64 (a - b) <? (M64 - 1) / 2).

(** What the first part of the loop's body decides. *)
Inductive fit := Fails | Continues (hd : Z) | Fits (hd : Z).

Definition fits_total (sz hd tl : Z) : prog fit :=
  let gap := wrap64 (tl - hd) in
  let avail := wrap64 (size - gap) in
  if (size <? gap) || (avail <? sz) then
    LoadHead (fun hd =>
      if greater_with_wraparound hd tl then Ret (Continues hd)
      else
        let avail := wrap64 (size - wrap64 (tl - hd)) in
        if avail <? sz then Ret Fails else StoreHeadCache hd (Ret (Fits hd)))
  else Ret (Fits hd).

(** The head and the padding. *)
Definition fits_block (sz hd tl : Z) : prog (option (Z * Z)) :=
  let block := size - Z.land tl mask in
  if block <? sz then
    if Z.land hd mask <? sz then
      LoadHead (fun hd => if Z.land hd mask <? sz then Ret None else StoreHeadCache hd (Ret (Some (hd, block))))
    else Ret (Some (hd, block))
  else Ret (Some (hd, 0)).

Definition reserved (padding tl_index tl : Z) : prog (option (Z * Z)) :=
  if negb (padding =? 0) then
    _ ← write64 tl_index (make_header msg_pad (padding - header_size) false);
    Ret (Some (0, tl))
  else Ret (Some (tl_index, tl)).

(** The index and the identifier of the reservation. *)
Fixpoint reserve_loop (fuel : nat) (sz hd tl padding tl_index : Z) : prog (option (Z * Z)) :=
  match fuel with
  | O => OutOfFuel
  | S fuel =>
      let exchange hd padding tl_index :=
        CasTail tl (wrap64 (tl + sz + padding)) (fun ok tl' =>
          if ok then reserved padding tl_index tl else reserve_loop fuel sz hd tl' padding tl_index) in
      f ← fits_total sz hd tl;
      match f with
      | Fails => Ret None
      | Continues hd => exchange hd padding tl_index
      | Fits hd =>
          r ← fits_block sz hd tl;
          match r with
          | None => Ret None
          | Some (hd, padding) => exchange hd padding (Z.land tl mask)
          end
      end
  end.
Definition reserve (fuel : nat) (sz : Z) : prog (option (Z * Z)) :=
  LoadHeadCache (fun hd => LoadTail (fun tl => reserve_loop fuel sz hd tl 0 0)).

Fixpoint reserve_wait (fuel tries : nat) (sz : Z) : prog (option (Z * Z)) :=
  match tries with
  | O => OutOfFuel
  | S tries =>
      r ← reserve fuel sz;
      match r with None => reserve_wait fuel tries sz | Some r => Ret (Some r) end
  end.

(** The marker and the identifier. *)
Definition prepare (fuel : nat) (m sz : Z) (wait : bool) : prog (option (Z * Z)) :=
  if (m <? msg_min) || (msg_max <? m) then Raise LogicError
  else if max_size <? sz then Raise LogicError
  else
    let rsize := entry_size sz in
    if rmax <? rsize then Raise LogicError
    else
      r ← reserve fuel rsize;
      r ← match r with None => if wait then reserve_wait fuel fuel rsize else Ret None | Some r => Ret (Some r) end;
      match r with
      | None => Ret None
      | Some (index, identifier) =>
          _ ← write64 index (make_header m sz true);
          Ret (Some (index + header_size, identifier))
      end.

Definition write_bytes (marker : option Z) (bytes : list Z) : prog (option Z) :=
  match marker with
  | None => Ret None
  | Some index =>
      _ ← check_access index (zlen bytes);
      WriteBytes index bytes (Ret (Some (index + zlen bytes)))
  end.

Definition finish (marker : option Z) : prog unit :=
  match marker with
  | None => Ret tt
  | Some marker =>
      let index := marker - header_size in
      header ← read64 index;
      write64 index (make_header (message header) (length_ header) false)
  end.

Fixpoint write_sections (next : option Z) (sections : list (list Z)) : prog (option Z) :=
  match sections with
  | [] => Ret next
  | s :: sections => next ← write_bytes next s; write_sections next sections
  end.

(** [AbstractWriter::write_multiple] with the serialised sections *)
Definition write_multiple (fuel : nat) (m : Z) (wait : bool) (sections : list (list Z)) : prog bool :=
  r ← prepare fuel m (zlen (concat sections)) wait;
  match r with
  | None => Ret false
  | Some (initial_marker, _) =>
      next ← write_sections (Some initial_marker) sections;
      _ ← finish (Some initial_marker);
      Ret (match next with Some _ => true | None => false end)
  end.

End ring.

(** ** Shared memory *)

(** The bytes and the [Offsets] *)
Record Buf := mkBuf { mem : list Z; head_cache : Z; tail : Z; head : Z }.
Definition set_mem (m : list Z) (b : Buf) : Buf := mkBuf m (head_cache b) (tail b) (head b).
Definition set_head_cache (v : Z) (b : Buf) : Buf := mkBuf (mem b) v (tail b) (head b).
Definition set_tail (v : Z) (b : Buf) : Buf := mkBuf (mem b) (head_cache b) v (head b).
Definition set_head (v : Z) (b : Buf) : Buf := mkBuf (mem b) (head_cache b) (tail b) v.
Definition new_buf (size : Z) : Buf := mkBuf (zeros size) 0 0 0.

Inductive effect := Silent | Reserves | Handles (m : Z) (data : list Z).

(** One action.  [spurious]: the weak exchange fails for no reason. *)
Definition act {A} (spurious : bool) (p : prog A) (b : Buf) : option (prog A * Buf * effect) :=
  match p with
  | Ret _ | Raise _ | OutOfFuel => None
  | LoadHeadCache k => Some (k (head_cache b), b, Silent)
  | LoadTail k => Some (k (tail b), b, Silent)
  | LoadHead k => Some (k (head b), b, Silent)
  | StoreHeadCache v k => Some (k, set_head_cache v b, Silent)
  | StoreHead v k => Some (k, set_head v b, Silent)
  | CasTail e d k =>
      if (e =? tail b) && negb spurious then Some (k true e, set_tail d b, Reserves)
      else Some (k false (tail b), b, Silent)
  | Read64 i k => Some (k (le_val (zslice i 8 (mem b))), b, Silent)
  | Write64 i v k => Some (k, set_mem (zwrite i (le_bytes 8 v) (mem b)) b, Silent)
  | WriteBytes i [] k => Some (k, b, Silent)
  | WriteBytes i (x :: bs) k => Some (WriteBytes (i + 1) bs k, set_mem (zwrite i [x] (mem b)) b, Silent)
  | ClearBytes i O k => Some (k, b, Silent)
  | ClearBytes i (S n) k => Some (ClearBytes (i + 1) n k, set_mem (zwrite i [0] (mem b)) b, Silent)
  | Handle m i n k => Some (k, b, Handles m (zslice i n (mem b)))
  end.

(** Running alone: the result, the memory and the handled messages. *)
Fixpoint clear_bytes (i : Z) (n : nat) (m : list Z) : list Z :=
  match n with O => m | S n => clear_bytes (i + 1) n (zwrite i [0] m) end.
Fixpoint copy_bytes (i : Z) (bs m : list Z) : list Z :=
  match bs with [] => m | x :: bs => copy_bytes (i + 1) bs (zwrite i [x] m) end.
Fixpoint exec {A} (p : prog A) (b : Buf) : option (A * Buf * list (Z * list Z)) :=
  match p with
  | Ret a => Some (a, b, [])
  | Raise _ | OutOfFuel => None
  | LoadHeadCache k => exec (k (head_cache b)) b
  | LoadTail k => exec (k (tail b)) b
  | LoadHead k => exec (k (head b)) b
  | StoreHeadCache v k => exec k (set_head_cache v b)
  | StoreHead v k => exec k (set_head v b)
  | CasTail e d k => if e =? tail b then exec (k true e) (set_tail d b) else exec (k false (tail b)) b
  | Read64 i k => exec (k (le_val (zslice i 8 (mem b)))) b
  | Write64 i v k => exec k (set_mem (zwrite i (le_bytes 8 v) (mem b)) b)
  | WriteBytes i bs k => exec k (set_mem (copy_bytes i bs (mem b)) b)
  | ClearBytes i n k => exec k (set_mem (clear_bytes i n (mem b)) b)
  | Handle m i n k => '(a, b', l) ← exec k b; Some (a, b', (m, zslice i n (mem b)) :: l)
  end.

(** ** Writers and reader together *)

Abbreviation msg := (Z * list Z)%type.

(** [accepted]: the messages in the order of their reservations, with the
    writer; [delivered]: what the handler of the reader was called with;
    [completed]: the calls that returned true. *)
Record Machine := mkMachine {
  buf : Buf;
  writers : gmap nat (msg * prog bool);
  reader : option (prog Z);
  accepted : list (nat * msg);
  delivered : list msg;
  completed : list (nat * msg)
}.
Definition new_machine (size : Z) : Machine := mkMachine (new_buf size) ∅ None [] [] [].

Definition log_accepted (tid : nat) (c : msg) (e : effect) (l : list (nat * msg)) : list (nat * msg) :=
  match e with Reserves => l ++ [(tid, c)] | _ => l end.
Definition log_delivered (e : effect) (l : list msg) : list msg :=
  match e with Handles m d => l ++ [(m, d)] | _ => l end.
Definition ended {A} (p : prog A) : bool := match p with Ret _ | Raise _ | OutOfFuel => true | _ => false end.
Definition log_completed (tid : nat) (c : msg) (p : prog bool) (l : list (nat * msg)) : list (nat * msg) :=
  match p with Ret true => l ++ [(tid, c)] | _ => l end.

Inductive step (size : Z) : Machine -> Machine -> Prop :=
  | start_write M tid fuel m wait sections : writers M !! tid = None -> bytes_ok (concat sections) ->
      step size M (mkMachine (buf M) (<[tid := ((m, concat sections), write_multiple size fuel m wait sections)]> (writers M)) (reader M) (accepted M) (delivered M) (completed M))
  | do_write M tid c p spurious p' b e : writers M !! tid = Some (c, p) -> act spurious p (buf M) = Some (p', b, e) ->
      step size M (mkMachine b (<[tid := (c, p')]> (writers M)) (reader M) (log_accepted tid c e (accepted M)) (delivered M) (completed M))
  | end_write M tid c p : writers M !! tid = Some (c, p) -> ended p = true ->
      step size M (mkMachine (buf M) (delete tid (writers M)) (reader M) (accepted M) (delivered M) (log_completed tid c p (completed M)))
  | start_read M limit : reader M = None ->
      step size M (mkMachine (buf M) (writers M) (Some (read size limit)) (accepted M) (delivered M) (completed M))
  | do_read M p spurious p' b e : reader M = Some p -> act spurious p (buf M) = Some (p', b, e) ->
      step size M (mkMachine b (writers M) (Some p') (accepted M) (log_delivered e (delivered M)) (completed M))
  | end_read M p : reader M = Some p -> ended p = true ->
      step size M (mkMachine (buf M) (writers M) None (accepted M) (delivered M) (completed M)).

(** Runs in which less than 2^62 bytes are reserved. *)
Inductive reachable (size : Z) : Machine -> Prop :=
  | reachable_new : reachable size (new_machine size)
  | reachable_step M M' : reachable size M -> step size M M' -> tail (buf M') < 2 ^ 62 -> reachable size M'.

(** ** Arithmetic *)

Lemma make_header_val m sz b : 0 <= m < 2 ^ 32 -> 0 <= sz < 2 ^ 31 ->
  make_header m sz b = m * 2 ^ 32 + ((if b then 1 else 0) * 2 ^ 31 + sz).
Proof.
  intros Hm Hs. unfold make_header, length_mask, pending_write_flag. rewrite Z.shiftl_mul_pow2 by lia.
  change (2 ^ 31 - 1) with (Z.ones 31). rewrite Z.land_ones, Z.mod_small by lia.
  replace (if b then 2 ^ 31 else 0) with ((if b then 1 else 0) * 2 ^ 31) by (destruct b; lia).
  rewrite (Z.lor_comm sz), (lor_low (if b then 1 else 0) sz 31) by lia. apply lor_low; [lia|]. destruct b; lia.
Qed.
Lemma message_make_header m sz b : 0 <= m < 2 ^ 32 -> 0 <= sz < 2 ^ 31 -> message (make_header m sz b) = m.
Proof.
  intros Hm Hs. rewrite make_header_val by done. unfold message. rewrite Z.shiftr_div_pow2 by lia.
  rewrite Z.div_add_l by lia. rewrite Z.div_small; [lia|]. destruct b; lia.
Qed.
Lemma length_make_header m sz b : 0 <= m < 2 ^ 32 -> 0 <= sz < 2 ^ 31 ->
  length_ (make_header m sz b) = (if b then 1 else 0) * 2 ^ 31 + sz.
Proof.
  intros Hm Hs. rewrite make_header_val by done. unfold length_. change (2 ^ 32 - 1) with (Z.ones 32). rewrite Z.land_ones by lia.
  rewrite Z.add_comm, Z.mod_add by lia. apply Z.mod_small. destruct b; lia.
Qed.
Lemma make_header_u64 m sz b : 0 <= m < 2 ^ 32 -> 0 <= sz < 2 ^ 31 -> u64 (make_header m sz b).
Proof. intros Hm Hs. rewrite make_header_val by done. unfold u64, M64. destruct b; lia. Qed.
Lemma make_header_again m sz : 0 <= m < 2 ^ 32 -> 0 <= sz < 2 ^ 31 ->
  make_header (message (make_header m sz true)) (length_ (make_header m sz true)) false = make_header m sz false.
Proof.
  intros Hm Hs. rewrite message_make_header, length_make_header by done. unfold make_header, length_mask. f_equal. f_equal.
  change (2 ^ 31 - 1) with (Z.ones 31). rewrite !Z.land_ones by lia. by rewrite Z.add_comm, Z.mod_add by lia.
Qed.

(** The flag of a header. *)
Lemma pending_flag sz (b : bool) : 0 <= sz < 2 ^ 31 -> (Z.land ((if b then 1 else 0) * 2 ^ 31 + sz) pending_write_flag =? 0) = negb b.
Proof.
  intros Hs. unfold pending_write_flag. replace (if b then 1 else 0) with (Z.b2z b) by (by destruct b).
  replace (Z.land _ (2 ^ 31)) with (Z.b2z b * 2 ^ 31); [by destruct b|]. apply Z.bits_inj'. intros n Hn.
  rewrite Z.land_spec, Z.pow2_bits_eqb by lia. rewrite <- (lor_low (Z.b2z b) sz 31), Z.lor_spec by lia. rewrite <- !(Z.shiftl_mul_pow2 (Z.b2z b)), !Z.shiftl_spec by lia.
  destruct (Z.eqb_spec 31 n) as [<-|Hne].
  - assert (Z.testbit sz 31 = false) as -> by (apply Z.testbit_false; [lia|]; by rewrite Z.div_small by lia). rewrite orb_false_r, andb_true_r. by destruct b.
  - rewrite andb_false_r. destruct (Z.lt_ge_cases n 31); [by apply Z.testbit_neg_r; lia|]. destruct b; cbn [Z.b2z]; [|by rewrite Z.testbit_0_l].
    apply Z.bits_above_log2; cbn; lia.
Qed.

Lemma align_size_val n : 0 <= n < 2 ^ 62 -> align_size n = 8 * ((n + 7) / 8).
Proof.
  intros Hn. unfold align_size, header_size. change (8 - 1) with 7. rewrite (wrap64_small (n + 7)) by (unfold u64, M64; lia).
  replace (wrap64 (Z.lnot 7)) with (Z.shiftl (Z.ones 61) 3) by reflexivity. set (x := n + 7).
  rewrite (Z.mul_comm 8). change 8 with (2 ^ 3). rewrite <- Z.shiftr_div_pow2, <- Z.shiftl_mul_pow2 by lia.
  apply Z.bits_inj'. intros i Hi. rewrite Z.land_spec, !Z.shiftl_spec by lia. destruct (Z.lt_ge_cases i 3).
  - by rewrite (Z.testbit_neg_r (Z.ones 61)), (Z.testbit_neg_r (Z.shiftr x 3)), andb_false_r by lia.
  - rewrite Z.shiftr_spec by lia. replace (i - 3 + 3) with i by lia. rewrite Z.testbit_ones_nonneg by lia.
    destruct (Z.ltb_spec (i - 3) 61); [by rewrite andb_true_r|]. rewrite andb_false_r. symmetry. apply Z.bits_above_log2; [lia|].
    apply Z.log2_lt_pow2; [lia|]. assert (2 ^ 63 <= 2 ^ i) by (apply Z.pow_le_mono_r; lia). lia.
Qed.
Lemma entry_size_val n : 0 <= n < 2 ^ 61 -> entry_size n = 8 * ((n + 15) / 8).
Proof.
  intros Hn. unfold entry_size, header_size. rewrite wrap64_small by (unfold u64, M64; lia). rewrite align_size_val by lia. f_equal. f_equal. lia.
Qed.
Lemma entry_size_bounds n : 0 <= n < 2 ^ 61 -> n + 8 <= entry_size n < n + 16 /\ entry_size n mod 8 = 0.
Proof. intros Hn. rewrite entry_size_val by done. split; [|rewrite Z.mul_comm; apply Z_mod_mult]. pose proof (Z.div_mod (n + 15) 8). pose proof (Z.mod_pos_bound (n + 15) 8). lia. Qed.

Lemma greater_spec a b : 0 <= a < 2 ^ 62 -> 0 <= b < 2 ^ 62 -> greater_with_wraparound a b = (b <? a).
Proof.
  intros Ha Hb. unfold greater_with_wraparound. change ((M64 - 1) / 2) with (2 ^ 63 - 1).
  destruct (Z.eqb_spec a b) as [->|Hne]; [by rewrite Z.ltb_irrefl|]. cbn [negb andb]. destruct (Z.ltb_spec b a).
  - rewrite wrap64_small by (unfold u64, M64; lia). apply Z.ltb_lt. lia.
  - unfold wrap64, M64. rewrite <- (Z.mod_add _ 1), Z.mod_small by lia. apply Z.ltb_ge. lia.
Qed.

(** ** Accesses

    Whatever values the other side has put into the memory and into the offsets,
    and whenever it changes them: an access outside of the buffer is not made. *)
Section bounds.
Variable size : Z.

Fixpoint in_bounds {A} (Q : A -> Prop) (p : prog A) : Prop :=
  match p with
  | Ret a => Q a
  | Raise _ | OutOfFuel => True
  | LoadHeadCache k | LoadTail k | LoadHead k => forall v, u64 v -> in_bounds Q (k v)
  | StoreHeadCache _ k | StoreHead _ k => in_bounds Q k
  | CasTail _ _ k => forall b v, u64 v -> in_bounds Q (k b v)
  | Read64 i k => 0 <= i /\ i + 8 <= size /\ forall v, u64 v -> in_bounds Q (k v)
  | Write64 i _ k => 0 <= i /\ i + 8 <= size /\ in_bounds Q k
  | WriteBytes i bs k => 0 <= i /\ i + zlen bs <= size /\ in_bounds Q k
  | ClearBytes i n k => 0 <= i /\ i + Z.of_nat n <= size /\ in_bounds Q k
  | Handle _ i n k => 0 <= i /\ 0 <= n /\ i + n <= size /\ in_bounds Q k
  end.

Lemma in_bounds_bind {A B} (p : prog A) (f : A -> prog B) Q : in_bounds (fun a => in_bounds Q (f a)) p -> in_bounds Q (p ≫= f).
Proof. induction p; cbn in *; naive_solver. Qed.
Lemma in_bounds_impl {A} (p : prog A) (Q Q' : A -> Prop) : (forall a, Q a -> Q' a) -> in_bounds Q p -> in_bounds Q' p.
Proof. intros HQ. induction p; cbn in *; naive_solver. Qed.

Variable k : Z.
Hypothesis Hk : 3 <= k <= 61.
Hypothesis Hsize : size = 2 ^ k.

Lemma size_bounds : 8 <= size <= 2 ^ 61.
Proof. rewrite Hsize. change 8 with (2 ^ 3). split; apply Z.pow_le_mono_r; lia. Qed.
Lemma land_mask x : Z.land x (size - 1) = x mod size.
Proof. rewrite Hsize. replace (2 ^ k - 1) with (Z.ones k) by (rewrite Z.ones_equiv; lia). by rewrite Z.land_ones by lia. Qed.

Lemma check_in_bounds i n Q : 0 <= i <= size -> 0 <= n < 2 ^ 62 -> (i + n <= size -> Q tt) -> in_bounds Q (check_access size i n).
Proof.
  intros Hi Hn HQ. pose proof size_bounds. unfold check_access. rewrite wrap64_small by (unfold u64, M64; lia).
  destruct (Z.ltb_spec size (i + n)); cbn; [done | by apply HQ].
Qed.
Lemma read64_in_bounds i (Q : Z -> Prop) : 0 <= i <= size -> (forall v, u64 v -> i + 8 <= size -> Q v) -> in_bounds Q (read64 size i).
Proof. intros Hi HQ. unfold read64. apply in_bounds_bind, check_in_bounds; [lia.. |]. cbn. naive_solver lia. Qed.
Lemma write64_in_bounds i v (Q : unit -> Prop) : 0 <= i <= size -> (i + 8 <= size -> Q tt) -> in_bounds Q (write64 size i v).
Proof. intros Hi HQ. unfold write64. apply in_bounds_bind, check_in_bounds; [lia.. |]. cbn. naive_solver lia. Qed.

Lemma length_bound h : u64 h -> 0 <= length_ h < 2 ^ 32.
Proof. intros Hh. unfold length_. change (2 ^ 32 - 1) with (Z.ones 32). rewrite Z.land_ones by lia. apply Z.mod_pos_bound. lia. Qed.

Lemma read_loop_in_bounds fuel : forall limit i advance count, 0 <= i < size -> 0 <= advance < 2 ^ 62 ->
  in_bounds (fun r => 0 <= r.1 < 2 ^ 62) (read_loop size fuel limit i (size - i) advance count).
Proof.
  pose proof size_bounds as Hs. induction fuel as [|fuel IH]; intros limit i advance count Hi Ha; cbn [read_loop].
  { by destruct (_ && _). }
  destruct (Z.ltb_spec advance (size - i)); cbn [andb]; [|done]. destruct (count <? limit); [|done].
  apply in_bounds_bind, read64_in_bounds; [lia|]. intros h Hh Hi8. pose proof (length_bound h Hh) as Hl.
  destruct (negb _); [done|]. destruct (_ =? msg_none); [done|]. destruct (_ =? msg_pad).
  { apply IH; unfold header_size; lia. }
  pose proof (entry_size_bounds (length_ h)) as He. apply in_bounds_bind, check_in_bounds; [lia.. |]. intros Hc. cbn [in_bounds]. unfold header_size.
  split_and!; [lia.. |]. apply IH; lia.
Qed.

Lemma read_in_bounds limit : in_bounds (fun _ => True) (read size limit).
Proof.
  pose proof size_bounds as Hs. cbn [read in_bounds]. intros hd Hhd. rewrite land_mask. pose proof (Z.mod_pos_bound hd size).
  apply in_bounds_bind. eapply in_bounds_impl; [|by apply read_loop_in_bounds; lia]. intros [advance count] Ha. cbn [fst] in Ha.
  destruct (Z.ltb_spec 0 advance); [|done]. apply in_bounds_bind, check_in_bounds; [lia.. |]. intros Hc. cbn. split_and!; lia.
Qed.

Lemma fits_total_in_bounds sz hd tl : in_bounds (fun _ => True) (fits_total size sz hd tl).
Proof.
  unfold fits_total. destruct (_ || _); [|done]. intros v Hv. destruct (greater_with_wraparound v tl); [done|]. by destruct (_ <? _).
Qed.
Lemma fits_block_in_bounds sz hd tl : in_bounds (fun r => match r with Some (_, pad) => pad = size - Z.land tl (size - 1) \/ pad = 0 | None => True end) (fits_block size sz hd tl).
Proof.
  unfold fits_block. destruct (_ <? sz); [|by right]. destruct (_ <? sz); [|by left]. intros v Hv. destruct (_ <? sz); [done | by left].
Qed.
Lemma reserved_in_bounds pad i tl : 0 <= i < size -> in_bounds (fun r => match r with Some (j, _) => 0 <= j < size | None => True end) (reserved size pad i tl).
Proof.
  intros Hi. pose proof size_bounds. unfold reserved. destruct (negb _); [|done]. apply in_bounds_bind, write64_in_bounds; [lia|]. cbn. lia.
Qed.
Lemma reserve_loop_in_bounds fuel : forall sz hd tl pad i, 0 <= i < size ->
  in_bounds (fun r => match r with Some (j, _) => 0 <= j < size | None => True end) (reserve_loop size fuel sz hd tl pad i).
Proof.
  pose proof size_bounds as Hs. induction fuel as [|fuel IH]; intros sz hd tl pad i Hi; cbn [reserve_loop]; [done|].
  apply in_bounds_bind. eapply in_bounds_impl; [|apply fits_total_in_bounds]. intros [|hd'|hd'] _; cbn [in_bounds]; [done|..].
  - intros [] v Hv; [by apply reserved_in_bounds | by apply IH].
  - apply in_bounds_bind. eapply in_bounds_impl; [|apply fits_block_in_bounds]. intros [[hd'' pad']|] Hp; [|done]. cbn [in_bounds].
    rewrite land_mask. pose proof (Z.mod_pos_bound tl size). intros [] v Hv; [by apply reserved_in_bounds; lia | by apply IH; lia].
Qed.
Lemma reserve_wait_in_bounds fuel tries sz :
  in_bounds (fun r => match r with Some (j, _) => 0 <= j < size | None => True end) (reserve_wait size fuel tries sz).
Proof.
  pose proof size_bounds. induction tries as [|tries IH]; cbn [reserve_wait]; [done|]. apply in_bounds_bind. unfold reserve. cbn [in_bounds]. intros hd _ tl _.
  eapply in_bounds_impl; [|apply reserve_loop_in_bounds; lia]. by intros [[j id]|] Hj.
Qed.

Lemma prepare_in_bounds fuel m sz wait : 0 <= sz -> in_bounds (fun r => match r with Some (j, _) => 8 <= j <= size /\ sz <= max_size | None => True end) (prepare size fuel m sz wait).
Proof.
  intros Hsz. pose proof size_bounds. unfold prepare. destruct (_ || _); [done|]. destruct (Z.ltb_spec max_size sz); [done|]. destruct (_ <? _); [done|].
  apply in_bounds_bind. unfold reserve. cbn [in_bounds]. intros hd _ tl _. eapply in_bounds_impl; [|apply reserve_loop_in_bounds; lia]. intros r Hr.
  apply in_bounds_bind. apply (in_bounds_impl _ (fun r => match r with Some (j, _) => 0 <= j < size | None => True end)).
  - intros [[j id]|] Hj; [|done]. apply in_bounds_bind, write64_in_bounds; [lia|]. cbn. unfold header_size. lia.
  - destruct r as [[j id]|]; [done|]. destruct wait; [apply reserve_wait_in_bounds | done].
Qed.

Lemma write_sections_in_bounds l : forall i, 0 <= i <= size -> zlen (concat l) < 2 ^ 62 -> in_bounds (fun _ => True) (write_sections size (Some i) l).
Proof.
  induction l as [|x l IH]; intros i Hi Hl; cbn [write_sections]; [done|]. cbn [concat] in Hl. rewrite length_app in Hl.
  apply in_bounds_bind. cbn [write_bytes]. apply in_bounds_bind, check_in_bounds; [lia.. |]. intros Hx. cbn [in_bounds]. split_and!; [lia.. |]. apply IH; lia.
Qed.

Lemma write_in_bounds fuel m wait sections : in_bounds (fun _ => True) (write_multiple size fuel m wait sections).
Proof.
  pose proof size_bounds. unfold write_multiple. apply in_bounds_bind. eapply in_bounds_impl; [|apply prepare_in_bounds; lia].
  intros [[i id]|]; [|done]. intros [Hi Hm]. apply in_bounds_bind. eapply in_bounds_impl; [|apply write_sections_in_bounds; [lia|unfold max_size, header_size in Hm; lia]]. intros next _.
  apply in_bounds_bind. cbn [finish]. apply in_bounds_bind, read64_in_bounds; unfold header_size; [lia|]. intros v _ _. apply write64_in_bounds; [lia | done].
Qed.

End bounds.

(** Neither the reader nor a writer touches memory outside of the buffer,
    whatever values they find in the buffer and in the offsets, which the other
    side can change at any time; this needs nothing of the other side. *)
Theorem ring_in_bounds k : 3 <= k <= 61 ->
  (forall limit, in_bounds (2 ^ k) (fun _ => True) (read (2 ^ k) limit)) /\
  (forall fuel m wait sections, in_bounds (2 ^ k) (fun _ => True) (write_multiple (2 ^ k) fuel m wait sections)).
Proof. intros Hk. split; intros; [by apply (read_in_bounds _ k) | by apply (write_in_bounds _ k)]. Qed.
Lemma ring_in_bounds_witness : in_bounds 64 (fun _ => True) (read 64 1) /\ in_bounds 64 (fun _ => True) (write_multiple 64 3 5 true [[1; 2]; [3]]).
Proof. split; [apply (proj1 (ring_in_bounds 6 ltac:(lia)) 1) | apply (proj2 (ring_in_bounds 6 ltac:(lia)) 3%nat)]. Defined.

End RingBuffer.
