(* ===== verification/RingFifo.v ===== *)
(** * The ring buffer delivers every message once and in order

    The invariant of the machine of RingBuffer.v.  The space between the head and
    the tail is a list of cells: paddings and messages in the order of their
    reservations, each in a state of progress ([cell]).  The memory is what the
    cells say and zero elsewhere ([view]).  What a writer has still to do is
    described by [wsafe], a recursive predicate on its program that holds for all
    later positions of head and tail; [rsafe] does the same for the reader. *)
From S2P Require Import Prelude Serialized RingBuffer.
From stdpp Require Import functions list gmap.
Local Open Scope Z_scope.

Module RingFifo.
Import Serialized RingBuffer.

(** ** Cells *)

Inductive mstate := Reserved | Pending (j : nat) | Finished.
Inductive cell :=
  | Pad (owner : nat) (len : Z) (written : bool)
  | Msg (owner : nat) (c : msg) (st : mstate).

Definition owner (c : cell) : nat := match c with Pad o _ _ => o | Msg o _ _ => o end.
Definition unfinished (c : cell) : bool := match c with Pad _ _ w => negb w | Msg _ _ Finished => false | Msg _ _ _ => true end.
Definition clen (c : cell) : Z := match c with Pad _ len _ => len | Msg _ c _ => entry_size (zlen c.2) end.

(** The bytes that have been written. *)
Definition written_of (c : cell) : list Z :=
  match c with
  | Pad _ len w => if w then le_bytes 8 (make_header msg_pad (len - 8) false) else []
  | Msg _ c Reserved => []
  | Msg _ c (Pending j) => le_bytes 8 (make_header c.1 (zlen c.2) true) ++ take j c.2
  | Msg _ c Finished => le_bytes 8 (make_header c.1 (zlen c.2) false) ++ c.2
  end.
Definition content (c : cell) : list Z := zresize (clen c) (written_of c).

Fixpoint total (l : list cell) : Z := match l with [] => 0 | c :: l => clen c + total l end.
Definition image (l : list cell) : list Z := concat (map content l).
Definition messages (l : list cell) : list msg := omap (fun c => match c with Msg _ c _ => Some c | _ => None end) l.

Definition msg_ok (c : msg) : Prop := msg_min <= c.1 <= msg_max /\ zlen c.2 <= max_size /\ bytes_ok c.2.
Definition cell_ok (c : cell) : Prop :=
  match c with
  | Pad _ len _ => 8 <= len <= 2 ^ 31 /\ len mod 8 = 0
  | Msg _ c st => msg_ok c /\ (match st with Pending j => (j <= length c.2)%nat | _ => True end)
  end.

Lemma msg_ok_size c : msg_ok c -> 0 <= zlen c.2 < 2 ^ 31 /\ 0 <= c.1 < 2 ^ 32.
Proof. intros ([] & ? & _). unfold msg_min, msg_max, max_size, header_size in *. lia. Qed.
Lemma msg_entry c : msg_ok c -> zlen c.2 + 8 <= entry_size (zlen c.2) <= 2 ^ 31 /\ entry_size (zlen c.2) mod 8 = 0.
Proof.
  intros Hc. pose proof (msg_ok_size c Hc). pose proof (entry_size_bounds (zlen c.2) ltac:(lia)) as [H1 H2]. split; [|done].
  destruct Hc as (_ & Hl & _). unfold max_size, header_size in Hl. rewrite entry_size_val in * by lia.
  split; [lia|]. assert ((zlen c.2 + 15) / 8 <= (2 ^ 31 + 7) / 8); [|change ((2 ^ 31 + 7) / 8) with (2 ^ 28) in *; lia]. apply Z.div_le_mono; lia.
Qed.

Lemma clen_bounds c : cell_ok c -> 8 <= clen c <= 2 ^ 31 /\ clen c mod 8 = 0.
Proof. destruct c as [o len w|o c st]; cbn; [tauto|]. intros [Hc _]. pose proof (msg_entry c Hc). lia. Qed.
Lemma length_written c : cell_ok c -> zlen (written_of c) <= clen c.
Proof.
  intros Hc. pose proof (clen_bounds c Hc). destruct c as [o len w|o c [|j|]]; cbn [written_of clen cell_ok] in *.
  - destruct w; rewrite ?length_le_bytes; cbn [length]; lia.
  - cbn [length]. lia.
  - pose proof (msg_entry c (proj1 Hc)). rewrite length_app, length_le_bytes, length_take. lia.
  - pose proof (msg_entry c (proj1 Hc)). rewrite length_app, length_le_bytes. lia.
Qed.
Lemma zlen_content c : cell_ok c -> zlen (content c) = clen c.
Proof. intros Hc. pose proof (clen_bounds c Hc). apply zlen_zresize. lia. Qed.
Lemma znth_content c i : cell_ok c -> 0 <= i -> znth i (content c) = znth i (written_of c).
Proof. intros Hc Hi. apply znth_zresize; [done|]. by apply length_written. Qed.

Lemma total_app l1 l2 : total (l1 ++ l2) = total l1 + total l2.
Proof. induction l1 as [|c l1 IH]; cbn; lia. Qed.
Lemma total_size_nonneg l : Forall cell_ok l -> 0 <= total l.
Proof. induction 1 as [|c l Hc _ IH]; cbn; [lia|]. pose proof (clen_bounds c Hc). lia. Qed.
Lemma image_app l1 l2 : image (l1 ++ l2) = image l1 ++ image l2.
Proof. unfold image. by rewrite map_app, concat_app. Qed.
Lemma zlen_image l : Forall cell_ok l -> zlen (image l) = total l.
Proof.
  induction 1 as [|c l Hc _ IH]; [done|]. change (image (c :: l)) with (content c ++ image l). rewrite length_app. cbn [total]. rewrite <- (zlen_content c Hc), <- IH. lia.
Qed.
Lemma messages_app l1 l2 : messages (l1 ++ l2) = messages l1 ++ messages l2.
Proof. apply omap_app. Qed.

(** ** Cells at positions *)

Definition has (L : Z) (cells : list cell) (p : Z) (c : cell) : Prop := exists l1 l2, cells = l1 ++ c :: l2 /\ p = L + total l1.

Lemma split_unique l1 : forall c l2 l1' c' l2', Forall cell_ok (l1 ++ c :: l2) -> l1 ++ c :: l2 = l1' ++ c' :: l2' -> total l1 = total l1' ->
  l1 = l1' /\ c = c' /\ l2 = l2'.
Proof.
  induction l1 as [|x l1 IH]; intros c l2 [|y l1'] c' l2' Hok E Ht; cbn in *.
  - by injection E as -> ->.
  - injection E as -> ->. inversion Hok as [|? ? Hy Hok']; subst. pose proof (clen_bounds y Hy). apply Forall_app in Hok' as [Hl _]. pose proof (total_size_nonneg _ Hl). lia.
  - injection E as -> <-. inversion Hok as [|? ? Hy Hok']; subst. pose proof (clen_bounds c' Hy). apply Forall_app in Hok' as [Hl _]. pose proof (total_size_nonneg _ Hl). lia.
  - injection E as -> E. inversion Hok; subst. destruct (IH c l2 l1' c' l2') as (-> & -> & ->); [done..|lia|done].
Qed.
Lemma has_unique L cells p c c' : Forall cell_ok cells -> has L cells p c -> has L cells p c' -> c = c'.
Proof.
  intros Hok (l1 & l2 & -> & ->) (l1' & l2' & E & Hp). destruct (split_unique l1 c l2 l1' c' l2' Hok E) as (_ & -> & _); [lia|done].
Qed.
Lemma has_app_l L l1 l2 p c : has L l1 p c -> has L (l1 ++ l2) p c.
Proof. intros (a & b & -> & ->). exists a, (b ++ l2). by rewrite <- app_assoc. Qed.
Lemma has_app_r L l1 l2 p c : has (L + total l1) l2 p c -> has L (l1 ++ l2) p c.
Proof. intros (a & b & -> & ->). exists (l1 ++ a), b. rewrite app_assoc, total_app. split; [done|lia]. Qed.
Lemma has_here L c l : has L (c :: l) L c.
Proof. exists [], l. cbn. split; [done|lia]. Qed.
Lemma has_app_inv L l1 l2 p c : has L (l1 ++ l2) p c -> has L l1 p c \/ has (L + total l1) l2 p c.
Proof.
  intros (a & b & E & ->). revert a E L. induction l1 as [|x l1 IH]; intros a E L; cbn in *.
  { right. exists a, b. split; [done|lia]. }
  destruct a as [|y a]; cbn in E; injection E as -> E.
  - left. subst. exists [], l1. done.
  - destruct (IH a E (L + clen y)) as [(a' & b' & -> & Hp)|(a' & b' & -> & Hp)].
    + left. exists (y :: a'), b'. split; [done|]. cbn. lia.
    + right. exists a', b'. split; [done|]. cbn. lia.
Qed.
Lemma has_cons_inv L x l p c : has L (x :: l) p c -> (p = L /\ c = x) \/ has (L + clen x) l p c.
Proof.
  intros H. apply (has_app_inv L [x] l) in H as [(a & b & E & ->)|H].
  - destruct a as [|y [|? ?]]; cbn in E; try discriminate. injection E as -> _. left. cbn. split; [lia|done].
  - right. cbn in H. by replace (L + (clen x + 0)) with (L + clen x) in H by lia.
Qed.
(** Replacing a cell leaves the others. *)
Lemma has_update L l1 c c' l2 p d : clen c' = clen c -> has L (l1 ++ c :: l2) p d -> p <> L + total l1 -> has L (l1 ++ c' :: l2) p d.
Proof.
  intros Hl H Hp. apply has_app_inv in H as [H|H]; [by apply has_app_l|]. apply has_cons_inv in H as [[-> ->]|H]; [done|].
  apply has_app_r, (has_app_r _ [c'] l2). cbn. by replace (L + total l1 + (clen c' + 0)) with (L + total l1 + clen c) by lia.
Qed.
Lemma has_update_inv L l1 c c' l2 p d : Forall cell_ok (l1 ++ c' :: l2) -> clen c' = clen c -> has L (l1 ++ c' :: l2) p d ->
  (p = L + total l1 /\ d = c') \/ (p <> L + total l1 /\ has L (l1 ++ c :: l2) p d).
Proof.
  intros Hok Hl H. destruct (decide (p = L + total l1)) as [->|Hp].
  - left. split; [done|]. eapply has_unique; [done|exact H|]. apply has_app_r, has_here.
  - right. split; [done|]. by apply (has_update L l1 c' c l2).
Qed.

(** ** Memory *)

Section fifo.
Variables (size k : Z).
Hypothesis Hk : 3 <= k <= 61.
Hypothesis Hsize : size = 2 ^ k.

Lemma size_ok : 8 <= size <= 2 ^ 61 /\ size mod 8 = 0.
Proof.
  split; [by apply (size_bounds size k)|]. rewrite Hsize. replace k with (k - 3 + 3) by lia. rewrite Z.pow_add_r by lia. change (2 ^ 3) with 8. apply Z_mod_mult.
Qed.

(** The bytes [D] that were handled and the cells, seen from the head [H]. *)
Definition view (H : Z) (m D : list Z) (cells : list cell) : Prop :=
  forall o, 0 <= o < size -> znth ((H + o) mod size) m = znth o (D ++ image cells).

Lemma mod_shift H o d : 0 <= d -> (H + o) mod size + d < size -> (H + (o + d)) mod size = (H + o) mod size + d.
Proof.
  intros Hd Hs. pose proof size_ok. pose proof (Z.mod_pos_bound (H + o) size ltac:(lia)). rewrite Z.add_assoc, <- Z.add_mod_idemp_l by lia. apply Z.mod_small. lia.
Qed.
Lemma mod_inj H o o' : 0 <= o < size -> 0 <= o' < size -> (H + o) mod size = (H + o') mod size -> o = o'.
Proof.
  intros Ho Ho' E. pose proof size_ok. assert ((o - o') mod size = 0) as Hm.
  { replace (o - o') with ((H + o) - (H + o')) by lia. rewrite Zminus_mod, E, Z.sub_diag. apply Z.mod_0_l. lia. }
  apply Z.mod_divide in Hm as [q Hq]; [|lia].
  assert (-1 < q < 1) by (split; apply (Z.mul_lt_mono_pos_r size); lia). assert (q = 0) as -> by lia. lia.
Qed.

Lemma view_write H m D cells o bs o' : view H m D cells -> zlen m = size -> 0 <= o -> o + zlen bs <= size -> (H + o) mod size + zlen bs <= size -> 0 <= o' < size ->
  znth ((H + o') mod size) (zwrite ((H + o) mod size) bs m) = if (o <=? o') && (o' <? o + zlen bs) then znth (o' - o) bs else znth o' (D ++ image cells).
Proof.
  intros Hv Hm Ho Hb Hx Ho'. pose proof size_ok. pose proof (Z.mod_pos_bound (H + o) size ltac:(lia)). pose proof (Z.mod_pos_bound (H + o') size ltac:(lia)).
  rewrite znth_zwrite, Hv by lia. destruct (Z.leb_spec o o') as [Hle|Hgt]; cbn [andb]; [destruct (Z.ltb_spec o' (o + zlen bs)) as [Hlt|Hge]|].
  - pose proof (mod_shift H o (o' - o) ltac:(lia) ltac:(lia)) as E. replace (o + (o' - o)) with o' in E by lia. rewrite E.
    destruct (Z.leb_spec ((H + o) mod size) ((H + o) mod size + (o' - o))); [|lia]. destruct (Z.ltb_spec ((H + o) mod size + (o' - o)) ((H + o) mod size + zlen bs)); [|lia].
    cbn [andb]. f_equal. lia.
  - destruct ((_ <=? _) && _) eqn:E; [|done]. apply andb_true_iff in E as [E1%Z.leb_le E2%Z.ltb_lt]. exfalso.
    pose proof (mod_shift H o ((H + o') mod size - (H + o) mod size) ltac:(lia) ltac:(lia)) as E.
    assert (o + ((H + o') mod size - (H + o) mod size) = o'); [|lia]. apply (mod_inj H); lia.
  - destruct ((_ <=? _) && _) eqn:E; [|done]. apply andb_true_iff in E as [E1%Z.leb_le E2%Z.ltb_lt]. exfalso.
    pose proof (mod_shift H o ((H + o') mod size - (H + o) mod size) ltac:(lia) ltac:(lia)) as E.
    assert (o + ((H + o') mod size - (H + o) mod size) = o'); [|lia]. apply (mod_inj H); lia.
Qed.

Lemma view_read H m D cells o n l : view H m D cells -> zlen m = size -> 0 <= o -> o + n <= size -> (H + o) mod size + n <= size -> zlen l = n ->
  (forall i, 0 <= i < n -> znth (o + i) (D ++ image cells) = znth i l) -> zslice ((H + o) mod size) n m = l.
Proof.
  intros Hv Hm Ho Hn Hx Hl Hi. pose proof size_ok. pose proof (Z.mod_pos_bound (H + o) size ltac:(lia)). apply znth_ext; [rewrite zlen_zslice; lia|].
  rewrite zlen_zslice by lia. intros i Hin. rewrite znth_zslice, <- Hi by lia. rewrite <- (mod_shift H o i) by lia. apply Hv. lia.
Qed.

(** A cell in the image. *)
Lemma znth_image D l1 c l2 i : Forall cell_ok (l1 ++ c :: l2) -> 0 <= i < clen c -> znth (zlen D + total l1 + i) (D ++ image (l1 ++ c :: l2)) = znth i (written_of c).
Proof.
  intros Hok Hi. apply Forall_app in Hok as [H1 Hc%Forall_cons]. destruct Hc as [Hc H2]. pose proof (total_size_nonneg l1 H1).
  rewrite image_app, znth_app by lia. destruct (Z.ltb_spec (zlen D + total l1 + i) (zlen D)); [lia|]. rewrite znth_app, zlen_image by (done || lia).
  destruct (Z.ltb_spec (zlen D + total l1 + i - zlen D) (total l1)); [lia|]. change (image (c :: l2)) with (content c ++ image l2). rewrite znth_app, zlen_content by (done || lia).
  destruct (Z.ltb_spec (zlen D + total l1 + i - zlen D - total l1) (clen c)); [|lia]. rewrite znth_content by (done || lia). f_equal. lia.
Qed.
Lemma znth_image_other D l1 c c' l2 i : Forall cell_ok (l1 ++ c :: l2) -> cell_ok c' -> clen c' = clen c -> 0 <= i ->
  ~ (zlen D + total l1 <= i < zlen D + total l1 + clen c) -> znth i (D ++ image (l1 ++ c' :: l2)) = znth i (D ++ image (l1 ++ c :: l2)).
Proof.
  intros Hok Hc' Hl Hi Hn. apply Forall_app in Hok as [H1 Hc%Forall_cons]. destruct Hc as [Hc H2]. rewrite !image_app.
  change (image (c :: l2)) with (content c ++ image l2). change (image (c' :: l2)) with (content c' ++ image l2).
  rewrite !(znth_app _ D) by lia. destruct (Z.ltb_spec i (zlen D)); [done|]. rewrite !(znth_app _ (image l1)), zlen_image by (done || lia).
  destruct (Z.ltb_spec (i - zlen D) (total l1)); [done|]. rewrite !znth_app, !zlen_content, Hl by (done || lia).
  destruct (Z.ltb_spec (i - zlen D - total l1) (clen c)); [lia|done].
Qed.

(** A write into a cell gives the cell with those bytes. *)
Lemma view_update H m D l1 c c' l2 off bs :
  view H m D (l1 ++ c :: l2) -> zlen m = size -> Forall cell_ok (l1 ++ c :: l2) -> cell_ok c' -> clen c' = clen c ->
  zlen D + total l1 + clen c <= size -> 0 <= off -> off + zlen bs <= clen c -> (H + (zlen D + total l1)) mod size + clen c <= size ->
  (forall i, 0 <= i < clen c -> znth i (written_of c') = if (off <=? i) && (i <? off + zlen bs) then znth (i - off) bs else znth i (written_of c)) ->
  view H (zwrite ((H + (zlen D + total l1)) mod size + off) bs m) D (l1 ++ c' :: l2).
Proof.
  intros Hv Hm Hok Hc' Hl Hs Ho Hb Hx Hi o' Ho'. pose proof size_ok. pose proof (total_size_nonneg l1 ltac:(by apply Forall_app in Hok as [? _])) as Ht.
  pose proof (Z.mod_pos_bound (H + (zlen D + total l1)) size ltac:(lia)).
  assert (Forall cell_ok (l1 ++ c' :: l2)) as Hok'. { apply Forall_app in Hok as [Hl1 Hcl%Forall_cons]. apply Forall_app. split; [done|]. constructor; tauto. }
  assert (cell_ok c) as Hcc by (apply Forall_app in Hok as [_ Hcl%Forall_cons]; tauto). pose proof (clen_bounds c Hcc).
  assert ((H + (zlen D + total l1)) mod size + off = (H + (zlen D + total l1 + off)) mod size \/ bs = []) as [E | ->].
  { destruct bs as [|b bs]; [by right|]. left. cbn [length] in Hb. by rewrite (mod_shift H (zlen D + total l1) off) by lia. }
  2: { replace (zwrite _ [] m) with m by done. rewrite Hv by done. destruct (decide (zlen D + total l1 <= o' < zlen D + total l1 + clen c)) as [Hin|Hin].
       - replace o' with (zlen D + total l1 + (o' - zlen D - total l1)) by lia. rewrite !znth_image by (done || lia). rewrite Hi by lia. destruct (_ && _) eqn:E; [|done].
         apply andb_true_iff in E as [E1%Z.leb_le E2%Z.ltb_lt]. cbn in E2. lia.
       - symmetry. by apply znth_image_other; [..|lia|]. }
  rewrite E. erewrite view_write by (done || lia). destruct (decide (zlen D + total l1 <= o' < zlen D + total l1 + clen c)) as [Hin|Hin].
  - replace o' with (zlen D + total l1 + (o' - zlen D - total l1)) by lia. set (i := o' - zlen D - total l1). rewrite !znth_image by (done || lia). rewrite Hi by lia.
    destruct (Z.leb_spec off i), (Z.leb_spec (zlen D + total l1 + off) (zlen D + total l1 + i)); try lia; cbn [andb]; try done.
    destruct (Z.ltb_spec i (off + zlen bs)), (Z.ltb_spec (zlen D + total l1 + i) (zlen D + total l1 + off + zlen bs)); try lia; try done. f_equal. lia.
  - rewrite (znth_image_other D l1 c c' l2) by (done || lia).
    destruct (Z.leb_spec (zlen D + total l1 + off) o'), (Z.ltb_spec o' (zlen D + total l1 + off + zlen bs)); cbn [andb]; lia || done.
Qed.

(** ** What a writer may do *)

(** Positions of the head and the tail. *)
Definition world (H T : Z) : Prop := 0 <= H <= T /\ T - H <= size /\ T < 2 ^ 62 /\ H mod 8 = 0 /\ T mod 8 = 0.
Definition future (H T H' T' : Z) : Prop := world H' T' /\ H <= H' /\ T <= T'.

Inductive stage := Pre | PadToWrite (p pad : Z) | ToWrite (p : Z) | Writing (p : Z) (j : nat) | Complete.

(** A reservation of [n] bytes at the tail. *)
Definition fits_at (H T pad n : Z) : Prop :=
  (pad = 0 /\ T mod size + n <= size /\ T + n - H <= size) \/
  (8 <= pad <= 2 ^ 31 /\ pad = size - T mod size /\ T + pad + n - H <= size).
Definition after (T pad : Z) : stage := if pad =? 0 then ToWrite T else PadToWrite T pad.

Fixpoint wsafe {A} (c : msg) (Q : Z -> Z -> stage -> A -> Prop) (p : prog A) (H T : Z) (st : stage) {struct p} : Prop :=
  match p with
  | Ret a => Q H T st a
  | Raise e => st = Pre /\ e <> RuntimeError
  | OutOfFuel => st = Pre
  | LoadHeadCache k => forall H' T' v, future H T H' T' -> 0 <= v <= H' -> wsafe c Q (k v) H' T' st
  | LoadTail k => forall H' T', future H T H' T' -> wsafe c Q (k T') H' T' st
  | LoadHead k => forall H' T', future H T H' T' -> wsafe c Q (k H') H' T' st
  | StoreHeadCache v k => 0 <= v <= H /\ forall H' T', future H T H' T' -> wsafe c Q k H' T' st
  | CasTail e d k =>
      forall H' T', future H T H' T' ->
        wsafe c Q (k false T') H' T' st /\
        (e = T' -> st = Pre /\ msg_ok c /\ exists pad, fits_at H' T' pad (entry_size (zlen c.2)) /\ d = T' + entry_size (zlen c.2) + pad /\
                   (world H' d -> wsafe c Q (k true e) H' d (after T' pad)))
  | Read64 i k =>
      forall H' T', future H T H' T' ->
        exists p, st = Writing p (length c.2) /\ i = p mod size /\ wsafe c Q (k (make_header c.1 (zlen c.2) true)) H' T' st
  | Write64 i v k =>
      forall H' T', future H T H' T' ->
        match st with
        | PadToWrite p pad => i = p mod size /\ v = make_header msg_pad (pad - 8) false /\ wsafe c Q k H' T' (ToWrite (p + pad))
        | ToWrite p => i = p mod size /\ v = make_header c.1 (zlen c.2) true /\ wsafe c Q k H' T' (Writing p 0)
        | Writing p j => i = p mod size /\ j = length c.2 /\ v = make_header c.1 (zlen c.2) false /\ wsafe c Q k H' T' Complete
        | _ => False
        end
  | WriteBytes i bs k =>
      forall H' T', future H T H' T' ->
        exists p j rest, st = Writing p j /\ i = p mod size + 8 + Z.of_nat j /\ drop j c.2 = bs ++ rest /\ wsafe c Q k H' T' (Writing p (j + length bs))
  | StoreHead _ _ | ClearBytes _ _ _ | Handle _ _ _ _ => False
  end.

Lemma future_trans H T H' T' H'' T'' : H <= H' -> T <= T' -> future H' T' H'' T'' -> future H T H'' T''.
Proof. intros H1 H2 (Hw & H3 & H4). split; [done|]. lia. Qed.
Lemma future_refl H T : world H T -> future H T H T.
Proof. intros Hw. split; [done|]. lia. Qed.

Definition monotone {A} (Q : Z -> Z -> stage -> A -> Prop) : Prop := forall H T H' T' st a, H <= H' -> T <= T' -> Q H T st a -> Q H' T' st a.

Lemma wsafe_mono {A} c (Q : Z -> Z -> stage -> A -> Prop) (p : prog A) H T H' T' st : monotone Q -> H <= H' -> T <= T' ->
  wsafe c Q p H T st -> wsafe c Q p H' T' st.
Proof.
  intros HQ HH HT. destruct p; cbn [wsafe]; try done; [by apply HQ | ..].
  4: intros [Hv Hp]; split; [lia|].
  all: try intros Hp; intros; eapply Hp; eauto using future_trans.
Qed.

Lemma wsafe_bind {A B} c (p : prog A) (f : A -> prog B) Q : forall H T st,
  wsafe c (fun H T st a => wsafe c Q (f a) H T st) p H T st -> wsafe c Q (p ≫= f) H T st.
Proof.
  induction p as [a|e| |k0 IH|k0 IH|k0 IH|v p IH|v p IH|e d k0 IH|i0 k0 IH|i0 v p IH|i0 bs p IH|i0 n p IH|m i0 n p IH]; intros H T st; cbn; try done.
  - intros Hp H' T' v Hf Hv. by apply IH, Hp.
  - intros Hp H' T' Hf. by apply IH, Hp.
  - intros Hp H' T' Hf. by apply IH, Hp.
  - intros [Hv Hp]. split; [done|]. intros H' T' Hf. by apply IH, Hp.
  - intros Hp H' T' Hf. destruct (Hp H' T' Hf) as [H1 H2]. split; [by apply IH|]. intros E. destruct (H2 E) as (Hs & Hc & pad & H3 & H4 & H5).
    split; [done|]. split; [done|]. exists pad. split; [done|]. split; [done|]. intros Hw. by apply IH, H5.
  - intros Hp H' T' Hf. destruct (Hp H' T' Hf) as (q & H1 & H2 & H3). exists q. split; [done|]. split; [done|]. by apply IH.
  - intros Hp H' T' Hf. specialize (Hp H' T' Hf). destruct st; try done; naive_solver.
  - intros Hp H' T' Hf. destruct (Hp H' T' Hf) as (q & j & rest & H1 & H2 & H3 & H4). exists q, j, rest. split_and!; try done. by apply IH.
Qed.

Lemma wsafe_impl {A} c (Q Q' : Z -> Z -> stage -> A -> Prop) (p : prog A) : (forall H T st a, Q H T st a -> Q' H T st a) -> forall H T st,
  wsafe c Q p H T st -> wsafe c Q' p H T st.
Proof.
  intros HQ. induction p as [a|e| |k0 IH|k0 IH|k0 IH|v p IH|v p IH|e d k0 IH|i0 k0 IH|i0 v p IH|i0 bs p IH|i0 n p IH|m i0 n p IH]; intros H T st; cbn; eauto.
  - naive_solver.
  - intros Hp H' T' Hf. destruct (Hp H' T' Hf) as [H1 H2]. split; [by apply IH|]. intros E. destruct (H2 E) as (Hs & Hc & pad & H3 & H4 & H5).
    split; [done|]. split; [done|]. exists pad. split; [done|]. split; [done|]. intros Hw. by apply IH, H5.
  - intros Hp H' T' Hf. destruct (Hp H' T' Hf) as (q & H1 & H2 & H3). exists q. split; [done|]. split; [done|]. by apply IH.
  - intros Hp H' T' Hf. specialize (Hp H' T' Hf). destruct st; try done; naive_solver.
  - intros Hp H' T' Hf. destruct (Hp H' T' Hf) as (q & j & rest & H1 & H2 & H3 & H4). exists q, j, rest. split_and!; try done. by apply IH.
Qed.

(** ** The writer's functions *)

Ltac fin := cbn; unfold world in *; split_and!; (done || lia).

Lemma check_access_ok i n : 0 <= i -> 0 <= n -> i + n <= size -> check_access size i n = Ret tt.
Proof.
  intros Hi Hn Hs. pose proof size_ok as Hsz. unfold check_access. rewrite wrap64_small by (unfold u64, M64; lia). by destruct (Z.ltb_spec size (i + n)); [lia|].
Qed.
Lemma land_size x : Z.land x (size - 1) = x mod size.
Proof. by apply (land_mask size k). Qed.
(** Positions are multiples of 8, and there is room for a header at each. *)
Lemma mod_aligned p : p mod 8 = 0 -> 0 <= p mod size /\ p mod size + 8 <= size /\ (p mod size) mod 8 = 0.
Proof.
  intros Hp. pose proof size_ok as [Hs Hs8]. pose proof (Z.mod_pos_bound p size ltac:(lia)).
  assert ((p mod size) mod 8 = 0) as Hm.
  { apply Z.mod_divide in Hs8 as [q Hq]; [|lia]. apply Z.mod_divide in Hp as [r Hr]; [|lia]. apply Z.mod_divide; [lia|].
    rewrite Z.mod_eq by lia. exists (r - q * (p / size)). rewrite Hr at 1. rewrite Hq at 1. lia. }
  split; [lia|]. split; [|done]. pose proof (Z.div_mod size 8). pose proof (Z.div_mod (p mod size) 8). lia.
Qed.

Section writer.
Variable c : msg.
Hypothesis Hc : msg_ok c.
Abbreviation n := (entry_size (zlen c.2)).
Hypothesis Hn : n <= size / 2.

Lemma n_bounds : 8 <= n <= 2 ^ 31 /\ n mod 8 = 0 /\ n < size.
Proof. pose proof size_ok as Hsz. pose proof (msg_entry c Hc). split; [lia|]. split; [tauto|]. assert (size / 2 < size) by (apply Z.div_lt; lia). lia. Qed.

Lemma fits_total_safe hd tl H T : world H T -> 0 <= hd <= H -> 0 <= tl <= T ->
  wsafe c (fun H T st f => world H T /\ tl <= T /\ st = Pre /\
    match f with Fails => True | Continues hd => 0 <= hd <= H /\ tl < hd | Fits hd => 0 <= hd <= H /\ hd <= tl /\ tl - hd + n <= size end)
    (fits_total size n hd tl) H T Pre.
Proof.
  intros Hw Hhd Htl. pose proof size_ok as Hsz. pose proof n_bounds as Hnb. unfold fits_total.
  destruct (Z.le_gt_cases hd tl) as [Hle|Hgt]; [destruct (Z.le_gt_cases (tl - hd + n) size) as [Hfit|Hno]|].
  1: { unfold world in Hw. rewrite (wrap64_small (tl - hd)), (wrap64_small (size - (tl - hd))) by (unfold u64, M64; lia).
    destruct (Z.ltb_spec size (tl - hd)); [lia|]. destruct (Z.ltb_spec (size - (tl - hd)) n); [lia|]. fin. }
  all: match goal with |- context [if ?b then _ else _] => assert (b = true) as -> end.
  1: { unfold world in Hw. rewrite (wrap64_small (tl - hd)) by (unfold u64, M64; lia). apply orb_true_iff. destruct (Z.ltb_spec size (tl - hd)); [by left|]. right.
    rewrite wrap64_small by (unfold u64, M64; lia). apply Z.ltb_lt. lia. }
  2: { unfold world in Hw. apply orb_true_iff. left. apply Z.ltb_lt. unfold wrap64, M64. rewrite <- (Z.mod_add _ 1), Z.mod_small by lia. lia. }
  all: cbn [wsafe]; intros H' T' [Hw' Hf]; unfold world in Hw, Hw'; rewrite greater_spec by lia.
  all: destruct (Z.ltb_spec tl H'); [fin|].
  all: rewrite (wrap64_small (tl - H')), (wrap64_small (size - (tl - H'))) by (unfold u64, M64; lia); destruct (Z.ltb_spec (size - (tl - H')) n); [fin|].
  all: cbn [wsafe]; split; [lia|]; intros Ha Ta [Hwa Hfa]; fin.
Qed.

Lemma fits_block_fits hd tl H' T' : 0 <= hd -> hd <= tl -> tl - hd + n <= size -> world H' T' -> hd <= H' -> tl = T' -> T' mod size + n <= size -> fits_at H' T' 0 n.
Proof. intros. left. lia. Qed.
Lemma fits_block_pads hd0 hd tl H' T' : 0 <= hd0 <= hd -> hd0 <= tl -> tl - hd0 + n <= size -> size - tl mod size < n -> n <= hd mod size ->
  world H' T' -> hd <= H' -> tl = T' -> fits_at H' T' (size - T' mod size) n.
Proof.
  intros Hh0 Hle Hfit Hblock Hidx Hw HH <-. right. pose proof size_ok as Hsz. pose proof n_bounds as Hnb. unfold world in Hw. pose proof (mod_aligned tl ltac:(tauto)) as (Hm0 & Hm8 & _).
  split; [lia|]. split; [done|]. pose proof (Z.div_mod tl size ltac:(lia)) as Hq. pose proof (Z.mod_pos_bound hd size ltac:(lia)).
  assert (hd / size = tl / size) as Hd. { symmetry. apply (Z.div_unique_pos hd size (tl / size) (hd - size * (tl / size))); lia. }
  pose proof (Z.div_mod hd size ltac:(lia)) as Hq'. rewrite Hd in Hq'. lia.
Qed.

Lemma fits_block_safe hd tl H T : world H T -> 0 <= hd <= H -> hd <= tl -> tl - hd + n <= size -> tl <= T ->
  wsafe c (fun H T st r => world H T /\ tl <= T /\ st = Pre /\
    match r with None => True | Some (hd, pad) => 0 <= hd <= H /\ 0 <= pad <= 2 ^ 31 /\ forall H' T', future H T H' T' -> tl = T' -> fits_at H' T' pad n end)
    (fits_block size n hd tl) H T Pre.
Proof.
  intros Hw Hhd Hle Hfit Htl. pose proof size_ok as Hsz. pose proof n_bounds as Hnb. unfold fits_block. rewrite !land_size. pose proof (Z.mod_pos_bound tl size ltac:(lia)).
  destruct (Z.ltb_spec (size - tl mod size) n).
  2: { cbn. split_and!; try done; try lia. intros H' T' [Hw' Hf] HT. eapply (fits_block_fits hd tl); [lia..|done|lia|done|]. rewrite <- HT. lia. }
  destruct (Z.ltb_spec (hd mod size) n).
  - cbn [wsafe]. intros Hb Tb [Hwb Hfb]. rewrite land_size. destruct (Z.ltb_spec (Hb mod size) n); cbn [wsafe]; [split; [done|]; split; [lia|done]|].
    unfold world in Hwb. split; [lia|]. intros Ha Ta [Hwa Hfa]. split; [done|]. split; [lia|]. split; [done|]. split; [lia|]. split; [lia|].
    intros H' T' [Hw' Hf'] HT. rewrite HT. eapply (fits_block_pads hd Hb tl); try done; lia.
  - cbn [wsafe]. split; [done|]. split; [lia|]. split; [done|]. split; [lia|]. split; [lia|].
    intros H' T' [Hw' Hf'] HT. rewrite HT. eapply (fits_block_pads hd hd tl); try done; lia.
Qed.

Definition reserved_at (H T : Z) (st : stage) (r : option (Z * Z)) : Prop :=
  world H T /\ match r with None => st = Pre | Some (i, _) => exists p, st = ToWrite p /\ i = p mod size /\ p mod size + n <= size end.

Lemma reserved_safe H T T' pad : fits_at H T pad n -> world H T' -> T mod 8 = 0 -> wsafe c reserved_at (reserved size pad (T mod size) T) H T' (after T pad).
Proof.
  intros Hf Hw Hm. pose proof size_ok as Hsz. pose proof n_bounds as Hnb. unfold reserved, after. pose proof (mod_aligned T Hm) as (Hm0 & Hm8 & _).
  destruct Hf as [(-> & Hf & _)|(Hp & Hpad & _)].
  - cbn. split; [done|]. by exists T.
  - destruct (Z.eqb_spec pad 0); [lia|]. unfold write64. rewrite check_access_ok by lia. cbn. intros Ha Ta [Hwa Hfa]. unfold header_size. split; [done|]. split; [done|]. split; [done|].
    exists (T + pad). assert ((T + pad) mod size = 0) as ->; [|split_and!; (done || lia)]. rewrite Hpad.
    replace (T + (size - T mod size)) with (0 + (1 + T / size) * size) by (pose proof (Z.div_mod T size ltac:(lia)); lia). rewrite Z.mod_add by lia. apply Z.mod_0_l. lia.
Qed.

Lemma exchange_safe fuel hd tl pad ti H T :
  (forall hd tl pad ti H T, world H T -> 0 <= hd <= H -> 0 <= tl <= T -> wsafe c reserved_at (reserve_loop size fuel n hd tl pad ti) H T Pre) ->
  0 <= hd <= H -> (forall H' T', future H T H' T' -> tl = T' -> 0 <= pad <= 2 ^ 31 /\ fits_at H' T' pad n /\ ti = T' mod size) ->
  wsafe c reserved_at (CasTail tl (wrap64 (tl + n + pad)) (fun ok tl' => if ok then reserved size pad ti tl else reserve_loop size fuel n hd tl' pad ti)) H T Pre.
Proof.
  intros IH Hhd Hf. pose proof n_bounds as Hnb. cbn [wsafe]. intros H' T' Hfut. pose proof Hfut as (Hw & HH & HT). split; [apply IH; unfold world in Hw; lia || done|].
  intros E. split; [done|]. split; [done|]. destruct (Hf H' T' Hfut E) as (Hp & Hfit & ->). subst tl. exists pad. split; [done|]. unfold world in Hw.
  split; [rewrite wrap64_small by (unfold u64, M64; lia); lia|]. intros Hw'. apply reserved_safe; [done|done|tauto].
Qed.

Lemma reserve_loop_safe fuel : forall hd tl pad ti H T, world H T -> 0 <= hd <= H -> 0 <= tl <= T -> wsafe c reserved_at (reserve_loop size fuel n hd tl pad ti) H T Pre.
Proof.
  induction fuel as [|fuel IH]; intros hd tl pad ti H T Hw Hhd Htl; cbn [reserve_loop]; [done|].
  apply wsafe_bind. eapply wsafe_impl; [|by apply fits_total_safe]. clear Hw Hhd. intros Ha Ta st [|hd'|hd'] (Hw & HT & -> & Hr); cbn beta iota.
  - by split.
  - apply exchange_safe; [done|tauto|]. intros H' T' (Hw' & HH & _) E. unfold world in Hw'. lia.
  - apply wsafe_bind. eapply wsafe_impl; [|apply (fits_block_safe hd' tl); tauto]. clear Hw HT Hr. intros Hb Tb st [[hd'' pad']|] (Hw & HT & -> & Hr).
    + rewrite land_size. apply exchange_safe; [done|tauto|]. destruct Hr as (_ & Hp & Hr). intros H' T' Hf E. split; [done|]. split; [by apply Hr|]. by rewrite E.
    + by split.
Qed.

Lemma reserve_safe fuel H T : world H T -> wsafe c reserved_at (reserve size fuel n) H T Pre.
Proof.
  intros Hw. unfold reserve. cbn [wsafe]. intros H1 T1 hd [Hw1 _] Hhd H2 T2 (Hw2 & HH & HT). apply reserve_loop_safe; [done|lia|]. unfold world in Hw2. lia.
Qed.
Lemma reserve_wait_safe fuel tries : forall H T, world H T -> wsafe c reserved_at (reserve_wait size fuel tries n) H T Pre.
Proof.
  induction tries as [|tries IH]; intros H T Hw; cbn [reserve_wait]; [done|]. apply wsafe_bind. eapply wsafe_impl; [|by apply reserve_safe].
  intros Ha Ta st [[i id]|] [Hwa Hr]; [by split|]. subst st. by apply IH.
Qed.

Definition ends (H T : Z) (st : stage) (b : bool) : Prop := if b then st = Complete else st = Pre.

Lemma write_sections_safe l : forall p j H T, world H T -> (j <= length c.2)%nat -> drop j c.2 = concat l -> 0 <= p mod size -> p mod size + n <= size ->
  wsafe c (fun H T st r => world H T /\ st = Writing p (length c.2) /\ is_Some r) (write_sections size (Some (p mod size + 8 + Z.of_nat j)) l) H T (Writing p j).
Proof.
  pose proof (msg_entry c Hc) as He. induction l as [|x l IH]; intros p j H T Hw Hj Hd Hp Hs; cbn [write_sections].
  - cbn. apply (f_equal length) in Hd. rewrite length_drop in Hd. cbn in Hd. replace j with (length c.2) by lia. by split_and!.
  - apply wsafe_bind. cbn [write_bytes concat] in *. pose proof (f_equal length Hd) as Hl. rewrite length_drop, length_app in Hl.
    rewrite check_access_ok by lia. cbn. intros Ha Ta [Hwa _]. exists p, j, (concat l). split_and!; [done|done|done|].
    replace (p mod size + 8 + Z.of_nat j + zlen x) with (p mod size + 8 + Z.of_nat (j + length x)) by lia. apply IH; try done; [lia|].
    replace (drop (j + length x) c.2) with (drop (length x) (drop j c.2)) by (rewrite drop_drop; f_equal; lia). by rewrite Hd, drop_app_length.
Qed.

Lemma finish_safe p H T : world H T -> 0 <= p mod size -> p mod size + n <= size ->
  wsafe c (fun H T st _ => st = Complete) (finish size (Some (p mod size + 8))) H T (Writing p (length c.2)).
Proof.
  intros Hw Hp Hs. pose proof (msg_entry c Hc) as He. pose proof (msg_ok_size c Hc) as Hz. unfold finish, header_size. replace (p mod size + 8 - 8) with (p mod size) by lia.
  unfold read64, write64. rewrite check_access_ok by lia. cbn. intros H1 T1 Hf1. exists p. split_and!; [done|done|]. intros H2 T2 Hf2. rewrite make_header_again by lia. by split_and!.
Qed.

End writer.

(** Every call of a writer is safe from any world. *)
Lemma write_multiple_safe fuel m wait sections H T : world H T -> bytes_ok (concat sections) ->
  wsafe (m, concat sections) ends (write_multiple size fuel m wait sections) H T Pre.
Proof.
  intros Hw Hb. set (c := (m, concat sections)). unfold write_multiple, prepare. destruct (_ || _) eqn:Em; [by cbn|]. apply orb_false_iff in Em as [E1%Z.ltb_ge E2%Z.ltb_ge].
  destruct (Z.ltb_spec max_size (zlen (concat sections))) as [|E3]; [by cbn|]. assert (msg_ok c) as Hc by done. change (zlen (concat sections)) with (zlen c.2).
  destruct (Z.ltb_spec (rmax size) (entry_size (zlen c.2))) as [|E4]; [by cbn|]. unfold rmax, max_reservation_size in E4. pose proof (msg_entry c Hc) as He.
  apply wsafe_bind, wsafe_bind. eapply wsafe_impl; [|by apply reserve_safe]. clear Hw. intros Ha Ta st r Hr.
  apply wsafe_bind. apply (wsafe_impl _ (reserved_at c)).
  - clear Hr. intros H1 T1 st1 [[i id]|] [Hw1 Hr]; [|by cbn]. destruct Hr as (p & -> & -> & Hs). pose proof size_ok as Hsz. pose proof (Z.mod_pos_bound p size ltac:(lia)).
    unfold write64, header_size. rewrite check_access_ok by lia. cbn. intros H2 T2 [Hw2 _]. split_and!; [done|done|].
    replace (p mod size + 8) with (p mod size + 8 + Z.of_nat 0) at 1 by lia. apply wsafe_bind. eapply wsafe_impl; [|apply (write_sections_safe c Hc); by (lia || cbn)].
    intros H3 T3 st3 r3 (Hw3 & -> & [x ->]). apply wsafe_bind. eapply wsafe_impl; [|apply (finish_safe c Hc); done || lia]. by intros H4 T4 st4 [] ->.
  - destruct r as [[i id]|]; [exact Hr|]. destruct Hr as [Hw ->]. destruct wait; [by apply reserve_wait_safe | by split].
Qed.

(** ** What the reader may do *)

(** Handled [adv] bytes, with a message that was seen next; clearing, with [j]
    bytes cleared; the head has been advanced. *)
Inductive rstage := RRead (adv : Z) (cur : option msg) | RClear (adv j : Z) | RDone.

Fixpoint rsafe {A} (Q : Z -> rstage -> A -> Prop) (p : prog A) (H : Z) (st : rstage) {struct p} : Prop :=
  match p with
  | Ret a => Q H st a
  | LoadHead k => rsafe Q (k H) H st
  | Read64 i k =>
      exists adv, st = RRead adv None /\ 0 <= adv /\ i = H mod size + adv /\ H mod size + adv + 8 <= size /\
        rsafe Q (k 0) H st /\
        (forall c, msg_ok c -> rsafe Q (k (make_header c.1 (zlen c.2) true)) H st) /\
        (forall len, 8 <= len <= 2 ^ 31 -> H mod size + adv + len = size -> rsafe Q (k (make_header msg_pad (len - 8) false)) H (RRead (adv + len) None)) /\
        (forall c, msg_ok c -> H mod size + adv + entry_size (zlen c.2) <= size -> rsafe Q (k (make_header c.1 (zlen c.2) false)) H (RRead adv (Some c)))
  | Handle m i n k =>
      exists adv c, st = RRead adv (Some c) /\ m = c.1 /\ i = H mod size + adv + 8 /\ n = zlen c.2 /\ H mod size + adv + entry_size (zlen c.2) <= size /\ rsafe Q k H (RRead (adv + entry_size (zlen c.2)) None)
  | ClearBytes i n k =>
      exists adv j, (st = RClear adv j \/ (st = RRead adv None /\ j = 0)) /\ i = H mod size + j /\ Z.of_nat n = adv - j /\ 0 <= j /\
        H mod size + adv <= size /\ rsafe Q k H (RClear adv adv)
  | StoreHead v k => exists adv, st = RClear adv adv /\ v = H + adv /\ rsafe Q k (H + adv) RDone
  | _ => False
  end.

Lemma rsafe_bind {A B} (p : prog A) (f : A -> prog B) Q : forall H st, rsafe (fun H st a => rsafe Q (f a) H st) p H st -> rsafe Q (p ≫= f) H st.
Proof. induction p; intros H0 st; cbn; try done; naive_solver. Qed.
Lemma rsafe_impl {A} (Q Q' : Z -> rstage -> A -> Prop) (p : prog A) : (forall H st a, Q H st a -> Q' H st a) -> forall H st, rsafe Q p H st -> rsafe Q' p H st.
Proof. intros HQ. induction p; intros H0 st; cbn; try done; naive_solver. Qed.

Lemma read_loop_safe fuel : forall limit H adv count, 0 <= adv -> H mod size + adv <= size -> (H mod size + adv) mod 8 = 0 -> size - (H mod size + adv) < 8 * Z.of_nat fuel ->
  rsafe (fun H' st r => H' = H /\ st = RRead r.1 None /\ 0 <= r.1 /\ H mod size + r.1 <= size) (read_loop size fuel limit (H mod size) (size - H mod size) adv count) H (RRead adv None).
Proof.
  pose proof size_ok as [Hsz Hsz8]. induction fuel as [|fuel IH]; intros limit H adv count Ha Hs H8 Hf; [lia|]. cbn [read_loop].
  pose proof (Z.mod_pos_bound H size ltac:(lia)) as Hm. destruct (Z.ltb_spec adv (size - H mod size)); cbn [andb]; [|fin]. destruct (count <? limit); [|fin].
  assert (H mod size + adv + 8 <= size) as Hr.
  { pose proof (Z.div_mod size 8 ltac:(lia)). pose proof (Z.div_mod (H mod size + adv) 8 ltac:(lia)). lia. }
  unfold read64. rewrite check_access_ok by lia. cbn [mbind prog_bind rsafe]. exists adv. split; [done|]. split; [lia|]. split; [done|]. split; [lia|]. split_and!.
  - fin.
  - intros c Hc. pose proof (msg_ok_size c Hc). rewrite length_make_header by lia. rewrite (pending_flag _ true) by lia. fin.
  - intros len Hl E. assert (0 <= msg_pad < 2 ^ 32) by (unfold msg_pad; lia). rewrite length_make_header, message_make_header by lia. rewrite (pending_flag _ false) by lia. cbn [negb].
    change (msg_pad =? msg_none) with false. change (msg_pad =? msg_pad) with true. cbn iota. unfold header_size. replace (adv + 8 + (0 * 2 ^ 31 + (len - 8))) with (adv + len) by lia.
    apply IH; try lia. by replace (H mod size + (adv + len)) with size by lia.
  - intros c Hc E. pose proof (msg_ok_size c Hc) as Hz. pose proof (msg_entry c Hc) as He. destruct Hc as [[H1 H2] _]. unfold msg_min, msg_max in *.
    rewrite length_make_header, message_make_header by lia. rewrite (pending_flag _ false) by lia. cbn [negb].
    destruct (Z.eqb_spec c.1 msg_none); [unfold msg_none in *; lia|]. destruct (Z.eqb_spec c.1 msg_pad); [unfold msg_pad in *; lia|]. replace (0 * 2 ^ 31 + zlen c.2) with (zlen c.2) by lia.
    rewrite check_access_ok by lia. cbn [mbind prog_bind rsafe]. exists adv, c. unfold header_size. split_and!; [done..|]. apply IH; try lia. rewrite Z.add_assoc, Z.add_mod, H8, (proj2 He) by lia. done.
Qed.

Lemma read_safe limit H : 0 <= H < 2 ^ 62 -> H mod 8 = 0 -> rsafe (fun _ st _ => st = RRead 0 None \/ st = RDone) (read size limit) H (RRead 0 None).
Proof.
  intros HH H8. pose proof size_ok as [Hsz _]. cbn [read rsafe]. rewrite land_size. pose proof (mod_aligned H H8) as (Hm & Hmle & Hm8).
  apply rsafe_bind. eapply rsafe_impl; [|apply read_loop_safe; [lia|lia|by rewrite Z.add_0_r|]].
  2: { pose proof (Z.div_mod size 8 ltac:(lia)). pose proof (Z.mod_pos_bound size 8 ltac:(lia)). lia. }
  intros H' st [advance count] (-> & -> & Ha & Hs). cbn [fst] in *. destruct (Z.ltb_spec 0 advance); [|cbn; left; by replace advance with 0 by lia].
  rewrite check_access_ok by lia. cbn [mbind prog_bind rsafe]. exists advance, 0. split; [by right|]. split_and!; try lia. exists advance. split_and!; [done|rewrite wrap64_small; [done|unfold u64, M64; lia]|by right].
Qed.

(** ** The invariant *)

Definition is_pad (c : cell) : bool := match c with Pad _ _ _ => true | _ => false end.

(** No cell crosses the end of the buffer, and a padding reaches it. *)
Fixpoint lay (p : Z) (cells : list cell) : Prop :=
  match cells with
  | [] => True
  | c :: l => cell_ok c /\ p mod size + clen c <= size /\ (is_pad c = true -> p mod size + clen c = size) /\ lay (p + clen c) l
  end.
Lemma lay_ok p l : lay p l -> Forall cell_ok l.
Proof. revert p. induction l as [|c l IH]; intros p; cbn; [constructor|]. intros (H1 & _ & _ & H2). constructor; eauto. Qed.
Lemma lay_app p l1 l2 : lay p (l1 ++ l2) <-> lay p l1 /\ lay (p + total l1) l2.
Proof.
  revert p. induction l1 as [|c l1 IH]; intros p; cbn; [rewrite Z.add_0_r; tauto|]. rewrite IH. replace (p + clen c + total l1) with (p + (clen c + total l1)) by lia. tauto.
Qed.
Lemma lay_update p l1 c c' l2 : lay p (l1 ++ c :: l2) -> cell_ok c' -> clen c' = clen c -> is_pad c' = is_pad c -> lay p (l1 ++ c' :: l2).
Proof. rewrite !lay_app. cbn. intros [H1 H2] Hc -> ->. tauto. Qed.

Definition stage_ok (L : Z) (cells : list cell) (tid : nat) (c : msg) (st : stage) : Prop :=
  match st with
  | PadToWrite p pad => has L cells p (Pad tid pad false) /\ has L cells (p + pad) (Msg tid c Reserved)
  | ToWrite p => has L cells p (Msg tid c Reserved)
  | Writing p j => has L cells p (Msg tid c (Pending j))
  | Pre | Complete => True
  end.
Definition points (st : stage) (p : Z) : Prop :=
  match st with PadToWrite q pad => p = q \/ p = q + pad | ToWrite q => p = q | Writing q _ => p = q | _ => False end.
Definition is_pre (st : stage) : bool := match st with Pre => true | _ => false end.

Definition of_writer (tid : nat) (l : list (nat * msg)) : list (nat * msg) := filter (fun x => x.1 = tid) l.
Definition in_flight (tid : nat) (w : option (msg * prog bool)) (st : stage) : list (nat * msg) :=
  match w with Some (c, _) => if is_pre st then [] else [(tid, c)] | None => [] end.
Definition read_ends (_ : Z) (st : rstage) (_ : Z) : Prop := st = RRead 0 None \/ st = RDone.
Definition rst_ok (rst : rstage) (D : list Z) (cells : list cell) : Prop :=
  match rst with
  | RRead adv None => zlen D = adv
  | RRead adv (Some c) => zlen D = adv /\ exists o l, cells = Msg o c Finished :: l
  | RClear adv j => zlen D = adv /\ 0 <= j <= adv /\ forall i, 0 <= i < j -> znth i D = 0
  | RDone => D = []
  end.

Record Inv (M : Machine) (D : list Z) (cells : list cell) (rst : rstage) (stg : nat -> stage) : Prop := {
  i_world : world (head (buf M)) (tail (buf M));
  i_cache : 0 <= head_cache (buf M) <= head (buf M);
  i_mem : zlen (mem (buf M)) = size;
  i_tail : tail (buf M) = head (buf M) + zlen D + total cells;
  i_lay : lay (head (buf M) + zlen D) cells;
  i_view : view (head (buf M)) (mem (buf M)) D cells;
  i_writers : forall tid c p, writers M !! tid = Some (c, p) ->
    stage_ok (head (buf M) + zlen D) cells tid c (stg tid) /\ wsafe c ends p (head (buf M)) (tail (buf M)) (stg tid);
  i_cover : forall p c, has (head (buf M) + zlen D) cells p c -> unfinished c = true -> is_Some (writers M !! owner c) /\ points (stg (owner c)) p;
  i_log : forall tid, of_writer tid (accepted M) = of_writer tid (completed M) ++ in_flight tid (writers M !! tid) (stg tid);
  i_reader : match reader M with None => rst = RDone | Some p => rsafe read_ends p (head (buf M)) rst end;
  i_rst : rst_ok rst D cells;
  i_deliv : map snd (accepted M) = delivered M ++ messages cells
}.

Lemma ends_mono : monotone ends.
Proof. by intros H T H' T' st a _ _. Qed.

Definition with_writer (M : Machine) (b : Buf) (tid : nat) (c : msg) (p : prog bool) : Machine :=
  mkMachine b (<[tid := (c, p)]> (writers M)) (reader M) (accepted M) (delivered M) (completed M).

(** A step of a writer that changes neither the memory nor the tail. *)
Lemma inv_silent M D cells rst stg tid c p p' hc : Inv M D cells rst stg -> writers M !! tid = Some (c, p) -> 0 <= hc <= head (buf M) ->
  wsafe c ends p' (head (buf M)) (tail (buf M)) (stg tid) -> Inv (with_writer M (set_head_cache hc (buf M)) tid c p') D cells rst stg.
Proof.
  intros [] Hp Hhc Hs. constructor; cbn; try done.
  - intros tid' c' q. destruct (decide (tid = tid')) as [<-|Hne]; [rewrite lookup_insert_eq|rewrite lookup_insert_ne by done; eauto].
    intros [= <- <-]. split; [|done]. by destruct (i_writers0 tid c p Hp).
  - intros q d Hh Hu. destruct (i_cover0 q d Hh Hu) as [H1 H2]. split; [|done]. destruct (decide (tid = owner d)) as [<-|Hne]; [rewrite lookup_insert_eq; by eexists|by rewrite lookup_insert_ne].
  - intros tid'. destruct (decide (tid = tid')) as [<-|Hne]; [|rewrite lookup_insert_ne by done; apply i_log0]. rewrite lookup_insert_eq. specialize (i_log0 tid). rewrite Hp in i_log0. exact i_log0.
Qed.

Lemma stage_has L cells tid c st q d : stage_ok L cells tid c st -> points st q -> Forall cell_ok cells -> has L cells q d -> owner d = tid /\ unfinished d = true.
Proof.
  intros Hst Hp Hok Hd. destruct st as [|a pad|a|a j|]; cbn in Hp; try done.
  - destruct Hst as [H1 H2]. destruct Hp as [-> | ->]; [by rewrite (has_unique _ _ _ _ _ Hok Hd H1) | by rewrite (has_unique _ _ _ _ _ Hok Hd H2)].
  - subst. by rewrite (has_unique _ _ _ _ _ Hok Hd Hst).
  - subst. by rewrite (has_unique _ _ _ _ _ Hok Hd Hst).
Qed.

(** The stage of another writer does not see the change of a cell. *)
Lemma stage_update L l1 d d' l2 tid c st : Forall cell_ok (l1 ++ d :: l2) -> clen d' = clen d -> owner d <> tid -> stage_ok L (l1 ++ d :: l2) tid c st -> stage_ok L (l1 ++ d' :: l2) tid c st.
Proof.
  intros Hok Hl Ho Hst. assert (forall q x, has L (l1 ++ d :: l2) q x -> owner x = tid -> has L (l1 ++ d' :: l2) q x) as Hh.
  { intros q x Hx Hox. apply (has_update L l1 d d' l2); [done..|]. intros ->. destruct Ho. rewrite <- Hox. f_equal. eapply has_unique; [done|apply has_app_r, has_here|done]. }
  destruct st; cbn in *; try done; [|by apply Hh..]. destruct Hst as [H1 H2]. split; by apply Hh.
Qed.

Lemma inv_cell M D l1 d d' l2 rst stg tid c p p' st' off bs : Inv M D (l1 ++ d :: l2) rst stg -> writers M !! tid = Some (c, p) ->
  owner d = tid -> owner d' = tid -> cell_ok d' -> clen d' = clen d -> is_pad d' = is_pad d -> messages [d'] = messages [d] -> unfinished d = true ->
  0 <= off -> off + zlen bs <= clen d ->
  (forall i, 0 <= i < clen d -> znth i (written_of d') = if (off <=? i) && (i <? off + zlen bs) then znth (i - off) bs else znth i (written_of d)) ->
  is_pre (stg tid) = false -> is_pre st' = false -> stage_ok (head (buf M) + zlen D) (l1 ++ d' :: l2) tid c st' ->
  (unfinished d' = true -> points st' (head (buf M) + zlen D + total l1)) ->
  (forall q, points (stg tid) q -> q <> head (buf M) + zlen D + total l1 -> points st' q) ->
  wsafe c ends p' (head (buf M)) (tail (buf M)) st' ->
  Inv (with_writer M (set_mem (zwrite ((head (buf M) + zlen D + total l1) mod size + off) bs (mem (buf M))) (buf M)) tid c p') D (l1 ++ d' :: l2) rst (<[tid := st']> stg).
Proof.
  intros [] Hp Ho Ho' Hd' Hl Hpad Hmsg Hu Hoff Hbs Hw Hpre Hpre' Hst Hun Hpts Hsafe. pose proof (lay_ok _ _ i_lay0) as Hok.
  pose proof (lay_update _ _ _ d' _ i_lay0 Hd' Hl Hpad) as Hlay'. pose proof (lay_ok _ _ Hlay') as Hok'.
  constructor; cbn [buf with_writer set_mem head tail head_cache mem writers reader accepted delivered completed]; try done.
  - by rewrite zlen_zwrite.
  - rewrite i_tail0, !total_app. cbn. lia.
  - rewrite <- (Z.add_assoc (head (buf M))). pose proof i_lay0 as [_ Hl2]%lay_app. cbn in Hl2. unfold world in i_world0.
    assert (0 <= total l2) by (apply total_size_nonneg; apply Forall_app in Hok as [_ Hok%Forall_cons]; tauto). rewrite total_app in i_tail0. cbn in i_tail0.
    apply (view_update _ _ _ _ d); try done; [lia|]. replace (head (buf M) + (zlen D + total l1)) with (head (buf M) + zlen D + total l1) by lia. tauto.
  - intros tid' c' q. destruct (decide (tid = tid')) as [<-|Hne].
    + rewrite lookup_insert_eq, fn_lookup_insert. by intros [= <- <-].
    + rewrite lookup_insert_ne, fn_lookup_insert_ne by done. intros Hq. destruct (i_writers0 tid' c' q Hq) as [H1 H2]. split; [|done]. eapply stage_update; [..|exact H1]; congruence.
  - intros q x Hx Hxu. assert (is_Some (<[tid:=(c, p')]> (writers M) !! owner x) /\ (owner x = tid -> points st' q) /\ (owner x <> tid -> points (stg (owner x)) q)) as (H1 & H2 & H3).
    { destruct (has_update_inv _ l1 d d' l2 q x Hok' Hl Hx) as [[-> ->]|[Hq Hx']].
      - rewrite Ho', lookup_insert_eq. split; [by eexists|]. split; [by intros _; apply Hun|done].
      - destruct (i_cover0 q x Hx' Hxu) as [H1 H2]. split; [destruct (decide (tid = owner x)) as [<-|Hne]; [rewrite lookup_insert_eq; by eexists|by rewrite lookup_insert_ne]|].
        split; [|done]. intros E. rewrite E in H2. by apply Hpts. }
    split; [done|]. destruct (decide (owner x = tid)) as [E|Hne]; [rewrite E, fn_lookup_insert; by apply H2|rewrite fn_lookup_insert_ne by done; by apply H3].
  - intros tid'. destruct (decide (tid = tid')) as [<-|Hne]; [|rewrite lookup_insert_ne, fn_lookup_insert_ne by done; apply i_log0].
    rewrite lookup_insert_eq, fn_lookup_insert. specialize (i_log0 tid). rewrite Hp in i_log0. unfold in_flight in *. by rewrite Hpre' , Hpre in *.
  - destruct rst as [adv [c0|]|adv j|]; cbn in *; try done. destruct i_rst0 as [HD (o & l & E)]. split; [done|]. destruct l1 as [|x l1]; cbn in E; injection E as -> E; [done|]. by exists o, (l1 ++ d' :: l2).
  - rewrite i_deliv0. f_equal. rewrite !messages_app. f_equal. change (messages ([d] ++ l2) = messages ([d'] ++ l2)). by rewrite !messages_app, Hmsg.
Qed.

(** ** Steps of a writer *)

Lemma set_head_cache_same b : set_head_cache (head_cache b) b = b.
Proof. by destruct b. Qed.

(** Writing the header of a cell over another header or over nothing. *)
Lemma written_header h h' rest (l : list Z) i : l = [] /\ rest = [] \/ l = le_bytes 8 h' ++ rest ->
  0 <= i -> znth i (le_bytes 8 h ++ rest) = if (0 <=? i) && (i <? 0 + zlen (le_bytes 8 h)) then znth (i - 0) (le_bytes 8 h) else znth i l.
Proof.
  intros Hl Hi. rewrite znth_app by lia. rewrite Z.sub_0_r, Z.add_0_l. destruct (Z.leb_spec 0 i); [|lia]. cbn [andb]. destruct (Z.ltb_spec i (zlen (le_bytes 8 h))) as [|Hge]; [done|].
  destruct Hl as [[-> ->]| ->]; [by rewrite !znth_over by (cbn [length]; lia)|]. rewrite length_le_bytes in *. rewrite znth_app by lia. rewrite length_le_bytes. by destruct (Z.ltb_spec i (Z.of_nat 8)); [lia|].
Qed.
Lemma written_byte h (l : list Z) j x i : l !! j = Some x -> 0 <= i ->
  znth i (le_bytes 8 h ++ take (S j) l) = if (8 + Z.of_nat j <=? i) && (i <? 8 + Z.of_nat j + zlen [x]) then znth (i - (8 + Z.of_nat j)) [x] else znth i (le_bytes 8 h ++ take j l).
Proof.
  intros Hx Hi. rewrite (take_S_r _ _ x) by done. rewrite app_assoc. pose proof (lookup_lt_Some _ _ _ Hx) as Hl.
  rewrite (znth_app i (le_bytes 8 h ++ take j l)) by lia. rewrite length_app, length_le_bytes, length_take. replace (Z.of_nat (8 + j `min` length l)) with (8 + Z.of_nat j) by lia.
  destruct (Z.ltb_spec i (8 + Z.of_nat j)), (Z.leb_spec (8 + Z.of_nat j) i); try lia; cbn [andb]; [done|]. cbn [length]. destruct (Z.ltb_spec i (8 + Z.of_nat j + Z.of_nat 1)); [done|].
  rewrite !znth_over; [done| |cbn; lia]. rewrite length_app, length_le_bytes, length_take. lia.
Qed.

Lemma read_header M D l1 d l2 rst stg h rest : Inv M D (l1 ++ d :: l2) rst stg -> written_of d = le_bytes 8 h ++ rest -> u64 h ->
  le_val (zslice ((head (buf M) + zlen D + total l1) mod size) 8 (mem (buf M))) = h.
Proof.
  intros [] Hd Hh. pose proof (lay_ok _ _ i_lay0) as Hok. pose proof i_lay0 as [_ (Hc & Hx & _)]%lay_app. pose proof (clen_bounds d Hc). unfold world in i_world0.
  pose proof (total_size_nonneg l1 ltac:(by apply Forall_app in Hok as [? _])). assert (0 <= total l2) by (apply total_size_nonneg; apply Forall_app in Hok as [_ ?%Forall_cons]; tauto).
  rewrite total_app in i_tail0. cbn in i_tail0. replace (head (buf M) + zlen D + total l1) with (head (buf M) + (zlen D + total l1)) in * by lia.
  erewrite (view_read _ _ _ _ _ _ (le_bytes 8 h)); [by apply le_val_u64|done|done|lia|lia|lia|by rewrite length_le_bytes|].
  intros i Hi. rewrite znth_image, Hd by (done || lia). rewrite znth_app, length_le_bytes by lia. by destruct (Z.ltb_spec i (Z.of_nat 8)); [|lia].
Qed.

Lemma stage_cell L cells p d : has L cells p d -> exists l1 l2, cells = l1 ++ d :: l2 /\ p = L + total l1.
Proof. done. Qed.

Lemma inv_write64 M D cells rst stg tid c p i v q : Inv M D cells rst stg -> writers M !! tid = Some (c, p) -> p = Write64 i v q ->
  exists cells stg, Inv (with_writer M (set_mem (zwrite i (le_bytes 8 v) (mem (buf M))) (buf M)) tid c q) D cells rst stg.
Proof.
  intros HI Hp ->. pose proof HI as []. destruct (i_writers0 tid c _ Hp) as [Hst Hs]. specialize (Hs _ _ (future_refl _ _ i_world0)).
  pose proof (lay_ok _ _ i_lay0) as Hok. destruct (stg tid) as [|a pad|a|a j|] eqn:Ea; try done; cbn in Hst.
  - destruct Hs as (-> & -> & Hs). destruct Hst as [(l1 & l2 & -> & ->) H2]. eexists _, _. pose proof (proj1 (Forall_app _ _ _) Hok) as [_ [Hc _]%Forall_cons]. pose proof Hc as [Hb Hb8].
    rewrite <- (Z.add_0_r ((_ + total l1) mod size)). apply (inv_cell _ _ _ _ (Pad tid pad true) _ _ _ _ _ _ _ (ToWrite (head (buf M) + zlen D + total l1 + pad)) _ _ HI Hp); try done.
    + rewrite length_le_bytes. cbn. lia.
    + intros i Hi. cbn [written_of]. rewrite <- (app_nil_r (le_bytes 8 _)) at 1. apply (written_header _ 0); [by left|lia].
    + by rewrite Ea.
    + by apply (has_update _ _ (Pad tid pad false)); [|exact H2|lia].
    + rewrite Ea. cbn. lia.
  - destruct Hs as (-> & -> & Hs). destruct Hst as (l1 & l2 & -> & ->). pose proof (proj1 (Forall_app _ _ _) Hok) as [_ [Hc _]%Forall_cons]. pose proof Hc as [Hcm _]. pose proof (msg_entry c Hcm).
    eexists _, _. rewrite <- (Z.add_0_r ((_ + total l1) mod size)). apply (inv_cell _ _ _ _ (Msg tid c (Pending 0)) _ _ _ _ _ _ _ (Writing (head (buf M) + zlen D + total l1) 0) _ _ HI Hp); try done.
    + split; [done|lia].
    + rewrite length_le_bytes. cbn. lia.
    + intros i Hi. cbn [written_of]. rewrite take_0. apply (written_header _ 0); [by left|lia].
    + by rewrite Ea.
    + cbn. apply has_app_r, has_here.
    + rewrite Ea. done.
  - destruct Hs as (-> & -> & -> & Hs). destruct Hst as (l1 & l2 & -> & ->). pose proof (proj1 (Forall_app _ _ _) Hok) as [_ [Hc _]%Forall_cons]. pose proof Hc as [Hcm _]. pose proof (msg_entry c Hcm).
    eexists _, _. rewrite <- (Z.add_0_r ((_ + total l1) mod size)). apply (inv_cell _ _ _ _ (Msg tid c Finished) _ _ _ _ _ _ _ Complete _ _ HI Hp); try done.
    + rewrite length_le_bytes. cbn. lia.
    + intros i Hi. cbn [written_of]. rewrite firstn_all. eapply written_header; [by right|lia].
    + by rewrite Ea.
    + rewrite Ea. by intros q' ->.
Qed.

Lemma inv_write_byte M D cells rst stg tid c p i x bs q : Inv M D cells rst stg -> writers M !! tid = Some (c, p) -> p = WriteBytes i (x :: bs) q ->
  exists cells stg, Inv (with_writer M (set_mem (zwrite i [x] (mem (buf M))) (buf M)) tid c (WriteBytes (i + 1) bs q)) D cells rst stg.
Proof.
  intros HI Hp ->. pose proof HI as []. destruct (i_writers0 tid c _ Hp) as [Hst Hs]. pose proof (Hs _ _ (future_refl _ _ i_world0)) as (a & j & rest & Ea & -> & Hd & _).
  rewrite Ea in Hst. destruct Hst as (l1 & l2 & -> & ->). pose proof (lay_ok _ _ i_lay0) as Hok. pose proof (proj1 (Forall_app _ _ _) Hok) as [_ [Hc _]%Forall_cons]. pose proof Hc as [Hcm Hj].
  pose proof (msg_entry c Hcm). assert (c.2 !! j = Some x) as Hx by (by rewrite <- (Nat.add_0_r j), <- lookup_drop, Hd). pose proof (lookup_lt_Some _ _ _ Hx).
  eexists _, _. rewrite <- Z.add_assoc. apply (inv_cell _ _ _ _ (Msg tid c (Pending (S j))) _ _ _ _ _ _ _ (Writing (head (buf M) + zlen D + total l1) (S j)) _ _ HI Hp); try done.
  - lia.
  - cbn [clen length]. lia.
  - intros i Hi. cbn [written_of]. by apply written_byte; [|lia].
  - by rewrite Ea.
  - apply has_app_r, has_here.
  - rewrite Ea. done.
  - cbn [wsafe]. intros H' T' Hf. destruct (Hs H' T' Hf) as (a & j' & rest' & Ea' & Hi & Hd' & Hk'). rewrite Ea in Ea'. injection Ea' as <- <-.
    exists (head (buf M) + zlen D + total l1), (S j), rest. split; [done|]. split; [lia|]. split; [|by rewrite Nat.add_succ_comm].
    replace (S j) with (j + 1)%nat by lia. rewrite <- drop_drop, Hd. done.
Qed.

Lemma view_extend H m D cells new : Forall (fun c => cell_ok c /\ written_of c = []) new -> view H m D cells -> view H m D (cells ++ new).
Proof.
  intros Hn Hv o Ho. rewrite Hv by done. assert (forall i, 0 <= i -> znth i (image new) = 0) as Hz.
  { clear - Hn. induction Hn as [|c l [Hc Hw] _ IH]; intros i Hi; [by apply znth_over; cbn [image concat map length]; lia|]. change (image (c :: l)) with (content c ++ image l).
    rewrite znth_app by done. destruct (Z.ltb_spec i (zlen (content c))); [|apply IH; lia]. rewrite znth_content, Hw by (done || lia). by apply znth_over. }
  rewrite image_app, app_assoc. rewrite (znth_app o (D ++ image cells)) by lia. destruct (Z.ltb_spec o (zlen (D ++ image cells))); [done|]. rewrite Hz by lia. by apply znth_over.
Qed.
Lemma stage_app L cells new tid c st : stage_ok L cells tid c st -> stage_ok L (cells ++ new) tid c st.
Proof. destruct st; cbn; try done; [|apply has_app_l..]. intros [H1 H2]. split; by apply has_app_l. Qed.
Lemma of_writer_app tid l1 l2 : of_writer tid (l1 ++ l2) = of_writer tid l1 ++ of_writer tid l2.
Proof. apply filter_app. Qed.
Lemma of_writer_self tid c : of_writer tid [(tid, c)] = [(tid, c)].
Proof. unfold of_writer. by rewrite filter_cons_True. Qed.
Lemma of_writer_other tid tid' c : tid <> tid' -> of_writer tid' [(tid, c)] = [].
Proof. intros Hne. unfold of_writer. by rewrite filter_cons_False. Qed.

Definition new_cells (tid : nat) (c : msg) (pad : Z) : list cell :=
  if pad =? 0 then [Msg tid c Reserved] else [Pad tid pad false; Msg tid c Reserved].

Lemma new_cells_lay H T pad tid c : world H T -> msg_ok c -> fits_at H T pad (entry_size (zlen c.2)) ->
  lay T (new_cells tid c pad) /\ total (new_cells tid c pad) = entry_size (zlen c.2) + pad /\ pad mod 8 = 0 /\ T + entry_size (zlen c.2) + pad - H <= size /\ 0 <= pad.
Proof.
  intros Hw Hc Hf. pose proof size_ok as Hsz. pose proof (msg_entry c Hc) as He. unfold world in Hw. pose proof (mod_aligned T ltac:(tauto)) as (Hm & Hm8 & Ha). unfold new_cells.
  destruct Hf as [(-> & Hf & Hs)|(Hp & Hpad & Hs)]; [cbn; split_and!; try done; lia|]. destruct (Z.eqb_spec pad 0); [lia|]. assert (pad mod 8 = 0) as Hp8.
  { rewrite Hpad, Zminus_mod, (proj2 Hsz), Ha. done. }
  assert ((T + pad) mod size = 0) as E. { rewrite Hpad. replace (T + (size - T mod size)) with (0 + (1 + T / size) * size) by (pose proof (Z.div_mod T size ltac:(lia)); lia). rewrite Z.mod_add by lia. apply Z.mod_0_l. lia. }
  cbn. rewrite E. split_and!; try done; try lia.
Qed.

Lemma new_cells_written tid c pad : Forall (fun x => written_of x = []) (new_cells tid c pad).
Proof. unfold new_cells. destruct (pad =? 0); by repeat constructor. Qed.

Lemma new_cells_has T tid c pad x q : has T (new_cells tid c pad) q x -> owner x = tid /\ points (after T pad) q.
Proof.
  unfold new_cells, after. destruct (pad =? 0).
  - intros [[-> ->]|H]%has_cons_inv; [done|]. destruct H as ([|??] & ? & ? & _); discriminate.
  - intros [[-> ->]|H]%has_cons_inv; [by split; [|left]|]. apply has_cons_inv in H as [[-> ->]|H]; [by split; [|right]|]. destruct H as ([|??] & ? & ? & _); discriminate.
Qed.

Lemma inv_reserve M D cells rst stg tid c e d k0 : Inv M D cells rst stg -> writers M !! tid = Some (c, CasTail e d k0) -> e = tail (buf M) -> d < 2 ^ 62 ->
  exists cells stg, Inv (mkMachine (set_tail d (buf M)) (<[tid := (c, k0 true e)]> (writers M)) (reader M) (accepted M ++ [(tid, c)]) (delivered M) (completed M)) D cells rst stg.
Proof.
  intros HI Hp He Hd. pose proof HI as []. destruct (i_writers0 tid c _ Hp) as [_ Hs]. destruct (Hs _ _ (future_refl _ _ i_world0)) as [_ Hr].
  destruct (Hr He) as (Epre & Hc & pad & Hfit & -> & Hk'). destruct (new_cells_lay _ _ _ tid c i_world0 Hc Hfit) as (Hlay & Htot & Hp8 & Hfree & Hp0). pose proof (msg_entry c Hc) as Hent.
  assert (world (head (buf M)) (tail (buf M) + entry_size (zlen c.2) + pad)) as Hw.
  { unfold world in *. split_and!; try lia. rewrite Z.add_mod, Hp8, Z.add_0_r, Z.mod_mod by lia. rewrite Z.add_mod, (proj2 Hent) by lia. by replace (tail (buf M) mod 8) with 0 by lia. }
  assert (head (buf M) + zlen D + total cells = tail (buf M)) as HL by lia.
  exists (cells ++ new_cells tid c pad), (<[tid := after (tail (buf M)) pad]> stg).
  constructor; cbn [buf set_tail head tail head_cache mem writers reader accepted delivered completed]; try done.
  - rewrite total_app. lia.
  - apply lay_app. split; [done|]. by rewrite HL.
  - apply view_extend; [|done]. apply lay_ok in Hlay. apply Forall_and. split; [done|]. apply new_cells_written.
  - intros tid' c' q. destruct (decide (tid = tid')) as [<-|Hne].
    + rewrite lookup_insert_eq, fn_lookup_insert. intros [= <- <-]. split; [|by apply Hk'].
      assert (forall q x, has (tail (buf M)) (new_cells tid c pad) q x -> has (head (buf M) + zlen D) (cells ++ new_cells tid c pad) q x) as Hh by (intros; apply has_app_r; by rewrite HL).
      unfold after, new_cells in *. destruct (Z.eqb_spec pad 0); cbn; [apply Hh, has_here|]. split; apply Hh; [apply has_here|]. apply (has_app_r _ [_]). cbn. rewrite Z.add_0_r. apply has_here.
    + rewrite lookup_insert_ne, fn_lookup_insert_ne by done. intros Hq. destruct (i_writers0 tid' c' q Hq) as [H1 H2]. split; [by apply stage_app|]. eapply wsafe_mono; [apply ends_mono|..|exact H2]; lia.
  - intros q x Hx Hu. apply has_app_inv in Hx as [Hx|Hx].
    + destruct (i_cover0 q x Hx Hu) as [H1 H2]. assert (tid <> owner x) as Hne by (intros E; by rewrite <- E, Epre in H2). by rewrite lookup_insert_ne, fn_lookup_insert_ne.
    + rewrite HL in Hx. destruct (new_cells_has _ _ _ _ _ _ Hx) as [-> H2]. rewrite lookup_insert_eq, fn_lookup_insert. split; [by eexists|done].
  - intros tid'. rewrite of_writer_app, i_log0. destruct (decide (tid = tid')) as [<-|Hne].
    + rewrite lookup_insert_eq, fn_lookup_insert, of_writer_self, Hp, Epre. cbn. rewrite app_nil_r. unfold after. by destruct (pad =? 0).
    + by rewrite lookup_insert_ne, fn_lookup_insert_ne, of_writer_other, app_nil_r.
  - destruct rst as [adv [c0|]|adv j|]; cbn in *; try done. destruct i_rst0 as [HD (o & l & ->)]. split; [done|]. by exists o, (l ++ new_cells tid c pad).
  - rewrite map_app, i_deliv0, messages_app, <- app_assoc. f_equal. f_equal. unfold new_cells. by destruct (pad =? 0).
Qed.

Lemma inv_do_write M D cells rst stg tid c p sp p' b e : Inv M D cells rst stg -> writers M !! tid = Some (c, p) -> act sp p (buf M) = Some (p', b, e) -> tail b < 2 ^ 62 ->
  exists cells stg, Inv (mkMachine b (<[tid := (c, p')]> (writers M)) (reader M) (log_accepted tid c e (accepted M)) (delivered M) (completed M)) D cells rst stg.
Proof.
  intros HI Hp Ha Hb. pose proof HI as []. destruct (i_writers0 tid c p Hp) as [Hst Hs]. pose proof (future_refl _ _ i_world0) as Hf.
  assert (forall q, wsafe c ends q (head (buf M)) (tail (buf M)) (stg tid) -> exists cells stg, Inv (with_writer M (buf M) tid c q) D cells rst stg) as Hsilent.
  { intros q Hq. exists cells, stg. pose proof (inv_silent M D cells rst stg tid c p q (head_cache (buf M)) HI Hp i_cache0 Hq) as HI'. by rewrite set_head_cache_same in HI'. }
  destruct p as [a|ex| |k0|k0|k0|v q|v q|ex d k0|i k0|i v q|i [|x bs] q|i n q|m i n q]; cbn in Ha; try discriminate; cbn [wsafe] in Hs; try done.
  - injection Ha as <- <- <-. apply Hsilent. by apply Hs.
  - injection Ha as <- <- <-. apply Hsilent. by apply Hs.
  - injection Ha as <- <- <-. apply Hsilent. by apply Hs.
  - injection Ha as <- <- <-. destruct Hs as [Hv Hs]. exists cells, stg. apply (inv_silent M D cells rst stg tid c (StoreHeadCache v q)); try done. by apply Hs.
  - destruct (Z.eqb_spec ex (tail (buf M))); [destruct sp|]; cbn in Ha; injection Ha as <- <- <-; cbn in Hb.
    + apply Hsilent. by apply (Hs _ _ Hf).
    + by apply inv_reserve with (cells := cells) (stg := stg) (d := d).
    + apply Hsilent. by apply (Hs _ _ Hf).
  - injection Ha as <- <- <-. apply Hsilent. destruct (Hs _ _ Hf) as (a & Ea & -> & Hk'). rewrite Ea in Hst. destruct Hst as (l1 & l2 & -> & ->).
    pose proof (lay_ok _ _ i_lay0) as Hok. pose proof (proj1 (Forall_app _ _ _) Hok) as [_ [[Hc _] _]%Forall_cons]. pose proof (msg_ok_size c Hc).
    erewrite read_header; [exact Hk'|exact HI|by cbn [written_of]|apply make_header_u64; lia].
  - injection Ha as <- <- <-. eapply inv_write64; [exact HI|exact Hp|done].
  - injection Ha as <- <- <-. apply Hsilent. destruct (Hs _ _ Hf) as (a & j & rest & -> & _ & _ & Hk'). by rewrite Nat.add_0_r in Hk'.
  - injection Ha as <- <- <-. eapply inv_write_byte; [exact HI|exact Hp|done].
Qed.

Lemma inv_start_write M D cells rst stg tid fuel m wait sections : Inv M D cells rst stg -> writers M !! tid = None -> bytes_ok (concat sections) ->
  exists stg, Inv (mkMachine (buf M) (<[tid := ((m, concat sections), write_multiple size fuel m wait sections)]> (writers M)) (reader M) (accepted M) (delivered M) (completed M)) D cells rst stg.
Proof.
  intros [] Hn Hb. exists (<[tid := Pre]> stg). constructor; cbn [buf writers reader accepted delivered completed]; try done.
  - intros tid' c' q. destruct (decide (tid = tid')) as [<-|Hne]; [|rewrite lookup_insert_ne, fn_lookup_insert_ne by done; apply i_writers0].
    rewrite lookup_insert_eq, fn_lookup_insert. intros [= <- <-]. split; [done|]. by apply write_multiple_safe.
  - intros q x Hx Hu. destruct (i_cover0 q x Hx Hu) as [H1 H2]. assert (tid <> owner x) by (intros E; rewrite <- E, Hn in H1; by destruct H1). by rewrite lookup_insert_ne, fn_lookup_insert_ne.
  - intros tid'. destruct (decide (tid = tid')) as [<-|Hne]; [|rewrite lookup_insert_ne, fn_lookup_insert_ne by done; apply i_log0].
    rewrite lookup_insert_eq, fn_lookup_insert. specialize (i_log0 tid). by rewrite Hn in i_log0.
Qed.

(** A call that ends has written its whole message or nothing. *)
Lemma ended_stage c p H T st : wsafe c ends p H T st -> ended p = true -> (forall q, ~ points st q) /\ (is_pre st = match p with Ret true => false | _ => true end) /\ p <> Raise RuntimeError.
Proof.
  destruct p as [[]| e | | | | | | | | | | | |]; cbn; try done; [intros -> _|intros -> _|intros [-> He] _|intros -> _]; (split_and!; [by intros q []|done|congruence]).
Qed.

Lemma inv_end_write M D cells rst stg tid c p : Inv M D cells rst stg -> writers M !! tid = Some (c, p) -> ended p = true ->
  Inv (mkMachine (buf M) (delete tid (writers M)) (reader M) (accepted M) (delivered M) (log_completed tid c p (completed M))) D cells rst stg.
Proof.
  intros [] Hp He. destruct (i_writers0 tid c p Hp) as [Hst Hs]. destruct (ended_stage _ _ _ _ _ Hs He) as (Hno & Hpre & _).
  constructor; cbn [buf writers reader accepted delivered completed]; try done.
  - intros tid' c' q Hq. apply lookup_delete_Some in Hq as [_ Hq]. by apply i_writers0.
  - intros q x Hx Hu. destruct (i_cover0 q x Hx Hu) as [H1 H2]. split; [|done]. rewrite lookup_delete_ne; [done|]. intros E. rewrite <- E in H2. by destruct (Hno q).
  - intros tid'. rewrite i_log0. destruct (decide (tid = tid')) as [<-|Hne].
    + rewrite lookup_delete_eq, Hp. cbn. rewrite Hpre. destruct p as [[]| | | | | | | | | | | | |]; try done; cbn [log_completed]. by rewrite of_writer_app, of_writer_self, app_nil_r.
    + rewrite lookup_delete_ne by done. f_equal. destruct p as [[]| | | | | | | | | | | | |]; try done; cbn [log_completed]. by rewrite of_writer_app, of_writer_other, app_nil_r.
Qed.

(** ** Steps of the reader *)

Definition with_reader (M : Machine) (b : Buf) (p : option (prog Z)) (d : list msg) : Machine := mkMachine b (writers M) p (accepted M) d (completed M).

Lemma inv_reader M D cells rst stg p rst' : Inv M D cells rst stg -> rst_ok rst' D cells ->
  match p with None => rst' = RDone | Some p => rsafe read_ends p (head (buf M)) rst' end -> Inv (with_reader M (buf M) p (delivered M)) D cells rst' stg.
Proof. intros [] Hr Hp. by constructor. Qed.

Lemma stage_pop L x l tid c st : unfinished x = false -> stage_ok L (x :: l) tid c st -> stage_ok (L + clen x) l tid c st.
Proof.
  intros Hx Hst. assert (forall q d, unfinished d = true -> has L (x :: l) q d -> has (L + clen x) l q d) as Hh.
  { intros q d Hd [[-> ->]|H]%has_cons_inv; [congruence|done]. }
  destruct st; cbn in *; try done; [|by apply Hh..]. destruct Hst as [H1 H2]. split; by apply Hh.
Qed.

(** The reader is done with the first cell. *)
Lemma inv_pop M D x l rst rst' stg p d : Inv M D (x :: l) rst stg -> unfinished x = false -> rsafe read_ends p (head (buf M)) rst' -> rst_ok rst' (D ++ content x) l ->
  d ++ messages l = delivered M ++ messages (x :: l) -> Inv (with_reader M (buf M) (Some p) d) (D ++ content x) l rst' stg.
Proof.
  intros [] Hx Hp Hr Hd. pose proof i_lay0 as (Hc & _ & _ & Hl). assert (head (buf M) + zlen (D ++ content x) = head (buf M) + zlen D + clen x) as E.
  { rewrite length_app. pose proof (zlen_content x Hc). lia. }
  constructor; cbn [with_reader buf writers reader accepted delivered completed]; try done; rewrite ?E; try done.
  - rewrite i_tail0. cbn. lia.
  - intros o Ho. rewrite i_view0 by done. by rewrite <- app_assoc.
  - intros tid c q Hq. destruct (i_writers0 tid c q Hq). split; [by apply stage_pop|done].
  - intros q y Hy Hu. apply i_cover0; [|done]. apply (has_app_r _ [x]). cbn. by rewrite Z.add_0_r.
  - by rewrite Hd.
Qed.

Lemma read_empty M D cells rst stg : Inv M D cells rst stg -> head (buf M) mod size + zlen D + 8 <= size ->
  match cells with [] => True | c :: _ => written_of c = [] end -> le_val (zslice (head (buf M) mod size + zlen D) 8 (mem (buf M))) = 0.
Proof.
  intros [] Hs Hc. pose proof size_ok as Hsz. unfold world in i_world0. pose proof (Z.mod_pos_bound (head (buf M)) size ltac:(lia)).
  pose proof (mod_shift (head (buf M)) 0 (zlen D)) as E. rewrite Z.add_0_r in E. rewrite Z.add_0_l in E. rewrite <- E by lia.
  erewrite (view_read _ _ _ _ _ _ (replicate 8 0)); [done|done|done|lia|lia|rewrite E by lia; lia|done|].
  intros i Hi. rewrite znth_zeros. rewrite znth_app by lia. destruct (Z.ltb_spec (zlen D + i) (zlen D)); [lia|]. destruct cells as [|c l]; [apply znth_over; cbn; lia|].
  pose proof i_lay0 as (Hok & _). pose proof (clen_bounds c Hok). change (image (c :: l)) with (content c ++ image l). rewrite znth_app, zlen_content by (done || lia).
  destruct (Z.ltb_spec (zlen D + i - zlen D) (clen c)); [|lia]. rewrite znth_content, Hc by (done || lia). apply znth_over. cbn. lia.
Qed.

Lemma inv_read64 M D cells rst stg i k0 : Inv M D cells rst stg -> reader M = Some (Read64 i k0) ->
  exists D cells rst, Inv (with_reader M (buf M) (Some (k0 (le_val (zslice i 8 (mem (buf M)))))) (delivered M)) D cells rst stg.
Proof.
  intros HI Hr. pose proof HI as []. rewrite Hr in i_reader0. destruct i_reader0 as (adv & -> & Ha & -> & Hs & H0 & Hpend & Hpad & Hmsg). cbn in i_rst0. subst adv.
  pose proof size_ok as Hsz. pose proof (Z.mod_pos_bound (head (buf M)) size ltac:(lia)) as Hm. pose proof (mod_shift (head (buf M)) 0 (zlen D)) as E. rewrite Z.add_0_r, Z.add_0_l in E. specialize (E ltac:(lia) ltac:(lia)).
  assert (match cells with [] => True | c :: _ => written_of c = [] end -> exists D' cells' rst', Inv (with_reader M (buf M) (Some (k0 (le_val (zslice (head (buf M) mod size + zlen D) 8 (mem (buf M)))))) (delivered M)) D' cells' rst' stg) as Hempty.
  { intros Hc. rewrite (read_empty M D cells _ stg HI) by done. exists D, cells, (RRead (zlen D) None). by apply (inv_reader M D cells (RRead (zlen D) None)). }
  destruct cells as [|d l]; [by apply Hempty|]. pose proof i_lay0 as (Hc & Hx & Hpd & _). rewrite E in Hx, Hpd. pose proof (fun h rest => read_header M D [] d l (RRead (zlen D) None) stg h rest HI) as Hrh. cbn [app total] in Hrh. rewrite Z.add_0_r, E in Hrh.
  destruct d as [o len []|o c [|j|]].
  - rewrite (Hrh (make_header msg_pad (len - 8) false) []); [|by rewrite app_nil_r|apply make_header_u64; unfold msg_pad; cbn in Hc; lia].
    exists (D ++ content (Pad o len true)), l, (RRead (zlen D + len) None). eapply inv_pop; [exact HI|done| |cbn|done].
    + apply Hpad; cbn in *; [lia|by apply Hpd].
    + rewrite length_app. pose proof (zlen_content _ Hc) as Hz. cbn [clen] in Hz. lia.
  - by apply Hempty.
  - by apply Hempty.
  - destruct Hc as [Hc Hj]. pose proof (msg_ok_size c Hc). erewrite Hrh; [|done|apply make_header_u64; lia]. exists D, (Msg o c (Pending j) :: l), (RRead (zlen D) None).
    by apply (inv_reader M D _ (RRead (zlen D) None)); [..|apply Hpend].
  - destruct Hc as [Hc Hj]. pose proof (msg_ok_size c Hc). erewrite Hrh; [|done|apply make_header_u64; lia]. exists D, (Msg o c Finished :: l), (RRead (zlen D) (Some c)).
    apply (inv_reader M D _ (RRead (zlen D) None)); [done|split; [done|by exists o, l]|]. by apply Hmsg.
Qed.

Lemma read_data M D l1 o c l2 rst stg : Inv M D (l1 ++ Msg o c Finished :: l2) rst stg ->
  zslice ((head (buf M) + zlen D + total l1) mod size + 8) (zlen c.2) (mem (buf M)) = c.2.
Proof.
  intros []. pose proof (lay_ok _ _ i_lay0) as Hok. pose proof i_lay0 as [_ (Hc & Hx & _)]%lay_app. cbn [clen] in Hx. pose proof (msg_entry c (proj1 Hc)) as He.
  pose proof size_ok as Hsz. unfold world in i_world0. pose proof (total_size_nonneg l1 ltac:(by apply Forall_app in Hok as [? _])).
  assert (0 <= total l2) by (apply total_size_nonneg; apply Forall_app in Hok as [_ ?%Forall_cons]; tauto). rewrite total_app in i_tail0. cbn in i_tail0.
  rewrite <- (Z.add_assoc (head (buf M))) in *. set (p0 := zlen D + total l1) in *. pose proof (Z.mod_pos_bound (head (buf M) + p0) size ltac:(lia)).
  destruct (decide (c.2 = [])) as [->|Hne]; [done|]. assert (0 < zlen c.2) by (destruct c.2; [done|cbn [length]; lia]).
  rewrite <- (mod_shift (head (buf M)) p0 8) by lia. apply (view_read _ _ _ _ _ _ _ i_view0); try done; try (rewrite ?mod_shift; lia).
  intros i Hi. pose proof (znth_image D l1 (Msg o c Finished) l2 (8 + i) Hok) as Hz. cbn [clen] in Hz. fold p0 in Hz. rewrite Z.add_assoc in Hz. rewrite Hz by lia.
  cbn [written_of]. rewrite znth_app, length_le_bytes by lia. destruct (Z.ltb_spec (8 + i) (Z.of_nat 8)); [lia|]. f_equal. lia.
Qed.

Lemma inv_handle M D cells rst stg m i n q : Inv M D cells rst stg -> reader M = Some (Handle m i n q) ->
  exists D cells rst, Inv (with_reader M (buf M) (Some q) (delivered M ++ [(m, zslice i n (mem (buf M)))])) D cells rst stg.
Proof.
  intros HI Hr. pose proof HI as []. rewrite Hr in i_reader0. destruct i_reader0 as (adv & c & -> & -> & -> & -> & Hs & Hq). destruct i_rst0 as [<- (o & l & ->)].
  pose proof i_lay0 as (Hc & _). pose proof (msg_entry c (proj1 Hc)) as He. pose proof size_ok as Hsz. pose proof (Z.mod_pos_bound (head (buf M)) size ltac:(lia)) as Hm.
  pose proof (mod_shift (head (buf M)) 0 (zlen D)) as E. rewrite Z.add_0_r, Z.add_0_l in E. rewrite <- E by lia.
  pose proof (read_data M D [] o c l _ stg HI) as Hd. cbn [total] in Hd. rewrite Z.add_0_r in Hd. rewrite Hd.
  exists (D ++ content (Msg o c Finished)), l, (RRead (zlen D + entry_size (zlen c.2)) None). eapply inv_pop; [exact HI|done|done| |].
  - cbn. rewrite length_app. pose proof (zlen_content _ Hc) as Hz. cbn [clen] in Hz. lia.
  - change (messages (Msg o c Finished :: l)) with (c :: messages l). rewrite <- app_assoc. by destruct c.
Qed.

Lemma inv_clear_byte M D cells rst stg i n q : Inv M D cells rst stg -> reader M = Some (ClearBytes i (S n) q) ->
  exists D rst, Inv (with_reader M (set_mem (zwrite i [0] (mem (buf M))) (buf M)) (Some (ClearBytes (i + 1) n q)) (delivered M)) D cells rst stg.
Proof.
  intros HI Hr. pose proof HI as []. rewrite Hr in i_reader0. destruct i_reader0 as (adv & j & Hst & -> & Hn & Hj & Hs & Hq). pose proof size_ok as Hsz. unfold world in i_world0.
  assert (zlen D = adv /\ forall i, 0 <= i < j -> znth i D = 0) as [HD Hz]. { destruct Hst as [-> | [-> ->]]; cbn in i_rst0; [tauto|]. split; [done|lia]. }
  pose proof (Z.mod_pos_bound (head (buf M)) size ltac:(lia)) as Hm. pose proof (mod_shift (head (buf M)) 0 j) as E. rewrite Z.add_0_r, Z.add_0_l in E. rewrite <- E by lia.
  assert (0 <= total cells) by (apply total_size_nonneg; by eapply lay_ok). exists (zwrite j [0] D), (RClear adv (j + 1)). assert (zlen (zwrite j [0] D) = zlen D) as HDl by apply zlen_zwrite.
  constructor; cbn [with_reader buf writers reader accepted delivered completed set_mem mem head tail head_cache]; rewrite ?HDl; try done.
  - by rewrite zlen_zwrite.
  - intros o Ho. erewrite view_write; [|done|done|lia|cbn; lia|rewrite E by lia; cbn; lia|done]. rewrite !(znth_app o) by lia. rewrite HDl. destruct (Z.ltb_spec o (zlen D)).
    + rewrite (znth_zwrite o j) by (cbn; lia). by destruct (_ && _).
    + destruct ((_ <=? _) && _) eqn:Eo; [|done]. apply andb_true_iff in Eo as [E1%Z.leb_le E2%Z.ltb_lt]. cbn in E2. lia.
  - exists adv, (j + 1). split; [by left|]. rewrite E by lia. split_and!; try done; lia.
  - cbn [rst_ok]. split; [by rewrite HDl|]. split; [lia|]. intros i' Hi. rewrite znth_zwrite by (cbn; lia). destruct ((_ <=? _) && _) eqn:Ei.
    + apply andb_true_iff in Ei as [E1%Z.leb_le E2%Z.ltb_lt]. cbn in E2. by replace (i' - j) with 0 by lia.
    + apply Hz. apply andb_false_iff in Ei as [E1%Z.leb_gt|E2%Z.ltb_ge]; cbn in *; lia.
Qed.

Lemma total_mod8 l : Forall cell_ok l -> total l mod 8 = 0.
Proof. induction 1 as [|c l Hc _ IH]; [done|]. pose proof (clen_bounds c Hc) as [_ H8]. cbn. by rewrite Z.add_mod, H8, IH by lia. Qed.

Lemma inv_store_head M D cells rst stg v q : Inv M D cells rst stg -> reader M = Some (StoreHead v q) ->
  Inv (with_reader M (set_head v (buf M)) (Some q) (delivered M)) [] cells RDone stg.
Proof.
  intros HI Hr. pose proof HI as []. rewrite Hr in i_reader0. destruct i_reader0 as (adv & -> & -> & Hq). destruct i_rst0 as (<- & _ & Hz). pose proof size_ok as Hsz. unfold world in i_world0.
  pose proof (lay_ok _ _ i_lay0) as Hok. pose proof (total_size_nonneg _ Hok). pose proof (total_mod8 _ Hok) as H8.
  constructor; cbn [with_reader buf writers reader accepted delivered completed set_head mem head tail head_cache length]; rewrite ?Z.add_0_r; try done.
  - unfold world. split_and!; try lia. replace (head (buf M) + zlen D) with (tail (buf M) - total cells) by lia. rewrite Zminus_mod, H8. by replace (tail (buf M) mod 8) with 0 by lia.
  - lia.
  - intros o Ho. cbn [app]. destruct (Z.lt_ge_cases (zlen D + o) size).
    + rewrite <- Z.add_assoc, i_view0 by lia. rewrite znth_app by lia. destruct (Z.ltb_spec (zlen D + o) (zlen D)); [lia|]. f_equal. lia.
    + replace (head (buf M) + zlen D + o) with (head (buf M) + (zlen D + o - size) + 1 * size) by lia. rewrite Z.mod_add, i_view0 by lia. rewrite znth_app by lia.
      destruct (Z.ltb_spec (zlen D + o - size) (zlen D)); [|lia]. rewrite Hz by lia. symmetry. apply znth_over. rewrite zlen_image by done. lia.
  - intros tid c p Hp. destruct (i_writers0 tid c p Hp) as [H1 H2]. split; [done|]. eapply wsafe_mono; [apply ends_mono|..|exact H2]; lia.
Qed.

Lemma inv_do_read M D cells rst stg p sp p' b e : Inv M D cells rst stg -> reader M = Some p -> act sp p (buf M) = Some (p', b, e) ->
  exists D cells rst, Inv (with_reader M b (Some p') (log_delivered e (delivered M))) D cells rst stg.
Proof.
  intros HI Hr Ha. pose proof HI as []. rewrite Hr in i_reader0. destruct p as [a|ex| |k0|k0|k0|v q|v q|ex d k0|i k0|i v q|i bs q|i [|n] q|m i n q]; cbn in Ha; try discriminate; cbn [rsafe] in i_reader0; try done.
  - injection Ha as <- <- <-. exists D, cells, rst. by apply (inv_reader M D cells rst).
  - injection Ha as <- <- <-. eexists _, _, _. by apply (inv_store_head _ _ _ _ _ _ _ HI).
  - injection Ha as <- <- <-. by eapply inv_read64.
  - injection Ha as <- <- <-. destruct i_reader0 as (adv & j & Hst & -> & Hn & Hj & Hs & Hq). exists D, cells, (RClear adv adv). apply (inv_reader M D cells rst); [done| |done].
    destruct Hst as [-> | [-> ->]]; cbn in *; [|split_and!; lia]. replace j with adv in * by lia. done.
  - injection Ha as <- <- <-. destruct (inv_clear_byte M D cells rst stg i n q HI Hr) as (D' & rst' & HI'). by exists D', cells, rst'.
  - injection Ha as <- <- <-. by eapply inv_handle.
Qed.

(** ** Runs *)

Lemma inv_new : Inv (new_machine size) [] [] RDone (fun _ => Pre).
Proof.
  pose proof size_ok as Hsz. constructor; cbn [buf new_machine new_buf head tail head_cache mem writers reader accepted delivered completed]; try done.
  - fin.
  - apply zlen_zeros. lia.
  - intros o Ho. unfold zeros. rewrite znth_zeros. symmetry. apply znth_over. cbn. lia.
  - intros p c ([|? ?] & ? & ? & _); discriminate.
Qed.

Lemma inv_step M M' D cells rst stg : Inv M D cells rst stg -> step size M M' -> tail (buf M') < 2 ^ 62 -> exists D cells rst stg, Inv M' D cells rst stg.
Proof.
  intros HI Hs Hb. destruct Hs as [M tid fuel m wait sections Hn Hby|M tid c p sp p' b e Hp Ha|M tid c p Hp He|M limit Hr|M p sp p' b e Hp Ha|M p Hp He].
  - destruct (inv_start_write M D cells rst stg tid fuel m wait sections HI Hn Hby) as [stg' HI']. eauto.
  - destruct (inv_do_write M D cells rst stg tid c p sp p' b e HI Hp Ha Hb) as (cells' & stg' & HI'). eauto.
  - eexists _, _, _, _. by apply inv_end_write.
  - pose proof HI as []. rewrite Hr in i_reader0. subst rst. cbn in i_rst0. subst D. exists [], cells, (RRead 0 None), stg. apply (inv_reader M _ _ _ _ (Some (read size limit)) _ HI); [done|].
    unfold world in i_world0. apply read_safe; [lia|tauto].
  - destruct (inv_do_read M D cells rst stg p sp p' b e HI Hp Ha) as (D' & cells' & rst' & HI'). eauto.
  - pose proof HI as []. rewrite Hp in i_reader0. destruct p as [a|ex| | | | | | | | | | | |]; try done. exists [], cells, RDone, stg.
    assert (D = []) as -> by (destruct i_reader0 as [-> | ->]; cbn in i_rst0; [by apply length_zero_iff_nil; lia|done]). by apply (inv_reader M [] cells rst stg None RDone HI).
Qed.

Lemma inv_reachable M : reachable size M -> exists D cells rst stg, Inv M D cells rst stg.
Proof. induction 1 as [|M M' _ (D & cells & rst & stg & HI) Hs Hb]; [eexists _, _, _, _; apply inv_new|]. by apply (inv_step M M' D cells rst stg). Qed.

(** ** Reading what is there *)

Lemma exec_bind {A B} (p : prog A) (f : A -> prog B) : forall b,
  exec (p ≫= f) b = ('(a, b', l) ← exec p b; '(a', b'', l') ← exec (f a) b'; Some (a', b'', l ++ l')).
Proof.
  induction p as [a|e| |k0 IH|k0 IH|k0 IH|v p IH|v p IH|e d k0 IH|i0 k0 IH|i0 v p IH|i0 bs p IH|i0 n p IH|m i0 n p IH]; intros b; cbn [mbind prog_bind exec]; try done; try (apply IH).
  - cbn. by destruct (exec (f a) b) as [[[? ?] ?]|].
  - destruct (e =? tail b); apply IH.
  - change (prog_bind A B f p) with (p ≫= f). rewrite IH. destruct (exec p b) as [[[a b'] l]|]; [|done]. cbn. by destruct (exec (f a) b') as [[[? ?] ?]|].
Qed.

(** A run of the reader alone is a sequence of its steps. *)
Lemma exec_inv p : forall M D cells rst stg, Inv M D cells rst stg -> reader M = Some p -> forall a b l, exec p (buf M) = Some (a, b, l) ->
  exists D cells rst, Inv (with_reader M b (Some (Ret a)) (delivered M ++ l)) D cells rst stg.
Proof.
  induction p as [x|e| |k0 IH|k0 IH|k0 IH|v p IH|v p IH|e d k0 IH|i0 k0 IH|i0 v p IH|i0 bs p IH|i0 n p IH|m i0 n p IH]; intros M D cells rst stg HI Hr a b l He;
    try (pose proof (i_reader _ _ _ _ _ HI) as Hs; rewrite Hr in Hs; cbn [rsafe] in Hs; done); cbn [exec] in He.
  - injection He as <- <- <-. rewrite app_nil_r. exists D, cells, rst. replace (with_reader M (buf M) (Some (Ret x)) (delivered M)) with M; [done|]. destruct M; cbn in *. by subst.
  - destruct (inv_do_read _ _ _ _ _ _ false (k0 (head (buf M))) (buf M) Silent HI Hr eq_refl) as (D' & cells' & rst' & HI'). by apply (IH _ _ _ _ _ _ HI' eq_refl).
  - destruct (inv_do_read _ _ _ _ _ _ false p (set_head v (buf M)) Silent HI Hr eq_refl) as (D' & cells' & rst' & HI'). by apply (IH _ _ _ _ _ HI' eq_refl).
  - destruct (inv_do_read _ _ _ _ _ _ false (k0 (le_val (zslice i0 8 (mem (buf M))))) (buf M) Silent HI Hr eq_refl) as (D' & cells' & rst' & HI'). by apply (IH _ _ _ _ _ _ HI' eq_refl).
  - revert M i0 D cells rst HI Hr He. induction n as [|n IHn]; intros M i0 D cells rst HI Hr He.
    + destruct (inv_do_read _ _ _ _ _ _ false p (buf M) Silent HI Hr eq_refl) as (D' & cells' & rst' & HI'). apply (IH _ _ _ _ _ HI' eq_refl). cbn in He |- *. destruct M as [[] ? ? ? ? ?]. done.
    + destruct (inv_do_read _ _ _ _ _ _ false (ClearBytes (i0 + 1) n p) (set_mem (zwrite i0 [0] (mem (buf M))) (buf M)) Silent HI Hr eq_refl) as (D' & cells' & rst' & HI').
      by apply (IHn _ _ _ _ _ HI' eq_refl).
  - destruct (inv_do_read _ _ _ _ _ _ false p (buf M) (Handles m (zslice i0 n (mem (buf M)))) HI Hr eq_refl) as (D' & cells' & rst' & HI').
    destruct (exec p (buf M)) as [[[a' b'] l']|] eqn:Ep; [|done]. injection He as -> -> <-. cbn [log_delivered] in HI'.
    destruct (IH _ _ _ _ _ HI' eq_refl _ _ _ Ep) as (D2 & cells2 & rst2 & HI2). exists D2, cells2, rst2. cbn [with_reader delivered] in HI2. by rewrite <- app_assoc in HI2.
Qed.

Lemma read_zero M D cells rst stg : Inv M D cells rst stg -> zlen D + total cells + 8 <= size -> (head (buf M) + zlen D + total cells) mod size + 8 <= size ->
  le_val (zslice ((head (buf M) + zlen D + total cells) mod size) 8 (mem (buf M))) = 0.
Proof.
  intros [] Hs Hx. pose proof (lay_ok _ _ i_lay0) as Hok. pose proof (total_size_nonneg _ Hok). rewrite <- Z.add_assoc in *.
  rewrite (view_read _ _ _ _ _ _ (replicate 8 0) i_view0); try done; try lia. intros i Hi. rewrite znth_zeros. apply znth_over. rewrite length_app, Nat2Z.inj_add, zlen_image by done. lia.
Qed.

Definition all_finished (l : list cell) : Prop := Forall (fun c => unfinished c = false) l.

(** From the cell after [done] the loop reads up to the end of the buffer. *)
Lemma exec_read_loop M stg limit fuel : forall rst rest done count, Inv M [] (done ++ rest) rst stg -> all_finished rest -> count + zlen (messages rest) <= limit ->
  head (buf M) mod size + total done <= size -> size - (head (buf M) mod size + total done) < 8 * Z.of_nat fuel ->
  exists r1 r2 count', rest = r1 ++ r2 /\ (messages r2 = [] \/ head (buf M) mod size + total (done ++ r1) = size) /\ head (buf M) mod size + total (done ++ r1) <= size /\
    exec (read_loop size fuel limit (head (buf M) mod size) (size - head (buf M) mod size) (total done) count) (buf M) = Some ((total (done ++ r1), count'), buf M, messages r1).
Proof.
  pose proof size_ok as [Hsz Hsz8]. induction fuel as [|fuel IH]; intros rst rest done count HI Hfin Hlim Hs Hf; [lia|]. pose proof HI as []. pose proof (lay_ok _ _ i_lay0) as Hok. unfold world in i_world0.
  pose proof (Z.mod_pos_bound (head (buf M)) size ltac:(lia)) as Hm. cbn [length] in i_tail0, i_lay0. rewrite Z.add_0_r in i_tail0, i_lay0.
  pose proof Hok as [Hok1 Hok2]%Forall_app. pose proof (total_size_nonneg _ Hok1). pose proof (total_size_nonneg _ Hok2). rewrite total_app in i_tail0.
  assert (exec (Ret (total done, count)) (buf M) = Some (total done, count, buf M, [])) as Hstop by done.
  cbn [read_loop]. destruct (Z.ltb_spec (total done) (size - head (buf M) mod size)) as [Hlt|Hge]; cbn [andb].
  2: { exists [], rest, count. rewrite app_nil_r. split; [done|]. split; [right; lia|]. split; [lia|done]. }
  destruct (Z.ltb_spec count limit) as [Hc|Hc].
  2: { exists [], rest, count. rewrite app_nil_r. split; [done|]. split; [left; apply length_zero_iff_nil; lia|]. split; [lia|done]. }
  pose proof (mod_shift (head (buf M)) 0 (total done)) as E. rewrite Z.add_0_r, Z.add_0_l in E. specialize (E ltac:(lia) ltac:(lia)).
  assert (head (buf M) mod size + total done + 8 <= size) as Hr.
  { pose proof (mod_aligned (head (buf M) + total done)) as Ha. rewrite E in Ha. apply Ha. rewrite Z.add_mod, total_mod8 by (done || lia). by replace (head (buf M) mod 8) with 0 by lia. }
  unfold read64. rewrite check_access_ok by lia. cbn [mbind prog_bind exec]. rewrite <- E. destruct rest as [|d rest].
  - pose proof (read_zero M [] (done ++ []) rst stg HI) as Hz. rewrite app_nil_r in Hz. cbn [length] in Hz. rewrite !Z.add_0_r in Hz. rewrite Hz by lia.
    exists [], [], count. rewrite !app_nil_r. split; [done|]. split; [by left|]. split; [lia|done].
  - pose proof i_lay0 as [_ (Hcd & Hx & Hpd & _)]%lay_app. rewrite E in Hx, Hpd. apply Forall_cons in Hfin as [Hd Hfin]. pose proof (fun h r => read_header M [] done d rest rst stg h r HI) as Hrh. cbn [length] in Hrh. rewrite Z.add_0_r in Hrh.
    assert (forall count', count' + zlen (messages rest) <= limit -> exists r1 r2 count'', rest = r1 ++ r2 /\ (messages r2 = [] \/ head (buf M) mod size + total ((done ++ [d]) ++ r1) = size) /\ head (buf M) mod size + total ((done ++ [d]) ++ r1) <= size /\
      exec (read_loop size fuel limit (head (buf M) mod size) (size - head (buf M) mod size) (total (done ++ [d])) count') (buf M) = Some ((total ((done ++ [d]) ++ r1), count''), buf M, messages r1)) as IHd.
    { intros count' Hl'. pose proof (clen_bounds d Hcd). rewrite cons_middle, app_assoc in HI. assert (total (done ++ [d]) = total done + clen d) as Ht by (rewrite total_app; cbn; lia).
      apply (IH rst); [exact HI|done|done|rewrite Ht; lia|rewrite Ht; lia]. }
    rewrite total_app in IHd. cbn [total] in IHd. rewrite Z.add_0_r in IHd. destruct d as [o len []|o c [|j|]]; try done.
    + rewrite (Hrh (make_header msg_pad (len - 8) false) []); [|by rewrite app_nil_r|apply make_header_u64; unfold msg_pad; cbn in Hcd; lia]. cbn [cell_ok clen] in *. assert (0 <= msg_pad < 2 ^ 32) by (unfold msg_pad; lia).
      rewrite length_make_header, message_make_header by lia. rewrite (pending_flag _ false) by lia. cbn [negb]. change (msg_pad =? msg_none) with false. change (msg_pad =? msg_pad) with true. cbn iota. unfold header_size.
      replace (total done + 8 + (0 * 2 ^ 31 + (len - 8))) with (total done + len) by lia. destruct (IHd count Hlim) as (r1 & r2 & count' & -> & Hr2 & Hle & He).
      exists (Pad o len true :: r1), r2, count'. rewrite <- app_assoc in Hr2, Hle, He. split; [done|]. split; [done|]. split; [done|]. exact He.
    + destruct Hcd as [Hcm _]. pose proof (msg_ok_size c Hcm) as Hz. rewrite (Hrh _ _ eq_refl) by (apply make_header_u64; lia). pose proof Hcm as [[H1 H2] _]. unfold msg_min, msg_max in *. pose proof (msg_entry c Hcm) as Hent.
      rewrite length_make_header, message_make_header by lia. rewrite (pending_flag _ false) by lia. cbn [negb clen] in *.
      destruct (Z.eqb_spec c.1 msg_none); [unfold msg_none in *; lia|]. destruct (Z.eqb_spec c.1 msg_pad); [unfold msg_pad in *; lia|]. replace (0 * 2 ^ 31 + zlen c.2) with (zlen c.2) by lia.
      rewrite check_access_ok by lia. cbn [mbind prog_bind exec]. unfold header_size. change (messages (Msg o c Finished :: rest)) with (c :: messages rest) in Hlim. cbn [length] in Hlim. destruct (IHd (count + 1)) as (r1 & r2 & count' & -> & Hr2 & Hle & He); [lia|]. rewrite He.
      exists (Msg o c Finished :: r1), r2, count'. rewrite <- app_assoc in Hr2, Hle |- *. split; [done|]. split; [done|]. split; [done|]. cbn [mbind option_bind].
      pose proof (read_data M [] done o c (r1 ++ r2) rst stg HI) as Hrd. cbn [length] in Hrd. rewrite Z.add_0_r in Hrd. rewrite Hrd. change (messages (Msg o c Finished :: r1)) with (c :: messages r1). by destruct c.
Qed.

Lemma exec_read M rst stg cells limit : Inv M [] cells rst stg -> all_finished cells -> zlen (messages cells) <= limit ->
  exists n b r1 r2, cells = r1 ++ r2 /\ (messages r2 = [] \/ head (buf M) mod size + total r1 = size) /\
    exec (read size limit) (buf M) = Some (n, b, messages r1) /\ head b = head (buf M) + total r1.
Proof.
  intros HI Hfin Hlim. pose proof size_ok as [Hsz _]. pose proof HI as []. unfold world in i_world0. pose proof (lay_ok _ _ i_lay0) as Hok.
  pose proof (Z.mod_pos_bound (head (buf M)) size ltac:(lia)) as Hm.
  destruct (exec_read_loop M stg limit (S (Z.to_nat (size / 8))) rst cells [] 0 HI Hfin) as (r1 & r2 & n & -> & Hr2 & Hle & He); [lia|cbn; lia| |].
  { pose proof (Z.div_mod size 8 ltac:(lia)). pose proof (Z.mod_pos_bound size 8 ltac:(lia)). cbn [total]. lia. }
  cbn [app total] in *. pose proof Hok as [Hok1 _]%Forall_app. pose proof (total_size_nonneg _ Hok1). cbn [length] in i_tail0. rewrite total_app in i_tail0.
  assert (0 <= total r2) by (apply total_size_nonneg; by apply Forall_app in Hok as [_ ?]).
  cbn [read exec]. rewrite land_size, exec_bind, He. cbn [mbind option_bind].
  destruct (Z.ltb_spec 0 (total r1)).
  - rewrite check_access_ok by lia. cbn [mbind prog_bind exec option_bind]. eexists _, _, r1, r2. split; [done|]. split; [done|]. rewrite app_nil_r. split; [done|]. cbn. apply wrap64_small. unfold u64, M64. lia.
  - cbn [exec mbind option_bind]. eexists _, _, r1, r2. split; [done|]. split; [done|]. rewrite app_nil_r. split; [done|]. lia.
Qed.

(** After a read that nobody disturbs the machine is at rest again. *)
Lemma read_rests M D cells rst stg limit n b l : Inv M D cells rst stg -> reader M = None -> exec (read size limit) (buf M) = Some (n, b, l) ->
  exists cells, Inv (with_reader M b None (delivered M ++ l)) [] cells RDone stg.
Proof.
  intros HI Hr He. pose proof HI as []. rewrite Hr in i_reader0. subst rst. cbn in i_rst0. subst D.
  assert (Inv (with_reader M (buf M) (Some (read size limit)) (delivered M)) [] cells (RRead 0 None) stg) as HI1.
  { apply (inv_reader M _ _ _ _ (Some (read size limit)) _ HI); [done|]. unfold world in i_world0. apply read_safe; [lia|tauto]. }
  destruct (exec_inv _ _ _ _ _ _ HI1 eq_refl _ _ _ He) as (D & cells' & rst & HI2). exists cells'. pose proof (i_reader _ _ _ _ _ HI2) as Hrd. pose proof (i_rst _ _ _ _ _ HI2) as Hrs. cbn in Hrd.
  assert (D = []) as -> by (destruct Hrd as [-> | ->]; cbn in Hrs; [by apply length_zero_iff_nil; lia|done]). by apply (inv_reader _ [] cells' rst stg None RDone HI2).
Qed.

Lemma all_finished_idle M D cells rst stg : Inv M D cells rst stg -> writers M = ∅ -> all_finished cells.
Proof.
  intros [] Hw. apply Forall_forall. intros c (l1 & l2 & ->)%list_elem_of_split. destruct (unfinished c) eqn:Hu; [|done].
  destruct (i_cover0 _ c ltac:(apply has_app_r, has_here) Hu) as [[x Hx] _]. by rewrite Hw, lookup_empty in Hx.
Qed.

Lemma drains M D cells rst stg limit : Inv M D cells rst stg -> writers M = ∅ -> reader M = None -> zlen (accepted M) <= limit ->
  exists n1 b1 l1 n2 b2 l2, exec (read size limit) (buf M) = Some (n1, b1, l1) /\ exec (read size limit) b1 = Some (n2, b2, l2) /\ delivered M ++ l1 ++ l2 = map snd (accepted M).
Proof.
  intros HI Hw Hr Hlim. pose proof size_ok as [Hsz _]. pose proof HI as []. rewrite Hr in i_reader0. subst rst. cbn in i_rst0. subst D.
  pose proof (f_equal length i_deliv0) as Hlen. rewrite length_map, length_app in Hlen.
  destruct (exec_read M _ _ _ limit HI) as (n1 & b1 & r1 & r2 & -> & Hr2 & He1 & Hh1); [by eapply all_finished_idle|lia|].
  destruct (read_rests _ _ _ _ _ _ _ _ _ HI Hr He1) as (cells1 & HI1). pose proof (i_deliv _ _ _ _ _ HI1) as i_deliv1. pose proof (i_world _ _ _ _ _ HI1) as i_world1. pose proof (i_tail _ _ _ _ _ HI1) as i_tail1. pose proof (i_lay _ _ _ _ _ HI1) as i_lay1.
  pose proof (f_equal length i_deliv1) as Hlen1. cbn [accepted with_reader delivered] in Hlen1, i_deliv1. rewrite length_map, !length_app in Hlen1.
  destruct (exec_read _ _ _ _ limit HI1) as (n2 & b2 & q1 & q2 & -> & Hq2 & He2 & Hh2); [by eapply all_finished_idle|lia|]. cbn [buf with_reader] in He2, Hq2, Hh2.
  exists n1, b1, (messages r1), n2, b2, (messages q1). split; [done|]. split; [done|]. rewrite i_deliv1, messages_app, <- !app_assoc. f_equal. f_equal.
  enough (messages q2 = []) as -> by (by rewrite app_nil_r). destruct Hq2 as [Hq2|Hq2]; [done|].
  assert (messages (q1 ++ q2) = messages r2) as Hm.
  { rewrite i_deliv0, messages_app, app_assoc in i_deliv1. by apply app_inv_head in i_deliv1. }
  rewrite messages_app in Hm. destruct Hr2 as [Hr2|Hr2]; [rewrite Hr2 in Hm; by apply app_eq_nil in Hm as [_ ?]|].
  pose proof (lay_ok _ _ i_lay1) as Hok. pose proof Hok as [Hok1 Hok2]%Forall_app. pose proof (total_size_nonneg _ Hok1). pose proof (total_size_nonneg _ Hok2). unfold world in i_world1.
  cbn [buf with_reader length] in i_tail1, i_world1. rewrite total_app in i_tail1. rewrite Hh1 in Hq2, i_tail1, i_world1.
  rewrite <- Z.add_mod_idemp_l, Hr2, Z.mod_same in Hq2 by lia. destruct q2 as [|c q2]; [done|]. apply Forall_cons in Hok2 as [Hc Hok2]. pose proof (clen_bounds c Hc). pose proof (total_size_nonneg _ Hok2). cbn [total] in i_tail1. lia.
Qed.

End fifo.

(** C20. The messages that the handler of the reader has been called with are the
    first ones that were reserved, unchanged and in the order of the
    reservations; each writer's calls that returned true are the messages it has
    reserved, apart from one that it is still writing; and no access check ever
    fails.  This holds after any interleaving of any number of writers with the
    reader. *)
Theorem ring_fifo k M : 3 <= k <= 61 -> reachable (2 ^ k) M ->
  delivered M `prefix_of` map snd (accepted M) /\
  (forall tid, exists rest, of_writer tid (accepted M) = of_writer tid (completed M) ++ rest /\
     match writers M !! tid with Some (c, _) => rest = [] \/ rest = [(tid, c)] | None => rest = [] end) /\
  (forall tid c p, writers M !! tid = Some (c, p) -> p <> Raise RuntimeError) /\
  (forall e, reader M <> Some (Raise e)) /\ reader M <> Some OutOfFuel.
Proof.
  intros Hk HM. destruct (inv_reachable (2 ^ k) k Hk eq_refl M HM) as (D & cells & rst & stg & []). split_and!.
  - rewrite i_deliv0. by exists (messages cells).
  - intros tid. exists (in_flight tid (writers M !! tid) (stg tid)). split; [done|]. destruct (writers M !! tid) as [[c p]|]; [|done]. cbn. destruct (is_pre (stg tid)); [by left|by right].
  - intros tid c p Hp ->. destruct (i_writers0 tid c _ Hp) as [_ [_ He]]. done.
  - intros e E. by rewrite E in i_reader0.
  - intros E. by rewrite E in i_reader0.
Qed.


(** ** An example *)

(** A schedule: which of the steps comes next. *)
Inductive choice := CStart (tid : nat) (m : Z) (sections : list (list Z)) | CWrite (tid : nat) | CEndWrite (tid : nat) | CStartRead (limit : Z) | CRead | CEndRead.

Definition choose (size : Z) (ch : choice) (M : Machine) : option Machine :=
  match ch with
  | CStart tid m sections =>
      match writers M !! tid with
      | Some _ => None
      | None =>
          if forallb (fun b => (0 <=? b) && (b <? M8)) (concat sections)
          then Some (mkMachine (buf M) (<[tid := ((m, concat sections), write_multiple size 9 m true sections)]> (writers M)) (reader M) (accepted M) (delivered M) (completed M))
          else None
      end
  | CWrite tid =>
      '(c, p) ← writers M !! tid; '(p', b, e) ← act false p (buf M);
      Some (mkMachine b (<[tid := (c, p')]> (writers M)) (reader M) (log_accepted tid c e (accepted M)) (delivered M) (completed M))
  | CEndWrite tid =>
      '(c, p) ← writers M !! tid;
      if ended p then Some (mkMachine (buf M) (delete tid (writers M)) (reader M) (accepted M) (delivered M) (log_completed tid c p (completed M))) else None
  | CStartRead limit => match reader M with Some _ => None | None => Some (mkMachine (buf M) (writers M) (Some (read size limit)) (accepted M) (delivered M) (completed M)) end
  | CRead => p ← reader M; '(p', b, e) ← act false p (buf M); Some (mkMachine b (writers M) (Some p') (accepted M) (log_delivered e (delivered M)) (completed M))
  | CEndRead => p ← reader M; if ended p then Some (mkMachine (buf M) (writers M) None (accepted M) (delivered M) (completed M)) else None
  end.
Fixpoint schedule (size : Z) (l : list choice) (M : Machine) : option Machine :=
  match l with
  | [] => Some M
  | ch :: l => M' ← choose size ch M; if tail (buf M') <? 2 ^ 62 then schedule size l M' else None
  end.

Lemma choose_step size ch M M' : choose size ch M = Some M' -> step size M M'.
Proof.
  destruct ch as [tid m sections|tid|tid|limit| |]; cbn [choose]; intros H.
  - destruct (writers M !! tid) eqn:E; [done|]. destruct (forallb _ _) eqn:Eb; [|done]. injection H as <-. apply start_write; [done|].
    apply Forall_forall. intros b Hb. rewrite forallb_forall in Eb. apply list_elem_of_In in Hb. specialize (Eb b Hb). unfold u8. lia.
  - destruct (writers M !! tid) as [[c p]|] eqn:E; [|done]. cbn in H. destruct (act false p (buf M)) as [[[p' b] e]|] eqn:Ea; [|done]. injection H as <-. by eapply do_write.
  - destruct (writers M !! tid) as [[c p]|] eqn:E; [|done]. cbn in H. destruct (ended p) eqn:Ee; [|done]. injection H as <-. by eapply end_write.
  - destruct (reader M) eqn:E; [done|]. injection H as <-. by apply start_read.
  - destruct (reader M) as [p|] eqn:E; [|done]. cbn in H. destruct (act false p (buf M)) as [[[p' b] e]|] eqn:Ea; [|done]. injection H as <-. by eapply do_read.
  - destruct (reader M) as [p|] eqn:E; [|done]. cbn in H. destruct (ended p) eqn:Ee; [|done]. injection H as <-. by eapply end_read.
Qed.
Lemma schedule_reachable size l : forall M M', reachable size M -> schedule size l M = Some M' -> reachable size M'.
Proof.
  induction l as [|ch l IH]; intros M M' HM H; cbn in H; [by injection H as <-|]. destruct (choose size ch M) as [M1|] eqn:E; [|done]. cbn in H.
  destruct (Z.ltb_spec (tail (buf M1)) (2 ^ 62)); [|done]. apply (IH M1); [|done]. eapply reachable_step; [done|by eapply choose_step|done].
Qed.

(** Writer 0 reserves before writer 1 and finishes after it; the reader looks in
    between and at the end. *)
Definition wschedule : list choice :=
  [CStart 0 5 [[1]; [2]]] ++ replicate 4 (CWrite 0) ++ [CStart 1 6 [[7; 8; 9]]] ++ replicate 10 (CWrite 1) ++ [CEndWrite 1; CStartRead 2] ++ replicate 2 CRead ++ [CEndRead] ++
  replicate 6 (CWrite 0) ++ [CEndWrite 0].
Definition wmachine : Machine := default (new_machine 64) (schedule 64 wschedule (new_machine 64)).
Definition wafter : Machine := default (new_machine 64) (schedule 64 ([CStartRead 2] ++ replicate 39 CRead ++ [CEndRead]) wmachine).
Lemma wmachine_reachable : reachable 64 wmachine.
Proof. apply (schedule_reachable 64 wschedule (new_machine 64)); [constructor|]. vm_compute. reflexivity. Qed.
Lemma wafter_reachable : reachable 64 wafter.
Proof. apply (schedule_reachable 64 ([CStartRead 2] ++ replicate 39 CRead ++ [CEndRead]) wmachine); [apply wmachine_reachable|]. vm_compute. reflexivity. Qed.

Lemma ring_fifo_witness : delivered wafter = [(5, [1; 2]); (6, [7; 8; 9])] /\ map fst (completed wafter) = [1%nat; 0%nat] /\ delivered wafter `prefix_of` map snd (accepted wafter).
Proof.
  split; [vm_compute; reflexivity|]. split; [vm_compute; reflexivity|]. exact (proj1 (ring_fifo 6 wafter ltac:(lia) wafter_reachable)).
Defined.

End RingFifo.
