(* ===== verification/Raft.v ===== *)
(** * Consensus

    Model of CCF/src/consensus/aft/raft.h, class Aft, with the state of
    impl/state.h, the messages of raft_types.h, the ledger of
    ledger_enclave.h and the configuration hook of node/hooks.h.

    [Node] is the whole state of a replica, its private fields grouped as
    [State] (the class of state.h), [Election], [Members] and [Batch].  A member
    function is an operation of the monad of state and exceptions on it.  What a
    replica asks of others is in [out], in order: messages to other nodes,
    messages of the ledger proxy to the host, requests to submit an observed
    reconfiguration commit and to clean up retired nodes.

    The store is the class [AftStore], an abstraction of the class aft::Store.
    [Env] holds what the environment decides: random numbers, whether a channel
    takes a message, and the memory that back() of an empty list reads.

    node_state.h creates the consensus without a resharing tracker, for which
    the constructor throws unless the type is CFT.  So the consensus type is CFT,
    [require_identity_for_reconfig] is false and the tracker is null.  Assertions
    are those of a release build, which do nothing.  Loops over maps take the
    order of [map_to_list]; the source has the order of the names or none. *)
From S2P Require Import Prelude Monad Serialized.
From stdpp Require Import list gmap strings sorting.
Local Open Scope Z_scope.

Module Raft.

Abbreviation NodeId := string (only parsing).

(** ** View history *)

Module ViewHistory.

Definition InvalidView : Z := 0.
Definition NoVersion : Z := 0.

(** Entry [i] is the first version in view [i + 1]. *)
Definition views := list Z.

(** std::upper_bound, the number of elements before the first that is greater.
    The vector is in order ([update] sees to it). *)
Fixpoint upper_bound (vs : views) (idx : Z) : nat :=
  match vs with
  | [] => O
  | v :: vs => if idx <? v then O else S (upper_bound vs idx)
  end.

Definition update (idx view : Z) (vs : views) : result views :=
  match last vs with
  | Some latest => if idx <? latest then Throw LogicError else Ok (vs ++ replicate (Z.to_nat (view - zlen vs)) idx)
  | None => Ok (vs ++ replicate (Z.to_nat (view - zlen vs)) idx)
  end.

(** The views that an exception leaves are those before the entry that caused it. *)
Fixpoint initialise_from (i : Z) (terms : list Z) (vs : views) : views * result unit :=
  match terms with
  | [] => (vs, Ok tt)
  | t :: terms => match update t (i + 1) vs with Ok vs => initialise_from (i + 1) terms vs | Throw e => (vs, Throw e) | Undef => (vs, Undef) end
  end.
Definition initialise (terms : list Z) : M views unit := fun _ => initialise_from 0 terms [].

Definition view_at (vs : views) (idx : Z) : Z := Z.of_nat (upper_bound vs idx).

Definition start_of_view (vs : views) (view : Z) : Z :=
  if (zlen vs <? view) || (view =? InvalidView) then NoVersion
  else
    let tentative := znth (view - 1) vs in
    if (view + 1 <=? zlen vs) && (znth view vs =? tentative) then NoVersion else tentative.

Definition end_of_view (vs : views) (view : Z) : Z :=
  if start_of_view vs view =? NoVersion then NoVersion
  else if (zlen vs <=? view) || (view =? InvalidView) then NoVersion
  else wrap64 (znth view vs - 1).

Definition get_history_until (vs : views) (idx : Z) : list Z := take (upper_bound vs idx) vs.

Definition rollback_views (idx : Z) (vs : views) : views := take (upper_bound vs idx) vs.

End ViewHistory.

(** ** Data *)

Inductive LeadershipState := Leader | Follower | Candidate.
Inductive MembershipState := Learner | Active | RetirementInitiated | Retired.
Inductive RetirementPhase := Committed | Ordered | Signed | Completed.
Inductive ReconfigurationType := ONE_TRANSACTION | TWO_TRANSACTION.
Inductive ApplyResult :=
  | PASS | PASS_SIGNATURE | PASS_BACKUP_SIGNATURE | PASS_BACKUP_SIGNATURE_SEND_ACK | PASS_NONCES | PASS_NEW_VIEW
  | PASS_SNAPSHOT_EVIDENCE | PASS_ENCRYPTED_PAST_LEDGER_SECRET | PASS_APPLY | FAIL.
#[global] Instance LeadershipState_eq_dec : EqDecision LeadershipState.
Proof. solve_decision. Defined.
#[global] Instance MembershipState_eq_dec : EqDecision MembershipState.
Proof. solve_decision. Defined.
#[global] Instance RetirementPhase_eq_dec : EqDecision RetirementPhase.
Proof. solve_decision. Defined.
#[global] Instance ReconfigurationType_eq_dec : EqDecision ReconfigurationType.
Proof. solve_decision. Defined.
#[global] Instance ApplyResult_eq_dec : EqDecision ApplyResult.
Proof. solve_decision. Defined.

(** The numbers of the enumeration, by which phases are compared. *)
Definition phase_num (p : RetirementPhase) : Z := match p with Committed => 0 | Ordered => 1 | Signed => 2 | Completed => 3 end.

Record NodeInfo := mkNodeInfo { hostname : string; port : string }.
#[global] Instance NodeInfo_eq_dec : EqDecision NodeInfo.
Proof. solve_decision. Defined.
Definition Nodes := gmap NodeId NodeInfo.
Record Configuration := mkConfiguration { cfg_idx : Z; cfg_nodes : Nodes; bft_offset : Z; rid : Z }.

(** Messages between nodes. *)
Record AppendEntries := mkAE {
  ae_idx : Z; ae_prev_idx : Z; ae_term : Z; ae_prev_term : Z; ae_leader_commit_idx : Z; ae_term_of_idx : Z; ae_contains_new_view : bool }.
Inductive AppendEntriesResponseType := OK | NACK | REQUIRE_EVIDENCE.
#[global] Instance AppendEntriesResponseType_eq_dec : EqDecision AppendEntriesResponseType.
Proof. solve_decision. Defined.
Record AppendEntriesResponse := mkAER { aer_term : Z; aer_last_log_idx : Z; aer_success : AppendEntriesResponseType }.
Record RequestVote := mkRV { rv_term : Z; rv_last_committable_idx : Z; rv_term_of_last_committable_idx : Z }.
Record RequestVoteResponse := mkRVR { rvr_term : Z; rvr_vote_granted : bool }.
Inductive Msg :=
  | MsgAppendEntries (r : AppendEntries)
  | MsgAppendEntriesResponse (r : AppendEntriesResponse)
  | MsgRequestVote (r : RequestVote)
  | MsgRequestVoteResponse (r : RequestVoteResponse).

Inductive Output :=
  | Send (to : NodeId) (m : Msg)
  | LedgerAppend (entry : list Z) (globally_committable : bool)
  | LedgerTruncate (idx : Z)
  | LedgerCommit (idx : Z)
  | LedgerInit (idx recovery_start_idx : Z)
  | SubmitOrc (rid : Z)
  | CleanupRetiredNodes.

(** ** State *)

Record NodeState := mkNodeState { node_info : NodeInfo; sent_idx : Z; match_idx : Z; last_ack_timeout : Z }.
Record Votes := mkVotes { votes : gset NodeId; quorum : Z }.

Record State := mkState {
  my_node_id : NodeId; current_view : Z; last_idx : Z; commit_idx : Z; cft_watermark_idx : Z;
  view_history : list Z; new_view_idx : Z; requested_evidence_from : option NodeId }.

Record Election := mkElection {
  voted_for : option NodeId; leader_id : option NodeId; votes_for_me : gmap Z Votes; leadership_state : option LeadershipState;
  timeout_elapsed : Z; election_index : Z; is_new_follower : bool; should_sign : bool; ticking : bool }.

Record Members := mkMembers {
  membership_state : MembershipState; retirement_phase : option RetirementPhase;
  retirement_idx : option Z; retirement_committable_idx : option Z;
  configurations : list Configuration; all_other_nodes : gmap NodeId NodeState;
  learner_nodes : gmap NodeId Z; retired_nodes : gmap NodeId Z;
  reconfiguration_type : ReconfigurationType; orc_sets : gmap Z (gset NodeId) }.

Record Batch := mkBatch { entry_size_not_limited : Z; entry_count : Z; entries_batch_size : Z; batch_window_sum : Z }.

Record Node (S : Type) := mkNode {
  state : State; election : Election; members : Members; batch : Batch;
  committable_indices : list Z; public_only : bool; store : S; out : list Output; draws : nat }.
Arguments mkNode {S} _ _ _ _ _ _ _ _ _.
Arguments state {S} _.
Arguments election {S} _.
Arguments members {S} _.
Arguments batch {S} _.
Arguments committable_indices {S} _.
Arguments public_only {S} _.
Arguments store {S} _.
Arguments out {S} _.
Arguments draws {S} _.

(** Assignments to a field. *)
Definition set_current_view x (s : State) : State := mkState (my_node_id s) x (last_idx s) (commit_idx s) (cft_watermark_idx s) (view_history s) (new_view_idx s) (requested_evidence_from s).
Definition set_last_idx x (s : State) : State := mkState (my_node_id s) (current_view s) x (commit_idx s) (cft_watermark_idx s) (view_history s) (new_view_idx s) (requested_evidence_from s).
Definition set_commit_idx x (s : State) : State := mkState (my_node_id s) (current_view s) (last_idx s) x (cft_watermark_idx s) (view_history s) (new_view_idx s) (requested_evidence_from s).
Definition set_cft_watermark_idx x (s : State) : State := mkState (my_node_id s) (current_view s) (last_idx s) (commit_idx s) x (view_history s) (new_view_idx s) (requested_evidence_from s).
Definition set_view_history x (s : State) : State := mkState (my_node_id s) (current_view s) (last_idx s) (commit_idx s) (cft_watermark_idx s) x (new_view_idx s) (requested_evidence_from s).
Definition set_requested_evidence_from x (s : State) : State := mkState (my_node_id s) (current_view s) (last_idx s) (commit_idx s) (cft_watermark_idx s) (view_history s) (new_view_idx s) x.
Definition set_voted_for x (s : Election) : Election := mkElection x (leader_id s) (votes_for_me s) (leadership_state s) (timeout_elapsed s) (election_index s) (is_new_follower s) (should_sign s) (ticking s).
Definition set_leader_id x (s : Election) : Election := mkElection (voted_for s) x (votes_for_me s) (leadership_state s) (timeout_elapsed s) (election_index s) (is_new_follower s) (should_sign s) (ticking s).
Definition set_votes_for_me x (s : Election) : Election := mkElection (voted_for s) (leader_id s) x (leadership_state s) (timeout_elapsed s) (election_index s) (is_new_follower s) (should_sign s) (ticking s).
Definition set_leadership_state x (s : Election) : Election := mkElection (voted_for s) (leader_id s) (votes_for_me s) x (timeout_elapsed s) (election_index s) (is_new_follower s) (should_sign s) (ticking s).
Definition set_timeout_elapsed x (s : Election) : Election := mkElection (voted_for s) (leader_id s) (votes_for_me s) (leadership_state s) x (election_index s) (is_new_follower s) (should_sign s) (ticking s).
Definition set_election_index x (s : Election) : Election := mkElection (voted_for s) (leader_id s) (votes_for_me s) (leadership_state s) (timeout_elapsed s) x (is_new_follower s) (should_sign s) (ticking s).
Definition set_is_new_follower x (s : Election) : Election := mkElection (voted_for s) (leader_id s) (votes_for_me s) (leadership_state s) (timeout_elapsed s) (election_index s) x (should_sign s) (ticking s).
Definition set_should_sign x (s : Election) : Election := mkElection (voted_for s) (leader_id s) (votes_for_me s) (leadership_state s) (timeout_elapsed s) (election_index s) (is_new_follower s) x (ticking s).
Definition set_ticking x (s : Election) : Election := mkElection (voted_for s) (leader_id s) (votes_for_me s) (leadership_state s) (timeout_elapsed s) (election_index s) (is_new_follower s) (should_sign s) x.
Definition set_membership_state x (s : Members) : Members := mkMembers x (retirement_phase s) (retirement_idx s) (retirement_committable_idx s) (configurations s) (all_other_nodes s) (learner_nodes s) (retired_nodes s) (reconfiguration_type s) (orc_sets s).
Definition set_retirement_phase x (s : Members) : Members := mkMembers (membership_state s) x (retirement_idx s) (retirement_committable_idx s) (configurations s) (all_other_nodes s) (learner_nodes s) (retired_nodes s) (reconfiguration_type s) (orc_sets s).
Definition set_retirement_idx x (s : Members) : Members := mkMembers (membership_state s) (retirement_phase s) x (retirement_committable_idx s) (configurations s) (all_other_nodes s) (learner_nodes s) (retired_nodes s) (reconfiguration_type s) (orc_sets s).
Definition set_retirement_committable_idx x (s : Members) : Members := mkMembers (membership_state s) (retirement_phase s) (retirement_idx s) x (configurations s) (all_other_nodes s) (learner_nodes s) (retired_nodes s) (reconfiguration_type s) (orc_sets s).
Definition set_configurations x (s : Members) : Members := mkMembers (membership_state s) (retirement_phase s) (retirement_idx s) (retirement_committable_idx s) x (all_other_nodes s) (learner_nodes s) (retired_nodes s) (reconfiguration_type s) (orc_sets s).
Definition set_all_other_nodes x (s : Members) : Members := mkMembers (membership_state s) (retirement_phase s) (retirement_idx s) (retirement_committable_idx s) (configurations s) x (learner_nodes s) (retired_nodes s) (reconfiguration_type s) (orc_sets s).
Definition set_learner_nodes x (s : Members) : Members := mkMembers (membership_state s) (retirement_phase s) (retirement_idx s) (retirement_committable_idx s) (configurations s) (all_other_nodes s) x (retired_nodes s) (reconfiguration_type s) (orc_sets s).
Definition set_retired_nodes x (s : Members) : Members := mkMembers (membership_state s) (retirement_phase s) (retirement_idx s) (retirement_committable_idx s) (configurations s) (all_other_nodes s) (learner_nodes s) x (reconfiguration_type s) (orc_sets s).
Definition set_reconfiguration_type x (s : Members) : Members := mkMembers (membership_state s) (retirement_phase s) (retirement_idx s) (retirement_committable_idx s) (configurations s) (all_other_nodes s) (learner_nodes s) (retired_nodes s) x (orc_sets s).
Definition set_orc_sets x (s : Members) : Members := mkMembers (membership_state s) (retirement_phase s) (retirement_idx s) (retirement_committable_idx s) (configurations s) (all_other_nodes s) (learner_nodes s) (retired_nodes s) (reconfiguration_type s) x.

Section fields.
Context {S : Type}.
Implicit Types (s : Node S).
Definition on_state (f : State -> State) s : Node S := mkNode (f (state s)) (election s) (members s) (batch s) (committable_indices s) (public_only s) (store s) (out s) (draws s).
Definition on_election (f : Election -> Election) s : Node S := mkNode (state s) (f (election s)) (members s) (batch s) (committable_indices s) (public_only s) (store s) (out s) (draws s).
Definition on_members (f : Members -> Members) s : Node S := mkNode (state s) (election s) (f (members s)) (batch s) (committable_indices s) (public_only s) (store s) (out s) (draws s).
Definition on_batch (f : Batch -> Batch) s : Node S := mkNode (state s) (election s) (members s) (f (batch s)) (committable_indices s) (public_only s) (store s) (out s) (draws s).
Definition on_committable_indices (f : list Z -> list Z) s : Node S := mkNode (state s) (election s) (members s) (batch s) (f (committable_indices s)) (public_only s) (store s) (out s) (draws s).
Definition set_public_only x s : Node S := mkNode (state s) (election s) (members s) (batch s) (committable_indices s) x (store s) (out s) (draws s).
Definition set_store x s : Node S := mkNode (state s) (election s) (members s) (batch s) (committable_indices s) (public_only s) x (out s) (draws s).
Definition set_out x s : Node S := mkNode (state s) (election s) (members s) (batch s) (committable_indices s) (public_only s) (store s) x (draws s).
Definition set_draws x s : Node S := mkNode (state s) (election s) (members s) (batch s) (committable_indices s) (public_only s) (store s) (out s) x.
End fields.

(** ** The store *)

(** What the consensus calls of the store; [W] are the execution wrappers.
    [apply] of a wrapper applies its entry and fixes its hooks, term and index. *)
Class AftStore (S W H : Type) := {
  st_compact : Z -> M S unit;
  st_rollback : Z * Z -> Z -> M S unit;
  st_initialise_term : Z -> M S unit;
  st_apply : list Z -> bool -> Z * Z -> M S (option W);
  w_apply : W -> M S (W * ApplyResult);
  w_hooks : W -> list H;
  w_entry : W -> list Z;
  w_term : W -> Z;
  w_index : W -> Z }.

(** [write] of the nodes table as the hook's constructor takes it apart. *)
Inductive NodeStatus := PENDING | TRUSTED | RETIRED | LEARNER | RETIRING.
Inductive Hook :=
  | ConfigurationChangeHook (version : Z) (cfg_delta : gmap NodeId (option NodeInfo)) (learners retired : gset NodeId)
  | ResharingsHook.

(** Constructor of ConfigurationChangeHook; the addresses are split already. *)
Definition configuration_change_hook (version : Z) (w : gmap NodeId (option (NodeStatus * NodeInfo))) : Hook :=
  let live := omap id w in
  ConfigurationChangeHook version
    (omap (fun '(s, ni) => match s with
       | TRUSTED | LEARNER => Some (Some ni)
       | RETIRED | RETIRING => Some None
       | PENDING => None
       end) live)
    (dom (filter (fun '(_, (s, _)) => match s with LEARNER => true | _ => false end = true) live))
    (dom (filter (fun '(_, (s, _)) => match s with RETIRED => true | _ => false end = true) live)).

(** What the environment decides. *)
Record Env := mkEnv {
  request_timeout : Z; election_timeout : Z;
  distrib : nat -> Z; can_send : nat -> NodeId -> bool; stale_nodes : Nodes }.

Section node.
Context {S W : Type} {aft_store : AftStore S W Hook} (E : Env).
Implicit Types (s : Node S).

Definition self : M (Node S) (Node S) := gets (fun s => s).
Definition on_store {A} (m : M S A) : M (Node S) A := zoom store set_store m.
Definition emit (o : Output) : M (Node S) unit := modify (fun s => set_out (out s ++ [o]) s).
Definition st (f : State -> State) : M (Node S) unit := modify (on_state f).
Definition el (f : Election -> Election) : M (Node S) unit := modify (on_election f).
Definition mb (f : Members -> Members) : M (Node S) unit := modify (on_members f).

(** state->view_history.update *)
Definition update_view_history (idx view : Z) : M (Node S) unit :=
  s ← self; vs ← lift (ViewHistory.update idx view (view_history (state s))); st (set_view_history vs).

(** channels->send_authenticated *)
Definition send_authenticated (to : NodeId) (m : Msg) : M (Node S) bool :=
  i ← gets draws; _ ← modify (set_draws (1 + i)%nat);
  if can_send E i to then _ ← emit (Send to m); mret true else mret false.

(** ** Queries *)

Definition my_id s : NodeId := my_node_id (state s).
Definition is_leadership (l : LeadershipState) s : bool := bool_decide (leadership_state (election s) = Some l).
Definition is_membership (m : MembershipState) s : bool := bool_decide (membership_state (members s) = m).
Definition is_primary := is_leadership Leader.
Definition is_candidate := is_leadership Candidate.
Definition is_backup := is_leadership Follower.
Definition is_learner := is_membership Learner.
Definition is_retired := is_membership Retired.
Definition is_retiring := is_membership RetirementInitiated.
Definition phase_is (p : RetirementPhase) s : bool := bool_decide (retirement_phase (members s) = Some p).
(** Comparison of an optional phase: no phase is below every phase. *)
Definition phase_above (p : RetirementPhase) s : bool := match retirement_phase (members s) with Some q => phase_num p <? phase_num q | None => false end.

Definition last_committable_index s : Z :=
  match last (committable_indices s) with Some i => i | None => commit_idx (state s) end.
Definition get_term_internal s (idx : Z) : Z :=
  if last_idx (state s) <? idx then ViewHistory.InvalidView else ViewHistory.view_at (view_history (state s)) idx.
Definition can_replicate_unsafe s : bool := is_primary s && bool_decide (retirement_committable_idx (members s) = None).

Inductive SignatureDisposition := CANT_REPLICATE | CAN_SIGN | SHOULD_SIGN.
Definition get_signature_disposition s : SignatureDisposition :=
  if can_replicate_unsafe s then if should_sign (election s) then SHOULD_SIGN else CAN_SIGN else CANT_REPLICATE.

Definition get_latest_configuration_unsafe s : Nodes :=
  match last (configurations (members s)) with Some c => cfg_nodes c | None => ∅ end.
Definition is_self_in_latest_config s : bool :=
  match last (configurations (members s)) with Some c => bool_decide (is_Some (cfg_nodes c !! my_id s)) | None => false end.
Definition can_endorse_primary s : bool := negb (is_retired s) && negb (is_learner s).
Definition get_quorum (n : Z) : Z := n / 2 + 1.
Definition has_node (nodes : Nodes) (id : NodeId) : bool := bool_decide (is_Some (nodes !! id)).
Definition zsize {A} (m : gmap NodeId A) : Z := Z.of_nat (size m).

(** The largest index that can still match; every turn but the last goes to the
    end of an earlier view, so [views + 1] turns are enough. *)
Fixpoint find_match_loop (fuel : nat) (vs : list Z) (view probe_index term_of_probe : Z) : Z :=
  match fuel with
  | O => probe_index
  | Datatypes.S fuel =>
      if view <? term_of_probe then
        let p := ViewHistory.start_of_view vs term_of_probe in
        let p := if 0 <? p then p - 1 else p in
        find_match_loop fuel vs view p (ViewHistory.view_at vs p)
      else probe_index
  end.
Definition find_highest_possible_match s (view seqno : Z) : Z :=
  let vs := view_history (state s) in
  let probe := Z.min seqno (last_idx (state s)) in
  find_match_loop (1 + length vs) vs view probe (ViewHistory.view_at vs probe).

(** ** Batches *)

Definition append_entries_size_limit : Z := 20000.
Definition batch_window_size : Z := 100.
Definition to_int (x : Z) : Z := (x + 2 ^ 31) mod 2 ^ 32 - 2 ^ 31.

Definition update_batch_size : M (Node S) unit := modify (on_batch (fun b =>
  let avg_entry_size := if entry_count b =? 0 then append_entries_size_limit else entry_size_not_limited b / entry_count b in
  let batch_size := if avg_entry_size =? 0 then append_entries_size_limit / 2 else append_entries_size_limit / avg_entry_size in
  let batch_avg := Z.quot (batch_window_sum b) batch_window_size in
  let sum := to_int (batch_window_sum b + (batch_size - batch_avg)) in
  mkBatch (entry_size_not_limited b) (entry_count b) (Z.max (Z.quot sum batch_window_size) 1) sum)).

(** ** Sending append entries *)

Definition calculate_end_index s (start : Z) : Z :=
  let vs := view_history (state s) in
  let at_end := ViewHistory.end_of_view vs (ViewHistory.view_at vs start) in
  let max_idx := if at_end =? ViewHistory.NoVersion then last_idx (state s) else at_end in
  Z.min (wrap64 (start + entries_batch_size (batch s))) max_idx.

Definition send_append_entries_range (to : NodeId) (start_idx end_idx : Z) : M (Node S) unit :=
  let prev_idx := wrap64 (start_idx - 1) in
  s ← self;
  if is_retired s && phase_above Signed s && (end_idx <=? start_idx) then mret tt
  else
    let contains_new_view := (prev_idx <? new_view_idx (state s)) && (new_view_idx (state s) <=? end_idx) in
    let ae := mkAE end_idx prev_idx (current_view (state s)) (get_term_internal s prev_idx) (commit_idx (state s))
      (get_term_internal s end_idx) contains_new_view in
    match all_other_nodes (members s) !! to with
    | None => throw OutOfRange
    | Some _ =>
        ok ← send_authenticated to (MsgAppendEntries ae);
        if (ok : bool) then
          mb (fun m => set_all_other_nodes (alter (fun n => mkNodeState (node_info n) end_idx (match_idx n) (last_ack_timeout n)) to (all_other_nodes m)) m)
        else mret tt
    end.

(** The loop sends one range per turn and has at most one turn per index. *)
Fixpoint send_append_entries_loop (fuel : nat) (to : NodeId) (start_idx : Z) : M (Node S) unit :=
  match fuel with
  | O => undef
  | Datatypes.S fuel =>
      end_idx ← gets (fun s => calculate_end_index s start_idx);
      _ ← send_append_entries_range to start_idx end_idx;
      last ← gets (fun s => last_idx (state s));
      if end_idx =? last then mret tt else send_append_entries_loop fuel to (Z.min (wrap64 (end_idx + 1)) last)
  end.
Definition send_append_entries (to : NodeId) (start_idx : Z) : M (Node S) unit :=
  last ← gets (fun s => last_idx (state s)); send_append_entries_loop (Z.to_nat last + 2) to start_idx.

(** ** Nodes of the active configurations *)

Definition active_nodes s : Nodes := foldl (fun acc c => acc ∪ cfg_nodes c) ∅ (configurations (members s)).

Definition add_node (id : NodeId) (info : NodeInfo) : M (Node S) unit :=
  s ← self;
  if bool_decide (id = my_id s) then mret tt
  else if bool_decide (is_Some (all_other_nodes (members s) !! id)) then mret tt
  else
    let index := wrap64 (last_idx (state s) + 1) in
    _ ← mb (fun m => set_all_other_nodes (<[id := mkNodeState info index 0 0]> (all_other_nodes m)) m);
    if is_primary s then send_append_entries id index else mret tt.

Definition create_and_remove_node_state : M (Node S) unit :=
  active ← gets active_nodes;
  _ ← mb (fun m => set_all_other_nodes (filter (fun '(id, _) => is_Some (active !! id)) (all_other_nodes m)) m);
  for_each (fun '(id, info) => add_node id info) (map_to_list active).

(** ** Retirement *)

Definition become_retiring : M (Node S) unit := mb (set_membership_state RetirementInitiated).

Definition become_retired (idx : Z) (phase : RetirementPhase) : M (Node S) unit :=
  _ ← match phase with
      | Committed => mret tt
      | Ordered => mb (set_retirement_idx (Some idx))
      | Signed => mb (set_retirement_committable_idx (Some idx))
      | Completed => el (fun e => set_leadership_state None (set_leader_id None e))
      end;
  mb (fun m => set_retirement_phase (Some phase) (set_membership_state Retired m)).

(** ** Commit *)

Definition count (f : NodeId -> bool) (nodes : Nodes) : Z := zlen (List.filter f (map_to_list nodes).*1).

Definition num_trusted s (c : Configuration) : Z :=
  count (fun id =>
    (bool_decide (is_Some (all_other_nodes (members s) !! id)) && bool_decide (learner_nodes (members s) !! id = None)) ||
    (bool_decide (id = my_id s) && negb (is_learner s))) (cfg_nodes c).
Definition num_retired s (from to : Configuration) : Z :=
  count (fun id =>
    negb (has_node (cfg_nodes to) id) &&
    match retired_nodes (members s) !! id with Some i => i <=? commit_idx (state s) | None => false end) (cfg_nodes from).
Definition num_required_retirements (from to : Configuration) : Z :=
  count (fun id => negb (has_node (cfg_nodes to) id)) (cfg_nodes from).

Definition cleanup_if_primary : M (Node S) unit := s ← self; if is_primary s then emit CleanupRetiredNodes else mret tt.

Definition become_active_follower : M (Node S) unit :=
  _ ← el (set_leadership_state (Some Follower)); mb (set_membership_state Active).

(** Switch from [conf] to [next] in a two-transaction reconfiguration: whether
    the loop goes on. *)
Definition switch_two_transaction (idx : Z) (conf next : Configuration) : M (Node S) bool :=
  s ← self;
  _ ← (if negb (is_retired s) && has_node (cfg_nodes conf) (my_id s) && negb (has_node (cfg_nodes next) (my_id s)) then
         if is_retiring s then become_retired idx Committed else become_retiring
       else mret tt);
  s ← self;
  if (num_trusted s next =? zsize (cfg_nodes next)) && (num_retired s conf next =? num_required_retirements conf next) then
    _ ← (if is_learner s && has_node (cfg_nodes next) (my_id s) then become_active_follower else mret tt);
    _ ← mb (fun m => set_learner_nodes (filter (fun '(id, _) => cfg_nodes next !! id = None) (learner_nodes m)) m);
    _ ← mb (fun m => set_retired_nodes (filter (fun '(id, _) => has_node (cfg_nodes conf) id && negb (has_node (cfg_nodes next) id) = false) (retired_nodes m)) m);
    _ ← cleanup_if_primary;
    _ ← mb (fun m => set_configurations (tail (configurations m)) m);
    mret true
  else
    _ ← (if negb (is_learner s) && (has_node (cfg_nodes next) (my_id s) || (is_retiring s && negb (has_node (cfg_nodes next) (my_id s)))) then
           emit (SubmitOrc (rid next))
         else mret tt);
    mret false.

(** The loop over the committed configurations; the result is [changed]. *)
Fixpoint commit_configurations (fuel : nat) (idx : Z) (changed : bool) : M (Node S) bool :=
  match fuel with
  | O => mret changed
  | Datatypes.S fuel =>
      m ← gets members;
      match configurations m with
      | conf :: next :: _ =>
          if idx <? cfg_idx next then mret changed
          else
            match reconfiguration_type m with
            | ONE_TRANSACTION =>
                _ ← mb (fun m => set_configurations (tail (configurations m)) m);
                _ ← cleanup_if_primary;
                commit_configurations fuel idx true
            | TWO_TRANSACTION =>
                more ← switch_two_transaction idx conf next;
                if (more : bool) then commit_configurations fuel idx changed else mret changed
            end
      | _ => mret changed
      end
  end.

Definition commit (idx : Z) : M (Node S) unit :=
  s ← self;
  if last_idx (state s) <? idx then throw LogicError
  else if idx <=? commit_idx (state s) then mret tt
  else
    _ ← st (set_commit_idx idx);
    _ ← (if is_retired s && phase_is Signed s && match retirement_committable_idx (members s) with Some i => i <=? idx | None => false end
         then become_retired idx Completed else mret tt);
    _ ← on_store (st_compact idx);
    _ ← emit (LedgerCommit idx);
    changed ← commit_configurations (length (configurations (members s))) idx false;
    if (changed : bool) then create_and_remove_node_state else mret tt.

(** The committable indices up to [idx] are taken out; the last of them is committed. *)
Fixpoint pop_committable (idx : Z) (l : list Z) (highest : option Z) : option Z * list Z :=
  match l with
  | i :: l' => if i <=? idx then pop_committable idx l' (Some i) else (highest, l)
  | [] => (highest, [])
  end.

Definition commit_if_possible (idx : Z) : M (Node S) unit :=
  s ← self;
  if (commit_idx (state s) <? idx) && (get_term_internal s idx <=? current_view (state s)) then
    let '(highest, rest) := pop_committable idx (committable_indices s) None in
    _ ← modify (on_committable_indices (fun _ => rest));
    match highest with Some i => commit i | None => mret tt end
  else mret tt.

(** ** Rollback *)

Definition rollback_membership (idx : Z) : M (Node S) unit :=
  s ← self;
  _ ← (if is_retired s && phase_is Signed s then
         match retirement_committable_idx (members s) with
         | None => throw BadOptionalAccess
         | Some i => if idx <? i then mb (fun m => set_retirement_phase (Some Ordered) (set_retirement_committable_idx None m)) else mret tt
         end
       else mret tt);
  s ← self;
  if is_retired s && phase_is Ordered s then
    match retirement_idx (members s) with
    | None => throw BadOptionalAccess
    | Some i =>
        if idx <? i then
          mb (fun m => set_membership_state (match reconfiguration_type m with ONE_TRANSACTION => Active | TWO_TRANSACTION => RetirementInitiated end)
            (set_retirement_phase None (set_retirement_idx None m)))
        else mret tt
    end
  else mret tt.

(** Taken from the end of the list while [f] holds. *)
Fixpoint drop_end {A} (f : A -> bool) (l : list A) : list A :=
  match l with
  | [] => []
  | a :: l => match drop_end f l with [] => if f a then [] else [a] | l => a :: l end
  end.

Definition rollback (idx : Z) : M (Node S) unit :=
  s ← self;
  if idx <? commit_idx (state s) then mret tt
  else
    _ ← on_store (st_rollback (get_term_internal s idx, idx) (current_view (state s)));
    _ ← emit (LedgerTruncate idx);
    _ ← st (set_last_idx idx);
    _ ← st (fun t => set_view_history (ViewHistory.rollback_views idx (view_history t)) t);
    _ ← modify (on_committable_indices (drop_end (fun i => idx <? i)));
    _ ← rollback_membership idx;
    m ← gets members;
    let confs := drop_end (fun c => idx <? cfg_idx c) (configurations m) in
    _ ← mb (set_configurations confs);
    _ ← match reconfiguration_type m with
        | TWO_TRANSACTION => mb (fun m =>
            set_retired_nodes (filter (fun '(_, i) => i <= idx) (retired_nodes m))
              (set_learner_nodes (filter (fun '(_, i) => i <= idx) (learner_nodes m)) m))
        | ONE_TRANSACTION => mret tt
        end;
    if (length confs <? length (configurations m))%nat then create_and_remove_node_state else mret tt.

(** ** Elections *)

Definition start_ticking : M (Node S) unit := el (fun e => set_timeout_elapsed 0 (set_ticking true e)).
Definition start_ticking_if_necessary : M (Node S) unit :=
  s ← self; if negb (ticking (election s)) && is_self_in_latest_config s then start_ticking else mret tt.

Definition clear_orc_sets : M (Node S) unit := mb (fun m => set_orc_sets ((fun _ => ∅) <$> orc_sets m) m).
Definition reset_last_ack_timeouts : M (Node S) unit :=
  mb (fun m => set_all_other_nodes ((fun n => mkNodeState (node_info n) (sent_idx n) (match_idx n) 0) <$> all_other_nodes m) m).
Definition restart_election_timeout : M (Node S) unit :=
  i ← gets draws; _ ← modify (set_draws (1 + i)%nat); el (set_timeout_elapsed (distrib E i)).

Definition reset_votes_for_me : M (Node S) unit :=
  confs ← gets (fun s => configurations (members s));
  el (set_votes_for_me (foldl (fun v c => <[cfg_idx c := mkVotes ∅ (get_quorum (zsize (cfg_nodes c)))]> v) ∅ confs)).

Definition become_leader : M (Node S) unit :=
  s ← self;
  if is_retired s then mret tt
  else
    let index := last_committable_index s in
    _ ← el (set_election_index index);
    _ ← modify (on_committable_indices (fun _ => []));
    _ ← (if 0 <? commit_idx (state s) then rollback index else on_store (st_initialise_term (current_view (state s))));
    _ ← el (fun e => set_timeout_elapsed 0 (set_should_sign true (set_leader_id (Some (my_id s)) (set_leadership_state (Some Leader) e))));
    _ ← reset_last_ack_timeouts;
    s ← self;
    let others := all_other_nodes (members s) in
    if zsize others =? 0 then commit (last_idx (state s))
    else
      let next := wrap64 (last_idx (state s) + 1) in
      for_each (fun '(id, _) =>
        _ ← mb (fun m => set_all_other_nodes (alter (fun n => mkNodeState (node_info n) (wrap64 (next - 1)) 0 (last_ack_timeout n)) id (all_other_nodes m)) m);
        send_append_entries id next) (map_to_list others).

(** [votes_for_me[idx].votes.insert(from)]; a missing entry is made with quorum 0. *)
Definition insert_vote (from : NodeId) (idx : Z) (v : gmap Z Votes) : gmap Z Votes :=
  let e := default (mkVotes ∅ 0) (v !! idx) in <[idx := mkVotes ({[from]} ∪ votes e) (quorum e)]> v.

Definition is_elected s : bool := forallb (fun '(_, v) => quorum v <=? Z.of_nat (size (votes v))) (map_to_list (votes_for_me (election s))).

Definition add_vote_for_me (from : NodeId) : M (Node S) unit :=
  confs ← gets (fun s => configurations (members s));
  _ ← el (fun e => set_votes_for_me (foldl (fun v c => if has_node (cfg_nodes c) from then insert_vote from (cfg_idx c) v else v) (votes_for_me e) confs) e);
  s ← self; if is_elected s then become_leader else mret tt.

Definition send_request_vote (to : NodeId) : M (Node S) unit :=
  s ← self;
  let lci := last_committable_index s in
  _ ← send_authenticated to (MsgRequestVote (mkRV (current_view (state s)) lci (get_term_internal s lci))); mret tt.

Definition become_candidate : M (Node S) unit :=
  me ← gets my_id;
  _ ← el (fun e => set_leader_id None (set_leadership_state (Some Candidate) e));
  _ ← clear_orc_sets;
  _ ← el (set_voted_for (Some me));
  _ ← reset_votes_for_me;
  _ ← st (fun t => set_current_view (wrap64 (current_view t + 1)) t);
  _ ← restart_election_timeout;
  _ ← reset_last_ack_timeouts;
  _ ← add_vote_for_me me;
  others ← gets (fun s => all_other_nodes (members s));
  for_each (fun '(id, _) => send_request_vote id) (map_to_list others).

Definition become_follower : M (Node S) unit :=
  _ ← el (set_leader_id None);
  _ ← restart_election_timeout;
  _ ← clear_orc_sets;
  _ ← reset_last_ack_timeouts;
  s ← self;
  _ ← rollback (last_committable_index s);
  s ← self;
  if can_endorse_primary s && negb (is_retiring s) then el (set_leadership_state (Some Follower)) else mret tt.

Definition become_aware_of_new_term (term : Z) : M (Node S) unit :=
  _ ← st (set_current_view term);
  _ ← el (set_voted_for None);
  _ ← reset_votes_for_me;
  _ ← become_follower;
  el (set_is_new_follower true).

Definition send_request_vote_response (to : NodeId) (answer : bool) : M (Node S) unit :=
  v ← gets (fun s => current_view (state s));
  _ ← send_authenticated to (MsgRequestVoteResponse (mkRVR v answer)); mret tt.

(** The part after the comparison of the terms. *)
Definition decide_vote (from : NodeId) (r : RequestVote) : M (Node S) unit :=
  s ← self;
  if bool_decide (is_Some (leader_id (election s))) then send_request_vote_response from false
  else if match voted_for (election s) with Some v => negb (bool_decide (v = from)) | None => false end then send_request_vote_response from false
  else
    let lci := last_committable_index s in
    let term_of_lci := get_term_internal s lci in
    let answer := (term_of_lci <? rv_term_of_last_committable_idx r) ||
      ((rv_term_of_last_committable_idx r =? term_of_lci) && (lci <=? rv_last_committable_idx r)) in
    _ ← (if answer then
           _ ← restart_election_timeout;
           el (fun e => set_voted_for (Some from) (set_leader_id None e))
         else mret tt);
    send_request_vote_response from answer.

Definition recv_request_vote (from : NodeId) (r : RequestVote) : M (Node S) unit :=
  view ← gets (fun s => current_view (state s));
  if rv_term r <? view then send_request_vote_response from false
  else
    _ ← (if view <? rv_term r then become_aware_of_new_term (rv_term r) else mret tt);
    decide_vote from r.

Definition recv_request_vote_response (from : NodeId) (r : RequestVoteResponse) : M (Node S) unit :=
  s ← self;
  let view := current_view (state s) in
  if negb (is_candidate s) then mret tt
  else if bool_decide (all_other_nodes (members s) !! from = None) then mret tt
  else if view <? rvr_term r then become_aware_of_new_term (rvr_term r)
  else if negb (view =? rvr_term r) then mret tt
  else if negb (rvr_vote_granted r) then mret tt
  else add_vote_for_me from.

(** ** Configurations *)

Definition insert_new (idx : Z) (ids : gset NodeId) (m : gmap NodeId Z) : gmap NodeId Z :=
  set_fold (fun id m => match m !! id with None => <[id := idx]> m | Some _ => m end) m ids.

(** The loop over the nodes of the configuration, when it is not the first. *)
Definition promote (conf : Nodes) (new_learners : gset NodeId) : M (Node S) unit :=
  for_each (fun '(nid, _) =>
    s ← self;
    _ ← (if bool_decide (is_Some (all_other_nodes (members s) !! nid)) && bool_decide (is_Some (learner_nodes (members s) !! nid)) && negb (bool_decide (nid ∈ new_learners))
         then mb (fun m => set_learner_nodes (delete nid (learner_nodes m)) m) else mret tt);
    if is_learner s && bool_decide (nid = my_id s) then become_active_follower else mret tt) (map_to_list conf).

(** The branch of [add_configuration] for one transaction. *)
Definition observe_one_transaction (idx : Z) (conf : Nodes) : M (Node S) unit :=
  s ← self;
  match last (configurations (members s)) with
  | Some c => if has_node (cfg_nodes c) (my_id s) && negb (has_node conf (my_id s)) then become_retired idx Ordered else mret tt
  | None => mret tt
  end.

(** The branch for two transactions. *)
Definition observe_two_transaction (idx : Z) (conf : Nodes) (new_learners new_retired : gset NodeId) : M (Node S) unit :=
  s ← self;
  _ ← match last (configurations (members s)) with
      | Some c =>
          if negb (has_node (cfg_nodes c) (my_id s)) && negb (has_node conf (my_id s)) &&
             (is_retiring s || (is_retired s && phase_is Committed s)) then become_retired idx Ordered else mret tt
      | None => mret tt
      end;
  _ ← mb (fun m => set_learner_nodes (insert_new idx new_learners (learner_nodes m)) m);
  _ ← mb (fun m => set_retired_nodes (insert_new idx new_retired (retired_nodes m)) m);
  _ ← match configurations (members s) with [] => mret tt | _ => promote conf new_learners end;
  mb (fun m => match orc_sets m !! idx with None => set_orc_sets (<[idx := ∅]> (orc_sets m)) m | Some _ => m end).

(** [configurations.back()] of an empty list reads memory that is not a configuration. *)
Definition add_configuration (idx : Z) (conf : Nodes) (new_learners new_retired : gset NodeId) : M (Node S) unit :=
  t ← gets (fun s => reconfiguration_type (members s));
  _ ← match t with
      | ONE_TRANSACTION => observe_one_transaction idx conf
      | TWO_TRANSACTION => observe_two_transaction idx conf new_learners new_retired
      end;
  s ← self;
  let back := match last (configurations (members s)) with Some c => cfg_nodes c | None => stale_nodes E end in
  if bool_decide (conf = back) then mret tt
  else
    _ ← mb (fun m => set_configurations (configurations m ++ [mkConfiguration idx conf 0 idx]) m);
    create_and_remove_node_state.

Definition call_hook (h : Hook) : M (Node S) unit :=
  match h with
  | ConfigurationChangeHook version delta learners retired =>
      conf ← gets get_latest_configuration_unsafe;
      let conf := map_fold (fun id oi conf => match oi with
        | Some ni => match conf !! id with None => <[id := ni]> conf | Some _ => conf end
        | None => delete id conf
        end) conf delta in
      if bool_decide (delta = ∅) then mret tt else add_configuration version conf learners retired
  | ResharingsHook => mret tt
  end.

Definition orc (r : Z) (node_id : NodeId) : M (Node S) (option Nodes) :=
  s ← self;
  match orc_sets (members s) !! r with
  | None => throw LogicError
  | Some o =>
      match List.find (fun c => rid c =? r) (configurations (members s)) with
      | None => mret None
      | Some c =>
          if negb (has_node (cfg_nodes c) node_id) then mret None
          else
            let o := {[node_id]} ∪ o in
            _ ← mb (fun m => set_orc_sets (<[r := o]> (orc_sets m)) m);
            mret (if get_quorum (zsize (cfg_nodes c)) <=? Z.of_nat (size o) then Some (cfg_nodes c) else None)
      end
  end.

(** ** The leader's watermark *)

Definition get_commit_watermark_idx s : Z := cft_watermark_idx (state s).

(** The indices that the nodes of a configuration have confirmed. *)
Fixpoint matches s (ids : list NodeId) : result (list Z) :=
  match ids with
  | [] => Ok []
  | id :: ids =>
      i ← (if bool_decide (id = my_id s) then Ok (last_idx (state s))
           else match all_other_nodes (members s) !! id with Some n => Ok (match_idx n) | None => Throw OutOfRange end);
      l ← matches s ids; Ok (i :: l)
  end.
Definition confirmed s (c : Configuration) : result Z :=
  l ← matches s (map_to_list (cfg_nodes c)).*1;
  match merge_sort Z.le l !! Z.to_nat (wrap64 (zlen l - 1) / 2) with Some i => Ok i | None => Throw OutOfRange end.
Fixpoint watermark s (confs : list Configuration) (acc : Z) : result Z :=
  match confs with
  | [] => Ok acc
  | c :: confs => i ← confirmed s c; watermark s confs (if i <? acc then i else acc)
  end.

Definition update_commit : M (Node S) unit :=
  s ← self;
  new ← lift (watermark s (configurations (members s)) (M64 - 1));
  _ ← (if negb (new =? M64 - 1) then st (set_cft_watermark_idx new) else mret tt);
  s ← self;
  if last_idx (state s) <? get_commit_watermark_idx s then throw LogicError
  else commit_if_possible (get_commit_watermark_idx s).

(** ** Append entries *)

(** LedgerEnclave::get_entry copies the entry before it compares its size with
    what is left. *)
Definition get_entry (data : list Z) : result (list Z * list Z) :=
  header ← Serialized.peek_uint 8 data;
  let entry_size := 8 + header / 2 ^ 16 in
  if zlen data <? entry_size then Undef
  else data' ← Serialized.skip entry_size data; Ok (ztake entry_size data, data').
Definition skip_entry (data : list Z) : result (list Z) :=
  '(header, data) ← Serialized.read_uint 8 data; Serialized.skip (header / 2 ^ 16) data.

Definition send_append_entries_response (to : NodeId) (answer : AppendEntriesResponseType) (rejected : option (Z * Z)) : M (Node S) unit :=
  _ ← match answer with REQUIRE_EVIDENCE => st (set_requested_evidence_from (Some to)) | _ => mret tt end;
  s ← self;
  let '(idx, term) := match answer, rejected with
    | NACK, Some (view, seqno) => let i := find_highest_possible_match s view seqno in (i, get_term_internal s i)
    | _, _ => (last_idx (state s), current_view (state s))
    end in
  _ ← send_authenticated to (MsgAppendEntriesResponse (mkAER term idx answer)); mret tt.

Definition execute_append_entries_finish (r : AppendEntries) (from : NodeId) : M (Node S) unit :=
  _ ← commit_if_possible (ae_leader_commit_idx r);
  s ← self;
  let lci := last_committable_index s in
  _ ← (if ae_term_of_idx r =? ViewHistory.InvalidView then update_view_history 1 (ae_term r)
       else if lci <? ae_idx r then update_view_history (wrap64 (lci + 1)) (ae_term_of_idx r)
       else mret tt);
  send_append_entries_response from OK None.

(** What a signature adds. *)
Definition deserialised_signature (r : AppendEntries) (w : W) (i : Z) : M (Node S) unit :=
  s ← self;
  _ ← (if is_retired s && phase_is Ordered s then become_retired i Signed else mret tt);
  _ ← modify (on_committable_indices (fun l => l ++ [i]));
  if w_term w =? 0 then mret tt
  else
    _ ← (if ae_term_of_idx r =? ViewHistory.InvalidView then update_view_history 1 (ae_term r)
         else update_view_history (wrap64 (ae_prev_idx r + 1)) (w_term w));
    commit_if_possible (ae_leader_commit_idx r).

(** One entry: whether the loop goes on. *)
Definition execute_entry (r : AppendEntries) (from : NodeId) (w : W) (i : Z) : M (Node S) bool :=
  '(w, res) ← on_store (w_apply w);
  if bool_decide (res = FAIL) then
    _ ← emit (LedgerTruncate (wrap64 (i - 1)));
    _ ← send_append_entries_response from NACK None;
    mret false
  else
    let globally_committable := bool_decide (res = PASS_SIGNATURE) in
    _ ← st (set_last_idx i);
    _ ← for_each call_hook (w_hooks w);
    _ ← (if globally_committable then start_ticking_if_necessary else mret tt);
    _ ← emit (LedgerAppend (w_entry w) globally_committable);
    match res with
    | PASS_SIGNATURE => _ ← deserialised_signature r w i; mret true
    | PASS | PASS_SNAPSHOT_EVIDENCE | PASS_ENCRYPTED_PAST_LEDGER_SECRET => mret true
    | _ => throw LogicError
    end.

Fixpoint execute_append_entries_sync (entries : list (W * Z)) (from : NodeId) (r : AppendEntries) : M (Node S) unit :=
  match entries with
  | [] => execute_append_entries_finish r from
  | (w, i) :: entries =>
      more ← execute_entry r from w i;
      if (more : bool) then execute_append_entries_sync entries from r else mret tt
  end.

(** The loop that reads the payload.  [None]: a reply has been sent, the call is
    over.  Every turn takes at least a header off the payload. *)
Fixpoint deserialise_entries (fuel : nat) (r : AppendEntries) (from : NodeId) (i : Z) (data : list Z) (acc : list (W * Z)) : M (Node S) (option (list (W * Z))) :=
  match fuel with
  | O => undef
  | Datatypes.S fuel =>
      if ae_idx r <? i then mret (Some acc)
      else
        s ← self;
        if i <=? last_idx (state s) then
          data ← lift (skip_entry data);
          deserialise_entries fuel r from (wrap64 (i + 1)) data acc
        else
          match get_entry data with
          | Throw _ => _ ← send_append_entries_response from NACK None; mret None
          | Undef => undef
          | Ok (entry, data) =>
              ds ← on_store (st_apply entry (public_only s) (ae_term_of_idx r, i));
              match ds with
              | None => _ ← send_append_entries_response from NACK None; mret None
              | Some w => deserialise_entries fuel r from (wrap64 (i + 1)) data (acc ++ [(w, i)])
              end
          end
  end.

(** The first append entries that a new follower accepts take it back to their start. *)
Definition follow_rollback (prev_idx : Z) : M (Node S) unit :=
  s ← self;
  if is_new_follower (election s) then
    _ ← (if prev_idx <? last_idx (state s) then rollback prev_idx else mret tt);
    el (set_is_new_follower false)
  else mret tt.

(** The part after the check of the sender's term. *)
Definition accept_append_entries (from : NodeId) (r : AppendEntries) (data : list Z) : M (Node S) unit :=
  s ← self;
  let prev_term := get_term_internal s (ae_prev_idx r) in
  if negb (prev_term =? ae_prev_term r) then
    send_append_entries_response from NACK (if prev_term =? 0 then None else Some (ae_prev_term r, ae_prev_idx r))
  else if is_retired s && phase_is Completed s && match retirement_committable_idx (members s) with Some i => i <? ae_idx r | None => true end then
    send_append_entries_response from NACK None
  else
    _ ← restart_election_timeout;
    _ ← el (set_leader_id (Some from));
    if ae_prev_idx r <? commit_idx (state s) then mret tt
    else if last_idx (state s) <? ae_prev_idx r then mret tt
    else
      _ ← follow_rollback (ae_prev_idx r);
      entries ← deserialise_entries (1 + length data) r from (wrap64 (ae_prev_idx r + 1)) data [];
      match entries with Some entries => execute_append_entries_sync entries from r | None => mret tt end.

Definition recv_append_entries (from : NodeId) (r : AppendEntries) (data : list Z) : M (Node S) unit :=
  s ← self;
  let view := current_view (state s) in
  if (view =? ae_term r) && is_candidate s then _ ← become_aware_of_new_term (ae_term r); accept_append_entries from r data
  else if view <? ae_term r then _ ← become_aware_of_new_term (ae_term r); accept_append_entries from r data
  else if ae_term r <? view then send_append_entries_response from NACK None
  else accept_append_entries from r data.

Definition set_node (id : NodeId) (f : NodeState -> NodeState) : M (Node S) unit :=
  mb (fun m => set_all_other_nodes (alter f id (all_other_nodes m)) m).

Definition recv_append_entries_response (from : NodeId) (r : AppendEntriesResponse) : M (Node S) unit :=
  s ← self;
  if negb (is_primary s) then mret tt
  else match all_other_nodes (members s) !! from with
  | None => mret tt
  | Some node =>
      let view := current_view (state s) in
      let ok := bool_decide (aer_success r = OK) in
      _ ← set_node from (fun n => mkNodeState (node_info n) (sent_idx n) (match_idx n) 0);
      if view <? aer_term r then become_aware_of_new_term (aer_term r)
      else if negb (view =? aer_term r) && ok then mret tt
      else if (view =? aer_term r) && (aer_last_log_idx r <? match_idx node) && ok then mret tt
      else
        let new_match :=
          match aer_success r with
          | NACK =>
              let this_match := find_highest_possible_match s (aer_term r) (aer_last_log_idx r) in
              if match_idx node =? 0 then this_match else Z.min (match_idx node) this_match
          | _ => Z.min (aer_last_log_idx r) (last_idx (state s))
          end in
        if ok then
          _ ← set_node from (fun n => mkNodeState (node_info n) (sent_idx n) new_match (last_ack_timeout n));
          update_commit
        else set_node from (fun n => mkNodeState (node_info n) new_match new_match (last_ack_timeout n))
  end.

(** ** Entries of this node *)

Record BatchEntry := mkEntry { be_index : Z; be_data : list Z; be_committable : bool; be_hooks : list Hook }.

Definition send_to_all : M (Node S) unit :=
  others ← gets (fun s => all_other_nodes (members s));
  for_each (fun '(id, n) => send_append_entries id (wrap64 (sent_idx n + 1))) (map_to_list others).

Definition replicate_entry (e : BatchEntry) : M (Node S) unit :=
  _ ← for_each call_hook (be_hooks e);
  _ ← (if be_committable e then
         s ← self;
         _ ← (if is_retired s && phase_is Ordered s then become_retired (be_index e) Signed else mret tt);
         _ ← modify (on_committable_indices (fun l => l ++ [be_index e]));
         start_ticking_if_necessary
       else mret tt);
  _ ← st (set_last_idx (be_index e));
  _ ← emit (LedgerAppend (be_data e) (be_committable e));
  _ ← modify (on_batch (fun b => mkBatch (entry_size_not_limited b + zlen (be_data e)) (entry_count b + 1) (entries_batch_size b) (batch_window_sum b)));
  s ← self;
  _ ← update_view_history (be_index e) (current_view (state s));
  if append_entries_size_limit <=? entry_size_not_limited (batch s) then
    _ ← update_batch_size;
    _ ← modify (on_batch (fun b => mkBatch 0 0 (entries_batch_size b) (batch_window_sum b)));
    send_to_all
  else mret tt.

Fixpoint replicate_entries (es : list BatchEntry) : M (Node S) bool :=
  match es with
  | [] => mret true
  | e :: es =>
      s ← self;
      if negb (be_index e =? wrap64 (last_idx (state s) + 1)) then mret false
      else if bool_decide (is_Some (retirement_committable_idx (members s))) then mret false
      else _ ← replicate_entry e; replicate_entries es
  end.

Definition replicate (es : list BatchEntry) (term : Z) : M (Node S) bool :=
  s ← self;
  if negb (is_primary s) then _ ← rollback (last_idx (state s)); mret false
  else if negb (term =? current_view (state s)) then mret false
  else
    all ← replicate_entries es;
    if (all : bool) then
      s ← self;
      _ ← (if zsize (all_other_nodes (members s)) =? 0 then update_commit else mret tt);
      mret true
    else mret false.

(** ** Time *)

(** The number of backups of a configuration that have not answered in time. *)
Definition late_backups s (c : Configuration) : Z :=
  count (fun id => match all_other_nodes (members s) !! id with Some n => election_timeout E <=? last_ack_timeout n | None => false end) (cfg_nodes c).
Definition has_quorum_of_backups s : bool :=
  existsb (fun c => late_backups s c <? get_quorum (wrap64 (zsize (cfg_nodes c) - 1))) (configurations (members s)).

Definition periodic (elapsed : Z) : M (Node S) unit :=
  _ ← el (fun e => set_timeout_elapsed (timeout_elapsed e + elapsed) e);
  s ← self;
  if is_primary s then
    _ ← (if request_timeout E <=? timeout_elapsed (election s) then
           _ ← el (set_timeout_elapsed 0);
           _ ← update_batch_size;
           send_to_all
         else mret tt);
    _ ← mb (fun m => set_all_other_nodes ((fun n => mkNodeState (node_info n) (sent_idx n) (match_idx n) (last_ack_timeout n + elapsed)) <$> all_other_nodes m) m);
    s ← self;
    if has_quorum_of_backups s then mret tt else become_follower
  else if can_endorse_primary s && ticking (election s) && (election_timeout E <=? timeout_elapsed (election s)) then become_candidate
  else mret tt.

(** ** Start *)

Definition starting_view_change : Z := 2.

Definition force_become_primary : M (Node S) unit :=
  s ← self;
  if bool_decide (is_Some (leader_id (election s))) then throw LogicError
  else _ ← st (fun t => set_current_view (wrap64 (current_view t + starting_view_change)) t); become_leader.

Definition on_views {A} (m : M (list Z) A) : M (Node S) A :=
  zoom (fun s => view_history (state s)) (fun vs => on_state (set_view_history vs)) m.

Definition force_become_primary_at (index term : Z) (terms : list Z) (commit_idx_ : Z) : M (Node S) unit :=
  s ← self;
  if bool_decide (is_Some (leader_id (election s))) then throw LogicError
  else
    _ ← st (fun t => set_commit_idx commit_idx_ (set_last_idx index (set_current_view term t)));
    _ ← on_views (ViewHistory.initialise terms);
    _ ← update_view_history index term;
    _ ← st (fun t => set_current_view (wrap64 (current_view t + starting_view_change)) t);
    become_leader.

Definition init_as_backup (index term : Z) (term_history : list Z) (recovery_start_index : Z) : M (Node S) unit :=
  _ ← st (fun t => set_commit_idx index (set_last_idx index t));
  _ ← on_views (ViewHistory.initialise term_history);
  _ ← emit (LedgerInit index recovery_start_index);
  become_aware_of_new_term term.

Definition get_signable_txid : M (Node S) (Z * Z * Z) :=
  s ← self;
  _ ← el (set_should_sign false);
  mret (get_term_internal s (last_idx (state s)), last_idx (state s), Z.max (last_committable_index s) (election_index (election s))).

Definition update_parameters (t : ReconfigurationType) : M (Node S) unit := mb (set_reconfiguration_type t).
Definition enable_all_domains : M (Node S) unit := modify (set_public_only false).

(** A message as the channel hands it over: authenticated, with the payload that
    follows append entries. *)
Definition handle (from : NodeId) (m : Msg) (data : list Z) : M (Node S) unit :=
  match m with
  | MsgAppendEntries r => recv_append_entries from r data
  | MsgAppendEntriesResponse r => recv_append_entries_response from r
  | MsgRequestVote r => recv_request_vote from r
  | MsgRequestVoteResponse r => recv_request_vote_response from r
  end.

(** Exceptions are caught; what was done before stays. *)
Definition recv_message (from : NodeId) (m : Msg) (data : list Z) : M (Node S) unit := fun s =>
  match handle from m data s with (s, Throw _) => (s, Ok tt) | r => r end.

(** The constructor. *)
Definition new_node (id : NodeId) (st : S) (public_only : bool) (initial : MembershipState) (t : ReconfigurationType) : Node S :=
  mkNode (mkState id 0 0 0 0 [] 0 None) (mkElection None None ∅ None 0 0 false false false)
    (mkMembers initial None None None [] ∅ ∅ ∅ t ∅) (mkBatch 0 0 20 0) [] public_only st [] 0%nat.

End node.

End Raft.
