(* ===== verification/RaftNet.v ===== *)
(** * A network of replicas

    Replicas of Raft.v that exchange messages.  What a node sends is on the wire
    from then on: a message can be delivered any number of times, in any order,
    or never.  The host affixes the ledger entries to an append entries message
    (host/node_connections.h).  A store like the one of aft/test/logging_stub.h,
    whose entries carry their view and index, makes the network executable. *)
From S2P Require Import Prelude Monad Serialized Raft.
From stdpp Require Import list gmap strings.
Local Open Scope Z_scope.

Module RaftNet.
Import Raft.

(** ** The ledger of a node *)

(** The entries that the host has, after those up to an index with which it started. *)
Record Ledger := mkLedger { base : Z; entries : list (list Z) }.

Definition ledger_write (l : Ledger) (o : Output) : Ledger :=
  match o with
  | LedgerAppend e _ => mkLedger (base l) (entries l ++ [e])
  | LedgerTruncate i => mkLedger (base l) (take (Z.to_nat (i - base l)) (entries l))
  | LedgerInit i _ => mkLedger i []
  | _ => l
  end.
Definition ledger_of (os : list Output) : Ledger := foldl ledger_write (mkLedger 0 []) os.
Definition entry_at (l : Ledger) (i : Z) : option (list Z) :=
  if i <=? base l then None else entries l !! Z.to_nat (i - base l - 1).
Definition last_of (l : Ledger) : Z := base l + zlen (entries l).

(** Entries [from .. to], none if they are not all there. *)
Definition read_entries (l : Ledger) (from to : Z) : list Z :=
  if (from <=? base l) || (to <? from) || (last_of l <? to) then []
  else concat (take (Z.to_nat (to - from + 1)) (drop (Z.to_nat (from - base l - 1)) (entries l))).

(** ** The network *)

Record Packet := mkPacket { from : NodeId; to : NodeId; msg : Msg; payload : list Z }.
Record Net (S : Type) := mkNet { nodes : gmap NodeId (Node S); wire : list Packet }.
Arguments mkNet {S} _ _.
Arguments nodes {S} _.
Arguments wire {S} _.

(** The packets that new outputs make, given the ledger before them. *)
Fixpoint packets (me : NodeId) (l : Ledger) (os : list Output) : list Packet :=
  match os with
  | [] => []
  | Send to m :: os =>
      mkPacket me to m (match m with MsgAppendEntries r => read_entries l (ae_prev_idx r + 1) (ae_idx r) | _ => [] end) :: packets me l os
  | o :: os => packets me (ledger_write l o) os
  end.

Section net.
Context {S W : Type} `{!AftStore S W Hook} (E : NodeId -> Env).

(** Something happens at a node. *)
Inductive Event :=
  | Receive (from : NodeId) (m : Msg) (data : list Z)
  | Tick (elapsed : Z)
  | Replicate (es : list BatchEntry) (term : Z)
  | AddConfiguration (idx : Z) (conf : Nodes) (learners retired : gset NodeId)
  | StartTicking
  | Sign
  | ForceBecomePrimary
  | Orc (r : Z) (id : NodeId)
  | UpdateParameters (t : ReconfigurationType)
  | EnableAllDomains.

Definition run_event (e : Env) (ev : Event) : M (Node S) unit :=
  match ev with
  | Receive from m data => recv_message e from m data
  | Tick elapsed => periodic e elapsed
  | Replicate es term => _ ← replicate e es term; mret tt
  | AddConfiguration idx conf learners retired => add_configuration e idx conf learners retired
  | StartTicking => start_ticking
  | Sign => _ ← get_signable_txid; mret tt
  | ForceBecomePrimary => force_become_primary e
  | Orc r id => _ ← orc r id; mret tt
  | UpdateParameters t => update_parameters t
  | EnableAllDomains => enable_all_domains
  end.

(** A node handles an event: its outputs go onto the wire. *)
Definition at_node (id : NodeId) (ev : Event) (n : Net S) : option (Net S) :=
  match nodes n !! id with
  | None => None
  | Some s =>
      match run_event (E id) ev s with
      | (_, Undef) => None
      | (s', _) => Some (mkNet (<[id := s']> (nodes n)) (wire n ++ packets id (ledger_of (out s)) (drop (length (out s)) (out s'))))
      end
  end.

(** The packets on the wire can arrive. *)
Definition deliver (k : nat) (n : Net S) : option (Net S) :=
  match wire n !! k with Some p => at_node (to p) (Receive (from p) (msg p) (payload p)) n | None => None end.

End net.

(** ** A store for runs

    As in the tests of the source, an entry carries its view and its index, and
    is taken for a signature when they are the expected ones.  The header in front
    is that of real entries, which [get_entry] reads. *)

Record Wrapper := mkWrapper { wr_entry : list Z; wr_term : Z; wr_index : Z; wr_result : ApplyResult }.

Definition execution_wrapper (data : list Z) (expected : Z * Z) : Wrapper :=
  let body := drop 8 data in
  let term := le_val (take 8 body) in
  let index := le_val (take 8 (drop 8 body)) in
  mkWrapper data term index (if (term =? expected.1) && (index =? expected.2) then PASS_SIGNATURE else FAIL).

#[global] Instance stub_store : AftStore unit Wrapper Hook := {
  st_compact _ := mret tt;
  st_rollback _ _ := mret tt;
  st_initialise_term _ := mret tt;
  st_apply data _ expected := mret (Some (execution_wrapper data expected));
  w_apply w := mret (w, wr_result w);
  w_hooks _ := [];
  w_entry := wr_entry;
  w_term := wr_term;
  w_index := wr_index }.

Definition stub_entry (term index : Z) (data : list Z) : list Z :=
  le_bytes 8 ((16 + zlen data) * 2 ^ 16) ++ le_bytes 8 term ++ le_bytes 8 index ++ data.

(** *** Three replicas *)

Definition three_env : Env := mkEnv 10 100 (fun _ => 0) (fun _ _ => true) ∅.
Definition three_nodes : Nodes := {["A" := mkNodeInfo "" ""; "B" := mkNodeInfo "" ""; "C" := mkNodeInfo "" ""]}.
Definition fresh_node (id : NodeId) : Node unit := new_node id tt false Active ONE_TRANSACTION.
Definition three_net : Net unit := mkNet {["A" := fresh_node "A"; "B" := fresh_node "B"; "C" := fresh_node "C"]} [].

Definition write (term i tag : Z) : Event := Replicate [mkEntry i (stub_entry term i [tag]) true []] term.

(** "A" becomes leader, and commits its first entry; then it is elected again. *)
Definition leader_events : list Event :=
  [AddConfiguration 0 three_nodes ∅ ∅; StartTicking; Tick 100; Receive "B" (MsgRequestVoteResponse (mkRVR 1 true)) [];
   write 1 1 65; write 1 2 65; Receive "B" (MsgAppendEntriesResponse (mkAER 1 1 OK)) []].
Definition second_events : list Event :=
  [write 1 3 65; Receive "B" (MsgRequestVote (mkRV 2 0 0)) []; Tick 100; Receive "B" (MsgRequestVoteResponse (mkRVR 3 true)) []; write 3 4 66].

(** What happens next: something at a node, or the arrival of a packet. *)
Inductive Act := Do (id : NodeId) (ev : Event) | Deliver (k : nat).
Definition act (a : Act) (n : Net unit) : option (Net unit) :=
  match a with Do id ev => at_node (fun _ => three_env) id ev n | Deliver k => deliver (fun _ => three_env) k n end.
Fixpoint play (l : list Act) (n : Net unit) : option (Net unit) :=
  match l with [] => Some n | a :: l => act a n ≫= play l end.

Definition committed (n : Net unit) (id : NodeId) : option (list (list Z)) :=
  s ← nodes n !! id; Some (take (Z.to_nat (commit_idx (state s) - base (ledger_of (out s)))) (entries (ledger_of (out s)))).

End RaftNet.
