(* ===== verification/RaftSafety.v ===== *)
(** * What a replica never gives up

    The invariant of a replica of Raft.v, whatever messages reach it: its ledger
    ends at its last index, its commit index lies between the start and the end
    of the ledger, and the indices that can be committed lie in order behind the
    commit index.  [extends] is what never changes: committed entries stay, and
    the commit index does not go back. *)
From S2P Require Import Prelude Monad Serialized Raft RaftNet.
From stdpp Require Import list gmap strings sorting.
Local Open Scope Z_scope.

Module RaftSafety.
Import Raft RaftNet.

Section safety.
Context {S W : Type} {aft_store : AftStore S W Hook} (E : Env).
Implicit Types (s : Node S).

(** ** Operations that do not touch the log *)

Definition core s := (last_idx (state s), commit_idx (state s), committable_indices s, ledger_of (out s), view_history (state s), entries_batch_size (batch s)).
Definition quiet {A} (m : M (Node S) A) : Prop := forall s, core (m s).1 = core s.

Lemma quiet_node_ret {A} (a : A) : quiet (mret a).
Proof. done. Qed.
Lemma quiet_node_bind {A B} (m : M (Node S) A) (k : A -> M (Node S) B) : quiet m -> (forall a, quiet (k a)) -> quiet (m ≫= k).
Proof.
  intros Hm Hk s. unfold mbind, M_bind. specialize (Hm s). destruct (m s) as [s' [a|e|]]; [|done|done]. by rewrite (Hk a s').
Qed.
Lemma quiet_node_throw {A} e : quiet (throw e : M (Node S) A).
Proof. done. Qed.
Lemma quiet_undef {A} : quiet (undef : M (Node S) A).
Proof. done. Qed.
Lemma quiet_node_lift {A} (r : result A) : quiet (lift r).
Proof. done. Qed.
Lemma quiet_node_gets {A} (f : Node S -> A) : quiet (gets f).
Proof. done. Qed.
Lemma quiet_modify f : (forall s, core (f s) = core s) -> quiet (modify f).
Proof. intros H s. apply H. Qed.
Lemma quiet_for_each {A} (f : A -> M (Node S) unit) l : (forall a, quiet (f a)) -> quiet (for_each f l).
Proof. intros H. induction l as [|a l IH]; [apply quiet_node_ret|]. by apply quiet_node_bind. Qed.
Lemma quiet_on_store {A} (m : M S A) : quiet (on_store m).
Proof. intros s. unfold on_store, zoom. by destruct (m (store s)). Qed.

Lemma ledger_of_snoc os o : ledger_of (os ++ [o]) = ledger_write (ledger_of os) o.
Proof. unfold ledger_of. by rewrite foldl_app. Qed.
Lemma quiet_emit o : (forall l, ledger_write l o = l) -> quiet (emit o).
Proof. intros H s. unfold core. cbn. by rewrite ledger_of_snoc, H. Qed.

Create HintDb quiet.
Create HintDb safe.
Ltac quiet_step :=
  match goal with
  | |- forall _, _ => intros ?
  | |- quiet (_ ≫= _) => apply quiet_node_bind; [|intros ?]
  | |- quiet (mret _) => apply quiet_node_ret
  | |- quiet (throw _) => apply quiet_node_throw
  | |- quiet undef => apply quiet_undef
  | |- quiet (lift _) => apply quiet_node_lift
  | |- quiet (gets _) => apply quiet_node_gets
  | |- quiet self => apply quiet_node_gets
  | |- quiet (on_store _) => apply quiet_on_store
  | |- quiet (emit _) => apply quiet_emit; reflexivity
  | |- quiet (for_each _ _) => apply quiet_for_each
  | |- quiet (if ?b then _ else _) => destruct b
  | |- quiet (match ?x with _ => _ end) => destruct x
  | |- quiet (modify _) => apply quiet_modify; reflexivity
  | |- quiet (st _) => apply quiet_modify; reflexivity
  | |- quiet (el _) => apply quiet_modify; reflexivity
  | |- quiet (mb _) => apply quiet_modify; reflexivity
  | |- quiet _ => solve [eauto with quiet nocore]
  end.
Ltac quiet := repeat quiet_step.

Lemma send_authenticated_quiet to m : quiet (send_authenticated E to m).
Proof. unfold send_authenticated. quiet. Qed.
Hint Resolve send_authenticated_quiet : quiet.
Lemma send_append_entries_range_quiet to i j : quiet (send_append_entries_range E to i j).
Proof. unfold send_append_entries_range. quiet. Qed.
Hint Resolve send_append_entries_range_quiet : quiet.
Lemma send_append_entries_quiet to i : quiet (send_append_entries E to i).
Proof.
  unfold send_append_entries. apply quiet_node_bind; [apply quiet_node_gets|]. intros l. generalize (Z.to_nat l + 2)%nat. intros n. revert i.
  induction n as [|n IH]; intros i; cbn [send_append_entries_loop]; quiet.
Qed.
Hint Resolve send_append_entries_quiet : quiet.
Lemma add_node_quiet id info : quiet (add_node E id info).
Proof. unfold add_node. quiet. Qed.
Hint Resolve add_node_quiet : quiet.
Lemma create_and_remove_quiet : quiet (create_and_remove_node_state E).
Proof. unfold create_and_remove_node_state. quiet. Qed.
Hint Resolve create_and_remove_quiet : quiet.
Lemma become_retired_quiet i p : quiet (become_retired i p).
Proof. unfold become_retired. quiet. Qed.
Lemma cleanup_quiet : quiet cleanup_if_primary.
Proof. unfold cleanup_if_primary. quiet. Qed.
Hint Resolve become_retired_quiet cleanup_quiet : quiet.
Lemma switch_quiet i c d : quiet (switch_two_transaction i c d).
Proof. unfold switch_two_transaction, become_retiring, become_active_follower. quiet. Qed.
Hint Resolve switch_quiet : quiet.
Lemma commit_configurations_quiet n i b : quiet (commit_configurations n i b).
Proof. revert b. induction n as [|n IH]; intros b; cbn [commit_configurations]; quiet. Qed.
Lemma rollback_membership_quiet i : quiet (rollback_membership i).
Proof. unfold rollback_membership. quiet. Qed.
Lemma start_ticking_if_quiet : quiet start_ticking_if_necessary.
Proof. unfold start_ticking_if_necessary, start_ticking. quiet. Qed.
Lemma clear_orc_sets_quiet : quiet clear_orc_sets.
Proof. unfold clear_orc_sets. quiet. Qed.
Lemma reset_last_ack_timeouts_quiet : quiet reset_last_ack_timeouts.
Proof. unfold reset_last_ack_timeouts. quiet. Qed.
Lemma restart_election_timeout_quiet : quiet (restart_election_timeout E).
Proof. unfold restart_election_timeout. quiet. Qed.
Lemma reset_votes_quiet : quiet reset_votes_for_me.
Proof. unfold reset_votes_for_me. quiet. Qed.
Hint Resolve commit_configurations_quiet rollback_membership_quiet start_ticking_if_quiet clear_orc_sets_quiet
  reset_last_ack_timeouts_quiet restart_election_timeout_quiet reset_votes_quiet : quiet.
Lemma send_request_vote_quiet to : quiet (send_request_vote E to).
Proof. unfold send_request_vote. quiet. Qed.
Lemma send_request_vote_response_quiet to b : quiet (send_request_vote_response E to b).
Proof. unfold send_request_vote_response. quiet. Qed.
Hint Resolve send_request_vote_quiet send_request_vote_response_quiet : quiet.
Lemma decide_vote_quiet from r : quiet (decide_vote E from r).
Proof. unfold decide_vote. quiet. Qed.
Lemma promote_quiet c l : quiet (promote c l).
Proof. unfold promote, become_active_follower. quiet. Qed.
Hint Resolve decide_vote_quiet promote_quiet : quiet.
Lemma add_configuration_quiet i c l r : quiet (add_configuration E i c l r).
Proof.
  unfold add_configuration, observe_one_transaction, observe_two_transaction. quiet. all: try (apply quiet_modify; intros s; unfold core; cbn; by destruct (orc_sets _ !! _)).
Qed.
Hint Resolve add_configuration_quiet : quiet.
Lemma call_hook_quiet h : quiet (call_hook E h).
Proof. unfold call_hook. quiet. Qed.
Lemma send_append_entries_response_quiet to a r : quiet (send_append_entries_response E to a r).
Proof. unfold send_append_entries_response. quiet. Qed.
Lemma set_node_quiet id f : quiet (set_node id f).
Proof. unfold set_node. quiet. Qed.
Lemma send_to_all_quiet : quiet (send_to_all E).
Proof. unfold send_to_all. quiet. Qed.
Hint Resolve call_hook_quiet send_append_entries_response_quiet set_node_quiet send_to_all_quiet : quiet.
Lemma deserialise_entries_quiet n r from i d acc : quiet (deserialise_entries E n r from i d acc).
Proof. revert i d acc. induction n as [|n IH]; intros i d acc; cbn [deserialise_entries]; quiet. Qed.
Lemma orc_quiet r id : quiet (orc r id).
Proof. unfold orc. quiet. Qed.
Hint Resolve deserialise_entries_quiet orc_quiet : quiet.

(** ** The invariant *)

Abbreviation Core := (Z * Z * list Z * Ledger * list Z * Z)%type (only parsing).

Definition inv_core (c : Core) : Prop :=
  let '(lst, cmt, com, led, vs, b) := c in
  last_of led = lst /\ 0 <= base led <= cmt /\ cmt <= lst /\
  StronglySorted Z.lt com /\ Forall (fun i => cmt < i <= lst) com /\
  StronglySorted Z.le vs /\ Forall (fun v => 1 <= v <= lst + 1) vs /\ 1 <= b <= 2 ^ 31.
Definition inv s : Prop := inv_core (core s).

(** The commit index does not go back, and what is committed stays. *)
Definition extends_core (c c' : Core) : Prop :=
  let '(_, cmt, _, led, _, _) := c in let '(_, cmt', _, led', _, _) := c' in
  cmt <= cmt' /\ base led' = base led /\ (forall i, i <= cmt -> entry_at led' i = entry_at led i).
Definition extends s s' : Prop := extends_core (core s) (core s').

Definition good_core (c c' : Core) : Prop := inv_core c' /\ extends_core c c'.

Lemma good_core_refl c : inv_core c -> good_core c c.
Proof. destruct c as [[[[[lst cmt] com] led] vs] b]. intros H. split; [done|]. cbn. split_and!; [lia | done..]. Qed.
Lemma good_core_trans c1 c2 c3 : good_core c1 c2 -> good_core c2 c3 -> good_core c1 c3.
Proof.
  destruct c1 as [[[[[l1 m1] o1] d1] v1] b1], c2 as [[[[[l2 m2] o2] d2] v2] b2], c3 as [[[[[l3 m3] o3] d3] v3] b3].
  intros [_ (H1 & H2 & H3)] [Hi (H4 & H5 & H6)]. split; [done|]. cbn. split_and!; [lia | congruence |].
  intros i Hi'. rewrite H6 by lia. by apply H3.
Qed.

Definition good s s' : Prop := good_core (core s) (core s').
Definition safe {A} (m : M (Node S) A) : Prop := forall s, inv s -> good s (m s).1.

Lemma quiet_safe {A} (m : M (Node S) A) : quiet m -> safe m.
Proof. intros H s Hs. unfold good. rewrite H. by apply good_core_refl. Qed.
Lemma safe_bind {A B} (m : M (Node S) A) (k : A -> M (Node S) B) : safe m -> (forall a, safe (k a)) -> safe (m ≫= k).
Proof.
  intros Hm Hk s Hs. specialize (Hm s Hs). unfold mbind, M_bind. destruct (m s) as [s' [a|e|]]; [|done|done].
  eapply good_core_trans; [exact Hm|]. apply Hk, Hm.
Qed.
(** After an operation that leaves a good state in which the rest can be shown good. *)
Lemma good_bind {A B} (m : M (Node S) A) (k : A -> M (Node S) B) s :
  good s (m s).1 -> (forall a s', m s = (s', Ok a) -> inv s' -> good s' (k a s').1) -> good s ((m ≫= k) s).1.
Proof.
  intros Hm Hk. unfold mbind, M_bind. destruct (m s) as [s' [a|e|]]; [|done|done].
  eapply good_core_trans; [exact Hm|]. apply Hk; [done | apply Hm].
Qed.
Lemma good_quiet_bind {A B} (m : M (Node S) A) (k : A -> M (Node S) B) s : quiet m -> inv s ->
  (forall a s', core s' = core s -> inv s' -> good s' (k a s').1) -> good s ((m ≫= k) s).1.
Proof.
  intros Hm Hs Hk. apply good_bind; [by apply quiet_safe|]. intros a s' Heq Hi. apply Hk; [|done]. by rewrite <- (Hm s), Heq.
Qed.
Lemma safe_self {A} (k : Node S -> M (Node S) A) : (forall s, inv s -> good s (k s s).1) -> safe (self ≫= k).
Proof. intros H s Hs. by apply H. Qed.
Lemma safe_for_each {A} (f : A -> M (Node S) unit) l : (forall a, safe (f a)) -> safe (for_each f l).
Proof. intros H. induction l as [|a l IH]; [by apply quiet_safe|]. by apply safe_bind. Qed.

Ltac safe_step :=
  match goal with
  | |- forall _, _ => intros ?
  | |- safe (_ ≫= _) => apply safe_bind; [|intros ?]
  | |- safe (for_each _ _) => apply safe_for_each
  | |- safe _ => solve [eauto with safe nocore]
  | |- safe _ => apply quiet_safe; solve [quiet]
  | |- safe (if ?b then _ else _) => destruct b
  | |- safe (match ?x with _ => _ end) => destruct x
  end.
Ltac safe := repeat safe_step.

(** ** Rollback and commit *)

Lemma drop_end_prefix {A} (f : A -> bool) l : exists k, l = drop_end f l ++ k /\ Forall (fun a => f a = true) k.
Proof.
  induction l as [|a l (k & Heq & Hk)]; [by exists []|]. cbn. destruct (drop_end f l) as [|b l'] eqn:He.
  - cbn in Heq. subst k. destruct (f a) eqn:Ha; [exists (a :: l); split; [done | by constructor] | by exists l].
  - exists k. split; [|done]. cbn. by rewrite Heq at 1.
Qed.
Lemma drop_end_below idx l : StronglySorted Z.lt l -> Forall (fun i => i <= idx) (drop_end (fun i => idx <? i) l).
Proof.
  induction 1 as [|a l Hl IH Ha]; [constructor|]. cbn. destruct (drop_end _ l) as [|b l'] eqn:He.
  - destruct (Z.ltb_spec idx a); repeat constructor; lia.
  - constructor; [|done]. destruct (drop_end_prefix (fun i => idx <? i) l) as (k & Heq & _). rewrite He in Heq. subst l.
    inversion Ha; subst. inversion IH; subst. lia.
Qed.
Lemma upper_bound_before vs idx k v : (k < ViewHistory.upper_bound vs idx)%nat -> vs !! k = Some v -> v <= idx.
Proof.
  revert k. induction vs as [|w l IH]; intros k; cbn; [lia|]. destruct (Z.ltb_spec idx w); [lia|].
  destruct k as [|k]; [intros _ [=<-]; lia|]. intros Hk Hv. apply (IH k); [lia|done].
Qed.
Lemma sorted_prefix {A} (R : A -> A -> Prop) l k : StronglySorted R (l ++ k) -> StronglySorted R l.
Proof. intros H. by apply StronglySorted_app_1_l in H. Qed.

Definition rolled (idx : Z) (c : Core) : Core :=
  let '(_, cmt, com, led, vs, b) := c in
  (idx, cmt, drop_end (fun i => idx <? i) com, ledger_write led (LedgerTruncate idx), ViewHistory.rollback_views idx vs, b).

Lemma rolled_good idx c : inv_core c -> (let '(lst, cmt, _, _, _, _) := c in cmt <= idx <= lst) -> good_core c (rolled idx c).
Proof.
  destruct c as [[[[[lst cmt] com] led] vs] b]. intros (H1 & H2 & H3 & H4 & H5 & H6 & H7 & H8) Hi. unfold last_of in H1.
  destruct (drop_end_prefix (fun i => idx <? i) com) as (k & Hk & _). split.
  - cbn -[Z.pow Z.le Z.lt ledger_of]. unfold last_of, ViewHistory.rollback_views. cbn [base entries]. rewrite length_take. split_and!; try done; try lia.
    + rewrite Hk in H4. by eapply sorted_prefix.
    + pose proof (drop_end_below idx com H4) as Hb. rewrite Hk in H5. apply Forall_app in H5 as [H5 _].
      apply Forall_forall. intros i Hin. rewrite Forall_forall in Hb, H5. specialize (Hb i Hin). specialize (H5 i Hin). lia.
    + rewrite <- (take_drop (ViewHistory.upper_bound vs idx) vs) in H6. by eapply sorted_prefix.
    + apply Forall_forall. intros v Hv. pose proof Hv as Hu. apply list_elem_of_lookup_1 in Hu as [n Hu]. apply lookup_take_Some in Hu as [Hu Hk'].
      pose proof (upper_bound_before vs idx n v Hk' Hu). apply list_elem_of_lookup_2 in Hu. rewrite Forall_forall in H7. specialize (H7 v Hu). lia.
  - cbn. split_and!; [lia | done |]. intros i Hi'. unfold entry_at. cbn [base entries]. destruct (Z.leb_spec i (base led)); [done|].
    apply lookup_take_lt. lia.
Qed.

Lemma self_bind {A} (k : Node S -> M (Node S) A) s : (self ≫= k) s = k s s.
Proof. done. Qed.
Lemma mbind_run {A B} (m : M (Node S) A) (k : A -> M (Node S) B) s :
  (m ≫= k) s = match m s with (s', Ok a) => k a s' | (s', Throw e) => (s', Throw e) | (s', Undef) => (s', Undef) end.
Proof. done. Qed.
Lemma modify_bind {A} f (k : unit -> M (Node S) A) s : (modify f ≫= k) s = k tt (f s).
Proof. done. Qed.

Lemma rollback_core idx s : core (rollback E idx s).1 = core s \/ core (rollback E idx s).1 = rolled idx (core s).
Proof.
  unfold rollback. rewrite self_bind. destruct (Z.ltb_spec idx (commit_idx (state s))) as [|]; [by left|].
  rewrite mbind_run. pose proof (quiet_on_store (st_rollback (get_term_internal s idx, idx) (current_view (state s))) s) as Hq.
  destruct (on_store _ s) as [s1 [[]|e|]]; [|by left|by left]. right. cbn [fst] in Hq.
  unfold emit, st. rewrite !modify_bind. set (s5 := on_committable_indices _ _).
  assert (core s5 = rolled idx (core s)) as <-.
  { rewrite <- Hq. unfold rolled, core, s5. cbn. by rewrite ledger_of_snoc. }
  match goal with |- core (?m s5).1 = _ => assert (quiet m) as Hm end; [quiet | apply Hm].
Qed.

Lemma rollback_good idx s : inv s -> idx <= last_idx (state s) -> good s (rollback E idx s).1.
Proof.
  intros Hs Hi. unfold good. destruct (Z.ltb_spec idx (commit_idx (state s))) as [Hlt|Hge].
  - unfold rollback. rewrite self_bind. destruct (Z.ltb_spec idx (commit_idx (state s))); [|lia]. by apply good_core_refl.
  - destruct (rollback_core idx s) as [-> | ->]; [by apply good_core_refl|]. apply rolled_good; [exact Hs|]. cbn. lia.
Qed.

Lemma lci_bounds s : inv s -> commit_idx (state s) <= last_committable_index s <= last_idx (state s).
Proof.
  intros (_ & _ & H3 & _ & H5 & _). unfold last_committable_index. destruct (last (committable_indices s)) as [i|] eqn:Hl; [|lia].
  apply last_Some in Hl as [l Hl]. rewrite Hl in H5. apply Forall_app in H5 as [_ H5]. inversion H5; subst. lia.
Qed.

Lemma commit_good idx s : inv s -> Forall (fun i => idx < i) (committable_indices s) -> good s (commit E idx s).1.
Proof.
  intros Hs Hc. unfold commit. rewrite self_bind. destruct (Z.ltb_spec (last_idx (state s)) idx) as [|Hle]; [by apply good_core_refl|].
  destruct (Z.leb_spec idx (commit_idx (state s))) as [|Hlt]; [by apply good_core_refl|]. unfold st. rewrite modify_bind. set (s1 := on_state _ s).
  assert (good s s1) as Hg.
  { destruct Hs as (H1 & H2 & H3 & H4 & H5 & H6 & H7 & H8). split; [cbn -[Z.pow Z.le Z.lt ledger_of]; split_and!; try done; try lia|cbn; split_and!; [lia|done..]].
    apply Forall_forall. intros i Hin. rewrite Forall_forall in Hc, H5. specialize (Hc i Hin). specialize (H5 i Hin). lia. }
  match goal with |- good s (?m s1).1 => assert (quiet m) as Hm end; [quiet|]. unfold good. by rewrite Hm.
Qed.

Lemma pop_committable_spec idx l h : match pop_committable idx l h with
  | (h', rest) => exists k, l = k ++ rest /\ (k = [] /\ h' = h \/ exists k' i, k = k' ++ [i] /\ h' = Some i) end.
Proof.
  revert h. induction l as [|i l IH]; intros h; cbn; [exists []; split; [done|by left]|]. destruct (i <=? idx); [|exists []; split; [done|by left]].
  specialize (IH (Some i)). destruct (pop_committable idx l (Some i)) as [h' rest]. destruct IH as (k & -> & [[-> ->] | (k' & j & -> & ->)]).
  - exists [i]. split; [done|]. right. by exists [], i.
  - exists (i :: k' ++ [j]). split; [done|]. right. by exists (i :: k'), j.
Qed.

Lemma pop_committable_bound idx l h i : (pop_committable idx l h).1 = Some i -> h = Some i \/ i <= idx.
Proof.
  revert h. induction l as [|j l IH]; intros h H; cbn in H; [by left|]. destruct (Z.leb_spec j idx); [|by left].
  destruct (IH _ H) as [[=<-]|]; by right.
Qed.

Lemma commit_if_possible_safe idx : safe (commit_if_possible E idx).
Proof.
  unfold commit_if_possible. apply safe_self. intros s Hs. destruct (_ && _); [|by apply good_core_refl].
  pose proof (pop_committable_spec idx (committable_indices s) None) as Hp. destruct (pop_committable _ _ _) as [h rest]. destruct Hp as (k & Hk & Hh).
  rewrite modify_bind. set (s1 := on_committable_indices _ s).
  destruct (Hs) as (H1 & H2 & H3 & H4 & H5 & H6 & H7 & H8). rewrite Hk in H4, H5.
  assert (good s s1) as Hg.
  { split; [cbn -[Z.pow Z.le Z.lt ledger_of]; split_and!; try done; try lia | cbn; split_and!; [lia|done..]].
    - by apply StronglySorted_app_1_r in H4.
    - by apply Forall_app in H5 as [_ H5]. }
  destruct Hh as [[-> ->] | (k' & i & -> & ->)]; [exact Hg|]. eapply good_core_trans; [exact Hg|]. apply commit_good; [apply Hg|].
  cbn. apply Forall_forall. intros j Hj. rewrite <- app_assoc in H4. apply StronglySorted_app_1_r in H4.
  cbn in H4. inversion H4 as [|? ? _ Hf]; subst. rewrite Forall_forall in Hf. by apply Hf.
Qed.
Hint Resolve commit_if_possible_safe : safe.

(** ** Elections *)

Lemma committable_of_core s s' : core s' = core s -> committable_indices s' = committable_indices s.
Proof. unfold core. congruence. Qed.

Lemma rollback_committable idx s : committable_indices s = [] -> committable_indices (rollback E idx s).1 = [].
Proof.
  intros Hc. destruct (rollback_core idx s) as [H|H]; [by rewrite (committable_of_core _ _ H)|].
  unfold rolled, core in H. rewrite Hc in H. cbn in H. congruence.
Qed.

Lemma become_leader_safe : safe (become_leader E).
Proof.
  unfold become_leader. apply safe_self. intros s Hs. destruct (is_retired s); [by apply good_core_refl|].
  unfold el. rewrite !modify_bind. set (s1 := on_committable_indices _ _).
  assert (good s s1) as Hg.
  { destruct Hs as (H1 & H2 & H3 & H4 & H5 & H6 & H7 & H8).
    split; [cbn -[Z.pow Z.le Z.lt ledger_of]; split_and!; try done; try lia; constructor | cbn; split_and!; [lia|done..]]. }
  eapply good_core_trans; [exact Hg|].
  assert (forall m : M (Node S) unit, good s1 (m s1).1 -> committable_indices (m s1).1 = [] -> forall k : unit -> M (Node S) unit, (forall a s', inv s' -> committable_indices s' = [] -> good s' (k a s').1) -> good s1 ((m ≫= k) s1).1) as Hstep.
  { intros m Hm Hc k Hk. apply good_bind; [done|]. intros a s' Heq Hi. apply Hk; [done|]. by rewrite Heq in Hc. }
  apply Hstep.
  - destruct (0 <? _); [apply rollback_good; [apply Hg | apply (lci_bounds s Hs)] | apply quiet_safe; [quiet | apply Hg]].
  - destruct (0 <? _); [by apply rollback_committable|].
    by rewrite (committable_of_core s1) by (apply quiet_on_store).
  - clear Hstep. intros _ s2 Hs2 Hc2. apply good_quiet_bind; [quiet | done|]. intros _ s3 H3 Hs3. apply good_quiet_bind; [quiet|done|]. intros _ s4 H4 Hs4.
    rewrite self_bind. destruct (zsize _ =? 0); [|apply quiet_safe; [quiet | done]].
    apply commit_good; [done|]. by rewrite (committable_of_core _ _ H4), (committable_of_core _ _ H3), Hc2.
Qed.
Hint Resolve become_leader_safe : safe.

Lemma add_vote_for_me_safe from : safe (add_vote_for_me E from).
Proof. unfold add_vote_for_me. safe. Qed.
Hint Resolve add_vote_for_me_safe : safe.
Lemma become_candidate_safe : safe (become_candidate E).
Proof. unfold become_candidate. safe. Qed.
Lemma become_follower_safe : safe (become_follower E).
Proof.
  unfold become_follower. do 4 (apply safe_bind; [apply quiet_safe; quiet|intros _]). apply safe_self. intros s Hs.
  apply good_bind; [apply rollback_good; [done | apply (lci_bounds s Hs)]|]. intros _ s' _ Hs'. apply quiet_safe; [quiet | done].
Qed.
Hint Resolve become_candidate_safe become_follower_safe : safe.
Lemma become_aware_safe t : safe (become_aware_of_new_term E t).
Proof. unfold become_aware_of_new_term. safe. Qed.
Hint Resolve become_aware_safe : safe.
Lemma recv_request_vote_safe from r : safe (recv_request_vote E from r).
Proof. unfold recv_request_vote. safe. Qed.
Lemma recv_request_vote_response_safe from r : safe (recv_request_vote_response E from r).
Proof. unfold recv_request_vote_response. safe. Qed.
Lemma update_commit_safe : safe (update_commit E).
Proof. unfold update_commit. safe. Qed.
Hint Resolve recv_request_vote_safe recv_request_vote_response_safe update_commit_safe : safe.
Lemma recv_append_entries_response_safe from r : safe (recv_append_entries_response E from r).
Proof. unfold recv_append_entries_response. safe. Qed.

(** ** Batches *)

Lemma to_int_bounds x : - 2 ^ 31 <= to_int x < 2 ^ 31.
Proof. unfold to_int. pose proof (Z.mod_pos_bound (x + 2 ^ 31) (2 ^ 32) ltac:(lia)). lia. Qed.
Lemma update_batch_size_safe : safe (update_batch_size (S := S)).
Proof.
  intros s (H1 & H2 & H3 & H4 & H5 & H6 & H7 & H8). unfold update_batch_size.
  split; [cbn -[Z.pow Z.le Z.lt Z.max Z.quot ledger_of to_int]; split_and!; try done; try lia | cbn; split_and!; [lia|done..]].
  match goal with |- Z.max (to_int ?x ÷ _) _ <= _ => pose proof (to_int_bounds x); generalize dependent (to_int x) end. intros y Hy.
  unfold batch_window_size. destruct (Z.leb_spec 0 y); [|].
  - rewrite Z.quot_div_nonneg by lia. pose proof (Z.div_le_upper_bound y 100 (2 ^ 31)). lia.
  - pose proof (Z.quot_opp_l y 100). rewrite (Z.quot_div_nonneg (- y)) in H0 by lia. pose proof (Z.div_pos (-y) 100). lia.
Qed.
Hint Resolve update_batch_size_safe recv_append_entries_response_safe : safe.
Lemma periodic_safe t : safe (periodic E t).
Proof. unfold periodic. safe. Qed.

(** ** Operations that do not throw *)

(** Undefined behaviour of the store ends every promise. *)
Definition nothrow {A} (m : M (Node S) A) : Prop := forall s, match m s with (_, Throw _) => False | _ => True end.

Lemma nothrow_bind {A B} (m : M (Node S) A) (k : A -> M (Node S) B) : nothrow m -> (forall a, nothrow (k a)) -> nothrow (m ≫= k).
Proof. intros Hm Hk s. rewrite mbind_run. specialize (Hm s). destruct (m s) as [s' [a|e|]]; [apply Hk | done | done]. Qed.
Lemma nothrow_for_each {A} (f : A -> M (Node S) unit) l : (forall a, nothrow (f a)) -> nothrow (for_each f l).
Proof. intros H. induction l as [|a l IH]; [done|]. by apply nothrow_bind. Qed.

Create HintDb nothrow.
Ltac nothrow_step :=
  match goal with
  | |- forall _, _ => intros ?
  | |- nothrow (_ ≫= _) => apply nothrow_bind; [|intros ?]
  | |- nothrow (for_each _ _) => apply nothrow_for_each
  | |- nothrow (if ?b then _ else _) => destruct b
  | |- nothrow (match ?x with _ => _ end) => destruct x
  | |- nothrow _ => solve [eauto with nothrow nocore]
  | |- nothrow _ => done
  end.
Ltac nothrow := repeat nothrow_step.

(** Sending to a node that is known. *)
Definition known (to : NodeId) s : Prop := is_Some (all_other_nodes (members s) !! to).
Lemma send_authenticated_run to m s : exists s1 b, send_authenticated E to m s = (s1, Ok b) /\ members s1 = members s.
Proof.
  unfold send_authenticated. rewrite mbind_run. cbn [gets]. rewrite modify_bind. destruct (can_send E (draws s) to); [|by eexists _, _].
  unfold emit. rewrite modify_bind. by eexists _, _.
Qed.
Lemma send_range_known to i j s : known to s -> match send_append_entries_range E to i j s with (_, Throw _) => False | (s', _) => known to s' end.
Proof.
  unfold send_append_entries_range. rewrite self_bind. intros Hk. destruct (_ && _ && _); [done|]. destruct (Hk) as [n Hn]. rewrite Hn, mbind_run.
  match goal with |- context [send_authenticated E to ?m s] => destruct (send_authenticated_run to m s) as (s1 & b & -> & Hm) end.
  destruct b; unfold known; cbn; rewrite Hm, ?lookup_alter_eq, Hn; eauto.
Qed.
Lemma send_known to i s : known to s -> match send_append_entries E to i s with (_, Throw _) => False | _ => True end.
Proof.
  intros Hk. unfold send_append_entries. change (match send_append_entries_loop E (Z.to_nat (last_idx (state s)) + 2) to i s with (_, Throw _) => False | _ => True end).
  generalize (Z.to_nat (last_idx (state s)) + 2)%nat. intros n. revert i s Hk. induction n as [|n IH]; intros i s Hk; [done|]. cbn [send_append_entries_loop].
  rewrite mbind_run. cbn [gets]. rewrite mbind_run. pose proof (send_range_known to i (calculate_end_index s i) s Hk) as H.
  destruct (send_append_entries_range _ _ _ _ s) as [s' [[]|e|]]; [|done|done]. rewrite mbind_run. cbn [gets]. destruct (_ =? _); [done | by apply IH].
Qed.
Lemma add_node_nothrow id info : nothrow (add_node E id info).
Proof.
  intros s. unfold add_node. rewrite self_bind. destruct (bool_decide _); [done|]. destruct (bool_decide _); [done|].
  unfold mb. rewrite modify_bind. destruct (is_primary s); [|done]. apply send_known. unfold known. cbn. rewrite lookup_insert_eq. eauto.
Qed.
Hint Resolve add_node_nothrow : nothrow.
Lemma add_configuration_nothrow i c l r : nothrow (add_configuration E i c l r).
Proof.
  unfold add_configuration, observe_one_transaction, observe_two_transaction, promote, become_retired, become_active_follower, create_and_remove_node_state. nothrow.
Qed.
Hint Resolve add_configuration_nothrow : nothrow.
Lemma call_hook_nothrow h : nothrow (call_hook E h).
Proof. unfold call_hook. nothrow. Qed.
Hint Resolve call_hook_nothrow : nothrow.

(** Such an operation that is quiet returns in a state with the same log. *)
Lemma plain_run {A} (m : M (Node S) A) s : quiet m -> nothrow m ->
  (exists s' a, m s = (s', Ok a) /\ core s' = core s) \/ exists s', m s = (s', Undef).
Proof. intros Hq Hn. specialize (Hq s). specialize (Hn s). destruct (m s) as [s' [a|e|]]; [left; by eexists _, _ | done | right; by eexists]. Qed.

(** ** The handling of entries *)

(** An operation in a state: the log is good at the end, and after a normal
    return [Q] holds. *)
Definition leads {A} s (r : Node S * result A) (Q : A -> Node S -> Prop) : Prop :=
  match r with (s', Ok a) => good s s' /\ Q a s' | (s', Throw _) => good s s' | (_, Undef) => True end.
Definition wsafe {A} (m : M (Node S) A) : Prop := forall s, inv s -> leads s (m s) (fun _ _ => True).

Lemma leads_good {A} s (r : Node S * result A) : good s r.1 -> leads s r (fun _ _ => True).
Proof. by destruct r as [s' [a|e|]]. Qed.
Lemma safe_wsafe {A} (m : M (Node S) A) : safe m -> wsafe m.
Proof. intros H s Hs. by apply leads_good, H. Qed.
Lemma leads_bind {A B} s (m : M (Node S) A) (k : A -> M (Node S) B) R Q :
  leads s (m s) R -> (forall a s', inv s' -> R a s' -> leads s' (k a s') Q) -> leads s ((m ≫= k) s) Q.
Proof.
  intros Hm Hk. rewrite mbind_run. destruct (m s) as [s' [a|e|]]; [|done|done]. destruct Hm as [Hg HR]. specialize (Hk a s' (proj1 Hg) HR).
  unfold leads in *. destruct (k a s') as [s'' [b|e|]]; [destruct Hk as [Hk HQ]; split; [|done]|..]; try done; eapply good_core_trans; eassumption.
Qed.
Lemma leads_impl {A} s (r : Node S * result A) Q Q' : leads s r Q -> (forall a s', good s s' -> Q a s' -> Q' a s') -> leads s r Q'.
Proof. destruct r as [s' [a|e|]]; cbn; [|done|done]. intros [Hg HQ] H. split; [done | by apply H]. Qed.
Lemma leads_core {A} s s1 (r : Node S * result A) Q : core s1 = core s -> leads s1 r Q -> leads s r Q.
Proof. unfold leads, good. intros ->. done. Qed.
Lemma leads_trans {A} s s1 (r : Node S * result A) Q : good s s1 -> leads s1 r Q -> leads s r Q.
Proof. intros Hg. destruct r as [s' [a|e|]]; cbn; [intros [H HQ]; split; [|done]|intros H|done]; by eapply good_core_trans. Qed.
Lemma leads_quiet {A} s (m : M (Node S) A) : inv s -> quiet m -> leads s (m s) (fun _ s' => core s' = core s).
Proof. intros Hs Hm. pose proof (quiet_safe m Hm s Hs) as Hg. specialize (Hm s). by destruct (m s) as [s' [a|e|]]. Qed.
Lemma wsafe_mbind {A B} (m : M (Node S) A) (k : A -> M (Node S) B) : wsafe m -> (forall a, wsafe (k a)) -> wsafe (m ≫= k).
Proof. intros Hm Hk s Hs. eapply leads_bind; [by apply Hm|]. intros a s' Hs' _. by apply Hk. Qed.

(** *** Views *)

Lemma update_sorted (P : Z -> Prop) idx view vs vs' : P idx -> StronglySorted Z.le vs -> Forall P vs -> ViewHistory.update idx view vs = Ok vs' ->
  StronglySorted Z.le vs' /\ Forall P vs'.
Proof.
  intros Hi Hs Hu H. assert (Forall (fun v => v <= idx) vs /\ vs' = vs ++ list.replicate (Z.to_nat (view - zlen vs)) idx) as [Hle ->].
  { unfold ViewHistory.update in H. destruct (last vs) as [x|] eqn:Hl.
    - destruct (Z.ltb_spec idx x); [done|]. split; [|congruence]. apply last_Some in Hl as [l ->]. apply Forall_app. split; [|by repeat constructor].
      apply Forall_forall. intros v Hv. apply StronglySorted_app in Hs as (Hs & _ & _). specialize (Hs v x Hv ltac:(by left)). lia.
    - apply last_None in Hl as ->. split; [done | congruence]. }
  split; [|apply Forall_app; split; [done | by apply Forall_replicate]].
  apply StronglySorted_app. split_and!; [|done|].
  - intros x y Hx Hy. apply elem_of_replicate in Hy as [-> _]. rewrite Forall_forall in Hle. by apply Hle.
  - clear. induction (Z.to_nat _) as [|n IH]; [constructor|]. cbn. constructor; [exact IH|]. by apply Forall_replicate.
Qed.
Lemma update_views_leads s idx view : inv s -> 1 <= idx <= last_idx (state s) + 1 ->
  leads s (update_view_history idx view s) (fun _ s' => last_idx (state s') = last_idx (state s)).
Proof.
  intros Hs Hi. unfold update_view_history. rewrite self_bind, mbind_run. unfold lift.
  destruct (ViewHistory.update _ _ _) as [vs'|e|] eqn:Hu; [|by apply good_core_refl|done].
  destruct (Hs) as (H1 & H2 & H3 & H4 & H5 & H6 & H7 & H8). destruct (update_sorted _ _ _ _ _ Hi H6 H7 Hu) as [Hso Hfo]. split; [|done].
  split; [cbn -[Z.pow Z.le Z.lt ledger_of]; split_and!; try done; try lia | cbn; split_and!; [lia|done..]].
Qed.

(** *** Entries of a message *)

Lemma last_of_core s s' : core s' = core s -> last_idx (state s') = last_idx (state s).
Proof. unfold core. congruence. Qed.
Lemma views_of_core s s' : core s' = core s -> view_history (state s') = view_history (state s).
Proof. unfold core. congruence. Qed.
Lemma commit_last idx s : last_idx (state (commit E idx s).1) = last_idx (state s).
Proof.
  unfold commit. rewrite self_bind. destruct (_ <? _); [done|]. destruct (_ <=? _); [done|]. unfold st. rewrite modify_bind. set (s1 := on_state _ s).
  match goal with |- context [(?m s1).1] => assert (quiet m) as Hm end; [quiet|]. by rewrite (last_of_core s1 _ (Hm s1)).
Qed.
Lemma commit_sets idx s : commit_idx (state (commit E idx s).1) = commit_idx (state s) \/ commit_idx (state (commit E idx s).1) = idx.
Proof.
  unfold commit. rewrite self_bind. destruct (_ <? _); [by left|]. destruct (_ <=? _); [by left|]. right. unfold st. rewrite modify_bind. set (s1 := on_state _ s).
  match goal with |- context [(?m s1).1] => assert (quiet m) as Hm end; [quiet|]. specialize (Hm s1). unfold core in Hm. injection Hm as _ -> _ _ _ _. done.
Qed.
(** What is committed was committable, and not beyond the index. *)
Lemma commit_if_possible_sets idx s : let s' := (commit_if_possible E idx s).1 in
  commit_idx (state s') = commit_idx (state s) \/ (commit_idx (state s') <= idx /\ commit_idx (state s') ∈ committable_indices s).
Proof.
  unfold commit_if_possible. rewrite self_bind. destruct (_ && _); [|by left]. pose proof (pop_committable_bound idx (committable_indices s) None) as Hb.
  pose proof (pop_committable_spec idx (committable_indices s) None) as Hp. destruct (pop_committable _ _ _) as [[i|] rest]; rewrite modify_bind; [|by left].
  destruct Hp as (k & Hk & [[_ [=]] | (k' & j & -> & [=<-])]). destruct (commit_sets i (on_committable_indices (fun _ => rest) s)) as [H|H]; rewrite H; [by left|].
  right. split; [by destruct (Hb i eq_refl) | rewrite Hk; set_solver].
Qed.
Lemma commit_if_possible_leads idx s : inv s -> leads s (commit_if_possible E idx s) (fun _ s' => last_idx (state s') = last_idx (state s)).
Proof.
  intros Hs. pose proof (commit_if_possible_safe idx s Hs) as Hg.
  assert (last_idx (state (commit_if_possible E idx s).1) = last_idx (state s)) as Hl.
  { unfold commit_if_possible. rewrite self_bind. destruct (_ && _); [|done]. destruct (pop_committable _ _ _) as [[j|] rest]; rewrite modify_bind; [by rewrite commit_last | done]. }
  by destruct (commit_if_possible E idx s) as [s' [a|e|]].
Qed.

Lemma inv_nonneg s : inv s -> 0 <= commit_idx (state s) <= last_idx (state s).
Proof. intros (_ & ? & ? & _). lia. Qed.
Lemma wrap64_succ x : 0 <= x < 2 ^ 63 -> wrap64 (x + 1) = x + 1.
Proof. intros H. apply wrap64_small. unfold u64. rewrite M64_val. lia. Qed.

Lemma finish_leads r from s : inv s -> last_idx (state s) < 2 ^ 63 -> leads s (execute_append_entries_finish E r from s) (fun _ _ => True).
Proof.
  intros Hs Hl. unfold execute_append_entries_finish. eapply leads_bind; [by apply commit_if_possible_leads|]. intros [] s1 Hs1 Hl1. rewrite self_bind.
  pose proof (inv_nonneg s1 Hs1). pose proof (lci_bounds s1 Hs1). eapply (leads_bind _ _ _ (fun _ _ => True)).
  - destruct (_ =? _); [|destruct (_ <? _)].
    + eapply leads_impl; [apply update_views_leads; [done|lia] | done].
    + eapply leads_impl; [apply update_views_leads; [done|rewrite wrap64_succ; lia] | done].
    + by apply leads_good, good_core_refl.
  - intros _ s2 Hs2 _. apply leads_good, quiet_safe; [quiet | done].
Qed.

(** The new entry is the last one. *)
Definition at_end (i : Z) s : Prop := last_idx (state s) = i /\ commit_idx (state s) < i /\ Forall (fun j => j < i) (committable_indices s).

Lemma push_committable_good i s : inv s -> at_end i s -> good s (on_committable_indices (fun l => l ++ [i]) s).
Proof.
  intros (H1 & H2 & H3 & H4 & H5 & H6 & H7 & H8) (Hl & Hc & Hf).
  split; [cbn -[Z.pow Z.le Z.lt ledger_of]; split_and!; try done; try lia | cbn; split_and!; [lia|done..]].
  - apply StronglySorted_app. split_and!; [|done|by repeat constructor]. intros x y Hx Hy%list_elem_of_singleton. subst y. rewrite Forall_forall in Hf. by apply Hf.
  - apply Forall_app. split; [done|]. repeat constructor; lia.
Qed.

Lemma at_end_core i s s' : core s' = core s -> at_end i s -> at_end i s'.
Proof. unfold at_end, core. intros [=-> -> -> _ _ _]. done. Qed.

Lemma deserialised_signature_leads r w i s : inv s -> at_end i s -> 0 <= ae_prev_idx r < i -> i < 2 ^ 63 ->
  leads s (deserialised_signature E r w i s) (fun _ s' => last_idx (state s') = i).
Proof.
  intros Hs Hi Hp Hb. unfold deserialised_signature. rewrite self_bind. eapply leads_bind; [apply leads_quiet; [done|quiet]|]. intros [] s1 Hs1 Hc1.
  rewrite modify_bind. set (s2 := on_committable_indices _ s1). pose proof (push_committable_good i s1 Hs1 (at_end_core _ _ _ Hc1 Hi)) as Hg.
  assert (last_idx (state s2) = i) as Hl2 by (change (last_idx (state s1) = i); rewrite (last_of_core _ _ Hc1); apply Hi).
  eapply leads_trans; [exact Hg|]. destruct (w_term w =? 0); [split; [by apply good_core_refl, Hg | done]|].
  eapply (leads_bind s2 _ _ (fun _ s' => last_idx (state s') = i)).
  - rewrite <- Hl2. destruct (_ =? _); apply update_views_leads; [apply Hg | lia | apply Hg | rewrite wrap64_succ; lia].
  - intros [] s3 Hs3 Hl3. rewrite <- Hl3. by apply commit_if_possible_leads.
Qed.

(** Appending an entry, together with the index, which may become committable. *)
Definition appended s (i : Z) (e : list Z) (g push : bool) : Core :=
  (i, commit_idx (state s), if push then committable_indices s ++ [i] else committable_indices s,
   ledger_write (ledger_of (out s)) (LedgerAppend e g), view_history (state s), entries_batch_size (batch s)).

Lemma append_good i e g push s s' : inv s -> i = last_idx (state s) + 1 -> core s' = appended s i e g push -> good s s'.
Proof.
  intros (H1 & H2 & H3 & H4 & H5 & H6 & H7 & H8) Hi Hc. unfold good. rewrite Hc. unfold last_of in H1.
  assert (Forall (fun j => commit_idx (state s) < j < i) (committable_indices s)) as Hf by (eapply Forall_impl; [exact H5|]; cbn; lia).
  split; [cbn -[Z.pow Z.le Z.lt ledger_of]; unfold last_of; cbn [base entries]; rewrite length_app; cbn [length]; split_and!; try done; try lia|].
  - destruct push; [|done]. apply StronglySorted_app. split_and!; [|done|by repeat constructor].
    intros x y Hx Hy%list_elem_of_singleton. subst y. rewrite Forall_forall in Hf. by apply Hf.
  - destruct push; [apply Forall_app; split; [|repeat constructor; lia]|]; (eapply Forall_impl; [exact Hf|]; cbn; lia).
  - eapply Forall_impl; [exact H7|]. cbn. lia.
  - cbn. split_and!; [lia|done|]. intros j Hj. unfold entry_at. cbn [base entries]. destruct (Z.leb_spec j (base (ledger_of (out s)))); [done|].
    apply lookup_app_l. lia.
Qed.
Lemma append_at_end i e g s s' : inv s -> i = last_idx (state s) + 1 -> core s' = appended s i e g false -> at_end i s'.
Proof.
  intros (_ & _ & H3 & _ & H5 & _) Hi Hc. unfold core, appended in Hc. unfold at_end. injection Hc as -> -> -> _ _ _. split_and!; [done|lia|].
  eapply Forall_impl; [exact H5|]. cbn. lia.
Qed.

Lemma truncate_end s : inv s -> ledger_write (ledger_of (out s)) (LedgerTruncate (last_idx (state s))) = ledger_of (out s).
Proof.
  intros (H1 & _). unfold last_of in H1. cbn [ledger_write]. rewrite take_ge by lia. by destruct (ledger_of (out s)).
Qed.

Lemma execute_entry_leads r from w i s : inv s -> i = last_idx (state s) + 1 -> i < 2 ^ 63 -> 0 <= ae_prev_idx r < i ->
  leads s (execute_entry E r from w i s) (fun more s' => more = true -> last_idx (state s') = i).
Proof.
  intros Hs Hi Hb Hp. assert (0 < i) by (destruct Hs as (_ & ? & ? & _); lia). unfold execute_entry. eapply leads_bind; [apply leads_quiet; [done | quiet]|]. intros [w' res] s1 Hs1 Hc1.
  assert (i = last_idx (state s1) + 1) as Hi1 by (by rewrite (last_of_core _ _ Hc1)). destruct (bool_decide (res = FAIL)).
  { unfold emit. rewrite modify_bind. set (s2 := set_out _ s1). assert (core s2 = core s1) as Hc2.
    { unfold core, s2. cbn -[ledger_of]. rewrite ledger_of_snoc. replace (wrap64 (i - 1)) with (last_idx (state s1)); [by rewrite truncate_end|].
      rewrite wrap64_small by (unfold u64; rewrite M64_val; lia). lia. }
    apply (leads_core _ s2); [done|]. eapply leads_bind; [apply leads_quiet; [unfold inv; by rewrite Hc2 | quiet]|]. intros _ s3 Hs3 _. split; [by apply good_core_refl | done]. }
  unfold st. rewrite modify_bind. set (s2 := on_state _ s1).
  destruct (plain_run (for_each (call_hook E) (w_hooks w')) s2 ltac:(quiet) ltac:(nothrow)) as [(s3 & [] & Hr3 & Hc3) | (s3 & Hr3)]; rewrite mbind_run, Hr3; [|done].
  destruct (plain_run (if bool_decide (res = PASS_SIGNATURE) then start_ticking_if_necessary else mret tt) s3 ltac:(quiet)
    ltac:(unfold start_ticking_if_necessary, start_ticking; nothrow)) as [(s4 & [] & Hr4 & Hc4) | (s4 & Hr4)]; rewrite mbind_run, Hr4; [|done].
  unfold emit. rewrite modify_bind. set (s5 := set_out _ s4).
  assert (core s5 = appended s1 i (w_entry w') (bool_decide (res = PASS_SIGNATURE)) false) as Hc5.
  { assert (core s4 = core s2) as Hc by congruence. unfold core, s2 in Hc. cbn -[ledger_of] in Hc. injection Hc as H1 H2 H3 H4 H5 H6.
    unfold core, s5, appended. cbn -[ledger_of ledger_write]. rewrite ledger_of_snoc. by rewrite H1, H2, H3, H4, H5, H6. }
  pose proof (append_good _ _ _ _ _ _ Hs1 Hi1 Hc5) as Hg. pose proof (append_at_end _ _ _ _ _ Hs1 Hi1 Hc5) as Hend.
  eapply leads_trans; [exact Hg|]. clearbody s5. clear Hc3 Hc4 Hr3 Hr4.
  destruct res; try (split; [by apply good_core_refl, Hg | intros _; apply Hend]); try (by apply good_core_refl, Hg).
  eapply leads_bind; [by apply deserialised_signature_leads; [apply Hg|..]|]. intros [] s6 Hs6 Hl6. split; [by apply good_core_refl | done].
Qed.

(** *** Messages with entries *)

(** The indices that come with the entries follow the end of the log. *)
Definition numbered (i : Z) (l : list (W * Z)) : Prop := l.*2 = seqZ i (zlen l).

Lemma execute_sync_leads r from es s : inv s -> numbered (last_idx (state s) + 1) es -> last_idx (state s) + zlen es < 2 ^ 63 ->
  0 <= ae_prev_idx r <= last_idx (state s) ->
  leads s (execute_append_entries_sync E es from r s) (fun _ _ => True).
Proof.
  revert s. induction es as [|[w i] es IH]; intros s Hs Hn Hb Hp; cbn [execute_append_entries_sync]; [cbn in Hb; apply finish_leads; [done|lia]|].
  unfold numbered in Hn. cbn [length fmap list_fmap snd] in Hn. rewrite Nat2Z.inj_succ, seqZ_cons in Hn by lia. injection Hn as Hi Hn.
  cbn [length] in Hb. eapply leads_bind; [by apply execute_entry_leads; [..|lia|lia]|]. intros [] s1 Hs1 Hl1; [|by apply leads_good, good_core_refl].
  specialize (Hl1 eq_refl). apply IH; [done| |lia|lia]. unfold numbered. rewrite Hl1, Hn, Hi. f_equal; lia.
Qed.

Lemma skip_entry_shorter data data' : bytes_ok data -> skip_entry data = Ok data' -> zlen data' + 8 <= zlen data /\ bytes_ok data'.
Proof.
  unfold skip_entry. intros Hb H. apply bind_ok in H as ([h d] & H & Hs). unfold Serialized.read_uint in H. apply bind_ok in H as ([b d'] & H & [=<- <-]).
  unfold Serialized.read in H. destruct (Z.ltb_spec (zlen data) (Z.of_nat 8)); [done|]. injection H as <- <-.
  unfold Serialized.skip in Hs. destruct (_ <? _); [done|]. injection Hs as <-. unfold zdrop. rewrite !length_drop. split; [lia | by do 2 apply bytes_ok_drop].
Qed.
Lemma get_entry_shorter data e data' : bytes_ok data -> get_entry data = Ok (e, data') -> zlen data' + 8 <= zlen data /\ bytes_ok data'.
Proof.
  intros Hb H. unfold get_entry in H. apply bind_ok in H as (h & Hh & H).
  unfold Serialized.peek_uint in Hh. destruct (Z.ltb_spec (zlen data) (Z.of_nat 8)); [done|]. injection Hh as <-.
  pose proof (Serialized.le_val_bound (take 8 data) (bytes_ok_take _ _ Hb)) as Hv. revert H Hv. generalize (le_val (take 8 data)). intros h H Hv.
  pose proof (Z.div_pos h (2 ^ 16)). destruct (_ <? _) eqn:Hlt; [done|]. apply Z.ltb_ge in Hlt.
  apply bind_ok in H as (d & Hd & [=<- <-]). unfold Serialized.skip in Hd. destruct (_ <? _); [done|]. injection Hd as <-.
  split; [unfold zdrop; rewrite length_drop; lia | by apply bytes_ok_drop].
Qed.

Lemma numbered_snoc i l w j : numbered i l -> j = i + zlen l -> numbered i (l ++ [(w, j)]).
Proof.
  unfold numbered. intros H ->. rewrite fmap_app, H, length_app. cbn. replace (Z.of_nat (length l + 1)) with (zlen l + 1) by lia.
  by rewrite seqZ_app by lia.
Qed.

Lemma deserialise_leads fuel r from i data acc s : inv s -> bytes_ok data -> numbered (last_idx (state s) + 1) acc ->
  (i <= last_idx (state s) -> acc = []) -> (last_idx (state s) < i -> i = last_idx (state s) + 1 + zlen acc) ->
  0 <= i -> i + zlen data < 2 ^ 63 -> last_idx (state s) < 2 ^ 62 ->
  leads s (deserialise_entries E fuel r from i data acc s) (fun o s' => core s' = core s /\
    match o with Some es => numbered (last_idx (state s) + 1) es /\ last_idx (state s) + zlen es < 2 ^ 63 | None => True end).
Proof.
  revert i data acc s. induction fuel as [|fuel IH]; intros i data acc s Hs Hb Hn Hlow Hhigh H0 Hi Hl; [done|]. cbn [deserialise_entries].
  assert (wrap64 (i + 1) = i + 1) as Hw by (apply wrap64_small; unfold u64; rewrite M64_val; lia).
  destruct (Z.ltb_spec (ae_idx r) i).
  { split; [by apply good_core_refl|]. split_and!; [done..|]. destruct (Z.ltb_spec (last_idx (state s)) i) as [Hlt|]; [specialize (Hhigh Hlt); lia|]. rewrite Hlow by lia. cbn. lia. }
  rewrite self_bind. destruct (Z.leb_spec i (last_idx (state s))).
  - rewrite mbind_run. unfold lift. destruct (skip_entry data) as [data'|e|] eqn:Hsk; [|by apply good_core_refl|done].
    destruct (skip_entry_shorter _ _ Hb Hsk) as [Hlen Hb']. rewrite Hw, (Hlow ltac:(lia)). apply IH; try done; try lia. intros ?. cbn. lia.
  - destruct (get_entry data) as [[e data']|ex|] eqn:Hg; [| |done].
    + destruct (get_entry_shorter _ _ _ Hb Hg) as [Hlen Hb']. eapply leads_bind; [apply leads_quiet; [done|quiet]|]. intros [w|] s1 Hs1 Hc1.
      * rewrite Hw. pose proof (last_of_core _ _ Hc1) as Hl1. eapply leads_impl.
        -- apply IH; rewrite ?Hl1; try done; try lia; [apply numbered_snoc; [done|lia] | rewrite length_app; cbn; lia].
        -- cbn. rewrite Hl1, Hc1. done.
      * eapply leads_bind; [apply leads_quiet; [done|quiet]|]. intros [] s2 Hs2 Hc2. split; [by apply good_core_refl|]. split; [congruence|done].
    + eapply leads_bind; [apply leads_quiet; [done|quiet]|]. intros [] s2 Hs2 Hc2. split; [by apply good_core_refl|]. done.
Qed.

Lemma follow_rollback_leads prev s : inv s -> commit_idx (state s) <= prev <= last_idx (state s) ->
  leads s (follow_rollback E prev s) (fun _ s' => prev <= last_idx (state s') <= last_idx (state s)).
Proof.
  intros Hs Hp. unfold follow_rollback. rewrite self_bind. destruct (is_new_follower _); [|split; [by apply good_core_refl | lia]].
  eapply (leads_bind _ _ _ (fun _ s' => prev <= last_idx (state s') <= last_idx (state s))).
  - destruct (_ <? _); [|split; [by apply good_core_refl | lia]].
    pose proof (rollback_good prev s Hs ltac:(lia)) as Hg. assert (prev <= last_idx (state (rollback E prev s).1) <= last_idx (state s)) as Hl.
    { destruct (rollback_core prev s) as [H|H]; [rewrite (last_of_core _ _ H); lia|]. unfold core, rolled in H. injection H as -> _. lia. }
    by destruct (rollback E prev s) as [s' [a|e|]].
  - intros [] s1 Hs1 Hl1. unfold el. split; [by apply good_core_refl | done].
Qed.

Lemma accept_leads from r data s : inv s -> bytes_ok data -> zlen data < 2 ^ 62 -> last_idx (state s) < 2 ^ 62 ->
  leads s (accept_append_entries E from r data s) (fun _ _ => True).
Proof.
  intros Hs Hb Hd Hl. unfold accept_append_entries. rewrite self_bind. destruct (negb _); [apply leads_good, quiet_safe; [quiet|done]|].
  destruct (_ && _ && _); [apply leads_good, quiet_safe; [quiet|done]|].
  eapply leads_bind; [apply leads_quiet; [done|quiet]|]. intros [] s1 Hs1 Hc1. eapply leads_bind; [apply leads_quiet; [done|quiet]|]. intros [] s2 Hs2 Hc2.
  assert (core s2 = core s) as Hc by congruence. assert (commit_idx (state s) = commit_idx (state s2)) as Hcm by (unfold core in Hc; congruence).
  rewrite <- (last_of_core _ _ Hc), Hcm in *. clear Hc1 Hc2 Hs1 s1 Hcm Hc Hs s.
  destruct (Z.ltb_spec (ae_prev_idx r) (commit_idx (state s2))); [by apply leads_good, good_core_refl|].
  destruct (Z.ltb_spec (last_idx (state s2)) (ae_prev_idx r)); [by apply leads_good, good_core_refl|].
  eapply leads_bind; [apply follow_rollback_leads; [done|lia]|]. intros [] s3 Hs3 Hl3.
  assert (0 <= ae_prev_idx r) by (destruct Hs2 as (_ & ? & _); lia).
  rewrite wrap64_small by (unfold u64; rewrite M64_val; lia).
  eapply leads_bind; [apply deserialise_leads; try done; cbn; lia|]. intros [es|] s4 Hs4 [Hc4 Hes]; [|by apply leads_good, good_core_refl].
  rewrite <- (last_of_core _ _ Hc4) in Hes. destruct Hes. pose proof (last_of_core _ _ Hc4). apply execute_sync_leads; [done..|lia].
Qed.

Definition shrinks {A} (m : M (Node S) A) : Prop := forall s, inv s -> last_idx (state (m s).1) <= last_idx (state s).
Lemma quiet_shrinks {A} (m : M (Node S) A) : quiet m -> shrinks m.
Proof. intros H s _. by rewrite (last_of_core _ _ (H s)). Qed.
Lemma shrinks_bind {A B} (m : M (Node S) A) (k : A -> M (Node S) B) : safe m -> shrinks m -> (forall a, shrinks (k a)) -> shrinks (m ≫= k).
Proof.
  intros Hs Hm Hk s Hi. specialize (Hs s Hi). specialize (Hm s Hi). rewrite mbind_run. destruct (m s) as [s' [a|e|]]; [|done|done].
  cbn in Hm. specialize (Hk a s' (proj1 Hs)). lia.
Qed.
Lemma become_follower_shrinks : shrinks (become_follower E).
Proof.
  unfold become_follower. do 4 (apply shrinks_bind; [apply quiet_safe; quiet | apply quiet_shrinks; quiet | intros _]).
  intros s Hs. rewrite self_bind. pose proof (lci_bounds s Hs) as Hb. rewrite mbind_run.
  assert (last_idx (state (rollback E (last_committable_index s) s).1) <= last_idx (state s)) as Hl.
  { destruct (rollback_core (last_committable_index s) s) as [H|H]; [by rewrite (last_of_core _ _ H)|]. unfold core, rolled in H. injection H as -> _. lia. }
  destruct (rollback E _ s) as [s1 [[]|e|]]; [|done|done]. rewrite self_bind. by destruct (_ && _).
Qed.
Lemma become_aware_shrinks t : shrinks (become_aware_of_new_term E t).
Proof.
  unfold become_aware_of_new_term. do 3 (apply shrinks_bind; [apply quiet_safe; quiet | apply quiet_shrinks; quiet | intros _]).
  apply shrinks_bind; [safe | apply become_follower_shrinks | intros _; apply quiet_shrinks; quiet].
Qed.

Lemma recv_append_entries_leads from r data s : inv s -> bytes_ok data -> zlen data < 2 ^ 62 -> last_idx (state s) < 2 ^ 62 ->
  leads s (recv_append_entries E from r data s) (fun _ _ => True).
Proof.
  intros Hs Hb Hd Hl. unfold recv_append_entries. rewrite self_bind.
  assert (forall t, leads s ((_ ← become_aware_of_new_term E t; accept_append_entries E from r data) s) (fun _ _ => True)) as Haware.
  { intros t. eapply (leads_bind _ _ _ (fun _ s' => last_idx (state s') <= last_idx (state s))).
    - pose proof (become_aware_safe t s Hs) as Hg. pose proof (become_aware_shrinks t s Hs) as Hsh. by destruct (become_aware_of_new_term E t s) as [s' [a|e|]].
    - intros [] s1 Hs1 Hl1. apply accept_leads; try done. lia. }
  destruct (_ && _); [done|]. destruct (_ <? _); [done|]. destruct (_ <? _); [apply leads_good, quiet_safe; [quiet|done] | by apply accept_leads].
Qed.

(** ** Entries of this node *)

(** What happens to an entry that can be committed. *)
Lemma replicate_committable_run e s :
  exists s', (if be_committable e then
      s ← self;
      _ ← (if is_retired s && phase_is Ordered s then become_retired (be_index e) Signed else mret tt);
      _ ← modify (on_committable_indices (fun l => l ++ [be_index e]));
      start_ticking_if_necessary
    else mret tt) s = (s', Ok tt) /\ core s' = core (on_committable_indices (fun l => if be_committable e then l ++ [be_index e] else l) s).
Proof.
  destruct (be_committable e); [|by exists s]. rewrite self_bind. set (b := is_retired s && phase_is Ordered s). clearbody b.
  assert (exists s1, (if b then become_retired (be_index e) Signed else mret tt) s = (s1, Ok tt) /\ core s1 = core s) as (s1 & Hr1 & Hc1) by (destruct b; by eexists).
  rewrite mbind_run, Hr1, modify_bind. unfold start_ticking_if_necessary. rewrite self_bind.
  assert (core (on_committable_indices (fun l => l ++ [be_index e]) s1) = core (on_committable_indices (fun l => l ++ [be_index e]) s)) as Hc.
  { unfold core in Hc1 |- *. cbn -[ledger_of]. injection Hc1 as -> -> -> -> -> ->. done. }
  destruct (_ && _); eexists; split; try reflexivity; done.
Qed.

Lemma replicate_entry_leads e s : inv s -> be_index e = last_idx (state s) + 1 -> last_idx (state s) < 2 ^ 63 ->
  leads s (replicate_entry E e s) (fun _ s' => last_idx (state s') = be_index e).
Proof.
  intros Hs He Hb. assert (1 <= be_index e) as Hpos by (pose proof (inv_nonneg s Hs); lia).
  unfold replicate_entry. eapply leads_bind; [apply leads_quiet; [done|quiet]|]. intros [] s1 Hs1 Hc1.
  assert (be_index e = last_idx (state s1) + 1) as He1 by (by rewrite (last_of_core _ _ Hc1)). clear Hb Hc1 He Hs s.
  rewrite mbind_run. destruct (replicate_committable_run e s1) as (s2 & -> & Hc2).
  unfold st, emit. rewrite !modify_bind. set (s4 := on_batch _ _).
  assert (good s1 s4) as Hg4.
  { apply (append_good (be_index e) (be_data e) (be_committable e) (be_committable e)); [done..|].
    unfold core in Hc2. cbn -[ledger_of] in Hc2. injection Hc2 as H1 H2 H3 H4 H5 H6. unfold core, s4, appended. cbn -[ledger_of ledger_write].
    rewrite ledger_of_snoc. by rewrite H2, H3, H4, H5, H6. }
  eapply leads_trans; [exact Hg4|]. assert (last_idx (state s4) = be_index e) as Hl4 by done. clearbody s4. clear Hc2 s2. rewrite self_bind.
  eapply leads_bind; [apply update_views_leads; [apply Hg4 | rewrite Hl4; lia]|]. intros [] s5 Hs5 Hl5. rewrite Hl4 in Hl5.
  destruct (_ <=? _); [|by split; [apply good_core_refl|]].
  eapply (leads_bind _ _ _ (fun _ s' => last_idx (state s') = be_index e)); [split; [by apply update_batch_size_safe | done]|]. intros [] s6 Hs6 Hl6.
  eapply leads_bind; [apply leads_quiet; [done|quiet]|]. intros [] s7 Hs7 Hc7.
  eapply leads_impl; [apply leads_quiet; [done|quiet]|]. intros [] s8 _ Hc8. by rewrite (last_of_core _ _ Hc8), (last_of_core _ _ Hc7).
Qed.

Lemma replicate_entries_leads es s : inv s -> last_idx (state s) + zlen es < 2 ^ 63 -> leads s (replicate_entries E es s) (fun _ _ => True).
Proof.
  revert s. induction es as [|e es IH]; intros s Hs Hb; cbn [replicate_entries]; [by apply leads_good, good_core_refl|].
  rewrite self_bind. cbn [length] in Hb. rewrite wrap64_small by (destruct Hs as (_ & ? & ? & _); unfold u64; rewrite M64_val; lia).
  destruct (Z.eqb_spec (be_index e) (last_idx (state s) + 1)) as [He|]; cbn [negb]; [|by apply leads_good, good_core_refl].
  destruct (bool_decide _); [by apply leads_good, good_core_refl|]. eapply leads_bind; [apply replicate_entry_leads; [done..|lia]|].
  intros [] s1 Hs1 Hl1. apply IH; [done|lia].
Qed.
Lemma replicate_leads es t s : inv s -> last_idx (state s) + zlen es < 2 ^ 63 -> leads s (replicate E es t s) (fun _ _ => True).
Proof.
  intros Hs Hb. unfold replicate. rewrite self_bind. destruct (negb (is_primary s)).
  { eapply leads_bind; [by apply leads_good, rollback_good|]. intros [] s1 Hs1 _. by apply leads_good, good_core_refl. }
  destruct (negb _); [by apply leads_good, good_core_refl|]. eapply leads_bind; [by apply replicate_entries_leads|].
  intros [] s1 Hs1 _; [|by apply leads_good, good_core_refl]. apply leads_good. clear Hs Hb s. revert s1 Hs1. change (safe (s ← self; _ ← (if zsize (all_other_nodes (members s)) =? 0 then update_commit E else mret tt); mret true)). safe.
Qed.

(** ** Runs of a replica *)

Lemma handle_leads from m data s : inv s -> bytes_ok data -> zlen data < 2 ^ 62 -> last_idx (state s) < 2 ^ 62 ->
  leads s (handle E from m data s) (fun _ _ => True).
Proof.
  intros Hs Hb Hd Hl. destruct m; cbn [handle];
    [by apply recv_append_entries_leads | apply leads_good..];
    [by apply recv_append_entries_response_safe | by apply recv_request_vote_safe | by apply recv_request_vote_response_safe].
Qed.

(** Vectors are shorter than 2^62, and so is the log before a step. *)
Definition event_ok (ev : Event) : Prop :=
  match ev with
  | Receive _ _ data => bytes_ok data /\ zlen data < 2 ^ 62
  | Replicate es _ => zlen es < 2 ^ 62
  | _ => True
  end.

Inductive node_step : Node S -> Node S -> Prop :=
  | node_step_intro s ev s' r : last_idx (state s) < 2 ^ 62 -> event_ok ev -> run_event E ev s = (s', r) -> r <> Undef -> node_step s s'.

(** How a replica starts: as the constructor leaves it, or from a snapshot. *)
Inductive started : Node S -> Prop :=
  | started_new id st p m t : started (new_node id st p m t)
  | started_backup id st p m t index term history recovery s r :
      0 <= index -> Forall (fun v => 1 <= v <= index + 1) history -> init_as_backup E index term history recovery (new_node id st p m t) = (s, r) -> r = Ok tt -> started s.

Lemma new_node_inv id st p m t : inv (new_node id st p m t : Node S).
Proof. unfold inv. cbn -[Z.pow]. split_and!; try done; try lia; constructor. Qed.

Lemma run_event_leads ev s : inv s -> last_idx (state s) < 2 ^ 62 -> event_ok ev -> leads s (run_event E ev s) (fun _ _ => True).
Proof.
  intros Hs Hl Hok. destruct ev; cbn [run_event event_ok] in *.
  - destruct Hok as [Hb Hd]. unfold recv_message. pose proof (handle_leads from0 m data s Hs Hb Hd Hl) as H.
    destruct (handle _ _ _ _ s) as [s' [a|e|]]; done.
  - by apply leads_good, periodic_safe.
  - eapply leads_bind; [apply replicate_leads; [done|lia]|]. intros b s1 Hs1 _. by apply leads_good, good_core_refl.
  - apply leads_good, quiet_safe; [quiet|done].
  - apply leads_good, quiet_safe; [unfold start_ticking; quiet|done].
  - apply leads_good, quiet_safe; [unfold get_signable_txid; quiet|done].
  - apply leads_good. clear Hl Hok. revert s Hs. change (safe (force_become_primary E)). unfold force_become_primary. safe.
  - apply leads_good, quiet_safe; [quiet|done].
  - apply leads_good, quiet_safe; [unfold update_parameters; quiet|done].
  - apply leads_good, quiet_safe; [unfold enable_all_domains; quiet|done].
Qed.
Lemma node_step_good s s' : inv s -> node_step s s' -> good s s'.
Proof.
  intros Hs Hst. destruct Hst as [s ev s' r Hl Hok Hr Hu]. pose proof (run_event_leads ev s Hs Hl Hok) as H. rewrite Hr in H. destruct r; [apply H | apply H | done].
Qed.
Lemma node_steps_good s s' : inv s -> rtc node_step s s' -> good s s'.
Proof.
  intros Hs H. induction H as [s|s s1 s' Hst _ IH]; [by apply good_core_refl|]. pose proof (node_step_good s s1 Hs Hst) as Hg.
  eapply good_core_trans; [exact Hg | apply IH, Hg].
Qed.

Lemma initialise_sorted (P : Z -> Prop) i terms vs vs' r : Forall P terms -> StronglySorted Z.le vs -> Forall P vs ->
  ViewHistory.initialise_from i terms vs = (vs', r) -> StronglySorted Z.le vs' /\ Forall P vs'.
Proof.
  revert i vs. induction terms as [|t terms IH]; intros i vs Ht Hs Hu H; cbn in H; [by injection H as <- _|].
  inversion Ht as [|? ? Ht0 Ht1]; subst. destruct (ViewHistory.update _ _ _) as [vs1|e|] eqn:Hup; [|by injection H as <- _..].
  destruct (update_sorted _ _ _ _ _ Ht0 Hs Hu Hup). by eapply (IH (i + 1) vs1).
Qed.
Lemma started_inv s : started s -> inv s.
Proof.
  intros [id st0 p m t | id st0 p m t index term history recovery s1 r Hi Hh Hr ->]; [apply new_node_inv|].
  unfold init_as_backup, st, on_views, zoom, emit in Hr. rewrite modify_bind, mbind_run in Hr. unfold ViewHistory.initialise in Hr.
  destruct (ViewHistory.initialise_from 0 history []) as [vs [[]|e|]] eqn:Hv; [|done..].
  destruct (initialise_sorted _ 0 history [] vs _ Hh ltac:(constructor) ltac:(constructor) Hv) as [Hso Hfo].
  rewrite modify_bind in Hr. match type of Hr with ?m ?s0 = _ => assert (inv s0) as Hs0; [|pose proof (become_aware_safe term s0 Hs0) as Hg; rewrite Hr in Hg; apply Hg] end.
  unfold inv, core, inv_core, last_of. cbn -[Z.le Z.lt Z.pow Z.add]. split_and!; try done; try lia; constructor.
Qed.

(** The states of a replica. *)
Definition reachable s : Prop := exists s0, started s0 /\ rtc node_step s0 s.
Lemma reachable_inv s : reachable s -> inv s.
Proof. intros (s0 & H0 & H). by apply (node_steps_good s0 s (started_inv s0 H0) H). Qed.

(** Runs that can be evaluated. *)
Fixpoint node_run (evs : list Event) (s : Node S) : option (Node S) :=
  match evs with
  | [] => Some s
  | ev :: evs => if last_idx (state s) <? 2 ^ 62 then match run_event E ev s with (_, Undef) => None | (s', _) => node_run evs s' end else None
  end.
Lemma node_run_steps evs s s' : Forall event_ok evs -> node_run evs s = Some s' -> rtc node_step s s'.
Proof.
  revert s. induction evs as [|ev evs IH]; intros s Hok H; cbn in H; [injection H as <-; apply rtc_refl|]. inversion Hok; subst.
  destruct (Z.ltb_spec (last_idx (state s)) (2 ^ 62)); [|done]. destruct (run_event E ev s) as [s1 r] eqn:Hr.
  eapply rtc_l; [apply (node_step_intro s ev s1 r); try done|apply IH; [done|]]; by destruct r.
Qed.
Lemma node_run_reachable evs id st p m t s : Forall event_ok evs -> node_run evs (new_node id st p m t) = Some s -> reachable s.
Proof. intros Hok H. exists (new_node id st p m t). split; [constructor|]. by apply (node_run_steps evs). Qed.

(** C3. What a replica has committed stays committed, whatever messages it gets
    from whomever, whatever time passes, and whatever entries the node gives to
    it.  Along any run the commit index does not go back, the entries of the
    ledger up to it are not changed or cut off, the ledger has exactly the
    entries up to the last index, and the commit index is not ahead of it.
    Exceptions that interrupt a handler are part of the runs.  The log and the
    payload of a message are shorter than 2^62. *)
Theorem raft_committed_stays s s' : reachable s -> rtc node_step s s' ->
  commit_idx (state s) <= commit_idx (state s') <= last_idx (state s') /\
  last_of (ledger_of (out s')) = last_idx (state s') /\
  (forall i, i <= commit_idx (state s) -> entry_at (ledger_of (out s')) i = entry_at (ledger_of (out s)) i).
Proof.
  intros Hr Hs. pose proof (node_steps_good s s' (reachable_inv s Hr) Hs) as [(He & _ & Hc & _) (Hm & _ & Hent)]. cbn in *. done.
Qed.
End safety.

(** ** A replica that is leader twice *)

Definition first_leader : Node unit := default (fresh_node "A") (node_run three_env leader_events (fresh_node "A")).
Definition second_leader : Node unit := default (fresh_node "A") (node_run three_env second_events first_leader).
Lemma first_leader_reachable : reachable three_env first_leader.
Proof. apply (node_run_reachable three_env leader_events "A" tt false Active ONE_TRANSACTION); [repeat constructor | vm_compute; reflexivity]. Qed.
Lemma second_leader_steps : rtc (node_step three_env) first_leader second_leader.
Proof. apply (node_run_steps three_env second_events); [repeat constructor | vm_compute; reflexivity]. Qed.
Lemma second_leader_reachable : reachable three_env second_leader.
Proof. destruct first_leader_reachable as (s0 & H0 & H). exists s0. split; [done|]. etrans; [exact H|apply second_leader_steps]. Qed.

Lemma raft_committed_stays_witness : commit_idx (state first_leader) = 1 /\ last_idx (state second_leader) = 4 /\
  entry_at (ledger_of (out second_leader)) 1 = entry_at (ledger_of (out first_leader)) 1.
Proof.
  split; [reflexivity|]. split; [reflexivity|].
  destruct (raft_committed_stays three_env first_leader second_leader first_leader_reachable second_leader_steps) as (_ & _ & H). apply H. vm_compute. discriminate.
Defined.
End RaftSafety.
