(* ===== verification/RaftLeader.v ===== *)
(** * What a leader assumes, sends and commits

    The view history of Raft.v as the function from indices to views that it
    stands for; the search for an index that can still match another log; the
    ranges of entries that are sent; the indices that are committed. *)
From S2P Require Import Prelude Monad Serialized Raft RaftNet RaftSafety.
From stdpp Require Import list gmap strings sorting.
Local Open Scope Z_scope.

Module RaftLeader.
Import Raft RaftNet RaftSafety.

(** ** View history *)

Section views.
Context (vs : list Z) (sorted : StronglySorted Z.le vs).

Lemma upper_bound_le idx : (ViewHistory.upper_bound vs idx <= length vs)%nat.
Proof using Type. clear sorted. induction vs as [|v l IH]; cbn; [lia|]. destruct (idx <? v); lia. Qed.
Lemma upper_bound_after idx v : vs !! ViewHistory.upper_bound vs idx = Some v -> idx < v.
Proof using Type.
  clear sorted. induction vs as [|w l IH]; cbn; [done|]. destruct (Z.ltb_spec idx w); cbn; [intros [=<-]; lia | apply IH].
Qed.
Lemma sorted_lookup j k v w : (j <= k)%nat -> vs !! j = Some v -> vs !! k = Some w -> v <= w.
Proof using sorted.
  revert j k. induction sorted as [|a l Hl IH Ha]; [done|]. intros [|j] [|k] Hjk Hj Hk; cbn in *; try lia.
  - simplify_eq. lia.
  - simplify_eq. rewrite Forall_forall in Ha. apply list_elem_of_lookup_2 in Hk. by apply Ha.
  - apply (IH Hl j k); [lia|done..].
Qed.

(** View [v] starts at entry [v - 1] and ends before entry [v]. *)
Lemma view_at_spec idx v : 0 <= v <= zlen vs ->
  (v = 0 \/ exists a, vs !! Z.to_nat (v - 1) = Some a /\ a <= idx) -> (v = zlen vs \/ exists b, vs !! Z.to_nat v = Some b /\ idx < b) ->
  ViewHistory.view_at vs idx = v.
Proof using sorted.
  intros Hv Hlo Hhi. unfold ViewHistory.view_at. pose proof (upper_bound_le idx) as Hub. set (u := ViewHistory.upper_bound vs idx) in *.
  destruct (Z.lt_trichotomy (Z.of_nat u) v) as [Hlt|[?|Hgt]]; [|done|].
  - destruct Hlo as [->|(a & Ha & Hai)]; [lia|]. destruct (lookup_lt_is_Some_2 vs u ltac:(lia)) as [b Hb].
    pose proof (upper_bound_after idx b Hb). pose proof (sorted_lookup u (Z.to_nat (v - 1)) b a ltac:(lia) Hb Ha). lia.
  - destruct Hhi as [->|(b & Hb & Hib)]; [lia|]. pose proof (upper_bound_before vs idx (Z.to_nat v) b ltac:(lia) Hb). lia.
Qed.
Lemma view_at_start idx : 0 < ViewHistory.view_at vs idx -> exists a, vs !! Z.to_nat (ViewHistory.view_at vs idx - 1) = Some a /\ a <= idx.
Proof using Type.
  unfold ViewHistory.view_at. intros H. destruct (lookup_lt_is_Some_2 vs (Z.to_nat (Z.of_nat (ViewHistory.upper_bound vs idx) - 1))) as [a Ha].
  { pose proof (upper_bound_le idx). lia. }
  exists a. split; [done|]. eapply upper_bound_before; [|exact Ha]. lia.
Qed.
Lemma view_at_end idx b : vs !! Z.to_nat (ViewHistory.view_at vs idx) = Some b -> idx < b.
Proof using Type. unfold ViewHistory.view_at. rewrite Nat2Z.id. apply upper_bound_after. Qed.
Lemma view_at_bounds idx : 0 <= ViewHistory.view_at vs idx <= zlen vs.
Proof using Type. unfold ViewHistory.view_at. pose proof (upper_bound_le idx). lia. Qed.
Lemma view_at_mono i j : i <= j -> ViewHistory.view_at vs i <= ViewHistory.view_at vs j.
Proof using Type.
  clear sorted. intros Hij. unfold ViewHistory.view_at. apply Nat2Z.inj_le. induction vs as [|v l IH]; cbn; [done|].
  destruct (Z.ltb_spec i v), (Z.ltb_spec j v); lia.
Qed.
Lemma znth_view k a : 0 <= k -> vs !! Z.to_nat k = Some a -> znth k vs = a.
Proof using Type. intros Hk H. unfold znth. destruct (Z.ltb_spec k 0); [lia|]. by rewrite (nth_lookup_Some _ _ _ _ H). Qed.

(** The start of the view of an index. *)
Lemma start_of_view_at idx a : vs !! Z.to_nat (ViewHistory.view_at vs idx - 1) = Some a -> 0 < ViewHistory.view_at vs idx -> a <= idx ->
  ViewHistory.start_of_view vs (ViewHistory.view_at vs idx) = a.
Proof using Type.
  intros Ha Hp Hle. pose proof (view_at_bounds idx). set (v := ViewHistory.view_at vs idx) in *. unfold ViewHistory.start_of_view, ViewHistory.InvalidView.
  destruct (Z.ltb_spec (zlen vs) v), (Z.eqb_spec v 0); cbn; try lia. rewrite (znth_view (v - 1) a) by (done || lia).
  destruct (Z.leb_spec (v + 1) (zlen vs)); [|done]. destruct (lookup_lt_is_Some_2 vs (Z.to_nat v) ltac:(lia)) as [b Hb].
  rewrite (znth_view v b) by (done || lia). pose proof (view_at_end idx b Hb). destruct (Z.eqb_spec b a); [lia|done].
Qed.
End views.

(** ** The highest index that can match *)

Section matching.
Context (vs : list Z) (sorted : StronglySorted Z.le vs) (positive : Forall (fun v => 0 < v) vs) (view : Z) (view_ok : 0 <= view).

Lemma find_match_step p : 0 <= p -> view < ViewHistory.view_at vs p ->
  exists p', ViewHistory.start_of_view vs (ViewHistory.view_at vs p) = p' + 1 /\ 0 <= p' < p /\
    ViewHistory.view_at vs p' < ViewHistory.view_at vs p /\ forall q, p' < q <= p -> view < ViewHistory.view_at vs q.
Proof using sorted positive view_ok.
  intros Hp Hv. destruct (view_at_start vs p ltac:(lia)) as (a & Ha & Hle).
  assert (0 < a) by (rewrite Forall_forall in positive; eapply positive, list_elem_of_lookup_2, Ha).
  pose proof (view_at_bounds vs p) as Hb. exists (a - 1). rewrite (start_of_view_at vs p a) by (done || lia).
  split_and!; [lia..| |].
  - destruct (Z.ltb_spec (ViewHistory.view_at vs (a - 1)) (ViewHistory.view_at vs p)) as [|Hge]; [done|exfalso].
    assert (Z.to_nat (ViewHistory.view_at vs p - 1) < ViewHistory.upper_bound vs (a - 1))%nat as Hk by (unfold ViewHistory.view_at in *; lia).
    pose proof (upper_bound_before vs (a - 1) _ a Hk Ha). lia.
  - intros q Hq. destruct (Z.eqb_spec (ViewHistory.view_at vs q) (ViewHistory.view_at vs p)); [lia|].
    assert (ViewHistory.view_at vs q = ViewHistory.view_at vs p); [|done]. apply view_at_spec; [done|done|right; exists a; split; [done|lia]|].
    destruct (Z.eqb_spec (ViewHistory.view_at vs p) (zlen vs)); [by left|right].
    destruct (lookup_lt_is_Some_2 vs (Z.to_nat (ViewHistory.view_at vs p)) ltac:(lia)) as [b Hb']. exists b. split; [done|]. pose proof (view_at_end vs p b Hb'). lia.
Qed.

Lemma find_match_loop_spec fuel p : 0 <= p -> ViewHistory.view_at vs p < Z.of_nat fuel ->
  let m := find_match_loop fuel vs view p (ViewHistory.view_at vs p) in
  0 <= m <= p /\ ViewHistory.view_at vs m <= view /\ forall q, m < q <= p -> view < ViewHistory.view_at vs q.
Proof using sorted positive view_ok.
  revert p. induction fuel as [|fuel IH]; intros p Hp Hf; [pose proof (view_at_bounds vs p); lia|]. cbn [find_match_loop].
  destruct (Z.ltb_spec view (ViewHistory.view_at vs p)) as [Hlt|]; [|cbn; split_and!; [lia..|]; intros q Hq; lia].
  destruct (find_match_step p Hp Hlt) as (p' & Hs & Hp' & Hdec & Hq). rewrite Hs. destruct (Z.ltb_spec 0 (p' + 1)); [|lia].
  replace (p' + 1 - 1) with p' by lia. destruct (IH p' ltac:(lia) ltac:(lia)) as (Hm & Hv & Hall). cbn zeta. split_and!; [lia..|done|].
  intros q Hq'. destruct (Z.leb_spec q p'); [apply Hall; lia | apply Hq; lia].
Qed.
End matching.

(** C16. The search for the highest index that can still match does what its
    comment says: given view T and index n it returns the largest index up to n,
    and up to the end of the log, whose entry has a view of at most T.  It
    terminates, since every turn goes to an earlier view. *)
Theorem highest_possible_match {S W} {aft_store : AftStore S W Hook} (E : Env) (s : Node S) view seqno : reachable E s -> 0 <= view -> 0 <= seqno ->
  let term_of := ViewHistory.view_at (view_history (state s)) in
  let n := find_highest_possible_match s view seqno in
  0 <= n <= Z.min seqno (last_idx (state s)) /\ term_of n <= view /\
  (forall n', n < n' <= Z.min seqno (last_idx (state s)) -> view < term_of n').
Proof.
  intros (_ & Hb & Hl & _ & _ & Hs & Hp & _)%reachable_inv Hv Hn. apply find_match_loop_spec; [done| |done|cbn in *; lia|].
  - eapply Forall_impl; [exact Hp|]. cbn. lia.
  - pose proof (view_at_bounds (view_history (state s)) (Z.min seqno (last_idx (state s)))). lia.
Qed.

(** ** Commit *)

Section commits.
Context {S W : Type} {aft_store : AftStore S W Hook} (E : Env).
Implicit Types (s : Node S).

(** What the leader takes a node to hold. *)
Definition confirmed_idx s (id : NodeId) : Z :=
  if bool_decide (id = my_id s) then last_idx (state s)
  else match all_other_nodes (members s) !! id with Some n => match_idx n | None => 0 end.

Lemma matches_ok s ids l : matches s ids = Ok l -> l = confirmed_idx s <$> ids.
Proof.
  revert l. induction ids as [|id ids IH]; intros l H; cbn [matches] in H; [by injection H as <-|].
  apply bind_ok in H as (i & Hi & H). apply bind_ok in H as (l' & Hl & [=<-]). rewrite (IH l' Hl). cbn. f_equal.
  unfold confirmed_idx. destruct (bool_decide _); [by injection Hi|]. destruct (all_other_nodes (members s) !! id); [by injection Hi | done].
Qed.

Lemma sorted_count k i l : StronglySorted Z.le l -> l !! k = Some i -> (length l - k <= length (List.filter (Z.leb i) l))%nat.
Proof.
  intros Hs Hk. rewrite <- (take_drop k l) at 2. rewrite List.filter_app, length_app.
  assert (List.filter (Z.leb i) (drop k l) = drop k l) as ->; [|rewrite length_drop; lia].
  rewrite (drop_S _ _ _ Hk) in *. rewrite <- (take_drop k l), (drop_S _ _ _ Hk) in Hs. apply StronglySorted_app_1_r in Hs. inversion Hs as [|? ? _ Hf]; subst.
  cbn. rewrite Z.leb_refl. f_equal. clear Hs Hk. induction Hf as [|j m Hj _ IH]; [done|]. cbn. destruct (Z.leb_spec i j); [by f_equal | lia].
Qed.
Lemma filter_map_length {A} (f : A -> Z) g l : length (List.filter g (f <$> l)) = length (List.filter (fun a => g (f a)) l).
Proof. induction l as [|a l IH]; [done|]. cbn. destruct (g (f a)); cbn; by rewrite IH. Qed.
#[local] Instance filter_perm_length g : Proper ((≡ₚ) ==> (=)) (fun l : list Z => length (List.filter g l)).
Proof. intros l l' H. induction H as [|x l l' H IH|x y l|l l1 l2 H1 IH1 H2 IH2]; cbn; [done| | |congruence]; repeat destruct (g _); cbn; congruence. Qed.

Lemma confirmed_quorum s c i : zsize (cfg_nodes c) < M64 -> confirmed s c = Ok i -> get_quorum (zsize (cfg_nodes c)) <= count (fun id => i <=? confirmed_idx s id) (cfg_nodes c).
Proof.
  intros Hlt H. unfold confirmed in H. apply bind_ok in H as (l & Hl & H). pose proof (matches_ok _ _ _ Hl) as ->.
  set (ids := (map_to_list (cfg_nodes c)).*1) in *. set (l := confirmed_idx s <$> ids) in *.
  assert (length l = length ids) as Hlen by (unfold l; by rewrite length_fmap).
  assert (Z.of_nat (length ids) = zsize (cfg_nodes c)) as Hn by (unfold ids, zsize; rewrite length_fmap; f_equal; apply (length_map_to_list (M := gmap string))).
  destruct (_ !! _) as [j|] eqn:Hj; [|done]. injection H as <-. pose proof (lookup_lt_Some _ _ _ Hj) as Hk.
  pose proof (merge_sort_Permutation Z.le l) as Hp. apply sorted_count in Hj; [|apply StronglySorted_merge_sort; apply _].
  rewrite (Permutation_length Hp) in Hj, Hk. rewrite (filter_perm_length (Z.leb j) _ _ Hp) in Hj.
  unfold l in Hj at 3. rewrite filter_map_length in Hj. unfold count, get_quorum. fold ids.
  rewrite Hlen in Hj, Hk. rewrite wrap64_small in Hj by (unfold u64; lia).
  pose proof (Z.div_mod (Z.of_nat (length ids) - 1) 2 ltac:(lia)). pose proof (Z.mod_pos_bound (Z.of_nat (length ids) - 1) 2 ltac:(lia)).
  pose proof (Z.div_mod (Z.of_nat (length ids)) 2 ltac:(lia)). pose proof (Z.mod_pos_bound (Z.of_nat (length ids)) 2 ltac:(lia)). rewrite <- Hn. lia.
Qed.

Lemma count_mono f g nodes : (forall id, f id = true -> g id = true) -> count f nodes <= count g nodes.
Proof.
  intros H. unfold count. apply Nat2Z.inj_le. induction (map_to_list nodes).*1 as [|id l IH]; [done|]. cbn. destruct (f id) eqn:Hf; [rewrite (H _ Hf); cbn; lia|].
  destruct (g id); cbn; lia.
Qed.

(** The watermark is held by a quorum of every configuration. *)
Lemma watermark_le s confs acc i : watermark s confs acc = Ok i -> i <= acc.
Proof.
  revert acc. induction confs as [|c confs IH]; intros acc H; cbn [watermark] in H; [injection H; lia|].
  apply bind_ok in H as (j & Hj & H). specialize (IH _ H). destruct (Z.ltb_spec j acc); lia.
Qed.
Lemma watermark_quorum s confs acc i c : watermark s confs acc = Ok i -> c ∈ confs -> zsize (cfg_nodes c) < M64 ->
  get_quorum (zsize (cfg_nodes c)) <= count (fun id => i <=? confirmed_idx s id) (cfg_nodes c).
Proof.
  revert acc. induction confs as [|d confs IH]; intros acc H Hc Hlt; [by apply not_elem_of_nil in Hc|]. cbn [watermark] in H. apply bind_ok in H as (j & Hj & H).
  apply elem_of_cons in Hc as [->|Hc]; [|by eapply IH]. pose proof (confirmed_quorum s d j Hlt Hj). apply watermark_le in H.
  assert (i <= j) by (destruct (Z.ltb_spec j acc); lia).
  assert (count (fun id => j <=? confirmed_idx s id) (cfg_nodes d) <= count (fun id => i <=? confirmed_idx s id) (cfg_nodes d)) by (apply count_mono; intros id; rewrite !Z.leb_le; lia).
  lia.
Qed.

Lemma update_commit_quorum s : inv s -> last_idx (state s) < M64 - 1 ->
  let s' := (update_commit E s).1 in
  commit_idx (state s') <> commit_idx (state s) ->
  commit_idx (state s') ∈ committable_indices s /\
  Forall (fun c => zsize (cfg_nodes c) < M64 -> get_quorum (zsize (cfg_nodes c)) <= count (fun id => commit_idx (state s') <=? confirmed_idx s id) (cfg_nodes c))
    (configurations (members s)).
Proof.
  intros Hs Hl. unfold update_commit. rewrite self_bind, mbind_run. unfold lift. destruct (watermark s _ _) as [new|e|] eqn:Hw; [|done..].
  set (s1 := if negb (new =? M64 - 1) then on_state (set_cft_watermark_idx new) s else s).
  match goal with |- context [(?m ≫= ?k) s] => replace ((m ≫= k) s) with (k tt s1) by (unfold s1; by destruct (negb _)) end.
  rewrite self_bind. assert (committable_indices s1 = committable_indices s /\ commit_idx (state s1) = commit_idx (state s) /\ last_idx (state s1) = last_idx (state s)) as (Hcm & Hci & Hli)
    by (unfold s1; by destruct (negb _)).
  destruct (_ <? _) eqn:Hlt; [cbn; by rewrite Hci|]. cbn zeta. pose proof (commit_if_possible_sets E (get_commit_watermark_idx s1) s1) as Hset. cbn zeta in Hset.
  set (s' := (commit_if_possible E _ s1).1) in *. intros Hne. destruct Hset as [?|[Hle Hin]]; [congruence|]. rewrite Hcm in Hin. split; [done|].
  assert (commit_idx (state s') <= new) as Hnew.
  { unfold s1, get_commit_watermark_idx in Hle. destruct (Z.eqb_spec new (M64 - 1)) as [->|]; cbn in Hle; [|done].
    destruct Hs as (_ & _ & _ & _ & H5 & _). rewrite Forall_forall in H5. specialize (H5 _ Hin). lia. }
  apply Forall_forall. intros c Hc Hsz. pose proof (watermark_quorum s _ _ new c Hw Hc Hsz) as Hq.
  assert (count (fun id => new <=? confirmed_idx s id) (cfg_nodes c) <= count (fun id => commit_idx (state s') <=? confirmed_idx s id) (cfg_nodes c)).
  { apply count_mono. intros id. rewrite !Z.leb_le. lia. }
  lia.
Qed.
(** Operations that leave the commit index. *)
Definition steady {A} (m : M (Node S) A) : Prop := forall s, commit_idx (state (m s).1) = commit_idx (state s).
Lemma quiet_steady {A} (m : M (Node S) A) : quiet m -> steady m.
Proof. intros H s. specialize (H s). unfold core in H. congruence. Qed.
Lemma steady_bind {A B} (m : M (Node S) A) (k : A -> M (Node S) B) : steady m -> (forall a, steady (k a)) -> steady (m ≫= k).
Proof.
  intros Hm Hk s. specialize (Hm s). rewrite mbind_run. destruct (m s) as [s' [a|e|]]; [|done|done]. cbn in Hm. by rewrite Hk.
Qed.
Lemma rollback_steady idx : steady (rollback E idx).
Proof.
  unfold rollback. apply steady_bind; [done|]. intros s. destruct (_ <? _); [done|].
  apply steady_bind; [apply quiet_steady, quiet_on_store|]. intros _. do 4 (apply steady_bind; [done|]; intros ?).
  apply quiet_steady. apply quiet_node_bind; [apply rollback_membership_quiet|]. intros _.
  do 2 (apply quiet_node_bind; [done|]; intros ?). apply quiet_node_bind; [by destruct (reconfiguration_type _)|]. intros _.
  destruct (_ <? _)%nat; [apply create_and_remove_quiet | done].
Qed.
Lemma become_aware_steady term : steady (become_aware_of_new_term E term).
Proof.
  unfold become_aware_of_new_term, become_follower. do 3 (apply steady_bind; [done|]; intros ?). apply steady_bind; [|done].
  apply steady_bind; [done|]. intros _. apply steady_bind; [apply quiet_steady, restart_election_timeout_quiet|]. intros _.
  do 3 (apply steady_bind; [done|]; intros ?). apply steady_bind; [apply rollback_steady|]. intros _. apply steady_bind; [done|]. intros s. by destruct (_ && _).
Qed.

(** What a node counts with after the confirmation of [i] by [from]. *)
Definition counted_idx s (from : NodeId) (i : Z) (id : NodeId) : Z :=
  if bool_decide (id = my_id s) then last_idx (state s)
  else if bool_decide (id = from) then i
  else match all_other_nodes (members s) !! id with Some n => match_idx n | None => 0 end.

(** C17. A leader moves its commit index on the answer of a follower only if the
    answer is a success of its current view, and then a majority of each active
    configuration counts for the new index, which is one of the committable
    ones.  The leader counts with its last index, the follower that answers with
    the index it confirms, cut to the leader's log, and every other node with
    its match index: that is not always an index that the node has confirmed,
    since rejections also set it, to an estimate.  (The other call of
    [update_commit] is that of a leader without other nodes.) *)
Theorem commit_has_quorum s from r : reachable E s -> last_idx (state s) < M64 - 1 ->
  let s' := (recv_append_entries_response E from r s).1 in
  commit_idx (state s') <> commit_idx (state s) ->
  is_primary s = true /\ aer_success r = OK /\ aer_term r = current_view (state s) /\
  is_Some (all_other_nodes (members s) !! from) /\ commit_idx (state s') ∈ committable_indices s /\
  Forall (fun c => zsize (cfg_nodes c) < M64 ->
      get_quorum (zsize (cfg_nodes c)) <=
        count (fun id => commit_idx (state s') <=? counted_idx s from (Z.min (aer_last_log_idx r) (last_idx (state s))) id) (cfg_nodes c))
    (configurations (members s)).
Proof.
  intros Hs%reachable_inv Hl. unfold recv_append_entries_response. rewrite self_bind. destruct (is_primary s) eqn:Hp; [|done]. cbn [negb].
  destruct (all_other_nodes (members s) !! from) as [node|] eqn:Hn; [|done]. cbn zeta. unfold set_node, mb. rewrite modify_bind. set (s1 := on_members _ s).
  destruct (_ <? _); [by rewrite become_aware_steady|]. destruct (Z.eqb_spec (current_view (state s)) (aer_term r)) as [Ht|Ht]; cbn [negb andb].
  2: { by destruct (bool_decide (aer_success r = OK)). }
  destruct (bool_decide_reflect (aer_success r = OK)) as [Hok|]; [|by rewrite andb_false_r]. rewrite Hok, andb_true_r. destruct (_ <? _); [done|].
  rewrite modify_bind. set (s2 := on_members _ s1).
  assert (inv s2) as Hs2 by exact Hs. intros Hne. destruct (update_commit_quorum s2 Hs2 Hl Hne) as [Hin Hq].
  split_and!; [done | done | done | done | exact Hin|]. eapply Forall_impl; [exact Hq|]. intros c Hc Hsz. specialize (Hc Hsz).
  assert (forall id, confirmed_idx s2 id = counted_idx s from (Z.min (aer_last_log_idx r) (last_idx (state s))) id) as Heq.
  { intros id. unfold confirmed_idx, counted_idx. change (my_id s2) with (my_id s). case_bool_decide; [done|]. cbn [members on_members s2 s1 set_all_other_nodes all_other_nodes].
    case_bool_decide as Hf; [subst id; by rewrite !lookup_alter_eq, Hn|]. by rewrite !lookup_alter_ne. }
  unfold count in *. etrans; [exact Hc|]. apply count_mono. intros id. by rewrite Heq.
Qed.
End commits.

(** ** Ranges of entries *)

(** Consecutive ranges up to the end of the log; only the last one can be empty. *)
Inductive covers (lst : Z) : Z -> list (Z * Z) -> Prop :=
  | covers_last a : a <= lst + 1 -> covers lst a [(a, lst)]
  | covers_more a b l : a <= b < lst -> covers lst (b + 1) l -> covers lst a ((a, b) :: l).

Section ranges.
Context {S W : Type} {aft_store : AftStore S W Hook} (E : Env) (open_channels : forall n to, can_send E n to = true).
Implicit Types (s : Node S).

Definition ae_of s (a b : Z) : AppendEntries :=
  mkAE b (a - 1) (current_view (state s)) (get_term_internal s (a - 1)) (commit_idx (state s)) (get_term_internal s b)
    ((a - 1 <? new_view_idx (state s)) && (new_view_idx (state s) <=? b)).

(** At most the batch size and one more, of one view. *)
Definition range_ok s (r : Z * Z) : Prop :=
  r.2 - r.1 <= entries_batch_size (batch s) /\
  forall i, r.1 <= i <= r.2 -> ViewHistory.view_at (view_history (state s)) i = ViewHistory.view_at (view_history (state s)) r.2.

Lemma calculate_end_ok s a : inv s -> last_idx (state s) < 2 ^ 62 -> 1 <= a <= last_idx (state s) + 1 -> 0 < ViewHistory.view_at (view_history (state s)) a ->
  let b := calculate_end_index s a in b <= last_idx (state s) /\ (a <= b \/ a = last_idx (state s) + 1 /\ b = last_idx (state s)) /\ range_ok s (a, b).
Proof using Type.
  intros (_ & _ & _ & _ & _ & Hs & Hp & Hb) Hl Ha Hv. set (vs := view_history (state s)) in *. unfold calculate_end_index. fold vs.
  rewrite wrap64_small by (unfold u64; rewrite M64_val; lia). pose proof (view_at_bounds vs a) as Hvb.
  destruct (view_at_start vs a Hv) as (a0 & Ha0 & Hle). assert (1 <= a0) by (rewrite Forall_forall in Hp; by apply (Hp a0 (list_elem_of_lookup_2 _ _ _ Ha0))).
  unfold ViewHistory.end_of_view. rewrite (start_of_view_at vs a a0) by done. unfold ViewHistory.NoVersion, ViewHistory.InvalidView.
  destruct (Z.eqb_spec a0 0); [lia|]. destruct (Z.eqb_spec (ViewHistory.view_at vs a) 0); [lia|]. rewrite orb_false_r.
  assert (forall b, (ViewHistory.view_at vs a = zlen vs \/ exists c, vs !! Z.to_nat (ViewHistory.view_at vs a) = Some c /\ b < c) ->
    b - a <= entries_batch_size (batch s) -> range_ok s (a, b)) as Hrange.
  { intros b Hc Hba. split; [exact Hba|]. cbn. fold vs. intros i Hi.
    assert (forall j, a <= j <= b -> ViewHistory.view_at vs j = ViewHistory.view_at vs a) as Heq; [|rewrite (Heq i), (Heq b) by lia; done].
    intros j Hj. apply view_at_spec; [done|lia|right; exists a0; split; [done|lia]|]. destruct Hc as [Hc|(c & Hc & Hlt)]; [by left|right; exists c; split; [done|lia]]. }
  destruct (Z.leb_spec (zlen vs) (ViewHistory.view_at vs a)).
  - cbn. split_and!; [lia| |apply Hrange; [left; lia|lia]]. destruct (Z.eqb_spec a (last_idx (state s) + 1)); [right; lia | left; lia].
  - destruct (lookup_lt_is_Some_2 vs (Z.to_nat (ViewHistory.view_at vs a)) ltac:(lia)) as [c Hc]. pose proof (view_at_end vs a c Hc).
    assert (c <= last_idx (state s) + 1) by (rewrite Forall_forall in Hp; apply (Hp c (list_elem_of_lookup_2 _ _ _ Hc))).
    rewrite (znth_view vs _ c) by (done || lia). rewrite wrap64_small by (unfold u64; rewrite M64_val; lia). destruct (Z.eqb_spec (c - 1) 0); [lia|].
    split_and!; [lia|left; lia|]. apply Hrange; [right; exists c; split; [done|lia]|lia].
Qed.

(** What the range does to the parts that the next turn looks at. *)
Definition same_log s s' : Prop :=
  state s' = state s /\ batch s' = batch s /\ membership_state (members s') = membership_state (members s) /\
  retirement_phase (members s') = retirement_phase (members s).
(** The ranges that a leader keeps to itself when its retirement is past Signed. *)
Definition silent s (r : Z * Z) : bool := is_retired s && phase_above Signed s && (r.2 <=? r.1).
Definition sent s to (l : list (Z * Z)) : list Output :=
  (fun r => Send to (MsgAppendEntries (ae_of s r.1 r.2))) <$> List.filter (fun r => negb (silent s r)) l.

Lemma send_range_run to a b s : known to s -> 1 <= a -> a < 2 ^ 63 ->
  exists s', send_append_entries_range E to a b s = (s', Ok tt) /\ same_log s s' /\ known to s' /\ out s' = out s ++ sent s to [(a, b)].
Proof using open_channels.
  intros Hk Ha Hlt. unfold send_append_entries_range. rewrite self_bind. unfold sent. cbn [List.filter]. change (is_retired s && phase_above Signed s && (b <=? a)) with (silent s (a, b)).
  destruct (silent s (a, b)); cbn [negb]; [exists s; by rewrite app_nil_r|]. rewrite wrap64_small by (unfold u64; rewrite M64_val; lia).
  destruct (Hk) as [n Hn]. rewrite Hn. unfold send_authenticated, emit. rewrite !mbind_run. cbn [gets]. rewrite !modify_bind, open_channels, !modify_bind.
  eexists. split; [reflexivity|]. split_and!; try done. unfold known. cbn. rewrite lookup_alter_eq, Hn. by eexists.
Qed.

(** The messages depend on what a range leaves alone. *)
Lemma sent_same s s1 to l : same_log s s1 -> sent s1 to l = sent s to l.
Proof using Type.
  intros (Hst & _ & Hms & Hrp). assert (silent s1 = silent s) as Hsi by (unfold silent, is_retired, is_membership, phase_above; by rewrite Hms, Hrp).
  unfold sent. rewrite Hsi. apply list_fmap_ext. intros _ r _. unfold ae_of, get_term_internal. by rewrite Hst.
Qed.

Lemma send_loop_covers fuel to a s : inv s -> last_idx (state s) < 2 ^ 62 -> known to s ->
  1 <= a <= last_idx (state s) + 1 -> 0 < ViewHistory.view_at (view_history (state s)) a -> last_idx (state s) + 1 - a < Z.of_nat fuel ->
  exists l s', send_append_entries_loop E fuel to a s = (s', Ok tt) /\ covers (last_idx (state s)) a l /\
    out s' = out s ++ sent s to l /\ Forall (range_ok s) l.
Proof using open_channels.
  revert a s. induction fuel as [|fuel IH]; intros a s Hs Hl Hk Ha Hv Hf; [lia|]. cbn [send_append_entries_loop]. rewrite mbind_run. cbn [gets].
  destruct (calculate_end_ok s a Hs Hl Ha Hv) as (Hle & Hab & Hok). set (b := calculate_end_index s a) in *.
  destruct (send_range_run to a b s Hk ltac:(lia) ltac:(lia)) as (s1 & Hr1 & Hsame & Hk1 & Ho1). rewrite mbind_run, Hr1, mbind_run. cbn [gets].
  pose proof Hsame as (Hst & Hbt & _). rewrite Hst. destruct (Z.eqb_spec b (last_idx (state s))) as [Hb|Hb].
  - exists [(a, b)], s1. split_and!; [done| |by rewrite Ho1|by apply Forall_singleton]. rewrite Hb. constructor. lia.
  - assert (Z.min (wrap64 (b + 1)) (last_idx (state s)) = b + 1) as -> by (rewrite wrap64_succ by lia; lia).
    destruct (IH (b + 1) s1) as (l & s' & Hr' & Hcov & Ho' & Hall); rewrite ?Hst; try done; try lia.
    + unfold inv. replace (core s1) with (core s); [exact Hs|]. pose proof (send_append_entries_range_quiet E to a b s) as Hq. by rewrite Hr1 in Hq.
    + pose proof (view_at_mono (view_history (state s)) a (b + 1)). lia.
    + exists ((a, b) :: l), s'. assert (range_ok s1 = range_ok s) as Hro by (unfold range_ok; by rewrite Hst, Hbt).
      rewrite Hst in Hcov. split_and!; [done|constructor; [lia|done]| |constructor; [done|by rewrite <- Hro]].
      rewrite Ho', Ho1, <- app_assoc, (sent_same s s1 to l Hsame). unfold sent. rewrite <- fmap_app. cbn [List.filter].
      by destruct (negb (silent s (a, b))).
Qed.

End ranges.

(** ** Witnesses *)

Lemma highest_possible_match_witness : view_history (state second_leader) = [1; 4; 4] /\
  let n := find_highest_possible_match second_leader 2 4 in n = 3 /\ 0 <= n <= 4 /\ ViewHistory.view_at [1; 4; 4] n <= 2.
Proof.
  split; [reflexivity|]. intros n. split; [reflexivity|].
  destruct (highest_possible_match three_env second_leader 2 4 second_leader_reachable ltac:(lia) ltac:(lia)) as (H1 & H2 & _). split; [exact H1|exact H2].
Defined.

(** A second confirmation. *)
Definition ex_response : AppendEntriesResponse := mkAER (current_view (state first_leader)) 2 OK.

Lemma commit_has_quorum_witness : commit_idx (state first_leader) = 1 /\
  commit_idx (state (recv_append_entries_response three_env "C" ex_response first_leader).1) = 2 /\
  Forall (fun c => zsize (cfg_nodes c) < M64 -> get_quorum (zsize (cfg_nodes c)) <= count (fun id => 2 <=? counted_idx first_leader "C" 2 id) (cfg_nodes c)) (configurations (members first_leader)).
Proof.
  split; [vm_compute; reflexivity|]. split; [vm_compute; reflexivity|].
  destruct (commit_has_quorum three_env first_leader "C" ex_response first_leader_reachable) as (_ & _ & _ & _ & _ & H); [vm_compute; reflexivity | vm_compute; discriminate |].
  assert (commit_idx (state (recv_append_entries_response three_env "C" ex_response first_leader).1) = 2) as Hc by (vm_compute; reflexivity). rewrite Hc in H.
  assert (Z.min (aer_last_log_idx ex_response) (last_idx (state first_leader)) = 2) as Hm by (vm_compute; reflexivity). rewrite Hm in H. exact H.
Defined.

End RaftLeader.
