(* ===== verification/RaftElection.v ===== *)
(** * Elections

    A network of replicas with one configuration, in which messages are lost,
    repeated and reordered at will.  In a view at most one replica becomes leader.

    [ninv] is what a replica keeps about its votes: the votes it has granted are
    those that it remembers, and a candidate counts votes that were granted to it.
    A candidate that hears of a leader of its own view forgets that it has voted
    for itself and can vote again ([become_aware_of_new_term]); [loyal] says that
    the leader of a view never does. *)
From S2P Require Import Prelude Monad Serialized Raft RaftNet RaftSafety.
From stdpp Require Import list gmap strings sorting.
Local Open Scope Z_scope.

Module RaftElection.
Import Raft RaftNet RaftSafety.

Definition grant_of (o : Output) : option (NodeId * Z) :=
  match o with Send to (MsgRequestVoteResponse r) => if rvr_vote_granted r then Some (to, rvr_term r) else None | _ => None end.
(** The votes that a node has granted, with their views. *)
Definition grants (os : list Output) : list (NodeId * Z) := omap grant_of os.

(** ** One replica *)

Section node.
Context {S W : Type} {aft_store : AftStore S W Hook} (E : Env) (X : NodeId) (C : Configuration).
Context (no_hooks : forall w : W, w_hooks w = []).
Context (rollback_returns : forall tx v (st : S), match st_rollback tx v st with (_, Throw _) => False | _ => True end).
Implicit Types (s : Node S).

Definition fixed s : Prop :=
  my_id s = X /\ configurations (members s) = [C] /\ membership_state (members s) = Active /\ cfg_idx C <= commit_idx (state s).
Definition ev s := (current_view (state s), voted_for (election s), leadership_state (election s), votes_for_me (election s), grants (out s)).

(** *** Operations that do not matter to elections *)

Definition keeps {A} (m : M (Node S) A) : Prop :=
  forall s, fixed s -> fixed (m s).1 /\ ev (m s).1 = ev s /\ out s `prefix_of` out (m s).1.

Lemma keeps_id {A} s (r : result A) : fixed s -> fixed (s, r).1 /\ ev (s, r).1 = ev s /\ out s `prefix_of` out (s, r).1.
Proof. done. Qed.
Lemma keeps_ret {A} (a : A) : keeps (mret a).
Proof. intros s Hs. by apply (keeps_id s (Ok a)). Qed.
Lemma keeps_throw {A} e : keeps (throw e : M (Node S) A).
Proof. intros s Hs. by apply (keeps_id s (Throw e)). Qed.
Lemma keeps_undef {A} : keeps (undef : M (Node S) A).
Proof. intros s Hs. by apply (keeps_id s Undef). Qed.
Lemma keeps_lift {A} (r : result A) : keeps (lift r).
Proof. intros s Hs. by apply (keeps_id s r). Qed.
Lemma keeps_gets {A} (f : Node S -> A) : keeps (gets f).
Proof. intros s Hs. by apply (keeps_id s (Ok (f s))). Qed.
Lemma keeps_trans s1 s2 s3 : fixed s2 /\ ev s2 = ev s1 /\ out s1 `prefix_of` out s2 -> fixed s3 /\ ev s3 = ev s2 /\ out s2 `prefix_of` out s3 ->
  fixed s3 /\ ev s3 = ev s1 /\ out s1 `prefix_of` out s3.
Proof. intros (_ & H1 & H2) (H3 & H4 & H5). split_and!; [done | congruence | by etrans]. Qed.
Lemma keeps_mbind {A B} (m : M (Node S) A) (k : A -> M (Node S) B) : keeps m -> (forall a, keeps (k a)) -> keeps (m ≫= k).
Proof.
  intros Hm Hk s Hs. specialize (Hm s Hs). rewrite mbind_run. destruct (m s) as [s1 [a|e|]]; [|done|done].
  eapply keeps_trans; [exact Hm | apply Hk, Hm].
Qed.
Lemma keeps_self {A} (k : Node S -> M (Node S) A) : (forall s, fixed s -> fixed (k s s).1 /\ ev (k s s).1 = ev s /\ out s `prefix_of` out (k s s).1) -> keeps (self ≫= k).
Proof. intros H s Hs. rewrite self_bind. by apply H. Qed.
Lemma keeps_modify f : (forall s, fixed s -> fixed (f s) /\ ev (f s) = ev s /\ out (f s) = out s) -> keeps (modify f).
Proof. intros H s Hs. destruct (H s Hs) as (H1 & H2 & H3). split_and!; [done|done|]. cbn. by rewrite H3. Qed.
Lemma keeps_emit o : grant_of o = None -> keeps (emit o).
Proof.
  intros Ho s Hs. split_and!; [done| |by apply prefix_app_r]. unfold ev, grants. cbn. rewrite omap_app. cbn. by rewrite Ho, app_nil_r.
Qed.
Lemma keeps_on_store {A} (m : M S A) : keeps (on_store m).
Proof. intros s Hs. unfold on_store, zoom. by destruct (m (store s)). Qed.
Lemma keeps_for_each {A} (f : A -> M (Node S) unit) l : (forall a, keeps (f a)) -> keeps (for_each f l).
Proof. intros H. induction l as [|a l IH]; [apply keeps_ret|]. by apply keeps_mbind. Qed.

Create HintDb keeps.
Ltac keeps_step :=
  match goal with
  | |- forall _, _ => intros ?
  | |- keeps (_ ≫= _) => apply keeps_mbind; [|intros ?]
  | |- keeps (mret _) => apply keeps_ret
  | |- keeps (throw _) => apply keeps_throw
  | |- keeps undef => apply keeps_undef
  | |- keeps (lift _) => apply keeps_lift
  | |- keeps (gets _) => apply keeps_gets
  | |- keeps self => apply keeps_gets
  | |- keeps (on_store _) => apply keeps_on_store
  | |- keeps (emit _) => apply keeps_emit; reflexivity
  | |- keeps (for_each _ _) => apply keeps_for_each
  | |- keeps (if ?b then _ else _) => destruct b
  | |- keeps (match ?x with _ => _ end) => destruct x
  | |- keeps (modify _) => apply keeps_modify; solve [intros ?; done]
  | |- keeps (st _) => apply keeps_modify; solve [intros ?; done]
  | |- keeps (el _) => apply keeps_modify; solve [intros ?; done]
  | |- keeps (mb _) => apply keeps_modify; solve [intros ?; done]
  | |- keeps _ => solve [eauto with keeps nocore]
  end.
Ltac keeps := repeat keeps_step.
(** The same in a state that is known. *)
Ltac keeps_at := match goal with |- fixed (?m ?s).1 /\ _ => let Hm := fresh in assert (keeps m) as Hm; [keeps | by apply Hm] end.

Lemma send_keeps to m : grant_of (Send to m) = None -> keeps (send_authenticated E to m).
Proof. intros Hm. unfold send_authenticated. keeps. by apply keeps_emit. Qed.
Lemma send_range_keeps to i j : keeps (send_append_entries_range E to i j).
Proof. unfold send_append_entries_range. keeps. by apply send_keeps. Qed.
Hint Resolve send_range_keeps : keeps.
Lemma send_append_entries_keeps to i : keeps (send_append_entries E to i).
Proof.
  unfold send_append_entries. apply keeps_mbind; [apply keeps_gets|]. intros l. generalize (Z.to_nat l + 2)%nat. intros n. revert i.
  induction n as [|n IH]; intros i; cbn [send_append_entries_loop]; keeps.
Qed.
Hint Resolve send_append_entries_keeps : keeps.
Lemma create_and_remove_keeps : keeps (create_and_remove_node_state E).
Proof. unfold create_and_remove_node_state, add_node. keeps. Qed.
Hint Resolve create_and_remove_keeps : keeps.
Lemma clear_orc_sets_keeps : keeps clear_orc_sets.
Proof. unfold clear_orc_sets. keeps. Qed.
Lemma reset_last_ack_timeouts_keeps : keeps reset_last_ack_timeouts.
Proof. unfold reset_last_ack_timeouts. keeps. Qed.
Lemma restart_election_timeout_keeps : keeps (restart_election_timeout E).
Proof. unfold restart_election_timeout. keeps. Qed.
Lemma start_ticking_keeps : keeps start_ticking.
Proof. unfold start_ticking. keeps. Qed.
Hint Resolve clear_orc_sets_keeps reset_last_ack_timeouts_keeps restart_election_timeout_keeps start_ticking_keeps : keeps.
Lemma start_ticking_if_keeps : keeps start_ticking_if_necessary.
Proof. unfold start_ticking_if_necessary. keeps. Qed.
Lemma update_batch_size_keeps : keeps (update_batch_size (S := S)).
Proof. unfold update_batch_size. keeps. Qed.
Lemma update_view_history_keeps i v : keeps (update_view_history i v).
Proof. unfold update_view_history. keeps. Qed.
Lemma send_to_all_keeps : keeps (send_to_all E).
Proof. unfold send_to_all. keeps. Qed.
Lemma send_response_keeps to a r : keeps (send_append_entries_response E to a r).
Proof. unfold send_append_entries_response. keeps; by apply send_keeps. Qed.
Lemma set_node_keeps id f : keeps (set_node id f).
Proof. unfold set_node. keeps. Qed.
Hint Resolve start_ticking_if_keeps update_batch_size_keeps update_view_history_keeps send_to_all_keeps send_response_keeps set_node_keeps : keeps.

(** With one configuration, and no retirement, commits and rollbacks do not
    change the membership. *)
Lemma commit_configurations_keeps n idx b : keeps (commit_configurations n idx b).
Proof.
  intros s Hs. destruct n as [|n]; cbn [commit_configurations]; [by apply keeps_ret|]. rewrite mbind_run. cbn [gets].
  destruct (Hs) as (_ & Hc & _). rewrite Hc. by apply keeps_ret.
Qed.
Hint Resolve commit_configurations_keeps : keeps.
Lemma active_not m s : m <> Active -> fixed s -> is_membership m s = false.
Proof. intros Hm (_ & _ & Ha & _). unfold is_membership. apply bool_decide_eq_false. congruence. Qed.
Lemma commit_keeps idx : keeps (commit E idx).
Proof.
  unfold commit. apply keeps_self. intros s Hs. destruct (_ <? _); [by apply keeps_throw|]. destruct (Z.leb_spec idx (commit_idx (state s))); [by apply keeps_ret|].
  unfold is_retired. rewrite (active_not Retired s) by done. cbn [andb]. unfold st. rewrite modify_bind. set (s1 := on_state _ s).
  assert (fixed s1) as Hs1 by (destruct Hs as (H1 & H2 & H3 & H4); split_and!; [done..|cbn; lia]).
  eapply (keeps_trans _ s1); [by split_and!|]. clearbody s1. keeps_at.
Qed.
Hint Resolve commit_keeps : keeps.
Lemma commit_if_possible_keeps idx : keeps (commit_if_possible E idx).
Proof. unfold commit_if_possible. keeps. Qed.
Hint Resolve commit_if_possible_keeps : keeps.
Lemma update_commit_keeps : keeps (update_commit E).
Proof. unfold update_commit. keeps. Qed.

Lemma rollback_run idx s : fixed s ->
  match rollback E idx s with (_, Throw _) => False | (s', _) => fixed s' /\ ev s' = ev s /\ out s `prefix_of` out s' end.
Proof.
  intros Hs. unfold rollback. rewrite self_bind. destruct (Z.ltb_spec idx (commit_idx (state s))) as [|Hge]; [done|].
  rewrite mbind_run. unfold on_store, zoom. pose proof (rollback_returns (get_term_internal s idx, idx) (current_view (state s)) (store s)) as Hret.
  destruct (st_rollback _ _ (store s)) as [st' [[]|e|]]; [|done|done]. unfold emit, st. rewrite !modify_bind. set (s1 := on_committable_indices _ _).
  assert (fixed s1) as Hs1 by exact Hs. assert (ev s1 = ev s) as He1 by (unfold ev, grants; cbn; rewrite omap_app; cbn; by rewrite app_nil_r).
  assert (out s `prefix_of` out s1) as Hp1 by (by apply prefix_app_r). clearbody s1.
  assert (rollback_membership idx s1 = (s1, Ok tt)) as Hm.
  { unfold rollback_membership, is_retired. rewrite self_bind, (active_not Retired s1) by done. rewrite mbind_run. cbn [andb]. change ((mret tt : M (Node S) unit) s1) with (s1, Ok tt).
    cbn iota beta. rewrite self_bind, (active_not Retired s1) by done. done. }
  rewrite mbind_run, Hm, mbind_run. cbn [gets]. destruct (Hs1) as (H1 & H2 & H3 & H4). destruct (Hs) as (_ & _ & _ & H0). rewrite H2. cbn [drop_end].
  destruct (Z.ltb_spec idx (cfg_idx C)); [lia|]. unfold mb. rewrite modify_bind, mbind_run. cbn [length Nat.ltb Nat.leb].
  destruct (reconfiguration_type (members s1)); split_and!; done.
Qed.
Lemma rollback_keeps idx : keeps (rollback E idx).
Proof.
  intros s Hs. pose proof (rollback_run idx s Hs) as H. by destruct (rollback E idx s) as [s' [a|e|]].
Qed.
Hint Resolve update_commit_keeps rollback_keeps : keeps.

Lemma finish_keeps r from : keeps (execute_append_entries_finish E r from).
Proof. unfold execute_append_entries_finish. keeps. Qed.
Lemma deserialise_keeps n r from i d acc : keeps (deserialise_entries E n r from i d acc).
Proof. revert i d acc. induction n as [|n IH]; intros i d acc; cbn [deserialise_entries]; keeps. Qed.
Hint Resolve finish_keeps deserialise_keeps : keeps.
Lemma signature_keeps r w i : keeps (deserialised_signature E r w i).
Proof.
  unfold deserialised_signature. apply keeps_self. intros s Hs. unfold is_retired. rewrite (active_not Retired s) by done. cbn [andb]. keeps_at.
Qed.
Hint Resolve signature_keeps : keeps.
Lemma execute_entry_keeps r from w i : keeps (execute_entry E r from w i).
Proof.
  unfold execute_entry. apply keeps_mbind; [keeps|]. intros [w' res]. rewrite no_hooks. cbn [for_each]. keeps.
Qed.
Hint Resolve execute_entry_keeps : keeps.
Lemma execute_sync_keeps es from r : keeps (execute_append_entries_sync E es from r).
Proof. induction es as [|[w i] es IH]; cbn [execute_append_entries_sync]; keeps. Qed.
Hint Resolve execute_sync_keeps : keeps.
Lemma accept_keeps from r d : keeps (accept_append_entries E from r d).
Proof. unfold accept_append_entries, follow_rollback. keeps. Qed.
Lemma replicate_keeps es t : Forall (fun e => be_hooks e = []) es -> keeps (replicate E es t).
Proof.
  intros Hes. assert (keeps (replicate_entries E es)) as Hk; [|unfold replicate; keeps].
  induction Hes as [|e es He _ IH]; cbn [replicate_entries]; [keeps|]. assert (keeps (replicate_entry E e)) as Hke; [|keeps].
  unfold replicate_entry. rewrite He. cbn [for_each]. apply keeps_mbind; [keeps|intros _]. apply keeps_mbind; [|keeps].
  destruct (be_committable e); [|keeps]. apply keeps_self. intros s Hs. unfold is_retired. rewrite (active_not Retired s) by done. cbn [andb]. keeps_at.
Qed.
Hint Resolve accept_keeps : keeps.

(** *** Operations that do *)

Abbreviation Ev := (Z * option NodeId * option LeadershipState * gmap Z Votes * list (NodeId * Z))%type (only parsing).

(** A handler ends, with or without an exception, in a state whose election
    part is related by [P] to that of the start. *)
Definition turned {A} s (r : Node S * result A) (P : Ev -> Ev -> Prop) : Prop :=
  match r with (_, Undef) => True | (s', _) => fixed s' /\ out s `prefix_of` out s' /\ P (ev s) (ev s') end.
Definition turns {A} (m : M (Node S) A) (P : Ev -> Ev -> Prop) : Prop := forall s, fixed s -> turned s (m s) P.

Lemma turned_keeps {A} s (m : M (Node S) A) (P : Ev -> Ev -> Prop) : fixed s -> keeps m -> P (ev s) (ev s) -> turned s (m s) P.
Proof.
  intros Hs Hm HP. specialize (Hm s Hs) as (H1 & H2 & H3). unfold turned. destruct (m s) as [s' [a|e|]]; cbn in *; [..|done]; rewrite H2; done.
Qed.

Lemma keeps_turns {A} (m : M (Node S) A) : keeps m -> turns m eq.
Proof. intros H s Hs. by apply turned_keeps. Qed.
Lemma turns_impl {A} (m : M (Node S) A) P Q : turns m P -> (forall e e', P e e' -> Q e e') -> turns m Q.
Proof. intros H HPQ s Hs. specialize (H s Hs). unfold turned in *. destruct (m s) as [s' [a|e|]]; [..|done]; destruct H as (H1 & H2 & H3); split_and!; auto. Qed.
(** A prefix that keeps everything, in a state that is known. *)
Lemma turns_keeps_bind {A B} (m : M (Node S) A) (k : A -> M (Node S) B) P : keeps m -> (forall a, turns (k a) P) -> (forall e, P e e) -> turns (m ≫= k) P.
Proof.
  intros Hm Hk Hr s Hs. specialize (Hm s Hs) as (H1 & H2 & H3). unfold turned. rewrite mbind_run. destruct (m s) as [s1 [a|e|]]; cbn in *; [|split_and!; [done..|rewrite H2; apply Hr]|done].
  specialize (Hk a s1 H1). unfold turned in Hk. destruct (k a s1) as [s2 [b|e|]]; [..|done]; destruct Hk as (H4 & H5 & H6); rewrite H2 in H6; split_and!; [done|by etrans|done..|by etrans|done].
Qed.
Lemma turns_nothrow_bind {A B} (m : M (Node S) A) (k : A -> M (Node S) B) P : keeps m -> nothrow m -> (forall a, turns (k a) P) -> turns (m ≫= k) P.
Proof.
  intros Hm Hn Hk s Hs. specialize (Hm s Hs) as (H1 & H2 & H3). specialize (Hn s). unfold turned. rewrite mbind_run. destruct (m s) as [s1 [a|e|]]; cbn in *; [|done|done].
  specialize (Hk a s1 H1). unfold turned in Hk. destruct (k a s1) as [s2 [b|e|]]; [..|done]; destruct Hk as (H4 & H5 & H6); rewrite H2 in H6; split_and!; [done|by etrans|done..|by etrans|done].
Qed.
Lemma turns_bind_keeps {A B} (m : M (Node S) A) (k : A -> M (Node S) B) P : turns m P -> (forall a, keeps (k a)) -> turns (m ≫= k) P.
Proof.
  intros Hm Hk s Hs. specialize (Hm s Hs). unfold turned in *. rewrite mbind_run. destruct (m s) as [s1 [a|e|]]; [|done|done]. destruct Hm as (H1 & H2 & H3).
  destruct (Hk a s1 H1) as (H4 & H5 & H6). destruct (k a s1) as [s2 [b|e|]]; cbn in *; [..|done]; rewrite H5; split_and!; [done|by etrans|done..|by etrans|done].
Qed.

Definition to_leader (e : Ev) : Ev := let '(v, vf, _, vm, g) := e in (v, vf, Some Leader, vm, g).

Lemma become_leader_turns : turns (become_leader E) (fun e e' => e' = e \/ e' = to_leader e).
Proof.
  unfold become_leader. intros s Hs. rewrite self_bind. unfold is_retired. rewrite (active_not Retired s) by done. 
  match goal with |- turned s (?m s) _ => assert (turns m (fun e e' => e' = e \/ e' = to_leader e)) as Hm; [|by apply Hm] end.
  do 3 (apply turns_keeps_bind; [keeps|intros _|by left]). clear Hs. intros s1 Hs1. unfold turned, el. rewrite modify_bind.
  match goal with |- match ?m ?s2 with _ => _ end => assert (keeps m) as Hm; [keeps|]; assert (fixed s2) as Hs2 by exact Hs1; specialize (Hm s2 Hs2) as (H1 & H2 & H3); destruct (m s2) as [s3 [a|e|]] end; [..|done].
  all: cbn in H2, H3; split_and!; [done|done|right; rewrite H2; done].
Qed.

Definition count_vote (from : NodeId) (vm : gmap Z Votes) : gmap Z Votes := if has_node (cfg_nodes C) from then insert_vote from (cfg_idx C) vm else vm.
Definition elected (vm : gmap Z Votes) : bool := forallb (fun '(_, v) => quorum v <=? Z.of_nat (size (votes v))) (map_to_list vm).
Definition with_votes (vm : gmap Z Votes) (e : Ev) : Ev := let '(v, vf, l, _, g) := e in (v, vf, l, vm, g).
Definition votes_of (e : Ev) : gmap Z Votes := let '(_, _, _, vm, _) := e in vm.

Lemma add_vote_turns from : turns (add_vote_for_me E from)
  (fun e e' => let vm := count_vote from (votes_of e) in e' = with_votes vm e \/ (elected vm = true /\ e' = to_leader (with_votes vm e))).
Proof.
  intros s Hs. unfold turned, add_vote_for_me. rewrite mbind_run. cbn [gets]. destruct (Hs) as (_ & Hc & _). rewrite Hc. cbn [foldl]. unfold el. rewrite modify_bind.
  set (s1 := on_election _ s). assert (fixed s1) as Hs1 by exact Hs. assert (ev s1 = with_votes (count_vote from (votes_of (ev s))) (ev s)) as He1 by done.
  assert (out s1 = out s) as Ho1 by done. rewrite self_bind. change (is_elected s1) with (elected (votes_of (ev s1))). rewrite <- He1, <- Ho1. cbn zeta.
  replace (count_vote from (votes_of (ev s))) with (votes_of (ev s1)) by done. clearbody s1.
  destruct (elected (votes_of (ev s1))) eqn:Hel; [|split_and!; [done|done|by left]].
  pose proof (become_leader_turns s1 Hs1) as H. unfold turned in H. destruct (become_leader E s1) as [s2 [a|e|]]; [..|done]; destruct H as (H1 & H2 & [H3|H3]); split_and!; auto.
Qed.

Definition no_votes : gmap Z Votes := {[cfg_idx C := mkVotes ∅ (get_quorum (zsize (cfg_nodes C)))]}.
Definition candidate_of (e : Ev) : Ev := let '(v, _, _, _, g) := e in (wrap64 (v + 1), Some X, Some Candidate, count_vote X no_votes, g).
Definition follower_at (t : Z) (e : Ev) : Ev := let '(_, _, _, _, g) := e in (t, None, Some Follower, no_votes, g).
Definition to_follower (e : Ev) : Ev := let '(v, vf, _, vm, g) := e in (v, vf, Some Follower, vm, g).
Definition with_grant (from : NodeId) (e : Ev) : Ev := let '(v, _, l, vm, g) := e in (v, Some from, l, vm, g ++ [(from, v)]).
Definition with_vote (from : NodeId) (e : Ev) : Ev := let '(v, _, l, vm, g) := e in (v, Some from, l, vm, g).

Lemma reset_votes_run s : fixed s -> exists s', reset_votes_for_me s = (s', Ok tt) /\ fixed s' /\ ev s' = with_votes no_votes (ev s) /\ out s' = out s.
Proof.
  intros Hs. unfold reset_votes_for_me. rewrite mbind_run. cbn [gets]. destruct (Hs) as (_ & Hc & _). rewrite Hc. by eexists.
Qed.

Lemma become_candidate_turns : turns (become_candidate E)
  (fun e e' => e' = candidate_of e \/ (elected (votes_of (candidate_of e)) = true /\ e' = to_leader (candidate_of e))).
Proof.
  intros s Hs. unfold turned, become_candidate. rewrite mbind_run. cbn [gets]. destruct (Hs) as (Hid & _). rewrite Hid.
  unfold el, clear_orc_sets, mb. rewrite !modify_bind, mbind_run.
  match goal with |- context [reset_votes_for_me ?s0] => destruct (reset_votes_run s0 Hs) as (s1 & -> & Hs1 & He1 & Ho1) end.
  unfold st. rewrite modify_bind. set (s2 := on_state _ s1). assert (fixed s2) as Hs2 by exact Hs1.
  assert (ev s2 = let '(v, _, _, _, g) := ev s in (wrap64 (v + 1), Some X, Some Candidate, no_votes, g)) as He2.
  { unfold ev in *. cbn -[grants] in He1 |- *. injection He1 as -> -> -> -> ->. done. }
  assert (out s2 = out s) as Ho2 by exact Ho1. clearbody s2. clear He1 Ho1 Hs1 s1. rewrite <- Ho2. set (e := ev s) in *. clearbody e.
  match goal with |- match ?m s2 with _ => _ end => assert (turns m (fun e2 e' => let vm := count_vote X (votes_of e2) in e' = with_votes vm e2 \/ (elected vm = true /\ e' = to_leader (with_votes vm e2)))) as Hm end.
  { do 2 (apply turns_nothrow_bind; [keeps|done|intros _]). apply turns_bind_keeps; [apply add_vote_turns|]. keeps. unfold send_request_vote. keeps. by apply send_keeps. }
  specialize (Hm s2 Hs2). unfold turned in Hm. rewrite He2 in Hm. destruct e as [[[[v vf] l] vm] g]. exact Hm.
Qed.

Lemma become_follower_turns : turns (become_follower E) (fun e e' => e' = to_follower e).
Proof.
  unfold become_follower. do 4 (apply turns_nothrow_bind; [keeps|done|intros _]). intros s Hs. unfold turned. rewrite self_bind, mbind_run.
  pose proof (rollback_run (last_committable_index s) s Hs) as H. destruct (rollback E _ s) as [s1 [[]|e|]]; [|done|done]. destruct H as (H1 & H2 & H3).
  rewrite self_bind. unfold can_endorse_primary, is_retired, is_learner, is_retiring. rewrite !active_not by done. cbn [negb andb]. unfold el, modify.
  split_and!; [done|done|]. rewrite <- H2. done.
Qed.
Lemma become_aware_turns t : turns (become_aware_of_new_term E t) (fun e e' => e' = follower_at t e).
Proof.
  intros s Hs. unfold turned, become_aware_of_new_term, st, el. rewrite !modify_bind, mbind_run.
  match goal with |- context [reset_votes_for_me ?s0] => destruct (reset_votes_run s0 Hs) as (s1 & -> & Hs1 & He1 & Ho1) end.
  assert (turns (_ ← become_follower E; modify (on_election (set_is_new_follower true))) (fun e e' => e' = to_follower e)) as Hm.
  { apply turns_bind_keeps; [apply become_follower_turns|]. keeps. }
  specialize (Hm s1 Hs1). unfold turned in Hm. rewrite He1, Ho1 in Hm. exact Hm.
Qed.

(** Whether a vote is granted; the channel may refuse the answer. *)
Lemma restart_run s : restart_election_timeout E s = (on_election (set_timeout_elapsed (distrib E (draws s))) (set_draws (1 + draws s)%nat s), Ok tt).
Proof. done. Qed.
Lemma send_run to m s : send_authenticated E to m s =
  ((if can_send E (draws s) to then set_out (out s ++ [Send to m]) (set_draws (1 + draws s)%nat s) else set_draws (1 + draws s)%nat s), Ok (can_send E (draws s) to)).
Proof. unfold send_authenticated. rewrite mbind_run. cbn [gets]. rewrite modify_bind. by destruct (can_send E (draws s) to). Qed.
Lemma refuse_keeps to : keeps (send_request_vote_response E to false).
Proof. unfold send_request_vote_response. keeps. by apply send_keeps. Qed.
Hint Resolve refuse_keeps : keeps.
Lemma decide_vote_turns from r : turns (decide_vote E from r)
  (fun e e' => e' = e \/ ((let '(_, vf, _, _, _) := e in vf = None \/ vf = Some from) /\ (e' = with_grant from e \/ e' = with_vote from e))).
Proof.
  intros s Hs. unfold decide_vote. rewrite self_bind. destruct (bool_decide _); [apply turned_keeps; [done|keeps|by left]|].
  destruct (match voted_for _ with Some _ => _ | None => _ end) eqn:Hvf; [apply turned_keeps; [done|keeps|by left]|].
  destruct (_ || _); [|apply turned_keeps; [done|keeps|by left]].
  assert (voted_for (election s) = None \/ voted_for (election s) = Some from) as Hv.
  { destruct (voted_for (election s)) as [v|]; [|by left]. right. f_equal. destruct (decide (v = from)) as [|Hne]; [done|]. by rewrite bool_decide_eq_false_2 in Hvf. }
  unfold turned. rewrite mbind_run, mbind_run, restart_run. unfold el, modify. cbn iota beta. set (s1 := on_election (fun e => set_voted_for (Some from) (set_leader_id None e)) _). assert (fixed s1) as Hs1 by exact Hs.
  assert (ev s1 = with_vote from (ev s)) as He1 by done. assert (out s1 = out s) as Ho1 by done. clearbody s1. rewrite <- Ho1.
  unfold send_request_vote_response. rewrite mbind_run. cbn [gets]. rewrite mbind_run, send_run. destruct (can_send E _ _).
  - cbn iota beta. unfold mret, M_ret. split_and!; [done|by apply prefix_app_r|]. right. split; [exact Hv|]. left.
    unfold ev, grants in *. cbn in He1 |- *. rewrite omap_app. injection He1 as -> -> -> -> ->. done.
  - cbn iota beta. unfold mret, M_ret. split_and!; [done|done|]. right. split; [exact Hv|]. right. done.
Qed.

(** *** The invariant *)

Section votes.
(** The nodes that have granted their vote to [X] in a view. *)
Context (G : NodeId -> Z -> Prop).

Definition backed (v : Z) (V : gset NodeId) : Prop := forall u, u ∈ V -> is_Some (cfg_nodes C !! u) /\ (u = X \/ G u v).
Definition conf_quorum : Z := get_quorum (zsize (cfg_nodes C)).

Definition eninv (e : Ev) : Prop := let '(v, vf, l, vm, g) := e in
  (forall Y t, (Y, t) ∈ g -> Y <> X -> t <= v /\ (t = v -> vf = Some Y)) /\
  (forall Y Y' t, (Y, t) ∈ g -> (Y', t) ∈ g -> Y <> X -> Y' <> X -> Y = Y') /\
  (l = Some Candidate -> vf = Some X /\ exists V, vm = {[cfg_idx C := mkVotes V conf_quorum]} /\ backed v V) /\
  (l = Some Leader -> vf = Some X /\ exists V, backed v V /\ conf_quorum <= Z.of_nat (size V)).

(** A replica that leads or has led in view [t] does not vote for another in it. *)
Definition loyal (t : Z) (e : Ev) : Prop := let '(v, vf, l, vm, g) := e in
  (forall Y, Y <> X -> (Y, t) ∉ g) /\ (t < v \/ t = v /\ vf = Some X /\ l <> Some Candidate).

Definition lawful (e e' : Ev) : Prop := eninv e -> eninv e' /\ forall t, loyal t e -> loyal t e'.

Lemma lawful_refl e : lawful e e.
Proof. done. Qed.
Lemma lawful_trans e1 e2 e3 : lawful e1 e2 -> lawful e2 e3 -> lawful e1 e3.
Proof. intros H1 H2 H. destruct (H1 H) as [Ha Hb]. destruct (H2 Ha). split; eauto. Qed.

Lemma follower_at_lawful t e : (let '(v, _, l, _, _) := e in v < t \/ v = t /\ l = Some Candidate) -> lawful e (follower_at t e).
Proof.
  destruct e as [[[[v vf] l] vm] g]. intros Ht (H1 & H2 & H3 & H4). split.
  - cbn. split_and!; [|done|done|done]. intros Y t' Hin Hne. destruct (H1 Y t' Hin Hne) as [Hle Heq]. split; [lia|]. intros ->.
    destruct Ht as [?|[-> Hl]]; [lia|]. destruct (H3 Hl) as [Hvf _]. rewrite (Heq eq_refl) in Hvf. congruence.
  - intros t0 [Hg Ht0]. split; [done|]. destruct Ht as [?|[-> Hl]]; [left; lia|]. destruct Ht0 as [?|(_ & _ & Hl')]; [left; lia|done].
Qed.
Lemma to_follower_lawful e : lawful e (to_follower e).
Proof.
  destruct e as [[[[v vf] l] vm] g]. intros (H1 & H2 & H3 & H4). split; [cbn; split_and!; done|].
  intros t [Hg Ht]. split; [done|]. destruct Ht as [?|(? & ? & _)]; [by left|right; by split_and!].
Qed.
Lemma with_vote_lawful from (e : Ev) g' : (let '(v, vf, l, vm, g) := e in (vf = None \/ vf = Some from) /\ (g' = g \/ g' = g ++ [(from, v)])) ->
  lawful e (let '(v, _, l, vm, _) := e in (v, Some from, l, vm, g')).
Proof.
  destruct e as [[[[v vf] l] vm] g]. intros [Hvf Hg'] (H1 & H2 & H3 & H4).
  assert (forall Y t, (Y, t) ∈ g' -> (Y, t) ∈ g \/ Y = from /\ t = v) as Hin.
  { intros Y t. destruct Hg' as [->| ->]; [by left|]. rewrite elem_of_app, list_elem_of_singleton. intros [?|[=]]; auto. }
  assert (forall Y, (Y, v) ∈ g -> Y <> X -> Y = from) as Hat.
  { intros Y HY Hne. destruct (H1 Y v HY Hne) as [_ Heq]. specialize (Heq eq_refl). destruct Hvf; congruence. }
  assert (forall x : NodeId, vf = Some x -> from = x) as Hvf' by (intros x ->; destruct Hvf; congruence).
  split.
  - cbn. split_and!.
    + intros Y t HY Hne. destruct (Hin Y t HY) as [HYg|[-> ->]]; [|split; [lia|done]]. destruct (H1 Y t HYg Hne) as [Hle _]. split; [done|]. intros ->. f_equal. by rewrite (Hat Y).
    + intros Y Y' t HY HY' Hne Hne'. destruct (Hin Y t HY) as [HYg|[-> Ht]], (Hin Y' t HY') as [HYg'|[-> Ht']]; try done; [by eapply H2|..].
      * by subst t; apply Hat.
      * subst t. symmetry. by apply Hat.
    + intros Hl. destruct (H3 Hl) as [Hx HV]. split; [|done]. by rewrite (Hvf' X Hx).
    + intros Hl. destruct (H4 Hl) as [Hx HV]. split; [|done]. by rewrite (Hvf' X Hx).
  - intros t [Hg Ht]. split.
    + intros Y Hne HY. destruct (Hin Y t HY) as [HYg|[-> ->]]; [by eapply Hg|]. destruct Ht as [?|(_ & Hx & _)]; [lia|]. by rewrite (Hvf' X Hx) in Hne.
    + destruct Ht as [?|(Ht & Hx & Hl)]; [by left|right]. split_and!; [done| |done]. by rewrite (Hvf' X Hx).
Qed.

Lemma count_vote_singleton from V : count_vote from {[cfg_idx C := mkVotes V conf_quorum]} =
  {[cfg_idx C := mkVotes (if has_node (cfg_nodes C) from then {[from]} ∪ V else V) conf_quorum]}.
Proof.
  unfold count_vote. destruct (has_node _ _); [|done]. unfold insert_vote. rewrite lookup_singleton_eq. cbn. by rewrite insert_singleton_eq.
Qed.
Lemma elected_singleton V : elected {[cfg_idx C := mkVotes V conf_quorum]} = true -> conf_quorum <= Z.of_nat (size V).
Proof. unfold elected. rewrite map_to_list_singleton. cbn. rewrite andb_true_r, Z.leb_le. done. Qed.
Lemma backed_vote from v V : backed v V -> (from = X \/ G from v) -> backed v (if has_node (cfg_nodes C) from then {[from]} ∪ V else V).
Proof.
  intros HV Hf u. unfold has_node. case_bool_decide as Hn; [|apply HV]. rewrite elem_of_union, elem_of_singleton. intros [->|Hu]; [by split | by apply HV].
Qed.

(** Counting a vote for a candidate. *)
Lemma candidate_vote_lawful from e e' : (let '(v, _, l, _, _) := e in l = Some Candidate /\ (from = X \/ G from v)) ->
  (let vm := count_vote from (votes_of e) in e' = with_votes vm e \/ (elected vm = true /\ e' = to_leader (with_votes vm e))) -> lawful e e'.
Proof.
  destruct e as [[[[v vf] l] vm] g]. intros [Hl Hf] He (H1 & H2 & H3 & H4). destruct (H3 Hl) as [Hx (V & -> & HV)]. cbn [votes_of] in He. rewrite count_vote_singleton in He.
  pose proof (backed_vote from v V HV Hf) as HV'. set (V' := if has_node _ _ then _ else _) in *. clearbody V'. cbn zeta in He.
  destruct He as [->|[Hel ->]]; cbn.
  - split; [|done]. split_and!; [done|done| |by rewrite Hl]. intros _. split; [done|]. by exists V'.
  - split; [split_and!; [done|done|done|]|].
    + intros _. split; [done|]. exists V'. split; [done|]. by apply elected_singleton.
    + intros t [Hg Ht]. split; [done|]. destruct Ht as [?|(_ & _ & Hne)]; [by left|done].
Qed.
Lemma candidate_of_lawful e e' : (let '(v, _, _, _, _) := e in 0 <= v < M64 - 1) ->
  (e' = candidate_of e \/ (elected (votes_of (candidate_of e)) = true /\ e' = to_leader (candidate_of e))) -> lawful e e'.
Proof.
  destruct e as [[[[v vf] l] vm] g]. intros Hv He. set (e0 := (wrap64 (v + 1), Some X, Some Candidate, no_votes, g) : Ev).
  apply (lawful_trans _ e0); [|apply (candidate_vote_lawful X); [by split; [|left] | exact He]].
  unfold e0. rewrite wrap64_small by (unfold u64; lia). intros (H1 & H2 & H3 & H4). split.
  - cbn. split_and!; [|done| |done].
    + intros Y t HY Hne. destruct (H1 Y t HY Hne). split; lia.
    + intros _. split; [done|]. exists ∅. split; [done|]. intros u Hu. by apply elem_of_empty in Hu.
  - intros t [Hg Ht]. split; [done|]. left. lia.
Qed.

(** *** The handlers *)

Lemma turned_impl {A} s (r : Node S * result A) P Q : turned s r P -> (forall e', P (ev s) e' -> Q (ev s) e') -> turned s r Q.
Proof. intros H HPQ. unfold turned in *. destruct r as [s' [a|e|]]; [..|done]; destruct H as (H1 & H2 & H3); split_and!; auto. Qed.
Lemma turned_bind {A B} s (m : M (Node S) A) (k : A -> M (Node S) B) : turned s (m s) lawful -> (forall a, turns (k a) lawful) -> turned s ((m ≫= k) s) lawful.
Proof.
  intros Hm Hk. unfold turned in *. rewrite mbind_run. destruct (m s) as [s1 [a|e|]]; [|done|done]. destruct Hm as (H1 & H2 & H3). specialize (Hk a s1 H1).
  unfold turned in Hk. destruct (k a s1) as [s2 [b|e|]]; [..|done]; destruct Hk as (H4 & H5 & H6); split_and!; [done|by etrans|by eapply lawful_trans|done|by etrans|by eapply lawful_trans].
Qed.
Lemma keeps_lawful {A} (m : M (Node S) A) : keeps m -> turns m lawful.
Proof. intros Hm s Hs. apply turned_keeps; [done|done|apply lawful_refl]. Qed.

Lemma aware_turned t s : fixed s -> (current_view (state s) < t \/ current_view (state s) = t /\ is_candidate s = true) -> turned s (become_aware_of_new_term E t s) lawful.
Proof.
  intros Hs Ht. eapply turned_impl; [by apply become_aware_turns|]. cbn beta. intros e' ->. apply follower_at_lawful. cbn. destruct Ht as [?|[? Hc]]; [by left|right]. split; [done|].
  unfold is_candidate, is_leadership in Hc. by apply bool_decide_eq_true in Hc.
Qed.

Lemma recv_append_entries_turns from r d : turns (recv_append_entries E from r d) lawful.
Proof.
  intros s Hs. unfold recv_append_entries. rewrite self_bind.
  destruct (Z.eqb_spec (current_view (state s)) (ae_term r)) as [Heq|], (is_candidate s) eqn:Hc; cbn [andb];
    [apply turned_bind; [apply aware_turned; auto | intros a; apply keeps_lawful; keeps]|..].
  all: destruct (Z.ltb_spec (current_view (state s)) (ae_term r)); [apply turned_bind; [apply aware_turned; auto | intros a; apply keeps_lawful; keeps]|].
  all: apply turned_keeps; [done|keeps|apply lawful_refl].
Qed.
Lemma recv_append_entries_response_turns from r : turns (recv_append_entries_response E from r) lawful.
Proof.
  intros s Hs. unfold recv_append_entries_response. rewrite self_bind. destruct (negb _); [apply turned_keeps; [done|keeps|apply lawful_refl]|].
  destruct (_ !! _) as [node|]; [|apply turned_keeps; [done|keeps|apply lawful_refl]]. cbv zeta. rewrite mbind_run. unfold set_node at 1, mb at 1, modify at 1. cbn iota beta. set (s1 := on_members _ s).
  assert (fixed s1) as Hs1 by exact Hs. assert (turned s1 = @turned unit s) as <- by done.
  destruct (Z.ltb_spec (current_view (state s)) (aer_term r)); [apply (aware_turned _ s1); [done|by left]|]. clearbody s1.
  match goal with |- turned s1 (?m s1) _ => assert (keeps m) as Hm; [keeps | apply turned_keeps; [done|exact Hm|apply lawful_refl]] end.
Qed.
Lemma recv_request_vote_turns from r : turns (recv_request_vote E from r) lawful.
Proof.
  intros s Hs. unfold recv_request_vote. rewrite mbind_run. cbn [gets]. destruct (_ <? _); [apply turned_keeps; [done|keeps|apply lawful_refl]|].
  apply turned_bind.
  - destruct (Z.ltb_spec (current_view (state s)) (rv_term r)); [apply aware_turned; auto | apply turned_keeps; [done|keeps|apply lawful_refl]].
  - intros _ s1 Hs1. eapply turned_impl; [by apply decide_vote_turns|]. cbn beta. intros e' [->|[Hvf He]]; [apply lawful_refl|].
    destruct (ev s1) as [[[[v vf] l] vm] g]. destruct He as [->| ->]; apply (with_vote_lawful from (v, vf, l, vm, g)); auto.
Qed.
Lemma recv_request_vote_response_turned from r s : fixed s -> (rvr_vote_granted r = true -> G from (rvr_term r)) ->
  turned s (recv_request_vote_response E from r s) lawful.
Proof.
  intros Hs HG. unfold recv_request_vote_response. rewrite self_bind. destruct (is_candidate s) eqn:Hc; cbn [negb]; [|apply turned_keeps; [done|keeps|apply lawful_refl]].
  destruct (bool_decide _); [apply turned_keeps; [done|keeps|apply lawful_refl]|].
  destruct (Z.ltb_spec (current_view (state s)) (rvr_term r)); [apply aware_turned; auto|].
  destruct (Z.eqb_spec (current_view (state s)) (rvr_term r)) as [Heq|]; cbn [negb]; [|apply turned_keeps; [done|keeps|apply lawful_refl]].
  destruct (rvr_vote_granted r); cbn [negb]; [|apply turned_keeps; [done|keeps|apply lawful_refl]].
  eapply turned_impl; [by apply add_vote_turns|]. cbn beta. intros e' He. apply (candidate_vote_lawful from); [|exact He]. cbn. split.
  - unfold is_candidate, is_leadership in Hc. by apply bool_decide_eq_true in Hc.
  - right. rewrite Heq. by apply HG.
Qed.
Lemma periodic_turned t s : fixed s -> 0 <= current_view (state s) < M64 - 1 -> turned s (periodic E t s) lawful.
Proof.
  intros Hs Hv. unfold periodic, el. rewrite modify_bind. set (s1 := on_election _ s). assert (turned s1 = @turned unit s) as <- by done.
  assert (fixed s1) as Hs1 by exact Hs. change (current_view (state s)) with (current_view (state s1)) in Hv. clearbody s1. rewrite self_bind.
  destruct (is_primary s1).
  - apply turned_bind; [apply turned_keeps; [done|keeps|apply lawful_refl]|]. intros _ s2 Hs2. apply turned_bind; [apply turned_keeps; [done|keeps|apply lawful_refl]|].
    intros _ s3 Hs3. rewrite self_bind. destruct (has_quorum_of_backups _ _); [apply turned_keeps; [done|keeps|apply lawful_refl]|].
    eapply turned_impl; [by apply become_follower_turns|]. cbn beta. intros e' ->. apply to_follower_lawful.
  - destruct (_ && _); [|apply turned_keeps; [done|keeps|apply lawful_refl]].
    eapply turned_impl; [by apply become_candidate_turns|]. cbn beta. intros e'. by apply candidate_of_lawful.
Qed.

(** What happens at a node when its configuration does not change. *)
Definition steady (ev : Event) : Prop :=
  match ev with
  | Tick _ | StartTicking | Sign | Orc _ _ | EnableAllDomains => True
  | Replicate es _ => Forall (fun e => be_hooks e = []) es
  | _ => False
  end.

Lemma steady_turned ev s : fixed s -> steady ev -> 0 <= current_view (state s) < M64 - 1 -> turned s (run_event E ev s) lawful.
Proof.
  intros Hs Hev Hv. destruct ev; cbn [run_event steady] in *; try done; [by apply periodic_turned|..]; (apply turned_keeps; [done| |apply lawful_refl]).
  { apply keeps_mbind; [by apply replicate_keeps|]. keeps. }
  all: unfold get_signable_txid, orc, enable_all_domains; keeps.
Qed.
Lemma receive_turned from m d s : fixed s -> (forall v, m = MsgRequestVoteResponse (mkRVR v true) -> G from v) ->
  turned s (run_event E (Receive from m d) s) lawful.
Proof.
  intros Hs HG. cbn [run_event]. unfold recv_message. assert (turned s (handle E from m d s) lawful) as H.
  { destruct m as [r|r|r|r]; cbn [handle]; [by apply recv_append_entries_turns | by apply recv_append_entries_response_turns | by apply recv_request_vote_turns|].
    apply recv_request_vote_response_turned; [done|]. intros Hr. apply HG. destruct r. cbn in *. by rewrite Hr. }
  unfold turned in *. by destruct (handle E from m d s) as [s' [a|e|]].
Qed.
End votes.

Lemma eninv_mono (G G' : NodeId -> Z -> Prop) e : (forall u v, G u v -> G' u v) -> eninv G e -> eninv G' e.
Proof.
  destruct e as [[[[v vf] l] vm] g]. intros HG (H1 & H2 & H3 & H4). split_and!; [done|done|..].
  - intros Hl. destruct (H3 Hl) as [Hx (V & -> & HV)]. split; [done|]. exists V. split; [done|]. intros u Hu. destruct (HV u Hu) as [? [?|?]]; auto.
  - intros Hl. destruct (H4 Hl) as [Hx (V & HV & Hq)]. split; [done|]. exists V. split; [|done]. intros u Hu. destruct (HV u Hu) as [? [?|?]]; auto.
Qed.
End node.

(** ** The network *)

Section net.
Context {S W : Type} {aft_store : AftStore S W Hook} (E : NodeId -> Env) (C : Configuration).
Context (no_hooks : forall w : W, w_hooks w = []).
Context (rollback_returns : forall tx v (st : S), match st_rollback tx v st with (_, Throw _) => False | _ => True end).
Implicit Types (n : Net S) (s : Node S).

(** A step of the network: a packet that was sent arrives, with any payload, or
    something happens at a node.  Views have not reached the end of their range. *)
Inductive net_step : Net S -> Net S -> Prop :=
  | net_deliver n n' p data : (forall id s, nodes n !! id = Some s -> 0 <= current_view (state s) < M64 - 1) ->
      p ∈ wire n -> at_node E (to p) (Receive (from p) (msg p) data) n = Some n' -> net_step n n'
  | net_local n n' id ev : (forall id s, nodes n !! id = Some s -> 0 <= current_view (state s) < M64 - 1) ->
      steady ev -> at_node E id ev n = Some n' -> net_step n n'.

(** Replicas that have the configuration and have done nothing else. *)
Definition start_net n : Prop :=
  wire n = [] /\ forall id s, nodes n !! id = Some s -> fixed id C s /\ ev s = (0, None, None, ∅, []).

Definition granted n (X u : NodeId) (v : Z) : Prop := exists su, nodes n !! u = Some su /\ (X, v) ∈ grants (out su).
Definition ninv n : Prop :=
  (forall id s, nodes n !! id = Some s -> fixed id C s /\ eninv id C (granted n id) (ev s)) /\
  (forall p, p ∈ wire n -> exists s, nodes n !! from p = Some s /\ Send (to p) (msg p) ∈ out s).

Lemma start_ninv n : start_net n -> ninv n.
Proof.
  intros [Hw Hn]. split; [|rewrite Hw; intros p Hp; by apply not_elem_of_nil in Hp]. intros id s Hs. destruct (Hn id s Hs) as [Hf ->]. split; [done|].
  cbn. split_and!; try done; intros *; intros Hin; by apply not_elem_of_nil in Hin.
Qed.

Lemma packets_out me l os p : p ∈ packets me l os -> from p = me /\ Send (to p) (msg p) ∈ os.
Proof.
  revert l. induction os as [|o os IH]; intros l; cbn [packets]; [by intros Hp%not_elem_of_nil|]. destruct o.
  1: rewrite elem_of_cons; intros [->|Hp]; [split; [done|by left]|].
  all: try intros Hp. all: destruct (IH _ Hp); split; [done|by right].
Qed.

(** What a node's turn means for the network. *)
Lemma at_node_ninv n n' id ev0 : ninv n -> at_node E id ev0 n = Some n' ->
  (forall s, nodes n !! id = Some s -> turned id C s (run_event (E id) ev0 s) (lawful id C (granted n id))) ->
  ninv n' /\ (forall X u v, granted n X u v -> granted n' X u v) /\
  (forall X s t, nodes n !! X = Some s -> loyal X t (ev s) -> exists s', nodes n' !! X = Some s' /\ loyal X t (ev s')).
Proof.
  intros [Hn Hw] Hat Hturn. unfold at_node in Hat. destruct (nodes n !! id) as [s|] eqn:Hs; [|done]. specialize (Hturn s eq_refl). destruct (Hn id s Hs) as [Hf He].
  assert (exists s', (fixed id C s' /\ out s `prefix_of` out s' /\ lawful id C (granted n id) (ev s) (ev s')) /\
    n' = mkNet (<[id := s']> (nodes n)) (wire n ++ packets id (ledger_of (out s)) (drop (length (out s)) (out s')))) as (s' & (Hf' & Hp & Hl) & ->).
  { unfold turned in Hturn. destruct (run_event (E id) ev0 s) as [s' [a|e|]]; [..|done]; injection Hat as <-; by exists s'. }
  clear Hturn Hat. destruct (Hl He) as [He' Hloyal].
  assert (forall X u v, granted n X u v -> granted (mkNet (<[id := s']> (nodes n)) (wire n ++ packets id (ledger_of (out s)) (drop (length (out s)) (out s')))) X u v) as Hmono.
  { intros X u v (su & Hsu & Hin). unfold granted. cbn [nodes]. destruct (decide (u = id)) as [->|Hne].
    - exists s'. rewrite lookup_insert_eq. split; [done|]. rewrite Hs in Hsu. injection Hsu as <-. destruct Hp as [k ->]. unfold grants. rewrite omap_app. apply elem_of_app. by left.
    - exists su. by rewrite lookup_insert_ne. }
  split_and!; [|done|].
  - split; cbn [nodes wire].
    + intros id' s1 Hs1. apply lookup_insert_Some in Hs1 as [[<- <-]|[Hne Hs1]].
      * split; [done|]. eapply (eninv_mono id C (granted n id)); [apply Hmono | exact He'].
      * destruct (Hn id' s1 Hs1) as [Hf1 He1]. split; [done|]. eapply (eninv_mono id' C (granted n id')); [apply Hmono | exact He1].
    + intros p [Hp0|Hp0]%elem_of_app.
      * destruct (Hw p Hp0) as (s1 & Hs1 & Hin). destruct (decide (from p = id)) as [Heq|Hne]; [|exists s1; by rewrite lookup_insert_ne].
        exists s'. rewrite Heq, lookup_insert_eq. split; [done|]. rewrite Heq, Hs in Hs1. injection Hs1 as <-. destruct Hp as [k ->]. apply elem_of_app. by left.
      * destruct (packets_out _ _ _ _ Hp0) as [Heq Hin]. exists s'. rewrite Heq, lookup_insert_eq. split; [done|]. rewrite <- (take_drop (length (out s)) (out s')). apply elem_of_app. by right.
  - intros X s1 t Hs1 Hlo. cbn [nodes]. destruct (decide (X = id)) as [->|Hne]; [|exists s1; by rewrite lookup_insert_ne].
    exists s'. rewrite lookup_insert_eq. split; [done|]. rewrite Hs in Hs1. injection Hs1 as <-. by apply Hloyal.
Qed.

Lemma net_step_ninv n n' : ninv n -> net_step n n' ->
  ninv n' /\ (forall X u v, granted n X u v -> granted n' X u v) /\
  (forall X s t, nodes n !! X = Some s -> loyal X t (ev s) -> exists s', nodes n' !! X = Some s' /\ loyal X t (ev s')).
Proof using no_hooks rollback_returns.
  intros Hn Hst. destruct Hst as [n n' p data Hv Hp Hat | n n' id ev0 Hv Hev Hat].
  - apply (at_node_ninv _ _ _ _ Hn Hat). intros s Hs. destruct Hn as [Hnodes Hw]. destruct (Hnodes _ s Hs) as [Hf _].
    apply receive_turned; [done..|]. intros v Hm. destruct (Hw p Hp) as (sf & Hsf & Hin). exists sf. split; [done|].
    unfold grants. apply list_elem_of_omap. exists (Send (to p) (msg p)). split; [done|]. by rewrite Hm.
  - apply (at_node_ninv _ _ _ _ Hn Hat). intros s Hs. destruct Hn as [Hnodes _]. destruct (Hnodes _ s Hs) as [Hf _]. apply steady_turned; try done. by eapply Hv.
Qed.

(** A replica that has led in a view: a quorum has voted for it. *)
Definition led n (X : NodeId) (t : Z) : Prop :=
  (exists s, nodes n !! X = Some s /\ loyal X t (ev s)) /\ exists V : gset NodeId, backed X C (granted n X) t V /\ conf_quorum C <= Z.of_nat (size V).
Definition leads_in n (X : NodeId) (t : Z) : Prop :=
  exists s, nodes n !! X = Some s /\ leadership_state (election s) = Some Leader /\ current_view (state s) = t.

Lemma leads_led n X t : ninv n -> leads_in n X t -> led n X t.
Proof.
  intros [Hn _] (s & Hs & Hl & Ht). destruct (Hn X s Hs) as (_ & H1 & H2 & H3 & H4). destruct (H4 Hl) as [Hvf (V & HV & Hq)]. rewrite Ht in *. split; [|by exists V].
  exists s. split; [done|]. split; [|right; rewrite Hl; split_and!; done]. intros Y Hne Hin. destruct (H1 Y t Hin Hne) as [_ Heq]. specialize (Heq eq_refl). congruence.
Qed.
Lemma led_steps n n' X t : ninv n -> rtc net_step n n' -> led n X t -> ninv n' /\ led n' X t.
Proof using no_hooks rollback_returns.
  intros Hn Hst. induction Hst as [|n n1 n' Hst _ IH]; [done|]. intros [(s & Hs & Hlo) (V & HV & Hq)].
  destruct (net_step_ninv n n1 Hn Hst) as (Hn1 & Hg & Hl). apply IH; [done|]. split; [by eapply Hl|]. exists V. split; [|done].
  intros u Hu. destruct (HV u Hu) as [? [?|?]]; auto.
Qed.

(** Two quorums have a node in common. *)
Lemma quorums_meet (V V' : gset NodeId) : (forall u, u ∈ V -> is_Some (cfg_nodes C !! u)) -> (forall u, u ∈ V' -> is_Some (cfg_nodes C !! u)) ->
  conf_quorum C <= Z.of_nat (size V) -> conf_quorum C <= Z.of_nat (size V') -> exists u, u ∈ V /\ u ∈ V'.
Proof.
  intros H H' Hq Hq'. destruct (set_choose_or_empty (V ∩ V')) as [[u Hu]|Hemp]; [exists u; set_solver|exfalso].
  assert (V ∪ V' ⊆ dom (cfg_nodes C)) as Hsub. { intros u [Hu|Hu]%elem_of_union; apply elem_of_dom; auto. }
  apply subseteq_size in Hsub. rewrite size_union in Hsub by set_solver. pose proof (size_dom (D := gset string) (cfg_nodes C : gmap string NodeInfo)) as Hd.
  assert (Z.of_nat (size V) + Z.of_nat (size V') <= zsize (cfg_nodes C)) as Hle.
  { unfold zsize. rewrite <- Nat2Z.inj_add. apply inj_le. etrans; [exact Hsub|]. by apply Nat.eq_le_incl. }
  unfold conf_quorum, get_quorum in *. pose proof (Z.div_mod (zsize (cfg_nodes C)) 2 ltac:(lia)). pose proof (Z.mod_pos_bound (zsize (cfg_nodes C)) 2 ltac:(lia)). lia.
Qed.
Lemma led_unique n X Y t : ninv n -> led n X t -> led n Y t -> X = Y.
Proof.
  intros [Hn _] [(s & Hs & [Hlo _]) (V & HV & Hq)] [(s' & Hs' & [Hlo' _]) (V' & HV' & Hq')]. destruct (decide (X = Y)) as [|Hne]; [done|exfalso].
  destruct (quorums_meet V V') as (u & Hu & Hu'); [intros u Hu; by apply HV|intros u Hu; by apply HV'|done|done|].
  pose proof (proj2 (HV u Hu)) as Hg. pose proof (proj2 (HV' u Hu')) as Hg'. clear HV HV' Hu Hu'.
  destruct (decide (u = X)) as [->|HuX].
  { destruct Hg' as [|(su & Hsu & Hg')]; [done|]. rewrite Hs in Hsu. injection Hsu as <-. by apply (Hlo Y (not_eq_sym Hne)). }
  destruct (decide (u = Y)) as [->|HuY].
  { destruct Hg as [|(su & Hsu & Hg)]; [done|]. rewrite Hs' in Hsu. injection Hsu as <-. by apply (Hlo' X Hne). }
  destruct Hg as [|(su & Hsu & Hg)]; [done|]. destruct Hg' as [|(su' & Hsu' & Hg')]; [done|]. rewrite Hsu in Hsu'. injection Hsu' as <-.
  destruct (Hn u su Hsu) as (_ & _ & Honce & _). apply Hne. by apply (Honce X Y t).
Qed.

(** C4. Election safety: in a network whose configuration does not change, at most
    one replica leads in a view, now or later.  Packets can be lost, repeated,
    reordered and delivered with another payload, handlers can be interrupted by
    exceptions, and any clock can run at any speed.  The entries carry no
    reconfiguration, rolling back the store does not throw, and views do not
    reach the end of their range. *)
Theorem election_safety n0 n n' X Y t : start_net n0 -> rtc net_step n0 n -> rtc net_step n n' ->
  leads_in n X t -> leads_in n' Y t -> X = Y.
Proof using no_hooks rollback_returns.
  intros H0 Hr Hr' HX HY. assert (ninv n) as Hn.
  { assert (forall m, ninv m -> rtc net_step m n -> ninv n) as Hall; [|by apply (Hall n0); [apply start_ninv|]].
    intros m Hm Hrm. induction Hrm as [|a b c Hst _ IH]; [done|]. by apply IH, (net_step_ninv a b). }
  destruct (led_steps n n' X t Hn Hr' (leads_led n X t Hn HX)) as [Hn' HX']. by apply (led_unique n' X Y t Hn'); [|apply leads_led].
Qed.
End net.

(** ** A run with an election *)

Definition views_ok (n : Net unit) : bool :=
  forallb (fun p => (0 <=? current_view (state p.2)) && (current_view (state p.2) <? M64 - 1)) (map_to_list (nodes n)).
Lemma views_ok_spec n : views_ok n = true -> forall id s, nodes n !! id = Some s -> 0 <= current_view (state s) < M64 - 1.
Proof.
  intros H id s Hs. unfold views_ok in H. rewrite forallb_forall in H. assert (In (id, s) (map_to_list (nodes n))) as Hin by (apply list_elem_of_In; by apply elem_of_map_to_list).
  specialize (H _ Hin). cbn in H. lia.
Qed.
Fixpoint steady_play (l : list Act) (n : Net unit) : option (Net unit) :=
  match l with [] => Some n | a :: l => if views_ok n then n' ← act a n; steady_play l n' else None end.
Lemma steady_play_steps l n n' : Forall (fun a => match a with Do _ ev => steady ev | Deliver _ => True end) l ->
  steady_play l n = Some n' -> rtc (net_step (fun _ => three_env)) n n'.
Proof.
  revert n. induction l as [|a l IH]; intros n Hl H; cbn [steady_play] in H; [injection H as <-; apply rtc_refl|]. inversion Hl as [|? ? Ha Hl']; subst.
  destruct (views_ok n) eqn:Hv; [|done]. destruct (act a n) as [n1|] eqn:Hact; [|done]. pose proof (views_ok_spec n Hv) as Hv'.
  eapply rtc_l; [|by apply IH]. destruct a as [id ev|k]; cbn [act] in Hact; [by apply (net_local _ n n1 id ev)|].
  unfold deliver in Hact. destruct (wire n !! k) as [p|] eqn:Hp; [|done]. apply (net_deliver _ n n1 p (payload p)); [done| |done]. by apply list_elem_of_lookup_2 in Hp.
Qed.

Definition three_conf : Configuration := mkConfiguration 0 three_nodes 0 0.
(** The replicas learn the configuration. *)
Definition ready_net : Net unit := default three_net (play ((fun id => Do id (AddConfiguration 0 three_nodes ∅ ∅)) <$> ["A"; "B"; "C"]) three_net).
(** "A" asks for votes, and "B" and "C" answer. *)
Definition elected_net : Net unit := default ready_net (steady_play [Do "A" StartTicking; Do "B" StartTicking; Do "A" (Tick 100); Deliver 0; Deliver 1; Deliver 2] ready_net).
(** Its heartbeat, and an answer that comes too late. *)
Definition later_net : Net unit := default ready_net (steady_play [Do "A" (write 1 1 65); Do "A" (Tick 10); Deliver 3; Deliver 4; Deliver 5] elected_net).

Lemma ready_net_start : start_net three_conf ready_net.
Proof.
  split; [vm_compute; reflexivity|]. intros id s Hs. apply elem_of_map_to_list in Hs.
  assert (Forall (fun p : NodeId * Node unit => fixed p.1 three_conf p.2 /\ ev p.2 = (0, None, None, ∅, [])) (map_to_list (nodes ready_net))) as H.
  { repeat constructor; vm_compute; (reflexivity || discriminate). }
  rewrite Forall_forall in H. exact (H _ Hs).
Qed.

Lemma election_safety_witness : exists Y, leads_in elected_net "A" 1 /\ leads_in later_net Y 1 /\ "A" = Y.
Proof.
  exists "A". assert (leads_in elected_net "A" 1) as H by (eexists; vm_compute; split; [reflexivity|split; reflexivity]).
  assert (leads_in later_net "A" 1) as H' by (eexists; vm_compute; split; [reflexivity|split; reflexivity]).
  split; [exact H|]. split; [exact H'|].
  apply (election_safety (aft_store := stub_store) (fun _ => three_env) three_conf (fun _ => eq_refl) (fun _ _ _ => I) ready_net elected_net later_net "A" "A" 1 ready_net_start); [| |exact H|exact H'].
  - apply (steady_play_steps [Do "A" StartTicking; Do "B" StartTicking; Do "A" (Tick 100); Deliver 0; Deliver 1; Deliver 2]); [repeat constructor | vm_compute; reflexivity].
  - apply (steady_play_steps [Do "A" (write 1 1 65); Do "A" (Tick 10); Deliver 3; Deliver 4; Deliver 5]); [repeat constructor | vm_compute; reflexivity].
Defined.

(** ** Commits that are not safe *)

(** "A" leads in view 1, and has the entries 2 to 4 alone. *)
Definition first_view : list Act :=
  ((fun id => Do id (AddConfiguration 0 three_nodes ∅ ∅)) <$> ["A"; "B"; "C"]) ++ ((fun id => Do id StartTicking) <$> ["A"; "B"; "C"]) ++
  [Do "A" (Tick 100); Deliver 0; Deliver 2; Do "A" (write 1 1 71); Do "A" (Tick 10); Deliver 5; Deliver 6; Deliver 7; Deliver 8;
   Do "A" (write 1 2 65); Do "A" (write 1 3 65); Do "A" (write 1 4 65)].
(** "B" leads in view 2, and has other entries 2 to 6.  "A" refuses the sixth, and
    "B" takes the refusal as a confirmation of the fourth. *)
Definition second_view : list Act :=
  [Do "B" (Tick 100); Deliver 9; Deliver 11; Deliver 12; Do "B" (write 2 2 66); Do "B" (write 2 3 66); Do "B" (write 2 4 66); Do "B" (write 2 5 66);
   Do "B" (Tick 10); Do "B" (write 2 6 66); Do "B" (Tick 10); Deliver 18; Deliver 19; Deliver 14].
(** "A" leads in view 3, and commits its own entries with "C". *)
Definition third_view : list Act :=
  [Do "A" (Tick 100); Deliver 20; Deliver 22; Do "A" (write 3 5 67); Do "A" (Tick 10); Deliver 25; Deliver 27; Do "A" (Tick 10);
   Deliver 28; Deliver 29; Deliver 31; Deliver 32].

(** Two replicas can commit different entries at the same index, with no
    fault but slow messages.  A leader that gets a refusal keeps the estimate of
    the matching index in the field that counts for commits
    (recv_append_entries_response), although the follower has confirmed nothing.
    In a run of three replicas, with every packet delivered at most once and as
    it was sent, "B" commits the entries 2 to 4 that it alone has, and "A"
    commits other entries at these indices. *)
Example committed_logs_diverge :
  (n ← play (first_view ++ second_view ++ third_view) three_net; a ← committed n "A"; b ← committed n "B"; Some (zlen a, a !! 1%nat, zlen b, b !! 1%nat)) =
  Some (5, Some (stub_entry 1 2 [65]), 4, Some (stub_entry 2 2 [66])).
Proof. vm_compute. reflexivity. Qed.
End RaftElection.
