(* ===== verification/HostLedger.v ===== *)
(** * The ledger on disk

    Model of CCF/src/host/ledger.h: the host keeps the entries of the ledger in
    files of consecutive entries (chunks).  A file starts with the offset of its
    table of positions (zero until the file is complete), then come the entries,
    then the table.  The name of a file carries its first index and, once it is
    committed, its last one.

    [FS] is what is on disk: directories are names of inodes, so that a file that
    is open keeps its bytes when it is renamed.  Reads and writes at a position
    are operations on the bytes; buffers of the C library and failures of the
    disk are not modelled.  [listing] is the order in which a directory is
    iterated, which the standard leaves open. *)
From S2P Require Import Prelude Monad Serialized.
From stdpp Require Import list gmap strings sorting.
From Stdlib Require Import Ascii.
Local Open Scope Z_scope.

Module HostLedger.

(** ** File names *)

Abbreviation Name := (list ascii) (only parsing).
Definition str (s : string) : Name := String.list_ascii_of_string s.

Definition char_digit (c : ascii) : option Z :=
  let n := Z.of_nat (nat_of_ascii c) in if (48 <=? n) && (n <=? 57) then Some (n - 48) else None.
Definition digit_char (d : Z) : ascii := ascii_of_nat (Z.to_nat (48 + d)).

(** The decimal digits of a number below 2^64. *)
Fixpoint dec_loop (fuel : nat) (n : Z) (acc : Name) : Name :=
  match fuel with
  | O => acc
  | S fuel => let acc := digit_char (n mod 10) :: acc in if n / 10 =? 0 then acc else dec_loop fuel (n / 10) acc
  end.
Definition dec (n : Z) : Name := dec_loop 20 n [].

(** std::stol: white space, a sign, digits. *)
Definition is_space (c : ascii) : bool := let n := nat_of_ascii c in (n =? 32)%nat || ((9 <=? n) && (n <=? 13))%nat.
Fixpoint skip_space (l : Name) : Name := match l with c :: l' => if is_space c then skip_space l' else l | [] => [] end.
Fixpoint read_digits (acc : option Z) (l : Name) : option Z :=
  match l with
  | c :: l' => match char_digit c with Some d => read_digits (Some (default 0 acc * 10 + d)) l' | None => acc end
  | [] => acc
  end.
Definition stol (l : Name) : result Z :=
  let l := skip_space l in
  let '(neg, l) := match l with "-"%char :: l' => (true, l') | "+"%char :: l' => (false, l') | _ => (false, l) end in
  match read_digits None l with
  | None => Throw InvalidArgument
  | Some n => let n := if neg then - n else n in if (n <? - 2 ^ 63) || (2 ^ 63 <=? n) then Throw OutOfRange else Ok (wrap64 n)
  end.

(** What follows the first [c]. *)
Fixpoint after (c : ascii) (l : Name) : option Name :=
  match l with [] => None | x :: l' => if ascii_dec x c then Some l' else after c l' end.

Definition get_start_idx_from_file_name (n : Name) : result Z :=
  match after "_" n with None => Throw LogicError | Some l => stol l end.
Definition get_last_idx_from_file_name (n : Name) : result (option Z) :=
  match after "-" n with None => Ok None | Some l => i ← stol l; Ok (Some i) end.

Definition ends_with (s suffix : Name) : bool :=
  (length suffix <=? length s)%nat && bool_decide (drop (length s - length suffix) s = suffix).
Definition is_ledger_file_name_committed (n : Name) : bool := ends_with n (str "committed").
Definition is_ledger_file_name_recovery (n : Name) : bool := ends_with n (str "recovery").
Definition is_ledger_file_name_ignored (n : Name) : bool := ends_with n (str "ignored").
Definition remove_suffix (s suffix : Name) : Name := if ends_with s suffix then take (length s - length suffix) s else s.
Definition remove_recovery_suffix (n : Name) : Name := remove_suffix n (str ".recovery").

Definition file_name_of (start_idx : Z) (recovery : bool) : Name :=
  let n := str "ledger_" ++ dec start_idx in if recovery then n ++ str ".recovery" else n.
Definition committed_file_name (start_idx last_idx : Z) (recovery : bool) : Name :=
  let n := str "ledger_" ++ dec start_idx ++ str "-" ++ dec last_idx ++ str ".committed" in if recovery then n ++ str ".recovery" else n.

(** ** The disk *)

Abbreviation Dir := (gmap (list ascii) nat) (only parsing).
Record FS := mkFS { inodes : gmap nat (list Z); next_inode : nat; ledger_dir : Dir; read_ledger_dirs : list Dir }.

Definition set_bytes (i : nat) (b : list Z) (fs : FS) : FS := mkFS (<[i := b]> (inodes fs)) (next_inode fs) (ledger_dir fs) (read_ledger_dirs fs).
Definition set_ledger_dir (d : Dir) (fs : FS) : FS := mkFS (inodes fs) (next_inode fs) d (read_ledger_dirs fs).
Definition bytes_of (i : nat) (fs : FS) : list Z := default [] (inodes fs !! i).

(** fseeko and fwrite: a gap before the position is filled with zeros. *)
Definition pwrite (pos : Z) (data b : list Z) : list Z :=
  ztake pos b ++ zeros (pos - zlen b) ++ data ++ zdrop (pos + zlen data) b.
Definition write_at (i : nat) (pos : Z) (data : list Z) : M FS unit := modify (fun fs => set_bytes i (pwrite pos data (bytes_of i fs)) fs).
(** fseeko and fread *)
Definition pread (pos n : Z) (b : list Z) : option (list Z) := if pos + n <=? zlen b then Some (ztake n (zdrop pos b)) else None.
(** ftruncate *)
Definition ftruncate (i : nat) (n : Z) : M FS unit := modify (fun fs => set_bytes i (ztake n (bytes_of i fs) ++ zeros (n - zlen (bytes_of i fs))) fs).
(** fopen with "w+b" *)
Definition fopen_new (n : Name) : M FS nat := fun fs =>
  match ledger_dir fs !! n with
  | Some i => (set_bytes i [] fs, Ok i)
  | None => let i := next_inode fs in (mkFS (<[i := []]> (inodes fs)) (i + 1)%nat (<[n := i]> (ledger_dir fs)) (read_ledger_dirs fs), Ok i)
  end.
Definition remove_file (n : Name) : M FS bool := fun fs =>
  (set_ledger_dir (delete n (ledger_dir fs)) fs, Ok (bool_decide (is_Some (ledger_dir fs !! n)))).
Definition rename_file (src dst : Name) : M FS unit := fun fs =>
  match ledger_dir fs !! src with
  | None => (fs, Throw LogicError)
  | Some i => (set_ledger_dir (<[dst := i]> (delete src (ledger_dir fs))) fs, Ok tt)
  end.

(** ** A file of the ledger *)

Record LedgerFile := mkLedgerFile {
  file_name : Name; inode : nat; start_idx : Z; total_len : Z; positions : list Z;
  completed : bool; committed : bool; recovery : bool }.

Definition set_file_name x (f : LedgerFile) := mkLedgerFile x (inode f) (start_idx f) (total_len f) (positions f) (completed f) (committed f) (recovery f).
Definition set_contents t p (f : LedgerFile) := mkLedgerFile (file_name f) (inode f) (start_idx f) t p (completed f) (committed f) (recovery f).
Definition set_completed x (f : LedgerFile) := mkLedgerFile (file_name f) (inode f) (start_idx f) (total_len f) (positions f) x (committed f) (recovery f).
Definition set_committed x (f : LedgerFile) := mkLedgerFile (file_name f) (inode f) (start_idx f) (total_len f) (positions f) (completed f) x (recovery f).
Definition set_recovery x (f : LedgerFile) := mkLedgerFile (file_name f) (inode f) (start_idx f) (total_len f) (positions f) (completed f) (committed f) x.

Definition wrap32 (x : Z) : Z := x mod 2 ^ 32.
Definition header_size : Z := 8.
Definition entry_header_size : Z := 8.

(** The flags and the size in the header of an entry. *)
Definition entry_flags (header : Z) : Z := header / 2 ^ 8 mod 2 ^ 8.
Definition entry_size (header : Z) : Z := header / 2 ^ 16.

Definition new_ledger_file (start : Z) (rec : bool) : M FS LedgerFile :=
  let n := file_name_of start rec in
  i ← fopen_new n; mret (mkLedgerFile n i start header_size [] false false rec).

(** The entries of a file that has no table: what the loop has left, and what it
    has found. *)
Fixpoint recover_positions (fuel : nat) (len total : Z) (data : list Z) (ps : list Z) : Z * list Z :=
  match fuel with
  | O => (total, ps)
  | S fuel =>
      if len <? entry_header_size then (total, ps)
      else
        let size := entry_size (le_val (take 8 data)) in
        let len := len - entry_header_size in
        if len <? size then (total, ps)
        else recover_positions fuel (len - size) (wrap64 (total + (entry_header_size + size))) (zdrop (entry_header_size + size) data) (ps ++ [wrap32 total])
  end.

Fixpoint read_table (n : nat) (data : list Z) : list Z :=
  match n with O => [] | S n => le_val (take 4 data) :: read_table n (drop 4 data) end.

Definition open_ledger_file (d : Dir) (n : Name) (fs : FS) : result LedgerFile :=
  match d !! n with
  | None => Throw LogicError
  | Some i =>
      let b := bytes_of i fs in
      start ← get_start_idx_from_file_name n;
      match pread 0 header_size b with
      | None => Throw LogicError
      | Some h =>
          let table_offset := le_val h in
          let committed := is_ledger_file_name_committed n in
          if negb (table_offset =? 0) then
            if zlen b <? table_offset then Throw LogicError
            else
              let ps := read_table (Z.to_nat ((zlen b - table_offset) / 4)) (zdrop table_offset b) in
              Ok (mkLedgerFile n i start table_offset ps true committed false)
          else
            let '(total, ps) := recover_positions (length b) (zlen b - header_size) header_size (zdrop header_size b) [] in
            Ok (mkLedgerFile n i start total ps false committed false)
      end
  end.

Definition file_last_idx (f : LedgerFile) : Z := wrap64 (start_idx f + zlen (positions f) - 1).

Definition position_at (f : LedgerFile) (i : Z) : result Z :=
  match positions f !! Z.to_nat i with Some p => Ok p | None => Throw OutOfRange end.

Definition file_write_entry (f : LedgerFile) (data : list Z) : M FS LedgerFile :=
  if zlen data =? 0 then throw LogicError
  else
    _ ← write_at (inode f) (total_len f) data;
    mret (set_contents (wrap64 (total_len f + zlen data)) (positions f ++ [wrap32 (total_len f)]) f).

(** [to] is halved until the entries fit; no file has more than 2^64 of them. *)
Fixpoint entries_size_loop (fuel : nat) (f : LedgerFile) (from to : Z) (max_size : option Z) : result (Z * Z) :=
  match fuel with
  | O => Undef
  | S fuel =>
      position_to ← (if to =? file_last_idx f then Ok (total_len f) else position_at f (to - start_idx f + 1));
      position_from ← position_at f (from - start_idx f);
      let size := wrap64 (position_to - position_from) in
      if match max_size with None => true | Some m => size <=? m end then Ok (size, to)
      else if from =? to then Ok (0, 0)
      else entries_size_loop fuel f from (from + (to - from) / 2) max_size
  end.
Definition entries_size (f : LedgerFile) (from to : Z) (max_size : option Z) : result (Z * Z) :=
  if (from <? start_idx f) || (to <? from) || (file_last_idx f <? to) then Ok (0, 0)
  else entries_size_loop 65 f from to max_size.

Definition file_read_entries (f : LedgerFile) (from to : Z) (max_size : option Z) (fs : FS) : result (option (list Z * Z)) :=
  if (from <? start_idx f) || (file_last_idx f <? to) || (to <? from) then Ok None
  else
    '(size, to') ← entries_size f from to max_size;
    if size =? 0 then Ok None
    else
      pos ← position_at f (from - start_idx f);
      match pread pos size (bytes_of (inode f) fs) with
      | None => Throw LogicError
      | Some e => Ok (Some (e, to'))
      end.

(** True if the file has been removed. *)
Definition file_truncate (f : LedgerFile) (idx : Z) : M FS (LedgerFile * bool) :=
  if committed f || (idx <? wrap64 (start_idx f - 1)) || (completed f && (file_last_idx f <=? idx)) then mret (f, false)
  else if idx =? wrap64 (start_idx f - 1) then
    removed ← remove_file (file_name f);
    if (removed : bool) then mret (f, true) else throw LogicError
  else
    _ ← write_at (inode f) 0 (le_bytes 8 0);
    f' ← (if negb (idx =? file_last_idx f) then
            total ← lift (position_at f (idx - start_idx f + 1));
            mret (set_contents total (take (Z.to_nat (idx - start_idx f + 1)) (positions f)) f)
          else mret f);
    _ ← ftruncate (inode f') (total_len f');
    mret (set_completed false f', false).

Definition file_complete (f : LedgerFile) : M FS LedgerFile :=
  if completed f then mret f
  else
    _ ← write_at (inode f) (total_len f) (mjoin (le_bytes 4 <$> positions f));
    _ ← write_at (inode f) 0 (le_bytes 8 (total_len f));
    mret (set_completed true f).

(** The object takes the new name whether or not the file could be renamed. *)
Definition file_rename (f : LedgerFile) (n : Name) : M FS LedgerFile := fun fs =>
  ((rename_file (file_name f) n fs).1, Ok (set_file_name n f)).

Definition file_open (f : LedgerFile) : M FS LedgerFile :=
  f' ← file_rename f (remove_recovery_suffix (file_name f)); mret (set_recovery false f').

(** True if the file can leave the list of files that are written. *)
Definition file_commit (f : LedgerFile) (idx : Z) : M FS (LedgerFile * bool) :=
  if negb (completed f) || committed f || negb (idx =? file_last_idx f) then mret (f, false)
  else
    f' ← file_rename f (committed_file_name (start_idx f) (file_last_idx f) (recovery f));
    mret (set_committed true f', negb (recovery f)).

(** ** The ledger *)

Record Ledger := mkLedger {
  fs : FS; files : list LedgerFile; files_read_cache : list LedgerFile;
  last_idx : Z; committed_idx : Z; end_of_committed_files_idx : Z;
  require_new_file : bool; recovery_start_idx : option Z }.

Definition set_fs x (l : Ledger) := mkLedger x (files l) (files_read_cache l) (last_idx l) (committed_idx l) (end_of_committed_files_idx l) (require_new_file l) (recovery_start_idx l).
Definition set_files x (l : Ledger) := mkLedger (fs l) x (files_read_cache l) (last_idx l) (committed_idx l) (end_of_committed_files_idx l) (require_new_file l) (recovery_start_idx l).
Definition set_files_read_cache x (l : Ledger) := mkLedger (fs l) (files l) x (last_idx l) (committed_idx l) (end_of_committed_files_idx l) (require_new_file l) (recovery_start_idx l).
Definition set_last_idx x (l : Ledger) := mkLedger (fs l) (files l) (files_read_cache l) x (committed_idx l) (end_of_committed_files_idx l) (require_new_file l) (recovery_start_idx l).
Definition set_committed_idx x (l : Ledger) := mkLedger (fs l) (files l) (files_read_cache l) (last_idx l) x (end_of_committed_files_idx l) (require_new_file l) (recovery_start_idx l).
Definition set_end_of_committed_files_idx x (l : Ledger) := mkLedger (fs l) (files l) (files_read_cache l) (last_idx l) (committed_idx l) x (require_new_file l) (recovery_start_idx l).
Definition set_require_new_file x (l : Ledger) := mkLedger (fs l) (files l) (files_read_cache l) (last_idx l) (committed_idx l) (end_of_committed_files_idx l) x (recovery_start_idx l).
Definition set_recovery_start_idx x (l : Ledger) := mkLedger (fs l) (files l) (files_read_cache l) (last_idx l) (committed_idx l) (end_of_committed_files_idx l) (require_new_file l) x.

Section ledger.
Context (listing : Dir -> list Name) (chunk_threshold max_read_cache_files : Z).

Definition on_fs {A} (m : M FS A) : M Ledger A := zoom fs set_fs m.

Definition name_contains (idx : Z) (allow_recovery_files : bool) (n : Name) : bool :=
  negb (is_ledger_file_name_ignored n || (negb allow_recovery_files && is_ledger_file_name_recovery n)) &&
  match get_start_idx_from_file_name n, get_last_idx_from_file_name n with
  | Ok start, Ok (Some lst) => (start <=? idx) && (idx <=? lst)
  | _, _ => false
  end.
Definition get_file_name_with_idx (d : Dir) (idx : Z) (allow_recovery_files : bool) : option Name :=
  List.find (name_contains idx allow_recovery_files) (listing d).

(** The position of the first file that ends at or after an index; the files are
    in order. *)
Fixpoint first_containing (idx : Z) (l : list LedgerFile) : nat :=
  match l with [] => O | f :: l => if idx <=? file_last_idx f then O else S (first_containing idx l) end.
Definition get_it_contains_idx (idx : Z) (l : Ledger) : nat :=
  if idx =? 0 then length (files l) else first_containing idx (files l).

Fixpoint find_in_read_dirs (idx : Z) (ds : list Dir) : option (Dir * Name) :=
  match ds with
  | [] => None
  | d :: ds => match get_file_name_with_idx d idx false with Some n => Some (d, n) | None => find_in_read_dirs idx ds end
  end.

Definition get_file_from_cache (idx : Z) : M Ledger (option LedgerFile) :=
  if idx =? 0 then mret None
  else
    l ← gets (fun l => l);
    match List.find (fun f => (start_idx f <=? idx) && (idx <=? file_last_idx f)) (files_read_cache l) with
    | Some f => mret (Some f)
    | None =>
        let m := match get_file_name_with_idx (ledger_dir (fs l)) idx true with
                 | Some n => Some (ledger_dir (fs l), n)
                 | None => find_in_read_dirs idx (read_ledger_dirs (fs l))
                 end in
        match m with
        | None => mret None
        | Some (d, n) =>
            match open_ledger_file d n (fs l) with
            | Ok f =>
                _ ← modify (fun l =>
                  let c := files_read_cache l ++ [f] in
                  set_files_read_cache (if max_read_cache_files <? zlen c then tail c else c) l);
                mret (Some f)
            | Throw _ => mret None
            | Undef => undef
            end
        end
    end.

Definition get_file_from_idx (idx : Z) (read_cache_only : bool) : M Ledger (option LedgerFile) :=
  if idx =? 0 then mret None
  else
    l ← gets (fun l => l);
    match (if read_cache_only then None else List.find (fun f => start_idx f <=? idx) (rev (files l))) with
    | Some f => mret (Some f)
    | None => get_file_from_cache idx
    end.

(** Every turn reads at least one entry. *)
Fixpoint read_range_loop (fuel : nat) (idx to : Z) (read_cache_only : bool) (max_entries_size : option Z) (acc : list Z) : M Ledger (option (list Z)) :=
  if to <? idx then mret (Some acc)
  else match fuel with
  | O => undef
  | S fuel =>
      f ← get_file_from_idx idx read_cache_only;
      match f with
      | None => mret None
      | Some f =>
          let to' := Z.min (file_last_idx f) to in
          let max_size := (fun m => wrap64 (m - zlen acc)) <$> max_entries_size in
          v ← getsR (fun l => file_read_entries f idx to' max_size (fs l));
          match v with
          | None => mret None
          | Some (e, to_read) =>
              if negb (to_read =? to') then mret (Some (acc ++ e))
              else read_range_loop fuel (wrap64 (to' + 1)) to read_cache_only max_entries_size (acc ++ e)
          end
      end
  end.

Definition read_entries_range (from to : Z) (read_cache_only strict : bool) (max_entries_size : option Z) : M Ledger (option (list Z)) :=
  if (from <=? 0) || (to <? from) then mret None
  else
    lst ← gets last_idx;
    if (lst <? to) && strict then mret None
    else
      let to := Z.min to lst in
      read_range_loop (Z.to_nat (to - from + 1)) from to read_cache_only max_entries_size [].

Definition read_entry (idx : Z) : M Ledger (option (list Z)) := read_entries_range idx idx false true None.
Definition read_entries (from to : Z) (strict : bool) (max_entries_size : option Z) : M Ledger (option (list Z)) :=
  read_entries_range from to false strict max_entries_size.

Definition ignore_ledger_file (n : Name) : M Ledger unit :=
  if is_ledger_file_name_ignored n then mret tt else on_fs (rename_file n (n ++ str ".ignored")).

Definition FORCE_LEDGER_CHUNK_AFTER : Z := 1.
Definition FORCE_LEDGER_CHUNK_BEFORE : Z := 2.

(** The latest file changes. *)
Definition set_latest (f : LedgerFile) (l : Ledger) : Ledger := set_files (removelast (files l) ++ [f]) l.

Definition complete_latest : M Ledger unit :=
  l ← gets (fun l => l);
  match last (files l) with
  | None => mret tt
  | Some f =>
      f ← on_fs (file_complete f);
      _ ← modify (set_latest f);
      modify (set_require_new_file true)
  end.

Definition add_new_file : M Ledger unit :=
  l ← gets (fun l => l);
  let start := wrap64 (last_idx l + 1) in
  let is_recovery := match recovery_start_idx l with Some r => r <? start | None => false end in
  f ← on_fs (new_ledger_file start is_recovery);
  _ ← modify (fun l => set_files (files l ++ [f]) l);
  modify (set_require_new_file false).

(** The entry goes to the latest file, whose size is returned. *)
Definition append_latest (data : list Z) : M Ledger Z :=
  l ← gets (fun l => l);
  match last (files l) with
  | None => undef
  | Some f =>
      f ← on_fs (file_write_entry f data);
      _ ← modify (set_latest f);
      _ ← modify (set_last_idx (file_last_idx f));
      mret (total_len f)
  end.

Definition write_entry (data : list Z) (committable : bool) : M Ledger Z :=
  header ← lift (Serialized.peek_uint 8 data);
  _ ← (if negb (Z.land (entry_flags header) FORCE_LEDGER_CHUNK_BEFORE =? 0) then complete_latest else mret tt);
  let force_chunk_after := negb (Z.land (entry_flags header) FORCE_LEDGER_CHUNK_AFTER =? 0) in
  _ ← (if force_chunk_after && negb committable then throw LogicError else mret tt);
  l ← gets (fun l => l);
  _ ← (if require_new_file l then add_new_file else mret tt);
  size ← append_latest data;
  _ ← (if committable && (force_chunk_after || (chunk_threshold <=? size)) then complete_latest else mret tt);
  gets last_idx.

(** [n] files from a position on; the first one is cut at [idx], the others are
    removed. *)
Fixpoint truncate_files (n pos : nat) (first : bool) (idx : Z) : M Ledger unit :=
  match n with
  | O => mret tt
  | S n =>
      l ← gets (fun l => l);
      match files l !! pos with
      | None => undef
      | Some f =>
          '(f', removed) ← on_fs (file_truncate f (if first then idx else wrap64 (start_idx f - 1)));
          if (removed : bool) then
            _ ← modify (fun l => set_files (delete pos (files l)) l);
            truncate_files n pos false idx
          else
            _ ← modify (fun l => set_files (<[pos := f']> (files l)) l);
            _ ← modify (set_require_new_file false);
            truncate_files n (S pos) false idx
      end
  end.

Definition truncate (idx : Z) : M Ledger unit :=
  l ← gets (fun l => l);
  if (last_idx l <=? idx) || (idx <? committed_idx l) then mret tt
  else
    _ ← modify (set_require_new_file true);
    let f_from := get_it_contains_idx (idx + 1) l in
    let f_to := get_it_contains_idx (last_idx l) l in
    _ ← (if (f_to =? length (files l))%nat then undef else truncate_files (f_to + 1 - f_from) f_from true idx);
    modify (set_last_idx idx).

(** [n] files from a position on; the last one is committed at [idx]. *)
Fixpoint commit_files (n pos : nat) (idx : Z) : M Ledger unit :=
  match n with
  | O => mret tt
  | S n =>
      l ← gets (fun l => l);
      match files l !! pos with
      | None => undef
      | Some f =>
          let last_idx_in_file := file_last_idx f in
          let is_to := (n =? 0)%nat in
          '(f', ok) ← on_fs (file_commit f (if is_to then idx else last_idx_in_file));
          if ok && (negb is_to || (idx =? last_idx_in_file)) then
            _ ← modify (set_end_of_committed_files_idx last_idx_in_file);
            _ ← modify (fun l => set_files (delete pos (files l)) l);
            commit_files n pos idx
          else
            _ ← modify (fun l => set_files (<[pos := f']> (files l)) l);
            commit_files n (S pos) idx
      end
  end.

Definition commit (idx : Z) : M Ledger unit :=
  l ← gets (fun l => l);
  if (idx <=? committed_idx l) || (last_idx l <? idx) then mret tt
  else
    let f_from := get_it_contains_idx (if committed_idx l =? 0 then 1 else committed_idx l) l in
    let f_to := get_it_contains_idx idx l in
    _ ← (if (f_to =? length (files l))%nat then undef else commit_files (f_to + 1 - f_from) f_from idx);
    modify (set_committed_idx idx).

Definition is_in_committed_file (idx : Z) (l : Ledger) : bool := idx <=? end_of_committed_files_idx l.

(** The handler of ledger_get_range.  What the asynchronous job reads of a
    committed file is dropped, and the range is read again. *)
Definition get_range (from to : Z) (strict : bool) (max_entries_size : Z) : M Ledger (option (list Z)) :=
  l ← gets (fun l => l);
  _ ← (if is_in_committed_file to l then _ ← read_entries_range from to true true None; mret tt else mret tt);
  read_entries from to strict (Some max_entries_size).

(** *** Starting *)

Definition init (idx recovery_start_idx_ : Z) : M Ledger unit :=
  l ← gets (fun l => l);
  _ ← for_each (fun n =>
        skip ← lift (if negb (is_ledger_file_name_committed n) then Ok true
                     else start ← get_start_idx_from_file_name n; Ok (idx <? start));
        if (skip : bool) then ignore_ledger_file n else mret tt) (listing (ledger_dir (fs l)));
  _ ← modify (set_files []);
  _ ← modify (set_require_new_file true);
  _ ← modify (set_last_idx idx);
  _ ← modify (set_committed_idx idx);
  if 0 <? recovery_start_idx_ then modify (set_recovery_start_idx (Some recovery_start_idx_)) else mret tt.

Fixpoint open_recovery_files (done l : list LedgerFile) : M Ledger unit :=
  match l with
  | [] => modify (set_files done)
  | f :: l =>
      if recovery f then
        f ← on_fs (file_open f);
        if committed f then open_recovery_files done l else open_recovery_files (done ++ [f]) l
      else open_recovery_files (done ++ [f]) l
  end.
Definition complete_recovery : M Ledger unit :=
  l ← gets (fun l => l);
  _ ← open_recovery_files [] (files l);
  modify (set_recovery_start_idx None).

(** The names of the read-only directories. *)
Definition recover_read_only (n : Name) : M Ledger unit :=
  lst ← lift (get_last_idx_from_file_name n);
  l ← gets (fun l => l);
  match lst with
  | Some i =>
      if is_ledger_file_name_committed n && negb (is_ledger_file_name_ignored n) && (last_idx l <? i)
      then modify (fun l => set_end_of_committed_files_idx i (set_committed_idx i (set_last_idx i l)))
      else mret tt
  | None => mret tt
  end.

(** A file of the main directory; exceptions are caught, and the file is left out. *)
Definition recover_file (n : Name) : M Ledger unit := fun l =>
  if is_ledger_file_name_recovery n || is_ledger_file_name_ignored n then ignore_ledger_file n l
  else match open_ledger_file (ledger_dir (fs l)) n (fs l) with
  | Ok f =>
      match on_fs (file_truncate f (file_last_idx f)) l with
      | (l, Ok (f, false)) => (set_files (files l ++ [f]) l, Ok tt)
      | (l, Undef) => (l, Undef)
      | (l, _) => (l, Ok tt)
      end
  | Throw _ => (l, Ok tt)
  | Undef => (l, Undef)
  end.

(** Committed files are taken from the list of files that are written. *)
Fixpoint drop_committed (fs : list LedgerFile) (kept : list LedgerFile) : M Ledger unit :=
  match fs with
  | [] => modify (set_files kept)
  | f :: fs =>
      if committed f then
        l ← gets (fun l => l);
        let i := file_last_idx f in
        _ ← (if committed_idx l <? i then modify (fun l => set_end_of_committed_files_idx i (set_committed_idx i l)) else mret tt);
        drop_committed fs kept
      else drop_committed fs (kept ++ [f])
  end.

Definition by_last_idx (a b : LedgerFile) : Prop := file_last_idx a <= file_last_idx b.
#[local] Instance by_last_idx_dec a b : Decision (by_last_idx a b).
Proof. unfold by_last_idx. apply _. Defined.

Definition max_chunk_threshold_size : Z := 2 ^ 32 - 1.

(** The constructor, on directories that exist. *)
Definition recover : M Ledger unit :=
  _ ← (if (chunk_threshold =? 0) || (max_chunk_threshold_size <? chunk_threshold) then throw LogicError else mret tt);
  l ← gets (fun l => l);
  _ ← for_each (fun d => for_each recover_read_only (listing d)) (read_ledger_dirs (fs l));
  _ ← for_each recover_file (listing (ledger_dir (fs l)));
  l ← gets (fun l => l);
  let sorted := merge_sort by_last_idx (files l) in
  match last sorted with
  | None => modify (set_require_new_file true)
  | Some f =>
      _ ← (if last_idx l <? file_last_idx f then modify (set_last_idx (file_last_idx f)) else mret tt);
      _ ← drop_committed sorted [];
      l ← gets (fun l => l);
      modify (set_require_new_file (match last (files l) with Some f => completed f | None => true end))
  end.
Definition new_ledger (fs : FS) : Ledger := mkLedger fs [] [] 0 0 0 true None.

(** *** Messages of the enclave *)

Inductive Message :=
  | LedgerInit (idx recovery_start_idx : Z)
  | LedgerAppend (committable : bool) (data : list Z)
  | LedgerTruncate (idx : Z) (recovery_mode : bool)
  | LedgerCommit (idx : Z)
  | LedgerOpen.
Definition handle (m : Message) : M Ledger unit :=
  match m with
  | LedgerInit idx r => init idx r
  | LedgerAppend committable data => _ ← write_entry data committable; mret tt
  | LedgerTruncate idx recovery_mode =>
      _ ← truncate idx;
      if recovery_mode then modify (set_recovery_start_idx (Some idx)) else mret tt
  | LedgerCommit idx => commit idx
  | LedgerOpen => complete_recovery
  end.

End ledger.
End HostLedger.
