(* ===== verification/HostFile.v ===== *)
(** * Files of the ledger

    Facts about the file names and about one file of HostLedger.v: what a name
    says is read back from it, and a file that holds a list of entries gives them
    back ([holds]), whichever way it was written, cut, completed or opened again. *)
From S2P Require Import Prelude Monad Serialized HostLedger.
From stdpp Require Import list gmap strings.
From Stdlib Require Import Ascii.
Local Open Scope Z_scope.

Module HostFile.
Import Serialized HostLedger.

(** ** Numbers in names *)

Lemma char_digit_char d : 0 <= d < 10 -> char_digit (digit_char d) = Some d.
Proof.
  intros Hd. unfold char_digit, digit_char. rewrite nat_ascii_embedding by lia.
  rewrite Z2Nat.id by lia. destruct (Z.leb_spec 48 (48 + d)), (Z.leb_spec (48 + d) 57); cbn; [|lia..]. f_equal. lia.
Qed.
Lemma digit_not_space d : 0 <= d < 10 -> is_space (digit_char d) = false.
Proof.
  intros Hd. unfold is_space, digit_char. rewrite nat_ascii_embedding by lia. apply orb_false_iff. split; [apply Nat.eqb_neq; lia|].
  apply andb_false_iff. right. apply Nat.leb_gt. lia.
Qed.

(** The digits of a number, most significant first. *)
Fixpoint dec_digits (fuel : nat) (n : Z) : list Z :=
  match fuel with O => [] | S fuel => (if n / 10 =? 0 then [] else dec_digits fuel (n / 10)) ++ [n mod 10] end.
Lemma dec_loop_digits fuel n acc : dec_loop fuel n acc = (digit_char <$> dec_digits fuel n) ++ acc.
Proof.
  revert n acc. induction fuel as [|fuel IH]; intros n acc; cbn [dec_loop dec_digits]; [done|].
  destruct (n / 10 =? 0); rewrite fmap_app; cbn; [done|]. rewrite IH, <- app_assoc. done.
Qed.
Lemma dec_digits_range fuel n : Forall (fun d => 0 <= d < 10) (dec_digits fuel n).
Proof.
  revert n. induction fuel as [|fuel IH]; intros n; cbn [dec_digits]; [constructor|]. apply Forall_app. split; [by destruct (_ =? _)|].
  repeat constructor; apply Z.mod_pos_bound; lia.
Qed.
Definition value (acc : Z) (l : list Z) : Z := foldl (fun x d => x * 10 + d) acc l.
Lemma dec_digits_value fuel n : 0 <= n < 10 ^ Z.of_nat fuel -> value 0 (dec_digits fuel n) = n.
Proof.
  revert n. induction fuel as [|fuel IH]; intros n Hn; cbn [dec_digits]; [cbn in *; lia|].
  rewrite Nat2Z.inj_succ, Z.pow_succ_r in Hn by lia. unfold value. rewrite foldl_app. cbn [foldl].
  pose proof (Z.div_mod n 10 ltac:(lia)). destruct (Z.eqb_spec (n / 10) 0) as [H0|]; [cbn; lia|].
  unfold value in IH. rewrite IH; [lia|]. split; [apply Z.div_pos; lia|]. apply Z.div_lt_upper_bound; lia.
Qed.
Lemma read_digits_digits ds acc rest : Forall (fun d => 0 <= d < 10) ds -> ds <> [] -> match rest with [] => True | c :: _ => char_digit c = None end ->
  read_digits acc ((digit_char <$> ds) ++ rest) = Some (value (default 0 acc) ds).
Proof.
  intros Hd Hne Hrest. revert acc Hne. induction Hd as [|d ds Hd1 Hd IH]; intros acc Hne; [done|]. cbn [fmap list_fmap app read_digits].
  rewrite char_digit_char by done. destruct ds as [|d' ds].
  - cbn. destruct rest as [|c rest]; [done|]. cbn. by rewrite Hrest.
  - rewrite IH by done. done.
Qed.

Lemma dec_digits_nonempty n : dec_digits 20 n <> [].
Proof. cbn [dec_digits]. intros H. by apply app_nil in H as [_ H]. Qed.

Lemma stol_dec n rest : 0 <= n < 2 ^ 63 -> match rest with [] => True | c :: _ => char_digit c = None end -> stol (dec n ++ rest) = Ok n.
Proof.
  intros Hn Hrest. unfold stol, dec. rewrite dec_loop_digits, app_nil_r.
  pose proof (dec_digits_range 20 n) as Hr. pose proof (dec_digits_nonempty n) as Hne.
  pose proof (read_digits_digits _ None rest Hr Hne Hrest) as Hread. cbn [default] in Hread. rewrite dec_digits_value in Hread by (cbn; lia).
  destruct (dec_digits 20 n) as [|d ds] eqn:Hds; [done|]. inversion Hr; subst. cbn [fmap list_fmap app skip_space] in *.
  rewrite digit_not_space by done. destruct (decide (digit_char d = "-"%char \/ digit_char d = "+"%char)) as [Hc|Hc].
  { exfalso. pose proof (char_digit_char d ltac:(done)) as Hd. by destruct Hc as [Hc|Hc]; rewrite Hc in Hd. }
  assert (forall A (x y z : A), match digit_char d with "-"%char => x | "+"%char => y | _ => z end = z) as Hmatch.
  { intros A x y z. destruct (digit_char d) as [[] [] [] [] [] [] [] []]; try done; exfalso; apply Hc; auto. }
  rewrite Hmatch, Hread. destruct (Z.ltb_spec n (- 2 ^ 63)), (Z.leb_spec (2 ^ 63) n); cbn [orb]; try lia.
  f_equal. apply wrap64_small. unfold u64. rewrite M64_val. lia.
Qed.

(** ** Names *)

Lemma after_app c pre rest : c ∉ pre -> after c (pre ++ c :: rest) = Some rest.
Proof.
  induction pre as [|x pre IH]; intros Hc; cbn [app after]; [by destruct (ascii_dec c c)|].
  apply not_elem_of_cons in Hc as [Hx Hc]. destruct (ascii_dec x c); [by subst|]. by apply IH.
Qed.
Lemma after_none c l : c ∉ l -> after c l = None.
Proof.
  induction l as [|x l IH]; intros Hc; cbn [after]; [done|]. apply not_elem_of_cons in Hc as [Hx Hc].
  destruct (ascii_dec x c); [by subst|]. by apply IH.
Qed.
Lemma dec_no_char c n : char_digit c = None -> c ∉ dec n.
Proof.
  intros Hc Hin. unfold dec in Hin. rewrite dec_loop_digits, app_nil_r in Hin. apply list_elem_of_fmap in Hin as (d & -> & Hd).
  pose proof (dec_digits_range 20 n) as Hr. rewrite Forall_forall in Hr. by rewrite char_digit_char in Hc by (by apply Hr).
Qed.
(** Names are made of known characters and numbers. *)
Ltac no_char := repeat first [ rewrite not_elem_of_app; split | apply dec_no_char; reflexivity
  | match goal with |- _ ∉ str _ => vm_compute end | apply not_elem_of_cons; split; [discriminate|] | apply not_elem_of_nil ].

Lemma start_of_file_name n r : 0 <= n < 2 ^ 63 -> get_start_idx_from_file_name (file_name_of n r) = Ok n.
Proof.
  intros Hn. unfold get_start_idx_from_file_name, file_name_of. change (str "ledger_") with (str "ledger" ++ ["_"%char]).
  destruct r; rewrite <- !app_assoc; cbn [app]; rewrite after_app by no_char; [by apply stol_dec|].
  rewrite <- (app_nil_r (dec n)). by apply stol_dec.
Qed.
Lemma last_of_file_name n r : get_last_idx_from_file_name (file_name_of n r) = Ok None.
Proof. unfold get_last_idx_from_file_name, file_name_of. destruct r; rewrite after_none; [done|no_char|done|no_char]. Qed.
Lemma start_of_committed n m r : 0 <= n < 2 ^ 63 -> get_start_idx_from_file_name (committed_file_name n m r) = Ok n.
Proof.
  intros Hn. unfold get_start_idx_from_file_name, committed_file_name. change (str "ledger_") with (str "ledger" ++ ["_"%char]).
  destruct r; rewrite <- !app_assoc; cbn [app]; rewrite after_app by no_char; by apply stol_dec.
Qed.
Lemma last_of_committed n m r : 0 <= m < 2 ^ 63 -> get_last_idx_from_file_name (committed_file_name n m r) = Ok (Some m).
Proof.
  intros Hn. unfold get_last_idx_from_file_name, committed_file_name. change (str "-") with ["-"%char].
  destruct r; rewrite <- ?app_assoc; cbn [app]; rewrite (app_assoc (str "ledger_")), after_app by no_char; by rewrite stol_dec.
Qed.

Lemma ends_with_app a t suffix : (length suffix <= length t)%nat -> ends_with (a ++ t) suffix = ends_with t suffix.
Proof.
  intros Hl. unfold ends_with. rewrite length_app. f_equal; [apply eq_iff_eq_true; rewrite !Nat.leb_le; lia|].
  rewrite (drop_app_ge a) by lia. by replace (length a + length t - length suffix - length a)%nat with (length t - length suffix)%nat by lia.
Qed.
Lemma remove_suffix_app a suffix : remove_suffix (a ++ suffix) suffix = a.
Proof.
  unfold remove_suffix, ends_with. rewrite length_app. replace (length a + length suffix - length suffix)%nat with (length a) by lia.
  rewrite (drop_app_length a), bool_decide_true by done. destruct (Nat.leb_spec (length suffix) (length a + length suffix)); [|lia]. cbn. apply take_app_length.
Qed.
Lemma ends_with_last s suffix c : ends_with s suffix = true -> last suffix = Some c -> last s = Some c.
Proof.
  unfold ends_with. intros [_ H]%andb_true_iff Hc. apply bool_decide_eq_true in H. rewrite <- (take_drop (length s - length suffix) s), H, last_app, Hc. done.
Qed.
Lemma dec_last n : exists d, 0 <= d < 10 /\ last (dec n) = Some (digit_char d).
Proof.
  unfold dec. rewrite dec_loop_digits, app_nil_r. cbn [dec_digits]. rewrite fmap_app, last_app. exists (n mod 10). split; [apply Z.mod_pos_bound; lia|done].
Qed.
Lemma file_name_suffix n r suffix c : last suffix = Some c -> char_digit c = None -> (r = true -> ends_with (str ".recovery") suffix = false /\ (length suffix <= 9)%nat) ->
  ends_with (file_name_of n r) suffix = false.
Proof.
  intros Hc Hd Hr. unfold file_name_of. destruct r.
  - destruct (Hr eq_refl) as [H Hl]. rewrite ends_with_app by exact Hl. done.
  - apply not_true_is_false. intros H. apply (ends_with_last _ _ c) in H; [|done]. destruct (dec_last n) as (d & Hdd & Hlast). rewrite last_app, Hlast in H.
    injection H as <-. by rewrite char_digit_char in Hd.
Qed.
Lemma file_name_not_committed n r : is_ledger_file_name_committed (file_name_of n r) = false.
Proof. apply (file_name_suffix _ _ _ "d"%char); [done..|]. intros H. split; [try done|cbn; lia]. Qed.
Lemma file_name_not_ignored n r : is_ledger_file_name_ignored (file_name_of n r) = false.
Proof. apply (file_name_suffix _ _ _ "d"%char); [done..|]. intros H. split; [try done|cbn; lia]. Qed.
Lemma file_name_recovery n : is_ledger_file_name_recovery (file_name_of n false) = false.
Proof. apply (file_name_suffix _ _ _ "y"%char); [done..|]. intros H. split; [try done|cbn; lia]. Qed.
Lemma committed_suffix n m r suffix : (length suffix <= 9)%nat -> ends_with (committed_file_name n m r) suffix = ends_with (if r then str ".recovery" else str ".committed") suffix.
Proof.
  intros Hl. unfold committed_file_name. destruct r; rewrite !app_assoc; apply ends_with_app; [done|]. etrans; [exact Hl|]. cbn. lia.
Qed.
Lemma committed_name_flags n m r : is_ledger_file_name_committed (committed_file_name n m r) = negb r /\
  is_ledger_file_name_recovery (committed_file_name n m r) = r /\ is_ledger_file_name_ignored (committed_file_name n m r) = false.
Proof.
  unfold is_ledger_file_name_committed, is_ledger_file_name_recovery, is_ledger_file_name_ignored.
  rewrite !committed_suffix by (cbn; lia). by destruct r.
Qed.
Lemma open_file_name n : remove_recovery_suffix (file_name_of n true) = file_name_of n false.
Proof. apply remove_suffix_app. Qed.
Lemma open_committed_name n m : remove_recovery_suffix (committed_file_name n m true) = committed_file_name n m false.
Proof. apply remove_suffix_app. Qed.

Lemma file_name_inj n n' r r' : 0 <= n < 2 ^ 63 -> 0 <= n' < 2 ^ 63 -> file_name_of n r = file_name_of n' r' -> n = n'.
Proof. intros Hn Hn' H. pose proof (start_of_file_name n r Hn) as Hs. rewrite H, start_of_file_name in Hs by done. by injection Hs. Qed.
Lemma file_name_not_committed_name n r n' m' r' : 0 <= m' < 2 ^ 63 -> file_name_of n r <> committed_file_name n' m' r'.
Proof. intros Hm H. pose proof (last_of_file_name n r) as Hs. by rewrite H, last_of_committed in Hs. Qed.

(** ** The bytes of a file *)

Lemma mjoin_slice {A} k m (es : list (list A)) :
  take (length (mjoin (take m (drop k es)))) (drop (length (mjoin (take k es))) (mjoin es)) = mjoin (take m (drop k es)).
Proof.
  rewrite <- (take_drop k es) at 3. rewrite join_app, drop_app_length.
  rewrite <- (take_drop m (drop k es)) at 2. by rewrite join_app, take_app_length.
Qed.
Lemma length_mjoin_take {A} k (es : list (list A)) : (length (mjoin (take k es)) <= length (mjoin es))%nat.
Proof. rewrite <- (take_drop k es) at 2. rewrite join_app, length_app. lia. Qed.

Lemma mjoin_cons {A} (e : list A) es : mjoin (e :: es) = e ++ mjoin es.
Proof. done. Qed.

Fixpoint offsets (p : Z) (es : list (list Z)) : list Z :=
  match es with [] => [] | e :: es => p :: offsets (p + zlen e) es end.
Lemma length_offsets p es : length (offsets p es) = length es.
Proof. revert p. induction es as [|e es IH]; intros p; cbn; [done|]. by rewrite IH. Qed.
Lemma offsets_lookup p es k : (k < length es)%nat -> offsets p es !! k = Some (p + zlen (mjoin (take k es))).
Proof.
  revert p k. induction es as [|e es IH]; intros p k Hk; cbn in Hk; [lia|]. destruct k as [|k]; cbn [offsets lookup list_lookup take]; [f_equal; cbn; lia|].
  rewrite IH by lia. f_equal. rewrite mjoin_cons, length_app. lia.
Qed.
Lemma offsets_app p es es' : offsets p (es ++ es') = offsets p es ++ offsets (p + zlen (mjoin es)) es'.
Proof.
  revert p. induction es as [|e es IH]; intros p; cbn [offsets app]; [cbn; by rewrite Z.add_0_r|]. rewrite IH, mjoin_cons, length_app. do 2 f_equal. f_equal. lia.
Qed.
Lemma take_offsets p k es : take k (offsets p es) = offsets p (take k es).
Proof. revert p k. induction es as [|e es IH]; intros p [|k]; cbn; try done. by rewrite IH. Qed.

(** A file with entries: the offset of the table, the entries, the table. *)
Definition table (es : list (list Z)) : list Z := mjoin (le_bytes 4 <$> offsets 8 es).
Definition layout (c : bool) (es : list (list Z)) : list Z :=
  le_bytes 8 (if c then 8 + zlen (mjoin es) else 0) ++ mjoin es ++ (if c then table es else []).

Lemma length_layout es : zlen (layout false es) = 8 + zlen (mjoin es).
Proof. unfold layout. rewrite !length_app, length_le_bytes. cbn. lia. Qed.

(** [f] is a file with entries [es] and the bytes [b]. *)
Record holds (b : list Z) (f : LedgerFile) (es : list (list Z)) : Prop := {
  holds_positions : positions f = offsets 8 es;
  holds_total : total_len f = 8 + zlen (mjoin es);
  holds_small : 8 + zlen (mjoin es) < 2 ^ 32;
  holds_bytes : b = layout (completed f) es;
  holds_entries : Forall (fun e => 0 < zlen e) es;
  holds_start : 0 < start_idx f;
  holds_last : start_idx f + zlen es < 2 ^ 63 }.

Lemma entries_length (es : list (list Z)) : Forall (fun e => 0 < zlen e) es -> zlen es <= zlen (mjoin es).
Proof. induction 1 as [|e es He Hes IH]; [cbn; lia|]. rewrite mjoin_cons, length_app. cbn [length]. lia. Qed.

Section file.
Context (b : list Z) (f : LedgerFile) (es : list (list Z)) (Hf : holds b f es).

Lemma holds_last_idx : file_last_idx f = start_idx f + zlen es - 1.
Proof using Hf.
  unfold file_last_idx. rewrite (holds_positions _ _ _ Hf), length_offsets. apply wrap64_small. unfold u64. rewrite M64_val.
  pose proof (holds_start _ _ _ Hf). pose proof (holds_last _ _ _ Hf). lia.
Qed.
Lemma holds_position_at k : (Z.to_nat k < length es)%nat -> position_at f k = Ok (8 + zlen (mjoin (take (Z.to_nat k) es))).
Proof using Hf. intros Hk. unfold position_at. by rewrite (holds_positions _ _ _ Hf), offsets_lookup. Qed.

(** The position behind an entry. *)
Lemma holds_position_to to : start_idx f <= to <= file_last_idx f ->
  (if to =? file_last_idx f then Ok (total_len f) else position_at f (to - start_idx f + 1)) = Ok (8 + zlen (mjoin (take (Z.to_nat (to - start_idx f + 1)) es))).
Proof using Hf.
  intros Ht. rewrite holds_last_idx in *. destruct (Z.eqb_spec to (start_idx f + zlen es - 1)) as [->|].
  - rewrite (holds_total _ _ _ Hf), take_ge by lia. done.
  - apply holds_position_at. lia.
Qed.

Definition slice (from to : Z) : list (list Z) := take (Z.to_nat (to - from + 1)) (drop (Z.to_nat (from - start_idx f)) es).

Lemma slice_size from to : start_idx f <= from <= to -> to <= file_last_idx f ->
  zlen (mjoin (take (Z.to_nat (to - start_idx f + 1)) es)) = zlen (mjoin (take (Z.to_nat (from - start_idx f)) es)) + zlen (mjoin (slice from to)).
Proof using Type.
  intros Hft Ht. unfold slice. replace (Z.to_nat (to - start_idx f + 1)) with (Z.to_nat (from - start_idx f) + Z.to_nat (to - from + 1))%nat by lia.
  rewrite <- take_take_drop, join_app, length_app. lia.
Qed.
Lemma slice_nonempty from to : start_idx f <= from <= to -> to <= file_last_idx f -> 0 < zlen (mjoin (slice from to)).
Proof using Hf.
  intros Hft Ht. rewrite holds_last_idx in Ht. assert (Forall (fun e => 0 < zlen e) (slice from to)) as H.
  { unfold slice. apply Forall_take, Forall_drop, (holds_entries _ _ _ Hf). }
  pose proof (entries_length _ H). assert (zlen (slice from to) = to - from + 1); [|lia]. unfold slice. rewrite length_take, length_drop. lia.
Qed.

(** How many bytes a reader wants at most. *)
Definition within (max : option Z) (n : Z) : Prop := match max with None => True | Some m => n <= m end.

Lemma entries_size_step fuel from to max : start_idx f <= from <= to -> to <= file_last_idx f ->
  entries_size_loop (S fuel) f from to max =
    if match max with None => true | Some m => zlen (mjoin (slice from to)) <=? m end then Ok (zlen (mjoin (slice from to)), to)
    else if from =? to then Ok (0, 0) else entries_size_loop fuel f from (from + (to - from) / 2) max.
Proof using Hf.
  intros Hft Ht. cbn [entries_size_loop]. rewrite holds_position_to by lia. cbn [mbind result_bind]. rewrite holds_last_idx in Ht. rewrite holds_position_at by lia. cbn [mbind result_bind]. cbv zeta.
  rewrite (slice_size from to) by (rewrite ?holds_last_idx; lia).
  replace (8 + _ - _) with (zlen (mjoin (slice from to))) by lia. rewrite wrap64_small; [done|]. unfold u64. rewrite M64_val. split; [lia|].
  pose proof (slice_size from to Hft ltac:(rewrite holds_last_idx; lia)). pose proof (length_mjoin_take (Z.to_nat (to - start_idx f + 1)) es).
  pose proof (holds_small _ _ _ Hf). lia.
Qed.

(** Halving [to] ends with entries that fit, or with one that does not. *)
Lemma entries_size_loop_cap fuel from max : forall to, start_idx f <= from <= to -> to <= file_last_idx f -> to - from < 2 ^ Z.of_nat fuel ->
  (exists to', from <= to' <= to /\ entries_size_loop (S fuel) f from to max = Ok (zlen (mjoin (slice from to')), to') /\ within max (zlen (mjoin (slice from to'))) /\
     (within max (zlen (mjoin (slice from to))) -> to' = to)) \/
  (entries_size_loop (S fuel) f from to max = Ok (0, 0) /\ ~ within max (zlen (mjoin (slice from from))) /\ ~ within max (zlen (mjoin (slice from to)))).
Proof using Hf.
  induction fuel as [|fuel IH]; intros to Hft Ht Hfuel; rewrite entries_size_step by done.
  - cbn in Hfuel. assert (to = from) as -> by lia. rewrite Z.eqb_refl. destruct max as [m|]; cbn; [|left; exists from; split_and!; try done; lia].
    destruct (Z.leb_spec (zlen (mjoin (slice from from))) m); [left; exists from; split_and!; try done; lia|right; split_and!; [done|lia|lia]].
  - destruct max as [m|]; [|left; exists to; split_and!; try done; lia]. destruct (Z.leb_spec (zlen (mjoin (slice from to))) m) as [Hle|Hgt]; [left; exists to; split_and!; try done; lia|].
    destruct (Z.eqb_spec from to) as [->|Hne]; [right; cbn; split_and!; [done|lia|lia]|]. rewrite Nat2Z.inj_succ, Z.pow_succ_r in Hfuel by lia.
    assert (0 <= (to - from) / 2 < to - from) by (split; [apply Z.div_pos; lia|apply Z.div_lt; lia]). assert ((to - from) / 2 < 2 ^ Z.of_nat fuel) by (apply Z.div_lt_upper_bound; lia).
    destruct (IH (from + (to - from) / 2)) as [(to' & Hr & He & Hw & _)|(He & Hn & _)]; [lia|lia|lia| |].
    + left. exists to'. split_and!; [lia|lia|done|done|]. cbn. lia.
    + right. cbn in *. split_and!; [done|done|lia].
Qed.

Lemma layout_pread from to : start_idx f <= from <= to -> to <= file_last_idx f ->
  pread (8 + zlen (mjoin (take (Z.to_nat (from - start_idx f)) es))) (zlen (mjoin (slice from to))) b = Some (mjoin (slice from to)).
Proof using Hf.
  intros Hft Ht. pose proof (slice_size from to Hft Ht) as Hsz. pose proof (length_mjoin_take (Z.to_nat (to - start_idx f + 1)) es) as Hle.
  rewrite (holds_bytes _ _ _ Hf). unfold pread, layout, ztake, zdrop. rewrite !length_app, length_le_bytes.
  destruct (Z.leb_spec (8 + zlen (mjoin (take (Z.to_nat (from - start_idx f)) es)) + zlen (mjoin (slice from to))) (Z.of_nat (8 + (length (mjoin es) + length (if completed f then table es else []))))); [|lia].
  f_equal. rewrite drop_app_ge by (rewrite length_le_bytes; lia). rewrite length_le_bytes.
  replace (Z.to_nat (8 + zlen (mjoin (take (Z.to_nat (from - start_idx f)) es))) - 8)%nat with (length (mjoin (take (Z.to_nat (from - start_idx f)) es))) by lia.
  rewrite drop_app_le by lia. rewrite take_app_le by (rewrite length_drop; lia). rewrite Nat2Z.id. apply mjoin_slice.
Qed.

(** What a reader gets: the entries that fit, in order, all of them if they fit;
    nothing if the first one does not. *)
Lemma file_read_cap from to max fs : start_idx f <= from <= to -> to <= file_last_idx f -> bytes_of (inode f) fs = b ->
  (exists to', from <= to' <= to /\ file_read_entries f from to max fs = Ok (Some (mjoin (slice from to'), to')) /\ within max (zlen (mjoin (slice from to'))) /\
     (within max (zlen (mjoin (slice from to))) -> to' = to)) \/
  (file_read_entries f from to max fs = Ok None /\ ~ within max (zlen (mjoin (slice from from))) /\ ~ within max (zlen (mjoin (slice from to)))).
Proof using Hf.
  intros Hft Ht Hb. unfold file_read_entries, entries_size. destruct (Z.ltb_spec from (start_idx f)), (Z.ltb_spec (file_last_idx f) to), (Z.ltb_spec to from); cbn [orb]; try lia.
  pose proof (holds_start _ _ _ Hf). pose proof (holds_last _ _ _ Hf). pose proof holds_last_idx as Hl. assert (to - from < 2 ^ Z.of_nat 64) by (change (2 ^ Z.of_nat 64) with (2 * 2 ^ 63); lia).
  destruct (entries_size_loop_cap 64 from max to Hft Ht) as [(to' & Hr & -> & Hw & Hall)|(-> & Hn & Hn')]; [done| |by right].
  left. exists to'. split; [done|]. split; [|done]. cbn [mbind result_bind]. pose proof (slice_nonempty from to' ltac:(lia) ltac:(lia)). destruct (Z.eqb_spec (zlen (mjoin (slice from to'))) 0); [lia|].
  rewrite holds_position_at by lia. cbn [mbind result_bind]. rewrite Hb, layout_pread by lia. done.
Qed.
End file.

(** ** Writing *)

Lemma bytes_of_set i c fs : bytes_of i (set_bytes i c fs) = c.
Proof. unfold bytes_of, set_bytes. cbn. by rewrite lookup_insert_eq. Qed.
Lemma bytes_of_set_ne i j c fs : i <> j -> bytes_of j (set_bytes i c fs) = bytes_of j fs.
Proof. intros Hij. unfold bytes_of, set_bytes. cbn. by rewrite lookup_insert_ne. Qed.
Lemma set_bytes_twice i c c' fs : set_bytes i c (set_bytes i c' fs) = set_bytes i c fs.
Proof. unfold set_bytes. cbn. by rewrite insert_insert_eq. Qed.

(** At the end of what is there, and over what is there. *)
Lemma pwrite_end c data : pwrite (zlen c) data c = c ++ data.
Proof.
  unfold pwrite, ztake, zdrop, zeros. rewrite Nat2Z.id, take_ge by lia. replace (zlen c - zlen c) with 0 by lia.
  rewrite drop_ge by lia. by rewrite app_nil_r.
Qed.
Lemma pwrite_start c data : (length data <= length c)%nat -> pwrite 0 data c = data ++ drop (length data) c.
Proof.
  intros Hl. unfold pwrite, ztake, zdrop, zeros. replace (Z.to_nat (0 - zlen c)) with 0%nat by lia. cbn [Z.to_nat take replicate app].
  by replace (Z.to_nat (0 + zlen data)) with (length data) by lia.
Qed.

(** Evaluates the operations of the monad. *)
Ltac mrun := unfold write_at, ftruncate, mbind, M_bind, mret, M_ret, modify, lift; cbv beta iota zeta.

Definition same_file (f f' : LedgerFile) : Prop :=
  file_name f' = file_name f /\ inode f' = inode f /\ start_idx f' = start_idx f /\ committed f' = committed f /\ recovery f' = recovery f.

Lemma layout_snoc es e : layout false es ++ e = layout false (es ++ [e]).
Proof. unfold layout. rewrite join_app, mjoin_cons. change (mjoin []) with (@nil Z). by rewrite !app_nil_r, <- app_assoc. Qed.

(** The file is new and has no bytes, or holds entries. *)
Lemma write_entry_holds b f es e fs :
  positions f = offsets 8 es -> total_len f = 8 + zlen (mjoin es) -> (b = layout false es \/ es = [] /\ b = []) -> Forall (fun e => 0 < zlen e) es ->
  0 < start_idx f -> completed f = false -> bytes_of (inode f) fs = b -> 0 < zlen e -> total_len f + zlen e < 2 ^ 32 -> start_idx f + zlen es + 1 < 2 ^ 63 ->
  exists f', file_write_entry f e fs = (set_bytes (inode f) (layout false (es ++ [e])) fs, Ok f') /\
    holds (layout false (es ++ [e])) f' (es ++ [e]) /\ same_file f f' /\ completed f' = false.
Proof.
  intros Hp Ht Hb He Hs Hc Hbytes He1 Hsmall Hlast. unfold file_write_entry. destruct (Z.eqb_spec (zlen e) 0); [lia|].
  mrun. rewrite Hbytes. replace (pwrite (total_len f) e b) with (layout false (es ++ [e])).
  2:{ destruct Hb as [->|[-> ->]].
      - rewrite Ht, <- length_layout, pwrite_end. symmetry. apply layout_snoc.
      - rewrite Ht. unfold pwrite, ztake, zdrop, layout. rewrite take_nil, drop_nil, app_nil_l, mjoin_cons. change (mjoin []) with (@nil Z). by rewrite !app_nil_r. }
  eexists. split; [reflexivity|]. assert (zlen (mjoin (es ++ [e])) = zlen (mjoin es) + zlen e) as Hlen by (rewrite join_app, length_app, mjoin_cons, app_nil_r; lia).
  split; [|by split_and!; rewrite ?Hc]. split; cbn; rewrite ?Hc, ?Hlen; try done.
  - rewrite Hp, Ht, offsets_app. cbn. unfold wrap32. rewrite Z.mod_small by lia. done.
  - rewrite wrap64_small by (unfold u64; rewrite M64_val; lia). lia.
  - lia.
  - apply Forall_app. split; [done|]. by repeat constructor.
  - rewrite length_app. cbn. lia.
Qed.

Lemma length_table es : zlen (table es) = 4 * zlen es.
Proof.
  unfold table. rewrite <- (length_offsets 8 es). induction (offsets 8 es) as [|p l IH]; [done|]. cbn [fmap list_fmap]. rewrite mjoin_cons, length_app, length_le_bytes. cbn [length]. lia.
Qed.

Lemma complete_holds b f es fs : holds b f es -> completed f = false -> bytes_of (inode f) fs = b ->
  exists f', file_complete f fs = (set_bytes (inode f) (layout true es) fs, Ok f') /\ holds (layout true es) f' es /\ same_file f f' /\ completed f' = true.
Proof.
  intros [Hp Ht Hsm Hb He Hs Hl] Hc Hbytes. unfold file_complete. rewrite Hc. mrun. rewrite bytes_of_set, set_bytes_twice, Hbytes, Hb, Hc, Ht.
  rewrite <- length_layout, pwrite_end, length_layout, Hp. fold (table es).
  rewrite pwrite_start by (rewrite length_app, length_le_bytes; unfold layout; rewrite length_app, length_le_bytes; lia).
  assert (le_bytes 8 (8 + zlen (mjoin es)) ++ drop (length (le_bytes 8 (8 + zlen (mjoin es)))) (layout false es ++ table es) = layout true es) as ->.
  { unfold layout. rewrite length_le_bytes, app_nil_r, <- app_assoc. f_equal. }
  eexists. split; [reflexivity|]. split; [|by split_and!]. by split.
Qed.

(** Cut inside the file, at its end, or completely. *)
Lemma truncate_holds b f es idx fs : holds b f es -> committed f = false -> bytes_of (inode f) fs = b -> start_idx f <= idx < file_last_idx f ->
  let es' := take (Z.to_nat (idx - start_idx f + 1)) es in
  exists f', file_truncate f idx fs = (set_bytes (inode f) (layout false es') fs, Ok (f', false)) /\ holds (layout false es') f' es' /\ same_file f f' /\ completed f' = false.
Proof.
  intros Hf Hc Hbytes Hidx es'. pose proof (holds_last_idx _ _ _ Hf) as Hlast. destruct (Hf) as [Hp Ht Hsm Hb He Hs Hl]. unfold file_truncate. rewrite Hc. cbn [orb].
  rewrite (wrap64_small (start_idx f - 1)) by (unfold u64; rewrite M64_val; lia).
  destruct (Z.ltb_spec idx (start_idx f - 1)); [lia|]. destruct (Z.leb_spec (file_last_idx f) idx); [lia|]. rewrite andb_false_r. cbn [orb].
  destruct (Z.eqb_spec idx (start_idx f - 1)); [lia|]. destruct (Z.eqb_spec idx (file_last_idx f)); [lia|]. cbn [negb].
  mrun. rewrite (holds_position_at _ _ _ Hf) by lia. cbn [set_contents inode total_len]. fold es'. rewrite !bytes_of_set, !set_bytes_twice, Hbytes, Hb.
  assert (zlen (mjoin es') <= zlen (mjoin es)) as Hle by (pose proof (length_mjoin_take (Z.to_nat (idx - start_idx f + 1)) es); unfold es'; lia).
  rewrite pwrite_start by (unfold layout; rewrite !length_app, !length_le_bytes; lia). rewrite length_le_bytes.
  unfold layout at 1 2. rewrite drop_app_ge by (rewrite length_le_bytes; lia). rewrite length_le_bytes, Nat.sub_diag, drop_0.
  replace (_ ++ zeros _) with (layout false es').
  2:{ unfold ztake, zeros. rewrite take_app_ge by (rewrite length_le_bytes; lia). rewrite length_le_bytes.
      replace (Z.to_nat (8 + zlen (mjoin es')) - 8)%nat with (length (mjoin es')) by lia. rewrite take_app_le by lia.
      rewrite !length_app, length_le_bytes. replace (Z.to_nat _) with 0%nat by lia. cbn [replicate]. rewrite app_nil_r.
      unfold layout. rewrite app_nil_r. f_equal. pose proof (mjoin_slice 0 (Z.to_nat (idx - start_idx f + 1)) es) as Hm.
      change (length (mjoin (take 0 es))) with 0%nat in Hm. by rewrite !drop_0 in Hm. }
  eexists. split; [reflexivity|]. split; [|by split_and!]. split; cbn; try done.
  - by rewrite Hp, take_offsets.
  - lia.
  - by apply Forall_take.
  - unfold es'. rewrite length_take. lia.
Qed.

Lemma truncate_end_holds b f es t fs : holds b f es -> es <> [] -> bytes_of (inode f) fs = b ++ t -> (committed f || completed f = true -> t = []) ->
  exists fs', file_truncate f (file_last_idx f) fs = (fs', Ok (f, false)) /\ ((fs' = fs /\ t = []) \/ fs' = set_bytes (inode f) b fs).
Proof.
  intros Hf Hne Hbytes Htc. pose proof (holds_last_idx _ _ _ Hf) as Hlast. destruct (Hf) as [Hp Ht Hsm Hb He Hs Hl]. assert (0 < zlen es) by (destruct es; [done|cbn; lia]).
  unfold file_truncate. destruct (committed f); [exists fs; auto|]. cbn [orb] in *.
  rewrite (wrap64_small (start_idx f - 1)) by (unfold u64; rewrite M64_val; lia). destruct (Z.ltb_spec (file_last_idx f) (start_idx f - 1)); [lia|].
  rewrite Z.leb_refl, andb_true_r. destruct (completed f) eqn:Hc; [exists fs; auto|]. cbn [orb]. destruct (Z.eqb_spec (file_last_idx f) (start_idx f - 1)); [lia|].
  rewrite Z.eqb_refl. cbn [negb]. mrun. rewrite !bytes_of_set, !set_bytes_twice, Hbytes, Hb, Ht.
  assert (set_completed false f = f) as -> by (destruct f; cbn in *; by rewrite Hc). eexists. split; [reflexivity|]. right. f_equal.
  rewrite pwrite_start by (unfold layout; rewrite !length_app, !length_le_bytes; lia). rewrite length_le_bytes.
  change (le_bytes 8 0 ++ drop 8 (layout false es ++ t)) with (layout false es ++ t). rewrite <- length_layout. unfold ztake, zeros. rewrite Nat2Z.id, take_app_length.
  rewrite length_app. replace (Z.to_nat _) with 0%nat by lia. by rewrite app_nil_r.
Qed.

Lemma remove_run b f es fs : holds b f es -> es <> [] -> committed f = false -> ledger_dir fs !! file_name f = Some (inode f) ->
  file_truncate f (wrap64 (start_idx f - 1)) fs = (set_ledger_dir (delete (file_name f) (ledger_dir fs)) fs, Ok (f, true)).
Proof.
  intros Hf Hne Hc Hd. pose proof (holds_last_idx _ _ _ Hf) as Hlast. destruct (Hf) as [Hp Ht Hsm Hb He Hs Hl]. assert (0 < zlen es) by (destruct es; [done|cbn; lia]).
  unfold file_truncate. rewrite Hc, Z.ltb_irrefl, Z.eqb_refl. rewrite (wrap64_small (start_idx f - 1)) by (unfold u64; rewrite M64_val; lia).
  destruct (Z.leb_spec (file_last_idx f) (start_idx f - 1)); [lia|]. rewrite andb_false_r. cbn [orb]. mrun. unfold remove_file.
  rewrite bool_decide_true by (by eexists). done.
Qed.

Lemma file_rename_run f n fs : ledger_dir fs !! file_name f = Some (inode f) ->
  file_rename f n fs = (set_ledger_dir (<[n := inode f]> (delete (file_name f) (ledger_dir fs))) fs, Ok (set_file_name n f)).
Proof. intros Hd. unfold file_rename, rename_file. by rewrite Hd. Qed.

(** ** Opening *)

Lemma read_table_spec ps rest : Forall (fun p => 0 <= p < 2 ^ 32) ps -> read_table (length ps) (mjoin (le_bytes 4 <$> ps) ++ rest) = ps.
Proof.
  induction 1 as [|p ps Hp Hps IH]; [done|]. cbn [length fmap list_fmap read_table]. rewrite mjoin_cons, <- app_assoc.
  rewrite take_app_le, take_ge by (rewrite length_le_bytes; lia). rewrite le_val_le_bytes, Z.mod_small by exact Hp.
  rewrite drop_app_ge by (rewrite length_le_bytes; lia). rewrite length_le_bytes, drop_0. by rewrite IH.
Qed.
Lemma offsets_range p es : 0 <= p -> p + zlen (mjoin es) < 2 ^ 32 -> Forall (fun q => 0 <= q < 2 ^ 32) (offsets p es).
Proof.
  revert p. induction es as [|e es IH]; intros p Hp H; cbn [offsets]; [constructor|]. rewrite mjoin_cons, length_app in H.
  constructor; [lia|]. apply IH; lia.
Qed.

(** An entry whose header gives its size. *)
Definition entry_ok (e : list Z) : Prop := bytes_ok e /\ 8 <= zlen e /\ entry_size (le_val (take 8 e)) = zlen e - 8.

(** The beginning of an entry, as a write that was cut short leaves it. *)
Definition torn (t : list Z) : Prop := exists e k, entry_ok e /\ (k < length e)%nat /\ t = take k e.

Lemma recover_positions_spec fuel es t total ps : Forall entry_ok es -> torn t -> zlen es < Z.of_nat fuel -> 0 <= total -> total + zlen (mjoin es) < 2 ^ 32 ->
  recover_positions fuel (zlen (mjoin es ++ t)) total (mjoin es ++ t) ps = (total + zlen (mjoin es), ps ++ offsets total es).
Proof.
  intros Hok Ht0. revert fuel total ps. induction Hok as [|e es (Hb & Hl & Hs) Hok IH]; intros fuel total ps Hf Ht Hsm; (destruct fuel as [|fuel]; [lia|]); cbn [recover_positions].
  - change (mjoin [] ++ t) with t. change (zlen (mjoin [])) with 0. cbn [offsets]. rewrite Z.add_0_r, app_nil_r. destruct Ht0 as (e & k & (_ & He & Hsz) & Hk & ->).
    unfold entry_header_size. rewrite length_take, Nat.min_l by lia. destruct (Z.ltb_spec (Z.of_nat k) 8); [done|]. rewrite take_take, Nat.min_l, Hsz by lia. destruct (Z.ltb_spec (Z.of_nat k - 8) (zlen e - 8)); [done|lia].
  - rewrite mjoin_cons, <- app_assoc in *. rewrite (length_app e (mjoin es ++ t)). rewrite (length_app e) in Hsm. cbn [length] in Hf. unfold entry_header_size. destruct (Z.ltb_spec (Z.of_nat (length e + length (mjoin es ++ t))) 8); [lia|].
    rewrite take_app_le by lia. rewrite Hs. destruct (Z.ltb_spec (Z.of_nat (length e + length (mjoin es ++ t)) - 8) (zlen e - 8)); [lia|].
    replace (8 + (zlen e - 8)) with (zlen e) by lia. unfold zdrop. rewrite Nat2Z.id, drop_app_length.
    replace (Z.of_nat (length e + length (mjoin es ++ t)) - 8 - (zlen e - 8)) with (zlen (mjoin es ++ t)) by lia.
    rewrite wrap64_small by (unfold u64; rewrite M64_val; lia). rewrite IH by lia. unfold wrap32. rewrite Z.mod_small by lia.
    cbn [offsets]. rewrite <- app_assoc, (length_app e). f_equal. lia.
Qed.

(** A file that was written is read back; what was cut short at its end is left out. *)
Lemma open_torn d n i s c es t fs : d !! n = Some i -> bytes_of i fs = layout c es ++ t -> torn t -> (c = true -> t = []) -> get_start_idx_from_file_name n = Ok s ->
  Forall entry_ok es -> 8 + zlen (mjoin es) < 2 ^ 32 -> 0 < s -> s + zlen es < 2 ^ 63 ->
  exists f, open_ledger_file d n fs = Ok f /\ holds (layout c es) f es /\ file_name f = n /\ inode f = i /\ start_idx f = s /\
    completed f = c /\ committed f = is_ledger_file_name_committed n /\ recovery f = false.
Proof.
  intros Hd Hb Ht Htc Hs Hok Hsm Hs0 Hs1. unfold open_ledger_file. rewrite Hd, Hs. cbn [mbind result_bind]. rewrite Hb.
  assert (Forall (fun e => 0 < zlen e) es) as Hpos by (eapply Forall_impl; [exact Hok|]; intros e (_ & ? & _); lia).
  assert (pread 0 header_size (layout c es ++ t) = Some (le_bytes 8 (if c then 8 + zlen (mjoin es) else 0))) as ->.
  { unfold pread, header_size, layout. rewrite <- !app_assoc, length_app, length_le_bytes. destruct (Z.leb_spec (0 + 8) (Z.of_nat (8 + length (mjoin es ++ (if c then table es else []) ++ t)))); [|lia].
    f_equal. }
  rewrite le_val_le_bytes. destruct c.
  - rewrite (Htc eq_refl), app_nil_r. rewrite Z.mod_small by (change (256 ^ Z.of_nat 8) with (2 ^ 64); lia). destruct (Z.eqb_spec (8 + zlen (mjoin es)) 0); [lia|]. cbn [negb].
    assert (zlen (layout true es) = 8 + zlen (mjoin es) + 4 * zlen es) as Hlen by (unfold layout; rewrite !length_app, length_le_bytes; pose proof (length_table es); lia).
    destruct (Z.ltb_spec (zlen (layout true es)) (8 + zlen (mjoin es))); [lia|]. rewrite Hlen.
    replace (8 + zlen (mjoin es) + 4 * zlen es - (8 + zlen (mjoin es))) with (zlen es * 4) by lia. rewrite Z.div_mul, Nat2Z.id by lia.
    assert (zdrop (8 + zlen (mjoin es)) (layout true es) = table es) as ->.
    { unfold zdrop, layout. rewrite app_assoc, drop_app_ge by (rewrite length_app, length_le_bytes; lia). rewrite length_app, length_le_bytes.
      by replace (Z.to_nat (8 + zlen (mjoin es)) - (8 + length (mjoin es)))%nat with 0%nat by lia. }
    pose proof (read_table_spec (offsets 8 es) [] ltac:(apply offsets_range; lia)) as Hr. rewrite app_nil_r, length_offsets in Hr. unfold table. rewrite Hr.
    eexists. split; [reflexivity|]. by split_and!.
  - cbn [Z.modulo Z.div_eucl Z.eqb negb]. change (0 mod 256 ^ Z.of_nat 8 =? 0) with true. cbn [negb].
    assert (zdrop header_size (layout false es ++ t) = mjoin es ++ t) as ->.
    { unfold zdrop, header_size, layout. rewrite <- !app_assoc, drop_app_ge by (rewrite length_le_bytes; lia). by rewrite length_le_bytes. }
    pose proof (length_layout es) as Hlen. pose proof (entries_length es Hpos) as Hl. unfold header_size. replace (zlen (layout false es ++ t) - 8) with (zlen (mjoin es ++ t)) by (rewrite !length_app; lia).
    rewrite recover_positions_spec; [|done|done|rewrite length_app; lia|lia|lia]. eexists. split; [reflexivity|]. by split_and!.
Qed.

Lemma torn_nil : torn [].
Proof. exists (zeros 8), 0%nat. split; [|split; [vm_compute; lia|done]]. split; [|by split]. apply Forall_replicate. done. Qed.

Lemma open_holds d n i s c es fs : d !! n = Some i -> bytes_of i fs = layout c es -> get_start_idx_from_file_name n = Ok s ->
  Forall entry_ok es -> 8 + zlen (mjoin es) < 2 ^ 32 -> 0 < s -> s + zlen es < 2 ^ 63 ->
  exists f, open_ledger_file d n fs = Ok f /\ holds (layout c es) f es /\ file_name f = n /\ inode f = i /\ start_idx f = s /\
    completed f = c /\ committed f = is_ledger_file_name_committed n /\ recovery f = false.
Proof. intros Hd Hb. apply (open_torn d n i s c es []); [done|by rewrite app_nil_r|apply torn_nil|done]. Qed.

End HostFile.
