(* ===== verification/HostRefine.v ===== *)
(** * The ledger on disk gives back what was appended

    [inv] relates the host's ledger to a list of entries: chunks that are closed
    and known by name only ([olds]), then files that are written ([cur]).  The
    operations keep it, and reading a range gives the entries of the range, from
    whatever files they are in. *)
From S2P Require Import Prelude Monad Serialized HostLedger HostFile.
From stdpp Require Import list gmap strings sorting.
From Stdlib Require Import Ascii.
Local Open Scope Z_scope.

Module HostRefine.
Import Serialized HostLedger HostFile.

(** ** Directories as lists of names *)

Definition dir_is (d : Dir) (L : list (list ascii * nat)) : Prop := forall n i, d !! n = Some i <-> (n, i) ∈ L.

Lemma dir_is_perm d L L' : L ≡ₚ L' -> dir_is d L -> dir_is d L'.
Proof. intros Hp Hd n i. by rewrite <- Hp. Qed.
Lemma dir_is_insert d L n i : n ∉ L.*1 -> dir_is d L -> dir_is (<[n := i]> d) ((n, i) :: L).
Proof.
  intros Hn Hd n' i'. rewrite lookup_insert_Some, elem_of_cons, (Hd n' i'). split.
  - intros [[-> ->]|[Hne Hin]]; auto.
  - intros [[= -> ->]|Hin]; [by left|]. right. split; [|done]. intros ->. apply Hn. by apply (list_elem_of_fmap_2 fst) in Hin.
Qed.
Lemma dir_is_delete d L n i : NoDup (n :: L.*1) -> dir_is d ((n, i) :: L) -> dir_is (delete n d) L.
Proof.
  intros [Hn _]%NoDup_cons Hd n' i'. rewrite lookup_delete_Some, (Hd n' i'), elem_of_cons. split.
  - intros [Hne [[= -> ->]|Hin]]; done.
  - intros Hin. split; [|by right]. intros ->. apply Hn. by apply (list_elem_of_fmap_2 fst) in Hin.
Qed.

(** ** The relation *)

Definition rec_of (rs : option Z) (start : Z) : bool := match rs with Some r => r <? start | None => false end.
Definition name_of (f : LedgerFile) : list ascii :=
  if committed f then committed_file_name (start_idx f) (file_last_idx f) (recovery f) else file_name_of (start_idx f) (recovery f).

Fixpoint old_entries (s : Z) (olds : list (nat * list (list Z))) : list (list ascii * nat) :=
  match olds with [] => [] | (i, ch) :: olds => (committed_file_name s (s + zlen ch - 1) false, i) :: old_entries (s + zlen ch) olds end.
Definition old_ok (fs : FS) (o : nat * list (list Z)) : Prop :=
  o.2 <> [] /\ 8 + zlen (mjoin o.2) < 2 ^ 32 /\ bytes_of o.1 fs = layout true o.2.

Definition file_entry (p : LedgerFile * list (list Z)) : list ascii * nat := (file_name p.1, inode p.1).
Definition file_ok (fs : FS) (rs : option Z) (s : Z) (f : LedgerFile) (ch : list (list Z)) : Prop :=
  start_idx f = s /\ ch <> [] /\ holds (bytes_of (inode f) fs) f ch /\ recovery f = rec_of rs s /\ file_name f = name_of f /\
  (committed f = true -> completed f = true /\ recovery f = true).
Fixpoint cur_ok (fs : FS) (rs : option Z) (s : Z) (cur : list (LedgerFile * list (list Z))) : Prop :=
  match cur with [] => True | (f, ch) :: cur => file_ok fs rs s f ch /\ cur_ok fs rs (s + zlen ch) cur end.

(** A file of the cache: it has a part of the committed entries, and nobody writes it. *)
Definition cached (b c : Z) (es : list (list Z)) (fs : FS) (written : list nat) (f : LedgerFile) : Prop :=
  exists ch, ch <> [] /\ holds (bytes_of (inode f) fs) f ch /\ take (length ch) (drop (Z.to_nat (start_idx f - b - 1)) es) = ch /\
    b < start_idx f /\ file_last_idx f <= c /\ (inode f ∉ written) /\ (inode f < next_inode fs)%nat.

Definition written (cur : list (LedgerFile * list (list Z))) : list nat := (fun p => inode p.1) <$> (filter (fun p => committed p.1 = false) cur).

Record inv (b c : Z) (olds : list (nat * list (list Z))) (cur : list (LedgerFile * list (list Z))) (h : Ledger) : Prop := {
  inv_files : files h = cur.*1;
  inv_last : last_idx h = b + zlen (mjoin olds.*2) + zlen (mjoin cur.*2);
  inv_base : 0 <= b;
  inv_bounds : b + zlen (mjoin olds.*2) <= c <= last_idx h;
  inv_range : last_idx h < 2 ^ 62;
  inv_olds : Forall (old_ok (fs h)) olds;
  inv_cur : cur_ok (fs h) (recovery_start_idx h) (b + zlen (mjoin olds.*2) + 1) cur;
  inv_dir : dir_is (ledger_dir (fs h)) (old_entries (b + 1) olds ++ (file_entry <$> cur));
  inv_inodes : NoDup (olds.*1 ++ (inode <$> cur.*1)) /\ Forall (fun i => (i < next_inode (fs h))%nat) (olds.*1 ++ (inode <$> cur.*1));
  inv_committed : Forall (fun p => committed p.1 = true -> file_last_idx p.1 <= c) cur;
  inv_open : if require_new_file h then Forall (fun p => completed p.1 = true) cur
             else exists cur' p, cur = cur' ++ [p] /\ completed p.1 = false /\ Forall (fun p => completed p.1 = true) cur';
  inv_cache : Forall (cached b c (mjoin olds.*2 ++ mjoin cur.*2) (fs h) (written cur)) (files_read_cache h);
  inv_entries : Forall entry_ok (mjoin olds.*2 ++ mjoin cur.*2);
  inv_read_dirs : read_ledger_dirs (fs h) = [];
  inv_end : end_of_committed_files_idx h <= b + zlen (mjoin olds.*2) }.

(** Committed files come first, and what is not committed ends behind [c]. *)
Definition flushed (c : Z) (cur : list (LedgerFile * list (list Z))) : Prop :=
  Forall (fun p => file_last_idx p.1 < c -> committed p.1 = true) cur.

(** *** Starts and names *)

Lemma cur_ok_app fs rs s l1 l2 : cur_ok fs rs s (l1 ++ l2) <-> cur_ok fs rs s l1 /\ cur_ok fs rs (s + zlen (mjoin l1.*2)) l2.
Proof.
  revert s. induction l1 as [|[f ch] l1 IH]; intros s; cbn [app cur_ok fmap list_fmap snd].
  - cbn. rewrite Z.add_0_r. tauto.
  - rewrite IH, mjoin_cons, length_app. replace (s + zlen ch + zlen (mjoin l1.*2)) with (s + Z.of_nat (length ch + length (mjoin l1.*2))) by lia. tauto.
Qed.
Lemma cur_ok_fs fs fs' rs s cur : (forall p, p ∈ cur -> bytes_of (inode p.1) fs' = bytes_of (inode p.1) fs) -> cur_ok fs rs s cur -> cur_ok fs' rs s cur.
Proof.
  revert s. induction cur as [|[f ch] cur IH]; intros s Hb H; [done|]. destruct H as [(H1 & H2 & H3 & H4) H5]. split.
  - pose proof (Hb (f, ch) ltac:(left)) as E. cbn in E. split_and!; [done|done|by rewrite E|apply H4..].
  - apply IH; [|done]. intros p Hp. apply Hb. by right.
Qed.
Lemma cur_ok_last fs rs s cur p : cur_ok fs rs s cur -> p ∈ cur -> s <= start_idx p.1 /\ start_idx p.1 <= file_last_idx p.1 < s + zlen (mjoin cur.*2).
Proof.
  revert s. induction cur as [|[f ch] cur IH]; intros s H Hp; [by apply not_elem_of_nil in Hp|]. destruct H as [(<- & Hne & Hh & _) Hc].
  cbn [fmap list_fmap snd]. rewrite mjoin_cons, length_app. pose proof (holds_last_idx _ _ _ Hh) as Hl. assert (0 < zlen ch) by (destruct ch; [done|cbn; lia]).
  apply elem_of_cons in Hp as [->|Hp]; [cbn; lia|]. specialize (IH _ Hc Hp). lia.
Qed.

Lemma old_entries_elem s olds n i : (n, i) ∈ old_entries s olds ->
  exists o1 ch o2, olds = o1 ++ (i, ch) :: o2 /\ n = committed_file_name (s + zlen (mjoin o1.*2)) (s + zlen (mjoin o1.*2) + zlen ch - 1) false.
Proof.
  revert s. induction olds as [|[j ch] olds IH]; intros s H; cbn [old_entries] in H; [by apply not_elem_of_nil in H|].
  apply elem_of_cons in H as [[= -> ->]|H].
  - exists [], ch, olds. split; [done|]. cbn. by rewrite Z.add_0_r.
  - destruct (IH _ H) as (o1 & ch' & o2 & -> & ->). exists ((j, ch) :: o1), ch', o2. split; [done|]. cbn [fmap list_fmap snd]. rewrite mjoin_cons, length_app. f_equal; lia.
Qed.
Lemma old_entries_app s o1 o2 : old_entries s (o1 ++ o2) = old_entries s o1 ++ old_entries (s + zlen (mjoin o1.*2)) o2.
Proof.
  revert s. induction o1 as [|[j ch] o1 IH]; intros s; cbn [app old_entries fmap list_fmap snd].
  - cbn. by rewrite Z.add_0_r.
  - rewrite IH, mjoin_cons, length_app. do 3 f_equal. lia.
Qed.
Lemma olds_find s (olds : list (nat * list (list Z))) idx : s <= idx < s + zlen (mjoin olds.*2) ->
  exists o1 i ch o2, olds = o1 ++ (i, ch) :: o2 /\ s + zlen (mjoin o1.*2) <= idx < s + zlen (mjoin o1.*2) + zlen ch.
Proof.
  revert s. induction olds as [|[j ch] olds IH]; intros s H; [cbn in H; lia|]. cbn [fmap list_fmap snd] in H. rewrite mjoin_cons, length_app in H.
  destruct (Z.ltb_spec idx (s + zlen ch)).
  - exists [], j, ch, olds. split; [done|]. cbn. lia.
  - destruct (IH (s + zlen ch) ltac:(lia)) as (o1 & i & ch' & o2 & -> & H1). exists ((j, ch) :: o1), i, ch', o2. split; [done|].
    cbn [fmap list_fmap snd]. rewrite mjoin_cons, length_app. lia.
Qed.

(** The file that is written and has an index. *)
Lemma find_cur fs rs s cur idx : cur_ok fs rs s cur -> s <= idx < s + zlen (mjoin cur.*2) ->
  exists l1 f ch l2, cur = l1 ++ (f, ch) :: l2 /\ List.find (fun f => start_idx f <=? idx) (rev cur.*1) = Some f /\ start_idx f <= idx <= file_last_idx f /\
    start_idx f = s + zlen (mjoin l1.*2).
Proof.
  revert idx. induction cur as [|[f ch] cur IH] using rev_ind; intros idx H Hi; [cbn in Hi; lia|]. apply cur_ok_app in H as [H1 [(Hs & Hne & Hh & _) _]].
  rewrite fmap_app, join_app, length_app in Hi. cbn [fmap list_fmap snd] in Hi. rewrite mjoin_cons, app_nil_r in Hi.
  pose proof (holds_last_idx _ _ _ Hh) as Hl. rewrite fmap_app. cbn [fmap list_fmap fst]. rewrite rev_app_distr. cbn [rev app List.find].
  destruct (Z.leb_spec (start_idx f) idx).
  - exists cur, f, ch, []. split_and!; try done; lia.
  - destruct (IH idx H1 ltac:(lia)) as (l1 & f' & ch' & l2 & -> & Hf & Hr & Hs'). exists l1, f', ch', (l2 ++ [(f, ch)]). split_and!; try done; try lia.
    by rewrite <- app_assoc.
Qed.
Lemma find_cur_none fs rs s cur idx : cur_ok fs rs s cur -> idx < s -> List.find (fun f => start_idx f <=? idx) (rev cur.*1) = None.
Proof.
  intros H Hi. destruct (List.find _ _) as [f|] eqn:E; [|done]. apply List.find_some in E as [Hin Hf%Z.leb_le]. apply in_rev in Hin.
  apply list_elem_of_In, list_elem_of_fmap in Hin as (p & -> & Hp). pose proof (cur_ok_last _ _ _ _ _ H Hp). lia.
Qed.

(** *** Reading *)

(** A file from which a part of the entries can be read. *)
Definition readable (b : Z) (es : list (list Z)) (fs : FS) (f : LedgerFile) : Prop :=
  exists ch, holds (bytes_of (inode f) fs) f ch /\ take (length ch) (drop (Z.to_nat (start_idx f - b - 1)) es) = ch /\ b < start_idx f.
(** The entries [from] to [to]. *)
Definition range (b : Z) (es : list (list Z)) (from to : Z) : list (list Z) := take (Z.to_nat (to - from + 1)) (drop (Z.to_nat (from - b - 1)) es).

Lemma readable_read b es fs f from to max : readable b es fs f -> start_idx f <= from <= to -> to <= file_last_idx f ->
  (exists to', from <= to' <= to /\ file_read_entries f from to max fs = Ok (Some (mjoin (range b es from to'), to')) /\ within max (zlen (mjoin (range b es from to'))) /\
     (within max (zlen (mjoin (range b es from to))) -> to' = to)) \/
  (file_read_entries f from to max fs = Ok None /\ ~ within max (zlen (mjoin (range b es from from))) /\ ~ within max (zlen (mjoin (range b es from to)))).
Proof.
  intros (ch & Hh & Hp & Hs) Hft Ht. assert (forall t, from <= t <= to -> slice f ch from t = range b es from t) as Hsl.
  { intros t Htt. unfold slice, range. rewrite (holds_last_idx _ _ _ Hh) in Ht. set (k := Z.to_nat (from - start_idx f)). rewrite <- Hp at 1.
    replace (length ch) with (k + (length ch - k))%nat by lia. rewrite <- take_drop_commute, take_take, drop_drop. f_equal; [lia|f_equal; lia]. }
  destruct (file_read_cap _ _ _ Hh from to max fs Hft Ht eq_refl) as [(to' & Hr & H)|H]; [left; exists to'; split; [done|]; rewrite <- !Hsl by lia; done|right; rewrite <- !Hsl by lia; done].
Qed.

Section host.
Context (listing : gmap (list ascii) nat -> list (list ascii)) (listing_all : forall d n, n ∈ listing d <-> is_Some (d !! n)).
Context (chunk_threshold max_read_cache_files : Z).

(** A chunk that is known by its name. *)
Lemma old_file b c o1 i ch o2 cur h : inv b c (o1 ++ (i, ch) :: o2) cur h ->
  let s := b + zlen (mjoin o1.*2) + 1 in
  exists f, open_ledger_file (ledger_dir (fs h)) (committed_file_name s (s + zlen ch - 1) false) (fs h) = Ok f /\
    cached b c (mjoin (o1 ++ (i, ch) :: o2).*2 ++ mjoin cur.*2) (fs h) (written cur) f /\ start_idx f = s /\ file_last_idx f = s + zlen ch - 1.
Proof using Type.
  intros Hi s. pose proof (inv_olds _ _ _ _ _ Hi) as Ho. rewrite Forall_app, Forall_cons in Ho. destruct Ho as (_ & (Hne & Hsm & Hb) & _). cbn in Hne, Hsm, Hb.
  pose proof (inv_base _ _ _ _ _ Hi) as Hbase. pose proof (inv_bounds _ _ _ _ _ Hi) as Hbd. pose proof (inv_range _ _ _ _ _ Hi) as Hr.
  rewrite fmap_app, join_app, length_app in Hbd. cbn [fmap list_fmap snd] in Hbd. rewrite mjoin_cons, length_app in Hbd.
  assert (0 < zlen ch) as Hch by (destruct ch; [done|cbn; lia]). pose proof (inv_entries _ _ _ _ _ Hi) as He.
  rewrite fmap_app, join_app in *. cbn [fmap list_fmap snd] in *. rewrite mjoin_cons, !Forall_app in He.
  destruct (open_holds (ledger_dir (fs h)) (committed_file_name s (s + zlen ch - 1) false) i s true ch (fs h)) as (f & Hf & Hh & Hn & Hin & Hst & Hco & _); try done; try lia.
  - apply (inv_dir _ _ _ _ _ Hi), elem_of_app. left. rewrite old_entries_app. apply elem_of_app. right. cbn [old_entries].
    replace (b + 1 + zlen (mjoin o1.*2)) with s by lia. by left.
  - apply start_of_committed. lia.
  - apply He.
  - pose proof (holds_last_idx _ _ _ Hh) as Hl. exists f. split; [done|]. split; [|split; [done|lia]]. exists ch. rewrite Hin, Hb. split_and!; try done; try lia.
    + rewrite mjoin_cons, <- !app_assoc. replace (Z.to_nat (start_idx f - b - 1)) with (length (mjoin o1.*2)) by lia.
      by rewrite drop_app_length, take_app_length.
    + pose proof (proj1 (inv_inodes _ _ _ _ _ Hi)) as Hnd. rewrite fmap_app, <- app_assoc, NoDup_app in Hnd. destruct Hnd as (_ & _ & Hnd).
      cbn in Hnd. apply NoDup_cons in Hnd as [Hnd _]. intros Hw. apply Hnd, elem_of_app. right. unfold written in Hw.
      apply list_elem_of_fmap in Hw as (p & -> & [_ Hp]%list_elem_of_filter). rewrite <- list_fmap_compose. by apply (list_elem_of_fmap_2 (inode ∘ fst)).
    + pose proof (proj2 (inv_inodes _ _ _ _ _ Hi)) as Hlt. rewrite fmap_app, !Forall_app in Hlt. destruct Hlt as [[_ Hlt] _]. cbn in Hlt. by inversion Hlt.
Qed.

Lemma cached_readable b c es fs w f : cached b c es fs w f -> readable b es fs f.
Proof using Type. intros (ch & _ & H1 & H2 & H3 & _). by exists ch. Qed.

Definition with_cache (cache : list LedgerFile) (h : Ledger) : Ledger := set_files_read_cache cache h.
Lemma inv_with_cache b c olds cur h cache : inv b c olds cur h ->
  Forall (cached b c (mjoin olds.*2 ++ mjoin cur.*2) (fs h) (written cur)) cache -> inv b c olds cur (set_files_read_cache cache h).
Proof using Type. intros [] Hc. by split. Qed.

(** The directory has the chunk with an index, whatever the order of the names. *)
Lemma find_name b c olds cur h idx : inv b c olds cur h -> b < idx <= b + zlen (mjoin olds.*2) ->
  exists o1 i ch o2, olds = o1 ++ (i, ch) :: o2 /\ b + zlen (mjoin o1.*2) + 1 <= idx <= b + zlen (mjoin o1.*2) + zlen ch /\
    get_file_name_with_idx listing (ledger_dir (fs h)) idx true =
      Some (committed_file_name (b + zlen (mjoin o1.*2) + 1) (b + zlen (mjoin o1.*2) + 1 + zlen ch - 1) false).
Proof using listing_all.
  intros Hi Hidx. pose proof (inv_base _ _ _ _ _ Hi) as Hbase. pose proof (inv_bounds _ _ _ _ _ Hi) as Hbd. pose proof (inv_range _ _ _ _ _ Hi) as Hr.
  pose proof (inv_olds _ _ _ _ _ Hi) as Ho.
  assert (forall o1 i ch o2, olds = o1 ++ (i, ch) :: o2 -> let s := b + 1 + zlen (mjoin o1.*2) in
    0 < s < 2 ^ 62 /\ s <= s + zlen ch - 1 < 2 ^ 62 /\
    name_contains idx true (committed_file_name s (s + zlen ch - 1) false) = (s <=? idx) && (idx <=? s + zlen ch - 1)) as Hname.
  { intros o1 i ch o2 -> s. rewrite Forall_app, Forall_cons in Ho. destruct Ho as (_ & (Hne & _) & _). cbn in Hne.
    rewrite fmap_app, join_app, length_app in Hbd. cbn [fmap list_fmap snd] in Hbd. rewrite mjoin_cons, length_app in Hbd.
    assert (0 < zlen ch) by (destruct ch; [done|cbn; lia]). split; [lia|]. split; [lia|]. unfold name_contains.
    destruct (committed_name_flags s (s + zlen ch - 1) false) as (_ & -> & ->). rewrite start_of_committed, last_of_committed by lia. done. }
  destruct (olds_find (b + 1) olds idx ltac:(lia)) as (o1 & i & ch & o2 & Heq & Hin). destruct (Hname _ _ _ _ Heq) as (_ & _ & Hc).
  unfold get_file_name_with_idx. destruct (List.find _ _) as [n|] eqn:Hfind.
  - apply List.find_some in Hfind as [Hn Hcont]. apply list_elem_of_In, listing_all in Hn as [j Hj]. apply (inv_dir _ _ _ _ _ Hi) in Hj as [Hj|Hj]%elem_of_app.
    + destruct (old_entries_elem _ _ _ _ Hj) as (p1 & ch' & p2 & Heq' & ->). destruct (Hname _ _ _ _ Heq') as (_ & _ & Hc').
      rewrite Hc' in Hcont. exists p1, j, ch', p2. replace (b + zlen (mjoin p1.*2) + 1) with (b + 1 + zlen (mjoin p1.*2)) by lia. split; [done|]. split; [lia|done].
    + exfalso. apply list_elem_of_fmap in Hj as ([f ch'] & [= -> _] & Hp). pose proof (cur_ok_last _ _ _ _ _ (inv_cur _ _ _ _ _ Hi) Hp) as Hs. cbn in Hs.
      apply list_elem_of_split in Hp as (l1 & l2 & ->). pose proof (inv_cur _ _ _ _ _ Hi) as Hcur. apply cur_ok_app in Hcur as [_ [(_ & _ & _ & _ & Hfn & _) _]].
      unfold name_contains in Hcont. cbn in Hfn. rewrite Hfn in Hcont. unfold name_of in Hcont. pose proof (inv_last _ _ _ _ _ Hi) as Hlast.
      destruct (committed f); [rewrite start_of_committed, last_of_committed in Hcont by lia; lia|].
      rewrite last_of_file_name in Hcont. destruct (get_start_idx_from_file_name _); lia.
  - exfalso. apply (List.find_none _ _) with (x := committed_file_name (b + 1 + zlen (mjoin o1.*2)) (b + 1 + zlen (mjoin o1.*2) + zlen ch - 1) false) in Hfind; [rewrite Hc in Hfind; lia|].
    apply list_elem_of_In, listing_all. exists i. apply (inv_dir _ _ _ _ _ Hi), elem_of_app. left. rewrite Heq, old_entries_app. apply elem_of_app. right. by left.
Qed.

Lemma cur_readable b c olds l1 f ch l2 h : inv b c olds (l1 ++ (f, ch) :: l2) h -> readable b (mjoin olds.*2 ++ mjoin (l1 ++ (f, ch) :: l2).*2) (fs h) f.
Proof using Type.
  intros Hi. pose proof (inv_cur _ _ _ _ _ Hi) as Hc. apply cur_ok_app in Hc as [_ [(Hs & _ & Hh & _) _]]. exists ch. split; [done|].
  split; [|pose proof (inv_base _ _ _ _ _ Hi); lia]. rewrite fmap_app, join_app. cbn [fmap list_fmap snd]. rewrite mjoin_cons, app_assoc.
  replace (Z.to_nat (start_idx f - b - 1)) with (length (mjoin olds.*2 ++ mjoin l1.*2)) by (rewrite length_app; lia).
  by rewrite drop_app_length, take_app_length.
Qed.

Lemma file_from_cache b c olds cur h idx : inv b c olds cur h -> b < idx <= b + zlen (mjoin olds.*2) ->
  exists f cache, get_file_from_cache listing max_read_cache_files idx h = (set_files_read_cache cache h, Ok (Some f)) /\
    inv b c olds cur (set_files_read_cache cache h) /\ readable b (mjoin olds.*2 ++ mjoin cur.*2) (fs h) f /\ start_idx f <= idx <= file_last_idx f.
Proof using listing_all.
  intros Hi Hidx. pose proof (inv_base _ _ _ _ _ Hi) as Hbase. pose proof (inv_cache _ _ _ _ _ Hi) as Hcache.
  unfold get_file_from_cache. destruct (Z.eqb_spec idx 0); [lia|]. unfold mbind, M_bind, gets. cbv beta iota.
  destruct (List.find _ (files_read_cache h)) as [f|] eqn:Hfind.
  - apply List.find_some in Hfind as [Hin Hr]. exists f, (files_read_cache h). split; [by destruct h|]. split; [by apply inv_with_cache|].
    rewrite Forall_forall in Hcache. apply list_elem_of_In in Hin. split; [by eapply cached_readable, Hcache|lia].
  - destruct (find_name b c olds cur h idx Hi Hidx) as (o1 & i & ch & o2 & Ho & Hr & ->). subst olds.
    destruct (old_file b c o1 i ch o2 cur h Hi) as (f & Hopen & Hc & Hs & Hl). cbv beta iota. rewrite Hopen. cbv beta iota.
    set (cache := files_read_cache h ++ [f]). exists f, (if max_read_cache_files <? zlen cache then tail cache else cache). split; [done|].
    assert (Forall (cached b c (mjoin (o1 ++ (i, ch) :: o2).*2 ++ mjoin cur.*2) (fs h) (written cur)) cache) as Hall by (apply Forall_app; split; [done|by repeat constructor]).
    split; [apply inv_with_cache; [done|]; destruct (_ <? _); [by apply Forall_tail|done]|]. split; [by eapply cached_readable|lia].
Qed.

Lemma file_from_idx b c olds cur h idx : inv b c olds cur h -> b < idx <= last_idx h ->
  exists f cache, get_file_from_idx listing max_read_cache_files idx false h = (set_files_read_cache cache h, Ok (Some f)) /\
    inv b c olds cur (set_files_read_cache cache h) /\ readable b (mjoin olds.*2 ++ mjoin cur.*2) (fs h) f /\ start_idx f <= idx <= file_last_idx f.
Proof using listing_all.
  intros Hi Hidx. pose proof (inv_base _ _ _ _ _ Hi) as Hbase. pose proof (inv_cur _ _ _ _ _ Hi) as Hcur. pose proof (inv_last _ _ _ _ _ Hi) as Hlast.
  unfold get_file_from_idx. destruct (Z.eqb_spec idx 0); [lia|]. unfold mbind, M_bind, gets. cbv beta iota. rewrite (inv_files _ _ _ _ _ Hi).
  destruct (Z.leb_spec (b + zlen (mjoin olds.*2) + 1) idx) as [Hge|Hlt].
  - destruct (find_cur _ _ _ _ idx Hcur ltac:(lia)) as (l1 & f & ch & l2 & -> & -> & Hr & _). exists f, (files_read_cache h). split; [by destruct h|].
    split; [apply inv_with_cache; [done|apply Hi]|]. split; [by eapply cur_readable|done].
  - rewrite (find_cur_none _ _ _ _ idx Hcur) by lia. apply file_from_cache; [done|lia].
Qed.

(** Before the base there is nothing. *)
Lemma file_from_idx_none b c olds cur h idx ro : inv b c olds cur h -> 0 < idx <= b ->
  get_file_from_idx listing max_read_cache_files idx ro h = (h, Ok None).
Proof using listing_all.
  intros Hi Hidx. pose proof (inv_cur _ _ _ _ _ Hi) as Hcur. pose proof (inv_cache _ _ _ _ _ Hi) as Hcache.
  assert (get_file_from_idx listing max_read_cache_files idx ro h = get_file_from_cache listing max_read_cache_files idx h) as ->.
  { unfold get_file_from_idx. destruct (Z.eqb_spec idx 0); [lia|]. destruct ro; [done|]. unfold mbind, M_bind, gets. cbv beta iota. by rewrite (inv_files _ _ _ _ _ Hi), (find_cur_none _ _ _ _ idx Hcur) by lia. }
  unfold get_file_from_cache. destruct (Z.eqb_spec idx 0); [lia|]. unfold mbind, M_bind, gets. cbv beta iota. destruct (List.find _ (files_read_cache h)) as [f|] eqn:Hfind.
  { apply List.find_some in Hfind as [Hin Hr]. rewrite Forall_forall in Hcache. apply list_elem_of_In, Hcache in Hin as (? & _ & _ & _ & ? & _). lia. }
  rewrite (inv_read_dirs _ _ _ _ _ Hi). destruct (get_file_name_with_idx _ _ _ _) as [nm|] eqn:Hn; [exfalso|done].
  apply List.find_some in Hn as [Hn Hcont]. apply list_elem_of_In, listing_all in Hn as [j Hj]. unfold name_contains in Hcont.
  pose proof (inv_bounds _ _ _ _ _ Hi) as Hbd. pose proof (inv_range _ _ _ _ _ Hi) as Hr. pose proof (inv_last _ _ _ _ _ Hi) as Hlast.
  apply (inv_dir _ _ _ _ _ Hi) in Hj as [Hj|Hj]%elem_of_app.
  - destruct (old_entries_elem _ _ _ _ Hj) as (p1 & ch' & p2 & Heq' & ->). rewrite Heq', fmap_app, join_app, length_app in Hbd.
    rewrite start_of_committed in Hcont by lia. destruct (get_last_idx_from_file_name _) as [[]| |]; lia.
  - apply list_elem_of_fmap in Hj as ([f ch'] & [= -> _] & Hp). pose proof (cur_ok_last _ _ _ _ _ Hcur Hp) as Hs. cbn in Hs.
    apply list_elem_of_split in Hp as (l1 & l2 & ->). apply cur_ok_app in Hcur as [_ [(_ & _ & _ & _ & Hfn & _) _]]. cbn in Hfn. rewrite Hfn in Hcont.
    unfold name_of in Hcont. destruct (committed f); [rewrite start_of_committed in Hcont by lia; destruct (get_last_idx_from_file_name _) as [[]| |]; lia|].
    rewrite last_of_file_name in Hcont. destruct (get_start_idx_from_file_name _); lia.
Qed.

Lemma range_split b es from to mid : b < from <= mid + 1 -> mid <= to -> mjoin (range b es from mid) ++ mjoin (range b es (mid + 1) to) = mjoin (range b es from to).
Proof using Type.
  intros H1 H2. unfold range. rewrite <- join_app. f_equal.
  replace (Z.to_nat (mid + 1 - b - 1)) with (Z.to_nat (from - b - 1) + Z.to_nat (mid - from + 1))%nat by lia. rewrite <- drop_drop.
  replace (Z.to_nat (to - from + 1)) with (Z.to_nat (mid - from + 1) + Z.to_nat (to - (mid + 1) + 1))%nat by lia. apply take_take_drop.
Qed.

Lemma range_le b es from mid to : b < from <= mid + 1 -> mid <= to -> zlen (mjoin (range b es from mid)) <= zlen (mjoin (range b es from to)).
Proof using Type. intros H1 H2. rewrite <- (range_split b es from to mid) by done. rewrite length_app. lia. Qed.
Lemma range_empty b es from to : to < from -> range b es from to = [].
Proof using Type. intros H. unfold range. by replace (Z.to_nat (to - from + 1)) with 0%nat by lia. Qed.

(** The reply to a request for the entries from [idx] to [to], behind [acc], in at most
    [max] bytes: entries in order from the first one on, and all of them if they fit. *)
Definition reply (b : Z) (es : list (list Z)) (max : option Z) (acc : list Z) (idx to : Z) (r : option (list Z)) : Prop :=
  match r with
  | Some v => exists to', (idx <= to -> idx <= to') /\ idx - 1 <= to' <= to /\ v = acc ++ mjoin (range b es idx to') /\ within max (zlen v) /\
                (within max (zlen acc + zlen (mjoin (range b es idx to))) -> to' = to)
  | None => ~ within max (zlen acc + zlen (mjoin (range b es idx to)))
  end.

Definition size_t_max (max : option Z) : Prop := forall m, max = Some m -> m < 2 ^ 64.
Lemma within_rest max (acc : list Z) n : size_t_max max -> within max (zlen acc) -> within ((fun m => wrap64 (m - zlen acc)) <$> max) n <-> within max (zlen acc + n).
Proof using Type.
  intros Hm Ha. destruct max as [m|]; [|done]. cbn in *. rewrite wrap64_small; [lia|]. unfold u64. rewrite M64_val. pose proof (Hm m eq_refl). lia.
Qed.

Lemma file_from b c olds cur h idx ro : inv b c olds cur h -> b < idx <= last_idx h -> (ro = true -> idx <= b + zlen (mjoin olds.*2)) ->
  exists f cache, get_file_from_idx listing max_read_cache_files idx ro h = (set_files_read_cache cache h, Ok (Some f)) /\
    inv b c olds cur (set_files_read_cache cache h) /\ readable b (mjoin olds.*2 ++ mjoin cur.*2) (fs h) f /\ start_idx f <= idx <= file_last_idx f.
Proof using listing_all.
  intros Hi Hidx Hro. destruct ro; [|by apply file_from_idx]. pose proof (inv_base _ _ _ _ _ Hi). unfold get_file_from_idx. destruct (Z.eqb_spec idx 0); [lia|]. apply file_from_cache; [done|]. specialize (Hro eq_refl). lia.
Qed.

Lemma read_loop b c olds cur to ro max fuel : size_t_max max -> (ro = true -> to <= b + zlen (mjoin olds.*2)) ->
  forall h idx acc, inv b c olds cur h -> b < idx <= to + 1 -> to <= last_idx h -> to - idx + 1 <= Z.of_nat fuel -> within max (zlen acc) ->
  exists cache r, read_range_loop listing max_read_cache_files fuel idx to ro max acc h = (set_files_read_cache cache h, Ok r) /\
    inv b c olds cur (set_files_read_cache cache h) /\ reply b (mjoin olds.*2 ++ mjoin cur.*2) max acc idx to r.
Proof using listing_all.
  intros Hmax Hro. set (es := mjoin olds.*2 ++ mjoin cur.*2). induction fuel as [|fuel IH]; intros h idx acc Hi Hidx Hto Hf Hacc; cbn [read_range_loop]; destruct (Z.ltb_spec to idx) as [Hlt|Hge]; [|lia| |].
  1-2: exists (files_read_cache h), (Some acc); split; [by destruct h|]; split; [apply inv_with_cache; [done|apply Hi]|]; exists to; rewrite range_empty, app_nil_r by lia; split_and!; try done; lia.
  destruct (file_from b c olds cur h idx ro Hi ltac:(lia)) as (f & cache & Hf1 & Hi1 & Hr & Hrange); [intros Hr; specialize (Hro Hr); lia|]. unfold mbind, M_bind. rewrite Hf1.
  set (h1 := set_files_read_cache cache h) in *. change (fs h) with (fs h1) in Hr. unfold getsR. pose proof (inv_base _ _ _ _ _ Hi) as Hbase. set (lim := _ <$> max).
  set (t := Z.min (file_last_idx f) to). pose proof (range_le b es idx t to ltac:(lia) ltac:(lia)) as Hmono.
  assert (forall n, n <= zlen (mjoin (range b es idx to)) -> within max (zlen acc + zlen (mjoin (range b es idx to))) -> within max (zlen acc + n)) as Hpart by (intros n; destruct max; cbn; [lia|done]).
  destruct (readable_read _ _ _ _ idx t lim Hr) as [(to' & Ht & -> & Hw & Hall)|(-> & _ & Hn)]; [lia|lia| |].
  2: { exists cache, None. split; [done|]. split; [done|]. intros Hx. apply Hn, within_rest; [done|done|]. by apply Hpart. }
  apply within_rest in Hw; [|done|done]. fold es in Hw. destruct (Z.eqb_spec to' t) as [->|Hne]; cbn [negb].
  - pose proof (inv_range _ _ _ _ _ Hi). rewrite wrap64_small by (unfold u64; rewrite M64_val; lia).
    destruct (IH h1 (t + 1) (acc ++ mjoin (range b es idx t)) Hi1) as (cache2 & r & Hl & Hi2 & Hrep); [lia|exact Hto|lia|by rewrite length_app, Nat2Z.inj_add|]. exists cache2, r. split; [exact Hl|]. split; [exact Hi2|].
    assert (zlen (acc ++ mjoin (range b es idx t)) + zlen (mjoin (range b es (t + 1) to)) = zlen acc + zlen (mjoin (range b es idx to))) as Hsum
      by (rewrite <- (range_split b es idx to t) by lia; rewrite !length_app; lia).
    destruct r as [v|]; cbn [reply] in *; rewrite Hsum in Hrep; [|exact Hrep]. destruct Hrep as (to2 & Hx & Hb2 & -> & Hw2 & Hall2). exists to2.
    rewrite <- app_assoc, range_split in * by lia. split_and!; try done; lia.
  - exists cache, (Some (acc ++ mjoin (range b es idx to'))). split; [done|]. split; [done|]. exists to'. rewrite length_app, Nat2Z.inj_add. split_and!; try done; try lia.
    intros Hx. exfalso. apply Hne, Hall, within_rest; [done|done|]. by apply Hpart.
Qed.

(** What a request for a range gives: only the cache of files changes. *)
Definition replies (b lst : Z) (es : list (list Z)) (strict : bool) (max : option Z) (from to : Z) (r : option (list Z)) : Prop :=
  let to' := if strict then to else Z.min to lst in
  if (from <=? 0) || (to <? from) || (lst <? to') then r = None
  else if to' <? from then r = Some []
  else if from <=? b then r = None
  else reply b es max [] from to' r.

Lemma read_range_inv b c olds cur h from to ro strict max : inv b c olds cur h -> size_t_max max -> within max 0 -> (ro = true -> to <= b + zlen (mjoin olds.*2)) ->
  exists cache r, read_entries_range listing max_read_cache_files from to ro strict max h = (set_files_read_cache cache h, Ok r) /\
    inv b c olds cur (set_files_read_cache cache h) /\ replies b (last_idx h) (mjoin olds.*2 ++ mjoin cur.*2) strict max from to r.
Proof using listing_all.
  intros Hi Hmax Hw Hro. unfold replies. cbv zeta. pose proof (inv_base _ _ _ _ _ Hi) as Hbase.
  assert (forall v (P : option (list Z) -> Prop), P v -> exists cache r, (h, Ok v) = (set_files_read_cache cache h, Ok r) /\ inv b c olds cur (set_files_read_cache cache h) /\ P r) as Hsame.
  { intros v P HP. exists (files_read_cache h), v. split; [by destruct h|]. split; [apply inv_with_cache; [done|apply Hi]|done]. }
  unfold read_entries_range. destruct ((from <=? 0) || (to <? from)) eqn:Hbad; cbn [orb]; [by apply Hsame|]. unfold mbind at 1, M_bind, gets. cbv beta iota.
  set (t := if strict then to else Z.min to (last_idx h)). assert ((last_idx h <? to) && strict = (last_idx h <? t)) as -> by (unfold t; destruct strict; lia).
  destruct (Z.ltb_spec (last_idx h) t); [by apply Hsame|]. assert (Z.min to (last_idx h) = t) as -> by (unfold t in *; destruct strict; lia).
  destruct (Z.ltb_spec t from).
  { destruct (Z.to_nat (t - from + 1)) eqn:E; [|lia]. cbn [read_range_loop]. destruct (Z.ltb_spec t from); [|lia]. by apply Hsame. }
  destruct (Z.leb_spec from b).
  - destruct (Z.to_nat (t - from + 1)) as [|fuel] eqn:Hfuel; [lia|]. cbn [read_range_loop]. destruct (Z.ltb_spec t from); [lia|]. unfold mbind, M_bind. rewrite (file_from_idx_none b c olds cur h from ro Hi) by lia. by apply Hsame.
  - assert (t <= to) by (unfold t; destruct strict; lia). apply read_loop; try done; lia.
Qed.

(** *** Changes at the end *)

Lemma part_stable {A} (k n m : nat) (ch es es' : list A) : take n (drop k es) = ch -> (k + n <= m)%nat -> take m es' = take m es -> take n (drop k es') = ch.
Proof using Type.
  intros <- Hm He. rewrite !take_drop_commute. f_equal.
  assert (forall l : list A, take (k + n) l = take (k + n) (take m l)) as Ht by (intros l; rewrite take_take, Nat.min_l; done). by rewrite (Ht es'), (Ht es), He.
Qed.
Lemma cached_stable b c es es' fs fs' w w' f : cached b c es fs w f -> take (Z.to_nat (c - b)) es' = take (Z.to_nat (c - b)) es ->
  (inode f ∉ w -> (inode f < next_inode fs)%nat -> bytes_of (inode f) fs' = bytes_of (inode f) fs) ->
  (forall i, i ∈ w' -> i ∈ w \/ (next_inode fs <= i)%nat) -> (next_inode fs <= next_inode fs')%nat -> cached b c es' fs' w' f.
Proof using Type.
  intros (ch & Hne & Hh & Hp & Hs & Hl & Hw & Hn) He Hb Hw' Hn'. exists ch. rewrite Hb by done. split_and!; try done; [|intros Hi; destruct (Hw' _ Hi); [done|lia]|lia].
  rewrite (holds_last_idx _ _ _ Hh) in Hl. apply (part_stable _ _ (Z.to_nat (c - b)) _ es); [done|lia|done].
Qed.

Lemma elem_written i cur : i ∈ written cur <-> exists p, p ∈ cur /\ committed p.1 = false /\ i = inode p.1.
Proof using Type.
  unfold written. rewrite list_elem_of_fmap. split.
  - intros (p & -> & [Hc Hp]%list_elem_of_filter). by exists p.
  - intros (p & Hp & Hc & ->). exists p. split; [done|]. by apply list_elem_of_filter.
Qed.
Definition inodes_of (cur : list (LedgerFile * list (list Z))) : list nat := inode <$> cur.*1.
Lemma elem_inodes_of i cur : i ∈ inodes_of cur <-> exists p, p ∈ cur /\ i = inode p.1.
Proof using Type.
  unfold inodes_of. rewrite <- list_fmap_compose, list_elem_of_fmap. split; intros (p & ? & ?); exists p; auto.
Qed.

(** The files from some point on are replaced by one file, or by none. *)
Lemma inv_tail b c olds l1 tl tl' h h' : inv b c olds (l1 ++ tl) h ->
  Forall (fun p => committed p.1 = false) tl -> Forall (fun p => committed p.1 = false) tl' -> (length tl' <= 1)%nat ->
  files h' = (l1 ++ tl').*1 -> last_idx h' = b + zlen (mjoin olds.*2) + zlen (mjoin (l1 ++ tl').*2) -> c <= last_idx h' < 2 ^ 62 ->
  recovery_start_idx h' = recovery_start_idx h -> end_of_committed_files_idx h' = end_of_committed_files_idx h -> files_read_cache h' = files_read_cache h -> read_ledger_dirs (fs h') = read_ledger_dirs (fs h) ->
  (next_inode (fs h) <= next_inode (fs h'))%nat ->
  (forall i, i ∉ inodes_of tl -> (i < next_inode (fs h))%nat -> bytes_of i (fs h') = bytes_of i (fs h)) ->
  cur_ok (fs h') (recovery_start_idx h) (b + zlen (mjoin olds.*2) + 1 + zlen (mjoin l1.*2)) tl' ->
  dir_is (ledger_dir (fs h')) (old_entries (b + 1) olds ++ (file_entry <$> (l1 ++ tl'))) ->
  Forall (fun i => i ∈ inodes_of tl \/ (next_inode (fs h) <= i < next_inode (fs h'))%nat) (inodes_of tl') ->
  Forall entry_ok (mjoin tl'.*2) ->
  (if require_new_file h' then Forall (fun p => completed p.1 = true) tl' else exists p, tl' = [p] /\ completed p.1 = false) ->
  Forall (fun p => completed p.1 = true) l1 ->
  take (Z.to_nat (c - b)) (mjoin olds.*2 ++ mjoin (l1 ++ tl').*2) = take (Z.to_nat (c - b)) (mjoin olds.*2 ++ mjoin (l1 ++ tl).*2) ->
  inv b c olds (l1 ++ tl') h'.
Proof using Type.
  intros Hi Hu Hu' H1 Hf Hl Hc Hrs Hend Hca Hrd Hn Hb Hcur Hd Hin He Ho Hl1 Htake.
  destruct Hi as [If Il Ib Ibd Ir Iolds Icur Idir [Ind Ilt] Icom Iopen Icache Ient Ird Iend]. apply cur_ok_app in Icur as [Icur1 _].
  rewrite (fmap_app fst), (fmap_app inode), (app_assoc olds.*1) in Ind, Ilt. fold (inodes_of tl) (inodes_of l1) in Ind, Ilt. apply NoDup_app in Ind as (Ind1 & Indx & Ind2).
  apply Forall_app in Ilt as [Ilt1 Ilt2]. rewrite Forall_forall in Ilt1.
  assert (forall i, i ∈ olds.*1 ++ inodes_of l1 -> bytes_of i (fs h') = bytes_of i (fs h)) as Hsame by (intros i Hi; apply Hb; [by apply Indx|by apply Ilt1]).
  split; try done.
  - lia.
  - lia.
  - apply Forall_forall. rewrite Forall_forall in Iolds. intros o Hin'. destruct (Iolds o Hin') as (? & ? & ?). split_and!; try done.
    rewrite Hsame; [done|]. apply elem_of_app. left. by apply (list_elem_of_fmap_2 fst).
  - rewrite Hrs. apply cur_ok_app. split; [|done]. apply (cur_ok_fs (fs h)); [|done]. intros p Hp. apply Hsame, elem_of_app. right. apply elem_inodes_of. by exists p.
  - rewrite fmap_app, (fmap_app inode), (app_assoc olds.*1). fold (inodes_of tl') (inodes_of l1). split.
    + apply NoDup_app. split; [done|]. split.
      * intros i Hi Hi'. rewrite Forall_forall in Hin. destruct (Hin i Hi') as [?|?]; [by apply (Indx i)|]. specialize (Ilt1 i Hi). lia.
      * destruct tl' as [|p [|]]; cbn in *; [constructor| |lia]. apply NoDup_singleton.
    + apply Forall_app. split; [apply Forall_forall; intros i Hi; specialize (Ilt1 i Hi); cbn; lia|].
      eapply Forall_impl; [exact Hin|]. intros i [Hi|Hi]; [|lia]. rewrite Forall_forall in Ilt2. specialize (Ilt2 i Hi). cbn in Ilt2. lia.
  - apply Forall_app. apply Forall_app in Icom as [Icom _]. split; [done|]. eapply Forall_impl; [exact Hu'|]. cbn. intros p Hp Hp'. congruence.
  - destruct (require_new_file h'); [by apply Forall_app|]. destruct Ho as (p & -> & Hp). by exists l1, p.
  - rewrite Hca. eapply Forall_impl; [exact Icache|]. intros f Hfc. eapply cached_stable; [exact Hfc|done|..].
    + intros Hw Hlt. apply Hb; [|done]. intros Hi. apply Hw, elem_written. apply elem_inodes_of in Hi as (p & Hp & ->). exists p. split; [apply elem_of_app; by right|].
      split; [|done]. rewrite Forall_forall in Hu. by apply Hu.
    + intros i (p & Hp & Hpc & ->)%elem_written. apply elem_of_app in Hp as [Hp|Hp]; [left; apply elem_written; exists p; split_and!; try done; apply elem_of_app; by left|].
      rewrite Forall_forall in Hin. destruct (Hin (inode p.1)) as [Hq|Hq]; [apply elem_inodes_of; by exists p| |right; lia].
      left. apply elem_inodes_of in Hq as (q & Hq & ->). apply elem_written. exists q. split_and!; [apply elem_of_app; by right|rewrite Forall_forall in Hu; by apply Hu|done].
    + done.
  - rewrite fmap_app, join_app, app_assoc, Forall_app in Ient. destruct Ient as [Ient _]. rewrite fmap_app, join_app, app_assoc. by apply Forall_app.
  - congruence.
  - lia.
Qed.

(** *** Names are different *)

Fixpoint starts (s : Z) (chs : list (list (list Z))) : list Z := match chs with [] => [] | ch :: chs => s :: starts (s + zlen ch) chs end.
Lemma starts_app s c1 c2 : starts s (c1 ++ c2) = starts s c1 ++ starts (s + zlen (mjoin c1)) c2.
Proof using Type.
  revert s. induction c1 as [|ch c1 IH]; intros s; cbn [app starts]; [cbn; by rewrite Z.add_0_r|]. rewrite IH, mjoin_cons, length_app. do 3 f_equal. lia.
Qed.
Lemma starts_range s chs : Forall (fun ch => ch <> []) chs -> Forall (fun x => s <= x < s + zlen (mjoin chs)) (starts s chs) /\ NoDup (starts s chs).
Proof using Type.
  intros H. revert s. induction H as [|ch chs Hne H IH]; intros s; cbn [starts]; [split; constructor|]. destruct (IH (s + zlen ch)) as [H1 H2].
  assert (0 < zlen ch) by (destruct ch; [done|cbn; lia]). rewrite mjoin_cons, length_app. split.
  - constructor; [lia|]. eapply Forall_impl; [exact H1|]. cbn. lia.
  - constructor; [|done]. intros Hin. rewrite Forall_forall in H1. specialize (H1 _ Hin). cbn in H1. lia.
Qed.
Lemma inv_nonempty b c olds cur h : inv b c olds cur h -> Forall (fun ch => ch <> []) (olds.*2 ++ cur.*2).
Proof using Type.
  intros Hi. apply Forall_app. split.
  - apply Forall_fmap. eapply Forall_impl; [apply (inv_olds _ _ _ _ _ Hi)|]. by intros o [? _].
  - apply Forall_fmap. pose proof (inv_cur _ _ _ _ _ Hi) as Hc. revert Hc. generalize (b + zlen (mjoin olds.*2) + 1). induction cur as [|[f ch] cur' IH] in |- *; intros s Hc; [constructor|].
    destruct Hc as [(_ & ? & _) Hc]. constructor; [done|]. by eapply IH.
Qed.
Lemma old_names s olds : 0 <= s -> s + zlen (mjoin olds.*2) < 2 ^ 63 -> get_start_idx_from_file_name <$> (old_entries s olds).*1 = Ok <$> starts s olds.*2.
Proof using Type.
  revert s. induction olds as [|[i ch] olds IH]; intros s Hs Hl; [done|]. cbn [fmap list_fmap snd] in Hl. rewrite mjoin_cons, length_app in Hl.
  cbn [old_entries fmap list_fmap fst snd starts]. rewrite start_of_committed by lia. f_equal. apply IH; lia.
Qed.
Lemma cur_names fs rs s cur : cur_ok fs rs s cur -> 0 <= s -> s + zlen (mjoin cur.*2) < 2 ^ 63 -> get_start_idx_from_file_name <$> (file_entry <$> cur).*1 = Ok <$> starts s cur.*2.
Proof using Type.
  revert s. induction cur as [|[f ch] cur IH]; intros s Hc Hs Hl; [done|]. destruct Hc as [(<- & Hne & _ & _ & Hn & _) Hc]. cbn [fmap list_fmap snd] in Hl. rewrite mjoin_cons, length_app in Hl.
  cbn [fmap list_fmap file_entry fst snd starts]. f_equal; [|apply IH; [done|lia|lia]].
  rewrite Hn. unfold name_of. destruct (committed f); [apply start_of_committed; lia|apply start_of_file_name; lia].
Qed.
Lemma inv_names b c olds cur h : inv b c olds cur h ->
  get_start_idx_from_file_name <$> (old_entries (b + 1) olds ++ (file_entry <$> cur)).*1 = Ok <$> starts (b + 1) (olds.*2 ++ cur.*2).
Proof using Type.
  intros Hi. pose proof (inv_base _ _ _ _ _ Hi). pose proof (inv_range _ _ _ _ _ Hi). pose proof (inv_last _ _ _ _ _ Hi).
  rewrite !fmap_app, starts_app, fmap_app, old_names by lia. f_equal. rewrite (cur_names _ _ _ _ (inv_cur _ _ _ _ _ Hi)) by lia. do 2 f_equal. lia.
Qed.
Lemma inv_names_nodup b c olds cur h : inv b c olds cur h -> NoDup (old_entries (b + 1) olds ++ (file_entry <$> cur)).*1.
Proof using Type.
  intros Hi. apply (NoDup_fmap_1 get_start_idx_from_file_name). rewrite (inv_names b c olds cur h Hi). apply NoDup_fmap_2_strong; [by intros ? ? _ _ [= ->]|].
  apply starts_range, (inv_nonempty b c olds cur h Hi).
Qed.
Lemma inv_name_new b c olds cur h n s : inv b c olds cur h -> get_start_idx_from_file_name n = Ok s -> last_idx h < s ->
  n ∉ (old_entries (b + 1) olds ++ (file_entry <$> cur)).*1.
Proof using Type.
  intros Hi Hn Hs Hin. apply (list_elem_of_fmap_2 get_start_idx_from_file_name) in Hin. rewrite (inv_names b c olds cur h Hi), Hn in Hin.
  apply list_elem_of_fmap in Hin as (x & [= ->] & Hx). destruct (starts_range (b + 1) (olds.*2 ++ cur.*2) (inv_nonempty b c olds cur h Hi)) as [Hr _].
  rewrite Forall_forall in Hr. specialize (Hr _ Hx). cbn in Hr. rewrite join_app, length_app in Hr. pose proof (inv_last _ _ _ _ _ Hi). lia.
Qed.

(** *** Appending *)

Lemma inv_front b c olds l1 p h : inv b c olds (l1 ++ [p]) h -> Forall (fun p => completed p.1 = true) l1.
Proof using Type.
  intros Hi. pose proof (inv_open _ _ _ _ _ Hi) as Ho. destruct (require_new_file h); [by apply Forall_app in Ho as [? _]|].
  destruct Ho as (cur' & p' & Heq & _ & Hc). by apply app_inj_tail in Heq as [-> _].
Qed.
Lemma file_ok_same fs fs' rs s f f' ch ch' : file_ok fs rs s f ch -> same_file f f' -> committed f = false -> ch' <> [] -> holds (bytes_of (inode f) fs') f' ch' -> file_ok fs' rs s f' ch'.
Proof using Type.
  intros (H1 & H2 & H3 & H4 & H5 & H6) (E1 & E2 & E3 & E4 & E5) Hc Hne Hh. split_and!; try congruence.
  rewrite E1, H5. unfold name_of. by rewrite E4, E3, E5, Hc.
Qed.
Lemma entry_same f f' ch ch' : same_file f f' -> file_entry (f', ch') = file_entry (f, ch).
Proof using Type. intros (E1 & E2 & _). unfold file_entry. cbn. congruence. Qed.

(** The last file gets other contents. *)
Lemma inv_set_last b c olds l1 f ch f' ch' h lst bytes' : inv b c olds (l1 ++ [(f, ch)]) h -> committed f = false -> same_file f f' -> holds bytes' f' ch' -> ch' <> [] ->
  Forall entry_ok ch' -> lst = b + zlen (mjoin olds.*2) + zlen (mjoin l1.*2) + zlen ch' -> c <= lst < 2 ^ 62 ->
  take (Z.to_nat (c - b)) (mjoin olds.*2 ++ mjoin (l1 ++ [(f', ch')]).*2) = take (Z.to_nat (c - b)) (mjoin olds.*2 ++ mjoin (l1 ++ [(f, ch)]).*2) ->
  inv b c olds (l1 ++ [(f', ch')])
    (mkLedger (set_bytes (inode f) bytes' (fs h)) (l1.*1 ++ [f']) (files_read_cache h) lst (committed_idx h) (end_of_committed_files_idx h) (completed f') (recovery_start_idx h)).
Proof using Type.
  intros Hi Hc Hsame Hh Hne He Hl Hb Htake. pose proof (inv_cur _ _ _ _ _ Hi) as Hcur. apply cur_ok_app in Hcur as [_ [Hfile _]].
  apply (inv_tail b c olds l1 [(f, ch)] [(f', ch')] h); cbn [fs files last_idx files_read_cache recovery_start_idx require_new_file ledger_dir read_ledger_dirs next_inode set_bytes]; try done.
  - by repeat constructor.
  - constructor; [|constructor]. destruct Hsame as (_ & _ & _ & E & _). cbn. congruence.
  - by rewrite fmap_app.
  - rewrite Hl, fmap_app, join_app, length_app. cbn [fmap list_fmap snd]. rewrite mjoin_cons, app_nil_r. lia.
  - intros i Hin _. apply bytes_of_set_ne. intros <-. apply Hin. left.
  - cbn [cur_ok]. split; [|done]. eapply file_ok_same; try done. by rewrite bytes_of_set.
  - rewrite fmap_app. cbn [fmap list_fmap]. rewrite (entry_same f f' ch ch') by done. pose proof (inv_dir _ _ _ _ _ Hi) as Hd. by rewrite fmap_app in Hd.
  - constructor; [|constructor]. left. cbn. destruct Hsame as (_ & -> & _). by left.
  - cbn [fmap list_fmap snd]. by rewrite mjoin_cons, app_nil_r.
  - destruct (completed f') eqn:E; [by repeat constructor|]. by exists (f', ch').
  - by eapply inv_front.
Qed.

Lemma run_ok {St A B} (m : M St A) (k : A -> M St B) s s' a : m s = (s', Ok a) -> (m ≫= k) s = k a s'.
Proof using Type. intros H. unfold mbind, M_bind. by rewrite H. Qed.
Lemma inv_unique_last b c olds l1 f ch h : inv b c olds (l1 ++ [(f, ch)]) h -> file_last_idx f = last_idx h /\ ch <> [] /\ holds (bytes_of (inode f) (fs h)) f ch /\
  start_idx f = b + zlen (mjoin olds.*2) + 1 + zlen (mjoin l1.*2) /\ Forall entry_ok ch.
Proof using Type.
  intros Hi. pose proof (inv_cur _ _ _ _ _ Hi) as Hcur. apply cur_ok_app in Hcur as [_ [(Hs & Hne & Hh & _) _]]. pose proof (inv_last _ _ _ _ _ Hi) as Hl. pose proof (inv_entries _ _ _ _ _ Hi) as He.
  rewrite fmap_app, join_app in Hl, He. cbn [fmap list_fmap snd] in Hl, He. rewrite mjoin_cons, app_nil_r in Hl, He. rewrite length_app in Hl. rewrite !Forall_app in He.
  rewrite (holds_last_idx _ _ _ Hh). split_and!; try done; try lia. apply He.
Qed.
Lemma flushed_snoc b c olds l1 p h : inv b c olds (l1 ++ [p]) h -> flushed c l1 -> flushed c (l1 ++ [p]).
Proof using Type.
  intros Hi Hf. destruct p as [f ch]. destruct (inv_unique_last _ _ _ _ _ _ _ Hi) as (Hl & _). pose proof (inv_bounds _ _ _ _ _ Hi).
  apply Forall_app. split; [done|]. constructor; [|constructor]. cbn. lia.
Qed.
Lemma inv_open_last b c olds l1 f ch h : inv b c olds (l1 ++ [(f, ch)]) h -> require_new_file h = completed f.
Proof using Type.
  intros Hi. pose proof (inv_open _ _ _ _ _ Hi) as Ho. destruct (require_new_file h).
  - apply Forall_app in Ho as [_ Ho]. inversion Ho. by subst.
  - destruct Ho as (cur' & p & Heq & Hc & _). apply app_inj_tail in Heq as [_ <-]. done.
Qed.
Lemma open_not_committed b c olds l1 f ch h : inv b c olds (l1 ++ [(f, ch)]) h -> completed f = false -> committed f = false.
Proof using Type.
  intros Hi Hc. pose proof (inv_cur _ _ _ _ _ Hi) as Hcur. apply cur_ok_app in Hcur as [_ [(_ & _ & _ & _ & _ & H) _]]. destruct (committed f); [|done]. destruct H; congruence.
Qed.

(** What an operation that does not change the entries leaves alone. *)
Definition same_ledger (h h' : Ledger) : Prop :=
  last_idx h' = last_idx h /\ committed_idx h' = committed_idx h /\ recovery_start_idx h' = recovery_start_idx h.

Lemma complete_latest_inv b c olds cur h : inv b c olds cur h -> flushed c cur ->
  exists cur' h', complete_latest h = (h', Ok tt) /\ inv b c olds cur' h' /\ flushed c cur' /\ cur'.*2 = cur.*2 /\ require_new_file h' = true /\ same_ledger h h'.
Proof using Type.
  intros Hi Hf. unfold complete_latest. rewrite (run_ok _ _ h h h) by done. rewrite (inv_files _ _ _ _ _ Hi).
  destruct cur as [|[f ch] l1 _] using rev_ind.
  { exists [], h. split_and!; try done. pose proof (inv_open _ _ _ _ _ Hi) as Ho. destruct (require_new_file h); [done|]. destruct Ho as (cur' & p & Heq & _). by destruct cur'. }
  rewrite fmap_app. cbn [fmap list_fmap fst]. rewrite last_snoc. destruct (inv_unique_last _ _ _ _ _ _ _ Hi) as (Hl & Hne & Hh & Hs & He).
  assert (flushed c l1) as Hf1 by (by apply Forall_app in Hf as [? _]). destruct (completed f) eqn:Hc.
  - pose proof (inv_open_last _ _ _ _ _ _ _ Hi) as Ho. rewrite Hc in Ho. unfold on_fs, zoom, file_complete, mbind, M_bind, mret, M_ret, modify, set_latest, set_files, set_require_new_file. rewrite Hc. cbn.
    rewrite (inv_files _ _ _ _ _ Hi), fmap_app. cbn. rewrite removelast_last. exists (l1 ++ [(f, ch)]), h. split_and!; try done.
    f_equal. destruct h as [hfs hfiles hcache hl hc he hr hrs]. cbn in *. rewrite Ho. f_equal. pose proof (inv_files _ _ _ _ _ Hi) as E. cbn in E. by rewrite E, fmap_app.
  - pose proof (open_not_committed _ _ _ _ _ _ _ Hi Hc) as Hco. destruct (complete_holds _ f ch (fs h) Hh Hc eq_refl) as (f' & Hrun & Hh' & Hsame & Hc').
    unfold on_fs, zoom, mbind, M_bind, mret, M_ret, modify, set_latest, set_files, set_require_new_file, set_fs. rewrite Hrun. cbn.
    rewrite (inv_files _ _ _ _ _ Hi), fmap_app. cbn. rewrite removelast_last. pose proof (inv_last _ _ _ _ _ Hi) as Hlast. pose proof (inv_bounds _ _ _ _ _ Hi). pose proof (inv_range _ _ _ _ _ Hi).
    rewrite fmap_app, join_app, length_app in Hlast. cbn [fmap list_fmap snd] in Hlast. rewrite mjoin_cons, app_nil_r in Hlast.
    pose proof (inv_set_last b c olds l1 f ch f' ch h (last_idx h) (layout true ch) Hi Hco Hsame Hh' Hne He) as Hi'. rewrite Hc' in Hi'.
    assert (inv b c olds (l1 ++ [(f', ch)]) (mkLedger (set_bytes (inode f) (layout true ch) (fs h)) (l1.*1 ++ [f']) (files_read_cache h) (last_idx h) (committed_idx h) (end_of_committed_files_idx h) true (recovery_start_idx h))) as Hi2
      by (apply Hi'; [lia|lia|by rewrite !fmap_app]).
    exists (l1 ++ [(f', ch)]). eexists. split; [reflexivity|]. split; [exact Hi2|]. split; [by eapply flushed_snoc|]. by rewrite !fmap_app.
Qed.

(** Room for an entry in the file that is written. *)
Definition room (h : Ledger) (e : list Z) : Prop :=
  8 + zlen e < 2 ^ 32 /\ match last (files h) with Some f => completed f = false -> total_len f + zlen e < 2 ^ 32 | None => True end.

Lemma append_open b c olds l1 f ch h e : inv b c olds (l1 ++ [(f, ch)]) h -> completed f = false -> entry_ok e -> total_len f + zlen e < 2 ^ 32 -> last_idx h + 1 < 2 ^ 62 ->
  exists f' h', append_latest e h = (h', Ok (total_len f')) /\ files h' = l1.*1 ++ [f'] /\ inv b c olds (l1 ++ [(f', ch ++ [e])]) h' /\ last_idx h' = last_idx h + 1 /\
    committed_idx h' = committed_idx h /\ recovery_start_idx h' = recovery_start_idx h.
Proof using Type.
  intros Hi Hc He Hroom Hr. destruct (inv_unique_last _ _ _ _ _ _ _ Hi) as (Hl & Hne & Hh & Hs & Hes). pose proof (open_not_committed _ _ _ _ _ _ _ Hi Hc) as Hco.
  pose proof (inv_base _ _ _ _ _ Hi). pose proof (inv_bounds _ _ _ _ _ Hi). pose proof (inv_last _ _ _ _ _ Hi) as Hlast.
  rewrite fmap_app, join_app, length_app in Hlast. cbn [fmap list_fmap snd] in Hlast. rewrite mjoin_cons, app_nil_r in Hlast.
  destruct (Hh) as [Hp Ht Hsm Hb Hpos Hst Hlt]. rewrite Hc in Hb. assert (0 < zlen e) as He0 by (destruct He as (_ & ? & _); lia).
  destruct (write_entry_holds _ f ch e (fs h) Hp Ht (or_introl Hb) Hpos Hst Hc eq_refl He0 Hroom ltac:(lia)) as (f' & Hrun & Hh' & Hsame & Hc').
  unfold append_latest. rewrite (run_ok _ _ h h h) by done. rewrite (inv_files _ _ _ _ _ Hi), fmap_app. cbn [fmap list_fmap fst]. rewrite last_snoc.
  unfold on_fs, zoom, mbind, M_bind, mret, M_ret, modify, gets, set_latest, set_files, set_last_idx, set_fs. rewrite Hrun. cbn [fs files files_read_cache committed_idx end_of_committed_files_idx recovery_start_idx require_new_file].
  rewrite (inv_files _ _ _ _ _ Hi), fmap_app. cbn [fmap list_fmap fst]. rewrite removelast_last. exists f'. eexists. split; [reflexivity|]. split; [done|].
  assert (file_last_idx f' = last_idx h + 1) as Hl'. { rewrite (holds_last_idx _ _ _ Hh'), length_app. destruct Hsame as (_ & _ & -> & _). cbn [length]. lia. }
  split; [|done]. rewrite (inv_open_last _ _ _ _ _ _ _ Hi), Hc, Hl'.
  pose proof (inv_set_last b c olds l1 f ch f' (ch ++ [e]) h (last_idx h + 1) _ Hi Hco Hsame Hh') as Hi'. rewrite Hc' in Hi'. apply Hi'; clear Hi'.
  - intros E. apply (f_equal length) in E. rewrite length_app in E. cbn in E. lia.
  - apply Forall_app. split; [done|]. constructor; [done|constructor].
  - rewrite length_app. cbn [length]. lia.
  - lia.
  - rewrite !fmap_app, !join_app. cbn [fmap list_fmap snd]. rewrite !mjoin_cons, !app_nil_r, !app_assoc. rewrite take_app_le; [done|]. rewrite !length_app. lia.
Qed.

Lemma append_new b c olds cur h e : inv b c olds cur h -> require_new_file h = true -> entry_ok e -> 8 + zlen e < 2 ^ 32 -> last_idx h + 1 < 2 ^ 62 ->
  exists f' h1 h', add_new_file h = (h1, Ok tt) /\ append_latest e h1 = (h', Ok (total_len f')) /\ files h' = cur.*1 ++ [f'] /\ inv b c olds (cur ++ [(f', [e])]) h' /\
    last_idx h' = last_idx h + 1 /\ committed_idx h' = committed_idx h /\ recovery_start_idx h' = recovery_start_idx h.
Proof using Type.
  intros Hi Hnew He Hroom Hr. pose proof (inv_base _ _ _ _ _ Hi). pose proof (inv_bounds _ _ _ _ _ Hi). pose proof (inv_last _ _ _ _ _ Hi) as Hlast.
  set (start := last_idx h + 1). set (rc := rec_of (recovery_start_idx h) start). set (n := file_name_of start rc). set (i := next_inode (fs h)).
  assert (n ∉ (old_entries (b + 1) olds ++ (file_entry <$> cur)).*1) as Hn by (apply (inv_name_new b c olds cur h n start Hi); [apply start_of_file_name; lia|lia]).
  assert (ledger_dir (fs h) !! n = None) as Hnone.
  { destruct (ledger_dir (fs h) !! n) as [j|] eqn:E; [|done]. exfalso. apply Hn. apply (inv_dir _ _ _ _ _ Hi), (list_elem_of_fmap_2 fst) in E. done. }
  set (fs1 := mkFS (<[i := []]> (inodes (fs h))) (i + 1)%nat (<[n := i]> (ledger_dir (fs h))) (read_ledger_dirs (fs h))).
  set (f0 := mkLedgerFile n i start header_size [] false false rc).
  set (h1 := mkLedger fs1 (files h ++ [f0]) (files_read_cache h) (last_idx h) (committed_idx h) (end_of_committed_files_idx h) false (recovery_start_idx h)).
  assert (add_new_file h = (h1, Ok tt)) as Hadd.
  { unfold add_new_file. rewrite (run_ok _ _ h h h) by done. cbv zeta. rewrite (wrap64_small (last_idx h + 1)) by (unfold u64; rewrite M64_val; lia). fold start. fold (rec_of (recovery_start_idx h) start). fold rc.
    unfold on_fs, zoom, new_ledger_file, fopen_new, mbind, M_bind, mret, M_ret, modify, set_files, set_fs, set_require_new_file. fold n. rewrite Hnone. done. }
  assert (0 < zlen e) as He0 by (destruct He as (_ & ? & _); lia). assert (bytes_of i fs1 = []) as Hb0 by (unfold bytes_of, fs1; cbn; by rewrite lookup_insert_eq).
  assert (0 < start /\ start_idx f0 + 0 + 1 < 2 ^ 63) as [Hst1 Hst2] by (cbn [f0 start_idx]; lia).
  destruct (write_entry_holds [] f0 [] e fs1 eq_refl eq_refl (or_intror (conj eq_refl eq_refl)) (Forall_nil_2 _) Hst1 eq_refl Hb0 He0 Hroom Hst2) as (f' & Hrun & Hh' & Hsame & Hc').
  exists f', h1. unfold append_latest. rewrite (run_ok _ _ h1 h1 h1) by done. change (files h1) with (files h ++ [f0]). rewrite last_snoc.
  unfold on_fs, zoom, mbind, M_bind, mret, M_ret, modify, gets, set_latest, set_files, set_last_idx, set_fs. cbn [fs h1]. rewrite Hrun. cbn [fs files h1 files_read_cache committed_idx end_of_committed_files_idx recovery_start_idx require_new_file].
  rewrite removelast_last. eexists. split; [done|]. split; [reflexivity|]. destruct (Hsame) as (E1 & E2 & E3 & E4 & E5). cbn [f0 file_name inode start_idx committed recovery] in E1, E2, E3, E4, E5.
  assert (file_last_idx f' = last_idx h + 1) as Hl' by (rewrite (holds_last_idx _ _ _ Hh'); cbn [app length]; unfold start in E3; lia). rewrite (inv_files _ _ _ _ _ Hi), Hl'. split; [done|]. split; [|done].
  rewrite <- (app_nil_r cur) in Hi. apply (inv_tail b c olds cur [] [(f', [e])] h); cbn [fs files last_idx files_read_cache recovery_start_idx require_new_file ledger_dir read_ledger_dirs next_inode set_bytes inode f0 fs1]; try done.
  - by repeat constructor.
  - by rewrite fmap_app.
  - rewrite fmap_app, join_app, length_app. cbn [fmap list_fmap snd]. rewrite mjoin_cons. cbn. lia.
  - lia.
  - lia.
  - intros j _ Hj. unfold bytes_of. cbn. rewrite !lookup_insert_ne by (unfold i in *; lia). done.
  - cbn [cur_ok]. split; [|done]. split_and!; try done.
    + rewrite E3. unfold start. lia.
    + rewrite E2. change (inode f0) with i. unfold bytes_of, set_bytes. cbn. by rewrite lookup_insert_eq.
    + rewrite E5. unfold rc. f_equal. unfold start. lia.
    + rewrite E1. unfold name_of. by rewrite E4, E3, E5.
    + congruence.
  - rewrite fmap_app. cbn [fmap list_fmap]. unfold file_entry at 2. cbn [fst]. rewrite E1, E2. pose proof (inv_dir _ _ _ _ _ Hi) as Hd. rewrite app_nil_r in Hd.
    apply (dir_is_insert _ _ n i) in Hd; [|done]. eapply dir_is_perm; [|exact Hd]. rewrite app_assoc. apply Permutation_cons_append.
  - change (inodes_of [(f', [e])]) with [inode f']. rewrite E2. constructor; [|constructor]. right. unfold i. lia.
  - cbn [fmap list_fmap snd]. rewrite mjoin_cons, app_nil_r. constructor; [done|constructor].
  - by exists (f', [e]).
  - pose proof (inv_open _ _ _ _ _ Hi) as Ho. by rewrite Hnew, app_nil_r in Ho.
  - rewrite app_nil_r, fmap_app, join_app, app_assoc. rewrite take_app_le; [done|]. rewrite length_app. lia.
Qed.

(** The flags of an entry as write_entry reads them. *)
Definition flags_of (e : list Z) : Z := entry_flags (le_val (take 8 e)).

(** What only [commit], [init] and recovery change. *)
Definition kept (h h' : Ledger) : Prop := committed_idx h' = committed_idx h /\ recovery_start_idx h' = recovery_start_idx h.

Lemma peek_header e : entry_ok e -> Serialized.peek_uint 8 e = Ok (le_val (take 8 e)).
Proof using Type. intros (_ & H8 & _). unfold peek_uint. destruct (Z.ltb_spec (zlen e) (Z.of_nat 8)); [lia|done]. Qed.

(** The chunk that an entry asks to be ended before it. *)
Lemma complete_before_inv b c olds cur h e : inv b c olds cur h -> flushed c cur ->
  exists cur1 h1, (if negb (Z.land (flags_of e) FORCE_LEDGER_CHUNK_BEFORE =? 0) then complete_latest else mret tt) h = (h1, Ok tt) /\
    inv b c olds cur1 h1 /\ flushed c cur1 /\ cur1.*2 = cur.*2 /\ same_ledger h h1 /\ (require_new_file h1 = true \/ cur1 = cur).
Proof using Type.
  intros Hi Hf. destruct (negb _).
  - destruct (complete_latest_inv b c olds cur h Hi Hf) as (cur1 & h1 & H1 & H2 & H3 & H4 & H5 & H6). exists cur1, h1. split_and!; auto; apply H6.
  - exists cur, h. by split_and!; auto.
Qed.

(** An entry that would end its chunk and cannot is refused; the chunk before it may have
    been ended. *)
Definition refused (committable : bool) (e : list Z) : bool := negb (Z.land (flags_of e) FORCE_LEDGER_CHUNK_AFTER =? 0) && negb committable.
Lemma write_entry_refused b c olds cur h e committable : inv b c olds cur h -> flushed c cur -> entry_ok e -> refused committable e = true ->
  exists cur' h', write_entry chunk_threshold e committable h = (h', Throw LogicError) /\ inv b c olds cur' h' /\ flushed c cur' /\ cur'.*2 = cur.*2 /\ kept h h'.
Proof using Type.
  intros Hi Hf He Href. unfold write_entry, lift at 1. rewrite (run_ok _ _ h h (le_val (take 8 e))) by (by rewrite peek_header). fold (flags_of e).
  destruct (complete_before_inv b c olds cur h e Hi Hf) as (cur1 & h1 & Hrun1 & Hi1 & Hf1 & Hch1 & (_ & Hc1 & Hrs1) & _).
  rewrite (run_ok _ _ h h1 tt Hrun1). cbv zeta. fold (refused committable e). rewrite Href. by exists cur1, h1.
Qed.

Lemma write_entry_inv b c olds cur h e committable : inv b c olds cur h -> flushed c cur -> entry_ok e -> room h e -> last_idx h + 1 < 2 ^ 62 ->
  refused committable e = false ->
  exists cur' h', write_entry chunk_threshold e committable h = (h', Ok (last_idx h + 1)) /\ inv b c olds cur' h' /\ flushed c cur' /\
    mjoin cur'.*2 = mjoin cur.*2 ++ [e] /\ kept h h'.
Proof using Type.
  intros Hi Hf He Hroom Hr Hafter. unfold write_entry. unfold lift at 1.
  rewrite (run_ok _ _ h h (le_val (take 8 e))) by (by rewrite peek_header). fold (flags_of e).
  destruct (complete_before_inv b c olds cur h e Hi Hf) as (cur1 & h1 & Hrun1 & Hi1 & Hf1 & Hch1 & (Hl1 & Hc1 & Hrs1) & Hor).
  rewrite (run_ok _ _ h h1 tt Hrun1). cbv zeta. fold (refused committable e). rewrite Hafter, (run_ok _ _ h1 h1 tt) by done.
  rewrite (run_ok _ _ h1 h1 h1) by done.
  assert (exists f' h2 h3 l1 ch, (if require_new_file h1 then add_new_file else mret tt) h1 = (h2, Ok tt) /\ append_latest e h2 = (h3, Ok (total_len f')) /\
    inv b c olds (l1 ++ [(f', ch ++ [e])]) h3 /\ flushed c l1 /\ mjoin (l1 ++ [(f', ch ++ [e])]).*2 = mjoin cur.*2 ++ [e] /\ last_idx h3 = last_idx h + 1 /\ kept h h3)
    as (f' & h2 & h3 & l1 & ch & Hrun2 & Hrun3 & Hi3 & Hf3 & Hes & Hl3 & Hc3).
  { destruct (require_new_file h1) eqn:Hnew.
    - destruct (append_new b c olds cur1 h1 e Hi1 Hnew He (proj1 Hroom) ltac:(lia)) as (f' & h2 & h3 & H1 & H2 & H3 & H4 & H5 & H6 & H7).
      exists f', h2, h3, cur1, []. split_and!; try done; try lia; [rewrite fmap_app, join_app, Hch1; done|split; congruence].
    - destruct Hor as [?| ->]; [congruence|]. pose proof (inv_open _ _ _ _ _ Hi1) as Ho. rewrite Hnew in Ho. destruct Ho as (l1 & [f ch] & -> & Hc & _). cbn in Hc.
      destruct Hroom as [_ Hroom]. rewrite (inv_files _ _ _ _ _ Hi), fmap_app in Hroom. cbn [fmap list_fmap fst] in Hroom. rewrite last_snoc in Hroom.
      destruct (append_open b c olds l1 f ch h1 e Hi1 Hc He (Hroom Hc) ltac:(lia)) as (f' & h3 & H1 & H2 & H3 & H4 & H5 & H6).
      exists f', h1, h3, l1, ch. split_and!; try done; try lia; [| |split; congruence].
      + by apply Forall_app in Hf1 as [? _].
      + rewrite !fmap_app, !join_app. cbn [fmap list_fmap snd]. by rewrite !mjoin_cons, !app_nil_r, app_assoc. }
  rewrite (run_ok _ _ h1 h2 tt Hrun2), (run_ok _ _ h2 h3 (total_len f') Hrun3).
  pose proof (flushed_snoc _ _ _ _ _ _ Hi3 Hf3) as Hf4. destruct (committable && _).
  - destruct (complete_latest_inv b c olds _ h3 Hi3 Hf4) as (cur4 & h4 & H1 & H2 & H3 & H4 & H5 & H6 & H7 & H8). rewrite (run_ok _ _ h3 h4 tt H1).
    exists cur4, h4. split; [unfold gets; do 2 f_equal; lia|]. split_and!; try done; [by rewrite H4|]. destruct Hc3. split; congruence.
  - rewrite (run_ok _ _ h3 h3 tt) by done. eexists _, h3. split; [unfold gets; do 2 f_equal; lia|]. split_and!; try done.
Qed.

End host.
End HostRefine.
