(* ===== verification/HostCommit.v ===== *)
(** * Truncating, committing and reopening the ledger on disk

    The operations of HostLedger.v that remove, rename and reopen files keep the
    relation of HostRefine.v. *)
From S2P Require Import Prelude Monad Serialized HostLedger HostFile HostRefine.
From stdpp Require Import list gmap strings sorting.
From Stdlib Require Import Ascii.
Local Open Scope Z_scope.

Module HostCommit.
Import Serialized HostLedger HostFile HostRefine.

(** *** Truncating *)

Lemma first_containing_spec fs rs s cur idx : cur_ok fs rs s cur -> s <= idx < s + zlen (mjoin cur.*2) ->
  exists l1 f ch l2, cur = l1 ++ (f, ch) :: l2 /\ first_containing idx cur.*1 = length l1 /\ start_idx f <= idx <= file_last_idx f.
Proof.
  revert s. induction cur as [|[f ch] cur IH]; intros s Hc Hi; [cbn in Hi; lia|]. destruct Hc as [(Hs & Hne & Hh & _) Hc]. cbn [fmap list_fmap snd fst first_containing] in *.
  rewrite mjoin_cons, length_app in Hi. pose proof (holds_last_idx _ _ _ Hh) as Hl. destruct (Z.leb_spec idx (file_last_idx f)).
  - exists [], f, ch, cur. split_and!; try done; lia.
  - destruct (IH _ Hc ltac:(lia)) as (l1 & f' & ch' & l2 & -> & -> & Hr). exists ((f, ch) :: l1), f', ch', l2. split_and!; try done; lia.
Qed.

Definition delete_names (l : list (LedgerFile * list (list Z))) (d : gmap (list ascii) nat) : gmap (list ascii) nat := foldl (fun d p => delete (file_name p.1) d) d l.
(** A file that can be removed. *)
Definition removable (fs : FS) (p : LedgerFile * list (list Z)) : Prop :=
  holds (bytes_of (inode p.1) fs) p.1 p.2 /\ p.2 <> [] /\ committed p.1 = false /\ ledger_dir fs !! file_name p.1 = Some (inode p.1).

Lemma remove_files l2 : forall A h idx, files h = A ++ l2.*1 -> Forall (removable (fs h)) l2 -> NoDup (file_name <$> l2.*1) ->
  truncate_files (length l2) (length A) false idx h = (set_files A (set_fs (set_ledger_dir (delete_names l2 (ledger_dir (fs h))) (fs h)) h), Ok tt).
Proof.
  induction l2 as [|[f ch] l2 IH]; intros A h idx Hfiles Hrem Hnd.
  { cbn in *. rewrite app_nil_r in Hfiles. destruct h as [[]]; cbn in *. by subst. }
  cbn [length truncate_files]. rewrite (run_ok _ _ h h h) by done. rewrite Hfiles. cbn [fmap list_fmap fst]. rewrite list_lookup_middle by done.
  inversion Hrem as [|? ? (Hh & Hne & Hc & Hd) Hrem']; subst. cbn in Hh, Hne, Hc, Hd.
  unfold on_fs, zoom at 1. rewrite (run_ok _ _ h (set_fs (set_ledger_dir (delete (file_name f) (ledger_dir (fs h))) (fs h)) h) (f, true)).
  2:{ unfold zoom. by rewrite (remove_run _ f ch (fs h) Hh Hne Hc Hd). }
  cbv beta iota. set (h1 := set_fs _ h). rewrite (run_ok _ _ h1 (set_files (A ++ l2.*1) h1) tt).
  2:{ unfold modify. do 2 f_equal. cbn [files h1 set_fs]. rewrite Hfiles. cbn [fmap list_fmap fst]. by rewrite (delete_middle A). }
  cbn in Hnd. apply NoDup_cons in Hnd as [Hn Hnd]. rewrite (IH A); [done|done| |done].
  eapply Forall_impl; [apply Forall_and; split; [exact Hrem'|]; apply (Forall_forall (fun p => file_name p.1 <> file_name f)); intros p Hp E; apply Hn; rewrite <- E; apply list_elem_of_fmap_2; by apply (list_elem_of_fmap_2 fst)|].
  intros p [(H1 & H2 & H3 & H4) H5]. split_and!; try done. cbn. rewrite lookup_delete_ne; [done|]. congruence.
Qed.

Lemma delete_names_dir l d L : NoDup ((file_entry <$> l).*1 ++ L.*1) -> dir_is d ((file_entry <$> l) ++ L) -> dir_is (delete_names l d) L.
Proof.
  revert d. induction l as [|[f ch] l IH]; intros d Hnd Hd; [done|]. cbn [delete_names foldl]. apply IH; cbn [fmap list_fmap app] in Hnd, Hd.
  - by apply NoDup_cons in Hnd as [_ ?].
  - apply (dir_is_delete _ _ (file_name f) (inode f)); [|done]. by rewrite fmap_app.
Qed.

Lemma inv_removable b c olds l1 tl h : inv b c olds (l1 ++ tl) h -> Forall (fun p => committed p.1 = false) tl -> Forall (removable (fs h)) tl /\ NoDup (file_name <$> tl.*1).
Proof.
  intros Hi Hc. pose proof (inv_cur _ _ _ _ _ Hi) as Hcur. apply cur_ok_app in Hcur as [_ Hcur]. split.
  - assert (forall p, p ∈ tl -> ledger_dir (fs h) !! file_name p.1 = Some (inode p.1)) as Hd.
    { intros p Hp. apply (inv_dir _ _ _ _ _ Hi). rewrite fmap_app, !elem_of_app. right. right. by apply (list_elem_of_fmap_2 file_entry) in Hp. }
    revert Hcur Hc Hd. generalize (b + zlen (mjoin olds.*2) + 1 + zlen (mjoin l1.*2)). clear Hi. induction tl as [|[f ch] tl IH]; intros s Hcur Hc Hd; [constructor|].
    destruct Hcur as [(_ & ? & ? & _) Hcur]. inversion Hc; subst. constructor; [split_and!; try done; apply (Hd (f, ch)); left|]. eapply IH; try done. intros p Hp. apply Hd. by right.
  - pose proof (inv_names_nodup _ _ _ _ _ Hi) as Hnd. rewrite !fmap_app, !NoDup_app in Hnd. destruct Hnd as (_ & _ & _ & _ & Hnd). by rewrite <- !list_fmap_compose in *.
Qed.

(** The names without those of the files at the end. *)
Lemma inv_drop_names b c olds l1 tl h : inv b c olds (l1 ++ tl) h ->
  dir_is (delete_names tl (ledger_dir (fs h))) (old_entries (b + 1) olds ++ (file_entry <$> l1)).
Proof.
  intros Hi. pose proof (inv_names_nodup _ _ _ _ _ Hi) as Hnd. pose proof (inv_dir _ _ _ _ _ Hi) as Hd. rewrite (fmap_app file_entry), app_assoc in Hnd, Hd. apply delete_names_dir.
  - rewrite fmap_app in Hnd. eapply NoDup_Permutation_proper; [|exact Hnd]. apply Permutation_app_comm.
  - eapply dir_is_perm; [|exact Hd]. apply Permutation_app_comm.
Qed.

Lemma first_containing_last fs rs s cur : cur_ok fs rs s cur -> cur <> [] -> first_containing (s + zlen (mjoin cur.*2) - 1) cur.*1 = (length cur - 1)%nat.
Proof.
  intros Hc Hne. assert (0 < zlen (mjoin cur.*2)) as Hpos.
  { destruct cur as [|[f ch] cur]; [done|]. destruct Hc as [(_ & Hch & _) _]. cbn [fmap list_fmap snd]. rewrite mjoin_cons, length_app. destruct ch; [done|cbn; lia]. }
  assert (s <= s + zlen (mjoin cur.*2) - 1 < s + zlen (mjoin cur.*2)) as Hin by lia.
  destruct (first_containing_spec _ _ _ _ _ Hc Hin) as (l1 & f & ch & l2 & -> & -> & Hr). destruct l2 as [|p l2]; [rewrite length_app; cbn; lia|exfalso].
  apply cur_ok_app in Hc as [_ [(Hs & _ & Hh & _) Hc2]]. pose proof (cur_ok_last _ _ _ _ p Hc2 ltac:(left)) as Hp. pose proof (holds_last_idx _ _ _ Hh) as Hl.
  rewrite fmap_app, join_app, length_app in Hr. cbn [fmap list_fmap snd] in Hr, Hp. rewrite !mjoin_cons, !length_app in Hr. rewrite mjoin_cons, length_app in Hp. lia.
Qed.

(** What is behind the commit index is not committed. *)
Lemma behind_not_committed b c olds l1 tl h s : inv b c olds (l1 ++ tl) h -> cur_ok (fs h) (recovery_start_idx h) s tl -> (forall p, p ∈ tl -> c < file_last_idx p.1) ->
  Forall (fun p => committed p.1 = false) tl.
Proof.
  intros Hi Hc Hlt. apply Forall_forall. intros p Hp. pose proof (inv_committed _ _ _ _ _ Hi) as Hcom. rewrite Forall_forall in Hcom.
  specialize (Hcom p ltac:(apply elem_of_app; by right)). specialize (Hlt p Hp). destruct (committed p.1); [|done]. specialize (Hcom eq_refl). lia.
Qed.

Lemma take_entries {A} (o x y : list A) n : n = (length o + length x)%nat -> take n (o ++ x ++ y) = o ++ x.
Proof. intros ->. rewrite app_assoc, <- length_app. apply take_app_length. Qed.

(** What is before some files is complete. *)
Lemma inv_before b c olds l1 p l2 h : inv b c olds (l1 ++ p :: l2) h -> Forall (fun p => completed p.1 = true) l1.
Proof.
  intros Hi. pose proof (inv_open _ _ _ _ _ Hi) as Ho. destruct (require_new_file h); [by apply Forall_app in Ho as [? _]|]. destruct Ho as (cur' & q & Heq & _ & Ho).
  destruct l2 as [|q2 l2 _] using rev_ind; [by apply app_inj_tail in Heq as [<- _]|]. rewrite app_comm_cons, app_assoc in Heq. apply app_inj_tail in Heq as [<- _]. by apply Forall_app in Ho as [? _].
Qed.

(** The entries behind [idx] are dropped: a file is cut. *)
Lemma truncate_cut b c olds l1 f ch l2 h idx : inv b c olds (l1 ++ (f, ch) :: l2) h -> c <= idx -> start_idx f <= idx < file_last_idx f ->
  Forall (fun p => committed p.1 = false) ((f, ch) :: l2) ->
  let ch' := take (Z.to_nat (idx - start_idx f + 1)) ch in
  exists f' h', truncate_files (S (length l2)) (length l1) true idx (set_require_new_file true h) = (h', Ok tt) /\
    inv b c olds (l1 ++ [(f', ch')]) (set_last_idx idx h') /\ kept h h'.
Proof.
  intros Hi Hci Hidx Hunc ch'. destruct (inv_removable _ _ _ _ _ _ Hi Hunc) as [Hrem Hnd]. pose proof (inv_cur _ _ _ _ _ Hi) as Hcur. apply cur_ok_app in Hcur as [_ [Hfile _]].
  destruct (Hfile) as (Hs & Hne & Hh & _). inversion Hunc as [|? ? Hco Hunc2]; subst. inversion Hrem as [|? ? _ Hrem2]; subst. cbn in Hco. pose proof (holds_last_idx _ _ _ Hh) as Hl.
  destruct (truncate_holds _ f ch idx (fs h) Hh Hco eq_refl Hidx) as (f' & Hrun & Hh' & Hsame & Hc'). fold ch' in Hrun, Hh'. destruct (Hsame) as (E1 & E2 & E3 & E4 & E5).
  assert (length ch' = Z.to_nat (idx - start_idx f + 1)) as Hlen by (unfold ch'; rewrite length_take; lia).
  pose proof (proj1 (inv_inodes _ _ _ _ _ Hi)) as Hino. rewrite fmap_app, fmap_app, !NoDup_app in Hino. destruct Hino as (_ & _ & _ & _ & Hino). cbn in Hino. apply NoDup_cons in Hino as [Hino _].
  cbn [truncate_files]. set (h0 := set_require_new_file true h). rewrite (run_ok _ _ h0 h0 h0) by done.
  assert (files h0 !! length l1 = Some f) as ->. { cbn. rewrite (inv_files _ _ _ _ _ Hi), fmap_app, lookup_app_r, length_fmap, Nat.sub_diag; [done|by rewrite length_fmap]. }
  set (h1 := set_fs (set_bytes (inode f) (layout false ch') (fs h)) h0).
  rewrite (run_ok _ _ h0 h1 (f', false)) by (unfold on_fs, zoom; cbn [fs h0 set_require_new_file]; by rewrite Hrun). cbv beta iota.
  set (h2 := set_require_new_file false (set_files ((l1.*1 ++ [f']) ++ l2.*1) h1)).
  rewrite (run_ok _ _ h1 (set_files ((l1.*1 ++ [f']) ++ l2.*1) h1) tt).
  2:{ unfold modify. do 2 f_equal. cbn. rewrite (inv_files _ _ _ _ _ Hi), fmap_app. cbn. rewrite insert_app_r_alt by (by rewrite length_fmap). rewrite length_fmap, Nat.sub_diag. cbn. by rewrite <- app_assoc. }
  rewrite (run_ok _ _ (set_files ((l1.*1 ++ [f']) ++ l2.*1) h1) h2 tt) by done.
  replace (S (length l1)) with (length (l1.*1 ++ [f'])) by (rewrite length_app, length_fmap; cbn; lia).
  rewrite (remove_files l2 (l1.*1 ++ [f']) h2 idx); [|done| |by cbn in Hnd; apply NoDup_cons in Hnd as [_ ?]].
  2:{ apply Forall_forall. intros p Hp. rewrite Forall_forall in Hrem2. destruct (Hrem2 p Hp) as (H1 & H2 & H3 & H4). split_and!; try done. cbn [fs h2 h1 set_files set_require_new_file set_fs].
      rewrite bytes_of_set_ne; [done|]. intros E. apply Hino. change (inode f ∈ inode <$> l2.*1). rewrite E. apply (list_elem_of_fmap_2 inode). by apply (list_elem_of_fmap_2 fst). }
  exists f'. eexists. split; [reflexivity|]. split; [|done]. pose proof (inv_range _ _ _ _ _ Hi). pose proof (inv_last _ _ _ _ _ Hi) as Hlast. pose proof (inv_base _ _ _ _ _ Hi).
  pose proof (inv_entries _ _ _ _ _ Hi) as Hent. rewrite fmap_app, join_app in Hlast, Hent. cbn [fmap list_fmap snd] in Hlast, Hent. rewrite mjoin_cons, !length_app in Hlast. rewrite mjoin_cons, !Forall_app in Hent.
  apply (inv_tail b c olds l1 ((f, ch) :: l2) [(f', ch')] h); cbn [fs files last_idx files_read_cache recovery_start_idx require_new_file ledger_dir read_ledger_dirs next_inode set_bytes set_files set_fs set_last_idx set_require_new_file set_ledger_dir h0 h1 h2 inodes]; try done.
  - constructor; [cbn; congruence|constructor].
  - by rewrite fmap_app.
  - rewrite fmap_app, join_app, length_app. cbn [fmap list_fmap snd]. rewrite mjoin_cons, app_nil_r. lia.
  - lia.
  - intros j Hj _. apply (bytes_of_set_ne (inode f) j _ (fs h)). intros <-. apply Hj. left.
  - cbn [cur_ok]. split; [|done]. eapply file_ok_same; try done; [intros E; rewrite E in Hlen; cbn in Hlen; lia|]. unfold bytes_of. cbn. by rewrite lookup_insert_eq.
  - pose proof (inv_drop_names b c olds (l1 ++ [(f, ch)]) l2 h) as Hd. rewrite <- app_assoc in Hd. specialize (Hd Hi). rewrite fmap_app in *. cbn [fmap list_fmap] in *. by rewrite (entry_same f f' ch ch') by done.
  - change (inodes_of [(f', ch')]) with [inode f']. rewrite E2. constructor; [|constructor]. left. left.
  - cbn [fmap list_fmap snd]. rewrite mjoin_cons, app_nil_r. apply Forall_take. apply Hent.
  - by exists (f', ch').
  - by eapply inv_before.
  - rewrite !fmap_app, !join_app. cbn [fmap list_fmap snd]. rewrite !mjoin_cons, app_nil_r. assert (ch = ch' ++ drop (Z.to_nat (idx - start_idx f + 1)) ch) as Hch by (symmetry; apply take_drop). rewrite Hch.
    rewrite !app_assoc. rewrite <- !(app_assoc _ _ (mjoin l2.*2)). rewrite (take_app_le ((mjoin olds.*2 ++ mjoin l1.*2) ++ ch')); [done|]. rewrite !length_app. lia.
Qed.

(** The entries behind [idx] are dropped: whole files are removed. *)
Lemma truncate_remove b c olds l1 f ch l2 h idx : inv b c olds (l1 ++ (f, ch) :: l2) h -> c <= idx -> idx = start_idx f - 1 ->
  Forall (fun p => committed p.1 = false) ((f, ch) :: l2) ->
  exists h', truncate_files (S (length l2)) (length l1) true idx (set_require_new_file true h) = (h', Ok tt) /\ inv b c olds l1 (set_last_idx idx h') /\ kept h h'.
Proof.
  intros Hi Hci Hidx Hunc. destruct (inv_removable _ _ _ _ _ _ Hi Hunc) as [Hrem Hnd]. pose proof (inv_cur _ _ _ _ _ Hi) as Hcur. apply cur_ok_app in Hcur as [_ [(Hs & Hne & Hh & _) _]].
  pose proof (holds_last_idx _ _ _ Hh) as Hl. pose proof (inv_range _ _ _ _ _ Hi). pose proof (inv_last _ _ _ _ _ Hi) as Hlast. pose proof (inv_base _ _ _ _ _ Hi).
  rewrite fmap_app, join_app in Hlast. cbn [fmap list_fmap snd] in Hlast. rewrite mjoin_cons, !length_app in Hlast.
  set (h0 := set_require_new_file true h).
  assert (files h0 = l1.*1 ++ ((f, ch) :: l2).*1) as Hfiles by (cbn; by rewrite (inv_files _ _ _ _ _ Hi), fmap_app).
  assert (truncate_files (S (length l2)) (length l1) true idx h0 = truncate_files (length ((f, ch) :: l2)) (length l1.*1) false idx h0) as ->.
  { cbn [truncate_files length]. rewrite length_fmap, !(run_ok _ _ h0 h0 h0) by done. rewrite Hfiles, lookup_app_r, length_fmap, Nat.sub_diag by (by rewrite length_fmap). cbn [lookup list_lookup fmap list_fmap fst].
    by rewrite (wrap64_small (start_idx f - 1)), Hidx by (unfold u64; rewrite M64_val; lia). }
  rewrite (remove_files ((f, ch) :: l2) l1.*1 h0 idx Hfiles Hrem Hnd). eexists. split; [reflexivity|]. split; [|done].
  rewrite <- (app_nil_r l1). apply (inv_tail b c olds l1 ((f, ch) :: l2) [] h); rewrite ?app_nil_r; cbn [fs files last_idx files_read_cache recovery_start_idx require_new_file ledger_dir read_ledger_dirs next_inode set_files set_fs set_last_idx set_require_new_file set_ledger_dir h0 inodes length]; try done; try lia; try (constructor; fail).
  - by apply (inv_drop_names b c olds l1 ((f, ch) :: l2) h).
  - by eapply inv_before.
  - rewrite !fmap_app, !join_app. rewrite (app_assoc _ (mjoin l1.*2) (mjoin ((f, ch) :: l2).*2)). rewrite (take_app_le (mjoin olds.*2 ++ mjoin l1.*2)); [done|]. rewrite length_app. lia.
Qed.

Lemma truncate_inv b c olds cur h idx : inv b c olds cur h -> flushed c cur -> committed_idx h = c ->
  exists cur' h', truncate idx h = (h', Ok tt) /\ inv b c olds cur' h' /\ flushed c cur' /\ kept h h' /\
    mjoin olds.*2 ++ mjoin cur'.*2 =
      (if (last_idx h <=? idx) || (idx <? c) then mjoin olds.*2 ++ mjoin cur.*2 else take (Z.to_nat (idx - b)) (mjoin olds.*2 ++ mjoin cur.*2)).
Proof.
  intros Hi Hf Hc. unfold truncate. rewrite (run_ok _ _ h h h) by done. rewrite Hc. destruct ((last_idx h <=? idx) || (idx <? c)) eqn:Hno.
  { exists cur, h. by split_and!. }
  pose proof (inv_bounds _ _ _ _ _ Hi) as Hbd. pose proof (inv_last _ _ _ _ _ Hi) as Hlast. pose proof (inv_base _ _ _ _ _ Hi) as Hb. pose proof (inv_cur _ _ _ _ _ Hi) as Hcur.
  assert (c <= idx < last_idx h) as Hidx by lia.
  assert (b + zlen (mjoin olds.*2) + 1 <= idx + 1 < b + zlen (mjoin olds.*2) + 1 + zlen (mjoin cur.*2)) as Hin by lia.
  destruct (first_containing_spec _ _ _ _ _ Hcur Hin) as (l1 & f & ch & l2 & Heq & Hfrom & Hr).
  rewrite (run_ok _ _ h (set_require_new_file true h) tt) by done. cbv zeta. unfold get_it_contains_idx. rewrite (inv_files _ _ _ _ _ Hi).
  destruct (Z.eqb_spec (idx + 1) 0); [lia|]. destruct (Z.eqb_spec (last_idx h) 0); [lia|]. rewrite Hfrom.
  replace (last_idx h) with (b + zlen (mjoin olds.*2) + 1 + zlen (mjoin cur.*2) - 1) by lia. rewrite (first_containing_last _ _ _ _ Hcur) by (intros E; rewrite E in Hin; cbn in Hin; lia).
  subst cur. rewrite length_fmap, length_app. cbn [length]. destruct (Nat.eqb_spec (length l1 + S (length l2) - 1) (length l1 + S (length l2))); [lia|].
  replace (length l1 + S (length l2) - 1 + 1 - length l1)%nat with (S (length l2)) by lia.
  apply cur_ok_app in Hcur as Hcur2. destruct Hcur2 as [_ [(Hs & Hne & Hh & _) Hcur2]]. pose proof (holds_last_idx _ _ _ Hh) as Hl.
  assert (Forall (fun p => committed p.1 = false) ((f, ch) :: l2)) as Hunc.
  { constructor.
    - cbn. pose proof (inv_committed _ _ _ _ _ Hi) as Hcom. apply Forall_app in Hcom as [_ Hcom]. inversion Hcom as [|? ? Hx _]; subst. cbn in Hx. destruct (committed f); [|done]. specialize (Hx eq_refl). lia.
    - eapply (behind_not_committed b c olds (l1 ++ [(f, ch)]) l2 h); [by rewrite <- app_assoc|exact Hcur2|]. intros p Hp. pose proof (cur_ok_last _ _ _ _ p Hcur2 Hp). lia. }
  apply Forall_app in Hf as [Hf _].
  rewrite fmap_app, join_app. cbn [fmap list_fmap snd]. rewrite mjoin_cons. destruct (Z.eqb_spec idx (start_idx f - 1)) as [E|E].
  - destruct (truncate_remove b c olds l1 f ch l2 h idx Hi ltac:(lia) E Hunc) as (h' & Hrun & Hi' & Hc'). rewrite (run_ok _ _ _ h' tt Hrun).
    exists l1, (set_last_idx idx h'). split; [done|]. split; [done|]. split; [done|]. split; [exact Hc'|]. symmetry. apply take_entries. lia.
  - destruct (truncate_cut b c olds l1 f ch l2 h idx Hi ltac:(lia) ltac:(lia) Hunc) as (f' & h' & Hrun & Hi' & Hc'). rewrite (run_ok _ _ _ h' tt Hrun).
    eexists _, (set_last_idx idx h'). split; [done|]. split; [exact Hi'|]. split; [by eapply flushed_snoc|]. split; [exact Hc'|].
    rewrite fmap_app, join_app. cbn [fmap list_fmap snd]. rewrite mjoin_cons, app_nil_r. rewrite <- (take_drop (Z.to_nat (idx - start_idx f + 1)) ch) at 2. rewrite <- (app_assoc (take _ ch)), (app_assoc (mjoin l1.*2)).
    symmetry. apply take_entries. rewrite length_app, length_take. lia.
Qed.

(** *** Committing *)

Lemma dir_is_rename d A n n' i B : NoDup (get_start_idx_from_file_name <$> (A ++ (n, i) :: B).*1) -> get_start_idx_from_file_name n' = get_start_idx_from_file_name n ->
  dir_is d (A ++ (n, i) :: B) -> dir_is (<[n' := i]> (delete n d)) (A ++ (n', i) :: B).
Proof.
  intros Hnd Hs Hd. assert (NoDup (get_start_idx_from_file_name n :: (get_start_idx_from_file_name <$> (A ++ B).*1))) as Hnd1.
  { rewrite !fmap_app in *. cbn [fmap list_fmap fst] in Hnd. eapply NoDup_Permutation_proper; [|exact Hnd]. apply Permutation_middle. }
  apply NoDup_cons in Hnd1 as [Hn Hnd1]. assert (forall m, get_start_idx_from_file_name m = get_start_idx_from_file_name n -> m ∉ (A ++ B).*1) as Hm.
  { intros m Hm Hin. apply Hn. rewrite <- Hm. by apply list_elem_of_fmap_2. }
  eapply dir_is_perm; [apply Permutation_middle|]. apply dir_is_insert; [by apply Hm|].
  apply (dir_is_delete _ _ n i); [apply NoDup_cons; split; [by apply Hm|by apply NoDup_fmap_1 in Hnd1]|]. eapply dir_is_perm; [|exact Hd]. symmetry. apply Permutation_middle.
Qed.
Lemma inv_starts_nodup b c olds cur h : inv b c olds cur h -> NoDup (get_start_idx_from_file_name <$> (old_entries (b + 1) olds ++ (file_entry <$> cur)).*1).
Proof.
  intros Hi. rewrite (inv_names b c olds cur h Hi). apply NoDup_fmap_2_strong; [by intros ? ? _ _ [= ->]|]. apply starts_range, (inv_nonempty b c olds cur h Hi).
Qed.

Lemma inv_up b c c' olds cur h : inv b c olds cur h -> c <= c' <= last_idx h -> inv b c' olds cur h.
Proof.
  intros [] Hc. split; try done; [lia|..].
  - eapply Forall_impl; [exact inv_committed0|]. cbn. intros p Hp Hp'. specialize (Hp Hp'). lia.
  - eapply Forall_impl; [exact inv_cache0|]. intros f (ch & ? & ? & ? & ? & ? & ? & ?). exists ch. split_and!; try done. lia.
Qed.

(** A file gets the name of a committed file. *)
Definition as_committed (f : LedgerFile) : LedgerFile := set_committed true (set_file_name (committed_file_name (start_idx f) (file_last_idx f) (recovery f)) f).
Definition renamed (f : LedgerFile) (n : list ascii) (h : Ledger) : FS := set_ledger_dir (<[n := inode f]> (delete (file_name f) (ledger_dir (fs h)))) (fs h).

Section committing.
Context (b c : Z) (olds : list (nat * list (list Z))) (l1 : list (LedgerFile * list (list Z))) (f : LedgerFile) (ch : list (list Z)) (l2 : list (LedgerFile * list (list Z))) (h : Ledger).
Context (Hi : inv b c olds (l1 ++ (f, ch) :: l2) h).

Lemma mid_file : file_ok (fs h) (recovery_start_idx h) (b + zlen (mjoin olds.*2) + 1 + zlen (mjoin l1.*2)) f ch.
Proof using Hi. pose proof (inv_cur _ _ _ _ _ Hi) as Hc. by apply cur_ok_app in Hc as [_ [Hc _]]. Qed.
Lemma mid_bounds : 0 < start_idx f /\ file_last_idx f <= last_idx h < 2 ^ 62 /\ file_last_idx f = start_idx f + zlen ch - 1 /\ 0 < zlen ch.
Proof using Hi.
  destruct mid_file as (Hs & Hne & Hh & _). pose proof (inv_base _ _ _ _ _ Hi). pose proof (inv_range _ _ _ _ _ Hi). pose proof (inv_last _ _ _ _ _ Hi) as Hl.
  rewrite fmap_app, join_app in Hl. cbn [fmap list_fmap snd] in Hl. rewrite mjoin_cons, !length_app in Hl. rewrite (holds_last_idx _ _ _ Hh).
  assert (0 < zlen ch) by (destruct ch; [done|cbn; lia]). lia.
Qed.
Lemma mid_dir : ledger_dir (fs h) !! file_name f = Some (inode f).
Proof using Hi. apply (inv_dir _ _ _ _ _ Hi). rewrite fmap_app, !elem_of_app. right. right. left. Qed.
Lemma mid_start : get_start_idx_from_file_name (file_name f) = Ok (start_idx f).
Proof using Hi.
  destruct mid_file as (_ & _ & _ & _ & Hn & _). pose proof mid_bounds. rewrite Hn. unfold name_of.
  destruct (committed f); [apply start_of_committed; lia|apply start_of_file_name; lia].
Qed.

(** Another name with the same start. *)
Lemma mid_rename n : get_start_idx_from_file_name n = Ok (start_idx f) ->
  dir_is (ledger_dir (renamed f n h)) (old_entries (b + 1) olds ++ (file_entry <$> l1) ++ (n, inode f) :: (file_entry <$> l2)).
Proof using Hi.
  intros Hn. pose proof (inv_starts_nodup _ _ _ _ _ Hi) as Hnd. pose proof (inv_dir _ _ _ _ _ Hi) as Hd. rewrite (fmap_app file_entry), app_assoc in Hnd, Hd. cbn [fmap list_fmap] in Hnd, Hd.
  rewrite app_assoc. apply (dir_is_rename _ _ (file_name f)); [exact Hnd|by rewrite mid_start|exact Hd].
Qed.

Lemma written_committed f' : committed f' = true -> forall i, i ∈ written (l1 ++ (f', ch) :: l2) -> i ∈ written (l1 ++ (f, ch) :: l2).
Proof using Type.
  intros Hc i (p & Hp & Hpc & ->)%elem_written. apply elem_written. exists p. split; [|done]. apply elem_of_app in Hp as [Hp|[->|Hp]%elem_of_cons]; [|cbn in Hpc; congruence|]; apply elem_of_app; [by left|right; by right].
Qed.

(** It stays in the list, as a recovery file does. *)
Lemma inv_commit_keep : committed f = false -> completed f = true -> recovery f = true -> file_last_idx f <= c ->
  inv b c olds (l1 ++ (as_committed f, ch) :: l2) (set_files (l1 ++ (as_committed f, ch) :: l2).*1 (set_fs (renamed f (committed_file_name (start_idx f) (file_last_idx f) (recovery f)) h) h)).
Proof using Hi.
  intros Hco Hcomp Hrec Hlast. pose proof mid_bounds as Hb. pose proof (mid_rename (committed_file_name (start_idx f) (file_last_idx f) (recovery f)) ltac:(apply start_of_committed; lia)) as Hd.
  destruct mid_file as (Hs & Hne & Hh & Hr & Hn & _). pose proof (inv_cur _ _ _ _ _ Hi) as Hc. apply cur_ok_app in Hc as [Hc1 [_ Hc2]].
  assert ((l1 ++ (as_committed f, ch) :: l2).*2 = (l1 ++ (f, ch) :: l2).*2) as E2 by (by rewrite !fmap_app).
  assert (inode <$> (l1 ++ (as_committed f, ch) :: l2).*1 = inode <$> (l1 ++ (f, ch) :: l2).*1) as E1 by (by rewrite !fmap_app).
  pose proof Hi as Hi2. destruct Hi2. split; rewrite ?E2, ?E1; cbn [fs files last_idx files_read_cache recovery_start_idx require_new_file set_files set_fs]; try done.
  - apply cur_ok_app. split; [by apply (cur_ok_fs (fs h))|]. split; [|by apply (cur_ok_fs (fs h))]. split_and!; try done. by destruct Hh.
  - cbn [renamed ledger_dir set_ledger_dir]. rewrite fmap_app. exact Hd.
  - destruct (proj1 (Forall_app _ _ _) inv_committed0) as [? Hx]. inversion Hx; subst. apply Forall_app. split; [done|]. constructor; [done|done].
  - destruct (require_new_file h).
    + destruct (proj1 (Forall_app _ _ _) inv_open0) as [? Hx]. inversion Hx; subst. apply Forall_app. split; [done|]. by constructor.
    + destruct inv_open0 as (cur' & q & Heq & Hq & Ho). destruct l2 as [|q2 l2' _] using rev_ind; [apply app_inj_tail in Heq as [_ <-]; cbn in Hq; congruence|].
      rewrite app_comm_cons, app_assoc in Heq. apply app_inj_tail in Heq as [<- <-]. exists (l1 ++ (as_committed f, ch) :: l2'), q2. split; [by rewrite <- app_assoc|]. split; [done|].
      apply Forall_app in Ho as [? Hx]. inversion Hx; subst. apply Forall_app. split; [done|]. by constructor.
  - eapply Forall_impl; [exact inv_cache0|]. intros g Hg. eapply cached_stable; [exact Hg|done|done| |done]. intros i Hin. left. eapply written_committed; [|exact Hin]. done.
Qed.
End committing.

(** It leaves the list, and is known by its name. *)
Lemma inv_commit_move b c olds f ch l2 h e : inv b c olds ((f, ch) :: l2) h -> completed f = true -> file_last_idx f <= c -> e <= file_last_idx f ->
  inv b c (olds ++ [(inode f, ch)]) l2 (set_files l2.*1 (set_end_of_committed_files_idx e (set_fs (renamed f (committed_file_name (start_idx f) (file_last_idx f) false) h) h))).
Proof.
  intros Hi Hcomp Hlast He. pose proof (mid_bounds b c olds [] f ch l2 h Hi) as Hb. destruct (mid_file b c olds [] f ch l2 h Hi) as (Hs & Hne & Hh & Hr & Hn & _). cbn in Hs. rewrite Z.add_0_r in Hs.
  pose proof (mid_rename b c olds [] f ch l2 h Hi (committed_file_name (start_idx f) (file_last_idx f) false) ltac:(apply start_of_committed; lia)) as Hd. cbn [fmap list_fmap app] in Hd.
  pose proof (inv_cur _ _ _ _ _ Hi) as [_ Hc2].
  assert (mjoin (olds ++ [(inode f, ch)]).*2 ++ mjoin l2.*2 = mjoin olds.*2 ++ mjoin ((f, ch) :: l2).*2) as Ees
    by (rewrite fmap_app, join_app; cbn [fmap list_fmap snd]; by rewrite !mjoin_cons, app_nil_r, <- app_assoc).
  assert (zlen (mjoin (olds ++ [(inode f, ch)]).*2) = zlen (mjoin olds.*2) + zlen ch) as Eo by (rewrite fmap_app, join_app, length_app; cbn [fmap list_fmap snd]; rewrite mjoin_cons, app_nil_r; lia).
  destruct (Hi). cbn [fmap list_fmap snd] in inv_last0. rewrite mjoin_cons, length_app in inv_last0.
  split; rewrite ?Ees, ?Eo; cbn [fs files last_idx files_read_cache recovery_start_idx require_new_file set_files set_fs set_end_of_committed_files_idx]; try done; try lia.
  - apply Forall_app. split; [done|]. constructor; [|constructor]. split_and!; cbn; [done|apply Hh|]. unfold renamed. cbn. destruct Hh as [_ _ _ Hbytes _ _ _]. by rewrite Hcomp in Hbytes.
  - replace (b + (zlen (mjoin olds.*2) + zlen ch) + 1) with (b + zlen (mjoin olds.*2) + 1 + zlen ch) by lia. by apply (cur_ok_fs (fs h)).
  - cbn [renamed ledger_dir set_ledger_dir]. rewrite old_entries_app, <- app_assoc. cbn [old_entries app]. replace (b + 1 + zlen (mjoin olds.*2)) with (start_idx f) by lia.
    replace (start_idx f + zlen ch - 1) with (file_last_idx f) by lia. exact Hd.
  - rewrite fmap_app, <- app_assoc. cbn in inv_inodes0. exact inv_inodes0.
  - by inversion inv_committed0.
  - destruct (require_new_file h); [by inversion inv_open0|]. destruct inv_open0 as ([|q cur'] & q2 & Heq & Hq & Ho); injection Heq as <- Heq; [cbn in Hq; congruence|].
    exists cur', q2. split; [done|]. split; [done|]. by inversion Ho.
  - eapply Forall_impl; [exact inv_cache0|]. intros g Hg. eapply cached_stable; [exact Hg|done|done| |done]. intros i (p & Hp & Hpc & ->)%elem_written. left. apply elem_written.
    exists p. split; [by right|done].
  - cbn. lia.
Qed.

Lemma file_commit_run b c olds l1 f ch l2 h idx : inv b c olds (l1 ++ (f, ch) :: l2) h ->
  on_fs (file_commit f idx) h =
    if negb (completed f) || committed f || negb (idx =? file_last_idx f) then (h, Ok (f, false))
    else (set_fs (renamed f (committed_file_name (start_idx f) (file_last_idx f) (recovery f)) h) h, Ok (as_committed f, negb (recovery f))).
Proof.
  intros Hi. unfold on_fs, zoom, file_commit. destruct (_ || _); [by destruct h|].
  rewrite (run_ok _ _ _ _ _ (file_rename_run f _ (fs h) (mid_dir _ _ _ _ _ _ _ _ Hi))). done.
Qed.

(** Non-recovery files come before recovery files. *)
Lemma recovery_after b c olds l1 f ch l2 h : inv b c olds (l1 ++ (f, ch) :: l2) h -> Forall (fun p => committed p.1 = true) l1 -> recovery f = false -> l1 = [].
Proof.
  intros Hi Hl Hr. destruct l1 as [|[g gch] l1]; [done|exfalso]. inversion Hl as [|? ? Hg _]; subst. cbn in Hg. pose proof (inv_cur _ _ _ _ _ Hi) as [(Hs & _ & _ & Hgr & _ & Hgc) Hc].
  destruct (Hgc Hg) as [_ Hgr2]. pose proof (mid_file _ _ _ _ _ _ _ _ Hi) as (Hs2 & _ & _ & Hfr & _). rewrite Hfr in Hr. rewrite Hgr in Hgr2. unfold rec_of in *.
  destruct (recovery_start_idx h); [|done]. cbn [fmap list_fmap snd] in Hs2. lia.
Qed.

Lemma set_files_same h : set_files (files h) h = h.
Proof. by destruct h. Qed.

(** One file of the loop. *)
Lemma commit_step b idx n olds l1 f ch l2 h : inv b idx olds (l1 ++ (f, ch) :: l2) h -> Forall (fun p => committed p.1 = true) l1 ->
  (n <> 0%nat -> completed f = true /\ file_last_idx f < idx) -> (n = 0%nat -> idx <= file_last_idx f) ->
  exists olds' l1' h', commit_files (S n) (length l1) idx h = commit_files n (length l1') idx h' /\ inv b idx olds' (l1' ++ l2) h' /\
    Forall (fun p => committed p.1 = true \/ idx <= file_last_idx p.1) l1' /\ (n <> 0%nat -> Forall (fun p => committed p.1 = true) l1') /\
    mjoin olds'.*2 ++ mjoin (l1' ++ l2).*2 = mjoin olds.*2 ++ mjoin (l1 ++ (f, ch) :: l2).*2 /\ kept h h'.
Proof.
  intros Hi Hl Hn Hz. pose proof (mid_bounds _ _ _ _ _ _ _ _ Hi) as Hb. pose proof (mid_file _ _ _ _ _ _ _ _ Hi) as (_ & _ & _ & _ & _ & Hcc).
  assert (Forall (fun p => committed p.1 = true \/ idx <= file_last_idx p.1) l1) as Hl' by (eapply Forall_impl; [exact Hl|]; cbn; auto).
  cbn [commit_files]. rewrite (run_ok _ _ h h h) by done. rewrite (inv_files _ _ _ _ _ Hi), fmap_app, lookup_app_r, length_fmap, Nat.sub_diag by (by rewrite length_fmap). cbn [fmap list_fmap fst lookup list_lookup].
  cbv zeta. set (k := if (n =? 0)%nat then idx else file_last_idx f). pose proof (file_commit_run _ _ _ _ _ _ _ _ k Hi) as Hrun.
  destruct (negb (completed f) || committed f || negb (k =? file_last_idx f)) eqn:Hno.
  - rewrite (run_ok _ _ _ _ _ Hrun). cbn [andb]. exists olds, (l1 ++ [(f, ch)]), h. split.
    { rewrite (run_ok _ _ h h tt); [by rewrite length_app, Nat.add_1_r|]. unfold modify. rewrite list_insert_id; [by rewrite set_files_same|].
      by rewrite (inv_files _ _ _ _ _ Hi), fmap_app, lookup_app_r, length_fmap, Nat.sub_diag by (by rewrite length_fmap). }
    rewrite <- !app_assoc. split; [done|]. assert (committed f = true \/ n = 0%nat) as Hor.
    { destruct (committed f); [by left|right]. destruct (Nat.eqb_spec n 0); [done|exfalso]. destruct (Hn ltac:(done)) as [Hcomp _]. unfold k in Hno. rewrite Hcomp, Z.eqb_refl in Hno. done. }
    split_and!; try done.
    + apply Forall_app. split; [done|]. constructor; [|constructor]. cbn. destruct Hor; auto.
    + intros Hn0. apply Forall_app. split; [done|]. constructor; [|constructor]. cbn. by destruct Hor.
  - apply orb_false_iff in Hno as [Hno Hk]. apply orb_false_iff in Hno as [Hcomp Hco]. apply negb_false_iff in Hcomp, Hk. apply Z.eqb_eq in Hk.
    assert (file_last_idx f <= idx) as Hle by (destruct (Nat.eqb_spec n 0) as [->|Hne]; [unfold k in Hk; cbn in Hk; lia|destruct (Hn Hne); lia]).
    rewrite (run_ok _ _ _ _ _ Hrun). set (h1 := set_fs _ h). destruct (recovery f) eqn:Hr; cbn [negb andb].
    + exists olds, (l1 ++ [(as_committed f, ch)]), (set_files (l1 ++ (as_committed f, ch) :: l2).*1 h1). split.
      { rewrite (run_ok _ _ h1 (set_files (l1 ++ (as_committed f, ch) :: l2).*1 h1) tt); [by rewrite length_app, Nat.add_1_r|]. unfold modify. do 2 f_equal. cbn [files h1 set_fs].
        rewrite (inv_files _ _ _ _ _ Hi), !fmap_app. cbn [fmap list_fmap fst]. rewrite insert_app_r_alt by (by rewrite length_fmap). by rewrite length_fmap, Nat.sub_diag. }
      rewrite <- !app_assoc. split; [pose proof (inv_commit_keep _ _ _ _ _ _ _ _ Hi Hco Hcomp Hr Hle) as Hk2; rewrite Hr in Hk2; exact Hk2|]. split_and!; try done.
      * apply Forall_app. split; [done|]. constructor; [by left|constructor].
      * intros _. apply Forall_app. split; [done|]. constructor; [done|constructor].
      * by rewrite !fmap_app.
    + pose proof (recovery_after _ _ _ _ _ _ _ _ Hi Hl Hr) as ->. cbn [app length fmap list_fmap fst] in *.
      assert (negb (n =? 0)%nat || (idx =? file_last_idx f) = true) as ->. { destruct (Nat.eqb_spec n 0) as [->|]; [|done]. cbn in *. unfold k in Hk. by apply Z.eqb_eq. }
      exists (olds ++ [(inode f, ch)]), []. eexists. split.
      { rewrite (run_ok _ _ h1 (set_end_of_committed_files_idx (file_last_idx f) h1) tt) by done. rewrite (run_ok _ _ _ (set_files l2.*1 (set_end_of_committed_files_idx (file_last_idx f) h1)) tt); [reflexivity|].
        unfold modify. do 2 f_equal. cbn. by rewrite (inv_files _ _ _ _ _ Hi). }
      split; [by apply inv_commit_move|]. split_and!; try done; try constructor. rewrite fmap_app, join_app. cbn [app fmap list_fmap snd]. by rewrite !mjoin_cons, app_nil_r, <- app_assoc.
Qed.

Lemma commit_files_inv b idx q l2 u : forall olds l1 h, inv b idx olds (l1 ++ u ++ q :: l2) h -> Forall (fun p => committed p.1 = true) l1 ->
  Forall (fun p => file_last_idx p.1 < idx) u -> idx <= file_last_idx q.1 -> Forall (fun p => idx <= file_last_idx p.1) l2 ->
  exists olds' cur' h', commit_files (S (length u)) (length l1) idx h = (h', Ok tt) /\ inv b idx olds' cur' h' /\ flushed idx cur' /\
    mjoin olds'.*2 ++ mjoin cur'.*2 = mjoin olds.*2 ++ mjoin (l1 ++ u ++ q :: l2).*2 /\ kept h h'.
Proof.
  induction u as [|[f ch] u IH]; intros olds l1 h Hi Hl Hu Hq Hl2.
  - destruct q as [f ch]. destruct (commit_step b idx 0 olds l1 f ch l2 h Hi Hl) as (olds' & l1' & h' & Hrun & Hi' & Hf & _ & Hes & Hc); [done|done|].
    exists olds', (l1' ++ l2), h'. cbn [length]. rewrite Hrun. split_and!; try done. apply Forall_app. split.
    + eapply Forall_impl; [exact Hf|]. cbn. intros p [?|?] ?; [done|lia].
    + eapply Forall_impl; [exact Hl2|]. cbn. lia.
  - inversion Hu as [|? ? Hf Hu']; subst. cbn in Hf. cbn [app length] in *.
    destruct (commit_step b idx (S (length u)) olds l1 f ch (u ++ q :: l2) h Hi Hl) as (olds' & l1' & h' & Hrun & Hi' & _ & Hl' & Hes & Hc); [|done|].
    { intros _. split; [|done]. pose proof (inv_before b idx olds (l1 ++ (f, ch) :: u) q l2 h) as Hbef. rewrite <- app_assoc in Hbef. specialize (Hbef Hi). apply Forall_app in Hbef as [_ Hbef]. by inversion Hbef. }
    destruct (IH olds' l1' h' Hi' (Hl' ltac:(done)) Hu' Hq Hl2) as (olds2 & cur2 & h2 & Hrun2 & Hi2 & Hf2 & Hes2 & Hc2).
    exists olds2, cur2, h2. rewrite Hrun, Hrun2. split_and!; try done; [congruence|]. destruct Hc, Hc2. split; congruence.
Qed.

Lemma first_containing_before k l : Forall (fun f => file_last_idx f < k) (take (first_containing k l) l).
Proof. induction l as [|f l IH]; cbn; [constructor|]. destruct (Z.leb_spec k (file_last_idx f)); cbn; [constructor|]. constructor; [lia|done]. Qed.
Lemma first_containing_le k l1 f l2 : k <= file_last_idx f -> (first_containing k (l1 ++ f :: l2) <= length l1)%nat.
Proof. intros Hk. induction l1 as [|g l1 IH]; cbn; [destruct (Z.leb_spec k (file_last_idx f)); lia|]. destruct (Z.leb_spec k (file_last_idx g)); lia. Qed.

Lemma commit_inv b c olds cur h idx : inv b c olds cur h -> flushed c cur -> committed_idx h = c ->
  let c' := if (idx <=? c) || (last_idx h <? idx) then c else idx in
  exists olds' cur' h', commit idx h = (h', Ok tt) /\ inv b c' olds' cur' h' /\ flushed c' cur' /\ committed_idx h' = c' /\ recovery_start_idx h' = recovery_start_idx h /\
    mjoin olds'.*2 ++ mjoin cur'.*2 = mjoin olds.*2 ++ mjoin cur.*2.
Proof.
  intros Hi Hf Hc. unfold commit. rewrite (run_ok _ _ h h h) by done. rewrite Hc. destruct ((idx <=? c) || (last_idx h <? idx)) eqn:Hno.
  { exists olds, cur, h. by split_and!. }
  pose proof (inv_bounds _ _ _ _ _ Hi) as Hbd. pose proof (inv_last _ _ _ _ _ Hi) as Hlast. pose proof (inv_base _ _ _ _ _ Hi) as Hb. pose proof (inv_cur _ _ _ _ _ Hi) as Hcur.
  assert (b + zlen (mjoin olds.*2) + 1 <= idx < b + zlen (mjoin olds.*2) + 1 + zlen (mjoin cur.*2)) as Hin by lia.
  destruct (first_containing_spec _ _ _ _ _ Hcur Hin) as (l & f & ch & l2 & Heq & Hto & Hr).
  set (k := if c =? 0 then 1 else c). assert (0 < k <= idx) as Hk by (unfold k; destruct (Z.eqb_spec c 0); lia).
  cbv zeta. unfold get_it_contains_idx. rewrite (inv_files _ _ _ _ _ Hi). destruct (Z.eqb_spec k 0); [lia|]. destruct (Z.eqb_spec idx 0); [lia|]. rewrite Hto.
  pose proof (first_containing_before k cur.*1) as Hbefore. subst cur. rewrite !fmap_app in *. cbn [fmap list_fmap fst] in *. pose proof (first_containing_le k l.*1 f l2.*1 ltac:(lia)) as Hle. rewrite length_fmap in Hle.
  set (m := first_containing k (l.*1 ++ f :: l2.*1)) in *. rewrite take_app_le, <- fmap_take in Hbefore by (rewrite length_fmap; lia).
  rewrite length_app, length_fmap. cbn [length]. destruct (Nat.eqb_spec (length l) (length l + S (length l2.*1))); [lia|].
  apply cur_ok_app in Hcur as [Hcur1 [(Hs & Hne & Hh & _) Hcur2]]. pose proof (holds_last_idx _ _ _ Hh) as Hl.
  rewrite <- (take_drop m l) in Hi. rewrite <- app_assoc in Hi.
  destruct (commit_files_inv b idx (f, ch) l2 (drop m l) olds (take m l) h) as (olds' & cur' & h' & Hrun & Hi' & Hf' & Hes & Hc').
  - apply (inv_up _ c); [done|lia].
  - apply Forall_forall. intros p Hp. apply Forall_app in Hf as [Hf _]. unfold flushed in Hf. rewrite Forall_forall in Hf. rewrite Forall_forall in Hbefore. pose proof (cur_ok_last _ _ _ _ p Hcur1 ltac:(eapply subseteq_take; exact Hp)) as Hp1.
    specialize (Hbefore p.1 ltac:(by apply (list_elem_of_fmap_2 fst))). cbn in Hbefore. apply Hf; [eapply subseteq_take; exact Hp|]. unfold k in Hbefore. destruct (Z.eqb_spec c 0); lia.
  - apply Forall_forall. intros p Hp. pose proof (cur_ok_last _ _ _ _ p Hcur1 ltac:(eapply subseteq_drop; exact Hp)). lia.
  - cbn. lia.
  - apply Forall_forall. intros p Hp. pose proof (cur_ok_last _ _ _ _ p Hcur2 Hp). lia.
  - rewrite length_drop, length_take, Nat.min_l in Hrun by lia. replace (length l + 1 - m)%nat with (S (length l - m)) by lia. rewrite (run_ok _ _ h h' tt Hrun).
    exists olds', cur', (set_committed_idx idx h'). split; [done|]. split; [destruct Hi'; by split|]. split; [done|]. split; [done|]. split; [apply Hc'|]. rewrite Hes, app_assoc, take_drop. by rewrite fmap_app.
Qed.

(** *** The service is open

    [complete_recovery] gives the recovery files their final names, from the first to the last: between
    two of them the ledger is one whose recovery started at the last file that was opened. *)

Lemma cur_ok_rs fs rs rs' s cur : (forall p, p ∈ cur -> rec_of rs (start_idx p.1) = rec_of rs' (start_idx p.1)) -> cur_ok fs rs s cur -> cur_ok fs rs' s cur.
Proof.
  revert s. induction cur as [|[f ch] cur IH]; intros s Hrs; [done|]. cbn [cur_ok]. intros [(Hs & Hne & Hh & Hr & Hx) Hc]. split.
  - do 3 (split; [done|]). split; [|exact Hx]. pose proof (Hrs (f, ch) ltac:(left)) as E. cbn in E. rewrite Hs in E. by rewrite Hr.
  - apply IH; [|done]. intros p Hp. apply Hrs. by right.
Qed.

Lemma inv_rs b c olds cur h rs : inv b c olds cur h -> (forall p, p ∈ cur -> rec_of (recovery_start_idx h) (start_idx p.1) = rec_of rs (start_idx p.1)) ->
  inv b c olds cur (set_recovery_start_idx rs h).
Proof. intros [] Hrs. split; try done. by eapply cur_ok_rs. Qed.

Lemma cur_ok_rec fs rs s cur p : cur_ok fs rs s cur -> p ∈ cur -> recovery p.1 = rec_of rs (start_idx p.1) /\ (committed p.1 = true -> recovery p.1 = true).
Proof.
  revert s. induction cur as [|[f ch] cur IH]; intros s; cbn [cur_ok]; [by intros _ ?%elem_of_nil|]. intros [(Hs & _ & _ & Hr & _ & Hx) Hc] [->|Hp]%elem_of_cons; [|by eapply IH].
  cbn. rewrite Hs. split; [done|]. intros Hco. by destruct (Hx Hco).
Qed.

Definition opened (f : LedgerFile) : LedgerFile := set_recovery false (set_file_name (file_name_of (start_idx f) false) f).

Lemma inv_open_keep b c olds l1 f ch l2 h : inv b c olds (l1 ++ (f, ch) :: l2) h -> committed f = false -> recovery f = true -> Forall (fun p => recovery p.1 = false) l1 ->
  inv b c olds (l1 ++ (opened f, ch) :: l2) (set_recovery_start_idx (Some (start_idx f)) (set_files (l1 ++ (opened f, ch) :: l2).*1 (set_fs (renamed f (file_name_of (start_idx f) false) h) h))).
Proof.
  intros Hi Hco Hrec Hl1. pose proof (mid_bounds _ _ _ _ _ _ _ _ Hi) as Hb. pose proof (mid_rename _ _ _ _ _ _ _ _ Hi (file_name_of (start_idx f) false) ltac:(apply start_of_file_name; lia)) as Hd.
  destruct (mid_file _ _ _ _ _ _ _ _ Hi) as (Hs & Hne & Hh & Hr & Hn & _). pose proof (inv_cur _ _ _ _ _ Hi) as Hc. apply cur_ok_app in Hc as [Hc1 [_ Hc2]].
  assert ((l1 ++ (opened f, ch) :: l2).*2 = (l1 ++ (f, ch) :: l2).*2) as E2 by (by rewrite !fmap_app).
  assert (inode <$> (l1 ++ (opened f, ch) :: l2).*1 = inode <$> (l1 ++ (f, ch) :: l2).*1) as E1 by (by rewrite !fmap_app).
  pose proof Hi as Hi2. destruct Hi2. split; rewrite ?E2, ?E1; cbn [fs files last_idx files_read_cache recovery_start_idx require_new_file set_files set_fs set_recovery_start_idx]; try done.
  - apply cur_ok_app. split; [|split].
    + apply (cur_ok_rs _ (recovery_start_idx h)); [|by apply (cur_ok_fs (fs h))]. intros p Hp. destruct (cur_ok_rec _ _ _ _ p Hc1 Hp) as [<- _]. rewrite Forall_forall in Hl1. rewrite (Hl1 p Hp).
      pose proof (cur_ok_last _ _ _ _ p Hc1 Hp). cbn. destruct (Z.ltb_spec (start_idx f) (start_idx p.1)); [lia|done].
    + split; [exact Hs|]. split; [exact Hne|]. split; [by destruct Hh|]. split; [|split].
      * cbn. destruct (Z.ltb_spec (start_idx f) (b + zlen (mjoin olds.*2) + 1 + zlen (mjoin l1.*2))); [lia|done].
      * unfold name_of, opened. cbn. by rewrite Hco.
      * cbn. congruence.
    + apply (cur_ok_rs _ (recovery_start_idx h)); [|by apply (cur_ok_fs (fs h))]. intros p Hp. pose proof (cur_ok_last _ _ _ _ p Hc2 Hp). rewrite Hrec in Hr. unfold rec_of in *.
      destruct (recovery_start_idx h); [|done]. destruct (Z.ltb_spec (start_idx f) (start_idx p.1)); [|lia]. destruct (Z.ltb_spec z (start_idx p.1)); [done|lia].
  - cbn [renamed ledger_dir set_ledger_dir]. rewrite fmap_app. exact Hd.
  - destruct (proj1 (Forall_app _ _ _) inv_committed0) as [? Hx]. inversion Hx; subst. apply Forall_app. split; [done|]. by constructor.
  - destruct (require_new_file h).
    + destruct (proj1 (Forall_app _ _ _) inv_open0) as [? Hx]. inversion Hx; subst. apply Forall_app. split; [done|]. by constructor.
    + destruct inv_open0 as (cur' & q & Heq & Hq & Ho). destruct l2 as [|q2 l2' _] using rev_ind.
      * apply app_inj_tail in Heq as [<- <-]. by exists l1, (opened f, ch).
      * rewrite app_comm_cons, app_assoc in Heq. apply app_inj_tail in Heq as [<- <-]. exists (l1 ++ (opened f, ch) :: l2'), q2. split; [by rewrite <- app_assoc|]. split; [done|].
        apply Forall_app in Ho as [? Hx]. inversion Hx; subst. apply Forall_app. split; [done|]. by constructor.
  - eapply Forall_impl; [exact inv_cache0|]. intros g Hg. eapply cached_stable; [exact Hg|done|done| |done]. intros i (p & Hp & Hpc & ->)%elem_written. left. apply elem_written.
    apply elem_of_app in Hp as [Hp|[->|Hp]%elem_of_cons]; [exists p|exists (f, ch)|exists p]; (split; [|done]); rewrite elem_of_app, elem_of_cons; auto.
Qed.

Lemma file_open_run b c olds l1 f ch l2 h' h : inv b c olds (l1 ++ (f, ch) :: l2) h' -> fs h' = fs h -> recovery f = true ->
  let n := if committed f then committed_file_name (start_idx f) (file_last_idx f) false else file_name_of (start_idx f) false in
  on_fs (file_open f) h = (set_fs (renamed f n h) h, Ok (set_recovery false (set_file_name n f))).
Proof.
  intros Hi Hfs Hr n. destruct (mid_file _ _ _ _ _ _ _ _ Hi) as (_ & _ & _ & _ & Hn & _). pose proof (mid_dir _ _ _ _ _ _ _ _ Hi) as Hd. rewrite Hfs in Hd. unfold on_fs, zoom, file_open.
  assert (remove_recovery_suffix (file_name f) = n) as -> by (rewrite Hn; unfold name_of, n; rewrite Hr; destruct (committed f); [apply open_committed_name|apply open_file_name]).
  by rewrite (run_ok _ _ _ _ _ (file_rename_run f n (fs h) Hd)).
Qed.

(** Where the loop is: [D] is open, [R] is to come. *)
Definition opening (rs : option Z) (cur : list (LedgerFile * list (list Z))) (h : Ledger) : Ledger := set_recovery_start_idx rs (set_files cur.*1 h).
Definition is_open (p : LedgerFile * list (list Z)) : Prop := recovery p.1 = false /\ committed p.1 = false.

Lemma open_files_inv b c R : forall rs D olds h, inv b c olds (D ++ R) (opening rs (D ++ R) h) -> flushed c (D ++ R) -> Forall is_open D ->
  exists olds' D' h', open_recovery_files D.*1 R.*1 h = (h', Ok tt) /\ inv b c olds' D' (set_recovery_start_idx None h') /\ flushed c D' /\
    mjoin olds'.*2 ++ mjoin D'.*2 = mjoin olds.*2 ++ mjoin (D ++ R).*2 /\ committed_idx h' = committed_idx h.
Proof.
  induction R as [|[f ch] R IH]; intros rs D olds h Hi Hf Ho.
  - rewrite app_nil_r in *. exists olds, D, (set_files D.*1 h). split; [done|]. split; [|done]. apply (inv_rs _ _ _ _ _ None) in Hi; [done|]. intros p Hp.
    destruct (cur_ok_rec _ _ _ _ p (inv_cur _ _ _ _ _ Hi) Hp) as [<- _]. rewrite Forall_forall in Ho. by destruct (Ho p Hp).
  - cbn [fmap list_fmap fst open_recovery_files]. pose proof (cur_ok_rec _ _ _ _ (f, ch) (inv_cur _ _ _ _ _ Hi) ltac:(apply elem_of_app; right; left)) as [_ Hcr]. cbn in Hcr.
    assert (Forall (fun p => recovery p.1 = false) D) as Hrec by (eapply Forall_impl; [exact Ho|]; by intros p []).
    destruct (recovery f) eqn:Hr.
    + pose proof (file_open_run _ _ _ _ _ _ _ _ h Hi eq_refl Hr) as Hrun. cbv zeta in Hrun. destruct (committed f) eqn:Hco.
      * assert (D = []) as ->.
        { destruct D as [|p D]; [done|exfalso]. inversion Ho as [|? ? [_ Hp] _]; subst. unfold flushed in Hf. apply Forall_cons in Hf as [Hf _].
          pose proof (inv_committed _ _ _ _ _ Hi) as Hcc. apply Forall_app in Hcc as [_ Hcc]. apply Forall_cons in Hcc as [Hcc _]. cbn in Hcc. specialize (Hcc Hco).
          pose proof (inv_cur _ _ _ _ _ Hi) as Hcur. apply cur_ok_app in Hcur as [Hc1 [(Hs & Hne & Hh & _) _]]. pose proof (cur_ok_last _ _ _ _ p Hc1 ltac:(left)). pose proof (mid_bounds _ _ _ _ _ _ _ _ Hi).
          rewrite Hf in Hp; [done|lia]. }
        pose proof (mid_file _ _ _ [] _ _ _ _ Hi) as (Hs & _ & _ & _ & _ & Hm). destruct (Hm Hco) as [Hcomp _].
        pose proof (inv_committed _ _ _ _ _ Hi) as Hcc. cbn [app] in Hcc. apply Forall_cons in Hcc as [Hcc _].
        pose proof (mid_bounds _ _ _ [] _ _ _ _ Hi) as Hb. pose proof (inv_end _ _ _ _ _ Hi) as Hend0. cbn in Hend0.
        assert (end_of_committed_files_idx h <= file_last_idx f) as Hend by (cbn in Hs; lia).
        pose proof (inv_commit_move _ _ _ _ _ _ _ (end_of_committed_files_idx h) Hi Hcomp (Hcc Hco) Hend) as Hi'. rewrite (run_ok _ _ _ _ _ Hrun). cbn [committed set_recovery set_file_name]. rewrite Hco.
        destruct (IH rs [] _ (set_fs (renamed f (committed_file_name (start_idx f) (file_last_idx f) false) h) h) Hi') as (olds' & D' & h' & Hrun' & Hi2 & Hf2 & Hes & Hc2); [by apply Forall_cons in Hf as [_ Hf]|done|].
        exists olds', D', h'. split_and!; try done. rewrite Hes, fmap_app, join_app. cbn [app fmap list_fmap snd]. by rewrite !mjoin_cons, app_nil_r, <- app_assoc.
      * pose proof (inv_open_keep _ _ _ _ _ _ _ _ Hi Hco Hr Hrec) as Hi'. rewrite (run_ok _ _ _ _ _ Hrun). cbn [committed set_recovery set_file_name]. rewrite Hco.
        replace (D ++ (opened f, ch) :: R) with ((D ++ [(opened f, ch)]) ++ R) in Hi' by (by rewrite <- app_assoc).
        destruct (IH (Some (start_idx f)) (D ++ [(opened f, ch)]) olds (set_fs (renamed f (file_name_of (start_idx f) false) h) h) Hi') as (olds' & D' & h' & Hrun' & Hi2 & Hf2 & Hes & Hc2).
        { rewrite <- app_assoc. unfold flushed in *. apply Forall_app in Hf as [Hf1 Hf2]. apply Forall_app. split; [done|]. apply Forall_cons in Hf2 as [? ?]. by constructor. }
        { apply Forall_app. split; [done|]. by constructor. }
        exists olds', D', h'. rewrite fmap_app in Hrun'. split_and!; try done. by rewrite Hes, <- app_assoc, !fmap_app.
    + destruct (committed f) eqn:Hco; [by specialize (Hcr eq_refl)|]. replace (D ++ (f, ch) :: R) with ((D ++ [(f, ch)]) ++ R) in * by (by rewrite <- app_assoc).
      destruct (IH rs (D ++ [(f, ch)]) olds h Hi Hf) as (olds' & D' & h' & Hrun' & Hx); [apply Forall_app; split; [done|]; by constructor|].
      exists olds', D', h'. rewrite fmap_app in Hrun'. by split.
Qed.

Lemma complete_recovery_inv b c olds cur h : inv b c olds cur h -> flushed c cur ->
  exists olds' cur' h', complete_recovery h = (h', Ok tt) /\ inv b c olds' cur' h' /\ flushed c cur' /\ committed_idx h' = committed_idx h /\
    mjoin olds'.*2 ++ mjoin cur'.*2 = mjoin olds.*2 ++ mjoin cur.*2 /\ recovery_start_idx h' = None.
Proof.
  intros Hi Hf. destruct (open_files_inv b c cur (recovery_start_idx h) [] olds h) as (olds' & D' & h' & Hrun & Hi' & Hf' & Hes & Hc); [|done|done|].
  - cbn [app]. unfold opening. rewrite <- (inv_files _ _ _ _ _ Hi), set_files_same. by destruct h.
  - exists olds', D', (set_recovery_start_idx None h'). unfold complete_recovery. rewrite (run_ok _ _ h h h) by done. rewrite (inv_files _ _ _ _ _ Hi). cbn [fmap list_fmap] in Hrun. rewrite (run_ok _ _ _ _ _ Hrun). by split_and!.
Qed.

End HostCommit.
