(* ===== verification/HostRestart.v ===== *)
(** * Reopening the ledger on disk

    The constructor of the host's ledger (HostLedger.v, [recover]) reads the directory and
    opens every chunk.  On the files of a ledger that was in the relation of HostRefine.v it
    gives back a ledger in the relation, with the same entries: in whatever order the
    directory lists its files, and also where the last write was cut short. *)
From S2P Require Import Prelude Monad Serialized HostLedger HostFile HostRefine HostCommit.
From stdpp Require Import list gmap strings sorting.
From Stdlib Require Import Ascii.
Local Open Scope Z_scope.

Module HostRestart.
Import Serialized HostLedger HostFile HostRefine HostCommit.
#[local] Existing Instance by_last_idx_dec.

(** *** The files of a directory *)

(** The committed chunks, as the constructor opens them. *)
Fixpoint old_files (s : Z) (olds : list (nat * list (list Z))) : list LedgerFile :=
  match olds with
  | [] => []
  | (i, ch) :: olds => mkLedgerFile (committed_file_name s (s + zlen ch - 1) false) i s (8 + zlen (mjoin ch)) (offsets 8 ch) true true false :: old_files (s + zlen ch) olds
  end.
Definition all_files (b : Z) (olds : list (nat * list (list Z))) (cur : list (LedgerFile * list (list Z))) : list LedgerFile := old_files (b + 1) olds ++ cur.*1.

Lemma old_files_elem s olds f : f ∈ old_files s olds -> exists o1 i ch o2, olds = o1 ++ (i, ch) :: o2 /\
  f = mkLedgerFile (committed_file_name (s + zlen (mjoin o1.*2)) (s + zlen (mjoin o1.*2) + zlen ch - 1) false) i (s + zlen (mjoin o1.*2)) (8 + zlen (mjoin ch)) (offsets 8 ch) true true false.
Proof.
  revert s. induction olds as [|[j ch] olds IH]; intros s H; cbn [old_files] in H; [by apply not_elem_of_nil in H|].
  apply elem_of_cons in H as [->|H]; [exists [], j, ch, olds; cbn; by rewrite Z.add_0_r|].
  destruct (IH _ H) as (o1 & i & ch' & o2 & -> & ->). exists ((j, ch) :: o1), i, ch', o2. split; [done|]. cbn [fmap list_fmap snd]. rewrite mjoin_cons, length_app.
  by replace (s + zlen ch + zlen (mjoin o1.*2)) with (s + Z.of_nat (length ch + length (mjoin o1.*2))) by lia.
Qed.
Lemma old_files_app s o1 o2 : old_files s (o1 ++ o2) = old_files s o1 ++ old_files (s + zlen (mjoin o1.*2)) o2.
Proof.
  revert s. induction o1 as [|[j ch] o1 IH]; intros s; cbn [app old_files fmap list_fmap snd]; [cbn; by rewrite Z.add_0_r|].
  rewrite IH, mjoin_cons, length_app. do 3 f_equal. lia.
Qed.
Lemma old_files_names s olds : (fun f => (file_name f, inode f)) <$> old_files s olds = old_entries s olds.
Proof. revert s. induction olds as [|[j ch] olds IH]; intros s; cbn; [done|]. by rewrite IH. Qed.

Lemma old_files_inodes s olds : inode <$> old_files s olds = olds.*1.
Proof. revert s. induction olds as [|[j ch] olds IH]; intros s; cbn; [done|]. by rewrite IH. Qed.

(** The kind of file [open_torn] gives back. *)
Lemma holds_file b f es : holds b f es -> f = mkLedgerFile (file_name f) (inode f) (start_idx f) (8 + zlen (mjoin es)) (offsets 8 es) (completed f) (committed f) (recovery f).
Proof. intros [Hp Ht _ _ _ _ _]. destruct f; cbn in *. by subst. Qed.

(** What every file of the directory is. *)
Definition chunk_file (fs : FS) (f : LedgerFile) (ch : list (list Z)) : Prop :=
  ch <> [] /\ Forall entry_ok ch /\ holds (bytes_of (inode f) fs) f ch /\ ledger_dir fs !! file_name f = Some (inode f) /\
  get_start_idx_from_file_name (file_name f) = Ok (start_idx f) /\ committed f = is_ledger_file_name_committed (file_name f) /\ recovery f = false /\
  is_ledger_file_name_recovery (file_name f) || is_ledger_file_name_ignored (file_name f) = false /\ (committed f = true -> completed f = true).

Lemma olds_chunk b c o1 i ch o2 cur h : inv b c (o1 ++ (i, ch) :: o2) cur h ->
  let s := b + 1 + zlen (mjoin o1.*2) in
  chunk_file (fs h) (mkLedgerFile (committed_file_name s (s + zlen ch - 1) false) i s (8 + zlen (mjoin ch)) (offsets 8 ch) true true false) ch.
Proof.
  intros Hi s. pose proof (inv_olds _ _ _ _ _ Hi) as Ho. rewrite Forall_app, Forall_cons in Ho. destruct Ho as (_ & (Hne & Hsm & Hb) & _). cbn [fst snd] in Hne, Hsm, Hb.
  pose proof (inv_base _ _ _ _ _ Hi) as Hbase. pose proof (inv_bounds _ _ _ _ _ Hi) as Hbd. pose proof (inv_range _ _ _ _ _ Hi) as Hr. pose proof (inv_entries _ _ _ _ _ Hi) as He.
  rewrite fmap_app, join_app, length_app in Hbd. cbn [fmap list_fmap snd] in Hbd. rewrite mjoin_cons, length_app in Hbd. assert (0 < zlen ch) by (destruct ch; [done|cbn; lia]).
  rewrite fmap_app, join_app in He. cbn [fmap list_fmap snd] in He. rewrite mjoin_cons, !Forall_app in He. destruct He as [(_ & He & _) _].
  destruct (committed_name_flags s (s + zlen ch - 1) false) as (Hc & Hrec & Hig).
  assert (Forall (fun e => 0 < zlen e) ch) by (eapply Forall_impl; [exact He|]; intros e (_ & ? & _); lia).
  split; [done|]. split; [done|]. split; [split; cbn [positions total_len start_idx completed inode]; try done; lia|]. split.
  { apply (inv_dir _ _ _ _ _ Hi), elem_of_app. left. rewrite old_entries_app. apply elem_of_app. right. by left. }
  cbn [file_name start_idx committed recovery completed]. split; [apply start_of_committed; lia|]. by rewrite Hc, Hrec, Hig.
Qed.

Lemma cur_chunk b c olds l1 f ch l2 h : inv b c olds (l1 ++ (f, ch) :: l2) h -> recovery_start_idx h = None -> chunk_file (fs h) f ch.
Proof.
  intros Hi Hrs. destruct (mid_file _ _ _ _ _ _ _ _ Hi) as (Hs & Hne & Hh & Hr & Hn & Hc). rewrite Hrs in Hr. cbn in Hr. pose proof (mid_bounds _ _ _ _ _ _ _ _ Hi) as Hb.
  pose proof (inv_entries _ _ _ _ _ Hi) as He. rewrite fmap_app, join_app in He. cbn [fmap list_fmap snd] in He. rewrite mjoin_cons, !Forall_app in He. destruct He as (_ & _ & He & _).
  assert (committed f = false) as Hco by (destruct (committed f); [destruct (Hc eq_refl); congruence|done]). unfold name_of in Hn. rewrite Hco, Hr in Hn.
  split; [done|]. split; [done|]. split; [done|]. split; [exact (mid_dir _ _ _ _ _ _ _ _ Hi)|]. rewrite Hn, file_name_not_committed, file_name_recovery, file_name_not_ignored, start_of_file_name by lia.
  split_and!; try done. congruence.
Qed.

Lemma all_chunks b c olds cur h f : inv b c olds cur h -> recovery_start_idx h = None -> f ∈ all_files b olds cur -> exists ch, chunk_file (fs h) f ch.
Proof.
  intros Hi Hrs [Hf|Hf]%elem_of_app.
  - apply old_files_elem in Hf as (o1 & i & ch & o2 & -> & ->). exists ch. exact (olds_chunk _ _ _ _ _ _ _ _ Hi).
  - apply list_elem_of_fmap in Hf as ([g ch] & -> & Hp). apply list_elem_of_split in Hp as (l1 & l2 & ->). exists ch. exact (cur_chunk _ _ _ _ _ _ _ _ Hi Hrs).
Qed.

Lemma all_names b olds cur : (fun f => (file_name f, inode f)) <$> all_files b olds cur = old_entries (b + 1) olds ++ (file_entry <$> cur).
Proof. unfold all_files. rewrite fmap_app, old_files_names. f_equal. by rewrite <- list_fmap_compose. Qed.

(** *** The order of the files *)

Lemma old_files_last s olds f : Forall (fun o => o.2 <> []) olds -> 0 < s -> s + zlen (mjoin olds.*2) < 2 ^ 63 -> f ∈ old_files s olds -> s <= file_last_idx f < s + zlen (mjoin olds.*2).
Proof.
  intros Hne Hs Hr Hf. apply old_files_elem in Hf as (o1 & i & ch & o2 & -> & ->). rewrite Forall_app, Forall_cons in Hne. destruct Hne as (_ & Hch & _). cbn in Hch. assert (0 < zlen ch) by (destruct ch; [done|cbn; lia]).
  rewrite fmap_app, join_app in *. cbn [fmap list_fmap snd] in *. rewrite mjoin_cons, !length_app in *. unfold file_last_idx. cbn [start_idx positions]. rewrite length_offsets, wrap64_small by (unfold u64; rewrite M64_val; lia). lia.
Qed.

Definition before (f g : LedgerFile) : Prop := file_last_idx f < file_last_idx g.

Lemma old_files_sorted s olds : Forall (fun o => o.2 <> []) olds -> 0 < s -> s + zlen (mjoin olds.*2) < 2 ^ 63 -> StronglySorted before (old_files s olds).
Proof.
  induction olds as [|[i ch] olds IH] using rev_ind; intros Hne Hs Hr; [constructor|]. rewrite old_files_app. apply Forall_app in Hne as [Hne Hch].
  assert (forall f, f ∈ old_files (s + zlen (mjoin olds.*2)) [(i, ch)] -> s + zlen (mjoin olds.*2) <= file_last_idx f) as Hlast.
  { intros f Hf. rewrite fmap_app, join_app, length_app in Hr. eapply old_files_last in Hf; [lia|done|lia|]. cbn [fmap list_fmap snd] in Hr |- *. lia. }
  rewrite fmap_app, join_app, length_app in Hr. apply StronglySorted_app. split_and!; [|apply IH; [done|done|lia]|repeat constructor].
  intros f g Hf Hg. apply old_files_last in Hf; [|done|done|lia]. specialize (Hlast g Hg). unfold before. lia.
Qed.

Lemma cur_sorted fs rs s cur : cur_ok fs rs s cur -> StronglySorted before cur.*1.
Proof.
  revert s. induction cur as [|[f ch] cur IH]; intros s; cbn [cur_ok fmap list_fmap fst]; [constructor|]. intros [(Hs & Hne & Hh & _) Hc]. constructor; [by eapply IH|].
  apply Forall_fmap, Forall_forall. intros p Hp. pose proof (cur_ok_last _ _ _ _ p Hc Hp). unfold before. cbn. rewrite (holds_last_idx _ _ _ Hh). lia.
Qed.

Lemma all_sorted b c olds cur h : inv b c olds cur h -> StronglySorted before (all_files b olds cur).
Proof.
  intros Hi. pose proof (inv_base _ _ _ _ _ Hi). pose proof (inv_bounds _ _ _ _ _ Hi). pose proof (inv_range _ _ _ _ _ Hi). assert (Forall (fun o => o.2 <> []) olds) as Hne by (eapply Forall_impl; [apply (inv_olds _ _ _ _ _ Hi)|]; by intros o [? _]).
  apply StronglySorted_app. split_and!; [|apply old_files_sorted; [done|lia|lia]|by eapply cur_sorted, (inv_cur _ _ _ _ _ Hi)].
  intros f g Hf Hg. apply old_files_last in Hf; [|done|lia|lia]. apply list_elem_of_fmap in Hg as (p & -> & Hp). pose proof (cur_ok_last _ _ _ _ p (inv_cur _ _ _ _ _ Hi) Hp). unfold before. lia.
Qed.

Lemma sorted_inj l f g : StronglySorted before l -> f ∈ l -> g ∈ l -> file_last_idx f = file_last_idx g -> f = g.
Proof.
  induction 1 as [|x l Hl IH Hx]; [by intros ?%elem_of_nil|]. rewrite Forall_forall in Hx. intros [->|Hf]%elem_of_cons [->|Hg]%elem_of_cons He; [done|..].
  - specialize (Hx g Hg). unfold before in Hx. lia.
  - specialize (Hx f Hf). unfold before in Hx. lia.
  - by apply IH.
Qed.
Lemma sorted_nodup l : StronglySorted before l -> NoDup l.
Proof. induction 1 as [|x l Hl IH Hx]; constructor; [|done]. intros Hin. rewrite Forall_forall in Hx. specialize (Hx x Hin). unfold before in Hx. lia. Qed.

(** Sorting any listing of the files gives the files in order. *)
Lemma sort_files l l' : StronglySorted before l -> l' ≡ₚ l -> merge_sort by_last_idx l' = l.
Proof.
  intros Hl Hp. apply (StronglySorted_unique_strong by_last_idx).
  - intros f g Hf Hg H1 H2. rewrite merge_sort_Permutation, Hp in Hf. eapply sorted_inj; [exact Hl|exact Hf|exact Hg|]. unfold by_last_idx in *. lia.
  - apply StronglySorted_merge_sort; [intros x y z; unfold by_last_idx; lia|intros x y; unfold by_last_idx; lia].
  - clear Hp. induction Hl as [|x l Hl IH Hx]; constructor; [done|]. eapply Forall_impl; [exact Hx|]. unfold before, by_last_idx. intros y. lia.
  - by rewrite merge_sort_Permutation.
Qed.

(** *** Opening the files *)

(** The disk, where the files that are not [done] can end in the beginning of an entry. *)
Record mended (fs0 : FS) (tl : nat -> list Z) (done : list nat) (fs : FS) : Prop := {
  mended_bytes : forall i, bytes_of i fs = bytes_of i fs0 ++ (if decide (i ∈ done) then [] else tl i);
  mended_dir : ledger_dir fs = ledger_dir fs0;
  mended_dirs : read_ledger_dirs fs = read_ledger_dirs fs0;
  mended_next : next_inode fs = next_inode fs0 }.

Lemma chunk_open fs1 f ch t : chunk_file fs1 f ch -> forall fs, ledger_dir fs = ledger_dir fs1 -> bytes_of (inode f) fs = layout (completed f) ch ++ t -> torn t -> (completed f = true -> t = []) ->
  open_ledger_file (ledger_dir fs) (file_name f) fs = Ok f.
Proof.
  intros (Hne & He & Hh & Hd & Hs & Hc & Hr & _) fs Hdir Hb Htt Hct.
  destruct (open_torn (ledger_dir fs) (file_name f) (inode f) (start_idx f) (completed f) ch t fs) as (g & Hg & Hgh & Hg1 & Hg2 & Hg3 & Hg4 & Hg5 & Hg6); [by rewrite Hdir|done|done|done|done|done|apply Hh|apply Hh|apply Hh|].
  rewrite Hg. f_equal. by rewrite (holds_file _ _ _ Hgh), (holds_file _ _ _ Hh), Hg1, Hg2, Hg3, Hg4, Hg5, Hg6, <- Hc, Hr.
Qed.

Lemma recover_file_run fs0 tl done f ch l : chunk_file fs0 f ch -> mended fs0 tl done (fs l) -> torn (tl (inode f)) -> (completed f = true -> tl (inode f) = []) ->
  exists fs', recover_file (file_name f) l = (set_files (files l ++ [f]) (set_fs fs' l), Ok tt) /\ mended fs0 tl (inode f :: done) fs'.
Proof.
  intros Hchunk Hm Ht Htc. pose proof Hchunk as (Hne & _ & Hh & _ & _ & _ & _ & Hname & Hcc). pose proof Hh as Hh0. unfold recover_file. rewrite Hname.
  set (t := if decide (inode f ∈ done) then [] else tl (inode f)). pose proof (mended_bytes _ _ _ _ Hm (inode f)) as Hb. fold t in Hb.
  assert (torn t) as Htt by (unfold t; destruct (decide _); [apply torn_nil|done]). assert (completed f = true -> t = []) as Hct by (intros Hx; unfold t; destruct (decide _); [done|by apply Htc]).
  rewrite (holds_bytes _ _ _ Hh) in Hb. rewrite (chunk_open fs0 f ch t) by (done || apply Hm). rewrite (holds_bytes _ _ _ Hh) in Hh.
  destruct (truncate_end_holds _ f ch t (fs l) Hh Hne Hb) as (fs' & Hrun & Hfs').
  { intros [Hx|Hx]%orb_true_iff; apply Hct; [by apply Hcc|done]. }
  unfold on_fs, zoom. rewrite Hrun. exists fs'. split; [done|]. destruct Hm as [Mb Md Mds Mn].
  destruct Hfs' as [[-> Ht0]| ->]; (split; [|done|done|done]); intros i.
  - rewrite Mb. destruct (decide (i = inode f)) as [->|Hi].
    + rewrite (decide_True (P := inode f ∈ inode f :: done)) by left. fold t. by rewrite Ht0.
    + f_equal. destruct (decide (i ∈ done)), (decide (i ∈ inode f :: done)) as [[->|?]%elem_of_cons|Hn]; try done. exfalso. apply Hn. by right.
  - destruct (decide (i = inode f)) as [->|Hi].
    + rewrite bytes_of_set, decide_True by left. by rewrite app_nil_r, (holds_bytes _ _ _ Hh0).
    + unfold bytes_of at 1. cbn. rewrite lookup_insert_ne by done. fold (bytes_of i (fs l)). rewrite Mb.
      f_equal. destruct (decide (i ∈ done)), (decide (i ∈ inode f :: done)) as [[->|?]%elem_of_cons|Hn]; try done. exfalso. apply Hn. by right.
Qed.

Lemma recover_files_run fs0 tl T ns : Forall (fun f => (exists ch, chunk_file fs0 f ch) /\ torn (tl (inode f)) /\ (completed f = true -> tl (inode f) = [])) T -> Forall (fun n => n ∈ file_name <$> T) ns ->
  forall l done, mended fs0 tl done (fs l) ->
  exists fs' fl, for_each recover_file ns l = (set_files (files l ++ fl) (set_fs fs' l), Ok tt) /\ mended fs0 tl (rev (inode <$> fl) ++ done) fs' /\ file_name <$> fl = ns /\ Forall (fun f => f ∈ T) fl.
Proof.
  intros HT. induction 1 as [|n ns Hn Hns IH]; intros l done Hm; cbn [for_each].
  - exists (fs l), []. split; [|done]. rewrite app_nil_r. by destruct l.
  - apply list_elem_of_fmap in Hn as (f & -> & Hf). rewrite Forall_forall in HT. destruct (HT f Hf) as ([ch Hch] & Ht & Htc). rewrite <- Forall_forall in HT.
    destruct (recover_file_run fs0 tl done f ch l Hch Hm Ht Htc) as (fs1 & Hrun & Hm1). rewrite (run_ok _ _ _ _ _ Hrun).
    destruct (IH (set_files (files l ++ [f]) (set_fs fs1 l)) _ Hm1) as (fs2 & fl & Hrun2 & Hm2 & Hnames & Hin). exists fs2, (f :: fl). rewrite Hrun2. split; [cbn; by rewrite <- app_assoc|].
    split; [|split; [cbn; by rewrite Hnames|by constructor]]. cbn. by rewrite <- app_assoc.
Qed.

(** All the names of the directory, in any order. *)
Lemma listed_files fs0 T fl ns : Forall (fun f => exists ch, chunk_file fs0 f ch) T -> NoDup T -> NoDup ns -> file_name <$> fl = ns -> Forall (fun f => f ∈ T) fl -> Forall (fun f => file_name f ∈ ns) T -> fl ≡ₚ T.
Proof.
  intros HT Hnd Hns Hnames Hin Hall. apply NoDup_Permutation; [|done|].
  - apply (NoDup_fmap_1 file_name). by rewrite Hnames.
  - rewrite Forall_forall in *. intros f. split; [apply Hin|]. intros Hf. specialize (Hall f Hf). rewrite <- Hnames in Hall. apply list_elem_of_fmap in Hall as (g & Heq & Hg).
    enough (Ok f = Ok g) as [= ->] by done. destruct (HT f Hf) as [ch Hch], (HT g (Hin g Hg)) as [ch' Hch'].
    rewrite <- (chunk_open fs0 f ch [] Hch fs0), <- (chunk_open fs0 g ch' [] Hch' fs0), Heq; try done; try apply torn_nil; rewrite app_nil_r; [apply Hch'|apply Hch].
Qed.

(** *** Committed files are only read *)

Lemma drop_olds olds : forall s l rest, Forall (fun o => o.2 <> []) olds -> 0 < s -> s + zlen (mjoin olds.*2) < 2 ^ 63 -> committed_idx l = s - 1 -> end_of_committed_files_idx l = s - 1 ->
  let e := s - 1 + zlen (mjoin olds.*2) in drop_committed (old_files s olds ++ rest) [] l = drop_committed rest [] (set_end_of_committed_files_idx e (set_committed_idx e l)).
Proof.
  induction olds as [|[i ch] olds IH]; intros s l rest Hne Hs Hr Hc He; cbv zeta; cbn [old_files app fmap list_fmap snd].
  - change (zlen (mjoin [])) with 0. f_equal. destruct l. cbn in *. subst. by rewrite Z.add_0_r.
  - apply Forall_cons in Hne as [Hch Hne]. cbn in Hch. assert (0 < zlen ch) by (destruct ch; [done|cbn; lia]). cbn [fmap list_fmap snd] in Hr. rewrite mjoin_cons, length_app in *. cbn [drop_committed committed].
    rewrite (run_ok _ _ l l l) by done. cbv zeta. assert (forall n x, file_last_idx (mkLedgerFile n i s x (offsets 8 ch) true true false) = s + zlen ch - 1) as Hl
      by (intros n x; unfold file_last_idx; cbn [start_idx positions]; rewrite length_offsets, wrap64_small by (unfold u64; rewrite M64_val; lia); lia).
    rewrite Hl. destruct (Z.ltb_spec (committed_idx l) (s + zlen ch - 1)); [|lia]. erewrite run_ok by done. rewrite IH; [|done|lia|lia|cbn; lia|cbn; lia]. f_equal. cbn. unfold set_end_of_committed_files_idx, set_committed_idx. cbn. f_equal; lia.
Qed.

Lemma drop_none fl : forall kept l, Forall (fun f => committed f = false) fl -> drop_committed fl kept l = (set_files (kept ++ fl) l, Ok tt).
Proof.
  induction fl as [|f fl IH]; intros kept l Hc; cbn [drop_committed]; [by rewrite app_nil_r|]. apply Forall_cons in Hc as [-> Hc]. rewrite IH by done. by rewrite <- app_assoc.
Qed.

Section host.
Context (listing : gmap (list ascii) nat -> list (list ascii)) (listing_all : forall d n, n ∈ listing d <-> is_Some (d !! n)) (listing_nodup : forall d, NoDup (listing d)).
Context (chunk_threshold : Z) (threshold_ok : 0 < chunk_threshold <= max_chunk_threshold_size).

(** What the disk can be when the host starts again: the last write can have been cut short. *)
Definition crashed (h : Ledger) (fs1 : FS) : Prop :=
  fs1 = fs h \/ exists f t, last (files h) = Some f /\ completed f = false /\ torn t /\ fs1 = set_bytes (inode f) (bytes_of (inode f) (fs h) ++ t) (fs h).

Lemma crashed_mended b c olds cur h fs1 : inv b c olds cur h -> crashed h fs1 ->
  exists tl, mended (fs h) tl [] fs1 /\ (forall i, torn (tl i)) /\ (forall i, tl i <> [] -> i ∈ inode <$> cur.*1) /\ Forall (fun f => completed f = true -> tl (inode f) = []) (all_files b olds cur).
Proof using Type.
  intros Hi [->|(f & t & Hf & Hc & Ht & ->)].
  - exists (fun _ => []). split_and!; [|intros; apply torn_nil|done|by apply Forall_true]. split; try done. intros i. destruct (decide _); by rewrite app_nil_r.
  - rewrite (inv_files _ _ _ _ _ Hi) in Hf. exists (fun i => if decide (i = inode f) then t else []). split_and!.
    + split; try done. intros i. rewrite decide_False by apply not_elem_of_nil. destruct (decide (i = inode f)) as [->|Hne]; [by rewrite bytes_of_set|]. unfold bytes_of at 1. cbn. by rewrite lookup_insert_ne, app_nil_r.
    + intros i. destruct (decide _); [done|apply torn_nil].
    + intros i. destruct (decide (i = inode f)) as [->|]; [intros _|done]. apply (list_elem_of_fmap_2 inode). by apply last_Some_elem_of.
    + apply Forall_forall. intros g Hg Hgc. destruct (decide (inode g = inode f)) as [He|]; [exfalso|done].
      assert (f ∈ all_files b olds cur) as Hfa by (apply elem_of_app; right; by apply last_Some_elem_of). enough (g = f) by congruence.
      assert (NoDup (inode <$> all_files b olds cur)) as Hnd.
      { replace (inode <$> all_files b olds cur) with (olds.*1 ++ (inode <$> cur.*1)); [apply (inv_inodes _ _ _ _ _ Hi)|]. unfold all_files. rewrite fmap_app. by rewrite old_files_inodes. }
      apply list_elem_of_lookup in Hg as [x Hx], Hfa as [y Hy]. assert (x = y) as ->; [|congruence]. eapply NoDup_lookup; [exact Hnd|..]; rewrite list_lookup_fmap; [rewrite Hx|rewrite Hy]; cbn; [done|by rewrite He].
Qed.

Lemma inv_none_committed b c olds cur h : inv b c olds cur h -> recovery_start_idx h = None -> Forall (fun p => committed p.1 = false) cur.
Proof using Type.
  intros Hi Hrs. apply Forall_forall. intros p Hp. destruct (cur_ok_rec _ _ _ _ p (inv_cur _ _ _ _ _ Hi) Hp) as [Hr Hc]. rewrite Hrs in Hr. cbn in Hr. destruct (committed p.1); [|done]. rewrite Hr in Hc. by symmetry; apply Hc.
Qed.

Lemma inv_reopen c olds cur h fs' : inv 0 c olds cur h -> recovery_start_idx h = None -> (forall i, bytes_of i fs' = bytes_of i (fs h)) -> ledger_dir fs' = ledger_dir (fs h) ->
  read_ledger_dirs fs' = read_ledger_dirs (fs h) -> next_inode fs' = next_inode (fs h) ->
  let e := zlen (mjoin olds.*2) in inv 0 e olds cur (mkLedger fs' cur.*1 [] (last_idx h) e e (require_new_file h) None) /\ flushed e cur.
Proof using Type.
  intros Hi Hrs Hb Hd Hrd Hn e. pose proof (inv_none_committed _ _ _ _ _ Hi Hrs) as Hc. pose proof (inv_cur _ _ _ _ _ Hi) as Hcur. split.
  - destruct Hi. split; cbn [fs files last_idx files_read_cache recovery_start_idx require_new_file end_of_committed_files_idx]; rewrite ?Hd, ?Hrd, ?Hn; try done; try lia.
    + eapply Forall_impl; [exact inv_olds0|]. intros o (? & ? & ?). by split_and!; rewrite ?Hb.
    + rewrite <- Hrs. by apply (cur_ok_fs (fs h)).
    + eapply Forall_impl; [exact Hc|]. cbn. congruence.
  - apply Forall_forall. intros p Hp. pose proof (cur_ok_last _ _ _ _ p Hcur Hp). unfold e. lia.
Qed.

Lemma require_last b c olds cur h : inv b c olds cur h -> match last cur.*1 with Some f => completed f | None => true end = require_new_file h.
Proof using Type.
  intros Hi. pose proof (inv_open _ _ _ _ _ Hi) as Ho. destruct cur as [|[f ch] l _] using rev_ind; cbn.
  - destruct (require_new_file h); [done|]. destruct Ho as (cur' & p & Heq & _). by destruct cur'.
  - rewrite fmap_app. cbn. rewrite last_snoc. symmetry. by eapply inv_open_last.
Qed.

Lemma last_all c olds cur h f : inv 0 c olds cur h -> last (all_files 0 olds cur) = Some f -> file_last_idx f = last_idx h /\ 0 < last_idx h.
Proof using Type.
  intros Hi. pose proof (inv_bounds _ _ _ _ _ Hi) as Hb. pose proof (inv_last _ _ _ _ _ Hi) as Hl. pose proof (inv_range _ _ _ _ _ Hi). unfold all_files. destruct cur as [|[g ch] l _] using rev_ind.
  - cbn [fmap list_fmap]. rewrite app_nil_r. change (mjoin [].*2) with (@nil (list Z)) in Hl. cbn [length] in Hl. pose proof (inv_olds _ _ _ _ _ Hi) as Ho. destruct olds as [|[i ch] olds _] using rev_ind; [done|].
    rewrite old_files_app. cbn [old_files]. rewrite last_snoc. intros [= <-]. apply Forall_app in Ho as [_ Ho]. apply Forall_cons in Ho as [[Hne _] _]. cbn in Hne. assert (0 < zlen ch) by (destruct ch; [done|cbn; lia]).
    rewrite fmap_app, join_app, length_app in Hl. cbn [fmap list_fmap snd] in Hl. rewrite mjoin_cons, app_nil_r in Hl. unfold file_last_idx. cbn [start_idx positions]. rewrite length_offsets, wrap64_small by (unfold u64; rewrite M64_val; lia). lia.
  - rewrite fmap_app, app_assoc. cbn [fmap list_fmap fst]. rewrite last_snoc. intros [= <-]. destruct (inv_unique_last _ _ _ _ _ _ _ Hi) as (Hf & Hne & Hh & Hs & _). pose proof (holds_last_idx _ _ _ Hh).
    assert (0 < zlen ch) by (destruct ch; [done|cbn; lia]). split; [done|]. pose proof (inv_base _ _ _ _ _ Hi). lia.
Qed.

Lemma recover_inv c olds cur h fs1 : inv 0 c olds cur h -> recovery_start_idx h = None -> crashed h fs1 ->
  let e := zlen (mjoin olds.*2) in
  exists h', recover listing chunk_threshold (new_ledger fs1) = (h', Ok tt) /\ inv 0 e olds cur h' /\ flushed e cur /\ committed_idx h' = e /\ recovery_start_idx h' = None.
Proof using All.
  intros Hi Hrs Hcr e. destruct (crashed_mended _ _ _ _ _ _ Hi Hcr) as (tl & Hm & Ht & Htin & Htc). set (T := all_files 0 olds cur). pose proof (all_sorted _ _ _ _ _ Hi) as Hsort. fold T in Hsort.
  assert (Forall (fun f => exists ch, chunk_file (fs h) f ch) T) as Hch by (apply Forall_forall; intros f Hf; by eapply all_chunks).
  assert (forall n, n ∈ listing (ledger_dir fs1) <-> n ∈ file_name <$> T) as Hlist.
  { intros n. rewrite listing_all, (mended_dir _ _ _ _ Hm). pose proof (all_names 0 olds cur) as Hn. fold T in Hn. split.
    - intros [i Hx]. apply (inv_dir _ _ _ _ _ Hi) in Hx. rewrite <- Hn in Hx. apply list_elem_of_fmap in Hx as (f & [= -> _] & Hf). by apply (list_elem_of_fmap_2 file_name).
    - intros (f & -> & Hf)%list_elem_of_fmap. exists (inode f). apply (inv_dir _ _ _ _ _ Hi). rewrite <- Hn. by apply (list_elem_of_fmap_2 (fun f => (file_name f, inode f))). }
  destruct (recover_files_run (fs h) tl T (listing (ledger_dir fs1))) with (l := new_ledger fs1) (done := @nil nat) as (fs2 & fl & Hrun & Hm2 & Hnames & Hin); [|by apply Forall_forall; intros n; apply Hlist|done|].
  { rewrite Forall_forall in *. intros f Hf. split_and!; [by apply Hch|done|by apply Htc]. }
  assert (fl ≡ₚ T) as Hperm. { eapply listed_files; try done; [by apply sorted_nodup|]. apply Forall_forall. intros f Hf. apply Hlist. by apply (list_elem_of_fmap_2 file_name). }
  assert (forall i, bytes_of i fs2 = bytes_of i (fs h)) as Hclean.
  { intros i. rewrite (mended_bytes _ _ _ _ Hm2 i). destruct (decide _) as [|Hn]; [by rewrite app_nil_r|]. destruct (decide (tl i = [])) as [->|Hne]; [by rewrite app_nil_r|exfalso]. apply Hn.
    rewrite app_nil_r, list_elem_of_In, <- in_rev, <- list_elem_of_In. apply Htin in Hne. rewrite Hperm. unfold T, all_files. rewrite fmap_app, elem_of_app. by right. }
  destruct (inv_reopen c olds cur h fs2 Hi Hrs Hclean) as [Hi' Hf']; [apply Hm2..|].
  assert ((if (chunk_threshold =? 0) || (max_chunk_threshold_size <? chunk_threshold) then throw LogicError else mret tt) (new_ledger fs1) = (new_ledger fs1, Ok tt)) as Hth.
  { destruct (Z.eqb_spec chunk_threshold 0); [lia|]. destruct (Z.ltb_spec max_chunk_threshold_size chunk_threshold); [lia|done]. }
  set (l0 := set_files fl (set_fs fs2 (new_ledger fs1))) in *.
  unfold recover. rewrite (run_ok _ _ _ _ _ Hth), (run_ok _ _ _ (new_ledger fs1) (new_ledger fs1)) by done. cbn [fs new_ledger].
  rewrite (mended_dirs _ _ _ _ Hm), (inv_read_dirs _ _ _ _ _ Hi). cbn [for_each]. rewrite (run_ok _ _ _ (new_ledger fs1) tt) by done.
  rewrite (run_ok _ _ _ l0 tt) by exact Hrun. rewrite (run_ok _ _ l0 l0 l0) by done. cbv zeta. cbn [files l0 set_files]. rewrite (sort_files T fl Hsort Hperm).
  destruct (last T) as [f|] eqn:Hlast.
  - destruct (last_all _ _ _ _ _ Hi Hlast) as [Hfl Hpos]. rewrite Hfl. cbn [last_idx l0 set_files set_fs new_ledger]. destruct (Z.ltb_spec 0 (last_idx h)); [|lia].
    rewrite (run_ok _ _ l0 (set_last_idx (last_idx h) l0) tt) by done. pose proof (inv_bounds _ _ _ _ _ Hi). pose proof (inv_range _ _ _ _ _ Hi).
    assert (drop_committed T [] (set_last_idx (last_idx h) l0) = (mkLedger fs2 cur.*1 [] (last_idx h) e e true None, Ok tt)) as Hdrop.
    { unfold T, all_files. rewrite drop_olds; [|eapply Forall_impl; [apply (inv_olds _ _ _ _ _ Hi)|]; by intros o [? _]|lia|lia|done|done]. rewrite drop_none; [done|].
      apply Forall_fmap. eapply Forall_impl; [by eapply inv_none_committed|]. done. }
    rewrite (run_ok _ _ _ _ _ Hdrop). rewrite (run_ok _ _ _ (mkLedger fs2 cur.*1 [] (last_idx h) e e true None) (mkLedger fs2 cur.*1 [] (last_idx h) e e true None)) by done. cbn [files].
    rewrite (require_last _ _ _ _ _ Hi). eexists. split; [reflexivity|]. by split_and!.
  - apply last_None in Hlast. assert (olds = [] /\ cur = []) as [-> ->].
    { unfold T, all_files in Hlast. apply app_eq_nil in Hlast as [H1 H2]. split; [destruct olds as [|[] ?]; done|by apply fmap_nil_inv in H2]. }
    pose proof (inv_last _ _ _ _ _ Hi) as Hl0. cbn in Hl0. pose proof (require_last _ _ _ _ _ Hi) as Hq. cbn in Hq. rewrite <- Hq in Hi'. rewrite Hl0 in Hi'. change T with (@nil LedgerFile) in Hperm. apply Permutation_nil_r in Hperm as ->.
    eexists. split; [reflexivity|]. by split_and!.
Qed.

End host.
End HostRestart.
