(* ===== verification/HostService.v ===== *)
(** * The host's ledger keeps what it is given

    The ledger on disk (HostLedger.v) against a list of entries: for the messages that
    [admissible] describes, to append, truncate, commit and open, in any order and with reads
    in between, the host answers requests for ranges of entries from the list; and after the
    host has been started again the list is the same, also when the last write was cut short. *)
From S2P Require Import Prelude Monad Serialized HostLedger HostFile HostRefine HostCommit HostRestart.
From stdpp Require Import list gmap strings.
From Stdlib Require Import Ascii.
Local Open Scope Z_scope.

Module HostService.
Import Serialized HostLedger HostFile HostRefine HostCommit HostRestart.

(** ** The list of entries *)

Record Abs := mkAbs { base : Z; log : list (list Z); commit_idx : Z; recovering : bool }.
Definition abs_last (a : Abs) : Z := base a + zlen (log a).

Definition abs_handle (m : Message) (a : Abs) : Abs :=
  match m with
  | LedgerInit idx r => mkAbs idx [] idx ((0 <? r) || recovering a)
  | LedgerAppend committable e => mkAbs (base a) (if refused committable e then log a else log a ++ [e]) (commit_idx a) (recovering a)
  | LedgerTruncate idx r =>
      mkAbs (base a) (if (abs_last a <=? idx) || (idx <? commit_idx a) then log a else take (Z.to_nat (idx - base a)) (log a)) (commit_idx a) (r || recovering a)
  | LedgerCommit idx => mkAbs (base a) (log a) (if (idx <=? commit_idx a) || (abs_last a <? idx) then commit_idx a else idx) (recovering a)
  | LedgerOpen => mkAbs (base a) (log a) (commit_idx a) false
  end.

(** The answer: the one message that is refused is an entry that asks for its chunk to end
    and is not committable. *)
Definition answer (m : Message) : result unit :=
  match m with LedgerAppend committable e => if refused committable e then Throw LogicError else Ok tt | _ => Ok tt end.

(** The messages that are considered: entries that say how long they are and find room in a
    chunk; a first index only to a ledger without files; a start of recovery only once, and not
    below what is committed. *)
Definition admissible (m : Message) (a : Abs) (h : Ledger) : Prop :=
  match m with
  | LedgerInit idx r => ledger_dir (fs h) = ∅ /\ base a = 0 /\ 0 <= idx < 2 ^ 62
  | LedgerAppend committable e =>
      entry_ok e /\ room h e /\ abs_last a + 1 < 2 ^ 62
  | LedgerTruncate idx r => r = true -> recovering a = false /\ commit_idx a <= idx
  | LedgerCommit _ | LedgerOpen => True
  end.

Section host.
Context (listing : gmap (list ascii) nat -> list (list ascii)) (chunk_threshold max_read_cache_files : Z).

Inductive reachable : Ledger -> Abs -> Prop :=
  | reach_start fs0 h x : ledger_dir fs0 = ∅ -> read_ledger_dirs fs0 = [] -> recover listing chunk_threshold (new_ledger fs0) = (h, x) -> reachable h (mkAbs 0 [] 0 false)
  | reach_message m h a h' x : reachable h a -> admissible m a h -> handle listing chunk_threshold m h = (h', x) -> reachable h' (abs_handle m a)
  | reach_read from to strict max h a h' x : reachable h a -> 0 <= max < 2 ^ 64 -> get_range listing max_read_cache_files from to strict max h = (h', x) -> reachable h' a
  | reach_restart fs1 h a h' x : reachable h a -> base a = 0 -> recovering a = false -> crashed h fs1 -> recover listing chunk_threshold (new_ledger fs1) = (h', x) ->
      reachable h' (mkAbs 0 (log a) (committed_idx h') false).

(** ** The relation is kept *)

Record refines (h : Ledger) (a : Abs) : Prop := {
  refines_inv : exists olds cur, inv (base a) (commit_idx a) olds cur h /\ flushed (commit_idx a) cur /\ log a = mjoin olds.*2 ++ mjoin cur.*2;
  refines_commit : committed_idx h = commit_idx a;
  refines_recovering : recovering a = false -> recovery_start_idx h = None }.

Lemma refines_last h a : refines h a -> last_idx h = abs_last a.
Proof using Type. intros [(olds & cur & Hi & _ & Hl) _ _]. rewrite (inv_last _ _ _ _ _ Hi). unfold abs_last. rewrite Hl, length_app. lia. Qed.

Context (listing_all : forall d n, n ∈ listing d <-> is_Some (d !! n)) (listing_nodup : forall d, NoDup (listing d)) (threshold_ok : 0 < chunk_threshold <= max_chunk_threshold_size).

Lemma listing_empty : listing ∅ = [].
Proof using listing_all. destruct (listing ∅) as [|n l] eqn:E; [done|exfalso]. assert (n ∈ listing ∅) as Hn by (rewrite E; left). apply listing_all in Hn as [? Hn]. by rewrite lookup_empty in Hn. Qed.

Lemma new_ledger_inv fs0 : ledger_dir fs0 = ∅ -> read_ledger_dirs fs0 = [] -> inv 0 0 [] [] (new_ledger fs0).
Proof using Type.
  intros Hd Hr. split; cbn; try done; try lia.
  - rewrite Hd. intros n i. rewrite lookup_empty. split; [done|]. by intros ?%elem_of_nil.
  - split; constructor.
Qed.

Lemma start_refines fs0 : ledger_dir fs0 = ∅ -> read_ledger_dirs fs0 = [] -> exists h, recover listing chunk_threshold (new_ledger fs0) = (h, Ok tt) /\ refines h (mkAbs 0 [] 0 false).
Proof using listing_all listing_nodup threshold_ok.
  intros Hd Hr. destruct (recover_inv listing listing_all listing_nodup chunk_threshold threshold_ok 0 [] [] (new_ledger fs0) fs0) as (h & Hrun & Hi & Hf & Hc & Hrs); [by apply new_ledger_inv|done|by left|].
  exists h. split; [done|]. split; [|done|done]. by exists [], [].
Qed.

Lemma restart_refines h a fs1 : refines h a -> base a = 0 -> recovering a = false -> crashed h fs1 ->
  exists h', recover listing chunk_threshold (new_ledger fs1) = (h', Ok tt) /\ refines h' (mkAbs 0 (log a) (committed_idx h') false) /\ committed_idx h' <= commit_idx a.
Proof using listing_all listing_nodup threshold_ok.
  intros [(olds & cur & Hi & Hf & Hl) Hc Hrs] Hb Hrec Hcr. rewrite Hb in Hi. pose proof (inv_bounds _ _ _ _ _ Hi).
  destruct (recover_inv listing listing_all listing_nodup chunk_threshold threshold_ok _ olds cur h fs1 Hi (Hrs Hrec) Hcr) as (h' & Hrun & Hi' & Hf' & Hc' & Hrs').
  exists h'. split; [done|]. rewrite Hc'. split; [|lia]. split; [|done|done]. by exists olds, cur.
Qed.

Lemma read_refines h a from to strict max : refines h a -> 0 <= max < 2 ^ 64 ->
  exists h' r, get_range listing max_read_cache_files from to strict max h = (h', Ok r) /\ refines h' a /\ replies (base a) (abs_last a) (log a) strict (Some max) from to r.
Proof using listing_all.
  intros Hr Hmax. pose proof (refines_last _ _ Hr) as Hlast. destruct Hr as [(olds & cur & Hi & Hf & Hl) Hc Hrs]. unfold get_range. rewrite (run_ok _ _ h h h) by done.
  assert (exists cache, (if is_in_committed_file to h then _ ← read_entries_range listing max_read_cache_files from to true true None; mret tt else mret tt) h = (set_files_read_cache cache h, Ok tt) /\
    inv (base a) (commit_idx a) olds cur (set_files_read_cache cache h)) as (cache & Hrun & Hi1).
  { unfold is_in_committed_file. destruct (Z.leb_spec to (end_of_committed_files_idx h)).
    - pose proof (inv_end _ _ _ _ _ Hi). destruct (read_range_inv listing listing_all max_read_cache_files _ _ _ _ _ from to true true None Hi) as (cache & r & Hrun & Hi1 & _); [done|done|lia|].
      exists cache. by rewrite (run_ok _ _ _ _ _ Hrun).
    - exists (files_read_cache h). split; [by destruct h|]. apply inv_with_cache; [done|apply Hi]. }
  rewrite (run_ok _ _ _ _ _ Hrun). unfold read_entries.
  destruct (read_range_inv listing listing_all max_read_cache_files _ _ _ _ _ from to false strict (Some max) Hi1) as (cache2 & r & Hrun2 & Hi2 & Hrep); [intros m [= <-]; lia|cbn; lia|done|].
  exists (set_files_read_cache cache2 (set_files_read_cache cache h)), r. split; [done|]. split; [|by rewrite <- Hlast, Hl]. split; [|done|done]. by exists olds, cur.
Qed.

Lemma init_refines h a idx r : refines h a -> admissible (LedgerInit idx r) a h ->
  exists h', init listing idx r h = (h', Ok tt) /\ refines h' (abs_handle (LedgerInit idx r) a).
Proof using listing_all.
  intros [(olds & cur & Hi & Hf & Hl) Hc Hrs] (Hd & Hb & Hidx). unfold init. rewrite (run_ok _ _ h h h) by done. rewrite Hd, listing_empty. cbn [for_each]. rewrite (run_ok _ _ h h tt) by done.
  assert (old_entries (base a + 1) olds ++ (file_entry <$> cur) = []) as Hnil.
  { destruct (old_entries (base a + 1) olds ++ (file_entry <$> cur)) as [|[n i] L] eqn:E; [done|exfalso]. assert (ledger_dir (fs h) !! n = Some i) as Hn by (apply (inv_dir _ _ _ _ _ Hi); rewrite E; left). by rewrite Hd, lookup_empty in Hn. }
  apply app_eq_nil in Hnil as [Ho Hcur]. apply fmap_nil_inv in Hcur as ->. destruct olds as [|[] olds]; [|done]. clear Ho.
  set (h1 := set_committed_idx idx (set_last_idx idx (set_require_new_file true (set_files [] h)))).
  assert (inv idx idx [] [] h1) as Hi1.
  { assert (files_read_cache h = []) as Hcache.
    { pose proof (inv_cache _ _ _ _ _ Hi) as Hx. destruct (files_read_cache h) as [|f l]; [done|exfalso]. apply Forall_cons in Hx as [(ch & Hne & _ & Hch & _) _]. apply Hne. rewrite <- Hch. cbn. by rewrite drop_nil, take_nil. }
    pose proof (inv_end _ _ _ _ _ Hi) as Hend. cbn in Hend. destruct Hi. split; cbn; try done; try lia. by rewrite Hcache. }
  unfold modify. do 4 (rewrite (run_ok _ _ _ _ tt) by done). fold h1. cbn [abs_handle]. assert (flushed idx []) by constructor. destruct (Z.ltb_spec 0 r); cbn [orb].
  - exists (set_recovery_start_idx (Some r) h1). split; [done|]. split; [|done|done]. exists [], []. split_and!; [|done|done]. apply inv_rs; [done|]. by intros p ?%elem_of_nil.
  - exists h1. split; [done|]. split; [by exists [], []|done|]. cbn. intros Hx. by apply Hrs.
Qed.

Lemma message_refines h a m : refines h a -> admissible m a h -> exists h', handle listing chunk_threshold m h = (h', answer m) /\ refines h' (abs_handle m a).
Proof using listing_all.
  intros Hr Hm. destruct m as [idx r|committable e|idx r|idx|]; cbn [handle abs_handle answer]; [by apply init_refines|..]; pose proof (refines_last _ _ Hr) as Hlast; destruct Hr as [(olds & cur & Hi & Hf & Hl) Hc Hrs].
  - destruct Hm as (He & Hroom & Hr62). destruct (refused committable e) eqn:Hafter.
    { destruct (write_entry_refused chunk_threshold _ _ _ _ h e committable Hi Hf He Hafter) as (cur' & h' & Hrun & Hi' & Hf' & Hes & Hk1 & Hk2). exists h'.
      split; [unfold mbind, M_bind; by rewrite Hrun|]. split; cbn; [|congruence|intros Hx; rewrite Hk2; by apply Hrs]. exists olds, cur'. split_and!; try done. by rewrite Hl, Hes. }
    destruct (write_entry_inv chunk_threshold _ _ _ _ h e committable Hi Hf He Hroom ltac:(lia) Hafter) as (cur' & h' & Hrun & Hi' & Hf' & Hes & Hk1 & Hk2).
    rewrite (run_ok _ _ _ _ _ Hrun). exists h'. split; [done|]. split; cbn; [|congruence|intros Hx; rewrite Hk2; by apply Hrs]. exists olds, cur'. split_and!; try done. by rewrite Hl, Hes, app_assoc.
  - destruct (truncate_inv _ _ _ _ h idx Hi Hf Hc) as (cur' & h' & Hrun & Hi' & Hf' & [Hk1 Hk2] & Hes). rewrite (run_ok _ _ _ _ _ Hrun). rewrite <- Hl, Hlast in Hes.
    destruct r; cbn [orb].
    + destruct (Hm eq_refl) as [Hrec Hge]. exists (set_recovery_start_idx (Some idx) h'). split; [done|]. split; cbn; [|congruence|done]. exists olds, cur'. split_and!; try done. apply inv_rs; [done|].
      intros p Hp. rewrite Hk2, (Hrs Hrec). cbn. pose proof (cur_ok_last _ _ _ _ p (inv_cur _ _ _ _ _ Hi') Hp) as Hpl.
      assert (b_len : base a + zlen (mjoin olds.*2 ++ mjoin cur'.*2) <= idx); [|rewrite length_app in b_len; destruct (Z.ltb_spec idx (start_idx p.1)); [lia|done]].
      rewrite Hes. unfold abs_last in *. destruct (Z.leb_spec (base a + zlen (log a)) idx); cbn [orb]; [lia|]. destruct (Z.ltb_spec idx (commit_idx a)); [lia|]. rewrite length_take. pose proof (inv_bounds _ _ _ _ _ Hi). lia.
    + exists h'. split; [done|]. split; cbn; [|congruence|intros Hx; rewrite Hk2; by apply Hrs]. by exists olds, cur'.
  - destruct (commit_inv _ _ _ _ h idx Hi Hf Hc) as (olds' & cur' & h' & Hrun & Hi' & Hf' & Hc' & Hk & Hes). rewrite Hlast in *. exists h'. split; [done|].
    split; cbn; [|done|intros Hx; rewrite Hk; by apply Hrs]. exists olds', cur'. split_and!; try done. by rewrite Hes.
  - destruct (complete_recovery_inv _ _ _ _ h Hi Hf) as (olds' & cur' & h' & Hrun & Hi' & Hf' & Hc' & Hes & Hk). exists h'. split; [done|].
    split; cbn; [|congruence|done]. exists olds', cur'. split_and!; try done. by rewrite Hes.
Qed.

Lemma reachable_refines h a : reachable h a -> refines h a.
Proof using listing_all listing_nodup threshold_ok.
  induction 1 as [fs0 h x Hd Hr Hrun|m h a h' x _ IH Hm Hrun|from to strict max h a h' x _ IH Hmax Hrun|fs1 h a h' x _ IH Hb Hrec Hcr Hrun].
  - destruct (start_refines fs0 Hd Hr) as (h1 & Hrun1 & Hh1). congruence.
  - destruct (message_refines h a m IH Hm) as (h1 & Hrun1 & Hh1). congruence.
  - destruct (read_refines h a from to strict max IH Hmax) as (h1 & r & Hrun1 & Hh1 & _). congruence.
  - destruct (restart_refines h a fs1 IH Hb Hrec Hcr) as (h1 & Hrun1 & Hh1 & _). congruence.
Qed.

(** C5. The ledger on disk is the list of entries.  The messages append, truncate, commit, start and end a recovery; between them come reads, and restarts of a ledger that
    began at the first entry and is not recovering.  From an empty directory on, after any of them, the host has the indices of the list, handles every further message of the
    kind considered, and answers a request for the
    entries from one index to another with those entries of the list, in order from the first one, never more bytes than asked for, and all of them when they fit.  An entry
    that asks for its chunk to end after it and is not committable is answered with an exception, and the list stays.  Not every message is considered: entries say how long
    they are, their chunk stays below 2^32 bytes and indices below 2^62; a first index is set only once, while there are no files; a recovery starts with a truncation that is not below the commit
    index, while there is none. *)
Theorem host_ledger_refines h a : reachable h a ->
  last_idx h = abs_last a /\ committed_idx h = commit_idx a /\
  (forall m, admissible m a h -> exists h', handle listing chunk_threshold m h = (h', answer m)) /\
  (forall from to strict max, 0 <= max < 2 ^ 64 -> exists h' r, get_range listing max_read_cache_files from to strict max h = (h', Ok r) /\
     replies (base a) (abs_last a) (log a) strict (Some max) from to r).
Proof using listing_all listing_nodup threshold_ok.
  intros Hr%reachable_refines. split_and!; [by apply refines_last|apply Hr|..].
  - intros m Hm. destruct (message_refines h a m Hr Hm) as (h' & Hrun & _). by exists h'.
  - intros from to strict max Hmax. destruct (read_refines h a from to strict max Hr Hmax) as (h' & r & Hrun & _ & Hrep). by exists h', r.
Qed.

(** C6. A ledger is opened again as it was: on the files of a ledger that began at the first entry and is not recovering, listed in any order, the constructor finds all the entries,
    and commits at most what was committed; the beginning of an entry that the last write left is cut off, and requests for ranges are answered as before. *)
Theorem host_ledger_restarts h a fs1 : reachable h a -> base a = 0 -> recovering a = false -> crashed h fs1 ->
  exists h', recover listing chunk_threshold (new_ledger fs1) = (h', Ok tt) /\ last_idx h' = abs_last a /\ committed_idx h' <= commit_idx a /\
    forall from to strict max, 0 <= max < 2 ^ 64 -> exists h2 r, get_range listing max_read_cache_files from to strict max h' = (h2, Ok r) /\
      replies 0 (abs_last a) (log a) strict (Some max) from to r.
Proof using listing_all listing_nodup threshold_ok.
  intros Hr%reachable_refines Hb Hrec Hcr. destruct (restart_refines h a fs1 Hr Hb Hrec Hcr) as (h' & Hrun & Hr' & Hc). exists h'.
  assert (abs_last (mkAbs 0 (log a) (committed_idx h') false) = abs_last a) as Hl by (unfold abs_last; cbn; lia). split; [done|]. split; [by rewrite (refines_last _ _ Hr')|]. split; [done|].
  intros from to strict max Hmax. destruct (read_refines h' _ from to strict max Hr' Hmax) as (h2 & r & Hrun2 & _ & Hrep). rewrite Hl in Hrep. by exists h2, r.
Qed.

End host.

(** ** A ledger of three entries *)

Definition dir_names (d : gmap (list ascii) nat) : list (list ascii) := (map_to_list d).*1.
Lemma dir_names_all d n : n ∈ dir_names d <-> is_Some (d !! n).
Proof.
  unfold dir_names. rewrite list_elem_of_fmap. split.
  - intros ([m i] & -> & Hin). apply elem_of_map_to_list in Hin. by exists i.
  - intros [i Hi]. exists (n, i). split; [done|]. by apply elem_of_map_to_list.
Qed.
Lemma dir_names_nodup d : NoDup (dir_names d).
Proof. apply NoDup_fst_map_to_list. Qed.

Definition demo_entry (x : Z) : list Z := [1; 0; 2; 0; 0; 0; 0; 0; x; x].
Lemma demo_entry_ok x : u8 x -> entry_ok (demo_entry x).
Proof. intros Hx. split; [|done]. unfold demo_entry. repeat (constructor; [done|]). by repeat constructor. Qed.

(** Three chunks of one entry, of which the first is committed and the last one is open. *)
Definition demo_messages : list Message := [LedgerAppend true (demo_entry 5); LedgerAppend true (demo_entry 6); LedgerCommit 1; LedgerAppend false (demo_entry 7)].
Definition demo_disk : FS := mkFS ∅ 0 ∅ [].
Definition demo_ledger : Ledger := fst (for_each (handle dir_names 12) demo_messages (fst (recover dir_names 12 (new_ledger demo_disk)))).
Definition demo_list : Abs := mkAbs 0 [demo_entry 5; demo_entry 6; demo_entry 7] 1 false.

Lemma demo_reachable : reachable dir_names 12 5 demo_ledger demo_list.
Proof.
  pose proof (reach_start dir_names 12 5 demo_disk _ _ eq_refl eq_refl (surjective_pairing _)) as H.
  eapply (reach_message dir_names 12 5 (LedgerAppend true (demo_entry 5))) in H; [|split_and!; [by apply demo_entry_ok|by vm_compute|done]|apply surjective_pairing].
  eapply (reach_message dir_names 12 5 (LedgerAppend true (demo_entry 6))) in H; [|split_and!; [by apply demo_entry_ok|by vm_compute|done]|apply surjective_pairing].
  eapply (reach_message dir_names 12 5 (LedgerCommit 1)) in H; [|done|apply surjective_pairing].
  eapply (reach_message dir_names 12 5 (LedgerAppend false (demo_entry 7))) in H; [|split_and!; [by apply demo_entry_ok|by vm_compute|done]|apply surjective_pairing].
  replace demo_ledger with (fst (handle dir_names 12 (LedgerAppend false (demo_entry 7)) (fst (handle dir_names 12 (LedgerCommit 1) (fst (handle dir_names 12 (LedgerAppend true (demo_entry 6))
    (fst (handle dir_names 12 (LedgerAppend true (demo_entry 5)) (fst (recover dir_names 12 (new_ledger demo_disk))))))))))); [exact H|by vm_compute].
Qed.

Lemma demo_threshold : 0 < 12 <= max_chunk_threshold_size.
Proof. by vm_compute. Qed.

Lemma host_ledger_refines_witness : last_idx demo_ledger = abs_last demo_list /\ exists h r, get_range dir_names 5 1 3 true 100 demo_ledger = (h, Ok r) /\
  replies (base demo_list) (abs_last demo_list) (log demo_list) true (Some 100) 1 3 r.
Proof.
  destruct (host_ledger_refines dir_names 12 5 dir_names_all dir_names_nodup demo_threshold demo_ledger demo_list demo_reachable) as (Hl & _ & _ & Hr).
  split; [exact Hl|]. apply Hr. lia.
Defined.

(** The last chunk ends in the beginning of a fourth entry. *)
Definition demo_open : LedgerFile := default (mkLedgerFile [] 0 0 0 [] true true true) (last (files demo_ledger)).
Definition demo_torn : list Z := take 9 (demo_entry 8).
Definition demo_crashed : FS := set_bytes (inode demo_open) (bytes_of (inode demo_open) (fs demo_ledger) ++ demo_torn) (fs demo_ledger).
Lemma demo_crash : crashed demo_ledger demo_crashed.
Proof.
  right. exists demo_open, demo_torn. split; [by vm_compute|]. split; [by vm_compute|]. split; [|unfold demo_crashed; reflexivity].
  exists (demo_entry 8), 9%nat. split; [by apply demo_entry_ok|]. split; [vm_compute; lia|done].
Qed.

Lemma host_ledger_restarts_witness : exists h, recover dir_names 12 (new_ledger demo_crashed) = (h, Ok tt) /\ last_idx h = abs_last demo_list /\
  exists h2 r, get_range dir_names 5 1 3 true 100 h = (h2, Ok r) /\ replies 0 (abs_last demo_list) (log demo_list) true (Some 100) 1 3 r.
Proof.
  destruct (host_ledger_restarts dir_names 12 5 dir_names_all dir_names_nodup demo_threshold demo_ledger demo_list demo_crashed demo_reachable eq_refl eq_refl demo_crash) as (h & Hrun & Hl & _ & Hr).
  exists h. split; [exact Hrun|]. split; [exact Hl|]. apply Hr. lia.
Defined.

(** A limit on the bytes of a reply can leave it empty: the chunks have the entries one and two, one entry fits, and the reply to a request for both is that there are none, although
    the reply to a request for the first one has it. *)
Example capped_range_gives_nothing :
  snd (get_range dir_names 5 1 1 false 15 demo_ledger) = Ok (Some (demo_entry 5)) /\ snd (get_range dir_names 5 1 2 false 15 demo_ledger) = Ok None.
Proof. by vm_compute. Qed.

End HostService.
